(* ===== verification/_CoqProject ===== *)
-Q . S2P
Prelude.v
SphTypes.v
Stream.v
SphSpec.v
Keccak.v
KeccakProofs.v
KeccakSponge.v
GroestlTables.v
Groestl.v
GroestlProofs.v
GroestlHash.v
Blake.v
BlakeProofs.v
BlakeHash.v
Skein.v
SkeinProofs.v
SkeinHash.v
Bmw.v
BmwProofs.v
BmwHash.v
Jh.v
JhProofs.v
JhHash.v
ArithUint.v
ArithUintProofs.v
Compact.v
ArithUint256.v
Quark.v
Upgrades.v
Chain.v
ChainProofs.v
ChainIndex.v
Pow.v
PowProofs.v
StrEncodings.v
BaseBits.v
BaseCodec.v
Uint256.v
Base58.v
Bech32.v
CryptoCommon.v
Hasher.v
Sha256.v
Sha512.v
Sha1.v
Ripemd160.v
HashSpec.v
Sha2Hash.v
Md160Hash.v
HashClasses.v
SipHash.v
Merkle.v
MerkleTrees.v
MerkleProofs.v
Streams.v
AutoFile.v
Serialize.v
SerializeLaws.v
VarInt.v
IncrementalTree.v
IncrementalProofs.v
Commitments.v
Script.v
Transactions.v
TransactionsProofs.v
Interpreter.v
InterpreterProofs.v
Blocks.v
SignatureHash.v
MerkleBlock.v
MerkleBlockProofs.v
Coins.v
CoinsProofs.v
CoinsDB.v
CoinsCache.v
ConnectCoins.v
ConnectProofs.v
Replay.v
Compressor.v
Bloom.v
