(* ===== verification/Prelude.v ===== *)
(** * A verification development for TrumpCoin

    TrumpCoin is a proof-of-stake currency node in C and C++. This library models the
    parts on which agreement between nodes rests and proves what they compute. Sources
    are named by their path under src/.

    ** The program and its parts

    Nodes exchange transactions and blocks as byte strings (src/src/serialize.h,
    streams.h, primitives/). A block header is identified by the hash [HashQuark]
    (src/src/hash.h) of nine calls of six hash functions written in C (src/src/crypto),
    or by a double SHA-256 from version 4 on; a transaction by its double SHA-256, and
    the transactions of a block by the root of their Merkle tree (consensus/merkle.cpp).
    Headers carry a difficulty target in a compact form; targets and the work of a chain
    are 256-bit integers (arith_uint256.h, .cpp). The block index (chain.h, .cpp) links
    the headers by pointers to predecessors and by a skip list, and the active chain is
    a vector of pointers by height. The next target depends on the last blocks (pow.cpp)
    and on the parameters of the network and its upgrades (consensus/, chainparams.cpp).
    The unspent outputs are kept in views (coins.h, .cpp): caches over caches over a
    database (txdb.cpp) that is written in several batches and repaired after an
    interruption. Connecting a block spends and adds coins and keeps the data that
    undoes it (validation.cpp, undo.h); coins on disk are written in a compressed form
    (compressor.cpp). An output is spent by a script that the interpreter
    (script/interpreter.cpp) accepts, whose signatures sign a hash of the spending
    transaction. The commitments of shielded notes are the leaves of incremental Merkle
    trees (sapling/incrementalmerkletree.h, .cpp). Wallets that see headers only send Bloom filters
    (bloom.cpp) and are given partial Merkle trees (merkleblock.cpp). Encodings turn numbers and byte
    strings into text: hexadecimal, base 32, base 64, base 58 and Bech32.

    ** Files and the code they model

    - [Prelude]: notations for words ([^^], [&:], [|:]) and arrays ([l.[i]],
      [l.[i := x]]), the hint database [word], lemmas on lists, loops over arrays,
      buffers and little-endian byte strings.
    - [SphTypes]: sph_types.h for a 64-bit little-endian build. [Stream]: the loop that
      all hash functions share (fill the buffer, compress when it is full), its
      specification by [absorb], and the type class [StreamHash]: what a hash function
      promises its callers for messages fed in pieces. [SphSpec]: the six hash functions
      as their authors define them, in terms of whole messages, with tables computed.
    - [Keccak], [Groestl] with [GroestlTables], [Blake], [Skein], [Bmw], [Jh]: one
      module per C file, one definition per macro and function. [KeccakProofs], ...,
      [JhProofs]: the compression code against [SphSpec]; [KeccakSponge], [GroestlHash],
      [BlakeHash], [SkeinHash], [BmwHash], [JhHash]: contexts, counters and padding, the
      instances of [StreamHash] and the digests. [Quark]: [HashQuark] over the interface
      of the six functions.
    - [ArithUint]: the template [base_uint<BITS>] at every width and the compact
      encoding; [ArithUintProofs], [ArithUint256], [Compact]: the
      operations on the integers that the arrays of words stand for.
    - [Upgrades]: consensus/params.h, upgrades.cpp and the parameters of the networks.
      [Chain]: chain.h and chain.cpp over a store of objects with pointers;
      [ChainProofs] and [ChainIndex]: ancestors, skip list, active chain, and the index
      as a state machine with its invariant. [Pow]: pow.cpp; [PowProofs]: the two
      retargeting rules on integers.
    - [StrEncodings]: C strings as lists of characters, and utilstrencodings;
      [BaseBits]: [ConvertBits] on integers; [BaseCodec]: base 32 and base 64;
      [Uint256]: base_blob and hexadecimal strings; [Base58];
      [Bech32].
    - [CryptoCommon]: crypto/common.h. [Hasher]: the members the hasher classes of
      crypto/ share, as a record of block size, [Initialize] and [Transform];
      [Sha256], [Sha512], [Sha1], [Ripemd160] fill it in. [HashSpec]: the standards,
      and tools for unrolled transformations; [Sha2Hash], [Md160Hash]: the classes
      against the standards; [HashClasses]: hash.h, HMAC and [BIP32Hash];
      [SipHash]: hash.cpp.
    - [Merkle], [MerkleTrees], [MerkleProofs]: consensus/merkle.cpp and the trees it
      computes. [MerkleBlock], [MerkleBlockProofs]: merkleblock.h, merkleblock.cpp.
    - [Streams], [AutoFile], [Serialize]: streams.h and serialize.h; [CDataStream] and
      [CAutoFile] are the instances of the class [Reader], and a formatter is a pair of
      functions over it. [SerializeLaws]: the classes [Sound] (what is
      written is read back), [Safe] (what is read is valid and comes from the front of
      the stream), [Exact] (every value has one encoding) and [Total], with instances
      for the combinators. [VarInt]. [Transactions], [TransactionsProofs], [Blocks]:
      primitives/ and sapling_transaction.h; the hash of a block.
    - [Coins], [CoinsDB], [ConnectCoins]: coins.h, coins.cpp, txdb.cpp, the coins part
      of validation.cpp and undo.h. The interface [CCoinsView] is the class [View];
      [CoinsProofs] states its laws as the classes [ViewReads] and [ViewLaws], against a set
      of unspent outputs, and shows that a cache over any lawful view is lawful;
      [CoinsCache]: sequences of calls and [Flush]; [ConnectProofs]: blocks. [Replay]:
      [ReplayBlocks] with the index and the files, over a database that is readable
      but not complete. [Compressor]:
      compressor.h, compressor.cpp, and the records of coins.h and undo.h as written.
    - [IncrementalTree], [IncrementalProofs], [Commitments]: the commitment trees over
      the class of hashes, for every depth, and its two hashes.
    - [Script]: script.h, script.cpp and standard.cpp. [Interpreter]: [EvalScript] and
      [VerifyScript] over the class [Checker] (the interface [BaseSignatureChecker]);
      [InterpreterProofs]. [SignatureHash]: [SignatureHash] with its serializer, and
      [TransactionSignatureChecker], the instance of [Checker].
    - [Bloom]: bloom.h and bloom.cpp, the filters of light clients and the rolling filter,
      and [CMerkleBlock].

    ** What the theorems show

    - Each of the six hash functions returns the digest of the concatenation of all
      updates, from any contents of an uninitialised context and after any reuse; the
      compression code in its variants (every unrolling of Keccak, the compact form of
      BLAKE, the small-footprint forms of Groestl and Skein) computes the reference;
      [HashQuark] is their composition. The classes of crypto/ compute SHA-1, SHA-2 and
      RIPEMD-160 of what is written to them in any pieces, and the HMACs are those of
      RFC 2104; SipHash and MurmurHash3 agree with their references.
    - The integer type computes modulo 2^BITS and divides exactly; the compact encoding
      loses at most a 2^15th part of a number. The required targets follow the two rules,
      with the products modulo 2^256 for every input, and are the plain formulas where
      these do not wrap.
    - In every reachable state of the block index the skip list and the active chain
      are right; ancestors, common ancestors, forks, locators and median times are what
      following predecessors gives; all these loops end and follow no null pointer.
    - Transactions and blocks are read back as they were written; what is read from any
      bytes is well formed; the hash of a block commits to its header and transactions
      unless two of the messages that are hashed for the two blocks collide, or one block has
      an inner node of the tree of the other among its transactions.
    - The constant-space algorithm computes the Merkle root and its branches, and
      reports the duplications that make roots ambiguous; a partial Merkle tree gives
      back the chosen transactions, and what one proves is in the block, again unless two
      of the nodes hashed collide.
    - A cache of coins behaves as a set of unspent outputs whatever it is a cache of;
      [Flush] moves the changes to the view below it; the database is at no moment
      without a record of the write in progress; when the write stops after any of its
      batches, [ReplayBlocks] brings the database to the new tip with its coins (for blocks added to the old tip);
      disconnecting a block undoes connecting it.
      Amounts, scripts, coins and undo data survive compression.
    - The commitment tree holds the perfect tree of its leaves and fails exactly when it
      is full; a witness follows the leaves appended after its own and its path leads to
      the root; both are read back as they were written.
    - Scripts are read as they are built, numbers of the script language are exact, and
      the standard forms are recognised. The interpreter always decides (it reads
      nothing outside of its stacks and its loop ends), keeps the limits on sizes and
      counts, and asks of a spending script what the standard forms mean: for a key
      hash, a script hash, a cold stake, several keys.
    - The legacy signature hash is the hash of the transaction in which all that the
      hash type leaves out is blanked; a cold-stake spend returns the coins to their
      script.
    - A Bloom filter has no false negatives, whatever bytes it came from and whatever it
      is asked; a transaction that spends an output it follows is relevant; a block sent
      through it gives the relevant transactions and proves them. The rolling filter
      contains the items it is made to remember.
    - The decoders of base 32, base 64, base 58 and Bech32 accept exactly the texts of
      byte strings, and invert the encoders; the only exception is stated below.
    - Where the code does not do what its comments say, a theorem states what it does:
      the proof-of-work check ignores the hash, the upgrade heights of the main network
      are out of order, the tweak of Skein loses a carry, the alphabet of the base 64
      encoder and the safe characters of [SanitizeString] have no capital M, rolling
      forward does not restore nullifiers and anchors.

    ** Conventions, bounds and fuel

    Words and bytes are integers of [Z] with their wrap-around written out; arrays are
    lists. Signed 64-bit arithmetic that stays far below 2^63 for 32-bit times and
    heights is done in [Z] without wrap-around. Results of type [option] are [None] for
    an exception, a failed assert, a null pointer or an access outside of an object; the
    types [result] of [Streams] and [eval] of [Interpreter] name the errors of the code.
    A string is the list of its characters as unsigned bytes, in a locale in which
    [isspace] and [tolower] are those of C; sizes of strings stay within an [int]. The
    host is little-endian with 64-bit pointers; sizes of C++ objects, on which the
    vectors of serialize.h depend for the chunks they allocate, are parameters.

    Loops whose end depends on data take fuel: the length of the data for the hash
    loops and the decoders, the height of the block plus one or two for the walks over
    the index, 26 for the 24 blocks of DarkGravity, [WIDTH] for carries, 33 for the
    levels of a Merkle tree with 32-bit counts, 11 for the digits of a VarInt, the
    length plus one for the loops over a script, as every operation moves forward; the
    theorems state that the result is found within it. Hash functions with bit counters
    of 64 bits are specified for all message lengths where their definition reduces the
    length (BMW, BLAKE, Keccak, Groestl), below 2^64 bytes for Skein, 2^70 bytes for JH
    and 2^61 bytes for the classes of crypto/. Merkle roots are stated up to the 2^31
    leaves for which the 32-bit count of merkle.cpp does not wrap, single reads below
    2^31 bytes, scripts below 2^32 bytes, compressed amounts below 2^60 and heights of
    coins below 2^30.

    Assumed of code outside: LevelDB writes a batch as a whole; a cache is the only
    owner of the view below it; the checks of secp256k1 (low S values, the validity of
    keys, their decompression, verification) and the BLAKE2b of libsodium are
    parameters, with hypotheses where a theorem needs them ([KeyLaws]); so is the
    Pedersen hash of the Rust library, of which a table of empty roots must be the
    empty roots, which is proved for the SHA-256 hash of the same template.

    ** Not modelled

    32-bit and big-endian builds of the hash functions; floating point ([getdouble],
    [MoneyRange], the sizes of Bloom filters); the counters of memory in coins.cpp; the zerocoin and evolution
    databases that connecting a block also feeds; the rest of validation.cpp, the
    generation of stake modifiers, the mempool, patriotnodes and budgets,
    quorums, wallet, network, RPC and user interface; the vendored libraries (LevelDB,
    secp256k1, univalue, the BLS library, the Rust library for Sapling). *)
From Stdlib Require Export ZArith List Bool Lia Btauto.
Export ListNotations.
#[export] Set Warnings "-notation-overridden".

Declare Scope word_scope.
Delimit Scope word_scope with word.
#[global] Open Scope Z_scope.

Notation "x ^^ y" := (Z.lxor x y) (at level 40, left associativity) : word_scope.
Notation "x &: y" := (Z.land x y) (at level 38, left associativity) : word_scope.
Notation "x |: y" := (Z.lor x y) (at level 42, left associativity) : word_scope.
#[global] Open Scope word_scope.

Create HintDb word discriminated.
Create Rewrite HintDb lens.

(** * Words of a given width *)

(** [word w x]: the integer [x] is a value of the [w]-bit unsigned type. *)
Definition word (w x : Z) : Prop := 0 <= x < 2 ^ w.
Abbreviation word64 := (word 64).
Abbreviation word32 := (word 32).
Abbreviation is_byte := (word 8).
Abbreviation bytes l := (Forall (word 8) l).

(** [ones w] is the mask that keeps the [w] low bits. *)
Lemma land_ones_mod w x : 0 <= w -> x &: Z.ones w = x mod 2 ^ w.
Proof. intros; now apply Z.land_ones. Qed.

Lemma word_0 w : 0 <= w -> word w 0.
Proof. intros Hw; split; [lia | apply Z.pow_pos_nonneg; lia]. Qed.

Lemma word_mod w x : 0 <= w -> word w (x mod 2 ^ w).
Proof. intros Hw; apply Z.mod_pos_bound, Z.pow_pos_nonneg; lia. Qed.

Lemma word_mod_id w x : word w x -> x mod 2 ^ w = x.
Proof. intros Hx; now apply Z.mod_small. Qed.

Lemma word_le w w' x : 0 <= w <= w' -> word w x -> word w' x.
Proof.
  intros Hw [H0 H1]; split; [lia|].
  enough (2 ^ w <= 2 ^ w') by lia. apply Z.pow_le_mono_r; lia.
Qed.

(** A word has no bit at or above its width, and a nonnegative integer with
    no such bit is a word. *)
Lemma word_testbit_high w x i : 0 <= w -> word w x -> w <= i -> Z.testbit x i = false.
Proof.
  intros Hw Hx Hi. rewrite <- (word_mod_id w x Hx).
  apply Z.mod_pow2_bits_high; lia.
Qed.

Lemma word_iff_mod w x : 0 <= w -> word w x <-> x = x mod 2 ^ w.
Proof.
  intros Hw; split; intros H.
  - now rewrite word_mod_id.
  - rewrite H; now apply word_mod.
Qed.

(** Two [w]-bit words with the same [w] low bits are equal. *)
Lemma word_ext w x y :
  0 <= w -> word w x -> word w y ->
  (forall i, 0 <= i < w -> Z.testbit x i = Z.testbit y i) -> x = y.
Proof.
  intros Hw Hx Hy Hb. apply Z.bits_inj'; intros i Hi.
  destruct (Z.lt_ge_cases i w) as [Hlt|Hge].
  - apply Hb; lia.
  - now rewrite !(word_testbit_high w) by assumption.
Qed.

Lemma testbit_mod w x i :
  0 <= w -> 0 <= i -> Z.testbit (x mod 2 ^ w) i = (i <? w) && Z.testbit x i.
Proof.
  intros Hw Hi. destruct (Z.ltb_spec i w) as [Hlt|Hge]; cbn [andb].
  - rewrite Z.mod_pow2_bits_low; auto.
  - rewrite Z.mod_pow2_bits_high; auto; lia.
Qed.

Lemma mod_mod_pow2 x a b : 0 <= a <= b -> (x mod 2 ^ b) mod 2 ^ a = x mod 2 ^ a.
Proof.
  intros H. apply Z.bits_inj'; intros i Hi. rewrite !testbit_mod by lia.
  destruct (Z.ltb_spec i a), (Z.ltb_spec i b); lia || reflexivity.
Qed.

Lemma word_of_bits w x :
  0 <= w -> (forall i, w <= i -> Z.testbit x i = false) -> word w x.
Proof.
  intros Hw Hb. apply word_iff_mod; [assumption|].
  apply Z.bits_inj'; intros i Hi. rewrite testbit_mod by assumption.
  destruct (Z.ltb_spec i w); cbn [andb]; auto.
Qed.

Section WordOps.
Context (w : Z) (Hw : 0 <= w).

Lemma word_lxor x y : word w x -> word w y -> word w (x ^^ y).
Proof.
  intros Hx Hy; apply word_of_bits; [assumption|]; intros i Hi.
  rewrite Z.lxor_spec, !(word_testbit_high w) by assumption; reflexivity.
Qed.

Lemma word_land_l x y : word w x -> word w (x &: y).
Proof.
  intros Hx; apply word_of_bits; [assumption|]; intros i Hi.
  rewrite Z.land_spec, (word_testbit_high w x) by assumption; reflexivity.
Qed.

Lemma word_land_r x y : word w y -> word w (x &: y).
Proof. intros; rewrite Z.land_comm; now apply word_land_l. Qed.

Lemma word_lor x y : word w x -> word w y -> word w (x |: y).
Proof.
  intros Hx Hy; apply word_of_bits; [assumption|]; intros i Hi.
  rewrite Z.lor_spec, !(word_testbit_high w) by assumption; reflexivity.
Qed.

Lemma word_shiftr x n : 0 <= n -> word w x -> word w (Z.shiftr x n).
Proof.
  intros Hn Hx; apply word_of_bits; [assumption|]; intros i Hi.
  rewrite Z.shiftr_spec by lia.
  apply (word_testbit_high w x (i + n)); try assumption; lia.
Qed.
End WordOps.

#[export] Hint Resolve word_lxor word_land_l word_lor word_shiftr word_0 word_mod : word.
#[export] Hint Extern 1 (0 <= _) => lia : word.
#[export] Hint Extern 1 (word _ (Zpos _)) => (split; [lia | reflexivity]) : word.
#[export] Hint Extern 1 (word _ 0) => (split; [lia | reflexivity]) : word.

(** A table of constants is checked by evaluation. *)
Definition wordb (w x : Z) : bool := (0 <=? x) && (x <? 2 ^ w).

Lemma words_check w l : forallb (wordb w) l = true -> Forall (word w) l.
Proof.
  rewrite forallb_forall, Forall_forall; intros H x Hx.
  specialize (H x Hx); unfold wordb in H. unfold word. lia.
Qed.

(** Bitwise goals: rewrite [testbit] through the operations, then decide. *)
Ltac bits_push :=
  repeat (rewrite Z.lxor_spec || rewrite Z.land_spec || rewrite Z.lor_spec
          || rewrite Z.lnot_spec by lia || rewrite Z.testbit_0_l).

Ltac bitwise :=
  apply Z.bits_inj'; intros ?i ?Hi; bits_push; try btauto.

(** * Lists as fixed-size arrays *)

Section Arrays.
Context {A : Type} (d : A).

(** [upd l i x] is the array [l] after [l[i] = x]; an index outside the
    array leaves it unchanged. *)
Fixpoint upd (l : list A) (i : nat) (x : A) : list A :=
  match l, i with
  | [], _ => []
  | _ :: t, O => x :: t
  | h :: t, S j => h :: upd t j x
  end.

Lemma length_upd l i x : length (upd l i x) = length l.
Proof. revert i; induction l; intros [|i]; cbn; auto. Qed.

Lemma nth_upd_eq l i x : (i < length l)%nat -> nth i (upd l i x) d = x.
Proof. revert i; induction l; intros [|i]; cbn; intros; try lia; auto. apply IHl; lia. Qed.

Lemma nth_upd_ne l i j x : i <> j -> nth j (upd l i x) d = nth j l d.
Proof. revert i j; induction l; intros [|i] [|j]; cbn; intros; try lia; auto. Qed.

Lemma Forall_upd (P : A -> Prop) l i x : Forall P l -> P x -> Forall P (upd l i x).
Proof.
  intros Hl Hx; revert i; induction Hl; intros [|i]; cbn; constructor; auto.
Qed.

(** [memcpy_at buf off data] is [buf] after [memcpy(buf + off, data, len)]. *)
Definition memcpy_at (buf : list A) (off : nat) (data : list A) : list A :=
  firstn off buf ++ data ++ skipn (off + length data) buf.

Lemma length_memcpy_at buf off data :
  (off + length data <= length buf)%nat ->
  length (memcpy_at buf off data) = length buf.
Proof.
  intros H; unfold memcpy_at.
  rewrite !length_app, length_firstn, length_skipn; lia.
Qed.

(** What [memcpy] leaves before its end: the old prefix, then the data. *)
Lemma firstn_memcpy_at buf off data :
  (off <= length buf)%nat ->
  firstn (off + length data) (memcpy_at buf off data) = firstn off buf ++ data.
Proof.
  intros H; unfold memcpy_at.
  rewrite app_assoc, firstn_app.
  replace (length (firstn off buf ++ data)) with (off + length data)%nat
    by (rewrite length_app, length_firstn; lia).
  rewrite Nat.sub_diag; cbn [firstn]; rewrite app_nil_r.
  apply firstn_all2. rewrite length_app, length_firstn; lia.
Qed.

Lemma Forall_take (P : A -> Prop) n l : Forall P l -> Forall P (firstn n l).
Proof.
  rewrite <- (firstn_skipn n l) at 1; rewrite Forall_app; now intros [].
Qed.

Lemma Forall_drop (P : A -> Prop) n l : Forall P l -> Forall P (skipn n l).
Proof.
  rewrite <- (firstn_skipn n l) at 1; rewrite Forall_app; now intros [].
Qed.

Lemma Forall_memcpy_at (P : A -> Prop) buf off data :
  Forall P buf -> Forall P data -> Forall P (memcpy_at buf off data).
Proof.
  intros Hb Hd; unfold memcpy_at; rewrite !Forall_app; repeat split; auto.
  - now apply Forall_take.
  - now apply Forall_drop.
Qed.

Lemma nth_firstn_lt l i n : (i < n)%nat -> nth i (firstn n l) d = nth i l d.
Proof.
  revert i l; induction n; intros [|i] [|a l]; cbn; intros; try lia; auto.
  apply IHn; lia.
Qed.

Lemma nth_skipn l i n : nth i (skipn n l) d = nth (n + i) l d.
Proof. revert l; induction n; intros [|a l]; cbn; auto. now destruct i. Qed.

(** A list is determined by its length and its elements. *)
Lemma list_ext (l l' : list A) :
  length l = length l' ->
  (forall i, (i < length l)%nat -> nth i l d = nth i l' d) -> l = l'.
Proof. intros; now apply nth_ext with (d := d) (d' := d). Qed.
End Arrays.

#[export] Hint Rewrite @length_app @length_firstn @length_skipn @length_map
  @repeat_length @length_seq @length_upd @length_rev : lens.

Notation "l .[ i ]" := (nth i l 0)
  (at level 1, format "l .[ i ]") : word_scope.
Notation "l .[ i := x ]" := (upd l i x)
  (at level 1, format "l .[ i  :=  x ]") : word_scope.

(** Destructs a list of known length into its elements. *)
Ltac destruct_list_n l :=
  repeat (match goal with
          | H : length ?m = S _ |- _ =>
              is_var m; destruct m as [|? m]; [discriminate H | cbn [length] in H; apply Nat.succ_inj in H]
          | H : length ?m = 0%nat |- _ =>
              is_var m; destruct m; [clear H | discriminate H]
          end).

Lemma Forall_nth_default {A} (P : A -> Prop) l i d :
  Forall P l -> P d -> P (nth i l d).
Proof. intros Hl Hd; revert i; induction Hl; intros [|i]; cbn; auto. Qed.

(** A loop that rewrites the elements 0 .. n-1 of an array in place, each from
    its own old value. *)
Lemma nth_update_loop (g : nat -> Z -> Z) n (w : list Z) i :
  (n <= length w)%nat ->
  nth i (fold_left (fun w i => w.[i := g i w.[i]]) (seq 0 n) w) 0 =
  if (i <? n)%nat then g i w.[i] else w.[i].
Proof.
  revert i; induction n as [|n IH]; intros i Hn; [destruct i; reflexivity|].
  rewrite seq_S, fold_left_app; cbn [fold_left Nat.add].
  destruct (Nat.eq_dec i n) as [->|Hne].
  - rewrite nth_upd_eq, IH.
    + destruct (Nat.ltb_spec n n), (Nat.ltb_spec n (S n)); lia || reflexivity.
    + lia.
    + clear IH. replace (length _) with (length w); [lia|].
      generalize (seq 0 n) as l. intros l; revert w Hn. induction l as [|j l IHl]; intros w Hn; cbn; auto.
      rewrite <- IHl; rewrite length_upd; auto.
  - rewrite nth_upd_ne by auto. rewrite IH by lia.
    destruct (Nat.ltb_spec i n), (Nat.ltb_spec i (S n)); lia || reflexivity.
Qed.

Lemma length_update_loop (g : nat -> Z -> Z) l (w : list Z) :
  length (fold_left (fun w i => w.[i := g i w.[i]]) l w) = length w.
Proof.
  revert w; induction l as [|j l IH]; intros w; cbn [fold_left]; auto.
  rewrite IH; apply length_upd.
Qed.

Lemma fold_left_ext_in {A B} (f g : A -> B -> A) l a :
  (forall a b, In b l -> f a b = g a b) -> fold_left f l a = fold_left g l a.
Proof.
  revert a; induction l as [|b l IH]; intros a H; cbn [fold_left]; auto.
  rewrite H by (left; auto). apply IH. intros; apply H; right; auto.
Qed.

Lemma fold_left_cons {A B} (f : A -> B -> A) x l a :
  fold_left f (x :: l) a = fold_left f l (f a x).
Proof. reflexivity. Qed.

(** Two loops in lockstep. *)
Lemma fold_left_sim {A B X} (f : A -> X -> A) (g : B -> X -> B) (R : A -> B -> Prop) l a b :
  (forall a b x, In x l -> R a b -> R (f a x) (g b x)) ->
  R a b -> R (fold_left f l a) (fold_left g l b).
Proof.
  revert a b; induction l as [|x l IH]; intros a b Hs HR; cbn [fold_left]; [assumption|].
  apply IH; [intros; apply Hs; [now right | assumption] | apply Hs; [now left | assumption]].
Qed.

Lemma map_nth_seq {A} (l : list A) d n :
  (n <= length l)%nat -> map (fun i => nth i l d) (seq 0 n) = firstn n l.
Proof.
  revert l; induction n as [|n IH]; intros [|a l] H; cbn in *; try lia; auto.
  f_equal. rewrite <- seq_shift, map_map. apply IH. lia.
Qed.

Lemma length_flat_map_const {A B} (f : A -> list B) (k : nat) l :
  (forall a, length (f a) = k) -> length (flat_map f l) = (k * length l)%nat.
Proof.
  intros Hf; induction l as [|a l IH]; cbn [flat_map length]; [lia|].
  rewrite length_app, IH, Hf; lia.
Qed.

(** One of the pieces. *)
Lemma piece_flat_map {A B} (f : A -> list B) (k i : nat) l d :
  (forall a, length (f a) = k) -> (i < length l)%nat ->
  firstn k (skipn (k * i) (flat_map f l)) = f (nth i l d).
Proof.
  intros Hf; revert i; induction l as [|a l IH]; intros [|i] Hi; cbn [length] in Hi; try lia.
  - rewrite Nat.mul_0_r. cbn [skipn flat_map nth].
    now rewrite firstn_app, Hf, Nat.sub_diag, firstn_O, app_nil_r, firstn_all2 by (rewrite Hf; lia).
  - cbn [flat_map nth]. rewrite skipn_app, (skipn_all2 (f a)) by (rewrite Hf; lia). cbn [app].
    rewrite Hf. replace (k * S i - k)%nat with (k * i)%nat by lia. apply IH. lia.
Qed.

(** Encoding the words of an array from position [i] on. *)
Lemma flat_map_nth_seq {A B} (f : A -> list B) (l : list A) d i n :
  (i + n = length l)%nat -> flat_map (fun u => f (nth (i + u) l d)) (seq 0 n) = flat_map f (skipn i l).
Proof.
  intros H. replace (skipn i l) with (map (fun u => nth (i + u) l d) (seq 0 n)).
  - rewrite !flat_map_concat_map, map_map. reflexivity.
  - rewrite <- (firstn_all2 (n := n) (skipn i l)) by (rewrite length_skipn; lia).
    rewrite <- (map_nth_seq (skipn i l) d n) by (rewrite length_skipn; lia).
    apply map_ext. intros u. now rewrite nth_skipn.
Qed.

(** * Filling a buffer piece by piece *)

Lemma upd_split {A} (l : list A) i x :
  (i < length l)%nat -> upd l i x = firstn i l ++ x :: skipn (S i) l.
Proof.
  revert i; induction l as [|y l IH]; intros [|i] Hi; cbn in *; try lia; [reflexivity|].
  now rewrite IH by lia.
Qed.

Lemma firstn_upd_S {A} (l : list A) i x :
  (i < length l)%nat -> firstn (S i) (upd l i x) = firstn i l ++ [x].
Proof.
  revert i; induction l as [|y l IH]; intros [|i] Hi; cbn in *; try lia; [reflexivity|].
  f_equal. apply IH. lia.
Qed.

(** Overwriting the end of a buffer. *)
Lemma memcpy_end {A} (buf : list A) off data :
  (length buf <= off + length data)%nat -> memcpy_at buf off data = firstn off buf ++ data.
Proof. intros H. unfold memcpy_at. now rewrite skipn_all2, app_nil_r by lia. Qed.

(** Overwriting the middle part of a buffer. *)
Lemma memcpy_at_app {A} (a b c b' : list A) :
  length b' = length b -> memcpy_at (a ++ b ++ c) (length a) b' = a ++ b' ++ c.
Proof.
  intros E. unfold memcpy_at. rewrite E, firstn_app, firstn_all, Nat.sub_diag, firstn_O, app_nil_r.
  do 2 f_equal. rewrite app_assoc, <- length_app. rewrite skipn_app, skipn_all, Nat.sub_diag. reflexivity.
Qed.

(** A loop that writes pieces of [k] bytes one after the other. *)
Lemma memcpy_loop {A} (f : nat -> list A) (k n : nat) (buf : list A) :
  (forall u, length (f u) = k) -> (k * n <= length buf)%nat ->
  fold_left (fun buf u => memcpy_at buf (k * u) (f u)) (seq 0 n) buf =
  flat_map f (seq 0 n) ++ skipn (k * n) buf.
Proof.
  intros Hf; induction n as [|n IH]; intros Hn; [rewrite Nat.mul_0_r; reflexivity|].
  rewrite seq_S, fold_left_app, IH, flat_map_app by lia. cbn [fold_left flat_map Nat.add].
  rewrite app_nil_r, <- app_assoc.
  pose proof (length_flat_map_const f k (seq 0 n) Hf) as L. rewrite length_seq in L.
  replace (skipn (k * n) buf) with (firstn k (skipn (k * n) buf) ++ skipn (k * S n) buf).
  - rewrite <- L at 2. apply memcpy_at_app. rewrite Hf, length_firstn, length_skipn; lia.
  - replace (k * S n)%nat with (k + k * n)%nat by lia. rewrite <- skipn_skipn. apply firstn_skipn.
Qed.

Lemma nth_map_seq {A} (f : nat -> A) n i d :
  (i < n)%nat -> nth i (map f (seq 0 n)) d = f i.
Proof.
  intros H. rewrite nth_indep with (d' := f 0%nat) by (rewrite length_map, length_seq; lia).
  rewrite map_nth, seq_nth by lia. reflexivity.
Qed.

(** Concatenating fixed-size pieces: a prefix needs only the first pieces. *)
Lemma firstn_flat_map {A B} (f : A -> list B) (k n d : nat) l :
  (forall a, length (f a) = k) -> (d <= k * n)%nat ->
  firstn d (flat_map f (firstn n l)) = firstn d (flat_map f l).
Proof.
  intros Hf; revert d l; induction n as [|n IH]; intros d l Hd.
  - replace d with 0%nat by lia; reflexivity.
  - destruct l as [|a l]; [reflexivity|]. cbn [firstn flat_map].
    rewrite !firstn_app, Hf. f_equal. apply IH. lia.
Qed.

(** [forall_below n P] enumerates the integers of [0, n): the goal becomes one
    goal per value. *)
Lemma forall_below (n : nat) (P : Z -> Prop) :
  Forall P (map Z.of_nat (seq 0 n)) -> forall i, 0 <= i < Z.of_nat n -> P i.
Proof.
  rewrite Forall_forall; intros H i Hi. apply H, in_map_iff.
  exists (Z.to_nat i); split; [lia | apply in_seq; lia].
Qed.

(** Decides a goal [forall i, 0 <= i < n -> P i] with [P] boolean. *)
Lemma forallb_below (n : nat) (f : Z -> bool) :
  forallb f (map Z.of_nat (seq 0 n)) = true -> forall i, 0 <= i < Z.of_nat n -> f i = true.
Proof.
  rewrite forallb_forall; intros H. apply forall_below, Forall_forall; auto.
Qed.

(** * Little-endian byte sequences *)

Fixpoint le_combine (bs : list Z) : Z :=
  match bs with
  | [] => 0
  | b :: t => b + 256 * le_combine t
  end.

Fixpoint le_split (n : nat) (v : Z) : list Z :=
  match n with
  | O => []
  | S m => v mod 256 :: le_split m (v / 256)
  end.

Lemma length_le_split n v : length (le_split n v) = n.
Proof. revert v; induction n; intros; cbn; auto. Qed.
#[export] Hint Rewrite length_le_split : lens.

Lemma bytes_le_split n v : bytes (le_split n v).
Proof.
  revert v; induction n; intros; cbn [le_split]; constructor; auto.
  change 256 with (2 ^ 8); apply word_mod; lia.
Qed.

Lemma le_combine_nonneg bs : bytes bs -> 0 <= le_combine bs.
Proof.
  induction 1 as [|b t Hb Ht IH]; cbn [le_combine]; [lia|].
  unfold word in Hb; lia.
Qed.

Lemma le_combine_bound bs :
  bytes bs -> word (8 * Z.of_nat (length bs)) (le_combine bs).
Proof.
  unfold word.
  induction 1 as [|b t Hb Ht IH]; [cbn; lia|].
  cbn [le_combine length]. unfold word in Hb.
  replace (8 * Z.of_nat (S (length t))) with (8 * Z.of_nat (length t) + 8) by lia.
  rewrite Z.pow_add_r by lia. change (2 ^ 8) with 256 in *. lia.
Qed.

Lemma le_combine_app a b :
  le_combine (a ++ b) = le_combine a + 2 ^ (8 * Z.of_nat (length a)) * le_combine b.
Proof.
  induction a as [|x a IH]; [cbn [app le_combine length]; change (8 * Z.of_nat 0) with 0; lia|].
  cbn [app le_combine length]; rewrite IH.
  replace (8 * Z.of_nat (S (length a))) with (8 + 8 * Z.of_nat (length a)) by lia.
  rewrite Z.pow_add_r by lia. change (2 ^ 8) with 256. ring.
Qed.

Lemma le_combine_split n v :
  le_combine (le_split n v) = v mod 2 ^ (8 * Z.of_nat n).
Proof.
  revert v; induction n as [|n IH]; intros v.
  - cbn; now rewrite Z.mod_1_r.
  - cbn [le_split le_combine]; rewrite IH.
    replace (8 * Z.of_nat (S n)) with (8 + 8 * Z.of_nat n) by lia.
    rewrite Z.pow_add_r by lia. change (2 ^ 8) with 256.
    rewrite Z.rem_mul_r by (try apply Z.pow_nonzero; lia). reflexivity.
Qed.

Lemma le_split_combine bs : bytes bs -> le_split (length bs) (le_combine bs) = bs.
Proof.
  induction 1 as [|b t Hb Ht IH]; [reflexivity|].
  cbn [length le_combine le_split]. unfold word in Hb; change (2 ^ 8) with 256 in Hb.
  f_equal.
  - rewrite Z.mul_comm, Z.mod_add by lia. apply Z.mod_small; lia.
  - rewrite Z.mul_comm, Z.div_add, Z.div_small by lia. exact IH.
Qed.

Lemma le_split_mod k v : le_split k (v mod 2 ^ (8 * Z.of_nat k)) = le_split k v.
Proof.
  rewrite <- le_combine_split. pose proof (le_split_combine _ (bytes_le_split k v)) as E.
  now rewrite length_le_split in E.
Qed.

(** The bytes of a long integer, in two parts. *)
Lemma le_split_app a b v :
  le_split (a + b) v = le_split a v ++ le_split b (Z.shiftr v (8 * Z.of_nat a)).
Proof.
  revert v; induction a as [|a IH]; intros v; cbn [Nat.add le_split app].
  - now rewrite Z.shiftr_0_r.
  - rewrite IH. do 3 f_equal. change 256 with (2 ^ 8). rewrite <- Z.shiftr_div_pow2 by lia.
    rewrite Z.shiftr_shiftr by lia. f_equal. lia.
Qed.

(** Adding above the top bit of a word is the same as or-ing. *)
Lemma add_shiftl_lor n b t :
  0 <= n -> word n b -> b + t * 2 ^ n = b |: Z.shiftl t n.
Proof.
  intros Hn Hb. rewrite <- Z.shiftl_mul_pow2 by assumption.
  assert (Hd : b &: Z.shiftl t n = 0).
  { apply Z.bits_inj'; intros j Hj; rewrite Z.land_spec, Z.testbit_0_l.
    destruct (Z.lt_ge_cases j n).
    - rewrite Z.shiftl_spec_low by lia. apply andb_false_r.
    - rewrite (word_testbit_high n b) by (auto; lia). reflexivity. }
  rewrite <- Z.lxor_lor by assumption. now apply Z.add_nocarry_lxor.
Qed.

(** Bit [i] of a little-endian integer is bit [i mod 8] of byte [i / 8]. *)
Lemma testbit_le_combine bs i :
  bytes bs -> 0 <= i ->
  Z.testbit (le_combine bs) i = Z.testbit (nth (Z.to_nat (i / 8)) bs 0) (i mod 8).
Proof.
  intros Hbs; revert i; induction Hbs as [|b t Hb Ht IH]; intros i Hi.
  - cbn [le_combine]; rewrite Z.testbit_0_l.
    destruct (Z.to_nat (i / 8)); cbn; now rewrite Z.testbit_0_l.
  - cbn [le_combine].
    rewrite (Z.mul_comm 256); change 256 with (2 ^ 8).
    rewrite add_shiftl_lor by (auto; lia).
    rewrite Z.lor_spec, Z.shiftl_spec by lia.
    destruct (Z.lt_ge_cases i 8) as [Hlt|Hge].
    + rewrite (Z.testbit_neg_r _ (i - 8)), orb_false_r by lia.
      rewrite Z.div_small, Z.mod_small by lia. reflexivity.
    + rewrite (word_testbit_high 8 b) by (auto; lia). cbn [orb].
      rewrite IH by lia.
      replace (i - 8) with (i + (-1) * 8) by lia.
      rewrite Z.mod_add, Z.div_add by lia.
      replace (Z.to_nat (i / 8)) with (S (Z.to_nat (i / 8 + -1)))
        by (pose proof (Z.div_le_lower_bound i 8 1); lia).
      reflexivity.
Qed.

(** ** Bit operations on little-endian integers, byte by byte *)

(** Combines two byte sequences position by position; the shorter one is
    extended with zeros. *)
Fixpoint zipw (f : Z -> Z -> Z) (a b : list Z) : list Z :=
  match a, b with
  | [], _ => map (f 0) b
  | _, [] => map (fun x => f x 0) a
  | x :: a', y :: b' => f x y :: zipw f a' b'
  end.

Section Bytewise.
Context (f : Z -> Z -> Z) (fb : bool -> bool -> bool).
Context (Hf : forall x y i, 0 <= i -> Z.testbit (f x y) i = fb (Z.testbit x i) (Z.testbit y i)).
Context (Hf0 : f 0 0 = 0) (Hfw : forall x y, is_byte x -> is_byte y -> is_byte (f x y)).

Lemma nth_zipw a b i : nth i (zipw f a b) 0 = f (nth i a 0) (nth i b 0).
Proof.
  revert b i; induction a as [|x a IH]; intros [|y b] i; cbn [zipw].
  - destruct i; symmetry; exact Hf0.
  - replace (nth i [] 0) with 0 by (destruct i; reflexivity).
    transitivity (nth i (map (f 0) (y :: b)) (f 0 0)); [now rewrite Hf0 | apply map_nth].
  - replace (nth i [] 0) with 0 by (destruct i; reflexivity).
    transitivity (nth i (map (fun x => f x 0) (x :: a)) (f 0 0));
      [now rewrite Hf0 | exact (map_nth (fun x => f x 0) (x :: a) 0 i)].
  - destruct i; cbn; auto.
Qed.

Lemma bytes_zipw a b : bytes a -> bytes b -> bytes (zipw f a b).
Proof.
  intros Ha; revert b; induction Ha as [|x a Hx Ha IH]; intros b Hb; cbn [zipw].
  - apply Forall_map. eapply Forall_impl; [|exact Hb]; intros; apply Hfw; auto with word.
  - destruct Hb; [apply Forall_map | constructor; auto].
    constructor; [apply Hfw; auto with word|].
    eapply Forall_impl; [|exact Ha]; intros; apply Hfw; auto with word.
Qed.

Lemma le_combine_bitop a b :
  bytes a -> bytes b -> f (le_combine a) (le_combine b) = le_combine (zipw f a b).
Proof.
  intros Ha Hb. apply Z.bits_inj'; intros i Hi.
  pose proof (Z.mod_pos_bound i 8).
  rewrite Hf, !testbit_le_combine, nth_zipw, Hf by (auto using bytes_zipw; lia).
  reflexivity.
Qed.
End Bytewise.

Lemma le_combine_lor a b :
  bytes a -> bytes b -> le_combine a |: le_combine b = le_combine (zipw Z.lor a b).
Proof. apply le_combine_bitop with (fb := orb); intros; [apply Z.lor_spec|reflexivity|auto with word]. Qed.

Lemma le_combine_land a b :
  bytes a -> bytes b -> le_combine a &: le_combine b = le_combine (zipw Z.land a b).
Proof. apply le_combine_bitop with (fb := andb); intros; [apply Z.land_spec|reflexivity|auto with word]. Qed.

Lemma le_combine_lxor a b :
  bytes a -> bytes b -> le_combine a ^^ le_combine b = le_combine (zipw Z.lxor a b).
Proof. apply le_combine_bitop with (fb := xorb); intros; [apply Z.lxor_spec|reflexivity|auto with word]. Qed.

(** A shift by [8 * k] bits moves whole bytes. *)
Lemma le_combine_shiftl (k : nat) bs :
  Z.shiftl (le_combine bs) (8 * Z.of_nat k) = le_combine (repeat 0 k ++ bs).
Proof.
  rewrite le_combine_app, repeat_length, Z.shiftl_mul_pow2 by lia.
  replace (le_combine (repeat 0 k)) with 0; [ring|].
  induction k; cbn [repeat le_combine]; lia.
Qed.

Lemma le_combine_shiftr (k : nat) bs :
  bytes bs -> Z.shiftr (le_combine bs) (8 * Z.of_nat k) = le_combine (skipn k bs).
Proof.
  intros Hbs. apply Z.bits_inj'; intros i Hi.
  rewrite Z.shiftr_spec, !testbit_le_combine by (auto using Forall_drop; lia).
  replace (i + 8 * Z.of_nat k) with (i + Z.of_nat k * 8) by lia.
  rewrite Z.mod_add, Z.div_add, nth_skipn by lia.
  pose proof (Z.div_pos i 8). do 2 f_equal. lia.
Qed.
