(* ===== verification/SphTypes.v ===== *)
(** The word and byte-order layer of src/src/crypto/sph_types.h: truncation
    and rotation macros, the byte swap, and the encoders and decoders every
    hash function goes through. A machine word is an integer of [Z] in the
    range of its width; a byte sequence is a list of integers below 256. The
    target is the one the build selects on x86-64: [SPH_64], little-endian,
    unaligned access allowed, so that a decoder is a word load followed, for
    big-endian data, by a byte swap. The byte-by-byte variants of the same
    functions, which the header selects on other targets, are modelled next
    to them and proved to agree. *)
From S2P Require Import Prelude.

(** * Truncation and rotation *)

Definition SPH_T32 (x : Z) : Z := x &: 0xFFFFFFFF.
Definition SPH_ROTL32 (x n : Z) : Z := SPH_T32 (Z.shiftl x n |: Z.shiftr x (32 - n)).
Definition SPH_ROTR32 (x n : Z) : Z := SPH_ROTL32 x (32 - n).

Definition SPH_T64 (x : Z) : Z := x &: 0xFFFFFFFFFFFFFFFF.
Definition SPH_ROTL64 (x n : Z) : Z := SPH_T64 (Z.shiftl x n |: Z.shiftr x (64 - n)).
Definition SPH_ROTR64 (x n : Z) : Z := SPH_ROTL64 x (64 - n).

(** * Byte swap *)

Definition sph_bswap32 (x : Z) : Z :=
  let x := SPH_T32 (Z.shiftl x 16 |: Z.shiftr x 16) in
  Z.shiftr (x &: 0xFF00FF00) 8 |: Z.shiftl (x &: 0x00FF00FF) 8.

Definition sph_bswap64 (x : Z) : Z :=
  let x := SPH_T64 (Z.shiftl x 32 |: Z.shiftr x 32) in
  let x := Z.shiftr (x &: 0xFFFF0000FFFF0000) 16
           |: Z.shiftl (x &: 0x0000FFFF0000FFFF) 16 in
  Z.shiftr (x &: 0xFF00FF00FF00FF00) 8 |: Z.shiftl (x &: 0x00FF00FF00FF00FF) 8.

(** * Word loads and stores of a little-endian machine *)

Definition load (n : nat) (src : list Z) : Z := le_combine (firstn n src).
Definition store (n : nat) (val : Z) : list Z := le_split n val.

(** * Encoders and decoders, little-endian target *)

Definition sph_enc32be (val : Z) : list Z := store 4 (sph_bswap32 val).
Definition sph_enc32be_aligned (val : Z) : list Z := store 4 (sph_bswap32 val).
Definition sph_dec32be (src : list Z) : Z := sph_bswap32 (load 4 src).
Definition sph_dec32be_aligned (src : list Z) : Z := sph_bswap32 (load 4 src).
Definition sph_enc32le (val : Z) : list Z := store 4 val.
Definition sph_enc32le_aligned (val : Z) : list Z := store 4 val.
Definition sph_dec32le (src : list Z) : Z := load 4 src.
Definition sph_dec32le_aligned (src : list Z) : Z := load 4 src.

Definition sph_enc64be (val : Z) : list Z := store 8 (sph_bswap64 val).
Definition sph_enc64be_aligned (val : Z) : list Z := store 8 (sph_bswap64 val).
Definition sph_dec64be (src : list Z) : Z := sph_bswap64 (load 8 src).
Definition sph_dec64be_aligned (src : list Z) : Z := sph_bswap64 (load 8 src).
Definition sph_enc64le (val : Z) : list Z := store 8 val.
Definition sph_enc64le_aligned (val : Z) : list Z := store 8 val.
Definition sph_dec64le (src : list Z) : Z := load 8 src.
Definition sph_dec64le_aligned (src : list Z) : Z := load 8 src.

(** * The byte-by-byte variants of the same functions *)

(** [(unsigned char)x] *)
Definition uchar (x : Z) : Z := x &: 0xFF.

Definition sph_enc64be_bytewise (val : Z) : list Z :=
  [ uchar (Z.shiftr val 56); uchar (Z.shiftr val 48); uchar (Z.shiftr val 40);
    uchar (Z.shiftr val 32); uchar (Z.shiftr val 24); uchar (Z.shiftr val 16);
    uchar (Z.shiftr val 8); uchar val ].

Definition sph_dec64be_bytewise (src : list Z) : Z :=
  Z.shiftl (nth 0 src 0) 56 |: Z.shiftl (nth 1 src 0) 48 |: Z.shiftl (nth 2 src 0) 40
  |: Z.shiftl (nth 3 src 0) 32 |: Z.shiftl (nth 4 src 0) 24 |: Z.shiftl (nth 5 src 0) 16
  |: Z.shiftl (nth 6 src 0) 8 |: nth 7 src 0.

Definition sph_enc64le_bytewise (val : Z) : list Z :=
  [ uchar val; uchar (Z.shiftr val 8); uchar (Z.shiftr val 16);
    uchar (Z.shiftr val 24); uchar (Z.shiftr val 32); uchar (Z.shiftr val 40);
    uchar (Z.shiftr val 48); uchar (Z.shiftr val 56) ].

Definition sph_dec64le_bytewise (src : list Z) : Z :=
  nth 0 src 0 |: Z.shiftl (nth 1 src 0) 8 |: Z.shiftl (nth 2 src 0) 16
  |: Z.shiftl (nth 3 src 0) 24 |: Z.shiftl (nth 4 src 0) 32 |: Z.shiftl (nth 5 src 0) 40
  |: Z.shiftl (nth 6 src 0) 48 |: Z.shiftl (nth 7 src 0) 56.

Definition sph_enc32be_bytewise (val : Z) : list Z :=
  [ uchar (Z.shiftr val 24); uchar (Z.shiftr val 16); uchar (Z.shiftr val 8); uchar val ].

Definition sph_dec32be_bytewise (src : list Z) : Z :=
  Z.shiftl (nth 0 src 0) 24 |: Z.shiftl (nth 1 src 0) 16
  |: Z.shiftl (nth 2 src 0) 8 |: nth 3 src 0.

Definition sph_enc32le_bytewise (val : Z) : list Z :=
  [ uchar val; uchar (Z.shiftr val 8); uchar (Z.shiftr val 16); uchar (Z.shiftr val 24) ].

Definition sph_dec32le_bytewise (src : list Z) : Z :=
  nth 0 src 0 |: Z.shiftl (nth 1 src 0) 8
  |: Z.shiftl (nth 2 src 0) 16 |: Z.shiftl (nth 3 src 0) 24.


(** * Truncation *)

Lemma SPH_T64_mod x : SPH_T64 x = x mod 2 ^ 64.
Proof. exact (land_ones_mod 64 x ltac:(lia)). Qed.

Lemma SPH_T32_mod x : SPH_T32 x = x mod 2 ^ 32.
Proof. exact (land_ones_mod 32 x ltac:(lia)). Qed.

Lemma word_T64 x : word64 (SPH_T64 x).
Proof. rewrite SPH_T64_mod; apply word_mod; lia. Qed.

Lemma word_T32 x : word32 (SPH_T32 x).
Proof. rewrite SPH_T32_mod; apply word_mod; lia. Qed.

Lemma T64_id x : word64 x -> SPH_T64 x = x.
Proof. intros; rewrite SPH_T64_mod; now apply word_mod_id. Qed.

Lemma T32_id x : word32 x -> SPH_T32 x = x.
Proof. intros; rewrite SPH_T32_mod; now apply word_mod_id. Qed.

Lemma word_ROTL64 x n : word64 (SPH_ROTL64 x n).
Proof. apply word_T64. Qed.

Lemma word_ROTL32 x n : word32 (SPH_ROTL32 x n).
Proof. apply word_T32. Qed.

#[export] Hint Resolve word_T64 word_T32 word_ROTL64 word_ROTL32 : word.

Lemma testbit_T64 x i : 0 <= i -> Z.testbit (SPH_T64 x) i = (i <? 64) && Z.testbit x i.
Proof. intros; rewrite SPH_T64_mod; apply testbit_mod; lia. Qed.

Lemma testbit_T32 x i : 0 <= i -> Z.testbit (SPH_T32 x) i = (i <? 32) && Z.testbit x i.
Proof. intros; rewrite SPH_T32_mod; apply testbit_mod; lia. Qed.

(** * Rotation *)

(** Bit [i] of a rotation by [n] is bit [i - n], taken modulo the width. *)
Lemma testbit_ROTL64 x n i :
  word64 x -> 0 <= n <= 64 -> 0 <= i < 64 ->
  Z.testbit (SPH_ROTL64 x n) i = Z.testbit x ((i - n) mod 64).
Proof.
  intros Hx Hn Hi. unfold SPH_ROTL64. rewrite testbit_T64 by lia.
  rewrite Z.lor_spec, Z.shiftr_spec by lia.
  destruct (Z.ltb_spec i 64); [cbn [andb] | lia].
  destruct (Z.lt_ge_cases i n) as [Hlt|Hge].
  - rewrite Z.shiftl_spec, (Z.testbit_neg_r x (i - n)) by lia. cbn [orb].
    f_equal. rewrite <- (Z.mod_add (i - n) 1 64) by lia.
    rewrite Z.mod_small by lia. lia.
  - rewrite Z.shiftl_spec by lia.
    rewrite (word_testbit_high 64 x (i + (64 - n))), orb_false_r by (auto; lia).
    f_equal. rewrite Z.mod_small by lia. reflexivity.
Qed.

Lemma testbit_ROTL32 x n i :
  word32 x -> 0 <= n <= 32 -> 0 <= i < 32 ->
  Z.testbit (SPH_ROTL32 x n) i = Z.testbit x ((i - n) mod 32).
Proof.
  intros Hx Hn Hi. unfold SPH_ROTL32. rewrite testbit_T32 by lia.
  rewrite Z.lor_spec, Z.shiftr_spec by lia.
  destruct (Z.ltb_spec i 32); [cbn [andb] | lia].
  destruct (Z.lt_ge_cases i n) as [Hlt|Hge].
  - rewrite Z.shiftl_spec, (Z.testbit_neg_r x (i - n)) by lia. cbn [orb].
    f_equal. rewrite <- (Z.mod_add (i - n) 1 32) by lia.
    rewrite Z.mod_small by lia. lia.
  - rewrite Z.shiftl_spec by lia.
    rewrite (word_testbit_high 32 x (i + (32 - n))), orb_false_r by (auto; lia).
    f_equal. rewrite Z.mod_small by lia. reflexivity.
Qed.

(** * The byte swap reverses the bytes of a word *)

(** Evaluates a chain of byte-wise shifts, masks and ors on a word given by its
    bytes: shifts move bytes, masks keep or clear them. *)
Lemma byte_land_ff b : is_byte b -> b &: 255 = b.
Proof. intros; change 255 with (Z.ones 8); rewrite land_ones_mod by lia; now apply word_mod_id. Qed.

Ltac byte_side :=
  repeat apply Forall_cons; try apply Forall_nil; try assumption; try (split; [lia | reflexivity]).

Ltac bytewise_step :=
  first
    [ match goal with |- context [Z.shiftl (le_combine ?l) ?n] =>
        let k := eval vm_compute in (Z.to_nat (n / 8)) in
        rewrite (le_combine_shiftl k l : Z.shiftl (le_combine l) n = _) end
    | match goal with |- context [Z.shiftr (le_combine ?l) ?n] =>
        let k := eval vm_compute in (Z.to_nat (n / 8)) in
        rewrite (le_combine_shiftr k l : _ -> Z.shiftr (le_combine l) n = _) by byte_side end
    | rewrite le_combine_lor by byte_side
    | match goal with |- context [le_combine ?l &: Zpos ?c] =>
        let m := eval vm_compute in (le_split 8 (Zpos c)) in
        change (le_combine l &: Zpos c) with (le_combine l &: le_combine m);
        rewrite le_combine_land by byte_side end ];
  cbn [repeat app skipn zipw map];
  rewrite ?Z.land_0_r, ?Z.land_0_l, ?Z.lor_0_r, ?Z.lor_0_l, ?byte_land_ff by assumption.

Ltac bytes_inv H :=
  repeat match type of H with
         | bytes (_ :: _) => let Hb := fresh "Hb" in
             apply Forall_cons_iff in H; destruct H as [Hb H]
         end.

Lemma bswap64_combine b0 b1 b2 b3 b4 b5 b6 b7 :
  bytes [b0; b1; b2; b3; b4; b5; b6; b7] ->
  sph_bswap64 (le_combine [b0; b1; b2; b3; b4; b5; b6; b7]) =
  le_combine [b7; b6; b5; b4; b3; b2; b1; b0].
Proof.
  intros H. bytes_inv H. unfold sph_bswap64, SPH_T64.
  repeat bytewise_step. reflexivity.
Qed.

Lemma bswap32_combine b0 b1 b2 b3 :
  bytes [b0; b1; b2; b3] ->
  sph_bswap32 (le_combine [b0; b1; b2; b3]) = le_combine [b3; b2; b1; b0].
Proof.
  intros H. bytes_inv H. unfold sph_bswap32, SPH_T32.
  repeat bytewise_step. reflexivity.
Qed.

(** * What the encoders and decoders compute *)

Lemma list8 {A} (l : list A) :
  (8 <= length l)%nat -> exists b0 b1 b2 b3 b4 b5 b6 b7 r, l = [b0; b1; b2; b3; b4; b5; b6; b7] ++ r.
Proof.
  intros H. do 8 (destruct l as [|? l]; [cbn in H; lia|]).
  now do 9 eexists.
Qed.

Lemma list4 {A} (l : list A) :
  (4 <= length l)%nat -> exists b0 b1 b2 b3 r, l = [b0; b1; b2; b3] ++ r.
Proof.
  intros H. do 4 (destruct l as [|? l]; [cbn in H; lia|]).
  now do 5 eexists.
Qed.

Lemma dec64be_spec src :
  (8 <= length src)%nat -> bytes src ->
  sph_dec64be src = le_combine (rev (firstn 8 src)).
Proof.
  intros Hl Hb. destruct (list8 src Hl) as (b0&b1&b2&b3&b4&b5&b6&b7&r&->).
  apply Forall_app in Hb as [Hb _]. exact (bswap64_combine _ _ _ _ _ _ _ _ Hb).
Qed.

Lemma dec32be_spec src :
  (4 <= length src)%nat -> bytes src ->
  sph_dec32be src = le_combine (rev (firstn 4 src)).
Proof.
  intros Hl Hb. destruct (list4 src Hl) as (b0&b1&b2&b3&r&->).
  apply Forall_app in Hb as [Hb _]. exact (bswap32_combine _ _ _ _ Hb).
Qed.

Lemma store_bswap64 v : word64 v -> store 8 (sph_bswap64 v) = rev (le_split 8 v).
Proof.
  intros Hv. pose proof (bytes_le_split 8 v) as Hb.
  rewrite <- (word_mod_id 64 v Hv) at 1.
  change 64 with (8 * Z.of_nat 8); rewrite <- le_combine_split.
  destruct (list8 (le_split 8 v) (Nat.eq_le_incl 8 _ (eq_sym (length_le_split 8 v))))
    as (b0&b1&b2&b3&b4&b5&b6&b7&r&E).
  assert (Hr : r = []).
  { apply length_zero_iff_nil. pose proof (length_le_split 8 v) as L.
    rewrite E in L. cbn in L. lia. }
  rewrite E in Hb |- *. subst r. rewrite app_nil_r in Hb |- *.
  rewrite (bswap64_combine _ _ _ _ _ _ _ _ Hb).
  exact (le_split_combine [b7; b6; b5; b4; b3; b2; b1; b0] (Forall_rev Hb)).
Qed.

(** Counters are kept modulo 2^64 and written in big-endian order. *)
Lemma enc64be_T64 v : sph_enc64be (SPH_T64 v) = rev (le_split 8 v).
Proof.
  unfold sph_enc64be. rewrite store_bswap64 by apply word_T64.
  rewrite SPH_T64_mod. f_equal. exact (le_split_mod 8 v).
Qed.

Lemma T64_count q k : SPH_T64 (q mod 2 ^ 64 + k) = SPH_T64 (q + k).
Proof. rewrite !SPH_T64_mod. apply Zplus_mod_idemp_l. Qed.

Lemma store_bswap32 v : word32 v -> store 4 (sph_bswap32 v) = rev (le_split 4 v).
Proof.
  intros Hv. pose proof (bytes_le_split 4 v) as Hb.
  rewrite <- (word_mod_id 32 v Hv) at 1.
  change 32 with (8 * Z.of_nat 4); rewrite <- le_combine_split.
  destruct (list4 (le_split 4 v) (Nat.eq_le_incl 4 _ (eq_sym (length_le_split 4 v))))
    as (b0&b1&b2&b3&r&E).
  assert (Hr : r = []).
  { apply length_zero_iff_nil. pose proof (length_le_split 4 v) as L.
    rewrite E in L. cbn in L. lia. }
  rewrite E in Hb |- *. subst r. rewrite app_nil_r in Hb |- *.
  rewrite (bswap32_combine _ _ _ _ Hb).
  exact (le_split_combine [b3; b2; b1; b0] (Forall_rev Hb)).
Qed.

Lemma word64_load src : (8 <= length src)%nat -> bytes src -> word64 (load 8 src).
Proof.
  intros Hl Hb. unfold load.
  replace 64 with (8 * Z.of_nat (length (firstn 8 src))) by (rewrite length_firstn; lia).
  apply le_combine_bound. now apply Forall_take.
Qed.

Lemma word32_load src : (4 <= length src)%nat -> bytes src -> word32 (load 4 src).
Proof.
  intros Hl Hb. unfold load.
  replace 32 with (8 * Z.of_nat (length (firstn 4 src))) by (rewrite length_firstn; lia).
  apply le_combine_bound. now apply Forall_take.
Qed.

Lemma word64_dec64be src : (8 <= length src)%nat -> bytes src -> word64 (sph_dec64be src).
Proof.
  intros Hl Hb. rewrite dec64be_spec by assumption.
  replace 64 with (8 * Z.of_nat (length (rev (firstn 8 src))))
    by (rewrite length_rev, length_firstn; lia).
  apply le_combine_bound, Forall_rev. now apply Forall_take.
Qed.

(** Round trip: encoding a 64-bit word into eight bytes and decoding it gives
    the word back, in each byte order. *)
Theorem enc_dec64_roundtrip v :
  word64 v ->
  sph_dec64be (sph_enc64be v) = v /\ sph_dec64le (sph_enc64le v) = v.
Proof.
  intros Hv. assert (E : le_combine (le_split 8 v) = v)
    by (rewrite le_combine_split; now apply word_mod_id).
  split.
  - unfold sph_enc64be. rewrite store_bswap64 by assumption.
    rewrite dec64be_spec by (autorewrite with lens; auto; apply Forall_rev, bytes_le_split).
    rewrite firstn_all2 by (autorewrite with lens; lia). now rewrite rev_involutive.
  - unfold sph_dec64le, load, sph_enc64le, store.
    rewrite firstn_all2 by (autorewrite with lens; lia). exact E.
Qed.

Lemma enc_dec64_roundtrip_witness :
  sph_dec64be (sph_enc64be 0x0123456789abcdef) = 0x0123456789abcdef.
Proof. refine (proj1 (enc_dec64_roundtrip 0x0123456789abcdef _)). unfold word; lia. Defined.

(** Evaluates an or of shifted bytes: each byte is a one-byte sequence. *)
Lemma le_combine_1 b : le_combine [b] = b.
Proof. cbn [le_combine]; lia. Qed.

Ltac as_bytes l :=
  match l with
  | nil => idtac
  | cons ?b ?t => rewrite <- (le_combine_1 b) at 1; as_bytes t
  end.

Lemma dec64be_bytewise_eq src :
  (8 <= length src)%nat -> bytes src -> sph_dec64be_bytewise src = sph_dec64be src.
Proof.
  intros Hl Hb. rewrite dec64be_spec by assumption.
  destruct (list8 src Hl) as (b0&b1&b2&b3&b4&b5&b6&b7&r&->).
  apply Forall_app in Hb as [H _]. bytes_inv H.
  unfold sph_dec64be_bytewise. cbn [nth app firstn rev].
  as_bytes [b0; b1; b2; b3; b4; b5; b6; b7].
  repeat bytewise_step. reflexivity.
Qed.

Lemma dec64le_bytewise_eq src :
  (8 <= length src)%nat -> bytes src -> sph_dec64le_bytewise src = sph_dec64le src.
Proof.
  intros Hl Hb. destruct (list8 src Hl) as (b0&b1&b2&b3&b4&b5&b6&b7&r&->).
  apply Forall_app in Hb as [H _]. bytes_inv H.
  unfold sph_dec64le_bytewise, sph_dec64le, load. cbn [nth app firstn].
  as_bytes [b0; b1; b2; b3; b4; b5; b6; b7].
  repeat bytewise_step. reflexivity.
Qed.

Lemma dec32be_bytewise_eq src :
  (4 <= length src)%nat -> bytes src -> sph_dec32be_bytewise src = sph_dec32be src.
Proof.
  intros Hl Hb. rewrite dec32be_spec by assumption.
  destruct (list4 src Hl) as (b0&b1&b2&b3&r&->).
  apply Forall_app in Hb as [H _]. bytes_inv H.
  unfold sph_dec32be_bytewise. cbn [nth app firstn rev].
  as_bytes [b0; b1; b2; b3]. repeat bytewise_step. reflexivity.
Qed.

Lemma dec32le_bytewise_eq src :
  (4 <= length src)%nat -> bytes src -> sph_dec32le_bytewise src = sph_dec32le src.
Proof.
  intros Hl Hb. destruct (list4 src Hl) as (b0&b1&b2&b3&r&->).
  apply Forall_app in Hb as [H _]. bytes_inv H.
  unfold sph_dec32le_bytewise, sph_dec32le, load. cbn [nth app firstn].
  as_bytes [b0; b1; b2; b3]. repeat bytewise_step. reflexivity.
Qed.

Lemma uchar_mod x : uchar x = x mod 256.
Proof. exact (land_ones_mod 8 x ltac:(lia)). Qed.

Lemma div256_shiftr v n : 0 <= n -> Z.shiftr v n / 256 = Z.shiftr v (n + 8).
Proof.
  intros. rewrite <- Z.shiftr_shiftr by lia.
  rewrite (Z.shiftr_div_pow2 _ 8) by lia. reflexivity.
Qed.

Lemma le_split_shiftr n v : 
  le_split n v = map (fun k => uchar (Z.shiftr v (8 * Z.of_nat k))) (seq 0 n).
Proof.
  enough (H : forall s, 0 <= s ->
    le_split n (Z.shiftr v s) = map (fun k => uchar (Z.shiftr v (s + 8 * Z.of_nat k))) (seq 0 n)).
  { specialize (H 0 ltac:(lia)). now rewrite Z.shiftr_0_r in H. }
  induction n as [|n IH]; intros s Hs; [reflexivity|].
  cbn [le_split seq map]. f_equal.
  - rewrite uchar_mod. do 2 f_equal. lia.
  - rewrite div256_shiftr, IH, <- seq_shift, map_map by lia.
    apply map_ext; intros k. do 2 f_equal. lia.
Qed.

Lemma enc64_bytewise_eq v :
  word64 v -> sph_enc64be_bytewise v = sph_enc64be v /\ sph_enc64le_bytewise v = sph_enc64le v.
Proof.
  intros Hv. unfold sph_enc64be, sph_enc64le. rewrite store_bswap64 by assumption.
  unfold store. rewrite le_split_shiftr. cbn [seq map rev app].
  change (8 * Z.of_nat 0) with 0; rewrite Z.shiftr_0_r. split; reflexivity.
Qed.

Lemma enc32_bytewise_eq v :
  word32 v -> sph_enc32be_bytewise v = sph_enc32be v /\ sph_enc32le_bytewise v = sph_enc32le v.
Proof.
  intros Hv. unfold sph_enc32be, sph_enc32le. rewrite store_bswap32 by assumption.
  unfold store. rewrite le_split_shiftr. cbn [seq map rev app].
  change (8 * Z.of_nat 0) with 0; rewrite Z.shiftr_0_r. split; reflexivity.
Qed.

(** The word-access paths of the 64-bit and 32-bit encoders and decoders
    compute the same values as the byte-by-byte paths. *)
Theorem bytewise_paths_agree src v w :
  (8 <= length src)%nat -> bytes src -> word64 v -> word32 w ->
  (sph_dec64be_bytewise src = sph_dec64be src /\ sph_dec64le_bytewise src = sph_dec64le src) /\
  (sph_dec32be_bytewise src = sph_dec32be src /\ sph_dec32le_bytewise src = sph_dec32le src) /\
  (sph_enc64be_bytewise v = sph_enc64be v /\ sph_enc64le_bytewise v = sph_enc64le v) /\
  (sph_enc32be_bytewise w = sph_enc32be w /\ sph_enc32le_bytewise w = sph_enc32le w).
Proof.
  intros Hl Hb Hv Hw. repeat split.
  - now apply dec64be_bytewise_eq.
  - now apply dec64le_bytewise_eq.
  - apply dec32be_bytewise_eq; [lia|assumption].
  - apply dec32le_bytewise_eq; [lia|assumption].
  - now apply enc64_bytewise_eq.
  - now apply enc64_bytewise_eq.
  - now apply enc32_bytewise_eq.
  - now apply enc32_bytewise_eq.
Qed.

Lemma bytewise_paths_agree_witness :
  sph_dec64be_bytewise [1; 2; 3; 4; 5; 6; 7; 255] = sph_dec64be [1; 2; 3; 4; 5; 6; 7; 255].
Proof.
  refine (proj1 (proj1 (bytewise_paths_agree [1; 2; 3; 4; 5; 6; 7; 255] 0x100 0x100 _ _ _ _))).
  - cbn; lia.
  - repeat (apply Forall_cons; [unfold word; lia|]); apply Forall_nil.
  - unfold word; lia.
  - unfold word; lia.
Defined.

(** ** Complements: how the bitwise operations act on a complemented word *)

(** [not64 b x] is [x], complemented when [b] holds. *)
Definition not64 (b : bool) (x : Z) : Z := if b then SPH_T64 (Z.lnot x) else x.

Lemma word_not64 b x : word64 x -> word64 (not64 b x).
Proof. destruct b; cbn [not64]; auto with word. Qed.
#[export] Hint Resolve word_not64 : word.

Lemma testbit_not64 b x i :
  0 <= i < 64 -> Z.testbit (not64 b x) i = xorb b (Z.testbit x i).
Proof.
  intros Hi; destruct b; cbn [not64 xorb]; [|destruct (Z.testbit x i); reflexivity].
  rewrite testbit_T64, Z.lnot_spec by lia. destruct (Z.ltb_spec i 64); [reflexivity|lia].
Qed.

(** Decides equality of two 64-bit words bit by bit. *)
Ltac word64_bits :=
  apply (word_ext 64);
  [ lia | auto 30 with word | auto 30 with word
  | intros ?i ?Hi; repeat first
      [ rewrite Z.lxor_spec | rewrite Z.land_spec | rewrite Z.lor_spec
      | rewrite testbit_not64 by lia ] ].

Lemma not64_lxor b c x y :
  word64 x -> word64 y -> not64 b x ^^ not64 c y = not64 (xorb b c) (x ^^ y).
Proof.
  intros; word64_bits. destruct b, c, (Z.testbit x i), (Z.testbit y i); reflexivity.
Qed.

Lemma not64_involutive b x : word64 x -> not64 b (not64 b x) = x.
Proof. intros; word64_bits. destruct b, (Z.testbit x i); reflexivity. Qed.

Lemma not64_ROTL64 b x n :
  0 <= n <= 64 -> word64 x -> SPH_ROTL64 (not64 b x) n = not64 b (SPH_ROTL64 x n).
Proof.
  intros Hn Hx; word64_bits.
  rewrite !testbit_ROTL64 by auto with word.
  rewrite testbit_not64 by (apply Z.mod_pos_bound; lia). reflexivity.
Qed.
