(* ===== verification/Stream.v ===== *)
(** The block-buffering discipline the hash functions share. Every [_core]
    function of src/src/crypto (keccak.c, blake.c, bmw.c, groestl.c, jh.c)
    copies its input into a block buffer and calls its compression code each
    time the buffer is full; skein.c keeps a full block back until more data
    arrives. [core_loop] and [lazy_loop] are those two loops, over an arbitrary
    compression step; [absorb] and [absorb_lazy] are what they compute: the
    compression step folded over the blocks of the whole message. The loops
    keep the stale bytes of the buffer, as the C code does. *)
From S2P Require Import Prelude.

Section Buffered.
Context {St : Type}.
(** The block size in bytes and the code run on a full buffer. *)
Context (size : nat) (full : St -> list Z -> St).

(** * The loop *)

(** [while (len > 0) { ... }]: one unit of fuel per iteration; every
    iteration copies at least one byte, so [length data] units are enough
    ([core_loop_absorb]). *)
Fixpoint core_loop (fuel : nat) (buf : list Z) (ptr : nat) (st : St) (data : list Z)
  : list Z * nat * St :=
  match fuel, data with
  | _, [] => (buf, ptr, st)
  | O, _ => (buf, ptr, st)
  | S fuel', _ =>
      let len := length data in
      let clen := (size - ptr)%nat in
      let clen := if (len <? clen)%nat then len else clen in
      let buf := memcpy_at buf ptr (firstn clen data) in
      let ptr := (ptr + clen)%nat in
      let data := skipn clen data in
      if (ptr =? size)%nat
      then core_loop fuel' buf 0 (full st buf) data
      else core_loop fuel' buf ptr st data
  end.

(** * What the loop computes *)

(** Absorbs a message from the state [st]: the state after every whole block
    and the bytes left over. *)
Fixpoint absorb_fuel (fuel : nat) (st : St) (m : list Z) : St * list Z :=
  match fuel with
  | O => (st, m)
  | S fuel' =>
      if (length m <? size)%nat then (st, m)
      else absorb_fuel fuel' (full st (firstn size m)) (skipn size m)
  end.

Definition absorb (st : St) (m : list Z) : St * list Z := absorb_fuel (length m) st m.

Context (Hsize : (0 < size)%nat).

Lemma absorb_fuel_enough fuel st m :
  (length m <= fuel)%nat -> absorb_fuel fuel st m = absorb st m.
Proof.
  unfold absorb. remember (length m) as n eqn:E.
  revert fuel st m E. induction n as [n IH] using lt_wf_ind; intros fuel st m E Hf.
  destruct fuel as [|fuel]; [replace n with 0%nat by lia; reflexivity|].
  destruct n as [|n].
  - cbn [absorb_fuel]. rewrite <- E. destruct (Nat.ltb_spec 0 size); [reflexivity|lia].
  - cbn [absorb_fuel]. rewrite <- E. destruct (Nat.ltb_spec (S n) size); [reflexivity|].
    assert (L : length (skipn size m) = (S n - size)%nat) by (rewrite length_skipn; lia).
    rewrite (IH (S n - size)%nat) by lia.
    symmetry; rewrite (IH (S n - size)%nat) by lia. reflexivity.
Qed.

Lemma absorb_short st m : (length m < size)%nat -> absorb st m = (st, m).
Proof.
  intros H. unfold absorb. destruct (length m) eqn:E; [reflexivity|].
  cbn [absorb_fuel]. rewrite E. destruct (Nat.ltb_spec (S n) size); [reflexivity|lia].
Qed.

Lemma absorb_block st m :
  (size <= length m)%nat ->
  absorb st m = absorb (full st (firstn size m)) (skipn size m).
Proof.
  intros H. rewrite <- (absorb_fuel_enough (S (length m)) st m) by lia.
  cbn [absorb_fuel]. destruct (Nat.ltb_spec (length m) size); [lia|].
  apply absorb_fuel_enough. rewrite length_skipn; lia.
Qed.

Lemma absorb_block_app st b m :
  length b = size -> absorb st (b ++ m) = absorb (full st b) m.
Proof.
  intros H. rewrite absorb_block by (rewrite length_app; lia).
  now rewrite firstn_app, skipn_app, H, Nat.sub_diag, firstn_O, skipn_O, app_nil_r,
    firstn_all2, skipn_all2 by lia.
Qed.

(** Induction along the blocks of a message. *)
Lemma absorb_ind (P : St -> list Z -> Prop) :
  (forall st m, (length m < size)%nat -> P st m) ->
  (forall st b m, length b = size -> P (full st b) m -> P st (b ++ m)) ->
  forall st m, P st m.
Proof.
  intros Hs Hb st m. remember (length m) as n eqn:E.
  revert st m E. induction n as [n IH] using lt_wf_ind; intros st m E.
  destruct (Nat.lt_ge_cases (length m) size) as [Hlt|Hge]; [auto|].
  rewrite <- (firstn_skipn size m). apply Hb; [rewrite length_firstn; lia|].
  eapply IH; [|reflexivity]. rewrite length_skipn; lia.
Qed.

Lemma absorb_tail_length st m : (length (snd (absorb st m)) < size)%nat.
Proof.
  revert st m; apply absorb_ind; intros.
  - rewrite absorb_short by assumption; assumption.
  - rewrite absorb_block_app by assumption; assumption.
Qed.

Lemma absorb_tail_forall (P : Z -> Prop) st m :
  Forall P m -> Forall P (snd (absorb st m)).
Proof.
  revert st m; apply (absorb_ind (fun st m => Forall P m -> Forall P (snd (absorb st m)))).
  - intros st m Hm H. now rewrite absorb_short.
  - intros st b m Hb IH H. rewrite absorb_block_app by assumption.
    apply Forall_app in H. now apply IH.
Qed.

(** The number of left-over bytes is the message length modulo the block
    size. *)
Lemma absorb_tail_mod st m :
  length (snd (absorb st m)) = (length m mod size)%nat.
Proof.
  revert st m; apply absorb_ind; intros.
  - rewrite absorb_short, Nat.mod_small by assumption; reflexivity.
  - rewrite absorb_block_app, length_app, H by assumption.
    rewrite Nat.add_comm. rewrite H0. symmetry.
    replace (length m + size)%nat with (length m + 1 * size)%nat by lia.
    apply Nat.Div0.mod_add.
Qed.

(** Absorbing a concatenation is absorbing its parts in turn. *)
Lemma absorb_app st m1 m2 :
  absorb st (m1 ++ m2) = absorb (fst (absorb st m1)) (snd (absorb st m1) ++ m2).
Proof.
  revert st m1; apply absorb_ind; intros.
  - now rewrite (absorb_short st m).
  - rewrite <- app_assoc, (absorb_block_app st b m), (absorb_block_app st b (m ++ m2))
      by assumption. assumption.
Qed.

(** An invariant of the compression step holds after absorption. *)
Lemma absorb_inv (P : St -> Prop) (Q : Z -> Prop) st m :
  P st -> Forall Q m ->
  (forall st b, P st -> length b = size -> Forall Q b -> P (full st b)) ->
  P (fst (absorb st m)).
Proof.
  intros Hst Hm Hfull. revert st m Hst Hm.
  apply (absorb_ind (fun st m => P st -> Forall Q m -> P (fst (absorb st m)))).
  - intros st m Hlt Hst Hm. now rewrite absorb_short.
  - intros st b m Hb IH Hst Hm. apply Forall_app in Hm as [H1 H2].
    rewrite absorb_block_app by assumption. auto.
Qed.

(** * The loop refines the absorption *)

(** The buffer has room for [cap >= size] bytes (keccak.c uses one buffer
    for all its block sizes), of which the compression code reads [size]. *)
Context (cap : nat) (Hcap : (size <= cap)%nat).
Context (Hfull : forall st b, length b = cap -> full st b = full st (firstn size b)).

Lemma core_loop_absorb fuel buf ptr st data :
  length buf = cap -> (ptr < size)%nat -> (length data <= fuel)%nat ->
  exists buf' ptr' st',
    core_loop fuel buf ptr st data = (buf', ptr', st') /\
    length buf' = cap /\ (ptr' < size)%nat /\
    absorb st (firstn ptr buf ++ data) = (st', firstn ptr' buf').
Proof.
  revert buf ptr st data; induction fuel as [|fuel IH]; intros buf ptr st data Hb Hp Hf.
  - destruct data; [|cbn in Hf; lia].
    exists buf, ptr, st; repeat split; auto.
    rewrite app_nil_r; apply absorb_short; rewrite length_firstn; lia.
  - destruct data as [|x data'].
    { exists buf, ptr, st; repeat split; auto.
      rewrite app_nil_r; apply absorb_short; rewrite length_firstn; lia. }
    set (data := x :: data') in *. assert (Hd : (0 < length data)%nat) by (cbn; lia).
    cbn [core_loop]. fold data.
    set (clen := if (length data <? size - ptr)%nat then length data else (size - ptr)%nat).
    assert (Hc : (0 < clen /\ clen <= length data /\ ptr + clen <= size)%nat)
      by (unfold clen; destruct (Nat.ltb_spec (length data) (size - ptr)); lia).
    assert (Hfc : length (firstn clen data) = clen) by (rewrite length_firstn; lia).
    set (buf1 := memcpy_at buf ptr (firstn clen data)).
    assert (Hb1 : length buf1 = cap)
      by (unfold buf1; rewrite length_memcpy_at; rewrite ?Hfc; lia).
    assert (Hfst : firstn (ptr + clen) buf1 = firstn ptr buf ++ firstn clen data).
    { pose proof (firstn_memcpy_at buf ptr (firstn clen data)) as G.
      rewrite Hfc in G. apply G. lia. }
    destruct (Nat.eqb_spec (ptr + clen) size) as [Heq|Hne].
    + destruct (IH buf1 0%nat (full st buf1) (skipn clen data)) as (buf'&ptr'&st'&E&H1&H2&H3);
        [assumption|lia|rewrite length_skipn; lia|].
      exists buf', ptr', st'; repeat split; auto.
      rewrite <- H3. cbn [firstn app].
      rewrite <- (firstn_skipn clen data) at 1.
      rewrite app_assoc, <- Hfst, Heq, Hfull by assumption.
      apply absorb_block_app. rewrite length_firstn; lia.
    + assert (Hskip : skipn clen data = []).
      { apply skipn_all2. unfold clen in *.
        destruct (Nat.ltb_spec (length data) (size - ptr)); lia. }
      destruct (IH buf1 (ptr + clen)%nat st (skipn clen data)) as (buf'&ptr'&st'&E&H1&H2&H3);
        [assumption|lia|rewrite length_skipn; lia|].
      exists buf', ptr', st'; repeat split; auto.
      rewrite <- H3, Hfst, <- app_assoc, firstn_skipn. reflexivity.
Qed.

(** * Contexts and the messages they stand for *)

(** The context [(buf, ptr, st)] stands for the message [m] hashed from the
    initial state [st0]: its chaining state is the one after the whole blocks
    of [m] and the first [ptr] bytes of its buffer are the rest. *)
Definition represents (st0 : St) (buf : list Z) (ptr : nat) (st : St) (m : list Z) : Prop :=
  length buf = cap /\ (ptr < size)%nat /\ absorb st0 m = (st, firstn ptr buf).

Lemma represents_nil st0 buf : length buf = cap -> represents st0 buf 0 st0 [].
Proof. intros H; repeat split; auto. Qed.

Lemma represents_length st0 buf ptr st m :
  represents st0 buf ptr st m -> ptr = (length m mod size)%nat.
Proof.
  intros (Hb & Hp & E). rewrite <- (absorb_tail_mod st0 m), E. cbn [snd].
  rewrite length_firstn; lia.
Qed.

(** The loop takes a context of [m] to a context of [m ++ data]. *)
Lemma core_loop_represents st0 buf ptr st m data :
  represents st0 buf ptr st m ->
  let '(buf', ptr', st') := core_loop (length data) buf ptr st data in
  represents st0 buf' ptr' st' (m ++ data).
Proof.
  intros (Hb & Hp & E).
  destruct (core_loop_absorb (length data) buf ptr st data) as (b'&p'&s'&El&H1&H2&H3); auto.
  rewrite El; repeat split; auto.
  rewrite absorb_app, E; exact H3.
Qed.

(** The early exit of the [_core] functions, [len < size - ptr]. *)
Lemma short_copy_represents st0 buf ptr st m data :
  represents st0 buf ptr st m -> (length data < size - ptr)%nat ->
  represents st0 (memcpy_at buf ptr data) (ptr + length data) st (m ++ data).
Proof.
  intros (Hb & Hp & E) Hd. repeat split.
  - rewrite length_memcpy_at; lia.
  - lia.
  - rewrite absorb_app, E, firstn_memcpy_at by lia. cbn [fst snd].
    apply absorb_short. rewrite length_app, length_firstn; lia.
Qed.

(** When the data fill the buffer exactly, the loop runs the compression
    code once and leaves the buffer empty. *)
Lemma core_loop_one_block buf ptr st data :
  length buf = cap -> (ptr < size)%nat -> length data = (size - ptr)%nat ->
  exists buf', core_loop (length data) buf ptr st data =
               (buf', 0%nat, full st (firstn ptr buf ++ data)) /\ length buf' = cap.
Proof.
  intros Hb Hp Hd.
  destruct (core_loop_absorb (length data) buf ptr st data) as (b'&p'&s'&El&H1&H2&H3); auto.
  rewrite <- (app_nil_r (_ ++ _)), absorb_block_app in H3
    by (rewrite length_app, length_firstn; lia).
  rewrite absorb_short in H3 by (cbn; lia). injection H3 as <- Hn.
  assert (p' = 0%nat) as -> by (apply (f_equal (@length Z)) in Hn; cbn in Hn;
    rewrite length_firstn in Hn; lia).
  exists b'; auto.
Qed.
End Buffered.

(** Two compression steps in lockstep keep their states related. *)
Lemma absorb_rel {St St'} (size : nat) (full : St -> list Z -> St) (full' : St' -> list Z -> St')
    (R : St -> St' -> Prop) (Q : Z -> Prop) st st' m :
  (0 < size)%nat ->
  (forall st st' b, R st st' -> length b = size -> Forall Q b -> R (full st b) (full' st' b)) ->
  R st st' -> Forall Q m ->
  R (fst (absorb size full st m)) (fst (absorb size full' st' m)) /\
  snd (absorb size full st m) = snd (absorb size full' st' m).
Proof.
  intros Hsize Hstep. revert st' . revert st m.
  apply (absorb_ind size full Hsize (fun st m => forall st', R st st' -> Forall Q m -> 
    R (fst (absorb size full st m)) (fst (absorb size full' st' m)) /\
    snd (absorb size full st m) = snd (absorb size full' st' m))).
  - intros st m Hm st' HR HQ. now rewrite !absorb_short by assumption.
  - intros st b m Hb IH st' HR HQ. apply Forall_app in HQ as [H1 H2].
    rewrite !absorb_block_app by assumption. apply IH; auto.
Qed.

(** A message of whole blocks leaves nothing over. *)
Lemma absorb_whole {St} (size : nat) (full : St -> list Z -> St) st m :
  (0 < size)%nat -> (length m mod size = 0)%nat -> snd (absorb size full st m) = [].
Proof.
  intros Hs Hm. pose proof (absorb_tail_mod size full Hs st m) as H.
  rewrite Hm in H. now apply length_zero_iff_nil.
Qed.

(** A buffer of exactly one block. *)
Lemma full_exact {St} (size : nat) (full : St -> list Z -> St) st b :
  length b = size -> full st b = full st (firstn size b).
Proof. intros <-; now rewrite firstn_all. Qed.

(** * The loop that keeps the last block back (skein.c) *)

Section Lazy.
Context {St : Type} (size : nat) (full : St -> list Z -> St).

(** [do { ... } while (len > 0)]; [length data] units of fuel are enough for
    nonempty data ([lazy_loop_absorb]). *)
Fixpoint lazy_loop (fuel : nat) (buf : list Z) (ptr : nat) (st : St) (data : list Z)
  : list Z * nat * St :=
  match fuel with
  | O => (buf, ptr, st)
  | S fuel' =>
      let '(ptr, st) := if (ptr =? size)%nat then (0%nat, full st buf) else (ptr, st) in
      let len := length data in
      let clen := (size - ptr)%nat in
      let clen := if (len <? clen)%nat then len else clen in
      let buf := memcpy_at buf ptr (firstn clen data) in
      let ptr := (ptr + clen)%nat in
      let data := skipn clen data in
      match data with
      | [] => (buf, ptr, st)
      | _ => lazy_loop fuel' buf ptr st data
      end
  end.

(** Absorbs every block but the last one, which may be full. *)
Fixpoint absorb_lazy_fuel (fuel : nat) (st : St) (m : list Z) : St * list Z :=
  match fuel with
  | O => (st, m)
  | S fuel' =>
      if (length m <=? size)%nat then (st, m)
      else absorb_lazy_fuel fuel' (full st (firstn size m)) (skipn size m)
  end.

Definition absorb_lazy (st : St) (m : list Z) : St * list Z :=
  absorb_lazy_fuel (length m) st m.

Context (Hsize : (0 < size)%nat).

Lemma absorb_lazy_fuel_enough fuel st m :
  (length m <= fuel)%nat -> absorb_lazy_fuel fuel st m = absorb_lazy st m.
Proof.
  unfold absorb_lazy. remember (length m) as n eqn:E.
  revert fuel st m E. induction n as [n IH] using lt_wf_ind; intros fuel st m E Hf.
  destruct fuel as [|fuel]; [replace n with 0%nat by lia; reflexivity|].
  destruct n as [|n].
  - cbn [absorb_lazy_fuel]. rewrite <- E. reflexivity.
  - cbn [absorb_lazy_fuel]. rewrite <- E. destruct (Nat.leb_spec (S n) size); [reflexivity|].
    assert (L : length (skipn size m) = (S n - size)%nat) by (rewrite length_skipn; lia).
    rewrite (IH (S n - size)%nat) by lia.
    symmetry; rewrite (IH (S n - size)%nat) by lia. reflexivity.
Qed.

Lemma absorb_lazy_short st m : (length m <= size)%nat -> absorb_lazy st m = (st, m).
Proof.
  intros H. unfold absorb_lazy. destruct (length m) eqn:E; [reflexivity|].
  cbn [absorb_lazy_fuel]. rewrite E. destruct (Nat.leb_spec (S n) size); [reflexivity|lia].
Qed.

Lemma absorb_lazy_block_app st b m :
  length b = size -> (0 < length m)%nat ->
  absorb_lazy st (b ++ m) = absorb_lazy (full st b) m.
Proof.
  intros H Hm.
  rewrite <- (absorb_lazy_fuel_enough (S (length (b ++ m))) st (b ++ m)) by lia.
  cbn [absorb_lazy_fuel]. rewrite length_app.
  destruct (Nat.leb_spec (length b + length m) size); [lia|].
  rewrite firstn_app, skipn_app, H, Nat.sub_diag, firstn_O, skipn_O, app_nil_r,
    firstn_all2, skipn_all2 by lia.
  apply absorb_lazy_fuel_enough. cbn [app]. lia.
Qed.

Lemma absorb_lazy_ind (P : St -> list Z -> Prop) :
  (forall st m, (length m <= size)%nat -> P st m) ->
  (forall st b m, length b = size -> (0 < length m)%nat -> P (full st b) m -> P st (b ++ m)) ->
  forall st m, P st m.
Proof.
  intros Hs Hb st m. remember (length m) as n eqn:E.
  revert st m E. induction n as [n IH] using lt_wf_ind; intros st m E.
  destruct (Nat.le_gt_cases (length m) size) as [Hle|Hgt]; [auto|].
  rewrite <- (firstn_skipn size m).
  apply Hb; [rewrite length_firstn; lia|rewrite length_skipn; lia|].
  eapply IH; [|reflexivity]. rewrite length_skipn; lia.
Qed.

Lemma absorb_lazy_app st m1 m2 :
  absorb_lazy st (m1 ++ m2) =
  absorb_lazy (fst (absorb_lazy st m1)) (snd (absorb_lazy st m1) ++ m2).
Proof.
  revert st m1; apply absorb_lazy_ind; intros.
  - now rewrite (absorb_lazy_short st m).
  - rewrite <- app_assoc, (absorb_lazy_block_app st b m), (absorb_lazy_block_app st b (m ++ m2))
      by (rewrite ?length_app; lia). assumption.
Qed.

Lemma absorb_lazy_tail_length st m : (length (snd (absorb_lazy st m)) <= size)%nat.
Proof.
  revert st m; apply absorb_lazy_ind; intros.
  - rewrite absorb_lazy_short by assumption; assumption.
  - rewrite absorb_lazy_block_app by assumption; assumption.
Qed.

(** Of a nonempty message something is always kept back. *)
Lemma absorb_lazy_tail_pos st m :
  (0 < length m)%nat -> (0 < length (snd (absorb_lazy st m)))%nat.
Proof.
  revert st m; apply (absorb_lazy_ind (fun st m =>
    (0 < length m)%nat -> (0 < length (snd (absorb_lazy st m)))%nat)); intros.
  - rewrite absorb_lazy_short by assumption; assumption.
  - rewrite absorb_lazy_block_app by assumption; auto.
Qed.

Lemma lazy_loop_absorb fuel buf ptr st data :
  length buf = size -> (ptr <= size)%nat -> (0 < length data <= fuel)%nat ->
  exists buf' ptr' st',
    lazy_loop fuel buf ptr st data = (buf', ptr', st') /\
    length buf' = size /\ (ptr' <= size)%nat /\
    absorb_lazy st (firstn ptr buf ++ data) = (st', firstn ptr' buf').
Proof.
  revert buf ptr st data; induction fuel as [|fuel IH]; intros buf ptr st data Hb Hp Hf; [lia|].
  cbn [lazy_loop].
  (* the possible processing of a full buffer *)
  assert (Hpre : exists p1 s1,
    (if (ptr =? size)%nat then (0%nat, full st buf) else (ptr, st)) = (p1, s1) /\
    (p1 < size)%nat /\
    absorb_lazy st (firstn ptr buf ++ data) = absorb_lazy s1 (firstn p1 buf ++ data)).
  { destruct (Nat.eqb_spec ptr size) as [->|Hne].
    - exists 0%nat, (full st buf); repeat split; auto.
      cbn [firstn app]. rewrite firstn_all2 by lia. apply absorb_lazy_block_app; lia.
    - exists ptr, st; repeat split; auto; lia. }
  destruct Hpre as (p1 & s1 & -> & Hp1 & ->).
  set (clen := if (length data <? size - p1)%nat then length data else (size - p1)%nat).
  assert (Hc : (0 < clen /\ clen <= length data /\ p1 + clen <= size)%nat)
    by (unfold clen; destruct (Nat.ltb_spec (length data) (size - p1)); lia).
  assert (Hfc : length (firstn clen data) = clen) by (rewrite length_firstn; lia).
  set (buf1 := memcpy_at buf p1 (firstn clen data)).
  assert (Hb1 : length buf1 = size)
    by (unfold buf1; rewrite length_memcpy_at; rewrite ?Hfc; lia).
  assert (Hfst : firstn (p1 + clen) buf1 = firstn p1 buf ++ firstn clen data).
  { pose proof (firstn_memcpy_at buf p1 (firstn clen data)) as G.
    rewrite Hfc in G. apply G. lia. }
  destruct (skipn clen data) as [|y rest] eqn:Hsk.
  - exists buf1, (p1 + clen)%nat, s1; repeat split; auto; [lia|].
    rewrite <- (firstn_skipn clen data), Hsk, app_nil_r, <- Hfst.
    apply absorb_lazy_short. rewrite length_firstn; lia.
  - assert (Hlr : length (y :: rest) = (length data - clen)%nat)
      by (rewrite <- Hsk; apply length_skipn).
    destruct (IH buf1 (p1 + clen)%nat s1 (y :: rest)) as (b'&p'&s'&E&H1&H2&H3);
      [assumption | lia | cbn [length] in Hlr |- *; lia |].
    exists b', p', s'; repeat split; auto.
    rewrite <- H3, Hfst, <- app_assoc, <- Hsk, firstn_skipn. reflexivity.
Qed.

Definition represents_lazy (st0 : St) (buf : list Z) (ptr : nat) (st : St) (m : list Z) : Prop :=
  length buf = size /\ (ptr <= size)%nat /\ absorb_lazy st0 m = (st, firstn ptr buf).

Lemma lazy_loop_represents st0 buf ptr st m data :
  represents_lazy st0 buf ptr st m -> (0 < length data)%nat ->
  let '(buf', ptr', st') := lazy_loop (length data) buf ptr st data in
  represents_lazy st0 buf' ptr' st' (m ++ data).
Proof.
  intros (Hb & Hp & E) Hd.
  destruct (lazy_loop_absorb (length data) buf ptr st data) as (b'&p'&s'&El&H1&H2&H3); auto.
  rewrite El; repeat split; auto.
  rewrite absorb_lazy_app, E; exact H3.
Qed.

Lemma short_copy_represents_lazy st0 buf ptr st m data :
  represents_lazy st0 buf ptr st m -> (length data <= size - ptr)%nat ->
  represents_lazy st0 (memcpy_at buf ptr data) (ptr + length data) st (m ++ data).
Proof.
  intros (Hb & Hp & E) Hd. repeat split.
  - rewrite length_memcpy_at; lia.
  - lia.
  - rewrite absorb_lazy_app, E, firstn_memcpy_at by lia. cbn [fst snd].
    apply absorb_lazy_short. rewrite length_app, length_firstn; lia.
Qed.
End Lazy.

(** The loop over a richer state, seen through a projection that the block step
    respects. *)
Lemma core_loop_map {St St'} (size : nat) (full : St -> list Z -> St) (full' : St' -> list Z -> St')
    (proj : St -> St') :
  (forall st b, proj (full st b) = full' (proj st) b) ->
  forall fuel buf ptr st data,
  let '(b1, p1, s1) := core_loop size full fuel buf ptr st data in
  core_loop size full' fuel buf ptr (proj st) data = (b1, p1, proj s1).
Proof.
  intros Hstep fuel. induction fuel as [|fuel IH]; intros buf ptr st data; [now destruct data|].
  cbn [core_loop]. destruct data as [|x data]; [reflexivity|].
  destruct (_ =? size)%nat; [rewrite <- Hstep|]; apply IH.
Qed.

(** Two block steps in lockstep drive the loop through the same buffers. *)
Lemma lazy_loop_rel {St St'} (size : nat) (full : St -> list Z -> St) (full' : St' -> list Z -> St')
    (R : St -> St' -> Prop) :
  (forall st st' b, R st st' -> R (full st b) (full' st' b)) ->
  forall fuel buf ptr st st' data, R st st' ->
  let '(b1, p1, s1) := lazy_loop size full fuel buf ptr st data in
  let '(b2, p2, s2) := lazy_loop size full' fuel buf ptr st' data in
  b1 = b2 /\ p1 = p2 /\ R s1 s2.
Proof.
  intros Hstep fuel. induction fuel as [|fuel IH]; intros buf ptr st st' data HR; [now cbn|].
  cbn [lazy_loop].
  destruct (ptr =? size)%nat.
  - destruct (skipn _ data); [now auto | apply IH; auto].
  - destruct (skipn _ data); [now auto | apply IH; auto].
Qed.

(** * The interface of a streaming hash function *)

(** The operations of one [sph_*] hash function: [init], update and [close],
    which returns the digest and the context it leaves behind. *)
Record hash_ops (Ctx : Type) := {
  hash_init : Ctx;
  hash_update : Ctx -> list Z -> Ctx;
  hash_close : Ctx -> list Z * Ctx
}.
Arguments hash_init {Ctx} _.
Arguments hash_update {Ctx} _ _ _.
Arguments hash_close {Ctx} _ _.

(** What such a function promises its callers: there is a relation between
    contexts and the messages fed so far, kept by every operation, under which
    [close] returns the digest [H m] of the whole message and makes the context
    ready for a new one. [ok] is what a message must satisfy (a bound on its
    length where the code's counters have one). *)
Class StreamHash {Ctx : Type} (ops : hash_ops Ctx) (ok : list Z -> Prop) (H : list Z -> list Z) := {
  hash_rep : Ctx -> list Z -> Prop;
  hash_rep_init : hash_rep (hash_init ops) [];
  hash_rep_update c m d : bytes d -> hash_rep c m -> hash_rep (hash_update ops c d) (m ++ d);
  hash_rep_close c m : hash_rep c m -> ok m ->
    fst (hash_close ops c) = H m /\ hash_rep (snd (hash_close ops c)) []
}.

(** No condition on the message. *)
Definition any_message (m : list Z) : Prop := True.

(** The digest of a message fed in the given pieces to a fresh context. *)
Definition digest_of {Ctx} (ops : hash_ops Ctx) (pieces : list (list Z)) : list Z :=
  fst (hash_close ops (fold_left (hash_update ops) pieces (hash_init ops))).

Section Client.
Context {Ctx : Type} {ops : hash_ops Ctx} {ok : list Z -> Prop} {H : list Z -> list Z}.
Context `{!StreamHash ops ok H}.

Lemma fed_rep pieces :
  Forall (fun p => bytes p) pieces ->
  hash_rep (fold_left (hash_update ops) pieces (hash_init ops)) (concat pieces).
Proof.
  intros Hp.
  enough (G : forall c m, hash_rep c m ->
    hash_rep (fold_left (hash_update ops) pieces c) (m ++ concat pieces)).
  { exact (G _ [] hash_rep_init). }
  induction Hp as [|p ps Hb Hps IH]; intros c m Hc; cbn [fold_left concat].
  - now rewrite app_nil_r.
  - rewrite app_assoc. apply IH. now apply hash_rep_update.
Qed.

(** Feeding a message in any number of pieces gives the digest of their
    concatenation. *)
Lemma chunked_digest (pieces : list (list Z)) :
  Forall (fun p => bytes p) pieces -> ok (concat pieces) ->
  digest_of ops pieces = H (concat pieces).
Proof. intros Hp Hok. apply hash_rep_close; [now apply fed_rep | assumption]. Qed.

(** A context that has been closed computes the next digest as a fresh one. *)
Lemma reuse_after_close c m d :
  hash_rep c m -> ok m -> bytes d -> ok d ->
  fst (hash_close ops (hash_update ops (snd (hash_close ops c)) d)) = H d.
Proof.
  intros Hc Hm Hd Hokd. apply hash_rep_close; [|assumption].
  change d with ([] ++ d) at 2. apply hash_rep_update; [assumption|].
  now apply (hash_rep_close c m).
Qed.
End Client.
