(* ===== verification/SphSpec.v ===== *)
(** The hash functions of sphlib as their specifications define them: Keccak, Groestl, BLAKE,
    Skein, BMW and JH. *)
From S2P Require Import Prelude SphTypes.

(** The Keccak sponge as its reference defines it: the five step mappings on a
    5 x 5 array of lanes, the rotation offsets and round constants from their
    generating rules, the padding and the sponge. Nothing here is derived from
    the C code; KeccakProofs.v relates the two. *)
Module KeccakSpec.

(** Lane [(x, y)] of a state is at position [x + 5 y]; coordinates are taken
    modulo 5. *)
Definition lane (A : list Z) (x y : nat) : Z := A.[x mod 5 + 5 * (y mod 5)].

Definition build (f : nat -> nat -> Z) : list Z :=
  map (fun i => f (i mod 5)%nat (i / 5)%nat) (seq 0 25).

Definition column (A : list Z) (x : nat) : Z :=
  lane A x 0 ^^ lane A x 1 ^^ lane A x 2 ^^ lane A x 3 ^^ lane A x 4.

Definition theta (A : list Z) : list Z :=
  build (fun x y => lane A x y ^^ (column A (x + 4) ^^ SPH_ROTL64 (column A (x + 1)) 1)).

(** The rotation offsets: starting from lane (1, 0), step [t] of the walk
    [(x, y) -> (y, 2x + 3y)] visits a lane whose offset is [(t+1)(t+2)/2]. *)
Fixpoint rho_walk (n t x y : nat) (offs : list nat) : list nat :=
  match n with
  | O => offs
  | S n' => rho_walk n' (S t) y ((2 * x + 3 * y) mod 5)
              (upd offs (x + 5 * y) (((t + 1) * (t + 2) / 2) mod 64)%nat)
  end.

Definition rho_offsets : list nat := rho_walk 24 0 1 0 (repeat 0%nat 25).

Definition rho (A : list Z) : list Z :=
  build (fun x y => let n := nth (x + 5 * y) rho_offsets 0%nat in
                    if (n =? 0)%nat then lane A x y
                    else SPH_ROTL64 (lane A x y) (Z.of_nat n)).

(** [B[y, 2x + 3y] = A[x, y]], read backwards: lane [(x, y)] of the result
    comes from [(x + 3y, x)]. *)
Definition pi (A : list Z) : list Z := build (fun x y => lane A (x + 3 * y) x).

Definition chi (A : list Z) : list Z :=
  build (fun x y => lane A x y ^^ (not64 true (lane A (x + 1) y) &: lane A (x + 2) y)).

Definition iota (k : Z) (A : list Z) : list Z := A.[0 := A.[0] ^^ k].

Definition round (A : list Z) (k : Z) : list Z := iota k (chi (pi (rho (theta A)))).

(** The round constants: bit [2^j - 1] of the constant of round [i] is the
    output number [j + 7 i] of the LFSR with polynomial x^8+x^6+x^5+x^4+1. *)
Definition lfsr_step (r : Z) : Z :=
  let r := Z.shiftl r 1 in
  if Z.testbit r 8 then (r ^^ 0x71) &: 0xFF else r.

Definition lfsr_bit (t : nat) : bool := Z.testbit (Nat.iter t lfsr_step 1) 0.

Definition round_constant (i : nat) : Z :=
  fold_left (fun c j => if lfsr_bit (j + 7 * i) then Z.setbit c (2 ^ Z.of_nat j - 1) else c)
            (seq 0 7) 0.

Definition keccak_f (A : list Z) : list Z :=
  fold_left round (map round_constant (seq 0 24)) A.

(** ** The sponge *)

(** Multi-rate padding of a whole-byte message: a 1 bit, zeros, a 1 bit, up to
    a multiple of [rate] bytes. *)
Definition pad (rate : nat) (m : list Z) : list Z :=
  let k := (rate - length m mod rate)%nat in
  m ++ (if (k =? 1)%nat then [0x81] else 0x01 :: repeat 0 (k - 2) ++ [0x80]).

(** Xors a block into the first lanes of the state. *)
Definition xor_block (A : list Z) (b : list Z) : list Z :=
  map (fun i => if (8 * i <? length b)%nat
                then A.[i] ^^ le_combine (firstn 8 (skipn (8 * i) b)) else A.[i])
      (seq 0 25).

Fixpoint absorb_blocks (n rate : nat) (A : list Z) (m : list Z) : list Z :=
  match n with
  | O => A
  | S n' => absorb_blocks n' rate (keccak_f (xor_block A (firstn rate m))) (skipn rate m)
  end.

(** The digest of [d] bytes, [d] at most the rate. *)
Definition keccak (rate d : nat) (m : list Z) : list Z :=
  let p := pad rate m in
  let A := absorb_blocks (length p / rate) rate (repeat 0 25) p in
  firstn d (flat_map (le_split 8) A).

End KeccakSpec.

(** A reference definition of the Groestl hash function, by its mathematics: the
    state is a matrix of bytes, given by its columns; the S-box is the inverse
    in GF(2^8) followed by the affine map; MixBytes multiplies each column by a
    circulant matrix. Nothing here is taken from the tables of groestl.c. *)
Module GroestlSpec.

(** * The field GF(2^8) modulo x^8 + x^4 + x^3 + x + 1 *)

Definition xtime (b : Z) : Z :=
  let c := Z.shiftl b 1 in if Z.testbit c 8 then c ^^ 0x11B else c.

Definition gf_mul (x y : Z) : Z :=
  fst (fold_left (fun '(acc, p) i => ((if Z.testbit y i then acc ^^ p else acc), xtime p))
         [0; 1; 2; 3; 4; 5; 6; 7] (0, x)).

(** The inverse, [x^254]; it sends 0 to 0. *)
Definition gf_inv (x : Z) : Z :=
  let sq x := gf_mul x x in
  let x2 := sq x in let x3 := gf_mul x2 x in
  let x6 := sq x3 in let x7 := gf_mul x6 x in
  let x14 := sq x7 in let x15 := gf_mul x14 x in
  let x30 := sq x15 in let x31 := gf_mul x30 x in
  let x62 := sq x31 in let x63 := gf_mul x62 x in
  let x126 := sq x63 in let x127 := gf_mul x126 x in
  sq x127.

Definition sbox (x : Z) : Z :=
  let y := gf_inv x in
  let rot n := (Z.shiftl y n |: Z.shiftr y (8 - n)) &: 0xFF in
  y ^^ rot 1 ^^ rot 2 ^^ rot 3 ^^ rot 4 ^^ 0x63.

(** * The round transformations *)

(** The byte in column [j] and row [i]. *)
Definition get (s : list (list Z)) (j i : nat) : Z := nth i (nth j s []) 0.

(** A matrix with [n] columns, by its entries. *)
Definition mat (n : nat) (f : nat -> nat -> Z) : list (list Z) :=
  map (fun j => map (fun i => f j i) (seq 0 8)) (seq 0 n).

Section Width.
(** The number of columns: 8 (short variant) or 16 (long variant). *)
Context (n : nat).

Definition constant_P (r : Z) (j i : nat) : Z :=
  if (i =? 0)%nat then 16 * Z.of_nat j ^^ r else 0.
Definition constant_Q (r : Z) (j i : nat) : Z :=
  if (i =? 7)%nat then 0xFF ^^ (16 * Z.of_nat j) ^^ r else 0xFF.

Definition AddRoundConstant (c : nat -> nat -> Z) (s : list (list Z)) : list (list Z) :=
  mat n (fun j i => get s j i ^^ c j i).
Definition SubBytes (s : list (list Z)) : list (list Z) :=
  mat n (fun j i => sbox (get s j i)).
(** Row [i] moves [nth i sigma] positions to the left. *)
Definition ShiftBytes (sigma : list nat) (s : list (list Z)) : list (list Z) :=
  mat n (fun j i => get s ((j + nth i sigma 0) mod n)%nat i).

(** circ(02, 02, 03, 04, 05, 03, 05, 07). *)
Definition B_row : list Z := [2; 2; 3; 4; 5; 3; 5; 7].
Definition B_entry (i k : nat) : Z := B_row.[((8 + k - i) mod 8)%nat].
Definition mix_column (c : list Z) (i : nat) : Z :=
  fold_left (fun acc k => acc ^^ gf_mul (B_entry i k) c.[k]) (seq 0 8) 0.
Definition MixBytes (s : list (list Z)) : list (list Z) :=
  mat n (fun j i => mix_column (nth j s []) i).

Definition round (c : Z -> nat -> nat -> Z) (sigma : list nat) (r : Z) (s : list (list Z))
  : list (list Z) :=
  MixBytes (ShiftBytes sigma (SubBytes (AddRoundConstant (c r) s))).

Definition sigma_P : list nat :=
  if (n =? 8)%nat then [0; 1; 2; 3; 4; 5; 6; 7]%nat else [0; 1; 2; 3; 4; 5; 6; 11]%nat.
Definition sigma_Q : list nat :=
  if (n =? 8)%nat then [1; 3; 5; 7; 0; 2; 4; 6]%nat else [1; 3; 5; 11; 0; 2; 4; 6]%nat.
Definition rounds : nat := if (n =? 8)%nat then 10 else 14.

Definition P (s : list (list Z)) : list (list Z) :=
  fold_left (fun s r => round constant_P sigma_P (Z.of_nat r) s) (seq 0 rounds) s.
Definition Q (s : list (list Z)) : list (list Z) :=
  fold_left (fun s r => round constant_Q sigma_Q (Z.of_nat r) s) (seq 0 rounds) s.

(** * The hash function *)

Definition xor_mat (s t : list (list Z)) : list (list Z) :=
  mat n (fun j i => get s j i ^^ get t j i).

(** The bytes of a block fill the matrix column by column. *)
Definition columns (b : list Z) : list (list Z) := mat n (fun j i => b.[8 * j + i]).

Definition compress (h : list (list Z)) (b : list Z) : list (list Z) :=
  let m := columns b in xor_mat h (xor_mat (P (xor_mat m h)) (Q m)).

(** The digest size in bits, in the last two bytes of the matrix. *)
Definition iv (d : nat) : list (list Z) :=
  columns (repeat 0 (8 * n - 8) ++ rev (le_split 8 (8 * Z.of_nat d))).

(** One bit 1, zeros, and the number of blocks (64 bits, big-endian). *)
Definition pad (m : list Z) : list Z :=
  let size := (8 * n)%nat in
  let zeros := ((size - (length m + 9) mod size) mod size)%nat in
  let blocks := ((length m + 9 + zeros) / size)%nat in
  m ++ [0x80] ++ repeat 0 zeros ++ rev (le_split 8 (Z.of_nat blocks)).

Fixpoint compress_blocks (k : nat) (h : list (list Z)) (m : list Z) : list (list Z) :=
  match k with
  | O => h
  | S k' => compress_blocks k' (compress h (firstn (8 * n) m)) (skipn (8 * n) m)
  end.

(** The digest of [d] bytes of the byte string [m]. *)
Definition groestl (d : nat) (m : list Z) : list Z :=
  let p := pad m in
  let h := compress_blocks (length p / (8 * n)) (iv d) p in
  skipn (8 * n - d) (concat (xor_mat (P h) h)).
End Width.

End GroestlSpec.

(** A reference definition of the BLAKE hash functions. The state is a 4x4
    matrix of words; a round applies [G] to the four columns and then to the
    four diagonals. The constants are the digits of pi and the initial values
    come from square roots of primes; both are computed here. *)
Module BlakeSpec.

(** * Constants *)

(** Fixed-point arctan(1/x), [k] terms of the series at [p] fractional bits. *)
Fixpoint arctan_terms (k : nat) (x2 power n sign acc : Z) : Z :=
  match k with
  | O => acc
  | S k' => arctan_terms k' x2 (power / x2) (n + 2) (- sign) (acc + sign * (power / n))
  end.
Definition arctan_inv (k : nat) (p x : Z) : Z := arctan_terms k (x * x) (2 ^ p / x) 1 1 0.

(** Machin's formula: pi = 16 arctan(1/5) - 4 arctan(1/239). *)
Definition pi_fixed (p : Z) : Z :=
  16 * arctan_inv (Z.to_nat (p / 4)) p 5 - 4 * arctan_inv (Z.to_nat (p / 15)) p 239.

(** The first sixteen groups of [w] bits of the fractional part of pi, computed
    with 32 guard bits. *)
Definition pi_digits (w : Z) : list Z :=
  let pi := pi_fixed (16 * w + 32) in
  map (fun i => Z.shiftr pi (16 * w + 32 - w * (Z.of_nat i + 1)) mod 2 ^ w) (seq 0 16).

(** The [w] fractional bits of the square root of [n] after the first [skip]. *)
Definition sqrt_bits (skip w n : Z) : Z := Z.sqrt (n * 2 ^ (2 * (skip + w))) mod 2 ^ w.

Definition primes : list Z := [2; 3; 5; 7; 11; 13; 17; 19; 23; 29; 31; 37; 41; 43; 47; 53].

Definition iv512 : list Z := map (sqrt_bits 0 64) (firstn 8 primes).
Definition iv256 : list Z := map (sqrt_bits 0 32) (firstn 8 primes).
Definition iv384 : list Z := map (sqrt_bits 0 64) (skipn 8 primes).
Definition iv224 : list Z := map (sqrt_bits 32 32) (skipn 8 primes).

(** The ten permutations of the specification. *)
Definition permutations : list (list nat) :=
  [ [0; 1; 2; 3; 4; 5; 6; 7; 8; 9; 10; 11; 12; 13; 14; 15];
    [14; 10; 4; 8; 9; 15; 13; 6; 1; 12; 0; 2; 11; 7; 5; 3];
    [11; 8; 12; 0; 5; 2; 15; 13; 10; 14; 3; 6; 7; 1; 9; 4];
    [7; 9; 3; 1; 13; 12; 11; 14; 2; 6; 5; 10; 4; 0; 15; 8];
    [9; 0; 5; 7; 2; 4; 10; 15; 14; 1; 11; 12; 6; 8; 3; 13];
    [2; 12; 6; 10; 0; 11; 8; 3; 4; 13; 7; 5; 15; 14; 1; 9];
    [12; 5; 1; 15; 14; 13; 4; 10; 0; 7; 6; 3; 9; 2; 8; 11];
    [13; 11; 7; 14; 12; 1; 3; 9; 5; 0; 15; 4; 8; 6; 2; 10];
    [6; 15; 14; 9; 11; 3; 0; 8; 12; 2; 13; 7; 1; 4; 10; 5];
    [10; 2; 8; 4; 7; 6; 1; 5; 15; 11; 9; 14; 3; 12; 13; 0] ]%nat.
Definition perm (r i : nat) : nat := nth i (nth (r mod 10) permutations []) 0%nat.

(** * The compression function *)

(** The word size in bytes, the four rotations, the number of rounds and the
    sixteen constants. *)
Record params := {
  wbytes : nat;
  rot1 : Z;
  rot2 : Z;
  rot3 : Z;
  rot4 : Z;
  nrounds : nat;
  pi_words : list Z
}.

Definition small_params : params :=
  {| wbytes := 4; rot1 := 16; rot2 := 12; rot3 := 8; rot4 := 7; nrounds := 14;
     pi_words := pi_digits 32 |}.
Definition big_params : params :=
  {| wbytes := 8; rot1 := 32; rot2 := 25; rot3 := 16; rot4 := 11; nrounds := 16;
     pi_words := pi_digits 64 |}.

Section Params.
Context (p : params).

Definition wbits : Z := 8 * Z.of_nat (wbytes p).
Definition trunc (x : Z) : Z := x mod 2 ^ wbits.
Definition rotr (x n : Z) : Z := trunc (Z.shiftl x (wbits - n) |: Z.shiftr x n).
Definition const (i : nat) : Z := (pi_words p).[i].

(** [G] number [i] of round [r], on one column of the matrix. *)
Definition G (m : list Z) (r i : nat) (col : Z * Z * Z * Z) : Z * Z * Z * Z :=
  let '(a, b, c, d) := col in
  let j := perm r (2 * i) in
  let k := perm r (2 * i + 1) in
  let a := trunc (a + b + (m.[j] ^^ const k)) in
  let d := rotr (d ^^ a) (rot1 p) in
  let c := trunc (c + d) in
  let b := rotr (b ^^ c) (rot2 p) in
  let a := trunc (a + b + (m.[k] ^^ const j)) in
  let d := rotr (d ^^ a) (rot3 p) in
  let c := trunc (c + d) in
  let b := rotr (b ^^ c) (rot4 p) in
  (a, b, c, d).

(** The matrix as its four rows. *)
Definition column (v : list (list Z)) (i : nat) : Z * Z * Z * Z :=
  let at_row k := (nth k v []).[i] in
  (at_row 0%nat, at_row 1%nat, at_row 2%nat, at_row 3%nat).

Definition of_columns (cs : list (Z * Z * Z * Z)) : list (list Z) :=
  [ map (fun '(a, _, _, _) => a) cs; map (fun '(_, b, _, _) => b) cs;
    map (fun '(_, _, c, _) => c) cs; map (fun '(_, _, _, d) => d) cs ].

(** The four [G]s numbered from [first], one per column. *)
Definition columns_step (m : list Z) (r first : nat) (v : list (list Z)) : list (list Z) :=
  of_columns (map (fun i => G m r (first + i) (column v i)) (seq 0 4)).

Definition rotate_left (k : nat) (row : list Z) : list Z := skipn k row ++ firstn k row.

(** Row [k] moves [f k] places to the left. *)
Definition shift_rows (f : nat -> nat) (v : list (list Z)) : list (list Z) :=
  map (fun k => rotate_left (f k) (nth k v [])) (seq 0 4).

Definition round (m : list Z) (v : list (list Z)) (r : nat) : list (list Z) :=
  let v := columns_step m r 0 v in
  let v := shift_rows (fun k => k) v in
  let v := columns_step m r 4 v in
  shift_rows (fun k => (4 - k)%nat) v.

(** Big-endian words. *)
Definition be_word (bs : list Z) : Z := fold_left (fun acc b => 256 * acc + b) bs 0.
Definition block_words (b : list Z) : list Z :=
  map (fun i => be_word (firstn (wbytes p) (skipn (wbytes p * i) b))) (seq 0 16).

(** Chaining value [h], salt [s], counter [t] (two words), block [b]. *)
Definition compress (h s : list Z) (t : Z) (b : list Z) : list Z :=
  let t0 := trunc t in
  let t1 := trunc (Z.shiftr t wbits) in
  let v := [ firstn 4 h; skipn 4 h;
             map (fun i => s.[i] ^^ const i) (seq 0 4);
             [t0 ^^ const 4; t0 ^^ const 5; t1 ^^ const 6; t1 ^^ const 7] ] in
  let v := concat (fold_left (round (block_words b)) (seq 0 (nrounds p)) v) in
  map (fun i => h.[i] ^^ s.[i mod 4] ^^ v.[i] ^^ v.[i + 8]) (seq 0 8).

(** * The hash function *)

Definition block_bytes : nat := 16 * wbytes p.

(** A 1 bit, zeros, the bit [last], and the length in bits in two words. The
    fill takes at least one byte, in which both 1 bits may fall. *)
Definition pad (last : bool) (m : list Z) : list Z :=
  let k := (block_bytes - (length m + 2 * wbytes p) mod block_bytes)%nat in
  let l := if last then 1 else 0 in
  m ++ (if (k =? 1)%nat then [0x80 |: l] else [0x80] ++ repeat 0 (k - 2) ++ [l])
    ++ rev (le_split (2 * wbytes p) (8 * Z.of_nat (length m))).

(** The counter of block [i]: the number of message bits hashed so far, or 0
    for a block without message bits. *)
Definition counter (len i : nat) : Z :=
  if (len <=? block_bytes * i)%nat then 0
  else 8 * Z.of_nat (Nat.min len (block_bytes * (i + 1))).

(** The blocks of [bs], the first of which has index [i]. *)
Fixpoint compress_blocks (k : nat) (s : list Z) (len i : nat) (h : list Z) (bs : list Z) : list Z :=
  match k with
  | O => h
  | S k' => compress_blocks k' s len (i + 1)
              (compress h s (counter len i) (firstn block_bytes bs)) (skipn block_bytes bs)
  end.

(** The first [d] words of the final chaining value. *)
Definition blake (iv salt : list Z) (last : bool) (d : nat) (m : list Z) : list Z :=
  let bs := pad last m in
  let h := compress_blocks (length bs / block_bytes) salt (length m) 0 iv bs in
  flat_map (fun x => rev (le_split (wbytes p) x)) (firstn d h).
End Params.

Definition zero_salt : list Z := repeat 0 4.
Definition blake224 := blake small_params iv224 zero_salt false 7.
Definition blake256 := blake small_params iv256 zero_salt true 8.
Definition blake384 := blake big_params iv384 zero_salt false 6.
Definition blake512 := blake big_params iv512 zero_salt true 8.

End BlakeSpec.

(** A reference definition of Skein-512: the tweakable block cipher
    Threefish-512, the chaining mode UBI with its 128-bit tweak, and the hash
    function, whose initial value is itself computed by UBI from the
    configuration block. *)
Module SkeinSpec.

(** * Threefish-512 *)

Definition add64 (x y : Z) : Z := (x + y) mod 2 ^ 64.
Definition rotl64 (x n : Z) : Z := (Z.shiftl x n |: Z.shiftr x (64 - n)) mod 2 ^ 64.

(** The key [k] (eight words) and tweak [t] (two words), each extended by a
    parity word. *)
Definition extend_key (k : list Z) : list Z := k ++ [fold_left Z.lxor k 0x1BD11BDAA9FC1A22].
Definition extend_tweak (t : list Z) : list Z := t ++ [t.[0] ^^ t.[1]].

Definition subkey (k t : list Z) (s i : nat) : Z :=
  let ki := (extend_key k).[(s + i) mod 9] in
  let tj j := (extend_tweak t).[(s + j) mod 3] in
  match i with
  | 5%nat => add64 ki (tj 0%nat)
  | 6%nat => add64 ki (tj 1%nat)
  | 7%nat => add64 ki (Z.of_nat s)
  | _ => ki
  end.

Definition add_subkey (k t : list Z) (s : nat) (v : list Z) : list Z :=
  map (fun i => add64 v.[i] (subkey k t s i)) (seq 0 8).

(** Rotation distances, by round modulo 8 and by pair. *)
Definition rotations : list (list Z) :=
  [ [46; 36; 19; 37]; [33; 27; 14; 42]; [17; 49; 36; 39]; [44; 9; 54; 56];
    [39; 30; 34; 24]; [13; 50; 10; 17]; [25; 29; 39; 43]; [8; 35; 56; 22] ].

Definition mix (rc : list Z) (v : list Z) : list Z :=
  flat_map (fun j =>
    let y0 := add64 v.[2 * j] v.[2 * j + 1] in
    [y0; rotl64 v.[2 * j + 1] rc.[j] ^^ y0]) (seq 0 4).

Definition permute (v : list Z) : list Z := map (fun i => v.[i]) [2; 1; 4; 7; 6; 5; 0; 3]%nat.

Definition round (k t : list Z) (v : list Z) (d : nat) : list Z :=
  let v := if (d mod 4 =? 0)%nat then add_subkey k t (d / 4) v else v in
  permute (mix (nth (d mod 8) rotations []) v).

Definition threefish (k t v : list Z) : list Z :=
  add_subkey k t 18 (fold_left (round k t) (seq 0 72) v).

(** * UBI *)

(** The tweak: the position in bytes (96 bits), the type (6 bits) and the flags
    "bit padding", "first" and "final". *)
Definition tweak_value (position type : Z) (bitpad first final : bool) : Z :=
  position + Z.b2z bitpad * 2 ^ 119 + type * 2 ^ 120 + Z.b2z first * 2 ^ 126 + Z.b2z final * 2 ^ 127.

Definition tweak_words (t : Z) : list Z := [t mod 2 ^ 64; Z.shiftr t 64 mod 2 ^ 64].

Definition le_words (b : list Z) : list Z :=
  map (fun i => le_combine (firstn 8 (skipn (8 * i) b))) (seq 0 8).

(** One block of 64 bytes. *)
Definition ubi_block (g : list Z) (t : Z) (b : list Z) : list Z :=
  let m := le_words b in
  let e := threefish g (tweak_words t) m in
  map (fun i => m.[i] ^^ e.[i]) (seq 0 8).

Definition block_at (m : list Z) (i : nat) : list Z :=
  let b := firstn 64 (skipn (64 * i) m) in b ++ repeat 0 (64 - length b).

(** The message, padded with zeros to a positive number of blocks. *)
Definition ubi_blocks (m : list Z) : nat := Nat.max 1 ((length m + 63) / 64).

Definition ubi (g m : list Z) (type : Z) : list Z :=
  fold_left (fun g i =>
    let position := Z.of_nat (Nat.min (length m) (64 * (i + 1))) in
    let first := (i =? 0)%nat in
    let final := (i + 1 =? ubi_blocks m)%nat in
    ubi_block g (tweak_value position type false first final) (block_at m i))
    (seq 0 (ubi_blocks m)) g.

(** * The hash function *)

Definition T_cfg : Z := 4.
Definition T_msg : Z := 48.
Definition T_out : Z := 63.

(** The configuration string: schema identifier "SHA3", version 1, output
    length in bits, no tree. *)
Definition config (bits : Z) : list Z :=
  [0x53; 0x48; 0x41; 0x33; 1; 0; 0; 0] ++ le_split 8 bits ++ repeat 0 16.

Definition iv (d : nat) : list Z := ubi (repeat 0 8) (config (8 * Z.of_nat d)) T_cfg.

(** The digest of [d] bytes, at most 64. *)
Definition skein (d : nat) (m : list Z) : list Z :=
  let g := ubi (iv d) m T_msg in
  let out := ubi g (le_split 8 0) T_out in
  firstn d (flat_map (le_split 8) out).

End SkeinSpec.

(** A reference definition of the Blue Midnight Wish hash functions, for both
    word sizes: the quadruple pipe [Q] of 32 words grows one word at a time, and
    the folding step gives the new double pipe. *)
Module BmwSpec.

(** The word size in bytes; the shifts and rotations of [s_0] ... [s_3] (right
    shift, left shift, two rotations) and the rotations [r_1] ... [r_7]. *)
Record params := {
  wbytes : nat;
  s_amounts : list (Z * Z * Z * Z);
  r_amounts : list Z
}.

Definition small_params : params :=
  {| wbytes := 4;
     s_amounts := [(1, 3, 4, 19); (1, 2, 8, 23); (2, 1, 12, 25); (2, 2, 15, 29)];
     r_amounts := [3; 7; 13; 16; 19; 23; 27] |}.
Definition big_params : params :=
  {| wbytes := 8;
     s_amounts := [(1, 3, 4, 37); (1, 2, 13, 43); (2, 1, 19, 53); (2, 2, 28, 59)];
     r_amounts := [5; 11; 27; 32; 37; 43; 53] |}.

(** The signed sums of the first step: W_i adds the words M_j ^ H_j for the
    positions [j] of row [i], subtracting those marked [false]. *)
Definition W_rows : list (list (bool * nat)) :=
  let p j := (true, j) in
  let n j := (false, j) in
  [ [p 5; n 7; p 10; p 13; p 14]; [p 6; n 8; p 11; p 14; n 15];
    [p 0; p 7; p 9; n 12; p 15]; [p 0; n 1; p 8; n 10; p 13];
    [p 1; p 2; p 9; n 11; n 14]; [p 3; n 2; p 10; n 12; p 15];
    [p 4; n 0; n 3; n 11; p 13]; [p 1; n 4; n 5; n 12; n 14];
    [p 2; n 5; n 6; p 13; n 15]; [p 0; n 3; p 6; n 7; p 14];
    [p 8; n 1; n 4; n 7; p 15]; [p 8; n 0; n 2; n 5; p 9];
    [p 1; p 3; n 6; n 9; p 10]; [p 2; p 4; p 7; p 10; p 11];
    [p 3; n 5; p 8; n 11; n 12]; [p 12; n 4; n 6; n 9; p 13] ]%nat.

(** Shifts of the folding step: to the left when positive. *)
Definition fold_XH : list Z := [5; -7; -5; -1; -3; 6; -4; -11].
Definition fold_Q : list Z := [-5; 8; 5; 5; 0; -6; 6; 2].
Definition fold_XL : list Z := [8; -6; 6; 4; -3; -4; -7; -2].

Definition sum (l : list Z) : Z := fold_left Z.add l 0.
Definition xors (l : list Z) : Z := fold_left Z.lxor l 0.

Section Params.
Context (p : params).

Definition wbits : Z := 8 * Z.of_nat (wbytes p).
Definition trunc (x : Z) : Z := x mod 2 ^ wbits.
Definition rotl (x n : Z) : Z := trunc (Z.shiftl x n |: Z.shiftr x (wbits - n)).
Definition shift (x n : Z) : Z := if 0 <=? n then trunc (Z.shiftl x n) else Z.shiftr x (- n).

Definition s (i : nat) (x : Z) : Z :=
  match i with
  | 4%nat => Z.shiftr x 1 ^^ x
  | 5%nat => Z.shiftr x 2 ^^ x
  | _ => let '(a, b, c, d) := nth i (s_amounts p) (0, 0, 0, 0) in
         Z.shiftr x a ^^ trunc (Z.shiftl x b) ^^ rotl x c ^^ rotl x d
  end.
Definition r (i : nat) (x : Z) : Z := rotl x (r_amounts p).[i - 1].

(** * The quadruple pipe *)

Definition W (M H : list Z) (i : nat) : Z :=
  trunc (sum (map (fun '(plus, j) => let x := M.[j] ^^ H.[j] in if plus : bool then x else - x)
    (nth i W_rows []))).

Definition Q_first (M H : list Z) : list Z :=
  map (fun i => trunc (s (i mod 5) (W M H i) + H.[((i + 1) mod 16)%nat])) (seq 0 16).

Definition K (j : nat) : Z := trunc (Z.of_nat j * (2 ^ wbits / 48)).

Definition rotated (M : list Z) (j : nat) : Z :=
  rotl M.[(j mod 16)%nat] (Z.of_nat (j mod 16) + 1).
Definition add_element (M H : list Z) (j : nat) : Z :=
  trunc (rotated M j + rotated M (j + 3) - rotated M (j + 10) + K (j + 16)) ^^ H.[((j + 7) mod 16)%nat].

(** Word [16 + j] from the sixteen words [q j] ... [q (j + 15)] before it. *)
Definition expand1 (q : nat -> Z) (M H : list Z) (j : nat) : Z :=
  trunc (sum (map (fun k => s ((k + 1) mod 4) (q (j + k)%nat)) (seq 0 16)) + add_element M H j).
Definition expand2 (q : nat -> Z) (M H : list Z) (j : nat) : Z :=
  trunc (sum (map (fun k => q (j + 2 * k)%nat + r (k + 1) (q (j + (2 * k + 1))%nat)) (seq 0 7))
    + s 4 (q (j + 14)%nat) + s 5 (q (j + 15)%nat) + add_element M H j).
Definition expand (q : nat -> Z) (M H : list Z) (j : nat) : Z :=
  if (j <? 2)%nat then expand1 q M H j else expand2 q M H j.

Definition Q_all (M H : list Z) : list Z :=
  fold_left (fun Q j => Q ++ [expand (fun i => Q.[i]) M H j]) (seq 0 16) (Q_first M H).

(** * Folding *)

Definition fold (M Q : list Z) : list Z :=
  let XL := xors (map (fun i => Q.[i]) (seq 16 8)) in
  let XH := xors (map (fun i => Q.[i]) (seq 16 16)) in
  let low := map (fun i =>
    trunc ((shift XH fold_XH.[i] ^^ shift Q.[16 + i] fold_Q.[i] ^^ M.[i])
           + (XL ^^ Q.[24 + i] ^^ Q.[i]))) (seq 0 8) in
  let high := map (fun i =>
    trunc (rotl low.[((4 + i) mod 8)%nat] (Z.of_nat (9 + i))
           + (XH ^^ Q.[24 + i] ^^ M.[8 + i])
           + (shift XL fold_XL.[i] ^^ Q.[16 + (7 + i) mod 8] ^^ Q.[8 + i]))) (seq 0 8) in
  low ++ high.

Definition compress (M H : list Z) : list Z := fold M (Q_all M H).

(** * The hash function *)

Definition block_bytes : nat := 16 * wbytes p.

(** Words are little-endian. *)
Definition words (b : list Z) : list Z :=
  map (fun i => le_combine (firstn (wbytes p) (skipn (wbytes p * i) b))) (seq 0 16).

(** One bit 1, zeros, and the number of message bits (64 bits, little-endian,
    modulo 2^64). *)
Definition pad (m : list Z) : list Z :=
  let zeros := ((block_bytes - (length m + 9) mod block_bytes) mod block_bytes)%nat in
  m ++ [0x80] ++ repeat 0 zeros ++ le_split 8 (8 * Z.of_nat (length m)).

Fixpoint compress_blocks (k : nat) (h m : list Z) : list Z :=
  match k with
  | O => h
  | S k' => compress_blocks k' (compress (words (firstn block_bytes m)) h) (skipn block_bytes m)
  end.

(** The initial double pipe: consecutive bytes from [start], big-endian words. *)
Definition iv (start : Z) : list Z :=
  map (fun i => le_combine (rev (map (fun k => start + Z.of_nat (wbytes p * i + k)) (seq 0 (wbytes p)))))
    (seq 0 16).

(** The words 0xaa...a0 to 0xaa...af. *)
Definition final : list Z := map (fun i => 2 ^ (wbits + 1) / 3 - 10 + Z.of_nat i) (seq 0 16).

(** The digest: the last [n] words of the final double pipe. *)
Definition bmw (start : Z) (n : nat) (m : list Z) : list Z :=
  let q := pad m in
  let h := compress_blocks (length q / block_bytes) (iv start) q in
  flat_map (le_split (wbytes p)) (skipn (16 - n) (compress h final)).
End Params.

Definition bmw224 := bmw small_params 0x00 7.
Definition bmw256 := bmw small_params 0x40 8.
Definition bmw384 := bmw big_params 0x00 6.
Definition bmw512 := bmw big_params 0x80 8.

End BmwSpec.

(** A reference definition of the JH hash functions (42 rounds): the state is
    256 elements of four bits, substituted by one of two S-boxes as a constant bit
    selects, mixed in pairs by a linear code over GF(2^4) and permuted. The round
    constants and the initial values are generated here. *)
Module JhSpec.

(** * The round function on 2^d elements *)

Definition S0 : list Z := [9; 0; 4; 11; 13; 12; 3; 15; 1; 10; 2; 6; 7; 5; 8; 14].
Definition S1 : list Z := [3; 12; 6; 13; 5; 7; 1; 9; 15; 2; 0; 4; 11; 10; 14; 8].
Definition sbox (c : bool) (x : Z) : Z := (if c then S1 else S0).[Z.to_nat x].

(** Multiplication by 2 modulo x^4 + x + 1. *)
Definition double (x : Z) : Z :=
  let y := 2 * x in if 16 <=? y then y ^^ 19 else y.

(** The linear transformation of a pair. *)
Definition mds (a b : Z) : Z * Z :=
  let d := b ^^ double a in (a ^^ double d, d).

(** Position [j] of [pi], [P'] and [phi] of the permutation takes the element at
    the given position of their input. *)
Definition pi_src (j : nat) : nat :=
  match (j mod 4)%nat with 2%nat => j + 1 | 3%nat => j - 1 | _ => j end.
Definition P'_src (half j : nat) : nat :=
  if (j <? half)%nat then 2 * j else 2 * (j - half) + 1.
Definition phi_src (half j : nat) : nat :=
  if (j <? half)%nat then j else if Nat.even j then j + 1 else j - 1.
Definition P_src (half j : nat) : nat := pi_src (P'_src half (phi_src half j)).

(** One round on [2 * half] elements with the constant bits [c]. *)
Definition round (half : nat) (c : list bool) (a : list Z) : list Z :=
  let v := map (fun i => sbox (nth i c false) a.[i]) (seq 0 (2 * half)) in
  let w := flat_map (fun i => let '(x, y) := mds v.[2 * i] v.[2 * i + 1] in [x; y]) (seq 0 half) in
  map (fun j => w.[P_src half j]) (seq 0 (2 * half)).

(** * Bits and elements *)

Definition nibble (b3 b2 b1 b0 : bool) : Z :=
  8 * Z.b2z b3 + 4 * Z.b2z b2 + 2 * Z.b2z b1 + Z.b2z b0.

(** The four bits of an element, the most significant first. *)
Definition nibble_bits (x : Z) : list bool :=
  [Z.testbit x 3; Z.testbit x 2; Z.testbit x 1; Z.testbit x 0].

(** * Round constants *)

(** The first 256 bits of the fractional part of the square root of 2. *)
Definition constant_0 : list Z :=
  let s := Z.sqrt (2 * 2 ^ 512) mod 2 ^ 256 in
  map (fun i => Z.shiftr s (4 * (63 - Z.of_nat i)) mod 16) (seq 0 64).

(** Each constant is the round function on 64 elements applied to the one
    before, with zero constant bits. *)
Fixpoint constants_from (n : nat) (c : list Z) : list (list bool) :=
  match n with
  | O => []
  | S n' => flat_map nibble_bits c :: constants_from n' (round 32 [] c)
  end.
Definition constants : list (list bool) := constants_from 42 constant_0.

(** * The permutation E8 on 1024 bits *)

Definition bit (A : list bool) (i : nat) : bool := nth i A false.

Definition group (A : list bool) : list Z :=
  flat_map (fun i =>
    [ nibble (bit A i) (bit A (i + 256)) (bit A (i + 512)) (bit A (i + 768));
      nibble (bit A (i + 128)) (bit A (i + 384)) (bit A (i + 640)) (bit A (i + 896)) ]) (seq 0 128).

Definition degroup (q : list Z) : list bool :=
  map (fun k =>
    let e := (2 * (k mod 128) + (k / 128) mod 2)%nat in
    Z.testbit q.[e] (3 - Z.of_nat (k / 256))) (seq 0 1024).

Definition E8 (A : list bool) : list bool :=
  degroup (fold_left (fun q c => round 128 c q) constants (group A)).

(** * The hash function *)

(** The bits of a byte string, the most significant bit of each byte first. *)
Definition bits_of (b : list Z) : list bool :=
  flat_map (fun x => map (fun k => Z.testbit x (7 - Z.of_nat k)) (seq 0 8)) b.

Fixpoint bytes_of (n : nat) (l : list bool) : list Z :=
  match n with
  | O => []
  | S n' => fold_left (fun acc b => 2 * acc + Z.b2z b) (firstn 8 l) 0 :: bytes_of n' (skipn 8 l)
  end.

Definition xor_bits (a b : list bool) : list bool := map (fun '(x, y) => xorb x y) (combine a b).

(** The compression function on a block of 64 bytes. *)
Definition F8 (H : list bool) (M : list Z) : list bool :=
  let m := bits_of M in
  let A := E8 (xor_bits (firstn 512 H) m ++ skipn 512 H) in
  firstn 512 A ++ xor_bits (skipn 512 A) m.

(** The digest size in bits, in two bytes, compressed with a zero block. *)
Definition iv (d : nat) : list bool :=
  F8 (bits_of (rev (le_split 2 (8 * Z.of_nat d)) ++ repeat 0 126)) (repeat 0 64).

(** The bit 1, zeros and the length in bits (128 bits, big-endian): at least one
    block. *)
Definition pad (m : list Z) : list Z :=
  let zeros := (47 + (64 - length m mod 64) mod 64)%nat in
  m ++ [0x80] ++ repeat 0 zeros ++ rev (le_split 16 (8 * Z.of_nat (length m))).

Fixpoint compress_blocks (k : nat) (H : list bool) (m : list Z) : list bool :=
  match k with
  | O => H
  | S k' => compress_blocks k' (F8 H (firstn 64 m)) (skipn 64 m)
  end.

(** The digest: the last [d] bytes of the last chaining value. *)
Definition jh (d : nat) (m : list Z) : list Z :=
  let p := pad m in
  bytes_of d (skipn (1024 - 8 * d) (compress_blocks (length p / 64) (iv d) p)).

End JhSpec.
