(* ===== verification/Keccak.v ===== *)
(** Model of src/src/crypto/keccak.c (and the context of sph_keccak.h) in the
    configuration of a 64-bit little-endian build: [SPH_KECCAK_64] and
    [SPH_KECCAK_NOCOPY], so that the macros work directly on [kc->u.wide].

    A macro whose arguments are lanes of the state is a function of lane
    indices; the argument lists [P0] ... [P23] are functions that apply such a
    macro to their lanes, as [THETA LPAR P ## r RPAR] does. Local variables
    declared with [DECL64] are [let] bindings, and the assignments to lanes are
    updates of the state in the order of the source. *)
From S2P Require Import Prelude SphTypes Stream.

Module Keccak.

Definition RC : list Z :=
  [ 0x0000000000000001; 0x0000000000008082; 0x800000000000808A;
    0x8000000080008000; 0x000000000000808B; 0x0000000080000001;
    0x8000000080008081; 0x8000000000008009; 0x000000000000008A;
    0x0000000000000088; 0x0000000080008009; 0x000000008000000A;
    0x000000008000808B; 0x800000000000008B; 0x8000000000008089;
    0x8000000000008003; 0x8000000000008002; 0x8000000000000080;
    0x000000000000800A; 0x800000008000000A; 0x8000000080008081;
    0x8000000000008080; 0x0000000080000001; 0x8000000080008008 ].

(** The lanes: [aXY] is the index of the lane in [kc->u.wide]. *)
Definition a00 : nat := 0.
Definition a10 : nat := 1.
Definition a20 : nat := 2.
Definition a30 : nat := 3.
Definition a40 : nat := 4.
Definition a01 : nat := 5.
Definition a11 : nat := 6.
Definition a21 : nat := 7.
Definition a31 : nat := 8.
Definition a41 : nat := 9.
Definition a02 : nat := 10.
Definition a12 : nat := 11.
Definition a22 : nat := 12.
Definition a32 : nat := 13.
Definition a42 : nat := 14.
Definition a03 : nat := 15.
Definition a13 : nat := 16.
Definition a23 : nat := 17.
Definition a33 : nat := 18.
Definition a43 : nat := 19.
Definition a04 : nat := 20.
Definition a14 : nat := 21.
Definition a24 : nat := 22.
Definition a34 : nat := 23.
Definition a44 : nat := 24.

(** ** Operations on lanes *)

Definition XOR64 (a b : Z) : Z := a ^^ b.
Definition AND64 (a b : Z) : Z := a &: b.
Definition OR64 (a b : Z) : Z := a |: b.
Definition NOT64 (s : Z) : Z := SPH_T64 (Z.lnot s).
Definition ROL64 (v n : Z) : Z := SPH_ROTL64 v n.
Definition XOR64_IOTA (a b : Z) : Z := XOR64 a b.

Definition TH_ELT (c0 c1 c2 c3 c4 d0 d1 d2 d3 d4 : Z) : Z :=
  let tt0 := XOR64 d0 d1 in
  let tt1 := XOR64 d2 d3 in
  let tt0 := XOR64 tt0 d4 in
  let tt0 := XOR64 tt0 tt1 in
  let tt0 := ROL64 tt0 1 in
  let tt2 := XOR64 c0 c1 in
  let tt3 := XOR64 c2 c3 in
  let tt0 := XOR64 tt0 c4 in
  let tt2 := XOR64 tt2 tt3 in
  let t := XOR64 tt0 tt2 in
  t.

Definition THETA (b00 b01 b02 b03 b04 b10 b11 b12 b13 b14
    b20 b21 b22 b23 b24 b30 b31 b32 b33 b34 b40 b41 b42 b43 b44 : nat)
    (s : list Z) : list Z :=
  let t0 := TH_ELT s.[b40] s.[b41] s.[b42] s.[b43] s.[b44] s.[b10] s.[b11] s.[b12] s.[b13] s.[b14] in
  let t1 := TH_ELT s.[b00] s.[b01] s.[b02] s.[b03] s.[b04] s.[b20] s.[b21] s.[b22] s.[b23] s.[b24] in
  let t2 := TH_ELT s.[b10] s.[b11] s.[b12] s.[b13] s.[b14] s.[b30] s.[b31] s.[b32] s.[b33] s.[b34] in
  let t3 := TH_ELT s.[b20] s.[b21] s.[b22] s.[b23] s.[b24] s.[b40] s.[b41] s.[b42] s.[b43] s.[b44] in
  let t4 := TH_ELT s.[b30] s.[b31] s.[b32] s.[b33] s.[b34] s.[b00] s.[b01] s.[b02] s.[b03] s.[b04] in
  let s := s.[b00 := XOR64 s.[b00] t0] in
  let s := s.[b01 := XOR64 s.[b01] t0] in
  let s := s.[b02 := XOR64 s.[b02] t0] in
  let s := s.[b03 := XOR64 s.[b03] t0] in
  let s := s.[b04 := XOR64 s.[b04] t0] in
  let s := s.[b10 := XOR64 s.[b10] t1] in
  let s := s.[b11 := XOR64 s.[b11] t1] in
  let s := s.[b12 := XOR64 s.[b12] t1] in
  let s := s.[b13 := XOR64 s.[b13] t1] in
  let s := s.[b14 := XOR64 s.[b14] t1] in
  let s := s.[b20 := XOR64 s.[b20] t2] in
  let s := s.[b21 := XOR64 s.[b21] t2] in
  let s := s.[b22 := XOR64 s.[b22] t2] in
  let s := s.[b23 := XOR64 s.[b23] t2] in
  let s := s.[b24 := XOR64 s.[b24] t2] in
  let s := s.[b30 := XOR64 s.[b30] t3] in
  let s := s.[b31 := XOR64 s.[b31] t3] in
  let s := s.[b32 := XOR64 s.[b32] t3] in
  let s := s.[b33 := XOR64 s.[b33] t3] in
  let s := s.[b34 := XOR64 s.[b34] t3] in
  let s := s.[b40 := XOR64 s.[b40] t4] in
  let s := s.[b41 := XOR64 s.[b41] t4] in
  let s := s.[b42 := XOR64 s.[b42] t4] in
  let s := s.[b43 := XOR64 s.[b43] t4] in
  let s := s.[b44 := XOR64 s.[b44] t4] in
  s.

Definition RHO (b00 b01 b02 b03 b04 b10 b11 b12 b13 b14
    b20 b21 b22 b23 b24 b30 b31 b32 b33 b34 b40 b41 b42 b43 b44 : nat)
    (s : list Z) : list Z :=
  let s := s.[b01 := ROL64 s.[b01] 36] in
  let s := s.[b02 := ROL64 s.[b02] 3] in
  let s := s.[b03 := ROL64 s.[b03] 41] in
  let s := s.[b04 := ROL64 s.[b04] 18] in
  let s := s.[b10 := ROL64 s.[b10] 1] in
  let s := s.[b11 := ROL64 s.[b11] 44] in
  let s := s.[b12 := ROL64 s.[b12] 10] in
  let s := s.[b13 := ROL64 s.[b13] 45] in
  let s := s.[b14 := ROL64 s.[b14] 2] in
  let s := s.[b20 := ROL64 s.[b20] 62] in
  let s := s.[b21 := ROL64 s.[b21] 6] in
  let s := s.[b22 := ROL64 s.[b22] 43] in
  let s := s.[b23 := ROL64 s.[b23] 15] in
  let s := s.[b24 := ROL64 s.[b24] 61] in
  let s := s.[b30 := ROL64 s.[b30] 28] in
  let s := s.[b31 := ROL64 s.[b31] 55] in
  let s := s.[b32 := ROL64 s.[b32] 25] in
  let s := s.[b33 := ROL64 s.[b33] 21] in
  let s := s.[b34 := ROL64 s.[b34] 56] in
  let s := s.[b40 := ROL64 s.[b40] 27] in
  let s := s.[b41 := ROL64 s.[b41] 20] in
  let s := s.[b42 := ROL64 s.[b42] 39] in
  let s := s.[b43 := ROL64 s.[b43] 8] in
  let s := s.[b44 := ROL64 s.[b44] 14] in
  s.

Definition KHI_XO (a b c : Z) : Z :=
  let kt := OR64 b c in
  let d := XOR64 a kt in
  d.

Definition KHI_XA (a b c : Z) : Z :=
  let kt := AND64 b c in
  let d := XOR64 a kt in
  d.

Definition KHI (b00 b01 b02 b03 b04 b10 b11 b12 b13 b14
    b20 b21 b22 b23 b24 b30 b31 b32 b33 b34 b40 b41 b42 b43 b44 : nat)
    (s : list Z) : list Z :=
  let bnn := NOT64 s.[b20] in
  let c0 := KHI_XO s.[b00] s.[b10] s.[b20] in
  let c1 := KHI_XO s.[b10] bnn s.[b30] in
  let c2 := KHI_XA s.[b20] s.[b30] s.[b40] in
  let c3 := KHI_XO s.[b30] s.[b40] s.[b00] in
  let c4 := KHI_XA s.[b40] s.[b00] s.[b10] in
  let s := s.[b00 := c0] in
  let s := s.[b10 := c1] in
  let s := s.[b20 := c2] in
  let s := s.[b30 := c3] in
  let s := s.[b40 := c4] in
  let bnn := NOT64 s.[b41] in
  let c0 := KHI_XO s.[b01] s.[b11] s.[b21] in
  let c1 := KHI_XA s.[b11] s.[b21] s.[b31] in
  let c2 := KHI_XO s.[b21] s.[b31] bnn in
  let c3 := KHI_XO s.[b31] s.[b41] s.[b01] in
  let c4 := KHI_XA s.[b41] s.[b01] s.[b11] in
  let s := s.[b01 := c0] in
  let s := s.[b11 := c1] in
  let s := s.[b21 := c2] in
  let s := s.[b31 := c3] in
  let s := s.[b41 := c4] in
  let bnn := NOT64 s.[b32] in
  let c0 := KHI_XO s.[b02] s.[b12] s.[b22] in
  let c1 := KHI_XA s.[b12] s.[b22] s.[b32] in
  let c2 := KHI_XA s.[b22] bnn s.[b42] in
  let c3 := KHI_XO bnn s.[b42] s.[b02] in
  let c4 := KHI_XA s.[b42] s.[b02] s.[b12] in
  let s := s.[b02 := c0] in
  let s := s.[b12 := c1] in
  let s := s.[b22 := c2] in
  let s := s.[b32 := c3] in
  let s := s.[b42 := c4] in
  let bnn := NOT64 s.[b33] in
  let c0 := KHI_XA s.[b03] s.[b13] s.[b23] in
  let c1 := KHI_XO s.[b13] s.[b23] s.[b33] in
  let c2 := KHI_XO s.[b23] bnn s.[b43] in
  let c3 := KHI_XA bnn s.[b43] s.[b03] in
  let c4 := KHI_XO s.[b43] s.[b03] s.[b13] in
  let s := s.[b03 := c0] in
  let s := s.[b13 := c1] in
  let s := s.[b23 := c2] in
  let s := s.[b33 := c3] in
  let s := s.[b43 := c4] in
  let bnn := NOT64 s.[b14] in
  let c0 := KHI_XA s.[b04] bnn s.[b24] in
  let c1 := KHI_XO bnn s.[b24] s.[b34] in
  let c2 := KHI_XA s.[b24] s.[b34] s.[b44] in
  let c3 := KHI_XO s.[b34] s.[b44] s.[b04] in
  let c4 := KHI_XA s.[b44] s.[b04] s.[b14] in
  let s := s.[b04 := c0] in
  let s := s.[b14 := c1] in
  let s := s.[b24 := c2] in
  let s := s.[b34 := c3] in
  let s := s.[b44 := c4] in
  s.

Definition IOTA (r : Z) (s : list Z) : list Z :=
  s.[a00 := XOR64_IOTA s.[a00] r].

(** The type of a macro that takes the 25 lanes of a state, five by five. *)
Definition lanes5 (A : Type) : Type := nat -> nat -> nat -> nat -> nat -> A.
Definition lanes25 (A : Type) : Type := lanes5 (lanes5 (lanes5 (lanes5 (lanes5 A)))).

Abbreviation macro25 := (lanes25 (list Z -> list Z)).

Definition P0 (f : macro25) : list Z -> list Z :=
  f a00 a01 a02 a03 a04 a10 a11 a12 a13 a14 a20 a21 a22
    a23 a24 a30 a31 a32 a33 a34 a40 a41 a42 a43 a44.
Definition P1 (f : macro25) : list Z -> list Z :=
  f a00 a30 a10 a40 a20 a11 a41 a21 a01 a31 a22 a02 a32
    a12 a42 a33 a13 a43 a23 a03 a44 a24 a04 a34 a14.
Definition P2 (f : macro25) : list Z -> list Z :=
  f a00 a33 a11 a44 a22 a41 a24 a02 a30 a13 a32 a10 a43
    a21 a04 a23 a01 a34 a12 a40 a14 a42 a20 a03 a31.
Definition P3 (f : macro25) : list Z -> list Z :=
  f a00 a23 a41 a14 a32 a24 a42 a10 a33 a01 a43 a11 a34
    a02 a20 a12 a30 a03 a21 a44 a31 a04 a22 a40 a13.
Definition P4 (f : macro25) : list Z -> list Z :=
  f a00 a12 a24 a31 a43 a42 a04 a11 a23 a30 a34 a41 a03
    a10 a22 a21 a33 a40 a02 a14 a13 a20 a32 a44 a01.
Definition P5 (f : macro25) : list Z -> list Z :=
  f a00 a21 a42 a13 a34 a04 a20 a41 a12 a33 a03 a24 a40
    a11 a32 a02 a23 a44 a10 a31 a01 a22 a43 a14 a30.
Definition P6 (f : macro25) : list Z -> list Z :=
  f a00 a02 a04 a01 a03 a20 a22 a24 a21 a23 a40 a42 a44
    a41 a43 a10 a12 a14 a11 a13 a30 a32 a34 a31 a33.
Definition P7 (f : macro25) : list Z -> list Z :=
  f a00 a10 a20 a30 a40 a22 a32 a42 a02 a12 a44 a04 a14
    a24 a34 a11 a21 a31 a41 a01 a33 a43 a03 a13 a23.
Definition P8 (f : macro25) : list Z -> list Z :=
  f a00 a11 a22 a33 a44 a32 a43 a04 a10 a21 a14 a20 a31
    a42 a03 a41 a02 a13 a24 a30 a23 a34 a40 a01 a12.
Definition P9 (f : macro25) : list Z -> list Z :=
  f a00 a41 a32 a23 a14 a43 a34 a20 a11 a02 a31 a22 a13
    a04 a40 a24 a10 a01 a42 a33 a12 a03 a44 a30 a21.
Definition P10 (f : macro25) : list Z -> list Z :=
  f a00 a24 a43 a12 a31 a34 a03 a22 a41 a10 a13 a32 a01
    a20 a44 a42 a11 a30 a04 a23 a21 a40 a14 a33 a02.
Definition P11 (f : macro25) : list Z -> list Z :=
  f a00 a42 a34 a21 a13 a03 a40 a32 a24 a11 a01 a43 a30
    a22 a14 a04 a41 a33 a20 a12 a02 a44 a31 a23 a10.
Definition P12 (f : macro25) : list Z -> list Z :=
  f a00 a04 a03 a02 a01 a40 a44 a43 a42 a41 a30 a34 a33
    a32 a31 a20 a24 a23 a22 a21 a10 a14 a13 a12 a11.
Definition P13 (f : macro25) : list Z -> list Z :=
  f a00 a20 a40 a10 a30 a44 a14 a34 a04 a24 a33 a03 a23
    a43 a13 a22 a42 a12 a32 a02 a11 a31 a01 a21 a41.
Definition P14 (f : macro25) : list Z -> list Z :=
  f a00 a22 a44 a11 a33 a14 a31 a03 a20 a42 a23 a40 a12
    a34 a01 a32 a04 a21 a43 a10 a41 a13 a30 a02 a24.
Definition P15 (f : macro25) : list Z -> list Z :=
  f a00 a32 a14 a41 a23 a31 a13 a40 a22 a04 a12 a44 a21
    a03 a30 a43 a20 a02 a34 a11 a24 a01 a33 a10 a42.
Definition P16 (f : macro25) : list Z -> list Z :=
  f a00 a43 a31 a24 a12 a13 a01 a44 a32 a20 a21 a14 a02
    a40 a33 a34 a22 a10 a03 a41 a42 a30 a23 a11 a04.
Definition P17 (f : macro25) : list Z -> list Z :=
  f a00 a34 a13 a42 a21 a01 a30 a14 a43 a22 a02 a31 a10
    a44 a23 a03 a32 a11 a40 a24 a04 a33 a12 a41 a20.
Definition P18 (f : macro25) : list Z -> list Z :=
  f a00 a03 a01 a04 a02 a30 a33 a31 a34 a32 a10 a13 a11
    a14 a12 a40 a43 a41 a44 a42 a20 a23 a21 a24 a22.
Definition P19 (f : macro25) : list Z -> list Z :=
  f a00 a40 a30 a20 a10 a33 a23 a13 a03 a43 a11 a01 a41
    a31 a21 a44 a34 a24 a14 a04 a22 a12 a02 a42 a32.
Definition P20 (f : macro25) : list Z -> list Z :=
  f a00 a44 a33 a22 a11 a23 a12 a01 a40 a34 a41 a30 a24
    a13 a02 a14 a03 a42 a31 a20 a32 a21 a10 a04 a43.
Definition P21 (f : macro25) : list Z -> list Z :=
  f a00 a14 a23 a32 a41 a12 a21 a30 a44 a03 a24 a33 a42
    a01 a10 a31 a40 a04 a13 a22 a43 a02 a11 a20 a34.
Definition P22 (f : macro25) : list Z -> list Z :=
  f a00 a31 a12 a43 a24 a21 a02 a33 a14 a40 a42 a23 a04
    a30 a11 a13 a44 a20 a01 a32 a34 a10 a41 a22 a03.
Definition P23 (f : macro25) : list Z -> list Z :=
  f a00 a13 a21 a34 a42 a02 a10 a23 a31 a44 a04 a12 a20
    a33 a41 a01 a14 a22 a30 a43 a03 a11 a24 a32 a40.

Definition P1_TO_P0 (s : list Z) : list Z :=
  let t := s.[a01] in
  let s := s.[a01 := s.[a30]] in
  let s := s.[a30 := s.[a33]] in
  let s := s.[a33 := s.[a23]] in
  let s := s.[a23 := s.[a12]] in
  let s := s.[a12 := s.[a21]] in
  let s := s.[a21 := s.[a02]] in
  let s := s.[a02 := s.[a10]] in
  let s := s.[a10 := s.[a11]] in
  let s := s.[a11 := s.[a41]] in
  let s := s.[a41 := s.[a24]] in
  let s := s.[a24 := s.[a42]] in
  let s := s.[a42 := s.[a04]] in
  let s := s.[a04 := s.[a20]] in
  let s := s.[a20 := s.[a22]] in
  let s := s.[a22 := s.[a32]] in
  let s := s.[a32 := s.[a43]] in
  let s := s.[a43 := s.[a34]] in
  let s := s.[a34 := s.[a03]] in
  let s := s.[a03 := s.[a40]] in
  let s := s.[a40 := s.[a44]] in
  let s := s.[a44 := s.[a14]] in
  let s := s.[a14 := s.[a31]] in
  let s := s.[a31 := s.[a13]] in
  let s := s.[a13 := t] in
  s.

Definition P2_TO_P0 (s : list Z) : list Z :=
  let t := s.[a01] in
  let s := s.[a01 := s.[a33]] in
  let s := s.[a33 := s.[a12]] in
  let s := s.[a12 := s.[a02]] in
  let s := s.[a02 := s.[a11]] in
  let s := s.[a11 := s.[a24]] in
  let s := s.[a24 := s.[a04]] in
  let s := s.[a04 := s.[a22]] in
  let s := s.[a22 := s.[a43]] in
  let s := s.[a43 := s.[a03]] in
  let s := s.[a03 := s.[a44]] in
  let s := s.[a44 := s.[a31]] in
  let s := s.[a31 := t] in
  let t := s.[a10] in
  let s := s.[a10 := s.[a41]] in
  let s := s.[a41 := s.[a42]] in
  let s := s.[a42 := s.[a20]] in
  let s := s.[a20 := s.[a32]] in
  let s := s.[a32 := s.[a34]] in
  let s := s.[a34 := s.[a40]] in
  let s := s.[a40 := s.[a14]] in
  let s := s.[a14 := s.[a13]] in
  let s := s.[a13 := s.[a30]] in
  let s := s.[a30 := s.[a23]] in
  let s := s.[a23 := s.[a21]] in
  let s := s.[a21 := t] in
  s.

Definition P4_TO_P0 (s : list Z) : list Z :=
  let t := s.[a01] in
  let s := s.[a01 := s.[a12]] in
  let s := s.[a12 := s.[a11]] in
  let s := s.[a11 := s.[a04]] in
  let s := s.[a04 := s.[a43]] in
  let s := s.[a43 := s.[a44]] in
  let s := s.[a44 := t] in
  let t := s.[a02] in
  let s := s.[a02 := s.[a24]] in
  let s := s.[a24 := s.[a22]] in
  let s := s.[a22 := s.[a03]] in
  let s := s.[a03 := s.[a31]] in
  let s := s.[a31 := s.[a33]] in
  let s := s.[a33 := t] in
  let t := s.[a10] in
  let s := s.[a10 := s.[a42]] in
  let s := s.[a42 := s.[a32]] in
  let s := s.[a32 := s.[a40]] in
  let s := s.[a40 := s.[a13]] in
  let s := s.[a13 := s.[a23]] in
  let s := s.[a23 := t] in
  let t := s.[a14] in
  let s := s.[a14 := s.[a30]] in
  let s := s.[a30 := s.[a21]] in
  let s := s.[a21 := s.[a41]] in
  let s := s.[a41 := s.[a20]] in
  let s := s.[a20 := s.[a34]] in
  let s := s.[a34 := t] in
  s.

Definition P6_TO_P0 (s : list Z) : list Z :=
  let t := s.[a01] in
  let s := s.[a01 := s.[a02]] in
  let s := s.[a02 := s.[a04]] in
  let s := s.[a04 := s.[a03]] in
  let s := s.[a03 := t] in
  let t := s.[a10] in
  let s := s.[a10 := s.[a20]] in
  let s := s.[a20 := s.[a40]] in
  let s := s.[a40 := s.[a30]] in
  let s := s.[a30 := t] in
  let t := s.[a11] in
  let s := s.[a11 := s.[a22]] in
  let s := s.[a22 := s.[a44]] in
  let s := s.[a44 := s.[a33]] in
  let s := s.[a33 := t] in
  let t := s.[a12] in
  let s := s.[a12 := s.[a24]] in
  let s := s.[a24 := s.[a43]] in
  let s := s.[a43 := s.[a31]] in
  let s := s.[a31 := t] in
  let t := s.[a13] in
  let s := s.[a13 := s.[a21]] in
  let s := s.[a21 := s.[a42]] in
  let s := s.[a42 := s.[a34]] in
  let s := s.[a34 := t] in
  let t := s.[a14] in
  let s := s.[a14 := s.[a23]] in
  let s := s.[a23 := s.[a41]] in
  let s := s.[a41 := s.[a32]] in
  let s := s.[a32 := t] in
  s.

Definition P8_TO_P0 (s : list Z) : list Z :=
  let t := s.[a01] in
  let s := s.[a01 := s.[a11]] in
  let s := s.[a11 := s.[a43]] in
  let s := s.[a43 := t] in
  let t := s.[a02] in
  let s := s.[a02 := s.[a22]] in
  let s := s.[a22 := s.[a31]] in
  let s := s.[a31 := t] in
  let t := s.[a03] in
  let s := s.[a03 := s.[a33]] in
  let s := s.[a33 := s.[a24]] in
  let s := s.[a24 := t] in
  let t := s.[a04] in
  let s := s.[a04 := s.[a44]] in
  let s := s.[a44 := s.[a12]] in
  let s := s.[a12 := t] in
  let t := s.[a10] in
  let s := s.[a10 := s.[a32]] in
  let s := s.[a32 := s.[a13]] in
  let s := s.[a13 := t] in
  let t := s.[a14] in
  let s := s.[a14 := s.[a21]] in
  let s := s.[a21 := s.[a20]] in
  let s := s.[a20 := t] in
  let t := s.[a23] in
  let s := s.[a23 := s.[a42]] in
  let s := s.[a42 := s.[a40]] in
  let s := s.[a40 := t] in
  let t := s.[a30] in
  let s := s.[a30 := s.[a41]] in
  let s := s.[a41 := s.[a34]] in
  let s := s.[a34 := t] in
  s.

Definition P12_TO_P0 (s : list Z) : list Z :=
  let t := s.[a01] in
  let s := s.[a01 := s.[a04]] in
  let s := s.[a04 := t] in
  let t := s.[a02] in
  let s := s.[a02 := s.[a03]] in
  let s := s.[a03 := t] in
  let t := s.[a10] in
  let s := s.[a10 := s.[a40]] in
  let s := s.[a40 := t] in
  let t := s.[a11] in
  let s := s.[a11 := s.[a44]] in
  let s := s.[a44 := t] in
  let t := s.[a12] in
  let s := s.[a12 := s.[a43]] in
  let s := s.[a43 := t] in
  let t := s.[a13] in
  let s := s.[a13 := s.[a42]] in
  let s := s.[a42 := t] in
  let t := s.[a14] in
  let s := s.[a14 := s.[a41]] in
  let s := s.[a41 := t] in
  let t := s.[a20] in
  let s := s.[a20 := s.[a30]] in
  let s := s.[a30 := t] in
  let t := s.[a21] in
  let s := s.[a21 := s.[a34]] in
  let s := s.[a34 := t] in
  let t := s.[a22] in
  let s := s.[a22 := s.[a33]] in
  let s := s.[a33 := t] in
  let t := s.[a23] in
  let s := s.[a23 := s.[a32]] in
  let s := s.[a32 := t] in
  let t := s.[a24] in
  let s := s.[a24 := s.[a31]] in
  let s := s.[a31 := t] in
  s.

(** One round: the lanes are named by [Pr] before it and by [Ps] after it. *)
Definition KF_ELT (Pr Ps : macro25 -> list Z -> list Z) (k : Z) (s : list Z) : list Z :=
  let s := Pr THETA s in
  let s := Pr RHO s in
  let s := Ps KHI s in
  IOTA k s.

Definition KECCAK_F_1600_unroll1 (s : list Z) : list Z :=
  fold_left (fun s j =>
    let s := KF_ELT P0 P1 RC.[j + 0] s in
    P1_TO_P0 s)
  [0; 1; 2; 3; 4; 5; 6; 7; 8; 9; 10; 11; 12; 13; 14; 15; 16; 17; 18; 19; 20; 21; 22; 23]%nat s.

Definition KECCAK_F_1600_unroll2 (s : list Z) : list Z :=
  fold_left (fun s j =>
    let s := KF_ELT P0 P1 RC.[j + 0] s in
    let s := KF_ELT P1 P2 RC.[j + 1] s in
    P2_TO_P0 s)
  [0; 2; 4; 6; 8; 10; 12; 14; 16; 18; 20; 22]%nat s.

Definition KECCAK_F_1600_unroll4 (s : list Z) : list Z :=
  fold_left (fun s j =>
    let s := KF_ELT P0 P1 RC.[j + 0] s in
    let s := KF_ELT P1 P2 RC.[j + 1] s in
    let s := KF_ELT P2 P3 RC.[j + 2] s in
    let s := KF_ELT P3 P4 RC.[j + 3] s in
    P4_TO_P0 s)
  [0; 4; 8; 12; 16; 20]%nat s.

Definition KECCAK_F_1600_unroll6 (s : list Z) : list Z :=
  fold_left (fun s j =>
    let s := KF_ELT P0 P1 RC.[j + 0] s in
    let s := KF_ELT P1 P2 RC.[j + 1] s in
    let s := KF_ELT P2 P3 RC.[j + 2] s in
    let s := KF_ELT P3 P4 RC.[j + 3] s in
    let s := KF_ELT P4 P5 RC.[j + 4] s in
    let s := KF_ELT P5 P6 RC.[j + 5] s in
    P6_TO_P0 s)
  [0; 6; 12; 18]%nat s.

Definition KECCAK_F_1600_unroll8 (s : list Z) : list Z :=
  fold_left (fun s j =>
    let s := KF_ELT P0 P1 RC.[j + 0] s in
    let s := KF_ELT P1 P2 RC.[j + 1] s in
    let s := KF_ELT P2 P3 RC.[j + 2] s in
    let s := KF_ELT P3 P4 RC.[j + 3] s in
    let s := KF_ELT P4 P5 RC.[j + 4] s in
    let s := KF_ELT P5 P6 RC.[j + 5] s in
    let s := KF_ELT P6 P7 RC.[j + 6] s in
    let s := KF_ELT P7 P8 RC.[j + 7] s in
    P8_TO_P0 s)
  [0; 8; 16]%nat s.

Definition KECCAK_F_1600_unroll12 (s : list Z) : list Z :=
  fold_left (fun s j =>
    let s := KF_ELT P0 P1 RC.[j + 0] s in
    let s := KF_ELT P1 P2 RC.[j + 1] s in
    let s := KF_ELT P2 P3 RC.[j + 2] s in
    let s := KF_ELT P3 P4 RC.[j + 3] s in
    let s := KF_ELT P4 P5 RC.[j + 4] s in
    let s := KF_ELT P5 P6 RC.[j + 5] s in
    let s := KF_ELT P6 P7 RC.[j + 6] s in
    let s := KF_ELT P7 P8 RC.[j + 7] s in
    let s := KF_ELT P8 P9 RC.[j + 8] s in
    let s := KF_ELT P9 P10 RC.[j + 9] s in
    let s := KF_ELT P10 P11 RC.[j + 10] s in
    let s := KF_ELT P11 P12 RC.[j + 11] s in
    P12_TO_P0 s)
  [0; 12]%nat s.

Definition KECCAK_F_1600_unroll0 (s : list Z) : list Z :=
  let s := KF_ELT P0 P1 RC.[0] s in
  let s := KF_ELT P1 P2 RC.[1] s in
  let s := KF_ELT P2 P3 RC.[2] s in
  let s := KF_ELT P3 P4 RC.[3] s in
  let s := KF_ELT P4 P5 RC.[4] s in
  let s := KF_ELT P5 P6 RC.[5] s in
  let s := KF_ELT P6 P7 RC.[6] s in
  let s := KF_ELT P7 P8 RC.[7] s in
  let s := KF_ELT P8 P9 RC.[8] s in
  let s := KF_ELT P9 P10 RC.[9] s in
  let s := KF_ELT P10 P11 RC.[10] s in
  let s := KF_ELT P11 P12 RC.[11] s in
  let s := KF_ELT P12 P13 RC.[12] s in
  let s := KF_ELT P13 P14 RC.[13] s in
  let s := KF_ELT P14 P15 RC.[14] s in
  let s := KF_ELT P15 P16 RC.[15] s in
  let s := KF_ELT P16 P17 RC.[16] s in
  let s := KF_ELT P17 P18 RC.[17] s in
  let s := KF_ELT P18 P19 RC.[18] s in
  let s := KF_ELT P19 P20 RC.[19] s in
  let s := KF_ELT P20 P21 RC.[20] s in
  let s := KF_ELT P21 P22 RC.[21] s in
  let s := KF_ELT P22 P23 RC.[22] s in
  let s := KF_ELT P23 P0 RC.[23] s in
  s.

(** [SPH_KECCAK_UNROLL] is 8 unless a small footprint is asked for. *)
Definition KECCAK_F_1600 (s : list Z) : list Z := KECCAK_F_1600_unroll8 s.

(** ** The context and its operations *)

Record sph_keccak_context := {
  buf : list Z;
  ptr : nat;
  lim : nat;
  wide : list Z
}.

Definition INPUT_BUF (size : nat) (wide buf : list Z) : list Z :=
  fold_left (fun w i =>
    let j := (8 * i)%nat in
    w.[Nat.shiftr j 3 := w.[Nat.shiftr j 3] ^^ sph_dec64le_aligned (skipn j buf)])
    (seq 0 (size / 8)) wide.

Definition ALL_ONES : Z := 0xFFFFFFFFFFFFFFFF.

(** The words that [keccak_init] sets to all ones and that the close function
    complements: the "lane complement". *)
Definition keccak_init (kc : sph_keccak_context) (out_size : nat) : sph_keccak_context :=
  let w := repeat 0 25 in
  let w := w.[1 := ALL_ONES] in
  let w := w.[2 := ALL_ONES] in
  let w := w.[8 := ALL_ONES] in
  let w := w.[12 := ALL_ONES] in
  let w := w.[17 := ALL_ONES] in
  let w := w.[20 := ALL_ONES] in
  {| buf := buf kc; ptr := 0; lim := 200 - Nat.shiftr out_size 2; wide := w |}.

(** What the loop runs on a full buffer. *)
Definition keccak_block (lim : nat) (wide buf : list Z) : list Z :=
  KECCAK_F_1600 (INPUT_BUF lim wide buf).

Definition keccak_core (kc : sph_keccak_context) (data : list Z) (lim0 : nat) : sph_keccak_context :=
  let len := length data in
  if (len <? lim0 - ptr kc)%nat then
    {| buf := memcpy_at (buf kc) (ptr kc) data; ptr := (ptr kc + len)%nat;
       lim := lim kc; wide := wide kc |}
  else
    let '(buf', ptr', wide') :=
      core_loop lim0 (keccak_block lim0) len (buf kc) (ptr kc) (wide kc) data in
    {| buf := buf'; ptr := ptr'; lim := lim kc; wide := wide' |}.

(** [w[i] = ~w[i]], on 64-bit words. *)
Definition complement (i : nat) (w : list Z) : list Z := w.[i := SPH_T64 (Z.lnot w.[i])].

(** [DEFCLOSE(d, lim)]: the bytes [u.tmp[0 .. j-1]] handed to [keccak_core]. *)
Definition close_padding (lim0 ptr0 : nat) (ub n : Z) : list Z :=
  let eb := Z.shiftr (0x100 |: (ub &: 0xFF)) (8 - n) in
  if (ptr0 =? lim0 - 1)%nat then
    if n =? 7 then (eb &: 0xFF) :: repeat 0 (lim0 - 1) ++ [0x80]
    else [(eb |: 0x80) &: 0xFF]
  else
    let j := (lim0 - ptr0)%nat in
    (eb &: 0xFF) :: repeat 0 (j - 2) ++ [0x80].

(** The loop [for (j = 0; j < d; j += 8) sph_enc64le_aligned(u.tmp + j, ...)]
    followed by [memcpy(dst, u.tmp, d)]. *)
Definition output_bytes (d : nat) (w : list Z) : list Z :=
  firstn d (flat_map (fun i => sph_enc64le_aligned w.[i]) (seq 0 ((d + 7) / 8))).

Definition keccak_close (d lim0 : nat) (kc : sph_keccak_context) (ub n : Z)
  : list Z * sph_keccak_context :=
  let kc := keccak_core kc (close_padding lim0 (ptr kc) ub n) lim0 in
  let w := wide kc in
  let w := complement 1 w in
  let w := complement 2 w in
  let w := complement 8 w in
  let w := complement 12 w in
  let w := complement 17 w in
  let w := complement 20 w in
  (output_bytes d w,
   keccak_init {| buf := buf kc; ptr := ptr kc; lim := lim kc; wide := w |} (Nat.shiftl d 3)).

Definition keccak_close28 := keccak_close 28 144.
Definition keccak_close32 := keccak_close 32 136.
Definition keccak_close48 := keccak_close 48 104.
Definition keccak_close64 := keccak_close 64 72.

Definition sph_keccak224_init (cc : sph_keccak_context) : sph_keccak_context := keccak_init cc 224.
Definition sph_keccak224 (cc : sph_keccak_context) (data : list Z) : sph_keccak_context :=
  keccak_core cc data 144.
Definition sph_keccak224_addbits_and_close (cc : sph_keccak_context) (ub n : Z)
  : list Z * sph_keccak_context := keccak_close28 cc ub n.
Definition sph_keccak224_close (cc : sph_keccak_context) : list Z * sph_keccak_context :=
  sph_keccak224_addbits_and_close cc 0 0.

Definition sph_keccak256_init (cc : sph_keccak_context) : sph_keccak_context := keccak_init cc 256.
Definition sph_keccak256 (cc : sph_keccak_context) (data : list Z) : sph_keccak_context :=
  keccak_core cc data 136.
Definition sph_keccak256_addbits_and_close (cc : sph_keccak_context) (ub n : Z)
  : list Z * sph_keccak_context := keccak_close32 cc ub n.
Definition sph_keccak256_close (cc : sph_keccak_context) : list Z * sph_keccak_context :=
  sph_keccak256_addbits_and_close cc 0 0.

Definition sph_keccak384_init (cc : sph_keccak_context) : sph_keccak_context := keccak_init cc 384.
Definition sph_keccak384 (cc : sph_keccak_context) (data : list Z) : sph_keccak_context :=
  keccak_core cc data 104.
Definition sph_keccak384_addbits_and_close (cc : sph_keccak_context) (ub n : Z)
  : list Z * sph_keccak_context := keccak_close48 cc ub n.
Definition sph_keccak384_close (cc : sph_keccak_context) : list Z * sph_keccak_context :=
  sph_keccak384_addbits_and_close cc 0 0.

Definition sph_keccak512_init (cc : sph_keccak_context) : sph_keccak_context := keccak_init cc 512.
Definition sph_keccak512 (cc : sph_keccak_context) (data : list Z) : sph_keccak_context :=
  keccak_core cc data 72.
Definition sph_keccak512_addbits_and_close (cc : sph_keccak_context) (ub n : Z)
  : list Z * sph_keccak_context := keccak_close64 cc ub n.
Definition sph_keccak512_close (cc : sph_keccak_context) : list Z * sph_keccak_context :=
  sph_keccak512_addbits_and_close cc 0 0.

End Keccak.
