(* ===== verification/KeccakProofs.v ===== *)
(** Keccak: the C code of keccak.c computes the Keccak sponge. *)
From S2P Require Import Prelude SphTypes Stream Keccak SphSpec.
Import Keccak.

(** * The permutation *)

(** The lanes of a state as the argument list [P] names them, in the order
    [x + 5 y] of the specification. *)
Definition view (P : macro25 -> list Z -> list Z) (s : list Z) : list Z :=
  P (fun b00 b01 b02 b03 b04 b10 b11 b12 b13 b14 b20 b21 b22 b23 b24
         b30 b31 b32 b33 b34 b40 b41 b42 b43 b44 s =>
       [ s.[b00]; s.[b10]; s.[b20]; s.[b30]; s.[b40];
         s.[b01]; s.[b11]; s.[b21]; s.[b31]; s.[b41];
         s.[b02]; s.[b12]; s.[b22]; s.[b32]; s.[b42];
         s.[b03]; s.[b13]; s.[b23]; s.[b33]; s.[b43];
         s.[b04]; s.[b14]; s.[b24]; s.[b34]; s.[b44] ]) s.

(** One round on a state whose lanes are in place, the result read through
    [P1]. *)
Definition lc_round (s : list Z) (k : Z) : list Z := view P1 (KF_ELT P0 P1 k s).

Ltac expand_state s :=
  match goal with H : length s = 25%nat |- _ => destruct_list_n s end.

Ltac eval_lanes :=
  cbv -[SPH_ROTL64 SPH_T64 Z.lxor Z.lor Z.land Z.lnot not64].

(** Every pair of consecutive argument lists performs the same round, up to
    the naming of the lanes. *)
Lemma KF_ELT_view :
  Forall (fun '(P, Q) => forall s k, length s = 25%nat ->
            view Q (KF_ELT P Q k s) = lc_round (view P s) k /\ length (KF_ELT P Q k s) = 25%nat)
    [(P0, P1); (P1, P2); (P2, P3); (P3, P4); (P4, P5); (P5, P6); (P6, P7); (P7, P8);
     (P8, P9); (P9, P10); (P10, P11); (P11, P12); (P12, P13); (P13, P14); (P14, P15);
     (P15, P16); (P16, P17); (P17, P18); (P18, P19); (P19, P20); (P20, P21); (P21, P22);
     (P22, P23); (P23, P0)].
Proof.
  repeat (apply Forall_cons;
    [intros s k Hs; expand_state s; split; eval_lanes; reflexivity|]).
  apply Forall_nil.
Qed.

(** The renaming macros put the lanes back in place. *)
Lemma renaming :
  Forall (fun '(P, f) => forall s, length s = 25%nat -> f s = view P s)
    [(P1, P1_TO_P0); (P2, P2_TO_P0); (P4, P4_TO_P0); (P6, P6_TO_P0); (P8, P8_TO_P0);
     (P12, P12_TO_P0)].
Proof.
  repeat (apply Forall_cons; [intros s Hs; expand_state s; eval_lanes; reflexivity|]).
  apply Forall_nil.
Qed.

(** [seen P s t]: read through [P], the state [s] is [t]. *)
Definition seen (P : macro25 -> list Z -> list Z) (s t : list Z) : Prop :=
  length s = 25%nat /\ view P s = t.

Lemma seen_P0 s : length s = 25%nat -> seen P0 s s.
Proof. intros Hs; split; [assumption|]; expand_state s; reflexivity. Qed.

Lemma seen_P0_eq s t : seen P0 s t -> s = t.
Proof. intros [Hs <-]; expand_state s; reflexivity. Qed.

Lemma seen_round P Q s t k :
  In (P, Q) [(P0, P1); (P1, P2); (P2, P3); (P3, P4); (P4, P5); (P5, P6); (P6, P7); (P7, P8);
     (P8, P9); (P9, P10); (P10, P11); (P11, P12); (P12, P13); (P13, P14); (P14, P15);
     (P15, P16); (P16, P17); (P17, P18); (P18, P19); (P19, P20); (P20, P21); (P21, P22);
     (P22, P23); (P23, P0)] ->
  seen P s t -> seen Q (KF_ELT P Q k s) (lc_round t k).
Proof.
  intros Hin [Hs <-].
  destruct (proj1 (Forall_forall _ _) KF_ELT_view (P, Q) Hin s k Hs) as [H1 H2].
  split; assumption.
Qed.

Lemma seen_back P f s t :
  In (P, f) [(P1, P1_TO_P0); (P2, P2_TO_P0); (P4, P4_TO_P0); (P6, P6_TO_P0); (P8, P8_TO_P0);
     (P12, P12_TO_P0)] ->
  seen P s t -> length t = 25%nat -> seen P0 (f s) t.
Proof.
  intros Hin [Hs <-] Ht.
  rewrite (proj1 (Forall_forall _ _) renaming (P, f) Hin s Hs). now apply seen_P0.
Qed.

Lemma length_lc_round s k : length (lc_round s k) = 25%nat.
Proof. reflexivity. Qed.

Ltac follow_rounds :=
  repeat first
    [ lazymatch goal with
      | |- seen P0 (KF_ELT P23 P0 _ _) _ => apply seen_round; [cbn [In]; tauto|]
      | |- seen P0 (_ _) _ => eapply seen_back; [cbn [In]; tauto| |apply length_lc_round]
      | |- seen _ (KF_ELT _ _ _ _) _ => apply seen_round; [cbn [In]; tauto|]
      end
    | apply seen_P0; assumption ].

(** The macro of every unrolling count is the same 24 rounds. *)
Lemma unroll_rounds s :
  length s = 25%nat ->
  Forall (fun f => f s = fold_left lc_round RC s)
    [KECCAK_F_1600_unroll0; KECCAK_F_1600_unroll1; KECCAK_F_1600_unroll2;
     KECCAK_F_1600_unroll4; KECCAK_F_1600_unroll6; KECCAK_F_1600_unroll8;
     KECCAK_F_1600_unroll12].
Proof.
  intros Hs. repeat apply Forall_cons; try apply Forall_nil; apply seen_P0_eq;
  cbv beta zeta delta [KECCAK_F_1600_unroll0 KECCAK_F_1600_unroll1 KECCAK_F_1600_unroll2
    KECCAK_F_1600_unroll4 KECCAK_F_1600_unroll6 KECCAK_F_1600_unroll8 KECCAK_F_1600_unroll12 RC];
  cbn [fold_left nth Nat.add]; follow_rounds.
Qed.

(** ** The lane complement *)

(** Complements the lanes that a mask selects. *)
Definition masked (M : list bool) (s : list Z) : list Z :=
  map (fun '(b, x) => not64 b x) (combine M s).

(** The lanes complemented between two rounds (the output list of the comment
    above [KHI]), and those complemented between the rotations and the chi step:
    the input list a00 a01 a02 a04 a13 a20 a21 a22 a30 a33 a34 a43 of that
    comment, whose names are the argument names of [KHI], read through [P1]. *)
Definition lane_set (l : list nat) : list bool :=
  map (fun i => existsb (Nat.eqb i) l) (seq 0 25).

Definition M_round : list bool := lane_set [a04; a10; a20; a22; a23; a31].
Definition M_khi : list bool :=
  lane_set [a00; a30; a10; a20; a01; a22; a02; a32; a33; a23; a03; a34].

Ltac expand_words s H :=
  expand_state s;
  repeat match type of H with
         | Forall _ (_ :: _) => let Hw := fresh "Hw" in
             apply Forall_cons_iff in H; destruct H as [Hw H]
         end.

(** Bit [i] of every lane, with the bits of rotated lanes at [j]. *)
Ltac lane_bits :=
  word64_bits;
  repeat first
    [ rewrite testbit_ROTL64 by first [lia | auto 20 with word]
    | rewrite Z.lxor_spec | rewrite Z.land_spec | rewrite Z.lor_spec
    | rewrite testbit_not64 by first [lia | apply Z.mod_pos_bound; lia] ];
  btauto.

Ltac by_lanes :=
  cbv -[SPH_ROTL64 SPH_T64 Z.lxor Z.lor Z.land Z.lnot not64];
  repeat (apply f_equal2; [|]); try reflexivity.

Lemma not64_true x : SPH_T64 (Z.lnot x) = not64 true x.
Proof. reflexivity. Qed.

Lemma theta_masked s :
  length s = 25%nat -> Forall word64 s ->
  P0 THETA (masked M_round s) = masked M_khi (KeccakSpec.theta s).
Proof. intros Hs Hw; expand_words s Hw. by_lanes; lane_bits. Qed.

Lemma rho_masked s :
  length s = 25%nat -> Forall word64 s ->
  P0 RHO (masked M_khi s) = masked M_khi (KeccakSpec.rho s).
Proof.
  intros Hs Hw; expand_words s Hw. by_lanes; rewrite ?not64_ROTL64 by (first [lia|assumption]);
  reflexivity.
Qed.

Lemma chi_masked s k :
  length s = 25%nat -> Forall word64 s -> word64 k ->
  view P1 (IOTA k (P1 KHI (masked M_khi s))) =
  masked M_round (KeccakSpec.iota k (KeccakSpec.chi (KeccakSpec.pi s))).
Proof.
  intros Hs Hw Hk; expand_words s Hw.
  by_lanes; rewrite ?not64_true; lane_bits.
Qed.

(** The step mappings produce 25 words from 25 words. *)
Definition state_ok (s : list Z) : Prop := length s = 25%nat /\ Forall word64 s.

Lemma build_ok f : (forall x y, word64 (f x y)) -> state_ok (KeccakSpec.build f).
Proof. intros H; split; [reflexivity|]. apply Forall_map, Forall_forall; auto. Qed.

Lemma word_nth s i : Forall word64 s -> word64 s.[i].
Proof. intros; apply Forall_nth_default; auto with word. Qed.
#[export] Hint Resolve word_nth : word.

Lemma word_lane s x y : state_ok s -> word64 (KeccakSpec.lane s x y).
Proof. intros [_ H]; apply word_nth, H. Qed.
#[export] Hint Resolve word_lane : word.

Lemma theta_ok s : state_ok s -> state_ok (KeccakSpec.theta s).
Proof. intros H; apply build_ok; intros; unfold KeccakSpec.column; auto 20 with word. Qed.

Lemma rho_ok s : state_ok s -> state_ok (KeccakSpec.rho s).
Proof.
  intros H; apply build_ok; intros x y; cbv zeta.
  destruct (_ =? 0)%nat; auto with word.
Qed.

Lemma pi_ok s : state_ok s -> state_ok (KeccakSpec.pi s).
Proof. intros H; apply build_ok; intros; auto with word. Qed.

Lemma chi_ok s : state_ok s -> state_ok (KeccakSpec.chi s).
Proof. intros H; apply build_ok; intros; auto 20 with word. Qed.

Lemma iota_ok k s : word64 k -> state_ok s -> state_ok (KeccakSpec.iota k s).
Proof.
  intros Hk [Hl Hw]; split; unfold KeccakSpec.iota; [now rewrite length_upd|].
  apply Forall_upd; auto with word.
Qed.

Lemma round_ok s k : word64 k -> state_ok s -> state_ok (KeccakSpec.round s k).
Proof. intros; apply iota_ok, chi_ok, pi_ok, rho_ok, theta_ok; assumption. Qed.
#[export] Hint Resolve theta_ok rho_ok pi_ok chi_ok round_ok : word.

Lemma lc_round_masked s k :
  state_ok s -> word64 k ->
  lc_round (masked M_round s) k = masked M_round (KeccakSpec.round s k).
Proof.
  intros Hs Hk. unfold lc_round, KF_ELT.
  pose proof (theta_ok s Hs) as Ht. pose proof (rho_ok _ Ht) as Hr.
  destruct Hs, Ht, Hr.
  rewrite theta_masked, rho_masked by assumption. now apply chi_masked.
Qed.

Lemma RC_words : Forall word64 RC.
Proof. apply words_check; reflexivity. Qed.

(** The constants of the table are those of the LFSR. *)
Lemma RC_constants : RC = map KeccakSpec.round_constant (seq 0 24).
Proof. vm_compute; reflexivity. Qed.

Lemma rounds_masked ks s :
  Forall word64 ks -> state_ok s ->
  fold_left lc_round ks (masked M_round s) = masked M_round (fold_left KeccakSpec.round ks s) /\
  state_ok (fold_left KeccakSpec.round ks s).
Proof.
  intros Hks; revert s; induction Hks as [|k ks Hk Hks IH]; intros s Hs; cbn [fold_left]; auto.
  rewrite lc_round_masked by assumption. apply IH. now apply round_ok.
Qed.

Lemma length_masked s : length s = 25%nat -> length (masked M_round s) = 25%nat.
Proof. intros H; unfold masked; rewrite length_map, length_combine, H; reflexivity. Qed.

(** The permutation of the code is Keccak-f[1600] under the lane complement,
    for every unrolling count. *)
Lemma KECCAK_F_masked s :
  state_ok s ->
  KECCAK_F_1600 (masked M_round s) = masked M_round (KeccakSpec.keccak_f s) /\
  state_ok (KeccakSpec.keccak_f s).
Proof.
  intros Hs. destruct (rounds_masked RC s RC_words Hs) as [E Hok].
  unfold KeccakSpec.keccak_f. rewrite <- RC_constants. split; [|assumption].
  rewrite <- E. pose proof (unroll_rounds _ (length_masked s (proj1 Hs))) as H.
  rewrite Forall_forall in H. unfold KECCAK_F_1600.
  apply (H KECCAK_F_1600_unroll8). cbn [In]; tauto.
Qed.

Lemma masked_involutive s : state_ok s -> masked M_round (masked M_round s) = s.
Proof.
  intros [Hs Hw]; expand_words s Hw. cbn -[not64].
  now rewrite !not64_involutive by assumption.
Qed.
