(* ===== verification/KeccakSponge.v ===== *)
(** Keccak: the buffered update, the padding and the output of keccak.c compute
    the Keccak sponge, for each of the four digest sizes and for every way of
    cutting the message into updates. *)
From S2P Require Import Prelude SphTypes Stream Keccak SphSpec KeccakProofs.
Import Keccak.

(** * One block *)

Lemma shiftr_8 i : Nat.shiftr (8 * i) 3 = i.
Proof.
  rewrite Nat.shiftr_div_pow2. change (2 ^ 3)%nat with 8%nat.
  rewrite Nat.mul_comm. now apply Nat.div_mul.
Qed.

Lemma nth_masked s i :
  state_ok s -> (masked M_round s).[i] = not64 (nth i M_round false) s.[i].
Proof.
  intros [Hs _]. unfold masked.
  change 0 with ((fun '(b, x) => not64 b x) (false, 0)) at 1.
  rewrite map_nth, combine_nth by (rewrite Hs; reflexivity). reflexivity.
Qed.

Lemma dec64le_word b i :
  bytes b -> (8 * i + 8 <= length b)%nat -> word64 (sph_dec64le_aligned (skipn (8 * i) b)).
Proof. intros Hb Hl. apply word64_load; [rewrite length_skipn; lia | now apply Forall_drop]. Qed.

(** Absorbing a block into complemented lanes complements the same lanes. *)
Lemma INPUT_BUF_masked size s b :
  state_ok s -> bytes b -> (size mod 8 = 0)%nat -> (size <= 200)%nat -> length b = size ->
  INPUT_BUF size (masked M_round s) b = masked M_round (KeccakSpec.xor_block s b) /\
  state_ok (KeccakSpec.xor_block s b).
Proof.
  intros Hs Hb H8 H200 Hl.
  assert (Hd : (size = 8 * (size / 8))%nat) by (apply Nat.Div0.div_exact; lia).
  assert (Hok : state_ok (KeccakSpec.xor_block s b)).
  { split; [unfold KeccakSpec.xor_block; now autorewrite with lens|].
    apply Forall_map, Forall_forall. intros i Hi.
    destruct (Nat.ltb_spec (8 * i) (length b)); [|apply word_nth, Hs].
    apply word_lxor; [lia|apply word_nth, Hs|apply dec64le_word; [assumption|lia]]. }
  split; [|assumption].
  set (g := fun i x => x ^^ sph_dec64le_aligned (skipn (8 * i) b)).
  assert (E : INPUT_BUF size (masked M_round s) b =
              fold_left (fun w i => w.[i := g i w.[i]]) (seq 0 (size / 8)) (masked M_round s)).
  { apply fold_left_ext_in. intros w i _; cbv zeta. now rewrite !shiftr_8. }
  assert (Hm : length (masked M_round s) = 25%nat) by apply length_masked, Hs.
  apply (list_ext 0); rewrite E, length_update_loop, Hm; [now rewrite length_masked by apply Hok|].
  intros i Hi. rewrite nth_update_loop, !nth_masked by (assumption || lia).
  unfold KeccakSpec.xor_block. rewrite nth_map_seq by lia.
  replace (8 * i <? length b)%nat with (i <? size / 8)%nat
    by (destruct (Nat.ltb_spec i (size / 8)), (Nat.ltb_spec (8 * i) (length b)); lia).
  destruct (Nat.ltb_spec i (size / 8)); [|reflexivity].
  unfold g. assert (Hdw := dec64le_word b i Hb ltac:(lia)).
  change (sph_dec64le_aligned (skipn (8 * i) b)) with (not64 false (sph_dec64le_aligned (skipn (8 * i) b))).
  rewrite not64_lxor by (try apply word_nth; try apply Hs; assumption).
  now rewrite xorb_false_r.
Qed.

(** ** The block step of the specification *)

Definition spec_block (s b : list Z) : list Z := KeccakSpec.keccak_f (KeccakSpec.xor_block s b).

(** [lc w s]: the words [w] of a context hold the state [s] with its lanes
    complemented. *)
Definition lc (w s : list Z) : Prop := state_ok s /\ w = masked M_round s.

Lemma keccak_block_lc rate w s b :
  (rate mod 8 = 0)%nat -> (rate <= 200)%nat -> lc w s -> length b = rate -> bytes b ->
  lc (keccak_block rate w b) (spec_block s b).
Proof.
  intros H8 H200 [Hs ->] Hl Hb. unfold keccak_block.
  destruct (INPUT_BUF_masked rate s b) as [-> Hok]; auto.
  destruct (KECCAK_F_masked _ Hok) as [-> Hok']. split; auto.
Qed.

(** The buffer of the context is longer than the block; only the block is read. *)
Lemma keccak_block_firstn rate w b :
  (rate mod 8 = 0)%nat -> (rate <= length b)%nat ->
  keccak_block rate w b = keccak_block rate w (firstn rate b).
Proof.
  intros H8 Hl. unfold keccak_block, INPUT_BUF. f_equal.
  apply fold_left_ext_in. intros w' i Hi; cbv zeta.
  apply in_seq in Hi. pose proof (Nat.div_mod_eq rate 8) as Hd.
  do 2 f_equal. unfold sph_dec64le_aligned, load. f_equal.
  rewrite skipn_firstn_comm, firstn_firstn.
  replace (Init.Nat.min 8 (rate - 8 * i)) with 8%nat by lia. reflexivity.
Qed.

(** * Contexts *)

Definition zero_state : list Z := repeat 0 25.
Definition init_words : list Z := masked M_round zero_state.

Lemma zero_state_ok : state_ok zero_state.
Proof. split; [reflexivity|]. apply words_check; reflexivity. Qed.

Section Sponge.
(** A rate in bytes. *)
Context (rate : nat).
Context (H8 : (rate mod 8 = 0)%nat) (Hpos : (0 < rate)%nat) (Hcap : (rate <= 144)%nat).

(** The context [c] stands for the message [m]. *)
Definition keccak_rep (c : sph_keccak_context) (m : list Z) : Prop :=
  bytes m /\
  represents rate (keccak_block rate) 144 init_words (buf c) (ptr c) (wide c) m.

Lemma keccak_full w b : length b = 144%nat -> keccak_block rate w b = keccak_block rate w (firstn rate b).
Proof. intros Hb; apply keccak_block_firstn; lia. Qed.

Lemma keccak_init_rep c n : length (buf c) = 144%nat -> keccak_rep (keccak_init c n) [].
Proof.
  intros Hb; split; [constructor|]. apply represents_nil; try lia. assumption.
Qed.

(** [keccak_core] appends its data to the message of the context. *)
Lemma keccak_core_rep c m data :
  bytes data -> keccak_rep c m -> keccak_rep (keccak_core c data rate) (m ++ data).
Proof.
  intros Hdata [Hm Hr]. split; [now apply Forall_app|].
  unfold keccak_core. destruct (Nat.ltb_spec (length data) (rate - ptr c)).
  - now apply short_copy_represents.
  - pose proof (core_loop_represents rate (keccak_block rate) Hpos 144 Hcap keccak_full
                  _ _ _ _ _ data Hr) as G.
    destruct (core_loop _ _ _ _ _ _ _) as [[b' p'] w']. exact G.
Qed.

(** The words of a context of [m]: the specification's state after the whole
    blocks of [m], lane-complemented. *)
Lemma keccak_rep_words c m :
  keccak_rep c m ->
  lc (wide c) (fst (absorb rate spec_block zero_state m)).
Proof.
  intros [Hm (_ & _ & E)].
  replace (wide c) with (fst (absorb rate (keccak_block rate) init_words m)) by now rewrite E.
  apply (absorb_rel rate (keccak_block rate) spec_block lc (word 8)); auto.
  - intros w s b H Hl Hb. apply keccak_block_lc; auto; lia.
  - split; [apply zero_state_ok | reflexivity].
Qed.

(** ** Padding *)

Lemma close_padding_pad m p :
  p = (length m mod rate)%nat -> m ++ close_padding rate p 0 0 = KeccakSpec.pad rate m.
Proof.
  intros ->. unfold KeccakSpec.pad, close_padding.
  pose proof (Nat.mod_upper_bound (length m) rate). f_equal.
  change (Z.shiftr (0x100 |: (0 &: 0xFF)) (8 - 0)) with 1.
  destruct (Nat.eqb_spec (length m mod rate) (rate - 1));
    destruct (Nat.eqb_spec (rate - length m mod rate) 1); try lia; reflexivity.
Qed.

Lemma bytes_close_padding p ub n : bytes (close_padding rate p ub n).
Proof.
  assert (Hz : forall k, bytes (repeat 0 k))
    by (intros k; apply Forall_forall; intros x Hx; apply repeat_spec in Hx; subst; auto with word).
  assert (Hb : forall x, is_byte (x &: 0xFF)) by (intros; apply word_land_r; auto with word).
  unfold close_padding; destruct (_ =? _)%nat; [destruct (n =? 7)|].
  all: repeat (apply Forall_cons; [apply Hb|]); rewrite ?Forall_app; repeat split;
    auto with word; repeat constructor; lia.
Qed.

Lemma length_pad m : (length (KeccakSpec.pad rate m) mod rate = 0)%nat.
Proof.
  unfold KeccakSpec.pad. pose proof (Nat.mod_upper_bound (length m) rate ltac:(lia)) as Hu.
  set (k := (rate - length m mod rate)%nat).
  rewrite length_app.
  replace (length (if (k =? 1)%nat then _ else _)) with k.
  - rewrite (Nat.div_mod_eq (length m) rate) at 1.
    replace (rate * (length m / rate) + length m mod rate + k)%nat
      with ((length m / rate + 1) * rate)%nat by (unfold k; nia).
    apply Nat.Div0.mod_mul.
  - destruct (Nat.eqb_spec k 1); [assumption|].
    cbn [length]; rewrite length_app, repeat_length; cbn [length]. unfold k in *; lia.
Qed.

(** The specification's loop over whole blocks is the absorption. *)
Lemma absorb_blocks_absorb n s m :
  length m = (n * rate)%nat ->
  KeccakSpec.absorb_blocks n rate s m = fst (absorb rate spec_block s m).
Proof.
  revert s m; induction n as [|n IH]; intros s m Hm; cbn [KeccakSpec.absorb_blocks].
  - rewrite absorb_short by lia; reflexivity.
  - rewrite absorb_block by (cbn in Hm; lia).
    apply IH. rewrite length_skipn; cbn in Hm; lia.
Qed.

(** ** Output, of [d] bytes *)

Context (d : nat) (Hd : (d <= 200)%nat).

Lemma complement_masked w s :
  lc w s ->
  complement 20 (complement 17 (complement 12 (complement 8 (complement 2 (complement 1 w))))) = s.
Proof.
  intros [Hok ->]. pose proof (masked_involutive s Hok) as H.
  destruct Hok as [Hs Hw]; expand_words s Hw. exact H.
Qed.

Lemma output_bytes_spec s :
  length s = 25%nat -> output_bytes d s = firstn d (flat_map (le_split 8) s).
Proof.
  intros Hs. unfold output_bytes.
  assert (Hq : (d <= 8 * ((d + 7) / 8))%nat)
    by (pose proof (Nat.div_mod_eq (d + 7) 8); pose proof (Nat.mod_upper_bound (d + 7) 8); lia).
  assert (Hq' : ((d + 7) / 8 <= 25)%nat)
    by (apply Nat.lt_succ_r, Nat.Div0.div_lt_upper_bound; lia).
  rewrite <- (firstn_flat_map (le_split 8) 8 ((d + 7) / 8) d s)
    by (intros; auto using length_le_split).
  rewrite <- (map_nth_seq s 0) by lia. now rewrite !flat_map_concat_map, map_map.
Qed.

(** [close] returns the digest of the message and leaves a fresh context. *)
Lemma keccak_close_rep c m :
  keccak_rep c m ->
  fst (keccak_close d rate c 0 0) = KeccakSpec.keccak rate d m /\
  keccak_rep (snd (keccak_close d rate c 0 0)) [].
Proof.
  intros Hc. unfold keccak_close.
  assert (Hptr : ptr c = (length m mod rate)%nat)
    by exact (represents_length rate _ Hpos 144 Hcap _ _ _ _ _ (proj2 Hc)).
  pose proof (keccak_core_rep c m (close_padding rate (ptr c) 0 0)
                (bytes_close_padding _ _ _) Hc) as Hc'.
  set (c' := keccak_core c (close_padding rate (ptr c) 0 0) rate) in *.
  split; cbn [fst snd].
  - pose proof (keccak_rep_words _ _ Hc') as Hw.
    rewrite (complement_masked _ _ Hw).
    rewrite close_padding_pad in * by assumption.
    unfold KeccakSpec.keccak. pose proof (length_pad m) as Hp.
    rewrite absorb_blocks_absorb
      by (rewrite Nat.mul_comm; apply Nat.Div0.div_exact; exact Hp).
    apply output_bytes_spec.
    apply Hw.
  - apply keccak_init_rep. cbn [buf]. apply Hc'.
Qed.
End Sponge.

(** * The four digest functions *)

Definition keccak224_ops (c0 : sph_keccak_context) : hash_ops sph_keccak_context :=
  {| hash_init := sph_keccak224_init c0; hash_update := sph_keccak224;
     hash_close := sph_keccak224_close |}.
Definition keccak256_ops (c0 : sph_keccak_context) : hash_ops sph_keccak_context :=
  {| hash_init := sph_keccak256_init c0; hash_update := sph_keccak256;
     hash_close := sph_keccak256_close |}.
Definition keccak384_ops (c0 : sph_keccak_context) : hash_ops sph_keccak_context :=
  {| hash_init := sph_keccak384_init c0; hash_update := sph_keccak384;
     hash_close := sph_keccak384_close |}.
Definition keccak512_ops (c0 : sph_keccak_context) : hash_ops sph_keccak_context :=
  {| hash_init := sph_keccak512_init c0; hash_update := sph_keccak512;
     hash_close := sph_keccak512_close |}.

Section Instances.
(** An uninitialised context: only the size of its buffer is known. *)
Context (c0 : sph_keccak_context) (Hc0 : length (buf c0) = 144%nat).

Lemma rate_facts rate :
  In rate [144; 136; 104; 72]%nat -> (rate mod 8 = 0)%nat /\ (0 < rate)%nat /\ (rate <= 144)%nat.
Proof. cbn [In]; intros H; decompose [or] H; subst; repeat split; try lia; contradiction. Qed.

(** The three operations at a given rate and digest size. *)
Definition keccak_ops_at (rate d : nat) : hash_ops sph_keccak_context :=
  {| hash_init := keccak_init c0 (8 * d);
     hash_update := fun c data => keccak_core c data rate;
     hash_close := fun c => keccak_close d rate c 0 0 |}.

Lemma keccak_stream rate d :
  In rate [144; 136; 104; 72]%nat -> (d <= 200)%nat ->
  StreamHash (keccak_ops_at rate d) any_message (KeccakSpec.keccak rate d).
Proof.
  intros Hin Hd. destruct (rate_facts rate Hin) as (H8 & Hpos & Hcap).
  refine (Build_StreamHash _ _ _ _ (keccak_rep rate) _ _ _).
  all: cbn [hash_init hash_update hash_close keccak_ops_at].
  - apply keccak_init_rep; assumption.
  - intros c m data Hb Hr. apply keccak_core_rep; assumption.
  - intros c m Hr _. apply keccak_close_rep; assumption.
Qed.

#[export] Instance keccak224_stream : StreamHash (keccak224_ops c0) any_message (KeccakSpec.keccak 144 28) :=
  keccak_stream 144 28 ltac:(cbn; tauto) ltac:(lia).
#[export] Instance keccak256_stream : StreamHash (keccak256_ops c0) any_message (KeccakSpec.keccak 136 32) :=
  keccak_stream 136 32 ltac:(cbn; tauto) ltac:(lia).
#[export] Instance keccak384_stream : StreamHash (keccak384_ops c0) any_message (KeccakSpec.keccak 104 48) :=
  keccak_stream 104 48 ltac:(cbn; tauto) ltac:(lia).
#[export] Instance keccak512_stream : StreamHash (keccak512_ops c0) any_message (KeccakSpec.keccak 72 64) :=
  keccak_stream 72 64 ltac:(cbn; tauto) ltac:(lia).
End Instances.

(** The permutation: on a state whose lanes are complemented as the code
    keeps them, the [KECCAK_F_1600] macro of every unrolling count computes
    Keccak-f[1600] of the reference, complemented the same way. *)
Theorem keccak_f_every_unrolling s :
  state_ok s ->
  Forall (fun f => f (masked M_round s) = masked M_round (KeccakSpec.keccak_f s))
    [KECCAK_F_1600_unroll0; KECCAK_F_1600_unroll1; KECCAK_F_1600_unroll2;
     KECCAK_F_1600_unroll4; KECCAK_F_1600_unroll6; KECCAK_F_1600_unroll8;
     KECCAK_F_1600_unroll12].
Proof.
  intros Hs. destruct (KECCAK_F_masked s Hs) as [<- _].
  pose proof (unroll_rounds _ (length_masked s (proj1 Hs))) as H.
  pose proof (proj1 (Forall_forall _ _) H KECCAK_F_1600_unroll8 ltac:(cbn [In]; tauto)) as H8.
  unfold KECCAK_F_1600. rewrite H8. exact H.
Qed.

Lemma keccak_f_every_unrolling_witness :
  KECCAK_F_1600_unroll2 (masked M_round zero_state) = masked M_round (KeccakSpec.keccak_f zero_state).
Proof.
  pose proof (keccak_f_every_unrolling zero_state zero_state_ok) as H.
  exact (proj1 (Forall_forall _ _) H KECCAK_F_1600_unroll2 ltac:(cbn [In]; tauto)).
Defined.

(** C17. The digests: whatever the uninitialised context held and however the
    message is cut into updates, the four Keccak functions return the digest of
    the Keccak sponge (rates 144, 136, 104 and 72 bytes) of the whole message. *)
Theorem keccak_digests c0 pieces :
  length (buf c0) = 144%nat -> Forall (fun p => bytes p) pieces ->
  digest_of (keccak224_ops c0) pieces = KeccakSpec.keccak 144 28 (concat pieces) /\
  digest_of (keccak256_ops c0) pieces = KeccakSpec.keccak 136 32 (concat pieces) /\
  digest_of (keccak384_ops c0) pieces = KeccakSpec.keccak 104 48 (concat pieces) /\
  digest_of (keccak512_ops c0) pieces = KeccakSpec.keccak 72 64 (concat pieces).
Proof.
  intros Hc Hp. repeat split.
  - exact (chunked_digest (StreamHash0 := keccak224_stream c0 Hc) pieces Hp I).
  - exact (chunked_digest (StreamHash0 := keccak256_stream c0 Hc) pieces Hp I).
  - exact (chunked_digest (StreamHash0 := keccak384_stream c0 Hc) pieces Hp I).
  - exact (chunked_digest (StreamHash0 := keccak512_stream c0 Hc) pieces Hp I).
Qed.

Definition keccak_blank : sph_keccak_context :=
  {| buf := repeat 0 144; ptr := 0; lim := 0; wide := repeat 0 25 |}.

Lemma keccak_digests_witness :
  digest_of (keccak512_ops keccak_blank) [[97]; []; [98; 99]] = KeccakSpec.keccak 72 64 [97; 98; 99].
Proof.
  apply (keccak_digests keccak_blank [[97]; []; [98; 99]]); [reflexivity|].
  repeat apply Forall_cons; try apply Forall_nil; split; (lia || reflexivity).
Defined.

(** The first bytes of the published digest of the empty message. *)
Example keccak512_empty :
  firstn 8 (digest_of (keccak512_ops keccak_blank) []) =
  [0x0e; 0xab; 0x42; 0xde; 0x4c; 0x3c; 0xeb; 0x92].
Proof. vm_compute; reflexivity. Qed.
