(* ===== verification/GroestlTables.v ===== *)
(** The lookup tables [T0] ... [T7] of src/src/crypto/groestl.c (64-bit build),
    entered as the source writes them: big-endian constants passed through the
    byte-swapping macro [C64e]. *)
From S2P Require Import Prelude.

Module GroestlTables.

Definition C64e (x : Z) : Z :=
  Z.shiftr x 56
  |: (Z.shiftr x 40 &: 0x000000000000FF00)
  |: (Z.shiftr x 24 &: 0x0000000000FF0000)
  |: (Z.shiftr x 8 &: 0x00000000FF000000)
  |: (Z.shiftl x 8 &: 0x000000FF00000000)
  |: (Z.shiftl x 24 &: 0x0000FF0000000000)
  |: (Z.shiftl x 40 &: 0x00FF000000000000)
  |: (Z.shiftl x 56 &: 0xFF00000000000000).

Definition T0 : list Z := map C64e [
  0xc632f4a5f497a5c6; 0xf86f978497eb84f8; 0xee5eb099b0c799ee; 0xf67a8c8d8cf78df6;
  0xffe8170d17e50dff; 0xd60adcbddcb7bdd6; 0xde16c8b1c8a7b1de; 0x916dfc54fc395491;
  0x6090f050f0c05060; 0x0207050305040302; 0xce2ee0a9e087a9ce; 0x56d1877d87ac7d56;
  0xe7cc2b192bd519e7; 0xb513a662a67162b5; 0x4d7c31e6319ae64d; 0xec59b59ab5c39aec;
  0x8f40cf45cf05458f; 0x1fa3bc9dbc3e9d1f; 0x8949c040c0094089; 0xfa68928792ef87fa;
  0xefd03f153fc515ef; 0xb29426eb267febb2; 0x8ece40c94007c98e; 0xfbe61d0b1ded0bfb;
  0x416e2fec2f82ec41; 0xb31aa967a97d67b3; 0x5f431cfd1cbefd5f; 0x456025ea258aea45;
  0x23f9dabfda46bf23; 0x535102f702a6f753; 0xe445a196a1d396e4; 0x9b76ed5bed2d5b9b;
  0x75285dc25deac275; 0xe1c5241c24d91ce1; 0x3dd4e9aee97aae3d; 0x4cf2be6abe986a4c;
  0x6c82ee5aeed85a6c; 0x7ebdc341c3fc417e; 0xf5f3060206f102f5; 0x8352d14fd11d4f83;
  0x688ce45ce4d05c68; 0x515607f407a2f451; 0xd18d5c345cb934d1; 0xf9e1180818e908f9;
  0xe24cae93aedf93e2; 0xab3e9573954d73ab; 0x6297f553f5c45362; 0x2a6b413f41543f2a;
  0x081c140c14100c08; 0x9563f652f6315295; 0x46e9af65af8c6546; 0x9d7fe25ee2215e9d;
  0x3048782878602830; 0x37cff8a1f86ea137; 0x0a1b110f11140f0a; 0x2febc4b5c45eb52f;
  0x0e151b091b1c090e; 0x247e5a365a483624; 0x1badb69bb6369b1b; 0xdf98473d47a53ddf;
  0xcda76a266a8126cd; 0x4ef5bb69bb9c694e; 0x7f334ccd4cfecd7f; 0xea50ba9fbacf9fea;
  0x123f2d1b2d241b12; 0x1da4b99eb93a9e1d; 0x58c49c749cb07458; 0x3446722e72682e34;
  0x3641772d776c2d36; 0xdc11cdb2cda3b2dc; 0xb49d29ee2973eeb4; 0x5b4d16fb16b6fb5b;
  0xa4a501f60153f6a4; 0x76a1d74dd7ec4d76; 0xb714a361a37561b7; 0x7d3449ce49face7d;
  0x52df8d7b8da47b52; 0xdd9f423e42a13edd; 0x5ecd937193bc715e; 0x13b1a297a2269713;
  0xa6a204f50457f5a6; 0xb901b868b86968b9; 0x0000000000000000; 0xc1b5742c74992cc1;
  0x40e0a060a0806040; 0xe3c2211f21dd1fe3; 0x793a43c843f2c879; 0xb69a2ced2c77edb6;
  0xd40dd9bed9b3bed4; 0x8d47ca46ca01468d; 0x671770d970ced967; 0x72afdd4bdde44b72;
  0x94ed79de7933de94; 0x98ff67d4672bd498; 0xb09323e8237be8b0; 0x855bde4ade114a85;
  0xbb06bd6bbd6d6bbb; 0xc5bb7e2a7e912ac5; 0x4f7b34e5349ee54f; 0xedd73a163ac116ed;
  0x86d254c55417c586; 0x9af862d7622fd79a; 0x6699ff55ffcc5566; 0x11b6a794a7229411;
  0x8ac04acf4a0fcf8a; 0xe9d9301030c910e9; 0x040e0a060a080604; 0xfe66988198e781fe;
  0xa0ab0bf00b5bf0a0; 0x78b4cc44ccf04478; 0x25f0d5bad54aba25; 0x4b753ee33e96e34b;
  0xa2ac0ef30e5ff3a2; 0x5d4419fe19bafe5d; 0x80db5bc05b1bc080; 0x0580858a850a8a05;
  0x3fd3ecadec7ead3f; 0x21fedfbcdf42bc21; 0x70a8d848d8e04870; 0xf1fd0c040cf904f1;
  0x63197adf7ac6df63; 0x772f58c158eec177; 0xaf309f759f4575af; 0x42e7a563a5846342;
  0x2070503050403020; 0xe5cb2e1a2ed11ae5; 0xfdef120e12e10efd; 0xbf08b76db7656dbf;
  0x8155d44cd4194c81; 0x18243c143c301418; 0x26795f355f4c3526; 0xc3b2712f719d2fc3;
  0xbe8638e13867e1be; 0x35c8fda2fd6aa235; 0x88c74fcc4f0bcc88; 0x2e654b394b5c392e;
  0x936af957f93d5793; 0x55580df20daaf255; 0xfc619d829de382fc; 0x7ab3c947c9f4477a;
  0xc827efacef8bacc8; 0xba8832e7326fe7ba; 0x324f7d2b7d642b32; 0xe642a495a4d795e6;
  0xc03bfba0fb9ba0c0; 0x19aab398b3329819; 0x9ef668d16827d19e; 0xa322817f815d7fa3;
  0x44eeaa66aa886644; 0x54d6827e82a87e54; 0x3bdde6abe676ab3b; 0x0b959e839e16830b;
  0x8cc945ca4503ca8c; 0xc7bc7b297b9529c7; 0x6b056ed36ed6d36b; 0x286c443c44503c28;
  0xa72c8b798b5579a7; 0xbc813de23d63e2bc; 0x1631271d272c1d16; 0xad379a769a4176ad;
  0xdb964d3b4dad3bdb; 0x649efa56fac85664; 0x74a6d24ed2e84e74; 0x1436221e22281e14;
  0x92e476db763fdb92; 0x0c121e0a1e180a0c; 0x48fcb46cb4906c48; 0xb88f37e4376be4b8;
  0x9f78e75de7255d9f; 0xbd0fb26eb2616ebd; 0x43692aef2a86ef43; 0xc435f1a6f193a6c4;
  0x39dae3a8e372a839; 0x31c6f7a4f762a431; 0xd38a593759bd37d3; 0xf274868b86ff8bf2;
  0xd583563256b132d5; 0x8b4ec543c50d438b; 0x6e85eb59ebdc596e; 0xda18c2b7c2afb7da;
  0x018e8f8c8f028c01; 0xb11dac64ac7964b1; 0x9cf16dd26d23d29c; 0x49723be03b92e049;
  0xd81fc7b4c7abb4d8; 0xacb915fa1543faac; 0xf3fa090709fd07f3; 0xcfa06f256f8525cf;
  0xca20eaafea8fafca; 0xf47d898e89f38ef4; 0x476720e9208ee947; 0x1038281828201810;
  0x6f0b64d564ded56f; 0xf073838883fb88f0; 0x4afbb16fb1946f4a; 0x5cca967296b8725c;
  0x38546c246c702438; 0x575f08f108aef157; 0x732152c752e6c773; 0x9764f351f3355197;
  0xcbae6523658d23cb; 0xa125847c84597ca1; 0xe857bf9cbfcb9ce8; 0x3e5d6321637c213e;
  0x96ea7cdd7c37dd96; 0x611e7fdc7fc2dc61; 0x0d9c9186911a860d; 0x0f9b9485941e850f;
  0xe04bab90abdb90e0; 0x7cbac642c6f8427c; 0x712657c457e2c471; 0xcc29e5aae583aacc;
  0x90e373d8733bd890; 0x06090f050f0c0506; 0xf7f4030103f501f7; 0x1c2a36123638121c;
  0xc23cfea3fe9fa3c2; 0x6a8be15fe1d45f6a; 0xaebe10f91047f9ae; 0x69026bd06bd2d069;
  0x17bfa891a82e9117; 0x9971e858e8295899; 0x3a5369276974273a; 0x27f7d0b9d04eb927;
  0xd991483848a938d9; 0xebde351335cd13eb; 0x2be5ceb3ce56b32b; 0x2277553355443322;
  0xd204d6bbd6bfbbd2; 0xa9399070904970a9; 0x07878089800e8907; 0x33c1f2a7f266a733;
  0x2decc1b6c15ab62d; 0x3c5a66226678223c; 0x15b8ad92ad2a9215; 0xc9a96020608920c9;
  0x875cdb49db154987; 0xaab01aff1a4fffaa; 0x50d8887888a07850; 0xa52b8e7a8e517aa5;
  0x03898a8f8a068f03; 0x594a13f813b2f859; 0x09929b809b128009; 0x1a2339173934171a;
  0x651075da75cada65; 0xd784533153b531d7; 0x84d551c65113c684; 0xd003d3b8d3bbb8d0;
  0x82dc5ec35e1fc382; 0x29e2cbb0cb52b029; 0x5ac3997799b4775a; 0x1e2d3311333c111e;
  0x7b3d46cb46f6cb7b; 0xa8b71ffc1f4bfca8; 0x6d0c61d661dad66d; 0x2c624e3a4e583a2c ].

Definition T1 : list Z := map C64e [
  0xc6c632f4a5f497a5; 0xf8f86f978497eb84; 0xeeee5eb099b0c799; 0xf6f67a8c8d8cf78d;
  0xffffe8170d17e50d; 0xd6d60adcbddcb7bd; 0xdede16c8b1c8a7b1; 0x91916dfc54fc3954;
  0x606090f050f0c050; 0x0202070503050403; 0xcece2ee0a9e087a9; 0x5656d1877d87ac7d;
  0xe7e7cc2b192bd519; 0xb5b513a662a67162; 0x4d4d7c31e6319ae6; 0xecec59b59ab5c39a;
  0x8f8f40cf45cf0545; 0x1f1fa3bc9dbc3e9d; 0x898949c040c00940; 0xfafa68928792ef87;
  0xefefd03f153fc515; 0xb2b29426eb267feb; 0x8e8ece40c94007c9; 0xfbfbe61d0b1ded0b;
  0x41416e2fec2f82ec; 0xb3b31aa967a97d67; 0x5f5f431cfd1cbefd; 0x45456025ea258aea;
  0x2323f9dabfda46bf; 0x53535102f702a6f7; 0xe4e445a196a1d396; 0x9b9b76ed5bed2d5b;
  0x7575285dc25deac2; 0xe1e1c5241c24d91c; 0x3d3dd4e9aee97aae; 0x4c4cf2be6abe986a;
  0x6c6c82ee5aeed85a; 0x7e7ebdc341c3fc41; 0xf5f5f3060206f102; 0x838352d14fd11d4f;
  0x68688ce45ce4d05c; 0x51515607f407a2f4; 0xd1d18d5c345cb934; 0xf9f9e1180818e908;
  0xe2e24cae93aedf93; 0xabab3e9573954d73; 0x626297f553f5c453; 0x2a2a6b413f41543f;
  0x08081c140c14100c; 0x959563f652f63152; 0x4646e9af65af8c65; 0x9d9d7fe25ee2215e;
  0x3030487828786028; 0x3737cff8a1f86ea1; 0x0a0a1b110f11140f; 0x2f2febc4b5c45eb5;
  0x0e0e151b091b1c09; 0x24247e5a365a4836; 0x1b1badb69bb6369b; 0xdfdf98473d47a53d;
  0xcdcda76a266a8126; 0x4e4ef5bb69bb9c69; 0x7f7f334ccd4cfecd; 0xeaea50ba9fbacf9f;
  0x12123f2d1b2d241b; 0x1d1da4b99eb93a9e; 0x5858c49c749cb074; 0x343446722e72682e;
  0x363641772d776c2d; 0xdcdc11cdb2cda3b2; 0xb4b49d29ee2973ee; 0x5b5b4d16fb16b6fb;
  0xa4a4a501f60153f6; 0x7676a1d74dd7ec4d; 0xb7b714a361a37561; 0x7d7d3449ce49face;
  0x5252df8d7b8da47b; 0xdddd9f423e42a13e; 0x5e5ecd937193bc71; 0x1313b1a297a22697;
  0xa6a6a204f50457f5; 0xb9b901b868b86968; 0x0000000000000000; 0xc1c1b5742c74992c;
  0x4040e0a060a08060; 0xe3e3c2211f21dd1f; 0x79793a43c843f2c8; 0xb6b69a2ced2c77ed;
  0xd4d40dd9bed9b3be; 0x8d8d47ca46ca0146; 0x67671770d970ced9; 0x7272afdd4bdde44b;
  0x9494ed79de7933de; 0x9898ff67d4672bd4; 0xb0b09323e8237be8; 0x85855bde4ade114a;
  0xbbbb06bd6bbd6d6b; 0xc5c5bb7e2a7e912a; 0x4f4f7b34e5349ee5; 0xededd73a163ac116;
  0x8686d254c55417c5; 0x9a9af862d7622fd7; 0x666699ff55ffcc55; 0x1111b6a794a72294;
  0x8a8ac04acf4a0fcf; 0xe9e9d9301030c910; 0x04040e0a060a0806; 0xfefe66988198e781;
  0xa0a0ab0bf00b5bf0; 0x7878b4cc44ccf044; 0x2525f0d5bad54aba; 0x4b4b753ee33e96e3;
  0xa2a2ac0ef30e5ff3; 0x5d5d4419fe19bafe; 0x8080db5bc05b1bc0; 0x050580858a850a8a;
  0x3f3fd3ecadec7ead; 0x2121fedfbcdf42bc; 0x7070a8d848d8e048; 0xf1f1fd0c040cf904;
  0x6363197adf7ac6df; 0x77772f58c158eec1; 0xafaf309f759f4575; 0x4242e7a563a58463;
  0x2020705030504030; 0xe5e5cb2e1a2ed11a; 0xfdfdef120e12e10e; 0xbfbf08b76db7656d;
  0x818155d44cd4194c; 0x1818243c143c3014; 0x2626795f355f4c35; 0xc3c3b2712f719d2f;
  0xbebe8638e13867e1; 0x3535c8fda2fd6aa2; 0x8888c74fcc4f0bcc; 0x2e2e654b394b5c39;
  0x93936af957f93d57; 0x5555580df20daaf2; 0xfcfc619d829de382; 0x7a7ab3c947c9f447;
  0xc8c827efacef8bac; 0xbaba8832e7326fe7; 0x32324f7d2b7d642b; 0xe6e642a495a4d795;
  0xc0c03bfba0fb9ba0; 0x1919aab398b33298; 0x9e9ef668d16827d1; 0xa3a322817f815d7f;
  0x4444eeaa66aa8866; 0x5454d6827e82a87e; 0x3b3bdde6abe676ab; 0x0b0b959e839e1683;
  0x8c8cc945ca4503ca; 0xc7c7bc7b297b9529; 0x6b6b056ed36ed6d3; 0x28286c443c44503c;
  0xa7a72c8b798b5579; 0xbcbc813de23d63e2; 0x161631271d272c1d; 0xadad379a769a4176;
  0xdbdb964d3b4dad3b; 0x64649efa56fac856; 0x7474a6d24ed2e84e; 0x141436221e22281e;
  0x9292e476db763fdb; 0x0c0c121e0a1e180a; 0x4848fcb46cb4906c; 0xb8b88f37e4376be4;
  0x9f9f78e75de7255d; 0xbdbd0fb26eb2616e; 0x4343692aef2a86ef; 0xc4c435f1a6f193a6;
  0x3939dae3a8e372a8; 0x3131c6f7a4f762a4; 0xd3d38a593759bd37; 0xf2f274868b86ff8b;
  0xd5d583563256b132; 0x8b8b4ec543c50d43; 0x6e6e85eb59ebdc59; 0xdada18c2b7c2afb7;
  0x01018e8f8c8f028c; 0xb1b11dac64ac7964; 0x9c9cf16dd26d23d2; 0x4949723be03b92e0;
  0xd8d81fc7b4c7abb4; 0xacacb915fa1543fa; 0xf3f3fa090709fd07; 0xcfcfa06f256f8525;
  0xcaca20eaafea8faf; 0xf4f47d898e89f38e; 0x47476720e9208ee9; 0x1010382818282018;
  0x6f6f0b64d564ded5; 0xf0f073838883fb88; 0x4a4afbb16fb1946f; 0x5c5cca967296b872;
  0x3838546c246c7024; 0x57575f08f108aef1; 0x73732152c752e6c7; 0x979764f351f33551;
  0xcbcbae6523658d23; 0xa1a125847c84597c; 0xe8e857bf9cbfcb9c; 0x3e3e5d6321637c21;
  0x9696ea7cdd7c37dd; 0x61611e7fdc7fc2dc; 0x0d0d9c9186911a86; 0x0f0f9b9485941e85;
  0xe0e04bab90abdb90; 0x7c7cbac642c6f842; 0x71712657c457e2c4; 0xcccc29e5aae583aa;
  0x9090e373d8733bd8; 0x0606090f050f0c05; 0xf7f7f4030103f501; 0x1c1c2a3612363812;
  0xc2c23cfea3fe9fa3; 0x6a6a8be15fe1d45f; 0xaeaebe10f91047f9; 0x6969026bd06bd2d0;
  0x1717bfa891a82e91; 0x999971e858e82958; 0x3a3a536927697427; 0x2727f7d0b9d04eb9;
  0xd9d991483848a938; 0xebebde351335cd13; 0x2b2be5ceb3ce56b3; 0x2222775533554433;
  0xd2d204d6bbd6bfbb; 0xa9a9399070904970; 0x0707878089800e89; 0x3333c1f2a7f266a7;
  0x2d2decc1b6c15ab6; 0x3c3c5a6622667822; 0x1515b8ad92ad2a92; 0xc9c9a96020608920;
  0x87875cdb49db1549; 0xaaaab01aff1a4fff; 0x5050d8887888a078; 0xa5a52b8e7a8e517a;
  0x0303898a8f8a068f; 0x59594a13f813b2f8; 0x0909929b809b1280; 0x1a1a233917393417;
  0x65651075da75cada; 0xd7d784533153b531; 0x8484d551c65113c6; 0xd0d003d3b8d3bbb8;
  0x8282dc5ec35e1fc3; 0x2929e2cbb0cb52b0; 0x5a5ac3997799b477; 0x1e1e2d3311333c11;
  0x7b7b3d46cb46f6cb; 0xa8a8b71ffc1f4bfc; 0x6d6d0c61d661dad6; 0x2c2c624e3a4e583a ].

Definition T2 : list Z := map C64e [
  0xa5c6c632f4a5f497; 0x84f8f86f978497eb; 0x99eeee5eb099b0c7; 0x8df6f67a8c8d8cf7;
  0x0dffffe8170d17e5; 0xbdd6d60adcbddcb7; 0xb1dede16c8b1c8a7; 0x5491916dfc54fc39;
  0x50606090f050f0c0; 0x0302020705030504; 0xa9cece2ee0a9e087; 0x7d5656d1877d87ac;
  0x19e7e7cc2b192bd5; 0x62b5b513a662a671; 0xe64d4d7c31e6319a; 0x9aecec59b59ab5c3;
  0x458f8f40cf45cf05; 0x9d1f1fa3bc9dbc3e; 0x40898949c040c009; 0x87fafa68928792ef;
  0x15efefd03f153fc5; 0xebb2b29426eb267f; 0xc98e8ece40c94007; 0x0bfbfbe61d0b1ded;
  0xec41416e2fec2f82; 0x67b3b31aa967a97d; 0xfd5f5f431cfd1cbe; 0xea45456025ea258a;
  0xbf2323f9dabfda46; 0xf753535102f702a6; 0x96e4e445a196a1d3; 0x5b9b9b76ed5bed2d;
  0xc27575285dc25dea; 0x1ce1e1c5241c24d9; 0xae3d3dd4e9aee97a; 0x6a4c4cf2be6abe98;
  0x5a6c6c82ee5aeed8; 0x417e7ebdc341c3fc; 0x02f5f5f3060206f1; 0x4f838352d14fd11d;
  0x5c68688ce45ce4d0; 0xf451515607f407a2; 0x34d1d18d5c345cb9; 0x08f9f9e1180818e9;
  0x93e2e24cae93aedf; 0x73abab3e9573954d; 0x53626297f553f5c4; 0x3f2a2a6b413f4154;
  0x0c08081c140c1410; 0x52959563f652f631; 0x654646e9af65af8c; 0x5e9d9d7fe25ee221;
  0x2830304878287860; 0xa13737cff8a1f86e; 0x0f0a0a1b110f1114; 0xb52f2febc4b5c45e;
  0x090e0e151b091b1c; 0x3624247e5a365a48; 0x9b1b1badb69bb636; 0x3ddfdf98473d47a5;
  0x26cdcda76a266a81; 0x694e4ef5bb69bb9c; 0xcd7f7f334ccd4cfe; 0x9feaea50ba9fbacf;
  0x1b12123f2d1b2d24; 0x9e1d1da4b99eb93a; 0x745858c49c749cb0; 0x2e343446722e7268;
  0x2d363641772d776c; 0xb2dcdc11cdb2cda3; 0xeeb4b49d29ee2973; 0xfb5b5b4d16fb16b6;
  0xf6a4a4a501f60153; 0x4d7676a1d74dd7ec; 0x61b7b714a361a375; 0xce7d7d3449ce49fa;
  0x7b5252df8d7b8da4; 0x3edddd9f423e42a1; 0x715e5ecd937193bc; 0x971313b1a297a226;
  0xf5a6a6a204f50457; 0x68b9b901b868b869; 0x0000000000000000; 0x2cc1c1b5742c7499;
  0x604040e0a060a080; 0x1fe3e3c2211f21dd; 0xc879793a43c843f2; 0xedb6b69a2ced2c77;
  0xbed4d40dd9bed9b3; 0x468d8d47ca46ca01; 0xd967671770d970ce; 0x4b7272afdd4bdde4;
  0xde9494ed79de7933; 0xd49898ff67d4672b; 0xe8b0b09323e8237b; 0x4a85855bde4ade11;
  0x6bbbbb06bd6bbd6d; 0x2ac5c5bb7e2a7e91; 0xe54f4f7b34e5349e; 0x16ededd73a163ac1;
  0xc58686d254c55417; 0xd79a9af862d7622f; 0x55666699ff55ffcc; 0x941111b6a794a722;
  0xcf8a8ac04acf4a0f; 0x10e9e9d9301030c9; 0x0604040e0a060a08; 0x81fefe66988198e7;
  0xf0a0a0ab0bf00b5b; 0x447878b4cc44ccf0; 0xba2525f0d5bad54a; 0xe34b4b753ee33e96;
  0xf3a2a2ac0ef30e5f; 0xfe5d5d4419fe19ba; 0xc08080db5bc05b1b; 0x8a050580858a850a;
  0xad3f3fd3ecadec7e; 0xbc2121fedfbcdf42; 0x487070a8d848d8e0; 0x04f1f1fd0c040cf9;
  0xdf6363197adf7ac6; 0xc177772f58c158ee; 0x75afaf309f759f45; 0x634242e7a563a584;
  0x3020207050305040; 0x1ae5e5cb2e1a2ed1; 0x0efdfdef120e12e1; 0x6dbfbf08b76db765;
  0x4c818155d44cd419; 0x141818243c143c30; 0x352626795f355f4c; 0x2fc3c3b2712f719d;
  0xe1bebe8638e13867; 0xa23535c8fda2fd6a; 0xcc8888c74fcc4f0b; 0x392e2e654b394b5c;
  0x5793936af957f93d; 0xf25555580df20daa; 0x82fcfc619d829de3; 0x477a7ab3c947c9f4;
  0xacc8c827efacef8b; 0xe7baba8832e7326f; 0x2b32324f7d2b7d64; 0x95e6e642a495a4d7;
  0xa0c0c03bfba0fb9b; 0x981919aab398b332; 0xd19e9ef668d16827; 0x7fa3a322817f815d;
  0x664444eeaa66aa88; 0x7e5454d6827e82a8; 0xab3b3bdde6abe676; 0x830b0b959e839e16;
  0xca8c8cc945ca4503; 0x29c7c7bc7b297b95; 0xd36b6b056ed36ed6; 0x3c28286c443c4450;
  0x79a7a72c8b798b55; 0xe2bcbc813de23d63; 0x1d161631271d272c; 0x76adad379a769a41;
  0x3bdbdb964d3b4dad; 0x5664649efa56fac8; 0x4e7474a6d24ed2e8; 0x1e141436221e2228;
  0xdb9292e476db763f; 0x0a0c0c121e0a1e18; 0x6c4848fcb46cb490; 0xe4b8b88f37e4376b;
  0x5d9f9f78e75de725; 0x6ebdbd0fb26eb261; 0xef4343692aef2a86; 0xa6c4c435f1a6f193;
  0xa83939dae3a8e372; 0xa43131c6f7a4f762; 0x37d3d38a593759bd; 0x8bf2f274868b86ff;
  0x32d5d583563256b1; 0x438b8b4ec543c50d; 0x596e6e85eb59ebdc; 0xb7dada18c2b7c2af;
  0x8c01018e8f8c8f02; 0x64b1b11dac64ac79; 0xd29c9cf16dd26d23; 0xe04949723be03b92;
  0xb4d8d81fc7b4c7ab; 0xfaacacb915fa1543; 0x07f3f3fa090709fd; 0x25cfcfa06f256f85;
  0xafcaca20eaafea8f; 0x8ef4f47d898e89f3; 0xe947476720e9208e; 0x1810103828182820;
  0xd56f6f0b64d564de; 0x88f0f073838883fb; 0x6f4a4afbb16fb194; 0x725c5cca967296b8;
  0x243838546c246c70; 0xf157575f08f108ae; 0xc773732152c752e6; 0x51979764f351f335;
  0x23cbcbae6523658d; 0x7ca1a125847c8459; 0x9ce8e857bf9cbfcb; 0x213e3e5d6321637c;
  0xdd9696ea7cdd7c37; 0xdc61611e7fdc7fc2; 0x860d0d9c9186911a; 0x850f0f9b9485941e;
  0x90e0e04bab90abdb; 0x427c7cbac642c6f8; 0xc471712657c457e2; 0xaacccc29e5aae583;
  0xd89090e373d8733b; 0x050606090f050f0c; 0x01f7f7f4030103f5; 0x121c1c2a36123638;
  0xa3c2c23cfea3fe9f; 0x5f6a6a8be15fe1d4; 0xf9aeaebe10f91047; 0xd06969026bd06bd2;
  0x911717bfa891a82e; 0x58999971e858e829; 0x273a3a5369276974; 0xb92727f7d0b9d04e;
  0x38d9d991483848a9; 0x13ebebde351335cd; 0xb32b2be5ceb3ce56; 0x3322227755335544;
  0xbbd2d204d6bbd6bf; 0x70a9a93990709049; 0x890707878089800e; 0xa73333c1f2a7f266;
  0xb62d2decc1b6c15a; 0x223c3c5a66226678; 0x921515b8ad92ad2a; 0x20c9c9a960206089;
  0x4987875cdb49db15; 0xffaaaab01aff1a4f; 0x785050d8887888a0; 0x7aa5a52b8e7a8e51;
  0x8f0303898a8f8a06; 0xf859594a13f813b2; 0x800909929b809b12; 0x171a1a2339173934;
  0xda65651075da75ca; 0x31d7d784533153b5; 0xc68484d551c65113; 0xb8d0d003d3b8d3bb;
  0xc38282dc5ec35e1f; 0xb02929e2cbb0cb52; 0x775a5ac3997799b4; 0x111e1e2d3311333c;
  0xcb7b7b3d46cb46f6; 0xfca8a8b71ffc1f4b; 0xd66d6d0c61d661da; 0x3a2c2c624e3a4e58 ].

Definition T3 : list Z := map C64e [
  0x97a5c6c632f4a5f4; 0xeb84f8f86f978497; 0xc799eeee5eb099b0; 0xf78df6f67a8c8d8c;
  0xe50dffffe8170d17; 0xb7bdd6d60adcbddc; 0xa7b1dede16c8b1c8; 0x395491916dfc54fc;
  0xc050606090f050f0; 0x0403020207050305; 0x87a9cece2ee0a9e0; 0xac7d5656d1877d87;
  0xd519e7e7cc2b192b; 0x7162b5b513a662a6; 0x9ae64d4d7c31e631; 0xc39aecec59b59ab5;
  0x05458f8f40cf45cf; 0x3e9d1f1fa3bc9dbc; 0x0940898949c040c0; 0xef87fafa68928792;
  0xc515efefd03f153f; 0x7febb2b29426eb26; 0x07c98e8ece40c940; 0xed0bfbfbe61d0b1d;
  0x82ec41416e2fec2f; 0x7d67b3b31aa967a9; 0xbefd5f5f431cfd1c; 0x8aea45456025ea25;
  0x46bf2323f9dabfda; 0xa6f753535102f702; 0xd396e4e445a196a1; 0x2d5b9b9b76ed5bed;
  0xeac27575285dc25d; 0xd91ce1e1c5241c24; 0x7aae3d3dd4e9aee9; 0x986a4c4cf2be6abe;
  0xd85a6c6c82ee5aee; 0xfc417e7ebdc341c3; 0xf102f5f5f3060206; 0x1d4f838352d14fd1;
  0xd05c68688ce45ce4; 0xa2f451515607f407; 0xb934d1d18d5c345c; 0xe908f9f9e1180818;
  0xdf93e2e24cae93ae; 0x4d73abab3e957395; 0xc453626297f553f5; 0x543f2a2a6b413f41;
  0x100c08081c140c14; 0x3152959563f652f6; 0x8c654646e9af65af; 0x215e9d9d7fe25ee2;
  0x6028303048782878; 0x6ea13737cff8a1f8; 0x140f0a0a1b110f11; 0x5eb52f2febc4b5c4;
  0x1c090e0e151b091b; 0x483624247e5a365a; 0x369b1b1badb69bb6; 0xa53ddfdf98473d47;
  0x8126cdcda76a266a; 0x9c694e4ef5bb69bb; 0xfecd7f7f334ccd4c; 0xcf9feaea50ba9fba;
  0x241b12123f2d1b2d; 0x3a9e1d1da4b99eb9; 0xb0745858c49c749c; 0x682e343446722e72;
  0x6c2d363641772d77; 0xa3b2dcdc11cdb2cd; 0x73eeb4b49d29ee29; 0xb6fb5b5b4d16fb16;
  0x53f6a4a4a501f601; 0xec4d7676a1d74dd7; 0x7561b7b714a361a3; 0xface7d7d3449ce49;
  0xa47b5252df8d7b8d; 0xa13edddd9f423e42; 0xbc715e5ecd937193; 0x26971313b1a297a2;
  0x57f5a6a6a204f504; 0x6968b9b901b868b8; 0x0000000000000000; 0x992cc1c1b5742c74;
  0x80604040e0a060a0; 0xdd1fe3e3c2211f21; 0xf2c879793a43c843; 0x77edb6b69a2ced2c;
  0xb3bed4d40dd9bed9; 0x01468d8d47ca46ca; 0xced967671770d970; 0xe44b7272afdd4bdd;
  0x33de9494ed79de79; 0x2bd49898ff67d467; 0x7be8b0b09323e823; 0x114a85855bde4ade;
  0x6d6bbbbb06bd6bbd; 0x912ac5c5bb7e2a7e; 0x9ee54f4f7b34e534; 0xc116ededd73a163a;
  0x17c58686d254c554; 0x2fd79a9af862d762; 0xcc55666699ff55ff; 0x22941111b6a794a7;
  0x0fcf8a8ac04acf4a; 0xc910e9e9d9301030; 0x080604040e0a060a; 0xe781fefe66988198;
  0x5bf0a0a0ab0bf00b; 0xf0447878b4cc44cc; 0x4aba2525f0d5bad5; 0x96e34b4b753ee33e;
  0x5ff3a2a2ac0ef30e; 0xbafe5d5d4419fe19; 0x1bc08080db5bc05b; 0x0a8a050580858a85;
  0x7ead3f3fd3ecadec; 0x42bc2121fedfbcdf; 0xe0487070a8d848d8; 0xf904f1f1fd0c040c;
  0xc6df6363197adf7a; 0xeec177772f58c158; 0x4575afaf309f759f; 0x84634242e7a563a5;
  0x4030202070503050; 0xd11ae5e5cb2e1a2e; 0xe10efdfdef120e12; 0x656dbfbf08b76db7;
  0x194c818155d44cd4; 0x30141818243c143c; 0x4c352626795f355f; 0x9d2fc3c3b2712f71;
  0x67e1bebe8638e138; 0x6aa23535c8fda2fd; 0x0bcc8888c74fcc4f; 0x5c392e2e654b394b;
  0x3d5793936af957f9; 0xaaf25555580df20d; 0xe382fcfc619d829d; 0xf4477a7ab3c947c9;
  0x8bacc8c827efacef; 0x6fe7baba8832e732; 0x642b32324f7d2b7d; 0xd795e6e642a495a4;
  0x9ba0c0c03bfba0fb; 0x32981919aab398b3; 0x27d19e9ef668d168; 0x5d7fa3a322817f81;
  0x88664444eeaa66aa; 0xa87e5454d6827e82; 0x76ab3b3bdde6abe6; 0x16830b0b959e839e;
  0x03ca8c8cc945ca45; 0x9529c7c7bc7b297b; 0xd6d36b6b056ed36e; 0x503c28286c443c44;
  0x5579a7a72c8b798b; 0x63e2bcbc813de23d; 0x2c1d161631271d27; 0x4176adad379a769a;
  0xad3bdbdb964d3b4d; 0xc85664649efa56fa; 0xe84e7474a6d24ed2; 0x281e141436221e22;
  0x3fdb9292e476db76; 0x180a0c0c121e0a1e; 0x906c4848fcb46cb4; 0x6be4b8b88f37e437;
  0x255d9f9f78e75de7; 0x616ebdbd0fb26eb2; 0x86ef4343692aef2a; 0x93a6c4c435f1a6f1;
  0x72a83939dae3a8e3; 0x62a43131c6f7a4f7; 0xbd37d3d38a593759; 0xff8bf2f274868b86;
  0xb132d5d583563256; 0x0d438b8b4ec543c5; 0xdc596e6e85eb59eb; 0xafb7dada18c2b7c2;
  0x028c01018e8f8c8f; 0x7964b1b11dac64ac; 0x23d29c9cf16dd26d; 0x92e04949723be03b;
  0xabb4d8d81fc7b4c7; 0x43faacacb915fa15; 0xfd07f3f3fa090709; 0x8525cfcfa06f256f;
  0x8fafcaca20eaafea; 0xf38ef4f47d898e89; 0x8ee947476720e920; 0x2018101038281828;
  0xded56f6f0b64d564; 0xfb88f0f073838883; 0x946f4a4afbb16fb1; 0xb8725c5cca967296;
  0x70243838546c246c; 0xaef157575f08f108; 0xe6c773732152c752; 0x3551979764f351f3;
  0x8d23cbcbae652365; 0x597ca1a125847c84; 0xcb9ce8e857bf9cbf; 0x7c213e3e5d632163;
  0x37dd9696ea7cdd7c; 0xc2dc61611e7fdc7f; 0x1a860d0d9c918691; 0x1e850f0f9b948594;
  0xdb90e0e04bab90ab; 0xf8427c7cbac642c6; 0xe2c471712657c457; 0x83aacccc29e5aae5;
  0x3bd89090e373d873; 0x0c050606090f050f; 0xf501f7f7f4030103; 0x38121c1c2a361236;
  0x9fa3c2c23cfea3fe; 0xd45f6a6a8be15fe1; 0x47f9aeaebe10f910; 0xd2d06969026bd06b;
  0x2e911717bfa891a8; 0x2958999971e858e8; 0x74273a3a53692769; 0x4eb92727f7d0b9d0;
  0xa938d9d991483848; 0xcd13ebebde351335; 0x56b32b2be5ceb3ce; 0x4433222277553355;
  0xbfbbd2d204d6bbd6; 0x4970a9a939907090; 0x0e89070787808980; 0x66a73333c1f2a7f2;
  0x5ab62d2decc1b6c1; 0x78223c3c5a662266; 0x2a921515b8ad92ad; 0x8920c9c9a9602060;
  0x154987875cdb49db; 0x4fffaaaab01aff1a; 0xa0785050d8887888; 0x517aa5a52b8e7a8e;
  0x068f0303898a8f8a; 0xb2f859594a13f813; 0x12800909929b809b; 0x34171a1a23391739;
  0xcada65651075da75; 0xb531d7d784533153; 0x13c68484d551c651; 0xbbb8d0d003d3b8d3;
  0x1fc38282dc5ec35e; 0x52b02929e2cbb0cb; 0xb4775a5ac3997799; 0x3c111e1e2d331133;
  0xf6cb7b7b3d46cb46; 0x4bfca8a8b71ffc1f; 0xdad66d6d0c61d661; 0x583a2c2c624e3a4e ].

Definition T4 : list Z := map C64e [
  0xf497a5c6c632f4a5; 0x97eb84f8f86f9784; 0xb0c799eeee5eb099; 0x8cf78df6f67a8c8d;
  0x17e50dffffe8170d; 0xdcb7bdd6d60adcbd; 0xc8a7b1dede16c8b1; 0xfc395491916dfc54;
  0xf0c050606090f050; 0x0504030202070503; 0xe087a9cece2ee0a9; 0x87ac7d5656d1877d;
  0x2bd519e7e7cc2b19; 0xa67162b5b513a662; 0x319ae64d4d7c31e6; 0xb5c39aecec59b59a;
  0xcf05458f8f40cf45; 0xbc3e9d1f1fa3bc9d; 0xc00940898949c040; 0x92ef87fafa689287;
  0x3fc515efefd03f15; 0x267febb2b29426eb; 0x4007c98e8ece40c9; 0x1ded0bfbfbe61d0b;
  0x2f82ec41416e2fec; 0xa97d67b3b31aa967; 0x1cbefd5f5f431cfd; 0x258aea45456025ea;
  0xda46bf2323f9dabf; 0x02a6f753535102f7; 0xa1d396e4e445a196; 0xed2d5b9b9b76ed5b;
  0x5deac27575285dc2; 0x24d91ce1e1c5241c; 0xe97aae3d3dd4e9ae; 0xbe986a4c4cf2be6a;
  0xeed85a6c6c82ee5a; 0xc3fc417e7ebdc341; 0x06f102f5f5f30602; 0xd11d4f838352d14f;
  0xe4d05c68688ce45c; 0x07a2f451515607f4; 0x5cb934d1d18d5c34; 0x18e908f9f9e11808;
  0xaedf93e2e24cae93; 0x954d73abab3e9573; 0xf5c453626297f553; 0x41543f2a2a6b413f;
  0x14100c08081c140c; 0xf63152959563f652; 0xaf8c654646e9af65; 0xe2215e9d9d7fe25e;
  0x7860283030487828; 0xf86ea13737cff8a1; 0x11140f0a0a1b110f; 0xc45eb52f2febc4b5;
  0x1b1c090e0e151b09; 0x5a483624247e5a36; 0xb6369b1b1badb69b; 0x47a53ddfdf98473d;
  0x6a8126cdcda76a26; 0xbb9c694e4ef5bb69; 0x4cfecd7f7f334ccd; 0xbacf9feaea50ba9f;
  0x2d241b12123f2d1b; 0xb93a9e1d1da4b99e; 0x9cb0745858c49c74; 0x72682e343446722e;
  0x776c2d363641772d; 0xcda3b2dcdc11cdb2; 0x2973eeb4b49d29ee; 0x16b6fb5b5b4d16fb;
  0x0153f6a4a4a501f6; 0xd7ec4d7676a1d74d; 0xa37561b7b714a361; 0x49face7d7d3449ce;
  0x8da47b5252df8d7b; 0x42a13edddd9f423e; 0x93bc715e5ecd9371; 0xa226971313b1a297;
  0x0457f5a6a6a204f5; 0xb86968b9b901b868; 0x0000000000000000; 0x74992cc1c1b5742c;
  0xa080604040e0a060; 0x21dd1fe3e3c2211f; 0x43f2c879793a43c8; 0x2c77edb6b69a2ced;
  0xd9b3bed4d40dd9be; 0xca01468d8d47ca46; 0x70ced967671770d9; 0xdde44b7272afdd4b;
  0x7933de9494ed79de; 0x672bd49898ff67d4; 0x237be8b0b09323e8; 0xde114a85855bde4a;
  0xbd6d6bbbbb06bd6b; 0x7e912ac5c5bb7e2a; 0x349ee54f4f7b34e5; 0x3ac116ededd73a16;
  0x5417c58686d254c5; 0x622fd79a9af862d7; 0xffcc55666699ff55; 0xa722941111b6a794;
  0x4a0fcf8a8ac04acf; 0x30c910e9e9d93010; 0x0a080604040e0a06; 0x98e781fefe669881;
  0x0b5bf0a0a0ab0bf0; 0xccf0447878b4cc44; 0xd54aba2525f0d5ba; 0x3e96e34b4b753ee3;
  0x0e5ff3a2a2ac0ef3; 0x19bafe5d5d4419fe; 0x5b1bc08080db5bc0; 0x850a8a050580858a;
  0xec7ead3f3fd3ecad; 0xdf42bc2121fedfbc; 0xd8e0487070a8d848; 0x0cf904f1f1fd0c04;
  0x7ac6df6363197adf; 0x58eec177772f58c1; 0x9f4575afaf309f75; 0xa584634242e7a563;
  0x5040302020705030; 0x2ed11ae5e5cb2e1a; 0x12e10efdfdef120e; 0xb7656dbfbf08b76d;
  0xd4194c818155d44c; 0x3c30141818243c14; 0x5f4c352626795f35; 0x719d2fc3c3b2712f;
  0x3867e1bebe8638e1; 0xfd6aa23535c8fda2; 0x4f0bcc8888c74fcc; 0x4b5c392e2e654b39;
  0xf93d5793936af957; 0x0daaf25555580df2; 0x9de382fcfc619d82; 0xc9f4477a7ab3c947;
  0xef8bacc8c827efac; 0x326fe7baba8832e7; 0x7d642b32324f7d2b; 0xa4d795e6e642a495;
  0xfb9ba0c0c03bfba0; 0xb332981919aab398; 0x6827d19e9ef668d1; 0x815d7fa3a322817f;
  0xaa88664444eeaa66; 0x82a87e5454d6827e; 0xe676ab3b3bdde6ab; 0x9e16830b0b959e83;
  0x4503ca8c8cc945ca; 0x7b9529c7c7bc7b29; 0x6ed6d36b6b056ed3; 0x44503c28286c443c;
  0x8b5579a7a72c8b79; 0x3d63e2bcbc813de2; 0x272c1d161631271d; 0x9a4176adad379a76;
  0x4dad3bdbdb964d3b; 0xfac85664649efa56; 0xd2e84e7474a6d24e; 0x22281e141436221e;
  0x763fdb9292e476db; 0x1e180a0c0c121e0a; 0xb4906c4848fcb46c; 0x376be4b8b88f37e4;
  0xe7255d9f9f78e75d; 0xb2616ebdbd0fb26e; 0x2a86ef4343692aef; 0xf193a6c4c435f1a6;
  0xe372a83939dae3a8; 0xf762a43131c6f7a4; 0x59bd37d3d38a5937; 0x86ff8bf2f274868b;
  0x56b132d5d5835632; 0xc50d438b8b4ec543; 0xebdc596e6e85eb59; 0xc2afb7dada18c2b7;
  0x8f028c01018e8f8c; 0xac7964b1b11dac64; 0x6d23d29c9cf16dd2; 0x3b92e04949723be0;
  0xc7abb4d8d81fc7b4; 0x1543faacacb915fa; 0x09fd07f3f3fa0907; 0x6f8525cfcfa06f25;
  0xea8fafcaca20eaaf; 0x89f38ef4f47d898e; 0x208ee947476720e9; 0x2820181010382818;
  0x64ded56f6f0b64d5; 0x83fb88f0f0738388; 0xb1946f4a4afbb16f; 0x96b8725c5cca9672;
  0x6c70243838546c24; 0x08aef157575f08f1; 0x52e6c773732152c7; 0xf33551979764f351;
  0x658d23cbcbae6523; 0x84597ca1a125847c; 0xbfcb9ce8e857bf9c; 0x637c213e3e5d6321;
  0x7c37dd9696ea7cdd; 0x7fc2dc61611e7fdc; 0x911a860d0d9c9186; 0x941e850f0f9b9485;
  0xabdb90e0e04bab90; 0xc6f8427c7cbac642; 0x57e2c471712657c4; 0xe583aacccc29e5aa;
  0x733bd89090e373d8; 0x0f0c050606090f05; 0x03f501f7f7f40301; 0x3638121c1c2a3612;
  0xfe9fa3c2c23cfea3; 0xe1d45f6a6a8be15f; 0x1047f9aeaebe10f9; 0x6bd2d06969026bd0;
  0xa82e911717bfa891; 0xe82958999971e858; 0x6974273a3a536927; 0xd04eb92727f7d0b9;
  0x48a938d9d9914838; 0x35cd13ebebde3513; 0xce56b32b2be5ceb3; 0x5544332222775533;
  0xd6bfbbd2d204d6bb; 0x904970a9a9399070; 0x800e890707878089; 0xf266a73333c1f2a7;
  0xc15ab62d2decc1b6; 0x6678223c3c5a6622; 0xad2a921515b8ad92; 0x608920c9c9a96020;
  0xdb154987875cdb49; 0x1a4fffaaaab01aff; 0x88a0785050d88878; 0x8e517aa5a52b8e7a;
  0x8a068f0303898a8f; 0x13b2f859594a13f8; 0x9b12800909929b80; 0x3934171a1a233917;
  0x75cada65651075da; 0x53b531d7d7845331; 0x5113c68484d551c6; 0xd3bbb8d0d003d3b8;
  0x5e1fc38282dc5ec3; 0xcb52b02929e2cbb0; 0x99b4775a5ac39977; 0x333c111e1e2d3311;
  0x46f6cb7b7b3d46cb; 0x1f4bfca8a8b71ffc; 0x61dad66d6d0c61d6; 0x4e583a2c2c624e3a ].

Definition T5 : list Z := map C64e [
  0xa5f497a5c6c632f4; 0x8497eb84f8f86f97; 0x99b0c799eeee5eb0; 0x8d8cf78df6f67a8c;
  0x0d17e50dffffe817; 0xbddcb7bdd6d60adc; 0xb1c8a7b1dede16c8; 0x54fc395491916dfc;
  0x50f0c050606090f0; 0x0305040302020705; 0xa9e087a9cece2ee0; 0x7d87ac7d5656d187;
  0x192bd519e7e7cc2b; 0x62a67162b5b513a6; 0xe6319ae64d4d7c31; 0x9ab5c39aecec59b5;
  0x45cf05458f8f40cf; 0x9dbc3e9d1f1fa3bc; 0x40c00940898949c0; 0x8792ef87fafa6892;
  0x153fc515efefd03f; 0xeb267febb2b29426; 0xc94007c98e8ece40; 0x0b1ded0bfbfbe61d;
  0xec2f82ec41416e2f; 0x67a97d67b3b31aa9; 0xfd1cbefd5f5f431c; 0xea258aea45456025;
  0xbfda46bf2323f9da; 0xf702a6f753535102; 0x96a1d396e4e445a1; 0x5bed2d5b9b9b76ed;
  0xc25deac27575285d; 0x1c24d91ce1e1c524; 0xaee97aae3d3dd4e9; 0x6abe986a4c4cf2be;
  0x5aeed85a6c6c82ee; 0x41c3fc417e7ebdc3; 0x0206f102f5f5f306; 0x4fd11d4f838352d1;
  0x5ce4d05c68688ce4; 0xf407a2f451515607; 0x345cb934d1d18d5c; 0x0818e908f9f9e118;
  0x93aedf93e2e24cae; 0x73954d73abab3e95; 0x53f5c453626297f5; 0x3f41543f2a2a6b41;
  0x0c14100c08081c14; 0x52f63152959563f6; 0x65af8c654646e9af; 0x5ee2215e9d9d7fe2;
  0x2878602830304878; 0xa1f86ea13737cff8; 0x0f11140f0a0a1b11; 0xb5c45eb52f2febc4;
  0x091b1c090e0e151b; 0x365a483624247e5a; 0x9bb6369b1b1badb6; 0x3d47a53ddfdf9847;
  0x266a8126cdcda76a; 0x69bb9c694e4ef5bb; 0xcd4cfecd7f7f334c; 0x9fbacf9feaea50ba;
  0x1b2d241b12123f2d; 0x9eb93a9e1d1da4b9; 0x749cb0745858c49c; 0x2e72682e34344672;
  0x2d776c2d36364177; 0xb2cda3b2dcdc11cd; 0xee2973eeb4b49d29; 0xfb16b6fb5b5b4d16;
  0xf60153f6a4a4a501; 0x4dd7ec4d7676a1d7; 0x61a37561b7b714a3; 0xce49face7d7d3449;
  0x7b8da47b5252df8d; 0x3e42a13edddd9f42; 0x7193bc715e5ecd93; 0x97a226971313b1a2;
  0xf50457f5a6a6a204; 0x68b86968b9b901b8; 0x0000000000000000; 0x2c74992cc1c1b574;
  0x60a080604040e0a0; 0x1f21dd1fe3e3c221; 0xc843f2c879793a43; 0xed2c77edb6b69a2c;
  0xbed9b3bed4d40dd9; 0x46ca01468d8d47ca; 0xd970ced967671770; 0x4bdde44b7272afdd;
  0xde7933de9494ed79; 0xd4672bd49898ff67; 0xe8237be8b0b09323; 0x4ade114a85855bde;
  0x6bbd6d6bbbbb06bd; 0x2a7e912ac5c5bb7e; 0xe5349ee54f4f7b34; 0x163ac116ededd73a;
  0xc55417c58686d254; 0xd7622fd79a9af862; 0x55ffcc55666699ff; 0x94a722941111b6a7;
  0xcf4a0fcf8a8ac04a; 0x1030c910e9e9d930; 0x060a080604040e0a; 0x8198e781fefe6698;
  0xf00b5bf0a0a0ab0b; 0x44ccf0447878b4cc; 0xbad54aba2525f0d5; 0xe33e96e34b4b753e;
  0xf30e5ff3a2a2ac0e; 0xfe19bafe5d5d4419; 0xc05b1bc08080db5b; 0x8a850a8a05058085;
  0xadec7ead3f3fd3ec; 0xbcdf42bc2121fedf; 0x48d8e0487070a8d8; 0x040cf904f1f1fd0c;
  0xdf7ac6df6363197a; 0xc158eec177772f58; 0x759f4575afaf309f; 0x63a584634242e7a5;
  0x3050403020207050; 0x1a2ed11ae5e5cb2e; 0x0e12e10efdfdef12; 0x6db7656dbfbf08b7;
  0x4cd4194c818155d4; 0x143c30141818243c; 0x355f4c352626795f; 0x2f719d2fc3c3b271;
  0xe13867e1bebe8638; 0xa2fd6aa23535c8fd; 0xcc4f0bcc8888c74f; 0x394b5c392e2e654b;
  0x57f93d5793936af9; 0xf20daaf25555580d; 0x829de382fcfc619d; 0x47c9f4477a7ab3c9;
  0xacef8bacc8c827ef; 0xe7326fe7baba8832; 0x2b7d642b32324f7d; 0x95a4d795e6e642a4;
  0xa0fb9ba0c0c03bfb; 0x98b332981919aab3; 0xd16827d19e9ef668; 0x7f815d7fa3a32281;
  0x66aa88664444eeaa; 0x7e82a87e5454d682; 0xabe676ab3b3bdde6; 0x839e16830b0b959e;
  0xca4503ca8c8cc945; 0x297b9529c7c7bc7b; 0xd36ed6d36b6b056e; 0x3c44503c28286c44;
  0x798b5579a7a72c8b; 0xe23d63e2bcbc813d; 0x1d272c1d16163127; 0x769a4176adad379a;
  0x3b4dad3bdbdb964d; 0x56fac85664649efa; 0x4ed2e84e7474a6d2; 0x1e22281e14143622;
  0xdb763fdb9292e476; 0x0a1e180a0c0c121e; 0x6cb4906c4848fcb4; 0xe4376be4b8b88f37;
  0x5de7255d9f9f78e7; 0x6eb2616ebdbd0fb2; 0xef2a86ef4343692a; 0xa6f193a6c4c435f1;
  0xa8e372a83939dae3; 0xa4f762a43131c6f7; 0x3759bd37d3d38a59; 0x8b86ff8bf2f27486;
  0x3256b132d5d58356; 0x43c50d438b8b4ec5; 0x59ebdc596e6e85eb; 0xb7c2afb7dada18c2;
  0x8c8f028c01018e8f; 0x64ac7964b1b11dac; 0xd26d23d29c9cf16d; 0xe03b92e04949723b;
  0xb4c7abb4d8d81fc7; 0xfa1543faacacb915; 0x0709fd07f3f3fa09; 0x256f8525cfcfa06f;
  0xafea8fafcaca20ea; 0x8e89f38ef4f47d89; 0xe9208ee947476720; 0x1828201810103828;
  0xd564ded56f6f0b64; 0x8883fb88f0f07383; 0x6fb1946f4a4afbb1; 0x7296b8725c5cca96;
  0x246c70243838546c; 0xf108aef157575f08; 0xc752e6c773732152; 0x51f33551979764f3;
  0x23658d23cbcbae65; 0x7c84597ca1a12584; 0x9cbfcb9ce8e857bf; 0x21637c213e3e5d63;
  0xdd7c37dd9696ea7c; 0xdc7fc2dc61611e7f; 0x86911a860d0d9c91; 0x85941e850f0f9b94;
  0x90abdb90e0e04bab; 0x42c6f8427c7cbac6; 0xc457e2c471712657; 0xaae583aacccc29e5;
  0xd8733bd89090e373; 0x050f0c050606090f; 0x0103f501f7f7f403; 0x123638121c1c2a36;
  0xa3fe9fa3c2c23cfe; 0x5fe1d45f6a6a8be1; 0xf91047f9aeaebe10; 0xd06bd2d06969026b;
  0x91a82e911717bfa8; 0x58e82958999971e8; 0x276974273a3a5369; 0xb9d04eb92727f7d0;
  0x3848a938d9d99148; 0x1335cd13ebebde35; 0xb3ce56b32b2be5ce; 0x3355443322227755;
  0xbbd6bfbbd2d204d6; 0x70904970a9a93990; 0x89800e8907078780; 0xa7f266a73333c1f2;
  0xb6c15ab62d2decc1; 0x226678223c3c5a66; 0x92ad2a921515b8ad; 0x20608920c9c9a960;
  0x49db154987875cdb; 0xff1a4fffaaaab01a; 0x7888a0785050d888; 0x7a8e517aa5a52b8e;
  0x8f8a068f0303898a; 0xf813b2f859594a13; 0x809b12800909929b; 0x173934171a1a2339;
  0xda75cada65651075; 0x3153b531d7d78453; 0xc65113c68484d551; 0xb8d3bbb8d0d003d3;
  0xc35e1fc38282dc5e; 0xb0cb52b02929e2cb; 0x7799b4775a5ac399; 0x11333c111e1e2d33;
  0xcb46f6cb7b7b3d46; 0xfc1f4bfca8a8b71f; 0xd661dad66d6d0c61; 0x3a4e583a2c2c624e ].

Definition T6 : list Z := map C64e [
  0xf4a5f497a5c6c632; 0x978497eb84f8f86f; 0xb099b0c799eeee5e; 0x8c8d8cf78df6f67a;
  0x170d17e50dffffe8; 0xdcbddcb7bdd6d60a; 0xc8b1c8a7b1dede16; 0xfc54fc395491916d;
  0xf050f0c050606090; 0x0503050403020207; 0xe0a9e087a9cece2e; 0x877d87ac7d5656d1;
  0x2b192bd519e7e7cc; 0xa662a67162b5b513; 0x31e6319ae64d4d7c; 0xb59ab5c39aecec59;
  0xcf45cf05458f8f40; 0xbc9dbc3e9d1f1fa3; 0xc040c00940898949; 0x928792ef87fafa68;
  0x3f153fc515efefd0; 0x26eb267febb2b294; 0x40c94007c98e8ece; 0x1d0b1ded0bfbfbe6;
  0x2fec2f82ec41416e; 0xa967a97d67b3b31a; 0x1cfd1cbefd5f5f43; 0x25ea258aea454560;
  0xdabfda46bf2323f9; 0x02f702a6f7535351; 0xa196a1d396e4e445; 0xed5bed2d5b9b9b76;
  0x5dc25deac2757528; 0x241c24d91ce1e1c5; 0xe9aee97aae3d3dd4; 0xbe6abe986a4c4cf2;
  0xee5aeed85a6c6c82; 0xc341c3fc417e7ebd; 0x060206f102f5f5f3; 0xd14fd11d4f838352;
  0xe45ce4d05c68688c; 0x07f407a2f4515156; 0x5c345cb934d1d18d; 0x180818e908f9f9e1;
  0xae93aedf93e2e24c; 0x9573954d73abab3e; 0xf553f5c453626297; 0x413f41543f2a2a6b;
  0x140c14100c08081c; 0xf652f63152959563; 0xaf65af8c654646e9; 0xe25ee2215e9d9d7f;
  0x7828786028303048; 0xf8a1f86ea13737cf; 0x110f11140f0a0a1b; 0xc4b5c45eb52f2feb;
  0x1b091b1c090e0e15; 0x5a365a483624247e; 0xb69bb6369b1b1bad; 0x473d47a53ddfdf98;
  0x6a266a8126cdcda7; 0xbb69bb9c694e4ef5; 0x4ccd4cfecd7f7f33; 0xba9fbacf9feaea50;
  0x2d1b2d241b12123f; 0xb99eb93a9e1d1da4; 0x9c749cb0745858c4; 0x722e72682e343446;
  0x772d776c2d363641; 0xcdb2cda3b2dcdc11; 0x29ee2973eeb4b49d; 0x16fb16b6fb5b5b4d;
  0x01f60153f6a4a4a5; 0xd74dd7ec4d7676a1; 0xa361a37561b7b714; 0x49ce49face7d7d34;
  0x8d7b8da47b5252df; 0x423e42a13edddd9f; 0x937193bc715e5ecd; 0xa297a226971313b1;
  0x04f50457f5a6a6a2; 0xb868b86968b9b901; 0x0000000000000000; 0x742c74992cc1c1b5;
  0xa060a080604040e0; 0x211f21dd1fe3e3c2; 0x43c843f2c879793a; 0x2ced2c77edb6b69a;
  0xd9bed9b3bed4d40d; 0xca46ca01468d8d47; 0x70d970ced9676717; 0xdd4bdde44b7272af;
  0x79de7933de9494ed; 0x67d4672bd49898ff; 0x23e8237be8b0b093; 0xde4ade114a85855b;
  0xbd6bbd6d6bbbbb06; 0x7e2a7e912ac5c5bb; 0x34e5349ee54f4f7b; 0x3a163ac116ededd7;
  0x54c55417c58686d2; 0x62d7622fd79a9af8; 0xff55ffcc55666699; 0xa794a722941111b6;
  0x4acf4a0fcf8a8ac0; 0x301030c910e9e9d9; 0x0a060a080604040e; 0x988198e781fefe66;
  0x0bf00b5bf0a0a0ab; 0xcc44ccf0447878b4; 0xd5bad54aba2525f0; 0x3ee33e96e34b4b75;
  0x0ef30e5ff3a2a2ac; 0x19fe19bafe5d5d44; 0x5bc05b1bc08080db; 0x858a850a8a050580;
  0xecadec7ead3f3fd3; 0xdfbcdf42bc2121fe; 0xd848d8e0487070a8; 0x0c040cf904f1f1fd;
  0x7adf7ac6df636319; 0x58c158eec177772f; 0x9f759f4575afaf30; 0xa563a584634242e7;
  0x5030504030202070; 0x2e1a2ed11ae5e5cb; 0x120e12e10efdfdef; 0xb76db7656dbfbf08;
  0xd44cd4194c818155; 0x3c143c3014181824; 0x5f355f4c35262679; 0x712f719d2fc3c3b2;
  0x38e13867e1bebe86; 0xfda2fd6aa23535c8; 0x4fcc4f0bcc8888c7; 0x4b394b5c392e2e65;
  0xf957f93d5793936a; 0x0df20daaf2555558; 0x9d829de382fcfc61; 0xc947c9f4477a7ab3;
  0xefacef8bacc8c827; 0x32e7326fe7baba88; 0x7d2b7d642b32324f; 0xa495a4d795e6e642;
  0xfba0fb9ba0c0c03b; 0xb398b332981919aa; 0x68d16827d19e9ef6; 0x817f815d7fa3a322;
  0xaa66aa88664444ee; 0x827e82a87e5454d6; 0xe6abe676ab3b3bdd; 0x9e839e16830b0b95;
  0x45ca4503ca8c8cc9; 0x7b297b9529c7c7bc; 0x6ed36ed6d36b6b05; 0x443c44503c28286c;
  0x8b798b5579a7a72c; 0x3de23d63e2bcbc81; 0x271d272c1d161631; 0x9a769a4176adad37;
  0x4d3b4dad3bdbdb96; 0xfa56fac85664649e; 0xd24ed2e84e7474a6; 0x221e22281e141436;
  0x76db763fdb9292e4; 0x1e0a1e180a0c0c12; 0xb46cb4906c4848fc; 0x37e4376be4b8b88f;
  0xe75de7255d9f9f78; 0xb26eb2616ebdbd0f; 0x2aef2a86ef434369; 0xf1a6f193a6c4c435;
  0xe3a8e372a83939da; 0xf7a4f762a43131c6; 0x593759bd37d3d38a; 0x868b86ff8bf2f274;
  0x563256b132d5d583; 0xc543c50d438b8b4e; 0xeb59ebdc596e6e85; 0xc2b7c2afb7dada18;
  0x8f8c8f028c01018e; 0xac64ac7964b1b11d; 0x6dd26d23d29c9cf1; 0x3be03b92e0494972;
  0xc7b4c7abb4d8d81f; 0x15fa1543faacacb9; 0x090709fd07f3f3fa; 0x6f256f8525cfcfa0;
  0xeaafea8fafcaca20; 0x898e89f38ef4f47d; 0x20e9208ee9474767; 0x2818282018101038;
  0x64d564ded56f6f0b; 0x838883fb88f0f073; 0xb16fb1946f4a4afb; 0x967296b8725c5cca;
  0x6c246c7024383854; 0x08f108aef157575f; 0x52c752e6c7737321; 0xf351f33551979764;
  0x6523658d23cbcbae; 0x847c84597ca1a125; 0xbf9cbfcb9ce8e857; 0x6321637c213e3e5d;
  0x7cdd7c37dd9696ea; 0x7fdc7fc2dc61611e; 0x9186911a860d0d9c; 0x9485941e850f0f9b;
  0xab90abdb90e0e04b; 0xc642c6f8427c7cba; 0x57c457e2c4717126; 0xe5aae583aacccc29;
  0x73d8733bd89090e3; 0x0f050f0c05060609; 0x030103f501f7f7f4; 0x36123638121c1c2a;
  0xfea3fe9fa3c2c23c; 0xe15fe1d45f6a6a8b; 0x10f91047f9aeaebe; 0x6bd06bd2d0696902;
  0xa891a82e911717bf; 0xe858e82958999971; 0x69276974273a3a53; 0xd0b9d04eb92727f7;
  0x483848a938d9d991; 0x351335cd13ebebde; 0xceb3ce56b32b2be5; 0x5533554433222277;
  0xd6bbd6bfbbd2d204; 0x9070904970a9a939; 0x8089800e89070787; 0xf2a7f266a73333c1;
  0xc1b6c15ab62d2dec; 0x66226678223c3c5a; 0xad92ad2a921515b8; 0x6020608920c9c9a9;
  0xdb49db154987875c; 0x1aff1a4fffaaaab0; 0x887888a0785050d8; 0x8e7a8e517aa5a52b;
  0x8a8f8a068f030389; 0x13f813b2f859594a; 0x9b809b1280090992; 0x39173934171a1a23;
  0x75da75cada656510; 0x533153b531d7d784; 0x51c65113c68484d5; 0xd3b8d3bbb8d0d003;
  0x5ec35e1fc38282dc; 0xcbb0cb52b02929e2; 0x997799b4775a5ac3; 0x3311333c111e1e2d;
  0x46cb46f6cb7b7b3d; 0x1ffc1f4bfca8a8b7; 0x61d661dad66d6d0c; 0x4e3a4e583a2c2c62 ].

Definition T7 : list Z := map C64e [
  0x32f4a5f497a5c6c6; 0x6f978497eb84f8f8; 0x5eb099b0c799eeee; 0x7a8c8d8cf78df6f6;
  0xe8170d17e50dffff; 0x0adcbddcb7bdd6d6; 0x16c8b1c8a7b1dede; 0x6dfc54fc39549191;
  0x90f050f0c0506060; 0x0705030504030202; 0x2ee0a9e087a9cece; 0xd1877d87ac7d5656;
  0xcc2b192bd519e7e7; 0x13a662a67162b5b5; 0x7c31e6319ae64d4d; 0x59b59ab5c39aecec;
  0x40cf45cf05458f8f; 0xa3bc9dbc3e9d1f1f; 0x49c040c009408989; 0x68928792ef87fafa;
  0xd03f153fc515efef; 0x9426eb267febb2b2; 0xce40c94007c98e8e; 0xe61d0b1ded0bfbfb;
  0x6e2fec2f82ec4141; 0x1aa967a97d67b3b3; 0x431cfd1cbefd5f5f; 0x6025ea258aea4545;
  0xf9dabfda46bf2323; 0x5102f702a6f75353; 0x45a196a1d396e4e4; 0x76ed5bed2d5b9b9b;
  0x285dc25deac27575; 0xc5241c24d91ce1e1; 0xd4e9aee97aae3d3d; 0xf2be6abe986a4c4c;
  0x82ee5aeed85a6c6c; 0xbdc341c3fc417e7e; 0xf3060206f102f5f5; 0x52d14fd11d4f8383;
  0x8ce45ce4d05c6868; 0x5607f407a2f45151; 0x8d5c345cb934d1d1; 0xe1180818e908f9f9;
  0x4cae93aedf93e2e2; 0x3e9573954d73abab; 0x97f553f5c4536262; 0x6b413f41543f2a2a;
  0x1c140c14100c0808; 0x63f652f631529595; 0xe9af65af8c654646; 0x7fe25ee2215e9d9d;
  0x4878287860283030; 0xcff8a1f86ea13737; 0x1b110f11140f0a0a; 0xebc4b5c45eb52f2f;
  0x151b091b1c090e0e; 0x7e5a365a48362424; 0xadb69bb6369b1b1b; 0x98473d47a53ddfdf;
  0xa76a266a8126cdcd; 0xf5bb69bb9c694e4e; 0x334ccd4cfecd7f7f; 0x50ba9fbacf9feaea;
  0x3f2d1b2d241b1212; 0xa4b99eb93a9e1d1d; 0xc49c749cb0745858; 0x46722e72682e3434;
  0x41772d776c2d3636; 0x11cdb2cda3b2dcdc; 0x9d29ee2973eeb4b4; 0x4d16fb16b6fb5b5b;
  0xa501f60153f6a4a4; 0xa1d74dd7ec4d7676; 0x14a361a37561b7b7; 0x3449ce49face7d7d;
  0xdf8d7b8da47b5252; 0x9f423e42a13edddd; 0xcd937193bc715e5e; 0xb1a297a226971313;
  0xa204f50457f5a6a6; 0x01b868b86968b9b9; 0x0000000000000000; 0xb5742c74992cc1c1;
  0xe0a060a080604040; 0xc2211f21dd1fe3e3; 0x3a43c843f2c87979; 0x9a2ced2c77edb6b6;
  0x0dd9bed9b3bed4d4; 0x47ca46ca01468d8d; 0x1770d970ced96767; 0xafdd4bdde44b7272;
  0xed79de7933de9494; 0xff67d4672bd49898; 0x9323e8237be8b0b0; 0x5bde4ade114a8585;
  0x06bd6bbd6d6bbbbb; 0xbb7e2a7e912ac5c5; 0x7b34e5349ee54f4f; 0xd73a163ac116eded;
  0xd254c55417c58686; 0xf862d7622fd79a9a; 0x99ff55ffcc556666; 0xb6a794a722941111;
  0xc04acf4a0fcf8a8a; 0xd9301030c910e9e9; 0x0e0a060a08060404; 0x66988198e781fefe;
  0xab0bf00b5bf0a0a0; 0xb4cc44ccf0447878; 0xf0d5bad54aba2525; 0x753ee33e96e34b4b;
  0xac0ef30e5ff3a2a2; 0x4419fe19bafe5d5d; 0xdb5bc05b1bc08080; 0x80858a850a8a0505;
  0xd3ecadec7ead3f3f; 0xfedfbcdf42bc2121; 0xa8d848d8e0487070; 0xfd0c040cf904f1f1;
  0x197adf7ac6df6363; 0x2f58c158eec17777; 0x309f759f4575afaf; 0xe7a563a584634242;
  0x7050305040302020; 0xcb2e1a2ed11ae5e5; 0xef120e12e10efdfd; 0x08b76db7656dbfbf;
  0x55d44cd4194c8181; 0x243c143c30141818; 0x795f355f4c352626; 0xb2712f719d2fc3c3;
  0x8638e13867e1bebe; 0xc8fda2fd6aa23535; 0xc74fcc4f0bcc8888; 0x654b394b5c392e2e;
  0x6af957f93d579393; 0x580df20daaf25555; 0x619d829de382fcfc; 0xb3c947c9f4477a7a;
  0x27efacef8bacc8c8; 0x8832e7326fe7baba; 0x4f7d2b7d642b3232; 0x42a495a4d795e6e6;
  0x3bfba0fb9ba0c0c0; 0xaab398b332981919; 0xf668d16827d19e9e; 0x22817f815d7fa3a3;
  0xeeaa66aa88664444; 0xd6827e82a87e5454; 0xdde6abe676ab3b3b; 0x959e839e16830b0b;
  0xc945ca4503ca8c8c; 0xbc7b297b9529c7c7; 0x056ed36ed6d36b6b; 0x6c443c44503c2828;
  0x2c8b798b5579a7a7; 0x813de23d63e2bcbc; 0x31271d272c1d1616; 0x379a769a4176adad;
  0x964d3b4dad3bdbdb; 0x9efa56fac8566464; 0xa6d24ed2e84e7474; 0x36221e22281e1414;
  0xe476db763fdb9292; 0x121e0a1e180a0c0c; 0xfcb46cb4906c4848; 0x8f37e4376be4b8b8;
  0x78e75de7255d9f9f; 0x0fb26eb2616ebdbd; 0x692aef2a86ef4343; 0x35f1a6f193a6c4c4;
  0xdae3a8e372a83939; 0xc6f7a4f762a43131; 0x8a593759bd37d3d3; 0x74868b86ff8bf2f2;
  0x83563256b132d5d5; 0x4ec543c50d438b8b; 0x85eb59ebdc596e6e; 0x18c2b7c2afb7dada;
  0x8e8f8c8f028c0101; 0x1dac64ac7964b1b1; 0xf16dd26d23d29c9c; 0x723be03b92e04949;
  0x1fc7b4c7abb4d8d8; 0xb915fa1543faacac; 0xfa090709fd07f3f3; 0xa06f256f8525cfcf;
  0x20eaafea8fafcaca; 0x7d898e89f38ef4f4; 0x6720e9208ee94747; 0x3828182820181010;
  0x0b64d564ded56f6f; 0x73838883fb88f0f0; 0xfbb16fb1946f4a4a; 0xca967296b8725c5c;
  0x546c246c70243838; 0x5f08f108aef15757; 0x2152c752e6c77373; 0x64f351f335519797;
  0xae6523658d23cbcb; 0x25847c84597ca1a1; 0x57bf9cbfcb9ce8e8; 0x5d6321637c213e3e;
  0xea7cdd7c37dd9696; 0x1e7fdc7fc2dc6161; 0x9c9186911a860d0d; 0x9b9485941e850f0f;
  0x4bab90abdb90e0e0; 0xbac642c6f8427c7c; 0x2657c457e2c47171; 0x29e5aae583aacccc;
  0xe373d8733bd89090; 0x090f050f0c050606; 0xf4030103f501f7f7; 0x2a36123638121c1c;
  0x3cfea3fe9fa3c2c2; 0x8be15fe1d45f6a6a; 0xbe10f91047f9aeae; 0x026bd06bd2d06969;
  0xbfa891a82e911717; 0x71e858e829589999; 0x5369276974273a3a; 0xf7d0b9d04eb92727;
  0x91483848a938d9d9; 0xde351335cd13ebeb; 0xe5ceb3ce56b32b2b; 0x7755335544332222;
  0x04d6bbd6bfbbd2d2; 0x399070904970a9a9; 0x878089800e890707; 0xc1f2a7f266a73333;
  0xecc1b6c15ab62d2d; 0x5a66226678223c3c; 0xb8ad92ad2a921515; 0xa96020608920c9c9;
  0x5cdb49db15498787; 0xb01aff1a4fffaaaa; 0xd8887888a0785050; 0x2b8e7a8e517aa5a5;
  0x898a8f8a068f0303; 0x4a13f813b2f85959; 0x929b809b12800909; 0x2339173934171a1a;
  0x1075da75cada6565; 0x84533153b531d7d7; 0xd551c65113c68484; 0x03d3b8d3bbb8d0d0;
  0xdc5ec35e1fc38282; 0xe2cbb0cb52b02929; 0xc3997799b4775a5a; 0x2d3311333c111e1e;
  0x3d46cb46f6cb7b7b; 0xb71ffc1f4bfca8a8; 0x0c61d661dad66d6d; 0x624e3a4e583a2c2c ].

End GroestlTables.
