(* ===== verification/Groestl.v ===== *)
(** Model of src/src/crypto/groestl.c (contexts of sph_groestl.h) for a 64-bit
    little-endian build ([SPH_GROESTL_64], [USE_LE]). The default build uses the
    eight tables; the variants selected by [SPH_SMALL_FOOTPRINT_GROESTL], which
    rotate two tables instead, carry the suffix [_small_footprint]. Arrays are
    lists updated in the order of the source; [t] starts with arbitrary content
    (zeros here) and every entry is written before it is read. *)
From S2P Require Import Prelude SphTypes Stream GroestlTables.

Module Groestl.
Import GroestlTables.

Definition dec64e_aligned := sph_dec64le_aligned.
Definition enc64e := sph_enc64le.

Definition B64_0 (x : Z) : Z := x &: 0xFF.
Definition B64_1 (x : Z) : Z := Z.shiftr x 8 &: 0xFF.
Definition B64_2 (x : Z) : Z := Z.shiftr x 16 &: 0xFF.
Definition B64_3 (x : Z) : Z := Z.shiftr x 24 &: 0xFF.
Definition B64_4 (x : Z) : Z := Z.shiftr x 32 &: 0xFF.
Definition B64_5 (x : Z) : Z := Z.shiftr x 40 &: 0xFF.
Definition B64_6 (x : Z) : Z := Z.shiftr x 48 &: 0xFF.
Definition B64_7 (x : Z) : Z := Z.shiftr x 56.
Definition R64 (x n : Z) : Z := SPH_ROTL64 x n.
Definition PC64 (j r : Z) : Z := j + r.
Definition QC64 (j r : Z) : Z := Z.shiftl r 56 ^^ SPH_T64 (Z.lnot (Z.shiftl j 56)).

(** [T[x]] *)
Definition tbl (T : list Z) (x : Z) : Z := T.[Z.to_nat x].

(** The value that [RSTT(d, ...)] and [RBTT(d, ...)] store in [t[d]]. *)
Definition RSTT (a : list Z) (b0 b1 b2 b3 b4 b5 b6 b7 : nat) : Z :=
  tbl T0 (B64_0 a.[b0]) ^^ tbl T1 (B64_1 a.[b1]) ^^ tbl T2 (B64_2 a.[b2])
  ^^ tbl T3 (B64_3 a.[b3]) ^^ tbl T4 (B64_4 a.[b4]) ^^ tbl T5 (B64_5 a.[b5])
  ^^ tbl T6 (B64_6 a.[b6]) ^^ tbl T7 (B64_7 a.[b7]).

Definition RSTT_small_footprint (a : list Z) (b0 b1 b2 b3 b4 b5 b6 b7 : nat) : Z :=
  tbl T0 (B64_0 a.[b0]) ^^ R64 (tbl T0 (B64_1 a.[b1])) 8 ^^ R64 (tbl T0 (B64_2 a.[b2])) 16
  ^^ R64 (tbl T0 (B64_3 a.[b3])) 24 ^^ tbl T4 (B64_4 a.[b4]) ^^ R64 (tbl T4 (B64_5 a.[b5])) 8
  ^^ R64 (tbl T4 (B64_6 a.[b6])) 16 ^^ R64 (tbl T4 (B64_7 a.[b7])) 24.

Definition RBTT (a : list Z) (b0 b1 b2 b3 b4 b5 b6 b7 : nat) : Z :=
  tbl T0 (B64_0 a.[b0]) ^^ tbl T1 (B64_1 a.[b1]) ^^ tbl T2 (B64_2 a.[b2])
  ^^ tbl T3 (B64_3 a.[b3]) ^^ tbl T4 (B64_4 a.[b4]) ^^ tbl T5 (B64_5 a.[b5])
  ^^ tbl T6 (B64_6 a.[b6]) ^^ tbl T7 (B64_7 a.[b7]).

Definition RBTT_small_footprint (a : list Z) (b0 b1 b2 b3 b4 b5 b6 b7 : nat) : Z :=
  tbl T0 (B64_0 a.[b0]) ^^ R64 (tbl T0 (B64_1 a.[b1])) 8 ^^ R64 (tbl T0 (B64_2 a.[b2])) 16
  ^^ R64 (tbl T0 (B64_3 a.[b3])) 24 ^^ tbl T4 (B64_4 a.[b4]) ^^ R64 (tbl T4 (B64_5 a.[b5])) 8
  ^^ R64 (tbl T4 (B64_6 a.[b6])) 16 ^^ R64 (tbl T4 (B64_7 a.[b7])) 24.

Definition ROUND_SMALL_P (a : list Z) (r : Z) : list Z :=
  let a := a.[0 := a.[0] ^^ PC64 0x00 r] in
  let a := a.[1 := a.[1] ^^ PC64 0x10 r] in
  let a := a.[2 := a.[2] ^^ PC64 0x20 r] in
  let a := a.[3 := a.[3] ^^ PC64 0x30 r] in
  let a := a.[4 := a.[4] ^^ PC64 0x40 r] in
  let a := a.[5 := a.[5] ^^ PC64 0x50 r] in
  let a := a.[6 := a.[6] ^^ PC64 0x60 r] in
  let a := a.[7 := a.[7] ^^ PC64 0x70 r] in
  let t := repeat 0 8 in
  let t := t.[0 := RSTT a 0 1 2 3 4 5 6 7] in
  let t := t.[1 := RSTT a 1 2 3 4 5 6 7 0] in
  let t := t.[2 := RSTT a 2 3 4 5 6 7 0 1] in
  let t := t.[3 := RSTT a 3 4 5 6 7 0 1 2] in
  let t := t.[4 := RSTT a 4 5 6 7 0 1 2 3] in
  let t := t.[5 := RSTT a 5 6 7 0 1 2 3 4] in
  let t := t.[6 := RSTT a 6 7 0 1 2 3 4 5] in
  let t := t.[7 := RSTT a 7 0 1 2 3 4 5 6] in
  let a := a.[0 := t.[0]] in
  let a := a.[1 := t.[1]] in
  let a := a.[2 := t.[2]] in
  let a := a.[3 := t.[3]] in
  let a := a.[4 := t.[4]] in
  let a := a.[5 := t.[5]] in
  let a := a.[6 := t.[6]] in
  let a := a.[7 := t.[7]] in
  a.

Definition ROUND_SMALL_Q (a : list Z) (r : Z) : list Z :=
  let a := a.[0 := a.[0] ^^ QC64 0x00 r] in
  let a := a.[1 := a.[1] ^^ QC64 0x10 r] in
  let a := a.[2 := a.[2] ^^ QC64 0x20 r] in
  let a := a.[3 := a.[3] ^^ QC64 0x30 r] in
  let a := a.[4 := a.[4] ^^ QC64 0x40 r] in
  let a := a.[5 := a.[5] ^^ QC64 0x50 r] in
  let a := a.[6 := a.[6] ^^ QC64 0x60 r] in
  let a := a.[7 := a.[7] ^^ QC64 0x70 r] in
  let t := repeat 0 8 in
  let t := t.[0 := RSTT a 1 3 5 7 0 2 4 6] in
  let t := t.[1 := RSTT a 2 4 6 0 1 3 5 7] in
  let t := t.[2 := RSTT a 3 5 7 1 2 4 6 0] in
  let t := t.[3 := RSTT a 4 6 0 2 3 5 7 1] in
  let t := t.[4 := RSTT a 5 7 1 3 4 6 0 2] in
  let t := t.[5 := RSTT a 6 0 2 4 5 7 1 3] in
  let t := t.[6 := RSTT a 7 1 3 5 6 0 2 4] in
  let t := t.[7 := RSTT a 0 2 4 6 7 1 3 5] in
  let a := a.[0 := t.[0]] in
  let a := a.[1 := t.[1]] in
  let a := a.[2 := t.[2]] in
  let a := a.[3 := t.[3]] in
  let a := a.[4 := t.[4]] in
  let a := a.[5 := t.[5]] in
  let a := a.[6 := t.[6]] in
  let a := a.[7 := t.[7]] in
  a.

Definition PERM_SMALL_P_small_footprint (a : list Z) : list Z :=
  fold_left (fun a r => ROUND_SMALL_P a r) [0; 1; 2; 3; 4; 5; 6; 7; 8; 9] a.

Definition PERM_SMALL_P (a : list Z) : list Z :=
  fold_left (fun a r =>
    let a := ROUND_SMALL_P a (r + 0) in
    ROUND_SMALL_P a (r + 1)) [0; 2; 4; 6; 8] a.

Definition PERM_SMALL_Q_small_footprint (a : list Z) : list Z :=
  fold_left (fun a r => ROUND_SMALL_Q a r) [0; 1; 2; 3; 4; 5; 6; 7; 8; 9] a.

Definition PERM_SMALL_Q (a : list Z) : list Z :=
  fold_left (fun a r =>
    let a := ROUND_SMALL_Q a (r + 0) in
    ROUND_SMALL_Q a (r + 1)) [0; 2; 4; 6; 8] a.

Definition ROUND_BIG_P_small_footprint (a : list Z) (r : Z) : list Z :=
  let a := a.[0 := a.[0] ^^ PC64 0x00 r] in
  let a := a.[1 := a.[1] ^^ PC64 0x10 r] in
  let a := a.[2 := a.[2] ^^ PC64 0x20 r] in
  let a := a.[3 := a.[3] ^^ PC64 0x30 r] in
  let a := a.[4 := a.[4] ^^ PC64 0x40 r] in
  let a := a.[5 := a.[5] ^^ PC64 0x50 r] in
  let a := a.[6 := a.[6] ^^ PC64 0x60 r] in
  let a := a.[7 := a.[7] ^^ PC64 0x70 r] in
  let a := a.[8 := a.[8] ^^ PC64 0x80 r] in
  let a := a.[9 := a.[9] ^^ PC64 0x90 r] in
  let a := a.[10 := a.[10] ^^ PC64 0xA0 r] in
  let a := a.[11 := a.[11] ^^ PC64 0xB0 r] in
  let a := a.[12 := a.[12] ^^ PC64 0xC0 r] in
  let a := a.[13 := a.[13] ^^ PC64 0xD0 r] in
  let a := a.[14 := a.[14] ^^ PC64 0xE0 r] in
  let a := a.[15 := a.[15] ^^ PC64 0xF0 r] in
  let t := fold_left (fun t u =>
    let t := t.[(u + 0) := RBTT_small_footprint a (u + 0) (Nat.land (u + 1) 0xF) (Nat.land (u + 2) 0xF) (Nat.land (u + 3) 0xF) (Nat.land (u + 4) 0xF) (Nat.land (u + 5) 0xF) (Nat.land (u + 6) 0xF) (Nat.land (u + 11) 0xF)] in
    let t := t.[(u + 1) := RBTT_small_footprint a (u + 1) (Nat.land (u + 2) 0xF) (Nat.land (u + 3) 0xF) (Nat.land (u + 4) 0xF) (Nat.land (u + 5) 0xF) (Nat.land (u + 6) 0xF) (Nat.land (u + 7) 0xF) (Nat.land (u + 12) 0xF)] in
    let t := t.[(u + 2) := RBTT_small_footprint a (u + 2) (Nat.land (u + 3) 0xF) (Nat.land (u + 4) 0xF) (Nat.land (u + 5) 0xF) (Nat.land (u + 6) 0xF) (Nat.land (u + 7) 0xF) (Nat.land (u + 8) 0xF) (Nat.land (u + 13) 0xF)] in
    let t := t.[(u + 3) := RBTT_small_footprint a (u + 3) (Nat.land (u + 4) 0xF) (Nat.land (u + 5) 0xF) (Nat.land (u + 6) 0xF) (Nat.land (u + 7) 0xF) (Nat.land (u + 8) 0xF) (Nat.land (u + 9) 0xF) (Nat.land (u + 14) 0xF)] in
    t) [0; 4; 8; 12]%nat (repeat 0 16) in
  t.

Definition ROUND_BIG_P (a : list Z) (r : Z) : list Z :=
  let a := a.[0 := a.[0] ^^ PC64 0x00 r] in
  let a := a.[1 := a.[1] ^^ PC64 0x10 r] in
  let a := a.[2 := a.[2] ^^ PC64 0x20 r] in
  let a := a.[3 := a.[3] ^^ PC64 0x30 r] in
  let a := a.[4 := a.[4] ^^ PC64 0x40 r] in
  let a := a.[5 := a.[5] ^^ PC64 0x50 r] in
  let a := a.[6 := a.[6] ^^ PC64 0x60 r] in
  let a := a.[7 := a.[7] ^^ PC64 0x70 r] in
  let a := a.[8 := a.[8] ^^ PC64 0x80 r] in
  let a := a.[9 := a.[9] ^^ PC64 0x90 r] in
  let a := a.[10 := a.[10] ^^ PC64 0xA0 r] in
  let a := a.[11 := a.[11] ^^ PC64 0xB0 r] in
  let a := a.[12 := a.[12] ^^ PC64 0xC0 r] in
  let a := a.[13 := a.[13] ^^ PC64 0xD0 r] in
  let a := a.[14 := a.[14] ^^ PC64 0xE0 r] in
  let a := a.[15 := a.[15] ^^ PC64 0xF0 r] in
  let t := repeat 0 16 in
  let t := t.[0 := RBTT a 0 1 2 3 4 5 6 11] in
  let t := t.[1 := RBTT a 1 2 3 4 5 6 7 12] in
  let t := t.[2 := RBTT a 2 3 4 5 6 7 8 13] in
  let t := t.[3 := RBTT a 3 4 5 6 7 8 9 14] in
  let t := t.[4 := RBTT a 4 5 6 7 8 9 10 15] in
  let t := t.[5 := RBTT a 5 6 7 8 9 10 11 0] in
  let t := t.[6 := RBTT a 6 7 8 9 10 11 12 1] in
  let t := t.[7 := RBTT a 7 8 9 10 11 12 13 2] in
  let t := t.[8 := RBTT a 8 9 10 11 12 13 14 3] in
  let t := t.[9 := RBTT a 9 10 11 12 13 14 15 4] in
  let t := t.[10 := RBTT a 10 11 12 13 14 15 0 5] in
  let t := t.[11 := RBTT a 11 12 13 14 15 0 1 6] in
  let t := t.[12 := RBTT a 12 13 14 15 0 1 2 7] in
  let t := t.[13 := RBTT a 13 14 15 0 1 2 3 8] in
  let t := t.[14 := RBTT a 14 15 0 1 2 3 4 9] in
  let t := t.[15 := RBTT a 15 0 1 2 3 4 5 10] in
  let a := a.[0 := t.[0]] in
  let a := a.[1 := t.[1]] in
  let a := a.[2 := t.[2]] in
  let a := a.[3 := t.[3]] in
  let a := a.[4 := t.[4]] in
  let a := a.[5 := t.[5]] in
  let a := a.[6 := t.[6]] in
  let a := a.[7 := t.[7]] in
  let a := a.[8 := t.[8]] in
  let a := a.[9 := t.[9]] in
  let a := a.[10 := t.[10]] in
  let a := a.[11 := t.[11]] in
  let a := a.[12 := t.[12]] in
  let a := a.[13 := t.[13]] in
  let a := a.[14 := t.[14]] in
  let a := a.[15 := t.[15]] in
  a.

Definition ROUND_BIG_Q_small_footprint (a : list Z) (r : Z) : list Z :=
  let a := a.[0 := a.[0] ^^ QC64 0x00 r] in
  let a := a.[1 := a.[1] ^^ QC64 0x10 r] in
  let a := a.[2 := a.[2] ^^ QC64 0x20 r] in
  let a := a.[3 := a.[3] ^^ QC64 0x30 r] in
  let a := a.[4 := a.[4] ^^ QC64 0x40 r] in
  let a := a.[5 := a.[5] ^^ QC64 0x50 r] in
  let a := a.[6 := a.[6] ^^ QC64 0x60 r] in
  let a := a.[7 := a.[7] ^^ QC64 0x70 r] in
  let a := a.[8 := a.[8] ^^ QC64 0x80 r] in
  let a := a.[9 := a.[9] ^^ QC64 0x90 r] in
  let a := a.[10 := a.[10] ^^ QC64 0xA0 r] in
  let a := a.[11 := a.[11] ^^ QC64 0xB0 r] in
  let a := a.[12 := a.[12] ^^ QC64 0xC0 r] in
  let a := a.[13 := a.[13] ^^ QC64 0xD0 r] in
  let a := a.[14 := a.[14] ^^ QC64 0xE0 r] in
  let a := a.[15 := a.[15] ^^ QC64 0xF0 r] in
  let t := fold_left (fun t u =>
    let t := t.[(u + 0) := RBTT_small_footprint a (Nat.land (u + 1) 0xF) (Nat.land (u + 3) 0xF) (Nat.land (u + 5) 0xF) (Nat.land (u + 11) 0xF) (Nat.land (u + 0) 0xF) (Nat.land (u + 2) 0xF) (Nat.land (u + 4) 0xF) (Nat.land (u + 6) 0xF)] in
    let t := t.[(u + 1) := RBTT_small_footprint a (Nat.land (u + 2) 0xF) (Nat.land (u + 4) 0xF) (Nat.land (u + 6) 0xF) (Nat.land (u + 12) 0xF) (Nat.land (u + 1) 0xF) (Nat.land (u + 3) 0xF) (Nat.land (u + 5) 0xF) (Nat.land (u + 7) 0xF)] in
    let t := t.[(u + 2) := RBTT_small_footprint a (Nat.land (u + 3) 0xF) (Nat.land (u + 5) 0xF) (Nat.land (u + 7) 0xF) (Nat.land (u + 13) 0xF) (Nat.land (u + 2) 0xF) (Nat.land (u + 4) 0xF) (Nat.land (u + 6) 0xF) (Nat.land (u + 8) 0xF)] in
    let t := t.[(u + 3) := RBTT_small_footprint a (Nat.land (u + 4) 0xF) (Nat.land (u + 6) 0xF) (Nat.land (u + 8) 0xF) (Nat.land (u + 14) 0xF) (Nat.land (u + 3) 0xF) (Nat.land (u + 5) 0xF) (Nat.land (u + 7) 0xF) (Nat.land (u + 9) 0xF)] in
    t) [0; 4; 8; 12]%nat (repeat 0 16) in
  t.

Definition ROUND_BIG_Q (a : list Z) (r : Z) : list Z :=
  let a := a.[0 := a.[0] ^^ QC64 0x00 r] in
  let a := a.[1 := a.[1] ^^ QC64 0x10 r] in
  let a := a.[2 := a.[2] ^^ QC64 0x20 r] in
  let a := a.[3 := a.[3] ^^ QC64 0x30 r] in
  let a := a.[4 := a.[4] ^^ QC64 0x40 r] in
  let a := a.[5 := a.[5] ^^ QC64 0x50 r] in
  let a := a.[6 := a.[6] ^^ QC64 0x60 r] in
  let a := a.[7 := a.[7] ^^ QC64 0x70 r] in
  let a := a.[8 := a.[8] ^^ QC64 0x80 r] in
  let a := a.[9 := a.[9] ^^ QC64 0x90 r] in
  let a := a.[10 := a.[10] ^^ QC64 0xA0 r] in
  let a := a.[11 := a.[11] ^^ QC64 0xB0 r] in
  let a := a.[12 := a.[12] ^^ QC64 0xC0 r] in
  let a := a.[13 := a.[13] ^^ QC64 0xD0 r] in
  let a := a.[14 := a.[14] ^^ QC64 0xE0 r] in
  let a := a.[15 := a.[15] ^^ QC64 0xF0 r] in
  let t := repeat 0 16 in
  let t := t.[0 := RBTT a 1 3 5 11 0 2 4 6] in
  let t := t.[1 := RBTT a 2 4 6 12 1 3 5 7] in
  let t := t.[2 := RBTT a 3 5 7 13 2 4 6 8] in
  let t := t.[3 := RBTT a 4 6 8 14 3 5 7 9] in
  let t := t.[4 := RBTT a 5 7 9 15 4 6 8 10] in
  let t := t.[5 := RBTT a 6 8 10 0 5 7 9 11] in
  let t := t.[6 := RBTT a 7 9 11 1 6 8 10 12] in
  let t := t.[7 := RBTT a 8 10 12 2 7 9 11 13] in
  let t := t.[8 := RBTT a 9 11 13 3 8 10 12 14] in
  let t := t.[9 := RBTT a 10 12 14 4 9 11 13 15] in
  let t := t.[10 := RBTT a 11 13 15 5 10 12 14 0] in
  let t := t.[11 := RBTT a 12 14 0 6 11 13 15 1] in
  let t := t.[12 := RBTT a 13 15 1 7 12 14 0 2] in
  let t := t.[13 := RBTT a 14 0 2 8 13 15 1 3] in
  let t := t.[14 := RBTT a 15 1 3 9 14 0 2 4] in
  let t := t.[15 := RBTT a 0 2 4 10 15 1 3 5] in
  let a := a.[0 := t.[0]] in
  let a := a.[1 := t.[1]] in
  let a := a.[2 := t.[2]] in
  let a := a.[3 := t.[3]] in
  let a := a.[4 := t.[4]] in
  let a := a.[5 := t.[5]] in
  let a := a.[6 := t.[6]] in
  let a := a.[7 := t.[7]] in
  let a := a.[8 := t.[8]] in
  let a := a.[9 := t.[9]] in
  let a := a.[10 := t.[10]] in
  let a := a.[11 := t.[11]] in
  let a := a.[12 := t.[12]] in
  let a := a.[13 := t.[13]] in
  let a := a.[14 := t.[14]] in
  let a := a.[15 := t.[15]] in
  a.

Definition PERM_BIG_P (a : list Z) : list Z :=
  fold_left (fun a r =>
    let a := ROUND_BIG_P a (r + 0) in
    ROUND_BIG_P a (r + 1)) [0; 2; 4; 6; 8; 10; 12] a.

Definition PERM_BIG_Q (a : list Z) : list Z :=
  fold_left (fun a r =>
    let a := ROUND_BIG_Q a (r + 0) in
    ROUND_BIG_Q a (r + 1)) [0; 2; 4; 6; 8; 10; 12] a.

(** The loop [for (u = 0; u < 8; u ++)] fills [m] and [g]. *)
Definition COMPRESS_SMALL (buf H : list Z) : list Z :=
  let m := map (fun u => dec64e_aligned (skipn (Nat.shiftl u 3) buf)) (seq 0 8) in
  let g := map (fun u => m.[u] ^^ H.[u]) (seq 0 8) in
  let g := PERM_SMALL_P g in
  let m := PERM_SMALL_Q m in
  map (fun u => H.[u] ^^ (g.[u] ^^ m.[u])) (seq 0 8).

Definition FINAL_SMALL (H : list Z) : list Z :=
  let x := PERM_SMALL_P H in
  map (fun u => H.[u] ^^ x.[u]) (seq 0 8).

(** The loop [for (u = 0; u < 16; u ++)] fills [m] and [g]. *)
Definition COMPRESS_BIG (buf H : list Z) : list Z :=
  let m := map (fun u => dec64e_aligned (skipn (Nat.shiftl u 3) buf)) (seq 0 16) in
  let g := map (fun u => m.[u] ^^ H.[u]) (seq 0 16) in
  let g := PERM_BIG_P g in
  let m := PERM_BIG_Q m in
  map (fun u => H.[u] ^^ (g.[u] ^^ m.[u])) (seq 0 16).

Definition FINAL_BIG (H : list Z) : list Z :=
  let x := PERM_BIG_P H in
  map (fun u => H.[u] ^^ x.[u]) (seq 0 16).

(** ** small context: [sph_groestl_small_context] *)

Record sph_groestl_small_context := {
  small_buf : list Z;
  small_ptr : nat;
  small_wide : list Z;
  small_count : Z
}.

Definition groestl_small_init (out_size : Z) : sph_groestl_small_context :=
  {| small_buf := repeat 0 64;
     small_ptr := 0;
     small_wide := repeat 0 7 ++
       [Z.shiftl (out_size &: 0xFF) 56 |: Z.shiftl (out_size &: 0xFF00) 40];
     small_count := 0 |}.

(** What the loop of [groestl_small_core] runs on a full buffer: the local copy
    [H] of the state and [sc->count]. *)
Definition groestl_small_block (st : list Z * Z) (buf : list Z) : list Z * Z :=
  let '(H, count) := st in
  (COMPRESS_SMALL buf H, SPH_T64 (count + 1)).

Definition groestl_small_core (sc : sph_groestl_small_context) (data : list Z)
  : sph_groestl_small_context :=
  let len := length data in
  if (len <? 64 - small_ptr sc)%nat then
    {| small_buf := memcpy_at (small_buf sc) (small_ptr sc) data; small_ptr := (small_ptr sc + len)%nat;
       small_wide := small_wide sc; small_count := small_count sc |}
  else
    let '(buf', ptr', (H', count')) :=
      core_loop 64 groestl_small_block len (small_buf sc) (small_ptr sc)
        (small_wide sc, small_count sc) data in
    {| small_buf := buf'; small_ptr := ptr'; small_wide := H'; small_count := count' |}.

(** The bytes [pad[0 .. pad_len - 1]] of [groestl_small_close]. *)
Definition groestl_small_pad (ptr : nat) (count ub n : Z) : list Z :=
  let z := Z.shiftr 0x80 n in
  let '(pad_len, count) :=
    if (ptr <? 56)%nat then ((64 - ptr)%nat, SPH_T64 (count + 1))
    else ((128 - ptr)%nat, SPH_T64 (count + 2)) in
  (((ub &: (- z)) |: z) &: 0xFF) :: repeat 0 (pad_len - 9) ++ sph_enc64be count.

Definition groestl_small_close (sc : sph_groestl_small_context) (ub n : Z) (out_len : nat)
  : list Z * sph_groestl_small_context :=
  let sc := groestl_small_core sc (groestl_small_pad (small_ptr sc) (small_count sc) ub n) in
  let H := FINAL_SMALL (small_wide sc) in
  let pad := flat_map (fun u => enc64e H.[u + 4]) (seq 0 4) in
  (firstn out_len (skipn (32 - out_len) pad), groestl_small_init (8 * Z.of_nat out_len)).

(** ** big context: [sph_groestl_big_context] *)

Record sph_groestl_big_context := {
  big_buf : list Z;
  big_ptr : nat;
  big_wide : list Z;
  big_count : Z
}.

Definition groestl_big_init (out_size : Z) : sph_groestl_big_context :=
  {| big_buf := repeat 0 128;
     big_ptr := 0;
     big_wide := repeat 0 15 ++
       [Z.shiftl (out_size &: 0xFF) 56 |: Z.shiftl (out_size &: 0xFF00) 40];
     big_count := 0 |}.

(** What the loop of [groestl_big_core] runs on a full buffer: the local copy
    [H] of the state and [sc->count]. *)
Definition groestl_big_block (st : list Z * Z) (buf : list Z) : list Z * Z :=
  let '(H, count) := st in
  (COMPRESS_BIG buf H, SPH_T64 (count + 1)).

Definition groestl_big_core (sc : sph_groestl_big_context) (data : list Z)
  : sph_groestl_big_context :=
  let len := length data in
  if (len <? 128 - big_ptr sc)%nat then
    {| big_buf := memcpy_at (big_buf sc) (big_ptr sc) data; big_ptr := (big_ptr sc + len)%nat;
       big_wide := big_wide sc; big_count := big_count sc |}
  else
    let '(buf', ptr', (H', count')) :=
      core_loop 128 groestl_big_block len (big_buf sc) (big_ptr sc)
        (big_wide sc, big_count sc) data in
    {| big_buf := buf'; big_ptr := ptr'; big_wide := H'; big_count := count' |}.

(** The bytes [pad[0 .. pad_len - 1]] of [groestl_big_close]. *)
Definition groestl_big_pad (ptr : nat) (count ub n : Z) : list Z :=
  let z := Z.shiftr 0x80 n in
  let '(pad_len, count) :=
    if (ptr <? 120)%nat then ((128 - ptr)%nat, SPH_T64 (count + 1))
    else ((256 - ptr)%nat, SPH_T64 (count + 2)) in
  (((ub &: (- z)) |: z) &: 0xFF) :: repeat 0 (pad_len - 9) ++ sph_enc64be count.

Definition groestl_big_close (sc : sph_groestl_big_context) (ub n : Z) (out_len : nat)
  : list Z * sph_groestl_big_context :=
  let sc := groestl_big_core sc (groestl_big_pad (big_ptr sc) (big_count sc) ub n) in
  let H := FINAL_BIG (big_wide sc) in
  let pad := flat_map (fun u => enc64e H.[u + 8]) (seq 0 8) in
  (firstn out_len (skipn (64 - out_len) pad), groestl_big_init (8 * Z.of_nat out_len)).

Definition sph_groestl224_init : sph_groestl_small_context := groestl_small_init 224.
Definition sph_groestl224 (cc : sph_groestl_small_context) (data : list Z) : sph_groestl_small_context := groestl_small_core cc data.
Definition sph_groestl224_close (cc : sph_groestl_small_context) : list Z * sph_groestl_small_context := groestl_small_close cc 0 0 28.
Definition sph_groestl224_addbits_and_close (cc : sph_groestl_small_context) (ub n : Z) : list Z * sph_groestl_small_context :=
  groestl_small_close cc ub n 28.

Definition sph_groestl256_init : sph_groestl_small_context := groestl_small_init 256.
Definition sph_groestl256 (cc : sph_groestl_small_context) (data : list Z) : sph_groestl_small_context := groestl_small_core cc data.
Definition sph_groestl256_close (cc : sph_groestl_small_context) : list Z * sph_groestl_small_context := groestl_small_close cc 0 0 32.
Definition sph_groestl256_addbits_and_close (cc : sph_groestl_small_context) (ub n : Z) : list Z * sph_groestl_small_context :=
  groestl_small_close cc ub n 32.

Definition sph_groestl384_init : sph_groestl_big_context := groestl_big_init 384.
Definition sph_groestl384 (cc : sph_groestl_big_context) (data : list Z) : sph_groestl_big_context := groestl_big_core cc data.
Definition sph_groestl384_close (cc : sph_groestl_big_context) : list Z * sph_groestl_big_context := groestl_big_close cc 0 0 48.
Definition sph_groestl384_addbits_and_close (cc : sph_groestl_big_context) (ub n : Z) : list Z * sph_groestl_big_context :=
  groestl_big_close cc ub n 48.

Definition sph_groestl512_init : sph_groestl_big_context := groestl_big_init 512.
Definition sph_groestl512 (cc : sph_groestl_big_context) (data : list Z) : sph_groestl_big_context := groestl_big_core cc data.
Definition sph_groestl512_close (cc : sph_groestl_big_context) : list Z * sph_groestl_big_context := groestl_big_close cc 0 0 64.
Definition sph_groestl512_addbits_and_close (cc : sph_groestl_big_context) (ub n : Z) : list Z * sph_groestl_big_context :=
  groestl_big_close cc ub n 64.

End Groestl.
