(* ===== verification/GroestlProofs.v ===== *)
(** Groestl: the table lookups and the unrolled rounds of groestl.c compute the
    permutations P and Q of the reference, for both state widths and for the
    small-footprint variants of the macros. *)
From S2P Require Import Prelude SphTypes GroestlTables Groestl SphSpec.
Import GroestlTables Groestl GroestlSpec.

(** * The bytes of a word *)

(** Row [i] of the column held by the word [v]. *)
Definition row (i : nat) (v : Z) : Z := uchar (Z.shiftr v (8 * Z.of_nat i)).

Lemma is_byte_row i v : is_byte (row i v).
Proof. apply word_land_r; auto with word. Qed.

Lemma row_lxor i x y : row i (x ^^ y) = row i x ^^ row i y.
Proof.
  unfold row, uchar. apply Z.bits_inj'; intros k Hk.
  rewrite !Z.land_spec, !Z.lxor_spec, !Z.land_spec, !Z.shiftr_spec, Z.lxor_spec by lia.
  now destruct (Z.testbit 255 k); rewrite ?andb_true_r, ?andb_false_r.
Qed.

Lemma B64_7_row x : word64 x -> B64_7 x = row 7 x.
Proof.
  intros Hx. unfold B64_7, row, uchar. change (8 * Z.of_nat 7) with 56. symmetry.
  change 255 with (Z.ones 8). rewrite Z.land_ones, word_mod_id; [reflexivity | | lia].
  unfold word in *. rewrite Z.shiftr_div_pow2 by lia.
  split; [apply Z.div_pos; [apply Hx | reflexivity]
        | apply Z.div_lt_upper_bound; [reflexivity | exact (proj2 Hx)]].
Qed.

Lemma row_combine l i : bytes l -> (i < length l)%nat -> row i (le_combine l) = l.[i].
Proof.
  intros Hb Hi. pose proof (le_split_combine l Hb) as E. rewrite le_split_shiftr in E.
  apply (f_equal (fun q => q.[i])) in E. now rewrite nth_map_seq in E.
Qed.

(** * The tables *)

(** Column [k] of the matrix of MixBytes times the S-box value of [x]. *)
Definition sbox_column (k : nat) (x : Z) : list Z :=
  let y := sbox x in map (fun i => gf_mul (B_entry i k) y) (seq 0 8).

Definition tables : list (list Z) := [T0; T1; T2; T3; T4; T5; T6; T7].

Lemma tables_evaluated x :
  is_byte x ->
  map (fun T => tbl T x) tables = map (fun k => le_combine (sbox_column k x)) (seq 0 8) /\
  Forall (fun k => bytes (sbox_column k x)) (seq 0 8) /\
  [tbl T1 x; tbl T2 x; tbl T3 x; tbl T5 x; tbl T6 x; tbl T7 x] =
  [R64 (tbl T0 x) 8; R64 (tbl T0 x) 16; R64 (tbl T0 x) 24;
   R64 (tbl T4 x) 8; R64 (tbl T4 x) 16; R64 (tbl T4 x) 24].
Proof.
  intros Hx.
  pose (zs_eqb := fun l l' => forallb (fun p => Z.eqb (fst p) (snd p)) (combine l l')
                              && (length l =? length l')%nat).
  assert (zs_eqb_eq : forall l l', zs_eqb l l' = true -> l = l').
  { induction l as [|a l IH]; intros [|b l'] H; try discriminate; [reflexivity|].
    unfold zs_eqb in *. cbn in H. apply andb_prop in H as [H1 H2]. apply andb_prop in H1 as [H0 H1].
    apply Z.eqb_eq in H0 as ->. f_equal. apply IH. now rewrite H1, H2. }
  pose (check := fun x =>
    zs_eqb (map (fun T => tbl T x) tables) (map (fun k => le_combine (sbox_column k x)) (seq 0 8)) &&
    forallb (fun k => forallb (wordb 8) (sbox_column k x)) (seq 0 8) &&
    zs_eqb [tbl T1 x; tbl T2 x; tbl T3 x; tbl T5 x; tbl T6 x; tbl T7 x]
      [R64 (tbl T0 x) 8; R64 (tbl T0 x) 16; R64 (tbl T0 x) 24;
       R64 (tbl T4 x) 8; R64 (tbl T4 x) 16; R64 (tbl T4 x) 24]).
  assert (Hc : check x = true).
  { apply (forallb_below 256 check); [vm_compute; reflexivity | exact Hx]. }
  unfold check in Hc. apply andb_prop in Hc as [Hc H3]. apply andb_prop in Hc as [H1 H2].
  repeat split; [now apply zs_eqb_eq | | now apply zs_eqb_eq].
  apply Forall_forall. intros k Hk. apply words_check.
  exact (proj1 (forallb_forall _ _) H2 k Hk).
Qed.

#[local] Opaque T0 T1 T2 T3 T4 T5 T6 T7 gf_mul sbox B_entry.

(** The eight table entries that the bytes of the word [x] select. *)
Definition lookups (x : Z) : list Z :=
  [tbl T0 (B64_0 x); tbl T1 (B64_1 x); tbl T2 (B64_2 x); tbl T3 (B64_3 x);
   tbl T4 (B64_4 x); tbl T5 (B64_5 x); tbl T6 (B64_6 x); tbl T7 (B64_7 x)].
Definition lookups_small (x : Z) : list Z :=
  [tbl T0 (B64_0 x); R64 (tbl T0 (B64_1 x)) 8; R64 (tbl T0 (B64_2 x)) 16;
   R64 (tbl T0 (B64_3 x)) 24; tbl T4 (B64_4 x); R64 (tbl T4 (B64_5 x)) 8;
   R64 (tbl T4 (B64_6 x)) 16; R64 (tbl T4 (B64_7 x)) 24].

Lemma lookups_spec x :
  word64 x ->
  lookups x = map (fun k => le_combine (sbox_column k (row k x))) (seq 0 8) /\
  lookups_small x = lookups x.
Proof.
  intros Hx. unfold lookups, lookups_small. rewrite !(B64_7_row x Hx).
  change (B64_0 x) with (row 0 x). change (B64_1 x) with (row 1 x).
  change (B64_2 x) with (row 2 x). change (B64_3 x) with (row 3 x).
  change (B64_4 x) with (row 4 x). change (B64_5 x) with (row 5 x).
  change (B64_6 x) with (row 6 x).
  assert (T : forall i, _) by (intros i; exact (tables_evaluated _ (is_byte_row i x))).
  split.
  - unfold tables in T. cbn [map seq] in *.
    repeat (apply f_equal2;
      [match goal with |- tbl _ (row ?k _) = _ =>
         destruct (T k) as [E _]; clear T; congruence end|]). reflexivity.
  - repeat (apply f_equal2;
      [match goal with |- _ = tbl _ (row ?k _) =>
         destruct (T k) as (_ & _ & E); clear T; congruence end|]). reflexivity.
Qed.

Definition xor_lookups (L : Z -> list Z) (a : list Z) (b : list nat) : Z :=
  fold_left (fun acc k => acc ^^ (L a.[nth k b 0%nat]).[k]) (seq 1 7) (L a.[nth 0 b 0%nat]).[0].

Lemma xor_lookups_small a b :
  Forall (word 64) a -> xor_lookups lookups_small a b = xor_lookups lookups a b.
Proof.
  intros Ha. assert (Hw : forall i, lookups_small a.[i] = lookups a.[i])
    by (intros; apply lookups_spec, Forall_nth_default; auto with word).
  unfold xor_lookups. rewrite Hw. apply fold_left_ext_in. intros; now rewrite Hw.
Qed.

(** The small-footprint macros rotate two tables instead of using eight. *)
Lemma RBTT_small_footprint_eq a b0 b1 b2 b3 b4 b5 b6 b7 :
  Forall (word 64) a ->
  RBTT_small_footprint a b0 b1 b2 b3 b4 b5 b6 b7 = RBTT a b0 b1 b2 b3 b4 b5 b6 b7 /\
  RSTT_small_footprint a b0 b1 b2 b3 b4 b5 b6 b7 = RSTT a b0 b1 b2 b3 b4 b5 b6 b7.
Proof.
  intros Ha. set (b := [b0; b1; b2; b3; b4; b5; b6; b7]).
  pose proof (xor_lookups_small a b Ha) as E.
  unfold xor_lookups, lookups, lookups_small, b in E. cbn [fold_left seq nth] in E.
  split; exact E.
Qed.

(** * One column of a round *)

Lemma zipw_map f g h (l : list nat) :
  zipw f (map g l) (map h l) = map (fun i => f (g i) (h i)) l.
Proof. induction l as [|x l IH]; cbn [map zipw]; [reflexivity | now rewrite IH]. Qed.

Lemma bytes_sbox_column k x : (k < 8)%nat -> is_byte x -> bytes (sbox_column k x).
Proof.
  intros Hk Hx. destruct (tables_evaluated x Hx) as (_ & H & _).
  rewrite Forall_forall in H. apply H, in_seq; lia.
Qed.

(** The columns selected by [b], before MixBytes. *)
Definition gathered (a : list Z) (b : list nat) : list Z :=
  map (fun k => sbox (row k a.[nth k b 0%nat])) (seq 0 8).

Lemma xor_columns a b n :
  (n < 8)%nat -> Forall (word 64) a ->
  let partial i := fold_left (fun acc k => acc ^^ gf_mul (B_entry i k) (gathered a b).[k]) (seq 0 (S n)) 0 in
  bytes (map partial (seq 0 8)) /\
  fold_left (fun acc k => acc ^^ (lookups a.[nth k b 0%nat]).[k]) (seq 1 n) (lookups a.[nth 0 b 0%nat]).[0]
  = le_combine (map partial (seq 0 8)).
Proof.
  intros Hn Ha.
  assert (Hw : forall i, word64 a.[i]) by (intros; apply Forall_nth_default; auto with word).
  assert (Hl : forall k, (k < 8)%nat ->
    (lookups a.[nth k b 0%nat]).[k] = le_combine (map (fun i => gf_mul (B_entry i k) (gathered a b).[k]) (seq 0 8))).
  { intros k Hk. rewrite (proj1 (lookups_spec _ (Hw _))), nth_map_seq by assumption.
    unfold gathered. now rewrite nth_map_seq. }
  assert (Hb : forall k, (k < 8)%nat ->
    bytes (map (fun i => gf_mul (B_entry i k) (gathered a b).[k]) (seq 0 8))).
  { intros k Hk. unfold gathered. rewrite nth_map_seq by assumption.
    apply bytes_sbox_column; [assumption | apply is_byte_row]. }
  induction n as [|n IH].
  - cbn [seq fold_left]. rewrite (Hl 0%nat) by lia.
    split; [exact (Hb 0%nat ltac:(lia)) | reflexivity].
  - destruct IH as [IHb IHe]; [lia|]. cbv zeta. rewrite !(seq_S n), fold_left_app, IHe.
    cbn [fold_left Nat.add].
    rewrite (Hl (S n)), le_combine_lxor, zipw_map by (auto; lia).
    assert (E : forall i, fold_left (fun acc k => acc ^^ gf_mul (B_entry i k) (gathered a b).[k]) (seq 0 (S (S n))) 0
      = fold_left (fun acc k => acc ^^ gf_mul (B_entry i k) (gathered a b).[k]) (seq 0 (S n)) 0
        ^^ gf_mul (B_entry i (S n)) (gathered a b).[S n])
      by (intros i; rewrite (seq_S (S n)), fold_left_app; reflexivity).
    split; [|f_equal; apply map_ext; intros; now rewrite E].
    rewrite (map_ext _ _ E), <- zipw_map.
    apply bytes_zipw; [auto with word | assumption | apply Hb; lia].
Qed.

(** A table row of the code is the reference's column of MixBytes. *)
Lemma xor_lookups_spec a b :
  Forall (word 64) a ->
  word64 (xor_lookups lookups a b) /\
  forall i, (i < 8)%nat -> row i (xor_lookups lookups a b) = mix_column (gathered a b) i.
Proof.
  intros Ha. destruct (xor_columns a b 7 ltac:(lia) Ha) as [Hb He].
  unfold xor_lookups. rewrite He. set (l := map _ (seq 0 8)) in *.
  split; [exact (le_combine_bound l Hb)|].
  intros i Hi. rewrite row_combine by (subst l; autorewrite with lens; assumption).
  unfold l. now rewrite nth_map_seq.
Qed.

(** * Matrices *)

Lemma mat_ext n f g :
  (forall j i, (j < n)%nat -> (i < 8)%nat -> f j i = g j i) -> mat n f = mat n g.
Proof.
  intros H. apply map_ext_in; intros j Hj. apply map_ext_in; intros i Hi.
  apply in_seq in Hj, Hi. apply H; lia.
Qed.

Lemma nth_mat n f j : (j < n)%nat -> nth j (mat n f) [] = map (f j) (seq 0 8).
Proof. intros Hj. unfold mat. now rewrite nth_map_seq. Qed.

Lemma get_mat n f j i : (j < n)%nat -> (i < 8)%nat -> get (mat n f) j i = f j i.
Proof. intros Hj Hi. unfold get. now rewrite nth_mat, nth_map_seq by assumption. Qed.

(** The matrix held by [n] words, one column per word. *)
Definition cols (n : nat) (a : list Z) : list (list Z) := mat n (fun j i => row i a.[j]).

Definition state_ok (n : nat) (a : list Z) : Prop := length a = n /\ Forall (word 64) a.

Lemma state_ok_map n (f : nat -> Z) :
  (forall j, (j < n)%nat -> word64 (f j)) -> state_ok n (map f (seq 0 n)).
Proof.
  intros H. split; [now autorewrite with lens|].
  apply Forall_map, Forall_forall. intros j Hj. apply in_seq in Hj. apply H; lia.
Qed.

Lemma state_nth n a j : state_ok n a -> word64 a.[j].
Proof. intros [_ H]. apply Forall_nth_default; auto with word. Qed.

Lemma cols_xor n a b :
  cols n (map (fun j => a.[j] ^^ b.[j]) (seq 0 n)) = xor_mat n (cols n a) (cols n b).
Proof.
  apply mat_ext; intros j i Hj Hi. unfold cols.
  now rewrite nth_map_seq, !get_mat, row_lxor by assumption.
Qed.

(** * The rounds *)

(** What one round of the code does to [n] words, with the constants [C] and
    the shifts [sigma]. *)
Definition word_round (n : nat) (C : nat -> Z) (sigma : list nat) (a : list Z) : list Z :=
  let a' := map (fun j => a.[j] ^^ C j) (seq 0 n) in
  map (fun j => xor_lookups lookups a' (map (fun k => ((j + nth k sigma 0) mod n)%nat) (seq 0 8)))
    (seq 0 n).

Lemma word_round_spec n c C sigma r a :
  (0 < n)%nat -> state_ok n a ->
  (forall j, (j < n)%nat -> word64 (C j)) ->
  (forall j i, (j < n)%nat -> (i < 8)%nat -> row i (C j) = c r j i) ->
  state_ok n (word_round n C sigma a) /\
  cols n (word_round n C sigma a) = round n c sigma r (cols n a).
Proof.
  intros Hn Ha HC Hc. unfold word_round. set (a' := map (fun j => a.[j] ^^ C j) (seq 0 n)).
  assert (Ha' : state_ok n a').
  { apply state_ok_map. intros j Hj. apply word_lxor; [lia | eapply state_nth; eassumption | auto]. }
  split; [apply state_ok_map; intros; apply xor_lookups_spec, Ha'|].
  apply mat_ext; intros j i Hj Hi. rewrite nth_map_seq by assumption.
  rewrite (proj2 (xor_lookups_spec a' _ (proj2 Ha')) i Hi).
  unfold ShiftBytes, SubBytes, AddRoundConstant. rewrite nth_mat by assumption. f_equal.
  apply map_ext_in. intros k Hk. apply in_seq in Hk.
  pose proof (Nat.mod_upper_bound (j + nth k sigma 0%nat) n ltac:(lia)).
  rewrite (nth_map_seq (fun k => ((j + nth k sigma 0) mod n)%nat)) by lia.
  unfold cols. rewrite !get_mat by lia. f_equal. unfold a'.
  rewrite nth_map_seq, row_lxor by lia. f_equal. apply Hc; lia.
Qed.

(** A family of constants, checked against the reference for every round and
    column by evaluation. *)
Lemma constants_check (K : Z -> Z -> Z) (c : Z -> nat -> nat -> Z) :
  forallb (fun r => forallb (fun j =>
    wordb 64 (K (16 * Z.of_nat j) r) &&
    forallb (fun i => row i (K (16 * Z.of_nat j) r) =? c r j i) (seq 0 8)) (seq 0 16))
    (map Z.of_nat (seq 0 14)) = true ->
  forall r j, 0 <= r < 14 -> (j < 16)%nat ->
  word64 (K (16 * Z.of_nat j) r) /\
  forall i, (i < 8)%nat -> row i (K (16 * Z.of_nat j) r) = c r j i.
Proof.
  intros Hall r j Hr Hj. pose proof (forallb_below 14 _ Hall r Hr) as H; cbv beta in H.
  rewrite forallb_forall in H. specialize (H j ltac:(apply in_seq; lia)).
  apply andb_prop in H as [H1 H2]. split.
  - apply andb_prop in H1 as [? ?]. unfold word. lia.
  - intros i Hi. rewrite forallb_forall in H2. apply Z.eqb_eq, H2, in_seq; lia.
Qed.

Definition PC64_spec := constants_check PC64 constant_P ltac:(vm_compute; reflexivity).
Definition QC64_spec := constants_check QC64 constant_Q ltac:(vm_compute; reflexivity).

(** The unrolled macros are that round. *)
Ltac unrolled a :=
  destruct_list_n a;
  cbv -[Z.lxor tbl T0 T1 T2 T3 T4 T5 T6 T7 B64_0 B64_1 B64_2 B64_3 B64_4 B64_5 B64_6 B64_7
        PC64 QC64 R64];
  reflexivity.

Lemma ROUND_SMALL_P_word a r :
  length a = 8%nat ->
  ROUND_SMALL_P a r = word_round 8 (fun j => PC64 (16 * Z.of_nat j) r) (sigma_P 8) a.
Proof. intros H. unrolled a. Qed.

Lemma ROUND_SMALL_Q_word a r :
  length a = 8%nat ->
  ROUND_SMALL_Q a r = word_round 8 (fun j => QC64 (16 * Z.of_nat j) r) (sigma_Q 8) a.
Proof. intros H. unrolled a. Qed.

Lemma ROUND_BIG_P_word a r :
  length a = 16%nat ->
  ROUND_BIG_P a r = word_round 16 (fun j => PC64 (16 * Z.of_nat j) r) (sigma_P 16) a.
Proof. intros H. unrolled a. Qed.

Lemma ROUND_BIG_Q_word a r :
  length a = 16%nat ->
  ROUND_BIG_Q a r = word_round 16 (fun j => QC64 (16 * Z.of_nat j) r) (sigma_Q 16) a.
Proof. intros H. unrolled a. Qed.

(** * The permutations *)

(** A sequence of rounds, each of which the code does as the reference. *)
Lemma rounds_spec n (f : list Z -> Z -> list Z) (g : Z -> list (list Z) -> list (list Z)) rs a :
  (forall r a, In r rs -> state_ok n a ->
     state_ok n (f a (Z.of_nat r)) /\ cols n (f a (Z.of_nat r)) = g (Z.of_nat r) (cols n a)) ->
  state_ok n a ->
  let a' := fold_left (fun a r => f a (Z.of_nat r)) rs a in
  state_ok n a' /\ cols n a' = fold_left (fun s r => g (Z.of_nat r) s) rs (cols n a).
Proof.
  revert a; induction rs as [|r rs IH]; intros a Hf Ha; cbn [fold_left]; [now split|].
  destruct (Hf r a (or_introl eq_refl) Ha) as [Ha1 <-].
  apply IH; [|assumption]. intros; apply Hf; [now right | assumption].
Qed.

(** What the code's permutations promise to the compression function. *)
Definition perm_ok (n : nat) (f : list Z -> list Z) (g : list (list Z) -> list (list Z)) : Prop :=
  forall a, state_ok n a -> state_ok n (f a) /\ cols n (f a) = g (cols n a).

Lemma perm_of_rounds n K c sigma f (F : list Z -> list Z) (k : nat) :
  (0 < n <= 16)%nat -> (k <= 14)%nat ->
  (forall r j, 0 <= r < 14 -> (j < 16)%nat ->
     word64 (K (16 * Z.of_nat j) r) /\
     forall i, (i < 8)%nat -> row i (K (16 * Z.of_nat j) r) = c r j i) ->
  (forall a r, length a = n -> f a r = word_round n (fun j => K (16 * Z.of_nat j) r) sigma a) ->
  (forall a, F a = fold_left (fun a r => f a (Z.of_nat r)) (seq 0 k) a) ->
  perm_ok n F (fun s => fold_left (fun s r => round n c sigma (Z.of_nat r) s) (seq 0 k) s).
Proof.
  intros Hn Hk HK Hf HF a Ha. rewrite HF.
  apply (rounds_spec n f (round n c sigma)); [|assumption].
  intros r a0 Hr Ha0. apply in_seq in Hr. rewrite Hf by apply Ha0.
  apply word_round_spec; [lia | assumption | |]; intros; apply HK; lia.
Qed.

(** The macros do two rounds per iteration, or one. *)
Ltac same_rounds := intros; cbv -[ROUND_SMALL_P ROUND_SMALL_Q ROUND_BIG_P ROUND_BIG_Q]; reflexivity.

Lemma PERM_SMALL_P_ok : perm_ok 8 PERM_SMALL_P (P 8).
Proof.
  apply (perm_of_rounds 8 PC64 _ _ ROUND_SMALL_P);
    [lia | cbn; lia | exact PC64_spec | exact ROUND_SMALL_P_word | same_rounds].
Qed.

Lemma PERM_SMALL_Q_ok : perm_ok 8 PERM_SMALL_Q (Q 8).
Proof.
  apply (perm_of_rounds 8 QC64 _ _ ROUND_SMALL_Q);
    [lia | cbn; lia | exact QC64_spec | exact ROUND_SMALL_Q_word | same_rounds].
Qed.

Lemma PERM_BIG_P_ok : perm_ok 16 PERM_BIG_P (P 16).
Proof.
  apply (perm_of_rounds 16 PC64 _ _ ROUND_BIG_P);
    [lia | cbn; lia | exact PC64_spec | exact ROUND_BIG_P_word | same_rounds].
Qed.

Lemma PERM_BIG_Q_ok : perm_ok 16 PERM_BIG_Q (Q 16).
Proof.
  apply (perm_of_rounds 16 QC64 _ _ ROUND_BIG_Q);
    [lia | cbn; lia | exact QC64_spec | exact ROUND_BIG_Q_word | same_rounds].
Qed.

Lemma PERM_SMALL_small_footprint_eq a :
  PERM_SMALL_P_small_footprint a = PERM_SMALL_P a /\
  PERM_SMALL_Q_small_footprint a = PERM_SMALL_Q a.
Proof. split; same_rounds. Qed.

(** ** The small-footprint rounds *)

Definition word_round_small (n : nat) (C : nat -> Z) (sigma : list nat) (a : list Z) : list Z :=
  let a' := map (fun j => a.[j] ^^ C j) (seq 0 n) in
  map (fun j => xor_lookups lookups_small a' (map (fun k => ((j + nth k sigma 0) mod n)%nat) (seq 0 8)))
    (seq 0 n).

Lemma word_round_small_eq n C sigma a :
  state_ok n a -> (forall j, (j < n)%nat -> word64 (C j)) ->
  word_round_small n C sigma a = word_round n C sigma a.
Proof.
  intros Ha HC. unfold word_round_small, word_round. apply map_ext; intros j.
  apply xor_lookups_small. apply state_ok_map. intros i Hi.
  apply word_lxor; [lia | eapply state_nth; eassumption | auto].
Qed.

Lemma ROUND_BIG_small_footprint_word a r :
  length a = 16%nat ->
  ROUND_BIG_P_small_footprint a r =
    word_round_small 16 (fun j => PC64 (16 * Z.of_nat j) r) (sigma_P 16) a /\
  ROUND_BIG_Q_small_footprint a r =
    word_round_small 16 (fun j => QC64 (16 * Z.of_nat j) r) (sigma_Q 16) a.
Proof. intros H. split; unrolled a. Qed.

(** The small-footprint rounds compute the same words as the default ones. *)
Lemma ROUND_BIG_small_footprint_eq a r :
  state_ok 16 a -> 0 <= r < 14 ->
  ROUND_BIG_P_small_footprint a r = ROUND_BIG_P a r /\
  ROUND_BIG_Q_small_footprint a r = ROUND_BIG_Q a r.
Proof.
  intros Ha Hr. destruct (ROUND_BIG_small_footprint_word a r (proj1 Ha)) as [-> ->].
  rewrite ROUND_BIG_P_word, ROUND_BIG_Q_word by apply Ha.
  split; apply word_round_small_eq; try assumption; intros j Hj;
    [apply PC64_spec | apply QC64_spec]; assumption.
Qed.
