(* ===== verification/GroestlHash.v ===== *)
(** Groestl: the compression, the buffered update with its 64-bit block counter,
    the padding and the output of groestl.c compute the Groestl digests, for
    every way of cutting the message into updates. *)
From Stdlib Require Import ZifyNat.
From S2P Require Import Prelude SphTypes Stream Groestl SphSpec GroestlProofs.
Import Groestl.

Section Width.
(** The number of columns and the code's permutations on as many words. *)
Context (n : nat) (permP permQ : list Z -> list Z).
Context (Hn : (0 < n <= 16)%nat).
Context (HP : perm_ok n permP (GroestlSpec.P n)) (HQ : perm_ok n permQ (GroestlSpec.Q n)).

(** * Compression *)

Definition block_words (buf : list Z) : list Z :=
  map (fun u => dec64e_aligned (skipn (Nat.shiftl u 3) buf)) (seq 0 n).

Definition compress_words (buf H : list Z) : list Z :=
  let m := block_words buf in
  let g := permP (map (fun u => m.[u] ^^ H.[u]) (seq 0 n)) in
  let m := permQ m in
  map (fun u => H.[u] ^^ (g.[u] ^^ m.[u])) (seq 0 n).

Definition final_words (H : list Z) : list Z :=
  let x := permP H in map (fun u => H.[u] ^^ x.[u]) (seq 0 n).

Lemma shiftl_3 u : Nat.shiftl u 3 = (8 * u)%nat.
Proof. rewrite Nat.shiftl_mul_pow2. change (2 ^ 3)%nat with 8%nat. lia. Qed.

Lemma block_words_ok buf :
  bytes buf -> length buf = (8 * n)%nat ->
  state_ok n (block_words buf) /\ cols n (block_words buf) = GroestlSpec.columns n buf.
Proof.
  intros Hb Hl. split.
  - apply state_ok_map. intros j Hj. rewrite shiftl_3.
    apply word64_load; [rewrite length_skipn; lia | now apply Forall_drop].
  - apply mat_ext; intros j i Hj Hi. unfold block_words. rewrite nth_map_seq, shiftl_3 by assumption.
    unfold dec64e_aligned, sph_dec64le_aligned, load.
    rewrite row_combine by (try apply Forall_take, Forall_drop; try assumption;
      rewrite length_firstn, length_skipn; lia).
    now rewrite nth_firstn_lt, nth_skipn by lia.
Qed.

Lemma state_ok_xor a b :
  state_ok n a -> state_ok n b -> state_ok n (map (fun u => a.[u] ^^ b.[u]) (seq 0 n)).
Proof. intros Ha Hb. apply state_ok_map. intros; apply word_lxor; [lia| |]; eapply state_nth; eassumption. Qed.

Lemma compress_words_spec buf H :
  bytes buf -> length buf = (8 * n)%nat -> state_ok n H ->
  state_ok n (compress_words buf H) /\
  cols n (compress_words buf H) = GroestlSpec.compress n (cols n H) buf.
Proof.
  intros Hb Hl HH. unfold compress_words, GroestlSpec.compress. cbv zeta.
  destruct (block_words_ok buf Hb Hl) as [Hm Em]. set (m := block_words buf) in *.
  pose proof (state_ok_xor m H Hm HH) as Hx. set (x := map _ _) in *.
  destruct (HP x Hx) as [Hp Ep]. destruct (HQ m Hm) as [Hq Eq].
  pose proof (state_ok_xor (permP x) (permQ m) Hp Hq) as Hy.
  rewrite (map_ext_in (fun u => H.[u] ^^ ((permP x).[u] ^^ (permQ m).[u]))
    (fun u => H.[u] ^^ (map (fun u => (permP x).[u] ^^ (permQ m).[u]) (seq 0 n)).[u])).
  - split; [now apply state_ok_xor|].
    rewrite !cols_xor, Ep, Eq, Em. unfold x. now rewrite cols_xor, Em.
  - intros u Hu. apply in_seq in Hu. now rewrite nth_map_seq by lia.
Qed.

Lemma final_words_spec H :
  state_ok n H ->
  state_ok n (final_words H) /\
  cols n (final_words H) = GroestlSpec.xor_mat n (cols n H) (GroestlSpec.P n (cols n H)).
Proof.
  intros HH. unfold final_words; cbv zeta. destruct (HP H HH) as [Hp Ep].
  split; [now apply state_ok_xor|]. now rewrite cols_xor, Ep.
Qed.

(** * The blocks and their count *)

Definition block_step (st : list Z * Z) (buf : list Z) : list Z * Z :=
  let '(H, count) := st in (compress_words buf H, SPH_T64 (count + 1)).

(** The reference with the number of blocks beside it. *)
Definition spec_step (st : list (list Z) * Z) (b : list Z) : list (list Z) * Z :=
  let '(h, k) := st in (GroestlSpec.compress n h b, k + 1).

Definition related (st : list Z * Z) (sp : list (list Z) * Z) : Prop :=
  state_ok n (fst st) /\ cols n (fst st) = fst sp /\ snd st = snd sp mod 2 ^ 64.

Lemma block_step_related st sp b :
  related st sp -> length b = (8 * n)%nat -> bytes b -> related (block_step st b) (spec_step sp b).
Proof.
  destruct st as [H c], sp as [h k]; intros (Hok & Hh & Hc) Hl Hb; cbn [fst snd] in *; subst h.
  destruct (compress_words_spec b H Hb Hl Hok) as [H1 H2].
  repeat split; cbn [block_step spec_step fst snd]; auto; try apply H1.
  rewrite SPH_T64_mod, Hc. apply Zplus_mod_idemp_l.
Qed.

Lemma spec_step_blocks k h c m :
  length m = (k * (8 * n))%nat ->
  absorb (8 * n) spec_step (h, c) m = ((GroestlSpec.compress_blocks n k h m, c + Z.of_nat k), []).
Proof.
  revert h c m; induction k as [|k IH]; intros h c m Hm.
  - apply length_zero_iff_nil in Hm as ->. rewrite absorb_short by (cbn [length]; lia).
    now rewrite Z.add_0_r.
  - rewrite absorb_block by lia. cbn [spec_step GroestlSpec.compress_blocks].
    rewrite IH by (rewrite length_skipn; lia).
    replace (c + 1 + Z.of_nat k) with (c + Z.of_nat (S k)) by lia. reflexivity.
Qed.

(** The context [(buf, ptr, (H, count))] stands for the message [m]. *)
Definition groestl_rep (H0 : list Z) (buf : list Z) (ptr : nat) (st : list Z * Z) (m : list Z) : Prop :=
  bytes m /\ represents (8 * n) block_step (8 * n) (H0, 0) buf ptr st m.

Lemma absorb_count h c m :
  snd (fst (absorb (8 * n) spec_step (h, c) m)) = c + Z.of_nat (length m / (8 * n)).
Proof.
  remember (h, c) as st eqn:E. revert h c E. revert st m.
  apply (absorb_ind (8 * n) spec_step ltac:(lia) (fun st m => forall h c, st = (h, c) ->
    snd (fst (absorb (8 * n) spec_step st m)) = c + Z.of_nat (length m / (8 * n)))).
  - intros st m Hm h c ->. rewrite absorb_short, Nat.div_small by lia. cbn [fst snd]; lia.
  - intros st b m Hb IH h c ->. rewrite absorb_block_app by lia.
    rewrite (IH _ _ eq_refl), length_app, Hb.
    replace (8 * n + length m)%nat with (length m + 1 * (8 * n))%nat by lia.
    rewrite Nat.div_add by lia. lia.
Qed.

(** The chaining words and the counter of a context of [m]. *)
Lemma groestl_rep_state H0 buf ptr st m :
  state_ok n H0 -> groestl_rep H0 buf ptr st m ->
  related st (fst (absorb (8 * n) spec_step (cols n H0, 0) m)) /\
  snd st = Z.of_nat (length m / (8 * n)) mod 2 ^ 64 /\ ptr = (length m mod (8 * n))%nat.
Proof.
  intros H0ok [Hm Hr].
  assert (R : related st (fst (absorb (8 * n) spec_step (cols n H0, 0) m))).
  { destruct Hr as (_ & _ & E).
    replace st with (fst (absorb (8 * n) block_step (H0, 0) m)) by now rewrite E.
    apply (absorb_rel (8 * n) block_step spec_step related (word 8)); auto; [lia| |].
    - intros; now apply block_step_related.
    - now repeat split; try apply H0ok. }
  split; [exact R|]. split.
  - destruct R as (_ & _ & ->). now rewrite absorb_count.
  - exact (represents_length (8 * n) _ ltac:(lia) (8 * n) ltac:(lia) _ _ _ _ _ Hr).
Qed.
(** * Output *)

Lemma concat_cols H : concat (cols n H) = flat_map (fun j => le_split 8 H.[j]) (seq 0 n).
Proof.
  unfold cols, GroestlSpec.mat. rewrite flat_map_concat_map. f_equal.
  apply map_ext; intros j. now rewrite le_split_shiftr.
Qed.

(** The code encodes the second half of the words and keeps the last [d] bytes. *)
Lemma output_spec half d H :
  n = (2 * half)%nat -> (d <= 8 * half)%nat ->
  firstn d (skipn (8 * half - d) (flat_map (fun u => enc64e H.[u + half]) (seq 0 half))) =
  skipn (8 * n - d) (concat (cols n H)).
Proof.
  intros E Hd. rewrite concat_cols. replace n with (half + half)%nat by lia.
  rewrite seq_app, flat_map_app. cbn [Nat.add].
  assert (L : forall k, length (flat_map (fun j => le_split 8 H.[j]) (seq k half)) = (8 * half)%nat).
  { intros k. rewrite (length_flat_map_const _ 8) by (intros; apply length_le_split).
    now rewrite length_seq. }
  rewrite skipn_app, L, (skipn_all2 (flat_map (fun j => le_split 8 H.[j]) (seq 0 half))) by (rewrite L; lia). cbn [app].
  replace (8 * (half + half) - d - 8 * half)%nat with (8 * half - d)%nat by lia.
  rewrite firstn_all2.
  - f_equal. rewrite !flat_map_concat_map, <- (map_map (fun u => u + half)%nat (fun j => le_split 8 H.[j])).
    do 2 f_equal. rewrite <- (Nat.add_0_r half) at 2. clear.
    generalize 0%nat as k. generalize half at 2 4.
    intros h; induction h as [|h IH]; intros k; cbn [seq map]; [reflexivity|].
    f_equal; [lia|]. rewrite IH. now rewrite Nat.add_succ_r.
  - rewrite length_skipn, (length_flat_map_const _ 8) by (intros; apply length_le_split).
    rewrite length_seq; lia.
Qed.

(** * Closing *)

(** Once the padding has been fed, the finalised words hold the digest. *)
Lemma final_digest H0 buf ptr st m d :
  state_ok n H0 -> cols n H0 = GroestlSpec.iv n d ->
  groestl_rep H0 buf ptr st (GroestlSpec.pad n m) ->
  (length (GroestlSpec.pad n m) mod (8 * n) = 0)%nat ->
  skipn (8 * n - d) (concat (cols n (final_words (fst st)))) = GroestlSpec.groestl n d m.
Proof.
  intros H0ok Hiv Hr Hlen. destruct (groestl_rep_state _ _ _ _ _ H0ok Hr) as [(Hok & Hc & _) _].
  rewrite (proj2 (final_words_spec _ Hok)), Hc, Hiv. unfold GroestlSpec.groestl; cbv zeta.
  rewrite (spec_step_blocks (length (GroestlSpec.pad n m) / (8 * n)))
    by (rewrite Nat.mul_comm; apply Nat.Div0.div_exact; assumption).
  cbn [fst]. do 2 f_equal. unfold GroestlSpec.xor_mat. apply mat_ext; intros. apply Z.lxor_comm.
Qed.
End Width.

(** * Padding *)

(** Division by the block sizes, for [lia]. *)
#[local] Ltac Zify.zify_post_hook ::= Z.to_euclidean_division_equations.

Lemma groestl_small_pad_spec m :
  let size := 64%nat in
  m ++ groestl_small_pad (length m mod size) (Z.of_nat (length m / size) mod 2 ^ 64) 0 0
  = GroestlSpec.pad 8 m /\ (length (GroestlSpec.pad 8 m) mod size = 0)%nat.
Proof.
  cbv zeta. unfold groestl_small_pad, GroestlSpec.pad.
  change (8 * 8)%nat with 64%nat. set (l := length m).
  pose proof (Nat.div_mod_eq l 64) as D. pose proof (Nat.mod_upper_bound l 64 ltac:(lia)).
  rewrite !length_app, repeat_length, length_rev, length_le_split. fold l.
  cbn [length]. destruct (Nat.ltb_spec (l mod 64) 56); rewrite T64_count, enc64be_T64.
  all: split; [|lia].
  all: cbn [app]; apply (f_equal (app m)), (f_equal2 cons); [reflexivity|].
  all: apply (f_equal2 (@app Z)); [f_equal; lia | apply (f_equal (@rev Z)), (f_equal (le_split 8)); lia].
Qed.

Lemma groestl_big_pad_spec m :
  let size := 128%nat in
  m ++ groestl_big_pad (length m mod size) (Z.of_nat (length m / size) mod 2 ^ 64) 0 0
  = GroestlSpec.pad 16 m /\ (length (GroestlSpec.pad 16 m) mod size = 0)%nat.
Proof.
  cbv zeta. unfold groestl_big_pad, GroestlSpec.pad.
  change (8 * 16)%nat with 128%nat. set (l := length m).
  pose proof (Nat.div_mod_eq l 128) as D. pose proof (Nat.mod_upper_bound l 128 ltac:(lia)).
  rewrite !length_app, repeat_length, length_rev, length_le_split. fold l.
  cbn [length]. destruct (Nat.ltb_spec (l mod 128) 120); rewrite T64_count, enc64be_T64.
  all: split; [|lia].
  all: cbn [app]; apply (f_equal (app m)), (f_equal2 cons); [reflexivity|].
  all: apply (f_equal2 (@app Z)); [f_equal; lia | apply (f_equal (@rev Z)), (f_equal (le_split 8)); lia].
Qed.

(** The bytes after the message in a padded message. *)
Lemma bytes_pad_suffix n m suffix : m ++ suffix = GroestlSpec.pad n m -> bytes suffix.
Proof.
  intros E. unfold GroestlSpec.pad in E; cbv zeta in E. apply app_inv_head in E as ->.
  cbn [app]. apply Forall_cons; [auto with word|]. apply Forall_app; split.
  - apply Forall_forall; intros x Hx. apply repeat_spec in Hx as ->. auto with word.
  - apply Forall_rev, bytes_le_split.
Qed.

(** * The small context *)

Definition small_iv (d : nat) : list Z := small_wide (groestl_small_init (8 * Z.of_nat d)).

Definition small_rep (d : nat) (c : sph_groestl_small_context) (m : list Z) : Prop :=
  groestl_rep 8 PERM_SMALL_P PERM_SMALL_Q (small_iv d) (small_buf c) (small_ptr c)
    (small_wide c, small_count c) m.

Lemma small_iv_ok d :
  In d [28; 32]%nat -> state_ok 8 (small_iv d) /\ cols 8 (small_iv d) = GroestlSpec.iv 8 d.
Proof.
  intros [<-|[<-|[]]]; split; [split; [reflexivity | apply words_check; reflexivity] | reflexivity
    | split; [reflexivity | apply words_check; reflexivity] | reflexivity].
Qed.

Lemma groestl_small_block_step :
  groestl_small_block = block_step 8 PERM_SMALL_P PERM_SMALL_Q.
Proof. reflexivity. Qed.

(** [groestl_small_core] appends its data to the message of the context. *)
Lemma groestl_small_core_rep d c m data :
  bytes data -> small_rep d c m -> small_rep d (groestl_small_core c data) (m ++ data).
Proof.
  intros Hdata [Hm Hr]. split; [now apply Forall_app|].
  unfold groestl_small_core. destruct (Nat.ltb_spec (length data) (64 - small_ptr c)).
  - apply (short_copy_represents (64) _ ltac:(lia) 64); [lia | exact Hr | assumption].
  - rewrite groestl_small_block_step.
    pose proof (core_loop_represents 64 _ ltac:(lia) 64 ltac:(lia)
                  (fun st b => full_exact 64 (block_step 8 PERM_SMALL_P PERM_SMALL_Q) st b)
                  _ _ _ _ _ data Hr) as G.
    destruct (core_loop _ _ _ _ _ _ _) as [[b' p'] [H' c']]. exact G.
Qed.

Lemma groestl_small_close_rep d c m :
  In d [28; 32]%nat -> small_rep d c m ->
  fst (groestl_small_close c 0 0 d) = GroestlSpec.groestl 8 d m /\
  small_rep d (snd (groestl_small_close c 0 0 d)) [].
Proof.
  intros Hd Hc. destruct (small_iv_ok d Hd) as [Hiv Ei]. unfold groestl_small_close. cbv zeta.
  destruct (groestl_rep_state 8 _ _ ltac:(lia) PERM_SMALL_P_ok PERM_SMALL_Q_ok _ _ _ _ _ Hiv Hc)
    as (_ & Hcount & Hptr). cbn [snd] in Hcount.
  rewrite Hcount, Hptr. destruct (groestl_small_pad_spec m) as [Hpad Hlen].
  assert (Hb : bytes (groestl_small_pad (length m mod 64) (Z.of_nat (length m / 64) mod 2 ^ 64) 0 0))
    by (apply (bytes_pad_suffix 8 m), Hpad).
  pose proof (groestl_small_core_rep d c m _ Hb Hc) as Hc'. rewrite Hpad in Hc'.
  set (c' := groestl_small_core c _) in *.
  split; cbn [fst snd].
  - rewrite (output_spec 8 ltac:(lia) 4 d); [|lia|cbn in Hd; lia].
    exact (final_digest 8 _ _ ltac:(lia) PERM_SMALL_P_ok PERM_SMALL_Q_ok _ _ _ _ _ _ Hiv Ei Hc' Hlen).
  - split; [constructor|]. apply represents_nil; try lia. reflexivity.
Qed.

(** * The big context *)

Definition big_iv (d : nat) : list Z := big_wide (groestl_big_init (8 * Z.of_nat d)).

Definition big_rep (d : nat) (c : sph_groestl_big_context) (m : list Z) : Prop :=
  groestl_rep 16 PERM_BIG_P PERM_BIG_Q (big_iv d) (big_buf c) (big_ptr c)
    (big_wide c, big_count c) m.

Lemma big_iv_ok d :
  In d [48; 64]%nat -> state_ok 16 (big_iv d) /\ cols 16 (big_iv d) = GroestlSpec.iv 16 d.
Proof.
  intros [<-|[<-|[]]]; split; [split; [reflexivity | apply words_check; reflexivity] | reflexivity
    | split; [reflexivity | apply words_check; reflexivity] | reflexivity].
Qed.

Lemma groestl_big_block_step :
  groestl_big_block = block_step 16 PERM_BIG_P PERM_BIG_Q.
Proof. reflexivity. Qed.

(** [groestl_big_core] appends its data to the message of the context. *)
Lemma groestl_big_core_rep d c m data :
  bytes data -> big_rep d c m -> big_rep d (groestl_big_core c data) (m ++ data).
Proof.
  intros Hdata [Hm Hr]. split; [now apply Forall_app|].
  unfold groestl_big_core. destruct (Nat.ltb_spec (length data) (128 - big_ptr c)).
  - apply (short_copy_represents (128) _ ltac:(lia) 128); [lia | exact Hr | assumption].
  - rewrite groestl_big_block_step.
    pose proof (core_loop_represents 128 _ ltac:(lia) 128 ltac:(lia)
                  (fun st b => full_exact 128 (block_step 16 PERM_BIG_P PERM_BIG_Q) st b)
                  _ _ _ _ _ data Hr) as G.
    destruct (core_loop _ _ _ _ _ _ _) as [[b' p'] [H' c']]. exact G.
Qed.

Lemma groestl_big_close_rep d c m :
  In d [48; 64]%nat -> big_rep d c m ->
  fst (groestl_big_close c 0 0 d) = GroestlSpec.groestl 16 d m /\
  big_rep d (snd (groestl_big_close c 0 0 d)) [].
Proof.
  intros Hd Hc. destruct (big_iv_ok d Hd) as [Hiv Ei]. unfold groestl_big_close. cbv zeta.
  destruct (groestl_rep_state 16 _ _ ltac:(lia) PERM_BIG_P_ok PERM_BIG_Q_ok _ _ _ _ _ Hiv Hc)
    as (_ & Hcount & Hptr). cbn [snd] in Hcount.
  rewrite Hcount, Hptr. destruct (groestl_big_pad_spec m) as [Hpad Hlen].
  assert (Hb : bytes (groestl_big_pad (length m mod 128) (Z.of_nat (length m / 128) mod 2 ^ 64) 0 0))
    by (apply (bytes_pad_suffix 16 m), Hpad).
  pose proof (groestl_big_core_rep d c m _ Hb Hc) as Hc'. rewrite Hpad in Hc'.
  set (c' := groestl_big_core c _) in *.
  split; cbn [fst snd].
  - rewrite (output_spec 16 ltac:(lia) 8 d); [|lia|cbn in Hd; lia].
    exact (final_digest 16 _ _ ltac:(lia) PERM_BIG_P_ok PERM_BIG_Q_ok _ _ _ _ _ _ Hiv Ei Hc' Hlen).
  - split; [constructor|]. apply represents_nil; try lia. reflexivity.
Qed.

(** * The four digest functions *)

Definition groestl224_ops : hash_ops sph_groestl_small_context :=
  {| hash_init := sph_groestl224_init; hash_update := sph_groestl224;
     hash_close := sph_groestl224_close |}.
Definition groestl256_ops : hash_ops sph_groestl_small_context :=
  {| hash_init := sph_groestl256_init; hash_update := sph_groestl256;
     hash_close := sph_groestl256_close |}.
Definition groestl384_ops : hash_ops sph_groestl_big_context :=
  {| hash_init := sph_groestl384_init; hash_update := sph_groestl384;
     hash_close := sph_groestl384_close |}.
Definition groestl512_ops : hash_ops sph_groestl_big_context :=
  {| hash_init := sph_groestl512_init; hash_update := sph_groestl512;
     hash_close := sph_groestl512_close |}.

Lemma groestl_small_stream d :
  In d [28; 32]%nat ->
  StreamHash {| hash_init := groestl_small_init (8 * Z.of_nat d);
                hash_update := groestl_small_core;
                hash_close := fun c => groestl_small_close c 0 0 d |} any_message (GroestlSpec.groestl 8 d).
Proof.
  intros Hd. refine (Build_StreamHash _ _ _ _ (small_rep d) _ _ _);
    cbn [hash_init hash_update hash_close].
  - split; [constructor|]. apply represents_nil; try lia. reflexivity.
  - intros; now apply groestl_small_core_rep.
  - intros; now apply groestl_small_close_rep.
Qed.

Lemma groestl_big_stream d :
  In d [48; 64]%nat ->
  StreamHash {| hash_init := groestl_big_init (8 * Z.of_nat d);
                hash_update := groestl_big_core;
                hash_close := fun c => groestl_big_close c 0 0 d |} any_message (GroestlSpec.groestl 16 d).
Proof.
  intros Hd. refine (Build_StreamHash _ _ _ _ (big_rep d) _ _ _);
    cbn [hash_init hash_update hash_close].
  - split; [constructor|]. apply represents_nil; try lia. reflexivity.
  - intros; now apply groestl_big_core_rep.
  - intros; now apply groestl_big_close_rep.
Qed.

#[export] Instance groestl224_stream : StreamHash groestl224_ops any_message (GroestlSpec.groestl 8 28) :=
  groestl_small_stream 28 ltac:(cbn; tauto).
#[export] Instance groestl256_stream : StreamHash groestl256_ops any_message (GroestlSpec.groestl 8 32) :=
  groestl_small_stream 32 ltac:(cbn; tauto).
#[export] Instance groestl384_stream : StreamHash groestl384_ops any_message (GroestlSpec.groestl 16 48) :=
  groestl_big_stream 48 ltac:(cbn; tauto).
#[export] Instance groestl512_stream : StreamHash groestl512_ops any_message (GroestlSpec.groestl 16 64) :=
  groestl_big_stream 64 ltac:(cbn; tauto).

(** The table-driven permutations: on any [n] 64-bit words (8 or 16), the
    [PERM_*] macros leave words whose bytes are the permutation P or Q of the
    Groestl reference (S-box by field inversion, circulant MixBytes) applied to
    the bytes of the input words. *)
Theorem groestl_permutations a b :
  state_ok 8 a -> state_ok 16 b ->
  cols 8 (PERM_SMALL_P a) = GroestlSpec.P 8 (cols 8 a) /\
  cols 8 (PERM_SMALL_Q a) = GroestlSpec.Q 8 (cols 8 a) /\
  cols 16 (PERM_BIG_P b) = GroestlSpec.P 16 (cols 16 b) /\
  cols 16 (PERM_BIG_Q b) = GroestlSpec.Q 16 (cols 16 b).
Proof.
  intros Ha Hb. repeat split.
  - now apply PERM_SMALL_P_ok.
  - now apply PERM_SMALL_Q_ok.
  - now apply PERM_BIG_P_ok.
  - now apply PERM_BIG_Q_ok.
Qed.

Lemma groestl_permutations_witness :
  cols 8 (PERM_SMALL_P (small_iv 32)) = GroestlSpec.P 8 (cols 8 (small_iv 32)).
Proof.
  exact (proj1 (groestl_permutations (small_iv 32) (big_iv 64)
    (proj1 (small_iv_ok 32 ltac:(cbn; tauto))) (proj1 (big_iv_ok 64 ltac:(cbn; tauto))))).
Defined.

(** The code selected by [SPH_SMALL_FOOTPRINT_GROESTL] computes the same
    words as the default code: the row macros that rotate two tables, the rolled
    rounds of the wide permutations and the rolled narrow permutations. *)
Theorem groestl_small_footprint a b r i0 i1 i2 i3 i4 i5 i6 i7 :
  state_ok 8 a -> state_ok 16 b -> 0 <= r < 14 ->
  RSTT_small_footprint a i0 i1 i2 i3 i4 i5 i6 i7 = RSTT a i0 i1 i2 i3 i4 i5 i6 i7 /\
  RBTT_small_footprint b i0 i1 i2 i3 i4 i5 i6 i7 = RBTT b i0 i1 i2 i3 i4 i5 i6 i7 /\
  PERM_SMALL_P_small_footprint a = PERM_SMALL_P a /\
  PERM_SMALL_Q_small_footprint a = PERM_SMALL_Q a /\
  ROUND_BIG_P_small_footprint b r = ROUND_BIG_P b r /\
  ROUND_BIG_Q_small_footprint b r = ROUND_BIG_Q b r.
Proof.
  intros Ha Hb Hr.
  split; [exact (proj2 (RBTT_small_footprint_eq a _ _ _ _ _ _ _ _ (proj2 Ha)))|].
  split; [exact (proj1 (RBTT_small_footprint_eq b _ _ _ _ _ _ _ _ (proj2 Hb)))|].
  destruct (PERM_SMALL_small_footprint_eq a), (ROUND_BIG_small_footprint_eq b r Hb Hr). auto.
Qed.

Lemma groestl_small_footprint_witness :
  ROUND_BIG_Q_small_footprint (big_iv 64) 13 = ROUND_BIG_Q (big_iv 64) 13.
Proof.
  destruct (groestl_small_footprint (small_iv 32) (big_iv 64) 13 0 1 2 3 4 5 6 7
    (proj1 (small_iv_ok 32 ltac:(cbn; tauto))) (proj1 (big_iv_ok 64 ltac:(cbn; tauto)))
    ltac:(lia)) as (_ & _ & _ & _ & _ & H).
  exact H.
Defined.

(** The digests: however the message is cut into updates, the four Groestl
    functions return the Groestl digest of the whole message; the block counter
    kept modulo 2^64 is the one the padding of the reference writes. *)
Theorem groestl_digests pieces :
  Forall (fun p => bytes p) pieces ->
  digest_of groestl224_ops pieces = GroestlSpec.groestl 8 28 (concat pieces) /\
  digest_of groestl256_ops pieces = GroestlSpec.groestl 8 32 (concat pieces) /\
  digest_of groestl384_ops pieces = GroestlSpec.groestl 16 48 (concat pieces) /\
  digest_of groestl512_ops pieces = GroestlSpec.groestl 16 64 (concat pieces).
Proof.
  intros Hp. repeat split.
  - exact (chunked_digest (StreamHash0 := groestl224_stream) pieces Hp I).
  - exact (chunked_digest (StreamHash0 := groestl256_stream) pieces Hp I).
  - exact (chunked_digest (StreamHash0 := groestl384_stream) pieces Hp I).
  - exact (chunked_digest (StreamHash0 := groestl512_stream) pieces Hp I).
Qed.

Lemma groestl_digests_witness :
  digest_of groestl512_ops [[97]; []; [98; 99]] = GroestlSpec.groestl 16 64 [97; 98; 99].
Proof.
  apply (groestl_digests [[97]; []; [98; 99]]).
  repeat apply Forall_cons; try apply Forall_nil; split; (lia || reflexivity).
Defined.

(** The first bytes of the published digest of the empty message. *)
Example groestl512_empty :
  firstn 8 (digest_of groestl512_ops []) = [0x6d; 0x3a; 0xd2; 0x9d; 0x27; 0x91; 0x10; 0xee].
Proof. vm_compute; reflexivity. Qed.
