(* ===== verification/Blake.v ===== *)
(** Model of src/src/crypto/blake.c (contexts of sph_blake.h): BLAKE-224/256 on
    32-bit words and BLAKE-384/512 on 64-bit words. The working variables
    [V0] ... [VF] are the elements of a list [V], the message words [M0] ... [MF]
    those of a list [M]. The variants selected by [SPH_COMPACT_BLAKE_32] and
    [SPH_COMPACT_BLAKE_64], which loop over the table [sigma], carry the suffix
    [_compact]. *)
From S2P Require Import Prelude SphTypes Stream.

Module Blake.

Definition IV224 : list Z :=
  [ 0xC1059ED8; 0x367CD507; 0x3070DD17; 0xF70E5939;
    0xFFC00B31; 0x68581511; 0x64F98FA7; 0xBEFA4FA4 ].

Definition IV256 : list Z :=
  [ 0x6A09E667; 0xBB67AE85; 0x3C6EF372; 0xA54FF53A;
    0x510E527F; 0x9B05688C; 0x1F83D9AB; 0x5BE0CD19 ].

Definition IV384 : list Z :=
  [ 0xCBBB9D5DC1059ED8; 0x629A292A367CD507; 0x9159015A3070DD17; 0x152FECD8F70E5939;
    0x67332667FFC00B31; 0x8EB44A8768581511; 0xDB0C2E0D64F98FA7; 0x47B5481DBEFA4FA4 ].

Definition IV512 : list Z :=
  [ 0x6A09E667F3BCC908; 0xBB67AE8584CAA73B; 0x3C6EF372FE94F82B; 0xA54FF53A5F1D36F1;
    0x510E527FADE682D1; 0x9B05688C2B3E6C1F; 0x1F83D9ABFB41BD6B; 0x5BE0CD19137E2179 ].

Definition sigma : list (list nat) :=
  [ [0; 1; 2; 3; 4; 5; 6; 7; 8; 9; 10; 11; 12; 13; 14; 15];
    [14; 10; 4; 8; 9; 15; 13; 6; 1; 12; 0; 2; 11; 7; 5; 3];
    [11; 8; 12; 0; 5; 2; 15; 13; 10; 14; 3; 6; 7; 1; 9; 4];
    [7; 9; 3; 1; 13; 12; 11; 14; 2; 6; 5; 10; 4; 0; 15; 8];
    [9; 0; 5; 7; 2; 4; 10; 15; 14; 1; 11; 12; 6; 8; 3; 13];
    [2; 12; 6; 10; 0; 11; 8; 3; 4; 13; 7; 5; 15; 14; 1; 9];
    [12; 5; 1; 15; 14; 13; 4; 10; 0; 7; 6; 3; 9; 2; 8; 11];
    [13; 11; 7; 14; 12; 1; 3; 9; 5; 0; 15; 4; 8; 6; 2; 10];
    [6; 15; 14; 9; 11; 3; 0; 8; 12; 2; 13; 7; 1; 4; 10; 5];
    [10; 2; 8; 4; 7; 6; 1; 5; 15; 11; 9; 14; 3; 12; 13; 0];
    [0; 1; 2; 3; 4; 5; 6; 7; 8; 9; 10; 11; 12; 13; 14; 15];
    [14; 10; 4; 8; 9; 15; 13; 6; 1; 12; 0; 2; 11; 7; 5; 3];
    [11; 8; 12; 0; 5; 2; 15; 13; 10; 14; 3; 6; 7; 1; 9; 4];
    [7; 9; 3; 1; 13; 12; 11; 14; 2; 6; 5; 10; 4; 0; 15; 8];
    [9; 0; 5; 7; 2; 4; 10; 15; 14; 1; 11; 12; 6; 8; 3; 13];
    [2; 12; 6; 10; 0; 11; 8; 3; 4; 13; 7; 5; 15; 14; 1; 9] ]%nat.

(** [sigma[r][i]] *)
Definition sigma_at (r i : nat) : nat := nth i (nth r sigma []) 0%nat.

(** The macros [Z00] ... [Z9F]: row [r], position [i] holds the number that [Z]<r><i> names. *)
Definition Zri : list (list nat) :=
  [ [0; 1; 2; 3; 4; 5; 6; 7; 8; 9; 10; 11; 12; 13; 14; 15];
    [14; 10; 4; 8; 9; 15; 13; 6; 1; 12; 0; 2; 11; 7; 5; 3];
    [11; 8; 12; 0; 5; 2; 15; 13; 10; 14; 3; 6; 7; 1; 9; 4];
    [7; 9; 3; 1; 13; 12; 11; 14; 2; 6; 5; 10; 4; 0; 15; 8];
    [9; 0; 5; 7; 2; 4; 10; 15; 14; 1; 11; 12; 6; 8; 3; 13];
    [2; 12; 6; 10; 0; 11; 8; 3; 4; 13; 7; 5; 15; 14; 1; 9];
    [12; 5; 1; 15; 14; 13; 4; 10; 0; 7; 6; 3; 9; 2; 8; 11];
    [13; 11; 7; 14; 12; 1; 3; 9; 5; 0; 15; 4; 8; 6; 2; 10];
    [6; 15; 14; 9; 11; 3; 0; 8; 12; 2; 13; 7; 1; 4; 10; 5];
    [10; 2; 8; 4; 7; 6; 1; 5; 15; 11; 9; 14; 3; 12; 13; 0] ]%nat.

(** The macros [CS0] ... [CSF]. *)
Definition CSn : list Z :=
  [ 0x243F6A88; 0x85A308D3; 0x13198A2E; 0x03707344;
    0xA4093822; 0x299F31D0; 0x082EFA98; 0xEC4E6C89;
    0x452821E6; 0x38D01377; 0xBE5466CF; 0x34E90C6C;
    0xC0AC29B7; 0xC97C50DD; 0x3F84D5B5; 0xB5470917 ].

(** The array of the compact code. *)
Definition CS : list Z :=
  [ 0x243F6A88; 0x85A308D3; 0x13198A2E; 0x03707344;
    0xA4093822; 0x299F31D0; 0x082EFA98; 0xEC4E6C89;
    0x452821E6; 0x38D01377; 0xBE5466CF; 0x34E90C6C;
    0xC0AC29B7; 0xC97C50DD; 0x3F84D5B5; 0xB5470917 ].

(** The macros [CB0] ... [CBF]. *)
Definition CBn : list Z :=
  [ 0x243F6A8885A308D3; 0x13198A2E03707344; 0xA4093822299F31D0; 0x082EFA98EC4E6C89;
    0x452821E638D01377; 0xBE5466CF34E90C6C; 0xC0AC29B7C97C50DD; 0x3F84D5B5B5470917;
    0x9216D5D98979FB1B; 0xD1310BA698DFB5AC; 0x2FFD72DBD01ADFB7; 0xB8E1AFED6A267E96;
    0xBA7C9045F12C7F99; 0x24A19947B3916CF7; 0x0801F2E2858EFC16; 0x636920D871574E69 ].

(** The array of the compact code. *)
Definition CB : list Z :=
  [ 0x243F6A8885A308D3; 0x13198A2E03707344; 0xA4093822299F31D0; 0x082EFA98EC4E6C89;
    0x452821E638D01377; 0xBE5466CF34E90C6C; 0xC0AC29B7C97C50DD; 0x3F84D5B5B5470917;
    0x9216D5D98979FB1B; 0xD1310BA698DFB5AC; 0x2FFD72DBD01ADFB7; 0xB8E1AFED6A267E96;
    0xBA7C9045F12C7F99; 0x24A19947B3916CF7; 0x0801F2E2858EFC16; 0x636920D871574E69 ].

Definition Mx (M : list Z) (r i : nat) : Z := M.[nth i (nth r Zri []) 0%nat].
Definition CSx (r i : nat) : Z := CSn.[nth i (nth r Zri []) 0%nat].
Definition CBx (r i : nat) : Z := CBn.[nth i (nth r Zri []) 0%nat].

(** [GS(m0, m1, c0, c1, a, b, c, d)] with [a] ... [d] positions in [V]. *)
Definition GS (m0 m1 c0 c1 : Z) (a b c d : nat) (V : list Z) : list Z :=
  let V := V.[a := SPH_T32 (V.[a] + V.[b] + (m0 ^^ c1))] in
  let V := V.[d := SPH_ROTR32 (V.[d] ^^ V.[a]) 16] in
  let V := V.[c := SPH_T32 (V.[c] + V.[d])] in
  let V := V.[b := SPH_ROTR32 (V.[b] ^^ V.[c]) 12] in
  let V := V.[a := SPH_T32 (V.[a] + V.[b] + (m1 ^^ c0))] in
  let V := V.[d := SPH_ROTR32 (V.[d] ^^ V.[a]) 8] in
  let V := V.[c := SPH_T32 (V.[c] + V.[d])] in
  V.[b := SPH_ROTR32 (V.[b] ^^ V.[c]) 7].

Definition ROUND_S_compact (M : list Z) (r : nat) (V : list Z) : list Z :=
  let V := GS M.[sigma_at r 0] M.[sigma_at r 1] CS.[sigma_at r 0] CS.[sigma_at r 1] 0 4 8 12 V in
  let V := GS M.[sigma_at r 2] M.[sigma_at r 3] CS.[sigma_at r 2] CS.[sigma_at r 3] 1 5 9 13 V in
  let V := GS M.[sigma_at r 4] M.[sigma_at r 5] CS.[sigma_at r 4] CS.[sigma_at r 5] 2 6 10 14 V in
  let V := GS M.[sigma_at r 6] M.[sigma_at r 7] CS.[sigma_at r 6] CS.[sigma_at r 7] 3 7 11 15 V in
  let V := GS M.[sigma_at r 8] M.[sigma_at r 9] CS.[sigma_at r 8] CS.[sigma_at r 9] 0 5 10 15 V in
  let V := GS M.[sigma_at r 10] M.[sigma_at r 11] CS.[sigma_at r 10] CS.[sigma_at r 11] 1 6 11 12 V in
  let V := GS M.[sigma_at r 12] M.[sigma_at r 13] CS.[sigma_at r 12] CS.[sigma_at r 13] 2 7 8 13 V in
  let V := GS M.[sigma_at r 14] M.[sigma_at r 15] CS.[sigma_at r 14] CS.[sigma_at r 15] 3 4 9 14 V in
  V.

Definition ROUND_S (M : list Z) (r : nat) (V : list Z) : list Z :=
  let V := GS (Mx M r 0) (Mx M r 1) (CSx r 0) (CSx r 1) 0 4 8 12 V in
  let V := GS (Mx M r 2) (Mx M r 3) (CSx r 2) (CSx r 3) 1 5 9 13 V in
  let V := GS (Mx M r 4) (Mx M r 5) (CSx r 4) (CSx r 5) 2 6 10 14 V in
  let V := GS (Mx M r 6) (Mx M r 7) (CSx r 6) (CSx r 7) 3 7 11 15 V in
  let V := GS (Mx M r 8) (Mx M r 9) (CSx r 8) (CSx r 9) 0 5 10 15 V in
  let V := GS (Mx M r 10) (Mx M r 11) (CSx r 10) (CSx r 11) 1 6 11 12 V in
  let V := GS (Mx M r 12) (Mx M r 13) (CSx r 12) (CSx r 13) 2 7 8 13 V in
  let V := GS (Mx M r 14) (Mx M r 15) (CSx r 14) (CSx r 15) 3 4 9 14 V in
  V.

Definition COMPRESS32_compact (H S : list Z) (T0 T1 : Z) (buf : list Z) : list Z :=
  let V := [ H.[0]; H.[1]; H.[2]; H.[3]; H.[4]; H.[5]; H.[6]; H.[7];
             S.[0] ^^ CSn.[0]; S.[1] ^^ CSn.[1]; S.[2] ^^ CSn.[2]; S.[3] ^^ CSn.[3];
             T0 ^^ CSn.[4]; T0 ^^ CSn.[5]; T1 ^^ CSn.[6]; T1 ^^ CSn.[7] ] in
  let M := [ sph_dec32be_aligned (skipn 0 buf); sph_dec32be_aligned (skipn 4 buf);
             sph_dec32be_aligned (skipn 8 buf); sph_dec32be_aligned (skipn 12 buf);
             sph_dec32be_aligned (skipn 16 buf); sph_dec32be_aligned (skipn 20 buf);
             sph_dec32be_aligned (skipn 24 buf); sph_dec32be_aligned (skipn 28 buf);
             sph_dec32be_aligned (skipn 32 buf); sph_dec32be_aligned (skipn 36 buf);
             sph_dec32be_aligned (skipn 40 buf); sph_dec32be_aligned (skipn 44 buf);
             sph_dec32be_aligned (skipn 48 buf); sph_dec32be_aligned (skipn 52 buf);
             sph_dec32be_aligned (skipn 56 buf); sph_dec32be_aligned (skipn 60 buf) ] in
  let V := fold_left (fun V r => ROUND_S_compact M r V) (seq 0 14) V in
  [ H.[0] ^^ (S.[0] ^^ V.[0] ^^ V.[8]); H.[1] ^^ (S.[1] ^^ V.[1] ^^ V.[9]);
    H.[2] ^^ (S.[2] ^^ V.[2] ^^ V.[10]); H.[3] ^^ (S.[3] ^^ V.[3] ^^ V.[11]);
    H.[4] ^^ (S.[0] ^^ V.[4] ^^ V.[12]); H.[5] ^^ (S.[1] ^^ V.[5] ^^ V.[13]);
    H.[6] ^^ (S.[2] ^^ V.[6] ^^ V.[14]); H.[7] ^^ (S.[3] ^^ V.[7] ^^ V.[15]) ].

Definition COMPRESS32 (H S : list Z) (T0 T1 : Z) (buf : list Z) : list Z :=
  let V := [ H.[0]; H.[1]; H.[2]; H.[3]; H.[4]; H.[5]; H.[6]; H.[7];
             S.[0] ^^ CSn.[0]; S.[1] ^^ CSn.[1]; S.[2] ^^ CSn.[2]; S.[3] ^^ CSn.[3];
             T0 ^^ CSn.[4]; T0 ^^ CSn.[5]; T1 ^^ CSn.[6]; T1 ^^ CSn.[7] ] in
  let M := [ sph_dec32be_aligned (skipn 0 buf); sph_dec32be_aligned (skipn 4 buf);
             sph_dec32be_aligned (skipn 8 buf); sph_dec32be_aligned (skipn 12 buf);
             sph_dec32be_aligned (skipn 16 buf); sph_dec32be_aligned (skipn 20 buf);
             sph_dec32be_aligned (skipn 24 buf); sph_dec32be_aligned (skipn 28 buf);
             sph_dec32be_aligned (skipn 32 buf); sph_dec32be_aligned (skipn 36 buf);
             sph_dec32be_aligned (skipn 40 buf); sph_dec32be_aligned (skipn 44 buf);
             sph_dec32be_aligned (skipn 48 buf); sph_dec32be_aligned (skipn 52 buf);
             sph_dec32be_aligned (skipn 56 buf); sph_dec32be_aligned (skipn 60 buf) ] in
  let V := ROUND_S M 0 V in let V := ROUND_S M 1 V in
  let V := ROUND_S M 2 V in let V := ROUND_S M 3 V in
  let V := ROUND_S M 4 V in let V := ROUND_S M 5 V in
  let V := ROUND_S M 6 V in let V := ROUND_S M 7 V in
  let V := ROUND_S M 8 V in let V := ROUND_S M 9 V in
  let V := ROUND_S M 0 V in let V := ROUND_S M 1 V in
  let V := ROUND_S M 2 V in let V := ROUND_S M 3 V in
  [ H.[0] ^^ (S.[0] ^^ V.[0] ^^ V.[8]); H.[1] ^^ (S.[1] ^^ V.[1] ^^ V.[9]);
    H.[2] ^^ (S.[2] ^^ V.[2] ^^ V.[10]); H.[3] ^^ (S.[3] ^^ V.[3] ^^ V.[11]);
    H.[4] ^^ (S.[0] ^^ V.[4] ^^ V.[12]); H.[5] ^^ (S.[1] ^^ V.[5] ^^ V.[13]);
    H.[6] ^^ (S.[2] ^^ V.[6] ^^ V.[14]); H.[7] ^^ (S.[3] ^^ V.[7] ^^ V.[15]) ].

(** [GB(m0, m1, c0, c1, a, b, c, d)] with [a] ... [d] positions in [V]. *)
Definition GB (m0 m1 c0 c1 : Z) (a b c d : nat) (V : list Z) : list Z :=
  let V := V.[a := SPH_T64 (V.[a] + V.[b] + (m0 ^^ c1))] in
  let V := V.[d := SPH_ROTR64 (V.[d] ^^ V.[a]) 32] in
  let V := V.[c := SPH_T64 (V.[c] + V.[d])] in
  let V := V.[b := SPH_ROTR64 (V.[b] ^^ V.[c]) 25] in
  let V := V.[a := SPH_T64 (V.[a] + V.[b] + (m1 ^^ c0))] in
  let V := V.[d := SPH_ROTR64 (V.[d] ^^ V.[a]) 16] in
  let V := V.[c := SPH_T64 (V.[c] + V.[d])] in
  V.[b := SPH_ROTR64 (V.[b] ^^ V.[c]) 11].

Definition ROUND_B_compact (M : list Z) (r : nat) (V : list Z) : list Z :=
  let V := GB M.[sigma_at r 0] M.[sigma_at r 1] CB.[sigma_at r 0] CB.[sigma_at r 1] 0 4 8 12 V in
  let V := GB M.[sigma_at r 2] M.[sigma_at r 3] CB.[sigma_at r 2] CB.[sigma_at r 3] 1 5 9 13 V in
  let V := GB M.[sigma_at r 4] M.[sigma_at r 5] CB.[sigma_at r 4] CB.[sigma_at r 5] 2 6 10 14 V in
  let V := GB M.[sigma_at r 6] M.[sigma_at r 7] CB.[sigma_at r 6] CB.[sigma_at r 7] 3 7 11 15 V in
  let V := GB M.[sigma_at r 8] M.[sigma_at r 9] CB.[sigma_at r 8] CB.[sigma_at r 9] 0 5 10 15 V in
  let V := GB M.[sigma_at r 10] M.[sigma_at r 11] CB.[sigma_at r 10] CB.[sigma_at r 11] 1 6 11 12 V in
  let V := GB M.[sigma_at r 12] M.[sigma_at r 13] CB.[sigma_at r 12] CB.[sigma_at r 13] 2 7 8 13 V in
  let V := GB M.[sigma_at r 14] M.[sigma_at r 15] CB.[sigma_at r 14] CB.[sigma_at r 15] 3 4 9 14 V in
  V.

Definition ROUND_B (M : list Z) (r : nat) (V : list Z) : list Z :=
  let V := GB (Mx M r 0) (Mx M r 1) (CBx r 0) (CBx r 1) 0 4 8 12 V in
  let V := GB (Mx M r 2) (Mx M r 3) (CBx r 2) (CBx r 3) 1 5 9 13 V in
  let V := GB (Mx M r 4) (Mx M r 5) (CBx r 4) (CBx r 5) 2 6 10 14 V in
  let V := GB (Mx M r 6) (Mx M r 7) (CBx r 6) (CBx r 7) 3 7 11 15 V in
  let V := GB (Mx M r 8) (Mx M r 9) (CBx r 8) (CBx r 9) 0 5 10 15 V in
  let V := GB (Mx M r 10) (Mx M r 11) (CBx r 10) (CBx r 11) 1 6 11 12 V in
  let V := GB (Mx M r 12) (Mx M r 13) (CBx r 12) (CBx r 13) 2 7 8 13 V in
  let V := GB (Mx M r 14) (Mx M r 15) (CBx r 14) (CBx r 15) 3 4 9 14 V in
  V.

Definition COMPRESS64_compact (H S : list Z) (T0 T1 : Z) (buf : list Z) : list Z :=
  let V := [ H.[0]; H.[1]; H.[2]; H.[3]; H.[4]; H.[5]; H.[6]; H.[7];
             S.[0] ^^ CBn.[0]; S.[1] ^^ CBn.[1]; S.[2] ^^ CBn.[2]; S.[3] ^^ CBn.[3];
             T0 ^^ CBn.[4]; T0 ^^ CBn.[5]; T1 ^^ CBn.[6]; T1 ^^ CBn.[7] ] in
  let M := [ sph_dec64be_aligned (skipn 0 buf); sph_dec64be_aligned (skipn 8 buf);
             sph_dec64be_aligned (skipn 16 buf); sph_dec64be_aligned (skipn 24 buf);
             sph_dec64be_aligned (skipn 32 buf); sph_dec64be_aligned (skipn 40 buf);
             sph_dec64be_aligned (skipn 48 buf); sph_dec64be_aligned (skipn 56 buf);
             sph_dec64be_aligned (skipn 64 buf); sph_dec64be_aligned (skipn 72 buf);
             sph_dec64be_aligned (skipn 80 buf); sph_dec64be_aligned (skipn 88 buf);
             sph_dec64be_aligned (skipn 96 buf); sph_dec64be_aligned (skipn 104 buf);
             sph_dec64be_aligned (skipn 112 buf); sph_dec64be_aligned (skipn 120 buf) ] in
  let V := fold_left (fun V r => ROUND_B_compact M r V) (seq 0 16) V in
  [ H.[0] ^^ (S.[0] ^^ V.[0] ^^ V.[8]); H.[1] ^^ (S.[1] ^^ V.[1] ^^ V.[9]);
    H.[2] ^^ (S.[2] ^^ V.[2] ^^ V.[10]); H.[3] ^^ (S.[3] ^^ V.[3] ^^ V.[11]);
    H.[4] ^^ (S.[0] ^^ V.[4] ^^ V.[12]); H.[5] ^^ (S.[1] ^^ V.[5] ^^ V.[13]);
    H.[6] ^^ (S.[2] ^^ V.[6] ^^ V.[14]); H.[7] ^^ (S.[3] ^^ V.[7] ^^ V.[15]) ].

Definition COMPRESS64 (H S : list Z) (T0 T1 : Z) (buf : list Z) : list Z :=
  let V := [ H.[0]; H.[1]; H.[2]; H.[3]; H.[4]; H.[5]; H.[6]; H.[7];
             S.[0] ^^ CBn.[0]; S.[1] ^^ CBn.[1]; S.[2] ^^ CBn.[2]; S.[3] ^^ CBn.[3];
             T0 ^^ CBn.[4]; T0 ^^ CBn.[5]; T1 ^^ CBn.[6]; T1 ^^ CBn.[7] ] in
  let M := [ sph_dec64be_aligned (skipn 0 buf); sph_dec64be_aligned (skipn 8 buf);
             sph_dec64be_aligned (skipn 16 buf); sph_dec64be_aligned (skipn 24 buf);
             sph_dec64be_aligned (skipn 32 buf); sph_dec64be_aligned (skipn 40 buf);
             sph_dec64be_aligned (skipn 48 buf); sph_dec64be_aligned (skipn 56 buf);
             sph_dec64be_aligned (skipn 64 buf); sph_dec64be_aligned (skipn 72 buf);
             sph_dec64be_aligned (skipn 80 buf); sph_dec64be_aligned (skipn 88 buf);
             sph_dec64be_aligned (skipn 96 buf); sph_dec64be_aligned (skipn 104 buf);
             sph_dec64be_aligned (skipn 112 buf); sph_dec64be_aligned (skipn 120 buf) ] in
  let V := ROUND_B M 0 V in let V := ROUND_B M 1 V in
  let V := ROUND_B M 2 V in let V := ROUND_B M 3 V in
  let V := ROUND_B M 4 V in let V := ROUND_B M 5 V in
  let V := ROUND_B M 6 V in let V := ROUND_B M 7 V in
  let V := ROUND_B M 8 V in let V := ROUND_B M 9 V in
  let V := ROUND_B M 0 V in let V := ROUND_B M 1 V in
  let V := ROUND_B M 2 V in let V := ROUND_B M 3 V in
  let V := ROUND_B M 4 V in let V := ROUND_B M 5 V in
  [ H.[0] ^^ (S.[0] ^^ V.[0] ^^ V.[8]); H.[1] ^^ (S.[1] ^^ V.[1] ^^ V.[9]);
    H.[2] ^^ (S.[2] ^^ V.[2] ^^ V.[10]); H.[3] ^^ (S.[3] ^^ V.[3] ^^ V.[11]);
    H.[4] ^^ (S.[0] ^^ V.[4] ^^ V.[12]); H.[5] ^^ (S.[1] ^^ V.[5] ^^ V.[13]);
    H.[6] ^^ (S.[2] ^^ V.[6] ^^ V.[14]); H.[7] ^^ (S.[3] ^^ V.[7] ^^ V.[15]) ].

(** ** [sph_blake_small_context] *)

Record sph_blake_small_context := {
  small_buf : list Z;
  small_ptr : nat;
  small_H : list Z;
  small_S : list Z;
  small_T0 : Z;
  small_T1 : Z
}.

Definition salt_zero_small : list Z := [0; 0; 0; 0].

(** The buffer of the context keeps what it held. *)
Definition blake32_init (sc : sph_blake_small_context) (iv salt : list Z) : sph_blake_small_context :=
  {| small_buf := small_buf sc; small_ptr := 0; small_H := iv; small_S := salt; small_T0 := 0; small_T1 := 0 |}.

(** What the loop of [blake32] runs on a full buffer: the counter, then
    [COMPRESS32], on the local copies of [H], [S], [T0], [T1]. *)
Definition blake32_block (st : list Z * list Z * (Z * Z)) (buf : list Z)
  : list Z * list Z * (Z * Z) :=
  let '(H, salt, (T0, T1)) := st in
  let T0 := SPH_T32 (T0 + 512) in
  let T1 := if T0 <? 512 then SPH_T32 (T1 + 1) else T1 in
  (COMPRESS32 H salt T0 T1 buf, salt, (T0, T1)).

Definition blake32 (sc : sph_blake_small_context) (data : list Z) : sph_blake_small_context :=
  let len := length data in
  if (len <? 64 - small_ptr sc)%nat then
    {| small_buf := memcpy_at (small_buf sc) (small_ptr sc) data; small_ptr := (small_ptr sc + len)%nat;
       small_H := small_H sc; small_S := small_S sc; small_T0 := small_T0 sc; small_T1 := small_T1 sc |}
  else
    let '(buf', ptr', (H', S', (T0', T1'))) :=
      core_loop 64 blake32_block len (small_buf sc) (small_ptr sc)
        (small_H sc, small_S sc, (small_T0 sc, small_T1 sc)) data in
    {| small_buf := buf'; small_ptr := ptr'; small_H := H'; small_S := S'; small_T0 := T0'; small_T1 := T1' |}.

Definition small_set_T (sc : sph_blake_small_context) (T0 T1 : Z) : sph_blake_small_context :=
  {| small_buf := small_buf sc; small_ptr := small_ptr sc; small_H := small_H sc; small_S := small_S sc;
     small_T0 := T0; small_T1 := T1 |}.

(** [u.buf] starts with arbitrary content (zeros here): only the bytes written
    are passed on. [n] is the number of extra bits, 0 to 7, held by [ub]. *)
Definition blake32_close (sc : sph_blake_small_context) (ub n : Z) (out_size_w32 : nat)
  : list Z * sph_blake_small_context :=
  let u := repeat 0 64 in
  let ptr := small_ptr sc in
  let bit_len := Z.shiftl (Z.of_nat ptr) 3 + n in
  let z := Z.shiftr 0x80 n in
  let u := u.[ptr := ((ub &: (- z)) |: z) &: 0xFF] in
  let tl := SPH_T32 (small_T0 sc + bit_len) in
  let th := small_T1 sc in
  let sc :=
    if (ptr =? 0)%nat && (n =? 0) then
      small_set_T sc 0xFFFFFE00 0xFFFFFFFF
    else if small_T0 sc =? 0 then
      small_set_T sc (SPH_T32 (0xFFFFFE00 + bit_len)) (SPH_T32 (small_T1 sc - 1))
    else
      small_set_T sc (SPH_T32 (small_T0 sc - (512 - bit_len))) (small_T1 sc) in
  let sc :=
    if bit_len <=? 446 then
      let u := memcpy_at u (ptr + 1) (repeat 0 (55 - ptr)) in
      let u := if (out_size_w32 =? 8)%nat then u.[55 := u.[55] |: 1] else u in
      let u := memcpy_at u 56 (sph_enc32be_aligned th) in
      let u := memcpy_at u 60 (sph_enc32be_aligned tl) in
      blake32 sc (skipn ptr u)
    else
      let u := memcpy_at u (ptr + 1) (repeat 0 (63 - ptr)) in
      let sc := blake32 sc (skipn ptr u) in
      let sc := small_set_T sc 0xFFFFFE00 0xFFFFFFFF in
      let u := memcpy_at u 0 (repeat 0 56) in
      let u := if (out_size_w32 =? 8)%nat then u.[55 := 1] else u in
      let u := memcpy_at u 56 (sph_enc32be_aligned th) in
      let u := memcpy_at u 60 (sph_enc32be_aligned tl) in
      blake32 sc u in
  (flat_map (fun k => sph_enc32be (small_H sc).[k]) (seq 0 out_size_w32), sc).

(** ** [sph_blake_big_context] *)

Record sph_blake_big_context := {
  big_buf : list Z;
  big_ptr : nat;
  big_H : list Z;
  big_S : list Z;
  big_T0 : Z;
  big_T1 : Z
}.

Definition salt_zero_big : list Z := [0; 0; 0; 0].

(** The buffer of the context keeps what it held. *)
Definition blake64_init (sc : sph_blake_big_context) (iv salt : list Z) : sph_blake_big_context :=
  {| big_buf := big_buf sc; big_ptr := 0; big_H := iv; big_S := salt; big_T0 := 0; big_T1 := 0 |}.

(** What the loop of [blake64] runs on a full buffer: the counter, then
    [COMPRESS64], on the local copies of [H], [S], [T0], [T1]. *)
Definition blake64_block (st : list Z * list Z * (Z * Z)) (buf : list Z)
  : list Z * list Z * (Z * Z) :=
  let '(H, salt, (T0, T1)) := st in
  let T0 := SPH_T64 (T0 + 1024) in
  let T1 := if T0 <? 1024 then SPH_T64 (T1 + 1) else T1 in
  (COMPRESS64 H salt T0 T1 buf, salt, (T0, T1)).

Definition blake64 (sc : sph_blake_big_context) (data : list Z) : sph_blake_big_context :=
  let len := length data in
  if (len <? 128 - big_ptr sc)%nat then
    {| big_buf := memcpy_at (big_buf sc) (big_ptr sc) data; big_ptr := (big_ptr sc + len)%nat;
       big_H := big_H sc; big_S := big_S sc; big_T0 := big_T0 sc; big_T1 := big_T1 sc |}
  else
    let '(buf', ptr', (H', S', (T0', T1'))) :=
      core_loop 128 blake64_block len (big_buf sc) (big_ptr sc)
        (big_H sc, big_S sc, (big_T0 sc, big_T1 sc)) data in
    {| big_buf := buf'; big_ptr := ptr'; big_H := H'; big_S := S'; big_T0 := T0'; big_T1 := T1' |}.

Definition big_set_T (sc : sph_blake_big_context) (T0 T1 : Z) : sph_blake_big_context :=
  {| big_buf := big_buf sc; big_ptr := big_ptr sc; big_H := big_H sc; big_S := big_S sc;
     big_T0 := T0; big_T1 := T1 |}.

(** [u.buf] starts with arbitrary content (zeros here): only the bytes written
    are passed on. [n] is the number of extra bits, 0 to 7, held by [ub]. *)
Definition blake64_close (sc : sph_blake_big_context) (ub n : Z) (out_size_w64 : nat)
  : list Z * sph_blake_big_context :=
  let u := repeat 0 128 in
  let ptr := big_ptr sc in
  let bit_len := Z.shiftl (Z.of_nat ptr) 3 + n in
  let z := Z.shiftr 0x80 n in
  let u := u.[ptr := ((ub &: (- z)) |: z) &: 0xFF] in
  let tl := SPH_T64 (big_T0 sc + bit_len) in
  let th := big_T1 sc in
  let sc :=
    if (ptr =? 0)%nat && (n =? 0) then
      big_set_T sc 0xFFFFFFFFFFFFFC00 0xFFFFFFFFFFFFFFFF
    else if big_T0 sc =? 0 then
      big_set_T sc (SPH_T64 (0xFFFFFFFFFFFFFC00 + bit_len)) (SPH_T64 (big_T1 sc - 1))
    else
      big_set_T sc (SPH_T64 (big_T0 sc - (1024 - bit_len))) (big_T1 sc) in
  let sc :=
    if bit_len <=? 894 then
      let u := memcpy_at u (ptr + 1) (repeat 0 (111 - ptr)) in
      let u := if (out_size_w64 =? 8)%nat then u.[111 := u.[111] |: 1] else u in
      let u := memcpy_at u 112 (sph_enc64be_aligned th) in
      let u := memcpy_at u 120 (sph_enc64be_aligned tl) in
      blake64 sc (skipn ptr u)
    else
      let u := memcpy_at u (ptr + 1) (repeat 0 (127 - ptr)) in
      let sc := blake64 sc (skipn ptr u) in
      let sc := big_set_T sc 0xFFFFFFFFFFFFFC00 0xFFFFFFFFFFFFFFFF in
      let u := memcpy_at u 0 (repeat 0 112) in
      let u := if (out_size_w64 =? 8)%nat then u.[111 := 1] else u in
      let u := memcpy_at u 112 (sph_enc64be_aligned th) in
      let u := memcpy_at u 120 (sph_enc64be_aligned tl) in
      blake64 sc u in
  (flat_map (fun k => sph_enc64be (big_H sc).[k]) (seq 0 out_size_w64), sc).

Definition sph_blake224_init (cc : sph_blake_small_context) : sph_blake_small_context := blake32_init cc IV224 salt_zero_small.
Definition sph_blake224 (cc : sph_blake_small_context) (data : list Z) : sph_blake_small_context := blake32 cc data.
Definition sph_blake224_addbits_and_close (cc : sph_blake_small_context) (ub n : Z) : list Z * sph_blake_small_context :=
  let '(dst, cc) := blake32_close cc ub n 7 in (dst, sph_blake224_init cc).
Definition sph_blake224_close (cc : sph_blake_small_context) : list Z * sph_blake_small_context := sph_blake224_addbits_and_close cc 0 0.

Definition sph_blake256_init (cc : sph_blake_small_context) : sph_blake_small_context := blake32_init cc IV256 salt_zero_small.
Definition sph_blake256 (cc : sph_blake_small_context) (data : list Z) : sph_blake_small_context := blake32 cc data.
Definition sph_blake256_addbits_and_close (cc : sph_blake_small_context) (ub n : Z) : list Z * sph_blake_small_context :=
  let '(dst, cc) := blake32_close cc ub n 8 in (dst, sph_blake256_init cc).
Definition sph_blake256_close (cc : sph_blake_small_context) : list Z * sph_blake_small_context := sph_blake256_addbits_and_close cc 0 0.

Definition sph_blake384_init (cc : sph_blake_big_context) : sph_blake_big_context := blake64_init cc IV384 salt_zero_big.
Definition sph_blake384 (cc : sph_blake_big_context) (data : list Z) : sph_blake_big_context := blake64 cc data.
Definition sph_blake384_addbits_and_close (cc : sph_blake_big_context) (ub n : Z) : list Z * sph_blake_big_context :=
  let '(dst, cc) := blake64_close cc ub n 6 in (dst, sph_blake384_init cc).
Definition sph_blake384_close (cc : sph_blake_big_context) : list Z * sph_blake_big_context := sph_blake384_addbits_and_close cc 0 0.

Definition sph_blake512_init (cc : sph_blake_big_context) : sph_blake_big_context := blake64_init cc IV512 salt_zero_big.
Definition sph_blake512 (cc : sph_blake_big_context) (data : list Z) : sph_blake_big_context := blake64 cc data.
Definition sph_blake512_addbits_and_close (cc : sph_blake_big_context) (ub n : Z) : list Z * sph_blake_big_context :=
  let '(dst, cc) := blake64_close cc ub n 8 in (dst, sph_blake512_init cc).
Definition sph_blake512_close (cc : sph_blake_big_context) : list Z * sph_blake_big_context := sph_blake512_addbits_and_close cc 0 0.

End Blake.
