(* ===== verification/BlakeProofs.v ===== *)
(** BLAKE: the unrolled and the compact compression code of blake.c computes the
    compression function of the reference, for both word sizes. *)
From S2P Require Import Prelude SphTypes Blake SphSpec.
Import Blake.
Import BlakeSpec(perm, permutations, params, const, trunc, rotr, small_params, big_params).

(** * Constants *)

Lemma constants_spec :
  CSn = BlakeSpec.pi_words small_params /\ CBn = BlakeSpec.pi_words big_params /\
  CS = CSn /\ CB = CBn /\
  IV224 = BlakeSpec.iv224 /\ IV256 = BlakeSpec.iv256 /\
  IV384 = BlakeSpec.iv384 /\ IV512 = BlakeSpec.iv512.
Proof.
  repeat match goal with |- _ /\ _ => split end;
    match goal with |- _ = ?b => vm_cast_no_check (@eq_refl (list Z) b) end.
Qed.

Lemma Zri_spec r i : nth i (nth (r mod 10) Zri []) 0%nat = perm r i.
Proof. reflexivity. Qed.

(** The table of the compact code repeats the ten permutations. *)
Lemma sigma_spec r i : (r < 16)%nat -> sigma_at r i = perm r i.
Proof.
  intros Hr. unfold sigma_at, perm. f_equal.
  do 16 (destruct r as [|r]; [reflexivity|]). lia.
Qed.

(** * Rounds on sixteen words *)

Section Words.
Context (p : params).

(** One [G] on a list of sixteen words, with the reference's operations. *)
Definition word_G (m0 m1 c0 c1 : Z) (a b c d : nat) (V : list Z) : list Z :=
  let V := V.[a := trunc p (V.[a] + V.[b] + (m0 ^^ c1))] in
  let V := V.[d := rotr p (V.[d] ^^ V.[a]) (BlakeSpec.rot1 p)] in
  let V := V.[c := trunc p (V.[c] + V.[d])] in
  let V := V.[b := rotr p (V.[b] ^^ V.[c]) (BlakeSpec.rot2 p)] in
  let V := V.[a := trunc p (V.[a] + V.[b] + (m1 ^^ c0))] in
  let V := V.[d := rotr p (V.[d] ^^ V.[a]) (BlakeSpec.rot3 p)] in
  let V := V.[c := trunc p (V.[c] + V.[d])] in
  V.[b := rotr p (V.[b] ^^ V.[c]) (BlakeSpec.rot4 p)].

Lemma length_word_G m0 m1 c0 c1 a b c d V : length (word_G m0 m1 c0 c1 a b c d V) = length V.
Proof. unfold word_G. repeat (etransitivity; [apply length_upd|]). reflexivity. Qed.

(** [G] as a function of its four words. *)
Definition quad (m0 m1 c0 c1 : Z) (col : Z * Z * Z * Z) : Z * Z * Z * Z :=
  let '(a, b, c, d) := col in
  let a := trunc p (a + b + (m0 ^^ c1)) in
  let d := rotr p (d ^^ a) (BlakeSpec.rot1 p) in
  let c := trunc p (c + d) in
  let b := rotr p (b ^^ c) (BlakeSpec.rot2 p) in
  let a := trunc p (a + b + (m1 ^^ c0)) in
  let d := rotr p (d ^^ a) (BlakeSpec.rot3 p) in
  let c := trunc p (c + d) in
  let b := rotr p (b ^^ c) (BlakeSpec.rot4 p) in
  (a, b, c, d).

(** The positions of the eight [G]s: the columns, then the diagonals. *)
Definition G_positions : list (nat * nat * nat * nat) :=
  [ (0, 4, 8, 12); (1, 5, 9, 13); (2, 6, 10, 14); (3, 7, 11, 15);
    (0, 5, 10, 15); (1, 6, 11, 12); (2, 7, 8, 13); (3, 4, 9, 14) ]%nat.

Lemma word_G_quad m0 m1 c0 c1 V :
  length V = 16%nat ->
  Forall (fun '(a, b, c, d) =>
    word_G m0 m1 c0 c1 a b c d V =
    let '(a', b', c', d') := quad m0 m1 c0 c1 (V.[a], V.[b], V.[c], V.[d]) in
    V.[a := a'].[b := b'].[c := c'].[d := d']) G_positions.
Proof.
  intros H. destruct_list_n V. unfold G_positions.
  repeat (apply Forall_cons; [cbv -[trunc rotr Z.add Z.lxor]; reflexivity|]). apply Forall_nil.
Qed.

(** The [G]s on the columns and on the diagonals. *)
Definition word_columns (M : list Z) (r : nat) (V : list Z) : list Z :=
  let m i := M.[perm r i] in
  let k i := const p (perm r i) in
  let V := word_G (m 0%nat) (m 1%nat) (k 0%nat) (k 1%nat) 0 4 8 12 V in
  let V := word_G (m 2%nat) (m 3%nat) (k 2%nat) (k 3%nat) 1 5 9 13 V in
  let V := word_G (m 4%nat) (m 5%nat) (k 4%nat) (k 5%nat) 2 6 10 14 V in
  word_G (m 6%nat) (m 7%nat) (k 6%nat) (k 7%nat) 3 7 11 15 V.

Definition word_diagonals (M : list Z) (r : nat) (V : list Z) : list Z :=
  let m i := M.[perm r i] in
  let k i := const p (perm r i) in
  let V := word_G (m 8%nat) (m 9%nat) (k 8%nat) (k 9%nat) 0 5 10 15 V in
  let V := word_G (m 10%nat) (m 11%nat) (k 10%nat) (k 11%nat) 1 6 11 12 V in
  let V := word_G (m 12%nat) (m 13%nat) (k 12%nat) (k 13%nat) 2 7 8 13 V in
  word_G (m 14%nat) (m 15%nat) (k 14%nat) (k 15%nat) 3 4 9 14 V.

Definition word_round (M : list Z) (V : list Z) (r : nat) : list Z :=
  word_diagonals M r (word_columns M r V).

(** The sixteen words as the rows of the reference's matrix. *)
Definition rows (V : list Z) : list (list Z) :=
  [firstn 4 V; firstn 4 (skipn 4 V); firstn 4 (skipn 8 V); skipn 12 V].

Lemma concat_rows V : length V = 16%nat -> concat (rows V) = V.
Proof. intros H. destruct_list_n V. reflexivity. Qed.

Lemma length_word_columns M r V : length (word_columns M r V) = length V.
Proof. unfold word_columns. now rewrite !length_word_G. Qed.

Lemma length_word_round M V r : length (word_round M V r) = length V.
Proof. unfold word_round, word_diagonals, word_columns. now rewrite !length_word_G. Qed.

Lemma G_quad m r i col :
  BlakeSpec.G p m r i col =
  quad m.[perm r (2 * i)] m.[perm r (2 * i + 1)] (const p (perm r (2 * i)))
    (const p (perm r (2 * i + 1))) col.
Proof. destruct col as [[[a b] c] d]. reflexivity. Qed.

(** Runs the next [G] of a round on a list of known elements. *)
Ltac next_G :=
  match goal with
  | |- context [word_G ?m0 ?m1 ?c0 ?c1 ?a ?b ?c ?d (?x :: ?V)] =>
      pose proof (proj1 (Forall_forall _ _)
        (word_G_quad m0 m1 c0 c1 (x :: V) eq_refl) (a, b, c, d) ltac:(cbn [In G_positions]; tauto)) as E;
      cbv beta iota in E; cbn [nth] in E;
      match type of E with
      | context [quad ?q0 ?q1 ?k0 ?k1 ?col] => destruct (quad q0 q1 k0 k1 col) as [[[? ?] ?] ?]
      end;
      cbn [upd] in E; rewrite E; clear E
  end.

Lemma word_columns_spec M V r :
  length V = 16%nat ->
  BlakeSpec.columns_step p M r 0 (rows V) = rows (word_columns M r V).
Proof.
  intros H. destruct_list_n V. unfold BlakeSpec.columns_step.
  cbn [seq map Nat.add Nat.mul]. rewrite !G_quad.
  unfold rows, BlakeSpec.column, BlakeSpec.of_columns.
  cbn [firstn skipn nth map Nat.mul Nat.add].
  unfold word_columns; cbv beta zeta. do 4 next_G. reflexivity.
Qed.

Lemma word_diagonals_spec M V r :
  length V = 16%nat ->
  BlakeSpec.shift_rows (fun k => (4 - k)%nat)
    (BlakeSpec.columns_step p M r 4 (BlakeSpec.shift_rows (fun k => k) (rows V)))
  = rows (word_diagonals M r V).
Proof.
  intros H. destruct_list_n V. unfold BlakeSpec.columns_step.
  cbn [seq map Nat.add Nat.mul]. rewrite !G_quad.
  unfold rows, BlakeSpec.column, BlakeSpec.of_columns, BlakeSpec.shift_rows, BlakeSpec.rotate_left.
  cbn [firstn skipn nth map seq app Nat.mul Nat.add Nat.sub].
  unfold word_diagonals; cbv beta zeta. do 4 next_G. reflexivity.
Qed.

#[local] Strategy 100 [word_G word_columns word_diagonals].
#[local] Strategy 100 [BlakeSpec.columns_step BlakeSpec.shift_rows rows].

Lemma blake_round_spec M V r :
  length V = 16%nat -> BlakeSpec.round p M (rows V) r = rows (word_round M V r).
Proof.
  intros H. unfold BlakeSpec.round, word_round. cbv zeta. rewrite word_columns_spec by exact H.
  apply word_diagonals_spec. rewrite length_word_columns. exact H.
Qed.

Lemma word_rounds_spec M l V :
  length V = 16%nat ->
  fold_left (BlakeSpec.round p M) l (rows V) = rows (fold_left (word_round M) l V) /\
  length (fold_left (word_round M) l V) = 16%nat.
Proof.
  intros H.
  apply (fold_left_sim (BlakeSpec.round p M) (word_round M)
           (fun v V => v = rows V /\ length V = 16%nat)); [|split; [reflexivity | exact H]].
  intros v W r _ [-> HW]. rewrite blake_round_spec by exact HW.
  split; [reflexivity|]. rewrite length_word_round. exact HW.
Qed.
End Words.

(** * The macros of the code *)

Lemma trunc_small x : SPH_T32 x = trunc small_params x.
Proof. apply SPH_T32_mod. Qed.

Lemma trunc_big x : SPH_T64 x = trunc big_params x.
Proof. apply SPH_T64_mod. Qed.

Lemma rotr_small x n : SPH_ROTR32 x n = rotr small_params x n.
Proof.
  unfold SPH_ROTR32, SPH_ROTL32, rotr. rewrite trunc_small. unfold BlakeSpec.wbits.
  cbn [small_params BlakeSpec.wbytes]. change (8 * Z.of_nat 4) with 32.
  replace (32 - (32 - n)) with n by lia. reflexivity.
Qed.

Lemma rotr_big x n : SPH_ROTR64 x n = rotr big_params x n.
Proof.
  unfold SPH_ROTR64, SPH_ROTL64, rotr. rewrite trunc_big. unfold BlakeSpec.wbits.
  cbn [big_params BlakeSpec.wbytes]. change (8 * Z.of_nat 8) with 64.
  replace (64 - (64 - n)) with n by lia. reflexivity.
Qed.

(** Compares two sequences of assignments, one assignment at a time. *)
Ltac same_assignments tac :=
  repeat match goal with
  | |- (let V := ?x in @?f V) = (let W := ?y in @?g W) =>
      let E := fresh in
      assert (E : x = y) by (tac; reflexivity);
      change (f x = g y); rewrite E; clear E; generalize y; intros ?; cbv beta
  end; tac; reflexivity.

Lemma GS_word m0 m1 c0 c1 a b c d V :
  GS m0 m1 c0 c1 a b c d V = word_G small_params m0 m1 c0 c1 a b c d V.
Proof. unfold GS, word_G. same_assignments ltac:(rewrite ?trunc_small, ?rotr_small). Qed.

Lemma GB_word m0 m1 c0 c1 a b c d V :
  GB m0 m1 c0 c1 a b c d V = word_G big_params m0 m1 c0 c1 a b c d V.
Proof. unfold GB, word_G. same_assignments ltac:(rewrite ?trunc_big, ?rotr_big). Qed.

Lemma ROUND_S_word M r V : ROUND_S M (r mod 10) V = word_round small_params M V r.
Proof.
  unfold ROUND_S, word_round, word_diagonals, word_columns, Mx, CSx, const.
  rewrite (proj1 constants_spec). cbv zeta. rewrite !GS_word, !Zri_spec. reflexivity.
Qed.

Lemma ROUND_B_word M r V : ROUND_B M (r mod 10) V = word_round big_params M V r.
Proof.
  unfold ROUND_B, word_round, word_diagonals, word_columns, Mx, CBx, const.
  rewrite (proj1 (proj2 constants_spec)). cbv zeta. rewrite !GB_word, !Zri_spec. reflexivity.
Qed.

Lemma ROUND_S_compact_eq M r V :
  (r < 16)%nat -> ROUND_S_compact M r V = ROUND_S M (r mod 10) V.
Proof.
  intros Hr. unfold ROUND_S_compact, ROUND_S, Mx, CSx.
  destruct constants_spec as (_ & _ & -> & _). rewrite !sigma_spec, !Zri_spec by assumption.
  reflexivity.
Qed.

Lemma ROUND_B_compact_eq M r V :
  (r < 16)%nat -> ROUND_B_compact M r V = ROUND_B M (r mod 10) V.
Proof.
  intros Hr. unfold ROUND_B_compact, ROUND_B, Mx, CBx.
  destruct constants_spec as (_ & _ & _ & -> & _). rewrite !sigma_spec, !Zri_spec by assumption.
  reflexivity.
Qed.

(** * Compression *)

Definition start_words (p : params) (H S : list Z) (T0 T1 : Z) : list Z :=
  H ++ map (fun i => S.[i] ^^ const p i) (seq 0 4) ++
  [T0 ^^ const p 4; T0 ^^ const p 5; T1 ^^ const p 6; T1 ^^ const p 7].

Definition finish_words (H S V : list Z) : list Z :=
  map (fun i => H.[i] ^^ (S.[i mod 4] ^^ V.[i] ^^ V.[i + 8])) (seq 0 8).

Definition word_compress (p : params) (H S : list Z) (T0 T1 : Z) (M : list Z) : list Z :=
  finish_words H S
    (fold_left (word_round p M) (seq 0 (BlakeSpec.nrounds p)) (start_words p H S T0 T1)).

Lemma word_compress_spec p H S t b :
  length H = 8%nat ->
  word_compress p H S (trunc p t) (trunc p (Z.shiftr t (BlakeSpec.wbits p))) (BlakeSpec.block_words p b)
  = BlakeSpec.compress p H S t b.
Proof.
  intros HH. unfold word_compress, BlakeSpec.compress. cbv zeta.
  set (t0 := trunc p t). set (t1 := trunc p (Z.shiftr t _)).
  set (V0 := start_words p H S t0 t1).
  assert (L : length V0 = 16%nat) by (unfold V0, start_words; autorewrite with lens; cbn [length]; lia).
  replace [firstn 4 H; skipn 4 H; map (fun i => S.[i] ^^ const p i) (seq 0 4);
           [t0 ^^ const p 4; t0 ^^ const p 5; t1 ^^ const p 6; t1 ^^ const p 7]] with (rows V0)
    by (unfold V0, start_words; destruct_list_n H; reflexivity).
  destruct (word_rounds_spec p (BlakeSpec.block_words p b) (seq 0 (BlakeSpec.nrounds p)) V0 L) as [-> L'].
  rewrite concat_rows by exact L'. unfold finish_words.
  apply map_ext; intros i. now rewrite !Z.lxor_assoc.
Qed.

(** The words of the chaining value stay in range. *)
Lemma word_trunc p x : word (BlakeSpec.wbits p) (trunc p x).
Proof. apply word_mod. unfold BlakeSpec.wbits; lia. Qed.

Lemma Forall_word_round p M V r :
  Forall (word (BlakeSpec.wbits p)) V -> Forall (word (BlakeSpec.wbits p)) (word_round p M V r).
Proof.
  assert (HG : forall m0 m1 c0 c1 a b c d V, Forall (word (BlakeSpec.wbits p)) V ->
    Forall (word (BlakeSpec.wbits p)) (word_G p m0 m1 c0 c1 a b c d V)).
  { intros. unfold word_G. repeat (apply Forall_upd; [|apply word_trunc]). assumption. }
  intros HV. unfold word_round, word_diagonals, word_columns; cbv zeta. do 8 apply HG. exact HV.
Qed.

Lemma Forall_word_compress p H S T0 T1 M :
  Forall (word (BlakeSpec.wbits p)) (BlakeSpec.pi_words p) ->
  Forall (word (BlakeSpec.wbits p)) H -> Forall (word (BlakeSpec.wbits p)) S ->
  word (BlakeSpec.wbits p) T0 -> word (BlakeSpec.wbits p) T1 ->
  Forall (word (BlakeSpec.wbits p)) (word_compress p H S T0 T1 M).
Proof.
  intros Hc HH HS H0 H1. assert (Hw : 0 <= BlakeSpec.wbits p) by (unfold BlakeSpec.wbits; lia).
  assert (Hn : forall l i, Forall (word (BlakeSpec.wbits p)) l -> word (BlakeSpec.wbits p) l.[i])
    by (intros; apply Forall_nth_default; auto with word).
  assert (Hx : forall x i, word (BlakeSpec.wbits p) x -> word (BlakeSpec.wbits p) (x ^^ const p i))
    by (intros; apply word_lxor; auto; apply Hn, Hc).
  assert (HV : Forall (word (BlakeSpec.wbits p))
    (fold_left (word_round p M) (seq 0 (BlakeSpec.nrounds p)) (start_words p H S T0 T1))).
  { apply (fold_left_sim (word_round p M) (fun u _ => u)
      (fun V (_ : unit) => Forall (word (BlakeSpec.wbits p)) V) _ _ tt);
      [intros; now apply Forall_word_round|].
    apply Forall_app; split; [assumption|]. apply Forall_app; split.
    - apply Forall_map, Forall_forall. intros; apply Hx, Hn, HS.
    - repeat (apply Forall_cons; [now apply Hx|]). apply Forall_nil. }
  apply Forall_map, Forall_forall. intros i _.
  repeat (apply word_lxor; [assumption| |]); apply Hn; assumption.
Qed.

Lemma be_word_combine bs : BlakeSpec.be_word bs = le_combine (rev bs).
Proof.
  enough (H : forall acc, fold_left (fun acc b => 256 * acc + b) bs acc
    = 2 ^ (8 * Z.of_nat (length bs)) * acc + le_combine (rev bs)).
  { unfold BlakeSpec.be_word. rewrite H. lia. }
  induction bs as [|b bs IH]; intros acc; [cbn [fold_left length rev le_combine]; lia|].
  cbn [fold_left length rev]. rewrite IH, le_combine_app, length_rev. cbn [le_combine].
  replace (8 * Z.of_nat (S (length bs))) with (8 + 8 * Z.of_nat (length bs)) by lia.
  rewrite Z.pow_add_r by lia. change (2 ^ 8) with 256. ring.
Qed.

(** ** 32-bit words *)

Lemma dec32_words buf :
  length buf = 64%nat -> bytes buf ->
  map (fun i => sph_dec32be_aligned (skipn (4 * i) buf)) (seq 0 16) = BlakeSpec.block_words small_params buf.
Proof.
  intros Hl Hb. apply map_ext_in; intros i Hi. apply in_seq in Hi.
  cbn [small_params BlakeSpec.wbytes].
  change sph_dec32be_aligned with sph_dec32be.
  rewrite dec32be_spec by (try apply Forall_drop; try assumption; rewrite length_skipn; lia).
  now rewrite be_word_combine.
Qed.

Lemma COMPRESS32_rounds H S T0 T1 buf :
  length H = 8%nat ->
  let M := map (fun i => sph_dec32be_aligned (skipn (4 * i) buf)) (seq 0 16) in
  let V := H ++ map (fun i => S.[i] ^^ CSn.[i]) (seq 0 4) ++
           [T0 ^^ CSn.[4]; T0 ^^ CSn.[5]; T1 ^^ CSn.[6]; T1 ^^ CSn.[7]] in
  COMPRESS32 H S T0 T1 buf =
    finish_words H S (fold_left (fun V r => ROUND_S M (r mod 10) V) (seq 0 14) V) /\
  COMPRESS32_compact H S T0 T1 buf =
    finish_words H S (fold_left (fun V r => ROUND_S_compact M r V) (seq 0 14) V).
Proof.
  intros HH. unfold COMPRESS32, COMPRESS32_compact.
  generalize ROUND_S as round; generalize ROUND_S_compact as round_compact; intros.
  destruct_list_n H. split; reflexivity.
Qed.

Lemma COMPRESS32_word H S T0 T1 buf :
  length H = 8%nat -> length buf = 64%nat -> bytes buf ->
  COMPRESS32 H S T0 T1 buf = word_compress small_params H S T0 T1 (BlakeSpec.block_words small_params buf) /\
  COMPRESS32_compact H S T0 T1 buf = COMPRESS32 H S T0 T1 buf.
Proof.
  intros HH Hl Hb. destruct (COMPRESS32_rounds H S T0 T1 buf HH) as [-> ->].
  rewrite dec32_words by assumption. split.
  - unfold word_compress, start_words, const. rewrite <- (proj1 constants_spec).
    apply (f_equal (finish_words H S)).
    apply fold_left_ext_in. intros; apply ROUND_S_word.
  - apply (f_equal (finish_words H S)). apply fold_left_ext_in. intros V r Hr. apply in_seq in Hr.
    apply ROUND_S_compact_eq. lia.
Qed.

(** ** 64-bit words *)

Lemma dec64_words buf :
  length buf = 128%nat -> bytes buf ->
  map (fun i => sph_dec64be_aligned (skipn (8 * i) buf)) (seq 0 16) = BlakeSpec.block_words big_params buf.
Proof.
  intros Hl Hb. apply map_ext_in; intros i Hi. apply in_seq in Hi.
  cbn [big_params BlakeSpec.wbytes].
  change sph_dec64be_aligned with sph_dec64be.
  rewrite dec64be_spec by (try apply Forall_drop; try assumption; rewrite length_skipn; lia).
  now rewrite be_word_combine.
Qed.

Lemma COMPRESS64_rounds H S T0 T1 buf :
  length H = 8%nat ->
  let M := map (fun i => sph_dec64be_aligned (skipn (8 * i) buf)) (seq 0 16) in
  let V := H ++ map (fun i => S.[i] ^^ CBn.[i]) (seq 0 4) ++
           [T0 ^^ CBn.[4]; T0 ^^ CBn.[5]; T1 ^^ CBn.[6]; T1 ^^ CBn.[7]] in
  COMPRESS64 H S T0 T1 buf =
    finish_words H S (fold_left (fun V r => ROUND_B M (r mod 10) V) (seq 0 16) V) /\
  COMPRESS64_compact H S T0 T1 buf =
    finish_words H S (fold_left (fun V r => ROUND_B_compact M r V) (seq 0 16) V).
Proof.
  intros HH. unfold COMPRESS64, COMPRESS64_compact.
  generalize ROUND_B as round; generalize ROUND_B_compact as round_compact; intros.
  destruct_list_n H. split; reflexivity.
Qed.

Lemma COMPRESS64_word H S T0 T1 buf :
  length H = 8%nat -> length buf = 128%nat -> bytes buf ->
  COMPRESS64 H S T0 T1 buf = word_compress big_params H S T0 T1 (BlakeSpec.block_words big_params buf) /\
  COMPRESS64_compact H S T0 T1 buf = COMPRESS64 H S T0 T1 buf.
Proof.
  intros HH Hl Hb. destruct (COMPRESS64_rounds H S T0 T1 buf HH) as [-> ->].
  rewrite dec64_words by assumption. split.
  - unfold word_compress, start_words, const. rewrite <- (proj1 (proj2 constants_spec)).
    apply (f_equal (finish_words H S)).
    apply fold_left_ext_in. intros; apply ROUND_B_word.
  - apply (f_equal (finish_words H S)). apply fold_left_ext_in. intros V r Hr. apply in_seq in Hr.
    apply ROUND_B_compact_eq. lia.
Qed.
