(* ===== verification/BlakeHash.v ===== *)
(** BLAKE: the buffered update with its two-word bit counter, the counter
    corrections of the final blocks, the padding and the output of blake.c
    compute the BLAKE digests, for every way of cutting the message into
    updates. *)
From Stdlib Require Import ZifyNat.
From S2P Require Import Prelude SphTypes Stream Blake SphSpec BlakeProofs.
Import Blake.

(** * Arithmetic of the two-word counter *)

(** Adding [c] to a counter held in two words of [w] bits, with the carry found
    as the code finds it. *)
Lemma two_word_add w c x :
  0 <= w -> 0 <= x -> 0 < c < 2 ^ w ->
  let lo := x mod 2 ^ w in
  let hi := Z.shiftr x w mod 2 ^ w in
  let lo' := (lo + c) mod 2 ^ w in
  lo' = (x + c) mod 2 ^ w /\
  (if lo' <? c then (hi + 1) mod 2 ^ w else hi) = Z.shiftr (x + c) w mod 2 ^ w.
Proof.
  intros Hw Hx Hc. cbv zeta. rewrite Zplus_mod_idemp_l. split; [reflexivity|].
  rewrite !Z.shiftr_div_pow2 by lia. set (W := 2 ^ w) in *.
  pose proof (Z.div_mod x W ltac:(lia)) as D. pose proof (Z.mod_pos_bound x W ltac:(lia)) as R.
  destruct (Z.lt_ge_cases (x mod W + c) W) as [Hlt|Hge].
  - assert (E : (x + c) / W = x / W) by (symmetry; apply (Z.div_unique _ _ _ (x mod W + c)); lia).
    assert (M : (x + c) mod W = x mod W + c) by (symmetry; apply (Z.mod_unique _ _ (x / W)); lia).
    rewrite M, E. destruct (Z.ltb_spec (x mod W + c) c); [lia | reflexivity].
  - assert (E : (x + c) / W = x / W + 1)
      by (symmetry; apply (Z.div_unique _ _ _ (x mod W + c - W)); lia).
    assert (M : (x + c) mod W = x mod W + c - W)
      by (symmetry; apply (Z.mod_unique _ _ (x / W + 1)); lia).
    rewrite M, E. destruct (Z.ltb_spec (x mod W + c - W) c); [apply Zplus_mod_idemp_l | lia].
Qed.

(** The counter before the last block: the code sets it so that the update of
    the block step, which adds [c], yields the number of message bits, or 0 when
    the block has none. [x] is a multiple of [c], [y < c]. *)
Definition close_counter (w c lo hi y : Z) : Z * Z :=
  if y =? 0 then (2 ^ w - c, 2 ^ w - 1)
  else if lo =? 0 then ((2 ^ w - c + y) mod 2 ^ w, (hi - 1) mod 2 ^ w)
  else ((lo - (c - y)) mod 2 ^ w, hi).

(** A multiple of [c] leaves room for [c] below the next multiple of 2^w. *)
Lemma multiple_room W c k :
  0 < c -> 0 < W -> (c | W) -> 0 <= k ->
  c * k mod W + c <= W /\ (c * k mod W <> 0 -> c <= c * k mod W).
Proof.
  intros Hc HW [q Hq] Hk.
  assert (Hqp : 0 < q) by (apply (Z.mul_pos_cancel_r q c); lia).
  assert (Rq := Z.mod_pos_bound k q Hqp).
  assert (Em : c * k mod W = c * (k mod q))
    by (rewrite Hq, (Z.mul_comm q c); apply Z.mul_mod_distr_l; lia).
  rewrite Em, Hq. split.
  - pose proof (Z.mul_le_mono_nonneg_l (k mod q + 1) q c). lia.
  - intros H0. assert (k mod q <> 0) by (intros E0; apply H0; rewrite E0; lia).
    pose proof (Z.mul_le_mono_nonneg_l 1 (k mod q) c). lia.
Qed.

Lemma multiple_add W c k y :
  0 < c -> 0 < W -> (c | W) -> 0 <= k -> 0 <= y < c ->
  (c * k + y) / W = c * k / W /\ (c * k + y) mod W = c * k mod W + y.
Proof.
  intros Hc HW Hq Hk Hy. destruct (multiple_room W c k Hc HW Hq Hk) as [L _].
  pose proof (Z.div_mod (c * k) W ltac:(lia)) as D.
  pose proof (Z.mod_pos_bound (c * k) W ltac:(lia)) as R.
  set (x := c * k) in *. clearbody x. set (d := x / W) in *. set (r := x mod W) in *.
  clearbody d r. split; symmetry.
  - apply (Z.div_unique _ _ _ (r + y)); lia.
  - apply (Z.mod_unique _ _ d); lia.
Qed.

Lemma close_counter_spec w c k y :
  0 <= w -> 0 < c < 2 ^ w -> (c | 2 ^ w) -> 0 <= k -> 0 <= y < c ->
  let x := c * k in
  let '(lo, hi) := close_counter w c (x mod 2 ^ w) (Z.shiftr x w mod 2 ^ w) y in
  let t := if y =? 0 then 0 else x + y in
  let lo' := (lo + c) mod 2 ^ w in
  lo' = t mod 2 ^ w /\
  (if lo' <? c then (hi + 1) mod 2 ^ w else hi) = Z.shiftr t w mod 2 ^ w.
Proof.
  intros Hw Hc Hq Hk Hy. cbv zeta. unfold close_counter.
  rewrite !Z.shiftr_div_pow2 by lia. set (W := 2 ^ w) in *.
  destruct (Z.eqb_spec y 0) as [->|Hy0].
  { replace (W - c + c) with (0 + 1 * W) by lia. rewrite Z.mod_add, Z.mod_0_l, Z.div_0_l by lia.
    split; [reflexivity|]. destruct (Z.ltb_spec 0 c); [|lia].
    replace (W - 1 + 1) with (0 + 1 * W) by lia. now rewrite Z.mod_add, Z.mod_0_l by lia. }
  destruct (multiple_room W c k ltac:(lia) ltac:(lia) Hq Hk) as [L Hle].
  destruct (multiple_add W c k y ltac:(lia) ltac:(lia) Hq Hk Hy) as [-> ->].
  pose proof (Z.mod_pos_bound (c * k) W ltac:(lia)) as R.
  set (r := c * k mod W) in *. set (d := c * k / W). clearbody r d W.
  destruct (Z.eqb_spec r 0) as [->|H0]; rewrite Zplus_mod_idemp_l.
  - replace (W - c + y + c) with (y + 1 * W) by lia.
    rewrite Z.mod_add, (Z.mod_small y) by lia. split; [reflexivity|].
    destruct (Z.ltb_spec y c); [|lia]. rewrite Zplus_mod_idemp_l.
    replace (d mod W - 1 + 1) with (d mod W) by lia. apply Z.mod_mod; lia.
  - replace (r - (c - y) + c) with (r + y) by lia. specialize (Hle H0).
    rewrite (Z.mod_small (r + y)) by lia. split; [reflexivity|].
    destruct (Z.ltb_spec (r + y) c); [lia | reflexivity].
Qed.

(** The bytes between the message and its length. *)
Definition fill (last : bool) (k : nat) : list Z :=
  let l := if last then 1 else 0 in
  if (k =? 1)%nat then [0x80 |: l] else [0x80] ++ repeat 0 (k - 2) ++ [l].

Lemma length_fill last k : (1 <= k)%nat -> length (fill last k) = k.
Proof.
  intros Hk. unfold fill. destruct (Nat.eqb_spec k 1); [cbn [length]; lia|].
  rewrite !length_app, repeat_length. cbn [length]. lia.
Qed.

Section Params.
Context (p : BlakeSpec.params) (salt : list Z).

(** The word size in bits, the block size in bytes and in bits. *)
Let w := BlakeSpec.wbits p.
Let B := BlakeSpec.block_bytes p.
Let c := 8 * Z.of_nat B.

(** What the code runs on a full buffer. *)
Context (step : list Z * list Z * (Z * Z) -> list Z -> list Z * list Z * (Z * Z)).
Context (Hwords : (1 <= BlakeSpec.wbytes p)%nat) (Hc : c < 2 ^ w) (Hdiv : (c | 2 ^ w)).
Context (Hpi : Forall (word w) (BlakeSpec.pi_words p)) (Hsalt : Forall (word w) salt).
Context (Hstep : forall H T0 T1 b, length H = 8%nat -> length b = B -> bytes b ->
  step (H, salt, (T0, T1)) b =
  let T0 := BlakeSpec.trunc p (T0 + c) in
  let T1 := if T0 <? c then BlakeSpec.trunc p (T1 + 1) else T1 in
  (word_compress p H salt T0 T1 (BlakeSpec.block_words p b), salt, (T0, T1))).

Lemma w_pos : 0 <= w.
Proof. unfold w, BlakeSpec.wbits. lia. Qed.

Lemma B_pos : (0 < B)%nat.
Proof. unfold B, BlakeSpec.block_bytes. lia. Qed.

Lemma c_pos : 0 < c < 2 ^ w.
Proof. pose proof B_pos. unfold c in *. lia. Qed.

(** The reference with the number of whole blocks beside it. *)
Definition spec_step (st : list Z * nat) (b : list Z) : list Z * nat :=
  let '(h, k) := st in
  (BlakeSpec.compress p h salt (8 * Z.of_nat (B * (k + 1))) b, (k + 1)%nat).

(** The two words that hold the bit count [t]. *)
Definition count_words (t : Z) : Z * Z :=
  (BlakeSpec.trunc p t, BlakeSpec.trunc p (Z.shiftr t w)).

Definition state_ok (h : list Z) : Prop := length h = 8%nat /\ Forall (word w) h.

Definition related (st : list Z * list Z * (Z * Z)) (sp : list Z * nat) : Prop :=
  state_ok (fst sp) /\ st = (fst sp, salt, count_words (8 * Z.of_nat (B * snd sp))).

(** One block, once the counter yields [t]. *)
Lemma step_compress h lo hi t b :
  state_ok h -> length b = B -> bytes b ->
  let lo' := (lo + c) mod 2 ^ w in
  lo' = t mod 2 ^ w ->
  (if lo' <? c then (hi + 1) mod 2 ^ w else hi) = Z.shiftr t w mod 2 ^ w ->
  step (h, salt, (lo, hi)) b = (BlakeSpec.compress p h salt t b, salt, count_words t) /\
  state_ok (BlakeSpec.compress p h salt t b).
Proof.
  intros [Hh Hhw] Hl Hb lo' Hlo Hhi. rewrite Hstep by assumption. cbv zeta.
  unfold BlakeSpec.trunc. fold w. fold lo'. rewrite Hhi, Hlo.
  rewrite <- (word_compress_spec p h salt t b Hh). split; [reflexivity|]. split.
  - unfold word_compress, finish_words. now autorewrite with lens.
  - apply Forall_word_compress; auto using word_trunc.
Qed.

Lemma step_related st sp b :
  related st sp -> length b = B -> bytes b -> related (step st b) (spec_step sp b).
Proof.
  destruct sp as [h k]. intros [Hok ->] Hl Hb. cbn [fst snd] in *.
  pose proof (two_word_add w c (8 * Z.of_nat (B * k)) w_pos ltac:(lia) c_pos) as [H1 H2].
  replace (8 * Z.of_nat (B * k) + c) with (8 * Z.of_nat (B * (k + 1))) in H1, H2 by (unfold c; lia).
  destruct (step_compress h _ _ _ b Hok Hl Hb H1 H2) as [E Hok'].
  unfold count_words, BlakeSpec.trunc. fold w. rewrite E.
  split; [exact Hok' | reflexivity].
Qed.

(** ** The blocks of a padded message *)

Lemma compress_blocks_absorb len n x h i m :
  len = (B * i + length m)%nat ->
  let '((h', i'), t) := absorb B spec_step (h, i) m in
  i' = (i + length m / B)%nat /\
  BlakeSpec.compress_blocks p (length m / B + n) salt len i h (m ++ x) =
  BlakeSpec.compress_blocks p n salt len i' h' (t ++ x).
Proof.
  pose proof B_pos as HB. remember (h, i) as st eqn:E. revert h i E. revert st m.
  apply (absorb_ind B spec_step HB (fun st m => forall h i, st = (h, i) ->
    len = (B * i + length m)%nat ->
    let '((h', i'), t) := absorb B spec_step st m in
    i' = (i + length m / B)%nat /\
    BlakeSpec.compress_blocks p (length m / B + n) salt len i h (m ++ x) =
    BlakeSpec.compress_blocks p n salt len i' h' (t ++ x))).
  - intros st m Hm h i -> Hlen. rewrite absorb_short, Nat.div_small by assumption.
    split; [lia | reflexivity].
  - intros st b m Hb IH h i -> Hlen. rewrite absorb_block_app by assumption.
    rewrite length_app in *. cbn [spec_step] in *.
    specialize (IH _ _ eq_refl ltac:(lia)).
    destruct (absorb B spec_step _ m) as [[h' i'] t]. destruct IH as [-> IH].
    replace ((length b + length m) / B)%nat with (S (length m / B))
      by (rewrite Hb; replace (B + length m)%nat with (length m + 1 * B)%nat by lia;
          rewrite Nat.div_add by lia; lia).
    split; [lia|]. rewrite <- IH. cbn [Nat.add BlakeSpec.compress_blocks]. fold B.
    rewrite <- app_assoc, firstn_app, skipn_app, Hb, Nat.sub_diag, firstn_O, skipn_O, app_nil_r,
      firstn_all2, skipn_all2 by lia. cbn [app].
    unfold BlakeSpec.counter. fold B.
    destruct (Nat.leb_spec len (B * i)); [lia|]. now rewrite Nat.min_r by lia.
Qed.

(** ** The final blocks *)

Definition length_field (m : list Z) : list Z :=
  rev (le_split (2 * BlakeSpec.wbytes p) (8 * Z.of_nat (length m))).
Definition output (d : nat) (h : list Z) : list Z :=
  flat_map (fun x => rev (le_split (BlakeSpec.wbytes p) x)) (firstn d h).

(** The state after the whole blocks of [m] and the bytes after them. *)
Context (iv : list Z).
Definition mid (m : list Z) : list Z := fst (fst (absorb B spec_step (iv, 0%nat) m)).
Definition tail (m : list Z) : list Z := snd (absorb B spec_step (iv, 0%nat) m).
Definition final_count (m : list Z) : Z :=
  if (length m mod B =? 0)%nat then 0 else 8 * Z.of_nat (length m).

Lemma length_tail m : length (tail m) = (length m mod B)%nat.
Proof. apply absorb_tail_mod, B_pos. Qed.

Lemma blake_unfold last d m k n :
  let L := (2 * BlakeSpec.wbytes p)%nat in
  (length m mod B + k + L = n * B)%nat -> (1 <= k <= B)%nat ->
  BlakeSpec.blake p iv salt last d m =
  output d (BlakeSpec.compress_blocks p n salt (length m) (length m / B) (mid m)
             (tail m ++ fill last k ++ length_field m)).
Proof.
  intros L Hn Hk. pose proof B_pos as HB. pose proof (Nat.div_mod_eq (length m) B) as D.
  pose proof (Nat.mod_upper_bound (length m) B ltac:(lia)) as U.
  destruct n as [|n]; [lia|].
  assert (Ek : (BlakeSpec.block_bytes p - (length m + 2 * BlakeSpec.wbytes p) mod BlakeSpec.block_bytes p)%nat = k).
  { fold B L. destruct (Nat.eq_dec k B) as [->|Hne].
    - replace (length m + L)%nat with ((length m / B + n) * B)%nat by lia.
      rewrite Nat.Div0.mod_mul. lia.
    - replace ((length m + L) mod B)%nat with (B - k)%nat; [lia|].
      apply (Nat.mod_unique _ _ (length m / B + n)); lia. }
  unfold BlakeSpec.blake, BlakeSpec.pad. cbv zeta. rewrite Ek.
  change (if (k =? 1)%nat then [0x80 |: (if last then 1 else 0)]
          else [0x80] ++ repeat 0 (k - 2) ++ [if last then 1 else 0]) with (fill last k).
  fold (length_field m). fold B.
  replace (length (m ++ fill last k ++ length_field m) / B)%nat with (length m / B + S n)%nat.
  - pose proof (compress_blocks_absorb (length m) (S n) (fill last k ++ length_field m) iv 0 m ltac:(lia)) as G.
    unfold output, mid, tail. destruct (absorb B spec_step (iv, 0%nat) m) as [[h' i'] t].
    destruct G as [-> G]. cbn [fst snd]. rewrite G. reflexivity.
  - rewrite !length_app, length_fill by lia. unfold length_field.
    rewrite length_rev, length_le_split. fold L.
    replace (length m + (k + L))%nat with ((length m / B + S n) * B)%nat by lia.
    symmetry. apply Nat.div_mul. lia.
Qed.

Lemma counter_mid m :
  BlakeSpec.counter p (length m) (length m / B) = final_count m.
Proof.
  pose proof B_pos as HB. pose proof (Nat.div_mod_eq (length m) B) as D.
  pose proof (Nat.mod_upper_bound (length m) B ltac:(lia)) as U.
  unfold BlakeSpec.counter, final_count. fold B.
  destruct (Nat.leb_spec (length m) (B * (length m / B)));
    destruct (Nat.eqb_spec (length m mod B) 0); lia.
Qed.

(** The padding fits in the block of the tail. *)
Lemma blake_one_block last d m :
  let L := (2 * BlakeSpec.wbytes p)%nat in
  (length m mod B + L < B)%nat ->
  BlakeSpec.blake p iv salt last d m =
  output d (BlakeSpec.compress p (mid m) salt (final_count m)
    (tail m ++ fill last (B - L - length m mod B) ++ length_field m)).
Proof.
  intros L H. rewrite (blake_unfold last d m (B - L - length m mod B) 1) by (fold L; lia).
  cbn [BlakeSpec.compress_blocks]. rewrite counter_mid. fold B. rewrite firstn_all2; [reflexivity|].
  rewrite !length_app, length_tail, length_fill by lia. unfold length_field.
  rewrite length_rev, length_le_split. fold L. lia.
Qed.

(** The padding takes one more block, which holds no message bits. *)
Lemma blake_two_blocks last d m :
  let L := (2 * BlakeSpec.wbytes p)%nat in
  (B <= length m mod B + L)%nat ->
  BlakeSpec.blake p iv salt last d m =
  output d (BlakeSpec.compress p
    (BlakeSpec.compress p (mid m) salt (final_count m)
       (tail m ++ [0x80] ++ repeat 0 (B - length m mod B - 1)))
    salt 0 (repeat 0 (B - L - 1) ++ [if last then 1 else 0] ++ length_field m)).
Proof.
  intros L H. pose proof B_pos as HB. pose proof (Nat.div_mod_eq (length m) B) as D.
  pose proof (Nat.mod_upper_bound (length m) B ltac:(lia)) as U.
  assert (HL : (2 * L <= B)%nat) by (unfold L, B, BlakeSpec.block_bytes; lia).
  set (pt := (length m mod B)%nat) in *.
  rewrite (blake_unfold last d m (2 * B - L - pt) 2) by (fold L pt; lia).
  cbn [BlakeSpec.compress_blocks]. rewrite counter_mid. fold B.
  assert (E0 : BlakeSpec.counter p (length m) (length m / B + 1) = 0).
  { unfold BlakeSpec.counter. fold B. destruct (Nat.leb_spec (length m) (B * (length m / B + 1))); [reflexivity|lia]. }
  rewrite E0.
  assert (Es : tail m ++ fill last (2 * B - L - pt) ++ length_field m =
    (tail m ++ [0x80] ++ repeat 0 (B - pt - 1)) ++
    (repeat 0 (B - L - 1) ++ [if last then 1 else 0] ++ length_field m)).
  { unfold fill. destruct (Nat.eqb_spec (2 * B - L - pt) 1); [lia|].
    replace (2 * B - L - pt - 2)%nat with ((B - pt - 1) + (B - L - 1))%nat by lia.
    rewrite repeat_app. now rewrite <- !app_assoc. }
  assert (E1 : length (tail m ++ [0x80] ++ repeat 0 (B - pt - 1)) = B).
  { rewrite !length_app, length_tail, repeat_length. cbn [length]. fold pt. lia. }
  rewrite Es, firstn_app, skipn_app, E1, Nat.sub_diag, firstn_O, skipn_O, app_nil_r,
    firstn_all2, skipn_all2 by lia. cbn [app].
  rewrite firstn_all2; [reflexivity|].
  rewrite length_app, repeat_length. cbn [length]. unfold length_field.
  rewrite length_rev, length_le_split. fold L. lia.
Qed.

(** ** Contexts *)

Context (Hiv : state_ok iv).

Definition blake_rep (buf : list Z) (ptr : nat) (st : list Z * list Z * (Z * Z)) (m : list Z) : Prop :=
  bytes m /\ represents B step B (iv, salt, (0, 0)) buf ptr st m.

Lemma blake_rep_state buf ptr st m :
  blake_rep buf ptr st m ->
  st = (mid m, salt, count_words (c * Z.of_nat (length m / B))) /\ state_ok (mid m) /\
  firstn ptr buf = tail m /\ ptr = (length m mod B)%nat /\ bytes (tail m).
Proof.
  intros [Hm Hr]. pose proof B_pos as HB.
  destruct (absorb_rel B step spec_step related (word 8) (iv, salt, (0, 0)) (iv, 0%nat) m HB)
    as [R E].
  - intros; now apply step_related.
  - split; [exact Hiv|]. cbn [fst snd]. rewrite Nat.mul_0_r. unfold count_words, BlakeSpec.trunc.
    rewrite Z.shiftr_0_l, Z.mod_0_l by (apply Z.pow_nonzero; [lia | apply w_pos]). reflexivity.
  - assumption.
  - assert (Hp : ptr = (length m mod B)%nat)
      by exact (represents_length B step HB B ltac:(lia) _ _ _ _ _ Hr).
    destruct Hr as (_ & _ & A). rewrite A in R, E. cbn [fst snd] in R, E.
    pose proof (compress_blocks_absorb (length m) 0 [] iv 0 m ltac:(lia)) as G.
    destruct R as [R1 R2]. unfold mid, tail. repeat split; try apply R1; try assumption.
    + rewrite R2. destruct (absorb B spec_step _ m) as [[h' i'] t]. destruct G as [-> _].
      cbn [fst snd]. do 2 f_equal. unfold c. lia.
    + now apply absorb_tail_forall.
Qed.

(** The last block of the message, with the counter the code sets for it. *)
Lemma last_step m data y :
  let t := c * Z.of_nat (length m / B) in
  bytes m -> state_ok (mid m) -> bytes data ->
  length data = (B - length m mod B)%nat -> y = 8 * Z.of_nat (length m mod B) ->
  step (mid m, salt, close_counter w c (t mod 2 ^ w) (Z.shiftr t w mod 2 ^ w) y) (tail m ++ data) =
  (BlakeSpec.compress p (mid m) salt (final_count m) (tail m ++ data), salt,
   count_words (final_count m)) /\
  state_ok (BlakeSpec.compress p (mid m) salt (final_count m) (tail m ++ data)).
Proof.
  intros t Hm Hok Hd Hl ->. pose proof B_pos as HB.
  pose proof (Nat.mod_upper_bound (length m) B ltac:(lia)) as U.
  pose proof (Nat.div_mod_eq (length m) B) as D.
  pose proof (close_counter_spec w c (Z.of_nat (length m / B)) (8 * Z.of_nat (length m mod B))
    w_pos c_pos Hdiv ltac:(lia) ltac:(unfold c; lia)) as G. cbv zeta in G. fold t in G.
  destruct (close_counter w c _ _ _) as [lo hi].
  replace (if 8 * Z.of_nat (length m mod B) =? 0 then 0 else t + 8 * Z.of_nat (length m mod B))
    with (final_count m) in G.
  - destruct G as [G1 G2]. apply step_compress; try assumption.
    + rewrite length_app, length_tail, Hl. clear - U. lia.
    + apply Forall_app; split; [|assumption]. apply absorb_tail_forall; [exact HB | exact Hm].
  - unfold final_count. set (r := (length m mod B)%nat) in *.
    replace (8 * Z.of_nat r =? 0) with (r =? 0)%nat by (clear; destruct r; reflexivity).
    destruct (r =? 0)%nat; [reflexivity|]. unfold t, c. rewrite D at 1.
    rewrite Nat2Z.inj_add, Nat2Z.inj_mul. ring.
Qed.

(** The length words of the code are those of the padding. *)
Lemma length_words m :
  let t := c * Z.of_nat (length m / B) in
  let y := 8 * Z.of_nat (length m mod B) in
  length_field m =
  rev (le_split (BlakeSpec.wbytes p) (Z.shiftr t w mod 2 ^ w)) ++
  rev (le_split (BlakeSpec.wbytes p) ((t mod 2 ^ w + y) mod 2 ^ w)).
Proof.
  intros t y. pose proof B_pos as HB. pose proof c_pos as Hcp.
  pose proof (Nat.mod_upper_bound (length m) B ltac:(lia)) as U.
  assert (E : 8 * Z.of_nat (length m) = t + y).
  { unfold t, y, c. rewrite (Nat.div_mod_eq (length m) B) at 1.
    rewrite Nat2Z.inj_add, Nat2Z.inj_mul. ring. }
  unfold length_field. rewrite E.
  replace (2 * BlakeSpec.wbytes p)%nat with (BlakeSpec.wbytes p + BlakeSpec.wbytes p)%nat by lia.
  rewrite le_split_app, rev_app_distr.
  change (8 * Z.of_nat (BlakeSpec.wbytes p)) with w.
  rewrite Zplus_mod_idemp_l. f_equal; f_equal.
  - rewrite <- (le_split_mod _ (Z.shiftr (t + y) w)). change (8 * Z.of_nat (BlakeSpec.wbytes p)) with w.
    f_equal. pose proof w_pos. rewrite !Z.shiftr_div_pow2 by assumption.
    f_equal. apply multiple_add; try lia; assumption.
  - symmetry. apply le_split_mod.
Qed.

(** A block with no message bits. *)
Lemma empty_step h data :
  state_ok h -> length data = B -> bytes data ->
  step (h, salt, (2 ^ w - c, 2 ^ w - 1)) data =
  (BlakeSpec.compress p h salt 0 data, salt, count_words 0) /\
  state_ok (BlakeSpec.compress p h salt 0 data).
Proof.
  intros Hok Hl Hb.
  pose proof (close_counter_spec w c 0 0 w_pos c_pos Hdiv ltac:(lia) ltac:(pose proof c_pos; lia)) as G.
  destruct G as [G1 G2]. now apply step_compress.
Qed.
End Params.

(** * The padding buffer of [close] *)

(** The last two copies overwrite the end of the buffer. *)
Lemma tail_copies (u th tl : list Z) (off k ptr : nat) :
  length th = k -> length tl = k -> length u = (off + 2 * k)%nat -> (ptr <= off)%nat ->
  skipn ptr (memcpy_at (memcpy_at u off th) (off + k) tl) = skipn ptr (firstn off u) ++ th ++ tl.
Proof.
  intros Ht Hl Hu Hp. unfold memcpy_at. rewrite Ht, Hl.
  rewrite (firstn_app (off + k)), length_firstn, Hu.
  replace (off + k - Nat.min off (off + 2 * k))%nat with k by lia.
  rewrite (firstn_all2 (n := off + k)) by (rewrite length_firstn; lia).
  rewrite firstn_app, Ht, Nat.sub_diag, firstn_O, app_nil_r, (firstn_all2 th) by lia.
  rewrite (skipn_all2 (n := off + k + k)), app_nil_r
    by (rewrite !length_app, length_firstn, length_skipn; lia).
  rewrite <- app_assoc, skipn_app, length_firstn.
  replace (ptr - Nat.min off (length u))%nat with 0%nat by lia. reflexivity.
Qed.

Lemma bytes_zeros k : bytes (repeat 0 k).
Proof. apply Forall_forall. intros x Hx. apply repeat_spec in Hx as ->. auto with word. Qed.

Lemma bytes_fill last k : bytes (fill last k).
Proof.
  unfold fill. destruct (k =? 1)%nat.
  - apply Forall_cons; [destruct last; auto with word | apply Forall_nil].
  - apply Forall_app; split; [apply words_check; reflexivity|]. apply Forall_app; split.
    + apply bytes_zeros.
    + apply Forall_cons; [destruct last; auto with word | apply Forall_nil].
Qed.

(** A check of lists for every position of the pointer, by evaluation. *)
Lemma pointer_check (lo n : nat) (f g : nat -> list Z) :
  forallb (fun i => if list_eq_dec Z.eq_dec (f i) (g i) then true else false) (seq lo n) = true ->
  forall i, (lo <= i < lo + n)%nat -> f i = g i.
Proof.
  rewrite forallb_forall. intros H i Hi. specialize (H i ltac:(apply in_seq; lia)).
  destruct (list_eq_dec Z.eq_dec (f i) (g i)); [assumption | discriminate].
Qed.

(** * The 32-bit functions *)

Section Blake32.
Context (iv : list Z) (Hiv : state_ok BlakeSpec.small_params iv).

Lemma small_pi_words : Forall (word 32) (BlakeSpec.pi_words BlakeSpec.small_params).
Proof. apply words_check. vm_compute. reflexivity. Qed.

Lemma small_salt_words : Forall (word 32) salt_zero_small.
Proof. apply words_check. reflexivity. Qed.

Lemma blake32_block_step H T0 T1 b :
  length H = 8%nat -> length b = 64%nat -> bytes b ->
  blake32_block (H, salt_zero_small, (T0, T1)) b =
  let T0 := BlakeSpec.trunc BlakeSpec.small_params (T0 + 512) in
  let T1 := if T0 <? 512 then BlakeSpec.trunc BlakeSpec.small_params (T1 + 1) else T1 in
  (word_compress BlakeSpec.small_params H salt_zero_small T0 T1 (BlakeSpec.block_words BlakeSpec.small_params b), salt_zero_small, (T0, T1)).
Proof.
  intros HH Hl Hb. unfold blake32_block. cbv zeta.
  rewrite !trunc_small. rewrite (proj1 (COMPRESS32_word H salt_zero_small _ _ b HH Hl Hb)). reflexivity.
Qed.

(** The context [sc] stands for the message [m]. *)
Definition small_rep (sc : sph_blake_small_context) (m : list Z) : Prop :=
  blake_rep BlakeSpec.small_params salt_zero_small blake32_block iv (small_buf sc) (small_ptr sc)
    (small_H sc, small_S sc, (small_T0 sc, small_T1 sc)) m.

Lemma blake32_init_rep sc : length (small_buf sc) = 64%nat -> small_rep (blake32_init sc iv salt_zero_small) [].
Proof. intros Hb. split; [apply Forall_nil|]. apply represents_nil; first [exact Hb | vm_compute; lia]. Qed.

(** [blake32] appends its data to the message of the context. *)
Lemma blake32_rep sc m data :
  bytes data -> small_rep sc m -> small_rep (blake32 sc data) (m ++ data).
Proof.
  intros Hdata [Hm Hr]. split; [now apply Forall_app|].
  unfold blake32. destruct (Nat.ltb_spec (length data) (64 - small_ptr sc)).
  - apply (short_copy_represents 64 _ ltac:(lia) 64); [lia | exact Hr | assumption].
  - pose proof (core_loop_represents 64 blake32_block ltac:(lia) 64 ltac:(lia)
                  (fun st b => full_exact 64 blake32_block st b) _ _ _ _ _ data Hr) as G.
    destruct (core_loop _ _ _ _ _ _ _) as [[b' p'] [[H' S'] [T0' T1']]]. exact G.
Qed.

(** Data that fill the buffer run the block step once. *)
Lemma blake32_fill sc data :
  length (small_buf sc) = 64%nat -> (small_ptr sc < 64)%nat ->
  length data = (64 - small_ptr sc)%nat ->
  let '(H', S', (T0', T1')) := blake32_block (small_H sc, small_S sc, (small_T0 sc, small_T1 sc))
                               (firstn (small_ptr sc) (small_buf sc) ++ data) in
  exists buf', length buf' = 64%nat /\ blake32 sc data =
    {| small_buf := buf'; small_ptr := 0; small_H := H'; small_S := S'; small_T0 := T0'; small_T1 := T1' |}.
Proof.
  intros Hb Hp Hl. unfold blake32.
  destruct (Nat.ltb_spec (length data) (64 - small_ptr sc)); [lia|].
  destruct (core_loop_one_block 64 blake32_block ltac:(lia) 64 ltac:(lia)
    (fun st b => full_exact 64 blake32_block st b) _ _
    (small_H sc, small_S sc, (small_T0 sc, small_T1 sc)) data Hb Hp Hl) as (buf' & -> & Hb').
  destruct (blake32_block _ _) as [[H' S'] [T0' T1']]. exists buf'. now split.
Qed.

(** ** The bytes that [close] feeds *)

(** The number of output words; the padding ends with a 1 bit when it is 8. *)
Context (out : nat) (Hout : (out <= 8)%nat).

Definition small_u1 (ptr : nat) : list Z :=
  let u := (repeat 0 64).[ptr := 0x80] in
  let u := memcpy_at u (ptr + 1) (repeat 0 (55 - ptr)) in
  if (out =? 8)%nat then u.[55 := u.[55] |: 1] else u.
Definition small_u2 (ptr : nat) : list Z :=
  memcpy_at (repeat 0 64).[ptr := 0x80] (ptr + 1) (repeat 0 (63 - ptr)).
Definition small_u3 (ptr : nat) : list Z :=
  let u := memcpy_at (small_u2 ptr) 0 (repeat 0 56) in
  if (out =? 8)%nat then u.[55 := 1] else u.

Lemma small_u1_bytes ptr :
  (ptr < 56)%nat ->
  skipn ptr (firstn 56 (small_u1 ptr)) = fill (out =? 8)%nat (56 - ptr) /\ length (small_u1 ptr) = 64%nat.
Proof.
  intros Hp. unfold small_u1. generalize (out =? 8)%nat as l; intros l. split.
  - apply (pointer_check 0 56 (fun ptr => skipn ptr (firstn 56
      (let u := memcpy_at (repeat 0 64).[ptr := 0x80] (ptr + 1) (repeat 0 (55 - ptr)) in
       if l then u.[55 := u.[55] |: 1] else u))) (fun ptr => fill l (56 - ptr)));
      [destruct l; vm_compute; reflexivity | lia].
  - cbv zeta. destruct l; rewrite ?length_upd, length_memcpy_at; rewrite ?repeat_length, ?length_upd, ?repeat_length; lia.
Qed.

Lemma small_u23_bytes ptr :
  (56 <= ptr < 64)%nat ->
  skipn ptr (small_u2 ptr) = [0x80] ++ repeat 0 (64 - ptr - 1) /\
  firstn 56 (small_u3 ptr) = repeat 0 55 ++ [if (out =? 8)%nat then 1 else 0] /\
  length (small_u3 ptr) = 64%nat.
Proof.
  intros Hp. unfold small_u3, small_u2. generalize (out =? 8)%nat as l; intros l. repeat split.
  - apply (pointer_check 56 8 (fun ptr => skipn ptr (memcpy_at (repeat 0 64).[ptr := 0x80] (ptr + 1)
      (repeat 0 (63 - ptr)))) (fun ptr => [0x80] ++ repeat 0 (64 - ptr - 1)));
      [vm_compute; reflexivity | lia].
  - apply (pointer_check 56 8 (fun ptr => firstn 56
      (let u := memcpy_at (memcpy_at (repeat 0 64).[ptr := 0x80] (ptr + 1) (repeat 0 (63 - ptr))) 0
                  (repeat 0 56) in if l then u.[55 := 1] else u))
      (fun _ => repeat 0 55 ++ [if l then 1 else 0]));
      [destruct l; vm_compute; reflexivity | lia].
  - cbv zeta. destruct l; rewrite ?length_upd, !length_memcpy_at;
      rewrite ?length_memcpy_at; rewrite ?length_upd, ?repeat_length; rewrite ?length_upd, ?repeat_length; lia.
Qed.

Lemma small_divides : (8 * Z.of_nat (BlakeSpec.block_bytes BlakeSpec.small_params) | 2 ^ BlakeSpec.wbits BlakeSpec.small_params).
Proof. exists (2 ^ 23). reflexivity. Qed.

(** The state of a context of [m] in the terms of the reference. *)
Lemma small_rep_state sc m :
  small_rep sc m ->
  let t := 512 * Z.of_nat (length m / 64) in
  let M := mid BlakeSpec.small_params salt_zero_small iv m in
  small_H sc = M /\ small_S sc = salt_zero_small /\
  small_T0 sc = t mod 2 ^ 32 /\ small_T1 sc = Z.shiftr t 32 mod 2 ^ 32 /\
  state_ok BlakeSpec.small_params M /\ bytes m /\ length (small_buf sc) = 64%nat /\
  firstn (small_ptr sc) (small_buf sc) = tail BlakeSpec.small_params salt_zero_small iv m /\
  small_ptr sc = (length m mod 64)%nat.
Proof.
  intros Hr. destruct (blake_rep_state BlakeSpec.small_params salt_zero_small blake32_block ltac:(cbn; lia)
    ltac:(vm_compute; reflexivity) small_divides small_pi_words small_salt_words blake32_block_step iv Hiv _ _ _ _ Hr)
    as (E & Hok & Ht & Hp & _).
  unfold count_words in E. injection E as E1 E2 E3 E4. destruct Hr as [Hm (Hb & _)].
  repeat split; try assumption; apply Hok.
Qed.

(** The three cases of the counter before the last block. *)
Definition small_close_T (sc : sph_blake_small_context) (bit_len : Z) : sph_blake_small_context :=
  if (small_ptr sc =? 0)%nat && (0 =? 0) then small_set_T sc 0xFFFFFE00 0xFFFFFFFF
  else if small_T0 sc =? 0 then
    small_set_T sc (SPH_T32 (0xFFFFFE00 + bit_len)) (SPH_T32 (small_T1 sc - 1))
  else small_set_T sc (SPH_T32 (small_T0 sc - (512 - bit_len))) (small_T1 sc).

Lemma small_close_T_spec sc :
  let y := 8 * Z.of_nat (small_ptr sc) in
  small_close_T sc y =
  let '(T0, T1) := close_counter 32 512 (small_T0 sc) (small_T1 sc) y in small_set_T sc T0 T1.
Proof.
  cbv zeta. unfold small_close_T, close_counter. rewrite andb_true_r.
  replace (8 * Z.of_nat (small_ptr sc) =? 0) with (small_ptr sc =? 0)%nat
    by (destruct (small_ptr sc); reflexivity).
  destruct (small_ptr sc =? 0)%nat; [reflexivity|].
  destruct (small_T0 sc =? 0); rewrite ?SPH_T32_mod; reflexivity.
Qed.

(** Feeding the rest [data] of the last block of the message. *)
Lemma small_last_block sc m data :
  small_rep sc m -> bytes data -> length data = (64 - small_ptr sc)%nat ->
  let h := BlakeSpec.compress BlakeSpec.small_params (mid BlakeSpec.small_params salt_zero_small iv m) salt_zero_small
             (final_count BlakeSpec.small_params m) (tail BlakeSpec.small_params salt_zero_small iv m ++ data) in
  let sc' := blake32 (small_close_T sc (8 * Z.of_nat (small_ptr sc))) data in
  small_H sc' = h /\ small_S sc' = salt_zero_small /\ small_ptr sc' = 0%nat /\
  length (small_buf sc') = 64%nat /\ state_ok BlakeSpec.small_params h.
Proof.
  intros Hr Hd Hl h. destruct (small_rep_state sc m Hr) as (EH & ES & E0 & E1 & Hok & Hm & Hb & Ht & Hp).
  assert (Hlt : (small_ptr sc < 64)%nat) by (rewrite Hp; apply Nat.mod_upper_bound; lia).
  destruct (last_step BlakeSpec.small_params salt_zero_small blake32_block ltac:(cbn; lia)
    ltac:(vm_compute; reflexivity) small_divides small_pi_words small_salt_words blake32_block_step iv m data
    (8 * Z.of_nat (small_ptr sc)) Hm Hok Hd ltac:(rewrite Hl, Hp; reflexivity) ltac:(rewrite Hp; reflexivity))
    as [Es Hok'].
  rewrite small_close_T_spec, E0, E1.
  change (BlakeSpec.wbits BlakeSpec.small_params) with 32 in Es.
  change (8 * Z.of_nat (BlakeSpec.block_bytes BlakeSpec.small_params)) with 512 in Es.
  change (BlakeSpec.block_bytes BlakeSpec.small_params) with 64%nat in Es.
  destruct (close_counter 32 512 _ _ _) as [T0 T1].
  pose proof (blake32_fill (small_set_T sc T0 T1) data Hb Hlt Hl) as F.
  cbn [small_set_T small_H small_S small_T0 small_T1 small_ptr small_buf] in F.
  rewrite EH, ES, Ht, Es in F. destruct (count_words _ _) as [T0' T1'].
  destruct F as (buf' & Hb' & ->). cbn [small_H small_S small_ptr small_buf].
  repeat split; try assumption; apply Hok'.
Qed.

(** Feeding a whole block without message bits. *)
Lemma small_empty_block sc data :
  state_ok BlakeSpec.small_params (small_H sc) -> small_S sc = salt_zero_small -> small_ptr sc = 0%nat ->
  length (small_buf sc) = 64%nat -> length data = 64%nat -> bytes data ->
  let h := BlakeSpec.compress BlakeSpec.small_params (small_H sc) salt_zero_small 0 data in
  let sc' := blake32 (small_set_T sc 0xFFFFFE00 0xFFFFFFFF) data in
  small_H sc' = h /\ state_ok BlakeSpec.small_params h /\ length (small_buf sc') = 64%nat.
Proof.
  intros Hok ES Ep Hb Hd Hbd.
  destruct (empty_step BlakeSpec.small_params salt_zero_small blake32_block ltac:(cbn; lia)
    ltac:(vm_compute; reflexivity) small_divides small_pi_words small_salt_words blake32_block_step
    (small_H sc) data Hok Hd Hbd) as [Es Hok2].
  pose proof (blake32_fill (small_set_T sc 0xFFFFFE00 0xFFFFFFFF) data Hb
    ltac:(cbn [small_set_T small_ptr]; lia) ltac:(cbn [small_set_T small_ptr]; lia)) as F.
  cbn [small_set_T small_H small_S small_T0 small_T1 small_ptr small_buf] in F.
  rewrite Ep, ES in F. cbn [firstn app] in F.
  change (2 ^ BlakeSpec.wbits BlakeSpec.small_params - 8 * Z.of_nat (BlakeSpec.block_bytes BlakeSpec.small_params))
    with 0xFFFFFE00 in Es.
  change (2 ^ BlakeSpec.wbits BlakeSpec.small_params - 1) with 0xFFFFFFFF in Es.
  rewrite Es in F. destruct (count_words _ _) as [T0' T1']. destruct F as (buf' & Hb2 & ->).
  cbn [small_H small_buf]. repeat split; try assumption; apply Hok2.
Qed.

(** The length words. *)
Lemma small_length_words sc m :
  small_rep sc m ->
  sph_enc32be_aligned (small_T1 sc) ++
  sph_enc32be_aligned (SPH_T32 (small_T0 sc + 8 * Z.of_nat (small_ptr sc))) =
  length_field BlakeSpec.small_params m.
Proof.
  intros Hr. destruct (small_rep_state sc m Hr) as (_ & _ & E0 & E1 & _ & _ & _ & _ & Hp).
  pose proof (length_words BlakeSpec.small_params ltac:(cbn; lia) ltac:(vm_compute; reflexivity) small_divides m) as G.
  cbv zeta in G. rewrite G. unfold sph_enc32be_aligned.
  rewrite !store_bswap32 by (try apply word_T32; rewrite E1; apply word_mod; lia).
  rewrite SPH_T32_mod, E0, E1, Hp. reflexivity.
Qed.

Lemma small_output h :
  state_ok BlakeSpec.small_params h ->
  flat_map (fun k => sph_enc32be h.[k]) (seq 0 out) = output BlakeSpec.small_params out h.
Proof.
  intros [Hl Hw]. unfold output. rewrite <- (map_nth_seq h 0) by lia.
  rewrite !flat_map_concat_map, map_map. f_equal. apply map_ext; intros k.
  apply store_bswap32. apply Forall_nth_default; auto with word.
Qed.

(** [close] returns the digest of the message. *)
Lemma blake32_close_digest sc m :
  small_rep sc m ->
  fst (blake32_close sc 0 0 out) =
    BlakeSpec.blake BlakeSpec.small_params iv salt_zero_small (out =? 8)%nat out m /\
  length (small_buf (snd (blake32_close sc 0 0 out))) = 64%nat.
Proof.
  intros Hr. pose proof Hr as Hr0. apply small_rep_state in Hr0 as (_ & _ & _ & _ & _ & _ & _ & _ & Hp).
  unfold blake32_close. cbv zeta. rewrite Z.shiftl_mul_pow2, Z.add_0_r, (Z.mul_comm _ (2 ^ 3)) by lia.
  change (2 ^ 3) with 8. change (Z.shiftr 0x80 0) with 0x80.
  change (((0 &: - (0x80)) |: 0x80) &: 0xFF) with 0x80.
  fold (small_close_T sc (8 * Z.of_nat (small_ptr sc))).
  assert (Hlt : (small_ptr sc < 64)%nat) by (rewrite Hp; apply Nat.mod_upper_bound; lia).
  assert (Lf := small_length_words sc m Hr).
  assert (Hlf : bytes (length_field BlakeSpec.small_params m)) by apply Forall_rev, bytes_le_split.
  destruct (Z.leb_spec (8 * Z.of_nat (small_ptr sc)) 446) as [Hle|Hgt].
  - destruct (small_u1_bytes (small_ptr sc) ltac:(lia)) as [Eu Lu]. fold (small_u1 (small_ptr sc)).
    rewrite (tail_copies _ _ _ 56 4), Eu, Lf
      by (first [apply length_le_split | rewrite Lu; reflexivity | lia]).
    destruct (small_last_block sc m (fill (out =? 8)%nat (56 - small_ptr sc) ++ length_field BlakeSpec.small_params m) Hr)
      as (-> & _ & _ & Hb' & Hok).
    + apply Forall_app; split; [apply bytes_fill | exact Hlf].
    + rewrite length_app, length_fill by lia. unfold length_field.
      rewrite length_rev, length_le_split. cbn [BlakeSpec.small_params BlakeSpec.wbytes]. lia.
    + split; [|exact Hb']. cbn [fst]. rewrite small_output by exact Hok. rewrite Hp.
      symmetry. apply blake_one_block; [cbn; lia | vm_compute; reflexivity | exact small_divides |].
      change (BlakeSpec.block_bytes BlakeSpec.small_params) with 64%nat. cbn [BlakeSpec.small_params BlakeSpec.wbytes]. lia.
  - destruct (small_u23_bytes (small_ptr sc) ltac:(lia)) as (E2 & E3 & L3).
    fold (small_u2 (small_ptr sc)). fold (small_u3 (small_ptr sc)). rewrite E2.
    destruct (small_last_block sc m ([0x80] ++ repeat 0 (64 - small_ptr sc - 1)) Hr)
      as (EH & ES & Ep & Hb' & Hok).
    + apply Forall_app; split; [apply words_check; reflexivity | apply bytes_zeros].
    + rewrite length_app, repeat_length. cbn [length]. lia.
    + set (sc1 := blake32 _ _) in *.
      rewrite <- (skipn_O (memcpy_at _ 60 _)), (tail_copies _ _ _ 56 4), E3, Lf
        by (first [apply length_le_split | rewrite L3; reflexivity | lia]).
      rewrite skipn_O, <- app_assoc.
      set (data := repeat 0 55 ++ _ ++ _).
      assert (Hd : length data = 64%nat).
      { unfold data. rewrite !length_app, repeat_length. unfold length_field.
        rewrite length_rev, length_le_split. reflexivity. }
      assert (Hbd : bytes data).
      { apply Forall_app; split; [apply bytes_zeros|]. apply Forall_app; split; [|exact Hlf].
        apply Forall_cons; [destruct (out =? 8)%nat; auto with word | apply Forall_nil]. }
      destruct (small_empty_block sc1 data ltac:(rewrite EH; exact Hok) ES Ep Hb' Hd Hbd) as (E4 & Hok2 & Hb2).
      cbn [fst snd]. rewrite E4. split; [|exact Hb2].
      rewrite small_output by exact Hok2. rewrite EH, Hp.
      symmetry. apply blake_two_blocks; [cbn; lia | exact small_divides |].
      change (BlakeSpec.block_bytes BlakeSpec.small_params) with 64%nat. cbn [BlakeSpec.small_params BlakeSpec.wbytes]. lia.
Qed.
End Blake32.

(** * The 64-bit functions *)

Section Blake64.
Context (iv : list Z) (Hiv : state_ok BlakeSpec.big_params iv).

Lemma big_pi_words : Forall (word 64) (BlakeSpec.pi_words BlakeSpec.big_params).
Proof. apply words_check. vm_compute. reflexivity. Qed.

Lemma big_salt_words : Forall (word 64) salt_zero_big.
Proof. apply words_check. reflexivity. Qed.

Lemma blake64_block_step H T0 T1 b :
  length H = 8%nat -> length b = 128%nat -> bytes b ->
  blake64_block (H, salt_zero_big, (T0, T1)) b =
  let T0 := BlakeSpec.trunc BlakeSpec.big_params (T0 + 1024) in
  let T1 := if T0 <? 1024 then BlakeSpec.trunc BlakeSpec.big_params (T1 + 1) else T1 in
  (word_compress BlakeSpec.big_params H salt_zero_big T0 T1 (BlakeSpec.block_words BlakeSpec.big_params b), salt_zero_big, (T0, T1)).
Proof.
  intros HH Hl Hb. unfold blake64_block. cbv zeta.
  rewrite !trunc_big. rewrite (proj1 (COMPRESS64_word H salt_zero_big _ _ b HH Hl Hb)). reflexivity.
Qed.

(** The context [sc] stands for the message [m]. *)
Definition big_rep (sc : sph_blake_big_context) (m : list Z) : Prop :=
  blake_rep BlakeSpec.big_params salt_zero_big blake64_block iv (big_buf sc) (big_ptr sc)
    (big_H sc, big_S sc, (big_T0 sc, big_T1 sc)) m.

Lemma blake64_init_rep sc : length (big_buf sc) = 128%nat -> big_rep (blake64_init sc iv salt_zero_big) [].
Proof. intros Hb. split; [apply Forall_nil|]. apply represents_nil; first [exact Hb | vm_compute; lia]. Qed.

(** [blake64] appends its data to the message of the context. *)
Lemma blake64_rep sc m data :
  bytes data -> big_rep sc m -> big_rep (blake64 sc data) (m ++ data).
Proof.
  intros Hdata [Hm Hr]. split; [now apply Forall_app|].
  unfold blake64. destruct (Nat.ltb_spec (length data) (128 - big_ptr sc)).
  - apply (short_copy_represents 128 _ ltac:(lia) 128); [lia | exact Hr | assumption].
  - pose proof (core_loop_represents 128 blake64_block ltac:(lia) 128 ltac:(lia)
                  (fun st b => full_exact 128 blake64_block st b) _ _ _ _ _ data Hr) as G.
    destruct (core_loop _ _ _ _ _ _ _) as [[b' p'] [[H' S'] [T0' T1']]]. exact G.
Qed.

(** Data that fill the buffer run the block step once. *)
Lemma blake64_fill sc data :
  length (big_buf sc) = 128%nat -> (big_ptr sc < 128)%nat ->
  length data = (128 - big_ptr sc)%nat ->
  let '(H', S', (T0', T1')) := blake64_block (big_H sc, big_S sc, (big_T0 sc, big_T1 sc))
                               (firstn (big_ptr sc) (big_buf sc) ++ data) in
  exists buf', length buf' = 128%nat /\ blake64 sc data =
    {| big_buf := buf'; big_ptr := 0; big_H := H'; big_S := S'; big_T0 := T0'; big_T1 := T1' |}.
Proof.
  intros Hb Hp Hl. unfold blake64.
  destruct (Nat.ltb_spec (length data) (128 - big_ptr sc)); [lia|].
  destruct (core_loop_one_block 128 blake64_block ltac:(lia) 128 ltac:(lia)
    (fun st b => full_exact 128 blake64_block st b) _ _
    (big_H sc, big_S sc, (big_T0 sc, big_T1 sc)) data Hb Hp Hl) as (buf' & -> & Hb').
  destruct (blake64_block _ _) as [[H' S'] [T0' T1']]. exists buf'. now split.
Qed.

(** ** The bytes that [close] feeds *)

(** The number of output words; the padding ends with a 1 bit when it is 8. *)
Context (out : nat) (Hout : (out <= 8)%nat).

Definition big_u1 (ptr : nat) : list Z :=
  let u := (repeat 0 128).[ptr := 0x80] in
  let u := memcpy_at u (ptr + 1) (repeat 0 (111 - ptr)) in
  if (out =? 8)%nat then u.[111 := u.[111] |: 1] else u.
Definition big_u2 (ptr : nat) : list Z :=
  memcpy_at (repeat 0 128).[ptr := 0x80] (ptr + 1) (repeat 0 (127 - ptr)).
Definition big_u3 (ptr : nat) : list Z :=
  let u := memcpy_at (big_u2 ptr) 0 (repeat 0 112) in
  if (out =? 8)%nat then u.[111 := 1] else u.

Lemma big_u1_bytes ptr :
  (ptr < 112)%nat ->
  skipn ptr (firstn 112 (big_u1 ptr)) = fill (out =? 8)%nat (112 - ptr) /\ length (big_u1 ptr) = 128%nat.
Proof.
  intros Hp. unfold big_u1. generalize (out =? 8)%nat as l; intros l. split.
  - apply (pointer_check 0 112 (fun ptr => skipn ptr (firstn 112
      (let u := memcpy_at (repeat 0 128).[ptr := 0x80] (ptr + 1) (repeat 0 (111 - ptr)) in
       if l then u.[111 := u.[111] |: 1] else u))) (fun ptr => fill l (112 - ptr)));
      [destruct l; vm_compute; reflexivity | lia].
  - cbv zeta. destruct l; rewrite ?length_upd, length_memcpy_at; rewrite ?repeat_length, ?length_upd, ?repeat_length; lia.
Qed.

Lemma big_u23_bytes ptr :
  (112 <= ptr < 128)%nat ->
  skipn ptr (big_u2 ptr) = [0x80] ++ repeat 0 (128 - ptr - 1) /\
  firstn 112 (big_u3 ptr) = repeat 0 111 ++ [if (out =? 8)%nat then 1 else 0] /\
  length (big_u3 ptr) = 128%nat.
Proof.
  intros Hp. unfold big_u3, big_u2. generalize (out =? 8)%nat as l; intros l. repeat split.
  - apply (pointer_check 112 16 (fun ptr => skipn ptr (memcpy_at (repeat 0 128).[ptr := 0x80] (ptr + 1)
      (repeat 0 (127 - ptr)))) (fun ptr => [0x80] ++ repeat 0 (128 - ptr - 1)));
      [vm_compute; reflexivity | lia].
  - apply (pointer_check 112 16 (fun ptr => firstn 112
      (let u := memcpy_at (memcpy_at (repeat 0 128).[ptr := 0x80] (ptr + 1) (repeat 0 (127 - ptr))) 0
                  (repeat 0 112) in if l then u.[111 := 1] else u))
      (fun _ => repeat 0 111 ++ [if l then 1 else 0]));
      [destruct l; vm_compute; reflexivity | lia].
  - cbv zeta. destruct l; rewrite ?length_upd, !length_memcpy_at;
      rewrite ?length_memcpy_at; rewrite ?length_upd, ?repeat_length; rewrite ?length_upd, ?repeat_length; lia.
Qed.

Lemma big_divides : (8 * Z.of_nat (BlakeSpec.block_bytes BlakeSpec.big_params) | 2 ^ BlakeSpec.wbits BlakeSpec.big_params).
Proof. exists (2 ^ 54). reflexivity. Qed.

(** The state of a context of [m] in the terms of the reference. *)
Lemma big_rep_state sc m :
  big_rep sc m ->
  let t := 1024 * Z.of_nat (length m / 128) in
  let M := mid BlakeSpec.big_params salt_zero_big iv m in
  big_H sc = M /\ big_S sc = salt_zero_big /\
  big_T0 sc = t mod 2 ^ 64 /\ big_T1 sc = Z.shiftr t 64 mod 2 ^ 64 /\
  state_ok BlakeSpec.big_params M /\ bytes m /\ length (big_buf sc) = 128%nat /\
  firstn (big_ptr sc) (big_buf sc) = tail BlakeSpec.big_params salt_zero_big iv m /\
  big_ptr sc = (length m mod 128)%nat.
Proof.
  intros Hr. destruct (blake_rep_state BlakeSpec.big_params salt_zero_big blake64_block ltac:(cbn; lia)
    ltac:(vm_compute; reflexivity) big_divides big_pi_words big_salt_words blake64_block_step iv Hiv _ _ _ _ Hr)
    as (E & Hok & Ht & Hp & _).
  unfold count_words in E. injection E as E1 E2 E3 E4. destruct Hr as [Hm (Hb & _)].
  repeat split; try assumption; apply Hok.
Qed.

(** The three cases of the counter before the last block. *)
Definition big_close_T (sc : sph_blake_big_context) (bit_len : Z) : sph_blake_big_context :=
  if (big_ptr sc =? 0)%nat && (0 =? 0) then big_set_T sc 0xFFFFFFFFFFFFFC00 0xFFFFFFFFFFFFFFFF
  else if big_T0 sc =? 0 then
    big_set_T sc (SPH_T64 (0xFFFFFFFFFFFFFC00 + bit_len)) (SPH_T64 (big_T1 sc - 1))
  else big_set_T sc (SPH_T64 (big_T0 sc - (1024 - bit_len))) (big_T1 sc).

Lemma big_close_T_spec sc :
  let y := 8 * Z.of_nat (big_ptr sc) in
  big_close_T sc y =
  let '(T0, T1) := close_counter 64 1024 (big_T0 sc) (big_T1 sc) y in big_set_T sc T0 T1.
Proof.
  cbv zeta. unfold big_close_T, close_counter. rewrite andb_true_r.
  replace (8 * Z.of_nat (big_ptr sc) =? 0) with (big_ptr sc =? 0)%nat
    by (destruct (big_ptr sc); reflexivity).
  destruct (big_ptr sc =? 0)%nat; [reflexivity|].
  destruct (big_T0 sc =? 0); rewrite ?SPH_T64_mod; reflexivity.
Qed.

(** Feeding the rest [data] of the last block of the message. *)
Lemma big_last_block sc m data :
  big_rep sc m -> bytes data -> length data = (128 - big_ptr sc)%nat ->
  let h := BlakeSpec.compress BlakeSpec.big_params (mid BlakeSpec.big_params salt_zero_big iv m) salt_zero_big
             (final_count BlakeSpec.big_params m) (tail BlakeSpec.big_params salt_zero_big iv m ++ data) in
  let sc' := blake64 (big_close_T sc (8 * Z.of_nat (big_ptr sc))) data in
  big_H sc' = h /\ big_S sc' = salt_zero_big /\ big_ptr sc' = 0%nat /\
  length (big_buf sc') = 128%nat /\ state_ok BlakeSpec.big_params h.
Proof.
  intros Hr Hd Hl h. destruct (big_rep_state sc m Hr) as (EH & ES & E0 & E1 & Hok & Hm & Hb & Ht & Hp).
  assert (Hlt : (big_ptr sc < 128)%nat) by (rewrite Hp; apply Nat.mod_upper_bound; lia).
  destruct (last_step BlakeSpec.big_params salt_zero_big blake64_block ltac:(cbn; lia)
    ltac:(vm_compute; reflexivity) big_divides big_pi_words big_salt_words blake64_block_step iv m data
    (8 * Z.of_nat (big_ptr sc)) Hm Hok Hd ltac:(rewrite Hl, Hp; reflexivity) ltac:(rewrite Hp; reflexivity))
    as [Es Hok'].
  rewrite big_close_T_spec, E0, E1.
  change (BlakeSpec.wbits BlakeSpec.big_params) with 64 in Es.
  change (8 * Z.of_nat (BlakeSpec.block_bytes BlakeSpec.big_params)) with 1024 in Es.
  change (BlakeSpec.block_bytes BlakeSpec.big_params) with 128%nat in Es.
  destruct (close_counter 64 1024 _ _ _) as [T0 T1].
  pose proof (blake64_fill (big_set_T sc T0 T1) data Hb Hlt Hl) as F.
  cbn [big_set_T big_H big_S big_T0 big_T1 big_ptr big_buf] in F.
  rewrite EH, ES, Ht, Es in F. destruct (count_words _ _) as [T0' T1'].
  destruct F as (buf' & Hb' & ->). cbn [big_H big_S big_ptr big_buf].
  repeat split; try assumption; apply Hok'.
Qed.

(** Feeding a whole block without message bits. *)
Lemma big_empty_block sc data :
  state_ok BlakeSpec.big_params (big_H sc) -> big_S sc = salt_zero_big -> big_ptr sc = 0%nat ->
  length (big_buf sc) = 128%nat -> length data = 128%nat -> bytes data ->
  let h := BlakeSpec.compress BlakeSpec.big_params (big_H sc) salt_zero_big 0 data in
  let sc' := blake64 (big_set_T sc 0xFFFFFFFFFFFFFC00 0xFFFFFFFFFFFFFFFF) data in
  big_H sc' = h /\ state_ok BlakeSpec.big_params h /\ length (big_buf sc') = 128%nat.
Proof.
  intros Hok ES Ep Hb Hd Hbd.
  destruct (empty_step BlakeSpec.big_params salt_zero_big blake64_block ltac:(cbn; lia)
    ltac:(vm_compute; reflexivity) big_divides big_pi_words big_salt_words blake64_block_step
    (big_H sc) data Hok Hd Hbd) as [Es Hok2].
  pose proof (blake64_fill (big_set_T sc 0xFFFFFFFFFFFFFC00 0xFFFFFFFFFFFFFFFF) data Hb
    ltac:(cbn [big_set_T big_ptr]; lia) ltac:(cbn [big_set_T big_ptr]; lia)) as F.
  cbn [big_set_T big_H big_S big_T0 big_T1 big_ptr big_buf] in F.
  rewrite Ep, ES in F. cbn [firstn app] in F.
  change (2 ^ BlakeSpec.wbits BlakeSpec.big_params - 8 * Z.of_nat (BlakeSpec.block_bytes BlakeSpec.big_params))
    with 0xFFFFFFFFFFFFFC00 in Es.
  change (2 ^ BlakeSpec.wbits BlakeSpec.big_params - 1) with 0xFFFFFFFFFFFFFFFF in Es.
  rewrite Es in F. destruct (count_words _ _) as [T0' T1']. destruct F as (buf' & Hb2 & ->).
  cbn [big_H big_buf]. repeat split; try assumption; apply Hok2.
Qed.

(** The length words. *)
Lemma big_length_words sc m :
  big_rep sc m ->
  sph_enc64be_aligned (big_T1 sc) ++
  sph_enc64be_aligned (SPH_T64 (big_T0 sc + 8 * Z.of_nat (big_ptr sc))) =
  length_field BlakeSpec.big_params m.
Proof.
  intros Hr. destruct (big_rep_state sc m Hr) as (_ & _ & E0 & E1 & _ & _ & _ & _ & Hp).
  pose proof (length_words BlakeSpec.big_params ltac:(cbn; lia) ltac:(vm_compute; reflexivity) big_divides m) as G.
  cbv zeta in G. rewrite G. unfold sph_enc64be_aligned.
  rewrite !store_bswap64 by (try apply word_T64; rewrite E1; apply word_mod; lia).
  rewrite SPH_T64_mod, E0, E1, Hp. reflexivity.
Qed.

Lemma big_output h :
  state_ok BlakeSpec.big_params h ->
  flat_map (fun k => sph_enc64be h.[k]) (seq 0 out) = output BlakeSpec.big_params out h.
Proof.
  intros [Hl Hw]. unfold output. rewrite <- (map_nth_seq h 0) by lia.
  rewrite !flat_map_concat_map, map_map. f_equal. apply map_ext; intros k.
  apply store_bswap64. apply Forall_nth_default; auto with word.
Qed.

(** [close] returns the digest of the message. *)
Lemma blake64_close_digest sc m :
  big_rep sc m ->
  fst (blake64_close sc 0 0 out) =
    BlakeSpec.blake BlakeSpec.big_params iv salt_zero_big (out =? 8)%nat out m /\
  length (big_buf (snd (blake64_close sc 0 0 out))) = 128%nat.
Proof.
  intros Hr. pose proof Hr as Hr0. apply big_rep_state in Hr0 as (_ & _ & _ & _ & _ & _ & _ & _ & Hp).
  unfold blake64_close. cbv zeta. rewrite Z.shiftl_mul_pow2, Z.add_0_r, (Z.mul_comm _ (2 ^ 3)) by lia.
  change (2 ^ 3) with 8. change (Z.shiftr 0x80 0) with 0x80.
  change (((0 &: - (0x80)) |: 0x80) &: 0xFF) with 0x80.
  fold (big_close_T sc (8 * Z.of_nat (big_ptr sc))).
  assert (Hlt : (big_ptr sc < 128)%nat) by (rewrite Hp; apply Nat.mod_upper_bound; lia).
  assert (Lf := big_length_words sc m Hr).
  assert (Hlf : bytes (length_field BlakeSpec.big_params m)) by apply Forall_rev, bytes_le_split.
  destruct (Z.leb_spec (8 * Z.of_nat (big_ptr sc)) 894) as [Hle|Hgt].
  - destruct (big_u1_bytes (big_ptr sc) ltac:(lia)) as [Eu Lu]. fold (big_u1 (big_ptr sc)).
    rewrite (tail_copies _ _ _ 112 8), Eu, Lf
      by (first [apply length_le_split | rewrite Lu; reflexivity | lia]).
    destruct (big_last_block sc m (fill (out =? 8)%nat (112 - big_ptr sc) ++ length_field BlakeSpec.big_params m) Hr)
      as (-> & _ & _ & Hb' & Hok).
    + apply Forall_app; split; [apply bytes_fill | exact Hlf].
    + rewrite length_app, length_fill by lia. unfold length_field.
      rewrite length_rev, length_le_split. cbn [BlakeSpec.big_params BlakeSpec.wbytes]. lia.
    + split; [|exact Hb']. cbn [fst]. rewrite big_output by exact Hok. rewrite Hp.
      symmetry. apply blake_one_block; [cbn; lia | vm_compute; reflexivity | exact big_divides |].
      change (BlakeSpec.block_bytes BlakeSpec.big_params) with 128%nat. cbn [BlakeSpec.big_params BlakeSpec.wbytes]. lia.
  - destruct (big_u23_bytes (big_ptr sc) ltac:(lia)) as (E2 & E3 & L3).
    fold (big_u2 (big_ptr sc)). fold (big_u3 (big_ptr sc)). rewrite E2.
    destruct (big_last_block sc m ([0x80] ++ repeat 0 (128 - big_ptr sc - 1)) Hr)
      as (EH & ES & Ep & Hb' & Hok).
    + apply Forall_app; split; [apply words_check; reflexivity | apply bytes_zeros].
    + rewrite length_app, repeat_length. cbn [length]. lia.
    + set (sc1 := blake64 _ _) in *.
      rewrite <- (skipn_O (memcpy_at _ 120 _)), (tail_copies _ _ _ 112 8), E3, Lf
        by (first [apply length_le_split | rewrite L3; reflexivity | lia]).
      rewrite skipn_O, <- app_assoc.
      set (data := repeat 0 111 ++ _ ++ _).
      assert (Hd : length data = 128%nat).
      { unfold data. rewrite !length_app, repeat_length. unfold length_field.
        rewrite length_rev, length_le_split. reflexivity. }
      assert (Hbd : bytes data).
      { apply Forall_app; split; [apply bytes_zeros|]. apply Forall_app; split; [|exact Hlf].
        apply Forall_cons; [destruct (out =? 8)%nat; auto with word | apply Forall_nil]. }
      destruct (big_empty_block sc1 data ltac:(rewrite EH; exact Hok) ES Ep Hb' Hd Hbd) as (E4 & Hok2 & Hb2).
      cbn [fst snd]. rewrite E4. split; [|exact Hb2].
      rewrite big_output by exact Hok2. rewrite EH, Hp.
      symmetry. apply blake_two_blocks; [cbn; lia | exact big_divides |].
      change (BlakeSpec.block_bytes BlakeSpec.big_params) with 128%nat. cbn [BlakeSpec.big_params BlakeSpec.wbytes]. lia.
Qed.
End Blake64.

(** * The four digest functions *)

Lemma IV224_spec : IV224 = BlakeSpec.iv224.
Proof. apply constants_spec. Qed.
Lemma IV256_spec : IV256 = BlakeSpec.iv256.
Proof. apply constants_spec. Qed.
Lemma IV384_spec : IV384 = BlakeSpec.iv384.
Proof. apply constants_spec. Qed.
Lemma IV512_spec : IV512 = BlakeSpec.iv512.
Proof. apply constants_spec. Qed.

Definition blake224_ops (c0 : sph_blake_small_context) : hash_ops sph_blake_small_context :=
  {| hash_init := sph_blake224_init c0; hash_update := sph_blake224;
     hash_close := sph_blake224_close |}.

Lemma IV224_ok : state_ok BlakeSpec.small_params IV224.
Proof. split; [reflexivity | apply words_check; reflexivity]. Qed.

(** An uninitialised context: only the size of its buffer is known. *)
#[export] Instance blake224_stream c0 (Hc0 : length (small_buf c0) = 64%nat) :
  StreamHash (blake224_ops c0) any_message BlakeSpec.blake224.
Proof.
  refine (Build_StreamHash _ _ _ _ (small_rep IV224) _ _ _);
    cbn [hash_init hash_update hash_close blake224_ops].
  - apply blake32_init_rep. exact Hc0.
  - intros; now apply blake32_rep.
  - intros c m Hr _. unfold sph_blake224_close, sph_blake224_addbits_and_close.
    pose proof (blake32_close_digest IV224 IV224_ok 7 ltac:(lia) c m Hr) as [E Hb].
    destruct (blake32_close c 0 0 7) as [dst c']. cbn [fst snd] in *. split.
    + rewrite E. unfold BlakeSpec.blake224. rewrite <- IV224_spec. reflexivity.
    + apply blake32_init_rep. exact Hb.
Defined.

Definition blake256_ops (c0 : sph_blake_small_context) : hash_ops sph_blake_small_context :=
  {| hash_init := sph_blake256_init c0; hash_update := sph_blake256;
     hash_close := sph_blake256_close |}.

Lemma IV256_ok : state_ok BlakeSpec.small_params IV256.
Proof. split; [reflexivity | apply words_check; reflexivity]. Qed.

(** An uninitialised context: only the size of its buffer is known. *)
#[export] Instance blake256_stream c0 (Hc0 : length (small_buf c0) = 64%nat) :
  StreamHash (blake256_ops c0) any_message BlakeSpec.blake256.
Proof.
  refine (Build_StreamHash _ _ _ _ (small_rep IV256) _ _ _);
    cbn [hash_init hash_update hash_close blake256_ops].
  - apply blake32_init_rep. exact Hc0.
  - intros; now apply blake32_rep.
  - intros c m Hr _. unfold sph_blake256_close, sph_blake256_addbits_and_close.
    pose proof (blake32_close_digest IV256 IV256_ok 8 ltac:(lia) c m Hr) as [E Hb].
    destruct (blake32_close c 0 0 8) as [dst c']. cbn [fst snd] in *. split.
    + rewrite E. unfold BlakeSpec.blake256. rewrite <- IV256_spec. reflexivity.
    + apply blake32_init_rep. exact Hb.
Defined.

Definition blake384_ops (c0 : sph_blake_big_context) : hash_ops sph_blake_big_context :=
  {| hash_init := sph_blake384_init c0; hash_update := sph_blake384;
     hash_close := sph_blake384_close |}.

Lemma IV384_ok : state_ok BlakeSpec.big_params IV384.
Proof. split; [reflexivity | apply words_check; reflexivity]. Qed.

(** An uninitialised context: only the size of its buffer is known. *)
#[export] Instance blake384_stream c0 (Hc0 : length (big_buf c0) = 128%nat) :
  StreamHash (blake384_ops c0) any_message BlakeSpec.blake384.
Proof.
  refine (Build_StreamHash _ _ _ _ (big_rep IV384) _ _ _);
    cbn [hash_init hash_update hash_close blake384_ops].
  - apply blake64_init_rep. exact Hc0.
  - intros; now apply blake64_rep.
  - intros c m Hr _. unfold sph_blake384_close, sph_blake384_addbits_and_close.
    pose proof (blake64_close_digest IV384 IV384_ok 6 ltac:(lia) c m Hr) as [E Hb].
    destruct (blake64_close c 0 0 6) as [dst c']. cbn [fst snd] in *. split.
    + rewrite E. unfold BlakeSpec.blake384. rewrite <- IV384_spec. reflexivity.
    + apply blake64_init_rep. exact Hb.
Defined.

Definition blake512_ops (c0 : sph_blake_big_context) : hash_ops sph_blake_big_context :=
  {| hash_init := sph_blake512_init c0; hash_update := sph_blake512;
     hash_close := sph_blake512_close |}.

Lemma IV512_ok : state_ok BlakeSpec.big_params IV512.
Proof. split; [reflexivity | apply words_check; reflexivity]. Qed.

(** An uninitialised context: only the size of its buffer is known. *)
#[export] Instance blake512_stream c0 (Hc0 : length (big_buf c0) = 128%nat) :
  StreamHash (blake512_ops c0) any_message BlakeSpec.blake512.
Proof.
  refine (Build_StreamHash _ _ _ _ (big_rep IV512) _ _ _);
    cbn [hash_init hash_update hash_close blake512_ops].
  - apply blake64_init_rep. exact Hc0.
  - intros; now apply blake64_rep.
  - intros c m Hr _. unfold sph_blake512_close, sph_blake512_addbits_and_close.
    pose proof (blake64_close_digest IV512 IV512_ok 8 ltac:(lia) c m Hr) as [E Hb].
    destruct (blake64_close c 0 0 8) as [dst c']. cbn [fst snd] in *. split.
    + rewrite E. unfold BlakeSpec.blake512. rewrite <- IV512_spec. reflexivity.
    + apply blake64_init_rep. exact Hb.
Defined.

(** The digests: whatever the uninitialised contexts held and however the
    message is cut into updates, the four BLAKE functions return the BLAKE digest
    of the whole message. The two-word counter is the number of message bits so
    far in every block, 0 in a block that holds none, also where its words wrap
    around. *)
Theorem blake_digests (cs : sph_blake_small_context) (cb : sph_blake_big_context) pieces :
  length (small_buf cs) = 64%nat -> length (big_buf cb) = 128%nat ->
  Forall (fun p => bytes p) pieces ->
  digest_of (blake224_ops cs) pieces = BlakeSpec.blake224 (concat pieces) /\
  digest_of (blake256_ops cs) pieces = BlakeSpec.blake256 (concat pieces) /\
  digest_of (blake384_ops cb) pieces = BlakeSpec.blake384 (concat pieces) /\
  digest_of (blake512_ops cb) pieces = BlakeSpec.blake512 (concat pieces).
Proof.
  intros Hs Hb Hp. repeat split.
  - exact (chunked_digest (StreamHash0 := blake224_stream cs Hs) pieces Hp I).
  - exact (chunked_digest (StreamHash0 := blake256_stream cs Hs) pieces Hp I).
  - exact (chunked_digest (StreamHash0 := blake384_stream cb Hb) pieces Hp I).
  - exact (chunked_digest (StreamHash0 := blake512_stream cb Hb) pieces Hp I).
Qed.

Definition blake_small_blank : sph_blake_small_context :=
  {| small_buf := repeat 0 64; small_ptr := 0; small_H := []; small_S := []; small_T0 := 0; small_T1 := 0 |}.
Definition blake_big_blank : sph_blake_big_context :=
  {| big_buf := repeat 0 128; big_ptr := 0; big_H := []; big_S := []; big_T0 := 0; big_T1 := 0 |}.

Lemma blake_digests_witness :
  digest_of (blake512_ops blake_big_blank) [[97]; []; [98; 99]] = BlakeSpec.blake512 [97; 98; 99].
Proof.
  apply (blake_digests blake_small_blank blake_big_blank [[97]; []; [98; 99]]); [reflexivity | reflexivity |].
  repeat apply Forall_cons; try apply Forall_nil; split; (lia || reflexivity).
Defined.

(** The compression function: on a chaining value of eight words and a whole
    block, the unrolled [COMPRESS32] and [COMPRESS64] and the compact variants
    that loop over the table [sigma] compute the compression function of the
    reference, with the digits of pi as constants, for the counter held in the
    words [T0] and [T1]. *)
Theorem blake_compressions H S t b H' S' t' b' :
  length H = 8%nat -> length b = 64%nat -> bytes b ->
  length H' = 8%nat -> length b' = 128%nat -> bytes b' ->
  let '(T0, T1) := (SPH_T32 t, SPH_T32 (Z.shiftr t 32)) in
  let '(T0', T1') := (SPH_T64 t', SPH_T64 (Z.shiftr t' 64)) in
  COMPRESS32 H S T0 T1 b = BlakeSpec.compress BlakeSpec.small_params H S t b /\
  COMPRESS32_compact H S T0 T1 b = BlakeSpec.compress BlakeSpec.small_params H S t b /\
  COMPRESS64 H' S' T0' T1' b' = BlakeSpec.compress BlakeSpec.big_params H' S' t' b' /\
  COMPRESS64_compact H' S' T0' T1' b' = BlakeSpec.compress BlakeSpec.big_params H' S' t' b'.
Proof.
  intros HH Hl Hb HH' Hl' Hb'.
  rewrite <- (word_compress_spec BlakeSpec.small_params H S t b HH),
          <- (word_compress_spec BlakeSpec.big_params H' S' t' b' HH').
  rewrite (trunc_small t), (trunc_small (Z.shiftr t 32)), (trunc_big t'), (trunc_big (Z.shiftr t' 64)).
  destruct (COMPRESS32_word H S (BlakeSpec.trunc BlakeSpec.small_params t)
    (BlakeSpec.trunc BlakeSpec.small_params (Z.shiftr t 32)) b HH Hl Hb) as [E1 E2].
  destruct (COMPRESS64_word H' S' (BlakeSpec.trunc BlakeSpec.big_params t')
    (BlakeSpec.trunc BlakeSpec.big_params (Z.shiftr t' 64)) b' HH' Hl' Hb') as [E3 E4].
  rewrite E2, E4, E1, E3. repeat split.
Qed.

Lemma blake_compressions_witness :
  COMPRESS64_compact IV512 salt_zero_big 1024 0 (repeat 1 128) =
  BlakeSpec.compress BlakeSpec.big_params IV512 salt_zero_big 1024 (repeat 1 128).
Proof.
  destruct (blake_compressions IV256 salt_zero_small 512 (repeat 1 64)
    IV512 salt_zero_big 1024 (repeat 1 128)) as (_ & _ & _ & H);
    [reflexivity | reflexivity | apply words_check; reflexivity
    | reflexivity | reflexivity | apply words_check; reflexivity | exact H].
Defined.

(** The first bytes of the published digest of the empty message. *)
Example blake512_empty :
  firstn 8 (digest_of (blake512_ops blake_big_blank) []) =
  [0xa8; 0xcf; 0xbb; 0xd7; 0x37; 0x26; 0x06; 0x2d].
Proof. vm_compute; reflexivity. Qed.
