(* ===== verification/Skein.v ===== *)
(** Model of src/src/crypto/skein.c (context of sph_skein.h): the four Skein-512
    functions. The words [p0] ... [p7] are the elements of a list [p], the key
    words [h0] ... [h8] and tweak words [t0] ... [t2] those of lists [h] and [t].
    The variants selected by [SPH_SMALL_FOOTPRINT_SKEIN], which extend the key to
    27 words and rotate the tweak, carry the suffix [_small_footprint]. The code
    between [#if 0] and [#endif] (Skein-256) is never compiled. *)
From S2P Require Import Prelude SphTypes Stream.

Module Skein.

(** The macros [M9_]s[_]i: row [s], position [i]. *)
Definition M9 : list (list nat) :=
  [ [0; 1; 2; 3; 4; 5; 6; 7];
    [1; 2; 3; 4; 5; 6; 7; 8];
    [2; 3; 4; 5; 6; 7; 8; 0];
    [3; 4; 5; 6; 7; 8; 0; 1];
    [4; 5; 6; 7; 8; 0; 1; 2];
    [5; 6; 7; 8; 0; 1; 2; 3];
    [6; 7; 8; 0; 1; 2; 3; 4];
    [7; 8; 0; 1; 2; 3; 4; 5];
    [8; 0; 1; 2; 3; 4; 5; 6];
    [0; 1; 2; 3; 4; 5; 6; 7];
    [1; 2; 3; 4; 5; 6; 7; 8];
    [2; 3; 4; 5; 6; 7; 8; 0];
    [3; 4; 5; 6; 7; 8; 0; 1];
    [4; 5; 6; 7; 8; 0; 1; 2];
    [5; 6; 7; 8; 0; 1; 2; 3];
    [6; 7; 8; 0; 1; 2; 3; 4];
    [7; 8; 0; 1; 2; 3; 4; 5];
    [8; 0; 1; 2; 3; 4; 5; 6];
    [0; 1; 2; 3; 4; 5; 6; 7] ]%nat.

(** The macros [M3_]s[_]i: row [s], position [i]. *)
Definition M3 : list (list nat) :=
  [ [0; 1];
    [1; 2];
    [2; 0];
    [0; 1];
    [1; 2];
    [2; 0];
    [0; 1];
    [1; 2];
    [2; 0];
    [0; 1];
    [1; 2];
    [2; 0];
    [0; 1];
    [1; 2];
    [2; 0];
    [0; 1];
    [1; 2];
    [2; 0];
    [0; 1] ]%nat.

Definition SKBI (k : list Z) (s i : nat) : Z := k.[nth i (nth s M9 []) 0%nat].
Definition SKBT (t : list Z) (s v : nat) : Z := t.[nth v (nth s M3 []) 0%nat].

(** [TFBIG_KINIT] sets [k8] and [t2]. *)
Definition TFBIG_KINIT (k t : list Z) : list Z * list Z :=
  let k := k.[8 := ((k.[0] ^^ k.[1]) ^^ (k.[2] ^^ k.[3])) ^^ ((k.[4] ^^ k.[5]) ^^ (k.[6] ^^ k.[7]))
                     ^^ 0x1BD11BDAA9FC1A22] in
  let t := t.[2 := t.[0] ^^ t.[1]] in
  (k, t).

Definition TFBIG_ADDKEY_small_footprint (h : list Z) (s : nat) (tt0 tt1 : Z) (p : list Z) : list Z :=
  let p := p.[0 := SPH_T64 (p.[0] + h.[s + 0])] in
  let p := p.[1 := SPH_T64 (p.[1] + h.[s + 1])] in
  let p := p.[2 := SPH_T64 (p.[2] + h.[s + 2])] in
  let p := p.[3 := SPH_T64 (p.[3] + h.[s + 3])] in
  let p := p.[4 := SPH_T64 (p.[4] + h.[s + 4])] in
  let p := p.[5 := SPH_T64 (p.[5] + h.[s + 5] + tt0)] in
  let p := p.[6 := SPH_T64 (p.[6] + h.[s + 6] + tt1)] in
  p.[7 := SPH_T64 (p.[7] + h.[s + 7] + Z.of_nat s)].

Definition TFBIG_ADDKEY (k t : list Z) (s : nat) (p : list Z) : list Z :=
  let p := p.[0 := SPH_T64 (p.[0] + SKBI k s 0)] in
  let p := p.[1 := SPH_T64 (p.[1] + SKBI k s 1)] in
  let p := p.[2 := SPH_T64 (p.[2] + SKBI k s 2)] in
  let p := p.[3 := SPH_T64 (p.[3] + SKBI k s 3)] in
  let p := p.[4 := SPH_T64 (p.[4] + SKBI k s 4)] in
  let p := p.[5 := SPH_T64 (p.[5] + SKBI k s 5 + SKBT t s 0)] in
  let p := p.[6 := SPH_T64 (p.[6] + SKBI k s 6 + SKBT t s 1)] in
  p.[7 := SPH_T64 (p.[7] + SKBI k s 7 + Z.of_nat s)].

(** [x0] and [x1] are positions in [p]. *)
Definition TFBIG_MIX (x0 x1 : nat) (rc : Z) (p : list Z) : list Z :=
  let p := p.[x0 := SPH_T64 (p.[x0] + p.[x1])] in
  p.[x1 := SPH_ROTL64 p.[x1] rc ^^ p.[x0]].

Definition TFBIG_MIX8 (w0 w1 w2 w3 w4 w5 w6 w7 : nat) (rc0 rc1 rc2 rc3 : Z) (p : list Z) : list Z :=
  let p := TFBIG_MIX w0 w1 rc0 p in
  let p := TFBIG_MIX w2 w3 rc1 p in
  let p := TFBIG_MIX w4 w5 rc2 p in
  TFBIG_MIX w6 w7 rc3 p.

Definition TFBIG_4e_small_footprint (h t : list Z) (s : nat) (p : list Z) : list Z :=
  let p := TFBIG_ADDKEY_small_footprint h s t.[0] t.[1] p in
  let p := TFBIG_MIX8 0 1 2 3 4 5 6 7 46 36 19 37 p in
  let p := TFBIG_MIX8 2 1 4 7 6 5 0 3 33 27 14 42 p in
  let p := TFBIG_MIX8 4 1 6 3 0 5 2 7 17 49 36 39 p in
  let p := TFBIG_MIX8 6 1 0 7 2 5 4 3 44 9 54 56 p in
  p.

Definition TFBIG_4e (h t : list Z) (s : nat) (p : list Z) : list Z :=
  let p := TFBIG_ADDKEY h t s p in
  let p := TFBIG_MIX8 0 1 2 3 4 5 6 7 46 36 19 37 p in
  let p := TFBIG_MIX8 2 1 4 7 6 5 0 3 33 27 14 42 p in
  let p := TFBIG_MIX8 4 1 6 3 0 5 2 7 17 49 36 39 p in
  let p := TFBIG_MIX8 6 1 0 7 2 5 4 3 44 9 54 56 p in
  p.

Definition TFBIG_4o_small_footprint (h t : list Z) (s : nat) (p : list Z) : list Z :=
  let p := TFBIG_ADDKEY_small_footprint h s t.[1] t.[2] p in
  let p := TFBIG_MIX8 0 1 2 3 4 5 6 7 39 30 34 24 p in
  let p := TFBIG_MIX8 2 1 4 7 6 5 0 3 13 50 10 17 p in
  let p := TFBIG_MIX8 4 1 6 3 0 5 2 7 25 29 39 43 p in
  let p := TFBIG_MIX8 6 1 0 7 2 5 4 3 8 35 56 22 p in
  p.

Definition TFBIG_4o (h t : list Z) (s : nat) (p : list Z) : list Z :=
  let p := TFBIG_ADDKEY h t s p in
  let p := TFBIG_MIX8 0 1 2 3 4 5 6 7 39 30 34 24 p in
  let p := TFBIG_MIX8 2 1 4 7 6 5 0 3 13 50 10 17 p in
  let p := TFBIG_MIX8 4 1 6 3 0 5 2 7 25 29 39 43 p in
  let p := TFBIG_MIX8 6 1 0 7 2 5 4 3 8 35 56 22 p in
  p.

(** The tweak words of [UBI_BIG]; [extra] is a byte count and [etype] a field
    of nine bits. *)
Definition tweak (bcount etype extra : Z) : list Z :=
  [ SPH_T64 (SPH_T64 (Z.shiftl bcount 6) + extra);
    SPH_T64 (Z.shiftr bcount 58 + SPH_T64 (Z.shiftl etype 55)); 0 ].

(** The loop [for (u = 0; u <= 15; u += 3)] of the small-footprint [UBI_BIG]. *)
Definition repeat_key (h : list Z) : list Z :=
  fold_left (fun h u =>
    let h := h.[(u + 9) := h.[u + 0]] in
    let h := h.[(u + 10) := h.[u + 1]] in
    h.[(u + 11) := h.[u + 2]]) [0; 3; 6; 9; 12; 15]%nat h.

(** The body of its loop [for (u = 0; u < 9; u ++)]. *)
Definition UBI_BIG_pass (h : list Z) (st : list Z * list Z) (u : nat) : list Z * list Z :=
  let '(p, t) := st in
  let s := Nat.shiftl u 1 in
  let p := TFBIG_4e_small_footprint h t s p in
  let p := TFBIG_4o_small_footprint h t (s + 1) p in
  let tmp := t.[2] in
  let t := t.[2 := t.[1]] in
  let t := t.[1 := t.[0]] in
  let t := t.[0 := tmp] in
  (p, t).

(** [h] holds [h0] ... [h7]; [h8] and [t2] start with arbitrary content (zero). *)
Definition UBI_BIG_small_footprint (etype extra bcount : Z) (h buf : list Z) : list Z :=
  let m := [ sph_dec64le_aligned (skipn 0 buf); sph_dec64le_aligned (skipn 8 buf);
             sph_dec64le_aligned (skipn 16 buf); sph_dec64le_aligned (skipn 24 buf);
             sph_dec64le_aligned (skipn 32 buf); sph_dec64le_aligned (skipn 40 buf);
             sph_dec64le_aligned (skipn 48 buf); sph_dec64le_aligned (skipn 56 buf) ] in
  let p := m in
  let t := tweak bcount etype extra in
  let '(h, t) := TFBIG_KINIT (h ++ repeat 0 19) t in
  let h := repeat_key h in
  let '(p, t) := fold_left (UBI_BIG_pass h) (seq 0 9) (p, t) in
  let p := TFBIG_ADDKEY_small_footprint h 18 t.[0] t.[1] p in
  [ m.[0] ^^ p.[0]; m.[1] ^^ p.[1]; m.[2] ^^ p.[2]; m.[3] ^^ p.[3];
    m.[4] ^^ p.[4]; m.[5] ^^ p.[5]; m.[6] ^^ p.[6]; m.[7] ^^ p.[7] ].

Definition UBI_BIG (etype extra bcount : Z) (h buf : list Z) : list Z :=
  let m := [ sph_dec64le_aligned (skipn 0 buf); sph_dec64le_aligned (skipn 8 buf);
             sph_dec64le_aligned (skipn 16 buf); sph_dec64le_aligned (skipn 24 buf);
             sph_dec64le_aligned (skipn 32 buf); sph_dec64le_aligned (skipn 40 buf);
             sph_dec64le_aligned (skipn 48 buf); sph_dec64le_aligned (skipn 56 buf) ] in
  let p := m in
  let t := tweak bcount etype extra in
  let '(h, t) := TFBIG_KINIT (h ++ [0]) t in
  let p := TFBIG_4e h t 0 p in let p := TFBIG_4o h t 1 p in
  let p := TFBIG_4e h t 2 p in let p := TFBIG_4o h t 3 p in
  let p := TFBIG_4e h t 4 p in let p := TFBIG_4o h t 5 p in
  let p := TFBIG_4e h t 6 p in let p := TFBIG_4o h t 7 p in
  let p := TFBIG_4e h t 8 p in let p := TFBIG_4o h t 9 p in
  let p := TFBIG_4e h t 10 p in let p := TFBIG_4o h t 11 p in
  let p := TFBIG_4e h t 12 p in let p := TFBIG_4o h t 13 p in
  let p := TFBIG_4e h t 14 p in let p := TFBIG_4o h t 15 p in
  let p := TFBIG_4e h t 16 p in let p := TFBIG_4o h t 17 p in
  let p := TFBIG_ADDKEY h t 18 p in
  [ m.[0] ^^ p.[0]; m.[1] ^^ p.[1]; m.[2] ^^ p.[2]; m.[3] ^^ p.[3];
    m.[4] ^^ p.[4]; m.[5] ^^ p.[5]; m.[6] ^^ p.[6]; m.[7] ^^ p.[7] ].

(** The fields [h0] ... [h7] are the list [h]. *)
Record sph_skein_big_context := {
  buf : list Z;
  ptr : nat;
  h : list Z;
  bcount : Z
}.

(** The buffer of the context keeps what it held. *)
Definition skein_big_init (sc : sph_skein_big_context) (iv : list Z) : sph_skein_big_context :=
  {| buf := buf sc; ptr := 0;
     h := [iv.[0]; iv.[1]; iv.[2]; iv.[3]; iv.[4]; iv.[5]; iv.[6]; iv.[7]];
     bcount := 0 |}.

(** What the loop of [skein_big_core] runs when the buffer is full and more data
    follow, on the local variables [h0] ... [h7], [bcount] and [first]. *)
Definition skein_big_block (st : list Z * Z * Z) (buf : list Z) : list Z * Z * Z :=
  let '(h, bcount, first) := st in
  let bcount := SPH_T64 (bcount + 1) in
  (UBI_BIG (96 + first) 0 bcount h buf, bcount, 0).

(** [(bcount == 0) << 7] *)
Definition first_flag (bcount : Z) : Z := Z.shiftl (if bcount =? 0 then 1 else 0) 7.

Definition skein_big_core (sc : sph_skein_big_context) (data : list Z) : sph_skein_big_context :=
  let len := length data in
  if (len <=? 64 - ptr sc)%nat then
    {| buf := memcpy_at (buf sc) (ptr sc) data; ptr := (ptr sc + len)%nat;
       h := h sc; bcount := bcount sc |}
  else
    let first := first_flag (bcount sc) in
    let '(buf', ptr', (h', bcount', _)) :=
      lazy_loop 64 skein_big_block len (buf sc) (ptr sc) (h sc, bcount sc, first) data in
    {| buf := buf'; ptr := ptr'; h := h'; bcount := bcount' |}.

(** The two passes of the loop [for (i = 0; i < 2; i ++)] are written out. The
    context keeps its [h] and [bcount]: the local copies are not written back. *)
Definition skein_big_close (sc : sph_skein_big_context) (ub n : Z) (out_len : nat)
  : list Z * sph_skein_big_context :=
  let sc :=
    if n =? 0 then sc
    else
      let z := Z.shiftr 0x80 n in
      skein_big_core sc [((ub &: (- z)) |: z) &: 0xFF] in
  let b := memcpy_at (buf sc) (ptr sc) (repeat 0 (64 - ptr sc)) in
  let et := 352 + first_flag (bcount sc) + (if n =? 0 then 0 else 1) in
  let h' := UBI_BIG et (Z.of_nat (ptr sc)) (bcount sc) (h sc) b in
  let b := memcpy_at b 0 (repeat 0 64) in
  let h' := UBI_BIG 510 8 0 h' b in
  let b := flat_map (fun i => sph_enc64le_aligned h'.[i]) (seq 0 8) in
  (firstn out_len b, {| buf := b; ptr := ptr sc; h := h sc; bcount := bcount sc |}).

Definition IV224 : list Z :=
  [ 0xCCD0616248677224; 0xCBA65CF3A92339EF; 0x8CCD69D652FF4B64; 0x398AED7B3AB890B4;
    0x0F59D1B1457D2BD0; 0x6776FE6575D4EB3D; 0x99FBC70E997413E9; 0x9E2CFCCFE1C41EF7 ].

Definition IV256 : list Z :=
  [ 0xCCD044A12FDB3E13; 0xE83590301A79A9EB; 0x55AEA0614F816E6F; 0x2A2767A4AE9B94DB;
    0xEC06025E74DD7683; 0xE7A436CDC4746251; 0xC36FBAF9393AD185; 0x3EEDBA1833EDFC13 ].

Definition IV384 : list Z :=
  [ 0xA3F6C6BF3A75EF5F; 0xB0FEF9CCFD84FAA4; 0x9D77DD663D770CFE; 0xD798CBF3B468FDDA;
    0x1BC4A6668A0E4465; 0x7ED7D434E5807407; 0x548FC1ACD4EC44D6; 0x266E17546AA18FF8 ].

Definition IV512 : list Z :=
  [ 0x4903ADFF749C51CE; 0x0D95DE399746DF03; 0x8FD1934127C79BCE; 0x9A255629FF352CB1;
    0x5DB62599DF6CA7B0; 0xEABE394CA9D5C3F4; 0x991112C71A75B523; 0xAE18A40B660FCC33 ].

Definition sph_skein224_init (cc : sph_skein_big_context) : sph_skein_big_context := skein_big_init cc IV224.
Definition sph_skein224 (cc : sph_skein_big_context) (data : list Z) : sph_skein_big_context := skein_big_core cc data.
Definition sph_skein224_addbits_and_close (cc : sph_skein_big_context) (ub n : Z) : list Z * sph_skein_big_context :=
  let '(dst, cc) := skein_big_close cc ub n 28 in (dst, sph_skein224_init cc).
Definition sph_skein224_close (cc : sph_skein_big_context) : list Z * sph_skein_big_context := sph_skein224_addbits_and_close cc 0 0.

Definition sph_skein256_init (cc : sph_skein_big_context) : sph_skein_big_context := skein_big_init cc IV256.
Definition sph_skein256 (cc : sph_skein_big_context) (data : list Z) : sph_skein_big_context := skein_big_core cc data.
Definition sph_skein256_addbits_and_close (cc : sph_skein_big_context) (ub n : Z) : list Z * sph_skein_big_context :=
  let '(dst, cc) := skein_big_close cc ub n 32 in (dst, sph_skein256_init cc).
Definition sph_skein256_close (cc : sph_skein_big_context) : list Z * sph_skein_big_context := sph_skein256_addbits_and_close cc 0 0.

Definition sph_skein384_init (cc : sph_skein_big_context) : sph_skein_big_context := skein_big_init cc IV384.
Definition sph_skein384 (cc : sph_skein_big_context) (data : list Z) : sph_skein_big_context := skein_big_core cc data.
Definition sph_skein384_addbits_and_close (cc : sph_skein_big_context) (ub n : Z) : list Z * sph_skein_big_context :=
  let '(dst, cc) := skein_big_close cc ub n 48 in (dst, sph_skein384_init cc).
Definition sph_skein384_close (cc : sph_skein_big_context) : list Z * sph_skein_big_context := sph_skein384_addbits_and_close cc 0 0.

Definition sph_skein512_init (cc : sph_skein_big_context) : sph_skein_big_context := skein_big_init cc IV512.
Definition sph_skein512 (cc : sph_skein_big_context) (data : list Z) : sph_skein_big_context := skein_big_core cc data.
Definition sph_skein512_addbits_and_close (cc : sph_skein_big_context) (ub n : Z) : list Z * sph_skein_big_context :=
  let '(dst, cc) := skein_big_close cc ub n 64 in (dst, sph_skein512_init cc).
Definition sph_skein512_close (cc : sph_skein_big_context) : list Z * sph_skein_big_context := sph_skein512_addbits_and_close cc 0 0.

End Skein.
