(* ===== verification/SkeinProofs.v ===== *)
(** Skein: the unrolled code of [UBI_BIG], which renames variables instead of
    permuting words, and its small-footprint variant compute Threefish-512 in
    the UBI mode. *)
From S2P Require Import Prelude SphTypes Skein SphSpec.
Import Skein.
Import SkeinSpec(add64, rotl64, subkey, add_subkey, mix, permute).

(** * Words *)

Lemma T64_add64 x y : SPH_T64 (x + y) = add64 x y.
Proof. apply SPH_T64_mod. Qed.

Lemma ROTL64_rotl64 x n : SPH_ROTL64 x n = rotl64 x n.
Proof. apply SPH_T64_mod. Qed.

(** The index macros compute sums modulo 9 and modulo 3. *)
Lemma M9_M3_spec s i j :
  (s <= 18)%nat -> (i <= 7)%nat -> (j <= 1)%nat ->
  nth i (nth s M9 []) 0%nat = ((s + i) mod 9)%nat /\
  nth j (nth s M3 []) 0%nat = ((s + j) mod 3)%nat.
Proof.
  intros Hs Hi Hj.
  assert (H : forallb (fun s => forallb (fun i => (nth i (nth s M9 []) 0 =? (s + i) mod 9)%nat) (seq 0 8)
    && forallb (fun j => (nth j (nth s M3 []) 0 =? (s + j) mod 3)%nat) (seq 0 2)) (seq 0 19) = true)
    by (vm_compute; reflexivity).
  rewrite forallb_forall in H. specialize (H s ltac:(apply in_seq; lia)).
  apply andb_prop in H as [H1 H2]. rewrite forallb_forall in H1, H2.
  split; apply Nat.eqb_eq; [apply H1 | apply H2]; apply in_seq; lia.
Qed.

(** * Key injection and four rounds *)

Lemma length8 {A} (l : list A) : length l = 8%nat ->
  exists a b c d e f g x, l = [a; b; c; d; e; f; g; x].
Proof. intros H. destruct_list_n l. repeat eexists. Qed.

Lemma ADDKEY_spec k t s p :
  length p = 8%nat -> (s <= 18)%nat ->
  TFBIG_ADDKEY (SkeinSpec.extend_key k) (SkeinSpec.extend_tweak t) s p = add_subkey k t s p.
Proof.
  intros Hp Hs. destruct (length8 p Hp) as (a & b & c & d & e & f & g & x & ->).
  assert (K : forall i, (i <= 7)%nat ->
    SKBI (SkeinSpec.extend_key k) s i = (SkeinSpec.extend_key k).[(s + i) mod 9])
    by (intros i Hi; unfold SKBI; now rewrite (proj1 (M9_M3_spec s i 0 Hs Hi ltac:(lia)))).
  assert (T : forall j, (j <= 1)%nat ->
    SKBT (SkeinSpec.extend_tweak t) s j = (SkeinSpec.extend_tweak t).[(s + j) mod 3])
    by (intros j Hj; unfold SKBT; now rewrite (proj2 (M9_M3_spec s 0 j Hs ltac:(lia) Hj))).
  assert (A : forall u v w, SPH_T64 (u + v + w) = add64 u (add64 v w))
    by (intros; unfold add64; now rewrite SPH_T64_mod, Zplus_mod_idemp_r, Z.add_assoc).
  unfold TFBIG_ADDKEY. cbn [nth upd]. rewrite !K, !T, !A, !T64_add64 by lia. reflexivity.
Qed.

(** The four rounds after a key injection, with the rotation rows from [r]. *)
Definition four_rounds (r : nat) (v : list Z) : list Z :=
  fold_left (fun v i => permute (mix (nth (r + i) SkeinSpec.rotations []) v)) (seq 0 4) v.

Definition word_mix (x0 x1 : nat) (rc : Z) (p : list Z) : list Z :=
  let p := p.[x0 := add64 p.[x0] p.[x1]] in p.[x1 := rotl64 p.[x1] rc ^^ p.[x0]].

Lemma MIX_words x0 x1 rc p : TFBIG_MIX x0 x1 rc p = word_mix x0 x1 rc p.
Proof. unfold TFBIG_MIX, word_mix. now rewrite T64_add64, ROTL64_rotl64. Qed.

Lemma MIX8_words w0 w1 w2 w3 w4 w5 w6 w7 rc0 rc1 rc2 rc3 p :
  TFBIG_MIX8 w0 w1 w2 w3 w4 w5 w6 w7 rc0 rc1 rc2 rc3 p =
  word_mix w6 w7 rc3 (word_mix w4 w5 rc2 (word_mix w2 w3 rc1 (word_mix w0 w1 rc0 p))).
Proof. unfold TFBIG_MIX8. cbv zeta. now rewrite !MIX_words. Qed.

Lemma length_add_subkey k t s v : length (add_subkey k t s v) = 8%nat.
Proof. reflexivity. Qed.

Lemma TFBIG_4_spec k t s p :
  length p = 8%nat -> (s <= 18)%nat ->
  let k' := SkeinSpec.extend_key k in
  let t' := SkeinSpec.extend_tweak t in
  TFBIG_4e k' t' s p = four_rounds 0 (add_subkey k t s p) /\
  TFBIG_4o k' t' s p = four_rounds 4 (add_subkey k t s p).
Proof.
  intros Hp Hs. cbv zeta. unfold TFBIG_4e, TFBIG_4o. cbv zeta. rewrite ADDKEY_spec, !MIX8_words by assumption.
  pose proof (length_add_subkey k t s p) as Hl. generalize dependent (add_subkey k t s p).
  intros v Hl. destruct (length8 v Hl) as (a & b & c & d & e & f & g & x & ->).
  split; cbv -[add64 rotl64 Z.lxor]; reflexivity.
Qed.

Lemma length_four_rounds r v : length (four_rounds r v) = 8%nat.
Proof. reflexivity. Qed.

(** * The whole cipher *)

Lemma fold_left_flat_map {A B C} (f : A -> B -> A) (g : C -> list B) l a :
  fold_left f (flat_map g l) a = fold_left (fun a c => fold_left f (g c) a) l a.
Proof.
  revert a; induction l as [|c l IH]; intros a; cbn [flat_map fold_left]; [reflexivity|].
  now rewrite fold_left_app, IH.
Qed.

Lemma fold_left_two {A B} (f : A -> B -> A) x y a : fold_left f [x; y] a = f (f a x) y.
Proof. reflexivity. Qed.

(** A key injection and its four rounds. *)
Definition group (k t v : list Z) (s : nat) : list Z :=
  four_rounds (if Nat.even s then 0 else 4) (add_subkey k t s v).

Lemma rounds_group k t v s :
  (s < 18)%nat -> fold_left (SkeinSpec.round k t) (seq (4 * s) 4) v = group k t v s.
Proof.
  intros Hs. cbn [seq fold_left]. unfold SkeinSpec.round, group.
  do 18 (destruct s as [|s]; [reflexivity|]). lia.
Qed.

Lemma threefish_groups k t v :
  SkeinSpec.threefish k t v = add_subkey k t 18 (fold_left (group k t) (seq 0 18) v).
Proof.
  unfold SkeinSpec.threefish.
  change (seq 0 72) with (flat_map (fun s => seq (4 * s) 4) (seq 0 18)).
  rewrite fold_left_flat_map. apply (f_equal (add_subkey k t 18)), fold_left_ext_in.
  intros w s Hs. apply in_seq in Hs. apply rounds_group. lia.
Qed.

(** * The compression code *)

(** The key and tweak after [TFBIG_KINIT]. *)
Lemma KINIT_spec h t0 t1 x y :
  length h = 8%nat ->
  TFBIG_KINIT (h ++ [x]) [t0; t1; y] = (SkeinSpec.extend_key h, SkeinSpec.extend_tweak [t0; t1]).
Proof.
  intros Hh. destruct (length8 h Hh) as (a & b & c & d & e & f & g & k & ->).
  unfold TFBIG_KINIT, SkeinSpec.extend_key. cbn [app nth upd fold_left]. do 2 f_equal.
  repeat (apply (f_equal2 cons); [reflexivity|]). apply (f_equal2 cons); [|reflexivity].
  rewrite !Z.lxor_assoc. rewrite (Z.lxor_comm 0x1BD11BDAA9FC1A22).
  rewrite !Z.lxor_assoc. reflexivity.
Qed.

Definition load_words (b : list Z) : list Z :=
  map (fun i => sph_dec64le_aligned (skipn (8 * i) b)) (seq 0 8).

Definition feed_forward (m p : list Z) : list Z := map (fun i => m.[i] ^^ p.[i]) (seq 0 8).

(** The unrolled macro, with the rounds as a loop. *)
Lemma UBI_BIG_loop etype extra bcount h b :
  UBI_BIG etype extra bcount h b =
  let '(k, t) := TFBIG_KINIT (h ++ [0]) (tweak bcount etype extra) in
  feed_forward (load_words b)
    (TFBIG_ADDKEY k t 18
      (fold_left (fun p s => if Nat.even s then TFBIG_4e k t s p else TFBIG_4o k t s p)
         (seq 0 18) (load_words b))).
Proof.
  unfold UBI_BIG. generalize TFBIG_4e as four_e, TFBIG_4o as four_o, TFBIG_ADDKEY as addkey.
  intros. destruct (TFBIG_KINIT _ _) as [k t]. reflexivity.
Qed.

Lemma length_group k t v s : length (group k t v s) = 8%nat.
Proof. apply length_four_rounds. Qed.

Lemma UBI_BIG_spec etype extra bcount h b T :
  length h = 8%nat -> tweak bcount etype extra = SkeinSpec.tweak_words T ++ [0] ->
  UBI_BIG etype extra bcount h b = SkeinSpec.ubi_block h T b.
Proof.
  intros Hh Ht. rewrite UBI_BIG_loop, Ht. unfold SkeinSpec.tweak_words. cbn [app].
  rewrite KINIT_spec by assumption. unfold SkeinSpec.ubi_block. cbv zeta.
  fold (load_words b). set (m := load_words b). change (SkeinSpec.le_words b) with m.
  rewrite threefish_groups. set (t := [T mod 2 ^ 64; Z.shiftr T 64 mod 2 ^ 64]).
  change (SkeinSpec.tweak_words T) with t.
  assert (E : fold_left (fun p s => if Nat.even s
                then TFBIG_4e (SkeinSpec.extend_key h) (SkeinSpec.extend_tweak t) s p
                else TFBIG_4o (SkeinSpec.extend_key h) (SkeinSpec.extend_tweak t) s p) (seq 0 18) m
              = fold_left (group h t) (seq 0 18) m /\
              length (fold_left (group h t) (seq 0 18) m) = 8%nat).
  { apply (fold_left_sim _ (group h t) (fun p v => p = v /\ length v = 8%nat)); [|now split].
    intros p v s Hs [-> Hv]. apply in_seq in Hs. split; [|apply length_group].
    destruct (TFBIG_4_spec h t s v Hv ltac:(lia)) as [E1 E2]. cbv zeta in E1, E2.
    unfold group. destruct (Nat.even s); [exact E1 | exact E2]. }
  destruct E as [-> E]. rewrite ADDKEY_spec by (assumption || lia). reflexivity.
Qed.

(** * The small-footprint code *)

(** The tweak words after [u] rotations. *)
Definition rotated (t : list Z) (u : nat) : list Z :=
  map (fun j => t.[(j + 2 * u) mod 3]) (seq 0 3).

Lemma small_ADDKEY k t p s tt0 tt1 :
  length k = 9%nat -> (s <= 18)%nat -> tt0 = SKBT t s 0 -> tt1 = SKBT t s 1 ->
  TFBIG_ADDKEY_small_footprint (repeat_key (k ++ repeat 0 18)) s tt0 tt1 p = TFBIG_ADDKEY k t s p.
Proof.
  intros Hk Hs -> ->. unfold TFBIG_ADDKEY_small_footprint, TFBIG_ADDKEY.
  assert (E : forall i, (i <= 7)%nat -> (repeat_key (k ++ repeat 0 18)).[s + i] = SKBI k s i).
  { intros i Hi. unfold SKBI. rewrite (proj1 (M9_M3_spec s i 0 Hs Hi ltac:(lia))).
    assert (Hsi : (s + i < 27)%nat) by lia. generalize dependent (s + i)%nat. intros n Hn.
    destruct_list_n k. do 27 (destruct n as [|n]; [reflexivity|]). lia. }
  rewrite !E by lia. reflexivity.
Qed.

Lemma small_group k t u p :
  length k = 9%nat -> (u < 9)%nat ->
  let h27 := repeat_key (k ++ repeat 0 18) in
  TFBIG_4o_small_footprint h27 (rotated t u) (2 * u + 1)
    (TFBIG_4e_small_footprint h27 (rotated t u) (2 * u) p) =
  TFBIG_4o k t (2 * u + 1) (TFBIG_4e k t (2 * u) p).
Proof.
  intros Hk Hu. cbv zeta.
  assert (T : forall s j, (s <= 18)%nat -> (j <= 1)%nat -> SKBT t s j = t.[(s + j) mod 3])
    by (intros s j Hs Hj; unfold SKBT; now rewrite (proj2 (M9_M3_spec s 0 j Hs ltac:(lia) Hj))).
  unfold TFBIG_4o_small_footprint, TFBIG_4e_small_footprint, TFBIG_4o, TFBIG_4e. cbv zeta.
  rewrite !(small_ADDKEY k t); try lia; try reflexivity; rewrite T by lia;
    unfold rotated; cbn [map seq nth]; f_equal; f_equal; lia.
Qed.

Lemma rotated_step t u : let r := rotated t u in
  r.[2 := r.[1]].[1 := r.[0]].[0 := r.[2]] = rotated t (S u).
Proof.
  cbv zeta. unfold rotated. cbn [map seq nth upd].
  replace (2 + 2 * u)%nat with (0 + 2 * S u)%nat by lia.
  replace ((0 + 2 * u) mod 3)%nat with ((1 + 2 * S u) mod 3)%nat
    by (replace (1 + 2 * S u)%nat with (0 + 2 * u + 1 * 3)%nat by lia; apply Nat.Div0.mod_add).
  replace ((1 + 2 * u) mod 3)%nat with ((2 + 2 * S u) mod 3)%nat
    by (replace (2 + 2 * S u)%nat with (1 + 2 * u + 1 * 3)%nat by lia; apply Nat.Div0.mod_add).
  reflexivity.
Qed.

Lemma rotated_0 t : length t = 3%nat -> rotated t 0 = t.
Proof. intros H. destruct_list_n t. reflexivity. Qed.

Lemma small_iterations k t n a p :
  length k = 9%nat -> (a + n <= 9)%nat ->
  fold_left (UBI_BIG_pass (repeat_key (k ++ repeat 0 18))) (seq a n) (p, rotated t a) =
  (fold_left (fun p u => TFBIG_4o k t (2 * u + 1) (TFBIG_4e k t (2 * u) p)) (seq a n) p,
   rotated t (a + n)).
Proof.
  intros Hk. revert a p; induction n as [|n IH]; intros a p Ha; cbn [seq].
  - rewrite Nat.add_0_r. reflexivity.
  - rewrite !fold_left_cons.
    replace (UBI_BIG_pass (repeat_key (k ++ repeat 0 18)) (p, rotated t a) a) with
      (TFBIG_4o k t (2 * a + 1) (TFBIG_4e k t (2 * a) p), rotated t (S a)).
    + rewrite IH by lia. now rewrite Nat.add_succ_comm.
    + unfold UBI_BIG_pass. cbv zeta.
      replace (Nat.shiftl a 1) with (2 * a)%nat by (rewrite Nat.shiftl_mul_pow2; cbn; lia).
      rewrite small_group by (assumption || lia). now rewrite <- rotated_step.
Qed.

Lemma UBI_BIG_small_loop etype extra bcount h b :
  UBI_BIG_small_footprint etype extra bcount h b =
  let '(k, t) := TFBIG_KINIT (h ++ repeat 0 19) (tweak bcount etype extra) in
  let '(p, t) := fold_left (UBI_BIG_pass (repeat_key k)) (seq 0 9) (load_words b, t) in
  feed_forward (load_words b) (TFBIG_ADDKEY_small_footprint (repeat_key k) 18 t.[0] t.[1] p).
Proof.
  unfold UBI_BIG_small_footprint. destruct (TFBIG_KINIT _ _) as [k t].
  change (fold_left _ (seq 0 9) _) with (fold_left (UBI_BIG_pass (repeat_key k)) (seq 0 9) (load_words b, t)).
  destruct (fold_left (UBI_BIG_pass (repeat_key k)) (seq 0 9) (load_words b, t)) as [p t'].
  reflexivity.
Qed.

Lemma KINIT_small h t :
  length h = 8%nat ->
  TFBIG_KINIT (h ++ repeat 0 19) t =
  let '(k, t) := TFBIG_KINIT (h ++ [0]) t in (k ++ repeat 0 18, t).
Proof. intros Hh. destruct (length8 h Hh) as (a & b & c & d & e & f & g & x & ->). reflexivity. Qed.

Lemma UBI_BIG_small_footprint_eq etype extra bcount h b :
  length h = 8%nat ->
  UBI_BIG_small_footprint etype extra bcount h b = UBI_BIG etype extra bcount h b.
Proof.
  intros Hh. rewrite UBI_BIG_small_loop, UBI_BIG_loop, KINIT_small by assumption.
  unfold tweak. rewrite KINIT_spec by assumption.
  set (t := SkeinSpec.extend_tweak _). set (k := SkeinSpec.extend_key h).
  assert (Hk : length k = 9%nat) by (unfold k, SkeinSpec.extend_key; rewrite length_app, Hh; reflexivity).
  rewrite <- (rotated_0 t) at 1 by reflexivity.
  rewrite small_iterations by (assumption || lia).
  rewrite (small_ADDKEY k t) by (first [assumption | lia | reflexivity]).
  apply (f_equal (feed_forward (load_words b))), (f_equal (TFBIG_ADDKEY k t 18)).
  change (seq 0 18) with (flat_map (fun u => [2 * u; 2 * u + 1]%nat) (seq 0 9)).
  rewrite fold_left_flat_map. apply fold_left_ext_in. intros p u _.
  assert (E0 : Nat.even (2 * u) = true) by (rewrite Nat.even_mul; reflexivity).
  assert (E1 : Nat.even (2 * u + 1) = false) by (rewrite Nat.even_add, E0; reflexivity).
  rewrite fold_left_two, E0, E1. reflexivity.
Qed.
