(* ===== verification/SkeinHash.v ===== *)
(** Skein: the update that keeps a full block back, the tweak with its byte
    position and flags, and the output of skein.c compute the Skein-512 digests,
    for every way of cutting the message into updates and for messages shorter
    than 2^64 bytes. *)
From Stdlib Require Import ZifyNat.
From S2P Require Import Prelude SphTypes Stream Skein SphSpec SkeinProofs.
Import Skein.

(** * The tweak *)

Lemma shiftl_pow2 x n : 0 <= n -> Z.shiftl x n = x * 2 ^ n.
Proof. apply Z.shiftl_mul_pow2. Qed.

(** The words of [UBI_BIG] are those of the tweak as long as the position stays
    below 2^64. *)
Lemma tweak_spec bcount extra type first final :
  0 <= bcount -> 0 <= extra -> 64 * bcount + extra < 2 ^ 64 -> 0 <= type < 64 ->
  tweak bcount (2 * type + 128 * Z.b2z first + 256 * Z.b2z final) extra =
  SkeinSpec.tweak_words
    (SkeinSpec.tweak_value (64 * bcount + extra) type false first final) ++ [0].
Proof.
  intros Hb He Hlt Ht. unfold tweak, SkeinSpec.tweak_words, SkeinSpec.tweak_value. cbn [app].
  rewrite !SPH_T64_mod, !shiftl_pow2, !Z.shiftr_div_pow2 by lia.
  change (2 ^ 6) with 64. rewrite Zplus_mod_idemp_l, Zplus_mod_idemp_r.
  rewrite (Z.div_small bcount) by lia.
  assert (E : forall f l, f = Z.b2z first -> l = Z.b2z final ->
    64 * bcount + extra + Z.b2z false * 2 ^ 119 + type * 2 ^ 120 + f * 2 ^ 126 + l * 2 ^ 127 =
    (64 * bcount + extra) + (2 * type + 128 * f + 256 * l) * 2 ^ 55 * 2 ^ 64)
    by (intros; cbn [Z.b2z]; lia).
  rewrite (E _ _ eq_refl eq_refl). rewrite Z.mod_add, Z.div_add, (Z.div_small (64 * bcount + extra)) by lia.
  do 2 f_equal. f_equal. lia.
Qed.

Section Message.
Context (iv : list Z) (Hiv : length iv = 8%nat).

(** The block step with an unbounded block number [k] in place of [bcount]. *)
Definition step (st : list Z * nat) (b : list Z) : list Z * nat :=
  let '(g, k) := st in
  (UBI_BIG (96 + first_flag (Z.of_nat k)) 0 (SPH_T64 (Z.of_nat k + 1)) g b, (k + 1)%nat).

(** The step of the specification for the block [i] of the message [m]. *)
Definition ubi_step (m g : list Z) (i : nat) : list Z :=
  SkeinSpec.ubi_block g
    (SkeinSpec.tweak_value (Z.of_nat (Nat.min (length m) (64 * (i + 1)))) SkeinSpec.T_msg false
       (i =? 0)%nat (i + 1 =? SkeinSpec.ubi_blocks m)%nat) (SkeinSpec.block_at m i).

Lemma first_flag_nat k : first_flag (Z.of_nat k) = 128 * Z.b2z (k =? 0)%nat.
Proof. unfold first_flag. destruct k; reflexivity. Qed.

(** The blocks before the last one. *)
Lemma absorb_ubi m :
  Z.of_nat (length m) < 2 ^ 64 ->
  forall m' g i, m = firstn (64 * i) m ++ m' -> (64 * i + length m' = length m)%nat -> length g = 8%nat ->
  let '((g', k), t) := absorb_lazy 64 step (g, i) m' in
  (i <= k)%nat /\ length g' = 8%nat /\ t = skipn (64 * k) m /\ (64 * k + length t = length m)%nat /\
  fold_left (ubi_step m) (seq i (k - i)) g = g'.
Proof.
  intros Hlen m' g i Hm Hl Hg.
  remember (g, i) as st eqn:E. revert g i E Hm Hl Hg. revert st m'.
  apply (absorb_lazy_ind 64 step ltac:(lia) (fun st m' => forall g i, st = (g, i) ->
    m = firstn (64 * i) m ++ m' -> (64 * i + length m' = length m)%nat -> length g = 8%nat ->
    let '((g', k), t) := absorb_lazy 64 step st m' in
    (i <= k)%nat /\ length g' = 8%nat /\ t = skipn (64 * k) m /\ (64 * k + length t = length m)%nat /\
    fold_left (ubi_step m) (seq i (k - i)) g = g')).
  - intros st m' Hs g i -> Hm Hl Hg. rewrite absorb_lazy_short by lia.
    rewrite Nat.sub_diag. repeat split; auto.
    rewrite <- (firstn_skipn (64 * i) m) in Hm at 1. now apply app_inv_head in Hm.
  - intros st b m' Hb Hm'0 IH g i -> Hm Hl Hg. rewrite length_app in Hl.
    rewrite absorb_lazy_block_app by lia. cbn [step] in *.
    set (g1 := UBI_BIG _ _ _ g b) in *.
    assert (Hsk : skipn (64 * i) m = b ++ m').
    { rewrite <- (firstn_skipn (64 * i) m) in Hm at 1. now apply app_inv_head in Hm. }
    assert (E1 : g1 = ubi_step m g i).
    { unfold g1, ubi_step. rewrite first_flag_nat.
      replace (SkeinSpec.block_at m i) with b.
      - replace (Nat.min (length m) (64 * (i + 1))) with (64 * (i + 1))%nat by lia.
        replace (i + 1 =? SkeinSpec.ubi_blocks m)%nat with false.
        + apply UBI_BIG_spec; [assumption|].
          rewrite SPH_T64_mod, Z.mod_small by lia.
          replace (96 + 128 * Z.b2z (i =? 0)%nat)
            with (2 * SkeinSpec.T_msg + 128 * Z.b2z (i =? 0)%nat + 256 * Z.b2z false) by (cbn; lia).
          rewrite tweak_spec by (unfold SkeinSpec.T_msg; lia). do 3 f_equal. lia.
        + symmetry. apply Nat.eqb_neq. unfold SkeinSpec.ubi_blocks.
          pose proof (Nat.div_mod_eq (length m + 63) 64). pose proof (Nat.mod_upper_bound (length m + 63) 64). lia.
      - unfold SkeinSpec.block_at. rewrite Hsk, firstn_app, Hb, Nat.sub_diag, firstn_O, app_nil_r, firstn_all2 by lia.
        rewrite Hb. now rewrite app_nil_r. }
    assert (Hg1 : length g1 = 8%nat) by (rewrite E1; reflexivity).
    specialize (IH g1 (i + 1)%nat eq_refl).
    destruct (absorb_lazy 64 step (g1, (i + 1)%nat) m') as [[g' k] t].
    destruct IH as (I1 & I2 & I3 & I4 & I5); [|lia|assumption|].
    + rewrite <- (firstn_skipn (64 * (i + 1)) m) at 1. f_equal.
      replace (64 * (i + 1))%nat with (64 + 64 * i)%nat by lia.
      rewrite <- skipn_skipn, Hsk, skipn_app, Hb, Nat.sub_diag, skipn_O, skipn_all2 by lia. reflexivity.
    + repeat split; try assumption; [lia|].
      replace (k - i)%nat with (S (k - (i + 1))) by lia. cbn [seq]. rewrite fold_left_cons, <- E1.
      replace (S i) with (i + 1)%nat by lia. exact I5.
Qed.
(** The last block of the message has the "final" flag. *)
Lemma ubi_last m g k t :
  Z.of_nat (length m) < 2 ^ 64 -> absorb_lazy 64 step (iv, 0%nat) m = ((g, k), t) ->
  length g = 8%nat /\ (64 * k + length t = length m)%nat /\ (length t <= 64)%nat /\
  SkeinSpec.ubi iv m SkeinSpec.T_msg =
  SkeinSpec.ubi_block g
    (SkeinSpec.tweak_value (Z.of_nat (length m)) SkeinSpec.T_msg false (k =? 0)%nat true)
    (t ++ repeat 0 (64 - length t)).
Proof.
  intros Hlen E.
  pose proof (absorb_ubi m Hlen m iv 0 eq_refl ltac:(lia) Hiv) as A. rewrite E in A.
  destruct A as (_ & Hg & Ht & Hl & Hf). rewrite Nat.sub_0_r in Hf.
  pose proof (absorb_lazy_tail_length 64 step ltac:(lia) (iv, 0%nat) m) as Hle.
  pose proof (absorb_lazy_tail_pos 64 step ltac:(lia) (iv, 0%nat) m) as Hpos.
  rewrite E in Hle, Hpos. cbn [snd] in Hle, Hpos.
  assert (Hn : SkeinSpec.ubi_blocks m = (k + 1)%nat).
  { unfold SkeinSpec.ubi_blocks. pose proof (Nat.div_mod_eq (length m + 63) 64).
    pose proof (Nat.mod_upper_bound (length m + 63) 64). lia. }
  repeat split; try assumption.
  unfold SkeinSpec.ubi. change (fold_left _ _ _) with (fold_left (ubi_step m) (seq 0 (SkeinSpec.ubi_blocks m)) iv).
  rewrite Hn, Nat.add_1_r, seq_S, fold_left_app, Hf. cbn [fold_left Nat.add].
  unfold ubi_step. rewrite Hn, Nat.eqb_refl. rewrite Nat.min_l by lia.
  f_equal. unfold SkeinSpec.block_at. rewrite <- Ht. now rewrite firstn_all2.
Qed.

(** * Contexts *)

(** What the code requires of a message. *)
Definition short_message (m : list Z) : Prop := Z.of_nat (length m) < 2 ^ 64.

(** The context [c] stands for the message [m]. *)
Definition stands_for (c : sph_skein_big_context) (m : list Z) : Prop :=
  bytes m /\ exists k, represents_lazy 64 step (iv, 0%nat) (buf c) (ptr c) (h c, k) m /\
  bcount c = Z.of_nat k mod 2 ^ 64.

Definition skein_rep (c : sph_skein_big_context) (m : list Z) : Prop :=
  length (buf c) = 64%nat /\ (ptr c <= 64)%nat /\ (short_message m -> stands_for c m).

Lemma skein_init_rep c : length (buf c) = 64%nat -> skein_rep (skein_big_init c iv) [].
Proof.
  intros Hb. repeat split; [exact Hb | cbn; lia | apply Forall_nil|].
  exists 0%nat. split; [|reflexivity]. repeat split; [exact Hb | cbn; lia |].
  destruct (length8 iv Hiv) as (x0 & x1 & x2 & x3 & x4 & x5 & x6 & x7 & ->). reflexivity.
Qed.

(** The local [bcount] and [first] of the loop against the block number. *)
Definition local_state (st : list Z * Z * Z) (st' : list Z * nat) : Prop :=
  st = (fst st', Z.of_nat (snd st') mod 2 ^ 64, first_flag (Z.of_nat (snd st'))).

Lemma block_local st st' b :
  local_state st st' -> local_state (skein_big_block st b) (step st' b).
Proof.
  destruct st' as [g k]. intros ->. unfold local_state, skein_big_block, step. cbn [fst snd].
  rewrite !SPH_T64_mod, Zplus_mod_idemp_l.
  replace (Z.of_nat (k + 1)) with (Z.of_nat k + 1) by lia.
  apply (f_equal (pair _)). unfold first_flag. destruct (Z.eqb_spec (Z.of_nat k + 1) 0); [lia | reflexivity].
Qed.
(** [skein_big_core] appends its data to the message of the context. *)
Lemma skein_core_rep c m data :
  bytes data -> skein_rep c m -> skein_rep (skein_big_core c data) (m ++ data).
Proof.
  intros Hdata (Hb & Hp & Hr). unfold skein_big_core.
  assert (Hs : short_message (m ++ data) -> short_message m)
    by (unfold short_message; rewrite length_app; lia).
  destruct (Nat.leb_spec (length data) (64 - ptr c)) as [Hle|Hgt].
  - split; [|split]; cbn [buf ptr h bcount]; [rewrite length_memcpy_at; lia | lia |].
    intros Hok. destruct (Hr (Hs Hok)) as [Hm (k & Hk & Hc)]. split; [now apply Forall_app|].
    exists k. split; [|exact Hc]. apply short_copy_represents_lazy; first [exact Hk | lia].
  - assert (Hd : (0 < length data)%nat) by lia.
    destruct (lazy_loop_absorb 64 skein_big_block ltac:(lia) (length data) (buf c) (ptr c)
      (h c, bcount c, first_flag (bcount c)) data Hb Hp ltac:(lia)) as (b' & p' & s' & El & Hb' & Hp' & _).
    pose proof (fun k H => lazy_loop_rel 64 skein_big_block step local_state block_local
      (length data) (buf c) (ptr c) (h c, bcount c, first_flag (bcount c)) (h c, k) data H) as Hrel.
    cbv zeta. rewrite El in *. destruct s' as [[h' c'] f'].
    split; [|split]; cbn [buf ptr h bcount]; [assumption | assumption |].
    intros Hok. destruct (Hr (Hs Hok)) as [Hm (k & Hk & Hc)]. split; [now apply Forall_app|].
    assert (Hkl : (64 * k <= length m)%nat).
    { destruct Hk as (_ & _ & E). destruct (ubi_last m (h c) k _ (Hs Hok) E) as (_ & ? & _). lia. }
    assert (Hks : Z.of_nat k mod 2 ^ 64 = Z.of_nat k)
      by (apply Z.mod_small; apply Hs in Hok; unfold short_message in Hok; lia).
    specialize (Hrel k). pose proof (lazy_loop_represents 64 step ltac:(lia) _ _ _ _ _ data Hk Hd) as G.
    destruct (lazy_loop 64 step _ _ _ _ _) as [[b2 p2] [g2 k2]].
    destruct Hrel as (-> & -> & E); [unfold local_state; cbn [fst snd]; now rewrite Hc, Hks|].
    unfold local_state in E. cbn [fst snd] in E. injection E as -> -> _.
    exists k2. split; [exact G | reflexivity].
Qed.

(** The second pass of [close]: the output block. *)
Lemma output_block g :
  length g = 8%nat ->
  UBI_BIG 510 8 0 g (repeat 0 64) = SkeinSpec.ubi g (le_split 8 0) SkeinSpec.T_out.
Proof. intros Hg. apply UBI_BIG_spec; [assumption | reflexivity]. Qed.

Lemma memcpy_whole (b : list Z) (z : list Z) :
  length b = 64%nat -> length z = 64%nat -> memcpy_at b 0 z = z.
Proof.
  intros Hb Hz. unfold memcpy_at. cbn [firstn app]. rewrite skipn_all2 by lia. apply app_nil_r.
Qed.

Lemma skein_close_rep c m d :
  (d <= 64)%nat -> skein_rep c m -> short_message m ->
  fst (skein_big_close c 0 0 d) =
    firstn d (flat_map (le_split 8)
      (SkeinSpec.ubi (SkeinSpec.ubi iv m SkeinSpec.T_msg) (le_split 8 0) SkeinSpec.T_out)) /\
  length (buf (snd (skein_big_close c 0 0 d))) = 64%nat.
Proof.
  intros Hd (Hb & Hp & Hr) Hok. destruct (Hr Hok) as [Hm (k & (_ & _ & E) & Hc)].
  destruct (ubi_last m (h c) k _ Hok E) as (Hh & Hl & Hle & Eu).
  rewrite length_firstn, Hb, Nat.min_l in Hl, Eu by assumption.
  unfold short_message in Hok.
  unfold skein_big_close. cbv zeta. change (0 =? 0) with true. cbv iota. cbn [fst snd buf].
  replace (memcpy_at (buf c) (ptr c) (repeat 0 (64 - ptr c)))
    with (firstn (ptr c) (buf c) ++ repeat 0 (64 - ptr c))
    by (unfold memcpy_at; rewrite repeat_length, skipn_all2, app_nil_r by lia; reflexivity).
  rewrite memcpy_whole
    by (rewrite ?length_app, ?length_firstn, ?repeat_length; lia).
  assert (E1 : UBI_BIG (352 + first_flag (bcount c) + 0) (Z.of_nat (ptr c)) (bcount c) (h c)
      (firstn (ptr c) (buf c) ++ repeat 0 (64 - ptr c)) = SkeinSpec.ubi iv m SkeinSpec.T_msg).
  { assert (Hk : Z.of_nat k mod 2 ^ 64 = Z.of_nat k) by (apply Z.mod_small; lia).
    rewrite Eu, Hc, Hk, first_flag_nat. apply UBI_BIG_spec; [assumption|].
    replace (352 + 128 * Z.b2z (k =? 0)%nat + 0)
      with (2 * SkeinSpec.T_msg + 128 * Z.b2z (k =? 0)%nat + 256 * Z.b2z true)
      by (unfold SkeinSpec.T_msg; cbn [Z.b2z]; lia).
    rewrite tweak_spec by (unfold SkeinSpec.T_msg; lia). do 3 f_equal. lia. }
  rewrite E1, output_block by (rewrite Eu; reflexivity).
  assert (Ho : forall l, length l = 8%nat ->
    flat_map (fun i => sph_enc64le_aligned l.[i]) (seq 0 8) = flat_map (le_split 8) l)
    by (intros l Hl8; destruct_list_n l; reflexivity).
  rewrite Ho by reflexivity. split; [reflexivity|].
  rewrite (length_flat_map_const _ 8) by (intros; apply length_le_split). reflexivity.
Qed.
End Message.

(** * The four digest functions *)

Lemma IV_spec :
  IV224 = SkeinSpec.iv 28 /\ IV256 = SkeinSpec.iv 32 /\ IV384 = SkeinSpec.iv 48 /\ IV512 = SkeinSpec.iv 64.
Proof. repeat split; vm_compute; reflexivity. Qed.

(** The operations with a given initial value and digest size. *)
Definition skein_ops (c0 : sph_skein_big_context) (iv : list Z) (d : nat) : hash_ops sph_skein_big_context :=
  {| hash_init := skein_big_init c0 iv; hash_update := skein_big_core;
     hash_close := fun c => let '(dst, c) := skein_big_close c 0 0 d in (dst, skein_big_init c iv) |}.

Lemma skein_stream c0 iv d :
  length (buf c0) = 64%nat -> length iv = 8%nat -> (d <= 64)%nat -> iv = SkeinSpec.iv d ->
  StreamHash (skein_ops c0 iv d) short_message (SkeinSpec.skein d).
Proof.
  intros Hb Hiv Hd E. refine (Build_StreamHash _ _ _ _ (skein_rep iv) _ _ _);
    cbn [hash_init hash_update hash_close skein_ops].
  - now apply skein_init_rep.
  - intros; now apply skein_core_rep.
  - intros c m Hr Hok. destruct (skein_close_rep iv Hiv c m d Hd Hr Hok) as [E1 E2].
    destruct (skein_big_close c 0 0 d) as [dst c']. cbn [fst snd] in *. split.
    + rewrite E1, E. reflexivity.
    + now apply skein_init_rep.
Qed.

Definition skein224_ops (c0 : sph_skein_big_context) : hash_ops sph_skein_big_context :=
  {| hash_init := sph_skein224_init c0; hash_update := sph_skein224;
     hash_close := sph_skein224_close |}.
Definition skein256_ops (c0 : sph_skein_big_context) : hash_ops sph_skein_big_context :=
  {| hash_init := sph_skein256_init c0; hash_update := sph_skein256;
     hash_close := sph_skein256_close |}.
Definition skein384_ops (c0 : sph_skein_big_context) : hash_ops sph_skein_big_context :=
  {| hash_init := sph_skein384_init c0; hash_update := sph_skein384;
     hash_close := sph_skein384_close |}.
Definition skein512_ops (c0 : sph_skein_big_context) : hash_ops sph_skein_big_context :=
  {| hash_init := sph_skein512_init c0; hash_update := sph_skein512;
     hash_close := sph_skein512_close |}.

#[export] Instance skein224_stream c0 (Hc0 : length (buf c0) = 64%nat) :
  StreamHash (skein224_ops c0) short_message (SkeinSpec.skein 28) :=
  skein_stream c0 IV224 28 Hc0 eq_refl ltac:(lia) (proj1 IV_spec).
#[export] Instance skein256_stream c0 (Hc0 : length (buf c0) = 64%nat) :
  StreamHash (skein256_ops c0) short_message (SkeinSpec.skein 32) :=
  skein_stream c0 IV256 32 Hc0 eq_refl ltac:(lia) (proj1 (proj2 IV_spec)).
#[export] Instance skein384_stream c0 (Hc0 : length (buf c0) = 64%nat) :
  StreamHash (skein384_ops c0) short_message (SkeinSpec.skein 48) :=
  skein_stream c0 IV384 48 Hc0 eq_refl ltac:(lia) (proj1 (proj2 (proj2 IV_spec))).
#[export] Instance skein512_stream c0 (Hc0 : length (buf c0) = 64%nat) :
  StreamHash (skein512_ops c0) short_message (SkeinSpec.skein 64) :=
  skein_stream c0 IV512 64 Hc0 eq_refl ltac:(lia) (proj2 (proj2 (proj2 IV_spec))).

(** The compression code: for a chaining value of eight words and a byte
    position below 2^64, the unrolled [UBI_BIG] and its small-footprint variant
    (key array of 27 words, rotating tweak) compute one UBI block of the
    reference: Threefish-512 under the tweak with the given position, type and
    flags, fed forward with the block. *)
Theorem skein_ubi h0 b bcount extra type first final :
  length h0 = 8%nat -> 0 <= bcount -> 0 <= extra -> 64 * bcount + extra < 2 ^ 64 -> 0 <= type < 64 ->
  let etype := 2 * type + 128 * Z.b2z first + 256 * Z.b2z final in
  let out := SkeinSpec.ubi_block h0
    (SkeinSpec.tweak_value (64 * bcount + extra) type false first final) b in
  UBI_BIG etype extra bcount h0 b = out /\ UBI_BIG_small_footprint etype extra bcount h0 b = out.
Proof.
  intros Hh Hb He Hlt Ht etype out.
  assert (E : UBI_BIG etype extra bcount h0 b = out)
    by (apply UBI_BIG_spec; [assumption | now apply tweak_spec]).
  split; [exact E|]. rewrite UBI_BIG_small_footprint_eq by assumption. exact E.
Qed.

Lemma skein_ubi_witness :
  UBI_BIG_small_footprint 352 5 3 IV512 (repeat 7 64) =
  SkeinSpec.ubi_block IV512 (SkeinSpec.tweak_value 197 48 false false true) (repeat 7 64).
Proof.
  refine (proj2 (skein_ubi IV512 (repeat 7 64) 3 5 48 false true _ _ _ _ _)); [reflexivity | lia | lia | lia | lia].
Defined.

(** The digests: whatever the uninitialised context held and however a
    message of less than 2^64 bytes is cut into updates, the four functions
    return its Skein-512 digest; the initial values in the code are those that
    the configuration block yields. *)
Theorem skein_digests c0 pieces :
  length (buf c0) = 64%nat -> Forall (fun p => bytes p) pieces -> short_message (concat pieces) ->
  digest_of (skein224_ops c0) pieces = SkeinSpec.skein 28 (concat pieces) /\
  digest_of (skein256_ops c0) pieces = SkeinSpec.skein 32 (concat pieces) /\
  digest_of (skein384_ops c0) pieces = SkeinSpec.skein 48 (concat pieces) /\
  digest_of (skein512_ops c0) pieces = SkeinSpec.skein 64 (concat pieces).
Proof.
  intros Hc Hp Hs. repeat split.
  - exact (chunked_digest (StreamHash0 := skein224_stream c0 Hc) pieces Hp Hs).
  - exact (chunked_digest (StreamHash0 := skein256_stream c0 Hc) pieces Hp Hs).
  - exact (chunked_digest (StreamHash0 := skein384_stream c0 Hc) pieces Hp Hs).
  - exact (chunked_digest (StreamHash0 := skein512_stream c0 Hc) pieces Hp Hs).
Qed.

Definition skein_blank : sph_skein_big_context :=
  {| buf := repeat 0 64; ptr := 0; h := []; bcount := 0 |}.

Lemma skein_digests_witness :
  digest_of (skein512_ops skein_blank) [[97]; []; [98; 99]] = SkeinSpec.skein 64 [97; 98; 99].
Proof.
  apply (skein_digests skein_blank [[97]; []; [98; 99]]).
  - reflexivity.
  - repeat apply Forall_cons; try apply Forall_nil; split; (lia || reflexivity).
  - reflexivity.
Defined.

(** Where the bound comes from: the code adds the bytes of the last block to
    the low tweak word without carrying into the high one, so the tweak of a
    last block that is full and ends at byte 2^64 is not the one of the
    reference. *)
Theorem skein_tweak_carry_lost :
  tweak (2 ^ 58 - 1) 352 64 <>
  SkeinSpec.tweak_words (SkeinSpec.tweak_value (2 ^ 64) SkeinSpec.T_msg false false true) ++ [0].
Proof. vm_compute. discriminate. Qed.

(** The first bytes of the published digest of the empty message. *)
Example skein512_empty :
  firstn 8 (digest_of (skein512_ops skein_blank) []) =
  [0xbc; 0x5b; 0x4c; 0x50; 0x92; 0x55; 0x19; 0xc2].
Proof. vm_compute; reflexivity. Qed.
