(* ===== verification/Bmw.v ===== *)
(** Model of src/src/crypto/bmw.c (contexts of sph_bmw.h): the four Blue Midnight
    Wish functions. The sixteen message words [M(0)] ... [M(15)], the chaining
    words [H(0)] ... [H(15)] and the array [qt] are lists; the macro arguments
    [qf], [mf] and [hf] are functions from positions to words. The shifts of
    [FOLD] act on variables of the word type, so what they shift out is lost.
    The variants selected by [SPH_SMALL_FOOTPRINT_BMW] carry the suffix
    [_small_footprint]. *)
From S2P Require Import Prelude SphTypes Stream.

Module Bmw.

(** * Constants *)

Definition IV224 : list Z :=
  [ 0x00010203; 0x04050607; 0x08090A0B; 0x0C0D0E0F;
    0x10111213; 0x14151617; 0x18191A1B; 0x1C1D1E1F;
    0x20212223; 0x24252627; 0x28292A2B; 0x2C2D2E2F;
    0x30313233; 0x34353637; 0x38393A3B; 0x3C3D3E3F ].

Definition IV256 : list Z :=
  [ 0x40414243; 0x44454647; 0x48494A4B; 0x4C4D4E4F;
    0x50515253; 0x54555657; 0x58595A5B; 0x5C5D5E5F;
    0x60616263; 0x64656667; 0x68696A6B; 0x6C6D6E6F;
    0x70717273; 0x74757677; 0x78797A7B; 0x7C7D7E7F ].

Definition IV384 : list Z :=
  [ 0x0001020304050607; 0x08090A0B0C0D0E0F; 0x1011121314151617; 0x18191A1B1C1D1E1F;
    0x2021222324252627; 0x28292A2B2C2D2E2F; 0x3031323334353637; 0x38393A3B3C3D3E3F;
    0x4041424344454647; 0x48494A4B4C4D4E4F; 0x5051525354555657; 0x58595A5B5C5D5E5F;
    0x6061626364656667; 0x68696A6B6C6D6E6F; 0x7071727374757677; 0x78797A7B7C7D7E7F ].

Definition IV512 : list Z :=
  [ 0x8081828384858687; 0x88898A8B8C8D8E8F; 0x9091929394959697; 0x98999A9B9C9D9E9F;
    0xA0A1A2A3A4A5A6A7; 0xA8A9AAABACADAEAF; 0xB0B1B2B3B4B5B6B7; 0xB8B9BABBBCBDBEBF;
    0xC0C1C2C3C4C5C6C7; 0xC8C9CACBCCCDCECF; 0xD0D1D2D3D4D5D6D7; 0xD8D9DADBDCDDDEDF;
    0xE0E1E2E3E4E5E6E7; 0xE8E9EAEBECEDEEEF; 0xF0F1F2F3F4F5F6F7; 0xF8F9FAFBFCFDFEFF ].

Definition final_s : list Z :=
  [ 0xaaaaaaa0; 0xaaaaaaa1; 0xaaaaaaa2; 0xaaaaaaa3;
    0xaaaaaaa4; 0xaaaaaaa5; 0xaaaaaaa6; 0xaaaaaaa7;
    0xaaaaaaa8; 0xaaaaaaa9; 0xaaaaaaaa; 0xaaaaaaab;
    0xaaaaaaac; 0xaaaaaaad; 0xaaaaaaae; 0xaaaaaaaf ].

Definition final_b : list Z :=
  [ 0xaaaaaaaaaaaaaaa0; 0xaaaaaaaaaaaaaaa1; 0xaaaaaaaaaaaaaaa2; 0xaaaaaaaaaaaaaaa3;
    0xaaaaaaaaaaaaaaa4; 0xaaaaaaaaaaaaaaa5; 0xaaaaaaaaaaaaaaa6; 0xaaaaaaaaaaaaaaa7;
    0xaaaaaaaaaaaaaaa8; 0xaaaaaaaaaaaaaaa9; 0xaaaaaaaaaaaaaaaa; 0xaaaaaaaaaaaaaaab;
    0xaaaaaaaaaaaaaaac; 0xaaaaaaaaaaaaaaad; 0xaaaaaaaaaaaaaaae; 0xaaaaaaaaaaaaaaaf ].

(** The macros [I16_16] ... [I16_31]: the sixteen positions that [I16_]i expands to are row [i - 16]. *)
Definition I16 : list (list nat) :=
  [ [0; 1; 2; 3; 4; 5; 6; 7; 8; 9; 10; 11; 12; 13; 14; 15];
    [1; 2; 3; 4; 5; 6; 7; 8; 9; 10; 11; 12; 13; 14; 15; 16];
    [2; 3; 4; 5; 6; 7; 8; 9; 10; 11; 12; 13; 14; 15; 16; 17];
    [3; 4; 5; 6; 7; 8; 9; 10; 11; 12; 13; 14; 15; 16; 17; 18];
    [4; 5; 6; 7; 8; 9; 10; 11; 12; 13; 14; 15; 16; 17; 18; 19];
    [5; 6; 7; 8; 9; 10; 11; 12; 13; 14; 15; 16; 17; 18; 19; 20];
    [6; 7; 8; 9; 10; 11; 12; 13; 14; 15; 16; 17; 18; 19; 20; 21];
    [7; 8; 9; 10; 11; 12; 13; 14; 15; 16; 17; 18; 19; 20; 21; 22];
    [8; 9; 10; 11; 12; 13; 14; 15; 16; 17; 18; 19; 20; 21; 22; 23];
    [9; 10; 11; 12; 13; 14; 15; 16; 17; 18; 19; 20; 21; 22; 23; 24];
    [10; 11; 12; 13; 14; 15; 16; 17; 18; 19; 20; 21; 22; 23; 24; 25];
    [11; 12; 13; 14; 15; 16; 17; 18; 19; 20; 21; 22; 23; 24; 25; 26];
    [12; 13; 14; 15; 16; 17; 18; 19; 20; 21; 22; 23; 24; 25; 26; 27];
    [13; 14; 15; 16; 17; 18; 19; 20; 21; 22; 23; 24; 25; 26; 27; 28];
    [14; 15; 16; 17; 18; 19; 20; 21; 22; 23; 24; 25; 26; 27; 28; 29];
    [15; 16; 17; 18; 19; 20; 21; 22; 23; 24; 25; 26; 27; 28; 29; 30] ]%nat.

(** The macros [M16_16] ... [M16_31]: the seven positions and rotation amounts that [M16_]i expands to are row [i - 16]. *)
Definition M16 : list (list nat) :=
  [ [0; 1; 3; 4; 7; 10; 11];
    [1; 2; 4; 5; 8; 11; 12];
    [2; 3; 5; 6; 9; 12; 13];
    [3; 4; 6; 7; 10; 13; 14];
    [4; 5; 7; 8; 11; 14; 15];
    [5; 6; 8; 9; 12; 15; 16];
    [6; 7; 9; 10; 13; 0; 1];
    [7; 8; 10; 11; 14; 1; 2];
    [8; 9; 11; 12; 15; 2; 3];
    [9; 10; 12; 13; 0; 3; 4];
    [10; 11; 13; 14; 1; 4; 5];
    [11; 12; 14; 15; 2; 5; 6];
    [12; 13; 15; 16; 3; 6; 7];
    [13; 14; 0; 1; 4; 7; 8];
    [14; 15; 1; 2; 5; 8; 9];
    [15; 16; 2; 3; 6; 9; 10] ]%nat.

Definition I16_row (i16 : nat) : list nat := nth (i16 - 16) I16 [].
Definition M16_row (i16 : nat) : list nat := nth (i16 - 16) M16 [].

(** * The 32-bit macros *)

Definition ss0 (x : Z) : Z :=
  Z.shiftr x 1 ^^ SPH_T32 (Z.shiftl x 3) ^^ SPH_ROTL32 x 4 ^^ SPH_ROTL32 x 19.
Definition ss1 (x : Z) : Z :=
  Z.shiftr x 1 ^^ SPH_T32 (Z.shiftl x 2) ^^ SPH_ROTL32 x 8 ^^ SPH_ROTL32 x 23.
Definition ss2 (x : Z) : Z :=
  Z.shiftr x 2 ^^ SPH_T32 (Z.shiftl x 1) ^^ SPH_ROTL32 x 12 ^^ SPH_ROTL32 x 25.
Definition ss3 (x : Z) : Z :=
  Z.shiftr x 2 ^^ SPH_T32 (Z.shiftl x 2) ^^ SPH_ROTL32 x 15 ^^ SPH_ROTL32 x 29.
Definition ss4 (x : Z) : Z := Z.shiftr x 1 ^^ x.
Definition ss5 (x : Z) : Z := Z.shiftr x 2 ^^ x.
Definition rs1 (x : Z) : Z := SPH_ROTL32 x 3.
Definition rs2 (x : Z) : Z := SPH_ROTL32 x 7.
Definition rs3 (x : Z) : Z := SPH_ROTL32 x 13.
Definition rs4 (x : Z) : Z := SPH_ROTL32 x 16.
Definition rs5 (x : Z) : Z := SPH_ROTL32 x 19.
Definition rs6 (x : Z) : Z := SPH_ROTL32 x 23.
Definition rs7 (x : Z) : Z := SPH_ROTL32 x 27.

Definition Ks (j : nat) : Z := SPH_T32 (Z.of_nat j * 0x05555555).

(** [j1m], [j4m] and [j11m] are rotation amounts. *)
Definition add_elt_s (mf hf : nat -> Z) (j0m j1m j3m j4m j7m j10m j11m j16 : nat) : Z :=
  SPH_T32 (SPH_ROTL32 (mf j0m) (Z.of_nat j1m) + SPH_ROTL32 (mf j3m) (Z.of_nat j4m)
    - SPH_ROTL32 (mf j10m) (Z.of_nat j11m) + Ks j16) ^^ hf j7m.

(** The macro's arguments [i0] ... [i15] and [i0m] ... [i11m] are the elements of
    the lists. *)
Definition expand1s_inner (qf mf hf : nat -> Z) (i16 : nat) (ix iy : list nat) : Z :=
  match ix, iy with
  | [i0; i1; i2; i3; i4; i5; i6; i7; i8; i9; i10; i11; i12; i13; i14; i15],
    [i0m; i1m; i3m; i4m; i7m; i10m; i11m] =>
      SPH_T32 (ss1 (qf i0) + ss2 (qf i1) + ss3 (qf i2) + ss0 (qf i3)
        + ss1 (qf i4) + ss2 (qf i5) + ss3 (qf i6) + ss0 (qf i7)
        + ss1 (qf i8) + ss2 (qf i9) + ss3 (qf i10) + ss0 (qf i11)
        + ss1 (qf i12) + ss2 (qf i13) + ss3 (qf i14) + ss0 (qf i15)
        + add_elt_s mf hf i0m i1m i3m i4m i7m i10m i11m i16)
  | _, _ => 0
  end.

Definition expand1s (qf mf hf : nat -> Z) (i16 : nat) : Z :=
  expand1s_inner qf mf hf i16 (I16_row i16) (M16_row i16).

(** The macro's arguments [i0] ... [i15] and [i0m] ... [i11m] are the elements of
    the lists. *)
Definition expand2s_inner (qf mf hf : nat -> Z) (i16 : nat) (ix iy : list nat) : Z :=
  match ix, iy with
  | [i0; i1; i2; i3; i4; i5; i6; i7; i8; i9; i10; i11; i12; i13; i14; i15],
    [i0m; i1m; i3m; i4m; i7m; i10m; i11m] =>
      SPH_T32 (qf i0 + rs1 (qf i1) + qf i2 + rs2 (qf i3)
        + qf i4 + rs3 (qf i5) + qf i6 + rs4 (qf i7)
        + qf i8 + rs5 (qf i9) + qf i10 + rs6 (qf i11)
        + qf i12 + rs7 (qf i13) + ss4 (qf i14) + ss5 (qf i15)
        + add_elt_s mf hf i0m i1m i3m i4m i7m i10m i11m i16)
  | _, _ => 0
  end.

Definition expand2s (qf mf hf : nat -> Z) (i16 : nat) : Z :=
  expand2s_inner qf mf hf i16 (I16_row i16) (M16_row i16).

(** * The 64-bit macros *)

Definition sb0 (x : Z) : Z :=
  Z.shiftr x 1 ^^ SPH_T64 (Z.shiftl x 3) ^^ SPH_ROTL64 x 4 ^^ SPH_ROTL64 x 37.
Definition sb1 (x : Z) : Z :=
  Z.shiftr x 1 ^^ SPH_T64 (Z.shiftl x 2) ^^ SPH_ROTL64 x 13 ^^ SPH_ROTL64 x 43.
Definition sb2 (x : Z) : Z :=
  Z.shiftr x 2 ^^ SPH_T64 (Z.shiftl x 1) ^^ SPH_ROTL64 x 19 ^^ SPH_ROTL64 x 53.
Definition sb3 (x : Z) : Z :=
  Z.shiftr x 2 ^^ SPH_T64 (Z.shiftl x 2) ^^ SPH_ROTL64 x 28 ^^ SPH_ROTL64 x 59.
Definition sb4 (x : Z) : Z := Z.shiftr x 1 ^^ x.
Definition sb5 (x : Z) : Z := Z.shiftr x 2 ^^ x.
Definition rb1 (x : Z) : Z := SPH_ROTL64 x 5.
Definition rb2 (x : Z) : Z := SPH_ROTL64 x 11.
Definition rb3 (x : Z) : Z := SPH_ROTL64 x 27.
Definition rb4 (x : Z) : Z := SPH_ROTL64 x 32.
Definition rb5 (x : Z) : Z := SPH_ROTL64 x 37.
Definition rb6 (x : Z) : Z := SPH_ROTL64 x 43.
Definition rb7 (x : Z) : Z := SPH_ROTL64 x 53.

Definition Kb (j : nat) : Z := SPH_T64 (Z.of_nat j * 0x0555555555555555).

(** [j1m], [j4m] and [j11m] are rotation amounts. *)
Definition add_elt_b (mf hf : nat -> Z) (j0m j1m j3m j4m j7m j10m j11m j16 : nat) : Z :=
  SPH_T64 (SPH_ROTL64 (mf j0m) (Z.of_nat j1m) + SPH_ROTL64 (mf j3m) (Z.of_nat j4m)
    - SPH_ROTL64 (mf j10m) (Z.of_nat j11m) + Kb j16) ^^ hf j7m.

(** The macro's arguments [i0] ... [i15] and [i0m] ... [i11m] are the elements of
    the lists. *)
Definition expand1b_inner (qf mf hf : nat -> Z) (i16 : nat) (ix iy : list nat) : Z :=
  match ix, iy with
  | [i0; i1; i2; i3; i4; i5; i6; i7; i8; i9; i10; i11; i12; i13; i14; i15],
    [i0m; i1m; i3m; i4m; i7m; i10m; i11m] =>
      SPH_T64 (sb1 (qf i0) + sb2 (qf i1) + sb3 (qf i2) + sb0 (qf i3)
        + sb1 (qf i4) + sb2 (qf i5) + sb3 (qf i6) + sb0 (qf i7)
        + sb1 (qf i8) + sb2 (qf i9) + sb3 (qf i10) + sb0 (qf i11)
        + sb1 (qf i12) + sb2 (qf i13) + sb3 (qf i14) + sb0 (qf i15)
        + add_elt_b mf hf i0m i1m i3m i4m i7m i10m i11m i16)
  | _, _ => 0
  end.

Definition expand1b (qf mf hf : nat -> Z) (i16 : nat) : Z :=
  expand1b_inner qf mf hf i16 (I16_row i16) (M16_row i16).

(** The macro's arguments [i0] ... [i15] and [i0m] ... [i11m] are the elements of
    the lists. *)
Definition expand2b_inner (qf mf hf : nat -> Z) (i16 : nat) (ix iy : list nat) : Z :=
  match ix, iy with
  | [i0; i1; i2; i3; i4; i5; i6; i7; i8; i9; i10; i11; i12; i13; i14; i15],
    [i0m; i1m; i3m; i4m; i7m; i10m; i11m] =>
      SPH_T64 (qf i0 + rb1 (qf i1) + qf i2 + rb2 (qf i3)
        + qf i4 + rb3 (qf i5) + qf i6 + rb4 (qf i7)
        + qf i8 + rb5 (qf i9) + qf i10 + rb6 (qf i11)
        + qf i12 + rb7 (qf i13) + sb4 (qf i14) + sb5 (qf i15)
        + add_elt_b mf hf i0m i1m i3m i4m i7m i10m i11m i16)
  | _, _ => 0
  end.

Definition expand2b (qf mf hf : nat -> Z) (i16 : nat) : Z :=
  expand2b_inner qf mf hf i16 (I16_row i16) (M16_row i16).

Definition Kb_tab : list Z :=
  [ Kb 16; Kb 17; Kb 18; Kb 19; Kb 20; Kb 21; Kb 22; Kb 23;
    Kb 24; Kb 25; Kb 26; Kb 27; Kb 28; Kb 29; Kb 30; Kb 31 ].

Definition rol_off (mf : nat -> Z) (j off : nat) : Z :=
  SPH_ROTL64 (mf (Nat.land (j + off) 15)) (Z.of_nat (Nat.land (j + off) 15) + 1).

Definition add_elt_b_small_footprint (mf hf : nat -> Z) (j : nat) : Z :=
  SPH_T64 (rol_off mf j 0 + rol_off mf j 3 - rol_off mf j 10 + Kb_tab.[j])
  ^^ hf (Nat.land (j + 7) 15).

Definition expand1b_small_footprint (qf mf hf : nat -> Z) (i : nat) : Z :=
  SPH_T64 (sb1 (qf (i - 16)%nat) + sb2 (qf (i - 15)%nat)
    + sb3 (qf (i - 14)%nat) + sb0 (qf (i - 13)%nat)
    + sb1 (qf (i - 12)%nat) + sb2 (qf (i - 11)%nat)
    + sb3 (qf (i - 10)%nat) + sb0 (qf (i - 9)%nat)
    + sb1 (qf (i - 8)%nat) + sb2 (qf (i - 7)%nat)
    + sb3 (qf (i - 6)%nat) + sb0 (qf (i - 5)%nat)
    + sb1 (qf (i - 4)%nat) + sb2 (qf (i - 3)%nat)
    + sb3 (qf (i - 2)%nat) + sb0 (qf (i - 1)%nat)
    + add_elt_b_small_footprint mf hf (i - 16)).

Definition expand2b_small_footprint (qf mf hf : nat -> Z) (i : nat) : Z :=
  SPH_T64 (qf (i - 16)%nat + rb1 (qf (i - 15)%nat)
    + qf (i - 14)%nat + rb2 (qf (i - 13)%nat)
    + qf (i - 12)%nat + rb3 (qf (i - 11)%nat)
    + qf (i - 10)%nat + rb4 (qf (i - 9)%nat)
    + qf (i - 8)%nat + rb5 (qf (i - 7)%nat)
    + qf (i - 6)%nat + rb6 (qf (i - 5)%nat)
    + qf (i - 4)%nat + rb7 (qf (i - 3)%nat)
    + sb4 (qf (i - 2)%nat) + sb5 (qf (i - 1)%nat)
    + add_elt_b_small_footprint mf hf (i - 16)).

(** * Building [qt] *)

Definition MAKE_W (tt : Z -> Z) (M H : list Z) (i0 : nat) (op01 : Z -> Z -> Z) (i1 : nat)
    (op12 : Z -> Z -> Z) (i2 : nat) (op23 : Z -> Z -> Z) (i3 : nat) (op34 : Z -> Z -> Z) (i4 : nat) : Z :=
  tt (op34 (op23 (op12 (op01 (M.[i0] ^^ H.[i0]) (M.[i1] ^^ H.[i1])) (M.[i2] ^^ H.[i2]))
    (M.[i3] ^^ H.[i3])) (M.[i4] ^^ H.[i4])).

Definition Ws0 (M H : list Z) : Z := MAKE_W SPH_T32 M H 5 Z.sub 7 Z.add 10 Z.add 13 Z.add 14.
Definition Ws1 (M H : list Z) : Z := MAKE_W SPH_T32 M H 6 Z.sub 8 Z.add 11 Z.add 14 Z.sub 15.
Definition Ws2 (M H : list Z) : Z := MAKE_W SPH_T32 M H 0 Z.add 7 Z.add 9 Z.sub 12 Z.add 15.
Definition Ws3 (M H : list Z) : Z := MAKE_W SPH_T32 M H 0 Z.sub 1 Z.add 8 Z.sub 10 Z.add 13.
Definition Ws4 (M H : list Z) : Z := MAKE_W SPH_T32 M H 1 Z.add 2 Z.add 9 Z.sub 11 Z.sub 14.
Definition Ws5 (M H : list Z) : Z := MAKE_W SPH_T32 M H 3 Z.sub 2 Z.add 10 Z.sub 12 Z.add 15.
Definition Ws6 (M H : list Z) : Z := MAKE_W SPH_T32 M H 4 Z.sub 0 Z.sub 3 Z.sub 11 Z.add 13.
Definition Ws7 (M H : list Z) : Z := MAKE_W SPH_T32 M H 1 Z.sub 4 Z.sub 5 Z.sub 12 Z.sub 14.
Definition Ws8 (M H : list Z) : Z := MAKE_W SPH_T32 M H 2 Z.sub 5 Z.sub 6 Z.add 13 Z.sub 15.
Definition Ws9 (M H : list Z) : Z := MAKE_W SPH_T32 M H 0 Z.sub 3 Z.add 6 Z.sub 7 Z.add 14.
Definition Ws10 (M H : list Z) : Z := MAKE_W SPH_T32 M H 8 Z.sub 1 Z.sub 4 Z.sub 7 Z.add 15.
Definition Ws11 (M H : list Z) : Z := MAKE_W SPH_T32 M H 8 Z.sub 0 Z.sub 2 Z.sub 5 Z.add 9.
Definition Ws12 (M H : list Z) : Z := MAKE_W SPH_T32 M H 1 Z.add 3 Z.sub 6 Z.sub 9 Z.add 10.
Definition Ws13 (M H : list Z) : Z := MAKE_W SPH_T32 M H 2 Z.add 4 Z.add 7 Z.add 10 Z.add 11.
Definition Ws14 (M H : list Z) : Z := MAKE_W SPH_T32 M H 3 Z.sub 5 Z.add 8 Z.sub 11 Z.sub 12.
Definition Ws15 (M H : list Z) : Z := MAKE_W SPH_T32 M H 12 Z.sub 4 Z.sub 6 Z.sub 9 Z.add 13.

Definition MAKE_Qas (M H qt : list Z) : list Z :=
  let qt := qt.[0 := SPH_T32 (ss0 (Ws0 M H) + H.[1])] in
  let qt := qt.[1 := SPH_T32 (ss1 (Ws1 M H) + H.[2])] in
  let qt := qt.[2 := SPH_T32 (ss2 (Ws2 M H) + H.[3])] in
  let qt := qt.[3 := SPH_T32 (ss3 (Ws3 M H) + H.[4])] in
  let qt := qt.[4 := SPH_T32 (ss4 (Ws4 M H) + H.[5])] in
  let qt := qt.[5 := SPH_T32 (ss0 (Ws5 M H) + H.[6])] in
  let qt := qt.[6 := SPH_T32 (ss1 (Ws6 M H) + H.[7])] in
  let qt := qt.[7 := SPH_T32 (ss2 (Ws7 M H) + H.[8])] in
  let qt := qt.[8 := SPH_T32 (ss3 (Ws8 M H) + H.[9])] in
  let qt := qt.[9 := SPH_T32 (ss4 (Ws9 M H) + H.[10])] in
  let qt := qt.[10 := SPH_T32 (ss0 (Ws10 M H) + H.[11])] in
  let qt := qt.[11 := SPH_T32 (ss1 (Ws11 M H) + H.[12])] in
  let qt := qt.[12 := SPH_T32 (ss2 (Ws12 M H) + H.[13])] in
  let qt := qt.[13 := SPH_T32 (ss3 (Ws13 M H) + H.[14])] in
  let qt := qt.[14 := SPH_T32 (ss4 (Ws14 M H) + H.[15])] in
  let qt := qt.[15 := SPH_T32 (ss0 (Ws15 M H) + H.[0])] in
  qt.

(** The loop [for (u = 0; u < 15; u += 5)]. *)
Definition MAKE_Qas_small_footprint (M H qt : list Z) : list Z :=
  let Ws := [ Ws0 M H; Ws1 M H; Ws2 M H; Ws3 M H;
    Ws4 M H; Ws5 M H; Ws6 M H; Ws7 M H;
    Ws8 M H; Ws9 M H; Ws10 M H; Ws11 M H;
    Ws12 M H; Ws13 M H; Ws14 M H; Ws15 M H ] in
  let qt := fold_left (fun qt u =>
    let qt := qt.[(u + 0) := SPH_T32 (ss0 Ws.[u + 0] + H.[u + 1])] in
    let qt := qt.[(u + 1) := SPH_T32 (ss1 Ws.[u + 1] + H.[u + 2])] in
    let qt := qt.[(u + 2) := SPH_T32 (ss2 Ws.[u + 2] + H.[u + 3])] in
    let qt := qt.[(u + 3) := SPH_T32 (ss3 Ws.[u + 3] + H.[u + 4])] in
    qt.[(u + 4) := SPH_T32 (ss4 Ws.[u + 4] + H.[u + 5])]) [0; 5; 10]%nat qt in
  qt.[15 := SPH_T32 (ss0 Ws.[15] + H.[0])].

(** [qt[i] = expand1s(Qs, M, H, i)]. *)
Definition set_expand1s (M H : list Z) (i : nat) (qt : list Z) : list Z :=
  qt.[i := expand1s (fun j => qt.[j]) (fun j => M.[j]) (fun j => H.[j]) i].

(** [qt[i] = expand2s(Qs, M, H, i)]. *)
Definition set_expand2s (M H : list Z) (i : nat) (qt : list Z) : list Z :=
  qt.[i := expand2s (fun j => qt.[j]) (fun j => M.[j]) (fun j => H.[j]) i].

Definition MAKE_Qbs (M H qt : list Z) : list Z :=
  let qt := set_expand1s M H 16 qt in
  let qt := set_expand1s M H 17 qt in
  let qt := set_expand2s M H 18 qt in
  let qt := set_expand2s M H 19 qt in
  let qt := set_expand2s M H 20 qt in
  let qt := set_expand2s M H 21 qt in
  let qt := set_expand2s M H 22 qt in
  let qt := set_expand2s M H 23 qt in
  let qt := set_expand2s M H 24 qt in
  let qt := set_expand2s M H 25 qt in
  let qt := set_expand2s M H 26 qt in
  let qt := set_expand2s M H 27 qt in
  let qt := set_expand2s M H 28 qt in
  let qt := set_expand2s M H 29 qt in
  let qt := set_expand2s M H 30 qt in
  let qt := set_expand2s M H 31 qt in
  qt.

Definition MAKE_Qs (M H qt : list Z) : list Z := MAKE_Qbs M H (MAKE_Qas M H qt).

Definition MAKE_Qs_small_footprint (M H qt : list Z) : list Z :=
  MAKE_Qbs M H (MAKE_Qas_small_footprint M H qt).

Definition Wb0 (M H : list Z) : Z := MAKE_W SPH_T64 M H 5 Z.sub 7 Z.add 10 Z.add 13 Z.add 14.
Definition Wb1 (M H : list Z) : Z := MAKE_W SPH_T64 M H 6 Z.sub 8 Z.add 11 Z.add 14 Z.sub 15.
Definition Wb2 (M H : list Z) : Z := MAKE_W SPH_T64 M H 0 Z.add 7 Z.add 9 Z.sub 12 Z.add 15.
Definition Wb3 (M H : list Z) : Z := MAKE_W SPH_T64 M H 0 Z.sub 1 Z.add 8 Z.sub 10 Z.add 13.
Definition Wb4 (M H : list Z) : Z := MAKE_W SPH_T64 M H 1 Z.add 2 Z.add 9 Z.sub 11 Z.sub 14.
Definition Wb5 (M H : list Z) : Z := MAKE_W SPH_T64 M H 3 Z.sub 2 Z.add 10 Z.sub 12 Z.add 15.
Definition Wb6 (M H : list Z) : Z := MAKE_W SPH_T64 M H 4 Z.sub 0 Z.sub 3 Z.sub 11 Z.add 13.
Definition Wb7 (M H : list Z) : Z := MAKE_W SPH_T64 M H 1 Z.sub 4 Z.sub 5 Z.sub 12 Z.sub 14.
Definition Wb8 (M H : list Z) : Z := MAKE_W SPH_T64 M H 2 Z.sub 5 Z.sub 6 Z.add 13 Z.sub 15.
Definition Wb9 (M H : list Z) : Z := MAKE_W SPH_T64 M H 0 Z.sub 3 Z.add 6 Z.sub 7 Z.add 14.
Definition Wb10 (M H : list Z) : Z := MAKE_W SPH_T64 M H 8 Z.sub 1 Z.sub 4 Z.sub 7 Z.add 15.
Definition Wb11 (M H : list Z) : Z := MAKE_W SPH_T64 M H 8 Z.sub 0 Z.sub 2 Z.sub 5 Z.add 9.
Definition Wb12 (M H : list Z) : Z := MAKE_W SPH_T64 M H 1 Z.add 3 Z.sub 6 Z.sub 9 Z.add 10.
Definition Wb13 (M H : list Z) : Z := MAKE_W SPH_T64 M H 2 Z.add 4 Z.add 7 Z.add 10 Z.add 11.
Definition Wb14 (M H : list Z) : Z := MAKE_W SPH_T64 M H 3 Z.sub 5 Z.add 8 Z.sub 11 Z.sub 12.
Definition Wb15 (M H : list Z) : Z := MAKE_W SPH_T64 M H 12 Z.sub 4 Z.sub 6 Z.sub 9 Z.add 13.

Definition MAKE_Qab (M H qt : list Z) : list Z :=
  let qt := qt.[0 := SPH_T64 (sb0 (Wb0 M H) + H.[1])] in
  let qt := qt.[1 := SPH_T64 (sb1 (Wb1 M H) + H.[2])] in
  let qt := qt.[2 := SPH_T64 (sb2 (Wb2 M H) + H.[3])] in
  let qt := qt.[3 := SPH_T64 (sb3 (Wb3 M H) + H.[4])] in
  let qt := qt.[4 := SPH_T64 (sb4 (Wb4 M H) + H.[5])] in
  let qt := qt.[5 := SPH_T64 (sb0 (Wb5 M H) + H.[6])] in
  let qt := qt.[6 := SPH_T64 (sb1 (Wb6 M H) + H.[7])] in
  let qt := qt.[7 := SPH_T64 (sb2 (Wb7 M H) + H.[8])] in
  let qt := qt.[8 := SPH_T64 (sb3 (Wb8 M H) + H.[9])] in
  let qt := qt.[9 := SPH_T64 (sb4 (Wb9 M H) + H.[10])] in
  let qt := qt.[10 := SPH_T64 (sb0 (Wb10 M H) + H.[11])] in
  let qt := qt.[11 := SPH_T64 (sb1 (Wb11 M H) + H.[12])] in
  let qt := qt.[12 := SPH_T64 (sb2 (Wb12 M H) + H.[13])] in
  let qt := qt.[13 := SPH_T64 (sb3 (Wb13 M H) + H.[14])] in
  let qt := qt.[14 := SPH_T64 (sb4 (Wb14 M H) + H.[15])] in
  let qt := qt.[15 := SPH_T64 (sb0 (Wb15 M H) + H.[0])] in
  qt.

(** The loop [for (u = 0; u < 15; u += 5)]. *)
Definition MAKE_Qab_small_footprint (M H qt : list Z) : list Z :=
  let Wb := [ Wb0 M H; Wb1 M H; Wb2 M H; Wb3 M H;
    Wb4 M H; Wb5 M H; Wb6 M H; Wb7 M H;
    Wb8 M H; Wb9 M H; Wb10 M H; Wb11 M H;
    Wb12 M H; Wb13 M H; Wb14 M H; Wb15 M H ] in
  let qt := fold_left (fun qt u =>
    let qt := qt.[(u + 0) := SPH_T64 (sb0 Wb.[u + 0] + H.[u + 1])] in
    let qt := qt.[(u + 1) := SPH_T64 (sb1 Wb.[u + 1] + H.[u + 2])] in
    let qt := qt.[(u + 2) := SPH_T64 (sb2 Wb.[u + 2] + H.[u + 3])] in
    let qt := qt.[(u + 3) := SPH_T64 (sb3 Wb.[u + 3] + H.[u + 4])] in
    qt.[(u + 4) := SPH_T64 (sb4 Wb.[u + 4] + H.[u + 5])]) [0; 5; 10]%nat qt in
  qt.[15 := SPH_T64 (sb0 Wb.[15] + H.[0])].

(** [qt[i] = expand1b(Qb, M, H, i)]. *)
Definition set_expand1b (M H : list Z) (i : nat) (qt : list Z) : list Z :=
  qt.[i := expand1b (fun j => qt.[j]) (fun j => M.[j]) (fun j => H.[j]) i].

(** [qt[i] = expand2b(Qb, M, H, i)]. *)
Definition set_expand2b (M H : list Z) (i : nat) (qt : list Z) : list Z :=
  qt.[i := expand2b (fun j => qt.[j]) (fun j => M.[j]) (fun j => H.[j]) i].

Definition MAKE_Qbb (M H qt : list Z) : list Z :=
  let qt := set_expand1b M H 16 qt in
  let qt := set_expand1b M H 17 qt in
  let qt := set_expand2b M H 18 qt in
  let qt := set_expand2b M H 19 qt in
  let qt := set_expand2b M H 20 qt in
  let qt := set_expand2b M H 21 qt in
  let qt := set_expand2b M H 22 qt in
  let qt := set_expand2b M H 23 qt in
  let qt := set_expand2b M H 24 qt in
  let qt := set_expand2b M H 25 qt in
  let qt := set_expand2b M H 26 qt in
  let qt := set_expand2b M H 27 qt in
  let qt := set_expand2b M H 28 qt in
  let qt := set_expand2b M H 29 qt in
  let qt := set_expand2b M H 30 qt in
  let qt := set_expand2b M H 31 qt in
  qt.

(** The loops over [u] from 16 to 17 and from 18 to 31. *)
Definition MAKE_Qbb_small_footprint (M H qt : list Z) : list Z :=
  let qt := fold_left (fun qt u =>
    qt.[u := expand1b_small_footprint (fun j => qt.[j]) (fun j => M.[j]) (fun j => H.[j]) u])
    (seq 16 2) qt in
  fold_left (fun qt u =>
    qt.[u := expand2b_small_footprint (fun j => qt.[j]) (fun j => M.[j]) (fun j => H.[j]) u])
    (seq 18 14) qt.

Definition MAKE_Qb (M H qt : list Z) : list Z := MAKE_Qbb M H (MAKE_Qab M H qt).

Definition MAKE_Qb_small_footprint (M H qt : list Z) : list Z :=
  MAKE_Qbb_small_footprint M H (MAKE_Qab_small_footprint M H qt).

(** * Compression *)

(** [tt] and [rol] are the truncation and the rotation of the word type; [xl],
    [xh] and the words of [qt] are variables of that type. *)
Definition FOLD (tt : Z -> Z) (rol : Z -> Z -> Z) (M qt dh : list Z) : list Z :=
  let shl x n := tt (Z.shiftl x n) in
  let xl := qt.[16] ^^ qt.[17] ^^ qt.[18] ^^ qt.[19] ^^ qt.[20] ^^ qt.[21] ^^ qt.[22] ^^ qt.[23] in
  let xh := xl ^^ qt.[24] ^^ qt.[25] ^^ qt.[26] ^^ qt.[27] ^^ qt.[28] ^^ qt.[29] ^^ qt.[30] ^^ qt.[31] in
  let dh := dh.[0 := tt ((shl xh 5 ^^ Z.shiftr qt.[16] 5 ^^ M.[0]) + (xl ^^ qt.[24] ^^ qt.[0]))] in
  let dh := dh.[1 := tt ((Z.shiftr xh 7 ^^ shl qt.[17] 8 ^^ M.[1]) + (xl ^^ qt.[25] ^^ qt.[1]))] in
  let dh := dh.[2 := tt ((Z.shiftr xh 5 ^^ shl qt.[18] 5 ^^ M.[2]) + (xl ^^ qt.[26] ^^ qt.[2]))] in
  let dh := dh.[3 := tt ((Z.shiftr xh 1 ^^ shl qt.[19] 5 ^^ M.[3]) + (xl ^^ qt.[27] ^^ qt.[3]))] in
  let dh := dh.[4 := tt ((Z.shiftr xh 3 ^^ shl qt.[20] 0 ^^ M.[4]) + (xl ^^ qt.[28] ^^ qt.[4]))] in
  let dh := dh.[5 := tt ((shl xh 6 ^^ Z.shiftr qt.[21] 6 ^^ M.[5]) + (xl ^^ qt.[29] ^^ qt.[5]))] in
  let dh := dh.[6 := tt ((Z.shiftr xh 4 ^^ shl qt.[22] 6 ^^ M.[6]) + (xl ^^ qt.[30] ^^ qt.[6]))] in
  let dh := dh.[7 := tt ((Z.shiftr xh 11 ^^ shl qt.[23] 2 ^^ M.[7]) + (xl ^^ qt.[31] ^^ qt.[7]))] in
  let dh := dh.[8 := tt (rol dh.[4] 9 + (xh ^^ qt.[24] ^^ M.[8]) + (shl xl 8 ^^ qt.[23] ^^ qt.[8]))] in
  let dh := dh.[9 := tt (rol dh.[5] 10 + (xh ^^ qt.[25] ^^ M.[9]) + (Z.shiftr xl 6 ^^ qt.[16] ^^ qt.[9]))] in
  let dh := dh.[10 := tt (rol dh.[6] 11 + (xh ^^ qt.[26] ^^ M.[10]) + (shl xl 6 ^^ qt.[17] ^^ qt.[10]))] in
  let dh := dh.[11 := tt (rol dh.[7] 12 + (xh ^^ qt.[27] ^^ M.[11]) + (shl xl 4 ^^ qt.[18] ^^ qt.[11]))] in
  let dh := dh.[12 := tt (rol dh.[0] 13 + (xh ^^ qt.[28] ^^ M.[12]) + (Z.shiftr xl 3 ^^ qt.[19] ^^ qt.[12]))] in
  let dh := dh.[13 := tt (rol dh.[1] 14 + (xh ^^ qt.[29] ^^ M.[13]) + (Z.shiftr xl 4 ^^ qt.[20] ^^ qt.[13]))] in
  let dh := dh.[14 := tt (rol dh.[2] 15 + (xh ^^ qt.[30] ^^ M.[14]) + (Z.shiftr xl 7 ^^ qt.[21] ^^ qt.[14]))] in
  let dh := dh.[15 := tt (rol dh.[3] 16 + (xh ^^ qt.[31] ^^ M.[15]) + (Z.shiftr xl 2 ^^ qt.[22] ^^ qt.[15]))] in
  dh.

(** [qt] and [dh] are written before they are read. *)
Definition FOLDs (M H : list Z) : list Z :=
  FOLD SPH_T32 SPH_ROTL32 M (MAKE_Qs M H (repeat 0 32)) (repeat 0 16).
Definition FOLDs_small_footprint (M H : list Z) : list Z :=
  FOLD SPH_T32 SPH_ROTL32 M (MAKE_Qs_small_footprint M H (repeat 0 32)) (repeat 0 16).

(** The words [M(0)] ... [M(15)]. *)
Definition small_M (data : list Z) : list Z :=
  map (fun x => sph_dec32le_aligned (skipn (4 * x) data)) (seq 0 16).

(** Returns the contents of [dh]. *)
Definition compress_small (data h : list Z) : list Z := FOLDs (small_M data) h.
Definition compress_small_small_footprint (data h : list Z) : list Z :=
  FOLDs_small_footprint (small_M data) h.

(** [qt] and [dh] are written before they are read. *)
Definition FOLDb (M H : list Z) : list Z :=
  FOLD SPH_T64 SPH_ROTL64 M (MAKE_Qb M H (repeat 0 32)) (repeat 0 16).
Definition FOLDb_small_footprint (M H : list Z) : list Z :=
  FOLD SPH_T64 SPH_ROTL64 M (MAKE_Qb_small_footprint M H (repeat 0 32)) (repeat 0 16).

(** The words [M(0)] ... [M(15)]. *)
Definition big_M (data : list Z) : list Z :=
  map (fun x => sph_dec64le_aligned (skipn (8 * x) data)) (seq 0 16).

(** Returns the contents of [dh]. *)
Definition compress_big (data h : list Z) : list Z := FOLDb (big_M data) h.
Definition compress_big_small_footprint (data h : list Z) : list Z :=
  FOLDb_small_footprint (big_M data) h.

(** * The 32-bit functions *)

Record sph_bmw_small_context := {
  small_buf : list Z;
  small_ptr : nat;
  small_H : list Z;
  small_bit_count : Z
}.

(** The buffer of the context keeps what it held. *)
Definition bmw32_init (sc : sph_bmw_small_context) (iv : list Z) : sph_bmw_small_context :=
  {| small_buf := small_buf sc; small_ptr := 0; small_H := iv; small_bit_count := 0 |}.

(** The loop works on two arrays, [sc->H] and [htmp]; [h1] points to [htmp] when
    the flag is set and to [sc->H] otherwise, [h2] to the other one. A full
    buffer is compressed from [h1] into [h2] and the pointers are swapped. *)
Definition bmw32_block (st : list Z * list Z * bool) (buf : list Z) : list Z * list Z * bool :=
  let '(H, htmp, swapped) := st in
  if swapped then (compress_small buf htmp, htmp, false)
  else (H, compress_small buf H, true).

(** [if (h1 != sc->H) memcpy(sc->H, h1, sizeof sc->H)]. *)
Definition bmw32_current (st : list Z * list Z * bool) : list Z :=
  let '(H, htmp, swapped) := st in if swapped then htmp else H.

Definition bmw32 (sc : sph_bmw_small_context) (data : list Z) : sph_bmw_small_context :=
  let len := length data in
  let bit_count := SPH_T64 (small_bit_count sc + SPH_T64 (Z.shiftl (Z.of_nat len) 3)) in
  let '(buf, ptr, st) :=
    core_loop 64 bmw32_block len (small_buf sc) (small_ptr sc) (small_H sc, repeat 0 16, false) data in
  {| small_buf := buf; small_ptr := ptr; small_H := bmw32_current st; small_bit_count := bit_count |}.

(** Returns the bytes written to [dst] and the context left behind. *)
Definition bmw32_close (sc : sph_bmw_small_context) (ub n : Z) (out_size_w32 : nat)
  : list Z * sph_bmw_small_context :=
  let buf := small_buf sc in
  let ptr := small_ptr sc in
  let z := Z.shiftr 0x80 n in
  let buf := buf.[ptr := ((ub &: (- z)) |: z) &: 0xFF] in
  let ptr := S ptr in
  let h := small_H sc in
  let '(buf, ptr, h) :=
    if (64 - 8 <? ptr)%nat then
      let buf := memcpy_at buf ptr (repeat 0 (64 - ptr)) in
      (buf, 0%nat, compress_small buf h)
    else (buf, ptr, h) in
  let buf := memcpy_at buf ptr (repeat 0 (64 - 8 - ptr)) in
  let buf := memcpy_at buf (64 - 8) (sph_enc64le_aligned (SPH_T64 (small_bit_count sc + n))) in
  let h2 := compress_small buf h in
  let buf := fold_left (fun buf u => memcpy_at buf (4 * u) (sph_enc32le_aligned h2.[u])) (seq 0 16) buf in
  let h1 := compress_small buf final_s in
  (flat_map (fun u => sph_enc32le h1.[16 - out_size_w32 + u]) (seq 0 out_size_w32),
   {| small_buf := buf; small_ptr := small_ptr sc; small_H := small_H sc; small_bit_count := small_bit_count sc |}).

(** * The 64-bit functions *)

Record sph_bmw_big_context := {
  big_buf : list Z;
  big_ptr : nat;
  big_H : list Z;
  big_bit_count : Z
}.

(** The buffer of the context keeps what it held. *)
Definition bmw64_init (sc : sph_bmw_big_context) (iv : list Z) : sph_bmw_big_context :=
  {| big_buf := big_buf sc; big_ptr := 0; big_H := iv; big_bit_count := 0 |}.

(** The loop works on two arrays, [sc->H] and [htmp]; [h1] points to [htmp] when
    the flag is set and to [sc->H] otherwise, [h2] to the other one. A full
    buffer is compressed from [h1] into [h2] and the pointers are swapped. *)
Definition bmw64_block (st : list Z * list Z * bool) (buf : list Z) : list Z * list Z * bool :=
  let '(H, htmp, swapped) := st in
  if swapped then (compress_big buf htmp, htmp, false)
  else (H, compress_big buf H, true).

(** [if (h1 != sc->H) memcpy(sc->H, h1, sizeof sc->H)]. *)
Definition bmw64_current (st : list Z * list Z * bool) : list Z :=
  let '(H, htmp, swapped) := st in if swapped then htmp else H.

Definition bmw64 (sc : sph_bmw_big_context) (data : list Z) : sph_bmw_big_context :=
  let len := length data in
  let bit_count := SPH_T64 (big_bit_count sc + SPH_T64 (Z.shiftl (Z.of_nat len) 3)) in
  let '(buf, ptr, st) :=
    core_loop 128 bmw64_block len (big_buf sc) (big_ptr sc) (big_H sc, repeat 0 16, false) data in
  {| big_buf := buf; big_ptr := ptr; big_H := bmw64_current st; big_bit_count := bit_count |}.

(** Returns the bytes written to [dst] and the context left behind. *)
Definition bmw64_close (sc : sph_bmw_big_context) (ub n : Z) (out_size_w64 : nat)
  : list Z * sph_bmw_big_context :=
  let buf := big_buf sc in
  let ptr := big_ptr sc in
  let z := Z.shiftr 0x80 n in
  let buf := buf.[ptr := ((ub &: (- z)) |: z) &: 0xFF] in
  let ptr := S ptr in
  let h := big_H sc in
  let '(buf, ptr, h) :=
    if (128 - 8 <? ptr)%nat then
      let buf := memcpy_at buf ptr (repeat 0 (128 - ptr)) in
      (buf, 0%nat, compress_big buf h)
    else (buf, ptr, h) in
  let buf := memcpy_at buf ptr (repeat 0 (128 - 8 - ptr)) in
  let buf := memcpy_at buf (128 - 8) (sph_enc64le_aligned (SPH_T64 (big_bit_count sc + n))) in
  let h2 := compress_big buf h in
  let buf := fold_left (fun buf u => memcpy_at buf (8 * u) (sph_enc64le_aligned h2.[u])) (seq 0 16) buf in
  let h1 := compress_big buf final_b in
  (flat_map (fun u => sph_enc64le h1.[16 - out_size_w64 + u]) (seq 0 out_size_w64),
   {| big_buf := buf; big_ptr := big_ptr sc; big_H := big_H sc; big_bit_count := big_bit_count sc |}).

Definition sph_bmw224_init (cc : sph_bmw_small_context) : sph_bmw_small_context := bmw32_init cc IV224.
Definition sph_bmw224 (cc : sph_bmw_small_context) (data : list Z) : sph_bmw_small_context := bmw32 cc data.
Definition sph_bmw224_addbits_and_close (cc : sph_bmw_small_context) (ub n : Z) : list Z * sph_bmw_small_context :=
  let '(dst, cc) := bmw32_close cc ub n 7 in (dst, sph_bmw224_init cc).
Definition sph_bmw224_close (cc : sph_bmw_small_context) : list Z * sph_bmw_small_context := sph_bmw224_addbits_and_close cc 0 0.

Definition sph_bmw256_init (cc : sph_bmw_small_context) : sph_bmw_small_context := bmw32_init cc IV256.
Definition sph_bmw256 (cc : sph_bmw_small_context) (data : list Z) : sph_bmw_small_context := bmw32 cc data.
Definition sph_bmw256_addbits_and_close (cc : sph_bmw_small_context) (ub n : Z) : list Z * sph_bmw_small_context :=
  let '(dst, cc) := bmw32_close cc ub n 8 in (dst, sph_bmw256_init cc).
Definition sph_bmw256_close (cc : sph_bmw_small_context) : list Z * sph_bmw_small_context := sph_bmw256_addbits_and_close cc 0 0.

Definition sph_bmw384_init (cc : sph_bmw_big_context) : sph_bmw_big_context := bmw64_init cc IV384.
Definition sph_bmw384 (cc : sph_bmw_big_context) (data : list Z) : sph_bmw_big_context := bmw64 cc data.
Definition sph_bmw384_addbits_and_close (cc : sph_bmw_big_context) (ub n : Z) : list Z * sph_bmw_big_context :=
  let '(dst, cc) := bmw64_close cc ub n 6 in (dst, sph_bmw384_init cc).
Definition sph_bmw384_close (cc : sph_bmw_big_context) : list Z * sph_bmw_big_context := sph_bmw384_addbits_and_close cc 0 0.

Definition sph_bmw512_init (cc : sph_bmw_big_context) : sph_bmw_big_context := bmw64_init cc IV512.
Definition sph_bmw512 (cc : sph_bmw_big_context) (data : list Z) : sph_bmw_big_context := bmw64 cc data.
Definition sph_bmw512_addbits_and_close (cc : sph_bmw_big_context) (ub n : Z) : list Z * sph_bmw_big_context :=
  let '(dst, cc) := bmw64_close cc ub n 8 in (dst, sph_bmw512_init cc).
Definition sph_bmw512_close (cc : sph_bmw_big_context) : list Z * sph_bmw_big_context := sph_bmw512_addbits_and_close cc 0 0.

End Bmw.
