(* ===== verification/BmwProofs.v ===== *)
(** The compression code of bmw.c computes the compression function of the
    reference, at both word sizes and in both variants. The first sixteen words
    of [qt] are compared one by one; each expansion macro is compared for an
    arbitrary position, from what its rows of indices are; the array [qt] of the
    code is the pipe of the reference followed by unwritten words. *)
From S2P Require Import Prelude SphTypes Stream Bmw SphSpec.

(** * The tables *)

(** The index macros name the sixteen words before word [16 + j], and the
    positions and rotation amounts of the added element. *)
Definition I16_of (j : nat) : list nat := map (fun k => j + k)%nat (seq 0 16).
Definition M16_of (j : nat) : list nat :=
  let m k := ((j + k) mod 16)%nat in [m 0; m 0 + 1; m 3; m 3 + 1; m 7; m 10; m 10 + 1]%nat.

Lemma rows_spec j :
  (j < 16)%nat -> Bmw.I16_row (16 + j) = I16_of j /\ Bmw.M16_row (16 + j) = M16_of j.
Proof.
  intros Hj. do 16 (destruct j as [|j]; [split; reflexivity|]). lia.
Qed.

(** * Growing the pipe *)

Section Pipe.
Context (p : BmwSpec.params) (M H : list Z).

(** An expansion reads the sixteen words before it. *)
Lemma expand_ext q q' j :
  (forall i, (j <= i < j + 16)%nat -> q i = q' i) ->
  BmwSpec.expand p q M H j = BmwSpec.expand p q' M H j.
Proof.
  intros E. unfold BmwSpec.expand, BmwSpec.expand1, BmwSpec.expand2.
  rewrite (E (j + 14)%nat), (E (j + 15)%nat) by lia.
  destruct (j <? 2)%nat; apply (f_equal (BmwSpec.trunc p)).
  - apply (f_equal2 Z.add); [|reflexivity]. apply (f_equal BmwSpec.sum), map_ext_in; intros k Hk. apply in_seq in Hk. now rewrite E by lia.
  - do 3 (apply (f_equal2 Z.add); [|reflexivity]).
    apply (f_equal BmwSpec.sum), map_ext_in; intros k Hk. apply in_seq in Hk. now rewrite !E by lia.
Qed.

(** Writes word [16 + j] of the array. *)
Definition set_word (j : nat) (qt : list Z) : list Z :=
  qt.[(16 + j) := BmwSpec.expand p (fun i => qt.[i]) M H j].

Lemma set_word_app j q g rest :
  length q = (16 + j)%nat ->
  set_word j (q ++ g :: rest) = (q ++ [BmwSpec.expand p (fun i => q.[i]) M H j]) ++ rest.
Proof.
  intros Hq. unfold set_word. rewrite (expand_ext _ (fun i => q.[i])).
  - rewrite upd_split by (rewrite length_app; cbn; lia).
    rewrite <- Hq, firstn_app, firstn_all, Nat.sub_diag, firstn_O, app_nil_r, <- app_assoc.
    rewrite skipn_app, skipn_all2 by lia.
    replace (S (length q) - length q)%nat with 1%nat by lia. reflexivity.
  - intros i Hi. now rewrite app_nth1 by lia.
Qed.

(** Writing all the words turns the first half of the pipe into the pipe. *)
Lemma set_words_spec k q rest j0 :
  length q = (16 + j0)%nat -> length rest = k ->
  fold_left (fun qt j => set_word j qt) (seq j0 k) (q ++ rest) =
  fold_left (fun Q j => Q ++ [BmwSpec.expand p (fun i => Q.[i]) M H j]) (seq j0 k) q.
Proof.
  revert q rest j0; induction k as [|k IH]; intros q rest j0 Hq Hr.
  - apply length_zero_iff_nil in Hr as ->. now rewrite app_nil_r.
  - destruct rest as [|g rest]; [discriminate|]. cbn [seq]. rewrite !fold_left_cons.
    rewrite set_word_app by assumption. apply IH; [rewrite length_app; cbn; lia | now injection Hr].
Qed.

Lemma length_Q_first : length (BmwSpec.Q_first p M H) = 16%nat.
Proof. reflexivity. Qed.

Lemma set_words_all :
  fold_left (fun qt j => set_word j qt) (seq 0 16) (BmwSpec.Q_first p M H ++ repeat 0 16) =
  BmwSpec.Q_all p M H.
Proof. now apply set_words_spec. Qed.

Lemma length_Q_all : length (BmwSpec.Q_all p M H) = 32%nat.
Proof.
  unfold BmwSpec.Q_all. generalize (BmwSpec.Q_first p M H) (length_Q_first). intros q Hq.
  enough (G : forall l q, length (fold_left (fun Q j => Q ++ [BmwSpec.expand p (fun i => Q.[i]) M H j]) l q)
    = (length q + length l)%nat) by (rewrite G, Hq; reflexivity).
  clear; induction l as [|j l IH]; intros q; [cbn; lia|].
  rewrite fold_left_cons, IH, length_app. cbn [length]; lia.
Qed.
End Pipe.


(** * Folding *)

(** The words of a list of known length. *)
Ltac name_words l H :=
  repeat (destruct l as [|? l]; [discriminate H|]); destruct l as [|? l]; [clear H | discriminate H].

Section Folding.
Context (p : BmwSpec.params) (tt : Z -> Z) (rol : Z -> Z -> Z).
Context (Htt : forall x, tt x = BmwSpec.trunc p x) (Hrol : forall x n, rol x n = BmwSpec.rotl p x n).

Lemma FOLD_spec M Q :
  length M = 16%nat -> length Q = 32%nat ->
  Bmw.FOLD tt rol M Q (repeat 0 16) = BmwSpec.fold p M Q.
Proof.
  intros HM HQ. name_words M HM. name_words Q HQ.
  cbv [Bmw.FOLD upd nth repeat].
  cbv [BmwSpec.fold BmwSpec.xors BmwSpec.shift BmwSpec.fold_XH BmwSpec.fold_Q BmwSpec.fold_XL map seq
    fold_left nth Nat.add Nat.modulo Nat.divmod Nat.sub fst snd app Z.of_nat Pos.of_succ_nat Pos.succ Z.leb Z.compare Z.opp].
  rewrite !Z.lxor_0_l.
  repeat (apply (f_equal2 cons); [rewrite ?Htt, ?Hrol; reflexivity|]). reflexivity.
Qed.
End Folding.


(** * The 32-bit code *)

Lemma T32_small x : SPH_T32 x = BmwSpec.trunc BmwSpec.small_params x.
Proof. exact (SPH_T32_mod x). Qed.

Lemma ROTL32_small x n : SPH_ROTL32 x n = BmwSpec.rotl BmwSpec.small_params x n.
Proof. unfold SPH_ROTL32; now rewrite T32_small. Qed.

Lemma ss_spec x :
  Bmw.ss0 x = BmwSpec.s BmwSpec.small_params 0 x /\ Bmw.ss1 x = BmwSpec.s BmwSpec.small_params 1 x /\
  Bmw.ss2 x = BmwSpec.s BmwSpec.small_params 2 x /\ Bmw.ss3 x = BmwSpec.s BmwSpec.small_params 3 x /\
  Bmw.ss4 x = BmwSpec.s BmwSpec.small_params 4 x /\ Bmw.ss5 x = BmwSpec.s BmwSpec.small_params 5 x.
Proof.
  unfold Bmw.ss0, Bmw.ss1, Bmw.ss2, Bmw.ss3.
  rewrite !ROTL32_small, !T32_small. repeat split.
Qed.

Lemma rs_spec x :
  Bmw.rs1 x = BmwSpec.r BmwSpec.small_params 1 x /\ Bmw.rs2 x = BmwSpec.r BmwSpec.small_params 2 x /\
  Bmw.rs3 x = BmwSpec.r BmwSpec.small_params 3 x /\ Bmw.rs4 x = BmwSpec.r BmwSpec.small_params 4 x /\
  Bmw.rs5 x = BmwSpec.r BmwSpec.small_params 5 x /\ Bmw.rs6 x = BmwSpec.r BmwSpec.small_params 6 x /\
  Bmw.rs7 x = BmwSpec.r BmwSpec.small_params 7 x.
Proof.
  unfold Bmw.rs1, Bmw.rs2, Bmw.rs3, Bmw.rs4, Bmw.rs5, Bmw.rs6, Bmw.rs7.
  rewrite !ROTL32_small. repeat split.
Qed.

Lemma Ks_spec j : Bmw.Ks j = BmwSpec.K BmwSpec.small_params j.
Proof. exact (T32_small _). Qed.

(** The mixing functions of the code, as those of the reference. *)
Ltac mix_s :=
  repeat match goal with
  | |- context [Bmw.ss0 ?x] => rewrite (proj1 (ss_spec x))
  | |- context [Bmw.ss1 ?x] => rewrite (proj1 (proj2 (ss_spec x)))
  | |- context [Bmw.ss2 ?x] => rewrite (proj1 (proj2 (proj2 (ss_spec x))))
  | |- context [Bmw.ss3 ?x] => rewrite (proj1 (proj2 (proj2 (proj2 (ss_spec x)))))
  | |- context [Bmw.ss4 ?x] => rewrite (proj1 (proj2 (proj2 (proj2 (proj2 (ss_spec x))))))
  | |- context [Bmw.ss5 ?x] => rewrite (proj2 (proj2 (proj2 (proj2 (proj2 (ss_spec x))))))
  | |- context [Bmw.rs1 ?x] => rewrite (proj1 (rs_spec x))
  | |- context [Bmw.rs2 ?x] => rewrite (proj1 (proj2 (rs_spec x)))
  | |- context [Bmw.rs3 ?x] => rewrite (proj1 (proj2 (proj2 (rs_spec x))))
  | |- context [Bmw.rs4 ?x] => rewrite (proj1 (proj2 (proj2 (proj2 (rs_spec x)))))
  | |- context [Bmw.rs5 ?x] => rewrite (proj1 (proj2 (proj2 (proj2 (proj2 (rs_spec x))))))
  | |- context [Bmw.rs6 ?x] => rewrite (proj1 (proj2 (proj2 (proj2 (proj2 (proj2 (rs_spec x)))))))
  | |- context [Bmw.rs7 ?x] => rewrite (proj2 (proj2 (proj2 (proj2 (proj2 (proj2 (rs_spec x)))))))
  end.

Lemma add_elt_s_spec M H j :
  let m k := ((j + k) mod 16)%nat in
  Bmw.add_elt_s (fun j => M.[j]) (fun j => H.[j]) (m 0%nat) (m 0%nat + 1) (m 3%nat) (m 3%nat + 1) (m 7%nat)
    (m 10%nat) (m 10%nat + 1) (16 + j) = BmwSpec.add_element BmwSpec.small_params M H j.
Proof.
  cbv zeta. unfold Bmw.add_elt_s, BmwSpec.add_element, BmwSpec.rotated.
  rewrite !ROTL32_small, T32_small, Ks_spec, !Nat2Z.inj_add, (Nat.add_comm 16 j), Nat.add_0_r. reflexivity.
Qed.

Lemma expands_spec qf M H j :
  (j < 16)%nat ->
  Bmw.expand1s qf (fun j => M.[j]) (fun j => H.[j]) (16 + j) = BmwSpec.expand1 BmwSpec.small_params qf M H j /\
  Bmw.expand2s qf (fun j => M.[j]) (fun j => H.[j]) (16 + j) = BmwSpec.expand2 BmwSpec.small_params qf M H j.
Proof.
  intros Hj. destruct (rows_spec j Hj) as [EI EM].
  unfold Bmw.expand1s, Bmw.expand2s. rewrite EI, EM.
  unfold I16_of, M16_of. cbn [map seq]. unfold Bmw.expand1s_inner, Bmw.expand2s_inner.
  rewrite (add_elt_s_spec M H j).
  unfold BmwSpec.expand1, BmwSpec.expand2. generalize (BmwSpec.add_element BmwSpec.small_params M H j) as e; intros e.
  rewrite !T32_small. mix_s. cbn [map seq BmwSpec.sum fold_left Nat.add Nat.mul Nat.modulo Nat.divmod fst snd Nat.sub].
  split; apply (f_equal (BmwSpec.trunc BmwSpec.small_params)); unfold BmwSpec.sum; cbn [fold_left]; lia.
Qed.

Lemma Ws_spec M H :
  [ Bmw.Ws0 M H; Bmw.Ws1 M H; Bmw.Ws2 M H; Bmw.Ws3 M H;
    Bmw.Ws4 M H; Bmw.Ws5 M H; Bmw.Ws6 M H; Bmw.Ws7 M H;
    Bmw.Ws8 M H; Bmw.Ws9 M H; Bmw.Ws10 M H; Bmw.Ws11 M H;
    Bmw.Ws12 M H; Bmw.Ws13 M H; Bmw.Ws14 M H; Bmw.Ws15 M H ] =
  map (BmwSpec.W BmwSpec.small_params M H) (seq 0 16).
Proof.
  cbn [map seq].
  repeat apply (f_equal2 cons); try reflexivity;
    (refine (eq_trans (T32_small _) _); apply (f_equal (BmwSpec.trunc BmwSpec.small_params));
     unfold BmwSpec.sum; cbn [map nth BmwSpec.W_rows fold_left]; lia).
Qed.

Lemma MAKE_Qas_spec M H :
  Bmw.MAKE_Qas M H (repeat 0 32) = BmwSpec.Q_first BmwSpec.small_params M H ++ repeat 0 16.
Proof.
  pose proof (Ws_spec M H) as E. cbn [map seq] in E. injection E as E0 E1 E2 E3 E4 E5 E6 E7 E8 E9 E10 E11 E12 E13 E14 E15.
  unfold Bmw.MAKE_Qas, BmwSpec.Q_first. cbv zeta. rewrite E0, E1, E2, E3, E4, E5, E6, E7, E8, E9, E10, E11, E12, E13, E14, E15.
  rewrite !T32_small. mix_s. cbn [repeat upd map seq app]. reflexivity.
Qed.

(** [MAKE_Qas] of the small-footprint build. *)
Lemma MAKE_Qas_small_eq M H :
  Bmw.MAKE_Qas_small_footprint M H (repeat 0 32) = Bmw.MAKE_Qas M H (repeat 0 32).
Proof. reflexivity. Qed.

Lemma set_expands_spec M H j qt :
  (j < 16)%nat ->
  (if (j <? 2)%nat then Bmw.set_expand1s M H (16 + j) qt else Bmw.set_expand2s M H (16 + j) qt) =
  set_word BmwSpec.small_params M H j qt.
Proof.
  intros Hj. unfold Bmw.set_expand1s, Bmw.set_expand2s, set_word, BmwSpec.expand.
  destruct (expands_spec (fun i => qt.[i]) M H j Hj) as [E1 E2]. rewrite E1, E2.
  now destruct (j <? 2)%nat.
Qed.

Lemma MAKE_Qbs_spec M H qt :
  Bmw.MAKE_Qbs M H qt = fold_left (fun qt j => set_word BmwSpec.small_params M H j qt) (seq 0 16) qt.
Proof.
  transitivity (fold_left (fun qt j =>
    if (j <? 2)%nat then Bmw.set_expand1s M H (16 + j) qt else Bmw.set_expand2s M H (16 + j) qt)
    (seq 0 16) qt); [reflexivity|].
  apply fold_left_ext_in. intros j qt' Hj. apply in_seq in Hj. apply set_expands_spec. lia.
Qed.

Lemma MAKE_Qs_spec M H : Bmw.MAKE_Qs M H (repeat 0 32) = BmwSpec.Q_all BmwSpec.small_params M H.
Proof. unfold Bmw.MAKE_Qs. rewrite MAKE_Qbs_spec, MAKE_Qas_spec. apply set_words_all. Qed.


Lemma small_M_words b : Bmw.small_M b = BmwSpec.words BmwSpec.small_params b.
Proof. reflexivity. Qed.

(** The compression function of the default build. *)
Lemma compress_small_spec data h :
  Bmw.compress_small data h = BmwSpec.compress BmwSpec.small_params (BmwSpec.words BmwSpec.small_params data) h.
Proof.
  unfold Bmw.compress_small, Bmw.FOLDs. rewrite MAKE_Qs_spec, small_M_words.
  apply FOLD_spec; [exact T32_small | exact ROTL32_small | reflexivity | apply length_Q_all].
Qed.


(** * The 64-bit code *)

Lemma T64_big x : SPH_T64 x = BmwSpec.trunc BmwSpec.big_params x.
Proof. exact (SPH_T64_mod x). Qed.

Lemma ROTL64_big x n : SPH_ROTL64 x n = BmwSpec.rotl BmwSpec.big_params x n.
Proof. unfold SPH_ROTL64; now rewrite T64_big. Qed.

Lemma sb_spec x :
  Bmw.sb0 x = BmwSpec.s BmwSpec.big_params 0 x /\ Bmw.sb1 x = BmwSpec.s BmwSpec.big_params 1 x /\
  Bmw.sb2 x = BmwSpec.s BmwSpec.big_params 2 x /\ Bmw.sb3 x = BmwSpec.s BmwSpec.big_params 3 x /\
  Bmw.sb4 x = BmwSpec.s BmwSpec.big_params 4 x /\ Bmw.sb5 x = BmwSpec.s BmwSpec.big_params 5 x.
Proof.
  unfold Bmw.sb0, Bmw.sb1, Bmw.sb2, Bmw.sb3.
  rewrite !ROTL64_big, !T64_big. repeat split.
Qed.

Lemma rb_spec x :
  Bmw.rb1 x = BmwSpec.r BmwSpec.big_params 1 x /\ Bmw.rb2 x = BmwSpec.r BmwSpec.big_params 2 x /\
  Bmw.rb3 x = BmwSpec.r BmwSpec.big_params 3 x /\ Bmw.rb4 x = BmwSpec.r BmwSpec.big_params 4 x /\
  Bmw.rb5 x = BmwSpec.r BmwSpec.big_params 5 x /\ Bmw.rb6 x = BmwSpec.r BmwSpec.big_params 6 x /\
  Bmw.rb7 x = BmwSpec.r BmwSpec.big_params 7 x.
Proof.
  unfold Bmw.rb1, Bmw.rb2, Bmw.rb3, Bmw.rb4, Bmw.rb5, Bmw.rb6, Bmw.rb7.
  rewrite !ROTL64_big. repeat split.
Qed.

Lemma Kb_spec j : Bmw.Kb j = BmwSpec.K BmwSpec.big_params j.
Proof. exact (T64_big _). Qed.

(** The mixing functions of the code, as those of the reference. *)
Ltac mix_b :=
  repeat match goal with
  | |- context [Bmw.sb0 ?x] => rewrite (proj1 (sb_spec x))
  | |- context [Bmw.sb1 ?x] => rewrite (proj1 (proj2 (sb_spec x)))
  | |- context [Bmw.sb2 ?x] => rewrite (proj1 (proj2 (proj2 (sb_spec x))))
  | |- context [Bmw.sb3 ?x] => rewrite (proj1 (proj2 (proj2 (proj2 (sb_spec x)))))
  | |- context [Bmw.sb4 ?x] => rewrite (proj1 (proj2 (proj2 (proj2 (proj2 (sb_spec x))))))
  | |- context [Bmw.sb5 ?x] => rewrite (proj2 (proj2 (proj2 (proj2 (proj2 (sb_spec x))))))
  | |- context [Bmw.rb1 ?x] => rewrite (proj1 (rb_spec x))
  | |- context [Bmw.rb2 ?x] => rewrite (proj1 (proj2 (rb_spec x)))
  | |- context [Bmw.rb3 ?x] => rewrite (proj1 (proj2 (proj2 (rb_spec x))))
  | |- context [Bmw.rb4 ?x] => rewrite (proj1 (proj2 (proj2 (proj2 (rb_spec x)))))
  | |- context [Bmw.rb5 ?x] => rewrite (proj1 (proj2 (proj2 (proj2 (proj2 (rb_spec x))))))
  | |- context [Bmw.rb6 ?x] => rewrite (proj1 (proj2 (proj2 (proj2 (proj2 (proj2 (rb_spec x)))))))
  | |- context [Bmw.rb7 ?x] => rewrite (proj2 (proj2 (proj2 (proj2 (proj2 (proj2 (rb_spec x)))))))
  end.

Lemma add_elt_b_spec M H j :
  let m k := ((j + k) mod 16)%nat in
  Bmw.add_elt_b (fun j => M.[j]) (fun j => H.[j]) (m 0%nat) (m 0%nat + 1) (m 3%nat) (m 3%nat + 1) (m 7%nat)
    (m 10%nat) (m 10%nat + 1) (16 + j) = BmwSpec.add_element BmwSpec.big_params M H j.
Proof.
  cbv zeta. unfold Bmw.add_elt_b, BmwSpec.add_element, BmwSpec.rotated.
  rewrite !ROTL64_big, T64_big, Kb_spec, !Nat2Z.inj_add, (Nat.add_comm 16 j), Nat.add_0_r. reflexivity.
Qed.

Lemma expandb_spec qf M H j :
  (j < 16)%nat ->
  Bmw.expand1b qf (fun j => M.[j]) (fun j => H.[j]) (16 + j) = BmwSpec.expand1 BmwSpec.big_params qf M H j /\
  Bmw.expand2b qf (fun j => M.[j]) (fun j => H.[j]) (16 + j) = BmwSpec.expand2 BmwSpec.big_params qf M H j.
Proof.
  intros Hj. destruct (rows_spec j Hj) as [EI EM].
  unfold Bmw.expand1b, Bmw.expand2b. rewrite EI, EM.
  unfold I16_of, M16_of. cbn [map seq]. unfold Bmw.expand1b_inner, Bmw.expand2b_inner.
  rewrite (add_elt_b_spec M H j).
  unfold BmwSpec.expand1, BmwSpec.expand2. generalize (BmwSpec.add_element BmwSpec.big_params M H j) as e; intros e.
  rewrite !T64_big. mix_b. cbn [map seq BmwSpec.sum fold_left Nat.add Nat.mul Nat.modulo Nat.divmod fst snd Nat.sub].
  split; apply (f_equal (BmwSpec.trunc BmwSpec.big_params)); unfold BmwSpec.sum; cbn [fold_left]; lia.
Qed.

Lemma Wb_spec M H :
  [ Bmw.Wb0 M H; Bmw.Wb1 M H; Bmw.Wb2 M H; Bmw.Wb3 M H;
    Bmw.Wb4 M H; Bmw.Wb5 M H; Bmw.Wb6 M H; Bmw.Wb7 M H;
    Bmw.Wb8 M H; Bmw.Wb9 M H; Bmw.Wb10 M H; Bmw.Wb11 M H;
    Bmw.Wb12 M H; Bmw.Wb13 M H; Bmw.Wb14 M H; Bmw.Wb15 M H ] =
  map (BmwSpec.W BmwSpec.big_params M H) (seq 0 16).
Proof.
  cbn [map seq].
  repeat apply (f_equal2 cons); try reflexivity;
    (refine (eq_trans (T64_big _) _); apply (f_equal (BmwSpec.trunc BmwSpec.big_params));
     unfold BmwSpec.sum; cbn [map nth BmwSpec.W_rows fold_left]; lia).
Qed.

Lemma MAKE_Qab_spec M H :
  Bmw.MAKE_Qab M H (repeat 0 32) = BmwSpec.Q_first BmwSpec.big_params M H ++ repeat 0 16.
Proof.
  pose proof (Wb_spec M H) as E. cbn [map seq] in E. injection E as E0 E1 E2 E3 E4 E5 E6 E7 E8 E9 E10 E11 E12 E13 E14 E15.
  unfold Bmw.MAKE_Qab, BmwSpec.Q_first. cbv zeta. rewrite E0, E1, E2, E3, E4, E5, E6, E7, E8, E9, E10, E11, E12, E13, E14, E15.
  rewrite !T64_big. mix_b. cbn [repeat upd map seq app]. reflexivity.
Qed.

(** [MAKE_Qab] of the small-footprint build. *)
Lemma MAKE_Qab_small_eq M H :
  Bmw.MAKE_Qab_small_footprint M H (repeat 0 32) = Bmw.MAKE_Qab M H (repeat 0 32).
Proof. reflexivity. Qed.

Lemma set_expandb_spec M H j qt :
  (j < 16)%nat ->
  (if (j <? 2)%nat then Bmw.set_expand1b M H (16 + j) qt else Bmw.set_expand2b M H (16 + j) qt) =
  set_word BmwSpec.big_params M H j qt.
Proof.
  intros Hj. unfold Bmw.set_expand1b, Bmw.set_expand2b, set_word, BmwSpec.expand.
  destruct (expandb_spec (fun i => qt.[i]) M H j Hj) as [E1 E2]. rewrite E1, E2.
  now destruct (j <? 2)%nat.
Qed.

Lemma MAKE_Qbb_spec M H qt :
  Bmw.MAKE_Qbb M H qt = fold_left (fun qt j => set_word BmwSpec.big_params M H j qt) (seq 0 16) qt.
Proof.
  transitivity (fold_left (fun qt j =>
    if (j <? 2)%nat then Bmw.set_expand1b M H (16 + j) qt else Bmw.set_expand2b M H (16 + j) qt)
    (seq 0 16) qt); [reflexivity|].
  apply fold_left_ext_in. intros j qt' Hj. apply in_seq in Hj. apply set_expandb_spec. lia.
Qed.

Lemma MAKE_Qb_spec M H : Bmw.MAKE_Qb M H (repeat 0 32) = BmwSpec.Q_all BmwSpec.big_params M H.
Proof. unfold Bmw.MAKE_Qb. rewrite MAKE_Qbb_spec, MAKE_Qab_spec. apply set_words_all. Qed.


Lemma big_M_words b : Bmw.big_M b = BmwSpec.words BmwSpec.big_params b.
Proof. reflexivity. Qed.

(** The compression function of the default build. *)
Lemma compress_big_spec data h :
  Bmw.compress_big data h = BmwSpec.compress BmwSpec.big_params (BmwSpec.words BmwSpec.big_params data) h.
Proof.
  unfold Bmw.compress_big, Bmw.FOLDb. rewrite MAKE_Qb_spec, big_M_words.
  apply FOLD_spec; [exact T64_big | exact ROTL64_big | reflexivity | apply length_Q_all].
Qed.


(** * The small-footprint code *)

Lemma compress_small_small_footprint_eq data h :
  Bmw.compress_small_small_footprint data h = Bmw.compress_small data h.
Proof.
  unfold Bmw.compress_small_small_footprint, Bmw.FOLDs_small_footprint, Bmw.MAKE_Qs_small_footprint,
    Bmw.compress_small, Bmw.FOLDs, Bmw.MAKE_Qs.
  rewrite MAKE_Qas_small_eq. reflexivity.
Qed.

Lemma land_15 j : Nat.land j 15 = (j mod 16)%nat.
Proof. exact (Nat.land_ones j 4). Qed.

Lemma rol_off_spec M j k :
  Bmw.rol_off (fun j => M.[j]) j k = BmwSpec.rotated BmwSpec.big_params M (j + k).
Proof. unfold Bmw.rol_off, BmwSpec.rotated. now rewrite ROTL64_big, land_15. Qed.

Lemma add_elt_b_small_spec M H j :
  (j < 16)%nat ->
  Bmw.add_elt_b_small_footprint (fun j => M.[j]) (fun j => H.[j]) j =
  BmwSpec.add_element BmwSpec.big_params M H j.
Proof.
  intros Hj. unfold Bmw.add_elt_b_small_footprint, BmwSpec.add_element.
  assert (E : Bmw.Kb_tab.[j] = BmwSpec.K BmwSpec.big_params (j + 16)).
  { rewrite <- Kb_spec. do 16 (destruct j as [|j]; [reflexivity|]). lia. }
  rewrite E, !rol_off_spec, T64_big, land_15, Nat.add_0_r. reflexivity.
Qed.

Lemma expandb_small_spec qf M H j :
  (j < 16)%nat ->
  Bmw.expand1b_small_footprint qf (fun j => M.[j]) (fun j => H.[j]) (16 + j) =
    BmwSpec.expand1 BmwSpec.big_params qf M H j /\
  Bmw.expand2b_small_footprint qf (fun j => M.[j]) (fun j => H.[j]) (16 + j) =
    BmwSpec.expand2 BmwSpec.big_params qf M H j.
Proof.
  intros Hj. destruct (expandb_spec qf M H j Hj) as [<- <-]. destruct (rows_spec j Hj) as [EI EM].
  unfold Bmw.expand1b_small_footprint, Bmw.expand2b_small_footprint, Bmw.expand1b, Bmw.expand2b.
  rewrite EI, EM. unfold I16_of, M16_of. cbn [map seq].
  unfold Bmw.expand1b_inner, Bmw.expand2b_inner.
  rewrite (add_elt_b_spec M H j).
  replace (16 + j - 16)%nat with j by lia. rewrite (add_elt_b_small_spec M H j Hj).
  change (16 + j)%nat with (S (15 + j)). cbn [Nat.sub Nat.add].
  rewrite (Nat.add_comm j 0), (Nat.add_comm j 1), (Nat.add_comm j 2), (Nat.add_comm j 3), (Nat.add_comm j 4),
    (Nat.add_comm j 5), (Nat.add_comm j 6), (Nat.add_comm j 7), (Nat.add_comm j 8), (Nat.add_comm j 9),
    (Nat.add_comm j 10), (Nat.add_comm j 11), (Nat.add_comm j 12), (Nat.add_comm j 13), (Nat.add_comm j 14),
    (Nat.add_comm j 15). split; reflexivity.
Qed.

Lemma MAKE_Qbb_small_spec M H qt :
  Bmw.MAKE_Qbb_small_footprint M H qt = Bmw.MAKE_Qbb M H qt.
Proof.
  refine (eq_trans _ (eq_sym (MAKE_Qbb_spec M H qt))). change (seq 0 16) with (seq 0 2 ++ seq 2 14). rewrite fold_left_app.
  unfold Bmw.MAKE_Qbb_small_footprint.
  assert (F : forall (f : list Z -> nat -> list Z) a n qt, fold_left f (seq (16 + a) n) qt =
    fold_left (fun qt j => f qt (16 + j)%nat) (seq a n) qt).
  { intros f a n; revert a; induction n as [|n IH]; intros a q; [reflexivity|].
    cbn [seq fold_left]. exact (IH (S a) _). }
  rewrite (F _ 0%nat 2%nat), (F _ 2%nat 14%nat). clear F.
  rewrite (fold_left_ext_in (fun qt j => qt.[(16 + j) := _]) (fun qt j => set_word BmwSpec.big_params M H j qt) (seq 0 2)).
  - apply fold_left_ext_in. intros q j Hj. apply in_seq in Hj.
    unfold set_word, BmwSpec.expand. destruct (expandb_small_spec (fun i => q.[i]) M H j) as [_ ->]; [lia|].
    now destruct (Nat.ltb_spec j 2); [lia|].
  - intros q j Hj. apply in_seq in Hj.
    unfold set_word, BmwSpec.expand. destruct (expandb_small_spec (fun i => q.[i]) M H j) as [-> _]; [lia|].
    now destruct (Nat.ltb_spec j 2); [|lia].
Qed.

Lemma compress_big_small_footprint_eq data h :
  Bmw.compress_big_small_footprint data h = Bmw.compress_big data h.
Proof.
  unfold Bmw.compress_big_small_footprint, Bmw.FOLDb_small_footprint, Bmw.MAKE_Qb_small_footprint,
    Bmw.compress_big, Bmw.FOLDb, Bmw.MAKE_Qb.
  rewrite MAKE_Qab_small_eq, MAKE_Qbb_small_spec. reflexivity.
Qed.

(** * The words of a compressed block *)

Lemma compress_words p M H :
  length (BmwSpec.compress p M H) = 16%nat /\ Forall (word (BmwSpec.wbits p)) (BmwSpec.compress p M H).
Proof.
  unfold BmwSpec.compress. generalize (BmwSpec.Q_all p M H) as Q; intros Q. split; [reflexivity|].
  unfold BmwSpec.fold; cbv zeta. apply Forall_app; split; apply Forall_map, Forall_forall;
    intros i _; apply word_mod; unfold BmwSpec.wbits; lia.
Qed.
