(* ===== verification/BmwHash.v ===== *)
(** The functions of bmw.c compute the Blue Midnight Wish digests of the
    reference. The chaining words of a context are those of the whole blocks of
    its message, its bit counter is the message length modulo 2^64, and the two
    arrays the update loop swaps are one chaining value. *)
From Stdlib Require Import ZifyNat.
From S2P Require Import Prelude SphTypes Stream Bmw SphSpec BmwProofs.

Section Width.
Context (p : BmwSpec.params).
Context (Hw : BmwSpec.wbytes p = 4%nat \/ BmwSpec.wbytes p = 8%nat).

Definition step (h b : list Z) : list Z := BmwSpec.compress p (BmwSpec.words p b) h.

Lemma size_pos : (64 <= BmwSpec.block_bytes p)%nat.
Proof. unfold BmwSpec.block_bytes; lia. Qed.

Lemma bmw_blocks_absorb k h m :
  length m = (k * BmwSpec.block_bytes p)%nat ->
  BmwSpec.compress_blocks p k h m = fst (absorb (BmwSpec.block_bytes p) step h m).
Proof.
  pose proof size_pos as Hs. revert h m; induction k as [|k IH]; intros h m Hm.
  - apply length_zero_iff_nil in Hm as ->. rewrite absorb_short by (cbn [length]; lia). reflexivity.
  - rewrite absorb_block by lia. cbn [BmwSpec.compress_blocks]. apply IH. rewrite length_skipn; lia.
Qed.

(** * Contexts *)

Definition bmw_rep (h0 buf : list Z) (ptr : nat) (h : list Z) (count : Z) (m : list Z) : Prop :=
  bytes m /\ count = (8 * Z.of_nat (length m)) mod 2 ^ 64 /\
  represents (BmwSpec.block_bytes p) step (BmwSpec.block_bytes p) h0 buf ptr h m.

Lemma bmw_rep_nil h0 buf :
  length buf = BmwSpec.block_bytes p -> bmw_rep h0 buf 0 h0 0 [].
Proof.
  intros E. pose proof size_pos. split; [constructor|]. split; [reflexivity|].
  apply represents_nil; lia.
Qed.

(** The counter after [len] more bytes. *)
Lemma count_update c n k :
  c = (8 * n) mod 2 ^ 64 ->
  SPH_T64 (c + SPH_T64 (Z.shiftl k 3)) = (8 * (n + k)) mod 2 ^ 64.
Proof.
  intros ->. rewrite !SPH_T64_mod, Z.shiftl_mul_pow2, <- Zplus_mod by lia. f_equal; lia.
Qed.

Lemma bmw_rep_loop (full : list Z * list Z * bool -> list Z -> list Z * list Z * bool)
    (current : list Z * list Z * bool -> list Z) h0 buf ptr st count m data :
  (forall st b, current (full st b) = step (current st) b) -> bytes data ->
  bmw_rep h0 buf ptr (current st) count m ->
  let '(buf', ptr', st') := core_loop (BmwSpec.block_bytes p) full (length data) buf ptr st data in
  bmw_rep h0 buf' ptr' (current st')
    (SPH_T64 (count + SPH_T64 (Z.shiftl (Z.of_nat (length data)) 3))) (m ++ data).
Proof.
  intros Hc Hd (Hm & Hn & Hr). pose proof size_pos as Hs.
  pose proof (core_loop_map (BmwSpec.block_bytes p) full step current Hc (length data) buf ptr st data) as E.
  pose proof (core_loop_represents (BmwSpec.block_bytes p) step ltac:(lia) _ (le_n _)
    (fun st b => full_exact _ step st b) _ _ _ _ _ data Hr) as G.
  destruct (core_loop _ full _ _ _ _ _) as [[b' p'] s']. rewrite E in G.
  split; [now apply Forall_app | split; [|exact G]].
  rewrite length_app, Nat2Z.inj_add. now apply count_update.
Qed.

(** * Padding *)

(** The blocks that end a message: what is buffered, the bit 1, zeros and the
    length; two blocks when the length does not fit in the first. *)
Definition last_state (h tail : list Z) (len : Z) : list Z :=
  let B := BmwSpec.block_bytes p in
  let ptr := length tail in
  if (B - 8 <? S ptr)%nat
  then step (step h (tail ++ 0x80 :: repeat 0 (B - S ptr))) (repeat 0 (B - 8) ++ le_split 8 len)
  else step h (tail ++ 0x80 :: repeat 0 (B - 8 - S ptr) ++ le_split 8 len).

#[local] Ltac Zify.zify_post_hook ::= Z.to_euclidean_division_equations.

Lemma pad_zeros m :
  let B := BmwSpec.block_bytes p in
  let r := (length m mod B)%nat in
  (((B - (length m + 9) mod B) mod B)%nat =
   if (B - 8 <? S r)%nat then (B - S r + (B - 8))%nat else (B - 8 - S r)%nat) /\
  (length (BmwSpec.pad p m) mod B = 0)%nat.
Proof.
  cbv zeta. unfold BmwSpec.pad. rewrite !length_app, repeat_length, length_le_split. cbn [length].
  unfold BmwSpec.block_bytes. destruct Hw as [-> | ->]; cbn [Nat.mul Nat.add]; generalize (length m) as l;
    clear; intros l; match goal with |- context [if (?a <? ?b)%nat then _ else _] => destruct (Nat.ltb_spec a b) end; lia.
Qed.

Lemma last_state_absorb h0 buf ptr h m :
  represents (BmwSpec.block_bytes p) step (BmwSpec.block_bytes p) h0 buf ptr h m ->
  fst (absorb (BmwSpec.block_bytes p) step h0 (BmwSpec.pad p m)) =
  last_state h (firstn ptr buf) (8 * Z.of_nat (length m)).
Proof.
  intros (Hb & Hp & E). pose proof size_pos as Hs.
  assert (Hl : length (firstn ptr buf) = (length m mod BmwSpec.block_bytes p)%nat).
  { rewrite <- (absorb_tail_mod (BmwSpec.block_bytes p) step ltac:(lia) h0 m), E. reflexivity. }
  destruct (pad_zeros m) as [Ez _]. cbv zeta in Ez. rewrite <- Hl in Ez.
  unfold BmwSpec.pad, last_state. cbv zeta. rewrite Ez. set (tail := firstn ptr buf) in *.
  set (B := BmwSpec.block_bytes p) in *. set (len := le_split 8 _).
  assert (Hlen : length len = 8%nat) by apply length_le_split.
  assert (Ht : (length tail < B)%nat) by (unfold tail; rewrite length_firstn; lia).
  rewrite absorb_app, E by lia. cbn [fst snd].
  destruct (Nat.ltb_spec (B - 8) (S (length tail))) as [Hc|Hc].
  - rewrite repeat_app.
    replace (tail ++ [0x80] ++ (repeat 0 (B - S (length tail)) ++ repeat 0 (B - 8)) ++ len)
      with ((tail ++ 0x80 :: repeat 0 (B - S (length tail))) ++ (repeat 0 (B - 8) ++ len) ++ [])
      by (cbn [app]; rewrite app_nil_r, <- !app_assoc; cbn [app]; now rewrite <- ?app_assoc).
    rewrite !absorb_block_app, absorb_short;
      try (rewrite ?length_app; cbn [length]; rewrite ?repeat_length; lia). reflexivity.
  - replace (tail ++ [0x80] ++ repeat 0 (B - 8 - S (length tail)) ++ len)
      with ((tail ++ 0x80 :: repeat 0 (B - 8 - S (length tail)) ++ len) ++ [])
      by (now rewrite app_nil_r).
    rewrite absorb_block_app, absorb_short;
      try (rewrite ?length_app; cbn [length]; rewrite ?length_app, ?repeat_length; lia). reflexivity.
Qed.

(** * The buffer writes of [close] *)

Definition close_buffer (compress : list Z -> list Z -> list Z) (B : nat) (buf : list Z) (ptr : nat)
    (h len : list Z) : list Z * list Z :=
  let buf := buf.[ptr := 0x80] in
  let ptr := S ptr in
  let '(buf, ptr, h) :=
    if (B - 8 <? ptr)%nat then
      let buf := memcpy_at buf ptr (repeat 0 (B - ptr)) in
      (buf, 0%nat, compress buf h)
    else (buf, ptr, h) in
  let buf := memcpy_at buf ptr (repeat 0 (B - 8 - ptr)) in
  (memcpy_at buf (B - 8) len, h).

Lemma close_buffer_spec compress buf ptr h len :
  (forall b h, length b = BmwSpec.block_bytes p -> compress b h = step h b) ->
  length buf = BmwSpec.block_bytes p -> (ptr < BmwSpec.block_bytes p)%nat ->
  let '(buf', h') := close_buffer compress (BmwSpec.block_bytes p) buf ptr h (le_split 8 len) in
  length buf' = BmwSpec.block_bytes p /\ step h' buf' = last_state h (firstn ptr buf) len.
Proof.
  intros Hc Hb Hp. pose proof size_pos as Hs. unfold close_buffer, last_state. cbv zeta.
  set (B := BmwSpec.block_bytes p) in *. pose proof (length_le_split 8 len) as Hlen.
  set (L := le_split 8 len) in *.
  pose proof (firstn_upd_S buf ptr 0x80 ltac:(lia)) as Hh.
  pose proof (length_upd buf ptr 0x80) as Hu. rewrite Hb in Hu.
  rewrite length_firstn, Hb, Nat.min_l by lia. set (b0 := buf.[ptr := 0x80]) in *. clearbody b0.
  assert (Hend : forall b q, length b = B -> (q <= B - 8)%nat ->
    memcpy_at (memcpy_at b q (repeat 0 (B - 8 - q))) (B - 8) L =
    (firstn q b ++ repeat 0 (B - 8 - q)) ++ L).
  { intros b q Eb Hq. rewrite memcpy_end by (rewrite length_memcpy_at; rewrite ?repeat_length; lia).
    pose proof (firstn_memcpy_at b q (repeat 0 (B - 8 - q)) ltac:(lia)) as F. rewrite repeat_length in F.
    replace (q + (B - 8 - q))%nat with (B - 8)%nat in F by lia. now rewrite F. }
  destruct (Nat.ltb_spec (B - 8) (S ptr)) as [Hlt|Hge].
  - rewrite (memcpy_end b0) by (rewrite repeat_length; lia). rewrite Hh, <- app_assoc. cbn [app].
    assert (H1 : length (firstn ptr buf ++ 0x80 :: repeat 0 (B - S ptr)) = B)
      by (rewrite length_app, length_firstn; cbn [length]; rewrite repeat_length; lia).
    rewrite (Hc _ _ H1), (Hend _ 0%nat) by lia. cbn [firstn app]. rewrite Nat.sub_0_r.
    split; [rewrite length_app, repeat_length; lia | reflexivity].
  - rewrite Hend, Hh by lia. split.
    + rewrite !length_app, length_firstn, repeat_length; cbn [length]; lia.
    + now rewrite <- !app_assoc.
Qed.

(** * The final compression and the output *)

Lemma words_encode h :
  length h = 16%nat -> Forall (word (BmwSpec.wbits p)) h ->
  BmwSpec.words p (flat_map (le_split (BmwSpec.wbytes p)) h) = h.
Proof.
  intros Hl Hh. transitivity (map (fun i => h.[i]) (seq 0 16)).
  - apply map_ext_in. intros i Hi. apply in_seq in Hi.
    rewrite (piece_flat_map _ (BmwSpec.wbytes p) i h 0) by (intros; rewrite ?length_le_split; lia).
    rewrite le_combine_split. apply word_mod_id. apply (Forall_nth_default (word (BmwSpec.wbits p))); [assumption|].
    apply word_0. unfold BmwSpec.wbits; lia.
  - rewrite map_nth_seq by lia. apply firstn_all2; lia.
Qed.

Lemma last_state_words h tail len :
  length (last_state h tail len) = 16%nat /\ Forall (word (BmwSpec.wbits p)) (last_state h tail len).
Proof. unfold last_state, step. cbv zeta. destruct (_ <? _)%nat; apply (compress_words p _ _). Qed.

Lemma bmw_final_digest h0 buf ptr h m n start :
  h0 = BmwSpec.iv p start -> 
  represents (BmwSpec.block_bytes p) step (BmwSpec.block_bytes p) h0 buf ptr h m ->
  flat_map (le_split (BmwSpec.wbytes p)) (skipn (16 - n) (step (BmwSpec.final p)
    (flat_map (le_split (BmwSpec.wbytes p)) (last_state h (firstn ptr buf) (8 * Z.of_nat (length m)))))) =
  BmwSpec.bmw p start n m.
Proof.
  intros E Hr. destruct (pad_zeros m) as [_ Hlen]. pose proof size_pos as Hs.
  unfold BmwSpec.bmw. cbv zeta.
  rewrite <- E, bmw_blocks_absorb
    by (rewrite Nat.mul_comm; apply Nat.Div0.div_exact; assumption).
  rewrite (last_state_absorb _ _ _ _ _ Hr).
  destruct (last_state_words h (firstn ptr buf) (8 * Z.of_nat (length m))) as [Hl Hh].
  generalize dependent (last_state h (firstn ptr buf) (8 * Z.of_nat (length m))). intros g Hl Hh.
  unfold step. rewrite words_encode by assumption. reflexivity.
Qed.
End Width.

(** * The 32-bit functions *)

Lemma small_width : BmwSpec.wbytes BmwSpec.small_params = 4%nat \/ BmwSpec.wbytes BmwSpec.small_params = 8%nat.
Proof. left; reflexivity. Qed.

Lemma bmw32_current_block st b :
  Bmw.bmw32_current (Bmw.bmw32_block st b) = step BmwSpec.small_params (Bmw.bmw32_current st) b.
Proof.
  destruct st as [[h htmp] []]; cbn [Bmw.bmw32_block Bmw.bmw32_current]; apply compress_small_spec.
Qed.

Definition small_rep (iv : list Z) (c : Bmw.sph_bmw_small_context) (m : list Z) : Prop :=
  bmw_rep BmwSpec.small_params iv (Bmw.small_buf c) (Bmw.small_ptr c) (Bmw.small_H c) (Bmw.small_bit_count c) m.

Lemma bmw32_init_rep iv c :
  length (Bmw.small_buf c) = 64%nat -> small_rep iv (Bmw.bmw32_init c iv) [].
Proof. intros H. apply bmw_rep_nil; [exact small_width | exact H]. Qed.

(** [bmw32] appends its data to the message of the context. *)
Lemma bmw32_update_rep iv c m data :
  bytes data -> small_rep iv c m -> small_rep iv (Bmw.bmw32 c data) (m ++ data).
Proof.
  intros Hd Hc. unfold Bmw.bmw32. cbv zeta.
  pose proof (bmw_rep_loop BmwSpec.small_params small_width Bmw.bmw32_block Bmw.bmw32_current iv (Bmw.small_buf c)
    (Bmw.small_ptr c) (Bmw.small_H c, repeat 0 16, false) (Bmw.small_bit_count c) m data
    bmw32_current_block Hd Hc) as G.
  change (BmwSpec.block_bytes BmwSpec.small_params) with 64%nat in G.
  destruct (core_loop _ _ _ _ _ _ _) as [[b' p'] s']. exact G.
Qed.

Lemma bmw32_close_buffer c n :
  Bmw.bmw32_close c 0 0 n =
  let '(buf, h) := close_buffer Bmw.compress_small 64 (Bmw.small_buf c) (Bmw.small_ptr c) (Bmw.small_H c)
    (sph_enc64le_aligned (SPH_T64 (Bmw.small_bit_count c + 0))) in
  let h2 := Bmw.compress_small buf h in
  let buf := fold_left (fun buf u => memcpy_at buf (4 * u) (sph_enc32le_aligned h2.[u])) (seq 0 16) buf in
  let h1 := Bmw.compress_small buf Bmw.final_s in
  (flat_map (fun u => sph_enc32le h1.[16 - n + u]) (seq 0 n),
   {| Bmw.small_buf := buf; Bmw.small_ptr := Bmw.small_ptr c; Bmw.small_H := Bmw.small_H c;
      Bmw.small_bit_count := Bmw.small_bit_count c |}).
Proof.
  unfold Bmw.bmw32_close, close_buffer. change (((0 &: - Z.shiftr 128 0) |: Z.shiftr 128 0) &: 255) with 128.
  destruct (64 - 8 <? S (Bmw.small_ptr c))%nat; reflexivity.
Qed.

Lemma bmw32_close_rep start n iv c m :
  (n <= 16)%nat -> iv = BmwSpec.iv BmwSpec.small_params start -> small_rep iv c m ->
  fst (Bmw.bmw32_close c 0 0 n) = BmwSpec.bmw BmwSpec.small_params start n m /\
  length (Bmw.small_buf (snd (Bmw.bmw32_close c 0 0 n))) = 64%nat.
Proof.
  intros Hn Hiv (Hm & Hcount & Hr). rewrite bmw32_close_buffer.
  replace (sph_enc64le_aligned (SPH_T64 (Bmw.small_bit_count c + 0)))
    with (le_split 8 (8 * Z.of_nat (length m)))
    by (rewrite Hcount, Z.add_0_r, SPH_T64_mod, Z.mod_mod by lia; symmetry; exact (le_split_mod 8 _)).
  pose proof (close_buffer_spec BmwSpec.small_params small_width Bmw.compress_small (Bmw.small_buf c) (Bmw.small_ptr c)
    (Bmw.small_H c) (8 * Z.of_nat (length m)) (fun b h _ => compress_small_spec b h)
    (proj1 Hr) (proj1 (proj2 Hr))) as G.
  change (BmwSpec.block_bytes BmwSpec.small_params) with 64%nat in G.
  destruct (close_buffer _ _ _ _ _ _) as [b h]. destruct G as [Hb Hs]. cbv zeta.
  rewrite !compress_small_spec. fold (step BmwSpec.small_params h b). rewrite Hs.
  destruct (last_state_words BmwSpec.small_params (Bmw.small_H c) (firstn (Bmw.small_ptr c) (Bmw.small_buf c))
    (8 * Z.of_nat (length m))) as [Hl _].
  pose proof (bmw_final_digest BmwSpec.small_params small_width iv (Bmw.small_buf c) (Bmw.small_ptr c) (Bmw.small_H c) m n start Hiv Hr) as D.
  set (g := last_state _ _ _ _) in *. clearbody g.
  rewrite (memcpy_loop _ 4) by (intros; try apply length_le_split; lia).
  rewrite (skipn_all2 b), app_nil_r by lia.
  change (fun u => sph_enc32le_aligned g.[u]) with (fun u => le_split 4 g.[0 + u]).
  rewrite (flat_map_nth_seq (le_split 4) g 0 0 16) by lia. cbn [skipn fst snd Bmw.small_buf].
  split; [|rewrite (length_flat_map_const _ 4), Hl; [reflexivity | intros; apply length_le_split]].
  rewrite <- D.
  change (BmwSpec.compress BmwSpec.small_params (BmwSpec.words BmwSpec.small_params (flat_map (le_split 4) g)) Bmw.final_s)
    with (step BmwSpec.small_params Bmw.final_s (flat_map (le_split 4) g)).
  replace Bmw.final_s with (BmwSpec.final BmwSpec.small_params) by reflexivity.
  change (BmwSpec.wbytes BmwSpec.small_params) with 4%nat.
  set (x := step _ _ _). assert (Hx : length x = 16%nat) by apply compress_words. clearbody x.
  apply (flat_map_nth_seq (le_split 4) x 0). lia.
Qed.

Definition bmw224_ops (c0 : Bmw.sph_bmw_small_context) : hash_ops Bmw.sph_bmw_small_context :=
  {| hash_init := Bmw.sph_bmw224_init c0;
     hash_update := Bmw.sph_bmw224;
     hash_close := Bmw.sph_bmw224_close |}.

Definition bmw256_ops (c0 : Bmw.sph_bmw_small_context) : hash_ops Bmw.sph_bmw_small_context :=
  {| hash_init := Bmw.sph_bmw256_init c0;
     hash_update := Bmw.sph_bmw256;
     hash_close := Bmw.sph_bmw256_close |}.

(** The stream interface of a function of this width. *)
Lemma bmw32_stream start n iv (ops : hash_ops Bmw.sph_bmw_small_context) c0 :
  (n <= 16)%nat -> iv = BmwSpec.iv BmwSpec.small_params start -> length (Bmw.small_buf c0) = 64%nat ->
  hash_init ops = Bmw.bmw32_init c0 iv -> hash_update ops = Bmw.bmw32 ->
  (forall c, hash_close ops c = let '(dst, c) := Bmw.bmw32_close c 0 0 n in (dst, Bmw.bmw32_init c iv)) ->
  StreamHash ops any_message (BmwSpec.bmw BmwSpec.small_params start n).
Proof.
  intros Hn Hiv Hb Ei Eu Ec. exists (small_rep iv).
  - rewrite Ei. now apply bmw32_init_rep.
  - intros c m d Hd Hc. rewrite Eu. now apply bmw32_update_rep.
  - intros c m Hc _. rewrite Ec.
    destruct (bmw32_close_rep start n iv c m Hn Hiv Hc) as [E L].
    destruct (Bmw.bmw32_close c 0 0 n) as [dst c']. split; [exact E | now apply bmw32_init_rep].
Qed.

#[export] Instance bmw224_stream c0 (H : length (Bmw.small_buf c0) = 64%nat) :
  StreamHash (bmw224_ops c0) any_message BmwSpec.bmw224.
Proof.
  refine (bmw32_stream 0x00 7 Bmw.IV224 (bmw224_ops c0) c0 _ _ H _ _ _); [lia | reflexivity..].
Defined.

#[export] Instance bmw256_stream c0 (H : length (Bmw.small_buf c0) = 64%nat) :
  StreamHash (bmw256_ops c0) any_message BmwSpec.bmw256.
Proof.
  refine (bmw32_stream 0x40 8 Bmw.IV256 (bmw256_ops c0) c0 _ _ H _ _ _); [lia | reflexivity..].
Defined.


(** * The 64-bit functions *)

Lemma big_width : BmwSpec.wbytes BmwSpec.big_params = 4%nat \/ BmwSpec.wbytes BmwSpec.big_params = 8%nat.
Proof. right; reflexivity. Qed.

Lemma bmw64_current_block st b :
  Bmw.bmw64_current (Bmw.bmw64_block st b) = step BmwSpec.big_params (Bmw.bmw64_current st) b.
Proof.
  destruct st as [[h htmp] []]; cbn [Bmw.bmw64_block Bmw.bmw64_current]; apply compress_big_spec.
Qed.

Definition big_rep (iv : list Z) (c : Bmw.sph_bmw_big_context) (m : list Z) : Prop :=
  bmw_rep BmwSpec.big_params iv (Bmw.big_buf c) (Bmw.big_ptr c) (Bmw.big_H c) (Bmw.big_bit_count c) m.

Lemma bmw64_init_rep iv c :
  length (Bmw.big_buf c) = 128%nat -> big_rep iv (Bmw.bmw64_init c iv) [].
Proof. intros H. apply bmw_rep_nil; [exact big_width | exact H]. Qed.

(** [bmw64] appends its data to the message of the context. *)
Lemma bmw64_update_rep iv c m data :
  bytes data -> big_rep iv c m -> big_rep iv (Bmw.bmw64 c data) (m ++ data).
Proof.
  intros Hd Hc. unfold Bmw.bmw64. cbv zeta.
  pose proof (bmw_rep_loop BmwSpec.big_params big_width Bmw.bmw64_block Bmw.bmw64_current iv (Bmw.big_buf c)
    (Bmw.big_ptr c) (Bmw.big_H c, repeat 0 16, false) (Bmw.big_bit_count c) m data
    bmw64_current_block Hd Hc) as G.
  change (BmwSpec.block_bytes BmwSpec.big_params) with 128%nat in G.
  destruct (core_loop _ _ _ _ _ _ _) as [[b' p'] s']. exact G.
Qed.

Lemma bmw64_close_buffer c n :
  Bmw.bmw64_close c 0 0 n =
  let '(buf, h) := close_buffer Bmw.compress_big 128 (Bmw.big_buf c) (Bmw.big_ptr c) (Bmw.big_H c)
    (sph_enc64le_aligned (SPH_T64 (Bmw.big_bit_count c + 0))) in
  let h2 := Bmw.compress_big buf h in
  let buf := fold_left (fun buf u => memcpy_at buf (8 * u) (sph_enc64le_aligned h2.[u])) (seq 0 16) buf in
  let h1 := Bmw.compress_big buf Bmw.final_b in
  (flat_map (fun u => sph_enc64le h1.[16 - n + u]) (seq 0 n),
   {| Bmw.big_buf := buf; Bmw.big_ptr := Bmw.big_ptr c; Bmw.big_H := Bmw.big_H c;
      Bmw.big_bit_count := Bmw.big_bit_count c |}).
Proof.
  unfold Bmw.bmw64_close, close_buffer. change (((0 &: - Z.shiftr 128 0) |: Z.shiftr 128 0) &: 255) with 128.
  destruct (128 - 8 <? S (Bmw.big_ptr c))%nat; reflexivity.
Qed.

Lemma bmw64_close_rep start n iv c m :
  (n <= 16)%nat -> iv = BmwSpec.iv BmwSpec.big_params start -> big_rep iv c m ->
  fst (Bmw.bmw64_close c 0 0 n) = BmwSpec.bmw BmwSpec.big_params start n m /\
  length (Bmw.big_buf (snd (Bmw.bmw64_close c 0 0 n))) = 128%nat.
Proof.
  intros Hn Hiv (Hm & Hcount & Hr). rewrite bmw64_close_buffer.
  replace (sph_enc64le_aligned (SPH_T64 (Bmw.big_bit_count c + 0)))
    with (le_split 8 (8 * Z.of_nat (length m)))
    by (rewrite Hcount, Z.add_0_r, SPH_T64_mod, Z.mod_mod by lia; symmetry; exact (le_split_mod 8 _)).
  pose proof (close_buffer_spec BmwSpec.big_params big_width Bmw.compress_big (Bmw.big_buf c) (Bmw.big_ptr c)
    (Bmw.big_H c) (8 * Z.of_nat (length m)) (fun b h _ => compress_big_spec b h)
    (proj1 Hr) (proj1 (proj2 Hr))) as G.
  change (BmwSpec.block_bytes BmwSpec.big_params) with 128%nat in G.
  destruct (close_buffer _ _ _ _ _ _) as [b h]. destruct G as [Hb Hs]. cbv zeta.
  rewrite !compress_big_spec. fold (step BmwSpec.big_params h b). rewrite Hs.
  destruct (last_state_words BmwSpec.big_params (Bmw.big_H c) (firstn (Bmw.big_ptr c) (Bmw.big_buf c))
    (8 * Z.of_nat (length m))) as [Hl _].
  pose proof (bmw_final_digest BmwSpec.big_params big_width iv (Bmw.big_buf c) (Bmw.big_ptr c) (Bmw.big_H c) m n start Hiv Hr) as D.
  set (g := last_state _ _ _ _) in *. clearbody g.
  rewrite (memcpy_loop _ 8) by (intros; try apply length_le_split; lia).
  rewrite (skipn_all2 b), app_nil_r by lia.
  change (fun u => sph_enc64le_aligned g.[u]) with (fun u => le_split 8 g.[0 + u]).
  rewrite (flat_map_nth_seq (le_split 8) g 0 0 16) by lia. cbn [skipn fst snd Bmw.big_buf].
  split; [|rewrite (length_flat_map_const _ 8), Hl; [reflexivity | intros; apply length_le_split]].
  rewrite <- D.
  change (BmwSpec.compress BmwSpec.big_params (BmwSpec.words BmwSpec.big_params (flat_map (le_split 8) g)) Bmw.final_b)
    with (step BmwSpec.big_params Bmw.final_b (flat_map (le_split 8) g)).
  replace Bmw.final_b with (BmwSpec.final BmwSpec.big_params) by reflexivity.
  change (BmwSpec.wbytes BmwSpec.big_params) with 8%nat.
  set (x := step _ _ _). assert (Hx : length x = 16%nat) by apply compress_words. clearbody x.
  apply (flat_map_nth_seq (le_split 8) x 0). lia.
Qed.

Definition bmw384_ops (c0 : Bmw.sph_bmw_big_context) : hash_ops Bmw.sph_bmw_big_context :=
  {| hash_init := Bmw.sph_bmw384_init c0;
     hash_update := Bmw.sph_bmw384;
     hash_close := Bmw.sph_bmw384_close |}.

Definition bmw512_ops (c0 : Bmw.sph_bmw_big_context) : hash_ops Bmw.sph_bmw_big_context :=
  {| hash_init := Bmw.sph_bmw512_init c0;
     hash_update := Bmw.sph_bmw512;
     hash_close := Bmw.sph_bmw512_close |}.

(** The stream interface of a function of this width. *)
Lemma bmw64_stream start n iv (ops : hash_ops Bmw.sph_bmw_big_context) c0 :
  (n <= 16)%nat -> iv = BmwSpec.iv BmwSpec.big_params start -> length (Bmw.big_buf c0) = 128%nat ->
  hash_init ops = Bmw.bmw64_init c0 iv -> hash_update ops = Bmw.bmw64 ->
  (forall c, hash_close ops c = let '(dst, c) := Bmw.bmw64_close c 0 0 n in (dst, Bmw.bmw64_init c iv)) ->
  StreamHash ops any_message (BmwSpec.bmw BmwSpec.big_params start n).
Proof.
  intros Hn Hiv Hb Ei Eu Ec. exists (big_rep iv).
  - rewrite Ei. now apply bmw64_init_rep.
  - intros c m d Hd Hc. rewrite Eu. now apply bmw64_update_rep.
  - intros c m Hc _. rewrite Ec.
    destruct (bmw64_close_rep start n iv c m Hn Hiv Hc) as [E L].
    destruct (Bmw.bmw64_close c 0 0 n) as [dst c']. split; [exact E | now apply bmw64_init_rep].
Qed.

#[export] Instance bmw384_stream c0 (H : length (Bmw.big_buf c0) = 128%nat) :
  StreamHash (bmw384_ops c0) any_message BmwSpec.bmw384.
Proof.
  refine (bmw64_stream 0x00 6 Bmw.IV384 (bmw384_ops c0) c0 _ _ H _ _ _); [lia | reflexivity..].
Defined.

#[export] Instance bmw512_stream c0 (H : length (Bmw.big_buf c0) = 128%nat) :
  StreamHash (bmw512_ops c0) any_message BmwSpec.bmw512.
Proof.
  refine (bmw64_stream 0x80 8 Bmw.IV512 (bmw512_ops c0) c0 _ _ H _ _ _); [lia | reflexivity..].
Defined.


(** * The claims *)

(** The digests: whatever the uninitialised contexts held and however the
    message is cut into updates, the four functions of bmw.c return the Blue
    Midnight Wish digest of the whole message: padding, two-array chaining and the
    final compression over the encoded chaining value included. *)
Theorem bmw_digests (cs : Bmw.sph_bmw_small_context) (cb : Bmw.sph_bmw_big_context) pieces :
  length (Bmw.small_buf cs) = 64%nat -> length (Bmw.big_buf cb) = 128%nat ->
  Forall (fun p => bytes p) pieces ->
  digest_of (bmw224_ops cs) pieces = BmwSpec.bmw224 (concat pieces) /\
  digest_of (bmw256_ops cs) pieces = BmwSpec.bmw256 (concat pieces) /\
  digest_of (bmw384_ops cb) pieces = BmwSpec.bmw384 (concat pieces) /\
  digest_of (bmw512_ops cb) pieces = BmwSpec.bmw512 (concat pieces).
Proof.
  intros Hs Hb Hp. repeat split.
  - exact (chunked_digest (StreamHash0 := bmw224_stream cs Hs) pieces Hp I).
  - exact (chunked_digest (StreamHash0 := bmw256_stream cs Hs) pieces Hp I).
  - exact (chunked_digest (StreamHash0 := bmw384_stream cb Hb) pieces Hp I).
  - exact (chunked_digest (StreamHash0 := bmw512_stream cb Hb) pieces Hp I).
Qed.

Definition bmw_small_blank : Bmw.sph_bmw_small_context :=
  {| Bmw.small_buf := repeat 0 64; Bmw.small_ptr := 0; Bmw.small_H := []; Bmw.small_bit_count := 0 |}.
Definition bmw_big_blank : Bmw.sph_bmw_big_context :=
  {| Bmw.big_buf := repeat 0 128; Bmw.big_ptr := 0; Bmw.big_H := []; Bmw.big_bit_count := 0 |}.

Lemma bmw_digests_witness :
  digest_of (bmw512_ops bmw_big_blank) [[97]; []; [98; 99]] = BmwSpec.bmw512 [97; 98; 99].
Proof.
  refine (proj2 (proj2 (proj2 (bmw_digests bmw_small_blank bmw_big_blank [[97]; []; [98; 99]] _ _ _)))).
  - reflexivity.
  - reflexivity.
  - repeat apply Forall_cons; try apply Forall_nil; split; [lia|reflexivity|lia|reflexivity|lia|reflexivity].
Defined.

(** The compression function: for every block and chaining value, the unrolled
    and the small-footprint code (loops, the constant table [Kb_tab], computed
    positions) compute the compression function of the reference at both word
    sizes, and its output is sixteen words of the word size. *)
Theorem bmw_compressions data h :
  let small := BmwSpec.compress BmwSpec.small_params (BmwSpec.words BmwSpec.small_params data) h in
  let big := BmwSpec.compress BmwSpec.big_params (BmwSpec.words BmwSpec.big_params data) h in
  (Bmw.compress_small data h = small /\ Bmw.compress_small_small_footprint data h = small /\
   length small = 16%nat /\ Forall (word 32) small) /\
  (Bmw.compress_big data h = big /\ Bmw.compress_big_small_footprint data h = big /\
   length big = 16%nat /\ Forall (word 64) big).
Proof.
  intros small big.
  pose proof (compress_small_spec data h : Bmw.compress_small data h = small) as E1.
  pose proof (compress_big_spec data h : Bmw.compress_big data h = big) as E2.
  pose proof (compress_words BmwSpec.small_params (BmwSpec.words BmwSpec.small_params data) h) as [L1 F1].
  pose proof (compress_words BmwSpec.big_params (BmwSpec.words BmwSpec.big_params data) h) as [L2 F2].
  exact (conj (conj E1 (conj (eq_trans (compress_small_small_footprint_eq data h) E1) (conj L1 F1)))
    (conj E2 (conj (eq_trans (compress_big_small_footprint_eq data h) E2) (conj L2 F2)))).
Qed.

(** The first bytes of the published digest of the empty message. *)
Example bmw512_empty :
  firstn 8 (digest_of (bmw512_ops bmw_big_blank) []) =
  [0x6a; 0x72; 0x56; 0x55; 0xc4; 0x2b; 0xc8; 0xa2].
Proof. vm_compute; reflexivity. Qed.
