(* ===== verification/JhProofs.v ===== *)
(** The bitsliced permutation of jh.c is the permutation E8 of the reference. The
    code keeps the four bits of element [2 * i] in bit [pos r i] of the words
    [h0], [h2], [h4], [h6] and those of element [2 * i + 1] in the same bit of
    [h1], [h3], [h5], [h7]; instead of permuting the elements it swaps bits of the
    odd words, so that [pos] changes from round to round and comes back after
    seven rounds. *)
From Stdlib Require Import ZifyNat.
From S2P Require Import Prelude SphTypes Stream Jh SphSpec.

(** * One bit of the substitution and of the linear layer *)

Definition sb_bits (x0 x1 x2 x3 c : bool) : bool * bool * bool * bool :=
  let x3 := negb x3 in
  let x0 := xorb x0 (c && negb x2) in
  let tmp := xorb c (x0 && x1) in
  let x0 := xorb x0 (x2 && x3) in
  let x3 := xorb x3 (negb x1 && x2) in
  let x1 := xorb x1 (x0 && x2) in
  let x2 := xorb x2 (x0 && negb x3) in
  let x0 := xorb x0 (x1 || x3) in
  let x3 := xorb x3 (x1 && x2) in
  let x1 := xorb x1 (tmp && x0) in
  let x2 := xorb x2 tmp in
  (x0, x1, x2, x3).

Lemma testbit_inv x k : 0 <= k < 64 -> Z.testbit (Jh.inv x) k = negb (Z.testbit x k).
Proof.
  intros Hk. unfold Jh.inv. rewrite testbit_T64, Z.lnot_spec by lia.
  destruct (Z.ltb_spec k 64); [reflexivity | lia].
Qed.

Lemma Sb_bits x0 x1 x2 x3 c k :
  0 <= k < 64 ->
  let '(a0, a1, a2, a3) := Jh.Sb x0 x1 x2 x3 c in
  (Z.testbit a0 k, Z.testbit a1 k, Z.testbit a2 k, Z.testbit a3 k) =
  sb_bits (Z.testbit x0 k) (Z.testbit x1 k) (Z.testbit x2 k) (Z.testbit x3 k) (Z.testbit c k).
Proof.
  intros Hk. unfold Jh.Sb, sb_bits. cbv zeta.
  repeat match goal with
  | |- context [Z.testbit (?a ^^ ?b) k] => rewrite (Z.lxor_spec a b k)
  | |- context [Z.testbit (?a &: ?b) k] => rewrite (Z.land_spec a b k)
  | |- context [Z.testbit (?a |: ?b) k] => rewrite (Z.lor_spec a b k)
  | |- context [Z.testbit (Jh.inv ?a) k] => rewrite (testbit_inv a k Hk)
  end. reflexivity.
Qed.

(** The bitsliced circuit computes the two S-boxes. *)
Lemma sb_bits_sbox x0 x1 x2 x3 c :
  let '(y0, y1, y2, y3) := sb_bits x0 x1 x2 x3 c in
  JhSpec.nibble y0 y1 y2 y3 = JhSpec.sbox c (JhSpec.nibble x0 x1 x2 x3).
Proof. destruct x0, x1, x2, x3, c; reflexivity. Qed.

Definition lb_bits (x0 x1 x2 x3 x4 x5 x6 x7 : bool) : list bool :=
  let x4 := xorb x4 x1 in
  let x5 := xorb x5 x2 in
  let x6 := xorb x6 (xorb x3 x0) in
  let x7 := xorb x7 x0 in
  let x0 := xorb x0 x5 in
  let x1 := xorb x1 x6 in
  let x2 := xorb x2 (xorb x7 x4) in
  let x3 := xorb x3 x4 in
  [x0; x1; x2; x3; x4; x5; x6; x7].

Lemma Lb_bits x0 x1 x2 x3 x4 x5 x6 x7 k :
  map (fun x => Z.testbit x k) (Jh.Lb x0 x1 x2 x3 x4 x5 x6 x7) =
  lb_bits (Z.testbit x0 k) (Z.testbit x1 k) (Z.testbit x2 k) (Z.testbit x3 k)
    (Z.testbit x4 k) (Z.testbit x5 k) (Z.testbit x6 k) (Z.testbit x7 k).
Proof. unfold Jh.Lb, lb_bits. cbv zeta. cbn [map]. now rewrite !Z.lxor_spec. Qed.

Lemma lb_bits_mds x0 x1 x2 x3 x4 x5 x6 x7 :
  match lb_bits x0 x1 x2 x3 x4 x5 x6 x7 with
  | [y0; y1; y2; y3; y4; y5; y6; y7] =>
      (JhSpec.nibble y0 y1 y2 y3, JhSpec.nibble y4 y5 y6 y7) =
      JhSpec.mds (JhSpec.nibble x0 x1 x2 x3) (JhSpec.nibble x4 x5 x6 x7)
  | _ => False
  end.
Proof. destruct x0, x1, x2, x3, x4, x5, x6, x7; reflexivity. Qed.

(** * Columns of the state *)

(** Bit [k] of the 128-bit word [hw], the low half last. *)
Definition bitof (h : list Z) (w k : nat) : bool :=
  Z.testbit h.[2 * w + k / 64] (Z.of_nat (k mod 64)).

(** The element in the words of the given parity. *)
Definition elem (h : list Z) (k par : nat) : Z :=
  JhSpec.nibble (bitof h par k) (bitof h (2 + par) k) (bitof h (4 + par) k) (bitof h (6 + par) k).

Definition Ceven (r k : nat) : bool :=
  Z.testbit (if (k <? 64)%nat then Jh.Ceven_hi r else Jh.Ceven_lo r) (Z.of_nat (k mod 64)).
Definition Codd (r k : nat) : bool :=
  Z.testbit (if (k <? 64)%nat then Jh.Codd_hi r else Jh.Codd_lo r) (Z.of_nat (k mod 64)).

(** The substitution and linear layers, before the swaps. *)
Definition SL_layer (r : nat) (h : list Z) : list Z :=
  Jh.L 0 2 4 6 1 3 5 7
    (Jh.S 1 3 5 7 Jh.Codd_hi Jh.Codd_lo r (Jh.S 0 2 4 6 Jh.Ceven_hi Jh.Ceven_lo r h)).

(** The layers act on each half of the words by itself. *)
Definition half_layer (ce co : Z) (x : list Z) : list Z :=
  let '(e0, e1, e2, e3) := Jh.Sb x.[0] x.[2] x.[4] x.[6] ce in
  let '(o0, o1, o2, o3) := Jh.Sb x.[1] x.[3] x.[5] x.[7] co in
  Jh.Lb e0 e1 e2 e3 o0 o1 o2 o3.

(** The effect of each macro on the sixteen words. *)
Lemma S_half_even0 a0 a1 a2 a3 a4 a5 a6 a7 a8 a9 a10 a11 a12 a13 a14 a15 c :
  Jh.S_half 0 0 2 4 6 c [a0; a1; a2; a3; a4; a5; a6; a7; a8; a9; a10; a11; a12; a13; a14; a15] =
  let '(b0, b1, b2, b3) := Jh.Sb a0 a4 a8 a12 c in
  [b0; a1; a2; a3; b1; a5; a6; a7; b2; a9; a10; a11; b3; a13; a14; a15].
Proof. unfold Jh.S_half. cbn [Nat.mul Nat.add nth]. now destruct (Jh.Sb _ _ _ _ _) as [[[? ?] ?] ?]. Qed.

Lemma S_half_even1 a0 a1 a2 a3 a4 a5 a6 a7 a8 a9 a10 a11 a12 a13 a14 a15 c :
  Jh.S_half 1 0 2 4 6 c [a0; a1; a2; a3; a4; a5; a6; a7; a8; a9; a10; a11; a12; a13; a14; a15] =
  let '(b0, b1, b2, b3) := Jh.Sb a1 a5 a9 a13 c in
  [a0; b0; a2; a3; a4; b1; a6; a7; a8; b2; a10; a11; a12; b3; a14; a15].
Proof. unfold Jh.S_half. cbn [Nat.mul Nat.add nth]. now destruct (Jh.Sb _ _ _ _ _) as [[[? ?] ?] ?]. Qed.

Lemma S_half_odd0 a0 a1 a2 a3 a4 a5 a6 a7 a8 a9 a10 a11 a12 a13 a14 a15 c :
  Jh.S_half 0 1 3 5 7 c [a0; a1; a2; a3; a4; a5; a6; a7; a8; a9; a10; a11; a12; a13; a14; a15] =
  let '(b0, b1, b2, b3) := Jh.Sb a2 a6 a10 a14 c in
  [a0; a1; b0; a3; a4; a5; b1; a7; a8; a9; b2; a11; a12; a13; b3; a15].
Proof. unfold Jh.S_half. cbn [Nat.mul Nat.add nth]. now destruct (Jh.Sb _ _ _ _ _) as [[[? ?] ?] ?]. Qed.

Lemma S_half_odd1 a0 a1 a2 a3 a4 a5 a6 a7 a8 a9 a10 a11 a12 a13 a14 a15 c :
  Jh.S_half 1 1 3 5 7 c [a0; a1; a2; a3; a4; a5; a6; a7; a8; a9; a10; a11; a12; a13; a14; a15] =
  let '(b0, b1, b2, b3) := Jh.Sb a3 a7 a11 a15 c in
  [a0; a1; a2; b0; a4; a5; a6; b1; a8; a9; a10; b2; a12; a13; a14; b3].
Proof. unfold Jh.S_half. cbn [Nat.mul Nat.add nth]. now destruct (Jh.Sb _ _ _ _ _) as [[[? ?] ?] ?]. Qed.

Lemma L_half0_words a0 a1 a2 a3 a4 a5 a6 a7 a8 a9 a10 a11 a12 a13 a14 a15 :
  Jh.L_half 0 0 2 4 6 1 3 5 7 [a0; a1; a2; a3; a4; a5; a6; a7; a8; a9; a10; a11; a12; a13; a14; a15] =
  let b := Jh.Lb a0 a4 a8 a12 a2 a6 a10 a14 in
  [b.[0]; a1; b.[4]; a3; b.[1]; a5; b.[5]; a7; b.[2]; a9; b.[6]; a11; b.[3]; a13; b.[7]; a15].
Proof. unfold Jh.L_half. cbn [Nat.mul Nat.add nth]. now generalize (Jh.Lb a0 a4 a8 a12 a2 a6 a10 a14) as b. Qed.

Lemma L_half1_words a0 a1 a2 a3 a4 a5 a6 a7 a8 a9 a10 a11 a12 a13 a14 a15 :
  Jh.L_half 1 0 2 4 6 1 3 5 7 [a0; a1; a2; a3; a4; a5; a6; a7; a8; a9; a10; a11; a12; a13; a14; a15] =
  let b := Jh.Lb a1 a5 a9 a13 a3 a7 a11 a15 in
  [a0; b.[0]; a2; b.[4]; a4; b.[1]; a6; b.[5]; a8; b.[2]; a10; b.[6]; a12; b.[3]; a14; b.[7]].
Proof. unfold Jh.L_half. cbn [Nat.mul Nat.add nth]. now generalize (Jh.Lb a1 a5 a9 a13 a3 a7 a11 a15) as b. Qed.

Lemma SL_layer_halves r h :
  length h = 16%nat ->
  let hi := half_layer (Jh.Ceven_hi r) (Jh.Codd_hi r) (map (fun w => h.[2 * w]) (seq 0 8)) in
  let lo := half_layer (Jh.Ceven_lo r) (Jh.Codd_lo r) (map (fun w => h.[2 * w + 1]) (seq 0 8)) in
  SL_layer r h =
  [hi.[0]; lo.[0]; hi.[4]; lo.[4]; hi.[1]; lo.[1]; hi.[5]; lo.[5];
   hi.[2]; lo.[2]; hi.[6]; lo.[6]; hi.[3]; lo.[3]; hi.[7]; lo.[7]].
Proof.
  intros Hl. destruct_list_n h. cbv zeta. unfold SL_layer, half_layer, Jh.S, Jh.L.
  cbn [Nat.mul Nat.add nth map seq].
  generalize (Jh.Ceven_hi r) (Jh.Ceven_lo r) (Jh.Codd_hi r) (Jh.Codd_lo r). intros c1 c2 c3 c4.
  rewrite S_half_even0. destruct (Jh.Sb _ _ _ _ c1) as [[[? ?] ?] ?].
  rewrite S_half_even1. destruct (Jh.Sb _ _ _ _ c2) as [[[? ?] ?] ?].
  rewrite S_half_odd0. destruct (Jh.Sb _ _ _ _ c3) as [[[? ?] ?] ?].
  rewrite S_half_odd1. destruct (Jh.Sb _ _ _ _ c4) as [[[? ?] ?] ?].
  rewrite L_half0_words. cbv zeta. rewrite L_half1_words. reflexivity.
Qed.

Lemma half_layer_bits ce co x k :
  0 <= k < 64 ->
  let y := half_layer ce co x in
  let b i := Z.testbit x.[i] k in
  let c i := Z.testbit y.[i] k in
  (JhSpec.nibble (c 0%nat) (c 1%nat) (c 2%nat) (c 3%nat),
   JhSpec.nibble (c 4%nat) (c 5%nat) (c 6%nat) (c 7%nat)) =
  JhSpec.mds
    (JhSpec.sbox (Z.testbit ce k) (JhSpec.nibble (b 0%nat) (b 2%nat) (b 4%nat) (b 6%nat)))
    (JhSpec.sbox (Z.testbit co k) (JhSpec.nibble (b 1%nat) (b 3%nat) (b 5%nat) (b 7%nat))).
Proof.
  intros Hk. cbv zeta. unfold half_layer.
  pose proof (Sb_bits x.[0] x.[2] x.[4] x.[6] ce k Hk) as E.
  pose proof (Sb_bits x.[1] x.[3] x.[5] x.[7] co k Hk) as O.
  destruct (Jh.Sb x.[0] _ _ _ ce) as [[[e0 e1] e2] e3]. destruct (Jh.Sb x.[1] _ _ _ co) as [[[o0 o1] o2] o3].
  rewrite <- !(map_nth (fun z => Z.testbit z k) (Jh.Lb e0 e1 e2 e3 o0 o1 o2 o3) 0), (Lb_bits e0 e1 e2 e3 o0 o1 o2 o3 k), Z.testbit_0_l.
  pose proof (sb_bits_sbox (Z.testbit x.[0] k) (Z.testbit x.[2] k) (Z.testbit x.[4] k) (Z.testbit x.[6] k)
    (Z.testbit ce k)) as E'.
  pose proof (sb_bits_sbox (Z.testbit x.[1] k) (Z.testbit x.[3] k) (Z.testbit x.[5] k) (Z.testbit x.[7] k)
    (Z.testbit co k)) as O'.
  rewrite <- E in E'. rewrite <- O in O'. rewrite <- E', <- O'.
  apply (lb_bits_mds (Z.testbit e0 k) (Z.testbit e1 k) (Z.testbit e2 k) (Z.testbit e3 k)
    (Z.testbit o0 k) (Z.testbit o1 k) (Z.testbit o2 k) (Z.testbit o3 k)).
Qed.

Lemma SL_layer_elem r h k :
  length h = 16%nat -> (k < 128)%nat ->
  (elem (SL_layer r h) k 0, elem (SL_layer r h) k 1) =
  JhSpec.mds (JhSpec.sbox (Ceven r k) (elem h k 0)) (JhSpec.sbox (Codd r k) (elem h k 1)).
Proof.
  intros Hl Hk. rewrite (SL_layer_halves r h Hl). unfold elem, bitof, Ceven, Codd.
  pose proof (Nat.mod_upper_bound k 64 ltac:(lia)) as Hm.
  destruct (Nat.ltb_spec k 64) as [Hlt|Hge].
  - rewrite (Nat.div_small k 64) by assumption. cbn [Nat.mul Nat.add nth].
    refine (eq_trans (half_layer_bits _ _ (map (fun w => h.[2 * w]) (seq 0 8)) _ _) _); [lia|].
    cbv zeta. rewrite !nth_map_seq by lia. reflexivity.
  - replace (k / 64)%nat with 1%nat by (apply (Nat.div_unique k 64 1 (k - 64)); lia).
    cbn [Nat.mul Nat.add nth].
    refine (eq_trans (half_layer_bits _ _ (map (fun w => h.[2 * w + 1]) (seq 0 8)) _ _) _); [lia|].
    cbv zeta. rewrite !nth_map_seq by lia. reflexivity.
Qed.

(** * The swaps *)

(** The mask and shift of the swap [ro]. *)
Definition swap_mask (ro : nat) : Z :=
  [0x5555555555555555; 0x3333333333333333; 0x0F0F0F0F0F0F0F0F;
   0x00FF00FF00FF00FF; 0x0000FFFF0000FFFF; 0x00000000FFFFFFFF].[ro].

Definition swapped (x : Z) (ro : nat) : Z :=
  (Z.shiftr x (2 ^ Z.of_nat ro) &: swap_mask ro) |: SPH_T64 (Z.shiftl (x &: swap_mask ro) (2 ^ Z.of_nat ro)).

(** Where the mask has a bit, the bit comes from above; elsewhere from below. *)
Definition swap_check (ro : nat) (k : Z) : bool :=
  let c := swap_mask ro in
  let n := 2 ^ Z.of_nat ro in
  if Z.testbit c k then negb (Z.testbit c (k - n)) && (Z.lxor k n =? k + n)
  else Z.testbit c (k - n) && (Z.lxor k n =? k - n).

Lemma swap_checks ro k : (ro < 6)%nat -> 0 <= k < 64 -> swap_check ro k = true.
Proof.
  intros Hr Hk. revert k Hk. apply (forallb_below 64 (swap_check ro)).
  do 6 (destruct ro as [|ro]; [vm_compute; reflexivity|]). lia.
Qed.

Lemma testbit_swapped x ro k :
  (ro < 6)%nat -> 0 <= k < 64 ->
  Z.testbit (swapped x ro) k = Z.testbit x (Z.lxor k (2 ^ Z.of_nat ro)).
Proof.
  intros Hr Hk. pose proof (swap_checks ro k Hr Hk) as C. unfold swap_check in C. unfold swapped.
  set (n := 2 ^ Z.of_nat ro) in *. set (c := swap_mask ro) in *.
  assert (Hn : 0 <= n) by (unfold n; apply Z.pow_nonneg; lia). clearbody n c.
  rewrite Z.lor_spec, Z.land_spec, Z.shiftr_spec, testbit_T64, Z.shiftl_spec, Z.land_spec by lia.
  destruct (Z.ltb_spec k 64); [|lia].
  destruct (Z.testbit c k) eqn:E; apply andb_true_iff in C as [C1 C2]; apply Z.eqb_eq in C2; rewrite C2.
  - apply negb_true_iff in C1. rewrite C1. btauto.
  - rewrite C1. btauto.
Qed.

Lemma W_words ro x h :
  (ro < 6)%nat -> 
  Jh.W ro x h = (h.[(2 * x) := swapped h.[2 * x] ro]).[(2 * x + 1) :=
    swapped (h.[(2 * x) := swapped h.[2 * x] ro]).[2 * x + 1] ro].
Proof. intros Hr. do 6 (destruct ro as [|ro]; [reflexivity|]). lia. Qed.

(** The swap as a permutation of bit positions. *)
Definition swap_pos (ro k : nat) : nat := Nat.lxor k (2 ^ ro).

Definition swap_pos_check (ro k : nat) : bool :=
  if (ro <? 6)%nat
  then (swap_pos ro k / 64 =? k / 64)%nat &&
       (Z.of_nat (swap_pos ro k mod 64) =? Z.lxor (Z.of_nat (k mod 64)) (2 ^ Z.of_nat ro))
  else (swap_pos ro k / 64 =? 1 - k / 64)%nat && (swap_pos ro k mod 64 =? k mod 64)%nat.

Definition all_below (n : nat) (f : nat -> bool) : bool := forallb f (seq 0 n).

Lemma all_below_spec n f : all_below n f = true -> forall k, (k < n)%nat -> f k = true.
Proof. unfold all_below. rewrite forallb_forall. intros H k Hk. apply H, in_seq. lia. Qed.

Lemma swap_pos_checks ro k : (ro < 7)%nat -> (k < 128)%nat -> swap_pos_check ro k = true.
Proof.
  intros Hr. revert k. apply (all_below_spec 128 (swap_pos_check ro)). revert ro Hr.
  apply (all_below_spec 7 (fun ro => all_below 128 (swap_pos_check ro))). vm_compute. reflexivity.
Qed.

Lemma nth_upd (l : list Z) i j x :
  (i < length l)%nat -> nth j (l.[i := x]) 0 = if (j =? i)%nat then x else l.[j].
Proof.
  intros H. destruct (Nat.eqb_spec j i) as [->|Hne]; [now apply nth_upd_eq | apply nth_upd_ne; auto].
Qed.

Lemma swap_pos_lt ro k : (ro < 7)%nat -> (k < 128)%nat -> (swap_pos ro k < 128)%nat.
Proof.
  intros Hr Hk. apply Nat.ltb_lt. revert k Hk.
  apply (all_below_spec 128 (fun k => (swap_pos ro k <? 128)%nat)). revert ro Hr.
  apply (all_below_spec 7 (fun ro => all_below 128 (fun k => (swap_pos ro k <? 128)%nat))).
  vm_compute. reflexivity.
Qed.

(** The swap [ro] of word [x] moves bits within that word only. *)
Lemma W_bits ro x h w k :
  length h = 16%nat -> (ro < 7)%nat -> (x < 8)%nat -> (w < 8)%nat -> (k < 128)%nat ->
  length (Jh.W ro x h) = 16%nat /\
  bitof (Jh.W ro x h) w k = if (w =? x)%nat then bitof h w (swap_pos ro k) else bitof h w k.
Proof.
  intros Hl Hr Hx Hw Hk. pose proof (swap_pos_checks ro k Hr Hk) as C. unfold swap_pos_check in C.
  pose proof (Nat.Div0.div_lt_upper_bound k 64 2 ltac:(lia)) as Hd.
  pose proof (Nat.mod_upper_bound k 64 ltac:(lia)) as Hm.
  destruct (Nat.ltb_spec ro 6) as [Hlt|Hge]; apply andb_true_iff in C as [C1 C2]; apply Nat.eqb_eq in C1.
  - rewrite W_words by assumption. split; [now rewrite !length_upd|]. unfold bitof.
    rewrite !nth_upd by (rewrite ?length_upd; lia).
    apply Z.eqb_eq in C2. rewrite C1, C2.
    rewrite <- (testbit_swapped _ ro) by lia.
    destruct (Nat.eqb_spec w x) as [->|Hne].
    + destruct (Nat.eqb_spec (2 * x + 1) (2 * x)); [lia|].
      destruct (Nat.eqb_spec (2 * x + k / 64) (2 * x + 1)) as [E|E].
      * now rewrite E.
      * destruct (Nat.eqb_spec (2 * x + k / 64) (2 * x)) as [E'|E']; [now rewrite E' | lia].
    + destruct (Nat.eqb_spec (2 * w + k / 64) (2 * x + 1)); [lia|].
      destruct (Nat.eqb_spec (2 * w + k / 64) (2 * x)); [lia | reflexivity].
  - replace ro with 6%nat in * by lia. cbn [Jh.W]. unfold Jh.W6. cbv zeta.
    split; [now rewrite !length_upd|]. unfold bitof.
    rewrite !nth_upd by (rewrite ?length_upd; lia).
    apply Nat.eqb_eq in C2. rewrite C1, C2.
    destruct (Nat.eqb_spec w x) as [->|Hne].
    + destruct (Nat.eqb_spec (2 * x + k / 64) (2 * x + 1)) as [E|E].
      * replace (k / 64)%nat with 1%nat by lia. now rewrite Nat.sub_diag, Nat.add_0_r.
      * replace (k / 64)%nat with 0%nat by lia. rewrite Nat.add_0_r, Nat.eqb_refl, Nat.sub_0_r. reflexivity.
    + destruct (Nat.eqb_spec (2 * w + k / 64) (2 * x + 1)); [lia|].
      destruct (Nat.eqb_spec (2 * w + k / 64) (2 * x)); [lia | reflexivity].
Qed.

(** * One round *)

Lemma length_SL_layer r h : length h = 16%nat -> length (SL_layer r h) = 16%nat.
Proof. intros H. rewrite SL_layer_halves by assumption. reflexivity. Qed.

Lemma SLu_swaps r ro h :
  Jh.SLu r ro h = Jh.W ro 7 (Jh.W ro 5 (Jh.W ro 3 (Jh.W ro 1 (SL_layer r h)))).
Proof. cbv beta zeta delta [Jh.SLu SL_layer]. reflexivity. Qed.

(** The four swaps of a round move the elements of the odd words. *)
Lemma SLu_bits r ro h w k :
  length h = 16%nat -> (ro < 7)%nat -> (w < 8)%nat -> (k < 128)%nat ->
  length (Jh.SLu r ro h) = 16%nat /\
  bitof (Jh.SLu r ro h) w k =
  if Nat.even w then bitof (SL_layer r h) w k else bitof (SL_layer r h) w (swap_pos ro k).
Proof.
  intros Hl Hr Hw Hk. rewrite SLu_swaps.
  pose proof (length_SL_layer r h Hl) as L0. generalize dependent (SL_layer r h). intros g L0.
  destruct (W_bits ro 1 g w k L0 Hr ltac:(lia) Hw Hk) as [L1 E1].
  destruct (W_bits ro 3 _ w k L1 Hr ltac:(lia) Hw Hk) as [L2 E2].
  destruct (W_bits ro 5 _ w k L2 Hr ltac:(lia) Hw Hk) as [L3 E3].
  destruct (W_bits ro 7 _ w k L3 Hr ltac:(lia) Hw Hk) as [L4 E4].
  split; [exact L4|]. rewrite E4.
  do 8 (destruct w as [|w]; [
    try rewrite E3; try rewrite E2; try rewrite E1; cbn [Nat.eqb Nat.even];
    clear E1 E2 E3 E4;
    repeat match goal with
    | |- bitof (Jh.W ro ?x ?g') ?v ?j = _ =>
        rewrite (proj2 (W_bits ro x g' v j ltac:(assumption) Hr ltac:(lia) ltac:(lia)
          ltac:(assumption || (apply swap_pos_lt; assumption)))); cbn [Nat.eqb]
    end; reflexivity|]). lia.
Qed.

Lemma SLu_elem r ro h k :
  length h = 16%nat -> (ro < 7)%nat -> (k < 128)%nat ->
  length (Jh.SLu r ro h) = 16%nat /\
  elem (Jh.SLu r ro h) k 0 = elem (SL_layer r h) k 0 /\
  elem (Jh.SLu r ro h) k 1 = elem (SL_layer r h) (swap_pos ro k) 1.
Proof.
  intros Hl Hr Hk. pose proof (fun w Hw => SLu_bits r ro h w k Hl Hr Hw Hk) as E.
  split; [apply (E 0%nat); lia|]. unfold elem.
  rewrite !(fun w Hw => proj2 (E w Hw)) by lia. split; reflexivity.
Qed.

(** * Where the elements are *)

(** Bit positions of the code and of the reference differ by the order of the
    bits in a byte; each round rotates the seven bits of the position. *)
Definition pos (r i : nat) : nat :=
  let x := (i * 2 ^ (r mod 7))%nat in Nat.lxor (x mod 128 + x / 128) 7.

(** Element [j] after the permutation was element [e] before it, and the swaps
    put it where [pos] says. *)
Definition pos_check (r j : nat) : bool :=
  let e := JhSpec.P_src 128 j in
  (e <? 256)%nat && Bool.eqb (Nat.even e) (Nat.even j) && (pos r (e / 2) <? 128)%nat &&
  (pos (S r) (j / 2) <? 128)%nat &&
  ((if Nat.even j then pos (S r) (j / 2) else swap_pos r (pos (S r) (j / 2))) =? pos r (e / 2))%nat.

Lemma pos_checks r j : (r < 7)%nat -> (j < 256)%nat -> pos_check r j = true.
Proof.
  intros Hr. revert j. apply (all_below_spec 256 (pos_check r)). revert r Hr.
  apply (all_below_spec 7 (fun r => all_below 256 (pos_check r))). vm_compute. reflexivity.
Qed.

(** The state [h] of the code before round [r] holds the elements [q]. *)
Definition holds (r : nat) (h : list Z) (q : list Z) : Prop :=
  length h = 16%nat /\ forall j, (j < 256)%nat -> q.[j] = elem h (pos r (j / 2)) (j mod 2).

(** The constant bits of round [r]. *)
Definition constants_at (r : nat) (c : list bool) : Prop :=
  forall j, (j < 256)%nat ->
  nth j c false = if Nat.even j then Ceven r (pos r (j / 2)) else Codd r (pos r (j / 2)).

Lemma nth_flat_map_pair {A B} (f : A -> B * B) l i d d0 :
  (i < length l)%nat ->
  let p := f (nth i l d0) in
  let w := flat_map (fun x => let '(a, b) := f x in [a; b]) l in
  nth (2 * i) w d = fst p /\ nth (2 * i + 1) w d = snd p.
Proof.
  cbv zeta. revert i; induction l as [|x l IH]; intros i Hi; [cbn in Hi; lia|].
  destruct i as [|i]; cbn [flat_map nth length] in *.
  - destruct (f x) as [a b]. split; reflexivity.
  - destruct (IH i ltac:(lia)) as [E1 E2]. destruct (f x) as [a b].
    replace (2 * S i)%nat with (S (S (2 * i))) by lia. cbn [app nth Nat.add]. now split.
Qed.

Lemma round_nth c q j :
  (j < 256)%nat ->
  let e := JhSpec.P_src 128 j in
  let v i := JhSpec.sbox (nth i c false) q.[i] in
  let p := JhSpec.mds (v (2 * (e / 2))%nat) (v (2 * (e / 2) + 1)%nat) in
  (e < 256)%nat ->
  (JhSpec.round 128 c q).[j] = if Nat.even e then fst p else snd p.
Proof.
  intros Hj e v p He. unfold JhSpec.round. cbv zeta. rewrite (nth_map_seq _ (2 * 128) j) by lia.
  fold e. set (vs := map _ _).
  pose proof (nth_flat_map_pair (fun i => JhSpec.mds vs.[2 * i] vs.[2 * i + 1]) (seq 0 128) (e / 2) 0 0%nat) as G.
  assert (H2 : (e / 2 < 128)%nat) by (apply Nat.Div0.div_lt_upper_bound; lia).
  rewrite length_seq in G. destruct (G H2) as [G1 G2]. clear G.
  rewrite seq_nth in G1, G2 by lia. cbn [Nat.add] in G1, G2.
  pose proof (Nat.div_mod_eq e 2) as D. pose proof (Nat.mod_upper_bound e 2 ltac:(lia)) as Dm.
  assert (Hv : forall i, (i < 256)%nat -> vs.[i] = v i) by (intros; unfold vs; now rewrite nth_map_seq by lia).
  rewrite !Hv in G1, G2 by lia. fold p in G1, G2.
  destruct (Nat.even e) eqn:Ev.
  - apply Nat.even_spec in Ev as [k Ek]. replace (e) with (2 * (e / 2))%nat at 1; [exact G1|].
    subst e. rewrite Ek, (Nat.mul_comm 2 k), Nat.div_mul by lia. lia.
  - assert (Ho : e = (2 * (e / 2) + 1)%nat); [|rewrite Ho at 1; exact G2].
    assert (e mod 2 <> 0)%nat; [|lia]. intros H0.
    assert (E : e = (2 * (e / 2))%nat) by lia. rewrite E, Nat.even_mul in Ev. discriminate.
Qed.

Lemma pair_index i :
  (2 * i / 2 = i /\ 2 * i mod 2 = 0)%nat /\ Nat.even (2 * i) = true /\
  ((2 * i + 1) / 2 = i)%nat /\ ((2 * i + 1) mod 2 = 1)%nat /\ Nat.even (2 * i + 1) = false.
Proof.
  assert (E : (2 * i + 1 = 1 + i * 2)%nat) by lia.
  rewrite Nat.even_add, Nat.even_mul, E, Nat.div_add, Nat.Div0.mod_add by lia.
  rewrite (Nat.mul_comm 2 i), Nat.div_mul, Nat.Div0.mod_mul by lia. repeat split.
Qed.

Lemma even_parity j : (j mod 2 = if Nat.even j then 0 else 1)%nat.
Proof.
  pose proof (Nat.mod_upper_bound j 2 ltac:(lia)) as H. pose proof (Nat.div_mod_eq j 2) as E.
  destruct (pair_index (j / 2)) as (_ & V0 & _ & _ & V1).
  destruct (j mod 2)%nat as [|[|?]]; [|rewrite E, V1; reflexivity | lia].
  rewrite E, Nat.add_0_r, V0. reflexivity.
Qed.

Lemma holds_round r h q c :
  holds r h q -> constants_at r c ->
  holds (S r) (Jh.SLu r (r mod 7) h) (JhSpec.round 128 c q).
Proof.
  intros [Hl Hq] Hc. pose proof (Nat.mod_upper_bound r 7 ltac:(lia)) as Hr. split.
  - apply (SLu_elem r (r mod 7) h 0); [assumption | lia | lia].
  - intros j Hj. pose proof (pos_checks (r mod 7) j Hr Hj) as P. unfold pos_check in P.
    assert (Ep : forall i, pos (r mod 7) i = pos r i) by (intros i; unfold pos; now rewrite Nat.Div0.mod_mod).
    assert (Es : forall i, pos (S (r mod 7)) i = pos (S r) i)
      by (intros i; unfold pos; change (S (r mod 7)) with (1 + r mod 7)%nat;
          rewrite Nat.Div0.add_mod_idemp_r; reflexivity).
    rewrite Ep, Es in P. set (e := JhSpec.P_src 128 j) in *.
    repeat (apply andb_true_iff in P as [P ?]). apply Nat.ltb_lt in P.
    match goal with H : Bool.eqb _ _ = true |- _ => apply eqb_prop in H; rename H into Hev end.
    match goal with H : (_ =? _)%nat = true |- _ => apply Nat.eqb_eq in H; rename H into Hpos end.
    repeat match goal with H : (_ <? _)%nat = true |- _ => apply Nat.ltb_lt in H end.
    rewrite round_nth by assumption. fold e. cbv zeta.
    assert (H2 : (e / 2 < 128)%nat) by (apply Nat.Div0.div_lt_upper_bound; lia).
    destruct (pair_index (e / 2)) as ([D0 M0] & V0 & D1 & M1 & V1).
    pose proof (Hc (2 * (e / 2))%nat ltac:(lia)) as C0. pose proof (Hc (2 * (e / 2) + 1)%nat ltac:(lia)) as C1.
    pose proof (Hq (2 * (e / 2))%nat ltac:(lia)) as Q0. pose proof (Hq (2 * (e / 2) + 1)%nat ltac:(lia)) as Q1.
    rewrite D0, V0 in C0. rewrite D1, V1 in C1. rewrite D0, M0 in Q0. rewrite D1, M1 in Q1.
    rewrite C0, C1, Q0, Q1, <- SL_layer_elem by assumption. cbn [fst snd].
    destruct (SLu_elem r (r mod 7) h (pos (S r) (j / 2)) Hl Hr ltac:(assumption)) as (_ & E0 & E1).
    rewrite Hev, (even_parity j). destruct (Nat.even j); [rewrite E0 | rewrite E1]; now rewrite Hpos.
Qed.

(** * The forty-two rounds *)

Definition constant_check (r j : nat) (c : list bool) : bool :=
  Bool.eqb (nth j c false) (if Nat.even j then Ceven r (pos r (j / 2)) else Codd r (pos r (j / 2))).

Lemma constants_spec_bits r : (r < 42)%nat -> constants_at r (nth r JhSpec.constants []).
Proof.
  intros Hr j Hj. apply eqb_prop.
  change (constant_check r j (nth r JhSpec.constants []) = true). revert j Hj.
  apply (all_below_spec 256 (fun j => constant_check r j (nth r JhSpec.constants []))). revert r Hr.
  refine (all_below_spec 42 _ _).
  enough (E : (let cs := JhSpec.constants in
    all_below 42 (fun r => let c := nth r cs [] in all_below 256 (fun j => constant_check r j c))) = true)
    by exact E.
  vm_compute. reflexivity.
Qed.

Lemma E8_rounds h : Jh.E8 h = fold_left (fun h r => Jh.SLu r (r mod 7) h) (seq 0 42) h.
Proof. cbv beta zeta delta [Jh.E8]. cbn [seq fold_left]. reflexivity. Qed.

Lemma E8_small_footprint_eq h : Jh.E8_small_footprint h = Jh.E8 h.
Proof.
  refine (eq_trans _ (eq_sym (E8_rounds h))). cbv beta delta [Jh.E8_small_footprint]. cbn [seq fold_left Nat.add].
  cbv beta zeta. reflexivity.
Qed.

Lemma holds_rounds n r h q :
  (r + n <= 42)%nat -> holds r h q ->
  holds (r + n) (fold_left (fun h r => Jh.SLu r (r mod 7) h) (seq r n) h)
    (fold_left (fun q c => JhSpec.round 128 c q) (firstn n (skipn r JhSpec.constants)) q).
Proof.
  assert (Hlen : length JhSpec.constants = 42%nat) by reflexivity.
  pose proof constants_spec_bits as Hc. generalize dependent JhSpec.constants. intros cs Hlen Hc.
  revert r h q; induction n as [|n IH]; intros r h q Hr H.
  - rewrite Nat.add_0_r. exact H.
  - replace (skipn r cs) with (nth r cs [] :: skipn (S r) cs).
    + cbn [seq firstn]. rewrite !fold_left_cons. replace (r + S n)%nat with (S r + n)%nat by lia.
      apply IH; [lia|]. apply holds_round; [assumption | apply Hc; lia].
    + clear -Hr Hlen. assert (Hl : (r < length cs)%nat) by lia. clear Hr Hlen.
      revert cs Hl; induction r as [|r IH]; intros [|c cs] Hl; cbn [length] in Hl; try lia; [reflexivity|].
      cbn [skipn nth]. apply IH. lia.
Qed.

(** * Words and bits *)

(** The words [h] hold the bit string [A]. *)
Definition represents_bits (h : list Z) (A : list bool) : Prop :=
  length h = 16%nat /\ length A = 1024%nat /\
  forall w p, (w < 8)%nat -> (p < 128)%nat -> JhSpec.bit A (128 * w + p) = bitof h w (Nat.lxor p 7).

Lemma pos_0 i : (i < 128)%nat -> pos 0 i = Nat.lxor i 7.
Proof.
  intros H. apply Nat.eqb_eq. revert i H.
  apply (all_below_spec 128 (fun i => (pos 0 i =? Nat.lxor i 7)%nat)). vm_compute. reflexivity.
Qed.

Definition group_pair (A : list bool) (i : nat) : Z * Z :=
  (JhSpec.nibble (JhSpec.bit A i) (JhSpec.bit A (i + 256)) (JhSpec.bit A (i + 512)) (JhSpec.bit A (i + 768)),
   JhSpec.nibble (JhSpec.bit A (i + 128)) (JhSpec.bit A (i + 384)) (JhSpec.bit A (i + 640)) (JhSpec.bit A (i + 896))).

Lemma group_holds h A : represents_bits h A -> holds 0 h (JhSpec.group A).
Proof.
  intros (Hl & HA & H). split; [assumption|]. intros j Hj.
  assert (H2 : (j / 2 < 128)%nat) by (apply Nat.Div0.div_lt_upper_bound; lia).
  rewrite pos_0, (even_parity j) by assumption.
  change (JhSpec.group A) with (flat_map (fun i => let '(a, b) := group_pair A i in [a; b]) (seq 0 128)).
  destruct (nth_flat_map_pair (group_pair A) (seq 0 128) (j / 2) 0 0%nat) as [E0 E1]; [rewrite length_seq; lia|].
  unfold group_pair in E0 at 2, E1 at 2.
  rewrite seq_nth in E0, E1 by lia. cbn [fst snd Nat.add] in E0, E1.
  pose proof (Nat.div_mod_eq j 2) as D. rewrite (even_parity j) in D. unfold elem.
  assert (Hb : forall w, (w < 8)%nat -> bitof h w (Nat.lxor (j / 2) 7) = JhSpec.bit A (j / 2 + 128 * w))
    by (intros; rewrite <- H by lia; f_equal; lia).
  destruct (Nat.even j); rewrite D at 1.
  - rewrite Nat.add_0_r, E0. rewrite !Hb by lia. cbn [Nat.mul Nat.add]. now rewrite Nat.add_0_r.
  - rewrite E1. rewrite !Hb by lia. reflexivity.
Qed.

(** Division by the sizes, for [lia]. *)
#[local] Ltac Zify.zify_post_hook ::= Z.to_euclidean_division_equations.

Lemma testbit_nibble b3 b2 b1 b0 :
  (Z.testbit (JhSpec.nibble b3 b2 b1 b0) 3 = b3 /\ Z.testbit (JhSpec.nibble b3 b2 b1 b0) 2 = b2) /\
  (Z.testbit (JhSpec.nibble b3 b2 b1 b0) 1 = b1 /\ Z.testbit (JhSpec.nibble b3 b2 b1 b0) 0 = b0).
Proof. destruct b3, b2, b1, b0; repeat split. Qed.

Lemma degroup_represents h q : holds 42 h q -> represents_bits h (JhSpec.degroup q).
Proof.
  intros [Hl H]. split; [assumption|]. split; [unfold JhSpec.degroup; now rewrite length_map, length_seq|].
  intros w p Hw Hp. unfold JhSpec.bit, JhSpec.degroup.
  rewrite nth_map_seq by lia.
  replace ((128 * w + p) mod 128)%nat with p by (clear -Hp; lia).
  replace ((128 * w + p) / 128)%nat with w by (clear -Hp; lia).
  replace ((128 * w + p) / 256)%nat with (w / 2)%nat by (clear -Hp; lia).
  rewrite H by (clear -Hp Hw; lia).
  replace ((2 * p + w mod 2) / 2)%nat with p by (clear; lia).
  replace ((2 * p + w mod 2) mod 2)%nat with (w mod 2)%nat by (clear; lia).
  change (pos 42 p) with (pos 0 p). rewrite pos_0 by assumption. unfold elem.
  do 8 (destruct w as [|w]; [cbn [Nat.div Nat.modulo Nat.divmod fst snd Nat.sub Nat.add]; apply testbit_nibble|]). lia.
Qed.

(** The permutation of the code is E8. *)
Lemma E8_spec h A : represents_bits h A -> represents_bits (Jh.E8 h) (JhSpec.E8 A).
Proof.
  intros H. apply degroup_represents. rewrite E8_rounds.
  pose proof (holds_rounds 42 0 h (JhSpec.group A) ltac:(lia) (group_holds h A H)) as G.
  cbn [skipn Nat.add] in G.
  replace (firstn 42 JhSpec.constants) with JhSpec.constants in G by (symmetry; apply firstn_all2; reflexivity || apply Nat.le_refl).
  exact G.
Qed.
