(* ===== verification/JhHash.v ===== *)
(** The functions of jh.c compute the JH digests of the reference: message
    blocks, block counter, padding with the 128-bit length, output and initial
    values. *)
From Stdlib Require Import ZifyNat.
From S2P Require Import Prelude SphTypes Stream Jh SphSpec JhProofs.

(** * Bits of a block *)

Lemma nth_flat_map_const {A B} (f : A -> list B) (k : nat) l j t d d0 :
  (forall a, length (f a) = k) -> (t < k)%nat -> (j < length l)%nat ->
  nth (k * j + t) (flat_map f l) d = nth t (f (nth j l d0)) d.
Proof.
  intros Hf Ht. revert j; induction l as [|a l IH]; intros [|j] Hj; cbn [length] in Hj; try lia; cbn [flat_map nth].
  - rewrite Nat.mul_0_r, app_nth1 by (rewrite Hf; lia). reflexivity.
  - rewrite app_nth2 by (rewrite Hf; lia). rewrite Hf.
    replace (k * S j + t - k)%nat with (k * j + t)%nat by lia. apply IH. lia.
Qed.

Lemma bit_bits_of b j t :
  (j < length b)%nat -> (t < 8)%nat ->
  JhSpec.bit (JhSpec.bits_of b) (8 * j + t) = Z.testbit b.[j] (7 - Z.of_nat t).
Proof.
  intros Hj Ht. unfold JhSpec.bit, JhSpec.bits_of.
  rewrite (nth_flat_map_const _ 8 b j t false 0) by auto. now rewrite nth_map_seq by lia.
Qed.

Lemma length_bits_of b : length (JhSpec.bits_of b) = (8 * length b)%nat.
Proof. unfold JhSpec.bits_of. now apply length_flat_map_const. Qed.

(** How the bit order within bytes enters: positions [p] and [p xor 7]. *)
Definition order_check (p : nat) : bool :=
  let q := Nat.lxor p 7 in
  (q / 64 =? p / 64)%nat && (q mod 64 / 8 =? p mod 64 / 8)%nat &&
  (q mod 64 mod 8 + p mod 8 =? 7)%nat && (q <? 128)%nat.

Lemma order_facts p :
  (p < 128)%nat ->
  let q := Nat.lxor p 7 in
  (q / 64 = p / 64)%nat /\ (q mod 64 / 8 = p mod 64 / 8)%nat /\ (q mod 64 mod 8 + p mod 8 = 7)%nat /\ (q < 128)%nat.
Proof.
  intros Hp. assert (C : order_check p = true).
  { revert p Hp. apply (all_below_spec 128 order_check). vm_compute. reflexivity. }
  unfold order_check in C. cbv zeta in *. rewrite !andb_true_iff, !Nat.eqb_eq, Nat.ltb_lt in C. tauto.
Qed.

#[local] Ltac Zify.zify_post_hook ::= Z.to_euclidean_division_equations.

Lemma message_bit b w p :
  length b = 64%nat -> bytes b -> (w < 4)%nat -> (p < 128)%nat ->
  bitof (Jh.message_words b) w (Nat.lxor p 7) = JhSpec.bit (JhSpec.bits_of b) (128 * w + p).
Proof.
  intros Hl Hb Hw Hp. destruct (order_facts p Hp) as (E1 & E2 & E3 & E4). cbv zeta in *.
  unfold bitof, Jh.message_words. rewrite E1. set (q := Nat.lxor p 7) in *. clearbody q.
  rewrite nth_map_seq by (clear -Hw Hp; lia). unfold sph_dec64le_aligned, sph_dec64le, load.
  rewrite testbit_le_combine by (try apply Nat2Z.is_nonneg; apply Forall_take, Forall_drop, Hb).
  replace (Z.to_nat (Z.of_nat (q mod 64) / 8)) with (q mod 64 / 8)%nat by (clear; lia).
  replace (Z.of_nat (q mod 64) mod 8) with (Z.of_nat (q mod 64 mod 8)) by (clear; lia).
  rewrite E2, nth_firstn_lt, nth_skipn by (clear; lia).
  replace (128 * w + p)%nat with (8 * (16 * w + p / 8) + p mod 8)%nat by (clear; lia).
  rewrite bit_bits_of by (rewrite ?Hl; clear -Hw Hp; lia).
  f_equal; [f_equal; clear; lia | lia].
Qed.

(** * The block step *)

Lemma input_words m h :
  length h = 16%nat ->
  Jh.INPUT_BUF1 m h = map (fun i => if (i <? 8)%nat then h.[i] ^^ m.[i] else h.[i]) (seq 0 16) /\
  Jh.INPUT_BUF2 m h = map (fun i => if (i <? 8)%nat then h.[i] else h.[i] ^^ m.[i - 8]) (seq 0 16).
Proof. intros Hl. destruct_list_n h. split; reflexivity. Qed.

Lemma bit_xor_bits a b i :
  length a = length b -> JhSpec.bit (JhSpec.xor_bits a b) i = xorb (JhSpec.bit a i) (JhSpec.bit b i).
Proof.
  unfold JhSpec.bit, JhSpec.xor_bits. revert b i; induction a as [|x a IH]; intros [|y b] [|i] H; try discriminate H;
    try reflexivity. cbn [combine map nth]. apply IH. now injection H.
Qed.

Lemma length_xor_bits a b : length (JhSpec.xor_bits a b) = Nat.min (length a) (length b).
Proof. unfold JhSpec.xor_bits. now rewrite length_map, length_combine. Qed.

Lemma bitof_map f w k :
  (w < 8)%nat -> (k < 128)%nat ->
  bitof (map f (seq 0 16)) w k = Z.testbit (f (2 * w + k / 64)%nat) (Z.of_nat (k mod 64)).
Proof. intros Hw Hk. unfold bitof. rewrite nth_map_seq by (clear -Hw Hk; lia). reflexivity. Qed.

Lemma input1_spec h A b :
  represents_bits h A -> length b = 64%nat -> bytes b ->
  represents_bits (Jh.INPUT_BUF1 (Jh.message_words b) h)
    (JhSpec.xor_bits (firstn 512 A) (JhSpec.bits_of b) ++ skipn 512 A).
Proof.
  intros (Hl & HA & H) Hb Hby. pose proof (length_bits_of b) as Lb. rewrite Hb in Lb.
  assert (Lx : length (JhSpec.xor_bits (firstn 512 A) (JhSpec.bits_of b)) = 512%nat)
    by (rewrite length_xor_bits, length_firstn; lia).
  rewrite (proj1 (input_words _ h Hl)). split; [reflexivity|]. split; [rewrite length_app, length_skipn; lia|].
  intros w p Hw Hp. destruct (order_facts p Hp) as (E1 & _ & _ & E4). cbv zeta in *.
  rewrite bitof_map, E1 by assumption. pose proof (H w p Hw Hp) as HH. unfold bitof in HH. rewrite E1 in HH.
  destruct (Nat.ltb_spec (2 * w + p / 64) 8) as [Hlt|Hge].
  - assert (Hw4 : (w < 4)%nat) by (clear -Hlt; lia).
    pose proof (message_bit b w p Hb Hby Hw4 Hp) as M. unfold bitof in M. rewrite E1 in M.
    rewrite Z.lxor_spec, <- HH, M. unfold JhSpec.bit at 1. rewrite app_nth1 by (clear -Lx Hw4 Hp; lia).
    fold (JhSpec.bit (JhSpec.xor_bits (firstn 512 A) (JhSpec.bits_of b)) (128 * w + p)).
    rewrite bit_xor_bits by (rewrite length_firstn; lia). f_equal.
    unfold JhSpec.bit. apply nth_firstn_lt. lia.
  - rewrite <- HH. unfold JhSpec.bit. rewrite app_nth2, Lx, nth_skipn by (clear -Lx Hge Hp; lia).
    f_equal. clear -Hge Hp; lia.
Qed.

Lemma input2_spec h A b :
  represents_bits h A -> length b = 64%nat -> bytes b ->
  represents_bits (Jh.INPUT_BUF2 (Jh.message_words b) h)
    (firstn 512 A ++ JhSpec.xor_bits (skipn 512 A) (JhSpec.bits_of b)).
Proof.
  intros (Hl & HA & H) Hb Hby. pose proof (length_bits_of b) as Lb. rewrite Hb in Lb.
  assert (Lf : length (firstn 512 A) = 512%nat) by (rewrite length_firstn; lia).
  assert (Ls : length (skipn 512 A) = 512%nat) by (rewrite length_skipn; lia).
  rewrite (proj2 (input_words _ h Hl)). split; [reflexivity|].
  split; [rewrite length_app, length_xor_bits; lia|].
  intros w p Hw Hp. destruct (order_facts p Hp) as (E1 & _ & _ & E4). cbv zeta in *.
  rewrite bitof_map, E1 by assumption. pose proof (H w p Hw Hp) as HH. unfold bitof in HH. rewrite E1 in HH.
  destruct (Nat.ltb_spec (2 * w + p / 64) 8) as [Hlt|Hge].
  - rewrite <- HH. unfold JhSpec.bit. rewrite app_nth1 by (rewrite Lf; clear -Hlt Hp; lia).
    apply nth_firstn_lt. clear -Hlt Hp; lia.
  - assert (Hw4 : (w - 4 < 4)%nat) by (clear -Hw; lia). assert (Hw5 : (4 <= w)%nat) by (clear -Hge Hp; lia).
    pose proof (message_bit b (w - 4) p Hb Hby Hw4 Hp) as M. unfold bitof in M. rewrite E1 in M.
    replace (2 * (w - 4) + p / 64)%nat with (2 * w + p / 64 - 8)%nat in M by (clear -Hw5; lia).
    rewrite Z.lxor_spec, <- HH, M. unfold JhSpec.bit at 1. rewrite app_nth2, Lf by (rewrite Lf; clear -Hw5; lia).
    fold (JhSpec.bit (JhSpec.xor_bits (skipn 512 A) (JhSpec.bits_of b)) (128 * w + p - 512)).
    rewrite bit_xor_bits by (rewrite Ls, Lb; reflexivity).
    replace (128 * w + p - 512)%nat with (128 * (w - 4) + p)%nat by (clear -Hw5; lia). f_equal.
    unfold JhSpec.bit. rewrite nth_skipn. f_equal. clear -Hw5; lia.
Qed.

Lemma jh_block_spec h c A b :
  represents_bits h A -> length b = 64%nat -> bytes b ->
  represents_bits (fst (Jh.jh_block (h, c) b)) (JhSpec.F8 A b).
Proof.
  intros H Hl Hb. unfold Jh.jh_block, JhSpec.F8. cbv zeta. cbn [fst].
  apply input2_spec; auto. apply E8_spec. now apply input1_spec.
Qed.

(** * Contexts *)

(** The block step of the reference, with the number of blocks so far. *)
Definition spec_block (st : list bool * Z) (b : list Z) : list bool * Z :=
  let '(A, n) := st in (JhSpec.F8 A b, n + 1).

Definition block_related (st : list Z * Z) (sp : list bool * Z) : Prop :=
  represents_bits (fst st) (fst sp) /\ snd st = snd sp mod 2 ^ 64.

Lemma jh_block_related st sp b :
  block_related st sp -> length b = 64%nat -> bytes b -> block_related (Jh.jh_block st b) (spec_block sp b).
Proof.
  destruct st as [h c], sp as [A n]. intros [H1 H2] Hl Hb. split.
  - now apply jh_block_spec.
  - cbn [Jh.jh_block snd spec_block] in *. now rewrite H2, T64_count, SPH_T64_mod.
Qed.

Lemma jh_blocks_absorb k A n m :
  length m = (k * 64)%nat ->
  absorb 64 spec_block (A, n) m = ((JhSpec.compress_blocks k A m, n + Z.of_nat k), []).
Proof.
  revert A n m; induction k as [|k IH]; intros A n m Hm.
  - apply length_zero_iff_nil in Hm as ->. rewrite absorb_short by (cbn [length]; lia).
    now rewrite Z.add_0_r.
  - rewrite absorb_block by lia. cbn [spec_block JhSpec.compress_blocks].
    rewrite IH by (rewrite length_skipn; lia).
    replace (n + 1 + Z.of_nat k) with (n + Z.of_nat (S k)) by lia. reflexivity.
Qed.

Lemma jh_absorb_count A n m :
  snd (fst (absorb 64 spec_block (A, n) m)) = n + Z.of_nat (length m / 64).
Proof.
  remember (A, n) as st eqn:E. revert A n E. revert st m.
  apply (absorb_ind 64 spec_block ltac:(lia) (fun st m => forall A n, st = (A, n) ->
    snd (fst (absorb 64 spec_block st m)) = n + Z.of_nat (length m / 64))).
  - intros st m Hm A n ->. rewrite absorb_short, Nat.div_small by lia. cbn [fst snd]; lia.
  - intros st b m Hb IH A n ->. rewrite absorb_block_app by lia.
    rewrite (IH _ _ eq_refl), length_app, Hb. clear; lia.
Qed.

Definition jh_rep (iv : list Z) (c : Jh.sph_jh_context) (m : list Z) : Prop :=
  bytes m /\ represents 64 Jh.jh_block 64 (iv, 0) (Jh.buf c) (Jh.ptr c) (Jh.wide c, Jh.block_count c) m.

Lemma jh_init_rep iv c : length (Jh.buf c) = 64%nat -> jh_rep iv (Jh.jh_init c iv) [].
Proof. intros H. split; [constructor|]. apply represents_nil; lia || exact H. Qed.

(** [jh_core] appends its data to the message of the context. *)
Lemma jh_core_rep iv c m data :
  bytes data -> jh_rep iv c m -> jh_rep iv (Jh.jh_core c data) (m ++ data).
Proof.
  intros Hd [Hm Hr]. split; [now apply Forall_app|].
  unfold Jh.jh_core. destruct (Nat.ltb_spec (length data) (64 - Jh.ptr c)).
  - apply (short_copy_represents 64 _ ltac:(lia) 64); [lia | exact Hr | assumption].
  - pose proof (core_loop_represents 64 Jh.jh_block ltac:(lia) 64 ltac:(lia)
      (fun st b => full_exact 64 Jh.jh_block st b) _ _ _ _ _ data Hr) as G.
    destruct (core_loop _ _ _ _ _ _ _) as [[b' p'] [h' c']]. exact G.
Qed.

(** The chaining words, the counter and the fill level of a context. *)
Lemma jh_rep_state iv A0 c m :
  represents_bits iv A0 -> jh_rep iv c m ->
  represents_bits (Jh.wide c) (fst (fst (absorb 64 spec_block (A0, 0) m))) /\
  Jh.block_count c = Z.of_nat (length m / 64) mod 2 ^ 64 /\ Jh.ptr c = (length m mod 64)%nat.
Proof.
  intros Hiv [Hm Hr].
  assert (R : block_related (Jh.wide c, Jh.block_count c) (fst (absorb 64 spec_block (A0, 0) m))).
  { destruct Hr as (_ & _ & E).
    replace (Jh.wide c, Jh.block_count c) with (fst (absorb 64 Jh.jh_block (iv, 0) m)) by now rewrite E.
    apply (absorb_rel 64 Jh.jh_block spec_block block_related (word 8)); auto; [lia| |].
    - intros; now apply jh_block_related.
    - now split. }
  destruct R as [R1 R2]. split; [exact R1|]. split.
  - cbn [snd] in R2. rewrite R2, jh_absorb_count. reflexivity.
  - exact (represents_length 64 _ ltac:(lia) 64 ltac:(lia) _ _ _ _ _ Hr).
Qed.

(** * Padding *)

(** The block counter has 64 bits. *)
Definition jh_message (m : list Z) : Prop := Z.of_nat (length m) < 2 ^ 70.

Lemma jh_padding_spec iv A0 c m :
  represents_bits iv A0 -> jh_rep iv c m -> jh_message m ->
  m ++ Jh.jh_padding c 0 0 = JhSpec.pad m.
Proof.
  intros Hiv Hr Hok. destruct (jh_rep_state iv A0 c m Hiv Hr) as (_ & Hc & Hp).
  unfold jh_message in Hok. unfold Jh.jh_padding, JhSpec.pad. cbv zeta. rewrite Hc, Hp. clear Hc Hp Hr Hiv.
  generalize dependent (length m). intros l Hok.
  rewrite Z.mod_small by (clear -Hok; lia).
  change (((0 &: - Z.shiftr 128 0) |: Z.shiftr 128 0) &: 255) with 0x80.
  apply (f_equal (app m)), (f_equal (cons 0x80)). apply (f_equal2 (@app Z)).
  - f_equal. rewrite Z.eqb_refl, andb_true_r.
    destruct (Nat.eqb_spec (l mod 64) 0) as [E|E]; clear -E; lia.
  - rewrite !enc64be_T64, (le_split_app 8 8), rev_app_distr. apply (f_equal2 (@app Z)).
    + do 2 f_equal. rewrite !Z.shiftr_div_pow2 by lia. clear; change (2 ^ (8 * Z.of_nat 8)) with (2 ^ 64); lia.
    + f_equal. rewrite <- (le_split_mod 8 (_ + _)), <- (le_split_mod 8 (8 * _)). f_equal.
      rewrite SPH_T64_mod, !Z.shiftl_mul_pow2, Z.add_0_r, Zplus_mod_idemp_l by lia. f_equal. clear; lia.
Qed.

Lemma length_pad_whole m : (length (JhSpec.pad m) mod 64 = 0)%nat.
Proof.
  unfold JhSpec.pad. rewrite !length_app, repeat_length, length_rev, length_le_split. cbn [length].
  generalize (length m). clear; intros l. lia.
Qed.

Lemma bytes_jh_padding c : bytes (Jh.jh_padding c 0 0).
Proof.
  unfold Jh.jh_padding. cbv zeta.
  change (((0 &: - Z.shiftr 128 0) |: Z.shiftr 128 0) &: 255) with 0x80. apply Forall_app; split.
  - apply Forall_cons; [auto with word | apply Forall_nil].
  - apply Forall_app; split.
    + apply Forall_forall. intros x Hx. apply repeat_spec in Hx as ->. auto with word.
    + apply Forall_app; split; rewrite enc64be_T64; apply Forall_rev, bytes_le_split.
Qed.

(** * Output *)

Definition byte_of_bits (l : list bool) : Z := fold_left (fun acc b => 2 * acc + Z.b2z b) l 0.

Lemma nth_bytes_of n l t :
  (t < n)%nat -> (JhSpec.bytes_of n l).[t] = byte_of_bits (firstn 8 (skipn (8 * t) l)).
Proof.
  revert l t; induction n as [|n IH]; intros l [|t] Ht; try lia; [reflexivity|].
  cbn [JhSpec.bytes_of nth]. rewrite IH, skipn_skipn by lia. do 3 f_equal. lia.
Qed.

Lemma length_bytes_of n l : length (JhSpec.bytes_of n l) = n.
Proof. revert l; induction n as [|n IH]; intros l; cbn [JhSpec.bytes_of length]; auto. Qed.

Lemma skipn_bytes_of k n l : skipn k (JhSpec.bytes_of (k + n) l) = JhSpec.bytes_of n (skipn (8 * k) l).
Proof.
  revert l; induction k as [|k IH]; intros l; [reflexivity|].
  replace (8 * S k)%nat with (8 * k + 8)%nat by lia. rewrite <- skipn_skipn, <- IH. reflexivity.
Qed.

Lemma byte_of_bits_app l b : byte_of_bits (l ++ [b]) = 2 * byte_of_bits l + Z.b2z b.
Proof. unfold byte_of_bits. now rewrite fold_left_app. Qed.

Lemma byte_of_bits_word l : word (Z.of_nat (length l)) (byte_of_bits l).
Proof.
  induction l as [|b l IH] using rev_ind; [split; reflexivity || lia|].
  rewrite byte_of_bits_app, length_app, Nat2Z.inj_add. unfold word in *. cbn [length].
  rewrite Z.pow_add_r by lia. change (2 ^ Z.of_nat 1) with 2. destruct b; cbn [Z.b2z]; lia.
Qed.

Lemma testbit_byte_of_bits l k :
  (k < length l)%nat -> Z.testbit (byte_of_bits l) (Z.of_nat k) = nth (length l - 1 - k) l false.
Proof.
  revert k; induction l as [|b l IH] using rev_ind; intros k Hk; [cbn in Hk; lia|].
  rewrite byte_of_bits_app, length_app in *. cbn [length] in *. destruct k as [|k].
  - rewrite Z.testbit_0_r, app_nth2 by lia.
    replace (length l + 1 - 1 - 0 - length l)%nat with 0%nat by lia. reflexivity.
  - rewrite Nat2Z.inj_succ, Z.testbit_succ_r, IH, app_nth1 by lia. f_equal. lia.
Qed.

Lemma byte_of_bits_spec l x :
  length l = 8%nat -> is_byte x ->
  (forall k, (k < 8)%nat -> nth (7 - k) l false = Z.testbit x (Z.of_nat k)) -> byte_of_bits l = x.
Proof.
  intros Hl Hx H. apply (word_ext 8); [lia | | assumption |].
  - pose proof (byte_of_bits_word l) as W. now rewrite Hl in W.
  - intros i Hi. rewrite <- (Z2Nat.id i) by lia. rewrite <- H, testbit_byte_of_bits, Hl by lia. reflexivity.
Qed.

(** Bit [k] of byte [t] of the output. *)
Definition output_check (t k : nat) : bool :=
  let w := (4 + t / 16)%nat in
  let p := (8 * (t mod 16) + (7 - k))%nat in
  let q := Nat.lxor p 7 in
  (512 + 8 * t + (7 - k) =? 128 * w + p)%nat && (p <? 128)%nat &&
  (2 * w + q / 64 =? 8 + t / 8)%nat && (q mod 64 =? 8 * (t mod 8) + k)%nat.

Lemma output_checks t k : (t < 64)%nat -> (k < 8)%nat -> output_check t k = true.
Proof.
  intros Ht. revert k. apply (all_below_spec 8 (output_check t)). revert t Ht.
  apply (all_below_spec 64 (fun t => all_below 8 (output_check t))). vm_compute. reflexivity.
Qed.

Lemma output_bytes h A :
  represents_bits h A ->
  flat_map (fun u => sph_enc64le h.[u + 8]) (seq 0 8) = JhSpec.bytes_of 64 (skipn 512 A).
Proof.
  intros (Hl & HA & H).
  assert (Lo : length (flat_map (fun u => sph_enc64le h.[u + 8]) (seq 0 8)) = 64%nat)
    by (rewrite (length_flat_map_const _ 8); [reflexivity | intros; apply length_le_split]).
  apply (list_ext 0); [now rewrite length_bytes_of|]. rewrite Lo. intros t Ht.
  rewrite nth_bytes_of, skipn_skipn by assumption. symmetry. apply byte_of_bits_spec.
  - rewrite length_firstn, length_skipn, HA. clear -Ht; lia.
  - apply Forall_nth_default; [|auto with word]. apply Forall_flat_map, Forall_forall.
    intros u _. apply bytes_le_split.
  - intros k Hk. rewrite nth_firstn_lt, nth_skipn by (clear; lia).
    pose proof (output_checks t k Ht Hk) as C. unfold output_check in C. cbv zeta in C.
    rewrite !andb_true_iff, !Nat.eqb_eq, Nat.ltb_lt in C. destruct C as (((C1 & C2) & C3) & C4).
    rewrite (Nat.add_comm (8 * t) 512), C1. fold (JhSpec.bit A (128 * (4 + t / 16) + (8 * (t mod 16) + (7 - k)))).
    rewrite H by (assumption || (clear -Ht; lia)). unfold bitof. rewrite C3, C4.
    replace t with (8 * (t / 8) + t mod 8)%nat at 3 by (clear; lia).
    rewrite (nth_flat_map_const _ 8 (seq 0 8) (t / 8) (t mod 8) 0 0%nat);
      [|intros; apply length_le_split | clear; lia | rewrite length_seq; clear -Ht; lia].
    rewrite seq_nth by (clear -Ht; lia). change (0 + t / 8)%nat with (t / 8)%nat.
    unfold sph_enc64le, store. rewrite le_split_shiftr, nth_map_seq, uchar_mod by (clear; lia).
    change 256 with (2 ^ 8). rewrite testbit_mod by (clear; lia).
    destruct (Z.ltb_spec (Z.of_nat k) 8); [|lia]. rewrite Z.shiftr_spec by (clear; lia). cbn [andb].
    rewrite (Nat.add_comm 8 (t / 8)). f_equal. clear; lia.
Qed.

(** * The four digest functions *)

Definition iv_check (h : list Z) (A : list bool) : bool :=
  (length h =? 16)%nat && (length A =? 1024)%nat &&
  all_below 8 (fun w => all_below 128 (fun p =>
    Bool.eqb (JhSpec.bit A (128 * w + p)) (bitof h w (Nat.lxor p 7)))).

Lemma iv_check_spec h A : iv_check h A = true -> represents_bits h A.
Proof.
  unfold iv_check. rewrite !andb_true_iff, !Nat.eqb_eq. intros [[H1 H2] H3]. split; [assumption|].
  split; [assumption|]. intros w p Hw Hp. apply eqb_prop.
  exact (all_below_spec 128 _ (all_below_spec 8 _ H3 w Hw) p Hp).
Qed.

Lemma jh_IV_spec :
  represents_bits Jh.IV224 (JhSpec.iv 28) /\ represents_bits Jh.IV256 (JhSpec.iv 32) /\
  represents_bits Jh.IV384 (JhSpec.iv 48) /\ represents_bits Jh.IV512 (JhSpec.iv 64).
Proof.
  split; [|split; [|split]]; (apply iv_check_spec; vm_compute; reflexivity).
Qed.

Lemma jh_close_rep iv d n c m :
  d = (4 * n)%nat -> (n <= 16)%nat -> represents_bits iv (JhSpec.iv d) -> jh_rep iv c m -> jh_message m ->
  fst (Jh.jh_close c 0 0 n iv) = JhSpec.jh d m /\ jh_rep iv (snd (Jh.jh_close c 0 0 n iv)) [].
Proof.
  intros Hd Hn Hiv Hr Hok. unfold Jh.jh_close. cbv zeta.
  pose proof (jh_core_rep iv c m _ (bytes_jh_padding c) Hr) as Hc.
  rewrite (jh_padding_spec iv _ c m Hiv Hr Hok) in Hc. set (c' := Jh.jh_core c _) in *. cbn [fst snd].
  split; [|apply jh_init_rep; apply Hc].
  destruct (jh_rep_state iv _ c' _ Hiv Hc) as (Hs & _ & _).
  pose proof (length_pad_whole m) as Hl.
  rewrite (jh_blocks_absorb (length (JhSpec.pad m) / 64)) in Hs by (clear -Hl; lia). cbn [fst] in Hs.
  unfold JhSpec.jh. cbv zeta. rewrite (output_bytes _ _ Hs).
  set (A := JhSpec.compress_blocks _ _ _) in *. clearbody A.
  replace 64%nat with (4 * (16 - n) + d)%nat at 1 by lia.
  rewrite skipn_bytes_of, skipn_skipn, firstn_all2 by (rewrite length_bytes_of; lia).
  f_equal. f_equal. lia.
Qed.

Definition jh224_ops (c0 : Jh.sph_jh_context) : hash_ops Jh.sph_jh_context :=
  {| hash_init := Jh.sph_jh224_init c0; hash_update := Jh.sph_jh224; hash_close := Jh.sph_jh224_close |}.

Definition jh256_ops (c0 : Jh.sph_jh_context) : hash_ops Jh.sph_jh_context :=
  {| hash_init := Jh.sph_jh256_init c0; hash_update := Jh.sph_jh256; hash_close := Jh.sph_jh256_close |}.

Definition jh384_ops (c0 : Jh.sph_jh_context) : hash_ops Jh.sph_jh_context :=
  {| hash_init := Jh.sph_jh384_init c0; hash_update := Jh.sph_jh384; hash_close := Jh.sph_jh384_close |}.

Definition jh512_ops (c0 : Jh.sph_jh_context) : hash_ops Jh.sph_jh_context :=
  {| hash_init := Jh.sph_jh512_init c0; hash_update := Jh.sph_jh512; hash_close := Jh.sph_jh512_close |}.

Lemma jh_stream iv d n (ops : hash_ops Jh.sph_jh_context) c0 :
  d = (4 * n)%nat -> (n <= 16)%nat -> represents_bits iv (JhSpec.iv d) -> length (Jh.buf c0) = 64%nat ->
  hash_init ops = Jh.jh_init c0 iv -> hash_update ops = Jh.jh_core ->
  (forall c, hash_close ops c = Jh.jh_close c 0 0 n iv) ->
  StreamHash ops jh_message (JhSpec.jh d).
Proof.
  intros Hd Hn Hiv Hb Ei Eu Ec. exists (jh_rep iv).
  - rewrite Ei. now apply jh_init_rep.
  - intros c m data Hdata Hc. rewrite Eu. now apply jh_core_rep.
  - intros c m Hc Hok. rewrite Ec. now apply jh_close_rep.
Qed.

#[export] Instance jh224_stream c0 (H : length (Jh.buf c0) = 64%nat) :
  StreamHash (jh224_ops c0) jh_message (JhSpec.jh 28) :=
  jh_stream Jh.IV224 28 7 (jh224_ops c0) c0 eq_refl ltac:(lia) (proj1 jh_IV_spec) H eq_refl eq_refl (fun _ => eq_refl).

#[export] Instance jh256_stream c0 (H : length (Jh.buf c0) = 64%nat) :
  StreamHash (jh256_ops c0) jh_message (JhSpec.jh 32) :=
  jh_stream Jh.IV256 32 8 (jh256_ops c0) c0 eq_refl ltac:(lia) (proj1 (proj2 jh_IV_spec)) H eq_refl eq_refl (fun _ => eq_refl).

#[export] Instance jh384_stream c0 (H : length (Jh.buf c0) = 64%nat) :
  StreamHash (jh384_ops c0) jh_message (JhSpec.jh 48) :=
  jh_stream Jh.IV384 48 12 (jh384_ops c0) c0 eq_refl ltac:(lia) (proj1 (proj2 (proj2 jh_IV_spec))) H eq_refl eq_refl (fun _ => eq_refl).

#[export] Instance jh512_stream c0 (H : length (Jh.buf c0) = 64%nat) :
  StreamHash (jh512_ops c0) jh_message (JhSpec.jh 64) :=
  jh_stream Jh.IV512 64 16 (jh512_ops c0) c0 eq_refl ltac:(lia) (proj2 (proj2 (proj2 jh_IV_spec))) H eq_refl eq_refl (fun _ => eq_refl).

(** * The claims *)

(** The digests: whatever the uninitialised context held and however a message
    of less than 2^70 bytes is cut into updates, the four functions of jh.c return
    its JH digest; the initial values in the code are those the reference
    computes. *)
Theorem jh_digests c0 pieces :
  length (Jh.buf c0) = 64%nat -> Forall (fun p => bytes p) pieces -> jh_message (concat pieces) ->
  digest_of (jh224_ops c0) pieces = JhSpec.jh 28 (concat pieces) /\
  digest_of (jh256_ops c0) pieces = JhSpec.jh 32 (concat pieces) /\
  digest_of (jh384_ops c0) pieces = JhSpec.jh 48 (concat pieces) /\
  digest_of (jh512_ops c0) pieces = JhSpec.jh 64 (concat pieces).
Proof.
  intros Hc Hp Hs. repeat split.
  - exact (chunked_digest (StreamHash0 := jh224_stream c0 Hc) pieces Hp Hs).
  - exact (chunked_digest (StreamHash0 := jh256_stream c0 Hc) pieces Hp Hs).
  - exact (chunked_digest (StreamHash0 := jh384_stream c0 Hc) pieces Hp Hs).
  - exact (chunked_digest (StreamHash0 := jh512_stream c0 Hc) pieces Hp Hs).
Qed.

Definition jh_blank : Jh.sph_jh_context :=
  {| Jh.buf := repeat 0 64; Jh.ptr := 0; Jh.wide := []; Jh.block_count := 0 |}.

Lemma jh_digests_witness :
  digest_of (jh512_ops jh_blank) [[97]; []; [98; 99]] = JhSpec.jh 64 [97; 98; 99].
Proof.
  refine (proj2 (proj2 (proj2 (jh_digests jh_blank [[97]; []; [98; 99]] _ _ _)))).
  - reflexivity.
  - repeat apply Forall_cons; try apply Forall_nil; split; [lia|reflexivity|lia|reflexivity|lia|reflexivity].
  - unfold jh_message. cbn [concat app length]. lia.
Defined.

(** The bitsliced permutation: on words that hold a 1024-bit string, the
    unrolled E8 of the code and its small-footprint loop leave words that hold the
    reference permutation of that string: the 42 rounds of S-boxes, linear code and
    element permutation, with the round constants generated by the reference. *)
Theorem jh_permutation h A :
  represents_bits h A ->
  represents_bits (Jh.E8 h) (JhSpec.E8 A) /\ Jh.E8_small_footprint h = Jh.E8 h.
Proof. intros H. split; [now apply E8_spec | apply E8_small_footprint_eq]. Qed.

Lemma jh_permutation_witness : represents_bits (Jh.E8 Jh.IV512) (JhSpec.E8 (JhSpec.iv 64)).
Proof. refine (proj1 (jh_permutation Jh.IV512 (JhSpec.iv 64) _)). apply iv_check_spec. vm_compute. reflexivity. Defined.

(** The first bytes of the published digest of the empty message. *)
Example jh512_empty :
  firstn 8 (digest_of (jh512_ops jh_blank) []) =
  [0x90; 0xec; 0xf2; 0xf7; 0x6f; 0x9d; 0x2c; 0x80].
Proof. vm_compute; reflexivity. Qed.
