(* ===== verification/ArithUint.v ===== *)
(** Model of src/src/arith_uint256.h and arith_uint256.cpp: the template
    [base_uint<BITS>] of unsigned integers kept as an array [pn] of
    [WIDTH = BITS / 32] words of 32 bits, the least significant first, and the
    compact encoding of [arith_uint256]. An integer is its array [pn]; a member
    function that changes its object returns the new array. [throw uint_error] is
    the result [None]. *)
From S2P Require Import Prelude SphTypes.

Module ArithUint.

(** Conversion to [uint32_t] and [uint64_t]. *)
Definition u32 (x : Z) : Z := x mod 2 ^ 32.
Definition u64 (x : Z) : Z := x mod 2 ^ 64.

Section Template.
Context (WIDTH : nat).

(** [base_uint()]. *)
Definition base_uint_zero : list Z := repeat 0 WIDTH.

(** [base_uint(uint64_t b)] and [operator=(uint64_t b)]. *)
Definition base_uint_of_u64 (b : Z) : list Z :=
  fold_left (fun pn i => pn.[i := 0]) (seq 2 (WIDTH - 2))
    (base_uint_zero.[0 := u32 b]).[1 := u32 (Z.shiftr b 32)].

(** [operator!] and [IsNull]. *)
Definition IsNull (pn : list Z) : bool := forallb (fun i => pn.[i] =? 0) (seq 0 WIDTH).

Definition op_not (pn : list Z) : list Z :=
  fold_left (fun ret i => ret.[i := u32 (Z.lnot pn.[i])]) (seq 0 WIDTH) base_uint_zero.

(** [while (++pn[i] == 0 && i < WIDTH-1) i++]: at most [WIDTH] steps. *)
Fixpoint incr_from (fuel i : nat) (pn : list Z) : list Z :=
  match fuel with
  | O => pn
  | S fuel' =>
      let pn := pn.[i := u32 (pn.[i] + 1)] in
      if (pn.[i] =? 0) && (i <? WIDTH - 1)%nat then incr_from fuel' (S i) pn else pn
  end.
Definition op_incr (pn : list Z) : list Z := incr_from WIDTH 0 pn.

Fixpoint decr_from (fuel i : nat) (pn : list Z) : list Z :=
  match fuel with
  | O => pn
  | S fuel' =>
      let pn := pn.[i := u32 (pn.[i] - 1)] in
      if (pn.[i] =? u32 (-1)) && (i <? WIDTH - 1)%nat then decr_from fuel' (S i) pn else pn
  end.
Definition op_decr (pn : list Z) : list Z := decr_from WIDTH 0 pn.

(** Unary [operator-]: complement and increment. *)
Definition op_neg (pn : list Z) : list Z := op_incr (op_not pn).

Definition op_xor (pn b : list Z) : list Z :=
  fold_left (fun pn i => pn.[i := pn.[i] ^^ b.[i]]) (seq 0 WIDTH) pn.
Definition op_and (pn b : list Z) : list Z :=
  fold_left (fun pn i => pn.[i := pn.[i] &: b.[i]]) (seq 0 WIDTH) pn.
Definition op_or (pn b : list Z) : list Z :=
  fold_left (fun pn i => pn.[i := pn.[i] |: b.[i]]) (seq 0 WIDTH) pn.

(** [operator^=(uint64_t)] and [operator|=(uint64_t)]: the two low words only. *)
Definition op_xor_u64 (pn : list Z) (b : Z) : list Z :=
  let pn := pn.[0 := pn.[0] ^^ u32 b] in
  pn.[1 := pn.[1] ^^ u32 (Z.shiftr b 32)].
Definition op_or_u64 (pn : list Z) (b : Z) : list Z :=
  let pn := pn.[0 := pn.[0] |: u32 b] in
  pn.[1 := pn.[1] |: u32 (Z.shiftr b 32)].

Definition op_add (pn b : list Z) : list Z :=
  fst (fold_left (fun '(pn, carry) i =>
    let n := u64 (carry + pn.[i] + b.[i]) in
    (pn.[i := n &: 0xffffffff], Z.shiftr n 32)) (seq 0 WIDTH) (pn, 0)).

Definition op_sub (pn b : list Z) : list Z := op_add pn (op_neg b).

(** [operator+=(uint64_t)] and [operator-=(uint64_t)]. *)
Definition op_add_u64 (pn : list Z) (b64 : Z) : list Z :=
  let b := base_uint_of_u64 b64 in op_add pn b.
Definition op_sub_u64 (pn : list Z) (b64 : Z) : list Z :=
  let b := base_uint_of_u64 b64 in op_add pn (op_neg b).

(** [operator<<=]: the words of the copy [a] are or-ed into a cleared array. *)
Definition op_shl (a : list Z) (shift : nat) : list Z :=
  let k := (shift / 32)%nat in
  let shift := (shift mod 32)%nat in
  fold_left (fun pn i =>
    let pn := if ((i + k + 1 <? WIDTH)%nat && negb (shift =? 0)%nat)%bool
              then pn.[(i + k + 1) := pn.[i + k + 1] |: Z.shiftr a.[i] (Z.of_nat (32 - shift))] else pn in
    if (i + k <? WIDTH)%nat
    then pn.[(i + k) := pn.[i + k] |: u32 (Z.shiftl a.[i] (Z.of_nat shift))] else pn)
    (seq 0 WIDTH) base_uint_zero.

Definition op_shr (a : list Z) (shift : nat) : list Z :=
  let k := (shift / 32)%nat in
  let shift := (shift mod 32)%nat in
  fold_left (fun pn i =>
    let pn := if ((k + 1 <=? i)%nat && negb (shift =? 0)%nat)%bool
              then pn.[(i - k - 1) := pn.[i - k - 1] |: u32 (Z.shiftl a.[i] (Z.of_nat (32 - shift)))] else pn in
    if (k <=? i)%nat
    then pn.[(i - k) := pn.[i - k] |: Z.shiftr a.[i] (Z.of_nat shift)] else pn)
    (seq 0 WIDTH) base_uint_zero.

(** [operator*=(uint32_t)]. *)
Definition op_mul32 (pn : list Z) (b32 : Z) : list Z :=
  fst (fold_left (fun '(pn, carry) i =>
    let n := u64 (carry + b32 * pn.[i]) in
    (pn.[i := n &: 0xffffffff], Z.shiftr n 32)) (seq 0 WIDTH) (pn, 0)).

(** [operator*=(const base_uint&)]; row [j] of the multiplication. *)
Definition mul_row (pn b : list Z) (j : nat) (a : list Z) : list Z :=
  fst (fold_left (fun '(a, carry) i =>
    let n := u64 (carry + a.[i + j] + pn.[j] * b.[i]) in
    (a.[(i + j) := n &: 0xffffffff], Z.shiftr n 32)) (seq 0 (WIDTH - j)) (a, 0)).
Definition op_mul (pn b : list Z) : list Z :=
  fold_left (fun a j => mul_row pn b j a) (seq 0 WIDTH) base_uint_zero.

(** [CompareTo]: -1, 0 or 1; [n] words are left to compare. *)
Fixpoint compare_from (n : nat) (pn b : list Z) : Z :=
  match n with
  | O => 0
  | S i => if pn.[i] <? b.[i] then -1 else if b.[i] <? pn.[i] then 1 else compare_from i pn b
  end.
Definition CompareTo (pn b : list Z) : Z := compare_from WIDTH pn b.

Definition EqualTo (pn : list Z) (b : Z) : bool :=
  if existsb (fun i => negb (pn.[i] =? 0)) (seq 2 (WIDTH - 2)) then false
  else if negb (pn.[1] =? Z.shiftr b 32) then false
  else if negb (pn.[0] =? (b &: 0xffffffff)) then false
  else true.

(** The loop [for (int bits = 31; bits > 0; bits--)] of [bits]. *)
Fixpoint top_bit (bits : nat) (w : Z) : option nat :=
  match bits with
  | O => None
  | S b' => if negb ((w &: Z.shiftl 1 (Z.of_nat bits)) =? 0) then Some bits else top_bit b' w
  end.
Fixpoint bits_from (n : nat) (pn : list Z) : nat :=
  match n with
  | O => 0
  | S pos =>
      if negb (pn.[pos] =? 0)
      then match top_bit 31 pn.[pos] with
           | Some bits => 32 * pos + bits + 1
           | None => 32 * pos + 1
           end
      else bits_from pos pn
  end.
Definition bits (pn : list Z) : nat := bits_from WIDTH pn.

(** [while (shift >= 0)] of [operator/=]: [n] is [shift + 1]. *)
Fixpoint div_loop (n : nat) (quot num div : list Z) : list Z * list Z :=
  match n with
  | O => (quot, num)
  | S shift =>
      let '(quot, num) :=
        if 0 <=? CompareTo num div
        then (quot.[(shift / 32) := quot.[shift / 32] |: Z.shiftl 1 (Z.of_nat (shift mod 32))],
              op_sub num div)
        else (quot, num) in
      div_loop shift quot num (op_shr div 1)
  end.

(** [operator/=]; the remainder is dropped. *)
Definition op_div (pn b : list Z) : option (list Z) :=
  let div := b in
  let num := pn in
  let quot := base_uint_of_u64 0 in
  let num_bits := bits num in
  let div_bits := bits div in
  if (div_bits =? 0)%nat then None
  else if (num_bits <? div_bits)%nat then Some quot
  else
    let shift := (num_bits - div_bits)%nat in
    let div := op_shl div shift in
    Some (fst (div_loop (S shift) quot num div)).

Definition Get64 (pn : list Z) (n : nat) : Z := pn.[2 * n] |: Z.shiftl pn.[2 * n + 1] 32.
Definition Get32 (pn : list Z) (n : nat) : Z := pn.[2 * n].
Definition GetLow64 (pn : list Z) : Z := pn.[0] |: Z.shiftl pn.[1] 32.

(** The bytes of the object, as [begin], [Serialize] and [memcpy] see them on a
    little-endian machine, and the array with given bytes. *)
Definition bytes_of (pn : list Z) : list Z := flat_map (store 4) pn.
Definition words_of (vch : list Z) : list Z := map (fun i => load 4 (skipn (4 * i) vch)) (seq 0 WIDTH).

(** [base_uint(const std::vector<unsigned char>&)]. *)
Definition base_uint_of_vch (vch : list Z) : option (list Z) :=
  if negb (length vch =? 4 * WIDTH)%nat then None else Some (words_of vch).

(** [memcmp(a.pn, b.pn, sizeof(a.pn)) == 0]: the bytes of the words. *)
Definition op_eq (a b : list Z) : bool :=
  forallb (fun i => (bytes_of a).[i] =? (bytes_of b).[i]) (seq 0 (4 * WIDTH)).
End Template.

(** * [arith_uint256] *)

Definition W256 : nat := 8.

(** Returns the number and the two flags. *)
Definition SetCompact (nCompact : Z) : list Z * bool * bool :=
  let nSize := Z.to_nat (Z.shiftr nCompact 24) in
  let nWord := nCompact &: 0x007fffff in
  let '(nWord, pn) :=
    if (nSize <=? 3)%nat then
      let nWord := Z.shiftr nWord (8 * (3 - Z.of_nat nSize)) in
      (nWord, base_uint_of_u64 W256 nWord)
    else
      (nWord, op_shl W256 (base_uint_of_u64 W256 nWord) (8 * (nSize - 3))) in
  let fNegative := negb (nWord =? 0) && negb ((nCompact &: 0x00800000) =? 0) in
  let fOverflow := negb (nWord =? 0) &&
    ((34 <? nSize)%nat || ((0xff <? nWord) && (33 <? nSize)%nat) || ((0xffff <? nWord) && (32 <? nSize)%nat)) in
  (pn, fNegative, fOverflow).

(** [None] when one of the two [assert]s fails. *)
Definition GetCompact (pn : list Z) (fNegative : bool) : option Z :=
  let nSize := ((bits W256 pn + 7) / 8)%nat in
  let nCompact :=
    if (nSize <=? 3)%nat then u32 (Z.shiftl (GetLow64 pn) (8 * (3 - Z.of_nat nSize)))
    else u32 (GetLow64 (op_shr W256 pn (8 * (nSize - 3)))) in
  let '(nCompact, nSize) :=
    if negb ((nCompact &: 0x00800000) =? 0) then (Z.shiftr nCompact 8, S nSize) else (nCompact, nSize) in
  if negb ((nCompact &: u32 (Z.lnot 0x007fffff)) =? 0) then None
  else if negb (nSize <? 256)%nat then None
  else
    let nCompact := nCompact |: u32 (Z.shiftl (Z.of_nat nSize) 24) in
    Some (nCompact |: (if fNegative && negb ((nCompact &: 0x007fffff) =? 0) then 0x00800000 else 0)).

(** * Conversions *)

Section Conversions.
Context (WIDTH : nat).

(** [ReadLE32] of each word. *)
Definition UintToArith (a : list Z) : list Z :=
  fold_left (fun b x => b.[x := load 4 (skipn (x * 4) a)]) (seq 0 WIDTH) (base_uint_zero WIDTH).

(** [WriteLE32] of each word. *)
Definition ArithToUint (a : list Z) : list Z :=
  fold_left (fun b x => memcpy_at b (x * 4) (store 4 a.[x])) (seq 0 WIDTH) (repeat 0 (4 * WIDTH)).
End Conversions.

Definition W512 : nat := 16.
Definition UintToArith256 : list Z -> list Z := UintToArith W256.
Definition ArithToUint256 : list Z -> list Z := ArithToUint W256.
Definition UintToArith512 : list Z -> list Z := UintToArith W512.
Definition ArithToUint512 : list Z -> list Z := ArithToUint W512.

(** [arith_uint512::trim256], on the bytes of [pn]. *)
Definition trim256 (pn : list Z) : list Z :=
  fold_left (fun vch i => vch ++ [(bytes_of pn).[i]]) (seq 0 32) [].

End ArithUint.
