(* ===== verification/ArithUintProofs.v ===== *)
(** The operations of [base_uint<BITS>] compute on the integers the arrays stand
    for, modulo 2^BITS: addition, negation, subtraction, both multiplications,
    shifts, comparison, the number of bits and division. *)
From Stdlib Require Import ZifyNat.
From S2P Require Import Prelude SphTypes ArithUint.
Import ArithUint.

(** * Single bits and shifted words *)

Lemma land_bit x n : 0 <= n -> negb ((x &: 2 ^ n) =? 0) = Z.testbit x n.
Proof.
  intros Hn. replace (x &: 2 ^ n) with (if Z.testbit x n then 2 ^ n else 0).
  - destruct (Z.testbit x n); [|reflexivity]. apply Bool.negb_true_iff, Z.eqb_neq. pose proof (Z.pow_pos_nonneg 2 n); lia.
  - apply Z.bits_inj'. intros i Hi. rewrite Z.land_spec, Z.pow2_bits_eqb by lia.
    destruct (Z.eqb_spec n i) as [->|Hne].
    + destruct (Z.testbit x i); [now rewrite Z.pow2_bits_true | now rewrite Z.testbit_0_l].
    + rewrite Bool.andb_false_r. destruct (Z.testbit x n); [now apply Z.pow2_bits_false | apply Z.testbit_0_l].
Qed.

Lemma lor_shiftl x y n : 0 <= n -> word n x -> x |: Z.shiftl y n = x + y * 2 ^ n.
Proof.
  intros Hn Hx. rewrite <- Z.shiftl_mul_pow2 by lia.
  assert (E : x &: Z.shiftl y n = 0).
  { apply Z.bits_inj'. intros i Hi. rewrite Z.land_spec, Z.testbit_0_l. destruct (Z.lt_ge_cases i n).
    - now rewrite Z.shiftl_spec_low, Bool.andb_false_r.
    - now rewrite (word_testbit_high n). }
  now rewrite Z.add_nocarry_lxor, Z.lxor_lor.
Qed.

(** * The integer of an array *)

Fixpoint value (pn : list Z) : Z :=
  match pn with
  | [] => 0
  | x :: t => x + 2 ^ 32 * value t
  end.

(** An array of [n] words. *)
Definition wf (n : nat) (pn : list Z) : Prop := length pn = n /\ Forall (word 32) pn.

Definition modulus (n : nat) : Z := 2 ^ (32 * Z.of_nat n).

Lemma modulus_S n : modulus (S n) = 2 ^ 32 * modulus n.
Proof. unfold modulus. rewrite <- Z.pow_add_r by lia. f_equal. lia. Qed.

Lemma modulus_add a b : modulus (a + b) = modulus a * modulus b.
Proof. unfold modulus. rewrite <- Z.pow_add_r by lia. f_equal. lia. Qed.

Lemma modulus_pos n : 0 < modulus n.
Proof. unfold modulus. apply Z.pow_pos_nonneg; lia. Qed.

Lemma value_bound n pn : wf n pn -> 0 <= value pn < modulus n.
Proof.
  intros [Hl Hw]. revert n Hl. induction Hw as [|x t Hx Ht IH]; intros n Hl; cbn [length] in Hl; subst n.
  - split; [reflexivity | exact (modulus_pos 0)].
  - cbn [value]. rewrite modulus_S. specialize (IH _ eq_refl). unfold word in Hx. lia.
Qed.

Lemma value_app a b : value (a ++ b) = value a + modulus (length a) * value b.
Proof.
  induction a as [|x a IH]; cbn [app value length].
  - unfold modulus. change (32 * Z.of_nat 0) with 0. lia.
  - rewrite IH, modulus_S. ring.
Qed.

Lemma value_zeros n : value (repeat 0 n) = 0.
Proof. induction n as [|n IH]; cbn [repeat value]; lia. Qed.

(** The number determines the words. *)
Lemma value_inj n a b : wf n a -> wf n b -> value a = value b -> a = b.
Proof.
  intros [La Ha] [Lb Hb]. revert n b La Lb Hb. induction Ha as [|x t Hx Ht IH]; intros n b La Lb Hb E.
  - cbn in La. subst n. now destruct b.
  - cbn in La. subst n. destruct b as [|y u]; [discriminate|]. apply Forall_cons_iff in Hb as [Hy Hu].
    cbn [value] in E. unfold word in Hx, Hy.
    assert (x = y).
    { rewrite <- (Z.mod_small x (2 ^ 32) Hx), <- (Z.mod_small y (2 ^ 32) Hy).
      rewrite <- (Z.mod_add x (value t) (2 ^ 32)), <- (Z.mod_add y (value u) (2 ^ 32)) by lia. f_equal. lia. }
    subst y. f_equal. apply (IH (length t)); auto. lia.
Qed.

(** Bit [i] of the number is bit [i mod 32] of word [i / 32]. *)
Lemma testbit_value pn i :
  Forall (word 32) pn -> 0 <= i ->
  Z.testbit (value pn) i = Z.testbit pn.[Z.to_nat (i / 32)] (i mod 32).
Proof.
  intros Hw. revert i; induction Hw as [|x t Hx Ht IH]; intros i Hi.
  - cbn [value]. rewrite Z.testbit_0_l. destruct (Z.to_nat (i / 32)); cbn; now rewrite Z.testbit_0_l.
  - cbn [value]. replace (x + 2 ^ 32 * value t) with (x + value t * 2 ^ 32) by ring.
    rewrite add_shiftl_lor, Z.lor_spec by (lia || assumption).
    destruct (Z.lt_ge_cases i 32) as [Hlt|Hge].
    + rewrite Z.shiftl_spec_low, orb_false_r by lia. rewrite Z.div_small, Z.mod_small by lia. reflexivity.
    + rewrite (word_testbit_high 32 x), Z.shiftl_spec, IH by (assumption || lia). cbn [orb].
      replace (i / 32) with ((i - 32) / 32 + 1) by (rewrite <- Z.div_add by lia; f_equal; lia).
      rewrite Z2Nat.inj_add, Nat.add_comm by (try apply Z.div_pos; lia). cbn [Z.to_nat Pos.to_nat Pos.iter_op Nat.add nth].
      f_equal. replace (i mod 32) with ((i - 32) mod 32); [reflexivity|].
      rewrite <- (Z.mod_add (i - 32) 1 32) by lia. f_equal. lia.
Qed.

(** The number as a sum over positions. *)
Fixpoint sumw (f : nat -> Z) (n : nat) : Z :=
  match n with
  | O => 0
  | S n' => sumw f n' + f n' * modulus n'
  end.

Lemma sumw_ext f g n : (forall i, (i < n)%nat -> f i = g i) -> sumw f n = sumw g n.
Proof.
  induction n as [|n IH]; intros H; cbn [sumw]; [reflexivity|].
  rewrite IH, H by (intros; try apply H; lia). reflexivity.
Qed.

Lemma sumw_add f g n : sumw (fun i => f i + g i) n = sumw f n + sumw g n.
Proof. induction n as [|n IH]; cbn [sumw]; [reflexivity | rewrite IH; ring]. Qed.

Lemma sumw_scale c f n : sumw (fun i => c * f i) n = c * sumw f n.
Proof. induction n as [|n IH]; cbn [sumw]; [ring | rewrite IH; ring]. Qed.

Lemma sumw_split f a b : sumw f (a + b) = sumw f a + modulus a * sumw (fun i => f (a + i)%nat) b.
Proof.
  induction b as [|b IH]; [rewrite Nat.add_0_r; cbn [sumw]; ring|].
  rewrite Nat.add_succ_r. cbn [sumw]. rewrite IH, modulus_add. ring.
Qed.

Lemma value_sumw pn : value pn = sumw (fun i => pn.[i]) (length pn).
Proof.
  induction pn as [|x t IH]; [reflexivity|]. cbn [value length].
  rewrite (sumw_split _ 1 (length t) : sumw _ (S (length t)) = _), IH.
  cbn [sumw nth Nat.add]. unfold modulus at 1 2. change (32 * Z.of_nat 0) with 0. change (32 * Z.of_nat 1) with 32. ring.
Qed.

Lemma value_of n pn : length pn = n -> value pn = sumw (fun i => pn.[i]) n.
Proof. intros <-. apply value_sumw. Qed.

(** * Loops with a carry *)

Definition carry_step (o : nat) (g : nat -> Z -> Z) (st : list Z * Z) (i : nat) : list Z * Z :=
  let '(pn, carry) := st in
  let n := u64 (carry + g i pn.[i + o]) in
  (pn.[(i + o) := n &: 0xffffffff], Z.shiftr n 32).

(** After [n] steps: only the words from [o] on have changed, and the new words
    with the carry make up the sum of the contributions. *)
Lemma carry_loop_spec o g n pn :
  (o + n <= length pn)%nat ->
  (forall i, (i < n)%nat -> 0 <= g i pn.[i + o] <= 2 ^ 64 - 2 ^ 32) ->
  let '(pn', c) := fold_left (carry_step o g) (seq 0 n) (pn, 0) in
  length pn' = length pn /\
  (forall k, (k < o \/ o + n <= k)%nat -> pn'.[k] = pn.[k]) /\
  (forall i, (i < n)%nat -> word 32 pn'.[i + o]) /\ 0 <= c < 2 ^ 32 /\
  sumw (fun i => pn'.[i + o]) n + modulus n * c = sumw (fun i => g i pn.[i + o]) n.
Proof.
  induction n as [|n IH]; intros Hn Hg.
  - cbn [seq fold_left]. split; [reflexivity|]. split; [auto|]. split; [intros; lia|]. cbn [sumw]. lia.
  - rewrite seq_S, fold_left_app. cbn [Nat.add fold_left].
    specialize (IH ltac:(lia) (fun i Hi => Hg i ltac:(lia))).
    destruct (fold_left _ (seq 0 n) _) as [pn' c]. destruct IH as (Hl & Hk & Hw & Hc & Hs).
    unfold carry_step. rewrite (Hk (n + o)%nat) by lia. specialize (Hg n ltac:(lia)).
    set (x := g n pn.[n + o]) in *.
    assert (Eu : u64 (c + x) = c + x) by (unfold u64; apply Z.mod_small; lia). rewrite Eu.
    change 0xffffffff with (Z.ones 32). rewrite Z.land_ones, Z.shiftr_div_pow2 by lia.
    pose proof (Z.div_mod (c + x) (2 ^ 32) ltac:(lia)) as D.
    pose proof (Z.mod_pos_bound (c + x) (2 ^ 32) ltac:(lia)) as M.
    assert (Hq : 0 <= (c + x) / 2 ^ 32 < 2 ^ 32) by lia.
    split; [now rewrite length_upd|]. split; [|split; [|split; [assumption|]]].
    + intros k Hk'. rewrite nth_upd_ne by lia. apply Hk. lia.
    + intros i Hi. destruct (Nat.eq_dec i n) as [->|Hne].
      * rewrite nth_upd_eq by lia. exact M.
      * rewrite nth_upd_ne by lia. apply Hw. lia.
    + cbn [sumw]. rewrite nth_upd_eq by lia. rewrite modulus_S.
      rewrite (sumw_ext _ (fun i => pn'.[i + o])) by (intros i Hi; rewrite nth_upd_ne by lia; reflexivity).
      fold x. rewrite <- Hs. generalize dependent ((c + x) / 2 ^ 32). generalize dependent ((c + x) mod 2 ^ 32).
      intros r Hr q Hq _. clear -Hq. nia.
Qed.

(** The words of an array that a loop has left alone or rewritten. *)
Lemma wf_nth n pn i : wf n pn -> word 32 pn.[i].
Proof. intros [_ H]. apply Forall_nth_default; [assumption | auto with word]. Qed.

Lemma wf_intro n pn : length pn = n -> (forall i, (i < n)%nat -> word 32 pn.[i]) -> wf n pn.
Proof.
  intros Hl H. split; [assumption|]. apply Forall_forall. intros x Hx.
  apply (In_nth _ _ 0) in Hx as (i & Hi & <-). apply H. lia.
Qed.

Section Width.
Context (WIDTH : nat).

Lemma sumw_cut f j :
  (j <= WIDTH)%nat -> sumw f WIDTH = sumw f j + modulus j * sumw (fun i => f (i + j)%nat) (WIDTH - j).
Proof.
  intros Hj. replace WIDTH with (j + (WIDTH - j))%nat at 1 by lia. rewrite sumw_split. do 2 f_equal.
  apply sumw_ext. intros; f_equal; lia.
Qed.

Lemma carry_value g pn :
  wf WIDTH pn -> (forall i, (i < WIDTH)%nat -> 0 <= g i pn.[i] <= 2 ^ 64 - 2 ^ 32) ->
  let pn' := fst (fold_left (carry_step 0 g) (seq 0 WIDTH) (pn, 0)) in
  wf WIDTH pn' /\ value pn' = sumw (fun i => g i pn.[i]) WIDTH mod modulus WIDTH.
Proof.
  intros [Hl Hw] Hg. pose proof (carry_loop_spec 0 g WIDTH pn ltac:(lia)) as S.
  assert (E0 : forall f : nat -> Z, sumw (fun i => f (i + 0)%nat) WIDTH = sumw f WIDTH)
    by (intros f; apply sumw_ext; intros; now rewrite Nat.add_0_r).
  assert (Hg' : forall i, (i < WIDTH)%nat -> 0 <= g i pn.[i + 0] <= 2 ^ 64 - 2 ^ 32)
    by (intros; rewrite Nat.add_0_r; auto).
  specialize (S Hg'). cbv zeta. destruct (fold_left _ _ _) as [pn' c]. cbn [fst].
  destruct S as (Hl' & _ & Hw' & Hc & Hs).
  assert (W : wf WIDTH pn').
  { apply wf_intro; [lia|]. intros i Hi. specialize (Hw' i Hi). now rewrite Nat.add_0_r in Hw'. }
  split; [assumption|]. rewrite (value_of WIDTH) by lia.
  rewrite (E0 (fun i => pn'.[i])) in Hs.
  rewrite (sumw_ext (fun i => g i pn.[i + 0]) (fun i => g i pn.[i])) in Hs by (intros; now rewrite Nat.add_0_r).
  rewrite <- Hs, Z.mul_comm, Z.mod_add by (pose proof (modulus_pos WIDTH); lia).
  symmetry. apply Z.mod_small. rewrite <- (value_of WIDTH) by lia. now apply value_bound.
Qed.

(** * Addition *)

Lemma op_add_spec a b :
  wf WIDTH a -> wf WIDTH b ->
  wf WIDTH (op_add WIDTH a b) /\ value (op_add WIDTH a b) = (value a + value b) mod modulus WIDTH.
Proof.
  intros Ha Hb.
  replace (op_add WIDTH a b) with (fst (fold_left (carry_step 0 (fun i x => x + b.[i])) (seq 0 WIDTH) (a, 0))).
  - destruct (carry_value (fun i x => x + b.[i]) a Ha) as [H1 H2].
    + intros i Hi. pose proof (wf_nth _ _ i Ha). pose proof (wf_nth _ _ i Hb). unfold word in *. lia.
    + split; [assumption|]. rewrite H2, sumw_add, <- !(value_of WIDTH) by (apply Ha || apply Hb). reflexivity.
  - unfold op_add. f_equal. apply fold_left_ext_in. intros [pn c] i _. unfold carry_step.
    now rewrite Nat.add_0_r, Z.add_assoc.
Qed.

(** * Multiplication by a word *)

Lemma op_mul32_spec a b :
  wf WIDTH a -> word 32 b ->
  wf WIDTH (op_mul32 WIDTH a b) /\ value (op_mul32 WIDTH a b) = (value a * b) mod modulus WIDTH.
Proof.
  intros Ha Hb.
  replace (op_mul32 WIDTH a b) with (fst (fold_left (carry_step 0 (fun i x => b * x)) (seq 0 WIDTH) (a, 0))).
  - destruct (carry_value (fun i x => b * x) a Ha) as [H1 H2].
    + intros i Hi. pose proof (wf_nth _ _ i Ha) as Hx. unfold word in *.
      change (2 ^ 64) with (2 ^ 32 * 2 ^ 32). nia.
    + split; [assumption|]. rewrite H2, sumw_scale, <- (value_of WIDTH) by apply Ha. f_equal. ring.
  - unfold op_mul32. f_equal. apply fold_left_ext_in. intros [pn c] i _. unfold carry_step.
    now rewrite Nat.add_0_r.
Qed.

(** * Long multiplication *)

Lemma mul_row_spec pn b j a :
  wf WIDTH pn -> wf WIDTH b -> wf WIDTH a -> (j < WIDTH)%nat ->
  wf WIDTH (mul_row WIDTH pn b j a) /\
  value (mul_row WIDTH pn b j a) mod modulus WIDTH =
  (value a + pn.[j] * modulus j * value b) mod modulus WIDTH.
Proof.
  intros Hp Hb Ha Hj. pose proof (carry_loop_spec j (fun i x => x + pn.[j] * b.[i]) (WIDTH - j) a) as S.
  replace (mul_row WIDTH pn b j a) with
    (fst (fold_left (carry_step j (fun i x => x + pn.[j] * b.[i])) (seq 0 (WIDTH - j)) (a, 0)))
    by (unfold mul_row; f_equal; apply fold_left_ext_in; intros [q c] i _; unfold carry_step; now rewrite Z.add_assoc).
  assert (Hg : forall i, (i < WIDTH - j)%nat -> 0 <= a.[i + j] + pn.[j] * b.[i] <= 2 ^ 64 - 2 ^ 32).
  { intros i Hi. pose proof (wf_nth _ _ (i + j) Ha). pose proof (wf_nth _ _ j Hp). pose proof (wf_nth _ _ i Hb).
    unfold word in *. change (2 ^ 64) with (2 ^ 32 * 2 ^ 32). nia. }
  specialize (S ltac:(destruct Ha; lia) Hg). destruct (fold_left _ _ _) as [a' c]. cbn [fst].
  destruct S as (Hl & Hk & Hw & Hc & Hs). destruct Ha as [La Fa]. rewrite La in Hl.
  assert (W : wf WIDTH a').
  { apply wf_intro; [assumption|]. intros i Hi. destruct (Nat.lt_ge_cases i j).
    - rewrite Hk by lia. apply (wf_nth WIDTH); now split.
    - replace i with (i - j + j)%nat by lia. apply Hw. lia. }
  split; [assumption|].
  rewrite (value_of WIDTH a'), (value_of WIDTH a), (value_of WIDTH b) by (assumption || apply Hb).
  rewrite (sumw_cut (fun i => a'.[i]) j), (sumw_cut (fun i => a.[i]) j) by lia.
  rewrite (sumw_ext (fun i => a'.[i]) (fun i => a.[i]) j) by (intros; apply Hk; lia).
  rewrite sumw_add, sumw_scale in Hs.
  replace (sumw (fun i => b.[i]) WIDTH) with
    (sumw (fun i => b.[i]) (WIDTH - j) + modulus (WIDTH - j) * sumw (fun i => b.[WIDTH - j + i]) j)
    by (rewrite <- sumw_split; f_equal; lia).
  replace (modulus WIDTH) with (modulus j * modulus (WIDTH - j)) by (rewrite <- modulus_add; f_equal; lia).
  pose proof (modulus_pos j). pose proof (modulus_pos (WIDTH - j)).
  set (A := sumw (fun i => a'.[i + j]) _) in *. set (A0 := sumw (fun i => a.[i + j]) _) in *.
  set (B := sumw (fun i => b.[i]) (WIDTH - j)) in *. set (T := sumw (fun i => b.[WIDTH - j + i]) j).
  replace A with (A0 + pn.[j] * B - modulus (WIDTH - j) * c) by lia.
  set (P := sumw (fun i => a.[i]) j).
  replace (P + modulus j * (A0 + pn.[j] * B - modulus (WIDTH - j) * c)) with
    (P + modulus j * A0 + pn.[j] * modulus j * (B + modulus (WIDTH - j) * T)
     + (- c - pn.[j] * T) * (modulus j * modulus (WIDTH - j))) by ring.
  rewrite Z.mod_add by nia. reflexivity.
Qed.

Lemma wf_zero : wf WIDTH (base_uint_zero WIDTH).
Proof.
  split; [apply repeat_length|]. apply Forall_forall. intros x Hx. apply repeat_spec in Hx as ->. auto with word.
Qed.

Lemma op_mul_spec a b :
  wf WIDTH a -> wf WIDTH b ->
  wf WIDTH (op_mul WIDTH a b) /\ value (op_mul WIDTH a b) = (value a * value b) mod modulus WIDTH.
Proof.
  intros Ha Hb. unfold op_mul.
  assert (G : forall n, (n <= WIDTH)%nat ->
    let r := fold_left (fun r j => mul_row WIDTH a b j r) (seq 0 n) (base_uint_zero WIDTH) in
    wf WIDTH r /\ value r mod modulus WIDTH = (sumw (fun i => a.[i]) n * value b) mod modulus WIDTH).
  { induction n as [|n IH]; intros Hn; cbv zeta.
    - split; [apply wf_zero|]. cbn [seq fold_left sumw]. unfold base_uint_zero. now rewrite value_zeros.
    - rewrite seq_S, fold_left_app. cbn [fold_left Nat.add]. destruct (IH ltac:(lia)) as [W V].
      destruct (mul_row_spec a b n _ Ha Hb W ltac:(lia)) as [W' V']. split; [assumption|].
      rewrite V', Zplus_mod, V, <- Zplus_mod. f_equal. cbn [sumw]. ring. }
  destruct (G WIDTH (le_n _)) as [W V]. split; [assumption|].
  rewrite <- (value_of WIDTH) in V by apply Ha. rewrite <- V. symmetry. apply Z.mod_small. now apply value_bound.
Qed.

(** * Complement, increment and subtraction *)

Lemma nth_fill_loop (f : nat -> Z) n (l : list Z) i :
  (n <= length l)%nat ->
  (fold_left (fun l i => l.[i := f i]) (seq 0 n) l).[i] = if (i <? n)%nat then f i else l.[i].
Proof. intros Hn. apply (nth_update_loop (fun i _ => f i) n l i Hn). Qed.

Lemma length_fill_loop (f : nat -> Z) s (l : list Z) :
  length (fold_left (fun l i => l.[i := f i]) s l) = length l.
Proof. apply (length_update_loop (fun i _ => f i)). Qed.

Lemma op_not_spec a :
  wf WIDTH a -> wf WIDTH (op_not WIDTH a) /\ value (op_not WIDTH a) = modulus WIDTH - 1 - value a.
Proof.
  intros Ha. unfold op_not.
  assert (L : length (base_uint_zero WIDTH) = WIDTH) by apply repeat_length.
  assert (E : forall i, (i < WIDTH)%nat ->
    (fold_left (fun r i => r.[i := u32 (Z.lnot a.[i])]) (seq 0 WIDTH) (base_uint_zero WIDTH)).[i] = 2 ^ 32 - 1 - a.[i]).
  { intros i Hi. rewrite nth_fill_loop by lia. destruct (Nat.ltb_spec i WIDTH); [|lia].
    pose proof (wf_nth _ _ i Ha) as Hw. unfold word in Hw. unfold u32, Z.lnot.
    replace (Z.pred (- a.[i])) with (2 ^ 32 - 1 - a.[i] + (-1) * 2 ^ 32) by lia.
    rewrite Z.mod_add, Z.mod_small by lia. reflexivity. }
  split.
  - apply wf_intro; [now rewrite length_fill_loop|]. intros i Hi. rewrite E by assumption.
    pose proof (wf_nth _ _ i Ha) as Hw. unfold word in *. lia.
  - rewrite (value_of WIDTH) by now rewrite length_fill_loop. rewrite (sumw_ext _ _ _ E).
    rewrite (value_of WIDTH a) by apply Ha. clear. induction WIDTH as [|n IH]; [reflexivity|].
    cbn [sumw]. rewrite IH, modulus_S. ring.
Qed.

Lemma value_upd (pn : list Z) i x :
  (i < length pn)%nat -> value (pn.[i := x]) = value pn + (x - pn.[i]) * modulus i.
Proof.
  revert i; induction pn as [|y t IH]; intros [|i] Hi; cbn [length] in Hi; try lia; cbn [upd value nth].
  - unfold modulus. change (32 * Z.of_nat 0) with 0. lia.
  - rewrite IH, modulus_S by lia. ring.
Qed.

Lemma wf_upd n pn i x : wf n pn -> word 32 x -> wf n (pn.[i := x]).
Proof. intros [Hl Hw] Hx. split; [now rewrite length_upd | now apply Forall_upd]. Qed.

Lemma word_u32 x : word 32 (u32 x).
Proof. apply word_mod. lia. Qed.

Lemma incr_from_spec fuel i pn :
  wf WIDTH pn -> (i < WIDTH)%nat -> (WIDTH <= i + fuel)%nat ->
  wf WIDTH (incr_from WIDTH fuel i pn) /\
  value (incr_from WIDTH fuel i pn) = (value pn + modulus i) mod modulus WIDTH.
Proof.
  revert i pn; induction fuel as [|fuel IH]; intros i pn Hp Hi Hf; [lia|]. cbn [incr_from].
  pose proof (wf_nth _ _ i Hp) as Hw. unfold word in Hw.
  pose proof (wf_upd _ _ i _ Hp (word_u32 (pn.[i] + 1))) as Hp'.
  pose proof (value_upd pn i (u32 (pn.[i] + 1)) ltac:(destruct Hp; lia)) as V.
  rewrite nth_upd_eq by (destruct Hp; lia).
  pose proof (value_bound _ _ Hp') as B'.
  destruct (Z.eqb_spec (u32 (pn.[i] + 1)) 0) as [E|E]; cbn [andb].
  - assert (Ex : pn.[i] = 2 ^ 32 - 1).
    { unfold u32 in E. destruct (Z.eq_dec pn.[i] (2 ^ 32 - 1)); [assumption|].
      rewrite Z.mod_small in E by lia. lia. }
    rewrite E, Ex in *. destruct (Nat.ltb_spec i (WIDTH - 1)) as [Hlt|Hge].
    + destruct (IH (S i) (pn.[i := 0]) Hp' ltac:(lia) ltac:(lia)) as [H1 H2].
      split; [assumption|]. rewrite H2, V, modulus_S. f_equal. ring.
    + split; [assumption|]. replace WIDTH with (S i) at 1 by lia. rewrite modulus_S.
      replace (value pn + modulus i) with (value (pn.[i := 0]) + 1 * (2 ^ 32 * modulus i)) by (rewrite V; ring).
      rewrite Z.mod_add by (pose proof (modulus_pos i); lia). symmetry. apply Z.mod_small.
      rewrite <- modulus_S. replace (S i) with WIDTH by lia. assumption.
  - split; [assumption|]. assert (Ex : u32 (pn.[i] + 1) = pn.[i] + 1).
    { unfold u32 in *. apply Z.mod_small. destruct (Z.eq_dec pn.[i] (2 ^ 32 - 1)) as [Em|]; [|lia].
      rewrite Em in E. exfalso. apply E. reflexivity. }
    rewrite Ex in *. symmetry.
    replace (value pn + modulus i) with (value (pn.[i := pn.[i] + 1])) by (rewrite V; ring).
    now apply Z.mod_small.
Qed.

Lemma decr_from_spec fuel i pn :
  wf WIDTH pn -> (i < WIDTH)%nat -> (WIDTH <= i + fuel)%nat ->
  wf WIDTH (decr_from WIDTH fuel i pn) /\
  value (decr_from WIDTH fuel i pn) = (value pn - modulus i) mod modulus WIDTH.
Proof.
  revert i pn; induction fuel as [|fuel IH]; intros i pn Hp Hi Hf; [lia|]. cbn [decr_from].
  pose proof (wf_nth _ _ i Hp) as Hw. unfold word in Hw.
  pose proof (wf_upd _ _ i _ Hp (word_u32 (pn.[i] - 1))) as Hp'.
  pose proof (value_upd pn i (u32 (pn.[i] - 1)) ltac:(destruct Hp; lia)) as V.
  rewrite nth_upd_eq by (destruct Hp; lia).
  pose proof (value_bound _ _ Hp') as B'. change (u32 (-1)) with (2 ^ 32 - 1).
  destruct (Z.eqb_spec (u32 (pn.[i] - 1)) (2 ^ 32 - 1)) as [E|E]; cbn [andb].
  - assert (Ex : pn.[i] = 0).
    { unfold u32 in E. destruct (Z.eq_dec pn.[i] 0); [assumption|]. rewrite Z.mod_small in E by lia. lia. }
    rewrite E, Ex in *. destruct (Nat.ltb_spec i (WIDTH - 1)) as [Hlt|Hge].
    + destruct (IH (S i) _ Hp' ltac:(lia) ltac:(lia)) as [H1 H2].
      split; [assumption|]. rewrite H2, V, modulus_S. f_equal. ring.
    + split; [assumption|]. replace WIDTH with (S i) at 1 by lia. rewrite modulus_S.
      replace (value pn - modulus i) with (value (pn.[i := 2 ^ 32 - 1]) + (-1) * (2 ^ 32 * modulus i)) by (rewrite V; ring).
      rewrite Z.mod_add by (pose proof (modulus_pos i); lia). symmetry. apply Z.mod_small.
      rewrite <- modulus_S. replace (S i) with WIDTH by lia. assumption.
  - split; [assumption|]. assert (Ex : u32 (pn.[i] - 1) = pn.[i] - 1).
    { unfold u32 in *. apply Z.mod_small. destruct (Z.eq_dec pn.[i] 0) as [Em|]; [|lia].
      rewrite Em in E. exfalso. apply E. reflexivity. }
    rewrite Ex in *. symmetry.
    replace (value pn - modulus i) with (value (pn.[i := pn.[i] - 1])) by (rewrite V; ring).
    now apply Z.mod_small.
Qed.

Context (HW : (2 <= WIDTH)%nat).

Lemma modulus_0 : modulus 0 = 1.
Proof. reflexivity. Qed.

Lemma op_incr_spec a :
  wf WIDTH a -> wf WIDTH (op_incr WIDTH a) /\ value (op_incr WIDTH a) = (value a + 1) mod modulus WIDTH.
Proof. intros Ha. apply (incr_from_spec WIDTH 0 a Ha); lia. Qed.

Lemma op_decr_spec a :
  wf WIDTH a -> wf WIDTH (op_decr WIDTH a) /\ value (op_decr WIDTH a) = (value a - 1) mod modulus WIDTH.
Proof. intros Ha. apply (decr_from_spec WIDTH 0 a Ha); lia. Qed.

Lemma op_neg_spec a :
  wf WIDTH a -> wf WIDTH (op_neg WIDTH a) /\ value (op_neg WIDTH a) = (- value a) mod modulus WIDTH.
Proof.
  intros Ha. destruct (op_not_spec a Ha) as [Hn Vn]. destruct (op_incr_spec _ Hn) as [Hi Vi].
  split; [assumption|]. unfold op_neg. rewrite Vi, Vn.
  replace (modulus WIDTH - 1 - value a + 1) with (- value a + 1 * modulus WIDTH) by ring.
  apply Z.mod_add. pose proof (modulus_pos WIDTH); lia.
Qed.

Lemma op_sub_spec a b :
  wf WIDTH a -> wf WIDTH b ->
  wf WIDTH (op_sub WIDTH a b) /\ value (op_sub WIDTH a b) = (value a - value b) mod modulus WIDTH.
Proof.
  intros Ha Hb. destruct (op_neg_spec b Hb) as [Hn Vn]. destruct (op_add_spec a _ Ha Hn) as [Hs Vs].
  split; [assumption|]. unfold op_sub. now rewrite Vs, Vn, Zplus_mod_idemp_r.
Qed.

(** * Comparison *)

Lemma compare_from_spec n a b :
  wf WIDTH a -> wf WIDTH b -> (n <= WIDTH)%nat ->
  compare_from n a b =
  match sumw (fun i => a.[i]) n ?= sumw (fun i => b.[i]) n with Lt => -1 | Eq => 0 | Gt => 1 end.
Proof.
  intros Ha Hb. induction n as [|n IH]; intros Hn; [reflexivity|]. cbn [compare_from sumw].
  assert (B : forall p, wf WIDTH p -> 0 <= sumw (fun i => p.[i]) n < modulus n).
  { intros p [Lp Fp].
    assert (W : wf n (firstn n p)) by (split; [rewrite length_firstn; lia | now apply Forall_take]).
    pose proof (value_bound _ _ W) as V. rewrite (value_of n) in V by apply W.
    rewrite (sumw_ext _ (fun i => p.[i])) in V by (intros; apply nth_firstn_lt; lia). exact V. }
  pose proof (B a Ha) as Ba. pose proof (B b Hb) as Bb. rewrite IH by lia. clear IH B.
  set (x := sumw _ n) in *. set (y := sumw (fun i => b.[i]) n) in *. clearbody x y.
  pose proof (modulus_pos n) as M. generalize dependent (modulus n). intros m Ba Bb M.
  destruct (Z.ltb_spec a.[n] b.[n]); [|destruct (Z.ltb_spec b.[n] a.[n])].
  - replace (x + a.[n] * m ?= y + b.[n] * m) with Lt; [reflexivity|]. symmetry. apply Z.compare_lt_iff. nia.
  - replace (x + a.[n] * m ?= y + b.[n] * m) with Gt; [reflexivity|]. symmetry. apply Z.compare_gt_iff. nia.
  - replace b.[n] with a.[n] by lia.
    replace (x + a.[n] * m ?= y + a.[n] * m) with (x ?= y); [reflexivity|].
    destruct (Z.compare_spec x y); symmetry;
      [apply Z.compare_eq_iff | apply Z.compare_lt_iff | apply Z.compare_gt_iff]; lia.
Qed.

Lemma CompareTo_spec a b :
  wf WIDTH a -> wf WIDTH b ->
  CompareTo WIDTH a b = match value a ?= value b with Lt => -1 | Eq => 0 | Gt => 1 end.
Proof.
  intros Ha Hb. unfold CompareTo. rewrite compare_from_spec by auto.
  now rewrite <- !(value_of WIDTH) by (apply Ha || apply Hb).
Qed.

Lemma CompareTo_ge a b :
  wf WIDTH a -> wf WIDTH b -> (0 <=? CompareTo WIDTH a b) = (value b <=? value a).
Proof.
  intros Ha Hb. rewrite CompareTo_spec by assumption.
  destruct (Z.compare_spec (value a) (value b)), (Z.leb_spec (value b) (value a)); lia || reflexivity.
Qed.
End Width.

(** * The shifts, the number of bits and the division *)

(** A loop body that or-s a value into one word. *)
Definition or_into (pn : list Z) (j : nat) (x : Z) : list Z := pn.[j := pn.[j] |: x].

Lemma nth_or_into pn i x j :
  (i < length pn)%nat -> (or_into pn i x).[j] = pn.[j] |: (if (j =? i)%nat then x else 0).
Proof.
  intros H. unfold or_into. destruct (Nat.eqb_spec j i) as [->|Hne].
  - now rewrite nth_upd_eq.
  - now rewrite nth_upd_ne, Z.lor_0_r by auto.
Qed.

Lemma lor_shuffle a b c d : (a |: b) |: c |: d = (a |: c) |: (b |: d).
Proof. apply Z.bits_inj. intros i. rewrite !Z.lor_spec. btauto. Qed.

Section Width.
Context (WIDTH : nat).

(** * Shift to the left *)

Definition shl_word (a : list Z) (k s : nat) (n j : nat) : Z :=
  (if ((k + 1 <=? j) && (j - k - 1 <? n) && negb (s =? 0))%nat%bool
   then Z.shiftr a.[j - k - 1] (Z.of_nat (32 - s)) else 0)
  |: (if ((k <=? j) && (j - k <? n))%nat%bool then u32 (Z.shiftl a.[j - k] (Z.of_nat s)) else 0).

Definition shl_step (a : list Z) (k s : nat) (pn : list Z) (i : nat) : list Z :=
  let pn := if ((i + k + 1 <? WIDTH)%nat && negb (s =? 0)%nat)%bool
            then or_into pn (i + k + 1) (Z.shiftr a.[i] (Z.of_nat (32 - s))) else pn in
  if (i + k <? WIDTH)%nat then or_into pn (i + k) (u32 (Z.shiftl a.[i] (Z.of_nat s))) else pn.

Lemma length_shl_step a k s pn i : length (shl_step a k s pn i) = length pn.
Proof. unfold shl_step, or_into. destruct (_ && _), (_ <? _)%nat; now rewrite ?length_upd. Qed.

Ltac split_tests :=
  repeat match goal with
  | |- context [(?x <? ?y)%nat] => destruct (Nat.ltb_spec x y)
  | |- context [(?x <=? ?y)%nat] => destruct (Nat.leb_spec x y)
  | |- context [(?x =? ?y)%nat] => destruct (Nat.eqb_spec x y)
  end; cbn [andb negb]; try lia.

Lemma shl_loop a k s n :
  let pn := fold_left (shl_step a k s) (seq 0 n) (base_uint_zero WIDTH) in
  length pn = WIDTH /\ forall j, (j < WIDTH)%nat -> pn.[j] = shl_word a k s n j.
Proof.
  induction n as [|n IH]; cbv zeta.
  - split; [apply repeat_length|]. intros j Hj. cbn [seq fold_left]. unfold base_uint_zero, shl_word.
    rewrite nth_repeat. split_tests; reflexivity.
  - rewrite seq_S, fold_left_app. cbn [fold_left Nat.add]. destruct IH as [L E].
    set (pn := fold_left _ (seq 0 n) _) in *. clearbody pn. split; [now rewrite length_shl_step|].
    intros j Hj. unfold shl_step.
    assert (G : forall b l, length (if b : bool then or_into pn (n + k + 1) l else pn) = WIDTH)
      by (intros [] l; unfold or_into; now rewrite ?length_upd).
    transitivity (pn.[j] |: (if ((n + k + 1 <? WIDTH) && negb (s =? 0) && (j =? n + k + 1))%nat%bool
        then Z.shiftr a.[n] (Z.of_nat (32 - s)) else 0)
      |: (if ((n + k <? WIDTH) && (j =? n + k))%nat%bool then u32 (Z.shiftl a.[n] (Z.of_nat s)) else 0)).
    + destruct (Nat.ltb_spec (n + k) WIDTH); cbn [andb].
      * rewrite nth_or_into by (rewrite G; lia). f_equal.
        destruct ((n + k + 1 <? WIDTH)%nat && negb (s =? 0)%nat) eqn:C; cbn [andb]; [|now rewrite Z.lor_0_r].
        apply andb_true_iff in C as [C _]. apply Nat.ltb_lt in C. now rewrite nth_or_into by lia.
      * rewrite Z.lor_0_r. destruct (Nat.ltb_spec (n + k + 1) WIDTH); [lia|]. cbn [andb]. now rewrite Z.lor_0_r.
    + rewrite E by assumption. unfold shl_word. clear -Hj. rewrite lor_shuffle. f_equal.
      * destruct (Nat.eqb_spec j (n + k + 1)) as [->|Hne].
        -- replace (n + k + 1 - k - 1)%nat with n by lia. split_tests; reflexivity.
        -- rewrite andb_false_r, Z.lor_0_r. split_tests; reflexivity.
      * destruct (Nat.eqb_spec j (n + k)) as [->|Hne].
        -- replace (n + k - k)%nat with n by lia. split_tests; reflexivity.
        -- rewrite andb_false_r, Z.lor_0_r. split_tests; reflexivity.
Qed.

Lemma op_shl_words a shift :
  let k := (shift / 32)%nat in
  let s := (shift mod 32)%nat in
  length (op_shl WIDTH a shift) = WIDTH /\
  forall j, (j < WIDTH)%nat -> (op_shl WIDTH a shift).[j] = shl_word a k s WIDTH j.
Proof. exact (shl_loop a (shift / 32) (shift mod 32) WIDTH). Qed.

Lemma word_shl_word a k s n j : wf WIDTH a -> (s < 32)%nat -> word 32 (shl_word a k s n j).
Proof.
  intros Ha Hs. unfold shl_word.
  assert (G : forall (c : bool) x, word 32 x -> word 32 (if c then x else 0)) by (intros [] x Hx; auto with word).
  apply word_lor; [lia | |]; apply G.
  - apply word_shiftr; [lia | lia | apply (wf_nth WIDTH), Ha].
  - apply word_u32.
Qed.

(** One bit of a shifted word. *)
Lemma testbit_shl_word a k s j b :
  wf WIDTH a -> (s < 32)%nat -> (j < WIDTH)%nat -> 0 <= b < 32 ->
  Z.testbit (shl_word a k s WIDTH j) b =
  (32 * Z.of_nat k + Z.of_nat s <=? 32 * Z.of_nat j + b) &&
  Z.testbit (value a) (32 * Z.of_nat j + b - (32 * Z.of_nat k + Z.of_nat s)).
Proof.
  intros Ha Hs Hj Hb. unfold shl_word. rewrite Z.lor_spec.
  assert (HF : Forall (word 32) a) by apply Ha.
  destruct (Z.lt_ge_cases b (Z.of_nat s)) as [Hlt|Hge].
  - replace (Z.testbit (if ((k <=? j) && (j - k <? WIDTH))%nat%bool then _ else _) b) with false.
    2:{ destruct (_ && _); [|now rewrite Z.testbit_0_l].
        unfold u32. rewrite testbit_mod, Z.shiftl_spec_low by lia. now rewrite andb_false_r. }
    rewrite orb_false_r. split_tests; rewrite ?Z.testbit_0_l; try (destruct (Z.leb_spec (32 * Z.of_nat k + Z.of_nat s) (32 * Z.of_nat j + b)); [lia | reflexivity]).
    destruct (Z.leb_spec (32 * Z.of_nat k + Z.of_nat s) (32 * Z.of_nat j + b)); [|lia]. cbn [andb].
    rewrite Z.shiftr_spec, testbit_value by (assumption || lia).
    replace (32 * Z.of_nat j + b - (32 * Z.of_nat k + Z.of_nat s))
      with ((b + Z.of_nat (32 - s)) + Z.of_nat (j - k - 1) * 32) by lia.
    rewrite Z.mod_add, Z.mod_small, Z.div_add, Z.div_small, Z.add_0_l, Nat2Z.id by lia. reflexivity.
  - replace (Z.testbit (if ((k + 1 <=? j) && (j - k - 1 <? WIDTH) && negb (s =? 0))%nat%bool then _ else _) b) with false.
    2:{ destruct (_ && _ && _) eqn:C; [|now rewrite Z.testbit_0_l].
        rewrite Z.shiftr_spec, (word_testbit_high 32) by (try apply (wf_nth WIDTH); assumption || lia). reflexivity. }
    rewrite orb_false_l. split_tests; rewrite ?Z.testbit_0_l; try (destruct (Z.leb_spec (32 * Z.of_nat k + Z.of_nat s) (32 * Z.of_nat j + b)); [lia | reflexivity]).
    destruct (Z.leb_spec (32 * Z.of_nat k + Z.of_nat s) (32 * Z.of_nat j + b)); [|lia]. cbn [andb].
    unfold u32. rewrite testbit_mod, Z.shiftl_spec, testbit_value by (assumption || lia).
    destruct (Z.ltb_spec b 32); [|lia]. cbn [andb].
    replace (32 * Z.of_nat j + b - (32 * Z.of_nat k + Z.of_nat s))
      with ((b - Z.of_nat s) + Z.of_nat (j - k) * 32) by lia.
    rewrite Z.mod_add, Z.mod_small, Z.div_add, Z.div_small, Z.add_0_l, Nat2Z.id by lia. reflexivity.
Qed.

(** Arrays with the same bits as a number. *)
Lemma value_of_bits pn x :
  wf WIDTH pn ->
  (forall j b, (j < WIDTH)%nat -> 0 <= b < 32 -> Z.testbit pn.[j] b = Z.testbit x (32 * Z.of_nat j + b)) ->
  value pn = x mod modulus WIDTH.
Proof.
  intros Hp H. apply Z.bits_inj'. intros i Hi.
  rewrite testbit_value by (apply Hp || lia). unfold modulus. rewrite testbit_mod by lia.
  pose proof (Z.mod_pos_bound i 32 ltac:(lia)) as Hm. pose proof (Z.div_mod i 32 ltac:(lia)) as D.
  assert (Hq : 0 <= i / 32) by (apply Z.div_pos; lia).
  destruct (Z.ltb_spec i (32 * Z.of_nat WIDTH)); cbn [andb].
  - rewrite H by lia. f_equal. lia.
  - rewrite nth_overflow by (destruct Hp; lia). apply Z.testbit_0_l.
Qed.

Lemma op_shl_spec a shift :
  wf WIDTH a ->
  wf WIDTH (op_shl WIDTH a shift) /\
  value (op_shl WIDTH a shift) = (value a * 2 ^ Z.of_nat shift) mod modulus WIDTH.
Proof.
  intros Ha. destruct (op_shl_words a shift) as [L E]. cbv zeta in E.
  pose proof (Nat.mod_upper_bound shift 32 ltac:(lia)) as Hs. pose proof (Nat.div_mod_eq shift 32) as D.
  assert (W : wf WIDTH (op_shl WIDTH a shift)).
  { apply wf_intro; [assumption|]. intros i Hi. rewrite E by assumption. now apply word_shl_word. }
  split; [assumption|]. apply value_of_bits; [assumption|]. intros j b Hj Hb.
  rewrite E, testbit_shl_word by assumption. rewrite <- Z.shiftl_mul_pow2, Z.shiftl_spec by lia.
  replace (32 * Z.of_nat (shift / 32) + Z.of_nat (shift mod 32)) with (Z.of_nat shift) by lia.
  destruct (Z.leb_spec (Z.of_nat shift) (32 * Z.of_nat j + b)); [reflexivity|].
  now rewrite Z.testbit_neg_r by lia.
Qed.

(** * Shift to the right *)

Definition shr_word (a : list Z) (k s : nat) (n j : nat) : Z :=
  (if ((j + k + 1 <? n) && negb (s =? 0))%nat%bool
   then u32 (Z.shiftl a.[j + k + 1] (Z.of_nat (32 - s))) else 0)
  |: (if (j + k <? n)%nat then Z.shiftr a.[j + k] (Z.of_nat s) else 0).

Definition shr_step (a : list Z) (k s : nat) (pn : list Z) (i : nat) : list Z :=
  let pn := if ((k + 1 <=? i)%nat && negb (s =? 0)%nat)%bool
            then or_into pn (i - k - 1) (u32 (Z.shiftl a.[i] (Z.of_nat (32 - s)))) else pn in
  if (k <=? i)%nat then or_into pn (i - k) (Z.shiftr a.[i] (Z.of_nat s)) else pn.

Lemma length_shr_step a k s pn i : length (shr_step a k s pn i) = length pn.
Proof. unfold shr_step, or_into. destruct (_ && _), (_ <=? _)%nat; now rewrite ?length_upd. Qed.

Lemma shr_loop a k s n :
  (n <= WIDTH)%nat ->
  let pn := fold_left (shr_step a k s) (seq 0 n) (base_uint_zero WIDTH) in
  length pn = WIDTH /\ forall j, (j < WIDTH)%nat -> pn.[j] = shr_word a k s n j.
Proof.
  induction n as [|n IH]; intros Hn; cbv zeta.
  - split; [apply repeat_length|]. intros j Hj. cbn [seq fold_left]. unfold base_uint_zero, shr_word.
    rewrite nth_repeat. split_tests; reflexivity.
  - rewrite seq_S, fold_left_app. cbn [fold_left Nat.add]. destruct IH as [L E]; [lia|].
    set (pn := fold_left _ (seq 0 n) _) in *. clearbody pn. split; [now rewrite length_shr_step|].
    intros j Hj. unfold shr_step.
    assert (G : forall b l, length (if b : bool then or_into pn (n - k - 1) l else pn) = WIDTH)
      by (intros [] l; unfold or_into; now rewrite ?length_upd).
    transitivity (pn.[j] |: (if ((k + 1 <=? n) && negb (s =? 0) && (j =? n - k - 1))%nat%bool
        then u32 (Z.shiftl a.[n] (Z.of_nat (32 - s))) else 0)
      |: (if ((k <=? n) && (j =? n - k))%nat%bool then Z.shiftr a.[n] (Z.of_nat s) else 0)).
    + destruct (Nat.leb_spec k n); cbn [andb].
      * rewrite nth_or_into by (rewrite G; lia). f_equal.
        destruct ((k + 1 <=? n)%nat && negb (s =? 0)%nat) eqn:C; cbn [andb]; [|now rewrite Z.lor_0_r].
        now rewrite nth_or_into by lia.
      * rewrite Z.lor_0_r. destruct (Nat.leb_spec (k + 1) n); [lia|]. cbn [andb]. now rewrite Z.lor_0_r.
    + rewrite E by assumption. unfold shr_word. clear -Hj. rewrite lor_shuffle. f_equal.
      * destruct (Nat.eq_dec n (j + k + 1)) as [->|Hne].
        -- replace (j + k + 1 - k - 1)%nat with j by lia. split_tests; reflexivity.
        -- split_tests; rewrite ?Z.lor_0_r; reflexivity.
      * destruct (Nat.eq_dec n (j + k)) as [->|Hne].
        -- replace (j + k - k)%nat with j by lia. split_tests; reflexivity.
        -- split_tests; rewrite ?Z.lor_0_r; reflexivity.
Qed.

Lemma op_shr_spec a shift :
  wf WIDTH a ->
  wf WIDTH (op_shr WIDTH a shift) /\ value (op_shr WIDTH a shift) = value a / 2 ^ Z.of_nat shift.
Proof.
  intros Ha. assert (HF : Forall (word 32) a) by apply Ha.
  destruct (shr_loop a (shift / 32) (shift mod 32) WIDTH (le_n _)) as [L E].
  change (fold_left _ _ _) with (op_shr WIDTH a shift) in L, E.
  pose proof (Nat.mod_upper_bound shift 32 ltac:(lia)) as Hs. pose proof (Nat.div_mod_eq shift 32) as D.
  set (k := (shift / 32)%nat) in *. set (s := (shift mod 32)%nat) in *. clearbody k s. subst shift.
  assert (W : wf WIDTH (op_shr WIDTH a (32 * k + s))).
  { apply wf_intro; [assumption|]. intros i Hi. rewrite E by assumption. unfold shr_word.
    assert (G : forall (c : bool) x, word 32 x -> word 32 (if c then x else 0)) by (intros [] x Hx; auto with word).
    apply word_lor; [lia | |]; apply G; [apply word_u32|].
    apply word_shiftr; [lia | lia | apply (wf_nth WIDTH), Ha]. }
  split; [assumption|]. rewrite <- Z.shiftr_div_pow2 by lia.
  rewrite (value_of_bits _ (Z.shiftr (value a) (Z.of_nat (32 * k + s)))); [|assumption|].
  - apply Z.mod_small. pose proof (value_bound _ _ Ha). rewrite Z.shiftr_div_pow2 by lia. split.
    + apply Z.div_pos; [lia | apply Z.pow_pos_nonneg; lia].
    + apply Z.le_lt_trans with (value a); [|lia]. apply Z.div_le_upper_bound; [apply Z.pow_pos_nonneg; lia|].
      assert (1 <= 2 ^ Z.of_nat (32 * k + s)) by (apply (Z.pow_le_mono_r 2 0); lia). nia.
  - intros j b Hj Hb. rewrite E by assumption. unfold shr_word. rewrite Z.lor_spec, Z.shiftr_spec by lia.
    rewrite testbit_value by (assumption || lia).
    assert (Hover : forall i c, (WIDTH <= i)%nat -> Z.testbit a.[i] c = false)
      by (intros i c Hi; rewrite nth_overflow by (destruct Ha; lia); apply Z.testbit_0_l).
    destruct (Z.lt_ge_cases (b + Z.of_nat s) 32) as [Hlt|Hge].
    + replace (32 * Z.of_nat j + b + Z.of_nat (32 * k + s)) with ((b + Z.of_nat s) + Z.of_nat (j + k) * 32) by lia.
      rewrite Z.mod_add, Z.mod_small, Z.div_add, Z.div_small, Z.add_0_l, Nat2Z.id by lia.
      replace (Z.testbit (if ((j + k + 1 <? WIDTH) && negb (s =? 0))%nat%bool then _ else _) b) with false.
      2:{ destruct (_ && _) eqn:C; [|now rewrite Z.testbit_0_l].
          apply andb_true_iff in C as [_ C]. apply negb_true_iff, Nat.eqb_neq in C.
          unfold u32. rewrite testbit_mod, Z.shiftl_spec_low by lia. now rewrite andb_false_r. }
      rewrite orb_false_l. destruct (Nat.ltb_spec (j + k) WIDTH).
      * now rewrite Z.shiftr_spec by lia.
      * now rewrite Z.testbit_0_l, Hover by lia.
    + replace (32 * Z.of_nat j + b + Z.of_nat (32 * k + s)) with ((b + Z.of_nat s - 32) + Z.of_nat (j + k + 1) * 32) by lia.
      rewrite Z.mod_add, Z.mod_small, Z.div_add, Z.div_small, Z.add_0_l, Nat2Z.id by lia.
      replace (Z.testbit (if (j + k <? WIDTH)%nat then _ else _) b) with false.
      2:{ destruct (_ <? _)%nat; [|now rewrite Z.testbit_0_l].
          rewrite Z.shiftr_spec, (word_testbit_high 32) by (try apply (wf_nth WIDTH); assumption || lia). reflexivity. }
      rewrite orb_false_r. destruct (Nat.eqb_spec s 0); [lia|]. cbn [negb]. rewrite andb_true_r.
      destruct (Nat.ltb_spec (j + k + 1) WIDTH).
      * unfold u32. rewrite testbit_mod, Z.shiftl_spec by lia. destruct (Z.ltb_spec b 32); [|lia].
        cbn [andb]. f_equal. lia.
      * now rewrite Z.testbit_0_l, Hover by lia.
Qed.

(** * The number of bits *)

Lemma top_bit_spec n w :
  0 <= w -> (Z.of_nat n < 32) -> (forall i, Z.of_nat n < i -> Z.testbit w i = false) -> w <> 0 ->
  Z.of_nat (match top_bit n w with Some b => b | None => 0%nat end) = Z.log2 w.
Proof.
  intros Hw. induction n as [|n IH]; intros Hn Hb H0; cbn [top_bit].
  - assert (w <= 1); [|destruct (Z.eq_dec w 1) as [->|]; [reflexivity | lia]].
    assert (Z.log2 w <= 0); [|apply Z.log2_null; pose proof (Z.log2_nonneg w); lia].
    destruct (Z.le_gt_cases (Z.log2 w) 0); [assumption|].
    pose proof (Z.bit_log2 w ltac:(lia)). rewrite Hb in * by lia. discriminate.
  - assert (E : negb ((w &: Z.shiftl 1 (Z.of_nat (S n))) =? 0) = Z.testbit w (Z.of_nat (S n))).
    { rewrite Z.shiftl_mul_pow2, Z.mul_1_l by lia.
      destruct (Z.testbit w (Z.of_nat (S n))) eqn:T.
      - apply negb_true_iff, Z.eqb_neq. intros C. apply (f_equal (fun z => Z.testbit z (Z.of_nat (S n)))) in C.
        rewrite Z.land_spec, T, Z.pow2_bits_true, Z.testbit_0_l in C by lia. discriminate.
      - apply negb_false_iff, Z.eqb_eq. apply Z.bits_inj'. intros i Hi.
        rewrite Z.land_spec, Z.testbit_0_l. destruct (Z.eq_dec i (Z.of_nat (S n))) as [->|Hne].
        + now rewrite T.
        + rewrite Z.pow2_bits_false by lia. apply andb_false_r. }
    rewrite E. destruct (Z.testbit w (Z.of_nat (S n))) eqn:T.
    + symmetry. apply Z.log2_bits_unique; [assumption|]. intros i Hi. apply Hb. lia.
    + apply IH; [lia | | assumption]. intros i Hi.
      destruct (Z.eq_dec i (Z.of_nat (S n))) as [->|]; [assumption | apply Hb; lia].
Qed.

Lemma bits_from_spec n pn :
  wf WIDTH pn -> (n <= WIDTH)%nat ->
  let x := sumw (fun i => pn.[i]) n in
  Z.of_nat (bits_from n pn) = if x =? 0 then 0 else Z.log2 x + 1.
Proof.
  intros Hp. induction n as [|n IH]; intros Hn; cbv zeta in *; [reflexivity|]. cbn [bits_from sumw].
  pose proof (wf_nth _ _ n Hp) as Hw.
  assert (B : 0 <= sumw (fun i => pn.[i]) n < modulus n).
  { assert (W : wf n (firstn n pn)) by (destruct Hp; split; [rewrite length_firstn; lia | now apply Forall_take]).
    pose proof (value_bound _ _ W) as V. rewrite (value_of n) in V by apply W.
    rewrite (sumw_ext _ (fun i => pn.[i])) in V by (intros; apply nth_firstn_lt; lia). exact V. }
  specialize (IH ltac:(lia)). set (x := sumw _ n) in *. clearbody x.
  destruct (Z.eqb_spec pn.[n] 0) as [E|E]; cbn [negb].
  - rewrite E. replace (x + 0 * modulus n) with x by lia. exact IH.
  - pose proof (top_bit_spec 31 pn.[n] ltac:(unfold word in Hw; lia) ltac:(lia)
      (fun i Hi => word_testbit_high 32 pn.[n] i ltac:(lia) Hw ltac:(lia)) E) as T.
    unfold word in Hw. pose proof (modulus_pos n) as M.
    destruct (Z.eqb_spec (x + pn.[n] * modulus n) 0); [nia|].
    assert (L : Z.log2 (x + pn.[n] * modulus n) = 32 * Z.of_nat n + Z.log2 pn.[n]).
    { apply Z.log2_unique; [pose proof (Z.log2_nonneg pn.[n]); lia|].
      pose proof (Z.log2_spec pn.[n] ltac:(lia)) as [L1 L2]. pose proof (Z.log2_nonneg pn.[n]).
      rewrite <- Z.add_succ_r, !Z.pow_add_r by lia. fold (modulus n). nia. }
    rewrite L, <- T. destruct (top_bit 31 pn.[n]); lia.
Qed.

Lemma bits_spec pn :
  wf WIDTH pn -> Z.of_nat (bits WIDTH pn) = if value pn =? 0 then 0 else Z.log2 (value pn) + 1.
Proof.
  intros Hp. unfold bits. rewrite bits_from_spec by auto. now rewrite <- (value_of WIDTH) by apply Hp.
Qed.

(** A number lies below the power of two that its bit count names. *)
Lemma bits_bound pn :
  wf WIDTH pn -> value pn < 2 ^ Z.of_nat (bits WIDTH pn) /\ (bits WIDTH pn <= 32 * WIDTH)%nat /\
  (value pn <> 0 -> 2 ^ (Z.of_nat (bits WIDTH pn) - 1) <= value pn /\ (0 < bits WIDTH pn)%nat) /\
  (value pn = 0 -> bits WIDTH pn = 0%nat).
Proof.
  intros Hp. pose proof (bits_spec pn Hp) as B. pose proof (value_bound _ _ Hp) as V.
  destruct (Z.eqb_spec (value pn) 0) as [E|E].
  - replace (bits WIDTH pn) with 0%nat by lia. rewrite E. repeat split; lia.
  - pose proof (Z.log2_spec (value pn) ltac:(lia)) as [L1 L2]. pose proof (Z.log2_nonneg (value pn)).
    assert (U : Z.log2 (value pn) < 32 * Z.of_nat WIDTH) by (apply Z.log2_lt_pow2; [lia | exact (proj2 V)]).
    rewrite B. split; [now rewrite Z.add_1_r|]. split; [lia|]. split; [|lia].
    intros _. split; [now replace (Z.log2 (value pn) + 1 - 1) with (Z.log2 (value pn)) by lia | lia].
Qed.

(** * Construction from a word *)

Context (HW : (2 <= WIDTH)%nat).

Lemma of_u64_spec b :
  0 <= b < 2 ^ 64 -> wf WIDTH (base_uint_of_u64 WIDTH b) /\ value (base_uint_of_u64 WIDTH b) = b.
Proof.
  intros Hb. unfold base_uint_of_u64.
  assert (E : forall s pn, (forall i, In i s -> pn.[i] = 0) -> fold_left (fun pn i => pn.[i := 0]) s pn = pn).
  { induction s as [|i s IH]; intros pn Hz; [reflexivity|]. rewrite fold_left_cons.
    assert (U : pn.[i := 0] = pn).
    { apply (list_ext 0); [apply length_upd|]. intros j Hj. rewrite length_upd in Hj.
      destruct (Nat.eq_dec i j) as [->|]; [rewrite nth_upd_eq by assumption; symmetry; apply Hz; now left
        | now apply nth_upd_ne]. }
    rewrite U. apply IH. intros j Hj. apply Hz. now right. }
  assert (Lz : length (base_uint_zero WIDTH) = WIDTH) by apply repeat_length.
  rewrite E.
  2:{ intros i Hi. apply in_seq in Hi. rewrite !nth_upd_ne by lia. apply nth_repeat. }
  split.
  - apply wf_upd; [|apply word_u32]. apply wf_upd; [apply wf_zero | apply word_u32].
  - rewrite !value_upd, nth_upd_ne by (rewrite ?length_upd; lia).
    unfold base_uint_zero. rewrite value_zeros, !nth_repeat. unfold modulus, u32.
    rewrite Z.shiftr_div_pow2 by lia. change (32 * Z.of_nat 0) with 0. change (32 * Z.of_nat 1) with 32.
    rewrite (Z.mod_small (b / 2 ^ 32)) by (split; [apply Z.div_pos; lia | apply Z.div_lt_upper_bound; lia]).
    pose proof (Z.div_mod b (2 ^ 32) ltac:(lia)). lia.
Qed.

(** * Division *)

(** Setting a bit that is clear. *)
Lemma set_bit_spec q n x :
  wf WIDTH q -> (n < 32 * WIDTH)%nat -> value q = 2 ^ Z.of_nat (S n) * x ->
  let q' := q.[(n / 32) := q.[n / 32] |: Z.shiftl 1 (Z.of_nat (n mod 32))] in
  wf WIDTH q' /\ value q' = value q + 2 ^ Z.of_nat n.
Proof.
  intros Hq Hn Hx. cbv zeta. pose proof (Nat.mod_upper_bound n 32 ltac:(lia)) as Hm.
  pose proof (Nat.div_mod_eq n 32) as D. assert (Hd : (n / 32 < WIDTH)%nat) by lia.
  assert (Hclear : Z.testbit q.[n / 32] (Z.of_nat (n mod 32)) = false).
  { pose proof (testbit_value q (Z.of_nat n) (proj2 Hq) ltac:(lia)) as T.
    replace (Z.to_nat (Z.of_nat n / 32)) with (n / 32)%nat in T by lia.
    replace (Z.of_nat n mod 32) with (Z.of_nat (n mod 32)) in T by lia.
    rewrite <- T, Hx, Z.mul_comm, <- Z.shiftl_mul_pow2, Z.shiftl_spec_low by lia. reflexivity. }
  rewrite Z.shiftl_mul_pow2, Z.mul_1_l by lia.
  pose proof (wf_nth _ _ (n / 32) Hq) as Hw.
  assert (Hlor : q.[n / 32] |: 2 ^ Z.of_nat (n mod 32) = q.[n / 32] + 2 ^ Z.of_nat (n mod 32)).
  { assert (Hdis : q.[n / 32] &: 2 ^ Z.of_nat (n mod 32) = 0).
    { apply Z.bits_inj'. intros i Hi. rewrite Z.land_spec, Z.testbit_0_l.
      destruct (Z.eq_dec i (Z.of_nat (n mod 32))) as [->|]; [now rewrite Hclear|].
      rewrite Z.pow2_bits_false by lia. apply andb_false_r. }
    rewrite <- Z.lxor_lor by assumption. symmetry. now apply Z.add_nocarry_lxor. }
  split.
  - apply wf_upd; [assumption|]. apply word_lor; [lia | assumption|].
    split; [apply Z.pow_nonneg; lia | apply Z.pow_lt_mono_r; lia].
  - rewrite value_upd, Hlor by (destruct Hq; lia). unfold modulus.
    replace (2 ^ Z.of_nat n) with (2 ^ Z.of_nat (n mod 32) * 2 ^ (32 * Z.of_nat (n / 32)))
      by (rewrite <- Z.pow_add_r by lia; f_equal; lia). ring.
Qed.

(** The loop: as long as the divisor is [d * 2 ^ (n - 1)], the number at hand is
    below [d * 2 ^ n] and the quotient so far is a multiple of [2 ^ n], the loop
    adds the quotient of the number and leaves the remainder. *)
Lemma div_loop_spec n quot num div d x :
  wf WIDTH quot -> wf WIDTH num -> wf WIDTH div -> (n <= 32 * WIDTH)%nat -> 0 < d ->
  value div = d * 2 ^ (Z.of_nat n - 1) \/ n = 0%nat ->
  value num < d * 2 ^ Z.of_nat n -> value quot = 2 ^ Z.of_nat n * x ->
  let '(quot', num') := div_loop WIDTH n quot num div in
  wf WIDTH quot' /\ wf WIDTH num' /\
  value quot' = value quot + value num / d /\ value num' = value num mod d.
Proof.
  revert quot num div x; induction n as [|n IH]; intros quot num div x Hq Hn Hd Hlen Hd0 Ed Hlt Hx.
  - cbn [div_loop]. pose proof (value_bound _ _ Hn). rewrite Z.pow_0_r in Hlt.
    rewrite Z.div_small, Z.mod_small by lia. repeat split; auto; try apply Hq; try apply Hn; lia.
  - destruct Ed as [Ed|]; [|lia]. replace (Z.of_nat (S n) - 1) with (Z.of_nat n) in Ed by lia.
    cbn [div_loop]. pose proof (value_bound _ _ Hn) as Bn. rewrite CompareTo_ge by assumption. rewrite Ed.
    rewrite Nat2Z.inj_succ, Z.pow_succ_r in Hlt, Hx by lia.
    assert (P : 0 < 2 ^ Z.of_nat n) by (apply Z.pow_pos_nonneg; lia).
    destruct (op_shr_spec div 1 Hd) as [Hs Vs]. rewrite Ed in Vs. change (2 ^ Z.of_nat 1) with 2 in Vs.
    assert (Ed' : value (op_shr WIDTH div 1) = d * 2 ^ (Z.of_nat n - 1) \/ n = 0%nat).
    { destruct n as [|n']; [now right | left]. rewrite Vs, Nat2Z.inj_succ, Z.pow_succ_r by lia.
      replace (Z.succ (Z.of_nat n') - 1) with (Z.of_nat n') by lia.
      replace (d * (2 * 2 ^ Z.of_nat n')) with (d * 2 ^ Z.of_nat n' * 2) by ring. apply Z.div_mul. lia. }
    destruct (Z.leb_spec (d * 2 ^ Z.of_nat n) (value num)) as [Hle|Hgt].
    + destruct (set_bit_spec quot n x Hq ltac:(lia)) as [Hq' Vq'];
        [rewrite Nat2Z.inj_succ, Z.pow_succ_r by lia; exact Hx|].
      destruct (op_sub_spec WIDTH HW num div Hn Hd) as [Hn' Vn'].
      rewrite Ed, Z.mod_small in Vn' by lia.
      specialize (IH _ _ _ (2 * x + 1) Hq' Hn' Hs ltac:(lia) Hd0 Ed' ltac:(lia)).
      specialize (IH ltac:(rewrite Vq', Hx; ring)).
      destruct (div_loop WIDTH n _ _ _) as [q' r']. destruct IH as (W1 & W2 & V1 & V2).
      repeat split; try apply W1; try apply W2.
      * rewrite V1, Vq', Vn'.
        replace (value num) with (value num - d * 2 ^ Z.of_nat n + 2 ^ Z.of_nat n * d) at 2 by ring.
        rewrite Z.div_add by lia. ring.
      * rewrite V2, Vn'.
        replace (value num) with (value num - d * 2 ^ Z.of_nat n + 2 ^ Z.of_nat n * d) at 2 by ring.
        now rewrite Z.mod_add by lia.
    + apply (IH _ _ _ (2 * x)); auto; [lia|]. rewrite Hx. ring.
Qed.

(** Division throws exactly when the divisor is zero, and otherwise returns the
    quotient. *)
Lemma op_div_spec a b :
  wf WIDTH a -> wf WIDTH b ->
  match op_div WIDTH a b with
  | None => value b = 0
  | Some q => value b <> 0 /\ wf WIDTH q /\ value q = value a / value b
  end.
Proof.
  intros Ha Hb. unfold op_div.
  pose proof (value_bound _ _ Ha) as Ba. pose proof (value_bound _ _ Hb) as Bb.
  destruct (bits_bound a Ha) as (A1 & A2 & A3 & A4). destruct (bits_bound b Hb) as (B1 & B2 & B3 & B4).
  destruct (Nat.eqb_spec (bits WIDTH b) 0) as [E|E].
  - destruct (Z.eq_dec (value b) 0); [assumption|]. destruct (B3 ltac:(assumption)). lia.
  - assert (H0 : value b <> 0) by (intros C; apply E, B4, C). destruct (B3 H0) as [B5 B6].
    destruct (of_u64_spec 0 ltac:(lia)) as [Wz Vz].
    destruct (Nat.ltb_spec (bits WIDTH a) (bits WIDTH b)) as [Hlt|Hge].
    + split; [assumption|]. split; [assumption|]. rewrite Vz. symmetry. apply Z.div_small. split; [lia|].
      apply Z.lt_le_trans with (2 ^ Z.of_nat (bits WIDTH a)); [assumption|].
      apply Z.le_trans with (2 ^ (Z.of_nat (bits WIDTH b) - 1)); [apply Z.pow_le_mono_r; lia | assumption].
    + set (s := (bits WIDTH a - bits WIDTH b)%nat).
      destruct (op_shl_spec b s Hb) as [Ws Vs].
      assert (Hfit : value b * 2 ^ Z.of_nat s < modulus WIDTH).
      { apply Z.lt_le_trans with (2 ^ Z.of_nat (bits WIDTH b) * 2 ^ Z.of_nat s).
        - apply Z.mul_lt_mono_pos_r; [apply Z.pow_pos_nonneg; lia | assumption].
        - rewrite <- Z.pow_add_r by lia. unfold modulus. apply Z.pow_le_mono_r; lia. }
      rewrite Z.mod_small in Vs by (split; [apply Z.mul_nonneg_nonneg; [lia | apply Z.pow_nonneg; lia] | assumption]).
      pose proof (div_loop_spec (S s) (base_uint_of_u64 WIDTH 0) a (op_shl WIDTH b s) (value b) 0
        Wz Ha Ws ltac:(lia) ltac:(lia)) as D.
      specialize (D ltac:(left; rewrite Vs; do 2 f_equal; lia)).
      specialize (D ltac:(apply Z.lt_le_trans with (2 ^ Z.of_nat (bits WIDTH a)); [assumption|];
        replace (Z.of_nat (bits WIDTH a)) with ((Z.of_nat (bits WIDTH b) - 1) + Z.of_nat (S s)) by lia;
        rewrite Z.pow_add_r by lia; apply Z.mul_le_mono_nonneg_r; [apply Z.pow_nonneg; lia | assumption])).
      specialize (D ltac:(rewrite Vz; ring)).
      destruct (div_loop WIDTH (S s) _ _ _) as [q r]. destruct D as (W1 & _ & V1 & _).
      split; [assumption|]. split; [assumption|]. cbn [fst]. rewrite V1, Vz. ring.
Qed.
End Width.
