(* ===== verification/Compact.v ===== *)
(** The compact encoding of difficulty targets ([arith_uint256::SetCompact] and
    [GetCompact]): what the code computes, as functions on integers, and the round
    trips between them. *)
From Stdlib Require Import ZifyNat.
From S2P Require Import Prelude SphTypes ArithUint ArithUintProofs.
Import ArithUint.

(** * The encoding on integers *)

Definition csize (c : Z) : Z := c / 2 ^ 24.
Definition cmant (c : Z) : Z := c mod 2 ^ 23.

(** mantissa * 256^(size - 3), rounded down. *)
Definition decode (c : Z) : Z :=
  if csize c <=? 3 then cmant c / 2 ^ (8 * (3 - csize c)) else cmant c * 2 ^ (8 * (csize c - 3)).

(** The size is that of the number with a clear sign bit in front. *)
Definition esize (v : Z) : Z := (Z.log2 v + 1) / 8 + 1.
Definition emant (v : Z) : Z :=
  if esize v <=? 3 then v * 2 ^ (8 * (3 - esize v)) else v / 2 ^ (8 * (esize v - 3)).
Definition compact (v : Z) : Z := if v =? 0 then 0 else esize v * 2 ^ 24 + emant v.

(** A mantissa has 16 to 23 bits: the first byte is not zero, or the next one
    starts with a 1. *)
Lemma emant_bound v : 0 < v -> 2 ^ 15 <= emant v < 2 ^ 23.
Proof.
  intros Hv. pose proof (Z.log2_spec v Hv) as [L1 L2]. pose proof (Z.log2_nonneg v).
  unfold emant, esize. set (b := Z.log2 v) in *. clearbody b.
  pose proof (Z.div_mod (b + 1) 8 ltac:(lia)) as D. pose proof (Z.mod_pos_bound (b + 1) 8 ltac:(lia)) as M.
  set (q := (b + 1) / 8) in *. set (r := (b + 1) mod 8) in *. clearbody q r.
  rewrite <- Z.add_1_r in L2. replace (b + 1) with (8 * q + r) in L2 by lia.
  replace b with (8 * q + r - 1) in L1 by lia.
  destruct (Z.leb_spec (q + 1) 3).
  - assert (P : 0 < 2 ^ (8 * (3 - (q + 1)))) by (apply Z.pow_pos_nonneg; lia).
    assert (U : 2 ^ (8 * q + r) * 2 ^ (8 * (3 - (q + 1))) <= 2 ^ 23)
      by (rewrite <- Z.pow_add_r by lia; apply Z.pow_le_mono_r; lia).
    assert (Lw : 2 ^ 15 <= 2 ^ (8 * q + r - 1) * 2 ^ (8 * (3 - (q + 1))))
      by (rewrite <- Z.pow_add_r by lia; apply Z.pow_le_mono_r; lia).
    split; [apply Z.le_trans with (1 := Lw); apply Z.mul_le_mono_nonneg_r; lia|].
    apply Z.lt_le_trans with (2 := U). apply Z.mul_lt_mono_pos_r; assumption.
  - assert (P : 0 < 2 ^ (8 * (q + 1 - 3))) by (apply Z.pow_pos_nonneg; lia). split.
    + apply Z.div_le_lower_bound; [assumption|]. rewrite <- Z.pow_add_r by lia.
      apply Z.le_trans with (2 := L1). apply Z.pow_le_mono_r; lia.
    + apply Z.div_lt_upper_bound; [assumption|]. rewrite <- Z.pow_add_r by lia.
      apply Z.lt_le_trans with (1 := L2). apply Z.pow_le_mono_r; lia.
Qed.

Lemma esize_bound v : 0 < v < 2 ^ 256 -> 1 <= esize v <= 33.
Proof.
  intros Hv. unfold esize. pose proof (Z.log2_nonneg v).
  assert (Z.log2 v < 256) by (apply Z.log2_lt_pow2; lia).
  pose proof (Z.div_le_mono 0 (Z.log2 v + 1) 8). pose proof (Z.div_le_mono (Z.log2 v + 1) 256 8).
  change (0 / 8) with 0 in *. change (256 / 8) with 32 in *. lia.
Qed.

Lemma compact_fields v : 0 < v < 2 ^ 256 -> csize (compact v) = esize v /\ cmant (compact v) = emant v.
Proof.
  intros Hv. pose proof (emant_bound v ltac:(lia)) as M. unfold csize, cmant, compact.
  destruct (Z.eqb_spec v 0); [lia|]. split.
  - rewrite Z.add_comm, Z.div_add, Z.div_small by lia. lia.
  - change (2 ^ 24) with (2 * 2 ^ 23). rewrite Z.mul_assoc, Z.add_comm, Z.mod_add by lia. apply Z.mod_small. lia.
Qed.

(** What is lost in the encoding of [v]: the bytes below the mantissa. *)
Definition lost (v : Z) : Z := if esize v <=? 3 then 0 else v mod 2 ^ (8 * (esize v - 3)).

Lemma decode_compact v : 0 <= v < 2 ^ 256 -> decode (compact v) = v - lost v.
Proof.
  intros Hv. destruct (Z.eq_dec v 0) as [->|Hne]; [reflexivity|].
  destruct (compact_fields v ltac:(lia)) as [E1 E2]. unfold decode. rewrite E1, E2. unfold emant, lost.
  destruct (Z.leb_spec (esize v) 3).
  - rewrite Z.div_mul by (apply Z.pow_nonzero; lia). lia.
  - pose proof (Z.div_mod v (2 ^ (8 * (esize v - 3))) ltac:(apply Z.pow_nonzero; lia)). lia.
Qed.

Lemma lost_bound v : 0 <= v -> 0 <= lost v /\ lost v * 2 ^ 15 <= v.
Proof.
  intros Hv. unfold lost. destruct (Z.leb_spec (esize v) 3); [lia|].
  assert (P : 0 < 2 ^ (8 * (esize v - 3))) by (apply Z.pow_pos_nonneg; lia).
  pose proof (Z.mod_pos_bound v _ P) as M. split; [lia|].
  destruct (Z.eq_dec v 0) as [->|Hne]; [rewrite Z.mod_0_l; lia|].
  pose proof (emant_bound v ltac:(lia)) as B. unfold emant in B. destruct (Z.leb_spec (esize v) 3); [lia|].
  pose proof (Z.div_mod v (2 ^ (8 * (esize v - 3))) ltac:(lia)). nia.
Qed.

(** Encodings that the code produces: at least three bytes, normalised mantissa,
    no sign. *)
Definition canonical (c : Z) : Prop := 3 <= csize c /\ 2 ^ 15 <= c mod 2 ^ 24 < 2 ^ 23 /\ decode c < 2 ^ 256.

Lemma compact_decode c : canonical c -> compact (decode c) = c.
Proof.
  intros (Hs & Hm & Hv).
  assert (Em : cmant c = c mod 2 ^ 24).
  { unfold cmant. pose proof (Z.div_mod c (2 ^ 24) ltac:(lia)) as D. rewrite D at 1.
    change (2 ^ 24) with (2 ^ 23 * 2) at 1. rewrite <- Z.mul_assoc, Z.add_comm, Z.mul_comm, Z.mod_add by lia.
    apply Z.mod_small. lia. }
  assert (Ed : decode c = (c mod 2 ^ 24) * 2 ^ (8 * (csize c - 3))).
  { unfold decode. rewrite Em. destruct (Z.leb_spec (csize c) 3); [|reflexivity].
    replace (csize c) with 3 by lia. change (2 ^ (8 * (3 - 3))) with 1. now rewrite Z.div_1_r, Z.mul_1_r. }
  assert (P : 0 < 2 ^ (8 * (csize c - 3))) by (apply Z.pow_pos_nonneg; lia).
  set (m := c mod 2 ^ 24) in *.
  assert (L : Z.log2 (decode c) = Z.log2 m + 8 * (csize c - 3)).
  { rewrite Ed, Z.log2_mul_pow2 by lia. lia. }
  assert (B : 15 <= Z.log2 m < 23).
  { split; [apply Z.log2_le_pow2; lia | apply Z.log2_lt_pow2; lia]. }
  assert (Es : esize (decode c) = csize c).
  { unfold esize. rewrite L.
    replace (Z.log2 m + 8 * (csize c - 3) + 1) with (Z.log2 m + 1 - 16 + (csize c - 1) * 8) by lia.
    rewrite Z.div_add, Z.div_small by lia. lia. }
  unfold compact. destruct (Z.eqb_spec (decode c) 0) as [E0|E0]; [nia|].
  unfold emant. rewrite Es.
  pose proof (Z.div_mod c (2 ^ 24) ltac:(lia)) as D. fold (csize c) in D. fold m in D.
  destruct (Z.leb_spec (csize c) 3).
  - replace (csize c) with 3 in * by lia. rewrite Ed. change (2 ^ (8 * (3 - 3))) with 1. lia.
  - rewrite Ed, Z.div_mul by lia. lia.
Qed.

(** * The code computes this encoding *)

Lemma csize_shiftr c : Z.shiftr c 24 = csize c.
Proof. now rewrite Z.shiftr_div_pow2. Qed.

Lemma cmant_land c : c &: 0x007fffff = cmant c.
Proof. exact (land_ones_mod 23 c ltac:(lia)). Qed.

Lemma csize_bound c : 0 <= c < 2 ^ 32 -> 0 <= csize c < 256.
Proof. intros Hc. unfold csize. split; [apply Z.div_pos; lia | apply Z.div_lt_upper_bound; lia]. Qed.

Lemma cmant_bound c : 0 <= cmant c < 2 ^ 23.
Proof. apply Z.mod_pos_bound. lia. Qed.

(** The overflow test on the size and the mantissa is the test that the number does
    not fit in 256 bits. *)
Lemma overflow_spec s m :
  3 < s -> 0 <= m < 2 ^ 23 ->
  negb (m =? 0) && ((34 <? s) || ((0xff <? m) && (33 <? s)) || ((0xffff <? m) && (32 <? s))) =
  (2 ^ 256 <=? m * 2 ^ (8 * (s - 3))).
Proof.
  intros Hs Hm. destruct (Z.eqb_spec m 0) as [->|H0]; [reflexivity|]. cbn [negb andb].
  destruct (Z.leb_spec (2 ^ 256) (m * 2 ^ (8 * (s - 3)))) as [L|L].
  - assert (32 < s).
    { destruct (Z.le_gt_cases s 32); [|assumption]. exfalso.
      pose proof (Z.pow_le_mono_r 2 (8 * (s - 3)) 232 ltac:(lia) ltac:(lia)). change (2 ^ 256) with (2 ^ 24 * 2 ^ 232) in L. nia. }
    destruct (Z.ltb_spec 34 s); [reflexivity|]. assert (E : s = 33 \/ s = 34) by lia. destruct E; subst s.
    + change (2 ^ (8 * (33 - 3))) with (2 ^ 240) in L. change (2 ^ 256) with (2 ^ 16 * 2 ^ 240) in L.
      destruct (Z.ltb_spec 0xffff m); [now destruct (0xff <? m) | nia].
    + change (2 ^ (8 * (34 - 3))) with (2 ^ 248) in L. change (2 ^ 256) with (2 ^ 8 * 2 ^ 248) in L.
      destruct (Z.ltb_spec 0xff m); [reflexivity | nia].
  - assert (s <= 34).
    { destruct (Z.le_gt_cases s 34); [assumption|]. exfalso.
      pose proof (Z.pow_le_mono_r 2 256 (8 * (s - 3)) ltac:(lia) ltac:(lia)). nia. }
    destruct (Z.ltb_spec 34 s); [lia|]. cbn [orb].
    destruct (Z.ltb_spec 33 s) as [S|S].
    + replace s with 34 in * by lia. change (2 ^ (8 * (34 - 3))) with (2 ^ 248) in L.
      change (2 ^ 256) with (2 ^ 8 * 2 ^ 248) in L. destruct (Z.ltb_spec 0xff m); [nia|]. destruct (Z.ltb_spec 0xffff m); [lia | reflexivity].
    + rewrite Bool.andb_false_r. destruct (Z.ltb_spec 32 s); [|now rewrite Bool.andb_false_r].
      replace s with 33 in * by lia. change (2 ^ (8 * (33 - 3))) with (2 ^ 240) in L.
      change (2 ^ 256) with (2 ^ 16 * 2 ^ 240) in L. destruct (Z.ltb_spec 0xffff m); [nia | reflexivity].
Qed.

Lemma modulus_256 : modulus W256 = 2 ^ 256.
Proof. reflexivity. Qed.

Lemma ltb_of_nat a z : 0 <= z -> (a <? Z.to_nat z)%nat = (Z.of_nat a <? z).
Proof. intros. destruct (Nat.ltb_spec a (Z.to_nat z)), (Z.ltb_spec (Z.of_nat a) z); lia. Qed.

Lemma decode_zero c : 3 < csize c -> (decode c =? 0) = (cmant c =? 0).
Proof.
  intros Hs. unfold decode. destruct (Z.leb_spec (csize c) 3); [lia|].
  assert (0 < 2 ^ (8 * (csize c - 3))) by (apply Z.pow_pos_nonneg; lia).
  destruct (Z.eqb_spec (cmant c) 0) as [->|]; [reflexivity|]. apply Z.eqb_neq. nia.
Qed.

Lemma decode_nonneg c : 0 <= decode c.
Proof.
  pose proof (cmant_bound c). unfold decode. destruct (Z.leb_spec (csize c) 3).
  - apply Z.div_pos; [lia | apply Z.pow_pos_nonneg; lia].
  - apply Z.mul_nonneg_nonneg; [lia | apply Z.pow_nonneg; lia].
Qed.

Lemma SetCompact_spec c :
  0 <= c < 2 ^ 32 ->
  let '(pn, fNegative, fOverflow) := SetCompact c in
  wf W256 pn /\ value pn = decode c mod 2 ^ 256 /\
  fNegative = negb (decode c =? 0) && Z.testbit c 23 /\ fOverflow = (2 ^ 256 <=? decode c).
Proof.
  intros Hc. pose proof (csize_bound c Hc) as Hs. pose proof (cmant_bound c) as Hm.
  unfold SetCompact. rewrite csize_shiftr, cmant_land. cbv zeta.
  replace (Z.to_nat (csize c) <=? 3)%nat with (csize c <=? 3)
    by (destruct (Z.leb_spec (csize c) 3), (Nat.leb_spec (Z.to_nat (csize c)) 3); lia).
  rewrite (land_bit c 23 ltac:(lia) : negb ((c &: 0x00800000) =? 0) = _), !ltb_of_nat by lia.
  pose proof (decode_nonneg c) as D0. destruct (Z.leb_spec (csize c) 3) as [L|L].
  - rewrite Z2Nat.id, Z.shiftr_div_pow2 by lia.
    assert (Ed : cmant c / 2 ^ (8 * (3 - csize c)) = decode c)
      by (unfold decode; destruct (Z.leb_spec (csize c) 3); [reflexivity | lia]).
    rewrite Ed.
    assert (B : decode c < 2 ^ 23).
    { rewrite <- Ed. apply Z.div_lt_upper_bound; [apply Z.pow_pos_nonneg; lia|].
      assert (1 <= 2 ^ (8 * (3 - csize c))) by (pose proof (Z.pow_pos_nonneg 2 (8 * (3 - csize c))); lia). nia. }
    destruct (of_u64_spec W256 ltac:(unfold W256; lia) (decode c) ltac:(lia)) as [Hw Hv].
    split; [exact Hw|]. split; [rewrite Hv, Z.mod_small by lia; reflexivity|]. split; [reflexivity|].
    destruct (Z.ltb_spec (Z.of_nat 34) (csize c)), (Z.ltb_spec (Z.of_nat 33) (csize c)), (Z.ltb_spec (Z.of_nat 32) (csize c)); lia.
  - destruct (of_u64_spec W256 ltac:(unfold W256; lia) (cmant c) ltac:(lia)) as [Hw Hv].
    destruct (op_shl_spec W256 _ (8 * (Z.to_nat (csize c) - 3)) Hw) as [Hw2 Hv2].
    assert (Ed : decode c = cmant c * 2 ^ (8 * (csize c - 3)))
      by (unfold decode; destruct (Z.leb_spec (csize c) 3); [lia | reflexivity]).
    split; [exact Hw2|]. split; [|split].
    + rewrite Hv2, Hv, Ed. do 2 f_equal. f_equal. lia.
    + now rewrite decode_zero.
    + rewrite Ed. apply overflow_spec; assumption.
Qed.

(** The mantissa of [v] at a size of [s] bytes. *)
Definition mantissa (v s : Z) : Z := if s <=? 3 then v * 2 ^ (8 * (3 - s)) else v / 2 ^ (8 * (s - 3)).

Lemma mantissa_succ v s : mantissa v (s + 1) = mantissa v s / 256.
Proof.
  unfold mantissa. destruct (Z.leb_spec s 3), (Z.leb_spec (s + 1) 3); try lia.
  - replace (8 * (3 - s)) with (8 * (3 - (s + 1)) + 8) by lia.
    rewrite Z.pow_add_r, Z.mul_assoc by lia. change (2 ^ 8) with 256. now rewrite Z.div_mul.
  - replace s with 3 by lia. change (2 ^ (8 * (3 - 3))) with 1. change (2 ^ (8 * (3 + 1 - 3))) with 256. now rewrite Z.mul_1_r.
  - replace (8 * (s + 1 - 3)) with (8 * (s - 3) + 8) by lia.
    rewrite Z.pow_add_r by lia. change (2 ^ 8) with 256. rewrite Z.div_div; [reflexivity | apply Z.pow_nonzero; lia | lia].
Qed.

(** At the byte count of [v] the mantissa has 17 to 24 bits, and all 24 of them when
    the top bit of the first byte is set. *)
Lemma mantissa_bound v s b :
  0 < v -> 2 ^ (b - 1) <= v < 2 ^ b -> s = (b + 7) / 8 -> 1 <= b ->
  0 <= mantissa v s < 2 ^ 24 /\ (b mod 8 = 0 -> 2 ^ 23 <= mantissa v s) /\ (b mod 8 <> 0 -> mantissa v s < 2 ^ 23).
Proof.
  intros Hv Hb -> H1. pose proof (Z.div_mod (b + 7) 8 ltac:(lia)) as D. pose proof (Z.mod_pos_bound (b + 7) 8 ltac:(lia)) as M.
  pose proof (Z.div_mod b 8 ltac:(lia)) as D'. pose proof (Z.mod_pos_bound b 8 ltac:(lia)) as M'.
  set (s := (b + 7) / 8) in *. unfold mantissa.
  destruct (Z.leb_spec s 3) as [L|L].
  - set (k := 8 * (3 - s)). assert (Pk : 0 < 2 ^ k) by (apply Z.pow_pos_nonneg; lia).
    assert (Up : forall e, b + k <= e -> v * 2 ^ k < 2 ^ e).
    { intros e He. apply Z.lt_le_trans with (2 ^ b * 2 ^ k); [nia|]. rewrite <- Z.pow_add_r by lia. apply Z.pow_le_mono_r; lia. }
    repeat split.
    + nia.
    + apply Up. lia.
    + intros E. apply Z.le_trans with (2 ^ (b - 1) * 2 ^ k); [|nia]. rewrite <- Z.pow_add_r by lia. apply Z.pow_le_mono_r; lia.
    + intros E. apply Up. lia.
  - set (k := 8 * (s - 3)). assert (Pk : 0 < 2 ^ k) by (apply Z.pow_pos_nonneg; lia).
    assert (Up : forall e, 0 <= e -> b <= k + e -> v / 2 ^ k < 2 ^ e).
    { intros e He Hk. apply Z.div_lt_upper_bound; [assumption|]. rewrite <- Z.pow_add_r by lia.
      apply Z.lt_le_trans with (2 ^ b); [lia|]. apply Z.pow_le_mono_r; lia. }
    repeat split.
    + apply Z.div_pos; lia.
    + apply Up; lia.
    + intros E. apply Z.div_le_lower_bound; [assumption|]. rewrite <- Z.pow_add_r by lia.
      apply Z.le_trans with (2 ^ (b - 1)); [|lia]. apply Z.pow_le_mono_r; lia.
    + intros E. apply Up; lia.
Qed.

Lemma GetLow64_spec pn : wf W256 pn -> GetLow64 pn = value pn mod 2 ^ 64.
Proof.
  intros Hp. unfold GetLow64. pose proof (wf_nth _ _ 0 Hp) as H0. pose proof (wf_nth _ _ 1 Hp) as H1.
  destruct Hp as [L _]. destruct pn as [|x [|y t]]; try discriminate. cbn [nth value] in *.
  rewrite lor_shiftl by (lia || assumption). unfold word in *.
  replace (x + 2 ^ 32 * (y + 2 ^ 32 * value t)) with (x + y * 2 ^ 32 + value t * 2 ^ 64) by ring.
  rewrite Z.mod_add, Z.mod_small by lia. reflexivity.
Qed.

(** The first value of [nCompact] in the code. *)
Lemma GetCompact_word pn s :
  wf W256 pn -> 0 <= mantissa (value pn) (Z.of_nat s) < 2 ^ 24 ->
  (if (s <=? 3)%nat then u32 (Z.shiftl (GetLow64 pn) (8 * (3 - Z.of_nat s)))
   else u32 (GetLow64 (op_shr W256 pn (8 * (s - 3))))) = mantissa (value pn) (Z.of_nat s).
Proof.
  intros Hp B. unfold mantissa in *. pose proof (value_bound _ _ Hp) as V. unfold u32.
  destruct (Nat.leb_spec s 3) as [L|L], (Z.leb_spec (Z.of_nat s) 3); try lia.
  - rewrite GetLow64_spec, Z.shiftl_mul_pow2 by (assumption || lia).
    assert (1 <= 2 ^ (8 * (3 - Z.of_nat s))) by (pose proof (Z.pow_pos_nonneg 2 (8 * (3 - Z.of_nat s))); lia).
    rewrite (Z.mod_small (value pn)) by nia. apply Z.mod_small. lia.
  - destruct (op_shr_spec W256 pn (8 * (s - 3)) Hp) as [Hw Hv].
    rewrite GetLow64_spec, Hv by assumption.
    replace (Z.of_nat (8 * (s - 3))) with (8 * (Z.of_nat s - 3)) by lia. rewrite !Z.mod_small by lia. reflexivity.
Qed.

Lemma testbit_top m n : 0 <= n -> 0 <= m < 2 ^ (n + 1) -> Z.testbit m n = (2 ^ n <=? m).
Proof.
  intros Hn Hm. pose proof (Z.pow_pos_nonneg 2 n ltac:(lia) Hn). rewrite Z.pow_add_r in Hm by lia.
  apply Bool.eq_true_iff_eq. rewrite Z.testbit_true by lia. destruct (Z.leb_spec (2 ^ n) m) as [L|L].
  - assert (m / 2 ^ n = 1) as -> by (symmetry; apply Z.div_unique with (m - 2 ^ n); lia). easy.
  - rewrite Z.div_small by lia. easy.
Qed.

(** A mantissa with its top bit set is moved down by a byte. *)
Lemma emant_step v s :
  Z.of_nat s = (Z.log2 v + 1 + 7) / 8 -> 0 <= mantissa v (Z.of_nat s) < 2 ^ 24 ->
  ((Z.log2 v + 1) mod 8 = 0 -> 2 ^ 23 <= mantissa v (Z.of_nat s)) ->
  ((Z.log2 v + 1) mod 8 <> 0 -> mantissa v (Z.of_nat s) < 2 ^ 23) ->
  exists n, (if 2 ^ 23 <=? mantissa v (Z.of_nat s)
    then (Z.shiftr (mantissa v (Z.of_nat s)) 8, S s) else (mantissa v (Z.of_nat s), s)) = (emant v, n) /\
    Z.of_nat n = esize v.
Proof.
  intros Es M Mt Mf.
  assert (Ee : esize v = Z.of_nat s + (if (Z.log2 v + 1) mod 8 =? 0 then 1 else 0)).
  { rewrite Es. unfold esize. clear. generalize (Z.log2 v + 1) as b. intros b.
    pose proof (Z.div_mod b 8 ltac:(lia)). pose proof (Z.mod_pos_bound b 8 ltac:(lia)).
    pose proof (Z.div_mod (b + 7) 8 ltac:(lia)). pose proof (Z.mod_pos_bound (b + 7) 8 ltac:(lia)).
    destruct (Z.eqb_spec (b mod 8) 0); lia. }
  change (emant v) with (mantissa v (esize v)). rewrite Ee.
  destruct (Z.eqb_spec ((Z.log2 v + 1) mod 8) 0) as [E|E].
  - specialize (Mt E). destruct (Z.leb_spec (2 ^ 23) (mantissa v (Z.of_nat s))); [|lia].
    exists (S s). rewrite Z.shiftr_div_pow2, mantissa_succ by lia. split; [reflexivity | lia].
  - specialize (Mf E). destruct (Z.leb_spec (2 ^ 23) (mantissa v (Z.of_nat s))); [lia|].
    exists s. rewrite Z.add_0_r. split; reflexivity.
Qed.

(** The two asserts and the last two lines. *)
Lemma GetCompact_finish v n (fNegative : bool) :
  0 < v < 2 ^ 256 -> Z.of_nat n = esize v ->
  (if negb ((emant v &: u32 (Z.lnot 0x007fffff)) =? 0) then None
   else if negb (n <? 256)%nat then None
   else
     let nCompact := emant v |: u32 (Z.shiftl (Z.of_nat n) 24) in
     Some (nCompact |: (if fNegative && negb ((nCompact &: 0x007fffff) =? 0) then 0x00800000 else 0))) =
  Some (compact v + (if fNegative && true then 2 ^ 23 else 0)).
Proof.
  intros Hv En. pose proof (emant_bound v ltac:(lia)) as M. pose proof (esize_bound v Hv) as Hs.
  assert (A1 : (emant v &: u32 (Z.lnot 0x007fffff)) = 0).
  { change (u32 (Z.lnot 0x007fffff)) with (Z.shiftl (Z.ones 9) 23). apply Z.bits_inj'. intros i Hi.
    rewrite Z.land_spec, Z.testbit_0_l. destruct (Z.lt_ge_cases i 23).
    - now rewrite Z.shiftl_spec_low, Bool.andb_false_r.
    - now rewrite (word_testbit_high 23) by (unfold word; lia). }
  rewrite A1. destruct (Nat.ltb_spec n 256); [|lia]. cbv zeta. cbn [negb Z.eqb].
  assert (Ec : emant v |: u32 (Z.shiftl (Z.of_nat n) 24) = compact v).
  { unfold u32. rewrite En, Z.mod_small by (rewrite Z.shiftl_mul_pow2; lia). rewrite lor_shiftl by (unfold word; lia).
    unfold compact. destruct (Z.eqb_spec v 0); lia. }
  rewrite Ec, cmant_land. destruct (compact_fields v Hv) as [_ ->]. destruct (Z.eqb_spec (emant v) 0); [lia|].
  cbn [negb]. destruct fNegative; cbn [andb]; [|now rewrite Z.lor_0_r, Z.add_0_r].
  do 2 f_equal. rewrite <- Ec. unfold u32. rewrite En, Z.mod_small by (rewrite Z.shiftl_mul_pow2; lia).
  rewrite <- Z.lor_assoc, (Z.lor_comm _ 0x00800000), Z.lor_assoc.
  change 0x00800000 with (Z.shiftl 1 23) at 1. rewrite (lor_shiftl _ 1 23) by (unfold word; lia).
  rewrite !lor_shiftl by (unfold word; lia). lia.
Qed.

(** The two asserts of the code hold for every number. *)
Lemma GetCompact_spec pn fNegative :
  wf W256 pn ->
  GetCompact pn fNegative =
  Some (compact (value pn) + (if fNegative && negb (value pn =? 0) then 2 ^ 23 else 0)).
Proof.
  intros Hp. pose proof (value_bound _ _ Hp) as V. rewrite modulus_256 in V. unfold GetCompact.
  pose proof (bits_spec W256 pn Hp) as B. destruct (Z.eqb_spec (value pn) 0) as [E|E].
  - assert (bits W256 pn = 0%nat) as -> by lia. cbv zeta. change ((0 + 7) / 8)%nat with 0%nat.
    rewrite GetCompact_word by (try assumption; rewrite E; cbn; lia). rewrite E. cbn. now rewrite Bool.andb_false_r.
  - set (s := ((bits W256 pn + 7) / 8)%nat). cbv zeta.
    assert (Es : Z.of_nat s = (Z.log2 (value pn) + 1 + 7) / 8)
      by (unfold s; rewrite Nat2Z.inj_div, Nat2Z.inj_add, B; reflexivity).
    pose proof (Z.log2_spec (value pn) ltac:(lia)) as L. pose proof (Z.log2_nonneg (value pn)) as L0.
    destruct (mantissa_bound (value pn) (Z.of_nat s) (Z.log2 (value pn) + 1)) as (M & Mt & Mf); try assumption; try lia.
    { replace (Z.log2 (value pn) + 1 - 1) with (Z.log2 (value pn)) by lia. exact L. }
    rewrite GetCompact_word by assumption.
    rewrite (land_bit _ 23 ltac:(lia) : negb ((_ &: 0x00800000) =? 0) = _), (testbit_top _ 23) by (assumption || lia).
    destruct (emant_step (value pn) s Es M Mt Mf) as (n & -> & En).
    apply GetCompact_finish; [lia | assumption].
Qed.

(** * Round trips *)

Lemma compact_bound v : 0 <= v < 2 ^ 256 -> 0 <= compact v < 2 ^ 32.
Proof.
  intros Hv. unfold compact. destruct (Z.eqb_spec v 0); [lia|].
  pose proof (emant_bound v ltac:(lia)). pose proof (esize_bound v ltac:(lia)). lia.
Qed.

Lemma sign_bit c : c mod 2 ^ 24 < 2 ^ 23 -> Z.testbit c 23 = false.
Proof.
  intros H. pose proof (Z.mod_pos_bound c (2 ^ 24) ltac:(lia)) as B.
  replace (Z.testbit c 23) with (Z.testbit (c mod 2 ^ 24) 23) by (rewrite testbit_mod by lia; reflexivity).
  rewrite testbit_top by (change (23 + 1) with 24; lia). apply Z.leb_gt. lia.
Qed.

Lemma compact_low v : 0 <= v < 2 ^ 256 -> compact v mod 2 ^ 24 < 2 ^ 23.
Proof.
  intros Hv. unfold compact. destruct (Z.eqb_spec v 0); [reflexivity|].
  pose proof (emant_bound v ltac:(lia)). rewrite Z.add_comm, Z.mod_add, Z.mod_small by lia. lia.
Qed.

(** [SetCompact] computes mantissa * 256^(size - 3) modulo 2^256 for every 32-bit
    encoding, sets the negative flag exactly for a nonzero number with bit 23 set and
    the overflow flag exactly when the number needs more than 256 bits. *)
Theorem compact_decoding (c : Z) :
  0 <= c < 2 ^ 32 ->
  let '(pn, fNegative, fOverflow) := SetCompact c in
  wf W256 pn /\ value pn = decode c mod 2 ^ 256 /\
  (fNegative = true <-> decode c <> 0 /\ Z.testbit c 23 = true) /\
  (fOverflow = true <-> 2 ^ 256 <= decode c).
Proof.
  intros Hc. pose proof (SetCompact_spec c Hc) as S. destruct (SetCompact c) as [[pn n] o].
  destruct S as (Hw & Hv & -> & ->).
  rewrite Bool.andb_true_iff, Bool.negb_true_iff, Z.eqb_neq, Z.leb_le. auto with *.
Qed.

Lemma compact_decoding_witness :
  SetCompact 0x04923456 = ([0x12345600; 0; 0; 0; 0; 0; 0; 0], true, false) /\ decode 0x04923456 = 0x12345600 /\
  SetCompact 0xff123456 = (repeat 0 8, false, true) /\ 2 ^ 256 <= decode 0xff123456.
Proof.
  pose proof (compact_decoding 0xff123456 ltac:(lia)) as C.
  assert (E : SetCompact 0xff123456 = (repeat 0 8, false, true)) by (vm_compute; reflexivity).
  rewrite E in C. destruct C as (_ & _ & _ & O).
  split; [vm_compute; reflexivity|]. split; [vm_compute; reflexivity|]. split; [exact E|].
  apply O. reflexivity.
Defined.

(** The encoding of a target and its decoding: an encoding with a normalised
    mantissa comes back unchanged; the number that comes back from the encoding of
    [a] is [a] without its low bytes, at most a 2^15th part smaller; the asserts in
    [GetCompact] hold for every number. *)
Theorem compact_roundtrip :
  (forall c, 0 <= c < 2 ^ 32 -> canonical c ->
     exists pn, SetCompact c = (pn, false, false) /\ GetCompact pn false = Some c) /\
  (forall a, wf W256 a ->
     exists c pn, GetCompact a false = Some c /\ SetCompact c = (pn, false, false) /\
       wf W256 pn /\ value pn <= value a /\ (value a - value pn) * 2 ^ 15 <= value a).
Proof.
  split.
  - intros c Hc Hn. pose proof (SetCompact_spec c Hc) as S. destruct (SetCompact c) as [[pn n] o].
    destruct S as (Hw & Hv & -> & ->). exists pn. pose proof (decode_nonneg c) as D.
    rewrite (Z.mod_small (decode c)) in Hv by (unfold canonical in Hn; lia).
    rewrite GetCompact_spec, Hv, compact_decode by assumption. destruct Hn as (H3 & Hm & Hlt).
    rewrite sign_bit, Bool.andb_false_r, Z.add_0_r by lia. split; [|reflexivity].
    f_equal. apply Z.leb_gt. lia.
  - intros a Ha. pose proof (value_bound _ _ Ha) as Va. rewrite modulus_256 in Va.
    pose proof (compact_bound _ Va) as Bc. pose proof (SetCompact_spec _ Bc) as S.
    exists (compact (value a)). destruct (SetCompact (compact (value a))) as [[pn n] o].
    destruct S as (Hw & Hv & -> & ->). exists pn.
    destruct (lost_bound (value a) ltac:(lia)) as [L0 L1].
    rewrite decode_compact in * by assumption. rewrite GetCompact_spec by assumption.
    rewrite sign_bit, Bool.andb_false_r by now apply compact_low. cbn [andb]. rewrite Z.add_0_r.
    rewrite Z.mod_small in Hv by lia.
    repeat split; try apply Hw; try lia. f_equal. apply Z.leb_gt. lia.
Qed.

Example compact_main_limit :
  GetCompact (UintToArith256 (repeat 0xff 29 ++ [0x0f; 0; 0])) false = Some 0x1e0fffff.
Proof. vm_compute. reflexivity. Qed.

Lemma compact_roundtrip_witness :
  exists pn, SetCompact 0x1d00ffff = (pn, false, false) /\ GetCompact pn false = Some 0x1d00ffff.
Proof.
  apply (proj1 compact_roundtrip); [lia|]. unfold canonical. vm_compute. repeat split; congruence.
Defined.
