(* ===== verification/ArithUint256.v ===== *)
(** The integer type as its clients see it: what each operation of
    [base_uint<BITS>] computes, that division fails exactly on a zero divisor, that
    the comparisons and the equality on the bytes are those of the integers, and
    the conversions between [arith_uint256] and [uint256]. *)
From Stdlib Require Import ZifyNat.
From S2P Require Import Prelude SphTypes ArithUint ArithUintProofs.
Import ArithUint.

Ltac split_and := match goal with |- _ /\ _ => split end.

(** * Null words *)

Lemma value_0_nth n a : wf n a -> value a = 0 <-> forall i, a.[i] = 0.
Proof.
  intros Ha. split.
  - intros E i. assert (a = repeat 0 n) as ->; [|apply nth_repeat].
    apply (value_inj n); [assumption | apply wf_zero | now rewrite value_zeros].
  - intros E. rewrite <- (value_zeros n). f_equal. apply (list_ext 0).
    + now rewrite repeat_length, (proj1 Ha).
    + intros i Hi. now rewrite E, nth_repeat.
Qed.

Lemma all_null n a : wf n a -> forallb (fun i => a.[i] =? 0) (seq 0 n) = (value a =? 0).
Proof.
  intros Ha. apply Bool.eq_true_iff_eq. rewrite forallb_forall, Z.eqb_eq, (value_0_nth n) by assumption.
  split.
  - intros H i. destruct (Nat.lt_ge_cases i n).
    + apply Z.eqb_eq, H, in_seq. lia.
    + apply nth_overflow. rewrite (proj1 Ha). lia.
  - intros H i _. now rewrite H.
Qed.

Lemma some_not_null n x y t :
  wf n t -> existsb (fun i => negb ((x :: y :: t).[i] =? 0)) (seq 2 n) = negb (value t =? 0).
Proof.
  intros Ht. rewrite <- (all_null n t Ht). clear Ht. rewrite <- seq_shift, <- seq_shift, map_map.
  induction (seq 0 n) as [|i l IH]; [reflexivity|]. cbn [map existsb forallb]. rewrite IH, Bool.negb_andb. reflexivity.
Qed.

(** * Bitwise operations *)

Section Width.
Context (WIDTH : nat) (HW : (2 <= WIDTH)%nat).

(** A loop that combines the words of two arrays with [f] combines the integers
    with [f], when [f] works bit by bit. *)
Lemma bitwise_spec (f : Z -> Z -> Z) (fb : bool -> bool -> bool) a b :
  (forall x y i, Z.testbit (f x y) i = fb (Z.testbit x i) (Z.testbit y i)) ->
  (forall x y, word 32 x -> word 32 y -> word 32 (f x y)) ->
  (forall x y, 0 <= x < modulus WIDTH -> 0 <= y < modulus WIDTH -> 0 <= f x y < modulus WIDTH) ->
  wf WIDTH a -> wf WIDTH b ->
  let r := fold_left (fun pn i => pn.[i := f pn.[i] b.[i]]) (seq 0 WIDTH) a in
  wf WIDTH r /\ value r = f (value a) (value b).
Proof.
  intros Hf Hw Hm Ha Hb r.
  assert (Hl : length r = WIDTH) by (unfold r; rewrite (length_update_loop (fun i x => f x b.[i])); apply Ha).
  assert (E : forall i, (i < WIDTH)%nat -> r.[i] = f a.[i] b.[i]).
  { intros i Hi. unfold r. rewrite (nth_update_loop (fun i x => f x b.[i])) by (rewrite (proj1 Ha); lia).
    destruct (Nat.ltb_spec i WIDTH); [reflexivity | lia]. }
  assert (W : wf WIDTH r).
  { apply wf_intro; [assumption|]. intros i Hi. rewrite E by assumption.
    apply Hw; [apply (wf_nth WIDTH a), Ha | apply (wf_nth WIDTH b), Hb]. }
  split; [assumption|]. rewrite (value_of_bits WIDTH r (f (value a) (value b)) W).
  - apply Z.mod_small, Hm; now apply value_bound.
  - intros j i Hj Hi. rewrite E, !Hf, !testbit_value by (apply Ha || apply Hb || lia).
    replace ((32 * Z.of_nat j + i) / 32) with (Z.of_nat j) by (apply Z.div_unique with i; lia).
    replace ((32 * Z.of_nat j + i) mod 32) with i by (apply Z.mod_unique with (Z.of_nat j); lia).
    now rewrite Nat2Z.id.
Qed.

Lemma modulus_word x : 0 <= x < modulus WIDTH <-> word (32 * Z.of_nat WIDTH) x.
Proof. reflexivity. Qed.

Lemma op_and_spec a b :
  wf WIDTH a -> wf WIDTH b ->
  wf WIDTH (op_and WIDTH a b) /\ value (op_and WIDTH a b) = value a &: value b.
Proof.
  apply (bitwise_spec Z.land andb); [apply Z.land_spec | auto with word |].
  intros x y Hx Hy. apply modulus_word, word_land_l; [lia | now apply modulus_word].
Qed.

Lemma op_or_spec a b :
  wf WIDTH a -> wf WIDTH b ->
  wf WIDTH (op_or WIDTH a b) /\ value (op_or WIDTH a b) = value a |: value b.
Proof.
  apply (bitwise_spec Z.lor orb); [apply Z.lor_spec | auto with word |].
  intros x y Hx Hy. apply modulus_word, word_lor; [lia | now apply modulus_word..].
Qed.

Lemma op_xor_spec a b :
  wf WIDTH a -> wf WIDTH b ->
  wf WIDTH (op_xor WIDTH a b) /\ value (op_xor WIDTH a b) = value a ^^ value b.
Proof.
  apply (bitwise_spec Z.lxor xorb); [apply Z.lxor_spec | auto with word |].
  intros x y Hx Hy. apply modulus_word, word_lxor; [lia | now apply modulus_word..].
Qed.

(** * Tests *)

Lemma IsNull_spec a : wf WIDTH a -> IsNull WIDTH a = (value a =? 0).
Proof. apply all_null. Qed.

Lemma EqualTo_spec a b :
  wf WIDTH a -> 0 <= b < 2 ^ 64 -> EqualTo WIDTH a b = (value a =? b).
Proof.
  intros Ha Hb. destruct Ha as [La Wa]. destruct a as [|x [|y t]]; cbn in La; try lia.
  apply Forall_cons_iff in Wa as [Hx Wa]. apply Forall_cons_iff in Wa as [Hy Wt].
  assert (Ht : wf (WIDTH - 2) t) by (split; [lia | assumption]).
  unfold EqualTo. rewrite some_not_null by assumption. cbn [nth value].
  rewrite (land_ones_mod 32 b ltac:(lia) : b &: 0xffffffff = _), Z.shiftr_div_pow2 by lia.
  pose proof (Z.div_mod b (2 ^ 32) ltac:(lia)). pose proof (Z.mod_pos_bound b (2 ^ 32) ltac:(lia)).
  pose proof (value_bound _ _ Ht). assert (b / 2 ^ 32 < 2 ^ 32) by (apply Z.div_lt_upper_bound; lia).
  unfold word in *. symmetry.
  destruct (Z.eqb_spec (value t) 0) as [->|]; cbn [negb]; [|apply Z.eqb_neq; nia].
  destruct (Z.eqb_spec y (b / 2 ^ 32)) as [->|]; cbn [negb]; [|apply Z.eqb_neq; lia].
  destruct (Z.eqb_spec x (b mod 2 ^ 32)) as [->|]; cbn [negb]; [apply Z.eqb_eq | apply Z.eqb_neq]; lia.
Qed.

End Width.

(** * Bytes *)

Section Bytes.
Context (WIDTH : nat).

Lemma le_combine_bytes_of a : Forall (word 32) a -> le_combine (bytes_of a) = value a.
Proof.
  induction 1 as [|x t Hx Ht IH]; [reflexivity|]. unfold bytes_of in *. cbn [flat_map value].
  rewrite le_combine_app, IH. unfold store. rewrite length_le_split, le_combine_split.
  change (2 ^ (8 * Z.of_nat 4)) with (2 ^ 32). now rewrite Z.mod_small.
Qed.

Lemma length_pn_bytes a : length (bytes_of a) = (4 * length a)%nat.
Proof. apply length_flat_map_const. intros. apply length_le_split. Qed.

Lemma op_eq_spec a b : wf WIDTH a -> wf WIDTH b -> op_eq WIDTH a b = (value a =? value b).
Proof.
  intros Ha Hb. apply Bool.eq_true_iff_eq. unfold op_eq. rewrite forallb_forall, Z.eqb_eq. split.
  - intros H. rewrite <- !le_combine_bytes_of by (apply Ha || apply Hb). f_equal. apply (list_ext 0).
    + now rewrite !length_pn_bytes, (proj1 Ha), (proj1 Hb).
    + intros i Hi. apply Z.eqb_eq, H, in_seq. rewrite length_pn_bytes, (proj1 Ha) in Hi. lia.
  - intros E i _. apply (value_inj WIDTH) in E; [subst; apply Z.eqb_refl | assumption..].
Qed.

(** The bytes of an array give the array back, and the array of [4 * WIDTH] bytes
    has those bytes. *)
Lemma words_of_bytes_of a : wf WIDTH a -> words_of WIDTH (bytes_of a) = a.
Proof.
  intros [Hl Hw]. unfold words_of. transitivity (firstn WIDTH a); [|apply firstn_all2; lia].
  rewrite <- (map_nth_seq a 0 WIDTH) by lia. apply map_ext_in. intros i Hi. apply in_seq in Hi. unfold load, bytes_of.
  rewrite (piece_flat_map (store 4) 4 i a 0) by (intros; apply length_le_split || lia). unfold store.
  rewrite le_combine_split. change (2 ^ (8 * Z.of_nat 4)) with (2 ^ 32). apply Z.mod_small.
  apply (wf_nth WIDTH a i (conj Hl Hw)).
Qed.

Lemma wf_words_of vch : length vch = (4 * WIDTH)%nat -> bytes vch -> wf WIDTH (words_of WIDTH vch).
Proof.
  intros Hl Hb. unfold words_of. apply wf_intro; [now rewrite length_map, length_seq|].
  intros i Hi. rewrite nth_map_seq by assumption. apply word32_load.
  - rewrite length_skipn. lia.
  - now apply Forall_drop.
Qed.

Lemma bytes_of_words_of vch : length vch = (4 * WIDTH)%nat -> bytes vch -> bytes_of (words_of WIDTH vch) = vch.
Proof.
  unfold words_of, bytes_of. generalize WIDTH as n. intros n; revert vch.
  induction n as [|n IH]; intros vch Hl Hb.
  - now destruct vch.
  - cbn [seq map flat_map]. rewrite Nat.mul_0_r. cbn [skipn]. rewrite <- seq_shift, map_map.
    rewrite (map_ext_in _ (fun i => load 4 (skipn (4 * i) (skipn 4 vch)))).
    + rewrite IH; [| rewrite length_skipn; lia | now apply Forall_drop].
      unfold load, store. replace 4%nat with (length (firstn 4 vch)) at 1 by (rewrite length_firstn; lia).
      rewrite le_split_combine by now apply Forall_take. apply firstn_skipn.
    + intros i _. rewrite skipn_skipn. do 2 f_equal. lia.
Qed.

Lemma UintToArith_words vch : UintToArith WIDTH vch = words_of WIDTH vch.
Proof.
  unfold UintToArith, words_of. apply (list_ext 0).
  - rewrite length_fill_loop, length_map, length_seq. apply repeat_length.
  - intros i Hi. rewrite length_fill_loop in Hi. unfold base_uint_zero in Hi. rewrite repeat_length in Hi.
    rewrite nth_fill_loop, nth_map_seq by (try assumption; unfold base_uint_zero; rewrite repeat_length; lia).
    destruct (Nat.ltb_spec i WIDTH); [now rewrite Nat.mul_comm | lia].
Qed.

Lemma ArithToUint_bytes a : length a = WIDTH -> ArithToUint WIDTH a = bytes_of a.
Proof.
  intros Hl. unfold ArithToUint, bytes_of.
  rewrite (fold_left_ext_in _ (fun buf u => memcpy_at buf (4 * u) (store 4 a.[u])))
    by (intros; now rewrite Nat.mul_comm).
  rewrite (memcpy_loop (fun u => store 4 a.[u])) by (intros; rewrite ?repeat_length; apply length_le_split || lia).
  rewrite skipn_all2, app_nil_r by (rewrite repeat_length; lia).
  exact (flat_map_nth_seq (store 4) a 0 0 WIDTH (eq_sym Hl)).
Qed.

(** The value of a [uint256] or [uint512]: its bytes are in little-endian order. *)
Lemma UintToArith_value vch :
  length vch = (4 * WIDTH)%nat -> bytes vch ->
  wf WIDTH (UintToArith WIDTH vch) /\ value (UintToArith WIDTH vch) = le_combine vch.
Proof.
  intros Hl Hb. rewrite UintToArith_words. pose proof (wf_words_of vch Hl Hb) as Hw. split; [assumption|].
  rewrite <- le_combine_bytes_of by apply Hw. now rewrite bytes_of_words_of.
Qed.
End Bytes.

(** * What the operations compute *)

(** Every arithmetic operator of [base_uint<BITS>] returns an array of [WIDTH]
    words and computes on the integers modulo 2^BITS: the sums, the difference, the
    products with a word and with another number, negation, complement, increment,
    decrement and the shifts by any number of bits. *)
Theorem arith_operations (WIDTH : nat) (a b : list Z) (w x : Z) (shift : nat) :
  (2 <= WIDTH)%nat -> wf WIDTH a -> wf WIDTH b -> word 32 w -> word 64 x ->
  let computes r v := wf WIDTH r /\ value r = v mod modulus WIDTH in
  computes (op_add WIDTH a b) (value a + value b) /\ computes (op_sub WIDTH a b) (value a - value b) /\
  computes (op_add_u64 WIDTH a x) (value a + x) /\ computes (op_sub_u64 WIDTH a x) (value a - x) /\
  computes (op_mul32 WIDTH a w) (value a * w) /\ computes (op_mul WIDTH a b) (value a * value b) /\
  computes (op_neg WIDTH a) (- value a) /\ computes (op_not WIDTH a) (- value a - 1) /\
  computes (op_incr WIDTH a) (value a + 1) /\ computes (op_decr WIDTH a) (value a - 1) /\
  computes (op_shl WIDTH a shift) (value a * 2 ^ Z.of_nat shift) /\ computes (op_shr WIDTH a shift) (value a / 2 ^ Z.of_nat shift).
Proof.
  intros HW Ha Hb Hw Hx computes. destruct (of_u64_spec WIDTH HW x Hx) as [Wx Vx].
  assert (Bound : forall r v, wf WIDTH r /\ value r = v -> computes r v).
  { intros r v [Hr <-]. split; [assumption|]. symmetry. apply Z.mod_small. now apply value_bound. }
  repeat split_and; unfold computes.
  - now apply op_add_spec.
  - now apply op_sub_spec.
  - rewrite <- Vx at 3. now apply op_add_spec.
  - rewrite <- Vx at 3. now apply op_sub_spec.
  - now apply op_mul32_spec.
  - now apply op_mul_spec.
  - now apply op_neg_spec.
  - destruct (op_not_spec WIDTH a Ha) as [Hn Vn]. split; [assumption|]. rewrite Vn.
    replace (- value a - 1) with (modulus WIDTH - 1 - value a + (-1) * modulus WIDTH) by ring.
    pose proof (value_bound _ _ Ha). rewrite Z.mod_add, Z.mod_small by lia. reflexivity.
  - apply op_incr_spec; [lia | assumption].
  - apply op_decr_spec; [lia | assumption].
  - now apply op_shl_spec.
  - now apply Bound, op_shr_spec.
Qed.

Lemma arith_operations_witness :
  let a := repeat 0xffffffff 8 in
  value (op_add 8 a [1; 0; 0; 0; 0; 0; 0; 0]) = 0 /\
  value (op_add 8 a [1; 0; 0; 0; 0; 0; 0; 0]) = (value a + 1) mod modulus 8.
Proof.
  cbv zeta. split; [reflexivity|].
  refine (proj2 (proj1 (arith_operations 8 (repeat 0xffffffff 8) [1; 0; 0; 0; 0; 0; 0; 0] 0 0 0 _ _ _ _ _))).
  - lia.
  - split; [reflexivity|]. apply words_check. reflexivity.
  - split; [reflexivity|]. apply words_check. reflexivity.
  - split; [lia | reflexivity].
  - split; [lia | reflexivity].
Defined.

(** Division of [base_uint<BITS>]: the error is raised exactly when the divisor
    is zero, and otherwise the loop over the bits of the quotient leaves the quotient
    rounded down. *)
Theorem arith_division (WIDTH : nat) (a b : list Z) :
  (2 <= WIDTH)%nat -> wf WIDTH a -> wf WIDTH b ->
  (op_div WIDTH a b = None <-> value b = 0) /\
  forall q, op_div WIDTH a b = Some q -> wf WIDTH q /\ value q = value a / value b.
Proof.
  intros HW Ha Hb. pose proof (op_div_spec WIDTH HW a b Ha Hb) as S. destruct (op_div WIDTH a b) as [q'|].
  - destruct S as (H0 & Hq & Hv). split; [split; [discriminate | contradiction]|]. intros q [= <-]. auto.
  - split; [split; [intros _; assumption | reflexivity]|]. discriminate.
Qed.

Lemma arith_division_witness :
  let a := [0; 0; 0; 0; 0; 0; 0; 7] in
  let b := [3; 0; 0; 0; 0; 0; 0; 0] in
  op_div 8 a (repeat 0 8) = None /\ op_div 8 a b = Some [0x55555555; 0x55555555; 0x55555555; 0x55555555; 0x55555555; 0x55555555; 0x55555555; 2] /\
  value a / value b = 7 * 2 ^ 224 / 3.
Proof.
  cbv zeta.
  assert (Wa : wf 8 [0; 0; 0; 0; 0; 0; 0; 7]) by (split; [reflexivity | apply words_check; reflexivity]).
  split; [|split; [vm_compute; reflexivity | vm_compute; reflexivity]].
  apply (proj1 (arith_division 8 [0; 0; 0; 0; 0; 0; 0; 7] (repeat 0 8) ltac:(lia) Wa
    ltac:(split; [reflexivity | apply words_check; reflexivity]))). reflexivity.
Defined.

(** The comparisons on the words from the top, the comparison of the memory of
    two objects, the comparison with a 64-bit number and the null test decide the
    order and the equality of the integers; the bitwise operators are those of the
    integers. *)
Theorem arith_tests (WIDTH : nat) (a b : list Z) (x : Z) :
  (2 <= WIDTH)%nat -> wf WIDTH a -> wf WIDTH b -> word 64 x ->
  CompareTo WIDTH a b = match value a ?= value b with Lt => -1 | Eq => 0 | Gt => 1 end /\
  op_eq WIDTH a b = (value a =? value b) /\
  EqualTo WIDTH a x = (value a =? x) /\
  IsNull WIDTH a = (value a =? 0) /\
  value (op_and WIDTH a b) = value a &: value b /\
  value (op_or WIDTH a b) = value a |: value b /\
  value (op_xor WIDTH a b) = value a ^^ value b.
Proof.
  intros HW Ha Hb Hx. repeat split_and.
  - now apply CompareTo_spec.
  - now apply op_eq_spec.
  - now apply EqualTo_spec.
  - now apply IsNull_spec.
  - now apply op_and_spec.
  - now apply op_or_spec.
  - now apply op_xor_spec.
Qed.

Lemma arith_tests_witness : CompareTo 8 [5; 0; 0; 0; 0; 0; 0; 1] [6; 0; 0; 0; 0; 0; 0; 0] = 1.
Proof.
  refine (proj1 (arith_tests 8 [5; 0; 0; 0; 0; 0; 0; 1] [6; 0; 0; 0; 0; 0; 0; 0] 0 _ _ _ _)).
  - lia.
  - split; [reflexivity | apply words_check; reflexivity].
  - split; [reflexivity | apply words_check; reflexivity].
  - split; [lia | reflexivity].
Defined.

(** [uint256] and [arith_uint256] (and their 512-bit versions) convert into each
    other without loss: the number read from 32 or 64 bytes is their little-endian
    value, and writing it gives the bytes back. *)
Theorem uint_conversions (WIDTH : nat) (vch a : list Z) :
  length vch = (4 * WIDTH)%nat -> bytes vch -> wf WIDTH a ->
  value (UintToArith WIDTH vch) = le_combine vch /\
  ArithToUint WIDTH (UintToArith WIDTH vch) = vch /\
  UintToArith WIDTH (ArithToUint WIDTH a) = a.
Proof.
  intros Hl Hb Ha. destruct (UintToArith_value WIDTH vch Hl Hb) as [Hw Hv]. repeat split_and.
  - assumption.
  - rewrite ArithToUint_bytes by apply Hw. rewrite UintToArith_words. now apply bytes_of_words_of.
  - rewrite UintToArith_words, ArithToUint_bytes by apply Ha. now apply words_of_bytes_of.
Qed.

Lemma uint_conversions_witness :
  value (UintToArith256 (repeat 0xff 32)) = 2 ^ 256 - 1 /\ ArithToUint256 (UintToArith256 (repeat 0xff 32)) = repeat 0xff 32.
Proof.
  destruct (uint_conversions W256 (repeat 0xff 32) (repeat 0 8)) as (E1 & E2 & _).
  - reflexivity.
  - apply words_check. reflexivity.
  - split; [reflexivity | apply words_check; reflexivity].
  - split; [exact E1 | exact E2].
Defined.
