(* ===== verification/Quark.v ===== *)
(** Model of [HashQuark] (src/src/hash.h): the hash of block headers, a chain of
    nine calls of the six hash functions in which three bits of intermediate
    results select the function. The six contexts are local variables that are
    initialised again before each use, the results are [arith_uint512]s into whose
    memory the functions write. *)
From S2P Require Import Prelude SphTypes Stream.
From S2P Require Import SphSpec Keccak KeccakSponge Groestl GroestlHash.
From S2P Require Import Blake BlakeHash Skein SkeinHash.
From S2P Require Import Bmw BmwHash Jh JhHash.
From S2P Require Import ArithUint ArithUintProofs ArithUint256.
Import ArithUint.

(** * The code *)

(** [init], one update with all the data, [close]. *)
Definition hash_call {Ctx} (ops : hash_ops Ctx) (data : list Z) : list Z * Ctx :=
  hash_close ops (hash_update ops (hash_init ops) data).

(** The local contexts; Groestl's initialisation does not read its context. *)
Record quark_locals := {
  ctx_blake : Blake.sph_blake_big_context;
  ctx_bmw : Bmw.sph_bmw_big_context;
  ctx_jh : Jh.sph_jh_context;
  ctx_keccak : Keccak.sph_keccak_context;
  ctx_skein : Skein.sph_skein_big_context
}.

(** The call [sph_X512_init(&ctx_X); sph_X512(&ctx_X, data); sph_X512_close(&ctx_X, &hash[i])]:
    the words of [hash[i]] and the contexts afterwards. *)
Definition call_blake (data : list Z) (l : quark_locals) : list Z * quark_locals :=
  let '(dst, c) := hash_call (blake512_ops (ctx_blake l)) data in
  (words_of W512 dst, {| ctx_blake := c; ctx_bmw := ctx_bmw l; ctx_jh := ctx_jh l; ctx_keccak := ctx_keccak l; ctx_skein := ctx_skein l |}).
Definition call_bmw (data : list Z) (l : quark_locals) : list Z * quark_locals :=
  let '(dst, c) := hash_call (bmw512_ops (ctx_bmw l)) data in
  (words_of W512 dst, {| ctx_blake := ctx_blake l; ctx_bmw := c; ctx_jh := ctx_jh l; ctx_keccak := ctx_keccak l; ctx_skein := ctx_skein l |}).
Definition call_jh (data : list Z) (l : quark_locals) : list Z * quark_locals :=
  let '(dst, c) := hash_call (jh512_ops (ctx_jh l)) data in
  (words_of W512 dst, {| ctx_blake := ctx_blake l; ctx_bmw := ctx_bmw l; ctx_jh := c; ctx_keccak := ctx_keccak l; ctx_skein := ctx_skein l |}).
Definition call_keccak (data : list Z) (l : quark_locals) : list Z * quark_locals :=
  let '(dst, c) := hash_call (keccak512_ops (ctx_keccak l)) data in
  (words_of W512 dst, {| ctx_blake := ctx_blake l; ctx_bmw := ctx_bmw l; ctx_jh := ctx_jh l; ctx_keccak := c; ctx_skein := ctx_skein l |}).
Definition call_skein (data : list Z) (l : quark_locals) : list Z * quark_locals :=
  let '(dst, c) := hash_call (skein512_ops (ctx_skein l)) data in
  (words_of W512 dst, {| ctx_blake := ctx_blake l; ctx_bmw := ctx_bmw l; ctx_jh := ctx_jh l; ctx_keccak := ctx_keccak l; ctx_skein := c |}).
Definition call_groestl (data : list Z) (l : quark_locals) : list Z * quark_locals :=
  let '(dst, _) := hash_call groestl512_ops data in (words_of W512 dst, l).

Definition HashQuark (data : list Z) (l : quark_locals) : list Z :=
  let mask := base_uint_of_u64 W512 8 in
  let zero := base_uint_of_u64 W512 0 in
  let selected h := negb (op_eq W512 (op_and W512 h mask) zero) in
  let '(hash0, l) := call_blake data l in
  let '(hash1, l) := call_bmw (bytes_of hash0) l in
  let '(hash2, l) := if selected hash1 then call_groestl (bytes_of hash1) l else call_skein (bytes_of hash1) l in
  let '(hash3, l) := call_groestl (bytes_of hash2) l in
  let '(hash4, l) := call_jh (bytes_of hash3) l in
  let '(hash5, l) := if selected hash4 then call_blake (bytes_of hash4) l else call_bmw (bytes_of hash4) l in
  let '(hash6, l) := call_keccak (bytes_of hash5) l in
  let '(hash7, l) := call_skein (bytes_of hash6) l in
  let '(hash8, l) := if selected hash7 then call_keccak (bytes_of hash7) l else call_jh (bytes_of hash7) l in
  trim256 hash8.

(** * The definition *)

Module QuarkSpec.
Definition blake : list Z -> list Z := BlakeSpec.blake512.
Definition bmw : list Z -> list Z := BmwSpec.bmw512.
Definition groestl : list Z -> list Z := GroestlSpec.groestl 16 64.
Definition jh : list Z -> list Z := JhSpec.jh 64.
Definition keccak : list Z -> list Z := KeccakSpec.keccak 72 64.
Definition skein : list Z -> list Z := SkeinSpec.skein 64.

(** Bit 3 of the first byte chooses. *)
Definition choose (f g : list Z -> list Z) (h : list Z) : list Z :=
  if Z.testbit h.[0] 3 then f h else g h.

Definition quark (m : list Z) : list Z :=
  let h := choose groestl skein (bmw (blake m)) in
  let h := choose blake bmw (jh (groestl h)) in
  let h := choose keccak jh (skein (keccak h)) in
  firstn 32 h.
End QuarkSpec.

(** * Digests have 64 bytes *)

Definition digest64 (h : list Z) : Prop := length h = 64%nat /\ bytes h.

Lemma bytes_flat_map {A} (f : A -> list Z) l : (forall x, bytes (f x)) -> bytes (flat_map f l).
Proof. intros H. induction l; cbn [flat_map]; [constructor | now apply Forall_app]. Qed.

Lemma fold_left_invariant {A B} (P : A -> Prop) (f : A -> B -> A) l a :
  P a -> (forall a b, P a -> P (f a b)) -> P (fold_left f l a).
Proof. intros Ha Hf. revert a Ha. induction l; cbn [fold_left]; auto. Qed.

Lemma blake_digest64 m : digest64 (QuarkSpec.blake m).
Proof.
  unfold QuarkSpec.blake, BlakeSpec.blake512, BlakeSpec.blake. cbv zeta. split.
  - rewrite (length_flat_map_const _ 8) by (intros; now rewrite length_rev, length_le_split).
    rewrite length_firstn. enough (G : forall k s len i h b, length h = 8%nat ->
      length (BlakeSpec.compress_blocks BlakeSpec.big_params k s len i h b) = 8%nat) by (rewrite G; reflexivity).
    induction k as [|k IH]; intros s len i h b Hh; [assumption|]. cbn [BlakeSpec.compress_blocks]. apply IH. reflexivity.
  - apply bytes_flat_map. intros x. apply Forall_rev, bytes_le_split.
Qed.

Lemma bmw_digest64 m : digest64 (QuarkSpec.bmw m).
Proof.
  unfold QuarkSpec.bmw, BmwSpec.bmw512, BmwSpec.bmw. cbv zeta. split.
  - rewrite (length_flat_map_const _ 8) by (intros; now rewrite length_le_split). reflexivity.
  - apply bytes_flat_map. intros x. apply bytes_le_split.
Qed.

Lemma skein_digest64 m : digest64 (QuarkSpec.skein m).
Proof.
  unfold QuarkSpec.skein, SkeinSpec.skein. cbv zeta. set (g := SkeinSpec.ubi _ m _). clearbody g.
  split; [reflexivity|]. apply Forall_take, bytes_flat_map. intros x. apply bytes_le_split.
Qed.

Lemma keccak_digest64 m : digest64 (QuarkSpec.keccak m).
Proof.
  unfold QuarkSpec.keccak, KeccakSpec.keccak. cbv zeta.
  assert (G : forall k A b, length A = 25%nat -> length (KeccakSpec.absorb_blocks k 72 A b) = 25%nat).
  { induction k as [|k IH]; intros A b HA; [assumption|]. cbn [KeccakSpec.absorb_blocks]. apply IH.
    unfold KeccakSpec.keccak_f. apply fold_left_invariant; [reflexivity|].
    intros B c _. unfold KeccakSpec.round, KeccakSpec.iota. rewrite length_upd. reflexivity. }
  split; [|apply Forall_take, bytes_flat_map; intros; apply bytes_le_split].
  rewrite length_firstn, (length_flat_map_const _ 8), G by (intros; reflexivity || apply length_le_split). reflexivity.
Qed.

Lemma jh_digest64 m : digest64 (QuarkSpec.jh m).
Proof.
  unfold QuarkSpec.jh, JhSpec.jh. cbv zeta. set (l := skipn _ _). clearbody l. split; [apply length_bytes_of|].
  revert l. generalize 64%nat as n. induction n as [|n IH]; intros l; [constructor|]. cbn [JhSpec.bytes_of]. constructor; [|apply IH].
  apply (word_le (Z.of_nat (length (firstn 8 l)))); [rewrite length_firstn; lia | apply byte_of_bits_word].
Qed.

(** * The interface of one hash function to its caller *)

(** A call on a context of the right shape, whatever its contents, returns the
    digest of the data and leaves a context of the right shape. *)
Class Restart {Ctx} (ops : Ctx -> hash_ops Ctx) (shape : Ctx -> Prop) (ok : list Z -> Prop) (H : list Z -> list Z) := {
  restart_call c d : shape c -> bytes d -> ok d ->
    fst (hash_call (ops c) d) = H d /\ shape (snd (hash_call (ops c) d));
  restart_digest d : bytes d -> ok d -> digest64 (H d)
}.

#[export] Instance blake_restart :
  Restart blake512_ops (fun c => length (Blake.big_buf c) = 128%nat) any_message QuarkSpec.blake.
Proof.
  split; [|intros; apply blake_digest64]. intros c d Hc Hd _.
  unfold hash_call. cbn [blake512_ops hash_init hash_update hash_close].
  pose proof (BlakeHash.blake64_rep Blake.IV512 _ [] d Hd (BlakeHash.blake64_init_rep Blake.IV512 c Hc)) as R.
  unfold Blake.sph_blake512_close, Blake.sph_blake512_addbits_and_close.
  destruct (blake64_close_digest Blake.IV512 IV512_ok 8 ltac:(lia) _ _ R) as [E L].
  destruct (Blake.blake64_close _ 0 0 8) as [dst c']. cbn [fst snd app] in *. split; [|exact L].
  rewrite E. unfold QuarkSpec.blake, BlakeSpec.blake512. rewrite <- IV512_spec. reflexivity.
Qed.

#[export] Instance bmw_restart :
  Restart bmw512_ops (fun c => length (Bmw.big_buf c) = 128%nat) any_message QuarkSpec.bmw.
Proof.
  split; [|intros; apply bmw_digest64]. intros c d Hc Hd _.
  pose proof (BmwHash.bmw64_update_rep Bmw.IV512 _ [] d Hd (BmwHash.bmw64_init_rep Bmw.IV512 c Hc)) as R.
  destruct (BmwHash.bmw64_close_rep 0x80 8 Bmw.IV512 _ _ ltac:(lia) eq_refl R) as [E L].
  unfold hash_call. cbn [bmw512_ops hash_init hash_update hash_close].
  unfold Bmw.sph_bmw512_close, Bmw.sph_bmw512_addbits_and_close.
  unfold Bmw.sph_bmw512, Bmw.sph_bmw512_init.
  destruct (Bmw.bmw64_close _ 0 0 8) as [dst c']. cbn [fst snd app] in *. split; [exact E | exact L].
Qed.

#[export] Instance jh_restart :
  Restart jh512_ops (fun c => length (Jh.buf c) = 64%nat) jh_message QuarkSpec.jh.
Proof.
  split; [|intros; apply jh_digest64]. intros c d Hc Hd Hok.
  pose proof (jh_core_rep Jh.IV512 _ [] d Hd (jh_init_rep Jh.IV512 c Hc)) as R.
  destruct (jh_close_rep Jh.IV512 64 16 _ _ eq_refl ltac:(lia) (proj2 (proj2 (proj2 jh_IV_spec))) R Hok) as [E L].
  split; [exact E | exact (proj1 (proj2 L))].
Qed.

#[export] Instance skein_restart :
  Restart skein512_ops (fun c => length (Skein.buf c) = 64%nat) short_message QuarkSpec.skein.
Proof.
  split; [|intros; apply skein_digest64]. intros c d Hc Hd Hok.
  pose proof (skein_core_rep Skein.IV512 eq_refl _ [] d Hd (skein_init_rep Skein.IV512 eq_refl c Hc)) as R.
  destruct (skein_close_rep Skein.IV512 eq_refl _ _ 64 ltac:(lia) R Hok) as [E L].
  unfold hash_call. cbn [skein512_ops hash_init hash_update hash_close].
  unfold Skein.sph_skein512_close, Skein.sph_skein512_addbits_and_close, Skein.sph_skein512, Skein.sph_skein512_init.
  destruct (Skein.skein_big_close _ 0 0 64) as [dst c']. cbn [fst snd app] in *. split; [|exact L].
  rewrite E, (proj2 (proj2 (proj2 SkeinHash.IV_spec))). reflexivity.
Qed.

#[export] Instance keccak_restart :
  Restart keccak512_ops (fun c => length (Keccak.buf c) = 144%nat) any_message QuarkSpec.keccak.
Proof.
  split; [|intros; apply keccak_digest64]. intros c d Hc Hd _.
  destruct (rate_facts c Hc 72 ltac:(cbn; tauto)) as (H8 & Hpos & Hcap).
  pose proof (keccak_core_rep 72 H8 Hpos Hcap _ [] d Hd (keccak_init_rep 72 H8 Hpos Hcap c 512 Hc)) as R.
  destruct (keccak_close_rep 72 H8 Hpos Hcap 64 ltac:(lia) _ _ R) as [E L].
  split; [exact E | exact (proj1 (proj2 L))].
Qed.

#[export] Instance groestl_restart :
  Restart (fun _ : Groestl.sph_groestl_big_context => groestl512_ops) (fun _ => True) any_message QuarkSpec.groestl.
Proof.
  assert (C : forall d, bytes d -> fst (hash_call groestl512_ops d) = QuarkSpec.groestl d).
  { intros d Hd. pose proof (chunked_digest (StreamHash0 := groestl512_stream) [d]) as E. cbn [concat] in E.
    rewrite app_nil_r in E. apply E; [constructor; [assumption | constructor] | exact I]. }
  split; [now auto|]. intros d Hd _. rewrite <- C by assumption.
  unfold hash_call. cbn [groestl512_ops hash_init hash_update hash_close].
  unfold Groestl.sph_groestl512_close, Groestl.groestl_big_close. cbv zeta. cbn [fst].
  set (H := Groestl.FINAL_BIG _). clearbody H. split; [reflexivity|].
  apply Forall_take, Forall_drop, bytes_flat_map. intros x. apply bytes_le_split.
Qed.

(** * The composition *)

(** The buffers of the contexts are arrays of fixed size. *)
Definition locals_shape (l : quark_locals) : Prop :=
  length (Blake.big_buf (ctx_blake l)) = 128%nat /\ length (Bmw.big_buf (ctx_bmw l)) = 128%nat /\
  length (Jh.buf (ctx_jh l)) = 64%nat /\ length (Keccak.buf (ctx_keccak l)) = 144%nat /\
  length (Skein.buf (ctx_skein l)) = 64%nat.

(** A call computes [H]: on the bytes of a digest, or on the message. *)
Definition computes (call : list Z -> quark_locals -> list Z * quark_locals) (H : list Z -> list Z) : Prop :=
  forall d l, bytes d -> Z.of_nat (length d) < 2 ^ 64 -> locals_shape l ->
    fst (call d l) = words_of W512 (H d) /\ locals_shape (snd (call d l)) /\ digest64 (H d).

Lemma messages_ok d : Z.of_nat (length d) < 2 ^ 64 -> any_message d /\ jh_message d /\ short_message d.
Proof. intros H. unfold any_message, jh_message, short_message. lia. Qed.

(** The call of function [f] on the context [c]. *)
Ltac call_computes unfolding f c :=
  let Hd := fresh "Hd" in
  intros d l Hd Hl (H1 & H2 & H3 & H4 & H5); destruct (messages_ok d Hl) as (O1 & O2 & O3);
  pose proof (restart_call (ops := f) (c l) d) as R;
  destruct R as [E S]; [assumption..|]; unfolding; destruct (hash_call (f (c l)) d) as [dst c'];
  cbn [fst snd] in *; subst dst;
  split; [reflexivity | split; [repeat split; assumption | now apply (restart_digest (ops := f))]].

Lemma call_blake_computes : computes call_blake QuarkSpec.blake.
Proof. call_computes ltac:(unfold call_blake) blake512_ops ctx_blake. Qed.
Lemma call_bmw_computes : computes call_bmw QuarkSpec.bmw.
Proof. call_computes ltac:(unfold call_bmw) bmw512_ops ctx_bmw. Qed.
Lemma call_jh_computes : computes call_jh QuarkSpec.jh.
Proof. call_computes ltac:(unfold call_jh) jh512_ops ctx_jh. Qed.
Lemma call_keccak_computes : computes call_keccak QuarkSpec.keccak.
Proof. call_computes ltac:(unfold call_keccak) keccak512_ops ctx_keccak. Qed.
Lemma call_skein_computes : computes call_skein QuarkSpec.skein.
Proof. call_computes ltac:(unfold call_skein) skein512_ops ctx_skein. Qed.

Lemma call_groestl_computes : computes call_groestl QuarkSpec.groestl.
Proof.
  intros d l Hd Hl S. pose proof (restart_call (ops := fun _ => groestl512_ops) (Groestl.groestl_big_init 512) d I Hd I) as [E _].
  unfold call_groestl. destruct (hash_call groestl512_ops d) as [dst c]. cbn [fst snd] in *. subst dst.
  split; [reflexivity | split; [assumption | now apply (restart_digest (ops := fun _ => groestl512_ops))]].
Qed.

(** [(hash & mask) != zero] tests bit 3 of the first byte. *)
Lemma selected_spec h :
  digest64 h ->
  negb (op_eq W512 (op_and W512 (words_of W512 h) (base_uint_of_u64 W512 8)) (base_uint_of_u64 W512 0)) =
  Z.testbit h.[0] 3.
Proof.
  intros [Hl Hb]. pose proof (wf_words_of W512 h Hl Hb) as Hw.
  destruct (of_u64_spec W512 ltac:(unfold W512; lia) 8 ltac:(lia)) as [W8 V8].
  destruct (of_u64_spec W512 ltac:(unfold W512; lia) 0 ltac:(lia)) as [W0 V0].
  destruct (op_and_spec W512 ltac:(unfold W512; lia) _ _ Hw W8) as [Wa Va]. rewrite op_eq_spec, Va, V8, V0 by assumption.
  rewrite (land_bit _ 3 ltac:(lia)), <- le_combine_bytes_of, bytes_of_words_of by (assumption || apply Hw).
  rewrite testbit_le_combine by (assumption || lia). reflexivity.
Qed.

Lemma trim256_spec h : digest64 h -> trim256 (words_of W512 h) = firstn 32 h.
Proof.
  intros [Hl Hb]. unfold trim256. rewrite bytes_of_words_of by assumption.
  assert (G : forall s acc, fold_left (fun vch i => vch ++ [h.[i]]) s acc = acc ++ map (fun i => h.[i]) s).
  { induction s as [|i s IH]; intros acc; cbn [fold_left map]; [now rewrite app_nil_r|]. rewrite IH, <- app_assoc. reflexivity. }
  rewrite G. cbn [app]. apply map_nth_seq. lia.
Qed.

(** A call on the memory of the previous result. *)
Lemma next_call f F h l :
  computes f F -> digest64 h -> locals_shape l ->
  exists l', f (bytes_of (words_of W512 h)) l = (words_of W512 (F h), l') /\ locals_shape l' /\ digest64 (F h).
Proof.
  intros Hf [Hl Hb] S. rewrite bytes_of_words_of by assumption.
  destruct (Hf h l) as (E & S' & D); [assumption | rewrite Hl; reflexivity | assumption|].
  exists (snd (f h l)). rewrite <- E, <- surjective_pairing. auto.
Qed.

Lemma next_choice f g F G h l :
  computes f F -> computes g G -> digest64 h -> locals_shape l ->
  exists l', (if negb (op_eq W512 (op_and W512 (words_of W512 h) (base_uint_of_u64 W512 8)) (base_uint_of_u64 W512 0))
    then f (bytes_of (words_of W512 h)) l else g (bytes_of (words_of W512 h)) l) =
    (words_of W512 (QuarkSpec.choose F G h), l') /\ locals_shape l' /\ digest64 (QuarkSpec.choose F G h).
Proof.
  intros Hf Hg D S. rewrite selected_spec by assumption. unfold QuarkSpec.choose.
  destruct (Z.testbit h.[0] 3); now apply next_call.
Qed.

(** The nine digests, one after the other. *)
Lemma HashQuark_spec (data : list Z) (l : quark_locals) :
  bytes data -> Z.of_nat (length data) < 2 ^ 64 -> locals_shape l ->
  HashQuark data l = QuarkSpec.quark data.
Proof.
  intros Hb Hl S. unfold HashQuark, QuarkSpec.quark. cbv zeta.
  destruct (call_blake_computes data l Hb Hl S) as (E0 & S0 & D0).
  destruct (call_blake data l) as [h0 l0]. cbn [fst snd] in E0, S0. subst h0.
  destruct (next_call _ _ _ _ call_bmw_computes D0 S0) as (l1 & -> & S1 & D1).
  destruct (next_choice _ _ _ _ _ _ call_groestl_computes call_skein_computes D1 S1) as (l2 & -> & S2 & D2).
  destruct (next_call _ _ _ _ call_groestl_computes D2 S2) as (l3 & -> & S3 & D3).
  destruct (next_call _ _ _ _ call_jh_computes D3 S3) as (l4 & -> & S4 & D4).
  destruct (next_choice _ _ _ _ _ _ call_blake_computes call_bmw_computes D4 S4) as (l5 & -> & S5 & D5).
  destruct (next_call _ _ _ _ call_keccak_computes D5 S5) as (l6 & -> & S6 & D6).
  destruct (next_call _ _ _ _ call_skein_computes D6 S6) as (l7 & -> & S7 & D7).
  destruct (next_choice _ _ _ _ _ _ call_keccak_computes call_jh_computes D7 S7) as (l8 & -> & S8 & D8).
  exact (trim256_spec _ D8).
Qed.

(** C1. The block hash: whatever the six contexts held before the call, [HashQuark]
    returns the first 32 bytes of the chain of nine digests of the message, in which
    bit 3 of the first byte of the second, fifth and eighth digest selects the next
    function. A context that is used twice is as good as a fresh one. *)
Theorem quark_digest (data : list Z) (l : quark_locals) :
  bytes data -> Z.of_nat (length data) < 2 ^ 64 -> locals_shape l ->
  HashQuark data l = QuarkSpec.quark data.
Proof. exact (HashQuark_spec data l). Qed.

Definition quark_blank : quark_locals :=
  {| ctx_blake := blake_big_blank; ctx_bmw := bmw_big_blank; ctx_jh := jh_blank;
     ctx_keccak := keccak_blank; ctx_skein := skein_blank |}.

Lemma quark_digest_witness : HashQuark [97; 98; 99] quark_blank = QuarkSpec.quark [97; 98; 99].
Proof.
  apply (quark_digest [97; 98; 99] quark_blank).
  - apply words_check. reflexivity.
  - reflexivity.
  - repeat split; reflexivity.
Defined.

(** The header of the genesis block of the main network and the hash that
    src/src/chainparams.cpp asserts for it. *)
Example mainnet_genesis_hash :
  let header := le_split 4 1 ++ repeat 0 32 ++
    le_split 32 0xa193048829b780828ef6c4f0dcb2adb8035843586d2e2dbe73de7e5e5b383663 ++
    le_split 4 1551107115 ++ le_split 4 0x1e0ffff0 ++ le_split 4 0xc103 in
  le_combine (HashQuark header quark_blank) = 0x0000c65dcc82b25425fce3c74a342ca4107e6b60dc31015ad42c1c07281b80f8.
Proof. vm_compute. reflexivity. Qed.
