(* ===== verification/Upgrades.v ===== *)
(** Model of the consensus parameters (src/src/consensus/params.h, params.cpp), of the
    network upgrades (src/src/consensus/upgrades.cpp) and of the parameter sets of the
    networks (src/src/chainparams.cpp). [assert] failures are the result [None]. *)
From S2P Require Import Prelude SphTypes ArithUint.

Module Consensus.

(** * Network upgrades *)

Inductive UpgradeIndex :=
| BASE_NETWORK | UPGRADE_POS | UPGRADE_POS_V2 | UPGRADE_ZC | UPGRADE_ZC_V2 | UPGRADE_BIP65
| UPGRADE_ZC_PUBLIC | UPGRADE_V3_4 | UPGRADE_V4_0 | UPGRADE_V5_0 | UPGRADE_V5_2 | UPGRADE_V5_3
| UPGRADE_V6_0 | UPGRADE_TESTDUMMY.

(** The values of the enumeration. *)
Definition upgrade_number (idx : UpgradeIndex) : nat :=
  match idx with
  | BASE_NETWORK => 0 | UPGRADE_POS => 1 | UPGRADE_POS_V2 => 2 | UPGRADE_ZC => 3 | UPGRADE_ZC_V2 => 4
  | UPGRADE_BIP65 => 5 | UPGRADE_ZC_PUBLIC => 6 | UPGRADE_V3_4 => 7 | UPGRADE_V4_0 => 8 | UPGRADE_V5_0 => 9
  | UPGRADE_V5_2 => 10 | UPGRADE_V5_3 => 11 | UPGRADE_V6_0 => 12 | UPGRADE_TESTDUMMY => 13
  end.
Definition MAX_NETWORK_UPGRADES : nat := 14.

Definition ALWAYS_ACTIVE : Z := 0.
Definition NO_ACTIVATION_HEIGHT : Z := -1.

(** The parameters up to [nMaxProposalPayments], and [vUpgrades]: the activation
    heights by number. *)
Record Params := {
  hashGenesisBlock : list Z;
  fPowAllowMinDifficultyBlocks : bool;
  fPowNoRetargeting : bool;
  powLimit : list Z;
  posLimitV1 : list Z;
  posLimitV2 : list Z;
  nBudgetCycleBlocks : Z;
  nBudgetFeeConfirmations : Z;
  nCoinbaseMaturity : Z;
  nFutureTimeDriftPoW : Z;
  nFutureTimeDriftPoS : Z;
  nMaxMoneyOut : Z;
  nPNCollateralAmt : Z;
  nPoolMaxTransactions : Z;
  nProposalEstablishmentTime : Z;
  nStakeMinAge : Z;
  nStakeMinDepth : Z;
  nTargetTimespan : Z;
  nTargetTimespanV2 : Z;
  nTargetSpacing : Z;
  nTimeSlotLength : Z;
  nMaxProposalPayments : Z;
  vUpgrades : list Z
}.

Inductive UpgradeState := UPGRADE_DISABLED | UPGRADE_PENDING | UPGRADE_ACTIVE.

Definition NetworkUpgradeState (nHeight : Z) (params : Params) (idx : nat) : option UpgradeState :=
  if negb (0 <=? nHeight) then None
  else if negb (idx <? MAX_NETWORK_UPGRADES)%nat then None
  else
    let nActivationHeight := (vUpgrades params).[idx] in
    if nActivationHeight =? NO_ACTIVATION_HEIGHT then Some UPGRADE_DISABLED
    else if nActivationHeight <=? nHeight then Some UPGRADE_ACTIVE
    else Some UPGRADE_PENDING.

Definition is_active (s : UpgradeState) : bool := match s with UPGRADE_ACTIVE => true | _ => false end.
Definition is_pending (s : UpgradeState) : bool := match s with UPGRADE_PENDING => true | _ => false end.

(** The free function [NetworkUpgradeActive]. *)
Definition NetworkUpgradeActive_at (nHeight : Z) (params : Params) (idx : nat) : option bool :=
  option_map is_active (NetworkUpgradeState nHeight params idx).

(** The member [Params::NetworkUpgradeActive]: an error message and [false] outside
    of the ranges. *)
Definition NetworkUpgradeActive (params : Params) (nHeight : Z) (idx : UpgradeIndex) : bool :=
  if (MAX_NETWORK_UPGRADES <=? upgrade_number idx)%nat then false
  else if nHeight <? 0 then false
  else match NetworkUpgradeState nHeight params (upgrade_number idx) with
       | Some s => is_active s
       | None => false
       end.

(** The loop [for (idxInt = MAX - 1; idxInt > BASE_NETWORK; idxInt--)]. *)
Fixpoint CurrentEpoch_from (idxInt : nat) (nHeight : Z) (params : Params) : option nat :=
  match idxInt with
  | O => Some (upgrade_number BASE_NETWORK)
  | S below =>
      match NetworkUpgradeActive_at nHeight params idxInt with
      | None => None
      | Some true => Some idxInt
      | Some false => CurrentEpoch_from below nHeight params
      end
  end.
Definition CurrentEpoch (nHeight : Z) (params : Params) : option nat :=
  CurrentEpoch_from (MAX_NETWORK_UPGRADES - 1) nHeight params.

Definition IsActivationHeight (nHeight : Z) (params : Params) (idx : nat) : option bool :=
  if negb (idx <? MAX_NETWORK_UPGRADES)%nat then None
  else if (idx =? upgrade_number BASE_NETWORK)%nat then Some false
  else Some ((0 <=? nHeight) && (nHeight =? (vUpgrades params).[idx])).

Definition IsActivationHeightForAnyUpgrade (nHeight : Z) (params : Params) : bool :=
  if nHeight <? 0 then false
  else existsb (fun idx => nHeight =? (vUpgrades params).[idx]) (seq 1 (MAX_NETWORK_UPGRADES - 1)).

(** [Some None] is [nullopt]. *)
Fixpoint NextEpoch_from (idxs : list nat) (nHeight : Z) (params : Params) : option (option nat) :=
  match idxs with
  | [] => Some None
  | idx :: rest =>
      match NetworkUpgradeState nHeight params idx with
      | None => None
      | Some s => if is_pending s then Some (Some idx) else NextEpoch_from rest nHeight params
      end
  end.
Definition NextEpoch (nHeight : Z) (params : Params) : option (option nat) :=
  if nHeight <? 0 then Some None
  else NextEpoch_from (seq 1 (MAX_NETWORK_UPGRADES - 1)) nHeight params.

Definition NextActivationHeight (nHeight : Z) (params : Params) : option (option Z) :=
  match NextEpoch nHeight params with
  | None => None
  | Some None => Some None
  | Some (Some idx) => Some (Some (vUpgrades params).[idx])
  end.

(** * The member functions of [Params] *)

Definition TargetTimespan (params : Params) (fV2 : bool) : Z :=
  if fV2 then nTargetTimespanV2 params else nTargetTimespan params.
Definition ProofOfStakeLimit (params : Params) (fV2 : bool) : list Z :=
  if fV2 then posLimitV2 params else posLimitV1 params.
Definition IsTimeProtocolV2 (params : Params) (nHeight : Z) : bool := NetworkUpgradeActive params nHeight UPGRADE_V4_0.

Definition FutureBlockTimeDrift (params : Params) (nHeight : Z) : Z :=
  if IsTimeProtocolV2 params nHeight then nTimeSlotLength params - 1
  else if NetworkUpgradeActive params nHeight UPGRADE_POS then nFutureTimeDriftPoS params
  else nFutureTimeDriftPoW params.

Definition IsValidBlockTimeStamp (params : Params) (nTime nHeight : Z) : bool :=
  if negb (IsTimeProtocolV2 params nHeight) then true
  else Z.rem nTime (nTimeSlotLength params) =? 0.

(** [utxoFromBlockTime + nStakeMinAge] is computed in [uint32_t]. *)
Definition HasStakeMinAgeOrDepth (params : Params) (contextHeight contextTime utxoFromBlockHeight utxoFromBlockTime : Z) : bool :=
  if negb (NetworkUpgradeActive params contextHeight UPGRADE_V3_4)
  then ArithUint.u32 (utxoFromBlockTime + nStakeMinAge params) <=? contextTime
  else nStakeMinDepth params <=? contextHeight - utxoFromBlockHeight.

(** * The networks *)

Definition COIN : Z := 100000000.

(** [nPoolMaxTransactions] is not set by any network; it is 0 here. *)

(** [uint256S] of a constant: the bytes in memory are little-endian. *)
Definition uint256_of (v : Z) : list Z := le_split 32 v.

Definition main_upgrades : list Z :=
  [ALWAYS_ACTIVE; 3001; 9615800; 9863787; 9153160; 9808634; 9880000; 9967000; 9153200; 9700500; 9927000; 9014000; NO_ACTIVATION_HEIGHT; NO_ACTIVATION_HEIGHT].
Definition CMainParams : Params := {|
  hashGenesisBlock := uint256_of 0x0000c65dcc82b25425fce3c74a342ca4107e6b60dc31015ad42c1c07281b80f8;
  fPowAllowMinDifficultyBlocks := false;
  fPowNoRetargeting := false;
  powLimit   := uint256_of 0x0002ffffffffffffffffffffffffffffffffffffffffffffffffffffffffffff;
  posLimitV1 := uint256_of 0x000000ffffffffffffffffffffffffffffffffffffffffffffffffffffffffff;
  posLimitV2 := uint256_of 0x000000ffffffffffffffffffffffffffffffffffffffffffffffffffffffffff;
  nBudgetCycleBlocks := 43200;
  nBudgetFeeConfirmations := 6;
  nCoinbaseMaturity := 90;
  nFutureTimeDriftPoW := 7200;
  nFutureTimeDriftPoS := 180;
  nMaxMoneyOut := 18000000 * COIN;
  nPNCollateralAmt := 5000 * COIN;
  nPoolMaxTransactions := 0;
  nProposalEstablishmentTime := 60 * 60 * 24;
  nStakeMinAge := 8 * 60 * 60;
  nStakeMinDepth := 600;
  nTargetTimespan := 40 * 60;
  nTargetTimespanV2 := 40 * 60;
  nTargetSpacing := 1 * 60;
  nTimeSlotLength := 15;
  nMaxProposalPayments := 6;
  vUpgrades := main_upgrades |}.

Definition test_upgrades : list Z :=
  [ALWAYS_ACTIVE; 201; 201; 201; 201; 201; 201; 201; 201; 201; 262525; 332300; NO_ACTIVATION_HEIGHT; NO_ACTIVATION_HEIGHT].
Definition CTestNetParams : Params := {|
  hashGenesisBlock := uint256_of 0x0000041e482b9b9691d98eefb48473405c0b8ec31b76df3797c74a78680ef818;
  fPowAllowMinDifficultyBlocks := true;
  fPowNoRetargeting := false;
  powLimit   := uint256_of 0x00000fffffffffffffffffffffffffffffffffffffffffffffffffffffffffff;
  posLimitV1 := uint256_of 0x000000ffffffffffffffffffffffffffffffffffffffffffffffffffffffffff;
  posLimitV2 := uint256_of 0x00000fffffffffffffffffffffffffffffffffffffffffffffffffffffffffff;
  nBudgetCycleBlocks := 144;
  nBudgetFeeConfirmations := 3;
  nCoinbaseMaturity := 15;
  nFutureTimeDriftPoW := 7200;
  nFutureTimeDriftPoS := 180;
  nMaxMoneyOut := 21000000 * COIN;
  nPNCollateralAmt := 10000 * COIN;
  nPoolMaxTransactions := 0;
  nProposalEstablishmentTime := 60 * 5;
  nStakeMinAge := 60 * 60;
  nStakeMinDepth := 100;
  nTargetTimespan := 40 * 60;
  nTargetTimespanV2 := 30 * 60;
  nTargetSpacing := 1 * 60;
  nTimeSlotLength := 15;
  nMaxProposalPayments := 20;
  vUpgrades := test_upgrades |}.

Definition regtest_upgrades : list Z :=
  [ALWAYS_ACTIVE; 251; 251; 300; 300; ALWAYS_ACTIVE; 400; 251; ALWAYS_ACTIVE; 300; 300; 251; NO_ACTIVATION_HEIGHT; NO_ACTIVATION_HEIGHT].
Definition CRegTestParams : Params := {|
  hashGenesisBlock := uint256_of 0x7445589c4c8e52b105247b13373e5ee325856aa05d53f429e59ea46b7149ae3f;
  fPowAllowMinDifficultyBlocks := true;
  fPowNoRetargeting := true;
  powLimit   := uint256_of 0x7fffffffffffffffffffffffffffffffffffffffffffffffffffffffffffffff;
  posLimitV1 := uint256_of 0x000000ffffffffffffffffffffffffffffffffffffffffffffffffffffffffff;
  posLimitV2 := uint256_of 0x00000fffffffffffffffffffffffffffffffffffffffffffffffffffffffffff;
  nBudgetCycleBlocks := 144;
  nBudgetFeeConfirmations := 3;
  nCoinbaseMaturity := 100;
  nFutureTimeDriftPoW := 7200;
  nFutureTimeDriftPoS := 180;
  nMaxMoneyOut := 43199500 * COIN;
  nPNCollateralAmt := 100 * COIN;
  nPoolMaxTransactions := 0;
  nProposalEstablishmentTime := 60 * 5;
  nStakeMinAge := 0;
  nStakeMinDepth := 2;
  nTargetTimespan := 40 * 60;
  nTargetTimespanV2 := 30 * 60;
  nTargetSpacing := 1 * 60;
  nTimeSlotLength := 15;
  nMaxProposalPayments := 20;
  vUpgrades := regtest_upgrades |}.

End Consensus.

Import Consensus.

(** * Properties *)

Section Epochs.
Context (params : Params) (nHeight : Z) (Hh : 0 <= nHeight).

Definition active (i : nat) : Prop :=
  (vUpgrades params).[i] <> NO_ACTIVATION_HEIGHT /\ (vUpgrades params).[i] <= nHeight.
Definition pending (i : nat) : Prop := nHeight < (vUpgrades params).[i].

Lemma NetworkUpgradeState_cases i :
  (i < MAX_NETWORK_UPGRADES)%nat ->
  (NetworkUpgradeState nHeight params i = Some UPGRADE_DISABLED /\ ~ active i /\ ~ pending i) \/
  (NetworkUpgradeState nHeight params i = Some UPGRADE_ACTIVE /\ active i /\ ~ pending i) \/
  (NetworkUpgradeState nHeight params i = Some UPGRADE_PENDING /\ ~ active i /\ pending i).
Proof.
  intros Hi. unfold NetworkUpgradeState, active, pending, NO_ACTIVATION_HEIGHT.
  destruct (Z.leb_spec 0 nHeight), (Nat.ltb_spec i MAX_NETWORK_UPGRADES); try lia. cbn [negb]. cbv zeta.
  destruct (Z.eqb_spec (vUpgrades params).[i] (-1)); [left; intuition lia|].
  destruct (Z.leb_spec (vUpgrades params).[i] nHeight); [right; left | right; right]; intuition lia.
Qed.

Lemma CurrentEpoch_from_spec n :
  (n < MAX_NETWORK_UPGRADES)%nat ->
  exists e, CurrentEpoch_from n nHeight params = Some e /\ (e <= n)%nat /\
    (e = 0%nat \/ active e) /\ forall j, (e < j <= n)%nat -> ~ active j.
Proof.
  induction n as [|n IH]; intros Hn; cbn [CurrentEpoch_from].
  - exists 0%nat. split; [reflexivity|]. split; [lia|]. split; [now left | lia].
  - unfold NetworkUpgradeActive_at. destruct IH as (e & E & He & Ha & Hj); [lia|].
    destruct (NetworkUpgradeState_cases (S n) Hn) as [(-> & A & _)|[(-> & A & _)|(-> & A & _)]]; cbn [option_map is_active].
    all: try (exists (S n); repeat split; [lia | now right | lia]).
    all: exists e; repeat split; [exact E | lia | exact Ha |]; intros j Hj'; destruct (Nat.eq_dec j (S n)) as [->|]; [exact A | apply Hj; lia].
Qed.

Lemma NextEpoch_from_spec n k :
  (k + n <= MAX_NETWORK_UPGRADES)%nat ->
  (exists i, NextEpoch_from (seq k n) nHeight params = Some (Some i) /\ (k <= i < k + n)%nat /\ pending i /\
     forall j, (k <= j < i)%nat -> ~ pending j) \/
  (NextEpoch_from (seq k n) nHeight params = Some None /\ forall j, (k <= j < k + n)%nat -> ~ pending j).
Proof.
  revert k; induction n as [|n IH]; intros k Hk; cbn [seq NextEpoch_from]; [right; split; [reflexivity | lia]|].
  destruct (NetworkUpgradeState_cases k ltac:(lia)) as [(-> & _ & P)|[(-> & _ & P)|(-> & _ & P)]]; cbn [is_pending].
  3:{ left. exists k. split; [reflexivity|]. split; [lia|]. split; [exact P | lia]. }
  all: destruct (IH (S k) ltac:(lia)) as [(i & E & Hi & Pi & Hj)|[E Hj]]; [left; exists i | right].
  all: repeat split; try exact E; try exact Pi; try lia.
  all: intros j Hj'; destruct (Nat.eq_dec j k) as [->|]; [exact P | apply Hj; lia].
Qed.

(** The order of the upgrades that the comment on the enumeration asks for. *)
Definition ordered : Prop :=
  forall i j, (1 <= i < j)%nat -> (j < MAX_NETWORK_UPGRADES)%nat ->
    (vUpgrades params).[i] = NO_ACTIVATION_HEIGHT \/ (vUpgrades params).[j] = NO_ACTIVATION_HEIGHT \/
    (vUpgrades params).[i] <= (vUpgrades params).[j].
End Epochs.

(** Network upgrades whose heights follow the order of the enumeration: the
    current epoch is the last active upgrade and every earlier upgrade that is not
    disabled is active too; the next activation height is the lowest one above the
    current height; and an upgrade that is active stays active. The asserts hold. *)
Theorem upgrades_in_order (params : Params) (nHeight : Z) :
  0 <= nHeight -> ordered params ->
  (exists e, CurrentEpoch nHeight params = Some e /\ (e < MAX_NETWORK_UPGRADES)%nat /\
     (forall i, (1 <= i <= e)%nat -> (vUpgrades params).[i] <> NO_ACTIVATION_HEIGHT -> active params nHeight i) /\
     (forall j, (e < j < MAX_NETWORK_UPGRADES)%nat -> ~ active params nHeight j)) /\
  (exists r, NextActivationHeight nHeight params = Some r /\
     match r with
     | Some h => nHeight < h /\ forall j, (1 <= j < MAX_NETWORK_UPGRADES)%nat -> pending params nHeight j -> h <= (vUpgrades params).[j]
     | None => forall j, (1 <= j < MAX_NETWORK_UPGRADES)%nat -> ~ pending params nHeight j
     end) /\
  (forall idx nHeight', nHeight <= nHeight' ->
     NetworkUpgradeActive params nHeight idx = true -> NetworkUpgradeActive params nHeight' idx = true).
Proof.
  intros Hh Ho. split; [|split].
  - destruct (CurrentEpoch_from_spec params nHeight Hh 13 ltac:(unfold MAX_NETWORK_UPGRADES; lia)) as (e & E & He & Ha & Hj).
    exists e. split; [exact E|]. unfold MAX_NETWORK_UPGRADES in *. split; [lia|]. split; [|intros; apply Hj; lia].
    intros i Hi Hd. split; [assumption|]. destruct Ha as [->|[A1 A2]]; [lia|].
    destruct (Nat.eq_dec i e) as [->|]; [assumption|].
    destruct (Ho i e ltac:(lia) ltac:(unfold MAX_NETWORK_UPGRADES; lia)) as [|[|]]; [contradiction.. | lia].
  - unfold NextActivationHeight, NextEpoch. destruct (Z.ltb_spec nHeight 0); [lia|].
    destruct (NextEpoch_from_spec params nHeight Hh 13 1 ltac:(unfold MAX_NETWORK_UPGRADES; lia)) as [(i & E & Hi & P & Hj)|[E Hj]];
      change (MAX_NETWORK_UPGRADES - 1)%nat with 13%nat; rewrite E.
    + exists (Some (vUpgrades params).[i]). split; [reflexivity|]. split; [exact P|]. intros j Hj' Pj.
      destruct (Nat.lt_trichotomy i j) as [L|[->|L]]; [|lia | exfalso; apply (Hj j); [lia | assumption]].
      unfold pending, NO_ACTIVATION_HEIGHT in *. destruct (Ho i j ltac:(lia) ltac:(lia)) as [|[|]]; unfold NO_ACTIVATION_HEIGHT in *; lia.
    + exists None. split; [reflexivity|]. intros j Hj'. apply Hj. unfold MAX_NETWORK_UPGRADES in Hj'. lia.
  - intros idx h' Hle. unfold NetworkUpgradeActive. destruct (Nat.leb_spec MAX_NETWORK_UPGRADES (upgrade_number idx)); [discriminate|].
    destruct (Z.ltb_spec nHeight 0), (Z.ltb_spec h' 0); try lia.
    destruct (NetworkUpgradeState_cases params nHeight Hh _ H) as [(-> & A)|[(-> & A)|(-> & A)]]; try discriminate.
    destruct (NetworkUpgradeState_cases params h' ltac:(lia) _ H) as [(-> & B)|[(-> & B)|(-> & B)]]; try reflexivity;
      unfold active in *; intros _; exfalso; apply B; intuition lia.
Qed.

Lemma testnet_ordered : ordered CTestNetParams.
Proof.
  intros i j Hi Hj. unfold MAX_NETWORK_UPGRADES in Hj. 
  do 14 (destruct i as [|i]; [do 14 (destruct j as [|j]; [cbn; unfold NO_ACTIVATION_HEIGHT; lia|]); lia|]). lia.
Qed.

Lemma upgrades_in_order_witness :
  CurrentEpoch 300000 CTestNetParams = Some 10%nat /\ NextActivationHeight 300000 CTestNetParams = Some (Some 332300) /\
  exists e, CurrentEpoch 300000 CTestNetParams = Some e.
Proof.
  split; [reflexivity|]. split; [reflexivity|].
  destruct (upgrades_in_order CTestNetParams 300000 ltac:(lia) testnet_ordered) as [(e & E & _) _]. exists e. exact E.
Defined.

(** The heights of the main network do not follow that order: at height 9014000
    the current epoch is v5.3 although neither v5.2 nor the second PoS upgrade
    is active, and the next activation height after 3001 is given as 9615800
    although v5.3 activates at 9014000. *)
Theorem mainnet_upgrades_out_of_order :
  ~ ordered CMainParams /\
  CurrentEpoch 9014000 CMainParams = Some (upgrade_number UPGRADE_V5_3) /\
  NetworkUpgradeActive CMainParams 9014000 UPGRADE_V5_2 = false /\
  NetworkUpgradeActive CMainParams 9014000 UPGRADE_POS_V2 = false /\
  NextActivationHeight 3001 CMainParams = Some (Some 9615800) /\
  IsActivationHeightForAnyUpgrade 9014000 CMainParams = true.
Proof.
  split; [|repeat split; reflexivity].
  intros H. destruct (H 10%nat 11%nat ltac:(lia) ltac:(unfold MAX_NETWORK_UPGRADES; lia)) as [E|[E|E]]; vm_compute in E; congruence.
Qed.
