(* ===== verification/Chain.v ===== *)
(** Model of the block index (src/src/chain.h, chain.cpp): [CBlockIndex] with its
    skip list, validity levels, stake modifiers and median time, and the active chain
    [CChain]. The objects live in a store and point to each other: a pointer is the
    address of an object, [None] is the null pointer. A function whose result is
    [None] has followed a null or dangling pointer, failed an [assert] or written
    outside of an object. *)
From S2P Require Import Prelude SphTypes ArithUint Upgrades.
Import Consensus.

Module Chain.

Record CBlockIndex := {
  phashBlock : list Z;
  pprev : option nat;
  pskip : option nat;
  nHeight : Z;
  nFile : Z;
  nDataPos : Z;
  nUndoPos : Z;
  nChainWork : list Z;
  nTx : Z;
  nChainTx : Z;
  nStatus : Z;
  vStakeModifier : list Z;
  nFlags : Z;
  nSaplingValue : Z;
  nChainSaplingValue : option Z;
  nVersion : Z;
  hashMerkleRoot : list Z;
  hashFinalSaplingRoot : list Z;
  nTime : Z;
  nBits : Z;
  nNonce : Z;
  nAccumulatorCheckpoint : list Z;
  nSequenceId : Z;
  nTimeMax : Z
}.

Definition set_phashBlock (x : list Z) (b : CBlockIndex) : CBlockIndex :=
  {| phashBlock := x; pprev := pprev b; pskip := pskip b; nHeight := nHeight b; nFile := nFile b; nDataPos := nDataPos b; nUndoPos := nUndoPos b; nChainWork := nChainWork b; nTx := nTx b; nChainTx := nChainTx b; nStatus := nStatus b; vStakeModifier := vStakeModifier b; nFlags := nFlags b; nSaplingValue := nSaplingValue b; nChainSaplingValue := nChainSaplingValue b; nVersion := nVersion b; hashMerkleRoot := hashMerkleRoot b; hashFinalSaplingRoot := hashFinalSaplingRoot b; nTime := nTime b; nBits := nBits b; nNonce := nNonce b; nAccumulatorCheckpoint := nAccumulatorCheckpoint b; nSequenceId := nSequenceId b; nTimeMax := nTimeMax b |}.
Definition set_pprev (x : option nat) (b : CBlockIndex) : CBlockIndex :=
  {| phashBlock := phashBlock b; pprev := x; pskip := pskip b; nHeight := nHeight b; nFile := nFile b; nDataPos := nDataPos b; nUndoPos := nUndoPos b; nChainWork := nChainWork b; nTx := nTx b; nChainTx := nChainTx b; nStatus := nStatus b; vStakeModifier := vStakeModifier b; nFlags := nFlags b; nSaplingValue := nSaplingValue b; nChainSaplingValue := nChainSaplingValue b; nVersion := nVersion b; hashMerkleRoot := hashMerkleRoot b; hashFinalSaplingRoot := hashFinalSaplingRoot b; nTime := nTime b; nBits := nBits b; nNonce := nNonce b; nAccumulatorCheckpoint := nAccumulatorCheckpoint b; nSequenceId := nSequenceId b; nTimeMax := nTimeMax b |}.
Definition set_pskip (x : option nat) (b : CBlockIndex) : CBlockIndex :=
  {| phashBlock := phashBlock b; pprev := pprev b; pskip := x; nHeight := nHeight b; nFile := nFile b; nDataPos := nDataPos b; nUndoPos := nUndoPos b; nChainWork := nChainWork b; nTx := nTx b; nChainTx := nChainTx b; nStatus := nStatus b; vStakeModifier := vStakeModifier b; nFlags := nFlags b; nSaplingValue := nSaplingValue b; nChainSaplingValue := nChainSaplingValue b; nVersion := nVersion b; hashMerkleRoot := hashMerkleRoot b; hashFinalSaplingRoot := hashFinalSaplingRoot b; nTime := nTime b; nBits := nBits b; nNonce := nNonce b; nAccumulatorCheckpoint := nAccumulatorCheckpoint b; nSequenceId := nSequenceId b; nTimeMax := nTimeMax b |}.
Definition set_nHeight (x : Z) (b : CBlockIndex) : CBlockIndex :=
  {| phashBlock := phashBlock b; pprev := pprev b; pskip := pskip b; nHeight := x; nFile := nFile b; nDataPos := nDataPos b; nUndoPos := nUndoPos b; nChainWork := nChainWork b; nTx := nTx b; nChainTx := nChainTx b; nStatus := nStatus b; vStakeModifier := vStakeModifier b; nFlags := nFlags b; nSaplingValue := nSaplingValue b; nChainSaplingValue := nChainSaplingValue b; nVersion := nVersion b; hashMerkleRoot := hashMerkleRoot b; hashFinalSaplingRoot := hashFinalSaplingRoot b; nTime := nTime b; nBits := nBits b; nNonce := nNonce b; nAccumulatorCheckpoint := nAccumulatorCheckpoint b; nSequenceId := nSequenceId b; nTimeMax := nTimeMax b |}.
Definition set_nChainWork (x : list Z) (b : CBlockIndex) : CBlockIndex :=
  {| phashBlock := phashBlock b; pprev := pprev b; pskip := pskip b; nHeight := nHeight b; nFile := nFile b; nDataPos := nDataPos b; nUndoPos := nUndoPos b; nChainWork := x; nTx := nTx b; nChainTx := nChainTx b; nStatus := nStatus b; vStakeModifier := vStakeModifier b; nFlags := nFlags b; nSaplingValue := nSaplingValue b; nChainSaplingValue := nChainSaplingValue b; nVersion := nVersion b; hashMerkleRoot := hashMerkleRoot b; hashFinalSaplingRoot := hashFinalSaplingRoot b; nTime := nTime b; nBits := nBits b; nNonce := nNonce b; nAccumulatorCheckpoint := nAccumulatorCheckpoint b; nSequenceId := nSequenceId b; nTimeMax := nTimeMax b |}.
Definition set_nStatus (x : Z) (b : CBlockIndex) : CBlockIndex :=
  {| phashBlock := phashBlock b; pprev := pprev b; pskip := pskip b; nHeight := nHeight b; nFile := nFile b; nDataPos := nDataPos b; nUndoPos := nUndoPos b; nChainWork := nChainWork b; nTx := nTx b; nChainTx := nChainTx b; nStatus := x; vStakeModifier := vStakeModifier b; nFlags := nFlags b; nSaplingValue := nSaplingValue b; nChainSaplingValue := nChainSaplingValue b; nVersion := nVersion b; hashMerkleRoot := hashMerkleRoot b; hashFinalSaplingRoot := hashFinalSaplingRoot b; nTime := nTime b; nBits := nBits b; nNonce := nNonce b; nAccumulatorCheckpoint := nAccumulatorCheckpoint b; nSequenceId := nSequenceId b; nTimeMax := nTimeMax b |}.
Definition set_vStakeModifier (x : list Z) (b : CBlockIndex) : CBlockIndex :=
  {| phashBlock := phashBlock b; pprev := pprev b; pskip := pskip b; nHeight := nHeight b; nFile := nFile b; nDataPos := nDataPos b; nUndoPos := nUndoPos b; nChainWork := nChainWork b; nTx := nTx b; nChainTx := nChainTx b; nStatus := nStatus b; vStakeModifier := x; nFlags := nFlags b; nSaplingValue := nSaplingValue b; nChainSaplingValue := nChainSaplingValue b; nVersion := nVersion b; hashMerkleRoot := hashMerkleRoot b; hashFinalSaplingRoot := hashFinalSaplingRoot b; nTime := nTime b; nBits := nBits b; nNonce := nNonce b; nAccumulatorCheckpoint := nAccumulatorCheckpoint b; nSequenceId := nSequenceId b; nTimeMax := nTimeMax b |}.
Definition set_nFlags (x : Z) (b : CBlockIndex) : CBlockIndex :=
  {| phashBlock := phashBlock b; pprev := pprev b; pskip := pskip b; nHeight := nHeight b; nFile := nFile b; nDataPos := nDataPos b; nUndoPos := nUndoPos b; nChainWork := nChainWork b; nTx := nTx b; nChainTx := nChainTx b; nStatus := nStatus b; vStakeModifier := vStakeModifier b; nFlags := x; nSaplingValue := nSaplingValue b; nChainSaplingValue := nChainSaplingValue b; nVersion := nVersion b; hashMerkleRoot := hashMerkleRoot b; hashFinalSaplingRoot := hashFinalSaplingRoot b; nTime := nTime b; nBits := nBits b; nNonce := nNonce b; nAccumulatorCheckpoint := nAccumulatorCheckpoint b; nSequenceId := nSequenceId b; nTimeMax := nTimeMax b |}.
Definition set_nChainSaplingValue (x : option Z) (b : CBlockIndex) : CBlockIndex :=
  {| phashBlock := phashBlock b; pprev := pprev b; pskip := pskip b; nHeight := nHeight b; nFile := nFile b; nDataPos := nDataPos b; nUndoPos := nUndoPos b; nChainWork := nChainWork b; nTx := nTx b; nChainTx := nChainTx b; nStatus := nStatus b; vStakeModifier := vStakeModifier b; nFlags := nFlags b; nSaplingValue := nSaplingValue b; nChainSaplingValue := x; nVersion := nVersion b; hashMerkleRoot := hashMerkleRoot b; hashFinalSaplingRoot := hashFinalSaplingRoot b; nTime := nTime b; nBits := nBits b; nNonce := nNonce b; nAccumulatorCheckpoint := nAccumulatorCheckpoint b; nSequenceId := nSequenceId b; nTimeMax := nTimeMax b |}.
Definition set_nSequenceId (x : Z) (b : CBlockIndex) : CBlockIndex :=
  {| phashBlock := phashBlock b; pprev := pprev b; pskip := pskip b; nHeight := nHeight b; nFile := nFile b; nDataPos := nDataPos b; nUndoPos := nUndoPos b; nChainWork := nChainWork b; nTx := nTx b; nChainTx := nChainTx b; nStatus := nStatus b; vStakeModifier := vStakeModifier b; nFlags := nFlags b; nSaplingValue := nSaplingValue b; nChainSaplingValue := nChainSaplingValue b; nVersion := nVersion b; hashMerkleRoot := hashMerkleRoot b; hashFinalSaplingRoot := hashFinalSaplingRoot b; nTime := nTime b; nBits := nBits b; nNonce := nNonce b; nAccumulatorCheckpoint := nAccumulatorCheckpoint b; nSequenceId := x; nTimeMax := nTimeMax b |}.
Definition set_nTimeMax (x : Z) (b : CBlockIndex) : CBlockIndex :=
  {| phashBlock := phashBlock b; pprev := pprev b; pskip := pskip b; nHeight := nHeight b; nFile := nFile b; nDataPos := nDataPos b; nUndoPos := nUndoPos b; nChainWork := nChainWork b; nTx := nTx b; nChainTx := nChainTx b; nStatus := nStatus b; vStakeModifier := vStakeModifier b; nFlags := nFlags b; nSaplingValue := nSaplingValue b; nChainSaplingValue := nChainSaplingValue b; nVersion := nVersion b; hashMerkleRoot := hashMerkleRoot b; hashFinalSaplingRoot := hashFinalSaplingRoot b; nTime := nTime b; nBits := nBits b; nNonce := nNonce b; nAccumulatorCheckpoint := nAccumulatorCheckpoint b; nSequenceId := nSequenceId b; nTimeMax := x |}.

(** The objects by address. *)
Definition store := list CBlockIndex.
Abbreviation ptr := (option nat).

Definition deref (s : store) (p : ptr) : option CBlockIndex :=
  match p with
  | None => None
  | Some a => nth_error s a
  end.
Definition write (s : store) (a : nat) (b : CBlockIndex) : store := upd s a b.

Definition ptr_eqb (p q : ptr) : bool :=
  match p, q with
  | None, None => true
  | Some a, Some b => (a =? b)%nat
  | _, _ => false
  end.

(** Sequencing of operations that may fail. *)
Notation "'let!' x := e 'in' f" := (match e with Some x => f | None => None end)
  (at level 10, x pattern, e at level 200, f at level 200).

(** * Validity *)

Definition BLOCK_VALID_UNKNOWN : Z := 0.
Definition BLOCK_VALID_HEADER : Z := 1.
Definition BLOCK_VALID_TREE : Z := 2.
Definition BLOCK_VALID_TRANSACTIONS : Z := 3.
Definition BLOCK_VALID_CHAIN : Z := 4.
Definition BLOCK_VALID_SCRIPTS : Z := 5.
Definition BLOCK_VALID_MASK : Z :=
  BLOCK_VALID_HEADER |: BLOCK_VALID_TREE |: BLOCK_VALID_TRANSACTIONS |: BLOCK_VALID_CHAIN |: BLOCK_VALID_SCRIPTS.
Definition BLOCK_HAVE_DATA : Z := 8.
Definition BLOCK_HAVE_UNDO : Z := 16.
Definition BLOCK_FAILED_VALID : Z := 32.
Definition BLOCK_FAILED_CHILD : Z := 64.
Definition BLOCK_FAILED_MASK : Z := BLOCK_FAILED_VALID |: BLOCK_FAILED_CHILD.

Definition IsValid (b : CBlockIndex) (nUpTo : Z) : option bool :=
  if negb ((nUpTo &: Z.lnot BLOCK_VALID_MASK) =? 0) then None
  else if negb ((nStatus b &: BLOCK_FAILED_MASK) =? 0) then Some false
  else Some (nUpTo <=? (nStatus b &: BLOCK_VALID_MASK)).

(** Returns whether the validity was changed, and the object. *)
Definition RaiseValidity (b : CBlockIndex) (nUpTo : Z) : option (bool * CBlockIndex) :=
  if negb ((nUpTo &: Z.lnot BLOCK_VALID_MASK) =? 0) then None
  else if negb ((nStatus b &: BLOCK_FAILED_MASK) =? 0) then Some (false, b)
  else if (nStatus b &: BLOCK_VALID_MASK) <? nUpTo
  then Some (true, set_nStatus ((nStatus b &: Z.lnot BLOCK_VALID_MASK) |: nUpTo) b)
  else Some (false, b).

(** A position: file number and offset; the default is (-1, 0). *)
Definition GetBlockPos (b : CBlockIndex) : Z * Z :=
  if negb ((nStatus b &: BLOCK_HAVE_DATA) =? 0) then (nFile b, nDataPos b) else (-1, 0).
Definition GetUndoPos (b : CBlockIndex) : Z * Z :=
  if negb ((nStatus b &: BLOCK_HAVE_UNDO) =? 0) then (nFile b, nUndoPos b) else (-1, 0).

(** * Flags and stake modifiers *)

Definition BLOCK_PROOF_OF_STAKE : Z := 1.
Definition BLOCK_STAKE_ENTROPY : Z := 2.
Definition BLOCK_STAKE_MODIFIER : Z := 4.

Definition IsProofOfStake (b : CBlockIndex) : bool := negb ((nFlags b &: BLOCK_PROOF_OF_STAKE) =? 0).
Definition SetProofOfStake (b : CBlockIndex) : CBlockIndex := set_nFlags (nFlags b |: BLOCK_PROOF_OF_STAKE) b.
Definition GeneratedStakeModifier (b : CBlockIndex) : bool := negb ((nFlags b &: BLOCK_STAKE_MODIFIER) =? 0).

(** [GetBlockHash().GetCheapHash() & 1]. *)
Definition GetStakeEntropyBit (b : CBlockIndex) : Z := load 8 (phashBlock b) &: 1.
Definition SetStakeEntropyBit (b : CBlockIndex) (nEntropyBit : Z) : bool * CBlockIndex :=
  if 1 <? nEntropyBit then (false, b)
  else (true, set_nFlags (nFlags b |: (if nEntropyBit =? 0 then 0 else BLOCK_STAKE_ENTROPY)) b).

Definition SetStakeModifierV1 (b : CBlockIndex) (nStakeModifier : Z) (fGeneratedStakeModifier : bool) : CBlockIndex :=
  let b := set_vStakeModifier (SphTypes.store 8 nStakeModifier) b in
  if fGeneratedStakeModifier then set_nFlags (nFlags b |: BLOCK_STAKE_MODIFIER) b else b.
Definition SetStakeModifierV2 (b : CBlockIndex) (nStakeModifier : list Z) : CBlockIndex :=
  set_vStakeModifier nStakeModifier b.

(** [memcpy] of the whole vector into eight bytes without initial value: [None] if it
    does not fill them exactly. *)
Definition GetStakeModifierV1 (params : Params) (b : CBlockIndex) : option Z :=
  if (length (vStakeModifier b) =? 0)%nat || NetworkUpgradeActive params (nHeight b) UPGRADE_V3_4 then Some 0
  else if (length (vStakeModifier b) =? 8)%nat then Some (load 8 (vStakeModifier b)) else None.
Definition GetStakeModifierV2 (params : Params) (b : CBlockIndex) : option (list Z) :=
  if (length (vStakeModifier b) =? 0)%nat || negb (NetworkUpgradeActive params (nHeight b) UPGRADE_V3_4) then Some (repeat 0 32)
  else if (length (vStakeModifier b) <=? 32)%nat then Some (memcpy_at (repeat 0 32) 0 (vStakeModifier b)) else None.

(** * Ancestors *)

Definition InvertLowestOne (n : Z) : Z := n &: (n - 1).

Definition GetSkipHeight (height : Z) : Z :=
  if height <? 2 then 0
  else if negb ((height &: 1) =? 0) then InvertLowestOne (InvertLowestOne (height - 1)) + 1
  else InvertLowestOne height.

(** [while (heightWalk > height)]. *)
Fixpoint ancestor_walk (fuel : nat) (s : store) (pindexWalk : ptr) (heightWalk height : Z) : option ptr :=
  match fuel with
  | O => None
  | S fuel' =>
      if height <? heightWalk then
        let heightSkip := GetSkipHeight heightWalk in
        let heightSkipPrev := GetSkipHeight (heightWalk - 1) in
        let! b := deref s pindexWalk in
        if (heightSkip =? height) ||
           ((height <? heightSkip) && negb ((heightSkipPrev <? heightSkip - 2) && (height <=? heightSkipPrev)))
        then ancestor_walk fuel' s (pskip b) heightSkip height
        else
          let! _ := deref s (pprev b) in
          ancestor_walk fuel' s (pprev b) (heightWalk - 1) height
      else Some pindexWalk
  end.

Definition GetAncestor (s : store) (p : ptr) (height : Z) : option ptr :=
  let! b := deref s p in
  if (nHeight b <? height) || (height <? 0) then Some None
  else ancestor_walk (S (Z.to_nat (nHeight b))) s p (nHeight b) height.

Definition BuildSkip (s : store) (a : nat) : option store :=
  let! b := nth_error s a in
  match pprev b with
  | None => Some s
  | Some _ =>
      let! r := GetAncestor s (pprev b) (GetSkipHeight (nHeight b)) in
      Some (write s a (set_pskip r b))
  end.

(** [while (pa != pb && pa && pb)]. *)
Fixpoint common_walk (fuel : nat) (s : store) (pa pb : ptr) : option (ptr * ptr) :=
  match fuel with
  | O => None
  | S fuel' =>
      if ptr_eqb pa pb then Some (pa, pb)
      else match pa, pb with
           | Some _, Some _ =>
               let! a := deref s pa in
               let! b := deref s pb in
               common_walk fuel' s (pprev a) (pprev b)
           | _, _ => Some (pa, pb)
           end
  end.

Definition LastCommonAncestor (s : store) (pa pb : ptr) : option ptr :=
  let! a := deref s pa in
  let! b := deref s pb in
  let! pa' := (if nHeight b <? nHeight a then GetAncestor s pa (nHeight b) else Some pa) in
  let! pb' := (if nHeight b <? nHeight a then Some pb
               else if nHeight a <? nHeight b then GetAncestor s pb (nHeight a) else Some pb) in
  let! (qa, qb) := common_walk (S (S (Z.to_nat (nHeight a)))) s pa' pb' in
  if ptr_eqb qa qb then Some qa else None.

(** * Times *)

Definition GetBlockTime (b : CBlockIndex) : Z := nTime b.
Definition GetBlockTimeMax (b : CBlockIndex) : Z := nTimeMax b.

(** [std::sort]. *)
Fixpoint insert_sorted (x : Z) (l : list Z) : list Z :=
  match l with
  | [] => [x]
  | y :: t => if x <=? y then x :: l else y :: insert_sorted x t
  end.
Definition sort (l : list Z) : list Z := fold_right insert_sorted [] l.

Definition nMedianTimeSpan : nat := 11.

(** The times of the last [n] blocks, the last one first; they are written from the
    end of the array towards its start. *)
Fixpoint past_times (n : nat) (s : store) (pindex : ptr) : option (list Z) :=
  match n, pindex with
  | S n', Some _ =>
      let! b := deref s pindex in
      let! rest := past_times n' s (pprev b) in
      Some (GetBlockTime b :: rest)
  | _, _ => Some []
  end.

Definition GetMedianTimePast (s : store) (p : ptr) : option Z :=
  let! times := past_times nMedianTimeSpan s p in
  let sorted := sort (rev times) in
  nth_error sorted (length sorted / 2).

(** [nNow] is [GetAdjustedTime()]. *)
Definition MaxFutureBlockTime (params : Params) (nNow : Z) (b : CBlockIndex) : Z :=
  nNow + FutureBlockTimeDrift params (nHeight b + 1).

Definition MinPastBlockTime (params : Params) (s : store) (a : nat) : option Z :=
  let! b := nth_error s a in
  if negb (IsTimeProtocolV2 params (nHeight b + 1)) then GetMedianTimePast s (Some a)
  else if nHeight b + 1 =? (vUpgrades params).[upgrade_number UPGRADE_V4_0]
  then Some (GetBlockTime b - FutureBlockTimeDrift params (nHeight b) + FutureBlockTimeDrift params (nHeight b + 1))
  else Some (GetBlockTime b).

Definition SetChainSaplingValue (s : store) (a : nat) : option store :=
  let! b := nth_error s a in
  match pprev b with
  | None => Some (write s a (set_nChainSaplingValue (Some (nSaplingValue b)) b))
  | Some _ =>
      let! q := deref s (pprev b) in
      Some (write s a (set_nChainSaplingValue
        (match nChainSaplingValue q with Some v => Some (v + nSaplingValue b) | None => None end) b))
  end.

(** * The active chain *)

Definition CChain := list ptr.

Definition Genesis (vChain : CChain) : ptr :=
  if (0 <? length vChain)%nat then nth 0 vChain None else None.

(** [operator[]]. *)
Definition chain_at (vChain : CChain) (h : Z) : ptr :=
  if (h <? 0) || (Z.of_nat (length vChain) <=? h) then None else nth (Z.to_nat h) vChain None.

Definition Height (vChain : CChain) : Z := Z.of_nat (length vChain) - 1.

(** [Tip()], and [Tip(true)]: back to the last proof-of-stake block. *)
Fixpoint pos_walk (fuel : nat) (s : store) (pindex : ptr) : option ptr :=
  match fuel with
  | O => None
  | S fuel' =>
      match pindex with
      | None => Some None
      | Some _ =>
          let! b := deref s pindex in
          match pprev b with
          | None => Some pindex
          | Some _ => if IsProofOfStake b then Some pindex else pos_walk fuel' s (pprev b)
          end
      end
  end.
Definition Tip (vChain : CChain) : ptr := if (length vChain <? 1)%nat then None else nth (length vChain - 1) vChain None.
Definition TipPoS (s : store) (vChain : CChain) : option ptr := pos_walk (S (length vChain)) s (Tip vChain).

Definition Contains (s : store) (vChain : CChain) (p : ptr) : option bool :=
  let! b := deref s p in
  Some (ptr_eqb (chain_at vChain (nHeight b)) p).

Definition Next (s : store) (vChain : CChain) (p : ptr) : option ptr :=
  let! b := deref s p in
  let! c := Contains s vChain p in
  Some (if (c : bool) then chain_at vChain (nHeight b + 1) else None).

(** [vChain.resize(n)]. *)
Definition resize (vChain : CChain) (n : nat) : CChain := firstn n vChain ++ repeat None (n - length vChain).

(** [while (pindex && vChain[pindex->nHeight] != pindex)]; writing outside of the
    vector is a failure. *)
Fixpoint settip_walk (fuel : nat) (s : store) (vChain : CChain) (pindex : ptr) : option CChain :=
  match fuel with
  | O => None
  | S fuel' =>
      match pindex with
      | None => Some vChain
      | Some _ =>
          let! b := deref s pindex in
          if (nHeight b <? 0) || (Z.of_nat (length vChain) <=? nHeight b) then None
          else if ptr_eqb (nth (Z.to_nat (nHeight b)) vChain None) pindex then Some vChain
          else settip_walk fuel' s (upd vChain (Z.to_nat (nHeight b)) pindex) (pprev b)
      end
  end.
Definition SetTip (s : store) (vChain : CChain) (pindex : ptr) : option CChain :=
  match pindex with
  | None => Some []
  | Some _ =>
      let! b := deref s pindex in
      let vChain := resize vChain (Z.to_nat (nHeight b + 1)) in
      settip_walk (S (length vChain)) s vChain pindex
  end.

(** [while (pindex && !Contains(pindex))]. *)
Fixpoint fork_walk (fuel : nat) (s : store) (vChain : CChain) (pindex : ptr) : option ptr :=
  match fuel with
  | O => None
  | S fuel' =>
      match pindex with
      | None => Some None
      | Some _ =>
          let! b := deref s pindex in
          let! c := Contains s vChain pindex in
          if (c : bool) then Some pindex else fork_walk fuel' s vChain (pprev b)
      end
  end.
Definition FindFork (s : store) (vChain : CChain) (pindex : ptr) : option ptr :=
  match pindex with
  | None => Some None
  | Some _ =>
      let! b := deref s pindex in
      let! p := (if Height vChain <? nHeight b then GetAncestor s pindex (Height vChain) else Some pindex) in
      fork_walk (S (S (Z.to_nat (nHeight b)))) s vChain p
  end.

(** The loop of [GetLocator]; the result is [vHave]. *)
Fixpoint locator_walk (fuel : nat) (s : store) (vChain : CChain) (pindex : ptr) (nStep : Z) (vHave : list (list Z))
  : option (list (list Z)) :=
  match fuel with
  | O => None
  | S fuel' =>
      match pindex with
      | None => Some vHave
      | Some _ =>
          let! b := deref s pindex in
          let vHave := vHave ++ [phashBlock b] in
          if nHeight b =? 0 then Some vHave
          else
            let h := Z.max (nHeight b - nStep) 0 in
            let! c := Contains s vChain pindex in
            let! pindex := (if (c : bool) then Some (chain_at vChain h) else GetAncestor s pindex h) in
            let nStep := if (10 <? length vHave)%nat then nStep * 2 else nStep in
            locator_walk fuel' s vChain pindex nStep vHave
      end
  end.
Definition GetLocator (s : store) (vChain : CChain) (pindex : ptr) : option (list (list Z)) :=
  let pindex := match pindex with None => Tip vChain | Some _ => pindex end in
  match pindex with
  | None => Some []
  | Some _ =>
      let! b := deref s pindex in
      locator_walk (S (Z.to_nat (nHeight b))) s vChain pindex 1 []
  end.

(** [std::lower_bound] with the comparison [pBlock->GetBlockTimeMax() < time]:
    the position of the first block that is not before [t]. *)
Fixpoint lower_bound (fuel : nat) (s : store) (vChain : CChain) (first count : nat) (t : Z) : option nat :=
  match fuel with
  | O => None
  | S fuel' =>
      if (count =? 0)%nat then Some first
      else
        let step := (count / 2)%nat in
        let! b := deref s (nth (first + step) vChain None) in
        if GetBlockTimeMax b <? t then lower_bound fuel' s vChain (first + step + 1) (count - (step + 1)) t
        else lower_bound fuel' s vChain first step t
  end.
Definition FindEarliestAtLeast (s : store) (vChain : CChain) (t : Z) : option ptr :=
  let! lower := lower_bound (S (length vChain)) s vChain 0 (length vChain) t in
  Some (if (lower =? length vChain)%nat then None else nth lower vChain None).

End Chain.
