(* ===== verification/ChainProofs.v ===== *)
(** The block index: the skip list finds ancestors, is built correctly, and the active
    chain holds the ancestors of its tip. *)
From Stdlib Require Import ZifyNat Permutation Sorted.
From S2P Require Import Prelude SphTypes ArithUint Upgrades Chain.
Import Consensus Chain.

(** * Following [pprev] *)

Fixpoint anc (s : store) (n : nat) (p : ptr) : ptr :=
  match n with
  | O => p
  | S n' => match deref s p with Some b => anc s n' (pprev b) | None => None end
  end.

(** Heights count the blocks to the root. *)
Definition linked (s : store) : Prop :=
  forall a b, nth_error s a = Some b ->
    0 <= nHeight b /\
    match pprev b with
    | None => nHeight b = 0
    | Some q => exists c, nth_error s q = Some c /\ nHeight c = nHeight b - 1
    end.

Definition height (b : CBlockIndex) : nat := Z.to_nat (nHeight b).

Lemma anc_none s n : anc s n None = None.
Proof. now destruct n. Qed.

Lemma anc_add s n m p : anc s (n + m) p = anc s m (anc s n p).
Proof.
  revert p; induction n as [|n IH]; intros p; [reflexivity|]. cbn [Nat.add anc].
  destruct (deref s p) as [b|]; [apply IH | now rewrite anc_none].
Qed.

Lemma anc_S s n p : anc s (S n) p = anc s 1 (anc s n p).
Proof. rewrite <- Nat.add_1_r. apply anc_add. Qed.

Section Store.
Context (s : store) (Hs : linked s).

Lemma parent a b :
  nth_error s a = Some b -> 0 < nHeight b ->
  exists q c, pprev b = Some q /\ nth_error s q = Some c /\ nHeight c = nHeight b - 1.
Proof.
  intros E Hb. destruct (Hs a b E) as [H0 Hp]. destruct (pprev b) as [q|]; [|lia].
  destruct Hp as (c & Ec & Hc). eauto.
Qed.

(** The ancestor [n] steps back exists when the height allows it, and then nothing. *)
Lemma anc_height n a b :
  nth_error s a = Some b -> (n <= height b)%nat ->
  exists a' b', anc s n (Some a) = Some a' /\ nth_error s a' = Some b' /\ nHeight b' = nHeight b - Z.of_nat n.
Proof.
  revert a b; induction n as [|n IH]; intros a b E Hn.
  - exists a, b. repeat split; [assumption | lia].
  - unfold height in *. destruct (parent a b E ltac:(lia)) as (q & c & Ep & Eq & Hq).
    destruct (IH q c Eq ltac:(lia)) as (a' & b' & E1 & E2 & E3).
    exists a', b'. cbn [anc deref]. rewrite E, Ep. repeat split; [assumption.. | lia].
Qed.

Lemma anc_beyond n a b : nth_error s a = Some b -> (height b < n)%nat -> anc s n (Some a) = None.
Proof.
  intros E Hn. replace n with (height b + (n - height b))%nat by lia. rewrite anc_add.
  destruct (anc_height (height b) a b E ltac:(lia)) as (a' & b' & -> & E' & H').
  destruct (n - height b)%nat as [|k] eqn:Ek; [lia|]. cbn [anc deref]. rewrite E'.
  destruct (Hs a' b' E') as [H0 Hp]. destruct (Hs a b E) as [H1 _]. unfold height in H'.
  destruct (pprev b') as [q|]; [|apply anc_none]. destruct Hp as (c & Ec & Hc). destruct (Hs q c Ec). lia.
Qed.

(** * The skip list *)

Definition skip_ok (a : nat) (b : CBlockIndex) : Prop :=
  pprev b <> None -> pskip b = anc s (height b - Z.to_nat (GetSkipHeight (nHeight b))) (Some a).

(** Skip pointers are right up to the height [h]. *)
Definition skips_upto (h : Z) : Prop :=
  forall a b, nth_error s a = Some b -> nHeight b <= h -> skip_ok a b.
End Store.

Lemma land_le_r a b : 0 <= b -> a &: b <= b.
Proof.
  intros Hb. pose proof (Z.lor_ldiff_and b a) as E. rewrite Z.land_comm in E.
  rewrite <- Z.lxor_lor, <- Z.add_nocarry_lxor in E.
  - assert (0 <= Z.ldiff b a) by (apply Z.ldiff_nonneg; lia). lia.
  - rewrite Z.land_comm. apply Z.bits_inj'. intros i Hi. rewrite !Z.land_spec, Z.ldiff_spec, Z.testbit_0_l. btauto.
  - rewrite Z.land_comm. apply Z.bits_inj'. intros i Hi. rewrite !Z.land_spec, Z.ldiff_spec, Z.testbit_0_l. btauto.
Qed.

Lemma InvertLowestOne_bound n : 1 <= n -> 0 <= InvertLowestOne n < n.
Proof.
  intros H. unfold InvertLowestOne. pose proof (land_le_r n (n - 1) ltac:(lia)).
  split; [apply Z.land_nonneg; lia | lia].
Qed.

(** A block skips back to a lower height. *)
Lemma GetSkipHeight_bound h : 1 <= h -> 0 <= GetSkipHeight h < h.
Proof.
  intros H. unfold GetSkipHeight. destruct (Z.ltb_spec h 2); [lia|].
  destruct (negb ((h &: 1) =? 0)); [|apply InvertLowestOne_bound; lia].
  pose proof (InvertLowestOne_bound (h - 1) ltac:(lia)) as B.
  destruct (Z.eq_dec (InvertLowestOne (h - 1)) 0) as [->|E]; [cbn; lia|].
  pose proof (InvertLowestOne_bound (InvertLowestOne (h - 1)) ltac:(lia)). lia.
Qed.

Lemma ancestor_walk_spec s fuel a b h :
  linked s -> skips_upto s (nHeight b) -> nth_error s a = Some b -> 0 <= h <= nHeight b ->
  (Z.to_nat (nHeight b - h) < fuel)%nat ->
  ancestor_walk fuel s (Some a) (nHeight b) h = Some (anc s (Z.to_nat (nHeight b - h)) (Some a)).
Proof.
  intros Hs. revert a b. induction fuel as [|fuel IH]; intros a b Hk E Hh Hf; [lia|]. cbn [ancestor_walk].
  destruct (Z.ltb_spec h (nHeight b)) as [L|L]; [|replace (nHeight b - h) with 0 by lia; reflexivity].
  cbv zeta. cbn [deref]. rewrite E. destruct (parent s Hs a b E ltac:(lia)) as (q & c & Ep & Eq & Hq).
  pose proof (GetSkipHeight_bound (nHeight b) ltac:(lia)) as G.
  (* one step to [x] at height [t], then the rest *)
  assert (Step : forall t, h <= t < nHeight b -> exists x y, anc s (Z.to_nat (nHeight b - t)) (Some a) = Some x /\
      nth_error s x = Some y /\ nHeight y = t /\
      ancestor_walk fuel s (Some x) t h = Some (anc s (Z.to_nat (nHeight b - h)) (Some a))).
  { intros t Ht. destruct (anc_height s Hs (Z.to_nat (nHeight b - t)) a b E ltac:(unfold height; lia)) as (x & y & E1 & E2 & E3).
    exists x, y. assert (Ey : nHeight y = t) by lia. repeat split; [assumption.. |].
    rewrite <- Ey. rewrite IH; [| | assumption | lia | lia].
    - replace (Z.to_nat (nHeight b - h)) with (Z.to_nat (nHeight b - t) + Z.to_nat (nHeight y - h))%nat by lia.
      now rewrite anc_add, E1.
    - intros a' b' E' Hb'. apply Hk; [assumption | lia]. }
  destruct (_ || _) eqn:C.
  - rewrite (Hk a b E ltac:(lia)) by (rewrite Ep; discriminate).
    destruct (Step (GetSkipHeight (nHeight b))) as (x & y & E1 & _ & _ & E4).
    { apply Bool.orb_true_iff in C as [C|C]; [apply Z.eqb_eq in C; lia|].
      apply Bool.andb_true_iff in C as [C _]. apply Z.ltb_lt in C. lia. }
    replace (height b - Z.to_nat (GetSkipHeight (nHeight b)))%nat
      with (Z.to_nat (nHeight b - GetSkipHeight (nHeight b))) by (unfold height; lia).
    now rewrite E1.
  - rewrite Ep. cbn [deref]. rewrite Eq. destruct (Step (nHeight b - 1) ltac:(lia)) as (x & y & E1 & _ & _ & E4).
    replace (Z.to_nat (nHeight b - (nHeight b - 1))) with 1%nat in E1 by lia. cbn [anc deref] in E1.
    rewrite E in E1. rewrite Ep in E1. now injection E1 as ->.
Qed.

Lemma GetAncestor_spec s a b h :
  linked s -> skips_upto s (nHeight b) -> nth_error s a = Some b ->
  GetAncestor s (Some a) h =
  Some (if (0 <=? h) && (h <=? nHeight b) then anc s (Z.to_nat (nHeight b - h)) (Some a) else None).
Proof.
  intros Hs Hk E. unfold GetAncestor. cbn [deref]. rewrite E.
  destruct (Z.ltb_spec (nHeight b) h), (Z.ltb_spec h 0), (Z.leb_spec 0 h), (Z.leb_spec h (nHeight b)); try lia; try reflexivity.
  cbn [orb andb]. apply ancestor_walk_spec; try assumption; lia.
Qed.

(** ** Building the list *)

Lemma nth_error_upd {A} (l : list A) a x i :
  nth_error (upd l a x) i = if (i =? a)%nat then (match nth_error l i with Some _ => Some x | None => None end) else nth_error l i.
Proof. revert a i; induction l as [|y l IH]; intros [|a] [|i]; cbn; try reflexivity; [now destruct (_ =? _)%nat | apply IH]. Qed.

(** Writing a skip pointer changes neither heights nor predecessors. *)
Lemma nth_error_write_skip s a b r i c :
  nth_error s a = Some b -> nth_error (write s a (set_pskip r b)) i = Some c ->
  exists c', nth_error s i = Some c' /\ pprev c = pprev c' /\ nHeight c = nHeight c' /\
    pskip c = if (i =? a)%nat then r else pskip c'.
Proof.
  intros E. unfold write. rewrite nth_error_upd. destruct (Nat.eqb_spec i a) as [->|].
  - rewrite E. intros [= <-]. exists b. auto.
  - intros Ec. exists c. auto.
Qed.

Lemma nth_error_write_skip_conv s a b r i c' :
  nth_error s a = Some b -> nth_error s i = Some c' ->
  exists c, nth_error (write s a (set_pskip r b)) i = Some c /\ pprev c = pprev c' /\ nHeight c = nHeight c'.
Proof.
  intros E Ec. unfold write. rewrite nth_error_upd. destruct (Nat.eqb_spec i a) as [->|]; rewrite Ec.
  - exists (set_pskip r b). rewrite E in Ec. injection Ec as <-. auto.
  - exists c'. auto.
Qed.

Lemma anc_write_skip s a b r n p :
  nth_error s a = Some b -> anc (write s a (set_pskip r b)) n p = anc s n p.
Proof.
  intros E. revert p; induction n as [|n IH]; intros p; [reflexivity|]. cbn [anc].
  destruct p as [i|]; [|reflexivity]. cbn [deref].
  destruct (nth_error s i) as [c'|] eqn:Ei.
  - destruct (nth_error_write_skip_conv s a b r i c' E Ei) as (c & -> & -> & _). apply IH.
  - destruct (nth_error (write s a (set_pskip r b)) i) as [c|] eqn:Ec; [|reflexivity].
    destruct (nth_error_write_skip _ _ _ _ _ _ E Ec) as (c' & Ec' & _). congruence.
Qed.

Lemma linked_write_skip s a b r : linked s -> nth_error s a = Some b -> linked (write s a (set_pskip r b)).
Proof.
  intros Hs E i c Ec. destruct (nth_error_write_skip _ _ _ _ _ _ E Ec) as (c' & Ei & -> & -> & _).
  destruct (Hs i c' Ei) as [H0 Hp]. split; [assumption|]. destruct (pprev c') as [q|]; [|assumption].
  destruct Hp as (d & Ed & Hd). destruct (nth_error_write_skip_conv s a b r q d E Ed) as (d' & Ed' & _ & Hd').
  exists d'. rewrite Hd'. auto.
Qed.

(** [BuildSkip] sets the pointer of its object and breaks none of the others. *)
Lemma BuildSkip_spec s a b :
  linked s -> nth_error s a = Some b -> skips_upto s (nHeight b - 1) ->
  exists s', BuildSkip s a = Some s' /\ linked s' /\ length s' = length s /\
    (forall n p, anc s' n p = anc s n p) /\
    (forall i c, nth_error s' i = Some c -> exists c', nth_error s i = Some c' /\ nHeight c = nHeight c' /\ pprev c = pprev c' /\
       (i = a \/ skip_ok s i c' -> skip_ok s' i c)).
Proof.
  intros Hs E Hk. unfold BuildSkip. rewrite E. destruct (pprev b) as [q|] eqn:Ep.
  - destruct (Hs a b E) as [H0 Hp]. rewrite Ep in Hp. destruct Hp as (c & Ec & Hc).
    set (r := anc s (height b - Z.to_nat (GetSkipHeight (nHeight b))) (Some a)).
    assert (Er : GetAncestor s (Some q) (GetSkipHeight (nHeight b)) = Some r).
    { rewrite (GetAncestor_spec s q c) by first [assumption | intros i d Ei Hd; apply (Hk i d Ei); lia].
      destruct (Hs q c Ec) as [H1 _]. pose proof (GetSkipHeight_bound (nHeight b) ltac:(lia)) as G. unfold r.
      destruct (Z.leb_spec 0 (GetSkipHeight (nHeight b))), (Z.leb_spec (GetSkipHeight (nHeight b)) (nHeight c)); try lia. cbn [andb].
      replace (height b - Z.to_nat (GetSkipHeight (nHeight b)))%nat with (S (Z.to_nat (nHeight c - GetSkipHeight (nHeight b))))
        by (unfold height; lia).
      cbn [anc deref]. now rewrite E, Ep. }
    rewrite Er. exists (write s a (set_pskip r b)).
    split; [reflexivity|]. split; [now apply linked_write_skip|]. split; [apply length_upd|].
    split; [intros; now apply anc_write_skip|]. intros i d Ed.
    destruct (nth_error_write_skip _ _ _ _ _ _ E Ed) as (d' & Ei & E1 & E2 & E3). exists d'. repeat split; try assumption.
    unfold skip_ok, height. rewrite E1, E2, E3. destruct (Nat.eqb_spec i a) as [->|Hne].
    + intros _ _. rewrite anc_write_skip by assumption. rewrite E in Ei. injection Ei as <-. reflexivity.
    + intros [->|Ho]; [contradiction|]. intros Hd. rewrite anc_write_skip by assumption. now apply Ho.
  - exists s. split; [reflexivity|]. split; [assumption|]. split; [reflexivity|]. split; [reflexivity|].
    intros i c Ec. exists c. repeat split; [assumption|]. intros [->|Ho]; [|exact Ho].
    intros Hc. rewrite E in Ec. injection Ec as <-. contradiction.
Qed.

(** * Common ancestors *)

Definition is_anc (s : store) (x a : nat) : Prop := exists n, anc s n (Some a) = Some x.

(** A common ancestor that every common ancestor precedes. *)
Definition last_common (s : store) (a b : nat) (r : ptr) : Prop :=
  (forall x, r = Some x -> is_anc s x a /\ is_anc s x b) /\
  (forall y, is_anc s y a -> is_anc s y b -> exists x, r = Some x /\ is_anc s y x).

Lemma anc_valid s a b n x :
  linked s -> nth_error s a = Some b -> anc s n (Some a) = Some x ->
  (n <= height b)%nat /\ exists c, nth_error s x = Some c /\ nHeight c = nHeight b - Z.of_nat n.
Proof.
  intros Hs E Ex. destruct (Nat.le_gt_cases n (height b)) as [Hn|Hn].
  - destruct (anc_height s Hs n a b E Hn) as (x' & c & E1 & E2 & E3). rewrite Ex in E1. injection E1 as <-. eauto.
  - rewrite (anc_beyond s Hs n a b E Hn) in Ex. discriminate.
Qed.

(** From two blocks of one height, the walk stops at the first common block. *)
Lemma common_walk_spec s fuel a b ba bb :
  linked s -> nth_error s a = Some ba -> nth_error s b = Some bb -> nHeight ba = nHeight bb ->
  (S (height ba) < fuel)%nat ->
  exists n r, common_walk fuel s (Some a) (Some b) = Some (r, r) /\ r = anc s n (Some a) /\ r = anc s n (Some b) /\
    forall m, (m < n)%nat -> anc s m (Some a) <> anc s m (Some b).
Proof.
  intros Hs. revert a b ba bb; induction fuel as [|fuel IH]; intros a b ba bb Ea Eb Hh Hf; [lia|]. cbn [common_walk ptr_eqb].
  destruct (Nat.eqb_spec a b) as [->|Hne].
  { exists 0%nat, (Some b). repeat split. lia. }
  cbn [deref]. rewrite Ea, Eb. destruct (Hs a ba Ea) as [Ha Pa], (Hs b bb Eb) as [Hb Pb].
  assert (N0 : anc s 0 (Some a) <> anc s 0 (Some b)) by (cbn [anc]; congruence).
  destruct (pprev ba) as [qa|] eqn:Epa, (pprev bb) as [qb|] eqn:Epb.
  - destruct Pa as (ca & Eqa & Hqa), Pb as (cb & Eqb & Hqb).
    destruct (IH qa qb ca cb Eqa Eqb ltac:(lia)) as (n & r & E1 & E2 & E3 & E4).
    { assert (0 < nHeight ba) by (destruct (Hs qa ca Eqa); lia). unfold height in *. lia. }
    exists (S n), r. cbn [anc deref]. rewrite Ea, Eb, Epa, Epb. repeat split; try assumption.
    intros [|m] Hm; [exact N0|]. cbn [anc deref]. rewrite Ea, Eb, Epa, Epb. apply E4. lia.
  - destruct Pa as (ca & Eqa & Hqa). destruct (Hs qa ca Eqa). lia.
  - destruct Pb as (cb & Eqb & Hqb). destruct (Hs qb cb Eqb). lia.
  - exists 1%nat, None. destruct fuel; [lia|]. cbn [common_walk ptr_eqb anc deref]. rewrite Ea, Eb, Epa, Epb. repeat split.
    intros [|m] Hm; [exact N0 | lia].
Qed.

Lemma LastCommonAncestor_spec s a b ba bb :
  linked s -> skips_upto s (Z.max (nHeight ba) (nHeight bb)) -> nth_error s a = Some ba -> nth_error s b = Some bb ->
  exists r, LastCommonAncestor s (Some a) (Some b) = Some r /\ last_common s a b r.
Proof.
  intros Hs Hk Ea Eb. unfold LastCommonAncestor. cbn [deref]. rewrite Ea, Eb.
  set (h := Z.min (nHeight ba) (nHeight bb)). destruct (Hs a ba Ea) as [Ha _], (Hs b bb Eb) as [Hb _].
  destruct (anc_height s Hs (Z.to_nat (nHeight ba - h)) a ba Ea ltac:(unfold height; lia)) as (x & bx & Ex & Nx & Hx).
  destruct (anc_height s Hs (Z.to_nat (nHeight bb - h)) b bb Eb ltac:(unfold height; lia)) as (y & by_ & Ey & Ny & Hy).
  assert (E1 : (if nHeight bb <? nHeight ba then GetAncestor s (Some a) (nHeight bb) else @Some ptr (Some a)) = Some (Some x)).
  { destruct (Z.ltb_spec (nHeight bb) (nHeight ba)).
    - rewrite (GetAncestor_spec s a ba) by first [assumption | intros i c Ei Hc; apply (Hk i c Ei); lia].
      destruct (Z.leb_spec 0 (nHeight bb)), (Z.leb_spec (nHeight bb) (nHeight ba)); try lia. cbn [andb].
      rewrite <- Ex. do 2 f_equal. lia.
    - replace (Z.to_nat (nHeight ba - h)) with 0%nat in Ex by lia. now f_equal. }
  assert (E2 : (if nHeight bb <? nHeight ba then @Some ptr (Some b)
                else if nHeight ba <? nHeight bb then GetAncestor s (Some b) (nHeight ba) else @Some ptr (Some b)) = Some (Some y)).
  { destruct (Z.ltb_spec (nHeight bb) (nHeight ba)); [|destruct (Z.ltb_spec (nHeight ba) (nHeight bb))].
    - replace (Z.to_nat (nHeight bb - h)) with 0%nat in Ey by lia. now f_equal.
    - rewrite (GetAncestor_spec s b bb) by first [assumption | intros i c Ei Hc; apply (Hk i c Ei); lia].
      destruct (Z.leb_spec 0 (nHeight ba)), (Z.leb_spec (nHeight ba) (nHeight bb)); try lia. cbn [andb].
      rewrite <- Ey. do 2 f_equal. lia.
    - replace (Z.to_nat (nHeight bb - h)) with 0%nat in Ey by lia. now f_equal. }
  rewrite E1, E2.
  destruct (common_walk_spec s (S (S (Z.to_nat (nHeight ba)))) x y bx by_ Hs Nx Ny ltac:(lia) ltac:(unfold height; lia))
    as (n & r & -> & R1 & R2 & Rm).
  exists r. assert (ptr_eqb r r = true) as -> by (destruct r; cbn; [apply Nat.eqb_refl | reflexivity]). split; [reflexivity|].
  split.
  - intros z ->. split; [exists (Z.to_nat (nHeight ba - h) + n)%nat | exists (Z.to_nat (nHeight bb - h) + n)%nat];
      rewrite anc_add, ?Ex, ?Ey; congruence.
  - intros z [k Hz] [l Hl]. destruct (anc_valid s a ba k z Hs Ea Hz) as (Bk & cz & Ez & Hcz).
    destruct (anc_valid s b bb l z Hs Eb Hl) as (Bl & cz' & Ez' & Hcz'). rewrite Ez in Ez'. injection Ez' as <-.
    unfold height in *.
    (* [z] is [m] steps below the common height on both sides *)
    set (m := (k - Z.to_nat (nHeight ba - h))%nat).
    assert (Kx : anc s m (Some x) = Some z)
      by (rewrite <- Ex, <- anc_add; replace (Z.to_nat (nHeight ba - h) + m)%nat with k by lia; assumption).
    assert (Ky : anc s m (Some y) = Some z)
      by (rewrite <- Ey, <- anc_add; replace (Z.to_nat (nHeight bb - h) + m)%nat with l by lia; assumption).
    destruct (Nat.lt_ge_cases m n) as [L|L]; [exfalso; apply (Rm m L); congruence|].
    assert (anc s (m - n) r = Some z) as Er by (rewrite R1, <- anc_add; replace (n + (m - n))%nat with m by lia; assumption).
    destruct r as [w|]; [|rewrite anc_none in Er; discriminate]. exists w. split; [reflexivity | now exists (m - n)%nat].
Qed.

(** * The active chain *)

(** The vector holds block [a] and all its ancestors, by height. *)
Definition holds (s : store) (v : CChain) (a : nat) (b : CBlockIndex) : Prop :=
  nth_error s a = Some b /\ length v = S (height b) /\
  forall i, (i < length v)%nat -> nth i v None = anc s (height b - i) (Some a).

Definition chain_ok (s : store) (v : CChain) : Prop := v = [] \/ exists a b, holds s v a b.

(** An entry up to position [h] has its own ancestors below it. *)
Definition closed_below (s : store) (v : CChain) (h : nat) : Prop :=
  forall i x j, (i <= h)%nat -> nth i v None = Some x -> (j <= i)%nat -> nth j v None = anc s (i - j) (Some x).

Lemma ptr_eqb_eq p q : ptr_eqb p q = true <-> p = q.
Proof.
  destruct p as [a|], q as [b|]; cbn; try (split; congruence).
  rewrite Nat.eqb_eq. split; congruence.
Qed.

Lemma settip_walk_spec s t bt fuel v x bx :
  linked s -> nth_error s t = Some bt -> length v = S (height bt) ->
  nth_error s x = Some bx -> (height bx <= height bt)%nat -> anc s (height bt - height bx) (Some t) = Some x ->
  (forall i, (height bx < i < length v)%nat -> nth i v None = anc s (height bt - i) (Some t)) ->
  closed_below s v (height bx) -> (S (height bx) < fuel)%nat ->
  exists v', settip_walk fuel s v (Some x) = Some v' /\ holds s v' t bt.
Proof.
  intros Hs Et. revert v x bx; induction fuel as [|fuel IH]; intros v x bx Lv Ex Hle Ax Habove Hbelow Hf; [lia|].
  cbn [settip_walk deref]. rewrite Ex. destruct (Hs x bx Ex) as [H0 Hp]. change (Z.to_nat (nHeight bx)) with (height bx).
  destruct (Z.ltb_spec (nHeight bx) 0), (Z.leb_spec (Z.of_nat (length v)) (nHeight bx)); try (unfold height in *; lia). cbn [orb].
  destruct (ptr_eqb (nth (height bx) v None) (Some x)) eqn:Eq.
  - apply ptr_eqb_eq in Eq. exists v. split; [reflexivity|]. split; [assumption|]. split; [assumption|].
    intros i Hi. destruct (Nat.le_gt_cases i (height bx)) as [L|L]; [|apply Habove; lia].
    rewrite (Hbelow (height bx) x i (le_n _) Eq L), <- Ax, <- anc_add. f_equal. lia.
  - set (v1 := upd v (height bx) (Some x)).
    assert (L1 : length v1 = S (height bt)) by (unfold v1; now rewrite length_upd).
    assert (N1 : forall i, nth i v1 None = if (i =? height bx)%nat then Some x else nth i v None).
    { intros i. unfold v1. destruct (Nat.eqb_spec i (height bx)) as [->|]; [apply nth_upd_eq; lia | now apply nth_upd_ne; auto]. }
    assert (Ab : forall i, (height bx <= i < length v1)%nat -> nth i v1 None = anc s (height bt - i) (Some t)).
    { intros i Hi. rewrite N1. destruct (Nat.eqb_spec i (height bx)) as [->|]; [now rewrite Ax | apply Habove; lia]. }
    destruct (pprev bx) as [q|] eqn:Ep.
    + destruct Hp as (c & Ec & Hc). destruct (Hs q c Ec) as [Hc0 _].
      apply (IH v1 q c L1 Ec); try (unfold height in *; lia).
      * replace (height bt - height c)%nat with (height bt - height bx + 1)%nat by (unfold height in *; lia).
        rewrite anc_add, Ax. cbn [anc deref]. now rewrite Ex.
      * intros i Hi. apply Ab. unfold height in *; lia.
      * intros i y j Hi Hy Hj. rewrite N1 in Hy. rewrite N1. unfold height in *.
        destruct (Nat.eqb_spec i (Z.to_nat (nHeight bx))), (Nat.eqb_spec j (Z.to_nat (nHeight bx))); try lia.
        apply Hbelow; [lia | assumption | lia].
    + exists v1. destruct fuel; [lia|]. split; [reflexivity|]. split; [assumption|]. split; [assumption|].
      intros i Hi. apply Ab. unfold height in *; lia.
Qed.

Lemma nth_resize v n i : nth i (resize v n) None = if (i <? n)%nat then nth i v None else None.
Proof.
  unfold resize. destruct (Nat.ltb_spec i n) as [L|L].
  - destruct (Nat.lt_ge_cases i (length v)).
    + rewrite app_nth1 by (rewrite length_firstn; lia). now apply nth_firstn_lt.
    + rewrite (nth_overflow v) by lia. rewrite app_nth2 by (rewrite length_firstn; lia). apply nth_repeat.
  - apply nth_overflow. rewrite length_app, length_firstn, repeat_length. lia.
Qed.

Lemma length_resize v n : length (resize v n) = n.
Proof. unfold resize. rewrite length_app, length_firstn, repeat_length. lia. Qed.

Lemma closed_resize s v n : chain_ok s v -> closed_below s (resize v n) (n - 1).
Proof.
  intros Hv i x j Hi Ex Hj. rewrite nth_resize in *. destruct (Nat.ltb_spec i n) as [L|L]; [|discriminate].
  destruct (Nat.ltb_spec j n); [|lia]. destruct Hv as [->|(a & b & Ea & Lv & N)]; [destruct i; discriminate|].
  destruct (Nat.lt_ge_cases i (length v)) as [Li|Li]; [|rewrite nth_overflow in Ex by lia; discriminate].
  rewrite N in Ex by lia. rewrite N by lia. rewrite <- Ex, <- anc_add. f_equal. lia.
Qed.

Lemma SetTip_spec s v a b :
  linked s -> chain_ok s v -> nth_error s a = Some b ->
  exists v', SetTip s v (Some a) = Some v' /\ holds s v' a b.
Proof.
  intros Hs Hv E. unfold SetTip. cbn [deref]. rewrite E. cbv zeta. destruct (Hs a b E) as [H0 _].
  assert (Lr : length (resize v (Z.to_nat (nHeight b + 1))) = S (height b)) by (rewrite length_resize; unfold height; lia).
  apply (settip_walk_spec s a b _ _ a b); try assumption; try lia.
  - rewrite Nat.sub_diag. reflexivity.
  - pose proof (closed_resize s v (Z.to_nat (nHeight b + 1)) Hv) as C.
    replace (Z.to_nat (nHeight b + 1) - 1)%nat with (height b) in C by (unfold height; lia). exact C.
Qed.

(** A block is in the chain exactly if it is the tip or one of its ancestors. *)
Lemma Contains_spec s v a b x bx :
  linked s -> holds s v a b -> nth_error s x = Some bx ->
  exists r, Contains s v (Some x) = Some r /\ (r = true <-> is_anc s x a).
Proof.
  intros Hs (E & L & N) Ex. unfold Contains. cbn [deref]. rewrite Ex. eexists. split; [reflexivity|].
  rewrite ptr_eqb_eq. unfold chain_at. destruct (Hs x bx Ex) as [H0 _].
  destruct (Z.ltb_spec (nHeight bx) 0), (Z.leb_spec (Z.of_nat (length v)) (nHeight bx)); try lia; cbn [orb].
  - split; [discriminate|]. intros [n Hn]. destruct (anc_valid s a b n x Hs E Hn) as (Bn & c & Ec & Hc).
    rewrite Ex in Ec. injection Ec as <-. unfold height in *. lia.
  - rewrite N by lia. split; [intros Hx; eexists; exact Hx|].
    intros [n Hn]. destruct (anc_valid s a b n x Hs E Hn) as (Bn & c & Ec & Hc). rewrite Ex in Ec. injection Ec as <-.
    rewrite <- Hn. f_equal. unfold height in *. lia.
Qed.

Lemma chain_at_spec s v a b h :
  linked s -> holds s v a b -> 0 <= h <= nHeight b -> chain_at v h = anc s (Z.to_nat (nHeight b - h)) (Some a).
Proof.
  intros Hs (E & L & N) Hh. unfold chain_at, height in *. destruct (Hs a b E).
  destruct (Z.ltb_spec h 0), (Z.leb_spec (Z.of_nat (length v)) h); try lia. cbn [orb]. rewrite N by lia. f_equal. lia.
Qed.

(** ** Forks *)

Lemma is_anc_trans s x y z : is_anc s x y -> is_anc s y z -> is_anc s x z.
Proof. intros [n Hn] [m Hm]. exists (m + n)%nat. now rewrite anc_add, Hm. Qed.

Lemma fork_walk_spec s v t bt fuel x bx :
  linked s -> holds s v t bt -> nth_error s x = Some bx -> (S (height bx) < fuel)%nat ->
  exists n, fork_walk fuel s v (Some x) = Some (anc s n (Some x)) /\
    (forall z, anc s n (Some x) = Some z -> is_anc s z t) /\
    (forall m z, (m < n)%nat -> anc s m (Some x) = Some z -> ~ is_anc s z t).
Proof.
  intros Hs Hv. revert x bx; induction fuel as [|fuel IH]; intros x bx Ex Hf; [lia|]. cbn [fork_walk deref]. rewrite Ex.
  destruct (Contains_spec s v t bt x bx Hs Hv Ex) as (r & -> & Hr). destruct r.
  - exists 0%nat. split; [reflexivity|]. split; [|lia]. intros z [= <-]. now apply Hr.
  - assert (Hx : ~ is_anc s x t) by (intros H; apply Hr in H; discriminate).
    destruct (Hs x bx Ex) as [H0 Hp]. destruct (pprev bx) as [q|] eqn:Ep.
    + destruct Hp as (c & Ec & Hc). destruct (Hs q c Ec) as [H1 _].
      destruct (IH q c Ec ltac:(unfold height in *; lia)) as (n & E1 & E2 & E3).
      exists (S n). cbn [anc deref]. rewrite Ex, Ep. repeat split; try assumption.
      intros [|m] z Hm; cbn [anc deref]; [intros [= <-]; exact Hx|]. rewrite Ex, Ep. apply E3. lia.
    + exists 1%nat. destruct fuel; [lia|]. cbn [fork_walk anc deref]. rewrite Ex, Ep. repeat split; [discriminate|].
      intros [|m] z Hm; [cbn; intros [= <-]; exact Hx | lia].
Qed.

Lemma FindFork_spec s v t bt x bx :
  linked s -> skips_upto s (nHeight bx) -> holds s v t bt -> nth_error s x = Some bx ->
  exists r, FindFork s v (Some x) = Some r /\ last_common s x t r.
Proof.
  intros Hs Hk Hv Ex. pose proof Hv as (Et & Lv & Nv). unfold FindFork. cbn [deref]. rewrite Ex.
  destruct (Hs x bx Ex) as [H0 _], (Hs t bt Et) as [H1 _].
  assert (Eh : Height v = nHeight bt) by (unfold Height, height in *; lia). rewrite Eh.
  set (k := Z.to_nat (nHeight bx - nHeight bt)).
  destruct (anc_height s Hs k x bx Ex ltac:(unfold height; lia)) as (y & by_ & Ey & Ny & Hy).
  assert (E1 : (if nHeight bt <? nHeight bx then GetAncestor s (Some x) (nHeight bt) else Some (Some x)) = Some (Some y)).
  { destruct (Z.ltb_spec (nHeight bt) (nHeight bx)).
    - rewrite (GetAncestor_spec s x bx) by assumption.
      destruct (Z.leb_spec 0 (nHeight bt)), (Z.leb_spec (nHeight bt) (nHeight bx)); try lia. cbn [andb]. now rewrite <- Ey.
    - replace k with 0%nat in Ey by lia. now f_equal. }
  rewrite E1. destruct (fork_walk_spec s v t bt (S (S (Z.to_nat (nHeight bx)))) y by_ Hs Hv Ny ltac:(unfold height; lia))
    as (n & -> & Hin & Hout).
  eexists. split; [reflexivity|]. split.
  - intros z Hz. split; [|now apply Hin]. exists (k + n)%nat. now rewrite anc_add, Ey.
  - intros z [m Hm] Hz. destruct (anc_valid s x bx m z Hs Ex Hm) as (Bm & c & Ec & Hc).
    pose proof Hz as [l Hl]. destruct (anc_valid s t bt l z Hs Et Hl) as (Bl & c' & Ec' & Hc').
    rewrite Ec in Ec'. injection Ec' as <-. unfold height in *.
    assert (Kz : anc s (m - k) (Some y) = Some z).
    { rewrite <- Ey, <- anc_add. replace (k + (m - k))%nat with m by lia. assumption. }
    destruct (Nat.lt_ge_cases (m - k) n) as [L|L]; [exfalso; apply (Hout (m - k)%nat z L Kz Hz)|].
    replace (m - k)%nat with (n + (m - k - n))%nat in Kz by lia. rewrite anc_add in Kz.
    destruct (anc s n (Some y)) as [w|]; [|rewrite anc_none in Kz; discriminate].
    exists w. split; [reflexivity | now exists (m - k - n)%nat].
Qed.

(** ** Locators *)

(** Blocks from [x] back to height 0, each a proper ancestor of the one before. *)
Inductive back_path (s : store) : nat -> list CBlockIndex -> Prop :=
| path_end x b : nth_error s x = Some b -> nHeight b = 0 -> back_path s x [b]
| path_step x b n y bs :
    nth_error s x = Some b -> anc s (S n) (Some x) = Some y -> back_path s y bs -> back_path s x (b :: bs).

(** The next block of the locator, through the chain or through the skip list. *)
Lemma locator_next s v x bx h :
  linked s -> chain_ok s v -> skips_upto s (nHeight bx) -> nth_error s x = Some bx -> 0 <= h < nHeight bx ->
  exists c y by_, Contains s v (Some x) = Some c /\
    (if c then Some (chain_at v h) else GetAncestor s (Some x) h) = Some (Some y) /\
    nth_error s y = Some by_ /\ nHeight by_ = h /\ anc s (S (Z.to_nat (nHeight bx - h) - 1)) (Some x) = Some y.
Proof.
  intros Hs Hv Hk Ex Hh.
  destruct (anc_height s Hs (Z.to_nat (nHeight bx - h)) x bx Ex ltac:(unfold height; lia)) as (y & by_ & Ey & Ny & Hy).
  assert (G : GetAncestor s (Some x) h = Some (Some y)).
  { rewrite (GetAncestor_spec s x bx) by assumption.
    destruct (Z.leb_spec 0 h), (Z.leb_spec h (nHeight bx)); try lia. cbn [andb]. now rewrite Ey. }
  assert (Ea : anc s (S (Z.to_nat (nHeight bx - h) - 1)) (Some x) = Some y) by (rewrite <- Ey; f_equal; lia).
  destruct Hv as [->|(t & bt & Hv)].
  - exists false, y, by_. unfold Contains. cbn [deref]. rewrite Ex. unfold chain_at. cbn [length].
    destruct (Z.ltb_spec (nHeight bx) 0), (Z.leb_spec (Z.of_nat 0) (nHeight bx)); try lia. repeat split; try assumption. lia.
  - destruct (Contains_spec s v t bt x bx Hs Hv Ex) as (c & Ec & Hc). exists c, y, by_. split; [assumption|].
    split; [|repeat split; [assumption | lia | assumption]]. destruct c; [|exact G].
    destruct (proj1 Hc eq_refl) as [n Hn]. pose proof Hv as (Et & _). destruct (anc_valid s t bt n x Hs Et Hn) as (Bn & c & Ecx & Hcx).
    rewrite Ex in Ecx. injection Ecx as <-. unfold height in *.
    rewrite (chain_at_spec s v t bt h Hs Hv) by lia. rewrite <- Ey, <- Hn, <- anc_add. do 2 f_equal. lia.
Qed.

Lemma locator_walk_spec s v fuel x bx nStep vHave :
  linked s -> chain_ok s v -> (forall h, skips_upto s h) -> nth_error s x = Some bx -> 1 <= nStep -> (height bx < fuel)%nat ->
  exists bs, locator_walk fuel s v (Some x) nStep vHave = Some (vHave ++ map phashBlock bs) /\ back_path s x bs.
Proof.
  intros Hs Hv Hk. revert x bx nStep vHave; induction fuel as [|fuel IH]; intros x bx nStep vHave Ex Hn Hf; [lia|].
  cbn [locator_walk deref]. rewrite Ex. destruct (Hs x bx Ex) as [H0 _]. destruct (Z.eqb_spec (nHeight bx) 0) as [E|E].
  - exists [bx]. split; [reflexivity | now apply path_end].
  - destruct (locator_next s v x bx (Z.max (nHeight bx - nStep) 0) Hs Hv (Hk _) Ex ltac:(lia))
      as (c & y & by_ & Ec & En & Ny & Hy & Ey).
    cbv zeta. rewrite Ec, En.
    destruct (IH y by_ (if (10 <? length (vHave ++ [phashBlock bx]))%nat then nStep * 2 else nStep) (vHave ++ [phashBlock bx]) Ny)
      as (bs & E1 & E2); [destruct (_ <? _)%nat; lia | unfold height in *; lia |].
    exists (bx :: bs). rewrite E1, <- app_assoc. split; [reflexivity|]. eapply path_step; eassumption.
Qed.
