(* ===== verification/ChainIndex.v ===== *)
(** The block index as a state machine: objects are created below a known parent and
    the tip of the active chain moves; what holds in every reachable state. *)
From Stdlib Require Import ZifyNat Permutation Sorted.
From S2P Require Import Prelude SphTypes ArithUint ArithUintProofs Upgrades Chain ChainProofs.
Import Consensus Chain.

(** The invariant of the index: heights, and all skip pointers. *)
Definition index_ok (s : store) : Prop := linked s /\ forall h, skips_upto s h.

(** * Creating an object *)

Lemma nth_error_snoc {A} (l : list A) x i :
  nth_error (l ++ [x]) i = if (i =? length l)%nat then Some x else nth_error l i.
Proof.
  destruct (Nat.eqb_spec i (length l)) as [->|].
  - rewrite nth_error_app2, Nat.sub_diag by lia. reflexivity.
  - destruct (Nat.lt_ge_cases i (length l)); [now rewrite nth_error_app1|].
    rewrite (proj2 (nth_error_None l i)) by lia. apply nth_error_None. rewrite length_app. cbn. lia.
Qed.

Lemma nth_error_bound {A} (l : list A) i x : nth_error l i = Some x -> (i < length l)%nat.
Proof. intros H. apply nth_error_Some. congruence. Qed.

Lemma nth_error_old {A} (l : list A) x i y : nth_error l i = Some y -> nth_error (l ++ [x]) i = Some y.
Proof. intros H. rewrite nth_error_app1; [assumption | now apply nth_error_bound in H]. Qed.

(** Old objects keep their ancestors. *)
Lemma anc_snoc s b n a c : linked s -> nth_error s a = Some c -> anc (s ++ [b]) n (Some a) = anc s n (Some a).
Proof.
  intros Hs. revert a c; induction n as [|n IH]; intros a c E; [reflexivity|]. cbn [anc deref].
  rewrite (nth_error_old _ _ _ _ E), E. destruct (Hs a c E) as [_ Hp].
  destruct (pprev c) as [q|]; [|now rewrite !anc_none]. destruct Hp as (d & Ed & _). now apply (IH q d).
Qed.

(** An object fits below [s]: a root, or one block above its parent. *)
Definition fits (s : store) (b : CBlockIndex) : Prop :=
  match pprev b with
  | None => nHeight b = 0
  | Some q => exists c, nth_error s q = Some c /\ nHeight b = nHeight c + 1
  end.

Lemma linked_snoc s b : linked s -> fits s b -> linked (s ++ [b]).
Proof.
  intros Hs Hf i c. rewrite nth_error_snoc. destruct (Nat.eqb_spec i (length s)) as [->|].
  - intros [= <-]. unfold fits in Hf. destruct (pprev b) as [q|]; [|split; lia].
    destruct Hf as (d & Ed & Hd). destruct (Hs q d Ed) as [H0 _]. split; [lia|]. exists d. split; [now apply nth_error_old | lia].
  - intros Ec. destruct (Hs i c Ec) as [H0 Hp]. split; [assumption|]. destruct (pprev c) as [q|]; [|assumption].
    destruct Hp as (d & Ed & Hd). exists d. split; [now apply nth_error_old | assumption].
Qed.

(** The new object gets its skip pointer; the invariant is kept. *)
Lemma add_block_spec s b :
  index_ok s -> fits s b ->
  exists s', BuildSkip (s ++ [b]) (length s) = Some s' /\ index_ok s' /\ length s' = S (length s) /\
    (forall n a c, nth_error s a = Some c -> anc s' n (Some a) = anc s n (Some a)) /\
    (forall a c, nth_error s a = Some c -> exists c', nth_error s' a = Some c' /\ nHeight c' = nHeight c /\ pprev c' = pprev c).
Proof.
  intros [Hs Hk] Hf. pose proof (linked_snoc s b Hs Hf) as Hl.
  assert (En : nth_error (s ++ [b]) (length s) = Some b) by (rewrite nth_error_snoc, Nat.eqb_refl; reflexivity).
  assert (Old : forall i c, nth_error (s ++ [b]) i = Some c -> i <> length s -> skip_ok (s ++ [b]) i c).
  { intros i c Ec Hne. rewrite nth_error_snoc in Ec. destruct (Nat.eqb_spec i (length s)); [contradiction|].
    intros Hp. rewrite (anc_snoc s b _ i c Hs Ec). exact (Hk (nHeight c) i c Ec (Z.le_refl _) Hp). }
  destruct (BuildSkip_spec (s ++ [b]) (length s) b Hl En) as (s' & E & Hl' & Len & Ha & Hc).
  { intros i c Ec Hc. apply Old; [assumption|]. intros ->. rewrite En in Ec. injection Ec as <-. lia. }
  exists s'. split; [assumption|]. split.
  - split; [assumption|]. intros h i c Ec _. destruct (Hc i c Ec) as (c' & Ec' & _ & _ & Ho). apply Ho.
    destruct (Nat.eq_dec i (length s)); [now left | right; now apply Old].
  - split; [rewrite Len, length_app; cbn; lia|]. split.
    + intros n a c Ec. rewrite Ha. now apply (anc_snoc s b n a c).
    + intros a c Ec. pose proof (nth_error_old s b a c Ec) as Ec2.
      destruct (nth_error s' a) as [c'|] eqn:E'.
      * destruct (Hc a c' E') as (c2 & E2 & H1 & H2 & _). rewrite Ec2 in E2. injection E2 as <-. eauto.
      * apply nth_error_None in E'. rewrite Len in E'. apply nth_error_bound in Ec2. lia.
Qed.

(** * Reachable states *)

(** The index and the active chain. *)
Record index_state := { blocks : store; chain_active : CChain }.

Inductive index_step : index_state -> index_state -> Prop :=
| step_add s v b s' :
    fits s b -> BuildSkip (s ++ [b]) (length s) = Some s' ->
    index_step {| blocks := s; chain_active := v |} {| blocks := s'; chain_active := v |}
| step_tip s v p v' :
    (p = None \/ exists a b, p = Some a /\ nth_error s a = Some b) -> SetTip s v p = Some v' ->
    index_step {| blocks := s; chain_active := v |} {| blocks := s; chain_active := v' |}.

Inductive reachable : index_state -> Prop :=
| reach_start : reachable {| blocks := []; chain_active := [] |}
| reach_step st st' : reachable st -> index_step st st' -> reachable st'.

Lemma chain_ok_transfer s s' v :
  (forall n a c, nth_error s a = Some c -> anc s' n (Some a) = anc s n (Some a)) ->
  (forall a c, nth_error s a = Some c -> exists c', nth_error s' a = Some c' /\ nHeight c' = nHeight c /\ pprev c' = pprev c) ->
  chain_ok s v -> chain_ok s' v.
Proof.
  intros Ha Hc [->|(a & b & E & L & N)]; [now left|]. right. destruct (Hc a b E) as (b' & E' & Hh & _).
  exists a, b'. unfold holds, height in *. rewrite Hh. repeat split; [assumption.. |].
  intros i Hi. rewrite N by assumption. symmetry. now apply (Ha _ a b).
Qed.

Lemma reachable_ok st : reachable st -> index_ok (blocks st) /\ chain_ok (blocks st) (chain_active st).
Proof.
  induction 1 as [|st st' _ [Hi Hv] Hstep].
  - split; [|now left]. split; intros; [intros [|a] b E | intros [|a] b E _]; discriminate.
  - destruct Hstep as [s v b s' Hf E|s v p v' Hp E]; cbn [blocks chain_active] in *.
    + destruct (add_block_spec s b Hi Hf) as (s2 & E2 & Hi2 & _ & Ha & Hc). rewrite E in E2. injection E2 as <-.
      split; [assumption | now apply (chain_ok_transfer s)].
    + split; [assumption|]. destruct Hp as [->|(a & b & -> & Ea)]; [injection E as <-; now left|].
      destruct (SetTip_spec s v a b (proj1 Hi) Hv Ea) as (v2 & E2 & H2). rewrite E in E2. injection E2 as <-.
      right. eauto.
Qed.

(** * What the index promises *)

(** C5. In every state that creating blocks and moving the tip can reach, heights and
    skip pointers are right and the active chain is exactly its tip with all its
    ancestors; and both operations succeed in every such state: no null pointer is
    followed and nothing is written outside of the vector. *)
Theorem index_invariant (st : index_state) :
  reachable st ->
  index_ok (blocks st) /\ chain_ok (blocks st) (chain_active st) /\
  (forall b, fits (blocks st) b ->
     exists s', BuildSkip (blocks st ++ [b]) (length (blocks st)) = Some s' /\ nth_error s' (length (blocks st)) <> None) /\
  (forall a b, nth_error (blocks st) a = Some b ->
     exists v', SetTip (blocks st) (chain_active st) (Some a) = Some v' /\ Tip v' = Some a /\ Height v' = nHeight b).
Proof.
  intros H. destruct (reachable_ok st H) as [Hi Hv]. split; [assumption|]. split; [assumption|]. split.
  - intros b Hf. destruct (add_block_spec _ b Hi Hf) as (s' & E & _ & L & _). exists s'. split; [assumption|].
    apply nth_error_Some. lia.
  - intros a b E. destruct (SetTip_spec _ _ a b (proj1 Hi) Hv E) as (v' & E' & Ea & L & N). exists v'. split; [assumption|].
    destruct (proj1 Hi a b E) as [H0 _]. unfold Tip, Height. rewrite L. cbn [Nat.ltb Nat.leb].
    split; [|unfold height; lia]. rewrite N by lia. replace (height b - (S (height b) - 1))%nat with 0%nat by lia. reflexivity.
Qed.

(** An object with its parent and height; the other fields are irrelevant here. *)
Definition plain (hash : Z) (prev : ptr) (h t : Z) : CBlockIndex :=
  {| phashBlock := [hash]; pprev := prev; pskip := None; nHeight := h; nFile := 0; nDataPos := 0; nUndoPos := 0;
     nChainWork := []; nTx := 0; nChainTx := 0; nStatus := 0; vStakeModifier := []; nFlags := 0; nSaplingValue := 0;
     nChainSaplingValue := None; nVersion := 1; hashMerkleRoot := []; hashFinalSaplingRoot := []; nTime := t; nBits := 0;
     nNonce := 0; nAccumulatorCheckpoint := []; nSequenceId := 0; nTimeMax := t |}.

(** A chain of ten blocks 0 .. 9 with a fork 10 - 11 above block 6. *)
Definition sample_step (s : store) (b : CBlockIndex) : store :=
  match BuildSkip (s ++ [b]) (length s) with Some s' => s' | None => s end.
Definition sample_blocks : list CBlockIndex :=
  plain 0 None 0 0 :: map (fun i => plain (Z.of_nat i) (Some (i - 1)%nat) (Z.of_nat i) (10 * Z.of_nat i)) (seq 1 9)
  ++ [plain 10 (Some 6%nat) 7 75; plain 11 (Some 10%nat) 8 85].
Definition sample_store : store := fold_left sample_step sample_blocks [].

Lemma sample_reachable : reachable {| blocks := sample_store; chain_active := map Some (seq 0 10) |}.
Proof.
  apply reach_step with {| blocks := sample_store; chain_active := [] |}.
  2:{ apply step_tip with (p := Some 9%nat); [right; exists 9%nat; eexists; split; [reflexivity | vm_compute; reflexivity] | vm_compute; reflexivity]. }
  unfold sample_store.
  assert (G : forall bs s, reachable {| blocks := s; chain_active := [] |} ->
    (forall k b, nth_error bs k = Some b -> fits (fold_left sample_step (firstn k bs) s) b /\
       BuildSkip (fold_left sample_step (firstn k bs) s ++ [b]) (length (fold_left sample_step (firstn k bs) s)) <> None) ->
    reachable {| blocks := fold_left sample_step bs s; chain_active := [] |}).
  { induction bs as [|b bs IH]; intros s Hs Hb; [assumption|]. cbn [fold_left]. apply IH.
    - destruct (Hb 0%nat b eq_refl) as [Hf Hn]. cbn [firstn fold_left] in Hf, Hn. unfold sample_step.
      destruct (BuildSkip (s ++ [b]) (length s)) as [s'|] eqn:E; [|contradiction].
      eapply reach_step; [exact Hs | now apply (step_add s [] b)].
    - intros k c Ec. exact (Hb (S k) c Ec). }
  apply G; [apply reach_start|]. intros k b Hb.
  do 12 (destruct k as [|k]; [injection Hb as <-; split; [first [reflexivity | eexists; split; [vm_compute; reflexivity | reflexivity]] | vm_compute; discriminate]|]).
  destruct k; discriminate.
Qed.

Lemma index_invariant_witness :
  exists v', SetTip sample_store (map Some (seq 0 10)) (Some 11%nat) = Some v' /\ Tip v' = Some 11%nat /\ Height v' = 8.
Proof.
  destruct (index_invariant _ sample_reachable) as (_ & _ & _ & H).
  destruct (nth_error sample_store 11) as [b|] eqn:E; [|vm_compute in E; discriminate].
  destruct (H 11%nat b E) as (v' & E1 & E2 & E3). exists v'. split; [exact E1|]. split; [exact E2|].
  rewrite E3. vm_compute in E. injection E as <-. reflexivity.
Defined.

(** C35. The walk over skip pointers ends and returns the block that following [pprev]
    reaches: the ancestor at the given height, or null for a height outside of
    [0, nHeight]. *)
Theorem ancestors_by_skipping (s : store) (a : nat) (b : CBlockIndex) (h : Z) :
  index_ok s -> nth_error s a = Some b ->
  (0 <= h <= nHeight b ->
     exists x c, GetAncestor s (Some a) h = Some (Some x) /\ anc s (Z.to_nat (nHeight b - h)) (Some a) = Some x /\
       nth_error s x = Some c /\ nHeight c = h) /\
  (h < 0 \/ nHeight b < h -> GetAncestor s (Some a) h = Some None).
Proof.
  intros [Hs Hk] E. rewrite (GetAncestor_spec s a b h Hs (Hk _) E). split; intros Hh.
  - destruct (Z.leb_spec 0 h), (Z.leb_spec h (nHeight b)); try lia. cbn [andb].
    destruct (anc_height s Hs (Z.to_nat (nHeight b - h)) a b E ltac:(unfold height; lia)) as (x & c & E1 & E2 & E3).
    exists x, c. rewrite E1. repeat split; [assumption | lia].
  - destruct (Z.leb_spec 0 h), (Z.leb_spec h (nHeight b)); try lia; reflexivity.
Qed.

Lemma ancestors_by_skipping_witness : GetAncestor sample_store (Some 9%nat) 3 = Some (Some 3%nat) /\
  GetAncestor sample_store (Some 9%nat) 10 = Some None.
Proof.
  split; [vm_compute; reflexivity|].
  destruct (nth_error sample_store 9) as [b|] eqn:E; [|vm_compute in E; discriminate].
  refine (proj2 (ancestors_by_skipping sample_store 9 b 10 (proj1 (reachable_ok _ sample_reachable)) E) _).
  vm_compute in E. injection E as <-. right. reflexivity.
Defined.

(** Branches: [LastCommonAncestor] of two blocks and [FindFork] of a block and the
    active chain return the last block that both have among their ancestors, or null
    if they have none; the assert that the walks meet holds. *)
Theorem forks_found (s : store) (v : CChain) (a b t : nat) (ba bb bt : CBlockIndex) :
  index_ok s -> nth_error s a = Some ba -> nth_error s b = Some bb -> holds s v t bt ->
  (exists r, LastCommonAncestor s (Some a) (Some b) = Some r /\ last_common s a b r) /\
  (exists r, FindFork s v (Some a) = Some r /\ last_common s a t r).
Proof.
  intros [Hs Hk] Ea Eb Hv. split; [eapply LastCommonAncestor_spec | eapply FindFork_spec]; eauto.
Qed.

Lemma sample_holds : exists bt, holds sample_store (map Some (seq 0 10)) 9 bt.
Proof.
  destruct (nth_error sample_store 9) as [b|] eqn:E; [|vm_compute in E; discriminate]. exists b.
  split; [assumption|]. vm_compute in E. injection E as <-. split; [reflexivity|].
  intros i Hi. cbn [map seq length] in Hi. do 10 (destruct i as [|i]; [vm_compute; reflexivity|]). lia.
Qed.

Lemma forks_found_witness :
  LastCommonAncestor sample_store (Some 9%nat) (Some 11%nat) = Some (Some 6%nat) /\
  last_common sample_store 9 11 (Some 6%nat).
Proof.
  assert (E0 : LastCommonAncestor sample_store (Some 9%nat) (Some 11%nat) = Some (Some 6%nat)) by (vm_compute; reflexivity).
  split; [exact E0|]. destruct sample_holds as [bt Ht].
  destruct (nth_error sample_store 9) as [b9|] eqn:E9; [|vm_compute in E9; discriminate].
  destruct (nth_error sample_store 11) as [b11|] eqn:E11; [|vm_compute in E11; discriminate].
  destruct (forks_found sample_store (map Some (seq 0 10)) 9 11 9 b9 b11 bt (proj1 (reachable_ok _ sample_reachable)) E9 E11 Ht)
    as [(r & E & H) _].
  rewrite E0 in E. injection E as <-. exact H.
Defined.

(** The active chain: a block is contained in it exactly if it is the tip or an
    ancestor of the tip, and then the next block is the one whose predecessor it is
    (null at the tip); otherwise there is no next block. *)
Theorem active_chain_lookup (s : store) (v : CChain) (t x : nat) (bt bx : CBlockIndex) :
  index_ok s -> holds s v t bt -> nth_error s x = Some bx ->
  exists c r, Contains s v (Some x) = Some c /\ Next s v (Some x) = Some r /\
    (c = true <-> is_anc s x t) /\ (c = false \/ x = t -> r = None) /\
    (c = true -> x <> t -> exists y by_, r = Some y /\ nth_error s y = Some by_ /\ pprev by_ = Some x /\ is_anc s y t).
Proof.
  intros [Hs _] Hv Ex. pose proof Hv as (Et & Lv & Nv). destruct (Contains_spec s v t bt x bx Hs Hv Ex) as (c & Ec & Hc).
  exists c. unfold Next. cbn [deref]. rewrite Ex, Ec. eexists. split; [reflexivity|]. split; [reflexivity|]. split; [assumption|].
  destruct (Hs x bx Ex) as [H0 _]. destruct (Hs t bt Et) as [H1 _]. split.
  - intros [->| ->]; [reflexivity|]. destruct c; [|reflexivity]. rewrite Et in Ex. injection Ex as <-.
    unfold chain_at. destruct (Z.ltb_spec (nHeight bt + 1) 0), (Z.leb_spec (Z.of_nat (length v)) (nHeight bt + 1)); try reflexivity.
    unfold height in *. lia.
  - intros -> Hne. destruct (proj1 Hc eq_refl) as [n Hn]. destruct (anc_valid s t bt n x Hs Et Hn) as (Bn & d & Ed & Hd).
    rewrite Ex in Ed. injection Ed as <-. unfold height in *.
    destruct n as [|n]; [injection Hn as <-; contradiction|].
    rewrite (chain_at_spec s v t bt (nHeight bx + 1) Hs Hv) by lia.
    destruct (anc_height s Hs n t bt Et ltac:(unfold height; lia)) as (y & by_ & E1 & E2 & E3).
    replace (Z.to_nat (nHeight bt - (nHeight bx + 1))) with n by lia. exists y, by_. rewrite E1.
    repeat split; [assumption | | now exists n].
    rewrite anc_S, E1 in Hn. cbn [anc deref] in Hn. now rewrite E2 in Hn.
Qed.

Lemma active_chain_lookup_witness :
  Contains sample_store (map Some (seq 0 10)) (Some 11%nat) = Some false /\
  exists c r, Contains sample_store (map Some (seq 0 10)) (Some 4%nat) = Some c /\ Next sample_store (map Some (seq 0 10)) (Some 4%nat) = Some r.
Proof.
  split; [vm_compute; reflexivity|]. destruct sample_holds as [bt Ht].
  destruct (nth_error sample_store 4) as [b4|] eqn:E4; [|vm_compute in E4; discriminate].
  destruct (active_chain_lookup sample_store (map Some (seq 0 10)) 9 4 bt b4 (proj1 (reachable_ok _ sample_reachable)) Ht E4)
    as (c & r & E1 & E2 & _).
  exists c, r. split; [exact E1 | exact E2].
Defined.

(** [GetLocator] ends; its hashes are those of the given block (the tip by default)
    and of a sequence of proper ancestors down to a block of height 0, whether a step
    goes through the active chain or through the skip list. *)
Theorem locator_reaches_genesis (s : store) (v : CChain) (x : nat) (bx : CBlockIndex) :
  index_ok s -> chain_ok s v -> nth_error s x = Some bx ->
  exists bs, GetLocator s v (Some x) = Some (map phashBlock bs) /\ back_path s x bs.
Proof.
  intros [Hs Hk] Hv Ex. unfold GetLocator. cbn [deref]. rewrite Ex.
  destruct (locator_walk_spec s v (S (Z.to_nat (nHeight bx))) x bx 1 [] Hs Hv Hk Ex ltac:(lia) ltac:(unfold height; lia))
    as (bs & E & P).
  exists bs. split; [exact E | exact P].
Qed.

Lemma locator_reaches_genesis_witness :
  GetLocator sample_store (map Some (seq 0 10)) (Some 11%nat) = Some (map (fun i => [i]) [11; 10; 6; 5; 4; 3; 2; 1; 0]) /\
  exists bs, GetLocator sample_store (map Some (seq 0 10)) (Some 11%nat) = Some (map phashBlock bs).
Proof.
  split; [vm_compute; reflexivity|]. destruct (reachable_ok _ sample_reachable) as [Hi Hv].
  destruct (nth_error sample_store 11) as [b|] eqn:E; [|vm_compute in E; discriminate].
  destruct (locator_reaches_genesis sample_store (map Some (seq 0 10)) 11 b Hi Hv E) as (bs & E1 & _). exists bs. exact E1.
Defined.

(** * Median time *)

Lemma insert_sorted_spec x l : Sorted Z.le l -> Sorted Z.le (insert_sorted x l) /\ Permutation (x :: l) (insert_sorted x l).
Proof.
  induction 1 as [|y l Hl IH Hy]; cbn [insert_sorted]; [split; [repeat constructor | reflexivity]|].
  destruct (Z.leb_spec x y); [split; [repeat constructor; assumption | reflexivity]|]. destruct IH as [I1 I2]. split.
  - constructor; [assumption|]. destruct l as [|z l]; cbn [insert_sorted] in *; [constructor; lia|].
    destruct (Z.leb_spec x z); constructor; [lia|]. now inversion Hy.
  - rewrite perm_swap. now constructor.
Qed.

Lemma sort_spec l : Sorted Z.le (sort l) /\ Permutation l (sort l).
Proof.
  induction l as [|x l [I1 I2]]; [split; [constructor | reflexivity]|]. cbn [sort fold_right]. fold (sort l).
  destruct (insert_sorted_spec x (sort l) I1) as [J1 J2]. split; [assumption|]. rewrite <- J2. now constructor.
Qed.

Lemma past_times_spec s n a b :
  linked s -> nth_error s a = Some b ->
  exists times, past_times n s (Some a) = Some times /\ length times = Nat.min n (S (height b)) /\
    forall i, (i < length times)%nat -> exists x c, anc s i (Some a) = Some x /\ nth_error s x = Some c /\ nth_error times i = Some (nTime c).
Proof.
  intros Hs. revert a b; induction n as [|n IH]; intros a b E; cbn [past_times].
  - exists []. repeat split. cbn. lia.
  - cbn [deref]. rewrite E. destruct (Hs a b E) as [H0 Hp]. destruct (pprev b) as [q|] eqn:Ep.
    + destruct Hp as (c & Ec & Hc). destruct (IH q c Ec) as (ts & E1 & L1 & N1). rewrite E1.
      exists (nTime b :: ts). split; [reflexivity|]. destruct (Hs q c Ec). cbn [length]. split; [unfold height in *; lia|].
      intros [|i] Hi; [exists a, b; auto|]. destruct (N1 i ltac:(lia)) as (x & d & X1 & X2 & X3).
      exists x, d. cbn [anc deref nth_error]. now rewrite E, Ep.
    + exists [nTime b]. split; [now destruct n|]. split; [unfold height; cbn [length]; lia|].
      intros [|i] Hi; [exists a, b; auto | cbn in Hi; lia].
Qed.

(** [GetMedianTimePast] returns the element in the middle of the sorted times of
    the block and its ancestors, eleven of them or as many as there are; the time of
    a later block must exceed it before the time protocol v2. *)
Theorem median_time_past (s : store) (a : nat) (b : CBlockIndex) :
  index_ok s -> nth_error s a = Some b ->
  exists times sorted m,
    length times = Nat.min nMedianTimeSpan (S (height b)) /\
    (forall i, (i < length times)%nat -> exists x c, anc s i (Some a) = Some x /\ nth_error s x = Some c /\ nth_error times i = Some (nTime c)) /\
    Permutation times sorted /\ Sorted Z.le sorted /\
    nth_error sorted (length times / 2) = Some m /\ GetMedianTimePast s (Some a) = Some m.
Proof.
  intros [Hs _] E. destruct (past_times_spec s nMedianTimeSpan a b Hs E) as (ts & E1 & L1 & N1).
  destruct (sort_spec (rev ts)) as [S1 S2]. pose proof (Permutation_length S2) as L2. rewrite length_rev in L2.
  assert (Hn : (length (sort (rev ts)) / 2 < length (sort (rev ts)))%nat)
    by (apply Nat.div_lt; unfold nMedianTimeSpan in L1; lia).
  destruct (nth_error (sort (rev ts)) (length (sort (rev ts)) / 2)) as [m|] eqn:Em; [|apply nth_error_None in Em; lia].
  exists ts, (sort (rev ts)), m. split; [assumption|]. split; [assumption|].
  split; [rewrite <- S2; apply Permutation_rev|]. split; [assumption|]. rewrite L2. split; [assumption|].
  unfold GetMedianTimePast. rewrite E1. exact Em.
Qed.

Lemma median_time_past_witness : GetMedianTimePast sample_store (Some 11%nat) = Some 40 /\
  exists m, GetMedianTimePast sample_store (Some 11%nat) = Some m.
Proof.
  split; [vm_compute; reflexivity|].
  destruct (nth_error sample_store 11) as [b|] eqn:E; [|vm_compute in E; discriminate].
  destruct (median_time_past sample_store 11 b (proj1 (reachable_ok _ sample_reachable)) E) as (_ & _ & m & _ & _ & _ & _ & _ & H).
  exists m. exact H.
Defined.

(** * Validity levels *)

Definition level (b : CBlockIndex) : Z := nStatus b &: BLOCK_VALID_MASK.
Definition failed (b : CBlockIndex) : bool := negb ((nStatus b &: BLOCK_FAILED_MASK) =? 0).

Lemma level_mod b : level b = nStatus b mod 2 ^ 3.
Proof. exact (land_ones_mod 3 (nStatus b) ltac:(lia)). Qed.

(** Clearing the level and setting another one. *)
Lemma raised_level x n : 0 <= n < 8 -> ((x &: Z.lnot BLOCK_VALID_MASK) |: n) &: BLOCK_VALID_MASK = n.
Proof.
  intros Hn. change BLOCK_VALID_MASK with (Z.ones 3). apply Z.bits_inj'. intros i Hi.
  rewrite Z.land_spec, Z.lor_spec, Z.land_spec, Z.lnot_spec, Z.testbit_ones by lia.
  destruct (Z.ltb_spec i 3), (Z.leb_spec 0 i); try lia; cbn [andb negb].
  - rewrite Bool.andb_false_r, Bool.andb_true_r. reflexivity.
  - rewrite Bool.andb_false_r. symmetry. apply (word_testbit_high 3); [lia | unfold word; lia | lia].
Qed.

Lemma raised_high x n i : 0 <= n < 8 -> 3 <= i -> Z.testbit ((x &: Z.lnot BLOCK_VALID_MASK) |: n) i = Z.testbit x i.
Proof.
  intros Hn Hi. change BLOCK_VALID_MASK with (Z.ones 3).
  rewrite Z.lor_spec, Z.land_spec, Z.lnot_spec, Z.testbit_ones, (word_testbit_high 3 n i) by (unfold word; lia).
  destruct (Z.ltb_spec i 3); [lia|]. rewrite Bool.andb_false_r, Bool.orb_false_r. apply Bool.andb_true_r.
Qed.

Lemma failed_high b b' : (forall i, 3 <= i -> Z.testbit (nStatus b') i = Z.testbit (nStatus b) i) -> failed b' = failed b.
Proof.
  intros H. unfold failed. do 2 f_equal. change BLOCK_FAILED_MASK with (Z.shiftl 3 5). apply Z.bits_inj'. intros i Hi.
  rewrite !Z.land_spec. destruct (Z.lt_ge_cases i 5); [now rewrite !Z.shiftl_spec_low, !Bool.andb_false_r | now rewrite H by lia].
Qed.

(** Validity levels only go up: raising a block to a level makes it valid at that
    level unless it has failed, never lowers its level, reports whether it changed it
    and touches no other status bit; a failed block is left alone and is valid at no
    level. *)
Theorem validity_raised (b : CBlockIndex) (n : Z) :
  0 <= n <= BLOCK_VALID_SCRIPTS ->
  exists r b', RaiseValidity b n = Some (r, b') /\
    (failed b = true -> r = false /\ b' = b /\ IsValid b' n = Some false) /\
    (failed b = false -> IsValid b' n = Some true /\ r = (level b <? n) /\ level b' = Z.max (level b) n) /\
    level b <= level b' /\ (forall i, 3 <= i -> Z.testbit (nStatus b') i = Z.testbit (nStatus b) i).
Proof.
  intros Hn. unfold BLOCK_VALID_SCRIPTS in Hn. unfold RaiseValidity.
  assert (A : ((n &: Z.lnot BLOCK_VALID_MASK) =? 0) = true).
  { assert (C : In n [0; 1; 2; 3; 4; 5]) by (cbn; lia). cbn in C. decompose [or] C; subst; reflexivity || contradiction. }
  assert (V : forall c, IsValid c n = Some (if failed c then false else n <=? level c)).
  { intros c. unfold IsValid, failed, level. rewrite A. cbn [negb]. now destruct (negb _). }
  rewrite A. cbn [negb]. fold (failed b). fold (level b). destruct (failed b) eqn:F.
  - exists false, b. rewrite V, F. repeat split; discriminate || lia.
  - destruct (Z.ltb_spec (level b) n) as [L|L].
    + exists true. eexists. split; [reflexivity|]. split; [discriminate|].
      set (b' := set_nStatus _ b).
      assert (Eh : forall i, 3 <= i -> Z.testbit (nStatus b') i = Z.testbit (nStatus b) i)
        by (intros i Hi; apply raised_high; lia).
      assert (El : level b' = n) by (apply raised_level; lia).
      rewrite V, (failed_high b b' Eh), F, El. repeat split; try assumption; try lia.
      f_equal. apply Z.leb_refl.
    + exists false, b. rewrite V, F. repeat split; try discriminate; try lia. f_equal. apply Z.leb_le. lia.
Qed.

Lemma validity_raised_witness :
  exists r b', RaiseValidity (plain 0 None 0 0) BLOCK_VALID_TREE = Some (r, b') /\ level b' = 2.
Proof.
  destruct (validity_raised (plain 0 None 0 0) BLOCK_VALID_TREE ltac:(unfold BLOCK_VALID_TREE, BLOCK_VALID_SCRIPTS; lia))
    as (r & b' & E & _ & H & _). exists r, b'. split; [exact E|]. destruct (H eq_refl) as (_ & _ & L). exact L.
Defined.
