(* ===== verification/Pow.v ===== *)
(** Model of src/src/pow.cpp: the next difficulty target (DarkGravity v3 up to height
    3000, then an exponential moving average over the block spacing), the range check
    of a target and the work of a block. [None]: a null pointer is followed, a number
    is divided by zero ([uint_error]) or an [assert] of [GetCompact] fails. *)
From S2P Require Import Prelude SphTypes ArithUint Upgrades Chain.
Import ArithUint Consensus Chain.

Module Pow.

(** * The constants of DarkGravity and its loop *)

Definition PastBlocksMin : Z := 24.
Definition PastBlocksMax : Z := 24.

Record dgw_state := {
  BlockReading : ptr;
  nActualTimespan : Z;
  LastBlockTime : Z;
  CountBlocks : Z;
  PastDifficultyAverage : list Z;
  PastDifficultyAveragePrev : list Z
}.

(** [((Prev * CountBlocks) + SetCompact(nBits)) / (CountBlocks + 1)]: the product takes
    a [uint32_t], the quotient a [base_uint]. *)
Definition past_average (prev : list Z) (count nBits : Z) : option (list Z) :=
  let '(bn, _, _) := SetCompact nBits in
  op_div W256 (op_add W256 (op_mul32 W256 prev (u32 count)) bn) (base_uint_of_u64 W256 (u64 (count + 1))).

(** The body of the loop for one block, without the last test of [pprev]. *)
Definition dgw_block (st : dgw_state) (b : CBlockIndex) : option dgw_state :=
  let count := CountBlocks st + 1 in
  let! (avg, prev) :=
    (if count <=? PastBlocksMin then
       let! avg := (if count =? 1 then (let '(bn, _, _) := SetCompact (nBits b) in Some bn)
                    else past_average (PastDifficultyAveragePrev st) count (nBits b)) in
       Some (avg, avg)
     else Some (PastDifficultyAverage st, PastDifficultyAveragePrev st)) in
  let timespan := if 0 <? LastBlockTime st
                  then nActualTimespan st + (LastBlockTime st - GetBlockTime b) else nActualTimespan st in
  Some {| BlockReading := pprev b; nActualTimespan := timespan; LastBlockTime := GetBlockTime b;
          CountBlocks := count; PastDifficultyAverage := avg; PastDifficultyAveragePrev := prev |}.

(** [for (i = 1; BlockReading && BlockReading->nHeight > 0; i++)]: after the last
    block the loop is left with [BlockReading] still set, which is not used again. *)
Fixpoint dgw_loop (fuel : nat) (s : store) (i : Z) (st : dgw_state) : option dgw_state :=
  match fuel with
  | O => None
  | S fuel' =>
      match BlockReading st with
      | None => Some st
      | Some _ =>
          let! b := deref s (BlockReading st) in
          if negb (0 <? nHeight b) then Some st
          else if (0 <? PastBlocksMax) && (PastBlocksMax <? i) then Some st
          else
            let! st := dgw_block st b in
            match pprev b with
            | None => Some st
            | Some _ => dgw_loop fuel' s (i + 1) st
            end
      end
  end.

(** [operator>], [operator<=]. *)
Definition gt (a b : list Z) : bool := 0 <? CompareTo W256 a b.
Definition le (a b : list Z) : bool := CompareTo W256 a b <=? 0.

(** * The two retargeting rules *)

Definition dgw_target (params : Params) (s : store) (pindexLast : ptr) : option Z :=
  let powLimit := UintToArith256 (powLimit params) in
  let! st := dgw_loop 26 s 1 {| BlockReading := pindexLast; nActualTimespan := 0; LastBlockTime := 0; CountBlocks := 0;
                                PastDifficultyAverage := base_uint_zero W256;
                                PastDifficultyAveragePrev := base_uint_zero W256 |} in
  let target := CountBlocks st * nTargetSpacing params in
  let actual := nActualTimespan st in
  let actual := if actual <? Z.quot target 3 then Z.quot target 3 else actual in
  let actual := if target * 3 <? actual then target * 3 else actual in
  let bnNew := op_mul32 W256 (PastDifficultyAverage st) (u32 actual) in
  let! bnNew := op_div W256 bnNew (base_uint_of_u64 W256 (u64 target)) in
  let bnNew := if gt bnNew powLimit then powLimit else bnNew in
  GetCompact bnNew false.

(** [fRegTestNet] is [Params().IsRegTestNet()]. *)
Definition pos_target (params : Params) (fRegTestNet : bool) (s : store) (b : CBlockIndex) : option Z :=
  let fTimeV2 := negb fRegTestNet && IsTimeProtocolV2 params (nHeight b + 1) in
  let bnTargetLimit := UintToArith256 (ProofOfStakeLimit params fTimeV2) in
  let nTargetTimespan := TargetTimespan params fTimeV2 in
  let! spacing :=
    (if negb (nHeight b =? 0) then let! q := deref s (pprev b) in Some (GetBlockTime b - GetBlockTime q) else Some 0) in
  let spacing := if spacing <? 0 then 1 else spacing in
  let spacing := if fTimeV2 && (nTargetSpacing params * 10 <? spacing) then nTargetSpacing params * 10 else spacing in
  let '(bnNew, _, _) := SetCompact (nBits b) in
  let bnNew := if fTimeV2 && negb (IsTimeProtocolV2 params (nHeight b)) then op_shl W256 bnNew 4 else bnNew in
  let nInterval := Z.quot nTargetTimespan (nTargetSpacing params) in
  let bnNew := op_mul32 W256 bnNew (u32 ((nInterval - 1) * nTargetSpacing params + spacing + spacing)) in
  let! bnNew := op_div W256 bnNew (base_uint_of_u64 W256 (u64 ((nInterval + 1) * nTargetSpacing params))) in
  let bnNew := if le bnNew (base_uint_of_u64 W256 0) || gt bnNew bnTargetLimit then bnTargetLimit else bnNew in
  GetCompact bnNew false.

Definition GetNextWorkRequired (params : Params) (fRegTestNet : bool) (s : store) (pindexLast : ptr) : option Z :=
  if fPowNoRetargeting params then let! b := deref s pindexLast in Some (nBits b)
  else
    match pindexLast with
    | None => GetCompact (UintToArith256 (powLimit params)) false
    | Some _ =>
        let! b := deref s pindexLast in
        if (nHeight b =? 0) || (nHeight b <? PastBlocksMin) then GetCompact (UintToArith256 (powLimit params)) false
        else if 3000 <? nHeight b then pos_target params fRegTestNet s b
        else dgw_target params s pindexLast
    end.

(** * Checks *)

(** The comparison of the hash with the target is commented out in the source. *)
Definition CheckProofOfWork (params : Params) (hash : list Z) (nBits : Z) : bool :=
  let '(bnTarget, fNegative, fOverflow) := SetCompact nBits in
  if fNegative || IsNull W256 bnTarget || fOverflow || gt bnTarget (UintToArith256 (powLimit params))
  then false else true.

Definition GetBlockProof (nBits : Z) : option (list Z) :=
  let '(bnTarget, fNegative, fOverflow) := SetCompact nBits in
  if fNegative || fOverflow || IsNull W256 bnTarget then Some (base_uint_zero W256)
  else
    let! q := op_div W256 (op_not W256 bnTarget) (op_add W256 bnTarget (base_uint_of_u64 W256 1)) in
    Some (op_add W256 q (base_uint_of_u64 W256 1)).

End Pow.
