(* ===== verification/PowProofs.v ===== *)
(** Difficulty: the retargeting rules as functions on integers, the bounds on what they
    return, the work of a block and the check of a target. *)
From Stdlib Require Import ZifyNat.
From S2P Require Import Prelude SphTypes ArithUint ArithUintProofs ArithUint256 Compact.
From S2P Require Import Upgrades Chain ChainProofs ChainIndex Pow.
Import ArithUint Consensus Chain Pow.

(** * Comparisons and targets *)

Lemma gt_spec a b : wf W256 a -> wf W256 b -> gt a b = (value b <? value a).
Proof.
  intros Ha Hb. unfold gt. rewrite CompareTo_spec by first [assumption | unfold W256; lia].
  destruct (Z.compare_spec (value a) (value b)), (Z.ltb_spec (value b) (value a)); lia || reflexivity.
Qed.

Lemma le_spec a b : wf W256 a -> wf W256 b -> le a b = (value a <=? value b).
Proof.
  intros Ha Hb. unfold le. rewrite CompareTo_spec by first [assumption | unfold W256; lia].
  destruct (Z.compare_spec (value a) (value b)), (Z.leb_spec (value a) (value b)); lia || reflexivity.
Qed.

Lemma W256_ge : (2 <= W256)%nat.
Proof. unfold W256; lia. Qed.

Lemma value_lt a : wf W256 a -> 0 <= value a < 2 ^ 256.
Proof. intros H. pose proof (value_bound _ _ H) as B. now rewrite modulus_256 in B. Qed.

(** Quotient by a number given as [uint64_t]. *)
Lemma div_u64_spec a d :
  wf W256 a -> 0 < d < 2 ^ 64 ->
  exists q, op_div W256 a (base_uint_of_u64 W256 d) = Some q /\ wf W256 q /\ value q = value a / d.
Proof.
  intros Ha Hd. destruct (of_u64_spec W256 W256_ge d ltac:(lia)) as [Wd Vd].
  pose proof (op_div_spec W256 W256_ge a _ Ha Wd) as S. destruct (op_div W256 a (base_uint_of_u64 W256 d)) as [q|].
  - exists q. rewrite Vd in S. tauto.
  - rewrite Vd in S. lia.
Qed.

Lemma mul_u32_spec a m :
  wf W256 a -> wf W256 (op_mul32 W256 a (u32 m)) /\ value (op_mul32 W256 a (u32 m)) = (value a * u32 m) mod 2 ^ 256.
Proof. intros Ha. apply op_mul32_spec; [assumption | apply word_u32]. Qed.

Lemma SetCompact_value c :
  0 <= c < 2 ^ 32 -> exists pn n o, SetCompact c = (pn, n, o) /\ wf W256 pn /\ value pn = decode c mod 2 ^ 256.
Proof.
  intros Hc. pose proof (SetCompact_spec c Hc) as S. destruct (SetCompact c) as [[pn n] o]. exists pn, n, o. tauto.
Qed.

(** * The work of a block *)

(** A target that stands for a positive number below 2^256. *)
Definition valid_target (c : Z) : bool :=
  negb (decode c =? 0) && negb (Z.testbit c 23) && (decode c <? 2 ^ 256).

(** No 23-bit mantissa gives 2^256 - 1. *)
Lemma decode_not_max c : 0 <= c < 2 ^ 32 -> decode c < 2 ^ 256 -> decode c + 1 < 2 ^ 256.
Proof.
  intros Hc Hd. pose proof (csize_bound c Hc) as Hs. pose proof (cmant_bound c) as Hm. unfold decode in *.
  destruct (Z.leb_spec (csize c) 3) as [L|L].
  - assert (cmant c / 2 ^ (8 * (3 - csize c)) <= cmant c); [|lia].
    apply Z.div_le_upper_bound; [apply Z.pow_pos_nonneg; lia|].
    pose proof (Z.pow_pos_nonneg 2 (8 * (3 - csize c)) ltac:(lia) ltac:(lia)). nia.
  - set (x := cmant c * 2 ^ (8 * (csize c - 3))) in *.
    assert (E : x = 2 * (cmant c * 2 ^ (8 * (csize c - 3) - 1))).
    { unfold x. replace (8 * (csize c - 3)) with (1 + (8 * (csize c - 3) - 1)) at 1 by lia. rewrite Z.pow_add_r by lia. ring. }
    change (2 ^ 256) with (2 * 2 ^ 255) in *. lia.
Qed.

(** The work of a block is the integer 2^256 / (target + 1), although 2^256 is not
    a 256-bit number, and 0 for a target that is negative, zero or too large; the
    division never fails. *)
Theorem block_proof_value (c : Z) :
  0 <= c < 2 ^ 32 ->
  exists w, GetBlockProof c = Some w /\ wf W256 w /\
    value w = if valid_target c then 2 ^ 256 / (decode c + 1) else 0.
Proof.
  intros Hc. unfold GetBlockProof. pose proof (SetCompact_spec c Hc) as S. destruct (SetCompact c) as [[t n] o].
  destruct S as (Ht & Vt & -> & ->). pose proof (decode_nonneg c) as D0. unfold valid_target.
  rewrite IsNull_spec, Vt by assumption.
  destruct (Z.eqb_spec (decode c) 0) as [E|E]; cbn [negb andb orb].
  { rewrite E. change (2 ^ 256 <=? 0) with false. cbn [orb]. exists (base_uint_zero W256).
    split; [reflexivity|]. split; [apply wf_zero | apply value_zeros]. }
  destruct (Z.testbit c 23); cbn [negb andb orb].
  { exists (base_uint_zero W256). split; [reflexivity|]. split; [apply wf_zero | apply value_zeros]. }
  destruct (Z.leb_spec (2 ^ 256) (decode c)) as [L|L], (Z.ltb_spec (decode c) (2 ^ 256)); try lia; cbn [orb].
  { exists (base_uint_zero W256). split; [reflexivity|]. split; [apply wf_zero | apply value_zeros]. }
  pose proof (decode_not_max c Hc L) as Lmax.
  rewrite Z.mod_small in Vt by lia. rewrite Z.mod_small by lia. destruct (Z.eqb_spec (decode c) 0); [lia|].
  destruct (op_not_spec W256 t Ht) as [Wn Vn]. rewrite modulus_256, Vt in Vn.
  destruct (of_u64_spec W256 W256_ge 1 ltac:(lia)) as [W1 V1].
  destruct (op_add_spec W256 t _ Ht W1) as [Wa Va]. rewrite modulus_256, Vt, V1, Z.mod_small in Va by lia.
  pose proof (op_div_spec W256 W256_ge _ _ Wn Wa) as Sd. destruct (op_div _ _ _) as [q|]; [|lia].
  destruct Sd as (_ & Wq & Vq). rewrite Vn, Va in Vq.
  destruct (op_add_spec W256 q _ Wq W1) as [Ws Vs]. rewrite modulus_256, Vq, V1 in Vs.
  exists (op_add W256 q (base_uint_of_u64 W256 1)). split; [reflexivity|]. split; [assumption|]. rewrite Vs.
  assert (Eq : (2 ^ 256 - 1 - decode c) / (decode c + 1) + 1 = 2 ^ 256 / (decode c + 1)).
  { rewrite <- Z.div_add by lia. f_equal. ring. }
  rewrite Eq. apply Z.mod_small. split; [apply Z.div_pos; lia | apply Z.div_lt_upper_bound; lia].
Qed.

Lemma block_proof_value_witness :
  exists w, GetBlockProof 0x1e0ffff0 = Some w /\ value w = 2 ^ 256 / (decode 0x1e0ffff0 + 1).
Proof.
  destruct (block_proof_value 0x1e0ffff0 ltac:(lia)) as (w & E & _ & V). exists w. split; [exact E|].
  rewrite V. vm_compute. reflexivity.
Defined.

(** * The check of a target *)

Lemma limit_spec l : length l = 32%nat -> bytes l -> wf W256 (UintToArith256 l) /\ value (UintToArith256 l) = le_combine l.
Proof. intros Hl Hb. now apply (UintToArith_value W256). Qed.

(** [CheckProofOfWork] accepts a block header exactly if its target is valid and at
    most the limit of the network. The hash plays no part: any hash passes with any
    such target, and the comparison with the target that the declaration promises is
    not made. *)
Theorem proof_of_work_check (params : Params) (hash hash' : list Z) (c : Z) :
  length (powLimit params) = 32%nat -> bytes (powLimit params) -> 0 <= c < 2 ^ 32 ->
  CheckProofOfWork params hash c = valid_target c && (decode c <=? le_combine (powLimit params)) /\
  CheckProofOfWork params hash c = CheckProofOfWork params hash' c.
Proof.
  intros Hl Hb Hc. split; [|reflexivity]. destruct (limit_spec _ Hl Hb) as [Wl Vl].
  unfold CheckProofOfWork. pose proof (SetCompact_spec c Hc) as S. destruct (SetCompact c) as [[t n] o].
  destruct S as (Ht & Vt & -> & ->). pose proof (decode_nonneg c) as D0. unfold valid_target.
  rewrite IsNull_spec, gt_spec, Vl, Vt by assumption.
  destruct (Z.eqb_spec (decode c) 0) as [E|E]; cbn [negb andb orb]; [rewrite E; reflexivity|].
  destruct (Z.testbit c 23); cbn [negb andb orb]; [reflexivity|].
  destruct (Z.leb_spec (2 ^ 256) (decode c)) as [L|L], (Z.ltb_spec (decode c) (2 ^ 256)); try lia; cbn [orb andb].
  - now rewrite Bool.orb_true_r.
  - rewrite Z.mod_small by lia. destruct (Z.eqb_spec (decode c) 0); [lia|]. cbn [orb].
    destruct (Z.ltb_spec (le_combine (powLimit params)) (decode c)), (Z.leb_spec (decode c) (le_combine (powLimit params))); lia || reflexivity.
Qed.

Lemma proof_of_work_check_witness :
  CheckProofOfWork CMainParams (repeat 0xff 32) 0x1e0ffff0 = true.
Proof.
  rewrite (proj1 (proof_of_work_check CMainParams (repeat 0xff 32) [] 0x1e0ffff0 eq_refl
    ltac:(apply words_check; reflexivity) ltac:(lia))).
  vm_compute. reflexivity.
Defined.

(** * Retargeting *)

(** What the rules rely on: 32-byte limits, positive spacings, and block fields of
    their C++ types. *)
Record params_ok (params : Params) : Prop := {
  powLimit_ok : length (powLimit params) = 32%nat /\ bytes (powLimit params);
  posLimit_ok v2 : length (ProofOfStakeLimit params v2) = 32%nat /\ bytes (ProofOfStakeLimit params v2) /\
    0 < le_combine (ProofOfStakeLimit params v2);
  spacing_ok : 0 < nTargetSpacing params < 2 ^ 32;
  timespan_ok v2 : nTargetSpacing params <= TargetTimespan params v2 < 2 ^ 32
}.

Definition block_ok (b : CBlockIndex) : Prop := 0 <= nBits b < 2 ^ 32 /\ 0 <= nTime b < 2 ^ 32.

Definition store_ok (s : store) : Prop := linked s /\ forall a b, nth_error s a = Some b -> block_ok b.

Section Retarget.
Context (params : Params) (HP : params_ok params).

(** ** The moving average over the spacing *)

(** The number of spacings in the timespan. *)
Definition intervals (v2 : bool) : Z := Z.quot (TargetTimespan params v2) (nTargetSpacing params).

Lemma intervals_bound v2 :
  1 <= intervals v2 /\ 0 < (intervals v2 + 1) * nTargetSpacing params < 2 ^ 64 /\
  0 <= (intervals v2 - 1) * nTargetSpacing params < 2 ^ 32.
Proof.
  destruct (spacing_ok _ HP) as [S0 S1]. destruct (timespan_ok _ HP v2) as [T0 T1]. unfold intervals.
  rewrite Z.quot_div_nonneg by lia. pose proof (Z.div_mod (TargetTimespan params v2) (nTargetSpacing params) ltac:(lia)) as D.
  pose proof (Z.mod_pos_bound (TargetTimespan params v2) (nTargetSpacing params) ltac:(lia)) as M.
  set (q := TargetTimespan params v2 / nTargetSpacing params) in *.
  assert (1 <= q) by (unfold q; apply Z.div_le_lower_bound; lia). nia.
Qed.

(** The new target from the old one [t] and the time [d] between the last two blocks. *)
Definition pos_rule (v2 first : bool) (t d : Z) : Z :=
  let limit := le_combine (ProofOfStakeLimit params v2) in
  let t := if first then (t * 16) mod 2 ^ 256 else t in
  let q := (t * u32 ((intervals v2 - 1) * nTargetSpacing params + d + d)) mod 2 ^ 256
           / ((intervals v2 + 1) * nTargetSpacing params) in
  if (q =? 0) || (limit <? q) then limit else q.

(** The spacing that the rule uses. *)
Definition used_spacing (v2 : bool) (d : Z) : Z :=
  let d := if d <? 0 then 1 else d in
  if v2 && (nTargetSpacing params * 10 <? d) then nTargetSpacing params * 10 else d.

Lemma le_combine_limit l : length l = 32%nat -> bytes l -> 0 <= le_combine l < 2 ^ 256.
Proof. intros Hl Hb. destruct (limit_spec l Hl Hb) as [W <-]. now apply value_lt. Qed.

Lemma pos_rule_bound v2 first t d : 0 < pos_rule v2 first t d <= le_combine (ProofOfStakeLimit params v2).
Proof.
  destruct (posLimit_ok _ HP v2) as (_ & _ & L0). destruct (intervals_bound v2) as (_ & I1 & _). unfold pos_rule. cbv zeta.
  set (t' := if first then _ else _). set (q := _ / _). assert (0 <= q) by (apply Z.div_pos; [apply Z.mod_pos_bound; lia | lia]).
  destruct (Z.eqb_spec q 0); cbn [orb]; [lia|]. destruct (Z.ltb_spec (le_combine (ProofOfStakeLimit params v2)) q); lia.
Qed.

Lemma pos_target_spec rt s a b q c :
  store_ok s -> nth_error s a = Some b -> 0 < nHeight b -> pprev b = Some q -> nth_error s q = Some c ->
  let v2 := negb rt && IsTimeProtocolV2 params (nHeight b + 1) in
  let first := v2 && negb (IsTimeProtocolV2 params (nHeight b)) in
  pos_target params rt s b =
  Some (compact (pos_rule v2 first (decode (nBits b) mod 2 ^ 256) (used_spacing v2 (nTime b - nTime c)))).
Proof.
  intros [Hs Hb] Ea Hh Ep Eq v2 first. unfold pos_target. fold v2. cbv zeta. fold first.
  destruct (Z.eqb_spec (nHeight b) 0); [lia|]. cbn [negb]. rewrite Ep. cbn [deref]. rewrite Eq. unfold GetBlockTime.
  change (if v2 && _ then _ else _) with (used_spacing v2 (nTime b - nTime c)).
  set (d := used_spacing v2 (nTime b - nTime c)). clearbody d.
  destruct (SetCompact_value (nBits b) (proj1 (Hb a b Ea))) as (t & ng & ov & -> & Wt & Vt).
  destruct (posLimit_ok _ HP v2) as (Ll & Lb & L0). destruct (limit_spec _ Ll Lb) as [Wl Vl].
  destruct (intervals_bound v2) as (_ & I1 & _). fold (intervals v2).
  (* the shifted target *)
  set (t1 := if first then op_shl W256 t 4 else t).
  assert (T1 : wf W256 t1 /\ value t1 = if first then (decode (nBits b) mod 2 ^ 256 * 16) mod 2 ^ 256 else decode (nBits b) mod 2 ^ 256).
  { unfold t1. destruct first; [|now split]. destruct (op_shl_spec W256 t 4 Wt) as [W V]. split; [assumption|].
    rewrite V, Vt. reflexivity. }
  destruct T1 as [Wt1 Vt1].
  destruct (mul_u32_spec t1 ((intervals v2 - 1) * nTargetSpacing params + d + d) Wt1) as [Wm Vm].
  unfold u64. rewrite (Z.mod_small ((intervals v2 + 1) * nTargetSpacing params)) by lia.
  destruct (div_u64_spec _ ((intervals v2 + 1) * nTargetSpacing params) Wm I1) as (r & -> & Wr & Vr).
  rewrite Vm, Vt1 in Vr.
  destruct (of_u64_spec W256 W256_ge 0 ltac:(lia)) as [W0 V0].
  rewrite le_spec, gt_spec, V0, Vl by assumption.
  rewrite GetCompact_spec by (destruct (_ || _); assumption). cbn [andb]. rewrite Z.add_0_r. do 2 f_equal.
  unfold pos_rule. cbv zeta. rewrite <- Vr. pose proof (value_lt r Wr).
  replace (value r <=? 0) with (value r =? 0) by (destruct (Z.eqb_spec (value r) 0), (Z.leb_spec (value r) 0); lia).
  destruct (_ || _); [exact Vl | reflexivity].
Qed.

(** The product with its wraps. *)
Lemma pos_rule_wraps v2 first t d :
  pos_rule v2 first (t mod 2 ^ 256) d =
  let limit := le_combine (ProofOfStakeLimit params v2) in
  let q := ((if first then 16 else 1) * t * (((intervals v2 - 1) * nTargetSpacing params + 2 * d) mod 2 ^ 32)) mod 2 ^ 256
           / ((intervals v2 + 1) * nTargetSpacing params) in
  if (q =? 0) || (limit <? q) then limit else q.
Proof.
  unfold pos_rule, u32. cbv zeta. replace ((intervals v2 - 1) * nTargetSpacing params + d + d) with ((intervals v2 - 1) * nTargetSpacing params + 2 * d) by ring.
  set (f := _ mod 2 ^ 32).
  assert (E : ((if first then (t mod 2 ^ 256 * 16) mod 2 ^ 256 else t mod 2 ^ 256) * f) mod 2 ^ 256 = ((if first then 16 else 1) * t * f) mod 2 ^ 256).
  { destruct first; [rewrite (Z.mul_mod_idemp_l t 16), (Z.mul_mod_idemp_l (t * 16) f) by lia | rewrite (Z.mul_mod_idemp_l t f) by lia]; f_equal; ring. }
  now rewrite E.
Qed.

(** C37. Above height 3000 the required target is the old one (times 16 in the block that
    starts the second time protocol) times (intervals - 1) * spacing + 2 * d over
    (intervals + 1) * spacing, with [d] the time between the last two blocks, limited to the
    range from 1 to the proof-of-stake limit. The factor is computed modulo 2^32 and the
    product modulo 2^256: that is the result for all targets and times, and the wraps are
    gone when the factor is below 2^32 and the product below 2^256. A network without
    retargeting keeps the bits of the last block. No exception is thrown. *)
Theorem pos_retarget_rule (rt : bool) (s : store) (a q : nat) (b c : CBlockIndex) :
  store_ok s -> nth_error s a = Some b -> 3000 < nHeight b -> pprev b = Some q -> nth_error s q = Some c ->
  let v2 := negb rt && IsTimeProtocolV2 params (nHeight b + 1) in
  let first := v2 && negb (IsTimeProtocolV2 params (nHeight b)) in
  let old := (if first then 16 else 1) * decode (nBits b) in
  let factor := (intervals v2 - 1) * nTargetSpacing params + 2 * used_spacing v2 (nTime b - nTime c) in
  let limit := le_combine (ProofOfStakeLimit params v2) in
  let limited q := if (q =? 0) || (limit <? q) then limit else q in
  let timespan := (intervals v2 + 1) * nTargetSpacing params in
  GetNextWorkRequired params rt s (Some a) =
    Some (if fPowNoRetargeting params then nBits b else compact (limited ((old * (factor mod 2 ^ 32)) mod 2 ^ 256 / timespan))) /\
  (fPowNoRetargeting params = false -> factor < 2 ^ 32 -> old * factor < 2 ^ 256 ->
   GetNextWorkRequired params rt s (Some a) = Some (compact (limited (old * factor / timespan)))).
Proof.
  intros Hs Ea Hh Ep Eq v2 first old factor limit limited timespan.
  assert (E : GetNextWorkRequired params rt s (Some a) =
    Some (if fPowNoRetargeting params then nBits b else compact (limited ((old * (factor mod 2 ^ 32)) mod 2 ^ 256 / timespan)))).
  { unfold GetNextWorkRequired. cbn [deref]. rewrite Ea. destruct (fPowNoRetargeting params); [reflexivity|].
    destruct (Z.eqb_spec (nHeight b) 0), (Z.ltb_spec (nHeight b) PastBlocksMin), (Z.ltb_spec 3000 (nHeight b));
      unfold PastBlocksMin in *; try lia. cbn [orb].
    rewrite (pos_target_spec rt s a b q c Hs Ea ltac:(lia) Ep Eq), pos_rule_wraps. reflexivity. }
  split; [exact E|]. intros Hr Hf Hp. rewrite E, Hr. destruct (intervals_bound v2) as (_ & _ & I2). destruct (spacing_ok _ HP) as [S0 _].
  assert (D : 0 <= used_spacing v2 (nTime b - nTime c)).
  { unfold used_spacing. cbv zeta. clear - S0. destruct (Z.ltb_spec (nTime b - nTime c) 0); match goal with |- context [if ?x then _ else _] => destruct x end; lia. }
  pose proof (decode_nonneg (nBits b)) as D0. assert (O : 0 <= old) by (unfold old; destruct first; lia).
  assert (F : 0 <= factor) by (unfold factor; lia). clearbody factor old.
  rewrite (Z.mod_small factor), (Z.mod_small (old * factor)) by nia. reflexivity.
Qed.

(** ** DarkGravity *)

(** The last [n] blocks. *)
Fixpoint back_blocks (s : store) (n : nat) (p : ptr) : list CBlockIndex :=
  match n, p with
  | S n', Some a => match nth_error s a with Some b => b :: back_blocks s n' (pprev b) | None => [] end
  | _, _ => []
  end.

(** The running average: with [c] targets seen, the next average is
    (avg * (c + 1) + t) / (c + 2), so that the last block counts twice. *)
Fixpoint average_from (c avg : Z) (ts : list Z) : Z :=
  match ts with
  | [] => avg
  | t :: r => average_from (c + 1) ((avg * (c + 1) + t) / (c + 2)) r
  end.
Definition average (ts : list Z) : Z :=
  match ts with [] => 0 | t :: r => average_from 1 t r end.

(** The sum of the differences of successive times, from a time that is not 0. *)
Fixpoint span_from (last span : Z) (ts : list Z) : Z :=
  match ts with
  | [] => span
  | t :: r => span_from t (if 0 <? last then span + (last - t) else span) r
  end.

Definition target (b : CBlockIndex) : Z := decode (nBits b).

Lemma average_from_bound limit c avg ts :
  0 <= c -> 0 <= avg <= limit -> Forall (fun t => 0 <= t <= limit) ts -> 0 <= average_from c avg ts <= limit.
Proof.
  intros Hc Ha Ht. revert c avg Hc Ha. induction Ht as [|t ts Ht Hts IH]; intros c avg Hc Ha; [assumption|].
  cbn [average_from]. apply IH; [lia|]. split; [apply Z.div_pos; nia|]. apply Z.div_le_upper_bound; nia.
Qed.

(** One step of the average in the code. *)
Lemma past_average_spec limit prev c nBits :
  limit * 25 < 2 ^ 256 -> wf W256 prev -> 0 <= value prev <= limit -> 1 <= c <= 24 -> 0 <= nBits < 2 ^ 32 -> decode nBits <= limit ->
  exists r, past_average prev c nBits = Some r /\ wf W256 r /\ value r = (value prev * c + decode nBits) / (c + 1).
Proof.
  intros Hl Hp Vp Hc Hn Hd. unfold past_average. pose proof (decode_nonneg nBits) as D0.
  destruct (SetCompact_value nBits Hn) as (t & ng & ov & -> & Wt & Vt). rewrite Z.mod_small in Vt by lia.
  destruct (mul_u32_spec prev c Hp) as [Wm Vm]. unfold u32 in Vm at 2. rewrite (Z.mod_small c) in Vm by lia.
  rewrite Z.mod_small in Vm by nia.
  destruct (op_add_spec W256 _ _ Wm Wt) as [Wa Va]. rewrite modulus_256, Vm, Vt, Z.mod_small in Va by nia.
  unfold u64. rewrite Z.mod_small by lia. destruct (div_u64_spec _ (c + 1) Wa ltac:(lia)) as (r & E & Wr & Vr).
  exists r. split; [exact E|]. split; [exact Wr|]. now rewrite Vr, Va.
Qed.

Lemma dgw_block_spec limit st b :
  limit * 25 < 2 ^ 256 -> block_ok b -> target b <= limit -> 0 <= CountBlocks st < 24 ->
  (1 <= CountBlocks st -> wf W256 (PastDifficultyAverage st) /\ 0 <= value (PastDifficultyAverage st) <= limit /\
            PastDifficultyAveragePrev st = PastDifficultyAverage st) ->
  exists st', dgw_block st b = Some st' /\ BlockReading st' = pprev b /\ CountBlocks st' = CountBlocks st + 1 /\
    LastBlockTime st' = nTime b /\
    nActualTimespan st' = (if 0 <? LastBlockTime st then nActualTimespan st + (LastBlockTime st - nTime b) else nActualTimespan st) /\
    PastDifficultyAveragePrev st' = PastDifficultyAverage st' /\ wf W256 (PastDifficultyAverage st') /\
    value (PastDifficultyAverage st') =
      (if CountBlocks st =? 0 then target b
       else (value (PastDifficultyAverage st) * (CountBlocks st + 1) + target b) / (CountBlocks st + 2)).
Proof.
  intros Hl [Hb _] Ht Hc Hp. unfold dgw_block, PastBlocksMin, target in *. cbv zeta. pose proof (decode_nonneg (nBits b)) as D0.
  destruct (Z.leb_spec (CountBlocks st + 1) 24); [|lia].
  destruct (Z.eqb_spec (CountBlocks st) 0) as [E|E], (Z.eqb_spec (CountBlocks st + 1) 1); try lia.
  - destruct (SetCompact_value (nBits b) Hb) as (t & ng & ov & -> & Wt & Vt). rewrite Z.mod_small in Vt by lia.
    eexists. split; [reflexivity|]. cbn. repeat split; (assumption || apply Wt).
  - destruct Hp as (Wp & Vp & ->); [lia|].
    destruct (past_average_spec limit _ (CountBlocks st + 1) (nBits b) Hl Wp Vp ltac:(lia) Hb Ht) as (r & -> & Wr & Vr).
    eexists. split; [reflexivity|]. cbn [BlockReading CountBlocks LastBlockTime nActualTimespan PastDifficultyAverage PastDifficultyAveragePrev].
    repeat split; try apply Wr. rewrite Vr. f_equal. lia.
Qed.

Lemma dgw_loop_spec limit s n a b i fuel st :
  limit * 25 < 2 ^ 256 -> store_ok s -> nth_error s a = Some b -> Z.of_nat n <= nHeight b -> Z.of_nat n + i = 25 -> 1 <= i ->
  (n < fuel)%nat -> BlockReading st = Some a -> CountBlocks st = i - 1 ->
  (forall c, In c (back_blocks s n (Some a)) -> target c <= limit) ->
  (1 < i -> wf W256 (PastDifficultyAverage st) /\ 0 <= value (PastDifficultyAverage st) <= limit /\
            PastDifficultyAveragePrev st = PastDifficultyAverage st) ->
  let bs := back_blocks s n (Some a) in
  exists st', dgw_loop fuel s i st = Some st' /\ CountBlocks st' = 24 /\
    nActualTimespan st' = span_from (LastBlockTime st) (nActualTimespan st) (map nTime bs) /\
    wf W256 (PastDifficultyAverage st') /\
    value (PastDifficultyAverage st') =
      (if i =? 1 then average (map target bs) else average_from (i - 1) (value (PastDifficultyAverage st)) (map target bs)).
Proof.
  intros Hl Hs. revert a b i fuel st. induction n as [|n IH]; intros a b i fuel st Ea Hh Hi Hi1 Hf Er Ec Ht Hp bs.
  - (* the loop is left *)
    destruct fuel as [|fuel]; [lia|]. replace i with 25 in * by lia. exists st. unfold bs. cbn [back_blocks map span_from average_from dgw_loop].
    rewrite Er. cbn [deref]. rewrite Ea. destruct Hp as (Wp & _); [lia|].
    destruct (Z.eqb_spec 25 1); [lia|]. destruct (negb (0 <? nHeight b)); repeat split; try assumption; try apply Wp; lia.
  - destruct fuel as [|fuel]; [lia|]. pose proof Hs as [Hlk Hok].
    destruct (parent s Hlk a b Ea ltac:(lia)) as (q & c & Ep & Eq & Hq).
    assert (Eb : bs = b :: back_blocks s n (Some q)) by (unfold bs; cbn [back_blocks]; now rewrite Ea, Ep).
    destruct (dgw_block_spec limit st b Hl (Hok a b Ea)) as (st1 & E1 & R1 & C1 & L1 & T1 & P1 & W1 & V1).
    { apply Ht. cbn [back_blocks]. rewrite Ea. now left. }
    { lia. }
    { intros H1. apply Hp. lia. }
    assert (B1 : 0 <= value (PastDifficultyAverage st1) <= limit).
    { pose proof (decode_nonneg (nBits b)). assert (target b <= limit) by (apply Ht; cbn [back_blocks]; rewrite Ea; now left).
      unfold target in *. rewrite V1. destruct (Z.eqb_spec (CountBlocks st) 0); [lia|]. destruct Hp as (_ & Vp & _); [lia|].
      split; [apply Z.div_pos; nia | apply Z.div_le_upper_bound; nia]. }
    destruct (IH q c (i + 1) fuel st1 Eq) as (st2 & E2 & C2 & T2 & W2 & V2); try lia; try congruence.
    { intros d Hd. apply Ht. cbn [back_blocks]. rewrite Ea, Ep. now right. }
    { intros _. auto. }
    exists st2. cbn [dgw_loop]. rewrite Er. cbn [deref]. rewrite Ea.
    destruct (Z.ltb_spec 0 (nHeight b)); [|lia]. cbn [negb]. unfold PastBlocksMax.
    destruct (Z.ltb_spec 24 i); [lia|]. cbn [Z.ltb andb]. rewrite E1, Ep. change (0 <? 24) with true. cbn [andb].
    split; [exact E2|]. split; [exact C2|]. rewrite Eb. cbn [map span_from]. split; [rewrite T2, L1, T1; reflexivity|].
    split; [exact W2|]. rewrite V2. destruct (Z.eqb_spec (i + 1) 1); [lia|].
    destruct (Z.eqb_spec i 1) as [->|Hne].
    + cbn [average]. rewrite V1. destruct (Z.eqb_spec (CountBlocks st) 0); [|lia]. reflexivity.
    + cbn [average_from]. rewrite V1. destruct (Z.eqb_spec (CountBlocks st) 0); [lia|]. rewrite Ec. replace (i + 1 - 1) with (i - 1 + 1) by lia. reflexivity.
Qed.

Lemma length_back_blocks s n a b :
  linked s -> nth_error s a = Some b -> Z.of_nat n <= nHeight b + 1 -> length (back_blocks s n (Some a)) = n.
Proof.
  intros Hs. revert a b; induction n as [|n IH]; intros a b E Hn; [reflexivity|]. cbn [back_blocks]. rewrite E. cbn [length]. f_equal.
  destruct n as [|n]; [reflexivity|]. destruct (parent s Hs a b E ltac:(lia)) as (q & c & -> & Eq & Hq). apply (IH q c Eq). lia.
Qed.

(** Between heights 24 and 3000 the required target is the DarkGravity rule: the
    running average of the targets of the last 24 blocks times the time they took over
    the intended time, the former kept within a factor of three, and at most the limit
    of the network; nothing overflows on the main network and no exception is thrown. *)
Theorem dgw_retarget_rule (rt : bool) (s : store) (a : nat) (b : CBlockIndex) :
  store_ok s -> fPowNoRetargeting params = false -> nth_error s a = Some b -> 24 <= nHeight b <= 3000 ->
  let limit := le_combine (powLimit params) in
  let bs := back_blocks s 24 (Some a) in
  let timespan := 24 * nTargetSpacing params in
  Forall (fun c => target c <= limit) bs -> 3 * timespan < 2 ^ 32 -> limit * (3 * timespan) < 2 ^ 256 ->
  let actual := Z.max (timespan / 3) (Z.min (3 * timespan) (span_from 0 0 (map nTime bs))) in
  length bs = 24%nat /\ 0 <= average (map target bs) <= limit /\
  GetNextWorkRequired params rt s (Some a) = Some (compact (Z.min limit (average (map target bs) * actual / timespan))).
Proof.
  intros Hs Hr Ea Hh limit bs timespan Ht Hsp Hlt actual. destruct (powLimit_ok _ HP) as [Ll Lb].
  destruct (limit_spec _ Ll Lb) as [Wl Vl]. pose proof (le_combine_limit _ Ll Lb) as Bl. fold limit in Vl, Bl.
  destruct (spacing_ok _ HP) as [S0 S1].
  assert (L25 : limit * 25 < 2 ^ 256) by (unfold timespan in Hlt; nia).
  assert (Len : length bs = 24%nat) by (apply (length_back_blocks s 24 a b (proj1 Hs) Ea); lia).
  assert (Bav : 0 <= average (map target bs) <= limit).
  { assert (F : Forall (fun t => 0 <= t <= limit) (map target bs)).
    { apply Forall_map. apply Forall_impl with (2 := Ht). intros c Hc. split; [apply decode_nonneg | assumption]. }
    destruct (map target bs) as [|t ts]; [cbn; lia|]. apply Forall_cons_iff in F as [F1 F2]. apply average_from_bound; try assumption; lia. }
  split; [assumption|]. split; [assumption|].
  unfold GetNextWorkRequired. rewrite Hr. cbn [deref]. rewrite Ea.
  destruct (Z.eqb_spec (nHeight b) 0), (Z.ltb_spec (nHeight b) PastBlocksMin), (Z.ltb_spec 3000 (nHeight b));
    unfold PastBlocksMin in *; try lia. cbn [orb]. unfold dgw_target. cbv zeta.
  destruct (dgw_loop_spec limit s 24 a b 1 26 {| BlockReading := Some a; nActualTimespan := 0; LastBlockTime := 0; CountBlocks := 0;
      PastDifficultyAverage := base_uint_zero W256; PastDifficultyAveragePrev := base_uint_zero W256 |} L25 Hs Ea)
    as (st & -> & Ec & Et & Wa & Va); try lia; try reflexivity.
  { intros c Hc. rewrite Forall_forall in Ht. now apply Ht. }
  cbn [LastBlockTime nActualTimespan] in Et. fold bs in Et, Va. change (1 =? 1) with true in Va. cbn iota in Va.
  rewrite Ec, Et. fold timespan. rewrite (Z.quot_div_nonneg timespan 3) by (unfold timespan; lia).
  set (span := span_from 0 0 (map nTime bs)) in *.
  assert (Ea' : (let actual := if span <? timespan / 3 then timespan / 3 else span in
                 if timespan * 3 <? actual then timespan * 3 else actual) = actual).
  { cbv zeta. unfold actual. assert (timespan / 3 <= timespan) by (apply Z.div_le_upper_bound; unfold timespan; lia).
    destruct (Z.ltb_spec span (timespan / 3)) as [L|L];
      [destruct (Z.ltb_spec (timespan * 3) (timespan / 3)) | destruct (Z.ltb_spec (timespan * 3) span)]; unfold timespan in *; lia. }
  cbv zeta in Ea'. rewrite Ea'.
  assert (A0 : 0 <= actual <= 3 * timespan).
  { unfold actual. pose proof (Z.div_pos timespan 3 ltac:(unfold timespan; lia) ltac:(lia)).
    assert (timespan / 3 <= timespan) by (apply Z.div_le_upper_bound; unfold timespan; lia). unfold timespan in *; lia. }
  destruct (mul_u32_spec (PastDifficultyAverage st) actual Wa) as [Wm Vm]. unfold u32 in Vm at 2.
  rewrite (Z.mod_small actual), Va in Vm by lia. rewrite Z.mod_small in Vm by nia.
  unfold u64. rewrite (Z.mod_small timespan) by (unfold timespan; lia).
  destruct (div_u64_spec _ timespan Wm ltac:(unfold timespan; lia)) as (r & -> & Wr & Vr). rewrite Vm in Vr.
  rewrite gt_spec, Vl by assumption.
  rewrite GetCompact_spec by (match goal with |- wf _ (if ?x then _ else _) => destruct x end; assumption). cbn [andb]. rewrite Z.add_0_r. do 2 f_equal. rewrite <- Vr.
  destruct (Z.ltb_spec limit (value r)); lia.
Qed.

(** Above height 3000 every state of the chain has a next target: whatever the
    targets and times of the last blocks are, the required bits stand for a positive
    number of at most the proof-of-stake limit, and [CheckProofOfWork] accepts them if
    that limit is at most the proof-of-work limit. *)
Theorem pos_bits_accepted (rt : bool) (s : store) (a : nat) (b : CBlockIndex) :
  store_ok s -> fPowNoRetargeting params = false -> nth_error s a = Some b -> 3000 < nHeight b ->
  let limit := le_combine (ProofOfStakeLimit params (negb rt && IsTimeProtocolV2 params (nHeight b + 1))) in
  limit <= le_combine (powLimit params) ->
  exists c, GetNextWorkRequired params rt s (Some a) = Some c /\ 0 < decode c <= limit /\
    forall hash, CheckProofOfWork params hash c = true.
Proof.
  intros Hs Hr Ea Hh limit Hlim. pose proof Hs as [Hlk _]. destruct (parent s Hlk a b Ea ltac:(lia)) as (q & c & Ep & Eq & _).
  unfold GetNextWorkRequired. rewrite Hr. cbn [deref]. rewrite Ea.
  destruct (Z.eqb_spec (nHeight b) 0), (Z.ltb_spec (nHeight b) PastBlocksMin), (Z.ltb_spec 3000 (nHeight b));
    unfold PastBlocksMin in *; try lia. cbn [orb].
  rewrite (pos_target_spec rt s a b q c Hs Ea ltac:(lia) Ep Eq). cbv zeta. set (t := pos_rule _ _ _ _).
  assert (Bt : 0 < t <= limit) by apply pos_rule_bound. clearbody t.
  destruct (powLimit_ok _ HP) as [Ll Lb]. pose proof (le_combine_limit _ Ll Lb) as Bl.
  exists (compact t). split; [reflexivity|].
  pose proof (decode_compact t ltac:(lia)) as Ed. destruct (lost_bound t ltac:(lia)) as [L0 L1].
  assert (Bd : 0 < decode (compact t) <= limit) by lia. split; [exact Bd|]. intros hash.
  pose proof (compact_bound t ltac:(lia)) as Bc.
  unfold CheckProofOfWork. pose proof (SetCompact_spec (compact t) Bc) as S. destruct (SetCompact (compact t)) as [[u n'] o].
  destruct S as (Wu & Vu & -> & ->). rewrite sign_bit by (apply compact_low; lia). rewrite Bool.andb_false_r. cbn [orb].
  rewrite Z.mod_small in Vu by lia. destruct (limit_spec _ Ll Lb) as [Wl Vl].
  rewrite IsNull_spec, gt_spec, Vl, Vu by assumption.
  destruct (Z.eqb_spec (decode (compact t)) 0), (Z.leb_spec (2 ^ 256) (decode (compact t))),
    (Z.ltb_spec (le_combine (powLimit params)) (decode (compact t))); lia || reflexivity.
Qed.
End Retarget.

(** * A concrete chain *)

Lemma main_params_ok : params_ok CMainParams.
Proof.
  split.
  - split; [reflexivity | apply bytes_le_split].
  - intros [|]; (split; [reflexivity|]; split; [apply bytes_le_split | vm_compute; reflexivity]).
  - cbn. lia.
  - intros [|]; cbn; lia.
Qed.

(** Block [i] of a chain with one block a minute, all with the same target. *)
Definition minute_block (bits : Z) (i : nat) : CBlockIndex :=
  {| phashBlock := []; pprev := match i with O => None | S j => Some j end; pskip := None; nHeight := Z.of_nat i; nFile := 0;
     nDataPos := 0; nUndoPos := 0; nChainWork := []; nTx := 0; nChainTx := 0; nStatus := 0; vStakeModifier := []; nFlags := 0;
     nSaplingValue := 0; nChainSaplingValue := None; nVersion := 1; hashMerkleRoot := []; hashFinalSaplingRoot := [];
     nTime := 1551107115 + 60 * Z.of_nat i; nBits := bits; nNonce := 0; nAccumulatorCheckpoint := []; nSequenceId := 0; nTimeMax := 0 |}.
Definition minute_chain (bits : Z) (n : nat) : store := map (minute_block bits) (seq 0 n).

Lemma nth_minute_chain bits n i b : nth_error (minute_chain bits n) i = Some b -> (i < n)%nat /\ b = minute_block bits i.
Proof.
  unfold minute_chain. intros H. pose proof (nth_error_bound _ _ _ H) as L. rewrite length_map, length_seq in L. split; [assumption|].
  rewrite nth_error_map, nth_error_seq in H. destruct (Nat.ltb_spec i n); [|lia]. cbn in H. congruence.
Qed.

Lemma nth_minute_chain_lt bits n i : (i < n)%nat -> nth_error (minute_chain bits n) i = Some (minute_block bits i).
Proof. intros H. unfold minute_chain. rewrite nth_error_map, nth_error_seq. destruct (Nat.ltb_spec i n); [reflexivity | lia]. Qed.

Lemma minute_chain_ok bits n : 0 <= bits < 2 ^ 32 -> Z.of_nat n < 2 ^ 24 -> store_ok (minute_chain bits n).
Proof.
  intros Hb Hn. split.
  - intros i b E. apply nth_minute_chain in E as [Hi ->]. cbn [minute_block nHeight pprev]. split; [lia|].
    destruct i as [|j]; [reflexivity|]. exists (minute_block bits j). split; [apply nth_minute_chain_lt; lia | cbn [minute_block nHeight]; lia].
  - intros i b E. apply nth_minute_chain in E as [Hi ->]. split; cbn [minute_block nBits nTime]; lia.
Qed.

Lemma pos_bits_accepted_witness :
  exists c, GetNextWorkRequired CMainParams false (minute_chain 0x1c00ffff 3002) (Some 3001%nat) = Some c /\
    CheckProofOfWork CMainParams [] c = true.
Proof.
  destruct (pos_bits_accepted CMainParams main_params_ok false (minute_chain 0x1c00ffff 3002) 3001 (minute_block 0x1c00ffff 3001))
    as (c & E & _ & H).
  - apply minute_chain_ok; lia.
  - reflexivity.
  - apply nth_minute_chain_lt. lia.
  - cbn [minute_block nHeight]. lia.
  - vm_compute. discriminate.
  - exists c. split; [exact E | apply H].
Defined.

(** On the main network neither the factor nor the product wraps when the last two blocks
    are less than 97 days apart. *)
Lemma main_no_wrap v2 bits d :
  decode bits <= le_combine (ProofOfStakeLimit CMainParams v2) -> d < 97 * 24 * 3600 ->
  let factor := (intervals CMainParams v2 - 1) * nTargetSpacing CMainParams + 2 * used_spacing CMainParams v2 d in
  factor < 2 ^ 32 /\ decode bits * factor < 2 ^ 256.
Proof.
  intros Hb Hd factor. pose proof (decode_nonneg bits) as D0.
  assert (Hl : le_combine (ProofOfStakeLimit CMainParams v2) < 2 ^ 232) by (destruct v2; vm_compute; reflexivity).
  assert (Hi : 0 <= (intervals CMainParams v2 - 1) * nTargetSpacing CMainParams <= 2340) by (destruct v2; vm_compute; split; discriminate).
  assert (Hu : 0 <= used_spacing CMainParams v2 d < 97 * 24 * 3600).
  { unfold used_spacing. change (nTargetSpacing CMainParams * 10) with 600. cbv zeta.
    destruct (Z.ltb_spec d 0); match goal with |- context [if ?x then _ else _] => destruct x end; lia. }
  assert (Hf : 0 <= factor < 2 ^ 24) by (unfold factor; lia). clearbody factor. split; [lia|].
  apply Z.le_lt_trans with (2 ^ 232 * factor); [apply Z.mul_le_mono_nonneg_r; lia | nia].
Qed.

Lemma pos_retarget_rule_witness :
  GetNextWorkRequired CMainParams false (minute_chain 0x1c00ffff 3002) (Some 3001%nat) =
  Some (compact (decode 0x1c00ffff * (39 * 60 + 2 * 60) / (41 * 60))).
Proof.
  destruct (pos_retarget_rule CMainParams main_params_ok false (minute_chain 0x1c00ffff 3002) 3001 3000
    (minute_block 0x1c00ffff 3001) (minute_block 0x1c00ffff 3000)) as [_ H].
  - apply minute_chain_ok; lia.
  - apply nth_minute_chain_lt. lia.
  - cbn [minute_block nHeight]. lia.
  - reflexivity.
  - apply nth_minute_chain_lt. lia.
  - rewrite H; vm_compute; reflexivity.
Defined.

Lemma dgw_retarget_rule_witness :
  GetNextWorkRequired CMainParams false (minute_chain 0x1e0ffff0 31) (Some 30%nat) =
  Some (compact (decode 0x1e0ffff0 * (23 * 60) / (24 * 60))).
Proof.
  destruct (dgw_retarget_rule CMainParams main_params_ok false (minute_chain 0x1e0ffff0 31) 30 (minute_block 0x1e0ffff0 30))
    as (_ & _ & E).
  - apply minute_chain_ok; lia.
  - reflexivity.
  - reflexivity.
  - cbn [minute_block nHeight]. lia.
  - apply Forall_forall. intros c Hc. vm_compute in Hc. repeat destruct Hc as [<-|Hc]; try contradiction; vm_compute; discriminate.
  - vm_compute. reflexivity.
  - vm_compute. reflexivity.
  - rewrite E. vm_compute. reflexivity.
Defined.
