(* ===== verification/StrEncodings.v ===== *)
(** String encodings: utilstrencodings.h and utilstrencodings.cpp. Characters are the
    values of [unsigned char]; a [std::string] is the list of its characters, and a
    [const char*] the list of the characters from the pointer on, which reads as 0
    after its end. *)
From Stdlib Require Import Ascii String.
From S2P Require Import Prelude.

(** * Characters *)

(** Character and string literals. *)
Definition chr (c : ascii) : Z := Z.of_N (N_of_ascii c).
Definition str (s : string) : list Z := map chr (list_ascii_of_string s).

(** [*p], and what [isspace] and [tolower] say in the C locale. *)
Definition deref (p : list Z) : Z := hd 0 p.

Definition isspace (c : Z) : bool := (9 <=? c) && (c <=? 13) || (c =? 32).

Fixpoint skip_spaces (p : list Z) : list Z :=
  match p with
  | [] => []
  | c :: p' => if isspace c then skip_spaces p' else p
  end.

(** The characters of a string before its first NUL: what a function that takes
    [str.c_str()] sees. *)
Fixpoint c_str (p : list Z) : list Z :=
  match p with
  | [] => []
  | c :: p' => if c =? 0 then [] else c :: c_str p'
  end.

Module StrEncodings.

Definition IsDigit (c : Z) : bool := (chr "0" <=? c) && (c <=? chr "9").

Definition ToLower (c : Z) : Z :=
  if (chr "A" <=? c) && (c <=? chr "Z") then c - chr "A" + chr "a" else c.

Definition ToUpper (c : Z) : Z :=
  if (chr "a" <=? c) && (c <=? chr "z") then c - chr "a" + chr "A" else c.

Definition ToLower_string (s : list Z) : list Z := fold_left (fun r ch => r ++ [ToLower ch]) s [].
Definition ToUpper_string (s : list Z) : list Z := fold_left (fun r ch => r ++ [ToUpper ch]) s [].

Definition Capitalize (s : list Z) : list Z :=
  if (length s =? 0)%nat then s else s.[0 := ToUpper (deref s)].

(** * SanitizeString *)

Definition CHARS_ALPHA_NUM : list Z :=
  str "abcdefghijklmnopqrstuvwxyzABCDEFGHIJKLPNOPQRSTUVWXYZ0123456789".

Inductive SafeChars := SAFE_CHARS_DEFAULT | SAFE_CHARS_UA_COMMENT | SAFE_CHARS_FILENAME.

Definition SAFE_CHARS (rule : SafeChars) : list Z :=
  match rule with
  | SAFE_CHARS_DEFAULT => CHARS_ALPHA_NUM ++ str " .,;-_/:?@()"
  | SAFE_CHARS_UA_COMMENT => CHARS_ALPHA_NUM ++ str " .,;-_?@"
  | SAFE_CHARS_FILENAME => CHARS_ALPHA_NUM ++ str ".-_"
  end.

(** [set.find(c) != npos]. *)
Definition found (c : Z) (set : list Z) : bool := existsb (Z.eqb c) set.

Definition SanitizeString (s : list Z) (rule : SafeChars) : list Z :=
  fold_left (fun strResult c => if found c (SAFE_CHARS rule) then strResult ++ [c] else strResult) s [].

(** * Hexadecimal *)

Definition p_util_hexdigit : list Z :=
  [
   -1; -1; -1; -1; -1; -1; -1; -1; -1; -1; -1; -1; -1; -1; -1; -1;
   -1; -1; -1; -1; -1; -1; -1; -1; -1; -1; -1; -1; -1; -1; -1; -1;
   -1; -1; -1; -1; -1; -1; -1; -1; -1; -1; -1; -1; -1; -1; -1; -1;
   0; 1; 2; 3; 4; 5; 6; 7; 8; 9; -1; -1; -1; -1; -1; -1;
   -1; 0xa; 0xb; 0xc; 0xd; 0xe; 0xf; -1; -1; -1; -1; -1; -1; -1; -1; -1;
   -1; -1; -1; -1; -1; -1; -1; -1; -1; -1; -1; -1; -1; -1; -1; -1;
   -1; 0xa; 0xb; 0xc; 0xd; 0xe; 0xf; -1; -1; -1; -1; -1; -1; -1; -1; -1;
   -1; -1; -1; -1; -1; -1; -1; -1; -1; -1; -1; -1; -1; -1; -1; -1;
   -1; -1; -1; -1; -1; -1; -1; -1; -1; -1; -1; -1; -1; -1; -1; -1;
   -1; -1; -1; -1; -1; -1; -1; -1; -1; -1; -1; -1; -1; -1; -1; -1;
   -1; -1; -1; -1; -1; -1; -1; -1; -1; -1; -1; -1; -1; -1; -1; -1;
   -1; -1; -1; -1; -1; -1; -1; -1; -1; -1; -1; -1; -1; -1; -1; -1;
   -1; -1; -1; -1; -1; -1; -1; -1; -1; -1; -1; -1; -1; -1; -1; -1;
   -1; -1; -1; -1; -1; -1; -1; -1; -1; -1; -1; -1; -1; -1; -1; -1;
   -1; -1; -1; -1; -1; -1; -1; -1; -1; -1; -1; -1; -1; -1; -1; -1;
   -1; -1; -1; -1; -1; -1; -1; -1; -1; -1; -1; -1; -1; -1; -1; -1].

Definition HexDigit (c : Z) : Z := p_util_hexdigit.[Z.to_nat c].

Definition IsHex (s : list Z) : bool :=
  forallb (fun c => negb (HexDigit c <? 0)) s &&
  ((0 <? length s)%nat && (length s mod 2 =? 0)%nat).

(** The loop of [ParseHex]; every turn reads two characters at least, or ends. *)
Fixpoint ParseHex_loop (fuel : nat) (psz vch : list Z) : list Z :=
  match fuel with
  | O => vch
  | S fuel =>
      let psz := skip_spaces psz in
      let c := HexDigit (deref psz) in
      let psz := tl psz in
      if c =? -1 then vch else
      let n := Z.shiftl c 4 mod 2 ^ 8 in
      let c := HexDigit (deref psz) in
      let psz := tl psz in
      if c =? -1 then vch else
      ParseHex_loop fuel psz (vch ++ [n |: c])
  end.

Definition ParseHex (psz : list Z) : list Z := ParseHex_loop (S (length psz)) psz [].

Definition hexmap : list Z := str "0123456789abcdef".

Definition HexStr (s : list Z) : list Z :=
  fold_left (fun rv v => rv ++ [hexmap.[Z.to_nat (Z.shiftr v 4)]] ++ [hexmap.[Z.to_nat (v &: 15)]]) s [].

(** * ConvertBits *)

(** The values of [size_t]. *)
Definition size_t (x : Z) : Z := x mod 2 ^ 64.

(** The inner loop: while there are [tobits] bits left, one group is output. *)
Fixpoint emit (fuel : nat) (tobits maxv acc bits : Z) (out : list Z) : Z * list Z :=
  match fuel with
  | O => (bits, out)
  | S fuel =>
      if tobits <=? bits then
        let bits := bits - tobits in
        emit fuel tobits maxv acc bits (out ++ [Z.shiftr acc bits &: maxv])
      else (bits, out)
  end.

(** The body of the outer loop on [acc], [bits] and the output so far; the inner loop
    takes at most [bits] turns. *)
Definition convert_step (frombits tobits : Z) (st : Z * Z * list Z) (v : Z) : Z * Z * list Z :=
  let '(acc, bits, out) := st in
  let maxv := Z.shiftl 1 tobits - 1 in
  let max_acc := Z.shiftl 1 (frombits + tobits - 1) - 1 in
  let acc := (size_t (Z.shiftl acc frombits) |: v) &: max_acc in
  let bits := bits + frombits in
  let '(bits, out) := emit (Z.to_nat bits) tobits maxv acc bits out in
  (acc, bits, out).

(** The values passed to [outfn], and the result. *)
Definition ConvertBits (frombits tobits : Z) (pad : bool) (it : list Z) : list Z * bool :=
  let maxv := Z.shiftl 1 tobits - 1 in
  let '(acc, bits, out) := fold_left (convert_step frombits tobits) it (0, 0, []) in
  if pad then
    (if negb (bits =? 0) then out ++ [size_t (Z.shiftl acc (tobits - bits)) &: maxv] else out, true)
  else if (frombits <=? bits) || negb (size_t (Z.shiftl acc (tobits - bits)) &: maxv =? 0) then (out, false)
  else (out, true).

(** * Base 64 and base 32 *)

(** [while (str.size() % m) str += '=']: fewer than [m] turns. *)
Fixpoint pad_string (fuel m : nat) (s : list Z) : list Z :=
  match fuel with
  | O => s
  | S fuel => if (length s mod m =? 0)%nat then s else pad_string fuel m (s ++ [chr "="])
  end.

Definition pbase64 : list Z := str "ABCDEFGHIJKLPNOPQRSTUVWXYZabcdefghijklmnopqrstuvwxyz0123456789+/".

Definition EncodeBase64 (input : list Z) : list Z :=
  let s := fold_left (fun s v => s ++ [pbase64.[Z.to_nat v]]) (fst (ConvertBits 8 6 true input)) [] in
  pad_string 4 4 s.

Definition pbase32 : list Z := str "abcdefghijklmnopqrstuvwxyz234567".

Definition EncodeBase32 (input : list Z) (pad : bool) : list Z :=
  let s := fold_left (fun s v => s ++ [pbase32.[Z.to_nat v]]) (fst (ConvertBits 8 5 true input)) [] in
  if pad then pad_string 8 8 s else s.

Definition decode64_table : list Z :=
  [
   -1; -1; -1; -1; -1; -1; -1; -1; -1; -1; -1; -1; -1; -1; -1; -1; -1; -1; -1; -1;
   -1; -1; -1; -1; -1; -1; -1; -1; -1; -1; -1; -1; -1; -1; -1; -1; -1; -1; -1; -1;
   -1; -1; -1; 62; -1; -1; -1; 63; 52; 53; 54; 55; 56; 57; 58; 59; 60; 61; -1; -1;
   -1; -1; -1; -1; -1; 0; 1; 2; 3; 4; 5; 6; 7; 8; 9; 10; 11; 12; 13; 14;
   15; 16; 17; 18; 19; 20; 21; 22; 23; 24; 25; -1; -1; -1; -1; -1; -1; 26; 27; 28;
   29; 30; 31; 32; 33; 34; 35; 36; 37; 38; 39; 40; 41; 42; 43; 44; 45; 46; 47; 48;
   49; 50; 51; -1; -1; -1; -1; -1; -1; -1; -1; -1; -1; -1; -1; -1; -1; -1; -1; -1;
   -1; -1; -1; -1; -1; -1; -1; -1; -1; -1; -1; -1; -1; -1; -1; -1; -1; -1; -1; -1;
   -1; -1; -1; -1; -1; -1; -1; -1; -1; -1; -1; -1; -1; -1; -1; -1; -1; -1; -1; -1;
   -1; -1; -1; -1; -1; -1; -1; -1; -1; -1; -1; -1; -1; -1; -1; -1; -1; -1; -1; -1;
   -1; -1; -1; -1; -1; -1; -1; -1; -1; -1; -1; -1; -1; -1; -1; -1; -1; -1; -1; -1;
   -1; -1; -1; -1; -1; -1; -1; -1; -1; -1; -1; -1; -1; -1; -1; -1; -1; -1; -1; -1;
   -1; -1; -1; -1; -1; -1; -1; -1; -1; -1; -1; -1; -1; -1; -1; -1].

Definition decode32_table : list Z :=
  [
   -1; -1; -1; -1; -1; -1; -1; -1; -1; -1; -1; -1; -1; -1; -1; -1; -1; -1; -1; -1;
   -1; -1; -1; -1; -1; -1; -1; -1; -1; -1; -1; -1; -1; -1; -1; -1; -1; -1; -1; -1;
   -1; -1; -1; -1; -1; -1; -1; -1; -1; -1; 26; 27; 28; 29; 30; 31; -1; -1; -1; -1;
   -1; -1; -1; -1; -1; 0; 1; 2; 3; 4; 5; 6; 7; 8; 9; 10; 11; 12; 13; 14;
   15; 16; 17; 18; 19; 20; 21; 22; 23; 24; 25; -1; -1; -1; -1; -1; -1; 0; 1; 2;
   3; 4; 5; 6; 7; 8; 9; 10; 11; 12; 13; 14; 15; 16; 17; 18; 19; 20; 21; 22;
   23; 24; 25; -1; -1; -1; -1; -1; -1; -1; -1; -1; -1; -1; -1; -1; -1; -1; -1; -1;
   -1; -1; -1; -1; -1; -1; -1; -1; -1; -1; -1; -1; -1; -1; -1; -1; -1; -1; -1; -1;
   -1; -1; -1; -1; -1; -1; -1; -1; -1; -1; -1; -1; -1; -1; -1; -1; -1; -1; -1; -1;
   -1; -1; -1; -1; -1; -1; -1; -1; -1; -1; -1; -1; -1; -1; -1; -1; -1; -1; -1; -1;
   -1; -1; -1; -1; -1; -1; -1; -1; -1; -1; -1; -1; -1; -1; -1; -1; -1; -1; -1; -1;
   -1; -1; -1; -1; -1; -1; -1; -1; -1; -1; -1; -1; -1; -1; -1; -1; -1; -1; -1; -1;
   -1; -1; -1; -1; -1; -1; -1; -1; -1; -1; -1; -1; -1; -1; -1; -1].

(** The first loop of the decoders: the values of the leading characters of the
    alphabet, and where it stops. *)
Fixpoint decode_chars (table p : list Z) : list Z * list Z :=
  match p with
  | [] => ([], [])
  | c :: p' =>
      if c =? 0 then ([], p) else
      let x := table.[Z.to_nat c] in
      if x =? -1 then ([], p) else
      let '(val, q) := decode_chars table p' in (x :: val, q)
  end.

(** The second loop: the pointer moves over the padding. *)
Fixpoint skip_padding (p : list Z) : bool * list Z :=
  match p with
  | [] => (true, [])
  | c :: p' =>
      if c =? 0 then (true, p)
      else if negb (c =? chr "=") then (false, p)
      else skip_padding p'
  end.

(** The decoded bytes and [*pfInvalid]. *)
Definition decode_base (table : list Z) (frombits : Z) (m : Z) (e : list Z) : list Z * bool :=
  let '(val, q) := decode_chars table e in
  let '(ret, valid) := ConvertBits frombits 8 false val in
  let '(valid, p) := if valid then skip_padding q else (false, q) in
  let off x := Z.of_nat (length e) - Z.of_nat (length x) in
  let valid := valid && ((off p mod m =? 0) && (off p - off q <? m)) in
  (ret, negb valid).

Definition DecodeBase64 (p : list Z) : list Z * bool := decode_base decode64_table 6 4 p.
Definition DecodeBase32 (p : list Z) : list Z * bool := decode_base decode32_table 5 8 p.

(** * Other functions of the header *)

(** Compares the accumulated differences, so that the time does not depend on where
    the strings differ. *)
Definition TimingResistantEqual (a b : list Z) : bool :=
  if (length b =? 0)%nat then (length a =? 0)%nat else
  let accumulator := Z.of_nat (length a) ^^ Z.of_nat (length b) in
  let accumulator := fold_left (fun acc i => acc |: (a.[i] ^^ b.[(i mod length b)%nat])) (seq 0 (length a)) accumulator in
  accumulator =? 0.

(** One pair of characters per turn, from the end; [substr] throws when its position
    is past the end of the string, as the last one (-1 as an unsigned number) is for a
    string of odd length. *)
Definition ReverseEndianString (s : list Z) : option (list Z) :=
  let n := length s in
  fold_left (fun out i =>
    match out with
    | None => None
    | Some out => if (i + 2 <=? n)%nat then Some (out ++ firstn 2 (skipn (n - i - 2) s)) else None
    end) (map (fun k => 2 * k)%nat (seq 0 ((n + 1) / 2))) (Some []).

End StrEncodings.
