(* ===== verification/BaseBits.v ===== *)
(** [ConvertBits] on integers: a list of groups of [k] bits stands for the integer with
    these digits in base [2^k], most significant first. *)
From Stdlib Require Import ZifyNat.
From S2P Require Import Prelude StrEncodings.
Import StrEncodings.

(** * Digits *)

Definition be_value (k : Z) (l : list Z) : Z := fold_left (fun v x => v * 2 ^ k + x) l 0.

Fixpoint be_digits (k : Z) (n : nat) (v : Z) : list Z :=
  match n with
  | O => []
  | S n => be_digits k n (v / 2 ^ k) ++ [v mod 2 ^ k]
  end.

(** The groups of [k] bits of a byte string, the last one filled with zero bits. *)
Definition group_count (k : Z) (l : list Z) : Z := (8 * Z.of_nat (length l) + k - 1) / k.

Definition groups (k : Z) (l : list Z) : list Z :=
  let n := group_count k l in
  be_digits k (Z.to_nat n) (be_value 8 l * 2 ^ (k * n - 8 * Z.of_nat (length l))).

Lemma be_value_snoc k l x : be_value k (l ++ [x]) = be_value k l * 2 ^ k + x.
Proof. unfold be_value. now rewrite fold_left_app. Qed.

Lemma length_be_digits k n v : length (be_digits k n v) = n.
Proof. revert v; induction n; intros; cbn; auto. rewrite length_app, IHn. cbn. lia. Qed.

Section Digits.
Context (k : Z) (Hk : 0 < k).

Lemma be_value_bound l : Forall (word k) l -> 0 <= be_value k l < 2 ^ (k * Z.of_nat (length l)).
Proof.
  induction l as [|x l IH] using rev_ind; intros H; [cbn; rewrite Z.mul_0_r; lia|].
  apply Forall_app in H as [Hl Hx]. apply Forall_inv in Hx. specialize (IH Hl).
  rewrite be_value_snoc, length_app. cbn [length]. unfold word in Hx.
  replace (k * Z.of_nat (length l + 1)) with (k * Z.of_nat (length l) + k) by lia.
  rewrite Z.pow_add_r by lia. nia.
Qed.

Lemma be_digits_value l : Forall (word k) l -> be_digits k (length l) (be_value k l) = l.
Proof.
  induction l as [|x l IH] using rev_ind; intros H; [reflexivity|].
  apply Forall_app in H as [Hl Hx]. apply Forall_inv in Hx.
  rewrite length_app, Nat.add_1_r. cbn [be_digits]. rewrite be_value_snoc.
  pose proof (Z.pow_pos_nonneg 2 k ltac:(lia) ltac:(lia)).
  rewrite Z.div_add_l, (Z.div_small x), Z.add_0_r, IH by (assumption || lia).
  rewrite Z.add_comm, Z.mod_add, Z.mod_small by (assumption || lia). reflexivity.
Qed.

Lemma be_value_inj l l' :
  Forall (word k) l -> Forall (word k) l' -> length l = length l' ->
  be_value k l = be_value k l' -> l = l'.
Proof.
  intros Hl Hl' E V. now rewrite <- (be_digits_value l Hl), <- (be_digits_value l' Hl'), E, V.
Qed.

Lemma be_value_digits n v : 0 <= v < 2 ^ (k * Z.of_nat n) -> be_value k (be_digits k n v) = v.
Proof.
  revert v; induction n as [|n IH]; intros v Hv; [rewrite Z.mul_0_r in Hv; cbn in *; lia|].
  cbn [be_digits]. rewrite be_value_snoc. pose proof (Z.pow_pos_nonneg 2 k ltac:(lia) ltac:(lia)).
  rewrite IH; [pose proof (Z.div_mod v (2 ^ k) ltac:(lia)); lia|]. split; [apply Z.div_pos; lia|].
  apply Z.div_lt_upper_bound; [lia|]. rewrite <- Z.pow_add_r by lia. replace (k + k * Z.of_nat n) with (k * Z.of_nat (S n)) by lia. lia.
Qed.

Lemma words_be_digits n v : Forall (word k) (be_digits k n v).
Proof.
  revert v; induction n; intros v; cbn [be_digits]; [constructor|].
  apply Forall_app; split; [apply IHn|]. constructor; [apply word_mod; lia | constructor].
Qed.
End Digits.

(** * The loops *)

Section Convert.
Context (f t : Z) (Hf : 0 < f) (Ht : 0 < t) (Hft : f + t <= 64).

Let maxv_ones : Z.shiftl 1 t - 1 = Z.ones t.
Proof. rewrite Z.ones_equiv, Z.shiftl_mul_pow2 by lia. lia. Qed.

Let max_acc_ones : Z.shiftl 1 (f + t - 1) - 1 = Z.ones (f + t - 1).
Proof. rewrite Z.ones_equiv, Z.shiftl_mul_pow2 by lia. lia. Qed.

(** The part of an integer above bit [b], extended by the next [t] bits. *)
Lemma next_group V b :
  0 <= b -> V / 2 ^ b = V / 2 ^ (b + t) * 2 ^ t + (V / 2 ^ b) mod 2 ^ t.
Proof.
  intros Hb. rewrite Z.pow_add_r, <- Z.div_div by (try apply Z.pow_nonzero; lia).
  rewrite Z.mul_comm. apply Z.div_mod, Z.pow_nonzero; lia.
Qed.

Lemma group_of_acc V b :
  0 <= b < f -> Z.shiftr (V mod 2 ^ (f + t - 1)) b &: Z.ones t = (V / 2 ^ b) mod 2 ^ t.
Proof.
  intros Hb. rewrite Z.land_ones by lia. apply Z.bits_inj'; intros i Hi.
  rewrite !testbit_mod, Z.shiftr_spec, testbit_mod, <- Z.shiftr_div_pow2, Z.shiftr_spec by lia.
  destruct (Z.ltb_spec i t), (Z.ltb_spec (i + b) (f + t - 1)); lia || reflexivity.
Qed.

(** The values output so far are the digits of the part of [V] above bit [bits]. *)
Definition emitted (V bits : Z) (out : list Z) : Prop :=
  be_value t out = V / 2 ^ bits /\ Forall (word t) out.

Lemma emit_spec fuel V bits out :
  0 <= bits <= Z.of_nat fuel -> bits < f + t -> emitted V bits out ->
  let '(bits', out') := emit fuel t (Z.ones t) (V mod 2 ^ (f + t - 1)) bits out in
  0 <= bits' < t /\ t * Z.of_nat (length out') + bits' = t * Z.of_nat (length out) + bits /\
  emitted V bits' out'.
Proof.
  revert bits out; induction fuel as [|fuel IH]; intros bits out Hb Hlt [Hv Hw]; cbn [emit].
  - repeat split; auto; lia.
  - destruct (Z.leb_spec t bits) as [Hle|]; [|repeat split; auto; lia].
    specialize (IH (bits - t) (out ++ [Z.shiftr (V mod 2 ^ (f + t - 1)) (bits - t) &: Z.ones t])).
    destruct (emit _ _ _ _ _ _) as [bits' out']. rewrite length_app in IH. cbn [length] in IH.
    destruct IH as (H1 & H2 & H3); [lia | lia | | repeat split; try apply H3; lia].
    rewrite group_of_acc by lia. split.
    + pose proof (next_group V (bits - t) ltac:(lia)) as N. rewrite Z.sub_add in N. rewrite be_value_snoc, Hv. now symmetry.
    + apply Forall_app; split; [assumption|]. constructor; [apply word_mod; lia | constructor].
Qed.

(** The state of the conversion after the groups [p]. *)
Definition converted (p : list Z) (st : Z * Z * list Z) : Prop :=
  let '(acc, bits, out) := st in
  acc = be_value f p mod 2 ^ (f + t - 1) /\ 0 <= bits < t /\
  t * Z.of_nat (length out) + bits = f * Z.of_nat (length p) /\ emitted (be_value f p) bits out.

Lemma convert_step_spec p st v :
  converted p st -> word f v -> converted (p ++ [v]) (convert_step f t st v).
Proof.
  destruct st as [[acc bits] out]. intros (Ea & Hb & Hl & Hv & Hw) Hx.
  unfold convert_step. rewrite maxv_ones, max_acc_ones.
  assert (E : (size_t (Z.shiftl acc f) |: v) &: Z.ones (f + t - 1) = be_value f (p ++ [v]) mod 2 ^ (f + t - 1)).
  { rewrite Z.land_ones, be_value_snoc by lia. rewrite (Z.add_comm (_ * _) v), add_shiftl_lor by (assumption || lia).
    subst acc. apply Z.bits_inj'; intros i Hi. unfold size_t.
    rewrite !testbit_mod, !Z.lor_spec, testbit_mod, !Z.shiftl_spec by lia.
    destruct (Z.lt_ge_cases i f).
    - rewrite !(Z.testbit_neg_r _ (i - f)), !Bool.orb_false_r, Bool.andb_false_r, Bool.orb_false_l by lia. reflexivity.
    - rewrite testbit_mod by lia. rewrite (Bool.orb_comm (Z.testbit v i)).
      destruct (Z.ltb_spec i (f + t - 1)), (Z.ltb_spec i 64), (Z.ltb_spec (i - f) (f + t - 1)); lia || reflexivity. }
  rewrite E. clear E.
  pose proof (emit_spec (Z.to_nat (bits + f)) (be_value f (p ++ [v])) (bits + f) out ltac:(lia) ltac:(lia)) as H.
  destruct (emit _ _ _ _ _ _) as [bits' out'].
  unfold converted. rewrite length_app. cbn [length].
  destruct H as (H1 & H2 & H3); [|repeat split; try apply H3; lia].
  split; [|assumption]. rewrite Hv, be_value_snoc. rewrite (Z.add_comm bits f), Z.pow_add_r by lia.
  rewrite <- Z.div_div, Z.div_add_l, (Z.div_small v), Z.add_0_r by (try apply Z.pow_nonzero; try apply Z.pow_pos_nonneg; assumption || lia).
  reflexivity.
Qed.

Lemma convert_loop_spec l :
  Forall (word f) l -> converted l (fold_left (convert_step f t) l (0, 0, [])).
Proof.
  induction l as [|x l IH] using rev_ind; intros H.
  - cbn. rewrite Z.mul_0_r. repeat split; try lia. constructor.
  - apply Forall_app in H as [Hl Hx]. rewrite fold_left_app. apply convert_step_spec; [now apply IH | now apply Forall_inv in Hx].
Qed.

(** What is left in the accumulator, moved to the top of a group. *)
Lemma rest_of_acc V bits :
  0 <= bits < t ->
  size_t (Z.shiftl (V mod 2 ^ (f + t - 1)) (t - bits)) &: Z.ones t = V mod 2 ^ bits * 2 ^ (t - bits).
Proof.
  intros Hb. rewrite Z.land_ones by lia. unfold size_t. rewrite mod_mod_pow2 by lia.
  rewrite Z.shiftl_mul_pow2 by lia. replace (2 ^ t) with (2 ^ bits * 2 ^ (t - bits)) by (rewrite <- Z.pow_add_r by lia; f_equal; lia).
  rewrite Z.mul_mod_distr_r by (apply Z.pow_nonzero; lia). rewrite mod_mod_pow2 by lia. reflexivity.
Qed.

(** With padding: the groups of [t] bits of the input followed by fewer than [t] zero
    bits. *)
Lemma ConvertBits_pad l :
  Forall (word f) l ->
  let out := fst (ConvertBits f t true l) in
  let z := t * Z.of_nat (length out) - f * Z.of_nat (length l) in
  0 <= z < t /\ be_value t out = be_value f l * 2 ^ z /\ Forall (word t) out.
Proof.
  intros Hl. unfold ConvertBits. rewrite maxv_ones. pose proof (convert_loop_spec l Hl) as H.
  destruct (fold_left _ _ _) as [[acc bits] out]. destruct H as (-> & Hb & Hn & Hv & Hw).
  destruct (Z.eqb_spec bits 0) as [->|Hnz]; cbn [negb fst].
  - rewrite Z.pow_0_r, Z.div_1_r in Hv. repeat split; try lia; [|assumption].
    replace (_ - _) with 0 by lia. lia.
  - rewrite rest_of_acc, length_app by lia. cbn [length].
    replace (t * Z.of_nat (length out + 1) - f * Z.of_nat (length l)) with (t - bits) by lia.
    repeat split; [lia | lia | |].
    + rewrite be_value_snoc, Hv. pose proof (Z.div_mod (be_value f l) (2 ^ bits) ltac:(apply Z.pow_nonzero; lia)) as D.
      replace (2 ^ t) with (2 ^ bits * 2 ^ (t - bits)) by (rewrite <- Z.pow_add_r by lia; f_equal; lia).
      rewrite D at 3. ring.
    + apply Forall_app; split; [assumption|]. constructor; [|constructor].
      pose proof (Z.mod_pos_bound (be_value f l) (2 ^ bits) ltac:(apply Z.pow_pos_nonneg; lia)).
      split; [nia|]. replace (2 ^ t) with (2 ^ bits * 2 ^ (t - bits)) by (rewrite <- Z.pow_add_r by lia; f_equal; lia).
      apply Z.mul_lt_mono_pos_r; [apply Z.pow_pos_nonneg; lia | lia].
Qed.

(** Without padding: the whole groups of [t] bits, and success exactly when what is
    left is shorter than an input group and all zero. *)
Lemma ConvertBits_nopad l :
  Forall (word f) l ->
  exists out bits,
    0 <= bits < t /\ t * Z.of_nat (length out) + bits = f * Z.of_nat (length l) /\
    be_value t out = be_value f l / 2 ^ bits /\ Forall (word t) out /\
    ConvertBits f t false l = (out, (bits <? f) && (be_value f l mod 2 ^ bits =? 0)).
Proof.
  intros Hl. unfold ConvertBits. rewrite maxv_ones. pose proof (convert_loop_spec l Hl) as H.
  destruct (fold_left _ _ _) as [[acc bits] out]. destruct H as (-> & Hb & Hn & Hv & Hw).
  exists out, bits. repeat split; try assumption; try lia. rewrite rest_of_acc by lia.
  pose proof (Z.pow_pos_nonneg 2 (t - bits) ltac:(lia) ltac:(lia)).
  replace (be_value f l mod 2 ^ bits * 2 ^ (t - bits) =? 0) with (be_value f l mod 2 ^ bits =? 0) by nia.
  rewrite Z.leb_antisym. now destruct (bits <? f), (be_value f l mod 2 ^ bits =? 0).
Qed.
End Convert.

(** * Both directions *)

Lemma quotient_unique f a b x y :
  0 <= x < f -> 0 <= y < f -> f * Z.of_nat a + x = f * Z.of_nat b + y -> a = b /\ x = y.
Proof.
  intros Hx Hy E. destruct (Z.div_mod_unique f (Z.of_nat a) (Z.of_nat b) x y) as [H1 H2]; lia.
Qed.

Section Both.
Context (f t : Z) (Hf : 0 < f) (Ht : 0 < t) (Hft : f + t <= 64).

(** Groups filled up with zero bits convert back, when they are not longer than the
    groups they come from. *)
Lemma ConvertBits_back l :
  t <= f -> Forall (word f) l ->
  ConvertBits t f false (fst (ConvertBits f t true l)) = (l, true).
Proof.
  intros Htf Hl. destruct (ConvertBits_pad f t Hf Ht Hft l Hl) as (Hz & Hv & Hw).
  destruct (ConvertBits_nopad t f Ht Hf ltac:(lia) _ Hw) as (out & bits & Hb & Hn & Ho & Wo & ->).
  set (z := t * _ - _) in *. pose proof (Z.pow_pos_nonneg 2 z ltac:(lia) ltac:(lia)).
  destruct (quotient_unique f (length out) (length l) bits z) as [E ->]; [lia | lia | unfold z; lia |].
  rewrite Hv, Z.mod_mul, Z.div_mul in * by lia. destruct (Z.ltb_spec z t); [|lia]. cbn [andb].
  f_equal. now apply (be_value_inj f Hf).
Qed.

(** Only such groups convert back. *)
Lemma ConvertBits_canonical l r :
  Forall (word t) l -> ConvertBits t f false l = (r, true) ->
  Forall (word f) r /\ fst (ConvertBits f t true r) = l.
Proof.
  intros Hl E. destruct (ConvertBits_nopad t f Ht Hf ltac:(lia) l Hl) as (out & bits & Hb & Hn & Ho & Wo & E').
  rewrite E' in E. injection E as -> Hok. apply andb_prop in Hok as [Hlt Hm]. apply Z.ltb_lt in Hlt. apply Z.eqb_eq in Hm.
  split; [assumption|]. destruct (ConvertBits_pad f t Hf Ht Hft r Wo) as (Hz & Hv & Hw).
  set (out := fst _) in *. set (z := t * _ - _) in *.
  destruct (quotient_unique t (length l) (length out) (- bits + t - 1) (- z + t - 1)) as [E2 E3]; [lia | lia | unfold z; lia |].
  assert (bits = z) as -> by lia.
  apply (be_value_inj t Ht); try assumption; [now symmetry|]. rewrite Hv, Ho.
  pose proof (Z.div_mod (be_value t l) (2 ^ z) ltac:(apply Z.pow_nonzero; lia)). lia.
Qed.
End Both.

(** [ConvertBits<8, k, true>] computes the groups. *)
Lemma ConvertBits_groups k l : 0 < k <= 56 -> bytes l -> fst (ConvertBits 8 k true l) = groups k l.
Proof.
  intros Hk Hl. destruct (ConvertBits_pad 8 k ltac:(lia) ltac:(lia) ltac:(lia) l Hl) as (Hz & Hv & Hw).
  set (out := fst _) in *. unfold groups.
  assert (group_count k l = Z.of_nat (length out)) as ->.
  { unfold group_count. symmetry. apply Z.div_unique with (8 * Z.of_nat (length l) + k - 1 - k * Z.of_nat (length out)); lia. }
  rewrite Nat2Z.id, <- Hv. symmetry. apply be_digits_value; [lia | assumption].
Qed.

Lemma words_groups k (Hk : 0 < k) l : Forall (word k) (groups k l).
Proof. now apply words_be_digits. Qed.
