(* ===== verification/BaseCodec.v ===== *)
(** The encoders and decoders of base 32 and base 64 against the alphabets of RFC 4648,
    and [SanitizeString]. *)
From Stdlib Require Import Ascii String ZifyNat.
From S2P Require Import Prelude StrEncodings BaseBits.
Import StrEncodings.

(** * Generic lemmas on the loops *)

Lemma fold_left_snoc {A B} (f : A -> B) l acc :
  fold_left (fun r x => r ++ [f x]) l acc = acc ++ map f l.
Proof.
  revert acc; induction l as [|x l IH]; intros acc; cbn [fold_left map]; [now rewrite app_nil_r|].
  now rewrite IH, <- app_assoc.
Qed.

Lemma fold_left_filter {A} (f : A -> bool) l acc :
  fold_left (fun r x => if f x then r ++ [x] else r) l acc = acc ++ filter f l.
Proof.
  revert acc; induction l as [|x l IH]; intros acc; cbn [fold_left filter]; [now rewrite app_nil_r|].
  rewrite IH. destruct (f x); [now rewrite <- app_assoc | reflexivity].
Qed.

Lemma pad_string_spec m fuel s :
  (0 < m)%nat -> ((m - length s mod m) mod m <= fuel)%nat ->
  pad_string fuel m s = s ++ repeat (chr "=") ((m - length s mod m) mod m).
Proof.
  intros Hm. revert s; induction fuel as [|fuel IH]; intros s Hf; cbn [pad_string].
  - replace ((m - length s mod m) mod m)%nat with 0%nat by lia. cbn. now rewrite app_nil_r.
  - pose proof (Nat.mod_upper_bound (length s) m ltac:(lia)).
    destruct (Nat.eqb_spec (length s mod m) 0) as [E|E].
    + rewrite E, Nat.sub_0_r, Nat.Div0.mod_same. cbn. now rewrite app_nil_r.
    + assert (E' : ((m - length (s ++ [chr "="]) mod m) mod m = (m - length s mod m) mod m - 1)%nat).
      { rewrite length_app. cbn [length]. rewrite (Nat.mod_small (m - length s mod m)) by lia.
        rewrite <- Nat.Div0.add_mod_idemp_l. destruct (Nat.eq_dec (length s mod m + 1) m) as [Em|].
        - rewrite Em, Nat.Div0.mod_same, Nat.sub_0_r, Nat.Div0.mod_same. lia.
        - rewrite (Nat.mod_small (length s mod m + 1)), Nat.mod_small by lia. lia. }
      rewrite (Nat.mod_small (m - length s mod m)) in * by lia.
      rewrite IH by (rewrite E'; lia). rewrite E', <- app_assoc. f_equal.
      now replace (m - length s mod m)%nat with (S (m - length s mod m - 1)) at 2 by lia.
Qed.

(** * Alphabets *)

(** The text of a byte string: a character for every group of [k] bits, then [=] up to
    a multiple of [m] characters. *)
Definition padding (m n : nat) : list Z := repeat (chr "=") ((m - n mod m) mod m).

Definition base_text (alphabet : list Z) (k : Z) (m : nat) (l : list Z) : list Z :=
  let s := map (fun v => alphabet.[Z.to_nat v]) (groups k l) in s ++ padding m (length s).

Definition rfc4648_base64 : list Z := str "ABCDEFGHIJKLMNOPQRSTUVWXYZabcdefghijklmnopqrstuvwxyz0123456789+/".
Definition rfc4648_base32 : list Z := str "abcdefghijklmnopqrstuvwxyz234567".

Lemma EncodeBase64_text l : bytes l -> EncodeBase64 l = base_text pbase64 6 4 l.
Proof.
  intros Hl. unfold EncodeBase64. rewrite ConvertBits_groups, fold_left_snoc by (assumption || lia). cbn [app].
  apply pad_string_spec; [lia | apply Nat.lt_le_incl, Nat.mod_upper_bound; lia].
Qed.

Lemma EncodeBase32_text l :
  bytes l -> EncodeBase32 l true = base_text pbase32 5 8 l /\
             EncodeBase32 l false = map (fun v => pbase32.[Z.to_nat v]) (groups 5 l).
Proof.
  intros Hl. unfold EncodeBase32. rewrite ConvertBits_groups, fold_left_snoc by (assumption || lia). cbn [app].
  split; [|reflexivity]. apply pad_string_spec; [lia | apply Nat.lt_le_incl, Nat.mod_upper_bound; lia].
Qed.

(** * Decoding *)

Section Decoder.
Context (alphabet table : list Z) (k : Z) (m : nat) (norm : Z -> Z).
Context (Hk : 0 < k < 8) (Hm : (0 < m)%nat).

(** What relates an alphabet and a table: [decodes c] for the characters of the
    table, of which [norm c] is the one of the alphabet. *)
Definition decodes (c : Z) : Prop := 0 < c < 256 /\ table.[Z.to_nat c] <> -1.

Context (T_word : forall c, decodes c -> word k table.[Z.to_nat c])
        (T_norm : forall c, decodes c -> alphabet.[Z.to_nat table.[Z.to_nat c]] = norm c)
        (T_alpha : forall v, word k v -> decodes alphabet.[Z.to_nat v] /\ table.[Z.to_nat alphabet.[Z.to_nat v]] = v)
        (T_pad : table.[Z.to_nat (chr "=")] = -1)
        (N_pad : norm (chr "=") = chr "=")
        (N_back : forall c, norm c = chr "=" -> c = chr "=")
        (N_dec : forall c, 0 < c < 256 -> decodes (norm c) -> decodes c).

(** The first loop splits the string after the last character it can decode. *)
Lemma decode_chars_spec s :
  bytes s ->
  let '(val, q) := decode_chars table s in
  exists p, s = p ++ q /\ Forall decodes p /\ val = map (fun c => table.[Z.to_nat c]) p /\
            (deref q = 0 \/ (deref q <> 0 /\ ~ decodes (deref q))).
Proof.
  induction 1 as [|c s Hc Hs IH]; cbn [decode_chars].
  - exists []. repeat split; auto.
  - destruct (Z.eqb_spec c 0) as [->|Hc0]; [exists []; repeat split; auto|].
    destruct (Z.eqb_spec table.[Z.to_nat c] (-1)) as [E|E].
    + exists []. repeat split; auto. right. split; [assumption|]. intros [_ H]. now apply H.
    + destruct (decode_chars table s) as [val q]. destruct IH as (p & -> & Hp & -> & Hq).
      exists (c :: p). repeat split; auto. constructor; [|assumption]. unfold word in Hc. split; [lia | assumption].
Qed.

(** The second loop accepts when only padding follows. *)
Lemma skip_padding_spec q :
  let '(ok, p) := skip_padding q in
  exists n, q = repeat (chr "=") n ++ p /\ ok = (deref p =? 0) /\
            c_str q = repeat (chr "=") n ++ c_str p /\ deref p <> chr "=".
Proof.
  induction q as [|c q IH]; cbn [skip_padding].
  - exists 0%nat. repeat split; auto. discriminate.
  - destruct (Z.eqb_spec c 0) as [->|Hc0]; [exists 0%nat; repeat split; auto; discriminate|].
    destruct (Z.eqb_spec c (chr "=")) as [->|Hne]; cbn [negb].
    + destruct (skip_padding q) as [ok p]. destruct IH as (n & -> & Hok & Hc & Hp). exists (S n).
      repeat split; auto. cbn [c_str repeat app]. rewrite Hc. reflexivity.
    + exists 0%nat. repeat split; auto. cbn. symmetry. now apply Z.eqb_neq.
Qed.

Lemma c_str_app p q : Forall (fun c => c <> 0) p -> c_str (p ++ q) = p ++ c_str q.
Proof.
  induction 1 as [|c p Hc Hp IH]; [reflexivity|]. cbn [app c_str]. rewrite IH.
  destruct (Z.eqb_spec c 0); [contradiction | reflexivity].
Qed.

Lemma decodes_nonzero p : Forall decodes p -> Forall (fun c => c <> 0) p.
Proof. apply Forall_impl. intros c [H _]. lia. Qed.

(** How a text splits into characters of the alphabet and a rest is determined. *)
Definition stops (x : list Z) : Prop := match x with [] => True | c :: _ => ~ decodes c end.

Lemma split_unique p p' x x' :
  Forall decodes p -> Forall decodes p' -> stops x -> stops x' -> p ++ x = p' ++ x' -> p = p' /\ x = x'.
Proof.
  intros Hp. revert p'; induction Hp as [|c p Hc Hp IH]; intros p' Hp' Hx Hx' E.
  - destruct Hp' as [|c' p' Hc' Hp']; [auto|]. cbn in E. subst x. contradiction.
  - destruct Hp' as [|c' p' Hc' Hp']; cbn in E; [subst x'; contradiction|].
    injection E as -> E. apply IH in E as [-> ->]; auto.
Qed.

Lemma stops_padding n : stops (repeat (chr "=") n).
Proof. destruct n; cbn; [trivial|]. intros [_ H]. now apply H. Qed.

Lemma stops_norm q : bytes q -> (deref q = 0 \/ deref q <> 0 /\ ~ decodes (deref q)) -> stops (map norm (c_str q)).
Proof.
  intros Hb [H|[H Hd]]; destruct q as [|c q]; cbn in H |- *; trivial.
  - now rewrite H.
  - cbn in Hd. destruct (Z.eqb_spec c 0); [contradiction|]. cbn. intros Hn. apply Hd, N_dec; [|assumption].
    apply Forall_inv in Hb. unfold word in Hb. lia.
Qed.

Lemma norm_padding_inv x n : map norm x = repeat (chr "=") n -> x = repeat (chr "=") n.
Proof.
  revert n; induction x as [|c x IH]; intros [|n]; cbn; intros E; try discriminate; [reflexivity|].
  injection E as Ec E. now rewrite (N_back c Ec), (IH n E).
Qed.

Let enc (l : list Z) : list Z := map (fun v => alphabet.[Z.to_nat v]) (groups k l).
Let dec (p : list Z) : list Z := map (fun c => table.[Z.to_nat c]) p.

Lemma decodes_enc l : Forall decodes (enc l).
Proof.
  unfold enc. pose proof (words_groups k ltac:(lia) l) as H. induction H as [|v g Hv _ IH]; constructor; [|assumption].
  now apply T_alpha.
Qed.

Lemma dec_enc l : dec (enc l) = groups k l.
Proof.
  unfold dec, enc. rewrite map_map. rewrite <- (map_id (groups k l)) at 2. apply map_ext_in.
  intros v Hv. apply T_alpha. pose proof (words_groups k ltac:(lia) l) as H. rewrite Forall_forall in H. auto.
Qed.

Lemma words_dec p : Forall decodes p -> Forall (word k) (dec p).
Proof. intros H. unfold dec. induction H; constructor; auto. Qed.

Lemma map_norm_decodes p : Forall decodes p -> map norm p = map (fun v => alphabet.[Z.to_nat v]) (dec p).
Proof. intros H. unfold dec. rewrite map_map. induction H as [|c p Hc _ IH]; cbn [map]; [reflexivity|]. now rewrite IH, T_norm. Qed.

Lemma map_norm_pad n : map norm (repeat (chr "=") n) = repeat (chr "=") n.
Proof. rewrite map_repeat. now rewrite N_pad. Qed.

(** The padding that completes [n] characters to a multiple of [m]. *)
Lemma padding_unique n j : (j < m)%nat -> ((n + j) mod m = 0)%nat -> j = ((m - n mod m) mod m)%nat.
Proof.
  intros Hj H. pose proof (Nat.mod_upper_bound n m ltac:(lia)) as Hn.
  rewrite <- Nat.Div0.add_mod_idemp_l in H.
  destruct (Nat.eq_dec (n mod m) 0) as [E|E].
  - rewrite E, Nat.sub_0_r, Nat.Div0.mod_same. rewrite E, Nat.mod_small in H; lia.
  - rewrite (Nat.mod_small (m - _)) by lia. apply Nat.Div0.mod_divides in H as [c H].
    destruct c as [|[|c]]; nia.
Qed.

Lemma padding_completes n : ((n + (m - n mod m) mod m) mod m = 0)%nat.
Proof.
  pose proof (Nat.mod_upper_bound n m ltac:(lia)) as Hn. rewrite Nat.Div0.add_mod_idemp_r, <- Nat.Div0.add_mod_idemp_l.
  replace (n mod m + (m - n mod m))%nat with m by lia. apply Nat.Div0.mod_same.
Qed.

(** The lengths that the decoder accepts. *)
Lemma offsets_ok (e p q r : list Z) n :
  e = p ++ q -> q = repeat (chr "=") n ++ r ->
  let off x := Z.of_nat (length e) - Z.of_nat (length x) in
  (off r mod Z.of_nat m =? 0) && (off r - off q <? Z.of_nat m) = ((length p + n) mod m =? 0)%nat && (n <? m)%nat.
Proof.
  intros -> -> off. unfold off. rewrite !length_app, repeat_length.
  replace (Z.of_nat (length p + (n + length r)) - Z.of_nat (length r)) with (Z.of_nat (length p + n)) by lia.
  rewrite <- Nat2Z.inj_mod. apply Bool.eq_true_iff_eq. rewrite !Bool.andb_true_iff, !Z.eqb_eq, !Nat.eqb_eq, Z.ltb_lt, Nat.ltb_lt. lia.
Qed.

Lemma c_str_nil p : deref p = 0 -> c_str p = [].
Proof. destruct p as [|c p]; [reflexivity|]. cbn. now intros ->. Qed.

Lemma decode_base_sound s l :
  bytes s -> decode_base table k (Z.of_nat m) s = (l, false) ->
  bytes l /\ map norm (c_str s) = base_text alphabet k m l.
Proof.
  intros Hs. unfold decode_base. pose proof (decode_chars_spec s Hs) as D.
  destruct (decode_chars table s) as [val q]. destruct D as (p & Es & Hp & -> & Hq). fold (dec p).
  destruct (ConvertBits k 8 false (dec p)) as [ret [|]] eqn:C; [|intros E; injection E; discriminate].
  pose proof (skip_padding_spec q) as P. destruct (skip_padding q) as [ok r]. destruct P as (n & Eq & -> & Hc & _).
  rewrite (offsets_ok s p q r n Es Eq). intros E. injection E as -> E.
  apply Bool.negb_false_iff in E. apply andb_prop in E as [E0 E]. apply andb_prop in E as [E1 E2].
  apply Z.eqb_eq in E0. apply Nat.eqb_eq in E1. apply Nat.ltb_lt in E2.
  destruct (ConvertBits_canonical 8 k ltac:(lia) ltac:(lia) ltac:(lia) _ _ (words_dec p Hp) C) as [Hl G].
  split; [assumption|]. rewrite ConvertBits_groups in G by (assumption || lia).
  unfold base_text. rewrite G, <- map_norm_decodes, length_map by assumption.
  rewrite Es, c_str_app, map_app, Hc, (c_str_nil r E0), app_nil_r, map_norm_pad by now apply decodes_nonzero.
  f_equal. unfold padding. f_equal. now apply padding_unique.
Qed.

Lemma repeat_prefix n n' x : repeat (chr "=") n = repeat (chr "=") n' ++ x -> deref x = chr "=" \/ (x = [] /\ n = n').
Proof.
  revert n; induction n' as [|n' IH]; intros [|n] E; cbn in E; subst; auto; try discriminate.
  injection E as E. destruct (IH n E) as [|[-> ->]]; auto.
Qed.

Lemma decode_base_complete s l :
  bytes s -> bytes l -> map norm (c_str s) = base_text alphabet k m l ->
  decode_base table k (Z.of_nat m) s = (l, false).
Proof.
  intros Hs Hl. unfold decode_base, base_text. fold (enc l). pose proof (decode_chars_spec s Hs) as D.
  destruct (decode_chars table s) as [val q]. destruct D as (p & Es & Hp & -> & Hq). fold (dec p).
  rewrite Es, c_str_app, map_app, map_norm_decodes by auto using decodes_nonzero. intros E.
  assert (Hbq : bytes q) by (rewrite Es in Hs; now apply Forall_app in Hs).
  apply split_unique in E as [Ep Eq]; [| |apply decodes_enc|now apply stops_norm|apply stops_padding].
  2: { pose proof (words_dec p Hp) as Hw. clear -Hw T_alpha. induction Hw as [|v g Hv _ IH]; constructor; [now apply T_alpha | assumption]. }
  assert (Ed : dec p = groups k l).
  { rewrite <- (dec_enc l), <- Ep. unfold dec at 2. rewrite map_map. symmetry. rewrite <- map_id. apply map_ext_in.
    intros v Hv. apply T_alpha. pose proof (words_dec p Hp) as H. rewrite Forall_forall in H. auto. }
  rewrite Ed. rewrite <- (ConvertBits_groups k l) by (assumption || lia).
  rewrite (ConvertBits_back 8 k) by (assumption || lia).
  apply norm_padding_inv in Eq. pose proof (skip_padding_spec q) as P.
  destruct (skip_padding q) as [ok r]. destruct P as (n & Eqr & -> & Hc & Hne). rewrite Eq in Hc.
  apply repeat_prefix in Hc as [Hc|[Hc En]].
  { exfalso. destruct r as [|c r]; [discriminate Hc|]. cbn in Hc, Hne. destruct (Z.eqb_spec c 0); [discriminate Hc | contradiction]. }
  assert (E0 : deref r = 0). { destruct r as [|c r]; [reflexivity|]. cbn in Hc |- *. now destruct (Z.eqb_spec c 0). }
  rewrite <- Es, (offsets_ok s p q r n Es Eqr), E0. cbn [Z.eqb andb]. f_equal.
  assert (Elen : length p = length (enc l)) by (rewrite <- Ep, length_map; unfold dec; now rewrite length_map).
  rewrite <- En, Elen, padding_completes. cbn [Nat.eqb andb]. apply Bool.negb_false_iff, Nat.ltb_lt, Nat.mod_upper_bound. lia.
Qed.

(** A byte string is the result without error exactly for its texts. *)
Lemma decode_base_spec s l :
  bytes s ->
  decode_base table k (Z.of_nat m) s = (l, false) <->
  bytes l /\ map norm (c_str s) = base_text alphabet k m l.
Proof.
  intros Hs. split; [now apply decode_base_sound | intros [Hl E]; now apply decode_base_complete].
Qed.
End Decoder.

(** * The two decoders *)

(** The facts on tables are decided by evaluation on all characters and groups. *)
Definition decodesb (table : list Z) (c : Z) : bool := (0 <? c) && (c <? 256) && negb (table.[Z.to_nat c] =? -1).

Lemma decodesb_spec table c : decodesb table c = true <-> decodes table c.
Proof.
  unfold decodesb, decodes. rewrite !Bool.andb_true_iff, Z.ltb_lt, Z.ltb_lt, Bool.negb_true_iff, Z.eqb_neq. lia.
Qed.

Definition table_ok (alphabet table : list Z) (k : Z) (norm : Z -> Z) : bool :=
  forallb (fun c => implb (decodesb table c)
                      (wordb k table.[Z.to_nat c] && (alphabet.[Z.to_nat table.[Z.to_nat c]] =? norm c)) &&
                    implb (decodesb table (norm c)) (implb (0 <? c) (decodesb table c)) &&
                    implb (norm c =? chr "=") (c =? chr "=")) (map Z.of_nat (seq 0 256)) &&
  forallb (fun v => decodesb table alphabet.[Z.to_nat v] && (table.[Z.to_nat alphabet.[Z.to_nat v]] =? v))
          (map Z.of_nat (seq 0 (Z.to_nat (2 ^ k)))).

Section Table.
Context (alphabet table : list Z) (k : Z) (m : nat) (norm : Z -> Z).
Context (Hk : 0 < k < 8) (Hm : (0 < m)%nat).
Context (Hok : table_ok alphabet table k norm = true) (Hpad : table.[Z.to_nat (chr "=")] = -1)
        (Hnorm : norm (chr "=") = chr "=") (Hout : forall c, norm c = chr "=" -> c = chr "=").

Lemma table_decodes c :
  decodes table c -> word k table.[Z.to_nat c] /\ alphabet.[Z.to_nat table.[Z.to_nat c]] = norm c.
Proof.
  intros Hd. apply andb_prop in Hok as [H1 _].
  pose proof (forallb_below 256 _ H1 c ltac:(destruct Hd; lia)) as H. cbv beta in H.
  apply decodesb_spec in Hd. rewrite Hd in H. cbn [implb] in H.
  apply andb_prop in H as [H _]. apply andb_prop in H as [H _]. apply andb_prop in H as [Hw He].
  split; [unfold wordb in Hw; unfold word; lia | lia].
Qed.

Lemma table_normal c : 0 < c < 256 -> decodes table (norm c) -> decodes table c.
Proof.
  intros Hc Hd. apply andb_prop in Hok as [H1 _]. pose proof (forallb_below 256 _ H1 c ltac:(lia)) as H. cbv beta in H.
  apply decodesb_spec in Hd. rewrite Hd in H. apply andb_prop in H as [H _]. apply andb_prop in H as [_ H].
  destruct (Z.ltb_spec 0 c); [|lia]. now apply decodesb_spec.
Qed.

Lemma table_alphabet v :
  word k v -> decodes table alphabet.[Z.to_nat v] /\ table.[Z.to_nat alphabet.[Z.to_nat v]] = v.
Proof.
  intros Hv. apply andb_prop in Hok as [_ H2]. unfold word in Hv.
  pose proof (forallb_below (Z.to_nat (2 ^ k)) _ H2 v ltac:(lia)) as H. cbv beta in H.
  apply andb_prop in H as [Hd He]. split; [now apply decodesb_spec | lia].
Qed.

Lemma decode_table_spec s l :
  bytes s ->
  decode_base table k (Z.of_nat m) s = (l, false) <-> bytes l /\ map norm (c_str s) = base_text alphabet k m l.
Proof.
  apply (decode_base_spec alphabet table k m norm Hk Hm); try assumption.
  - apply table_decodes.
  - apply table_decodes.
  - apply table_alphabet.
  - apply table_normal.
Qed.

(** The text of a byte string is a string of characters without NUL. *)
Lemma base_text_chars l : Forall (fun c => 0 < c < 256) (base_text alphabet k m l).
Proof.
  unfold base_text. apply Forall_app; split.
  - pose proof (words_groups k ltac:(lia) l) as H. induction H as [|v g Hv _ IH]; constructor; [|assumption]. apply table_alphabet in Hv as [[H _] _]. exact H.
  - unfold padding. apply Forall_forall. intros c Hc. apply repeat_spec in Hc as ->. change (chr "=") with 61. lia.
Qed.

Lemma base_text_bytes l : bytes (base_text alphabet k m l).
Proof. eapply Forall_impl; [|apply base_text_chars]. intros c H. cbv beta in H. unfold word. lia. Qed.

Lemma c_str_base_text l : c_str (base_text alphabet k m l) = base_text alphabet k m l.
Proof.
  rewrite <- (app_nil_r (base_text _ _ _ _)) at 1. rewrite c_str_app; [now rewrite app_nil_r|].
  eapply Forall_impl; [|apply base_text_chars]. intros c H. cbv beta in H. lia.
Qed.
End Table.

Lemma ToLower_pad c : ToLower c = chr "=" -> c = chr "=".
Proof. unfold ToLower. change (chr "A") with 65. change (chr "Z") with 90. change (chr "a") with 97. change (chr "=") with 61. destruct (_ && _) eqn:E; lia. Qed.

Lemma DecodeBase32_spec s l :
  bytes s -> DecodeBase32 s = (l, false) <-> bytes l /\ map ToLower (c_str s) = base_text rfc4648_base32 5 8 l.
Proof. apply (decode_table_spec rfc4648_base32 decode32_table 5 8 ToLower); try lia; try reflexivity; apply ToLower_pad. Qed.

Lemma DecodeBase64_spec s l :
  bytes s -> DecodeBase64 s = (l, false) <-> bytes l /\ c_str s = base_text rfc4648_base64 6 4 l.
Proof.
  rewrite <- (map_id (c_str s)).
  apply (decode_table_spec rfc4648_base64 decode64_table 6 4 (fun c => c)); try lia; reflexivity || trivial.
Qed.

Lemma ToLower_base32 l : map ToLower (base_text rfc4648_base32 5 8 l) = base_text rfc4648_base32 5 8 l.
Proof.
  unfold base_text. rewrite map_app, map_map. f_equal; [|unfold padding; now rewrite map_repeat].
  apply map_ext_in. intros v Hv. pose proof (words_groups 5 ltac:(lia) l) as H. rewrite Forall_forall in H.
  specialize (H v Hv). apply Z.eqb_eq.
  apply (forallb_below 32 (fun v => ToLower rfc4648_base32.[Z.to_nat v] =? rfc4648_base32.[Z.to_nat v]));
    [reflexivity | exact H].
Qed.

(** The alphabet of the encoder differs from the one of base 64 at the value 12. *)
Lemma pbase64_spec v : word 6 v -> pbase64.[Z.to_nat v] = rfc4648_base64.[Z.to_nat v] <-> v <> 12.
Proof.
  intros Hv. rewrite <- Z.eqb_neq, <- Z.eqb_eq, <- Bool.negb_true_iff.
  enough (Bool.eqb (pbase64.[Z.to_nat v] =? rfc4648_base64.[Z.to_nat v]) (negb (v =? 12)) = true) as E
    by (apply Bool.eqb_prop in E; now rewrite E).
  apply (forallb_below 64 (fun v => Bool.eqb (pbase64.[Z.to_nat v] =? rfc4648_base64.[Z.to_nat v]) (negb (v =? 12))));
    [vm_compute; reflexivity | exact Hv].
Qed.

Lemma map_eq_in_iff {A B} (f g : A -> B) l : map f l = map g l <-> forall x, In x l -> f x = g x.
Proof.
  induction l as [|x l IH]; cbn; [firstorder|]. split.
  - intros E. injection E as Ex E. intros y [<-|Hy]; [assumption | now apply IH].
  - intros H. f_equal; [apply H; now left | apply IH; auto].
Qed.

Lemma base_text_eq l : base_text pbase64 6 4 l = base_text rfc4648_base64 6 4 l <-> ~ In 12 (groups 6 l).
Proof.
  unfold base_text. rewrite !length_map. split.
  - intros E. apply app_inv_tail in E. rewrite map_eq_in_iff in E. intros Hin.
    apply E in Hin as H. apply pbase64_spec in H; [contradiction | split; [lia | reflexivity]].
  - intros Hn. f_equal. apply map_eq_in_iff. intros v Hv. apply pbase64_spec; [|congruence].
    pose proof (words_groups 6 ltac:(lia) l) as H. rewrite Forall_forall in H. auto.
Qed.

Lemma bytes_pbase64 l : bytes (base_text pbase64 6 4 l).
Proof.
  unfold base_text. apply Forall_app; split.
  - apply Forall_map, Forall_forall. intros v _. apply Forall_nth_default; [apply words_check; reflexivity | split; [lia | reflexivity]].
  - apply Forall_forall. intros c Hc. apply repeat_spec in Hc as ->. change (chr "=") with 61. split; [lia | reflexivity].
Qed.

Lemma c_str_pbase64 l : c_str (base_text pbase64 6 4 l) = base_text pbase64 6 4 l.
Proof.
  rewrite <- (app_nil_r (base_text _ _ _ _)) at 1. rewrite c_str_app; [now rewrite app_nil_r|].
  unfold base_text. apply Forall_app; split.
  - pose proof (words_groups 6 ltac:(lia) l) as H. induction H as [|v g Hv _ IH]; constructor; [|assumption].
    apply Z.eqb_neq, Bool.negb_true_iff.
    apply (forallb_below 64 (fun v => negb (pbase64.[Z.to_nat v] =? 0))); [vm_compute; reflexivity | exact Hv].
  - apply Forall_forall. intros c Hc. apply repeat_spec in Hc as ->. discriminate.
Qed.

(** * The theorems *)

(** Base 32: [EncodeBase32] writes one character of the RFC 4648 alphabet (in lower
    case) for every five bits of the input, the last group filled with zero bits, and pads with [=] to a multiple
    of eight. [DecodeBase32] accepts a string exactly when, in lower case and up to
    its first NUL, it is the padded text of some byte string, and then returns it;
    in particular it inverts [EncodeBase32]. *)
Theorem base32_codec (l s : list Z) :
  bytes l -> bytes s ->
  EncodeBase32 l true = base_text rfc4648_base32 5 8 l /\
  EncodeBase32 l false = map (fun v => rfc4648_base32.[Z.to_nat v]) (groups 5 l) /\
  (DecodeBase32 s = (l, false) <-> map ToLower (c_str s) = EncodeBase32 l true) /\
  DecodeBase32 (EncodeBase32 l true) = (l, false).
Proof.
  intros Hl Hs. destruct (EncodeBase32_text l Hl) as [E1 E2]. change pbase32 with rfc4648_base32 in E1, E2.
  split; [assumption|]. split; [assumption|]. rewrite E1. split; [rewrite DecodeBase32_spec by assumption; tauto|].
  apply DecodeBase32_spec.
  - apply (base_text_bytes rfc4648_base32 decode32_table 5 8 ToLower); lia || reflexivity.
  - split; [assumption|].
    rewrite (c_str_base_text rfc4648_base32 decode32_table 5 8 ToLower) by (lia || reflexivity). apply ToLower_base32.
Qed.

Lemma base32_codec_witness :
  DecodeBase32 (str "MZXW6===") = (str "foo", false) /\ EncodeBase32 (str "foo") true = str "mzxw6===".
Proof.
  destruct (base32_codec (str "foo") (str "MZXW6===")) as (_ & _ & H & _).
  - apply words_check; reflexivity.
  - apply words_check; reflexivity.
  - split; [apply H; vm_compute; reflexivity | vm_compute; reflexivity].
Defined.

(** Base 64: [DecodeBase64] accepts a string exactly when it is, up to its first NUL,
    the padded RFC 4648 text of some byte string, and then returns that. The alphabet
    of [EncodeBase64] has [P] in the place of [M] (the group 12): the decoder gives
    back an encoded byte string exactly when none of its groups of six bits is 12. *)
Theorem base64_codec (l s : list Z) :
  bytes l -> bytes s ->
  (DecodeBase64 s = (l, false) <-> c_str s = base_text rfc4648_base64 6 4 l) /\
  (DecodeBase64 (EncodeBase64 l) = (l, false) <-> ~ In 12 (groups 6 l)).
Proof.
  intros Hl Hs. split; [rewrite DecodeBase64_spec by assumption; tauto|].
  rewrite EncodeBase64_text, DecodeBase64_spec, c_str_pbase64, base_text_eq by (assumption || apply bytes_pbase64). tauto.
Qed.

Lemma base64_codec_witness :
  DecodeBase64 (str "Zm9vYmE=") = (str "fooba", false) /\ DecodeBase64 (EncodeBase64 (str "0abc")) = (str "<abc", false) /\
  DecodeBase64 (EncodeBase64 (str "0abc")) <> (str "0abc", false).
Proof.
  split; [|split; [vm_compute; reflexivity|]].
  - refine (proj2 (proj1 (base64_codec (str "fooba") (str "Zm9vYmE=") _ _)) _).
    + apply words_check; reflexivity.
    + apply words_check; reflexivity.
    + vm_compute; reflexivity.
  - intros E. refine (proj1 (proj2 (base64_codec (str "0abc") [] _ _)) E _).
    + apply words_check; reflexivity.
    + constructor.
    + vm_compute. auto.
Defined.

(** [SanitizeString] keeps the characters of the chosen set, in order, and drops the
    others. Every set contains all letters and digits except the capital [M], which
    is dropped from every string. *)
Theorem sanitize_string (rule : SafeChars) (s : list Z) :
  SanitizeString s rule = filter (fun c => found c (SAFE_CHARS rule)) s /\
  (forall c, In c (str "abcdefghijklmnopqrstuvwxyzABCDEFGHIJKLMNOPQRSTUVWXYZ0123456789") ->
     In c (SAFE_CHARS rule) <-> c <> chr "M") /\
  ~ In (chr "M") (SanitizeString s rule).
Proof.
  assert (E : SanitizeString s rule = filter (fun c => found c (SAFE_CHARS rule)) s).
  { apply (fold_left_filter (fun c => found c (SAFE_CHARS rule)) s []). }
  assert (F : forall c, found c (SAFE_CHARS rule) = true <-> In c (SAFE_CHARS rule)).
  { intros c. unfold found. rewrite existsb_exists. split; [intros (x & Hx & Ex); apply Z.eqb_eq in Ex; now subst|].
    intros H. exists c. split; [assumption | apply Z.eqb_refl]. }
  assert (M : found (chr "M") (SAFE_CHARS rule) = false) by (destruct rule; vm_compute; reflexivity).
  split; [assumption|]. split.
  - intros c Hc. rewrite <- F.
    split; [intros H ->; congruence|]. intros Hne.
    assert (A : forallb (fun c => found c (SAFE_CHARS rule) || (c =? chr "M")) (str "abcdefghijklmnopqrstuvwxyzABCDEFGHIJKLMNOPQRSTUVWXYZ0123456789") = true)
      by (destruct rule; vm_compute; reflexivity).
    rewrite forallb_forall in A. specialize (A c Hc). apply Bool.orb_true_iff in A as [A|A]; [assumption|].
    apply Z.eqb_eq in A. contradiction.
  - rewrite E, filter_In, M. intros [_ H]. discriminate.
Qed.
