(* ===== verification/Uint256.v ===== *)
(** Opaque blobs: uint256.h and uint256.cpp, and the hexadecimal strings of
    arith_uint256.cpp. A [base_blob<BITS>] is the list of its [WIDTH] bytes. *)
From Stdlib Require Import Ascii String ZifyNat.
From S2P Require Import Prelude SphTypes ArithUint ArithUintProofs ArithUint256 StrEncodings BaseBits BaseCodec.
Import StrEncodings.

Module Uint256.
Section Blob.
Context (WIDTH : nat).

Definition base_blob : list Z := repeat 0 WIDTH.
Definition base_blob_of_u8 (v : Z) : list Z := base_blob.[0 := v].

(** [None] when the assert on the size fails. *)
Definition base_blob_of_vch (vch : list Z) : option (list Z) :=
  if (length vch =? WIDTH)%nat then Some (memcpy_at base_blob 0 vch) else None.

Definition IsNull (m_data : list Z) : bool := forallb (fun i => m_data.[i] =? 0) (seq 0 WIDTH).
Definition SetNull (m_data : list Z) : list Z := repeat 0 WIDTH.

(** [memcmp] on the first [n] bytes; the standard fixes the sign of the result. *)
Fixpoint memcmp (n : nat) (a b : list Z) : Z :=
  match n with
  | O => 0
  | S n =>
      if deref a <? deref b then -1
      else if deref b <? deref a then 1
      else memcmp n (tl a) (tl b)
  end.

Definition Compare (a b : list Z) : Z := memcmp WIDTH a b.
Definition op_eq (a b : list Z) : bool := Compare a b =? 0.
Definition op_ne (a b : list Z) : bool := negb (Compare a b =? 0).
Definition op_lt (a b : list Z) : bool := Compare a b <? 0.

Definition GetUint64 (m_data : list Z) (pos : nat) : Z :=
  let ptr := skipn (pos * 8) m_data in
  ptr.[0] |: Z.shiftl ptr.[1] 8 |: Z.shiftl ptr.[2] 16 |: Z.shiftl ptr.[3] 24 |:
  Z.shiftl ptr.[4] 32 |: Z.shiftl ptr.[5] 40 |: Z.shiftl ptr.[6] 48 |: Z.shiftl ptr.[7] 56.

(** The bytes in reverse order, in hexadecimal. *)
Definition GetHex (m_data : list Z) : list Z :=
  let m_data_rev := fold_left (fun r i => r.[i := m_data.[(WIDTH - 1 - i)%nat]]) (seq 0 WIDTH) (repeat 0 WIDTH) in
  HexStr m_data_rev.

Definition ToString (m_data : list Z) : list Z := GetHex m_data.

(** [tolower] in the C locale, for the prefix [0x]. *)
Definition skip_0x (psz : list Z) : list Z :=
  if (psz.[0] =? chr "0") && (ToLower psz.[1] =? chr "x") then skipn 2 psz else psz.

(** How many digits there are from [psz] on. *)
Fixpoint count_digits (psz : list Z) : nat :=
  match psz with
  | [] => 0
  | c :: psz => if HexDigit c =? -1 then 0 else S (count_digits psz)
  end.

(** The last loop: from the last digit backwards, two digits per byte. *)
Fixpoint sethex_loop (fuel digits p1 : nat) (psz m_data : list Z) : list Z :=
  match fuel with
  | O => m_data
  | S fuel =>
      if (0 <? digits)%nat && (p1 <? WIDTH)%nat then
        let digits := (digits - 1)%nat in
        let m_data := m_data.[p1 := HexDigit psz.[digits] mod 2 ^ 8] in
        if (0 <? digits)%nat then
          let digits := (digits - 1)%nat in
          let m_data := m_data.[p1 := (m_data.[p1] |: Z.shiftl (HexDigit psz.[digits]) 4) mod 2 ^ 8] in
          sethex_loop fuel digits (p1 + 1) psz m_data
        else sethex_loop fuel digits p1 psz m_data
      else m_data
  end.

Definition SetHex (psz : list Z) : list Z :=
  let m_data := repeat 0 WIDTH in
  let psz := skip_spaces psz in
  let psz := skip_0x psz in
  let digits := count_digits psz in
  sethex_loop digits digits 0 psz m_data.

End Blob.

Definition uint256S (s : list Z) : list Z := SetHex 32 s.
Definition uint512S (s : list Z) : list Z := SetHex 64 s.

Definition UINT256_ZERO : list Z := base_blob 32.
Definition UINT256_ONE : list Z := uint256S (str "0000000000000000000000000000000000000000000000000000000000000001").
Definition UINT256_MAX : list Z := uint256S (str "ffffffffffffffffffffffffffffffffffffffffffffffffffffffffffffffff").

(** * The strings of [base_uint<BITS>]: [WIDTH] words of 32 bits *)

(** [sprintf("%02x")]. *)
Definition sprintf_02x (v : Z) : list Z := [hexmap.[Z.to_nat (Z.shiftr v 4)]; hexmap.[Z.to_nat (v &: 15)]].

Definition arith_GetHex (WIDTH : nat) (pn : list Z) : list Z :=
  let n := (4 * WIDTH)%nat in
  fold_left (fun psz i => memcpy_at psz (i * 2) (sprintf_02x (ArithUint.bytes_of pn).[(n - i - 1)%nat]))
    (seq 0 n) (repeat 0 (n * 2)).

Definition arith_ToStringReverseEndian (WIDTH : nat) (pn : list Z) : list Z :=
  let n := (4 * WIDTH)%nat in
  fold_left (fun psz i => memcpy_at psz (i * 2) (sprintf_02x (ArithUint.bytes_of pn).[i]))
    (seq 0 n) (repeat 0 (n * 2)).

(** The same loops as [base_blob::SetHex], on the bytes of [pn]; the pointer that runs
    backwards over the digits is the number of digits left. *)
Definition arith_SetHex (WIDTH : nat) (psz : list Z) : list Z :=
  let psz := skip_0x (skip_spaces psz) in
  let digits := count_digits psz in
  ArithUint.words_of WIDTH (sethex_loop (4 * WIDTH) digits digits 0 psz (repeat 0 (4 * WIDTH))).

End Uint256.
Import Uint256.

Lemma memcmp_eq n a b : length a = n -> length b = n -> memcmp n a b = 0 <-> a = b.
Proof.
  revert a b; induction n as [|n IH]; intros a b Ha Hb.
  - destruct a, b; try discriminate. easy.
  - destruct a as [|x a], b as [|y b]; try discriminate. cbn [memcmp deref tl hd]. destruct (Z.ltb_spec x y); [split; [discriminate | intros [= -> _]; lia]|].
    destruct (Z.ltb_spec y x); [split; [discriminate | intros [= -> _]; lia]|]. assert (x = y) as -> by lia.
    rewrite IH by (cbn in *; lia). split; [now intros -> | now intros [= ->]].
Qed.

(** * Hexadecimal digits *)

Lemma hexdigit_facts c :
  is_byte c -> HexDigit c = -1 \/ (word 4 (HexDigit c) /\ isspace c = false /\ 48 <= c /\
                                   hexmap.[Z.to_nat (HexDigit c)] = ToLower c /\ ToLower c <> chr "x").
Proof.
  intros Hc.
  pose (ok c := (HexDigit c =? -1) || wordb 4 (HexDigit c) && negb (isspace c) && (48 <=? c) && (hexmap.[Z.to_nat (HexDigit c)] =? ToLower c) &&
                                      negb (ToLower c =? chr "x")).
  assert (H : ok c = true) by (apply (forallb_below 256 ok); [vm_compute; reflexivity | exact Hc]).
  unfold ok, wordb in H. unfold word. destruct (Z.eqb_spec (HexDigit c) (-1)); [now left|]. right.
  cbn [orb] in H. rewrite !Bool.andb_true_iff, !Bool.negb_true_iff, Z.eqb_neq in H. intuition lia.
Qed.

Lemma hexmap_facts v :
  word 4 v -> HexDigit hexmap.[Z.to_nat v] = v /\ is_byte hexmap.[Z.to_nat v].
Proof.
  intros Hv. pose (ok v := (HexDigit hexmap.[Z.to_nat v] =? v) && wordb 8 hexmap.[Z.to_nat v]).
  assert (H : ok v = true) by (apply (forallb_below 16 ok); [vm_compute; reflexivity | exact Hv]).
  unfold ok, wordb in H. unfold word. lia.
Qed.

(** The digits of a byte. *)
Lemma nibbles v :
  is_byte v -> word 4 (Z.shiftr v 4) /\ word 4 (v &: 15) /\ Z.shiftr v 4 * 2 ^ 4 + (v &: 15) = v.
Proof.
  intros Hv. change 15 with (Z.ones 4). rewrite Z.shiftr_div_pow2, Z.land_ones by lia. unfold word in *.
  pose proof (Z.div_mod v (2 ^ 4) ltac:(lia)). pose proof (Z.mod_pos_bound v (2 ^ 4) ltac:(lia)).
  repeat split; lia.
Qed.

Lemma byte_of_nibbles h d :
  word 4 h -> word 4 d -> Z.shiftl h 4 |: d = h * 2 ^ 4 + d /\ is_byte (h * 2 ^ 4 + d).
Proof.
  intros Hh Hd. split; [|unfold word in *; lia].
  rewrite Z.lor_comm, <- add_shiftl_lor by (assumption || lia). lia.
Qed.

Lemma fold_left_concat {A B} (f : A -> list B) l acc :
  fold_left (fun r x => r ++ f x) l acc = acc ++ flat_map f l.
Proof.
  revert acc; induction l as [|x l IH]; intros acc; cbn [fold_left flat_map]; [now rewrite app_nil_r|].
  now rewrite IH, app_assoc.
Qed.

Lemma HexStr_spec l : HexStr l = flat_map sprintf_02x l.
Proof. exact (fold_left_concat sprintf_02x l []). Qed.

Lemma hex_value_app l l' : be_value 4 (l ++ l') = be_value 4 l * 2 ^ (4 * Z.of_nat (length l')) + be_value 4 l'.
Proof.
  induction l' as [|x l' IH] using rev_ind; [rewrite app_nil_r; cbn; lia|].
  rewrite app_assoc, !be_value_snoc, IH, length_app. cbn [length].
  replace (4 * Z.of_nat (length l' + 1)) with (4 * Z.of_nat (length l') + 4) by lia. rewrite Z.pow_add_r by lia. ring.
Qed.

(** The number that the string of a byte string stands for. *)
Lemma HexStr_digits l :
  bytes l -> Forall (fun c => is_byte c /\ HexDigit c <> -1) (HexStr l) /\
             be_value 4 (map HexDigit (HexStr l)) = be_value 8 l.
Proof.
  rewrite HexStr_spec. induction l as [|v l IH] using rev_ind; intros Hl; [split; [constructor | reflexivity]|].
  apply Forall_app in Hl as [Hl Hv]. apply Forall_inv in Hv. destruct (IH Hl) as [Hd He].
  destruct (nibbles v Hv) as (Hh & Hlo & E). destruct (hexmap_facts _ Hh) as [Eh Bh]. destruct (hexmap_facts _ Hlo) as [El Bl].
  rewrite flat_map_app, map_app. cbn [flat_map app map sprintf_02x]. split.
  - apply Forall_app. split; [assumption|]. unfold word in Hh, Hlo.
    repeat constructor; try assumption; try apply Bh; try apply Bl; rewrite ?Eh, ?El; lia.
  - rewrite hex_value_app, He, Eh, El, be_value_snoc. cbn [length]. change (2 ^ (4 * Z.of_nat 2)) with (2 ^ 8).
    rewrite <- E at 3. unfold be_value. cbn [fold_left]. lia.
Qed.

Lemma bytes_HexStr l : bytes l -> bytes (HexStr l).
Proof. intros H. eapply Forall_impl; [|apply (HexStr_digits l H)]. now intros c [Hc _]. Qed.

(** * ParseHex *)

Lemma skip_spaces_digit c p : is_byte c -> HexDigit c <> -1 -> skip_spaces (c :: p) = c :: p.
Proof.
  intros Hc Hd. destruct (hexdigit_facts c Hc) as [|(_ & Hs & _)]; [contradiction|]. cbn [skip_spaces]. now rewrite Hs.
Qed.

Lemma eqb_m1 x : x <> -1 -> (x =? -1) = false.
Proof. apply Z.eqb_neq. Qed.

(** One turn on two digits. *)
Lemma ParseHex_digits fuel a b p vch :
  is_byte a -> HexDigit a <> -1 -> is_byte b -> HexDigit b <> -1 ->
  ParseHex_loop (S fuel) (a :: b :: p) vch = ParseHex_loop fuel p (vch ++ [HexDigit a * 2 ^ 4 + HexDigit b]).
Proof.
  intros Ba Ha Bb Hb. cbn [ParseHex_loop]. rewrite (skip_spaces_digit a) by assumption. cbn [deref hd tl].
  rewrite !eqb_m1 by assumption.
  destruct (hexdigit_facts a Ba) as [|(Wa & _)]; [contradiction|]. destruct (hexdigit_facts b Bb) as [|(Wb & _)]; [contradiction|].
  destruct (byte_of_nibbles _ _ Wa Wb) as [E _]. rewrite Z.mod_small; [now rewrite E|].
  rewrite Z.shiftl_mul_pow2 by lia. unfold word in *. lia.
Qed.

Lemma ParseHex_end fuel vch : ParseHex_loop (S fuel) [] vch = vch.
Proof. reflexivity. Qed.

Lemma ParseHex_HexStr_loop l fuel vch :
  bytes l -> (length l < fuel)%nat -> ParseHex_loop fuel (flat_map sprintf_02x l) vch = vch ++ l.
Proof.
  intros Hl. revert fuel vch; induction Hl as [|v l Hv Hl IH]; intros [|fuel] vch Hf; cbn [length] in Hf; try lia.
  - cbn [flat_map]. now rewrite ParseHex_end, app_nil_r.
  - destruct (nibbles v Hv) as (Hh & Hlo & E). destruct (hexmap_facts _ Hh) as [Eh Bh]. destruct (hexmap_facts _ Hlo) as [El Bl].
    cbn [flat_map sprintf_02x app].
    rewrite ParseHex_digits by (rewrite ?Eh, ?El; assumption || (unfold word in *; lia)).
    rewrite Eh, El, E, IH by lia. now rewrite <- app_assoc.
Qed.

(** A string of digits, two by two. *)
Lemma ParseHex_pairs fuel s vch :
  Forall (fun c => is_byte c /\ HexDigit c <> -1) s -> (length s mod 2 = 0)%nat -> (length s < fuel)%nat ->
  exists l, ParseHex_loop fuel s vch = vch ++ l /\ bytes l /\ flat_map sprintf_02x l = map ToLower s.
Proof.
  revert s vch; induction fuel as [|fuel IH]; intros s vch Hs He Hf; [lia|].
  destruct s as [|a [|b s]].
  - exists []. rewrite ParseHex_end, app_nil_r. repeat split; constructor.
  - discriminate He.
  - inversion Hs as [|? ? [Ba Ha] Hs']; subst. inversion Hs' as [|? ? [Bb Hb] Hs'']; subst. cbn [length] in He, Hf.
    rewrite ParseHex_digits by assumption.
    destruct (IH s (vch ++ [HexDigit a * 2 ^ 4 + HexDigit b])) as (l & -> & Hl & E); [assumption | lia | lia |].
    destruct (hexdigit_facts a Ba) as [|(Wa & _ & _ & Ea & _)]; [contradiction|].
    destruct (hexdigit_facts b Bb) as [|(Wb & _ & _ & Eb & _)]; [contradiction|].
    destruct (byte_of_nibbles _ _ Wa Wb) as [_ Wv]. destruct (nibbles _ Wv) as (W1 & W2 & Ev).
    exists (HexDigit a * 2 ^ 4 + HexDigit b :: l). split; [now rewrite <- app_assoc|]. split; [now constructor|].
    cbn [flat_map sprintf_02x app map]. rewrite E. unfold word in *.
    assert (Z.shiftr (HexDigit a * 2 ^ 4 + HexDigit b) 4 = HexDigit a) as -> by lia.
    assert ((HexDigit a * 2 ^ 4 + HexDigit b) &: 15 = HexDigit b) as -> by lia.
    now rewrite Ea, Eb.
Qed.

Lemma IsHex_spec s :
  bytes s -> IsHex s = true <-> Forall (fun c => is_byte c /\ HexDigit c <> -1) s /\ s <> [] /\ (length s mod 2 = 0)%nat.
Proof.
  intros Hs. unfold IsHex. rewrite !Bool.andb_true_iff, forallb_forall, Nat.ltb_lt, Nat.eqb_eq, Forall_forall.
  rewrite Forall_forall in Hs. split.
  - intros (H & Hn & He). split; [|split; [destruct s; [cbn in Hn; lia | discriminate] | assumption]].
    intros c Hc. split; [auto|]. specialize (H c Hc). rewrite Bool.negb_true_iff, Z.ltb_ge in H. lia.
  - intros (H & Hn & He). split; [|split; [destruct s; [contradiction | cbn; lia] | assumption]].
    intros c Hc. destruct (H c Hc) as [Bc Dc]. destruct (hexdigit_facts c Bc) as [|(Wc & _)]; [contradiction|].
    unfold word in Wc. rewrite Bool.negb_true_iff, Z.ltb_ge. lia.
Qed.

Lemma length_HexStr l : length (HexStr l) = (2 * length l)%nat.
Proof. rewrite HexStr_spec. now apply length_flat_map_const. Qed.

(** * SetHex *)

(** The digits that [SetHex] reads. *)
Definition hex_digits (psz : list Z) : list Z :=
  let psz := skip_0x (skip_spaces psz) in firstn (count_digits psz) psz.

(** The number they stand for. *)
Definition hex_number (psz : list Z) : Z := be_value 4 (map HexDigit (hex_digits psz)).

Lemma count_digits_spec psz :
  bytes psz -> (count_digits psz <= length psz)%nat /\
               Forall (word 4) (map HexDigit (firstn (count_digits psz) psz)).
Proof.
  induction 1 as [|c p Hc Hp [IH1 IH2]]; cbn [count_digits length]; [split; [lia | constructor]|].
  destruct (Z.eqb_spec (HexDigit c) (-1)) as [|Hd]; [split; [lia | constructor]|].
  split; [lia|]. cbn [firstn map]. constructor; [|assumption]. now destruct (hexdigit_facts c Hc) as [|[W _]].
Qed.

Lemma le_split_0 n : le_split n 0 = repeat 0 n.
Proof. induction n; cbn; [reflexivity|]. now f_equal. Qed.

Lemma upd_app {A} (a b : list A) x y : upd (a ++ y :: b) (length a) x = a ++ x :: b.
Proof. induction a; cbn; congruence. Qed.

Lemma nth_app_mid (a b : list Z) y : (a ++ y :: b).[length a] = y.
Proof. induction a; cbn; auto. Qed.

Section SetHexProofs.
Context (WIDTH : nat) (psz : list Z).

Lemma firstn_digit n :
  (n < length psz)%nat ->
  be_value 4 (map HexDigit (firstn (S n) psz)) = be_value 4 (map HexDigit (firstn n psz)) * 2 ^ 4 + HexDigit psz.[n].
Proof.
  intros H. replace (firstn (S n) psz) with (firstn n psz ++ [psz.[n]]).
  - rewrite map_app. apply be_value_snoc.
  - clear -H. revert n H; induction psz as [|c p IH]; intros [|n] H; cbn in *; try lia; [reflexivity|]. f_equal. apply IH. lia.
Qed.

Lemma digit_word n i : (i < n <= length psz)%nat -> Forall (word 4) (map HexDigit (firstn n psz)) -> word 4 (HexDigit psz.[i]).
Proof.
  intros Hi H. rewrite Forall_map, Forall_forall in H. apply H.
  rewrite <- (nth_firstn_lt 0 psz i n) by lia. apply nth_In. rewrite length_firstn. lia.
Qed.

Lemma sethex_loop_spec digits fuel filled :
  (digits <= fuel)%nat -> (digits <= length psz)%nat -> (length filled <= WIDTH)%nat ->
  Forall (word 4) (map HexDigit (firstn digits psz)) ->
  sethex_loop WIDTH fuel digits (length filled) psz (filled ++ repeat 0 (WIDTH - length filled)) =
  filled ++ le_split (WIDTH - length filled) (be_value 4 (map HexDigit (firstn digits psz))).
Proof.
  revert digits filled; induction fuel as [|fuel IH]; intros digits filled Hf Hl Hw Hd.
  - replace digits with 0%nat by lia. cbn [firstn map sethex_loop]. change (be_value 4 []) with 0. now rewrite le_split_0.
  - cbn [sethex_loop]. destruct (Nat.ltb_spec 0 digits) as [Hpos|].
    2: { replace digits with 0%nat by lia. cbn. now rewrite le_split_0. }
    destruct (Nat.ltb_spec (length filled) WIDTH) as [Hlt|].
    2: { replace (WIDTH - length filled)%nat with 0%nat by lia. reflexivity. }
    cbn [andb]. replace (WIDTH - length filled)%nat with (S (WIDTH - length filled - 1)) by lia. cbn [repeat le_split].
    rewrite upd_app. destruct digits as [|digits]; [lia|]. rewrite Nat.sub_succ, Nat.sub_0_r.
    pose proof (digit_word (S digits) digits ltac:(lia) Hd) as W0.
    rewrite firstn_digit by lia.
    destruct (Nat.ltb_spec 0 digits) as [Hpos2|].
    + rewrite upd_app, nth_app_mid. destruct digits as [|digits]; [lia|]. rewrite Nat.sub_succ, Nat.sub_0_r.
      pose proof (digit_word (S (S digits)) digits ltac:(lia) Hd) as W1. rewrite firstn_digit by lia.
      rewrite (Z.mod_small (HexDigit psz.[S digits])) by (unfold word in W0; lia). rewrite Z.lor_comm.
      destruct (byte_of_nibbles _ _ W1 W0) as [-> Wb].
      set (V := be_value 4 (map HexDigit (firstn digits psz))). rewrite (Z.mod_small (_ + _)) by exact Wb.
      replace ((V * 2 ^ 4 + HexDigit psz.[digits]) * 2 ^ 4 + HexDigit psz.[S digits])
        with (HexDigit psz.[digits] * 2 ^ 4 + HexDigit psz.[S digits] + V * 256) by lia.
      rewrite Z.mod_add, Z.div_add, (Z.mod_small (_ + _)), (Z.div_small (_ + _)), Z.add_0_l by (exact Wb || lia).
      set (v := _ + _). replace (filled ++ v :: repeat 0 (WIDTH - length filled - 1))
        with ((filled ++ [v]) ++ repeat 0 (WIDTH - length (filled ++ [v])))
        by (rewrite <- app_assoc, length_app; cbn [length app]; do 3 f_equal; lia).
      replace (length filled + 1)%nat with (length (filled ++ [v])) by (rewrite length_app; reflexivity).
      rewrite IH; [| lia | lia | rewrite length_app; cbn; lia |].
      * rewrite <- app_assoc, length_app. cbn [length app]. do 3 f_equal. lia.
      * revert Hd. rewrite !Forall_map. intros Hd. replace (firstn digits psz) with (firstn digits (firstn (S (S digits)) psz)); [now apply Forall_take|].
        rewrite firstn_firstn. f_equal. lia.
    + replace digits with 0%nat in * by lia. cbn [firstn map]. change (be_value 4 []) with 0. unfold word in W0.
      rewrite Z.mul_0_l, Z.add_0_l, (Z.mod_small _ 256), (Z.mod_small _ (2 ^ 8)), Z.div_small, le_split_0 by lia.
      destruct fuel; reflexivity.
Qed.
End SetHexProofs.

Lemma bytes_skip psz : bytes psz -> bytes (skip_0x (skip_spaces psz)).
Proof.
  intros H. assert (Hs : bytes (skip_spaces psz)).
  { induction H as [|c p Hc Hp IH]; cbn [skip_spaces]; [constructor|]. destruct (isspace c); [assumption | now constructor]. }
  unfold skip_0x. destruct (_ && _); [now apply Forall_drop | assumption].
Qed.

Lemma SetHex_spec WIDTH psz : bytes psz -> SetHex WIDTH psz = le_split WIDTH (hex_number psz).
Proof.
  intros H. unfold SetHex, hex_number, hex_digits. apply bytes_skip in H.
  destruct (count_digits_spec _ H) as [Hl Hw]. set (p := skip_0x _) in *.
  pose proof (sethex_loop_spec WIDTH p (count_digits p) (count_digits p) []) as E. cbn [length app] in E.
  rewrite Nat.sub_0_r in E. apply E; [lia | assumption | lia | assumption].
Qed.

Lemma count_all_digits s : Forall (fun c => is_byte c /\ HexDigit c <> -1) s -> count_digits s = length s.
Proof.
  induction 1 as [|c s [_ Hd] H IH]; cbn [count_digits length]; [reflexivity|]. now rewrite IH, eqb_m1.
Qed.

(** A string of digits alone is read as a whole. *)
Lemma hex_number_digits s :
  Forall (fun c => is_byte c /\ HexDigit c <> -1) s -> hex_number s = be_value 4 (map HexDigit s).
Proof.
  intros H. unfold hex_number, hex_digits.
  assert (Es : skip_spaces s = s) by (destruct H as [|c s [Bc Dc] H]; [reflexivity | now apply skip_spaces_digit]).
  assert (Ex : skip_0x s = s).
  { unfold skip_0x. destruct (Z.eqb_spec (ToLower s.[1]) (chr "x")) as [E|]; [|now rewrite Bool.andb_false_r].
    exfalso. destruct H as [|a s _ H]; [discriminate E|]. destruct H as [|b s [Bb Db] H]; [discriminate E|].
    cbn [nth] in E. destruct (hexdigit_facts b Bb) as [|(_ & _ & _ & _ & Hx)]; contradiction. }
  assert (Ec : count_digits s = length s).
  { now apply count_all_digits. }
  rewrite Es, Ex, Ec, firstn_all. reflexivity.
Qed.

Lemma be_value_rev l : be_value 8 (rev l) = le_combine l.
Proof.
  induction l as [|x l IH]; [reflexivity|]. cbn [rev le_combine]. rewrite be_value_snoc, IH. change (2 ^ 8) with 256. ring.
Qed.

(** The string of a byte string in little-endian order, and the same with [0x]. *)
Lemma hex_number_HexStr m :
  bytes m -> hex_number (HexStr (rev m)) = le_combine m /\ hex_number (str "0x" ++ HexStr (rev m)) = le_combine m.
Proof.
  intros Hm. destruct (HexStr_digits (rev m) (Forall_rev Hm)) as [Hd He].
  assert (E : hex_number (HexStr (rev m)) = le_combine m) by now rewrite hex_number_digits, He, be_value_rev.
  split; [assumption|]. rewrite <- be_value_rev, <- He. unfold hex_number, hex_digits. do 2 f_equal.
  change (skip_0x (skip_spaces (str "0x" ++ HexStr (rev m)))) with (HexStr (rev m)).
  assert (Ec : count_digits (HexStr (rev m)) = length (HexStr (rev m))).
  { now apply count_all_digits. }
  rewrite Ec. apply firstn_all.
Qed.

Lemma nth_rev_eq (l : list Z) i : (i < length l)%nat -> (rev l).[i] = l.[(length l - 1 - i)%nat].
Proof. intros H. rewrite rev_nth by assumption. f_equal. lia. Qed.

Lemma GetHex_spec WIDTH m : length m = WIDTH -> GetHex WIDTH m = HexStr (rev m).
Proof.
  intros Hl. unfold GetHex. f_equal. apply (list_ext 0).
  - rewrite (length_update_loop (fun i _ => m.[(WIDTH - 1 - i)%nat])), repeat_length, length_rev. now symmetry.
  - intros i Hi. rewrite (length_update_loop (fun i _ => m.[(WIDTH - 1 - i)%nat])), repeat_length in Hi.
    rewrite (nth_update_loop (fun i _ => m.[(WIDTH - 1 - i)%nat])) by (rewrite repeat_length; lia).
    destruct (Nat.ltb_spec i WIDTH); [|lia]. rewrite nth_rev_eq by lia. now rewrite Hl.
Qed.

Lemma GetHex_roundtrip WIDTH m : length m = WIDTH -> bytes m -> SetHex WIDTH (GetHex WIDTH m) = m.
Proof.
  intros Hl Hm. rewrite GetHex_spec, SetHex_spec by (try apply bytes_HexStr, Forall_rev; assumption).
  rewrite (proj1 (hex_number_HexStr m Hm)), <- Hl. now apply le_split_combine.
Qed.

(** * The strings of big integers *)

Lemma bytes_bytes_of a : bytes (ArithUint.bytes_of a).
Proof. induction a as [|x a IH]; [constructor|]. apply (Forall_app _ (store 4 x)). split; [apply bytes_le_split | assumption]. Qed.

Lemma arith_GetHex_spec W a : wf W a -> arith_GetHex W a = HexStr (rev (ArithUint.bytes_of a)).
Proof.
  intros [Hl Ha]. unfold arith_GetHex. set (b := ArithUint.bytes_of a).
  assert (Hb : length b = (4 * W)%nat) by (unfold b; now rewrite length_pn_bytes, Hl).
  rewrite (fold_left_ext_in _ (fun psz i => memcpy_at psz (2 * i) (sprintf_02x b.[(4 * W - i - 1)%nat]))) by (intros; now rewrite Nat.mul_comm).
  rewrite (memcpy_loop (fun i => sprintf_02x b.[(4 * W - i - 1)%nat])) by (intros; rewrite ?repeat_length; reflexivity || lia).
  rewrite skipn_all2, app_nil_r, HexStr_spec by (rewrite repeat_length; lia).
  rewrite <- (firstn_all2 (n := 4 * W) (rev b)) by (rewrite length_rev; lia).
  rewrite <- (map_nth_seq (rev b) 0) by (rewrite length_rev; lia). rewrite flat_map_concat_map, flat_map_concat_map, map_map.
  f_equal. apply map_ext_in. intros i Hi. apply in_seq in Hi. rewrite nth_rev_eq by lia. do 2 f_equal. lia.
Qed.

Lemma arith_SetHex_spec W psz :
  bytes psz -> wf W (arith_SetHex W psz) /\ value (arith_SetHex W psz) = hex_number psz mod 2 ^ (32 * Z.of_nat W).
Proof.
  intros H. unfold arith_SetHex. change (sethex_loop (4 * W) _ _ _ _ _) with (SetHex (4 * W) psz). rewrite SetHex_spec by assumption.
  set (v := le_split (4 * W) (hex_number psz)).
  assert (Hl : length v = (4 * W)%nat) by apply length_le_split. assert (Hb : bytes v) by apply bytes_le_split.
  pose proof (wf_words_of W v Hl Hb) as Hw. split; [assumption|].
  rewrite <- le_combine_bytes_of, bytes_of_words_of by (assumption || apply Hw). unfold v. rewrite le_combine_split.
  do 2 f_equal. lia.
Qed.

(** * The theorems *)

Lemma HexStr_nonempty l : l <> [] -> HexStr l <> [].
Proof. intros H E. apply (f_equal (@length Z)) in E. rewrite length_HexStr in E. destruct l; [contradiction | discriminate E]. Qed.

(** Hexadecimal strings: [ParseHex] inverts [HexStr], whose results are accepted by
    [IsHex] unless they are empty; [IsHex] accepts exactly the nonempty strings of an
    even number of digits, and for those [HexStr] gives the string back in lower
    case. *)
Theorem hex_strings (l s : list Z) :
  bytes l -> bytes s ->
  ParseHex (HexStr l) = l /\ (IsHex (HexStr l) = true <-> l <> []) /\
  (IsHex s = true <-> Forall (fun c => HexDigit c <> -1) s /\ s <> [] /\ (length s mod 2 = 0)%nat) /\
  (IsHex s = true -> HexStr (ParseHex s) = map ToLower s).
Proof.
  intros Hl Hs. split.
  { unfold ParseHex. rewrite length_HexStr, HexStr_spec. apply (ParseHex_HexStr_loop l _ []); [assumption | lia]. }
  split.
  { rewrite IsHex_spec by now apply bytes_HexStr. split.
    - intros (_ & H & _) ->. now apply H.
    - intros H. split; [now apply HexStr_digits|]. split; [now apply HexStr_nonempty | rewrite length_HexStr; lia]. }
  rewrite IsHex_spec by assumption. split.
  - split; intros (H & Hn & He); (split; [|now split]).
    + eapply Forall_impl; [|exact H]. now intros c [_ Hd].
    + apply Forall_and; assumption.
  - intros (Hd & _ & He). unfold ParseHex.
    destruct (ParseHex_pairs (S (length s)) s [] Hd He ltac:(lia)) as (r & -> & _ & E). now rewrite HexStr_spec.
Qed.

Lemma hex_strings_witness : HexStr (ParseHex (str "0aFF")) = str "0aff" /\ ParseHex (HexStr [1; 255]) = [1; 255].
Proof.
  destruct (hex_strings [1; 255] (str "0aFF")) as (H1 & _ & _ & H2).
  - apply words_check; reflexivity.
  - apply words_check; reflexivity.
  - split; [now apply H2 | exact H1].
Defined.

(** Blobs and big integers as text, at every width: [SetHex] of a string, after
    spaces and a [0x], sets the number of its leading hexadecimal digits modulo
    2^BITS; it inverts [GetHex], with or without the prefix; and the strings of
    [arith_uint256] are those of the [uint256] with the same bytes. *)
Theorem hex_numbers (WIDTH W : nat) (m a s : list Z) :
  length m = WIDTH -> bytes m -> wf W a -> bytes s ->
  SetHex WIDTH (GetHex WIDTH m) = m /\ SetHex WIDTH (str "0x" ++ GetHex WIDTH m) = m /\
  length (SetHex WIDTH s) = WIDTH /\ bytes (SetHex WIDTH s) /\
  le_combine (SetHex WIDTH s) = hex_number s mod 2 ^ (8 * Z.of_nat WIDTH) /\
  wf W (arith_SetHex W s) /\ value (arith_SetHex W s) = hex_number s mod 2 ^ (32 * Z.of_nat W) /\
  arith_SetHex W (arith_GetHex W a) = a /\ arith_GetHex W a = GetHex (4 * W) (ArithUint.bytes_of a).
Proof.
  intros Hl Hm Ha Hs. split; [now apply GetHex_roundtrip|].
  split.
  { rewrite GetHex_spec, SetHex_spec by (try (apply Forall_app; split; [apply words_check; reflexivity | apply bytes_HexStr, Forall_rev]); assumption).
    rewrite (proj2 (hex_number_HexStr m Hm)), <- Hl. now apply le_split_combine. }
  rewrite SetHex_spec by assumption. split; [apply length_le_split|]. split; [apply bytes_le_split|].
  split; [apply le_combine_split|]. destruct (arith_SetHex_spec W s Hs) as [Hw Hv]. do 2 (split; [assumption|]).
  assert (Hb : bytes (ArithUint.bytes_of a)) by apply bytes_bytes_of.
  assert (Hlb : length (ArithUint.bytes_of a) = (4 * W)%nat) by (rewrite length_pn_bytes, (proj1 Ha); reflexivity).
  rewrite arith_GetHex_spec by assumption. split; [|now rewrite GetHex_spec].
  destruct (arith_SetHex_spec W (HexStr (rev (ArithUint.bytes_of a)))) as [W2 V2]; [now apply bytes_HexStr, Forall_rev|].
  apply (value_inj W); try assumption. rewrite V2, (proj1 (hex_number_HexStr _ Hb)), le_combine_bytes_of by apply Ha.
  apply Z.mod_small. now apply value_bound.
Qed.

Lemma hex_numbers_witness :
  le_combine (SetHex 2 (str " 0x12345g")) = 0x2345 /\ hex_number (str " 0x12345g") = 0x12345.
Proof.
  split; [|vm_compute; reflexivity].
  destruct (hex_numbers 2 0 [0; 0] [] (str " 0x12345g")) as (_ & _ & _ & _ & H & _).
  - reflexivity.
  - apply words_check; reflexivity.
  - split; [reflexivity | constructor].
  - apply words_check; reflexivity.
  - rewrite H. vm_compute. reflexivity.
Defined.
