(* ===== verification/Base58.v ===== *)
(** Base 58: base58.cpp without the checksum; and base 58 as positional notation: the loops
    compute digits without leading zeros, the allocated vectors are large enough, and decoding
    inverts encoding. *)
From Stdlib Require Import Ascii String ZifyNat.
From S2P Require Import Prelude StrEncodings BaseCodec.
Import StrEncodings.

Module Base58.

Definition pszBase58 : list Z := str "123456789ABCDEFGHJKLMNPQRSTUVWXYZabcdefghijkmnopqrstuvwxyz".

(** The inner loop of both functions, [b = b * mul + carry] on a vector of digits in
    base [base]. The vector is kept in the order of its reverse iterator, from the
    last element; the result is the carry, the number [i] of elements visited and the
    vector. *)
Fixpoint carry_loop (mul base carry : Z) (i len : nat) (it : list Z) : Z * nat * list Z :=
  match it with
  | [] => (carry, i, [])
  | x :: it' =>
      if negb (carry =? 0) || (i <? len)%nat then
        let carry := carry + mul * x in
        let '(c, n, r) := carry_loop mul base (carry / base) (i + 1) len it' in
        (c, n, carry mod base :: r)
      else (carry, i, it)
  end.

(** [strchr(pszBase58, c) - pszBase58] for a character that is not NUL. *)
Fixpoint strchr_from (i : Z) (s : list Z) (c : Z) : option Z :=
  match s with
  | [] => None
  | x :: s => if x =? c then Some i else strchr_from (i + 1) s c
  end.
Definition strchr (s : list Z) (c : Z) : option Z := strchr_from 0 s c.

(** What a call can come to: a failed assert, [false], or [true] with a vector. *)
Inductive outcome := assert_failed | failed | decoded (vch : list Z).

(** Leading [1]s: [None] when there are more than [max_ret_len]. *)
Fixpoint count_ones (max_ret_len : Z) (zeroes : nat) (psz : list Z) : option (nat * list Z) :=
  match psz with
  | [] => Some (zeroes, psz)
  | c :: psz' =>
      if c =? chr "1" then
        if max_ret_len <? Z.of_nat (S zeroes) then None else count_ones max_ret_len (S zeroes) psz'
      else Some (zeroes, psz)
  end.

(** The loop over the characters: the vector, its length and where it stops. *)
Inductive chars_result := chars_assert | chars_false | chars_done (b256 : list Z) (len : nat) (psz : list Z).

Fixpoint decode_loop (max_ret_len : Z) (zeroes : nat) (b256 : list Z) (len : nat) (psz : list Z) : chars_result :=
  match psz with
  | [] => chars_done b256 len psz
  | c :: psz' =>
      if negb (c =? 0) && negb (isspace c) then
        match strchr pszBase58 c with
        | None => chars_false
        | Some ch =>
            let '(carry, i, b256) := carry_loop 58 256 ch 0 len b256 in
            if negb (carry =? 0) then chars_assert
            else if max_ret_len <? Z.of_nat (i + zeroes) then chars_false
            else decode_loop max_ret_len zeroes b256 i psz'
        end
      else chars_done b256 len psz
  end.

(** Skips spaces while [*psz] is not NUL. *)
Definition DecodeBase58 (psz : list Z) (max_ret_len : Z) : outcome :=
  let psz := skip_spaces psz in
  match count_ones max_ret_len 0 psz with
  | None => failed
  | Some (zeroes, psz) =>
      let size := (length (c_str psz) * 733 / 1000 + 1)%nat in
      match decode_loop max_ret_len zeroes (repeat 0 size) 0 psz with
      | chars_assert => assert_failed
      | chars_false => failed
      | chars_done b256 len psz =>
          let psz := skip_spaces psz in
          if negb (deref psz =? 0) then failed
          else decoded (repeat 0 zeroes ++ rev (firstn len b256))
      end
  end.

(** The overload on strings rejects those with a NUL inside. *)
Definition ValidAsCString (s : list Z) : bool := (length s =? length (c_str s))%nat.

Definition DecodeBase58_string (s : list Z) (max_ret_len : Z) : outcome :=
  if ValidAsCString s then DecodeBase58 s max_ret_len else failed.

Fixpoint skip_zeroes (zeroes : nat) (p : list Z) : nat * list Z :=
  match p with
  | [] => (zeroes, [])
  | c :: p' => if c =? 0 then skip_zeroes (S zeroes) p' else (zeroes, p)
  end.

(** The loop over the bytes; [None] when the assert fails. *)
Fixpoint encode_loop (b58 : list Z) (len : nat) (pbegin : list Z) : option (list Z * nat) :=
  match pbegin with
  | [] => Some (b58, len)
  | c :: pbegin =>
      let '(carry, i, b58) := carry_loop 256 58 c 0 len b58 in
      if negb (carry =? 0) then None else encode_loop b58 i pbegin
  end.

Definition EncodeBase58 (input : list Z) : option (list Z) :=
  let '(zeroes, pbegin) := skip_zeroes 0 input in
  let size := (length pbegin * 138 / 100 + 1)%nat in
  match encode_loop (repeat 0 size) 0 pbegin with
  | None => None
  | Some (b58, len) =>
      let it := snd (skip_zeroes 0 (rev (firstn len b58))) in
      Some (fold_left (fun s d => s ++ [pszBase58.[Z.to_nat d]]) it (repeat (chr "1") zeroes))
  end.

End Base58.

Import Base58.

(** * Positional notation *)

(** The value of digits, most significant first. *)
Definition num (b : Z) (l : list Z) : Z := fold_left (fun v x => v * b + x) l 0.

Definition digit (b x : Z) : Prop := 0 <= x < b.

(** Digits without a leading zero. *)
Definition canonical (b : Z) (l : list Z) : Prop := Forall (digit b) l /\ hd 1 l <> 0.

(** The digits of a number; [v] has at most [log2 v + 1] of them. *)
Fixpoint digits_fuel (fuel : nat) (b v : Z) : list Z :=
  match fuel with
  | O => []
  | S fuel => if v =? 0 then [] else digits_fuel fuel b (v / b) ++ [v mod b]
  end.
Definition digits (b v : Z) : list Z := digits_fuel (Z.to_nat (Z.log2 v + 1)) b v.

Lemma num_snoc b l x : num b (l ++ [x]) = num b l * b + x.
Proof. unfold num. now rewrite fold_left_app. Qed.

Section Base.
Context (b : Z) (Hb : 2 <= b).

Lemma num_bound l : Forall (digit b) l -> 0 <= num b l < b ^ Z.of_nat (length l).
Proof.
  induction l as [|x l IH] using rev_ind; intros H; [cbn; lia|].
  apply Forall_app in H as [Hl Hx]. apply Forall_inv in Hx. specialize (IH Hl). unfold digit in Hx.
  rewrite num_snoc, length_app. cbn [length]. rewrite Nat2Z.inj_add, Z.pow_add_r by lia. change (b ^ Z.of_nat 1) with (b ^ 1). nia.
Qed.

Lemma num_cons x l : num b (x :: l) = x * b ^ Z.of_nat (length l) + num b l.
Proof.
  induction l as [|y l IH] using rev_ind; [cbn; lia|].
  rewrite app_comm_cons, !num_snoc, IH, length_app. cbn [length].
  rewrite Nat2Z.inj_add, Z.pow_add_r by lia. change (b ^ Z.of_nat 1) with (b ^ 1). lia.
Qed.

Lemma num_app_le q p : Forall (digit b) q -> Forall (digit b) p -> num b q <= num b (q ++ p).
Proof.
  intros Hq Hp. revert q Hq; induction Hp as [|x p Hx Hp IH]; intros q Hq; [rewrite app_nil_r; lia|].
  replace (q ++ x :: p) with ((q ++ [x]) ++ p) by now rewrite <- app_assoc.
  etransitivity; [|apply IH; apply Forall_app; auto]. rewrite num_snoc. pose proof (num_bound q Hq). unfold digit in Hx. nia.
Qed.

Lemma num_zeros z l : num b (repeat 0 z ++ l) = num b l.
Proof. induction z as [|z IH]; [reflexivity|]. cbn [repeat app]. rewrite num_cons, IH. lia. Qed.

Lemma num_inj l l' :
  Forall (digit b) l -> Forall (digit b) l' -> length l = length l' -> num b l = num b l' -> l = l'.
Proof.
  revert l'; induction l as [|x l IH] using rev_ind; intros l' Hl Hl' E V.
  - now destruct l'.
  - destruct l' as [|y l' _] using rev_ind; [rewrite length_app in E; cbn in E; lia|].
    apply Forall_app in Hl as [Hl Hx]. apply Forall_app in Hl' as [Hl' Hy].
    apply Forall_inv in Hx, Hy. rewrite !num_snoc in V. rewrite !length_app in E. cbn in E. unfold digit in *.
    destruct (Z.div_mod_unique b (num b l) (num b l') x y) as [V1 ->]; [lia | lia | lia |].
    f_equal. apply IH; auto. lia.
Qed.

(** The number of digits is determined by the number. *)
Lemma canonical_bounds l :
  canonical b l -> (l = [] /\ num b l = 0) \/ b ^ (Z.of_nat (length l) - 1) <= num b l < b ^ Z.of_nat (length l).
Proof.
  intros [Hl Hh]. destruct l as [|x l]; [now left|]. right. pose proof (num_bound _ Hl).
  split; [|lia]. cbn [hd] in Hh. rewrite num_cons. apply Forall_cons_iff in Hl as [Hx Hl]. pose proof (num_bound _ Hl).
  unfold digit in Hx. cbn [length]. replace (Z.of_nat (S (length l)) - 1) with (Z.of_nat (length l)) by lia. nia.
Qed.

Lemma canonical_inj l l' : canonical b l -> canonical b l' -> num b l = num b l' -> l = l'.
Proof.
  intros Hl Hl' E. pose proof (canonical_bounds l Hl) as B. pose proof (canonical_bounds l' Hl') as B'.
  assert (P : forall n, 0 <= n -> 0 < b ^ n) by (intros; apply Z.pow_pos_nonneg; lia).
  assert (M : forall n n', 0 <= n <= n' -> b ^ n <= b ^ n') by (intros; apply Z.pow_le_mono_r; lia).
  apply num_inj; [apply Hl | apply Hl' | | assumption].
  destruct B as [[-> V]|B]; destruct B' as [[-> V']|B']; [reflexivity | | |].
  - specialize (P (Z.of_nat (length l') - 1)). destruct l'; [reflexivity | cbn [length] in *; lia].
  - specialize (P (Z.of_nat (length l) - 1)). destruct l; [reflexivity | cbn [length] in *; lia].
  - pose proof (M (Z.of_nat (length l)) (Z.of_nat (length l') - 1)).
    pose proof (M (Z.of_nat (length l')) (Z.of_nat (length l) - 1)). lia.
Qed.

Lemma digits_fuel_spec fuel v :
  0 <= v < 2 ^ Z.of_nat fuel -> num b (digits_fuel fuel b v) = v /\ canonical b (digits_fuel fuel b v).
Proof.
  revert v; induction fuel as [|fuel IH]; intros v Hv; cbn [digits_fuel].
  - cbn in *. split; [lia|]. split; [constructor | cbn; lia].
  - destruct (Z.eqb_spec v 0) as [->|Hnz]; [split; [reflexivity | split; [constructor | cbn; lia]]|].
    rewrite Nat2Z.inj_succ, Z.pow_succ_r in Hv by lia.
    assert (Hq : v / b <= v / 2) by (apply Z.div_le_compat_l; lia).
    assert (v / 2 < 2 ^ Z.of_nat fuel) by (apply Z.div_lt_upper_bound; lia).
    assert (0 <= v / b) by (apply Z.div_pos; lia).
    destruct (IH (v / b)) as [E [Hd Hh]]; [lia|].
    pose proof (Z.div_mod v b ltac:(lia)) as D. pose proof (Z.mod_pos_bound v b ltac:(lia)).
    split; [rewrite num_snoc, E; lia|]. split; [apply Forall_app; split; [assumption | repeat constructor; apply Z.mod_pos_bound; lia]|].
    destruct (digits_fuel fuel b (v / b)) as [|x r] eqn:Er; [|exact Hh].
    cbn [app hd]. cbn in E. nia.
Qed.

Lemma digits_spec v : 0 <= v -> num b (digits b v) = v /\ canonical b (digits b v).
Proof.
  intros Hv. apply digits_fuel_spec. split; [assumption|]. destruct (Z.eq_dec v 0) as [->|]; [reflexivity|].
  pose proof (Z.log2_spec v ltac:(lia)). pose proof (Z.log2_nonneg v). rewrite Z2Nat.id by lia.
  replace (Z.log2 v + 1) with (Z.succ (Z.log2 v)) by lia. lia.
Qed.

Lemma digits_num l : canonical b l -> digits b (num b l) = l.
Proof.
  intros Hl. pose proof (num_bound l (proj1 Hl)). destruct (digits_spec (num b l)) as [E C]; [lia|]. now apply canonical_inj.
Qed.
End Base.

Lemma length_digits_le b v v' : 2 <= b -> 0 <= v <= v' -> (length (digits b v) <= length (digits b v'))%nat.
Proof.
  intros Hb Hv. destruct (digits_spec b Hb v) as [E C]; [lia|]. destruct (digits_spec b Hb v') as [E' C']; [lia|].
  destruct (canonical_bounds b Hb _ C) as [[-> _]|B]; [cbn; lia|]. pose proof (num_bound b Hb _ (proj1 C')) as B'.
  destruct (Nat.le_gt_cases (length (digits b v)) (length (digits b v'))) as [|L]; [assumption|].
  pose proof (Z.pow_le_mono_r b (Z.of_nat (length (digits b v'))) (Z.of_nat (length (digits b v)) - 1) ltac:(lia) ltac:(lia)). lia.
Qed.

(** * The inner loop *)

(** The vector in the order of the reverse iterator, of which [len] elements are used:
    the digits above are zero, the highest used one is not. *)
Definition used (b : Z) (len : nat) (v : list Z) : Prop :=
  Forall (digit b) v /\ (len <= length v)%nat /\ Forall (eq 0) (skipn len v) /\ (len = 0%nat \/ v.[(len - 1)%nat] <> 0).

Definition le_num (b : Z) (v : list Z) : Z := num b (rev v).

Lemma le_num_cons b x v : le_num b (x :: v) = le_num b v * b + x.
Proof. unfold le_num. cbn [rev]. apply num_snoc. Qed.

Lemma used_tail b len x v : used b len (x :: v) -> used b (len - 1) v.
Proof.
  intros (Hd & Hl & Hz & Ht). apply Forall_inv_tail in Hd. cbn [length] in Hl.
  split; [assumption|]. split; [lia|]. destruct len as [|[|len]]; cbn in *.
  - apply Forall_inv_tail in Hz. auto.
  - auto.
  - destruct Ht as [|Ht]; [lia|]. split; [assumption|]. right. now rewrite Nat.sub_0_r in *.
Qed.

Section Carry.
Context (mul b : Z) (Hb : 2 <= b) (Hmul : 1 <= mul).

Lemma carry_stop v : Forall (eq 0) v -> Forall (digit b) v /\ le_num b v = 0.
Proof.
  induction 1 as [|x v <- Hv [IH1 IH2]]; [split; [constructor | reflexivity]|].
  split; [constructor; [unfold digit; lia | assumption]|]. rewrite le_num_cons, IH2. lia.
Qed.

Lemma le_num_bound v : Forall (digit b) v -> 0 <= le_num b v < b ^ Z.of_nat (length v).
Proof. intros H. unfold le_num. rewrite <- length_rev. apply num_bound; [assumption | now apply Forall_rev]. Qed.

(** [len - i] elements from the current one on are used. *)
Lemma base_carry_spec v carry i len :
  0 <= carry -> used b (len - i) v -> carry + mul * le_num b v < b ^ Z.of_nat (length v) ->
  exists k r, carry_loop mul b carry i len v = (0, (i + k)%nat, r) /\ used b k r /\ (len - i <= k)%nat /\
            length r = length v /\ le_num b r = carry + mul * le_num b v.
Proof.
  revert carry i; induction v as [|x v IH]; intros carry i Hc (Hd & Hlen & Hz & Ht) Hlt; cbn [carry_loop].
  - cbn in Hlt. assert (carry = 0) as -> by lia. exists 0%nat, []. rewrite Nat.add_0_r. cbn [length] in Hlen.
    repeat split; cbn; auto; lia.
  - destruct (negb (carry =? 0) || (i <? len)%nat) eqn:Go.
    + apply Forall_cons_iff in Hd as [Hx Hd]. unfold digit in Hx. rewrite le_num_cons in Hlt.
      pose proof (le_num_bound v Hd) as Bv. set (total := carry + mul * x).
      assert (Ht0 : 0 <= total) by (unfold total; nia).
      pose proof (Z.div_mod total b ltac:(lia)) as D. pose proof (Z.mod_pos_bound total b ltac:(lia)) as Bm.
      assert (Hq : 0 <= total / b) by (apply Z.div_pos; lia).
      destruct (IH (total / b) (i + 1)%nat) as (k & r & E & Hu & Hk & Hl & Hn).
      * assumption.
      * replace (len - (i + 1))%nat with (len - i - 1)%nat by lia. apply (used_tail b (len - i) x). repeat split; auto.
      * cbn [length] in Hlt. rewrite Nat2Z.inj_succ, Z.pow_succ_r in Hlt by lia. unfold total in *. nia.
      * rewrite E. exists (S k), (total mod b :: r). split; [do 2 f_equal; lia|].
        destruct Hu as (Hd' & Hl' & Hz' & Ht'). cbn [length] in Hlen |- *. repeat split; try lia.
        -- constructor; assumption.
        -- cbn [length]. lia.
        -- exact Hz'.
        -- right. destruct k as [|k]; [|destruct Ht' as [|Ht']; [lia|]; cbn [Nat.sub nth] in Ht' |- *; now rewrite Nat.sub_0_r in Ht'].
           cbn [Nat.sub nth]. destruct (carry_stop r Hz') as [_ Er]. rewrite Er in Hn.
           assert (total / b = 0) by nia. assert (total <> 0); [|lia]. unfold total.
           destruct (Z.eqb_spec carry 0) as [->|]; [|nia]. cbn [negb orb] in Go. apply Nat.ltb_lt in Go.
           destruct Ht as [|Ht]; [lia|]. replace (len - i - 1)%nat with 0%nat in Ht by lia. cbn in Ht. nia.
        -- rewrite !le_num_cons, Hn. unfold total in *. nia.
    + apply Bool.orb_false_iff in Go as [Go1 Go2]. apply Bool.negb_false_iff, Z.eqb_eq in Go1 as ->. apply Nat.ltb_ge in Go2.
      replace (len - i)%nat with 0%nat in * by lia. exists 0%nat, (x :: v). rewrite Nat.add_0_r.
      destruct (carry_stop (x :: v) Hz) as [_ E]. rewrite E. repeat split; auto; lia.
Qed.
End Carry.

(** The used part, read from the most significant digit, is canonical. *)
Lemma used_canonical b len v :
  2 <= b -> used b len v -> canonical b (rev (firstn len v)) /\ num b (rev (firstn len v)) = le_num b v.
Proof.
  intros Hb (Hd & Hl & Hz & Ht). split.
  - split; [now apply Forall_rev, Forall_take|].
    destruct len as [|len]; [cbn; lia|]. destruct Ht as [|Ht]; [lia|]. cbn [Nat.sub] in Ht. rewrite Nat.sub_0_r in Ht.
    replace (firstn (S len) v) with (firstn len v ++ [v.[len]]); [now rewrite rev_app_distr|].
    clear -Hl. revert len Hl; induction v as [|x v IH]; intros [|len] Hl; cbn in *; try lia; [reflexivity|]. f_equal. apply IH. lia.
  - unfold le_num. rewrite <- (firstn_skipn len v) at 2. rewrite rev_app_distr.
    assert (E : skipn len v = repeat 0 (length (skipn len v))).
    { clear -Hz. induction Hz as [|x l <- _ IH]; cbn; congruence. }
    rewrite E, rev_repeat. symmetry. now apply num_zeros.
Qed.

Lemma used_digits b len v :
  2 <= b -> used b len v -> rev (firstn len v) = digits b (le_num b v) /\ len = length (digits b (le_num b v)).
Proof.
  intros Hb Hu. destruct (used_canonical b len v Hb Hu) as [C N]. rewrite <- N, (digits_num b Hb) by assumption.
  split; [reflexivity|]. rewrite length_rev, length_firstn. destruct Hu as (_ & H & _). lia.
Qed.

Lemma used_zeros b n : 2 <= b -> used b 0 (repeat 0 n) /\ le_num b (repeat 0 n) = 0.
Proof.
  intros Hb. assert (H : Forall (eq 0) (repeat 0 n)) by (apply Forall_forall; intros x Hx; symmetry; now apply repeat_spec in Hx).
  destruct (carry_stop b Hb _ H) as [Hd E]. repeat split; auto; lia.
Qed.

(** * The sizes of the vectors *)

Lemma pow_compare a b p q n k :
  0 < a -> 0 < b -> (0 < q)%nat -> a ^ Z.of_nat q <= b ^ Z.of_nat p -> (p * n <= q * k)%nat -> a ^ Z.of_nat n <= b ^ Z.of_nat k.
Proof.
  intros Ha Hb Hq H Hn. destruct (Z.le_gt_cases (a ^ Z.of_nat n) (b ^ Z.of_nat k)) as [|C]; [assumption|]. exfalso.
  assert (C1 : (b ^ Z.of_nat k) ^ Z.of_nat q < (a ^ Z.of_nat n) ^ Z.of_nat q).
  { apply Z.pow_lt_mono_l; [lia|]. split; [apply Z.pow_nonneg; lia | assumption]. }
  rewrite <- !Z.pow_mul_r in C1 by lia.
  assert (C2 : (a ^ Z.of_nat q) ^ Z.of_nat n <= (b ^ Z.of_nat p) ^ Z.of_nat n).
  { apply Z.pow_le_mono_l. split; [apply Z.pow_nonneg; lia | assumption]. }
  rewrite <- !Z.pow_mul_r in C2 by lia.
  assert (C3 : b ^ (Z.of_nat p * Z.of_nat n) <= b ^ (Z.of_nat k * Z.of_nat q)) by (apply Z.pow_le_mono_r; nia).
  rewrite (Z.mul_comm (Z.of_nat q)) in C2. lia.
Qed.

Lemma encode_size n : 256 ^ Z.of_nat n <= 58 ^ Z.of_nat (n * 138 / 100 + 1).
Proof. apply (pow_compare 256 58 138 100); [lia | lia | lia | vm_compute; discriminate | lia]. Qed.

Lemma decode_size n : 58 ^ Z.of_nat n <= 256 ^ Z.of_nat (n * 733 / 1000 + 1).
Proof. apply (pow_compare 58 256 733 1000); [lia | lia | lia | vm_compute; discriminate | lia]. Qed.

(** * Encoding *)

(** The text of a byte string: a [1] for every leading zero byte, then the digits of
    the number. *)
Fixpoint leading_zeros (l : list Z) : nat :=
  match l with
  | x :: l => if x =? 0 then S (leading_zeros l) else 0
  | [] => 0
  end.

Definition alpha (d : Z) : Z := pszBase58.[Z.to_nat d].

Definition base58_text (l : list Z) : list Z :=
  repeat (chr "1") (leading_zeros l) ++ map alpha (digits 58 (num 256 l)).

Lemma leading_zeros_split l :
  l = repeat 0 (leading_zeros l) ++ skipn (leading_zeros l) l /\ hd 1 (skipn (leading_zeros l) l) <> 0.
Proof.
  induction l as [|x l [IH1 IH2]]; [split; [reflexivity | cbn; lia]|]. cbn [leading_zeros].
  destruct (Z.eqb_spec x 0) as [->|]; [|now split]. cbn [repeat skipn app]. split; [now f_equal | assumption].
Qed.

Lemma skip_zeroes_spec l z : skip_zeroes z l = ((z + leading_zeros l)%nat, skipn (leading_zeros l) l).
Proof.
  revert z; induction l as [|x l IH]; intros z; cbn [skip_zeroes leading_zeros]; [now rewrite Nat.add_0_r|].
  destruct (Z.eqb_spec x 0) as [->|]; [rewrite IH; cbn [skipn]; f_equal; lia | now rewrite Nat.add_0_r].
Qed.

Lemma bytes_digits l : bytes l <-> Forall (digit 256) l.
Proof. reflexivity. Qed.

Lemma encode_loop_spec p : forall don v len,
  Forall (digit 256) don -> Forall (digit 256) p -> used 58 len v -> le_num 58 v = num 256 don ->
  num 256 (don ++ p) < 58 ^ Z.of_nat (length v) ->
  exists v' len', encode_loop v len p = Some (v', len') /\ used 58 len' v' /\ le_num 58 v' = num 256 (don ++ p).
Proof.
  induction p as [|c p IH]; intros don v len Hdon Hp Hu Hn Hlt; cbn [encode_loop].
  - exists v, len. now rewrite app_nil_r.
  - apply Forall_cons_iff in Hp as [Hc Hp].
    assert (Hs : num 256 (don ++ [c]) = c + 256 * le_num 58 v) by (rewrite num_snoc, Hn; ring).
    assert (Hd' : Forall (digit 256) (don ++ [c])) by (apply Forall_app; auto).
    replace (don ++ c :: p) with ((don ++ [c]) ++ p) in * by now rewrite <- app_assoc.
    assert (Hb : num 256 (don ++ [c]) <= num 256 ((don ++ [c]) ++ p)).
    { apply num_app_le; auto; lia. }
    destruct (base_carry_spec 256 58 ltac:(lia) ltac:(lia) v c 0 len) as (k & r & E & Hu' & _ & Hl & Hn').
    + apply Hc.
    + now rewrite Nat.sub_0_r.
    + lia.
    + rewrite E. cbn [Z.eqb negb Nat.add]. rewrite <- Hl in Hlt. apply IH; auto. now rewrite Hn', Hs.
Qed.

Lemma EncodeBase58_spec l : bytes l -> EncodeBase58 l = Some (base58_text l).
Proof.
  intros Hl. unfold EncodeBase58. rewrite skip_zeroes_spec. destruct (leading_zeros_split l) as [El Hh].
  set (p := skipn (leading_zeros l) l) in *. assert (Hp : Forall (digit 256) p) by (apply Forall_drop, Hl).
  destruct (used_zeros 58 (length p * 138 / 100 + 1) ltac:(lia)) as [U0 N0].
  destruct (encode_loop_spec p [] (repeat 0 (length p * 138 / 100 + 1)) 0) as (v & len & E & Hu & Hn); auto.
  { rewrite repeat_length. cbn [app]. pose proof (num_bound 256 ltac:(lia) p Hp). pose proof (encode_size (length p)). lia. }
  rewrite E, skip_zeroes_spec. cbn [snd app Nat.add] in *. destruct (used_canonical 58 len v ltac:(lia) Hu) as [C N].
  set (d := rev (firstn len v)) in *.
  replace (skipn (leading_zeros d) d) with d by (destruct C as [_ C]; destruct d as [|x d]; [reflexivity|]; cbn in C |- *; now apply Z.eqb_neq in C as ->).
  rewrite fold_left_snoc. unfold base58_text, alpha. do 3 f_equal.
  rewrite <- (digits_num 58 ltac:(lia) d C), N, Hn, El at 1. now rewrite num_zeros.
Qed.

(** * Decoding *)

Lemma strchr_spec c :
  is_byte c ->
  match strchr pszBase58 c with
  | Some d => digit 58 d /\ alpha d = c
  | None => forall d, digit 58 d -> alpha d <> c
  end.
Proof.
  pose (ok c := match strchr pszBase58 c with
                | Some d => (0 <=? d) && (d <? 58) && (alpha d =? c)
                | None => forallb (fun d => negb (alpha d =? c)) (map Z.of_nat (seq 0 58)) end).
  intros Hc. assert (H : ok c = true) by (apply (forallb_below 256 ok); [vm_compute; reflexivity | exact Hc]). unfold ok in H.
  destruct (strchr pszBase58 c); [unfold digit; lia|]. intros d Hd E.
  pose proof (forallb_below 58 _ H d Hd) as F. cbv beta in F. apply Bool.negb_true_iff, Z.eqb_neq in F. contradiction.
Qed.

Lemma alpha_facts d :
  digit 58 d -> strchr pszBase58 (alpha d) = Some d /\ 0 < alpha d < 256 /\ isspace (alpha d) = false /\ (alpha d = chr "1" <-> d = 0).
Proof.
  pose (ok d := match strchr pszBase58 (alpha d) with Some d' => d =? d' | None => false end && (0 <? alpha d) && (alpha d <? 256) &&
                negb (isspace (alpha d)) && Bool.eqb (alpha d =? chr "1") (d =? 0)).
  intros Hd. assert (H : ok d = true) by (apply (forallb_below 58 ok); [vm_compute; reflexivity | exact Hd]). unfold ok in H.
  rewrite !Bool.andb_true_iff, Bool.eqb_true_iff in H. destruct (strchr pszBase58 (alpha d)) as [d'|]; [|intuition discriminate].
  destruct H as ((((H1 & H2) & H3) & H4) & H5). apply Z.eqb_eq in H1 as <-. apply Bool.negb_true_iff in H4.
  repeat split; try assumption; lia.
Qed.

(** What follows the digits: the end, a space or a character outside of the
    alphabet. *)
Definition stops58 (rest : list Z) : Prop := forall d, digit 58 d -> rest <> [] -> alpha d <> deref rest.

Lemma decode_loop_spec max z ds : forall don v len rest,
  Forall (digit 58) don -> Forall (digit 58) ds -> used 256 len v -> le_num 256 v = num 58 don ->
  num 58 (don ++ ds) < 256 ^ Z.of_nat (length v) -> Z.of_nat (len + z) <= max ->
  let len' := length (digits 256 (num 58 (don ++ ds))) in
  max < Z.of_nat (len' + z) /\ decode_loop max z v len (map alpha ds ++ rest) = chars_false \/
  Z.of_nat (len' + z) <= max /\
  exists v', used 256 len' v' /\ le_num 256 v' = num 58 (don ++ ds) /\
             decode_loop max z v len (map alpha ds ++ rest) = decode_loop max z v' len' rest.
Proof.
  induction ds as [|c ds IH]; intros don v len rest Hdon Hp Hu Hn Hlt Hm.
  - rewrite app_nil_r. destruct (used_digits 256 len v ltac:(lia) Hu) as [_ E]. rewrite Hn in E. rewrite <- E.
    right. split; [assumption|]. now exists v.
  - apply Forall_cons_iff in Hp as [Hc Hp]. destruct (alpha_facts c Hc) as (Ec & Bc & Sc & _).
    assert (Hs : num 58 (don ++ [c]) = c + 58 * le_num 256 v) by (rewrite num_snoc, Hn; ring).
    assert (Hd' : Forall (digit 58) (don ++ [c])) by (apply Forall_app; auto).
    replace (don ++ c :: ds) with ((don ++ [c]) ++ ds) in * by now rewrite <- app_assoc.
    assert (Hb : num 58 (don ++ [c]) <= num 58 ((don ++ [c]) ++ ds)) by (apply num_app_le; auto; lia).
    destruct (base_carry_spec 58 256 ltac:(lia) ltac:(lia) v c 0 len) as (k & r & E & Hu' & _ & Hl & Hn').
    { apply Hc. } { now rewrite Nat.sub_0_r. } { lia. }
    rewrite <- Hs in Hn'. rewrite <- Hl in Hlt.
    cbn [map app decode_loop]. rewrite Ec, Sc, E. cbn [Nat.add]. replace (alpha c =? 0) with false by lia. cbn [negb andb Z.eqb].
    destruct (Z.ltb_spec max (Z.of_nat (k + z))) as [Hbig|Hfit]; [|now apply IH].
    destruct (used_digits 256 k r ltac:(lia) Hu') as [_ Ek]. rewrite Hn' in Ek.
    pose proof (num_bound 58 ltac:(lia) _ Hd').
    pose proof (length_digits_le 256 (num 58 (don ++ [c])) (num 58 ((don ++ [c]) ++ ds)) ltac:(lia) ltac:(lia)).
    left. split; [lia | reflexivity].
Qed.

Lemma decode_loop_stop max z v len rest :
  bytes rest -> stops58 rest ->
  decode_loop max z v len rest = chars_done v len rest \/
  (decode_loop max z v len rest = chars_false /\ deref (skip_spaces rest) <> 0).
Proof.
  intros Hb Hs. destruct rest as [|c rest]; [now left|]. cbn [decode_loop].
  destruct (Z.eqb_spec c 0) as [->|Hc]; [now left|]. destruct (isspace c) eqn:Es; [now left|]. cbn [negb andb].
  apply Forall_inv in Hb. pose proof (strchr_spec c Hb) as H. destruct (strchr pszBase58 c) as [d|].
  - exfalso. destruct H as [Hd E]. now apply (Hs d Hd).
  - right. split; [reflexivity|]. cbn [skip_spaces]. now rewrite Es.
Qed.

(** * The parts of a string *)

Lemma skip_spaces_split s :
  exists a, s = a ++ skip_spaces s /\ Forall (fun c => isspace c = true) a /\ isspace (deref (skip_spaces s)) = false.
Proof.
  induction s as [|c s (a & E & Ha & Hn)]; [exists []; repeat split; auto|]. cbn [skip_spaces].
  destruct (isspace c) eqn:Ec; [exists (c :: a); cbn; rewrite <- E; auto|]. exists []. auto.
Qed.

Lemma skip_spaces_app a s : Forall (fun c => isspace c = true) a -> skip_spaces (a ++ s) = skip_spaces s.
Proof. induction 1 as [|c a Hc Ha IH]; [reflexivity|]. cbn. now rewrite Hc. Qed.

Lemma spaces_nonzero a : Forall (fun c => isspace c = true) a -> Forall (fun c => c <> 0) a.
Proof. apply Forall_impl. intros c H ->. discriminate H. Qed.

(** Every string is a run of ones, a number without leading zero digit, and a rest. *)
Lemma text_split p :
  bytes p -> exists z ds rest, p = repeat (chr "1") z ++ map alpha ds ++ rest /\ canonical 58 ds /\ stops58 rest /\ bytes rest.
Proof.
  intros Hp.
  assert (H : exists ds rest, p = map alpha ds ++ rest /\ Forall (digit 58) ds /\ stops58 rest /\ bytes rest).
  { induction Hp as [|c p Hc Hp (ds & rest & E & Hd & Hs & Hr)]; [exists [], []; repeat split; auto; intros d _ H; contradiction|].
    pose proof (strchr_spec c Hc) as H. destruct (strchr pszBase58 c) as [d|].
    - destruct H as [Hdig Ed]. exists (d :: ds), rest. cbn [map app]. rewrite Ed, <- E. auto.
    - exists [], (c :: p). repeat split; auto. intros d Hd' _. now apply H. }
  destruct H as (ds & rest & -> & Hd & Hs & Hr).
  destruct (leading_zeros_split ds) as [E Hh]. exists (leading_zeros ds), (skipn (leading_zeros ds) ds), rest.
  repeat split; auto; [|now apply Forall_drop]. rewrite E at 1. now rewrite map_app, map_repeat, <- app_assoc.
Qed.

Lemma count_ones_spec max z z0 q :
  deref q <> chr "1" -> Z.of_nat z0 <= max ->
  count_ones max z0 (repeat (chr "1") z ++ q) = if max <? Z.of_nat (z0 + z) then None else Some ((z0 + z)%nat, q).
Proof.
  intros Hq. revert z0; induction z as [|z IH]; intros z0 Hz; cbn [repeat app].
  - rewrite Nat.add_0_r. destruct (Z.ltb_spec max (Z.of_nat z0)); [lia|].
    destruct q as [|c q]; [reflexivity|]. cbn in Hq |- *. now apply Z.eqb_neq in Hq as ->.
  - cbn [count_ones]. rewrite Z.eqb_refl. destruct (Z.ltb_spec max (Z.of_nat (S z0))) as [|Hle].
    + destruct (Z.ltb_spec max (Z.of_nat (z0 + S z))); [reflexivity | lia].
    + rewrite IH by assumption. now rewrite Nat.add_succ_r.
Qed.

Lemma chars_nonzero ds : Forall (digit 58) ds -> Forall (fun c => c <> 0) (map alpha ds).
Proof. intros H. apply Forall_map. eapply Forall_impl; [|exact H]. intros d Hd. apply alpha_facts in Hd as (_ & B & _). lia. Qed.

Lemma head_not_one ds rest : canonical 58 ds -> stops58 rest -> deref (map alpha ds ++ rest) <> chr "1".
Proof.
  intros [Hd Hh] Hs. destruct ds as [|d ds]; cbn [map app].
  - destruct rest as [|c rest]; [discriminate|]. intros E. apply (Hs 0); [unfold digit; lia | discriminate|]. now rewrite E.
  - cbn in Hh |- *. intros E. apply Forall_inv in Hd. apply alpha_facts in Hd as (_ & _ & _ & H). tauto.
Qed.

(** The result, from the parts of the string. *)
Lemma DecodeBase58_parts s max z ds rest :
  0 <= max -> skip_spaces s = repeat (chr "1") z ++ map alpha ds ++ rest -> canonical 58 ds -> stops58 rest -> bytes rest ->
  let l := repeat 0 z ++ digits 256 (num 58 ds) in
  DecodeBase58 s max =
  if (max <? Z.of_nat (length l)) || negb (deref (skip_spaces rest) =? 0) then failed else decoded l.
Proof.
  intros Hm Hp Hc Hs Hb l. unfold DecodeBase58. rewrite Hp, count_ones_spec by (auto using head_not_one || lia). cbn [Nat.add].
  assert (Hlen : length l = (length (digits 256 (num 58 ds)) + z)%nat) by (unfold l; rewrite length_app, repeat_length; lia).
  destruct (Z.ltb_spec max (Z.of_nat z)) as [Hbig|Hz].
  { destruct (Z.ltb_spec max (Z.of_nat (length l))); [reflexivity | lia]. }
  destruct Hc as [Hd Hh]. set (size := (_ / _ + 1)%nat). destruct (used_zeros 256 size ltac:(lia)) as [U0 N0].
  destruct (decode_loop_spec max z ds [] (repeat 0 size) 0 rest) as [[Hbig E]|(Hfit & v & Hu & Hn & E)]; auto; cbn [app] in *.
  - rewrite repeat_length. pose proof (num_bound 58 ltac:(lia) ds Hd). pose proof (decode_size (length (c_str (map alpha ds ++ rest)))) as S.
    fold size in S. rewrite c_str_app, length_app, length_map in S by now apply chars_nonzero.
    pose proof (Z.pow_le_mono_r 58 (Z.of_nat (length ds)) (Z.of_nat (length ds + length (c_str rest))) ltac:(lia) ltac:(lia)). lia.
  - rewrite E. destruct (Z.ltb_spec max (Z.of_nat (length l))); [reflexivity | lia].
  - rewrite E. destruct (Z.ltb_spec max (Z.of_nat (length l))); [lia|]. cbn [orb].
    destruct (decode_loop_stop max z v (length (digits 256 (num 58 ds))) rest Hb Hs) as [->|[-> Hj]].
    + destruct (negb _); [reflexivity|]. unfold l. do 2 f_equal. rewrite <- Hn. apply used_digits; [lia|]. now rewrite <- Hn in Hu.
    + now apply Z.eqb_neq in Hj as ->.
Qed.

(** Byte strings and the parts of their texts. *)
Lemma bytes_parts l :
  bytes l -> l = repeat 0 (leading_zeros l) ++ digits 256 (num 256 l).
Proof.
  intros Hl. destruct (leading_zeros_split l) as [E Hh]. rewrite E at 1. f_equal. symmetry. rewrite E at 1. rewrite num_zeros by lia.
  apply digits_num; [lia|]. split; [now apply Forall_drop | assumption].
Qed.

Lemma text_of_parts z ds :
  canonical 58 ds ->
  let l := repeat 0 z ++ digits 256 (num 58 ds) in
  bytes l /\ base58_text l = repeat (chr "1") z ++ map alpha ds.
Proof.
  intros C l. pose proof (num_bound 58 ltac:(lia) ds (proj1 C)). destruct (digits_spec 256 ltac:(lia) (num 58 ds)) as [E [D Hh]]; [lia|].
  split; [apply Forall_app; split; [|exact D]; apply Forall_forall; intros x Hx; apply repeat_spec in Hx as ->; unfold word; lia|].
  unfold base58_text, l. rewrite num_zeros, E, digits_num by (assumption || lia). do 2 f_equal.
  clear -Hh. induction z as [|z IH]; cbn; [|now f_equal]. destruct (digits 256 (num 58 ds)) as [|x r]; [reflexivity|].
  cbn in Hh |- *. now apply Z.eqb_neq in Hh as ->.
Qed.

Lemma c_str_split s : exists tail, s = c_str s ++ tail /\ deref tail = 0.
Proof.
  induction s as [|c s (tail & E & Ht)]; [now exists []|]. cbn [c_str].
  destruct (Z.eqb_spec c 0) as [->|]; [now exists (0 :: s)|]. exists tail. cbn. now rewrite <- E.
Qed.

Lemma isspace_not_alpha c d : digit 58 d -> isspace c = true \/ c = 0 -> alpha d <> c.
Proof. intros Hd H E. apply alpha_facts in Hd as (_ & B & S & _). subst. destruct H; [congruence | lia]. Qed.

Lemma text_head_not_space l c t : bytes l -> base58_text l = c :: t -> isspace c = false.
Proof.
  intros Hl E. pose proof (num_bound 256 ltac:(lia) l Hl). destruct (digits_spec 58 ltac:(lia) (num 256 l)) as [_ [D _]]; [lia|].
  unfold base58_text in E. destruct (leading_zeros l); cbn [repeat app] in E; [|injection E as <- _; reflexivity].
  destruct (digits 58 (num 256 l)) as [|d r]; cbn [map] in E; [discriminate|]. injection E as <- _.
  apply Forall_inv in D. now apply alpha_facts in D.
Qed.

(** Spaces before a text are skipped, and those after it when it is empty. *)
Lemma text_skip l b tail :
  bytes l -> Forall (fun c => isspace c = true) b -> bytes b -> bytes tail -> deref tail = 0 ->
  exists rest, skip_spaces (base58_text l ++ b ++ tail) = base58_text l ++ rest /\ stops58 rest /\ bytes rest /\
               deref (skip_spaces rest) = 0.
Proof.
  intros Hl Hb Bb Bt H0.
  assert (S : deref (skip_spaces (b ++ tail)) = 0).
  { rewrite skip_spaces_app by assumption. destruct tail as [|c t]; [reflexivity|]. cbn in H0. now subst c. }
  assert (Bbt : bytes (b ++ tail)) by (apply Forall_app; auto).
  destruct (base58_text l) as [|c t] eqn:Etx.
  - exists (skip_spaces (b ++ tail)). destruct (skip_spaces_split (b ++ tail)) as (x & Ex & _). repeat split; auto.
    + intros d Hd _. rewrite S. apply isspace_not_alpha; auto.
    + rewrite Ex in Bbt. now apply Forall_app in Bbt.
    + destruct (skip_spaces (b ++ tail)) as [|c r]; [reflexivity|]. cbn in S. now subst c.
  - exists (b ++ tail). repeat split; auto.
    + cbn [app skip_spaces]. now rewrite (text_head_not_space l c t Hl Etx).
    + intros d Hd Hne. apply isspace_not_alpha; [assumption|]. destruct Hb as [|x b Hx]; cbn; [now right | now left].
Qed.

Lemma decode_complete s max l :
  bytes s -> 0 <= max -> bytes l -> Z.of_nat (length l) <= max ->
  (exists a b, c_str s = a ++ base58_text l ++ b /\ Forall (fun c => isspace c = true) (a ++ b)) ->
  DecodeBase58 s max = decoded l.
Proof.
  intros Hs Hm Hl Hmax (a & b & E & Hab). apply Forall_app in Hab as [Ha Hb]. destruct (c_str_split s) as (tail & Et & H0).
  assert (Hbt : bytes tail) by (rewrite Et in Hs; now apply Forall_app in Hs).
  assert (Hbb : bytes b). { rewrite Et, E in Hs. rewrite !Forall_app in Hs. tauto. }
  rewrite E, <- !app_assoc in Et.
  pose proof (num_bound 256 ltac:(lia) l Hl). destruct (digits_spec 58 ltac:(lia) (num 256 l)) as [En Cn]; [lia|].
  destruct (text_skip l b tail Hl Hb Hbb Hbt H0) as (rest & Er & Hst & Hbr & Hdr). unfold base58_text in Er at 2. rewrite <- app_assoc in Er.
  rewrite Et. pose proof (DecodeBase58_parts (a ++ base58_text l ++ b ++ tail) max (leading_zeros l) (digits 58 (num 256 l)) rest Hm) as P.
  rewrite skip_spaces_app in P by assumption. rewrite (P Er Cn Hst Hbr), En, <- bytes_parts, Hdr by assumption.
  destruct (Z.ltb_spec max (Z.of_nat (length l))); [lia | reflexivity].
Qed.

Lemma decode_sound s max l :
  bytes s -> 0 <= max -> DecodeBase58 s max = decoded l ->
  bytes l /\ Z.of_nat (length l) <= max /\
  exists a b, c_str s = a ++ base58_text l ++ b /\ Forall (fun c => isspace c = true) (a ++ b).
Proof.
  intros Hs Hm. destruct (skip_spaces_split s) as (a & Ea & Ha & _).
  assert (Hp : bytes (skip_spaces s)) by (rewrite Ea in Hs; now apply Forall_app in Hs).
  destruct (text_split _ Hp) as (z & ds & rest & Er & C & Hst & Hb).
  rewrite (DecodeBase58_parts s max z ds rest Hm Er C Hst Hb). destruct (text_of_parts z ds C) as [Hl Et]. set (l' := repeat 0 z ++ digits 256 (num 58 ds)) in *.
  destruct (Z.ltb_spec max (Z.of_nat (length l'))) as [|Hle]; [discriminate|]. cbn [orb].
  destruct (Z.eqb_spec (deref (skip_spaces rest)) 0) as [E0|]; [|discriminate]. cbn [negb]. intros E. injection E as <-.
  repeat split; auto. destruct (skip_spaces_split rest) as (b & Eb & Hbs & _). exists a, b. split; [|apply Forall_app; auto].
  rewrite Ea, Er, Et, Eb. rewrite !c_str_app.
  - now rewrite c_str_nil, app_nil_r, <- app_assoc.
  - now apply spaces_nonzero.
  - apply chars_nonzero, C.
  - apply Forall_forall. intros x Hx. apply repeat_spec in Hx as ->. discriminate.
  - now apply spaces_nonzero.
Qed.

Lemma decode_asserts s max : bytes s -> 0 <= max -> DecodeBase58 s max <> assert_failed.
Proof.
  intros Hs Hm. destruct (skip_spaces_split s) as (a & Ea & _).
  assert (Hp : bytes (skip_spaces s)) by (rewrite Ea in Hs; now apply Forall_app in Hs).
  destruct (text_split _ Hp) as (z & ds & rest & Er & C & Hst & Hb).
  rewrite (DecodeBase58_parts s max z ds rest Hm Er C Hst Hb). now destruct (_ || _).
Qed.

Lemma text_nonzero l : bytes l -> Forall (fun c => 0 < c < 256) (base58_text l).
Proof.
  intros Hl. pose proof (num_bound 256 ltac:(lia) l Hl). destruct (digits_spec 58 ltac:(lia) (num 256 l)) as [_ [D _]]; [lia|].
  apply Forall_app. split.
  - apply Forall_forall. intros x Hx. apply repeat_spec in Hx as ->. change (chr "1") with 49. lia.
  - apply Forall_map. eapply Forall_impl; [|exact D]. intros d Hd. now apply alpha_facts in Hd as (_ & B & _).
Qed.

(** * The theorem *)

(** C39. Base 58: no assert fails. [EncodeBase58] writes a [1] for every leading zero byte
    and then the number in base 58; [DecodeBase58] with a limit returns a byte string
    exactly when it is not longer than the limit and the C string is its text between
    spaces; in particular it inverts the encoding. *)
Theorem base58_codec (l s : list Z) (max_ret_len : Z) :
  bytes l -> bytes s -> 0 <= max_ret_len ->
  EncodeBase58 l = Some (base58_text l) /\ DecodeBase58 s max_ret_len <> assert_failed /\
  (DecodeBase58 s max_ret_len = decoded l <->
   Z.of_nat (length l) <= max_ret_len /\
   exists a b, c_str s = a ++ base58_text l ++ b /\ Forall (fun c => isspace c = true) (a ++ b)) /\
  (Z.of_nat (length l) <= max_ret_len -> DecodeBase58_string (base58_text l) max_ret_len = decoded l).
Proof.
  intros Hl Hs Hm. split; [now apply EncodeBase58_spec|]. split; [now apply decode_asserts|]. split.
  - split; [intros H; now apply decode_sound in H as (_ & H) | intros [H1 H2]; now apply decode_complete].
  - intros Hmax. pose proof (text_nonzero l Hl) as Ht.
    assert (Ec : c_str (base58_text l) = base58_text l).
    { rewrite <- (app_nil_r (base58_text l)) at 1. rewrite c_str_app; [now rewrite app_nil_r|].
      eapply Forall_impl; [|exact Ht]. intros c Hc. cbv beta in Hc. lia. }
    unfold DecodeBase58_string, ValidAsCString. rewrite Ec, Nat.eqb_refl. apply decode_complete; auto.
    + eapply Forall_impl; [|exact Ht]. intros c Hc. cbv beta in Hc. unfold word. lia.
    + exists [], []. cbn [app]. rewrite Ec, app_nil_r. auto.
Qed.

Lemma base58_codec_witness :
  EncodeBase58 [0; 0; 0x28; 0x7f; 0xb4; 0xcd] = Some (str "11233QC4") /\
  DecodeBase58_string (str "11233QC4") 6 = decoded [0; 0; 0x28; 0x7f; 0xb4; 0xcd].
Proof.
  destruct (base58_codec [0; 0; 0x28; 0x7f; 0xb4; 0xcd] [] 6) as (E & _ & _ & D).
  - apply words_check; reflexivity.
  - constructor.
  - lia.
  - split; [vm_compute; reflexivity|]. apply D. reflexivity.
Defined.
