(* ===== verification/Bech32.v ===== *)
(** Bech32: bech32.cpp. *)
From Stdlib Require Import Ascii String ZifyNat.
From S2P Require Import Prelude StrEncodings BaseBits BaseCodec.

Module Bech32.

Definition CHARSET : list Z := str "qpzry9x8gf2tvdw0s3jn54khce6mua7l".

Definition CHARSET_REV : list Z :=
  [
   -1; -1; -1; -1; -1; -1; -1; -1; -1; -1; -1; -1; -1; -1; -1; -1;
   -1; -1; -1; -1; -1; -1; -1; -1; -1; -1; -1; -1; -1; -1; -1; -1;
   -1; -1; -1; -1; -1; -1; -1; -1; -1; -1; -1; -1; -1; -1; -1; -1;
   15; -1; 10; 17; 21; 20; 26; 30; 7; 5; -1; -1; -1; -1; -1; -1;
   -1; 29; -1; 24; 13; 25; 9; 8; 23; -1; 18; 22; 31; 27; 19; -1;
   1; 0; 3; 16; 11; 28; 12; 14; 6; 4; 2; -1; -1; -1; -1; -1;
   -1; 29; -1; 24; 13; 25; 9; 8; 23; -1; 18; 22; 31; 27; 19; -1;
   1; 0; 3; 16; 11; 28; 12; 14; 6; 4; 2; -1; -1; -1; -1; -1].

(** One value of the loop of [PolyMod]. *)
Definition polymod_step (c v_i : Z) : Z :=
  let c0 := Z.shiftr c 25 mod 2 ^ 8 in
  let c := Z.shiftl (c &: 0x1ffffff) 5 ^^ v_i in
  let c := if negb (c0 &: 1 =? 0) then c ^^ 0x3b6a57b2 else c in
  let c := if negb (c0 &: 2 =? 0) then c ^^ 0x26508e6d else c in
  let c := if negb (c0 &: 4 =? 0) then c ^^ 0x1ea119fa else c in
  let c := if negb (c0 &: 8 =? 0) then c ^^ 0x3d4233dd else c in
  if negb (c0 &: 16 =? 0) then c ^^ 0x2a1462b3 else c.

Definition PolyMod (v : list Z) : Z := fold_left polymod_step v 1.

Definition LowerCase (c : Z) : Z :=
  if (chr "A" <=? c) && (c <=? chr "Z") then c - chr "A" + chr "a" else c.

(** The array of [2 n + 1] zeros, filled by the loop. *)
Definition ExpandHRP (hrp : list Z) : list Z :=
  let n := length hrp in
  let ret := repeat 0 (n * 2 + 1) in
  let ret := fold_left (fun ret i =>
    let c := hrp.[i] in
    let ret := ret.[i := Z.shiftr c 5] in
    ret.[(i + n + 1)%nat := c &: 0x1f]) (seq 0 n) ret in
  ret.[n := 0].

Definition VerifyChecksum (hrp values : list Z) : bool := PolyMod (ExpandHRP hrp ++ values) =? 1.

Definition CreateChecksum (hrp values : list Z) : list Z :=
  let enc := ExpandHRP hrp ++ values in
  let enc := enc ++ repeat 0 6 in
  let mod_ := PolyMod enc ^^ 1 in
  fold_left (fun ret i => ret.[i := Z.shiftr mod_ (5 * (5 - Z.of_nat i)) &: 31]) (seq 0 6) (repeat 0 6).

(** The loop over [combined]; the empty string when a value is too large. *)
Fixpoint encode_chars (ret combined : list Z) : list Z :=
  match combined with
  | [] => ret
  | c :: combined => if 32 <=? c then [] else encode_chars (ret ++ [CHARSET.[Z.to_nat c]]) combined
  end.

Definition Encode (hrp values : list Z) : list Z :=
  let checksum := CreateChecksum hrp values in
  let combined := values ++ checksum in
  encode_chars (hrp ++ [chr "1"]) combined.

(** The first loop of [Decode]: [None] at a character out of range, else the flags
    [lower] and [upper]. *)
Fixpoint check_chars (lower upper : bool) (s : list Z) : option (bool * bool) :=
  match s with
  | [] => Some (lower, upper)
  | c :: s =>
      if (c <? 33) || (126 <? c) then None else
      let lower := if (chr "a" <=? c) && (c <=? chr "z") then true else lower in
      let upper := if (chr "A" <=? c) && (c <=? chr "Z") then true else upper in
      check_chars lower upper s
  end.

(** [str.rfind(c)]: the last position, [None] for [npos]. *)
Fixpoint rfind (s : list Z) (c : Z) : option nat :=
  match s with
  | [] => None
  | x :: s =>
      match rfind s c with
      | Some i => Some (S i)
      | None => if x =? c then Some 0%nat else None
      end
  end.

(** The values of the characters; [None] at one that has no value. *)
Fixpoint rev_chars (s : list Z) : option (list Z) :=
  match s with
  | [] => Some []
  | c :: s =>
      let rev := if (c <? 33) || (126 <? c) then -1 else CHARSET_REV.[Z.to_nat c] in
      if rev =? -1 then None else
      match rev_chars s with
      | None => None
      | Some values => Some (rev :: values)
      end
  end.

(** The result [{}] is a pair of an empty string and an empty vector. *)
Definition Decode (s : list Z) : list Z * list Z :=
  match check_chars false false s with
  | None => ([], [])
  | Some (lower, upper) =>
      if lower && upper then ([], []) else
      match rfind s (chr "1") with
      | None => ([], [])
      | Some pos =>
          if (1023 <? length s)%nat || (pos =? 0)%nat || (length s <? pos + 7)%nat then ([], []) else
          match rev_chars (skipn (pos + 1) s) with
          | None => ([], [])
          | Some values =>
              let hrp := fold_left (fun hrp i => hrp ++ [LowerCase s.[i]]) (seq 0 pos) [] in
              if negb (VerifyChecksum hrp values) then ([], [])
              else (hrp, firstn (length values - 6) values)
          end
      end
  end.

End Bech32.
Import Bech32.

(** * The checksum is linear *)

Definition select (b : bool) (g : Z) : Z := if b then g else 0.

Lemma land_pow2_bit c0 k : 0 <= k -> negb (c0 &: 2 ^ k =? 0) = Z.testbit c0 k.
Proof.
  intros Hk. apply Bool.eq_true_iff_eq. rewrite Bool.negb_true_iff, Z.eqb_neq. split.
  - intros H. destruct (Z.testbit c0 k) eqn:E; [reflexivity|]. exfalso. apply H.
    apply Z.bits_inj'; intros i Hi. rewrite Z.land_spec, Z.testbit_0_l. destruct (Z.eq_dec i k) as [->|].
    + now rewrite E.
    + rewrite Z.pow2_bits_false by lia. apply Bool.andb_false_r.
  - intros E H. apply (f_equal (fun x => Z.testbit x k)) in H. rewrite Z.land_spec, Z.pow2_bits_true, E, Z.testbit_0_l in H by lia. discriminate.
Qed.

Lemma polymod_step_spec c v :
  polymod_step c v =
  Z.shiftl (c &: 0x1ffffff) 5 ^^ v ^^ select (Z.testbit c 25) 0x3b6a57b2 ^^ select (Z.testbit c 26) 0x26508e6d ^^
  select (Z.testbit c 27) 0x1ea119fa ^^ select (Z.testbit c 28) 0x3d4233dd ^^ select (Z.testbit c 29) 0x2a1462b3.
Proof.
  unfold polymod_step.
  rewrite (land_pow2_bit _ 0 ltac:(lia) : negb (_ &: 1 =? 0) = _), (land_pow2_bit _ 1 ltac:(lia) : negb (_ &: 2 =? 0) = _),
    (land_pow2_bit _ 2 ltac:(lia) : negb (_ &: 4 =? 0) = _), (land_pow2_bit _ 3 ltac:(lia) : negb (_ &: 8 =? 0) = _),
    (land_pow2_bit _ 4 ltac:(lia) : negb (_ &: 16 =? 0) = _).
  rewrite !testbit_mod, !Z.shiftr_spec by lia. cbn [Z.ltb Z.compare Pos.compare Pos.compare_cont andb].
  change (0 + 25) with 25. change (1 + 25) with 26. change (2 + 25) with 27. change (3 + 25) with 28. change (4 + 25) with 29.
  unfold select. generalize (Z.shiftl (c &: 33554431) 5 ^^ v) as x. intros x.
  destruct (Z.testbit c 25), (Z.testbit c 26), (Z.testbit c 27), (Z.testbit c 28), (Z.testbit c 29); cbn [negb]; rewrite ?Z.lxor_0_r; reflexivity.
Qed.

Lemma select_xorb p q g : select (xorb p q) g = select p g ^^ select q g.
Proof. destruct p, q; cbn [xorb select]; now rewrite ?Z.lxor_nilpotent, ?Z.lxor_0_r, ?Z.lxor_0_l. Qed.

Lemma land_lxor_l a b m : (a ^^ b) &: m = (a &: m) ^^ (b &: m).
Proof. bitwise. Qed.

Lemma polymod_step_linear a b v w :
  polymod_step (a ^^ b) (v ^^ w) = polymod_step a v ^^ polymod_step b w.
Proof.
  rewrite !polymod_step_spec, !Z.lxor_spec, !select_xorb, land_lxor_l, Z.shiftl_lxor. bitwise.
Qed.

Lemma word_select w b g : 0 <= w -> word w g -> word w (select b g).
Proof. intros Hw Hg. destruct b; cbn; [assumption | now apply word_0]. Qed.

Lemma word_polymod_step c v : word 5 v -> word 30 (polymod_step c v).
Proof.
  intros Hv. rewrite polymod_step_spec.
  repeat apply word_lxor; try lia; try (apply word_select; [lia | split; [lia | reflexivity]]); [|now apply (word_le 5 30 v ltac:(lia))].
  change 0x1ffffff with (Z.ones 25). rewrite Z.land_ones, Z.shiftl_mul_pow2 by lia.
  pose proof (Z.mod_pos_bound c (2 ^ 25) ltac:(lia)). unfold word. lia.
Qed.

Lemma word_PolyMod_from l c : word 30 c -> Forall (word 5) l -> word 30 (fold_left polymod_step l c).
Proof. intros Hc Hl. revert c Hc; induction Hl as [|v l Hv Hl IH]; intros c Hc; cbn [fold_left]; auto using word_polymod_step. Qed.

(** Without overflow into the generators a step shifts by five bits. *)
Lemma polymod_step_small c v : word 25 c -> word 5 v -> polymod_step c v = c * 2 ^ 5 + v.
Proof.
  intros Hc Hv. rewrite polymod_step_spec, !(word_testbit_high 25 c) by (assumption || lia). cbn [select].
  rewrite !Z.lxor_0_r. change 0x1ffffff with (Z.ones 25). rewrite Z.land_ones, Z.mod_small by (exact Hc || lia).
  rewrite Z.add_comm, add_shiftl_lor by (assumption || lia). rewrite Z.lor_comm. apply Z.lxor_lor.
  apply Z.bits_inj'; intros i Hi. rewrite Z.land_spec, Z.testbit_0_l, Z.shiftl_spec by lia.
  destruct (Z.lt_ge_cases i 5); [rewrite Z.testbit_neg_r by lia; reflexivity|].
  rewrite (word_testbit_high 5 v) by (assumption || lia). apply Bool.andb_false_r.
Qed.

(** The last six values are added to the remainder. *)
Lemma polymod_last cs a :
  Forall (word 5) cs -> (length cs <= 6)%nat ->
  fold_left polymod_step cs a = fold_left polymod_step (repeat 0 (length cs)) a ^^ be_value 5 cs.
Proof.
  induction cs as [|x cs IH] using rev_ind; intros Hw Hl; [cbn; now rewrite Z.lxor_0_r|].
  apply Forall_app in Hw as [Hw Hx]. apply Forall_inv in Hx. rewrite length_app in *. cbn [length] in *.
  rewrite fold_left_app, IH by (assumption || lia). cbn [fold_left]. rewrite repeat_app, fold_left_app. cbn [repeat fold_left].
  rewrite <- (Z.lxor_0_l x) at 1. rewrite polymod_step_linear. f_equal. rewrite be_value_snoc. apply polymod_step_small; [|assumption].
  pose proof (be_value_bound 5 ltac:(lia) cs Hw). unfold word.
  pose proof (Z.pow_le_mono_r 2 (5 * Z.of_nat (length cs)) 25 ltac:(lia) ltac:(lia)). lia.
Qed.

Lemma lxor_move a b c : a ^^ b = c <-> b = a ^^ c.
Proof.
  split; [intros <- | intros ->]; now rewrite <- Z.lxor_assoc, Z.lxor_nilpotent, Z.lxor_0_l.
Qed.

(** A list of six values is the right checksum exactly when it is the one that
    [CreateChecksum] computes. *)
Lemma CreateChecksum_digits hrp values :
  CreateChecksum hrp values = be_digits 5 6 (PolyMod ((ExpandHRP hrp ++ values) ++ repeat 0 6) ^^ 1).
Proof.
  unfold CreateChecksum. set (m := _ ^^ 1). cbn [seq fold_left repeat upd be_digits app].
  change 31 with (Z.ones 5). rewrite !Z.land_ones, !Z.shiftr_div_pow2 by lia. rewrite !Z.div_div by lia.
  now rewrite Z.div_1_r.
Qed.

Lemma checksum_unique hrp values ck :
  Forall (word 5) (ExpandHRP hrp ++ values) -> Forall (word 5) ck -> length ck = 6%nat ->
  VerifyChecksum hrp (values ++ ck) = true <-> ck = CreateChecksum hrp values.
Proof.
  intros Hw Hc Hl. unfold VerifyChecksum, PolyMod. rewrite app_assoc, fold_left_app, Z.eqb_eq.
  rewrite (polymod_last ck) by (assumption || lia). rewrite Hl, lxor_move.
  rewrite CreateChecksum_digits. unfold PolyMod. rewrite (fold_left_app polymod_step _ (repeat 0 6)).
  set (m := fold_left polymod_step (repeat 0 6) _).
  assert (Wm : word 30 (m ^^ 1)).
  { apply word_lxor; [lia | | split; [lia | reflexivity]]. apply word_PolyMod_from; [apply word_PolyMod_from; [split; [lia | reflexivity] | assumption]|].
    apply Forall_forall. intros x Hx. apply repeat_spec in Hx as ->. now apply word_0. }
  split.
  - intros E. rewrite <- E, <- Hl. symmetry. apply be_digits_value; [lia | assumption].
  - intros ->. apply (be_value_digits 5 ltac:(lia) 6). exact Wm.
Qed.

(** * The parts of a string *)

Definition is_lower (c : Z) : bool := (chr "a" <=? c) && (c <=? chr "z").
Definition is_upper (c : Z) : bool := (chr "A" <=? c) && (c <=? chr "Z").

Lemma ExpandHRP_spec hrp : ExpandHRP hrp = map (fun c => Z.shiftr c 5) hrp ++ 0 :: map (fun c => c &: 31) hrp.
Proof.
  unfold ExpandHRP. set (n := length hrp).
  set (body := fun ret i => _).
  assert (H : forall k, (k <= n)%nat ->
    let r := fold_left body (seq 0 k) (repeat 0 (n * 2 + 1)) in
    length r = (n * 2 + 1)%nat /\
    forall j, r.[j] = if (j <? k)%nat then Z.shiftr hrp.[j] 5 else
                      if (n <? j)%nat && (j <? n + 1 + k)%nat then hrp.[(j - n - 1)%nat] &: 31 else 0).
  { induction k as [|k IH]; intros Hk; cbv zeta.
    - cbn [seq fold_left]. split; [apply repeat_length|]. intros j. rewrite nth_repeat.
      destruct (Nat.ltb_spec n j), (Nat.ltb_spec j (n + 1 + 0)); cbn; lia || reflexivity.
    - destruct IH as [IHl IHn]; [lia|]. rewrite seq_S, fold_left_app. cbn [fold_left Nat.add].
      set (r := fold_left body (seq 0 k) _) in *. unfold body. split; [now rewrite !length_upd|]. intros j.
      destruct (Nat.eq_dec j (k + n + 1)) as [->|Hj1].
      + rewrite nth_upd_eq by (rewrite length_upd; lia).
        destruct (Nat.ltb_spec (k + n + 1) (S k)); [lia|]. destruct (Nat.ltb_spec n (k + n + 1)), (Nat.ltb_spec (k + n + 1) (n + 1 + S k)); try lia.
        cbn [andb]. do 2 f_equal. lia.
      + rewrite nth_upd_ne by auto. destruct (Nat.eq_dec j k) as [->|Hj2].
        * rewrite nth_upd_eq by lia. destruct (Nat.ltb_spec k (S k)); [reflexivity | lia].
        * rewrite nth_upd_ne, IHn by auto.
          destruct (Nat.ltb_spec j k), (Nat.ltb_spec j (S k)); try lia; try reflexivity.
          destruct (Nat.ltb_spec n j), (Nat.ltb_spec j (n + 1 + k)), (Nat.ltb_spec j (n + 1 + S k)); cbn [andb]; lia || reflexivity. }
  destruct (H n ltac:(lia)) as [Hl Hn]. set (r := fold_left body (seq 0 n) _) in *.
  assert (Hlen : length (map (fun c => Z.shiftr c 5) hrp) = n) by apply length_map.
  apply (list_ext 0); [rewrite length_upd, Hl, length_app; cbn; rewrite !length_map; fold n; lia|].
  intros j Hj. rewrite length_upd, Hl in Hj. destruct (Nat.lt_trichotomy j n) as [Hlt|[->|Hgt]].
  - rewrite nth_upd_ne, Hn by lia. rewrite app_nth1 by lia. destruct (Nat.ltb_spec j n); [|lia].
    change 0 with (Z.shiftr 0 5) at 2. now rewrite (map_nth (fun c => Z.shiftr c 5)).
  - rewrite nth_upd_eq by lia. rewrite app_nth2, Hlen, Nat.sub_diag by lia. reflexivity.
  - rewrite nth_upd_ne, Hn by lia. rewrite app_nth2, Hlen by lia. destruct (Nat.ltb_spec j n); [lia|].
    destruct (Nat.ltb_spec n j), (Nat.ltb_spec j (n + 1 + n)); try lia. cbn [andb].
    replace (j - n)%nat with (S (j - n - 1)) by lia. cbn [nth].
    change 0 with (0 &: 31) at 2. rewrite (map_nth (fun c => c &: 31)). do 2 f_equal. lia.
Qed.

Lemma words_ExpandHRP hrp : bytes hrp -> Forall (word 5) (ExpandHRP hrp).
Proof.
  intros H. rewrite ExpandHRP_spec. apply Forall_app. split; [|constructor; [now apply word_0|]]; apply Forall_map.
  - eapply Forall_impl; [|exact H]. intros c Hc. rewrite Z.shiftr_div_pow2 by lia. unfold word in *.
    split; [apply Z.div_pos; lia | apply Z.div_lt_upper_bound; lia].
  - eapply Forall_impl; [|exact H]. intros c Hc. change 31 with (Z.ones 5). rewrite Z.land_ones by lia. now apply word_mod.
Qed.

Lemma encode_chars_spec combined ret :
  Forall (word 5) combined -> encode_chars ret combined = ret ++ map (fun v => CHARSET.[Z.to_nat v]) combined.
Proof.
  intros H. revert ret; induction H as [|v l Hv _ IH]; intros ret; cbn [encode_chars map]; [now rewrite app_nil_r|].
  unfold word in Hv. destruct (Z.leb_spec 32 v); [lia|]. rewrite IH, <- app_assoc. reflexivity.
Qed.

Definition char_of (v : Z) : Z := CHARSET.[Z.to_nat v].

Lemma words_CreateChecksum hrp values : Forall (word 5) (CreateChecksum hrp values) /\ length (CreateChecksum hrp values) = 6%nat.
Proof. rewrite CreateChecksum_digits. split; [apply words_be_digits; lia | apply length_be_digits]. Qed.

Lemma Encode_spec hrp values :
  Forall (word 5) values -> Encode hrp values = hrp ++ chr "1" :: map char_of (values ++ CreateChecksum hrp values).
Proof.
  intros H. unfold Encode. rewrite encode_chars_spec by (apply Forall_app; split; [assumption | apply words_CreateChecksum]).
  now rewrite <- app_assoc.
Qed.

Lemma check_chars_spec s : forall lower upper,
  check_chars lower upper s =
  if forallb (fun c => (33 <=? c) && (c <=? 126)) s then Some (lower || existsb is_lower s, upper || existsb is_upper s) else None.
Proof.
  induction s as [|c s IH]; intros lower upper; cbn [check_chars forallb existsb]; [now rewrite !Bool.orb_false_r|].
  assert (E : (33 <=? c) && (c <=? 126) = negb ((c <? 33) || (126 <? c))) by lia. rewrite E.
  destruct ((c <? 33) || (126 <? c)); [reflexivity|].
  cbn [negb andb]. rewrite IH. destruct (forallb _ s); [|reflexivity]. fold (is_lower c) (is_upper c).
  destruct lower, upper, (is_lower c), (is_upper c); reflexivity.
Qed.

Lemma rfind_spec s c :
  match rfind s c with
  | Some i => exists a b, s = a ++ c :: b /\ length a = i /\ ~ In c b
  | None => ~ In c s
  end.
Proof.
  induction s as [|x s IH]; cbn [rfind]; [auto|]. destruct (rfind s c) as [i|].
  - destruct IH as (a & b & -> & <- & Hb). now exists (x :: a), b.
  - destruct (Z.eqb_spec x c) as [->|]; [now exists [], s|]. cbn. tauto.
Qed.

Lemma rfind_last a b c : ~ In c b -> rfind (a ++ c :: b) c = Some (length a).
Proof.
  intros Hb. induction a as [|x a IH]; cbn [app rfind length].
  - pose proof (rfind_spec b c) as H. destruct (rfind b c) as [i|]; [|now rewrite Z.eqb_refl].
    destruct H as (p & q & -> & _). exfalso. apply Hb, in_or_app. right. now left.
  - now rewrite IH.
Qed.

(** The characters with a value are those that are a character of the set in lower
    case. *)
Lemma rev_facts c :
  is_byte c ->
  let v := if (c <? 33) || (126 <? c) then -1 else CHARSET_REV.[Z.to_nat c] in
  (v = -1 /\ forall x, word 5 x -> char_of x <> LowerCase c) \/ (word 5 v /\ char_of v = LowerCase c /\ 33 <= c <= 126).
Proof.
  pose (v c := if (c <? 33) || (126 <? c) then -1 else CHARSET_REV.[Z.to_nat c]).
  pose (ok c := (v c =? -1) && forallb (fun x => negb (char_of x =? LowerCase c)) (map Z.of_nat (seq 0 32)) ||
                wordb 5 (v c) && (char_of (v c) =? LowerCase c) && (33 <=? c) && (c <=? 126)).
  intros Hc. assert (H : ok c = true) by (apply (forallb_below 256 ok); [vm_compute; reflexivity | exact Hc]).
  unfold ok in H. cbv zeta. fold (v c). apply Bool.orb_true_iff in H as [H|H].
  - left. apply andb_prop in H as [H1 H2]. split; [lia|]. intros x Hx.
    pose proof (forallb_below 32 _ H2 x Hx) as F. cbv beta in F. lia.
  - right. rewrite !Bool.andb_true_iff in H. unfold wordb in H. unfold word. lia.
Qed.

Lemma char_facts x :
  word 5 x -> 33 <= char_of x <= 126 /\ is_upper (char_of x) = false /\ char_of x <> chr "1" /\
              (forall y, word 5 y -> char_of x = char_of y -> x = y).
Proof.
  intros Hx. pose (ok x := (33 <=? char_of x) && (char_of x <=? 126) && negb (is_upper (char_of x)) && negb (char_of x =? chr "1") &&
     forallb (fun y => implb (char_of x =? char_of y) (x =? y)) (map Z.of_nat (seq 0 32))).
  assert (H : ok x = true) by (apply (forallb_below 32 ok); [vm_compute; reflexivity | exact Hx]). unfold ok in H.
  rewrite !Bool.andb_true_iff, !Bool.negb_true_iff in H. destruct H as ((((H1 & H2) & H3) & H4) & H5).
  split; [lia|]. split; [assumption|]. split; [lia|]. intros y Hy E. pose proof (forallb_below 32 _ H5 y Hy) as F. cbv beta in F.
  rewrite E, Z.eqb_refl in F. cbn in F. lia.
Qed.

Lemma rev_chars_spec s :
  bytes s -> forall values, rev_chars s = Some values <-> Forall (word 5) values /\ map LowerCase s = map char_of values.
Proof.
  induction 1 as [|c s Hc Hs IH]; intros values; cbn [rev_chars map].
  - split; [intros E; injection E as <-; auto|]. intros [_ E]. now destruct values.
  - pose proof (rev_facts c Hc) as F. cbv zeta in F. set (v := if (c <? 33) || (126 <? c) then -1 else CHARSET_REV.[Z.to_nat c]) in *. destruct F as [[-> F]|(Hv & Ev & _)].
    + split; [discriminate|]. intros [Hw E]. destruct values as [|x values]; [discriminate|]. injection E as Ex _.
      apply Forall_inv in Hw. symmetry in Ex. now apply F in Ex.
    + destruct (Z.eqb_spec v (-1)); [unfold word in Hv; lia|]. split.
      * destruct (rev_chars s) as [vs|]; [|discriminate]. intros E. injection E as <-. destruct (proj1 (IH vs) eq_refl) as [Hw Em].
        split; [now constructor|]. cbn [map]. now rewrite Em, Ev.
      * intros [Hw E]. destruct values as [|x values]; [discriminate|]. injection E as Ex Em. apply Forall_cons_iff in Hw as [Hx Hw].
        rewrite (proj2 (IH values) (conj Hw Em)). do 2 f_equal. rewrite <- Ev in Ex. now apply char_facts in Ex.
Qed.

(** * Encoding and decoding *)

(** A human-readable part that [Encode] can be used with. *)
Definition valid_hrp (hrp : list Z) : Prop :=
  hrp <> [] /\ Forall (fun c => 33 <= c <= 126 /\ is_upper c = false) hrp.

Definition mixed_case (s : list Z) : bool := existsb is_lower s && existsb is_upper s.

Lemma LowerCase_facts c :
  is_byte c -> is_upper (LowerCase c) = false /\ (33 <= LowerCase c <= 126 <-> 33 <= c <= 126) /\
               (LowerCase c = chr "1" <-> c = chr "1") /\ is_byte (LowerCase c).
Proof.
  intros Hc. unfold LowerCase, is_upper, word in *. change (chr "A") with 65. change (chr "Z") with 90.
  change (chr "a") with 97. change (chr "1") with 49. destruct ((65 <=? c) && (c <=? 90)) eqn:E; lia.
Qed.

Lemma valid_hrp_bytes hrp : valid_hrp hrp -> bytes hrp.
Proof. intros [_ H]. eapply Forall_impl; [|exact H]. intros c [Hc _]. unfold word. lia. Qed.

Lemma lower_hrp s :
  bytes s -> Forall (fun c => 33 <= c <= 126) s -> Forall (fun c => 33 <= c <= 126 /\ is_upper c = false) (map LowerCase s).
Proof.
  intros Hb H. apply Forall_map. rewrite Forall_forall in *. intros x Hx. specialize (H x Hx). specialize (Hb x Hx).
  apply LowerCase_facts in Hb. tauto.
Qed.

(** The result of [Decode] on a string with a separator. *)
Lemma Decode_parts a b :
  bytes (a ++ chr "1" :: b) -> ~ In (chr "1") b ->
  let s := a ++ chr "1" :: b in
  let hrp := map LowerCase a in
  Decode s =
  if negb (forallb (fun c => (33 <=? c) && (c <=? 126)) s) || mixed_case s || (1023 <? length s)%nat ||
     (length a =? 0)%nat || (length b <? 6)%nat then ([], []) else
  match rev_chars b with
  | None => ([], [])
  | Some values => if VerifyChecksum hrp values then (hrp, firstn (length values - 6) values) else ([], [])
  end.
Proof.
  intros Hb Hn s hrp. unfold Decode. rewrite check_chars_spec. cbn [orb]. unfold mixed_case.
  destruct (forallb _ s); [|reflexivity]. cbn [negb orb]. destruct (existsb is_lower s && existsb is_upper s); [reflexivity|]. cbn [orb].
  unfold s at 1. rewrite rfind_last by assumption.
  replace (length s <? length a + 7)%nat with (length b <? 6)%nat.
  2: { unfold s. rewrite length_app. cbn [length]. destruct (Nat.ltb_spec (length b) 6), (Nat.ltb_spec (length a + S (length b)) (length a + 7)); lia || reflexivity. }
  destruct (_ || _ || _); [reflexivity|].
  assert (Es : skipn (length a + 1) s = b).
  { unfold s. rewrite skipn_app, skipn_all2, Nat.add_sub_swap, Nat.sub_diag by lia. reflexivity. }
  assert (Eh : fold_left (fun hrp i => hrp ++ [LowerCase s.[i]]) (seq 0 (length a)) [] = hrp).
  { rewrite fold_left_snoc. cbn [app]. rewrite <- (map_map (fun i => s.[i]) LowerCase), (map_nth_seq s 0) by (unfold s; rewrite length_app; lia).
    unfold s. now rewrite firstn_app, firstn_all, Nat.sub_diag, firstn_O, app_nil_r. }
  rewrite Es, Eh. destruct (rev_chars b) as [values|]; [|reflexivity]. now destruct (VerifyChecksum hrp values).
Qed.

Lemma values_split values h d :
  Forall (word 5) values -> bytes h -> (6 <= length values)%nat -> firstn (length values - 6) values = d ->
  VerifyChecksum h values = true <-> values = d ++ CreateChecksum h d.
Proof.
  intros Hw Hh Hl Hd. set (ck := skipn (length values - 6) values).
  assert (E : values = d ++ ck) by (unfold ck; rewrite <- Hd; symmetry; apply firstn_skipn).
  assert (Hc : length ck = 6%nat) by (unfold ck; rewrite length_skipn; lia).
  rewrite E at 1. rewrite E in Hw. apply Forall_app in Hw as [Wd Wc].
  rewrite checksum_unique; [| apply Forall_app; split; [now apply words_ExpandHRP | assumption] | assumption | assumption].
  rewrite E. split; [now intros -> | apply app_inv_head].
Qed.

Lemma decode_bech32_sound s h d :
  bytes s -> h <> [] -> Decode s = (h, d) ->
  valid_hrp h /\ Forall (word 5) d /\ (length h + length d + 7 <= 1023)%nat /\ mixed_case s = false /\ map LowerCase s = Encode h d.
Proof.
  intros Hs Hh. destruct (rfind s (chr "1")) as [pos|] eqn:Ef.
  2: { unfold Decode. rewrite Ef. destruct (check_chars _ _ _) as [[l u]|]; [destruct (l && u)|]; intros E; injection E; congruence. }
  pose proof (rfind_spec s (chr "1")) as Hr. rewrite Ef in Hr. destruct Hr as (a & b & -> & _ & Hn).
  rewrite Decode_parts by assumption. destruct (negb _ || _ || _ || _ || _) eqn:Eg; [congruence|].
  rewrite !Bool.orb_false_iff, Bool.negb_false_iff in Eg. destruct Eg as ((((Er & Em) & El) & Ea) & Eb).
  apply Nat.ltb_ge in El, Eb. apply Nat.eqb_neq in Ea. rewrite length_app in El. cbn [length] in El.
  apply Forall_app in Hs as [Ba Bb]. apply Forall_inv_tail in Bb.
  destruct (rev_chars b) as [values|] eqn:Ev; [|congruence]. apply rev_chars_spec in Ev as [Hw Ev]; [|assumption].
  assert (Lv : length values = length b) by (apply (f_equal (@length Z)) in Ev; now rewrite !length_map in Ev).
  destruct (VerifyChecksum _ _) eqn:Ec; [|congruence]. intros E. injection E as Eh Ed.
  rewrite Eh in Ec. assert (Bh : bytes h).
  { rewrite <- Eh. apply Forall_map. eapply Forall_impl; [|exact Ba]. intros c Hc. now apply LowerCase_facts. }
  apply (values_split values h d Hw Bh ltac:(lia) Ed) in Ec. rewrite Ec in Hw. apply Forall_app in Hw as [Wd _].
  rewrite forallb_app, Bool.andb_true_iff in Er. destruct Er as [Ra _].
  split; [split; [assumption|]|].
  { rewrite <- Eh. apply lower_hrp; try assumption. rewrite forallb_forall in Ra. apply Forall_forall. intros c Hc. specialize (Ra c Hc). lia. }
  split; [assumption|]. split; [rewrite <- Eh, <- Ed, length_map, length_firstn; lia|]. split; [assumption|].
  rewrite map_app, Eh, Encode_spec, <- Ec, <- Ev by assumption. reflexivity.
Qed.

Lemma decode_bech32_complete s h d :
  bytes s -> valid_hrp h -> Forall (word 5) d -> (length h + length d + 7 <= 1023)%nat -> mixed_case s = false ->
  map LowerCase s = Encode h d -> Decode s = (h, d).
Proof.
  intros Hs Hv Wd Hl Hm E. rewrite Encode_spec in E by assumption. destruct (words_CreateChecksum h d) as [Wc Lc].
  assert (Wv : Forall (word 5) (d ++ CreateChecksum h d)) by (apply Forall_app; auto). set (values := d ++ _) in *.
  assert (Lv : length values = (length d + 6)%nat) by (unfold values; rewrite length_app; lia).
  apply map_eq_app in E as (a & r & -> & Ea & E). apply map_eq_cons in E as (c & b & -> & Ec & Eb).
  pose proof Hs as Hs'. apply Forall_app in Hs' as [Ba Bb]. apply Forall_cons_iff in Bb as [Bc Bb].
  apply (LowerCase_facts c Bc) in Ec as ->.
  assert (Rb : Forall (fun c => 33 <= c <= 126 /\ c <> chr "1") b).
  { apply Forall_forall. intros c Hc. rewrite Forall_forall in Bb. pose proof (LowerCase_facts c (Bb c Hc)) as F.
    assert (Hin : In (LowerCase c) (map char_of values)) by (rewrite <- Eb; now apply in_map).
    apply in_map_iff in Hin as (x & Ex & Hx). rewrite Forall_forall in Wv. pose proof (char_facts x (Wv x Hx)) as G. rewrite Ex in G. tauto. }
  assert (Ra : Forall (fun c => 33 <= c <= 126) a).
  { apply Forall_forall. intros c Hc. rewrite Forall_forall in Ba. pose proof (LowerCase_facts c (Ba c Hc)) as F.
    assert (Hin : In (LowerCase c) h) by (rewrite <- Ea; now apply in_map). destruct Hv as [_ Hv]. rewrite Forall_forall in Hv.
    specialize (Hv _ Hin). tauto. }
  rewrite Decode_parts; [|assumption | intros Hin; rewrite Forall_forall in Rb; now apply Rb in Hin as [_ ?]].
  assert (La : length a = length h) by now rewrite <- Ea, length_map.
  assert (Lb : length b = length values) by (apply (f_equal (@length Z)) in Eb; now rewrite !length_map in Eb).
  rewrite Hm. replace (forallb _ _) with true.
  2: { symmetry. apply forallb_forall. intros c Hc. apply in_app_or in Hc as [Hc|[<-|Hc]]; [|reflexivity|]; rewrite Forall_forall in *; [specialize (Ra c Hc) | specialize (Rb c Hc)]; lia. }
  rewrite length_app. cbn [length negb orb].
  destruct (Nat.ltb_spec 1023 (length a + S (length b))); [lia|]. destruct Hv as [Hh Hv0]. destruct (Nat.eqb_spec (length a) 0); [destruct h; [contradiction | cbn in La; lia]|].
  destruct (Nat.ltb_spec (length b) 6); [lia|]. cbn [orb].
  rewrite (proj2 (rev_chars_spec b Bb values) (conj Wv Eb)), Ea.
  assert (Ed : firstn (length values - 6) values = d) by (rewrite Lv, Nat.add_sub; unfold values; rewrite firstn_app, firstn_all, Nat.sub_diag, firstn_O; apply app_nil_r).
  rewrite (proj2 (values_split values h d Wv (valid_hrp_bytes h (conj Hh Hv0)) ltac:(lia) Ed) eq_refl), Ed. reflexivity.
Qed.

Lemma LowerCase_id c : is_upper c = false -> LowerCase c = c.
Proof. unfold is_upper, LowerCase. now intros ->. Qed.

Lemma Encode_chars h d :
  valid_hrp h -> Forall (word 5) d -> Forall (fun c => 33 <= c <= 126 /\ is_upper c = false) (Encode h d).
Proof.
  intros [_ Hh] Wd. rewrite Encode_spec by assumption. apply Forall_app. split; [assumption|].
  constructor; [split; [change (chr "1") with 49; lia | reflexivity]|]. apply Forall_map.
  assert (W : Forall (word 5) (d ++ CreateChecksum h d)) by (apply Forall_app; split; [assumption | apply words_CreateChecksum]).
  eapply Forall_impl; [|exact W]. intros x Hx. apply char_facts in Hx. tauto.
Qed.

(** C38. Bech32: [Decode] returns a human-readable part and data exactly for the strings
    of at most 1023 characters, not in mixed case, whose lower-case form is what
    [Encode] makes of them; the checksum of six characters that [Encode] appends is
    the only one that is accepted. In particular [Decode] inverts [Encode]. *)
Theorem bech32_codec (s hrp values : list Z) :
  bytes s -> hrp <> [] ->
  (Decode s = (hrp, values) <->
   valid_hrp hrp /\ Forall (word 5) values /\ (length hrp + length values + 7 <= 1023)%nat /\
   mixed_case s = false /\ map LowerCase s = Encode hrp values) /\
  (valid_hrp hrp -> Forall (word 5) values -> (length hrp + length values + 7 <= 1023)%nat ->
   Decode (Encode hrp values) = (hrp, values)) /\
  (forall ck, bytes hrp -> Forall (word 5) values -> Forall (word 5) ck -> length ck = 6%nat ->
   VerifyChecksum hrp (values ++ ck) = true <-> ck = CreateChecksum hrp values).
Proof.
  intros Hs Hh. split; [split; [now apply decode_bech32_sound | intros (H1 & H2 & H3 & H4 & H5); now apply decode_bech32_complete]|].
  split.
  - intros Hv Wd Hl. pose proof (Encode_chars hrp values Hv Wd) as He. apply decode_bech32_complete; auto.
    + eapply Forall_impl; [|exact He]. intros c [Hc _]. unfold word. lia.
    + unfold mixed_case. apply Bool.andb_false_iff. right. apply Bool.not_true_iff_false. rewrite existsb_exists.
      intros (c & Hc & Hu). rewrite Forall_forall in He. apply He in Hc as [_ Hc]. congruence.
    + rewrite <- (map_id (Encode hrp values)) at 2. apply map_ext_in. intros c Hc. rewrite Forall_forall in He.
      now apply LowerCase_id, He.
  - intros ck Bh Wv Wc Hl. apply checksum_unique; try assumption. apply Forall_app. split; [now apply words_ExpandHRP | assumption].
Qed.

Lemma bech32_codec_witness :
  Encode (str "a") [] = str "a12uel5l" /\ Decode (str "A12UEL5L") = (str "a", []).
Proof.
  split; [vm_compute; reflexivity|]. apply (proj1 (bech32_codec (str "A12UEL5L") (str "a") [] ltac:(apply words_check; reflexivity) ltac:(discriminate))).
  split; [split; [discriminate | repeat constructor; cbn; lia]|].
  split; [constructor|]. split; [cbn; lia|]. split; vm_compute; reflexivity.
Defined.
