(* ===== verification/CryptoCommon.v ===== *)
(** crypto/common.h for a little-endian host: unaligned reads and writes of integers in
    both byte orders, and [CountBits]. A write returns the bytes that it stores. *)
From Stdlib Require Import ZifyNat.
From S2P Require Import Prelude.

Module CryptoCommon.

(** The values of [uint32_t] and of [uint64_t] and [size_t]. *)
Definition w32 (x : Z) : Z := x mod 2 ^ 32.
Definition w64 (x : Z) : Z := x mod 2 ^ 64.

(** The byte order of the host is little-endian: [le32toh] is the identity, [be32toh]
    reverses the bytes. *)
Definition be16toh (x : Z) : Z := le_combine (rev (le_split 2 x)).
Definition be32toh (x : Z) : Z := le_combine (rev (le_split 4 x)).
Definition be64toh (x : Z) : Z := le_combine (rev (le_split 8 x)).

Definition ReadLE16 (ptr : list Z) : Z := le_combine (firstn 2 ptr).
Definition ReadLE32 (ptr : list Z) : Z := le_combine (firstn 4 ptr).
Definition ReadLE64 (ptr : list Z) : Z := le_combine (firstn 8 ptr).

Definition WriteLE16 (x : Z) : list Z := le_split 2 x.
Definition WriteLE32 (x : Z) : list Z := le_split 4 x.
Definition WriteLE64 (x : Z) : list Z := le_split 8 x.

Definition ReadBE16 (ptr : list Z) : Z := be16toh (le_combine (firstn 2 ptr)).
Definition ReadBE32 (ptr : list Z) : Z := be32toh (le_combine (firstn 4 ptr)).
Definition ReadBE64 (ptr : list Z) : Z := be64toh (le_combine (firstn 8 ptr)).

Definition WriteBE32 (x : Z) : list Z := le_split 4 (be32toh x).
Definition WriteBE64 (x : Z) : list Z := le_split 8 (be64toh x).

(** The loop of [CountBits]; a 64-bit value has at most 64 bits. *)
Fixpoint CountBits_loop (fuel : nat) (x ret : Z) : Z :=
  match fuel with
  | O => ret
  | S fuel => if x =? 0 then ret else CountBits_loop fuel (Z.shiftr x 1) (ret + 1)
  end.
Definition CountBits (x : Z) : Z := CountBits_loop 64 x 0.

(** An assignment. It is an application, so that the long sequences of assignments of
    the unrolled transformations are compared as they are written. *)
Definition assign {A B} (e : A) (k : A -> B) : B := k e.
Notation "'let!' x := e 'in' k" := (assign e (fun x => k))
  (at level 10, x name, e at level 200, k at level 200).

End CryptoCommon.
Import CryptoCommon.

(** * What the functions compute *)

(** Big-endian numbers. *)
Definition be_number (bs : list Z) : Z := fold_left (fun acc b => 256 * acc + b) bs 0.
Definition be_bytes (n : nat) (v : Z) : list Z := rev (le_split n v).

Lemma be_number_rev bs : be_number (rev bs) = le_combine bs.
Proof.
  unfold be_number. induction bs as [|b bs IH]; [reflexivity|]. cbn [rev le_combine].
  rewrite fold_left_app. cbn [fold_left]. rewrite IH. lia.
Qed.

Lemma be_number_combine bs : be_number bs = le_combine (rev bs).
Proof. now rewrite <- be_number_rev, rev_involutive. Qed.

Lemma length_be_bytes n v : length (be_bytes n v) = n.
Proof. unfold be_bytes. now rewrite length_rev, length_le_split. Qed.

Lemma bytes_be_bytes n v : bytes (be_bytes n v).
Proof. apply Forall_rev, bytes_le_split. Qed.

(** Reading the bytes of a list of [n] bytes in reverse order. *)
Lemma swap_combine n bs :
  bytes bs -> length bs = n -> le_combine (rev (le_split n (le_combine bs))) = be_number bs.
Proof. intros Hb <-. now rewrite le_split_combine, be_number_combine. Qed.

Lemma ReadBE32_spec p : bytes p -> (4 <= length p)%nat -> ReadBE32 p = be_number (firstn 4 p).
Proof. intros Hp Hl. apply swap_combine; [now apply Forall_take | rewrite length_firstn; lia]. Qed.

Lemma ReadBE64_spec p : bytes p -> (8 <= length p)%nat -> ReadBE64 p = be_number (firstn 8 p).
Proof. intros Hp Hl. apply swap_combine; [now apply Forall_take | rewrite length_firstn; lia]. Qed.

Lemma split_swap n x : le_split n (le_combine (rev (le_split n x))) = be_bytes n x.
Proof.
  unfold be_bytes. rewrite <- (length_le_split n x) at 1. rewrite <- length_rev.
  apply le_split_combine, Forall_rev, bytes_le_split.
Qed.

Lemma WriteBE32_spec x : WriteBE32 x = be_bytes 4 x.
Proof. apply split_swap. Qed.

Lemma WriteBE64_spec x : WriteBE64 x = be_bytes 8 x.
Proof. apply split_swap. Qed.

Lemma word32_be_number bs : bytes bs -> length bs = 4%nat -> word 32 (be_number bs).
Proof.
  intros Hb Hl. rewrite be_number_combine. pose proof (le_combine_bound (rev bs) (Forall_rev Hb)) as H.
  now rewrite length_rev, Hl in H.
Qed.

Lemma word64_be_number bs : bytes bs -> length bs = 8%nat -> word 64 (be_number bs).
Proof.
  intros Hb Hl. rewrite be_number_combine. pose proof (le_combine_bound (rev bs) (Forall_rev Hb)) as H.
  now rewrite length_rev, Hl in H.
Qed.

Lemma le_split_zero k : le_split k 0 = repeat 0 k.
Proof. induction k as [|k IH]; cbn; [reflexivity | now f_equal]. Qed.

Lemma CountBits_loop_spec fuel x ret :
  0 <= x < 2 ^ Z.of_nat fuel -> CountBits_loop fuel x ret = ret + (if x =? 0 then 0 else Z.log2 x + 1).
Proof.
  revert x ret; induction fuel as [|fuel IH]; intros x ret Hx; cbn [CountBits_loop].
  - cbn in Hx. replace x with 0 by lia. cbn. lia.
  - destruct (Z.eqb_spec x 0) as [->|Hnz]; [lia|]. rewrite Nat2Z.inj_succ, Z.pow_succ_r in Hx by lia.
    rewrite Z.shiftr_div_pow2 by lia. change (2 ^ 1) with 2.
    rewrite IH by (split; [apply Z.div_pos; lia | apply Z.div_lt_upper_bound; lia]).
    destruct (Z.eqb_spec (x / 2) 0) as [E|E].
    + assert (x = 1) as -> by lia. change (Z.log2 1) with 0. lia.
    + assert (L : Z.log2 x = Z.log2 (x / 2) + 1); [|lia]. apply Z.log2_unique; [pose proof (Z.log2_nonneg (x / 2)); lia|].
      pose proof (Z.log2_spec (x / 2) ltac:(lia)) as [L1 L2]. pose proof (Z.log2_nonneg (x / 2)).
      replace (Z.log2 (x / 2) + 1) with (Z.succ (Z.log2 (x / 2))) by lia. rewrite !Z.pow_succ_r in * by lia. lia.
Qed.

(** The smallest [n] with [x >> n == 0]. *)
Lemma CountBits_spec x : word 64 x -> 0 <= CountBits x <= 64 /\ x < 2 ^ CountBits x /\ (0 < CountBits x -> 2 ^ (CountBits x - 1) <= x).
Proof.
  intros Hx. unfold CountBits. rewrite CountBits_loop_spec by exact Hx. unfold word in Hx.
  destruct (Z.eqb_spec x 0) as [->|]; [cbn; lia|]. pose proof (Z.log2_spec x ltac:(lia)). pose proof (Z.log2_nonneg x).
  pose proof (Z.log2_lt_pow2 x 64 ltac:(lia)). rewrite Z.add_0_l, Z.add_simpl_r. replace (Z.log2 x + 1) with (Z.succ (Z.log2 x)) by lia. lia.
Qed.
