(* ===== verification/Hasher.v ===== *)
(** The hasher classes of crypto/: [CSHA1], [CSHA256], [CSHA512] and [CRIPEMD160] have
    the same members and the same [Write], with their own block size, [Initialize] and
    [Transform]; padding in [Finalize] goes through [Write]. They compute the
    Merkle-Damgard construction of their transformation. *)
From Stdlib Require Import ZifyNat.
From S2P Require Import Prelude Stream CryptoCommon.
Import CryptoCommon.

(** * The reference construction *)

Module Md.
Section Md.
Context (size : nat) (compress : list Z -> list Z -> list Z).

Fixpoint blocks (n : nat) (m : list Z) : list (list Z) :=
  match n with
  | O => []
  | S n => firstn size m :: blocks n (skipn size m)
  end.

(** The compression function over the blocks of a padded message. *)
Definition chain (iv m : list Z) : list Z := fold_left compress (blocks (length m / size) m) iv.

(** The words of a message schedule after the first sixteen: each is computed from the
    sixteen words [ws] before it. *)
Fixpoint more_words (next : list Z -> Z) (n : nat) (ws : list Z) : list Z :=
  match n with
  | O => []
  | S n => let x := next ws in x :: more_words next n (tl ws ++ [x])
  end.

(** A 1 bit, as few zeros as possible, and the length field. *)
Definition pad (field : list Z) (m : list Z) : list Z :=
  let zeros := ((size - (length m + 1 + length field) mod size) mod size)%nat in
  m ++ [0x80] ++ repeat 0 zeros ++ field.
End Md.
End Md.

(** * The classes *)

Module Hasher.

(** The members [s], [buf] and [bytes]. *)
Record hasher := {
  h_s : list Z;
  h_buf : list Z;
  h_bytes : Z
}.

Section Write.
Context (size : nat) (Initialize : list Z) (Transform : list Z -> list Z -> list Z).

(** [while (end >= data + size)]; every turn consumes a block. *)
Fixpoint chunks (fuel : nat) (s : list Z) (byts : Z) (data : list Z) : list Z * Z * list Z :=
  match fuel with
  | O => (s, byts, data)
  | S fuel =>
      if (size <=? length data)%nat then
        chunks fuel (Transform s data) (w64 (byts + Z.of_nat size)) (skipn size data)
      else (s, byts, data)
  end.

Definition Write (c : hasher) (data : list Z) : hasher :=
  let len := length data in
  let bufsize := Z.to_nat (h_bytes c mod Z.of_nat size) in
  let '(s, buf, byts, data, bufsize) :=
    if negb (bufsize =? 0)%nat && (size <=? bufsize + len)%nat then
      let n := (size - bufsize)%nat in
      let buf := memcpy_at (h_buf c) bufsize (firstn n data) in
      let byts := w64 (h_bytes c + Z.of_nat n) in
      let data := skipn n data in
      let s := Transform (h_s c) buf in
      (s, buf, byts, data, 0%nat)
    else (h_s c, h_buf c, h_bytes c, data, bufsize) in
  let '(s, byts, data) := chunks (length data) s byts data in
  if (0 <? length data)%nat then
    {| h_s := s; h_buf := memcpy_at buf bufsize data; h_bytes := w64 (byts + Z.of_nat (length data)) |}
  else {| h_s := s; h_buf := buf; h_bytes := byts |}.

(** The constructor and [Reset] set [bytes] and the state; the buffer keeps its
    contents. *)
Definition Reset (c : hasher) : hasher := {| h_s := Initialize; h_buf := h_buf c; h_bytes := 0 |}.
End Write.

End Hasher.
Import Hasher.

(** * What they compute *)

Lemma bytes_mod size n : size = 64%nat \/ size = 128%nat -> Z.to_nat (w64 (Z.of_nat n) mod Z.of_nat size) = (n mod size)%nat.
Proof.
  intros Hsize.  rewrite <- (Nat2Z.id (n mod size)), Nat2Z.inj_mod. f_equal. unfold w64.
  destruct Hsize as [-> | ->]; [apply (mod_mod_pow2 _ 6 64) | apply (mod_mod_pow2 _ 7 64)]; lia.
Qed.

Section Proofs.
Context (size : nat) (Initialize : list Z) (Transform : list Z -> list Z -> list Z).
Context (Hsize : size = 64%nat \/ size = 128%nat).
Context (Htransform : forall s b, (size <= length b)%nat -> Transform s b = Transform s (firstn size b)).

Let size_pos : (0 < size)%nat.
Proof. lia. Qed.

(** A hasher that was fed the message [m]: the state after its whole blocks, its rest in
    the buffer, and its length modulo 2^64. *)
Definition fed (c : hasher) (m : list Z) : Prop :=
  length (h_buf c) = size /\ h_bytes c = w64 (Z.of_nat (length m)) /\
  absorb size Transform Initialize m = (h_s c, firstn (length m mod size) (h_buf c)).

Lemma w64_add x y : w64 (w64 x + y) = w64 (x + y).
Proof. unfold w64. apply Z.add_mod_idemp_l. lia. Qed.

Lemma chunks_absorb fuel s n data :
  (length data <= fuel)%nat ->
  exists s' data', chunks size Transform fuel s (w64 (Z.of_nat n)) data =
                   (s', w64 (Z.of_nat (n + (length data - length data'))), data') /\
  (length data' <= length data)%nat /\ absorb size Transform s data = (s', data').
Proof.
  revert s n data; induction fuel as [|fuel IH]; intros s n data Hf; cbn [chunks].
  - exists s, data. rewrite Nat.sub_diag, Nat.add_0_r. split; [reflexivity|]. split; [lia|]. apply absorb_short; lia.
  - destruct (Nat.leb_spec size (length data)) as [Hle|Hlt].
    + destruct (IH (Transform s data) (n + size)%nat (skipn size data)) as (s' & d' & E & L & A); [rewrite length_skipn; lia|].
      rewrite length_skipn in E, L. exists s', d'. rewrite w64_add, <- Nat2Z.inj_add, E.
      split; [do 4 f_equal; lia|]. split; [lia|]. rewrite absorb_block, <- Htransform by lia. exact A.
    + exists s, data. rewrite Nat.sub_diag, Nat.add_0_r. split; [reflexivity|]. split; [lia|]. apply absorb_short; lia.
Qed.

Let W := Write size Transform.

(** A hasher built from what [chunks] leaves. *)
Definition keep (buf : list Z) (r : list Z * Z * list Z) : hasher :=
  let '(s, byts, data) := r in
  if (0 <? length data)%nat then
    {| h_s := s; h_buf := memcpy_at buf 0 data; h_bytes := w64 (byts + Z.of_nat (length data)) |}
  else {| h_s := s; h_buf := buf; h_bytes := byts |}.

(** [Write] once the buffer is empty. *)
Lemma chunks_fed m buf s data :
  length buf = size -> (length m mod size = 0)%nat -> absorb size Transform Initialize m = (s, []) ->
  fed (keep buf (chunks size Transform (length data) s (w64 (Z.of_nat (length m))) data)) (m ++ data).
Proof.
  intros Hb Hm Ha. destruct (chunks_absorb (length data) s (length m) data (le_n _)) as (s' & d' & -> & L & A).
  assert (Aw : absorb size Transform Initialize (m ++ data) = (s', d')) by (rewrite absorb_app, Ha by assumption; exact A).
  assert (Hd : length d' = (length (m ++ data) mod size)%nat).
  { rewrite <- (absorb_tail_mod size Transform size_pos Initialize (m ++ data)), Aw. reflexivity. }
  assert (Hlt : (length d' < size)%nat) by (rewrite Hd; apply Nat.mod_upper_bound; lia).
  cbn [keep]. unfold fed. rewrite <- Hd, length_app. destruct (Nat.ltb_spec 0 (length d')) as [Hp|Hz]; cbn [h_s h_buf h_bytes].
  - split; [rewrite length_memcpy_at; lia|]. split; [rewrite w64_add, <- Nat2Z.inj_add; do 2 f_equal; lia|].
    rewrite Aw. f_equal. symmetry. exact (firstn_memcpy_at buf 0 d' ltac:(lia)).
  - destruct d'; [|cbn in Hz; lia]. split; [assumption|]. split; [do 2 f_equal; cbn; lia | exact Aw].
Qed.

Lemma Write_fed c m d : fed c m -> fed (W c d) (m ++ d).
Proof.
  intros (Hb & Hn & Ha). unfold W, Write. rewrite Hn, bytes_mod by exact Hsize.
  assert (Hp : (length m mod size < size)%nat) by (apply Nat.mod_upper_bound; lia).
  set (p := (length m mod size)%nat) in *. destruct (Nat.eqb_spec p 0) as [E0|Ep]; cbn [negb andb].
  { rewrite E0 in Ha |- *. now apply (chunks_fed m). }
  destruct (Nat.leb_spec size (p + length d)) as [Hfull|Hshort].
  - set (n := (size - p)%nat). set (b := memcpy_at (h_buf c) p (firstn n d)).
    assert (Hfn : length (firstn n d) = n) by (rewrite length_firstn; lia).
    assert (Hbl : length b = size) by (unfold b; rewrite length_memcpy_at; lia).
    assert (Eb : b = firstn p (h_buf c) ++ firstn n d).
    { rewrite <- (firstn_all2 (n := size) b) by lia. unfold b. replace size with (p + length (firstn n d))%nat by lia.
      apply firstn_memcpy_at. lia. }
    replace (m ++ d) with ((m ++ firstn n d) ++ skipn n d) by now rewrite <- app_assoc, firstn_skipn.
    assert (Ew : w64 (w64 (Z.of_nat (length m)) + Z.of_nat n) = w64 (Z.of_nat (length (m ++ firstn n d))))
      by (rewrite w64_add, <- Nat2Z.inj_add, length_app, Hfn; reflexivity).
    rewrite Ew.
    apply (chunks_fed (m ++ firstn n d)); [assumption | |].
    + rewrite length_app, Hfn, <- Nat.Div0.add_mod_idemp_l. fold p. replace (p + n)%nat with size by lia. apply Nat.Div0.mod_same.
    + rewrite absorb_app, Ha by assumption. cbn [fst snd]. rewrite <- Eb, <- (app_nil_r b), absorb_block_app by assumption.
      rewrite app_nil_r. now apply absorb_short.
  - assert (E : chunks size Transform (length d) (h_s c) (w64 (Z.of_nat (length m))) d = (h_s c, w64 (Z.of_nat (length m)), d)).
    { destruct d; [reflexivity|]. cbn [length chunks]. destruct (Nat.leb_spec size (S (length d))); [cbn [length] in Hshort; lia | reflexivity]. }
    rewrite E. assert (Em : ((length (m ++ d)) mod size = p + length d)%nat).
    { rewrite length_app, <- Nat.Div0.add_mod_idemp_l. fold p. apply Nat.mod_small. lia. }
    unfold fed. rewrite Em. destruct (Nat.ltb_spec 0 (length d)) as [Hpd|Hz]; cbn [h_s h_buf h_bytes].
    + split; [rewrite length_memcpy_at; lia|]. split; [rewrite length_app, Nat2Z.inj_add; apply w64_add|].
      rewrite absorb_app, Ha, firstn_memcpy_at by lia. cbn [fst snd]. apply absorb_short; [assumption|]. rewrite length_app, length_firstn. lia.
    + destruct d; [|cbn in Hz; lia]. rewrite app_nil_r, Nat.add_0_r. auto.
Qed.

Lemma Reset_fed c : length (h_buf c) = size -> fed (Reset Initialize c) [].
Proof.
  intros Hb. split; [assumption|]. split; [reflexivity|]. cbn [length Reset h_s h_buf].
  rewrite Nat.Div0.mod_0_l. apply absorb_short; [assumption | cbn; lia].
Qed.

(** Absorbing whole blocks is the reference construction. *)
Lemma absorb_chain s m :
  (length m mod size = 0)%nat -> fst (absorb size Transform s m) = Md.chain size Transform s m.
Proof.
  unfold Md.chain. revert s m.
  apply (absorb_ind size Transform size_pos (fun s m => (length m mod size = 0)%nat ->
    fst (absorb size Transform s m) = fold_left Transform (Md.blocks size (length m / size) m) s)).
  - intros s m Hlt Hm. rewrite Nat.mod_small in Hm by assumption. destruct m; [|discriminate Hm]. rewrite Nat.Div0.div_0_l. reflexivity.
  - intros s b m Hb IH Hm. rewrite length_app, Hb in *. replace (size + length m)%nat with (length m + 1 * size)%nat in * by lia.
    rewrite Nat.Div0.mod_add in Hm. rewrite Nat.div_add, Nat.add_1_r by lia. cbn [Md.blocks fold_left].
    rewrite absorb_block_app, firstn_app, skipn_app, Hb, Nat.sub_diag, firstn_O, skipn_O, app_nil_r by assumption.
    rewrite firstn_all2, skipn_all2 by lia. now apply IH.
Qed.

(** The number of zeros in the padding, from the number of bytes in the buffer and from
    the length of the message. *)
Lemma pad_count n f :
  (f < size)%nat ->
  ((2 * size - f - 1 - n mod size) mod size = (size - (n + 1 + f) mod size) mod size)%nat.
Proof.
  intros Hf. pose proof (Nat.mod_upper_bound n size ltac:(lia)). pose proof (Nat.mod_upper_bound (n + 1 + f) size ltac:(lia)).
  pose proof (Nat.div_mod_eq n size). pose proof (Nat.div_mod_eq (n + 1 + f) size).
  assert (M : forall a b k, (a = b + k * size -> a mod size = b mod size)%nat) by (intros a b k ->; apply Nat.Div0.mod_add).
  set (q := (n / size)%nat) in *. set (q' := ((n + 1 + f) / size)%nat) in *.
  assert (q' = q \/ q' = q + 1)%nat as [Eq|Eq] by (destruct Hsize; subst size; lia).
  - apply (M _ _ 1%nat). destruct Hsize; subst size; lia.
  - apply (M _ _ 0%nat). destruct Hsize; subst size; lia.
Qed.

Lemma pad_whole field m : (length (Md.pad size field m) mod size = 0)%nat.
Proof.
  unfold Md.pad. rewrite !length_app, repeat_length. cbn [length]. set (n := (length m + 1 + length field)%nat).
  replace (_ + _)%nat with (n + (size - n mod size) mod size)%nat by (unfold n; lia).
  rewrite Nat.Div0.add_mod_idemp_r, <- Nat.Div0.add_mod_idemp_l. pose proof (Nat.mod_upper_bound n size ltac:(lia)).
  replace (_ + _)%nat with size by lia. apply Nat.Div0.mod_same.
Qed.

Lemma firstn_zeros n k : (n <= k)%nat -> firstn n (repeat 0 k) = repeat 0 n.
Proof. revert k; induction n as [|n IH]; intros [|k] H; cbn; try lia; [reflexivity..|]. f_equal. apply IH. lia. Qed.

(** The padding as [Finalize] writes it: from a constant array, in a length computed
    from the number of bytes in the buffer. *)
Lemma Finalize_state c m field :
  fed c m -> (length field < size)%nat ->
  let n := (1 + (2 * size - length field - 1 - length m mod size) mod size)%nat in
  let c' := W (W c (firstn n (0x80 :: repeat 0 (size - 1)))) field in
  length (h_buf c') = size /\ h_s c' = Md.chain size Transform Initialize (Md.pad size field m).
Proof.
  intros Hc Hf n c'.
  assert (Hfed : fed c' (Md.pad size field m)).
  { unfold c', n, Md.pad. cbn [firstn Nat.add].
    rewrite firstn_zeros by (pose proof (Nat.mod_upper_bound (2 * size - length field - 1 - length m mod size) size ltac:(lia)); lia).
    rewrite pad_count by assumption. set (z := (_ mod size)%nat).
    replace (m ++ [0x80] ++ repeat 0 z ++ field) with ((m ++ 0x80 :: repeat 0 z) ++ field) by (rewrite <- app_assoc; reflexivity).
    now do 2 apply Write_fed. }
  destruct Hfed as (Hb & _ & Ha). split; [assumption|]. rewrite <- absorb_chain, Ha by apply pad_whole. reflexivity.
Qed.
End Proofs.

(** * Streams *)

Section Hash.
Context (size : nat) (Initialize : list Z) (Transform : list Z -> list Z -> list Z) (Finalize : hasher -> list Z * hasher).
Context (Hsize : size = 64%nat \/ size = 128%nat).
Context (Htransform : forall s b, (size <= length b)%nat -> Transform s b = Transform s (firstn size b)).
Context (buf : list Z) (Hbuf : length buf = size).

(** A hasher that is reset after [Finalize], as the callers do before they use it again. *)
Definition hasher_ops : hash_ops hasher := {|
  hash_init := {| h_s := Initialize; h_buf := buf; h_bytes := 0 |};
  hash_update := Write size Transform;
  hash_close c := let '(hash, c) := Finalize c in (hash, Reset Initialize c)
|}.

Lemma hasher_stream (ok : list Z -> Prop) (H : list Z -> list Z) :
  (forall c m, fed size Initialize Transform c m -> bytes m -> ok m ->
   fst (Finalize c) = H m /\ length (h_buf (snd (Finalize c))) = size) ->
  StreamHash hasher_ops ok H.
Proof.
  intros HF. apply (Build_StreamHash _ hasher_ops ok H (fun c m => bytes m /\ fed size Initialize Transform c m)).
  - split; [constructor|]. exact (Reset_fed size Initialize Transform Hsize {| h_s := Initialize; h_buf := buf; h_bytes := 0 |} Hbuf).
  - intros c m d Hd [Hm Hc]. split; [now apply Forall_app|]. now apply (Write_fed size Initialize Transform Hsize Htransform).
  - intros c m [Hm Hc] Hok. destruct (HF c m Hc Hm Hok) as [E L]. cbn [hash_close hasher_ops].
    destruct (Finalize c) as [h c']. cbn [fst snd] in *. split; [exact E|]. split; [constructor|].
    now apply (Reset_fed size Initialize Transform Hsize).
Defined.
End Hash.

(** The blocks of a padded message, and compression functions that agree on blocks. *)
Lemma blocks_ok size n m :
  bytes m -> (n * size <= length m)%nat -> Forall (fun b => bytes b /\ length b = size) (Md.blocks size n m).
Proof.
  revert m; induction n as [|n IH]; intros m Hm Hl; cbn [Md.blocks]; constructor.
  - split; [now apply Forall_take | rewrite length_firstn; lia].
  - apply IH; [now apply Forall_drop | rewrite length_skipn; lia].
Qed.

Lemma chain_ext size (f g : list Z -> list Z -> list Z) (P : list Z -> Prop) iv m :
  (0 < size)%nat -> bytes m -> P iv ->
  (forall s b, P s -> bytes b -> length b = size -> f s b = g s b /\ P (f s b)) ->
  Md.chain size f iv m = Md.chain size g iv m /\ P (Md.chain size f iv m).
Proof.
  intros Hs Hm Hiv Hfg. unfold Md.chain.
  assert (Hb := blocks_ok size (length m / size) m Hm ltac:(rewrite Nat.mul_comm; apply Nat.Div0.mul_div_le)).
  revert iv Hiv. induction Hb as [|b bs [Hb Hl] _ IH]; intros iv Hiv; [now split|]. cbn [fold_left].
  destruct (Hfg iv b Hiv Hb Hl) as [<- HP]. now apply IH.
Qed.

Lemma bytes_pad size field m : bytes m -> bytes field -> bytes (Md.pad size field m).
Proof.
  intros Hm Hf. unfold Md.pad. rewrite !Forall_app. split; [assumption|]. split; [|split; [|assumption]].
  - repeat constructor; lia.
  - apply Forall_forall. intros x Hx. apply repeat_spec in Hx. rewrite Hx. now split.
Qed.

(** The length that [Finalize] computes from [bytes], and the length field. *)
Lemma pad_length_64 c (m : list Z) k f :
  h_bytes c = w64 (Z.of_nat (length m)) -> k = 128 - Z.of_nat f - 1 -> (f < 64)%nat ->
  Z.to_nat (1 + (k - h_bytes c mod 64) mod 64) = (1 + (2 * 64 - f - 1 - length m mod 64) mod 64)%nat.
Proof.
  intros -> -> Hf. pose proof (bytes_mod 64 (length m) (or_introl eq_refl)) as E.
  change (Z.of_nat 64) with 64 in E. rewrite <- E. lia.
Qed.

Lemma pad_length_128 c (m : list Z) k f :
  h_bytes c = w64 (Z.of_nat (length m)) -> k = 256 - Z.of_nat f - 1 -> (f < 128)%nat ->
  Z.to_nat (1 + (k - h_bytes c mod 128) mod 128) = (1 + (2 * 128 - f - 1 - length m mod 128) mod 128)%nat.
Proof.
  intros -> -> Hf. pose proof (bytes_mod 128 (length m) (or_intror eq_refl)) as E.
  change (Z.of_nat 128) with 128 in E. rewrite <- E. lia.
Qed.

Lemma bit_count c (m : list Z) :
  h_bytes c = w64 (Z.of_nat (length m)) -> 8 * Z.of_nat (length m) < 2 ^ 64 ->
  w64 (Z.shiftl (h_bytes c) 3) = 8 * Z.of_nat (length m).
Proof.
  intros -> H. unfold w64. rewrite (Z.mod_small (Z.of_nat _)), Z.shiftl_mul_pow2 by lia.
  change (2 ^ 3) with 8. rewrite Z.mod_small; lia.
Qed.

(** The part of [Finalize] that the classes with blocks of 64 bytes have in common. *)
Lemma Finalize_64 Initialize Transform c m field :
  (forall s b, (64 <= length b)%nat -> Transform s b = Transform s (firstn 64 b)) ->
  fed 64 Initialize Transform c m -> length field = 8%nat ->
  let c' := Write 64 Transform (Write 64 Transform c (firstn (Z.to_nat (1 + (119 - h_bytes c mod 64) mod 64)) (0x80 :: repeat 0 63))) field in
  length (h_buf c') = 64%nat /\ h_s c' = Md.chain 64 Transform Initialize (Md.pad 64 field m).
Proof.
  intros HT Hc Hf c'. pose proof Hc as (_ & Hn & _).
  pose proof (Finalize_state 64 Initialize Transform (or_introl eq_refl) HT c m field Hc ltac:(lia)) as [Hb Hs].
  rewrite Hf in Hb, Hs. unfold c'. rewrite (pad_length_64 c m 119 8 Hn) by (reflexivity || lia). now split.
Qed.
