(* ===== verification/Sha256.v ===== *)
(** SHA-256: sha256.h and sha256.cpp. *)
From S2P Require Import Prelude CryptoCommon Hasher.
Import CryptoCommon Hasher.

Module Sha256.

Definition Ch (x y z : Z) : Z := z ^^ (x &: (y ^^ z)).
Definition Maj (x y z : Z) : Z := (x &: y) |: (z &: (x |: y)).
Definition Sigma0 (x : Z) : Z := (Z.shiftr x 2 |: w32 (Z.shiftl x 30)) ^^ (Z.shiftr x 13 |: w32 (Z.shiftl x 19)) ^^ (Z.shiftr x 22 |: w32 (Z.shiftl x 10)).
Definition Sigma1 (x : Z) : Z := (Z.shiftr x 6 |: w32 (Z.shiftl x 26)) ^^ (Z.shiftr x 11 |: w32 (Z.shiftl x 21)) ^^ (Z.shiftr x 25 |: w32 (Z.shiftl x 7)).
Definition sigma0 (x : Z) : Z := (Z.shiftr x 7 |: w32 (Z.shiftl x 25)) ^^ (Z.shiftr x 18 |: w32 (Z.shiftl x 14)) ^^ Z.shiftr x 3.
Definition sigma1 (x : Z) : Z := (Z.shiftr x 17 |: w32 (Z.shiftl x 15)) ^^ (Z.shiftr x 19 |: w32 (Z.shiftl x 13)) ^^ Z.shiftr x 10.

(** One round: the new values of [d] and [h]. *)
Definition Round (a b c d e f g h k w : Z) : Z * Z :=
  let t1 := w32 (h + Sigma1 e + Ch e f g + k + w) in
  let t2 := w32 (Sigma0 a + Maj a b c) in
  (w32 (d + t1), w32 (t1 + t2)).

Definition Initialize : list Z :=
  [0x6a09e667; 0xbb67ae85; 0x3c6ef372; 0xa54ff53a;
   0x510e527f; 0x9b05688c; 0x1f83d9ab; 0x5be0cd19].

(** One transformation of a 64-byte chunk. *)
Definition Transform (s chunk : list Z) : list Z :=
  let! a := s.[0] in let! b := s.[1] in let! c := s.[2] in let! d := s.[3] in let! e := s.[4] in let! f := s.[5] in let! g := s.[6] in let! h := s.[7] in
  let! w0 := ReadBE32 (skipn 0 chunk) in let '(d, h) := Round a b c d e f g h 0x428a2f98 w0 in
  let! w1 := ReadBE32 (skipn 4 chunk) in let '(c, g) := Round h a b c d e f g 0x71374491 w1 in
  let! w2 := ReadBE32 (skipn 8 chunk) in let '(b, f) := Round g h a b c d e f 0xb5c0fbcf w2 in
  let! w3 := ReadBE32 (skipn 12 chunk) in let '(a, e) := Round f g h a b c d e 0xe9b5dba5 w3 in
  let! w4 := ReadBE32 (skipn 16 chunk) in let '(h, d) := Round e f g h a b c d 0x3956c25b w4 in
  let! w5 := ReadBE32 (skipn 20 chunk) in let '(g, c) := Round d e f g h a b c 0x59f111f1 w5 in
  let! w6 := ReadBE32 (skipn 24 chunk) in let '(f, b) := Round c d e f g h a b 0x923f82a4 w6 in
  let! w7 := ReadBE32 (skipn 28 chunk) in let '(e, a) := Round b c d e f g h a 0xab1c5ed5 w7 in
  let! w8 := ReadBE32 (skipn 32 chunk) in let '(d, h) := Round a b c d e f g h 0xd807aa98 w8 in
  let! w9 := ReadBE32 (skipn 36 chunk) in let '(c, g) := Round h a b c d e f g 0x12835b01 w9 in
  let! w10 := ReadBE32 (skipn 40 chunk) in let '(b, f) := Round g h a b c d e f 0x243185be w10 in
  let! w11 := ReadBE32 (skipn 44 chunk) in let '(a, e) := Round f g h a b c d e 0x550c7dc3 w11 in
  let! w12 := ReadBE32 (skipn 48 chunk) in let '(h, d) := Round e f g h a b c d 0x72be5d74 w12 in
  let! w13 := ReadBE32 (skipn 52 chunk) in let '(g, c) := Round d e f g h a b c 0x80deb1fe w13 in
  let! w14 := ReadBE32 (skipn 56 chunk) in let '(f, b) := Round c d e f g h a b 0x9bdc06a7 w14 in
  let! w15 := ReadBE32 (skipn 60 chunk) in let '(e, a) := Round b c d e f g h a 0xc19bf174 w15 in
  let! w0 := w32 (w0 + w32 (sigma1 w14 + w9 + sigma0 w1)) in let '(d, h) := Round a b c d e f g h 0xe49b69c1 w0 in
  let! w1 := w32 (w1 + w32 (sigma1 w15 + w10 + sigma0 w2)) in let '(c, g) := Round h a b c d e f g 0xefbe4786 w1 in
  let! w2 := w32 (w2 + w32 (sigma1 w0 + w11 + sigma0 w3)) in let '(b, f) := Round g h a b c d e f 0x0fc19dc6 w2 in
  let! w3 := w32 (w3 + w32 (sigma1 w1 + w12 + sigma0 w4)) in let '(a, e) := Round f g h a b c d e 0x240ca1cc w3 in
  let! w4 := w32 (w4 + w32 (sigma1 w2 + w13 + sigma0 w5)) in let '(h, d) := Round e f g h a b c d 0x2de92c6f w4 in
  let! w5 := w32 (w5 + w32 (sigma1 w3 + w14 + sigma0 w6)) in let '(g, c) := Round d e f g h a b c 0x4a7484aa w5 in
  let! w6 := w32 (w6 + w32 (sigma1 w4 + w15 + sigma0 w7)) in let '(f, b) := Round c d e f g h a b 0x5cb0a9dc w6 in
  let! w7 := w32 (w7 + w32 (sigma1 w5 + w0 + sigma0 w8)) in let '(e, a) := Round b c d e f g h a 0x76f988da w7 in
  let! w8 := w32 (w8 + w32 (sigma1 w6 + w1 + sigma0 w9)) in let '(d, h) := Round a b c d e f g h 0x983e5152 w8 in
  let! w9 := w32 (w9 + w32 (sigma1 w7 + w2 + sigma0 w10)) in let '(c, g) := Round h a b c d e f g 0xa831c66d w9 in
  let! w10 := w32 (w10 + w32 (sigma1 w8 + w3 + sigma0 w11)) in let '(b, f) := Round g h a b c d e f 0xb00327c8 w10 in
  let! w11 := w32 (w11 + w32 (sigma1 w9 + w4 + sigma0 w12)) in let '(a, e) := Round f g h a b c d e 0xbf597fc7 w11 in
  let! w12 := w32 (w12 + w32 (sigma1 w10 + w5 + sigma0 w13)) in let '(h, d) := Round e f g h a b c d 0xc6e00bf3 w12 in
  let! w13 := w32 (w13 + w32 (sigma1 w11 + w6 + sigma0 w14)) in let '(g, c) := Round d e f g h a b c 0xd5a79147 w13 in
  let! w14 := w32 (w14 + w32 (sigma1 w12 + w7 + sigma0 w15)) in let '(f, b) := Round c d e f g h a b 0x06ca6351 w14 in
  let! w15 := w32 (w15 + w32 (sigma1 w13 + w8 + sigma0 w0)) in let '(e, a) := Round b c d e f g h a 0x14292967 w15 in
  let! w0 := w32 (w0 + w32 (sigma1 w14 + w9 + sigma0 w1)) in let '(d, h) := Round a b c d e f g h 0x27b70a85 w0 in
  let! w1 := w32 (w1 + w32 (sigma1 w15 + w10 + sigma0 w2)) in let '(c, g) := Round h a b c d e f g 0x2e1b2138 w1 in
  let! w2 := w32 (w2 + w32 (sigma1 w0 + w11 + sigma0 w3)) in let '(b, f) := Round g h a b c d e f 0x4d2c6dfc w2 in
  let! w3 := w32 (w3 + w32 (sigma1 w1 + w12 + sigma0 w4)) in let '(a, e) := Round f g h a b c d e 0x53380d13 w3 in
  let! w4 := w32 (w4 + w32 (sigma1 w2 + w13 + sigma0 w5)) in let '(h, d) := Round e f g h a b c d 0x650a7354 w4 in
  let! w5 := w32 (w5 + w32 (sigma1 w3 + w14 + sigma0 w6)) in let '(g, c) := Round d e f g h a b c 0x766a0abb w5 in
  let! w6 := w32 (w6 + w32 (sigma1 w4 + w15 + sigma0 w7)) in let '(f, b) := Round c d e f g h a b 0x81c2c92e w6 in
  let! w7 := w32 (w7 + w32 (sigma1 w5 + w0 + sigma0 w8)) in let '(e, a) := Round b c d e f g h a 0x92722c85 w7 in
  let! w8 := w32 (w8 + w32 (sigma1 w6 + w1 + sigma0 w9)) in let '(d, h) := Round a b c d e f g h 0xa2bfe8a1 w8 in
  let! w9 := w32 (w9 + w32 (sigma1 w7 + w2 + sigma0 w10)) in let '(c, g) := Round h a b c d e f g 0xa81a664b w9 in
  let! w10 := w32 (w10 + w32 (sigma1 w8 + w3 + sigma0 w11)) in let '(b, f) := Round g h a b c d e f 0xc24b8b70 w10 in
  let! w11 := w32 (w11 + w32 (sigma1 w9 + w4 + sigma0 w12)) in let '(a, e) := Round f g h a b c d e 0xc76c51a3 w11 in
  let! w12 := w32 (w12 + w32 (sigma1 w10 + w5 + sigma0 w13)) in let '(h, d) := Round e f g h a b c d 0xd192e819 w12 in
  let! w13 := w32 (w13 + w32 (sigma1 w11 + w6 + sigma0 w14)) in let '(g, c) := Round d e f g h a b c 0xd6990624 w13 in
  let! w14 := w32 (w14 + w32 (sigma1 w12 + w7 + sigma0 w15)) in let '(f, b) := Round c d e f g h a b 0xf40e3585 w14 in
  let! w15 := w32 (w15 + w32 (sigma1 w13 + w8 + sigma0 w0)) in let '(e, a) := Round b c d e f g h a 0x106aa070 w15 in
  let! w0 := w32 (w0 + w32 (sigma1 w14 + w9 + sigma0 w1)) in let '(d, h) := Round a b c d e f g h 0x19a4c116 w0 in
  let! w1 := w32 (w1 + w32 (sigma1 w15 + w10 + sigma0 w2)) in let '(c, g) := Round h a b c d e f g 0x1e376c08 w1 in
  let! w2 := w32 (w2 + w32 (sigma1 w0 + w11 + sigma0 w3)) in let '(b, f) := Round g h a b c d e f 0x2748774c w2 in
  let! w3 := w32 (w3 + w32 (sigma1 w1 + w12 + sigma0 w4)) in let '(a, e) := Round f g h a b c d e 0x34b0bcb5 w3 in
  let! w4 := w32 (w4 + w32 (sigma1 w2 + w13 + sigma0 w5)) in let '(h, d) := Round e f g h a b c d 0x391c0cb3 w4 in
  let! w5 := w32 (w5 + w32 (sigma1 w3 + w14 + sigma0 w6)) in let '(g, c) := Round d e f g h a b c 0x4ed8aa4a w5 in
  let! w6 := w32 (w6 + w32 (sigma1 w4 + w15 + sigma0 w7)) in let '(f, b) := Round c d e f g h a b 0x5b9cca4f w6 in
  let! w7 := w32 (w7 + w32 (sigma1 w5 + w0 + sigma0 w8)) in let '(e, a) := Round b c d e f g h a 0x682e6ff3 w7 in
  let! w8 := w32 (w8 + w32 (sigma1 w6 + w1 + sigma0 w9)) in let '(d, h) := Round a b c d e f g h 0x748f82ee w8 in
  let! w9 := w32 (w9 + w32 (sigma1 w7 + w2 + sigma0 w10)) in let '(c, g) := Round h a b c d e f g 0x78a5636f w9 in
  let! w10 := w32 (w10 + w32 (sigma1 w8 + w3 + sigma0 w11)) in let '(b, f) := Round g h a b c d e f 0x84c87814 w10 in
  let! w11 := w32 (w11 + w32 (sigma1 w9 + w4 + sigma0 w12)) in let '(a, e) := Round f g h a b c d e 0x8cc70208 w11 in
  let! w12 := w32 (w12 + w32 (sigma1 w10 + w5 + sigma0 w13)) in let '(h, d) := Round e f g h a b c d 0x90befffa w12 in
  let! w13 := w32 (w13 + w32 (sigma1 w11 + w6 + sigma0 w14)) in let '(g, c) := Round d e f g h a b c 0xa4506ceb w13 in
  let '(f, b) := Round c d e f g h a b 0xbef9a3f7 (w32 (w14 + sigma1 w12 + w7 + sigma0 w15)) in
  let '(e, a) := Round b c d e f g h a 0xc67178f2 (w32 (w15 + sigma1 w13 + w8 + sigma0 w0)) in
  [w32 (s.[0] + a); w32 (s.[1] + b); w32 (s.[2] + c); w32 (s.[3] + d); w32 (s.[4] + e); w32 (s.[5] + f); w32 (s.[6] + g); w32 (s.[7] + h)].

(** ** The class *)

(** The constructor; it leaves the buffer as it finds it. *)
Definition CSHA256 (buf : list Z) : hasher := {| h_s := Initialize; h_buf := buf; h_bytes := 0 |}.

Definition Write (c : hasher) (data : list Z) : hasher := Hasher.Write 64 Transform c data.

Definition Reset (c : hasher) : hasher := Hasher.Reset Initialize c.

(** [None] when the check throws. *)
Definition FinalizeNoPadding (c : hasher) (enforce_compression : bool) : option (list Z) :=
  if enforce_compression && negb (h_bytes c =? 64) then None
  else Some (WriteBE32 (h_s c).[0] ++ WriteBE32 (h_s c).[1] ++ WriteBE32 (h_s c).[2] ++ WriteBE32 (h_s c).[3] ++ WriteBE32 (h_s c).[4] ++ WriteBE32 (h_s c).[5] ++ WriteBE32 (h_s c).[6] ++ WriteBE32 (h_s c).[7]).

(** The hash and the object after it; without [enforce_compression] the check does not
    throw. *)
Definition Finalize (c : hasher) : list Z * hasher :=
  let pad := 0x80 :: repeat 0 63 in
  let sizedesc := WriteBE64 (w64 (Z.shiftl (h_bytes c) 3)) in
  let c := Write c (firstn (Z.to_nat (1 + (119 - h_bytes c mod 64) mod 64)) pad) in
  let c := Write c sizedesc in
  match FinalizeNoPadding c false with
  | Some hash => (hash, c)
  | None => ([], c)
  end.

End Sha256.
