(* ===== verification/Sha512.v ===== *)
(** SHA-512: sha512.h and sha512.cpp. *)
From S2P Require Import Prelude CryptoCommon Hasher.
Import CryptoCommon Hasher.

Module Sha512.

Definition Ch (x y z : Z) : Z := z ^^ (x &: (y ^^ z)).
Definition Maj (x y z : Z) : Z := (x &: y) |: (z &: (x |: y)).
Definition Sigma0 (x : Z) : Z := (Z.shiftr x 28 |: w64 (Z.shiftl x 36)) ^^ (Z.shiftr x 34 |: w64 (Z.shiftl x 30)) ^^ (Z.shiftr x 39 |: w64 (Z.shiftl x 25)).
Definition Sigma1 (x : Z) : Z := (Z.shiftr x 14 |: w64 (Z.shiftl x 50)) ^^ (Z.shiftr x 18 |: w64 (Z.shiftl x 46)) ^^ (Z.shiftr x 41 |: w64 (Z.shiftl x 23)).
Definition sigma0 (x : Z) : Z := (Z.shiftr x 1 |: w64 (Z.shiftl x 63)) ^^ (Z.shiftr x 8 |: w64 (Z.shiftl x 56)) ^^ Z.shiftr x 7.
Definition sigma1 (x : Z) : Z := (Z.shiftr x 19 |: w64 (Z.shiftl x 45)) ^^ (Z.shiftr x 61 |: w64 (Z.shiftl x 3)) ^^ Z.shiftr x 6.

(** One round: the new values of [d] and [h]. *)
Definition Round (a b c d e f g h k w : Z) : Z * Z :=
  let t1 := w64 (h + Sigma1 e + Ch e f g + k + w) in
  let t2 := w64 (Sigma0 a + Maj a b c) in
  (w64 (d + t1), w64 (t1 + t2)).

Definition Initialize : list Z :=
  [0x6a09e667f3bcc908; 0xbb67ae8584caa73b; 0x3c6ef372fe94f82b; 0xa54ff53a5f1d36f1;
   0x510e527fade682d1; 0x9b05688c2b3e6c1f; 0x1f83d9abfb41bd6b; 0x5be0cd19137e2179].

(** One transformation of a 128-byte chunk. *)
Definition Transform (s chunk : list Z) : list Z :=
  let! a := s.[0] in let! b := s.[1] in let! c := s.[2] in let! d := s.[3] in let! e := s.[4] in let! f := s.[5] in let! g := s.[6] in let! h := s.[7] in
  let! w0 := ReadBE64 (skipn 0 chunk) in let '(d, h) := Round a b c d e f g h 0x428a2f98d728ae22 w0 in
  let! w1 := ReadBE64 (skipn 8 chunk) in let '(c, g) := Round h a b c d e f g 0x7137449123ef65cd w1 in
  let! w2 := ReadBE64 (skipn 16 chunk) in let '(b, f) := Round g h a b c d e f 0xb5c0fbcfec4d3b2f w2 in
  let! w3 := ReadBE64 (skipn 24 chunk) in let '(a, e) := Round f g h a b c d e 0xe9b5dba58189dbbc w3 in
  let! w4 := ReadBE64 (skipn 32 chunk) in let '(h, d) := Round e f g h a b c d 0x3956c25bf348b538 w4 in
  let! w5 := ReadBE64 (skipn 40 chunk) in let '(g, c) := Round d e f g h a b c 0x59f111f1b605d019 w5 in
  let! w6 := ReadBE64 (skipn 48 chunk) in let '(f, b) := Round c d e f g h a b 0x923f82a4af194f9b w6 in
  let! w7 := ReadBE64 (skipn 56 chunk) in let '(e, a) := Round b c d e f g h a 0xab1c5ed5da6d8118 w7 in
  let! w8 := ReadBE64 (skipn 64 chunk) in let '(d, h) := Round a b c d e f g h 0xd807aa98a3030242 w8 in
  let! w9 := ReadBE64 (skipn 72 chunk) in let '(c, g) := Round h a b c d e f g 0x12835b0145706fbe w9 in
  let! w10 := ReadBE64 (skipn 80 chunk) in let '(b, f) := Round g h a b c d e f 0x243185be4ee4b28c w10 in
  let! w11 := ReadBE64 (skipn 88 chunk) in let '(a, e) := Round f g h a b c d e 0x550c7dc3d5ffb4e2 w11 in
  let! w12 := ReadBE64 (skipn 96 chunk) in let '(h, d) := Round e f g h a b c d 0x72be5d74f27b896f w12 in
  let! w13 := ReadBE64 (skipn 104 chunk) in let '(g, c) := Round d e f g h a b c 0x80deb1fe3b1696b1 w13 in
  let! w14 := ReadBE64 (skipn 112 chunk) in let '(f, b) := Round c d e f g h a b 0x9bdc06a725c71235 w14 in
  let! w15 := ReadBE64 (skipn 120 chunk) in let '(e, a) := Round b c d e f g h a 0xc19bf174cf692694 w15 in
  let! w0 := w64 (w0 + w64 (sigma1 w14 + w9 + sigma0 w1)) in let '(d, h) := Round a b c d e f g h 0xe49b69c19ef14ad2 w0 in
  let! w1 := w64 (w1 + w64 (sigma1 w15 + w10 + sigma0 w2)) in let '(c, g) := Round h a b c d e f g 0xefbe4786384f25e3 w1 in
  let! w2 := w64 (w2 + w64 (sigma1 w0 + w11 + sigma0 w3)) in let '(b, f) := Round g h a b c d e f 0x0fc19dc68b8cd5b5 w2 in
  let! w3 := w64 (w3 + w64 (sigma1 w1 + w12 + sigma0 w4)) in let '(a, e) := Round f g h a b c d e 0x240ca1cc77ac9c65 w3 in
  let! w4 := w64 (w4 + w64 (sigma1 w2 + w13 + sigma0 w5)) in let '(h, d) := Round e f g h a b c d 0x2de92c6f592b0275 w4 in
  let! w5 := w64 (w5 + w64 (sigma1 w3 + w14 + sigma0 w6)) in let '(g, c) := Round d e f g h a b c 0x4a7484aa6ea6e483 w5 in
  let! w6 := w64 (w6 + w64 (sigma1 w4 + w15 + sigma0 w7)) in let '(f, b) := Round c d e f g h a b 0x5cb0a9dcbd41fbd4 w6 in
  let! w7 := w64 (w7 + w64 (sigma1 w5 + w0 + sigma0 w8)) in let '(e, a) := Round b c d e f g h a 0x76f988da831153b5 w7 in
  let! w8 := w64 (w8 + w64 (sigma1 w6 + w1 + sigma0 w9)) in let '(d, h) := Round a b c d e f g h 0x983e5152ee66dfab w8 in
  let! w9 := w64 (w9 + w64 (sigma1 w7 + w2 + sigma0 w10)) in let '(c, g) := Round h a b c d e f g 0xa831c66d2db43210 w9 in
  let! w10 := w64 (w10 + w64 (sigma1 w8 + w3 + sigma0 w11)) in let '(b, f) := Round g h a b c d e f 0xb00327c898fb213f w10 in
  let! w11 := w64 (w11 + w64 (sigma1 w9 + w4 + sigma0 w12)) in let '(a, e) := Round f g h a b c d e 0xbf597fc7beef0ee4 w11 in
  let! w12 := w64 (w12 + w64 (sigma1 w10 + w5 + sigma0 w13)) in let '(h, d) := Round e f g h a b c d 0xc6e00bf33da88fc2 w12 in
  let! w13 := w64 (w13 + w64 (sigma1 w11 + w6 + sigma0 w14)) in let '(g, c) := Round d e f g h a b c 0xd5a79147930aa725 w13 in
  let! w14 := w64 (w14 + w64 (sigma1 w12 + w7 + sigma0 w15)) in let '(f, b) := Round c d e f g h a b 0x06ca6351e003826f w14 in
  let! w15 := w64 (w15 + w64 (sigma1 w13 + w8 + sigma0 w0)) in let '(e, a) := Round b c d e f g h a 0x142929670a0e6e70 w15 in
  let! w0 := w64 (w0 + w64 (sigma1 w14 + w9 + sigma0 w1)) in let '(d, h) := Round a b c d e f g h 0x27b70a8546d22ffc w0 in
  let! w1 := w64 (w1 + w64 (sigma1 w15 + w10 + sigma0 w2)) in let '(c, g) := Round h a b c d e f g 0x2e1b21385c26c926 w1 in
  let! w2 := w64 (w2 + w64 (sigma1 w0 + w11 + sigma0 w3)) in let '(b, f) := Round g h a b c d e f 0x4d2c6dfc5ac42aed w2 in
  let! w3 := w64 (w3 + w64 (sigma1 w1 + w12 + sigma0 w4)) in let '(a, e) := Round f g h a b c d e 0x53380d139d95b3df w3 in
  let! w4 := w64 (w4 + w64 (sigma1 w2 + w13 + sigma0 w5)) in let '(h, d) := Round e f g h a b c d 0x650a73548baf63de w4 in
  let! w5 := w64 (w5 + w64 (sigma1 w3 + w14 + sigma0 w6)) in let '(g, c) := Round d e f g h a b c 0x766a0abb3c77b2a8 w5 in
  let! w6 := w64 (w6 + w64 (sigma1 w4 + w15 + sigma0 w7)) in let '(f, b) := Round c d e f g h a b 0x81c2c92e47edaee6 w6 in
  let! w7 := w64 (w7 + w64 (sigma1 w5 + w0 + sigma0 w8)) in let '(e, a) := Round b c d e f g h a 0x92722c851482353b w7 in
  let! w8 := w64 (w8 + w64 (sigma1 w6 + w1 + sigma0 w9)) in let '(d, h) := Round a b c d e f g h 0xa2bfe8a14cf10364 w8 in
  let! w9 := w64 (w9 + w64 (sigma1 w7 + w2 + sigma0 w10)) in let '(c, g) := Round h a b c d e f g 0xa81a664bbc423001 w9 in
  let! w10 := w64 (w10 + w64 (sigma1 w8 + w3 + sigma0 w11)) in let '(b, f) := Round g h a b c d e f 0xc24b8b70d0f89791 w10 in
  let! w11 := w64 (w11 + w64 (sigma1 w9 + w4 + sigma0 w12)) in let '(a, e) := Round f g h a b c d e 0xc76c51a30654be30 w11 in
  let! w12 := w64 (w12 + w64 (sigma1 w10 + w5 + sigma0 w13)) in let '(h, d) := Round e f g h a b c d 0xd192e819d6ef5218 w12 in
  let! w13 := w64 (w13 + w64 (sigma1 w11 + w6 + sigma0 w14)) in let '(g, c) := Round d e f g h a b c 0xd69906245565a910 w13 in
  let! w14 := w64 (w14 + w64 (sigma1 w12 + w7 + sigma0 w15)) in let '(f, b) := Round c d e f g h a b 0xf40e35855771202a w14 in
  let! w15 := w64 (w15 + w64 (sigma1 w13 + w8 + sigma0 w0)) in let '(e, a) := Round b c d e f g h a 0x106aa07032bbd1b8 w15 in
  let! w0 := w64 (w0 + w64 (sigma1 w14 + w9 + sigma0 w1)) in let '(d, h) := Round a b c d e f g h 0x19a4c116b8d2d0c8 w0 in
  let! w1 := w64 (w1 + w64 (sigma1 w15 + w10 + sigma0 w2)) in let '(c, g) := Round h a b c d e f g 0x1e376c085141ab53 w1 in
  let! w2 := w64 (w2 + w64 (sigma1 w0 + w11 + sigma0 w3)) in let '(b, f) := Round g h a b c d e f 0x2748774cdf8eeb99 w2 in
  let! w3 := w64 (w3 + w64 (sigma1 w1 + w12 + sigma0 w4)) in let '(a, e) := Round f g h a b c d e 0x34b0bcb5e19b48a8 w3 in
  let! w4 := w64 (w4 + w64 (sigma1 w2 + w13 + sigma0 w5)) in let '(h, d) := Round e f g h a b c d 0x391c0cb3c5c95a63 w4 in
  let! w5 := w64 (w5 + w64 (sigma1 w3 + w14 + sigma0 w6)) in let '(g, c) := Round d e f g h a b c 0x4ed8aa4ae3418acb w5 in
  let! w6 := w64 (w6 + w64 (sigma1 w4 + w15 + sigma0 w7)) in let '(f, b) := Round c d e f g h a b 0x5b9cca4f7763e373 w6 in
  let! w7 := w64 (w7 + w64 (sigma1 w5 + w0 + sigma0 w8)) in let '(e, a) := Round b c d e f g h a 0x682e6ff3d6b2b8a3 w7 in
  let! w8 := w64 (w8 + w64 (sigma1 w6 + w1 + sigma0 w9)) in let '(d, h) := Round a b c d e f g h 0x748f82ee5defb2fc w8 in
  let! w9 := w64 (w9 + w64 (sigma1 w7 + w2 + sigma0 w10)) in let '(c, g) := Round h a b c d e f g 0x78a5636f43172f60 w9 in
  let! w10 := w64 (w10 + w64 (sigma1 w8 + w3 + sigma0 w11)) in let '(b, f) := Round g h a b c d e f 0x84c87814a1f0ab72 w10 in
  let! w11 := w64 (w11 + w64 (sigma1 w9 + w4 + sigma0 w12)) in let '(a, e) := Round f g h a b c d e 0x8cc702081a6439ec w11 in
  let! w12 := w64 (w12 + w64 (sigma1 w10 + w5 + sigma0 w13)) in let '(h, d) := Round e f g h a b c d 0x90befffa23631e28 w12 in
  let! w13 := w64 (w13 + w64 (sigma1 w11 + w6 + sigma0 w14)) in let '(g, c) := Round d e f g h a b c 0xa4506cebde82bde9 w13 in
  let! w14 := w64 (w14 + w64 (sigma1 w12 + w7 + sigma0 w15)) in let '(f, b) := Round c d e f g h a b 0xbef9a3f7b2c67915 w14 in
  let! w15 := w64 (w15 + w64 (sigma1 w13 + w8 + sigma0 w0)) in let '(e, a) := Round b c d e f g h a 0xc67178f2e372532b w15 in
  let! w0 := w64 (w0 + w64 (sigma1 w14 + w9 + sigma0 w1)) in let '(d, h) := Round a b c d e f g h 0xca273eceea26619c w0 in
  let! w1 := w64 (w1 + w64 (sigma1 w15 + w10 + sigma0 w2)) in let '(c, g) := Round h a b c d e f g 0xd186b8c721c0c207 w1 in
  let! w2 := w64 (w2 + w64 (sigma1 w0 + w11 + sigma0 w3)) in let '(b, f) := Round g h a b c d e f 0xeada7dd6cde0eb1e w2 in
  let! w3 := w64 (w3 + w64 (sigma1 w1 + w12 + sigma0 w4)) in let '(a, e) := Round f g h a b c d e 0xf57d4f7fee6ed178 w3 in
  let! w4 := w64 (w4 + w64 (sigma1 w2 + w13 + sigma0 w5)) in let '(h, d) := Round e f g h a b c d 0x06f067aa72176fba w4 in
  let! w5 := w64 (w5 + w64 (sigma1 w3 + w14 + sigma0 w6)) in let '(g, c) := Round d e f g h a b c 0x0a637dc5a2c898a6 w5 in
  let! w6 := w64 (w6 + w64 (sigma1 w4 + w15 + sigma0 w7)) in let '(f, b) := Round c d e f g h a b 0x113f9804bef90dae w6 in
  let! w7 := w64 (w7 + w64 (sigma1 w5 + w0 + sigma0 w8)) in let '(e, a) := Round b c d e f g h a 0x1b710b35131c471b w7 in
  let! w8 := w64 (w8 + w64 (sigma1 w6 + w1 + sigma0 w9)) in let '(d, h) := Round a b c d e f g h 0x28db77f523047d84 w8 in
  let! w9 := w64 (w9 + w64 (sigma1 w7 + w2 + sigma0 w10)) in let '(c, g) := Round h a b c d e f g 0x32caab7b40c72493 w9 in
  let! w10 := w64 (w10 + w64 (sigma1 w8 + w3 + sigma0 w11)) in let '(b, f) := Round g h a b c d e f 0x3c9ebe0a15c9bebc w10 in
  let! w11 := w64 (w11 + w64 (sigma1 w9 + w4 + sigma0 w12)) in let '(a, e) := Round f g h a b c d e 0x431d67c49c100d4c w11 in
  let! w12 := w64 (w12 + w64 (sigma1 w10 + w5 + sigma0 w13)) in let '(h, d) := Round e f g h a b c d 0x4cc5d4becb3e42b6 w12 in
  let! w13 := w64 (w13 + w64 (sigma1 w11 + w6 + sigma0 w14)) in let '(g, c) := Round d e f g h a b c 0x597f299cfc657e2a w13 in
  let '(f, b) := Round c d e f g h a b 0x5fcb6fab3ad6faec (w64 (w14 + sigma1 w12 + w7 + sigma0 w15)) in
  let '(e, a) := Round b c d e f g h a 0x6c44198c4a475817 (w64 (w15 + sigma1 w13 + w8 + sigma0 w0)) in
  [w64 (s.[0] + a); w64 (s.[1] + b); w64 (s.[2] + c); w64 (s.[3] + d); w64 (s.[4] + e); w64 (s.[5] + f); w64 (s.[6] + g); w64 (s.[7] + h)].

(** ** The class *)

(** The constructor; it leaves the buffer as it finds it. *)
Definition CSHA512 (buf : list Z) : hasher := {| h_s := Initialize; h_buf := buf; h_bytes := 0 |}.

Definition Write (c : hasher) (data : list Z) : hasher := Hasher.Write 128 Transform c data.

Definition Reset (c : hasher) : hasher := Hasher.Reset Initialize c.

(** The hash and the object after it. *)
Definition Finalize (c : hasher) : list Z * hasher :=
  let pad := 0x80 :: repeat 0 127 in
  let sizedesc := repeat 0 8 ++ WriteBE64 (w64 (Z.shiftl (h_bytes c) 3)) in
  let c := Write c (firstn (Z.to_nat (1 + (239 - h_bytes c mod 128) mod 128)) pad) in
  let c := Write c sizedesc in
  (WriteBE64 (h_s c).[0] ++ WriteBE64 (h_s c).[1] ++ WriteBE64 (h_s c).[2] ++ WriteBE64 (h_s c).[3] ++ WriteBE64 (h_s c).[4] ++ WriteBE64 (h_s c).[5] ++ WriteBE64 (h_s c).[6] ++ WriteBE64 (h_s c).[7], c).

End Sha512.
