(* ===== verification/HashSpec.v ===== *)
(** The hash functions the classes of crypto/ compute: SHA-256 and SHA-512 as FIPS 180-4
    defines them, SHA-1 likewise, and RIPEMD-160. The constants of SHA-2 are
    the first bits of the fractional parts of roots of primes and are computed. With tools for
    the unrolled transformations of the classes. *)
From S2P Require Import Prelude CryptoCommon Hasher.

Module Sha2Spec.

Definition primes : list Z :=
  [2; 3; 5; 7; 11; 13; 17; 19; 23; 29; 31; 37; 41; 43; 47; 53; 59; 61; 67; 71; 73; 79; 83; 89; 97; 101; 103; 107; 109;
   113; 127; 131; 137; 139; 149; 151; 157; 163; 167; 173; 179; 181; 191; 193; 197; 199; 211; 223; 227; 229; 233; 239;
   241; 251; 257; 263; 269; 271; 277; 281; 283; 293; 307; 311; 313; 317; 331; 337; 347; 349; 353; 359; 367; 373; 379;
   383; 389; 397; 401; 409].

(** The integer part of the cube root of a number below 2^(3 n), bit by bit. *)
Definition cbrt (n : nat) (x : Z) : Z :=
  fold_left (fun r i => let r' := r + 2 ^ Z.of_nat i in if r' * r' * r' <=? x then r' else r) (rev (seq 0 n)) 0.

(** The word size, the rotations of the six functions, and the number of rounds. *)
Record params := {
  width : Z;
  Sigma0_rot : Z * Z * Z;
  Sigma1_rot : Z * Z * Z;
  sigma0_rot : Z * Z * Z;
  sigma1_rot : Z * Z * Z;
  rounds : nat
}.

Definition small : params :=
  {| width := 32; Sigma0_rot := (2, 13, 22); Sigma1_rot := (6, 11, 25); sigma0_rot := (7, 18, 3); sigma1_rot := (17, 19, 10); rounds := 64 |}.
Definition big : params :=
  {| width := 64; Sigma0_rot := (28, 34, 39); Sigma1_rot := (14, 18, 41); sigma0_rot := (1, 8, 7); sigma1_rot := (19, 61, 6); rounds := 80 |}.

Section Params.
Context (p : params).
Let w := width p.

Definition K : list Z := map (fun q => cbrt (Z.to_nat w + 3) (q * 2 ^ (3 * w)) mod 2 ^ w) (firstn (rounds p) primes).
Definition H0 : list Z := map (fun q => Z.sqrt (q * 2 ^ (2 * w)) mod 2 ^ w) (firstn 8 primes).

Definition trunc (x : Z) : Z := x mod 2 ^ w.
Definition rotr (x n : Z) : Z := Z.shiftr x n |: trunc (Z.shiftl x (w - n)).

Definition Ch (x y z : Z) : Z := (x &: y) ^^ (Z.lnot x &: z).
Definition Maj (x y z : Z) : Z := (x &: y) ^^ (x &: z) ^^ (y &: z).
Definition Sigma (r : Z * Z * Z) (x : Z) : Z := let '(i, j, k) := r in rotr x i ^^ rotr x j ^^ rotr x k.
Definition sigma (r : Z * Z * Z) (x : Z) : Z := let '(i, j, k) := r in rotr x i ^^ rotr x j ^^ Z.shiftr x k.

(** The words of the message schedule after the first sixteen: each is computed from
    the sixteen words [ws] before it. *)
Definition next_word (ws : list Z) : Z :=
  trunc (sigma (sigma1_rot p) ws.[14] + ws.[9] + sigma (sigma0_rot p) ws.[1] + ws.[0]).

(** One round on the working variables a, ..., h. *)
Definition round (v : list Z) (kw : Z * Z) : list Z :=
  let '(k, x) := kw in
  let t1 := v.[7] + Sigma (Sigma1_rot p) v.[4] + Ch v.[4] v.[5] v.[6] + k + x in
  let t2 := Sigma (Sigma0_rot p) v.[0] + Maj v.[0] v.[1] v.[2] in
  [trunc (t1 + t2); v.[0]; v.[1]; v.[2]; trunc (v.[3] + t1); v.[4]; v.[5]; v.[6]].

Definition word_bytes : nat := Z.to_nat (w / 8).

Definition block_words (b : list Z) : list Z :=
  map (fun i => be_number (firstn word_bytes (skipn (word_bytes * i) b))) (seq 0 16).

Definition compress (h b : list Z) : list Z :=
  let m := block_words b in
  let v := fold_left round (combine K (m ++ Md.more_words next_word (rounds p - 16) m)) h in
  map (fun i => trunc (h.[i] + v.[i])) (seq 0 8).

Definition block_bytes : nat := 16 * word_bytes.

(** The length in bits is a number of two words. *)
Definition digest (m : list Z) : list Z :=
  let field := be_bytes (2 * word_bytes) (8 * Z.of_nat (length m)) in
  flat_map (be_bytes word_bytes) (Md.chain block_bytes compress H0 (Md.pad block_bytes field m)).
End Params.

Definition sha256 : list Z -> list Z := digest small.
Definition sha512 : list Z -> list Z := digest big.

End Sha2Spec.

Module Sha1Spec.

Definition trunc (x : Z) : Z := x mod 2 ^ 32.
Definition rotl (n x : Z) : Z := trunc (Z.shiftl x n) |: Z.shiftr x (32 - n).

Definition H0 : list Z := [0x67452301; 0xefcdab89; 0x98badcfe; 0x10325476; 0xc3d2e1f0].

(** The integer part of 2^30 times a square root. *)
Definition root (x : Z) : Z := Z.sqrt (x * 2 ^ 60).

(** The function and the constant of round [t]. *)
Definition f (t : nat) : Z -> Z -> Z -> Z :=
  match (t / 20)%nat with
  | 0%nat => Sha2Spec.Ch
  | 2%nat => Sha2Spec.Maj
  | _ => fun x y z => x ^^ y ^^ z
  end.
Definition K (t : nat) : Z := root (nth (t / 20) [2; 3; 5; 10] 0).

Definition next_word (ws : list Z) : Z := rotl 1 (ws.[13] ^^ ws.[8] ^^ ws.[2] ^^ ws.[0]).

Definition round (v : list Z) (fkw : (Z -> Z -> Z -> Z) * Z * Z) : list Z :=
  let '(g, k, w) := fkw in
  [trunc (rotl 5 v.[0] + g v.[1] v.[2] v.[3] + v.[4] + k + w); v.[0]; rotl 30 v.[1]; v.[2]; v.[3]].

Definition block_words (b : list Z) : list Z := map (fun i => be_number (firstn 4 (skipn (4 * i) b))) (seq 0 16).

Definition compress (h b : list Z) : list Z :=
  let m := block_words b in
  let v := fold_left round (combine (map (fun t => (f t, K t)) (seq 0 80)) (m ++ Md.more_words next_word 64 m)) h in
  map (fun i => trunc (h.[i] + v.[i])) (seq 0 5).

Definition sha1 (m : list Z) : list Z :=
  let field := be_bytes 8 (8 * Z.of_nat (length m)) in
  flat_map (be_bytes 4) (Md.chain 64 compress H0 (Md.pad 64 field m)).

End Sha1Spec.

Module RipemdSpec.
Import Sha1Spec.

Definition not (x : Z) : Z := trunc (Z.lnot x).

(** The five functions and the constants of the five rounds of the two lines. *)
Definition f (n : nat) (x y z : Z) : Z :=
  match n with
  | 0%nat => x ^^ y ^^ z
  | 1%nat => (x &: y) |: (not x &: z)
  | 2%nat => (x |: not y) ^^ z
  | 3%nat => (x &: z) |: (y &: not z)
  | _ => x ^^ (y |: not z)
  end.
Definition cube_root (x : Z) : Z := Sha2Spec.cbrt 32 (x * 2 ^ 90).
Definition K : list Z := [0; root 2; root 3; root 5; root 7].
Definition K' : list Z := [cube_root 2; cube_root 3; cube_root 5; cube_root 7; 0].

(** The order of the words: the powers of the permutation [rho], in the right line after
    the permutation [pi]. *)
Definition rho (i : nat) : nat := nth i [7; 4; 13; 1; 10; 6; 15; 3; 12; 0; 9; 5; 2; 14; 11; 8]%nat 0%nat.
Definition pi (i : nat) : nat := ((9 * i + 5) mod 16)%nat.
Definition order (n i : nat) : nat := Nat.iter n rho i.
Definition order' (n i : nat) : nat := Nat.iter n rho (pi i).

(** The shift of every word in every round. *)
Definition shift (n i : nat) : Z :=
  (nth n
    [[11; 14; 15; 12; 5; 8; 7; 9; 11; 13; 14; 15; 6; 7; 9; 8];
     [12; 13; 11; 15; 6; 9; 9; 7; 12; 15; 11; 13; 7; 8; 7; 7];
     [13; 15; 14; 11; 7; 7; 6; 8; 13; 14; 13; 12; 5; 5; 6; 9];
     [14; 11; 12; 14; 8; 6; 5; 5; 15; 12; 15; 14; 9; 9; 8; 6];
     [15; 12; 13; 13; 9; 5; 8; 6; 14; 11; 12; 11; 8; 6; 5; 5]] []).[i].

(** The function, the constant, the word and the shift of the eighty steps of a line. *)
Definition left_line (x : list Z) : list ((Z -> Z -> Z -> Z) * Z * Z * Z) :=
  flat_map (fun n => map (fun i => (f n, K.[n], x.[order n i], shift n (order n i))) (seq 0 16)) (seq 0 5).
Definition right_line (x : list Z) : list ((Z -> Z -> Z -> Z) * Z * Z * Z) :=
  flat_map (fun n => map (fun i => (f (4 - n), K'.[n], x.[order' n i], shift n (order' n i))) (seq 0 16)) (seq 0 5).

Definition step (v : list Z) (p : (Z -> Z -> Z -> Z) * Z * Z * Z) : list Z :=
  let '(g, k, x, s) := p in
  [v.[4]; trunc (rotl s (trunc (v.[0] + g v.[1] v.[2] v.[3] + x + k)) + v.[4]); v.[1]; rotl 10 v.[2]; v.[3]].

Definition block_words (b : list Z) : list Z := map (fun i => le_combine (firstn 4 (skipn (4 * i) b))) (seq 0 16).

Definition compress (h b : list Z) : list Z :=
  let x := block_words b in
  let l := fold_left step (left_line x) h in
  let r := fold_left step (right_line x) h in
  [trunc (h.[1] + l.[2] + r.[3]); trunc (h.[2] + l.[3] + r.[4]); trunc (h.[3] + l.[4] + r.[0]);
   trunc (h.[4] + l.[0] + r.[1]); trunc (h.[0] + l.[1] + r.[2])].

Definition ripemd160 (m : list Z) : list Z :=
  let field := le_split 8 (8 * Z.of_nat (length m)) in
  flat_map (le_split 4) (Md.chain 64 compress H0 (Md.pad 64 field m)).

End RipemdSpec.

(** * Unrolled transformations: a message schedule as a window that moves, and the execution of
    a sequence of assignments next to the loop of a reference definition. *)
Import CryptoCommon.


(** The rounds with the message schedule as a window of sixteen words that moves. *)
Section Rolling.
Context {P : Type} (next : list Z -> Z) (round : list Z -> P * Z -> list Z).

Fixpoint rolling (ks : list P) (ws v : list Z) : list Z :=
  match ks with
  | [] => v
  | k :: ks => rolling ks (tl ws ++ [next ws]) (round v (k, ws.[0]))
  end.

Lemma length_more_words n ws : length (Md.more_words next n ws) = n.
Proof. revert ws; induction n as [|n IH]; intros ws; cbn; [reflexivity|]. f_equal. apply IH. Qed.

Lemma more_words_add n k ws : exists t, Md.more_words next (n + k) ws = Md.more_words next n ws ++ t.
Proof.
  revert ws; induction n as [|n IH]; intros ws; [now exists (Md.more_words next k ws)|].
  cbn [Nat.add Md.more_words]. destruct (IH (tl ws ++ [next ws])) as [t ->]. now exists t.
Qed.

Lemma combine_app_r {A B} (l : list A) (m t : list B) : (length l <= length m)%nat -> combine l (m ++ t) = combine l m.
Proof. revert m; induction l as [|x l IH]; intros [|y m] H; cbn in *; try lia; [reflexivity..|]. f_equal. apply IH. lia. Qed.

Lemma rolling_long ks ws v n :
  (length ks <= n)%nat -> ws <> [] ->
  fold_left round (combine ks (ws ++ Md.more_words next n ws)) v = rolling ks ws v.
Proof.
  revert ws v n; induction ks as [|k ks IH]; intros ws v n Hn Hw; [reflexivity|].
  destruct n as [|n]; [cbn in Hn; lia|]. destruct ws as [|w ws]; [easy|]. cbn [Md.more_words rolling].
  rewrite <- (IH _ _ n); [|cbn in Hn; lia | now destruct ws]. cbn [tl]. rewrite <- app_assoc. reflexivity.
Qed.

Lemma rolling_spec ks ws v n :
  (length ks <= length ws + n)%nat -> ws <> [] ->
  fold_left round (combine ks (ws ++ Md.more_words next n ws)) v = rolling ks ws v.
Proof.
  intros Hn Hw. rewrite <- (rolling_long ks ws v (n + length ks)) by (assumption || lia).
  destruct (more_words_add n (length ks) ws) as [t ->]. rewrite (app_assoc ws), (combine_app_r ks (ws ++ _)); [reflexivity|].
  rewrite length_app, length_more_words. assumption.
Qed.
End Rolling.

(** A value that is bound on one side of an equation. *)
Lemma bind_let {A B} (G F : A -> B) e : (forall x, G x = F x) -> G e = assign e F.
Proof. intros H. exact (H _). Qed.

Lemma bind_pair {A B C} (e : A * B) (F G : A -> B -> C) :
  (forall x y, G x y = F x y) -> (let '(x, y) := e in G x y) = (let '(x, y) := e in F x y).
Proof. intros H. destruct e. apply H. Qed.

Ltac bind :=
  match goal with
  | |- ?L = assign ?e ?F =>
      let P := eval pattern e in L in
      match P with ?G _ => refine (bind_let G F e _); intros ?; cbv beta end
  end.

(** An assignment of a variable to another. *)
Lemma bind_copy {A B} (l : B) (e : A) (F : A -> B) : l = F e -> l = assign e F.
Proof. exact (fun H => H). Qed.

Ltac copy := match goal with |- ?L = assign ?e ?F => refine (bind_copy L e F _); cbv beta end.
