(* ===== verification/Sha2Hash.v ===== *)
(** The classes [CSHA256] and [CSHA512] compute the hash functions of FIPS 180-4 of the
    messages that are written to them in any pieces, and [CHash256] and [CHash512] of
    hash.h the double hashes. *)
From Stdlib Require Import ZifyNat.
From S2P Require Import Prelude Stream CryptoCommon Hasher Sha256 Sha512 HashSpec.
Import CryptoCommon Hasher.

(** * Rounds *)

Lemma Ch_spec x y z : z ^^ (x &: (y ^^ z)) = Sha2Spec.Ch x y z.
Proof. unfold Sha2Spec.Ch. apply Z.bits_inj'; intros i Hi. rewrite !Z.lxor_spec, !Z.land_spec, Z.lxor_spec, Z.lnot_spec by lia. btauto. Qed.

Lemma Maj_spec x y z : (x &: y) |: (z &: (x |: y)) = Sha2Spec.Maj x y z.
Proof. unfold Sha2Spec.Maj. bitwise. Qed.

Lemma mod_add_4 w a b c d : 0 < w -> (a + b + c + d) mod w = (d + (a + b + c) mod w) mod w.
Proof. intros Hw. rewrite Z.add_mod_idemp_r by lia. f_equal. lia. Qed.

(** A round of the loop, by the equation [S] of the round function [R], and the words
    that are used where they are computed. *)
Ltac step S R f :=
  match goal with
  | |- f (_ (?k :: ?ks) [?w0; ?w1; ?w2; ?w3; ?w4; ?w5; ?w6; ?w7; ?w8; ?w9; ?w10; ?w11; ?w12; ?w13; ?w14; ?w15] [?a; ?b; ?c; ?d; ?e; ?f'; ?g; ?h]) = _ =>
      generalize (S a b c d e f' g h k ks w0 w1 w2 w3 w4 w5 w6 w7 w8 w9 w10 w11 w12 w13 w14 w15);
      destruct (R a b c d e f' g h k w0); let E := fresh in intros E; match goal with |- _ = ?T => refine (@eq_trans _ _ _ T E _) end; clear E
  end.

Ltac flatten F :=
  match goal with |- _ (_ _ (_ (?x + _ (?y + ?z + ?t)) :: _) _) = _ => rewrite (F x y z t) end.

(** * SHA-256 *)

Lemma next256 w0 w1 w2 w3 w4 w5 w6 w7 w8 w9 w10 w11 w12 w13 w14 w15 :
  Sha2Spec.next_word Sha2Spec.small [w0; w1; w2; w3; w4; w5; w6; w7; w8; w9; w10; w11; w12; w13; w14; w15] =
  w32 (w0 + w32 (Sha256.sigma1 w14 + w9 + Sha256.sigma0 w1)).
Proof. apply mod_add_4. reflexivity. Qed.

Lemma flat256 x y z t : w32 (x + w32 (y + z + t)) = w32 (x + y + z + t).
Proof. unfold w32. rewrite Z.add_mod_idemp_r by lia. f_equal. lia. Qed.

Lemma step256 (f : list Z -> list Z) a b c d e f' g h k ks w0 w1 w2 w3 w4 w5 w6 w7 w8 w9 w10 w11 w12 w13 w14 w15 :
  f (rolling (Sha2Spec.next_word Sha2Spec.small) (Sha2Spec.round Sha2Spec.small) (k :: ks) [w0; w1; w2; w3; w4; w5; w6; w7; w8; w9; w10; w11; w12; w13; w14; w15] [a; b; c; d; e; f'; g; h]) =
  let '(d, h) := Sha256.Round a b c d e f' g h k w0 in
  f (rolling (Sha2Spec.next_word Sha2Spec.small) (Sha2Spec.round Sha2Spec.small) ks
       [w1; w2; w3; w4; w5; w6; w7; w8; w9; w10; w11; w12; w13; w14; w15; w32 (w0 + w32 (Sha256.sigma1 w14 + w9 + Sha256.sigma0 w1))]
       [h; a; b; c; d; e; f'; g]).
Proof.
  cbn [rolling tl app]. rewrite next256. unfold Sha256.Round. cbv zeta iota. do 2 f_equal. unfold Sha2Spec.round.
  cbv beta zeta iota. cbn [nth]. rewrite <- Ch_spec, <- Maj_spec. unfold Sha2Spec.trunc, w32.
  rewrite Z.add_mod_idemp_r, Z.add_mod_idemp_l, Z.add_mod_idemp_r by lia. reflexivity.
Qed.

Lemma Transform_rolling256 s b f :
  (forall v, f v = map (fun i => w32 (s.[i] + v.[i])) (seq 0 8)) ->
  f (rolling (Sha2Spec.next_word Sha2Spec.small) (Sha2Spec.round Sha2Spec.small) (Sha2Spec.K Sha2Spec.small) (map (fun i => ReadBE32 (skipn (4 * i) b)) (seq 0 16))
       [s.[0]; s.[1]; s.[2]; s.[3]; s.[4]; s.[5]; s.[6]; s.[7]]) = Sha256.Transform s b.
Proof.
  intros Hf. set (ks := Sha2Spec.K Sha2Spec.small). vm_compute in ks. unfold ks; clear ks.
  cbv delta [Sha256.Transform]; cbv beta.
  change (map (fun i => ReadBE32 (skipn (4 * i) b)) (seq 0 16)) with
    [ReadBE32 (skipn 0 b); ReadBE32 (skipn 4 b); ReadBE32 (skipn 8 b); ReadBE32 (skipn 12 b); ReadBE32 (skipn 16 b); ReadBE32 (skipn 20 b); ReadBE32 (skipn 24 b); ReadBE32 (skipn 28 b); ReadBE32 (skipn 32 b); ReadBE32 (skipn 36 b); ReadBE32 (skipn 40 b); ReadBE32 (skipn 44 b); ReadBE32 (skipn 48 b); ReadBE32 (skipn 52 b); ReadBE32 (skipn 56 b); ReadBE32 (skipn 60 b)].
  generalize (step256 f) flat256. assert (Hr : forall ws v, f (rolling (Sha2Spec.next_word Sha2Spec.small) (Sha2Spec.round Sha2Spec.small) [] ws v) = f v) by reflexivity. revert Hf Hr.
  generalize (rolling (Sha2Spec.next_word Sha2Spec.small) (Sha2Spec.round Sha2Spec.small)) as r, Sha256.Round as R, Sha256.sigma0 as s0, Sha256.sigma1 as s1, w32 as w. intros r R s0 s1 w Hf Hr S F.
  do 8 bind. do 62 (bind; step S R f).
  do 2 (flatten F; step S R f). rewrite Hr. apply Hf.
Qed.

Theorem Transform256_compress s b :
  length s = 8%nat -> bytes b -> (64 <= length b)%nat ->
  Sha256.Transform s b = Sha2Spec.compress Sha2Spec.small s b.
Proof.
  intros Hs Hb Hl. unfold Sha2Spec.compress. cbv zeta.
  rewrite rolling_spec by (vm_compute; lia || discriminate).
  rewrite <- (Transform_rolling256 s b (fun v => map (fun i => w32 (s.[i] + v.[i])) (seq 0 8))) by reflexivity.
  replace (map (fun i => ReadBE32 (skipn (4 * i) b)) (seq 0 16)) with (Sha2Spec.block_words Sha2Spec.small b).
  - destruct s as [|? [|? [|? [|? [|? [|? [|? [|? [|]]]]]]]]]; try discriminate Hs. reflexivity.
  - apply map_ext_in. intros i Hi. apply in_seq in Hi. change (Sha2Spec.word_bytes Sha2Spec.small) with 4%nat. symmetry. apply ReadBE32_spec; [now apply Forall_drop | rewrite length_skipn; lia].
Qed.

(** * SHA-512 *)

Lemma next512 w0 w1 w2 w3 w4 w5 w6 w7 w8 w9 w10 w11 w12 w13 w14 w15 :
  Sha2Spec.next_word Sha2Spec.big [w0; w1; w2; w3; w4; w5; w6; w7; w8; w9; w10; w11; w12; w13; w14; w15] =
  w64 (w0 + w64 (Sha512.sigma1 w14 + w9 + Sha512.sigma0 w1)).
Proof. apply mod_add_4. reflexivity. Qed.

Lemma flat512 x y z t : w64 (x + w64 (y + z + t)) = w64 (x + y + z + t).
Proof. unfold w64. rewrite Z.add_mod_idemp_r by lia. f_equal. lia. Qed.

Lemma step512 (f : list Z -> list Z) a b c d e f' g h k ks w0 w1 w2 w3 w4 w5 w6 w7 w8 w9 w10 w11 w12 w13 w14 w15 :
  f (rolling (Sha2Spec.next_word Sha2Spec.big) (Sha2Spec.round Sha2Spec.big) (k :: ks) [w0; w1; w2; w3; w4; w5; w6; w7; w8; w9; w10; w11; w12; w13; w14; w15] [a; b; c; d; e; f'; g; h]) =
  let '(d, h) := Sha512.Round a b c d e f' g h k w0 in
  f (rolling (Sha2Spec.next_word Sha2Spec.big) (Sha2Spec.round Sha2Spec.big) ks
       [w1; w2; w3; w4; w5; w6; w7; w8; w9; w10; w11; w12; w13; w14; w15; w64 (w0 + w64 (Sha512.sigma1 w14 + w9 + Sha512.sigma0 w1))]
       [h; a; b; c; d; e; f'; g]).
Proof.
  cbn [rolling tl app]. rewrite next512. unfold Sha512.Round. cbv zeta iota. do 2 f_equal. unfold Sha2Spec.round.
  cbv beta zeta iota. cbn [nth]. rewrite <- Ch_spec, <- Maj_spec. unfold Sha2Spec.trunc, w64.
  rewrite Z.add_mod_idemp_r, Z.add_mod_idemp_l, Z.add_mod_idemp_r by lia. reflexivity.
Qed.

Lemma Transform_rolling512 s b f :
  (forall v, f v = map (fun i => w64 (s.[i] + v.[i])) (seq 0 8)) ->
  f (rolling (Sha2Spec.next_word Sha2Spec.big) (Sha2Spec.round Sha2Spec.big) (Sha2Spec.K Sha2Spec.big) (map (fun i => ReadBE64 (skipn (8 * i) b)) (seq 0 16))
       [s.[0]; s.[1]; s.[2]; s.[3]; s.[4]; s.[5]; s.[6]; s.[7]]) = Sha512.Transform s b.
Proof.
  intros Hf. set (ks := Sha2Spec.K Sha2Spec.big). vm_compute in ks. unfold ks; clear ks.
  cbv delta [Sha512.Transform]; cbv beta.
  change (map (fun i => ReadBE64 (skipn (8 * i) b)) (seq 0 16)) with
    [ReadBE64 (skipn 0 b); ReadBE64 (skipn 8 b); ReadBE64 (skipn 16 b); ReadBE64 (skipn 24 b); ReadBE64 (skipn 32 b); ReadBE64 (skipn 40 b); ReadBE64 (skipn 48 b); ReadBE64 (skipn 56 b); ReadBE64 (skipn 64 b); ReadBE64 (skipn 72 b); ReadBE64 (skipn 80 b); ReadBE64 (skipn 88 b); ReadBE64 (skipn 96 b); ReadBE64 (skipn 104 b); ReadBE64 (skipn 112 b); ReadBE64 (skipn 120 b)].
  generalize (step512 f) flat512. assert (Hr : forall ws v, f (rolling (Sha2Spec.next_word Sha2Spec.big) (Sha2Spec.round Sha2Spec.big) [] ws v) = f v) by reflexivity. revert Hf Hr.
  generalize (rolling (Sha2Spec.next_word Sha2Spec.big) (Sha2Spec.round Sha2Spec.big)) as r, Sha512.Round as R, Sha512.sigma0 as s0, Sha512.sigma1 as s1, w64 as w. intros r R s0 s1 w Hf Hr S F.
  do 8 bind. do 78 (bind; step S R f).
  do 2 (flatten F; step S R f). rewrite Hr. apply Hf.
Qed.

Theorem Transform512_compress s b :
  length s = 8%nat -> bytes b -> (128 <= length b)%nat ->
  Sha512.Transform s b = Sha2Spec.compress Sha2Spec.big s b.
Proof.
  intros Hs Hb Hl. unfold Sha2Spec.compress. cbv zeta.
  rewrite rolling_spec by (vm_compute; lia || discriminate).
  rewrite <- (Transform_rolling512 s b (fun v => map (fun i => w64 (s.[i] + v.[i])) (seq 0 8))) by reflexivity.
  replace (map (fun i => ReadBE64 (skipn (8 * i) b)) (seq 0 16)) with (Sha2Spec.block_words Sha2Spec.big b).
  - destruct s as [|? [|? [|? [|? [|? [|? [|? [|? [|]]]]]]]]]; try discriminate Hs. reflexivity.
  - apply map_ext_in. intros i Hi. apply in_seq in Hi. change (Sha2Spec.word_bytes Sha2Spec.big) with 8%nat. symmetry. apply ReadBE64_spec; [now apply Forall_drop | rewrite length_skipn; lia].
Qed.

(** The messages whose length in bits is a 64-bit number. *)
Definition sha_ok (m : list Z) : Prop := 8 * Z.of_nat (length m) < 2 ^ 64.

Lemma be_bytes_small k n v : 0 <= v < 2 ^ (8 * Z.of_nat n) -> be_bytes (n + k) v = repeat 0 k ++ be_bytes n v.
Proof.
  intros Hv. unfold be_bytes. rewrite le_split_app, rev_app_distr, Z.shiftr_div_pow2, Z.div_small, le_split_zero by lia.
  now rewrite rev_repeat.
Qed.

(** * SHA-256 *)

Lemma Transform256_firstn s b : (64 <= length b)%nat -> Sha256.Transform s b = Sha256.Transform s (firstn 64 b).
Proof.
  intros Hb. rewrite <- !(Transform_rolling256 _ _ (fun v => map (fun i => w32 (s.[i] + v.[i])) (seq 0 8))) by reflexivity.
  assert (E : map (fun i => ReadBE32 (skipn (4 * i) b)) (seq 0 16) = map (fun i => ReadBE32 (skipn (4 * i) (firstn 64 b))) (seq 0 16)); [|now rewrite E].
  apply map_ext_in. intros i Hi. apply in_seq in Hi.
  unfold ReadBE32. rewrite skipn_firstn_comm, firstn_firstn. do 4 f_equal. lia.
Qed.

Lemma chain256 m :
  bytes m -> Md.chain 64 Sha256.Transform Sha256.Initialize m = Md.chain 64 (Sha2Spec.compress Sha2Spec.small) (Sha2Spec.H0 Sha2Spec.small) m /\
  length (Md.chain 64 Sha256.Transform Sha256.Initialize m) = 8%nat.
Proof.
  intros Hm. replace (Sha2Spec.H0 Sha2Spec.small) with Sha256.Initialize by (vm_compute; reflexivity).
  apply (chain_ext 64 _ _ (fun s => length s = 8%nat)); [lia | assumption | reflexivity |].
  intros s b Hs Hb Hl. rewrite Transform256_compress by (assumption || lia). split; [reflexivity|].
  unfold Sha2Spec.compress. cbv zeta. now rewrite length_map, length_seq.
Qed.

Lemma Finalize256 c m :
  fed 64 Sha256.Initialize Sha256.Transform c m -> bytes m -> sha_ok m ->
  fst (Sha256.Finalize c) = Sha2Spec.sha256 m /\ length (h_buf (snd (Sha256.Finalize c))) = 64%nat.
Proof.
  intros Hc Hm Hok. pose proof Hc as (_ & Hn & _). set (field := be_bytes 8 (8 * Z.of_nat (length m))).
  assert (Ef : WriteBE64 (w64 (Z.shiftl (h_bytes c) 3)) = field).
  { rewrite (bit_count c m Hn Hok), WriteBE64_spec. reflexivity. }
  pose proof (Finalize_state 64 Sha256.Initialize Sha256.Transform ltac:(lia) Transform256_firstn c m field Hc
    ltac:(unfold field; rewrite length_be_bytes; lia)) as [Hb Hs].
  unfold field in Hb at 1, Hs at 1. rewrite length_be_bytes in Hb, Hs.
  rewrite <- (pad_length_64 c m 119 8 Hn) in Hb, Hs by lia.
  unfold Sha256.Finalize. cbv zeta. rewrite Ef. unfold Sha256.Write. change (0x80 :: repeat 0 63) with (0x80 :: repeat 0 (64 - 1)).
  split; [|exact Hb]. cbn [Sha256.FinalizeNoPadding andb fst]. rewrite Hs, !WriteBE32_spec.
  destruct (chain256 (Md.pad 64 field m)) as [E L]; [apply bytes_pad; [assumption | apply bytes_be_bytes]|].
  unfold Sha2Spec.sha256, Sha2Spec.digest. cbv zeta. change (Sha2Spec.block_bytes Sha2Spec.small) with 64%nat.
  change (2 * Sha2Spec.word_bytes Sha2Spec.small)%nat with 8%nat. fold field. rewrite <- E. revert L. generalize (Md.chain 64 Sha256.Transform Sha256.Initialize (Md.pad 64 field m)). clear.
  intros l L. destruct l as [|? [|? [|? [|? [|? [|? [|? [|? [|]]]]]]]]]; try discriminate L. cbn [flat_map nth]. now rewrite app_nil_r.
Qed.

(** * SHA-512 *)

Lemma Transform512_firstn s b : (128 <= length b)%nat -> Sha512.Transform s b = Sha512.Transform s (firstn 128 b).
Proof.
  intros Hb. rewrite <- !(Transform_rolling512 _ _ (fun v => map (fun i => w64 (s.[i] + v.[i])) (seq 0 8))) by reflexivity.
  assert (E : map (fun i => ReadBE64 (skipn (8 * i) b)) (seq 0 16) = map (fun i => ReadBE64 (skipn (8 * i) (firstn 128 b))) (seq 0 16)); [|now rewrite E].
  apply map_ext_in. intros i Hi. apply in_seq in Hi.
  unfold ReadBE64. rewrite skipn_firstn_comm, firstn_firstn. do 4 f_equal. lia.
Qed.

Lemma chain512 m :
  bytes m -> Md.chain 128 Sha512.Transform Sha512.Initialize m = Md.chain 128 (Sha2Spec.compress Sha2Spec.big) (Sha2Spec.H0 Sha2Spec.big) m /\
  length (Md.chain 128 Sha512.Transform Sha512.Initialize m) = 8%nat.
Proof.
  intros Hm. replace (Sha2Spec.H0 Sha2Spec.big) with Sha512.Initialize by (vm_compute; reflexivity).
  apply (chain_ext 128 _ _ (fun s => length s = 8%nat)); [lia | assumption | reflexivity |].
  intros s b Hs Hb Hl. rewrite Transform512_compress by (assumption || lia). split; [reflexivity|].
  unfold Sha2Spec.compress. cbv zeta. now rewrite length_map, length_seq.
Qed.

Lemma Finalize512 c m :
  fed 128 Sha512.Initialize Sha512.Transform c m -> bytes m -> sha_ok m ->
  fst (Sha512.Finalize c) = Sha2Spec.sha512 m /\ length (h_buf (snd (Sha512.Finalize c))) = 128%nat.
Proof.
  intros Hc Hm Hok. pose proof Hc as (_ & Hn & _). set (field := be_bytes 16 (8 * Z.of_nat (length m))).
  assert (Ef : repeat 0 8 ++ WriteBE64 (w64 (Z.shiftl (h_bytes c) 3)) = field).
  { rewrite (bit_count c m Hn Hok), WriteBE64_spec. symmetry. apply (be_bytes_small 8 8). unfold sha_ok in Hok. lia. }
  pose proof (Finalize_state 128 Sha512.Initialize Sha512.Transform ltac:(lia) Transform512_firstn c m field Hc
    ltac:(unfold field; rewrite length_be_bytes; lia)) as [Hb Hs].
  unfold field in Hb at 1, Hs at 1. rewrite length_be_bytes in Hb, Hs.
  rewrite <- (pad_length_128 c m 239 16 Hn) in Hb, Hs by lia.
  unfold Sha512.Finalize. cbv zeta. rewrite Ef. unfold Sha512.Write. change (0x80 :: repeat 0 127) with (0x80 :: repeat 0 (128 - 1)).
  split; [|exact Hb]. cbn [fst]. rewrite Hs, !WriteBE64_spec.
  destruct (chain512 (Md.pad 128 field m)) as [E L]; [apply bytes_pad; [assumption | apply bytes_be_bytes]|].
  unfold Sha2Spec.sha512, Sha2Spec.digest. cbv zeta. change (Sha2Spec.block_bytes Sha2Spec.big) with 128%nat.
  change (2 * Sha2Spec.word_bytes Sha2Spec.big)%nat with 16%nat. fold field. rewrite <- E. revert L. generalize (Md.chain 128 Sha512.Transform Sha512.Initialize (Md.pad 128 field m)). clear.
  intros l L. destruct l as [|? [|? [|? [|? [|? [|? [|? [|? [|]]]]]]]]]; try discriminate L. cbn [flat_map nth]. now rewrite app_nil_r.
Qed.

(** * Streams *)

#[export] Instance sha256_stream buf (Hb : length buf = 64%nat) :
  StreamHash (hasher_ops 64 Sha256.Initialize Sha256.Transform Sha256.Finalize buf) sha_ok Sha2Spec.sha256 :=
  hasher_stream 64 _ _ _ (or_introl eq_refl) Transform256_firstn buf Hb sha_ok _ Finalize256.

#[export] Instance sha512_stream buf (Hb : length buf = 128%nat) :
  StreamHash (hasher_ops 128 Sha512.Initialize Sha512.Transform Sha512.Finalize buf) sha_ok Sha2Spec.sha512 :=
  hasher_stream 128 _ _ _ (or_intror eq_refl) Transform512_firstn buf Hb sha_ok _ Finalize512.
