(* ===== verification/Md160Hash.v ===== *)
(** The classes [CSHA1] and [CRIPEMD160] compute SHA-1 and RIPEMD-160 of the messages that
    are written to them in any pieces. *)
From Stdlib Require Import ZifyNat.
From S2P Require Import Prelude Stream CryptoCommon Hasher Sha1 Ripemd160 HashSpec Sha2Hash.
Import CryptoCommon Hasher.

(** * SHA-1 *)

(** The function and the constant of every round, as the code has them. *)
Definition sha1_rounds : list ((Z -> Z -> Z -> Z) * Z) :=
  repeat (Sha1.f1, Sha1.k1) 20 ++ repeat (Sha1.f2, Sha1.k2) 20 ++ repeat (Sha1.f3, Sha1.k3) 20 ++ repeat (Sha1.f2, Sha1.k4) 20.

Definition same_round (p q : (Z -> Z -> Z -> Z) * Z) : Prop := (forall x y z, fst p x y z = fst q x y z) /\ snd p = snd q.

Lemma sha1_rounds_spec : Forall2 same_round (map (fun t => (Sha1Spec.f t, Sha1Spec.K t)) (seq 0 80)) sha1_rounds.
Proof.
  cbn [map seq repeat app sha1_rounds].
  repeat (apply Forall2_cons; [split; [intros x y z | vm_compute; reflexivity]|]); try apply Forall2_nil.
  all: first [reflexivity | symmetry; exact (Ch_spec x y z) | symmetry; exact (Maj_spec x y z)].
Qed.

Lemma sha1_rounds_rolling ks ks' ws v :
  Forall2 same_round ks ks' -> rolling Sha1Spec.next_word Sha1Spec.round ks ws v = rolling Sha1Spec.next_word Sha1Spec.round ks' ws v.
Proof.
  intros H. revert ws v; induction H as [|[g k] [g' k'] ks ks' [Hg Hk] _ IH]; intros ws v; [reflexivity|].
  cbn [rolling]. rewrite IH. f_equal. cbn [fst snd] in Hg, Hk. subst k'. unfold Sha1Spec.round. now rewrite Hg.
Qed.

Lemma next_sha1 w0 w1 w2 w3 w4 w5 w6 w7 w8 w9 w10 w11 w12 w13 w14 w15 :
  Sha1Spec.next_word [w0; w1; w2; w3; w4; w5; w6; w7; w8; w9; w10; w11; w12; w13; w14; w15] = Sha1.left (w0 ^^ w13 ^^ w8 ^^ w2).
Proof.
  unfold Sha1Spec.next_word. cbn [nth]. rewrite (Z.lxor_comm _ w0), !Z.lxor_assoc. reflexivity.
Qed.

Lemma step_sha1 (f : list Z -> list Z) a b c d e g k ks w0 w1 w2 w3 w4 w5 w6 w7 w8 w9 w10 w11 w12 w13 w14 w15 :
  f (rolling Sha1Spec.next_word Sha1Spec.round ((g, k) :: ks) [w0; w1; w2; w3; w4; w5; w6; w7; w8; w9; w10; w11; w12; w13; w14; w15] [a; b; c; d; e]) =
  let '(b, e) := Sha1.Round a b c d e (g b c d) k w0 in
  f (rolling Sha1Spec.next_word Sha1Spec.round ks [w1; w2; w3; w4; w5; w6; w7; w8; w9; w10; w11; w12; w13; w14; w15; Sha1.left (w0 ^^ w13 ^^ w8 ^^ w2)] [e; a; b; c; d]).
Proof.
  cbn [rolling tl app]. rewrite next_sha1. unfold Sha1.Round. do 2 f_equal. unfold Sha1Spec.round.
  cbn [nth]. unfold Sha1Spec.trunc, w32, Sha1Spec.rotl. f_equal. f_equal. change (32 - 5) with 27. unfold Sha1Spec.trunc. lia.
Qed.

Ltac step_sha1 S R f :=
  match goal with
  | |- f (_ ((?g, ?k) :: ?ks) [?w0; ?w1; ?w2; ?w3; ?w4; ?w5; ?w6; ?w7; ?w8; ?w9; ?w10; ?w11; ?w12; ?w13; ?w14; ?w15] [?a; ?b; ?c; ?d; ?e]) = _ =>
      generalize (S a b c d e g k ks w0 w1 w2 w3 w4 w5 w6 w7 w8 w9 w10 w11 w12 w13 w14 w15);
      destruct (R a b c d e (g b c d) k w0); let E := fresh in intros E; match goal with |- _ = ?T => refine (@eq_trans _ _ _ T E _) end; clear E
  end.

Lemma Transform_sha1 s b f :
  (forall v, f v = map (fun i => w32 (s.[i] + v.[i])) (seq 0 5)) ->
  f (rolling Sha1Spec.next_word Sha1Spec.round sha1_rounds (map (fun i => ReadBE32 (skipn (4 * i) b)) (seq 0 16))
       [s.[0]; s.[1]; s.[2]; s.[3]; s.[4]]) = Sha1.Transform s b.
Proof.
  intros Hf. cbv delta [Sha1.Transform]; cbv beta. cbn [sha1_rounds repeat app].
  change (map (fun i => ReadBE32 (skipn (4 * i) b)) (seq 0 16)) with
    [ReadBE32 (skipn 0 b); ReadBE32 (skipn 4 b); ReadBE32 (skipn 8 b); ReadBE32 (skipn 12 b); ReadBE32 (skipn 16 b); ReadBE32 (skipn 20 b); ReadBE32 (skipn 24 b); ReadBE32 (skipn 28 b); ReadBE32 (skipn 32 b); ReadBE32 (skipn 36 b); ReadBE32 (skipn 40 b); ReadBE32 (skipn 44 b); ReadBE32 (skipn 48 b); ReadBE32 (skipn 52 b); ReadBE32 (skipn 56 b); ReadBE32 (skipn 60 b)].
  generalize (step_sha1 f). assert (Hr : forall ws v, f (rolling Sha1Spec.next_word Sha1Spec.round [] ws v) = f v) by reflexivity. revert Hf Hr.
  generalize (rolling Sha1Spec.next_word Sha1Spec.round) as r, Sha1.Round as R, Sha1.f1 as g1, Sha1.f2 as g2, Sha1.f3 as g3, Sha1.left as l, w32 as w.
  intros r R g1 g2 g3 l w Hf Hr S.
  do 5 bind. do 77 (bind; step_sha1 S R f). do 3 (step_sha1 S R f). rewrite Hr. apply Hf.
Qed.

Theorem Transform_sha1_compress s b :
  length s = 5%nat -> bytes b -> (64 <= length b)%nat -> Sha1.Transform s b = Sha1Spec.compress s b.
Proof.
  intros Hs Hb Hl. unfold Sha1Spec.compress. cbv zeta.
  rewrite rolling_spec by (cbn; lia || discriminate). rewrite (sha1_rounds_rolling _ _ _ _ sha1_rounds_spec).
  rewrite <- (Transform_sha1 s b (fun v => map (fun i => w32 (s.[i] + v.[i])) (seq 0 5))) by reflexivity.
  replace (map (fun i => ReadBE32 (skipn (4 * i) b)) (seq 0 16)) with (Sha1Spec.block_words b).
  - destruct s as [|? [|? [|? [|? [|? [|]]]]]]; try discriminate Hs. reflexivity.
  - apply map_ext_in. intros i Hi. apply in_seq in Hi. symmetry. apply ReadBE32_spec; [now apply Forall_drop | rewrite length_skipn; lia].
Qed.

(** * RIPEMD-160 *)

Lemma ripemd_left (f : list Z -> list Z -> list Z) a b c d e g k x s ps v :
  f (fold_left RipemdSpec.step ((g, k, x, s) :: ps) [a; b; c; d; e]) v =
  let '(a, c) := Ripemd160.Round a b c d e (g b c d) x k s in f (fold_left RipemdSpec.step ps [e; a; b; c; d]) v.
Proof. reflexivity. Qed.

Lemma ripemd_right (f : list Z -> list Z -> list Z) a b c d e g k x s ps v :
  f v (fold_left RipemdSpec.step ((g, k, x, s) :: ps) [a; b; c; d; e]) =
  let '(a, c) := Ripemd160.Round a b c d e (g b c d) x k s in f v (fold_left RipemdSpec.step ps [e; a; b; c; d]).
Proof. reflexivity. Qed.

Ltac run_left S R f :=
  match goal with
  | |- f (_ ((?g, ?k, ?x, ?s) :: ?ps) [?a; ?b; ?c; ?d; ?e]) ?v = _ =>
      generalize (S a b c d e g k x s ps v);
      destruct (R a b c d e (g b c d) x k s); let E := fresh in intros E; match goal with |- _ = ?T => refine (@eq_trans _ _ _ T E _) end; clear E
  end.
Ltac run_right S R f :=
  match goal with
  | |- f ?v (_ ((?g, ?k, ?x, ?s) :: ?ps) [?a; ?b; ?c; ?d; ?e]) = _ =>
      generalize (S a b c d e g k x s ps v);
      destruct (R a b c d e (g b c d) x k s); let E := fresh in intros E; match goal with |- _ = ?T => refine (@eq_trans _ _ _ T E _) end; clear E
  end.

Lemma Transform_ripemd160 s b f :
  (forall l r, f l r = [w32 (s.[1] + l.[2] + r.[3]); w32 (s.[2] + l.[3] + r.[4]); w32 (s.[3] + l.[4] + r.[0]);
    w32 (s.[4] + l.[0] + r.[1]); w32 (s.[0] + l.[1] + r.[2])]) ->
  let x := map (fun i => ReadLE32 (skipn (4 * i) b)) (seq 0 16) in
  let v := [s.[0]; s.[1]; s.[2]; s.[3]; s.[4]] in
  f (fold_left RipemdSpec.step (RipemdSpec.left_line x) v) (fold_left RipemdSpec.step (RipemdSpec.right_line x) v) = Ripemd160.Transform s b.
Proof.
  intros Hf x v. subst v.
  change x with
    [ReadLE32 (skipn 0 b); ReadLE32 (skipn 4 b); ReadLE32 (skipn 8 b); ReadLE32 (skipn 12 b); ReadLE32 (skipn 16 b); ReadLE32 (skipn 20 b); ReadLE32 (skipn 24 b); ReadLE32 (skipn 28 b); ReadLE32 (skipn 32 b); ReadLE32 (skipn 36 b); ReadLE32 (skipn 40 b); ReadLE32 (skipn 44 b); ReadLE32 (skipn 48 b); ReadLE32 (skipn 52 b); ReadLE32 (skipn 56 b); ReadLE32 (skipn 60 b)]. clear x.
  cbv delta [Ripemd160.Transform]; cbv beta.
  do 5 bind. do 5 copy. do 16 bind.
  cbv delta [Ripemd160.R11 Ripemd160.R21 Ripemd160.R31 Ripemd160.R41 Ripemd160.R51
    Ripemd160.R12 Ripemd160.R22 Ripemd160.R32 Ripemd160.R42 Ripemd160.R52]; cbv beta.
  change Ripemd160.f1 with (RipemdSpec.f 0). change Ripemd160.f2 with (RipemdSpec.f 1). change Ripemd160.f3 with (RipemdSpec.f 2).
  change Ripemd160.f4 with (RipemdSpec.f 3). change Ripemd160.f5 with (RipemdSpec.f 4).
  match goal with
  | |- f (fold_left ?S ?l ?v) (fold_left ?S ?r ?v) = _ =>
      let l' := eval cbv -[RipemdSpec.f] in l in change l with l';
      let r' := eval cbv -[RipemdSpec.f] in r in change r with r' end.
  generalize (ripemd_left f), (ripemd_right f). 
  assert (Hr : forall l r, f (fold_left RipemdSpec.step [] l) (fold_left RipemdSpec.step [] r) = f l r) by reflexivity. revert Hf Hr.
  generalize (fold_left RipemdSpec.step) as L, Ripemd160.Round as R, RipemdSpec.f as g, w32 as w.
  intros L R g w Hf Hr Sl Sr. do 80 (run_left Sl R f; run_right Sr R f). rewrite Hr. apply Hf.
Qed.

Theorem Transform_ripemd160_compress s b :
  length s = 5%nat -> bytes b -> (64 <= length b)%nat -> Ripemd160.Transform s b = RipemdSpec.compress s b.
Proof.
  intros Hs _ _.
  rewrite <- (Transform_ripemd160 s b (fun l r => [w32 (s.[1] + l.[2] + r.[3]); w32 (s.[2] + l.[3] + r.[4]); w32 (s.[3] + l.[4] + r.[0]);
    w32 (s.[4] + l.[0] + r.[1]); w32 (s.[0] + l.[1] + r.[2])])) by reflexivity.
  destruct s as [|? [|? [|? [|? [|? [|]]]]]]; try discriminate Hs. reflexivity.
Qed.

(** * SHA-1 *)

Lemma Transform_sha1_firstn s b : (64 <= length b)%nat -> Sha1.Transform s b = Sha1.Transform s (firstn 64 b).
Proof.
  intros Hb. rewrite <- !(Transform_sha1 _ _ (fun v => map (fun i => w32 (s.[i] + v.[i])) (seq 0 5))) by reflexivity.
  assert (E : map (fun i => ReadBE32 (skipn (4 * i) b)) (seq 0 16) = map (fun i => ReadBE32 (skipn (4 * i) (firstn 64 b))) (seq 0 16)); [|now rewrite E].
  apply map_ext_in. intros i Hi. apply in_seq in Hi.
  unfold ReadBE32. rewrite skipn_firstn_comm, firstn_firstn. do 4 f_equal. lia.
Qed.

Lemma chain_sha1 m :
  bytes m -> Md.chain 64 Sha1.Transform Sha1.Initialize m = Md.chain 64 Sha1Spec.compress Sha1Spec.H0 m /\
  length (Md.chain 64 Sha1.Transform Sha1.Initialize m) = 5%nat.
Proof.
  intros Hm. apply (chain_ext 64 _ _ (fun s => length s = 5%nat)); [lia | assumption | reflexivity |].
  intros s b Hs Hb Hl. rewrite Transform_sha1_compress by (assumption || lia). split; reflexivity.
Qed.

Lemma Finalize_sha1 c m :
  fed 64 Sha1.Initialize Sha1.Transform c m -> bytes m -> sha_ok m ->
  fst (Sha1.Finalize c) = Sha1Spec.sha1 m /\ length (h_buf (snd (Sha1.Finalize c))) = 64%nat.
Proof.
  intros Hc Hm Hok. pose proof Hc as (_ & Hn & _). set (field := be_bytes 8 (8 * Z.of_nat (length m))).
  assert (Ef : WriteBE64 (w64 (Z.shiftl (h_bytes c) 3)) = field) by (rewrite (bit_count c m Hn Hok), WriteBE64_spec; reflexivity).
  pose proof (Finalize_64 Sha1.Initialize Sha1.Transform c m field Transform_sha1_firstn Hc
    ltac:(apply length_be_bytes)) as [Hb Hs].
  unfold Sha1.Finalize. cbv zeta. rewrite Ef. split; [cbn [fst] | exact Hb]. unfold Sha1.Write. rewrite Hs, !WriteBE32_spec.
  destruct (chain_sha1 (Md.pad 64 field m)) as [E L]; [apply bytes_pad; [assumption | apply bytes_be_bytes]|].
  unfold Sha1Spec.sha1. cbv zeta. fold field. rewrite <- E. revert L. generalize (Md.chain 64 Sha1.Transform Sha1.Initialize (Md.pad 64 field m)). clear.
  intros l L. destruct l as [|? [|? [|? [|? [|? [|]]]]]]; try discriminate L. cbn [flat_map nth]. now rewrite app_nil_r.
Qed.

#[export] Instance sha1_stream buf (Hb : length buf = 64%nat) :
  StreamHash (hasher_ops 64 Sha1.Initialize Sha1.Transform Sha1.Finalize buf) sha_ok Sha1Spec.sha1 :=
  hasher_stream 64 _ _ _ (or_introl eq_refl) Transform_sha1_firstn buf Hb sha_ok _ Finalize_sha1.

(** * RIPEMD-160 *)

Lemma Transform_ripemd160_firstn s b : (64 <= length b)%nat -> Ripemd160.Transform s b = Ripemd160.Transform s (firstn 64 b).
Proof.
  intros Hb. rewrite <- !(Transform_ripemd160 _ _ (fun l r => [w32 (s.[1] + l.[2] + r.[3]); w32 (s.[2] + l.[3] + r.[4]); w32 (s.[3] + l.[4] + r.[0]);
    w32 (s.[4] + l.[0] + r.[1]); w32 (s.[0] + l.[1] + r.[2])])) by reflexivity.
  assert (E : map (fun i => ReadLE32 (skipn (4 * i) b)) (seq 0 16) = map (fun i => ReadLE32 (skipn (4 * i) (firstn 64 b))) (seq 0 16)); [|now rewrite E].
  apply map_ext_in. intros i Hi. apply in_seq in Hi.
  unfold ReadLE32. rewrite skipn_firstn_comm, firstn_firstn. do 3 f_equal. lia.
Qed.

Lemma chain_ripemd160 m :
  bytes m -> Md.chain 64 Ripemd160.Transform Ripemd160.Initialize m = Md.chain 64 RipemdSpec.compress Sha1Spec.H0 m /\
  length (Md.chain 64 Ripemd160.Transform Ripemd160.Initialize m) = 5%nat.
Proof.
  intros Hm. apply (chain_ext 64 _ _ (fun s => length s = 5%nat)); [lia | assumption | reflexivity |].
  intros s b Hs Hb Hl. rewrite Transform_ripemd160_compress by (assumption || lia). split; reflexivity.
Qed.

Lemma Finalize_ripemd160 c m :
  fed 64 Ripemd160.Initialize Ripemd160.Transform c m -> bytes m -> sha_ok m ->
  fst (Ripemd160.Finalize c) = RipemdSpec.ripemd160 m /\ length (h_buf (snd (Ripemd160.Finalize c))) = 64%nat.
Proof.
  intros Hc Hm Hok. pose proof Hc as (_ & Hn & _). set (field := le_split 8 (8 * Z.of_nat (length m))).
  assert (Ef : WriteLE64 (w64 (Z.shiftl (h_bytes c) 3)) = field) by (rewrite (bit_count c m Hn Hok); reflexivity).
  pose proof (Finalize_64 Ripemd160.Initialize Ripemd160.Transform c m field Transform_ripemd160_firstn Hc
    ltac:(apply length_le_split)) as [Hb Hs].
  unfold Ripemd160.Finalize. cbv zeta. rewrite Ef. split; [cbn [fst] | exact Hb]. unfold Ripemd160.Write. rewrite Hs.
  destruct (chain_ripemd160 (Md.pad 64 field m)) as [E L]; [apply bytes_pad; [assumption | apply bytes_le_split]|].
  unfold RipemdSpec.ripemd160. cbv zeta. fold field. rewrite <- E. revert L. generalize (Md.chain 64 Ripemd160.Transform Ripemd160.Initialize (Md.pad 64 field m)). clear.
  intros l L. destruct l as [|? [|? [|? [|? [|? [|]]]]]]; try discriminate L. cbn [flat_map nth]. now rewrite app_nil_r.
Qed.

#[export] Instance ripemd160_stream buf (Hb : length buf = 64%nat) :
  StreamHash (hasher_ops 64 Ripemd160.Initialize Ripemd160.Transform Ripemd160.Finalize buf) sha_ok RipemdSpec.ripemd160 :=
  hasher_stream 64 _ _ _ (or_introl eq_refl) Transform_ripemd160_firstn buf Hb sha_ok _ Finalize_ripemd160.
