(* ===== verification/HashClasses.v ===== *)
(** hash.h and the HMAC classes: the double hashes [CHash256], [CHash512] and [CHash160],
    the functions [Hash], [Hash512] and [Hash160] over one or two ranges of bytes,
    [CHMAC_SHA256] and [CHMAC_SHA512], and [BIP32Hash]. The members of a new object are
    the result of the constructor of its class, and a buffer that a constructor leaves
    uninitialised is a parameter. *)
From Stdlib Require Import ZifyNat.
From S2P Require Import Prelude Stream CryptoCommon Hasher Sha256 Sha512 Sha1 Ripemd160.
From S2P Require Import HashSpec Sha2Hash Md160Hash.
Import CryptoCommon Hasher.

(** The classes have one member, [sha]. *)
Definition CHash256_Write (sha : hasher) (data : list Z) : hasher := Sha256.Write sha data.
Definition CHash256_Reset (sha : hasher) : hasher := Sha256.Reset sha.
Definition CHash256_Finalize (sha : hasher) : list Z * hasher :=
  let '(buf, sha) := Sha256.Finalize sha in
  Sha256.Finalize (Sha256.Write (Sha256.Reset sha) buf).

Definition CHash512_Write (sha : hasher) (data : list Z) : hasher := Sha512.Write sha data.
Definition CHash512_Reset (sha : hasher) : hasher := Sha512.Reset sha.
Definition CHash512_Finalize (sha : hasher) : list Z * hasher :=
  let '(buf, sha) := Sha512.Finalize sha in
  Sha512.Finalize (Sha512.Write (Sha512.Reset sha) buf).

(** [Finalize] uses a local [CRIPEMD160]. *)
Definition CHash160_Write (sha : hasher) (data : list Z) : hasher := Sha256.Write sha data.
Definition CHash160_Reset (sha : hasher) : hasher := Sha256.Reset sha.
Definition CHash160_Finalize (local : list Z) (sha : hasher) : list Z * hasher :=
  let '(buf, sha) := Sha256.Finalize sha in
  (fst (Ripemd160.Finalize (Ripemd160.Write (Ripemd160.CRIPEMD160 local) buf)), sha).

(** The functions over one range and over two. *)
Definition Hash (buf data : list Z) : list Z := fst (CHash256_Finalize (CHash256_Write (Sha256.CSHA256 buf) data)).
Definition Hash_2 (buf data1 data2 : list Z) : list Z :=
  fst (CHash256_Finalize (CHash256_Write (CHash256_Write (Sha256.CSHA256 buf) data1) data2)).
Definition Hash512 (buf data : list Z) : list Z := fst (CHash512_Finalize (CHash512_Write (Sha512.CSHA512 buf) data)).
Definition Hash512_2 (buf data1 data2 : list Z) : list Z :=
  fst (CHash512_Finalize (CHash512_Write (CHash512_Write (Sha512.CSHA512 buf) data1) data2)).
Definition Hash160 (buf local data : list Z) : list Z :=
  fst (CHash160_Finalize local (CHash160_Write (Sha256.CSHA256 buf) data)).

(** ** HMAC *)

Record hmac := { outer : hasher; inner : hasher }.

(** The constructor; [bo], [bi] and [bk] are the buffers of [outer], of [inner] and of the
    object that hashes a long key. *)
Definition CHMAC_SHA256_construct (bo bi bk key : list Z) : hmac :=
  let rkey :=
    if (length key <=? 64)%nat then key ++ repeat 0 (64 - length key)
    else fst (Sha256.Finalize (Sha256.Write (Sha256.CSHA256 bk) key)) ++ repeat 0 32 in
  let rkey := map (fun x => x ^^ 0x5c) rkey in
  let outer := Sha256.Write (Sha256.CSHA256 bo) rkey in
  let rkey := map (fun x => x ^^ (0x5c ^^ 0x36)) rkey in
  let inner := Sha256.Write (Sha256.CSHA256 bi) rkey in
  {| outer := outer; inner := inner |}.
Definition CHMAC_SHA256_Write (c : hmac) (data : list Z) : hmac := {| outer := outer c; inner := Sha256.Write (inner c) data |}.
Definition CHMAC_SHA256_Finalize (c : hmac) : list Z * hmac :=
  let '(temp, i) := Sha256.Finalize (inner c) in
  let '(hash, o) := Sha256.Finalize (Sha256.Write (outer c) temp) in
  (hash, {| outer := o; inner := i |}).

Definition CHMAC_SHA512_construct (bo bi bk key : list Z) : hmac :=
  let rkey :=
    if (length key <=? 128)%nat then key ++ repeat 0 (128 - length key)
    else fst (Sha512.Finalize (Sha512.Write (Sha512.CSHA512 bk) key)) ++ repeat 0 64 in
  let rkey := map (fun x => x ^^ 0x5c) rkey in
  let outer := Sha512.Write (Sha512.CSHA512 bo) rkey in
  let rkey := map (fun x => x ^^ (0x5c ^^ 0x36)) rkey in
  let inner := Sha512.Write (Sha512.CSHA512 bi) rkey in
  {| outer := outer; inner := inner |}.
Definition CHMAC_SHA512_Write (c : hmac) (data : list Z) : hmac := {| outer := outer c; inner := Sha512.Write (inner c) data |}.
Definition CHMAC_SHA512_Finalize (c : hmac) : list Z * hmac :=
  let '(temp, i) := Sha512.Finalize (inner c) in
  let '(hash, o) := Sha512.Finalize (Sha512.Write (outer c) temp) in
  (hash, {| outer := o; inner := i |}).

(** [header] is one byte, [data] 32 bytes, [nChild] an unsigned 32-bit integer. *)
Definition BIP32Hash (bo bi bk chainCode : list Z) (nChild header : Z) (data : list Z) : list Z :=
  let num := [Z.shiftr nChild 24 &: 0xFF; Z.shiftr nChild 16 &: 0xFF; Z.shiftr nChild 8 &: 0xFF; Z.shiftr nChild 0 &: 0xFF] in
  let c := CHMAC_SHA512_construct bo bi bk chainCode in
  let c := CHMAC_SHA512_Write (CHMAC_SHA512_Write (CHMAC_SHA512_Write c [header]) data) num in
  fst (CHMAC_SHA512_Finalize c).

(** * The reference: RFC 2104 *)

Module HmacSpec.
(** Keys that are longer than a block are hashed; then zeros fill the block. *)
Definition block_key (size : nat) (H : list Z -> list Z) (key : list Z) : list Z :=
  let k := if (length key <=? size)%nat then key else H key in
  k ++ repeat 0 (size - length k).
Definition xor_all (b : Z) (k : list Z) : list Z := map (fun x => x ^^ b) k.
Definition mac (size : nat) (H : list Z -> list Z) (key m : list Z) : list Z :=
  let k := block_key size H key in
  H (xor_all 0x5c k ++ H (xor_all 0x36 k ++ m)).
End HmacSpec.

(** * Clients of a hash function *)

Section Clients.
Context {ops : hash_ops hasher} {H : list Z -> list Z} (size n : nat).
Context `{HS : !StreamHash ops sha_ok H}.
Context (Hdigest : forall m, bytes m -> bytes (H m) /\ length (H m) = n) (Hn : (n <= size)%nat) (Hsize : (size <= 128)%nat).

#[local] Abbreviation upd := (hash_update ops).
#[local] Abbreviation close c := (fst (hash_close ops c)).

Lemma digest_ok m : bytes m -> sha_ok (H m).
Proof. intros Hm. destruct (Hdigest m Hm) as [_ L]. unfold sha_ok. rewrite L. lia. Qed.

Lemma double_hash c m :
  hash_rep c m -> bytes m -> sha_ok m -> close (upd (snd (hash_close ops c)) (close c)) = H (H m).
Proof.
  intros Hc Hm Hok. destruct (hash_rep_close c m Hc Hok) as [-> _].
  now apply (reuse_after_close c m); [| |apply Hdigest | apply digest_ok].
Qed.

(** An object that was constructed from a key and written to. *)
Definition hmac_rep (c : hmac) (key m : list Z) : Prop :=
  let k := HmacSpec.block_key size H key in
  hash_rep (outer c) (HmacSpec.xor_all 0x5c k) /\ hash_rep (inner c) (HmacSpec.xor_all 0x36 k ++ m).

Lemma bytes_block_key key : bytes key -> bytes (HmacSpec.block_key size H key).
Proof.
  intros Hk. unfold HmacSpec.block_key. apply Forall_app. split.
  - destruct (_ <=? _)%nat; [assumption | now apply Hdigest].
  - apply Forall_forall. intros x Hx. apply repeat_spec in Hx. rewrite Hx. now split.
Qed.

Lemma length_block_key key : bytes key -> length (HmacSpec.block_key size H key) = size.
Proof.
  intros Hk. unfold HmacSpec.block_key. rewrite length_app, repeat_length.
  destruct (Nat.leb_spec (length key) size) as [Hl|_]; [lia|]. rewrite (proj2 (Hdigest key Hk)). lia.
Qed.

Lemma bytes_xor_all b k : word 8 b -> bytes k -> bytes (HmacSpec.xor_all b k).
Proof. intros Hb Hk. apply Forall_map. eapply Forall_impl; [|exact Hk]. intros x Hx. now apply word_lxor. Qed.

Lemma hmac_construct o i key c :
  bytes key -> hash_rep o [] -> hash_rep i [] ->
  c = (let rkey := map (fun x => x ^^ 0x5c) (HmacSpec.block_key size H key) in
       {| outer := upd o rkey; inner := upd i (map (fun x => x ^^ (0x5c ^^ 0x36)) rkey) |}) ->
  hmac_rep c key [].
Proof.
  intros Hk Ho Hi ->. pose proof (bytes_block_key key Hk) as Hb. split; cbn [outer inner].
  - apply (hash_rep_update o [] (HmacSpec.xor_all 0x5c _)); [now apply bytes_xor_all | assumption].
  - rewrite app_nil_r, map_map. rewrite (map_ext _ (fun x => x ^^ 0x36)).
    + apply (hash_rep_update i [] (HmacSpec.xor_all 0x36 _)); [now apply bytes_xor_all | assumption].
    + intros x. now rewrite <- !Z.lxor_assoc, (Z.lxor_assoc x), Z.lxor_nilpotent, Z.lxor_0_r.
Qed.

Lemma hmac_write c key m d :
  bytes d -> hmac_rep c key m -> hmac_rep {| outer := outer c; inner := upd (inner c) d |} key (m ++ d).
Proof. intros Hd [Ho Hi]. split; [assumption|]. cbn [inner]. rewrite app_assoc. now apply hash_rep_update. Qed.

Lemma hmac_finalize c key m :
  hmac_rep c key m -> bytes key -> bytes m -> 8 * (Z.of_nat (length m) + 128) < 2 ^ 64 ->
  close (upd (outer c) (close (inner c))) = HmacSpec.mac size H key m.
Proof.
  intros [Ho Hi] Hk Hm Hok. pose proof (bytes_block_key key Hk) as Hb. pose proof (length_block_key key Hk) as Hl.
  set (k := HmacSpec.block_key size H key) in *.
  assert (Hbi : bytes (HmacSpec.xor_all 0x36 k ++ m)) by (apply Forall_app; split; [now apply bytes_xor_all | assumption]).
  assert (Hoki : sha_ok (HmacSpec.xor_all 0x36 k ++ m)).
  { unfold sha_ok, HmacSpec.xor_all. rewrite length_app, length_map, Hl. lia. }
  destruct (hash_rep_close _ _ Hi Hoki) as [-> _]. destruct (Hdigest _ Hbi) as [Hbd Hld].
  unfold HmacSpec.mac. cbv zeta. fold k. apply hash_rep_close; [now apply hash_rep_update|].
  unfold sha_ok, HmacSpec.xor_all. rewrite length_app, length_map, Hl. fold (HmacSpec.xor_all 0x36 k). rewrite Hld. lia.
Qed.
End Clients.

(** * Digests *)

Lemma flat_map_words (g : Z -> list Z) k l :
  (forall x, bytes (g x) /\ length (g x) = k) -> bytes (flat_map g l) /\ length (flat_map g l) = (length l * k)%nat.
Proof.
  intros Hg. induction l as [|x l [IHb IHl]]; cbn [flat_map]; [split; [constructor | reflexivity]|].
  rewrite Forall_app, length_app, IHl. split; [split; [apply Hg | assumption]|]. rewrite (proj2 (Hg x)). cbn [length]. lia.
Qed.

Lemma length_chain size (compress : list Z -> list Z -> list Z) n iv m :
  length iv = n -> (forall s b, length (compress s b) = n) -> length (Md.chain size compress iv m) = n.
Proof.
  intros Hiv Hc. unfold Md.chain. revert iv Hiv. induction (Md.blocks _ _ _) as [|b bs IH]; intros iv Hiv; [assumption|].
  cbn [fold_left]. apply IH, Hc.
Qed.

Lemma sha256_digest m : bytes (Sha2Spec.sha256 m) /\ length (Sha2Spec.sha256 m) = 32%nat.
Proof.
  unfold Sha2Spec.sha256, Sha2Spec.digest. cbv zeta. set (c := Md.chain _ _ _ _).
  assert (Hl : length c = 8%nat) by (apply length_chain; [reflexivity | intros; apply length_map]).
  destruct (flat_map_words (be_bytes 4) 4 c) as [Hb L]; [intros x; split; [apply bytes_be_bytes | apply length_be_bytes]|].
  rewrite Hl in L. now split.
Qed.

Lemma sha512_digest m : bytes (Sha2Spec.sha512 m) /\ length (Sha2Spec.sha512 m) = 64%nat.
Proof.
  unfold Sha2Spec.sha512, Sha2Spec.digest. cbv zeta. set (c := Md.chain _ _ _ _).
  assert (Hl : length c = 8%nat) by (apply length_chain; [reflexivity | intros; apply length_map]).
  destruct (flat_map_words (be_bytes 8) 8 c) as [Hb L]; [intros x; split; [apply bytes_be_bytes | apply length_be_bytes]|].
  rewrite Hl in L. now split.
Qed.

Lemma sha_ok_256 m : sha_ok (Sha2Spec.sha256 m).
Proof. unfold sha_ok. rewrite (proj2 (sha256_digest m)). reflexivity. Qed.

(** ** The classes as clients of their hash functions *)

Definition ops256 (buf : list Z) : hash_ops hasher := hasher_ops 64 Sha256.Initialize Sha256.Transform Sha256.Finalize buf.
Definition ops512 (buf : list Z) : hash_ops hasher := hasher_ops 128 Sha512.Initialize Sha512.Transform Sha512.Finalize buf.
Definition ops160 (buf : list Z) : hash_ops hasher := hasher_ops 64 Ripemd160.Initialize Ripemd160.Transform Ripemd160.Finalize buf.

Lemma fst_close256 buf c : fst (hash_close (ops256 buf) c) = fst (Sha256.Finalize c).
Proof. cbn [hash_close ops256 hasher_ops]. now destruct (Sha256.Finalize c). Qed.
Lemma fst_close512 buf c : fst (hash_close (ops512 buf) c) = fst (Sha512.Finalize c).
Proof. cbn [hash_close ops512 hasher_ops]. now destruct (Sha512.Finalize c). Qed.
Lemma fst_close160 buf c : fst (hash_close (ops160 buf) c) = fst (Ripemd160.Finalize c).
Proof. cbn [hash_close ops160 hasher_ops]. now destruct (Ripemd160.Finalize c). Qed.

Lemma CHash256_Finalize_ops buf c :
  fst (CHash256_Finalize c) =
  fst (hash_close (ops256 buf) (hash_update (ops256 buf) (snd (hash_close (ops256 buf) c)) (fst (hash_close (ops256 buf) c)))).
Proof. rewrite fst_close256. unfold CHash256_Finalize. cbn [hash_close ops256 hasher_ops]. now destruct (Sha256.Finalize c). Qed.

Lemma CHash512_Finalize_ops buf c :
  fst (CHash512_Finalize c) =
  fst (hash_close (ops512 buf) (hash_update (ops512 buf) (snd (hash_close (ops512 buf) c)) (fst (hash_close (ops512 buf) c)))).
Proof. rewrite fst_close512. unfold CHash512_Finalize. cbn [hash_close ops512 hasher_ops]. now destruct (Sha512.Finalize c). Qed.

(** C18. The hash functions: the classes [CSHA256], [CSHA512], [CSHA1] and [CRIPEMD160], from
    whatever their buffers held at first, return the digest that FIPS 180-4 or the
    definition of RIPEMD-160 gives of the whole message, in whatever pieces it is
    written. *)
Theorem hasher_digests b1 b2 b3 b4 pieces :
  length b1 = 64%nat -> length b2 = 128%nat -> length b3 = 64%nat -> length b4 = 64%nat ->
  Forall (fun p => bytes p) pieces -> sha_ok (concat pieces) ->
  fst (Sha256.Finalize (fold_left Sha256.Write pieces (Sha256.CSHA256 b1))) = Sha2Spec.sha256 (concat pieces) /\
  fst (Sha512.Finalize (fold_left Sha512.Write pieces (Sha512.CSHA512 b2))) = Sha2Spec.sha512 (concat pieces) /\
  fst (Sha1.Finalize (fold_left Sha1.Write pieces (Sha1.CSHA1 b3))) = Sha1Spec.sha1 (concat pieces) /\
  fst (Ripemd160.Finalize (fold_left Ripemd160.Write pieces (Ripemd160.CRIPEMD160 b4))) = RipemdSpec.ripemd160 (concat pieces).
Proof.
  intros H1 H2 H3 H4 Hp Hok. repeat split.
  - rewrite <- (fst_close256 b1). exact (chunked_digest (StreamHash0 := sha256_stream b1 H1) pieces Hp Hok).
  - rewrite <- (fst_close512 b2). exact (chunked_digest (StreamHash0 := sha512_stream b2 H2) pieces Hp Hok).
  - rewrite <- (chunked_digest (StreamHash0 := sha1_stream b3 H3) pieces Hp Hok). unfold digest_of. cbn [hash_close hasher_ops].
    change (hash_update _) with Sha1.Write. now destruct (Sha1.Finalize _).
  - rewrite <- (fst_close160 b4). exact (chunked_digest (StreamHash0 := ripemd160_stream b4 H4) pieces Hp Hok).
Qed.

Lemma hasher_digests_witness :
  fst (Sha256.Finalize (fold_left Sha256.Write [[97]; []; [98; 99]] (Sha256.CSHA256 (repeat 7 64)))) = Sha2Spec.sha256 [97; 98; 99].
Proof.
  refine (proj1 (hasher_digests (repeat 7 64) (repeat 7 128) (repeat 7 64) (repeat 7 64) [[97]; []; [98; 99]] _ _ _ _ _ _));
    try reflexivity.
  repeat apply Forall_cons; try apply Forall_nil; split; (lia || reflexivity).
Defined.

(** The published digests of "abc". *)
Example sha_vectors :
  map (firstn 4) [Sha2Spec.sha256 [97; 98; 99]; Sha2Spec.sha512 [97; 98; 99]; Sha1Spec.sha1 [97; 98; 99]; RipemdSpec.ripemd160 [97; 98; 99]] =
  [[0xba; 0x78; 0x16; 0xbf]; [0xdd; 0xaf; 0x35; 0xa1]; [0xa9; 0x99; 0x3e; 0x36]; [0x8e; 0xb2; 0x08; 0xf7]].
Proof. vm_compute. reflexivity. Qed.

(** A new object after one write or two. *)
Lemma one_write {ops : hash_ops hasher} {H} `{HS : !StreamHash ops sha_ok H} m : bytes m -> hash_rep (hash_update ops (hash_init ops) m) m.
Proof. intros Hm. exact (hash_rep_update _ [] m Hm hash_rep_init). Qed.

Lemma two_writes {ops : hash_ops hasher} {H} `{HS : !StreamHash ops sha_ok H} m1 m2 :
  bytes m1 -> bytes m2 -> hash_rep (hash_update ops (hash_update ops (hash_init ops) m1) m2) (m1 ++ m2).
Proof. intros H1 H2. apply hash_rep_update; [assumption | now apply one_write]. Qed.

Lemma Hash256_rep buf (HS : StreamHash (ops256 buf) sha_ok Sha2Spec.sha256) c m :
  bytes m -> sha_ok m -> hash_rep c m -> fst (CHash256_Finalize c) = Sha2Spec.sha256 (Sha2Spec.sha256 m).
Proof.
  intros Hm Hok Hc. rewrite (CHash256_Finalize_ops buf).
  apply (double_hash 64 32 (fun m _ => sha256_digest m)); assumption || lia.
Qed.

Lemma Hash512_rep buf (HS : StreamHash (ops512 buf) sha_ok Sha2Spec.sha512) c m :
  bytes m -> sha_ok m -> hash_rep c m -> fst (CHash512_Finalize c) = Sha2Spec.sha512 (Sha2Spec.sha512 m).
Proof.
  intros Hm Hok Hc. rewrite (CHash512_Finalize_ops buf).
  apply (double_hash 128 64 (fun m _ => sha512_digest m)); assumption || lia.
Qed.

Lemma Hash160_rep b1 b3 (H3 : length b3 = 64%nat) (HS : StreamHash (ops256 b1) sha_ok Sha2Spec.sha256) c m :
  bytes m -> sha_ok m -> hash_rep c m -> fst (CHash160_Finalize b3 c) = RipemdSpec.ripemd160 (Sha2Spec.sha256 m).
Proof.
  intros Hm Hok Hc. destruct (hash_rep_close c m Hc Hok) as [E _]. rewrite fst_close256 in E.
  unfold CHash160_Finalize. destruct (Sha256.Finalize c) as [h c']. cbn [fst] in *. subst h.
  rewrite <- (fst_close160 b3). apply (hash_rep_close (StreamHash := ripemd160_stream b3 H3)); [|apply sha_ok_256].
  apply (one_write (HS := ripemd160_stream b3 H3)), sha256_digest.
Qed.

(** The double hashes: [Hash] and [Hash512] over one range or two are the hash of the
    hash of the ranges one after the other, and [Hash160] is RIPEMD-160 of SHA-256. *)
Theorem double_hashes b1 b2 b3 m1 m2 :
  length b1 = 64%nat -> length b2 = 128%nat -> length b3 = 64%nat -> bytes m1 -> bytes m2 -> sha_ok (m1 ++ m2) ->
  Hash b1 (m1 ++ m2) = Sha2Spec.sha256 (Sha2Spec.sha256 (m1 ++ m2)) /\
  Hash_2 b1 m1 m2 = Sha2Spec.sha256 (Sha2Spec.sha256 (m1 ++ m2)) /\
  Hash512 b2 (m1 ++ m2) = Sha2Spec.sha512 (Sha2Spec.sha512 (m1 ++ m2)) /\
  Hash512_2 b2 m1 m2 = Sha2Spec.sha512 (Sha2Spec.sha512 (m1 ++ m2)) /\
  Hash160 b1 b3 (m1 ++ m2) = RipemdSpec.ripemd160 (Sha2Spec.sha256 (m1 ++ m2)).
Proof.
  intros H1 H2 H3 Hm1 Hm2 Hok. assert (Hm : bytes (m1 ++ m2)) by now apply Forall_app.
  split; [|split; [|split; [|split]]].
  - apply (Hash256_rep b1 (sha256_stream b1 H1) _ _ Hm Hok). exact (one_write (HS := sha256_stream b1 H1) _ Hm).
  - apply (Hash256_rep b1 (sha256_stream b1 H1) _ _ Hm Hok). exact (two_writes (HS := sha256_stream b1 H1) _ _ Hm1 Hm2).
  - apply (Hash512_rep b2 (sha512_stream b2 H2) _ _ Hm Hok). exact (one_write (HS := sha512_stream b2 H2) _ Hm).
  - apply (Hash512_rep b2 (sha512_stream b2 H2) _ _ Hm Hok). exact (two_writes (HS := sha512_stream b2 H2) _ _ Hm1 Hm2).
  - apply (Hash160_rep b1 b3 H3 (sha256_stream b1 H1) _ _ Hm Hok). exact (one_write (HS := sha256_stream b1 H1) _ Hm).
Qed.

Lemma double_hashes_witness :
  Hash_2 (repeat 0 64) [1; 2] [3] = Sha2Spec.sha256 (Sha2Spec.sha256 [1; 2; 3]).
Proof.
  refine (proj1 (proj2 (double_hashes (repeat 0 64) (repeat 0 128) (repeat 0 64) [1; 2] [3] eq_refl eq_refl eq_refl _ _ eq_refl)));
    repeat apply Forall_cons; try apply Forall_nil; split; (lia || reflexivity).
Defined.

(** ** HMAC objects *)

Lemma bytes_concat (pieces : list (list Z)) : Forall (fun p => bytes p) pieces -> bytes (concat pieces).
Proof. intros H. apply Forall_concat. exact H. Qed.

Lemma hmac_pieces {ops : hash_ops hasher} {H} `{HS : !StreamHash ops sha_ok H} size (W : hmac -> list Z -> hmac) c key m pieces :
  (forall c d, W c d = {| outer := outer c; inner := hash_update ops (inner c) d |}) ->
  Forall (fun p => bytes p) pieces -> hmac_rep size c key m -> hmac_rep size (fold_left W pieces c) key (m ++ concat pieces).
Proof.
  intros HW Hp. revert c m. induction Hp as [|p ps Hb _ IH]; intros c m Hc; cbn [fold_left concat]; [now rewrite app_nil_r|].
  rewrite app_assoc. apply IH. rewrite HW. now apply hmac_write.
Qed.

Lemma CHMAC_SHA256_Finalize_ops buf c :
  fst (CHMAC_SHA256_Finalize c) = fst (hash_close (ops256 buf) (hash_update (ops256 buf) (outer c) (fst (hash_close (ops256 buf) (inner c))))).
Proof.
  rewrite !fst_close256. unfold CHMAC_SHA256_Finalize. destruct (Sha256.Finalize (inner c)) as [temp i]. cbn [fst].
  change (hash_update (ops256 buf)) with Sha256.Write. now destruct (Sha256.Finalize _).
Qed.

Lemma construct256_rep bo bi bk key (Ho : length bo = 64%nat) (Hi : length bi = 64%nat) (Hb : length bk = 64%nat) :
  bytes key -> sha_ok key -> hmac_rep (HS := sha256_stream bo Ho) 64 (CHMAC_SHA256_construct bo bi bk key) key [].
Proof.
  intros Hk Hok.
  apply (hmac_construct (HS := sha256_stream bo Ho) 64 32 (fun m _ => sha256_digest m) (hash_init (ops256 bo)) (hash_init (ops256 bi))); [assumption | | |].
  - exact (hash_rep_init (StreamHash := sha256_stream bo Ho)).
  - exact (hash_rep_init (StreamHash := sha256_stream bi Hi)).
  - unfold CHMAC_SHA256_construct, HmacSpec.block_key. cbv zeta. destruct (_ <=? _)%nat; [reflexivity|].
    pose proof (hash_rep_close _ _ (one_write (HS := sha256_stream bk Hb) key Hk) Hok) as [E _].
    rewrite (fst_close256 bk) in E. rewrite (proj2 (sha256_digest key)), <- E. reflexivity.
Qed.

Lemma CHMAC_SHA512_Finalize_ops buf c :
  fst (CHMAC_SHA512_Finalize c) = fst (hash_close (ops512 buf) (hash_update (ops512 buf) (outer c) (fst (hash_close (ops512 buf) (inner c))))).
Proof.
  rewrite !fst_close512. unfold CHMAC_SHA512_Finalize. destruct (Sha512.Finalize (inner c)) as [temp i]. cbn [fst].
  change (hash_update (ops512 buf)) with Sha512.Write. now destruct (Sha512.Finalize _).
Qed.

Lemma construct512_rep bo bi bk key (Ho : length bo = 128%nat) (Hi : length bi = 128%nat) (Hb : length bk = 128%nat) :
  bytes key -> sha_ok key -> hmac_rep (HS := sha512_stream bo Ho) 128 (CHMAC_SHA512_construct bo bi bk key) key [].
Proof.
  intros Hk Hok.
  apply (hmac_construct (HS := sha512_stream bo Ho) 128 64 (fun m _ => sha512_digest m) (hash_init (ops512 bo)) (hash_init (ops512 bi))); [assumption | | |].
  - exact (hash_rep_init (StreamHash := sha512_stream bo Ho)).
  - exact (hash_rep_init (StreamHash := sha512_stream bi Hi)).
  - unfold CHMAC_SHA512_construct, HmacSpec.block_key. cbv zeta. destruct (_ <=? _)%nat; [reflexivity|].
    pose proof (hash_rep_close _ _ (one_write (HS := sha512_stream bk Hb) key Hk) Hok) as [E _].
    rewrite (fst_close512 bk) in E. rewrite (proj2 (sha512_digest key)), <- E. reflexivity.
Qed.

(** HMAC: an object of [CHMAC_SHA256] or [CHMAC_SHA512] that is constructed from a key and
    written to in any pieces returns the HMAC of RFC 2104 of the whole message under the
    key, whether the key fits a block or is hashed first. *)
Theorem hmac_digests bo bi bk bo' bi' bk' key pieces :
  Forall (fun b => length b = 64%nat) [bo; bi; bk] -> Forall (fun b => length b = 128%nat) [bo'; bi'; bk'] ->
  bytes key -> sha_ok key -> Forall (fun p => bytes p) pieces -> 8 * (Z.of_nat (length (concat pieces)) + 128) < 2 ^ 64 ->
  fst (CHMAC_SHA256_Finalize (fold_left CHMAC_SHA256_Write pieces (CHMAC_SHA256_construct bo bi bk key))) =
    HmacSpec.mac 64 Sha2Spec.sha256 key (concat pieces) /\
  fst (CHMAC_SHA512_Finalize (fold_left CHMAC_SHA512_Write pieces (CHMAC_SHA512_construct bo' bi' bk' key))) =
    HmacSpec.mac 128 Sha2Spec.sha512 key (concat pieces).
Proof.
  intros H64 H128 Hk Hokk Hp Hok. pose proof (bytes_concat pieces Hp) as Hm.
  apply Forall_cons_iff in H64 as [Ho H64]. apply Forall_cons_iff in H64 as [Hi H64]. apply Forall_inv in H64.
  apply Forall_cons_iff in H128 as [Ho' H128]. apply Forall_cons_iff in H128 as [Hi' H128]. apply Forall_inv in H128. split.
  - rewrite (CHMAC_SHA256_Finalize_ops bo).
    apply (hmac_finalize (HS := sha256_stream bo Ho) 64 32 (fun m _ => sha256_digest m)); [lia | lia | | assumption..].
    apply (hmac_pieces (HS := sha256_stream bo Ho) 64 CHMAC_SHA256_Write _ key []); auto. now apply construct256_rep.
  - rewrite (CHMAC_SHA512_Finalize_ops bo').
    apply (hmac_finalize (HS := sha512_stream bo' Ho') 128 64 (fun m _ => sha512_digest m)); [lia | lia | | assumption..].
    apply (hmac_pieces (HS := sha512_stream bo' Ho') 128 CHMAC_SHA512_Write _ key []); auto. now apply construct512_rep.
Qed.

Lemma hmac_digests_witness :
  fst (CHMAC_SHA256_Finalize (fold_left CHMAC_SHA256_Write [[72; 105]; [32]; [84]] (CHMAC_SHA256_construct (repeat 1 64) (repeat 2 64) (repeat 3 64) (repeat 0x0b 70)))) =
  HmacSpec.mac 64 Sha2Spec.sha256 (repeat 0x0b 70) [72; 105; 32; 84].
Proof.
  refine (proj1 (hmac_digests (repeat 1 64) (repeat 2 64) (repeat 3 64) (repeat 1 128) (repeat 2 128) (repeat 3 128)
    (repeat 0x0b 70) [[72; 105]; [32]; [84]] _ _ _ eq_refl _ eq_refl));
    repeat first [apply Forall_nil | apply Forall_cons]; solve [reflexivity | split; (lia || reflexivity)].
Defined.

(** The first test case of RFC 4231. *)
Example hmac_vector :
  firstn 4 (HmacSpec.mac 64 Sha2Spec.sha256 (repeat 0x0b 20) [72; 105; 32; 84; 104; 101; 114; 101]) = [0xb0; 0x34; 0x4c; 0x61].
Proof. vm_compute. reflexivity. Qed.

(** The derivation of a child key is the HMAC of the header byte, the data and the number
    in big-endian order. *)
Theorem BIP32Hash_hmac bo bi bk chainCode nChild header data :
  Forall (fun b => length b = 128%nat) [bo; bi; bk] -> length chainCode = 32%nat -> bytes chainCode ->
  word 32 nChild -> word 8 header -> length data = 32%nat -> bytes data ->
  BIP32Hash bo bi bk chainCode nChild header data =
  HmacSpec.mac 128 Sha2Spec.sha512 chainCode ([header] ++ data ++ be_bytes 4 nChild).
Proof.
  intros Hb Lc Hc Hn Hh Ld Hd.
  assert (En : [Z.shiftr nChild 24 &: 0xFF; Z.shiftr nChild 16 &: 0xFF; Z.shiftr nChild 8 &: 0xFF; Z.shiftr nChild 0 &: 0xFF] = be_bytes 4 nChild).
  { unfold be_bytes. cbn [le_split rev app]. change 0xFF with (Z.ones 8). rewrite !Z.land_ones, !Z.shiftr_div_pow2, Z.div_1_r by lia.
    rewrite !Z.div_div by lia. reflexivity. }
  assert (H512 : Forall (fun p => bytes p) [[header]; data; be_bytes 4 nChild]).
  { constructor; [constructor; [assumption | constructor]|]. constructor; [assumption|]. constructor; [apply bytes_be_bytes | constructor]. }
  unfold BIP32Hash. rewrite En. rewrite <- (app_nil_r (be_bytes 4 nChild)) at 2.
  change ([header] ++ data ++ be_bytes 4 nChild ++ []) with (concat [[header]; data; be_bytes 4 nChild]).
  apply Forall_cons_iff in Hb as [Ho Hb]. apply Forall_cons_iff in Hb as [Hi Hb]. apply Forall_inv in Hb.
  rewrite (CHMAC_SHA512_Finalize_ops bo).
  apply (hmac_finalize (HS := sha512_stream bo Ho) 128 64 (fun m _ => sha512_digest m)); [lia | lia | | assumption | now apply bytes_concat |].
  - apply (hmac_pieces (HS := sha512_stream bo Ho) 128 CHMAC_SHA512_Write _ chainCode [] [[header]; data; be_bytes 4 nChild]); auto.
    apply construct512_rep; auto. unfold sha_ok. rewrite Lc. reflexivity.
  - cbn [concat]. rewrite !length_app, length_be_bytes, Ld. reflexivity.
Qed.
