(* ===== verification/SipHash.v ===== *)
(** hash.cpp: MurmurHash3 and SipHash-2-4, with the reference definitions they compute. *)
From Stdlib Require Import ZifyNat.
From S2P Require Import Prelude SphTypes Stream CryptoCommon Uint256.
Import CryptoCommon Uint256.

(** * MurmurHash3 *)

Definition ROTL32 (x r : Z) : Z := w32 (Z.shiftl x r) |: Z.shiftr x (32 - r).

Definition murmur_c1 : Z := 0xcc9e2d51.
Definition murmur_c2 : Z := 0x1b873593.

(** The body of the loop over the whole blocks. *)
Definition murmur_block (data : list Z) (h1 : Z) (i : nat) : Z :=
  let k1 := ReadLE32 (skipn (i * 4) data) in
  let k1 := w32 (k1 * murmur_c1) in
  let k1 := ROTL32 k1 15 in
  let k1 := w32 (k1 * murmur_c2) in
  let h1 := h1 ^^ k1 in
  let h1 := ROTL32 h1 13 in
  w32 (h1 * 5 + 0xe6546b64).

(** The [switch] on the number of bytes that are left: its cases fall through. *)
Definition murmur_tail (size : nat) (tail : list Z) (h1 : Z) : Z :=
  let k1 := 0 in
  let n := Z.of_nat size &: 3 in
  let k1 := if n =? 3 then k1 ^^ Z.shiftl tail.[2] 16 else k1 in
  let k1 := if (n =? 3) || (n =? 2) then k1 ^^ Z.shiftl tail.[1] 8 else k1 in
  if (n =? 3) || (n =? 2) || (n =? 1) then
    let k1 := k1 ^^ tail.[0] in
    let k1 := w32 (k1 * murmur_c1) in
    let k1 := ROTL32 k1 15 in
    let k1 := w32 (k1 * murmur_c2) in
    h1 ^^ k1
  else h1.

(** [data] is shorter than 2^32, the size is reduced to the width of [h1]. *)
Definition MurmurHash3 (nHashSeed : Z) (data : list Z) : Z :=
  let h1 := nHashSeed in
  let nblocks := (length data / 4)%nat in
  let h1 := fold_left (murmur_block data) (seq 0 nblocks) h1 in
  let h1 := murmur_tail (length data) (skipn (nblocks * 4) data) h1 in
  let h1 := h1 ^^ w32 (Z.of_nat (length data)) in
  let h1 := h1 ^^ Z.shiftr h1 16 in
  let h1 := w32 (h1 * 0x85ebca6b) in
  let h1 := h1 ^^ Z.shiftr h1 13 in
  let h1 := w32 (h1 * 0xc2b2ae35) in
  h1 ^^ Z.shiftr h1 16.

(** * SipHash *)

Definition ROTL (x b : Z) : Z := w64 (Z.shiftl x b) |: Z.shiftr x (64 - b).

Definition sip_words : Type := Z * Z * Z * Z.

(** The macro on the local variables. *)
Definition SIPROUND (v : sip_words) : sip_words :=
  let '(v0, v1, v2, v3) := v in
  let v0 := w64 (v0 + v1) in let v1 := ROTL v1 13 in let v1 := v1 ^^ v0 in
  let v0 := ROTL v0 32 in
  let v2 := w64 (v2 + v3) in let v3 := ROTL v3 16 in let v3 := v3 ^^ v2 in
  let v0 := w64 (v0 + v3) in let v3 := ROTL v3 21 in let v3 := v3 ^^ v0 in
  let v2 := w64 (v2 + v1) in let v1 := ROTL v1 17 in let v1 := v1 ^^ v2 in
  let v2 := ROTL v2 32 in
  (v0, v1, v2, v3).

(** The members [v], [tmp] and [count]. *)
Record siphasher := {
  sip_v : sip_words;
  sip_tmp : Z;
  sip_count : Z
}.

(** [v3 ^= t; SIPROUND; SIPROUND; v0 ^= t]. *)
Definition sip_word (v : sip_words) (t : Z) : sip_words :=
  let '(v0, v1, v2, v3) := v in
  let v3 := v3 ^^ t in
  let '(v0, v1, v2, v3) := SIPROUND (SIPROUND (v0, v1, v2, v3)) in
  (v0 ^^ t, v1, v2, v3).

(** [v2 ^= 0xFF; SIPROUND; SIPROUND; SIPROUND; SIPROUND; return v0 ^ v1 ^ v2 ^ v3]. *)
Definition sip_end (v : sip_words) : Z :=
  let '(v0, v1, v2, v3) := v in
  let v2 := v2 ^^ 0xFF in
  let '(v0, v1, v2, v3) := SIPROUND (SIPROUND (SIPROUND (SIPROUND (v0, v1, v2, v3)))) in
  v0 ^^ v1 ^^ v2 ^^ v3.

Module CSipHasher.

Definition construct (k0 k1 : Z) : siphasher := {|
  sip_v := (0x736f6d6570736575 ^^ k0, 0x646f72616e646f6d ^^ k1, 0x6c7967656e657261 ^^ k0, 0x7465646279746573 ^^ k1);
  sip_tmp := 0;
  sip_count := 0
|}.

(** [Write] of a 64-bit integer; [None] when the assertion fails. *)
Definition Write_u64 (h : siphasher) (data : Z) : option siphasher :=
  if sip_count h mod 8 =? 0 then
    Some {| sip_v := sip_word (sip_v h) data; sip_tmp := sip_tmp h; sip_count := sip_count h + 8 |}
  else None.

(** The body of the loop of [Write] over bytes, on the local copies of the members;
    [count] is an [int] and stays below 2^31. *)
Definition Write_byte (l : siphasher) (b : Z) : siphasher :=
  let v := sip_v l in
  let t := sip_tmp l |: w64 (Z.shiftl b (8 * (sip_count l mod 8))) in
  let c := sip_count l + 1 in
  if c &: 7 =? 0 then {| sip_v := sip_word v t; sip_tmp := 0; sip_count := c |}
  else {| sip_v := v; sip_tmp := t; sip_count := c |}.
Definition Write (h : siphasher) (data : list Z) : siphasher := fold_left Write_byte data h.

Definition Finalize (h : siphasher) : Z :=
  let t := sip_tmp h |: w64 (Z.shiftl (w64 (sip_count h)) 56) in
  sip_end (sip_word (sip_v h) t).

End CSipHasher.

(** The specialised functions: the first word is mixed in where [v3] is initialised. *)
Definition SipHashUint256 (k0 k1 : Z) (val : list Z) : Z :=
  let d := GetUint64 val 0 in
  let v0 := 0x736f6d6570736575 ^^ k0 in
  let v1 := 0x646f72616e646f6d ^^ k1 in
  let v2 := 0x6c7967656e657261 ^^ k0 in
  let v3 := 0x7465646279746573 ^^ k1 ^^ d in
  let '(v0, v1, v2, v3) := SIPROUND (SIPROUND (v0, v1, v2, v3)) in
  let v0 := v0 ^^ d in
  let d := GetUint64 val 1 in
  let v3 := v3 ^^ d in
  let '(v0, v1, v2, v3) := SIPROUND (SIPROUND (v0, v1, v2, v3)) in
  let v0 := v0 ^^ d in
  let d := GetUint64 val 2 in
  let v3 := v3 ^^ d in
  let '(v0, v1, v2, v3) := SIPROUND (SIPROUND (v0, v1, v2, v3)) in
  let v0 := v0 ^^ d in
  let d := GetUint64 val 3 in
  let v3 := v3 ^^ d in
  let '(v0, v1, v2, v3) := SIPROUND (SIPROUND (v0, v1, v2, v3)) in
  let v0 := v0 ^^ d in
  let v3 := v3 ^^ w64 (Z.shiftl 4 59) in
  let '(v0, v1, v2, v3) := SIPROUND (SIPROUND (v0, v1, v2, v3)) in
  let v0 := v0 ^^ w64 (Z.shiftl 4 59) in
  let v2 := v2 ^^ 0xFF in
  let '(v0, v1, v2, v3) := SIPROUND (SIPROUND (SIPROUND (SIPROUND (v0, v1, v2, v3)))) in
  v0 ^^ v1 ^^ v2 ^^ v3.

Definition SipHashUint256Extra (k0 k1 : Z) (val : list Z) (extra : Z) : Z :=
  let d := GetUint64 val 0 in
  let v0 := 0x736f6d6570736575 ^^ k0 in
  let v1 := 0x646f72616e646f6d ^^ k1 in
  let v2 := 0x6c7967656e657261 ^^ k0 in
  let v3 := 0x7465646279746573 ^^ k1 ^^ d in
  let '(v0, v1, v2, v3) := SIPROUND (SIPROUND (v0, v1, v2, v3)) in
  let v0 := v0 ^^ d in
  let d := GetUint64 val 1 in
  let v3 := v3 ^^ d in
  let '(v0, v1, v2, v3) := SIPROUND (SIPROUND (v0, v1, v2, v3)) in
  let v0 := v0 ^^ d in
  let d := GetUint64 val 2 in
  let v3 := v3 ^^ d in
  let '(v0, v1, v2, v3) := SIPROUND (SIPROUND (v0, v1, v2, v3)) in
  let v0 := v0 ^^ d in
  let d := GetUint64 val 3 in
  let v3 := v3 ^^ d in
  let '(v0, v1, v2, v3) := SIPROUND (SIPROUND (v0, v1, v2, v3)) in
  let v0 := v0 ^^ d in
  let d := w64 (Z.shiftl 36 56) |: extra in
  let v3 := v3 ^^ d in
  let '(v0, v1, v2, v3) := SIPROUND (SIPROUND (v0, v1, v2, v3)) in
  let v0 := v0 ^^ d in
  let v2 := v2 ^^ 0xFF in
  let '(v0, v1, v2, v3) := SIPROUND (SIPROUND (SIPROUND (SIPROUND (v0, v1, v2, v3)))) in
  v0 ^^ v1 ^^ v2 ^^ v3.

(** * The references *)

(** SipHash-2-4 as Aumasson and Bernstein define it: the message is padded with zeros and
    the length modulo 256 to whole words, which are little-endian. *)
Module SipSpec.
Definition rotl (x b : Z) : Z := Z.shiftl x b mod 2 ^ 64 |: Z.shiftr x (64 - b).
Definition add (x y : Z) : Z := (x + y) mod 2 ^ 64.

(** A half round is an addition, a rotation and an exclusive or in each half. *)
Definition half (a b c d i j : Z) : Z * Z * Z * Z :=
  let a := add a b in
  let c := add c d in
  (rotl a 32, rotl b i ^^ a, c, rotl d j ^^ c).
Definition round (v : list Z) : list Z :=
  let '(a, b, c, d) := half v.[0] v.[1] v.[2] v.[3] 13 16 in
  let '(c, b, a, d) := half c b a d 17 21 in
  [a; b; c; d].

Definition compress (v m : list Z) : list Z :=
  let w := le_combine m in
  let v := Nat.iter 2 round [v.[0]; v.[1]; v.[2]; v.[3] ^^ w] in
  [v.[0] ^^ w; v.[1]; v.[2]; v.[3]].

(** The last word: the bytes that are left, zeros, and the length. *)
Definition last_word (rest : list Z) (n : nat) : list Z := rest ++ repeat 0 (7 - length rest) ++ [Z.of_nat n mod 256].

(** The constants are "somepseudorandomlygeneratedbytes". *)
Definition initial (k0 k1 : Z) : list Z :=
  [k0 ^^ 0x736f6d6570736575; k1 ^^ 0x646f72616e646f6d; k0 ^^ 0x6c7967656e657261; k1 ^^ 0x7465646279746573].

Definition siphash (k0 k1 : Z) (m : list Z) : Z :=
  let '(v, rest) := absorb 8 compress (initial k0 k1) m in
  let v := compress v (last_word rest (length m)) in
  let v := Nat.iter 4 round [v.[0]; v.[1]; v.[2] ^^ 0xff; v.[3]] in
  v.[0] ^^ v.[1] ^^ v.[2] ^^ v.[3].
End SipSpec.

(** MurmurHash3 for 32-bit platforms: the whole words and the bytes that are left are
    little-endian numbers. *)
Module MurmurSpec.
Definition mul (x y : Z) : Z := (x * y) mod 2 ^ 32.
Definition rotl (x r : Z) : Z := Z.shiftl x r mod 2 ^ 32 |: Z.shiftr x (32 - r).
Definition scramble (k : Z) : Z := mul (rotl (mul k 0xcc9e2d51) 15) 0x1b873593.
Definition step (h : Z) (b : list Z) : Z := (5 * rotl (h ^^ scramble (le_combine b)) 13 + 0xe6546b64) mod 2 ^ 32.
Definition fmix (h : Z) : Z :=
  let h := mul (h ^^ Z.shiftr h 16) 0x85ebca6b in
  let h := mul (h ^^ Z.shiftr h 13) 0xc2b2ae35 in
  h ^^ Z.shiftr h 16.
Definition murmur3 (seed : Z) (m : list Z) : Z :=
  let '(h, rest) := absorb 4 step seed m in
  fmix (h ^^ scramble (le_combine rest) ^^ Z.of_nat (length m)).
End MurmurSpec.

(** * SipHash computes its reference *)

Definition as_list (v : sip_words) : list Z := let '(a, b, c, d) := v in [a; b; c; d].

Lemma SIPROUND_spec v : as_list (SIPROUND v) = SipSpec.round (as_list v).
Proof. destruct v as [[[a b] c] d]. reflexivity. Qed.

Lemma sip_rounds_spec n a b c d : Nat.iter n SipSpec.round [a; b; c; d] = as_list (Nat.iter n SIPROUND (a, b, c, d)).
Proof. induction n as [|n IH]; [reflexivity|].
  change (SipSpec.round (Nat.iter n SipSpec.round [a; b; c; d]) = as_list (SIPROUND (Nat.iter n SIPROUND (a, b, c, d)))).
  now rewrite IH, SIPROUND_spec. Qed.

Lemma iter_2 {A} (f : A -> A) x : Nat.iter 2 f x = f (f x).
Proof. reflexivity. Qed.
Lemma iter_4 {A} (f : A -> A) x : Nat.iter 4 f x = f (f (f (f x))).
Proof. reflexivity. Qed.

Lemma sip_word_spec v m : as_list (sip_word v (le_combine m)) = SipSpec.compress (as_list v) m.
Proof.
  destruct v as [[[a b] c] d]. unfold sip_word, SipSpec.compress. cbv zeta. rewrite sip_rounds_spec, iter_2. cbn [as_list nth].
  destruct (SIPROUND (SIPROUND _)) as [[[x y] z] t]. reflexivity.
Qed.

Lemma sip_end_spec v :
  sip_end v =
  (let w := as_list v in let u := Nat.iter 4 SipSpec.round [w.[0]; w.[1]; w.[2] ^^ 0xff; w.[3]] in u.[0] ^^ u.[1] ^^ u.[2] ^^ u.[3]).
Proof.
  destruct v as [[[a b] c] d]. unfold sip_end. cbv zeta. rewrite sip_rounds_spec, iter_4. cbn [as_list nth].
  destruct (SIPROUND (SIPROUND (SIPROUND (SIPROUND _)))) as [[[x y] z] t]. reflexivity.
Qed.

(** A hasher that was fed the message [m]. *)
Definition sip_fed (k0 k1 : Z) (h : siphasher) (m : list Z) : Prop :=
  exists rest, absorb 8 SipSpec.compress (SipSpec.initial k0 k1) m = (as_list (sip_v h), rest) /\
  sip_tmp h = le_combine rest /\ sip_count h = Z.of_nat (length m).

Lemma construct_fed k0 k1 : sip_fed k0 k1 (CSipHasher.construct k0 k1) [].
Proof.
  exists []. cbn [CSipHasher.construct sip_v sip_tmp sip_count as_list]. split; [|now split].
  rewrite absorb_short by (cbn; lia). unfold SipSpec.initial. now rewrite !(Z.lxor_comm k0), !(Z.lxor_comm k1).
Qed.

(** Adding a byte, and the length, to the bytes that are left. *)
Lemma tmp_byte rest b :
  bytes rest -> word 8 b -> (length rest < 8)%nat ->
  le_combine rest |: w64 (Z.shiftl b (8 * Z.of_nat (length rest))) = le_combine (rest ++ [b]).
Proof.
  intros Hr Hb Hl. pose proof (le_combine_bound rest Hr) as Hw. unfold w64.
  rewrite Z.mod_small.
  - rewrite <- add_shiftl_lor, le_combine_app, le_combine_1 by (assumption || lia). lia.
  - rewrite Z.shiftl_mul_pow2 by lia. unfold word in Hb.
    assert (0 < 2 ^ (8 * Z.of_nat (length rest)) <= 2 ^ 56) by (split; [lia | apply Z.pow_le_mono_r; lia]).
    change (2 ^ 8) with 256 in Hb. change (2 ^ 64) with (256 * 2 ^ 56). nia.
Qed.

Lemma Write_byte_fed k0 k1 h m b :
  bytes m -> word 8 b -> sip_fed k0 k1 h m -> sip_fed k0 k1 (CSipHasher.Write_byte h b) (m ++ [b]).
Proof.
  intros Hm Hb (rest & Ha & Ht & Hc).
  pose proof (absorb_tail_mod 8 SipSpec.compress ltac:(lia) (SipSpec.initial k0 k1) m) as Hl. rewrite Ha in Hl. cbn [snd] in Hl.
  pose proof (absorb_tail_forall 8 SipSpec.compress ltac:(lia) (word 8) (SipSpec.initial k0 k1) m Hm) as Hr. rewrite Ha in Hr. cbn [snd] in Hr.
  assert (Hlt : (length rest < 8)%nat) by (rewrite Hl; apply Nat.mod_upper_bound; lia).
  assert (Em : Z.of_nat (length m) mod 8 = Z.of_nat (length rest)) by (rewrite Hl; lia).
  unfold CSipHasher.Write_byte. cbv zeta. rewrite Ht, Hc, Em, tmp_byte by assumption.
  change 7 with (Z.ones 3). rewrite Z.land_ones by lia. change (2 ^ 3) with 8.
  unfold sip_fed. rewrite absorb_app, Ha by lia. cbn [fst snd]. rewrite length_app. cbn [length].
  destruct (Z.eqb_spec ((Z.of_nat (length m) + 1) mod 8) 0) as [E|E]; cbn [sip_v sip_tmp sip_count].
  - exists []. split; [|split; [reflexivity | lia]]. rewrite <- (app_nil_r (rest ++ [b])), absorb_block_app, absorb_short by (rewrite ?length_app; cbn [length]; lia).
    now rewrite sip_word_spec, app_nil_r.
  - exists (rest ++ [b]). split; [|split; [reflexivity | lia]]. apply absorb_short; [lia|]. rewrite length_app. cbn [length]. lia.
Qed.

Lemma Write_sip_fed k0 k1 h m d :
  bytes m -> bytes d -> sip_fed k0 k1 h m -> sip_fed k0 k1 (CSipHasher.Write h d) (m ++ d).
Proof.
  intros Hm Hd. revert h m Hm. induction Hd as [|b d Hb _ IH]; intros h m Hm Hf; cbn [CSipHasher.Write fold_left]; [now rewrite app_nil_r|].
  change (b :: d) with ([b] ++ d). rewrite app_assoc. apply IH; [apply Forall_app; split; [assumption | now constructor]|].
  now apply Write_byte_fed.
Qed.

(** Writing a word is writing its eight bytes. *)
Lemma Write_u64_fed k0 k1 h m d h' :
  bytes m -> sip_fed k0 k1 h m -> length d = 8%nat -> CSipHasher.Write_u64 h (le_combine d) = Some h' -> sip_fed k0 k1 h' (m ++ d).
Proof.
  intros Hm (rest & Ha & Ht & Hc) Hd. unfold CSipHasher.Write_u64.
  destruct (Z.eqb_spec (sip_count h mod 8) 0) as [E|]; [|discriminate]. intros [= <-].
  pose proof (absorb_tail_mod 8 SipSpec.compress ltac:(lia) (SipSpec.initial k0 k1) m) as Hl. rewrite Ha in Hl. cbn [snd] in Hl.
  assert (rest = []) as -> by (apply length_zero_iff_nil; lia).
  exists []. cbn [sip_v sip_tmp sip_count]. rewrite absorb_app, Ha by lia. cbn [fst snd app]. rewrite length_app, Hd.
  split; [|split; [assumption | lia]]. rewrite <- (app_nil_r d), absorb_block_app, absorb_short by (cbn; lia).
  now rewrite sip_word_spec, app_nil_r.
Qed.

Lemma Finalize_sip k0 k1 h m : bytes m -> sip_fed k0 k1 h m -> CSipHasher.Finalize h = SipSpec.siphash k0 k1 m.
Proof.
  intros Hm (rest & Ha & Ht & Hc). unfold CSipHasher.Finalize, SipSpec.siphash. cbv zeta. rewrite Ha, Ht, Hc.
  pose proof (absorb_tail_mod 8 SipSpec.compress ltac:(lia) (SipSpec.initial k0 k1) m) as Hl. rewrite Ha in Hl. cbn [snd] in Hl.
  pose proof (absorb_tail_forall 8 SipSpec.compress ltac:(lia) (word 8) (SipSpec.initial k0 k1) m Hm) as Hr. rewrite Ha in Hr. cbn [snd] in Hr.
  assert (E : le_combine rest |: w64 (Z.shiftl (w64 (Z.of_nat (length m))) 56) = le_combine (SipSpec.last_word rest (length m))).
  { assert (Hlt : (length rest < 8)%nat) by (rewrite Hl; apply Nat.mod_upper_bound; lia).
    unfold SipSpec.last_word. set (z := repeat 0 (7 - length rest)).
    assert (Hz : bytes z) by (apply Forall_forall; intros x Hx; apply repeat_spec in Hx; rewrite Hx; now split).
    replace (le_combine rest) with (le_combine (rest ++ z)).
    - rewrite app_assoc, <- tmp_byte; [| now apply Forall_app | apply Z.mod_pos_bound; lia | unfold z; rewrite length_app, repeat_length; lia].
      f_equal. replace (8 * Z.of_nat (length (rest ++ z))) with 56 by (unfold z; rewrite length_app, repeat_length; lia).
      unfold w64. rewrite !Z.shiftl_mul_pow2, (Z.mul_mod_idemp_l _ (2 ^ 56)) by lia.
      change (2 ^ 64) with (256 * 2 ^ 56). rewrite !Z.mul_mod_distr_r, Z.mod_mod by lia. reflexivity.
    - rewrite le_combine_app. unfold z. rewrite <- le_split_zero, le_combine_split, Z.mod_0_l by lia. lia. }
  rewrite E, sip_end_spec, sip_word_spec. reflexivity.
Qed.

(** ** The specialised functions *)

Lemma or_byte rest b n :
  bytes rest -> n = 8 * Z.of_nat (length rest) -> le_combine rest |: Z.shiftl b n = le_combine (rest ++ [b]).
Proof.
  intros Hr ->. rewrite <- add_shiftl_lor, le_combine_app, le_combine_1 by (lia || exact (le_combine_bound rest Hr)). lia.
Qed.

Lemma GetUint64_spec val pos :
  bytes val -> (8 * pos + 8 <= length val)%nat -> GetUint64 val pos = le_combine (firstn 8 (skipn (8 * pos) val)).
Proof.
  intros Hv Hl. unfold GetUint64. cbv zeta. rewrite (Nat.mul_comm pos 8).
  assert (Hd : bytes (skipn (8 * pos) val)) by now apply Forall_drop.
  assert (Ll : (8 <= length (skipn (8 * pos) val))%nat) by (rewrite length_skipn; lia). revert Hd Ll.
  generalize (skipn (8 * pos) val). clear. intros l Hd Ll.
  do 8 (destruct l as [|? l]; [cbn [length] in Ll; lia|]). cbn [firstn nth].
  repeat match goal with H : bytes (_ :: _) |- _ => apply Forall_cons_iff in H as [? H] end.
  match goal with |- ?a |: _ |: _ |: _ |: _ |: _ |: _ |: _ = _ => rewrite <- (le_combine_1 a) at 1 end.
  rewrite !or_byte by (cbn [app]; first [reflexivity | repeat (apply Forall_cons; [assumption|]); apply Forall_nil]). reflexivity.
Qed.

Lemma sip_word_eq a b c d t :
  sip_word (a, b, c, d) t = (let '(v0, v1, v2, v3) := SIPROUND (SIPROUND (a, b, c, d ^^ t)) in (v0 ^^ t, v1, v2, v3)).
Proof. reflexivity. Qed.

Lemma sip_end_eq a b c d :
  sip_end (a, b, c, d) =
  (let '(v0, v1, v2, v3) := SIPROUND (SIPROUND (SIPROUND (SIPROUND (a, b, c ^^ 0xFF, d)))) in v0 ^^ v1 ^^ v2 ^^ v3).
Proof. reflexivity. Qed.

Ltac sip_steps :=
  repeat (rewrite sip_word_eq; match goal with |- context [SIPROUND (SIPROUND (?a, ?b, ?c, ?d))] =>
    generalize (SIPROUND (SIPROUND (a, b, c, d))); intros [[[? ?] ?] ?] end); rewrite sip_end_eq.

Definition sip_start (k0 k1 : Z) : sip_words := sip_v (CSipHasher.construct k0 k1).

Lemma SipHashUint256_words k0 k1 val :
  SipHashUint256 k0 k1 val =
  sip_end (sip_word (fold_left sip_word (map (GetUint64 val) (seq 0 4)) (sip_start k0 k1)) (w64 (Z.shiftl 4 59))).
Proof.
  unfold SipHashUint256, sip_start, CSipHasher.construct. cbn [sip_v seq map fold_left]. cbv zeta. sip_steps. reflexivity.
Qed.

Lemma SipHashUint256Extra_words k0 k1 val extra :
  SipHashUint256Extra k0 k1 val extra =
  sip_end (sip_word (fold_left sip_word (map (GetUint64 val) (seq 0 4)) (sip_start k0 k1)) (w64 (Z.shiftl 36 56) |: extra)).
Proof.
  unfold SipHashUint256Extra, sip_start, CSipHasher.construct. cbn [sip_v seq map fold_left]. cbv zeta. sip_steps. reflexivity.
Qed.

(** The state after the four words of a 256-bit value. *)
Lemma four_words k0 k1 val :
  bytes val -> length val = 32%nat ->
  absorb 8 SipSpec.compress (SipSpec.initial k0 k1) val =
  (as_list (fold_left sip_word (map (GetUint64 val) (seq 0 4)) (sip_start k0 k1)), []).
Proof.
  intros Hv Hl. cbn [seq map fold_left]. rewrite !GetUint64_spec, !sip_word_spec by (assumption || lia).
  destruct (construct_fed k0 k1) as (r & Ha & _). rewrite absorb_short in Ha by (cbn; lia). apply (f_equal fst) in Ha. cbn [fst] in Ha.
  unfold sip_start. rewrite <- Ha. do 4 (rewrite absorb_block by (rewrite ?length_skipn; lia); rewrite ?skipn_skipn).
  rewrite absorb_short by (rewrite ?length_skipn; lia). cbn [Nat.add Nat.mul].
  now rewrite (skipn_all2 (n := 32)) by lia.
Qed.

Lemma pieces_fed k0 k1 pieces h m :
  Forall (fun p => bytes p) pieces -> bytes m -> sip_fed k0 k1 h m ->
  bytes (m ++ concat pieces) /\ sip_fed k0 k1 (fold_left CSipHasher.Write pieces h) (m ++ concat pieces).
Proof.
  intros Hp. revert h m. induction Hp as [|p ps Hb _ IH]; intros h m Hm Hf; cbn [fold_left concat]; [now rewrite app_nil_r|].
  rewrite app_assoc. apply IH; [now apply Forall_app | now apply Write_sip_fed].
Qed.

(** The last words of the specialised functions. *)
Lemma last_32 : w64 (Z.shiftl 4 59) = le_combine (SipSpec.last_word [] 32).
Proof. vm_compute. reflexivity. Qed.

Lemma last_36 extra : word 32 extra -> w64 (Z.shiftl 36 56) |: extra = le_combine (SipSpec.last_word (le_split 4 extra) 36).
Proof.
  intros Hx. unfold SipSpec.last_word. rewrite length_le_split, le_combine_app, le_combine_split, length_le_split.
  change (8 * Z.of_nat 4) with 32. rewrite Z.mod_small by exact Hx.
  change (w64 (Z.shiftl 36 56)) with (Z.shiftl (36 * 2 ^ 24) 32). rewrite Z.lor_comm, <- add_shiftl_lor by (lia || exact Hx).
  replace (le_combine (repeat 0 (7 - 4) ++ [Z.of_nat 36 mod 256])) with (36 * 2 ^ 24) by (vm_compute; reflexivity). lia.
Qed.

(** SipHash: a [CSipHasher], written to in any pieces, returns the SipHash-2-4 of the
    message under its key, and the functions that are specialised for a 256-bit value,
    alone or followed by a 32-bit integer, return the SipHash-2-4 of its bytes. *)
Theorem siphash_spec k0 k1 pieces val extra :
  Forall (fun p => bytes p) pieces -> bytes val -> length val = 32%nat -> word 32 extra ->
  CSipHasher.Finalize (fold_left CSipHasher.Write pieces (CSipHasher.construct k0 k1)) = SipSpec.siphash k0 k1 (concat pieces) /\
  SipHashUint256 k0 k1 val = SipSpec.siphash k0 k1 val /\
  SipHashUint256Extra k0 k1 val extra = SipSpec.siphash k0 k1 (val ++ le_split 4 extra).
Proof.
  intros Hp Hv Hl Hx. pose proof (four_words k0 k1 val Hv Hl) as H4. split; [|split].
  - destruct (pieces_fed k0 k1 pieces _ [] Hp ltac:(constructor) (construct_fed k0 k1)) as [Hb Hf]. now apply Finalize_sip.
  - rewrite SipHashUint256_words, sip_end_spec, last_32, sip_word_spec. unfold SipSpec.siphash. rewrite H4, Hl. reflexivity.
  - rewrite SipHashUint256Extra_words, sip_end_spec, last_36, sip_word_spec by assumption.
    unfold SipSpec.siphash. rewrite absorb_app, H4 by lia. cbn [fst snd app].
    rewrite absorb_short by (rewrite ?length_le_split; lia). rewrite length_app, length_le_split, Hl. reflexivity.
Qed.

Lemma siphash_spec_witness :
  SipHashUint256Extra 1 2 (repeat 7 32) 9 = SipSpec.siphash 1 2 (repeat 7 32 ++ le_split 4 9).
Proof.
  refine (proj2 (proj2 (siphash_spec 1 2 [] (repeat 7 32) 9 (Forall_nil _) _ eq_refl _))); [|now split].
  repeat first [apply Forall_nil | apply Forall_cons]; now split.
Defined.

(** Vectors of the reference implementation. *)
Example siphash_vectors :
  SipSpec.siphash 0x0706050403020100 0x0F0E0D0C0B0A0908 [] = 0x726fdb47dd0e0e31 /\
  SipSpec.siphash 0x0706050403020100 0x0F0E0D0C0B0A0908 (map Z.of_nat (seq 0 8)) = 0x93f5f5799a932462.
Proof. split; vm_compute; reflexivity. Qed.

(** * MurmurHash3 computes its reference *)

Lemma fold_left_map {A B C} (f : A -> C -> A) (g : B -> C) l a : fold_left f (map g l) a = fold_left (fun a b => f a (g b)) l a.
Proof. revert a; induction l as [|b l IH]; intros a; [reflexivity | apply IH]. Qed.

Lemma absorb_seq {St} size (f : St -> list Z -> St) st m :
  (0 < size)%nat ->
  absorb size f st m =
  (fold_left (fun s i => f s (firstn size (skipn (i * size) m))) (seq 0 (length m / size)) st, skipn (length m / size * size) m).
Proof.
  intros Hs. revert st m.
  apply (absorb_ind size f Hs (fun st m => absorb size f st m =
    (fold_left (fun s i => f s (firstn size (skipn (i * size) m))) (seq 0 (length m / size)) st, skipn (length m / size * size) m))).
  - intros st m Hm. rewrite Nat.div_small, absorb_short by assumption. reflexivity.
  - intros st b m Hb IH. rewrite absorb_block_app, IH by assumption. rewrite length_app, Hb.
    replace (size + length m)%nat with (length m + 1 * size)%nat by lia. rewrite Nat.div_add, Nat.add_1_r by lia.
    cbn [seq fold_left]. rewrite <- seq_shift, fold_left_map. cbn [Nat.mul]. rewrite skipn_O.
    rewrite (firstn_app size b), Hb, Nat.sub_diag, firstn_O, app_nil_r, (firstn_all2 b) by lia. f_equal.
    + generalize (seq 0 (length m / size)) as l, (f st b) as s. intros l. induction l as [|i l IHl]; intros s; [reflexivity|].
      cbn [fold_left]. rewrite IHl. do 3 f_equal. cbn [Nat.mul]. rewrite skipn_app, Hb, (skipn_all2 b) by lia. cbn [app]. f_equal. lia.
    + rewrite skipn_app, Hb, (skipn_all2 b) by lia. cbn [app]. f_equal. lia.
Qed.

Lemma ROTL32_spec x r : ROTL32 x r = MurmurSpec.rotl x r.
Proof. reflexivity. Qed.

Lemma murmur_block_spec data h i : murmur_block data h i = MurmurSpec.step h (firstn 4 (skipn (i * 4) data)).
Proof. unfold murmur_block, MurmurSpec.step. cbv zeta. rewrite (Z.mul_comm _ 5). reflexivity. Qed.

Lemma add_shiftl_lxor n b t : 0 <= n -> word n b -> b ^^ Z.shiftl t n = b + t * 2 ^ n.
Proof.
  intros Hn Hb. rewrite add_shiftl_lor by assumption. symmetry. apply Z.bits_inj'. intros i Hi. rewrite Z.lor_spec, Z.lxor_spec.
  destruct (Z.lt_ge_cases i n); [rewrite Z.shiftl_spec_low by lia; now rewrite orb_false_r, xorb_false_r|].
  rewrite (word_testbit_high n b) by (assumption || lia). reflexivity.
Qed.

Lemma murmur_tail_spec size tail h :
  bytes tail -> length tail = (size mod 4)%nat -> murmur_tail size tail h = h ^^ MurmurSpec.scramble (le_combine tail).
Proof.
  intros Ht Hl. unfold murmur_tail. change 3 with (Z.ones 2). rewrite Z.land_ones by lia. change (2 ^ 2) with (Z.of_nat 4).
  rewrite <- Nat2Z.inj_mod, <- Hl. assert (Hlt : (length tail < 4)%nat) by (rewrite Hl; apply Nat.mod_upper_bound; lia). clear Hl.
  assert (E : forall k, k = le_combine tail ->
    h ^^ w32 (ROTL32 (w32 (k * murmur_c1)) 15 * murmur_c2) = h ^^ MurmurSpec.scramble (le_combine tail)) by now intros k ->.
  destruct tail as [|a [|b [|c [|d tail]]]]; cbn [length] in Hlt; [| | | |lia].
  - cbn. now rewrite Z.lxor_0_r.
  - apply E. exact (eq_trans (Z.lxor_0_l a) (eq_sym (le_combine_1 a))).
  - apply Forall_cons_iff in Ht as [Ha Ht]. apply E. change (0 ^^ Z.shiftl b 8 ^^ a = le_combine [a; b]).
    rewrite Z.lxor_0_l, Z.lxor_comm, add_shiftl_lxor by (lia || assumption).
    cbn [le_combine]. lia.
  - apply Forall_cons_iff in Ht as [Ha Ht]. apply Forall_cons_iff in Ht as [Hb Ht]. apply E.
    change (0 ^^ Z.shiftl c 16 ^^ Z.shiftl b 8 ^^ a = le_combine [a; b; c]). rewrite Z.lxor_0_l, Z.lxor_comm, (Z.lxor_comm (Z.shiftl c 16)), <- Z.lxor_assoc.
    rewrite (add_shiftl_lxor 8) by (lia || assumption). rewrite add_shiftl_lxor by (unfold word in *; lia).
    cbn [le_combine]. lia.
Qed.

(** MurmurHash3: the function with its fall-through [switch] is MurmurHash3 of the
    message and the seed. *)
Theorem MurmurHash3_spec seed data :
  bytes data -> Z.of_nat (length data) < 2 ^ 32 -> MurmurHash3 seed data = MurmurSpec.murmur3 seed data.
Proof.
  intros Hd Hl. unfold MurmurHash3, MurmurSpec.murmur3. cbv zeta. rewrite absorb_seq by lia.
  rewrite (fold_left_ext_in (murmur_block data) (fun s i => MurmurSpec.step s (firstn 4 (skipn (i * 4) data)))) by (intros; apply murmur_block_spec).
  rewrite murmur_tail_spec; [| now apply Forall_drop | rewrite length_skipn, (Nat.div_mod_eq (length data) 4) at 1; lia].
  assert (E : w32 (Z.of_nat (length data)) = Z.of_nat (length data)) by (apply Z.mod_small; lia).
  rewrite E. reflexivity.
Qed.

Lemma MurmurHash3_spec_witness : MurmurHash3 5 [1; 2; 3; 4; 5; 6; 7] = MurmurSpec.murmur3 5 [1; 2; 3; 4; 5; 6; 7].
Proof.
  apply MurmurHash3_spec; [|reflexivity]. repeat first [apply Forall_nil | apply Forall_cons]; now split.
Defined.

(** Vectors of hash_tests.cpp. *)
Example murmur_vectors :
  map (fun n => MurmurHash3 0 (firstn n [0x00; 0x11; 0x22; 0x33; 0x44; 0x55; 0x66; 0x77; 0x88])) (seq 1 9) =
  [0x514e28b7; 0x16c6b7ab; 0x8eb51c3d; 0xb4471bf8; 0xe2301fa8; 0xfc2e4a15; 0xb074502c; 0x8034d2a0; 0xb4698def].
Proof. vm_compute. reflexivity. Qed.
