(* ===== verification/Merkle.v ===== *)
(** consensus/merkle.cpp: the Merkle root and branch of a block in constant space. *)
From Stdlib Require Import ZifyNat.
From S2P Require Import Prelude CryptoCommon Hasher Sha256 Uint256 HashClasses.
Import CryptoCommon Hasher Uint256.

Module Merkle.

Definition uint256 : Type := list Z.
Definition null256 : uint256 := repeat 0 32.

Section Merkle.
(** [CHash256().Write(l.begin(), 32).Write(r.begin(), 32).Finalize(...)]. *)
Context (combine : uint256 -> uint256 -> uint256).

(** [count & (((uint32_t)1) << level)]. *)
Definition bit (count : Z) (level : nat) : bool := negb (count &: w32 (Z.shiftl 1 (Z.of_nat level)) =? 0).

(** The lines that record the branch before [inner[level]] and [h] are combined; [None] is
    a null [pbranch]. They set the branch and [matchh]. *)
Definition note (pbranch : option (list uint256)) (matchh : bool) (matchlevel : Z) (level : nat) (left h : uint256) : option (list uint256) * bool :=
  match pbranch with
  | None => (None, matchh)
  | Some branch =>
      if matchh then (Some (branch ++ [left]), matchh)
      else if matchlevel =? Z.of_nat level then (Some (branch ++ [h]), true)
      else (Some branch, matchh)
  end.

(** The loop over the lower bits of [count] that are 0: [level], [h], [matchh], [mutated]
    and the branch after it. *)
Fixpoint add_levels (fuel : nat) (count : Z) (inner : list uint256) (matchlevel : Z)
    (level : nat) (h : uint256) (matchh mutated : bool) (pbranch : option (list uint256))
  : option (nat * uint256 * bool * bool * option (list uint256)) :=
  match fuel with
  | O => None
  | S fuel =>
      if bit count level then Some (level, h, matchh, mutated, pbranch)
      else
        let left := nth level inner null256 in
        let '(pbranch, matchh) := note pbranch matchh matchlevel level left h in
        let mutated := mutated || op_eq 32 left h in
        add_levels fuel count inner matchlevel (S level) (combine left h) matchh mutated pbranch
  end.

(** The locals of the first loop, with [count] leaves processed. *)
Record state := {
  count : Z;
  inner : list uint256;
  matchlevel : Z;
  mutated : bool;
  pbranch : option (list uint256)
}.

(** The body of the loop over the leaves. *)
Definition add_leaf (branchpos : Z) (h : uint256) (st : state) : option state :=
  let matchh := count st =? branchpos in
  let count := w32 (count st + 1) in
  match add_levels 33 count (inner st) (matchlevel st) 0 h matchh (mutated st) (pbranch st) with
  | None => None
  | Some (level, h, matchh, mutated, pbranch) =>
      Some {| count := count; inner := upd (inner st) level h;
              matchlevel := if matchh then Z.of_nat level else matchlevel st; mutated := mutated; pbranch := pbranch |}
  end.

Fixpoint add_leaves (branchpos : Z) (leaves : list uint256) (st : state) : option state :=
  match leaves with
  | [] => Some st
  | h :: leaves => match add_leaf branchpos h st with None => None | Some st => add_leaves branchpos leaves st end
  end.

(** [while (!(count & (((uint32_t)1) << level))) level++]. *)
Fixpoint lowest_level (fuel : nat) (count : Z) (level : nat) : option nat :=
  match fuel with
  | O => None
  | S fuel => if bit count level then Some level else lowest_level fuel count (S level)
  end.

(** The inner loop of the final sweep. *)
Fixpoint sweep_levels (fuel : nat) (count : Z) (inner : list uint256) (matchlevel : Z)
    (level : nat) (h : uint256) (matchh : bool) (pbranch : option (list uint256))
  : option (nat * uint256 * bool * option (list uint256)) :=
  match fuel with
  | O => None
  | S fuel =>
      if bit count level then Some (level, h, matchh, pbranch)
      else
        let left := nth level inner null256 in
        let '(pbranch, matchh) := note pbranch matchh matchlevel level left h in
        sweep_levels fuel count inner matchlevel (S level) (combine left h) matchh pbranch
  end.

(** The final sweep: the root and the branch. *)
Fixpoint sweep (fuel : nat) (count : Z) (inner : list uint256) (matchlevel : Z)
    (level : nat) (h : uint256) (matchh : bool) (pbranch : option (list uint256))
  : option (uint256 * option (list uint256)) :=
  match fuel with
  | O => None
  | S fuel =>
      if count =? w32 (Z.shiftl 1 (Z.of_nat level)) then Some (h, pbranch)
      else
        let pbranch := match pbranch with Some branch => Some (if matchh then branch ++ [h] else branch) | None => None end in
        let h := combine h h in
        let count := w32 (count + w32 (Z.shiftl 1 (Z.of_nat level))) in
        match sweep_levels 33 count inner matchlevel (S level) h matchh pbranch with
        | None => None
        | Some (level, h, matchh, pbranch) => sweep fuel count inner matchlevel level h matchh pbranch
        end
  end.

(** The root, [mutated] and the branch; [None] when a loop does not end. There are fewer
    than 2^32 leaves. *)
Definition MerkleComputation (leaves : list uint256) (branchpos : Z) (pbranch : option (list uint256))
  : option (uint256 * bool * option (list uint256)) :=
  let pbranch := match pbranch with Some _ => Some [] | None => None end in
  if (length leaves =? 0)%nat then Some (null256, false, pbranch)
  else
    match add_leaves branchpos leaves {| count := 0; inner := repeat null256 32; matchlevel := -1; mutated := false; pbranch := pbranch |} with
    | None => None
    | Some st =>
        match lowest_level 33 (count st) 0 with
        | None => None
        | Some level =>
            let h := nth level (inner st) null256 in
            let matchh := matchlevel st =? Z.of_nat level in
            match sweep 33 (count st) (inner st) (matchlevel st) level h matchh (Merkle.pbranch st) with
            | None => None
            | Some (h, pbranch) => Some (h, mutated st, pbranch)
            end
        end
    end.

(** The root and [*mutated]; the branch position [-1] is converted to [uint32_t]. *)
Definition ComputeMerkleRoot (leaves : list uint256) : option (uint256 * bool) :=
  match MerkleComputation leaves (w32 (-1)) None with
  | Some (hash, mutated, _) => Some (hash, mutated)
  | None => None
  end.

Definition ComputeMerkleBranch (leaves : list uint256) (position : Z) : option (list uint256) :=
  match MerkleComputation leaves position (Some []) with
  | Some (_, _, Some ret) => Some ret
  | _ => None
  end.

(** [Hash] of two ranges is the same double hash. *)
Fixpoint ComputeMerkleRootFromBranch (hash : uint256) (vMerkleBranch : list uint256) (nIndex : Z) : uint256 :=
  match vMerkleBranch with
  | [] => hash
  | it :: vMerkleBranch =>
      let hash := if negb (nIndex &: 1 =? 0) then combine it hash else combine hash it in
      ComputeMerkleRootFromBranch hash vMerkleBranch (Z.shiftr nIndex 1)
  end.

End Merkle.

(** The two arguments of the hash. *)
Definition combine_Hash (buf : list Z) (l r : uint256) : uint256 :=
  fst (CHash256_Finalize (CHash256_Write (CHash256_Write (Sha256.CSHA256 buf) l) r)).

(** [leaves] are the hashes of the transactions of a block. *)
Definition BlockMerkleRoot (buf : list Z) (vtx : list uint256) : option (uint256 * bool) := ComputeMerkleRoot (combine_Hash buf) vtx.
Definition BlockMerkleBranch (buf : list Z) (vtx : list uint256) (position : Z) : option (list uint256) :=
  ComputeMerkleBranch (combine_Hash buf) vtx position.

End Merkle.
