(* ===== verification/MerkleTrees.v ===== *)
(** Merkle trees: the levels and the tree from the top down have the same root, a branch
    leads from its leaf to the root, and lists of leaves without twins that have the same
    root are the same list, unless two of the pairs hashed in the two trees have the same
    hash or a leaf of the one tree is the hash of a pair of the other. *)
From Stdlib Require Import ZifyNat.
From S2P Require Import Prelude.

Module MerkleSpec.
Section Spec.
Context {A : Type} (null : A) (combine : A -> A -> A).

(** ** Level by level *)

(** A level from the one below: neighbours are combined, a last one without a neighbour is
    combined with itself. *)
Fixpoint pairs (l : list A) : list A :=
  match l with
  | [] => []
  | [a] => [combine a a]
  | a :: b :: l => combine a b :: pairs l
  end.

(** The root: one level after the other until there is one hash. *)
Fixpoint levels (fuel : nat) (l : list A) : A :=
  match l with
  | [] => null
  | [a] => a
  | _ => match fuel with O => null | S fuel => levels fuel (pairs l) end
  end.
Definition root (l : list A) : A := levels (length l) l.

(** ** From the top down *)

(** The root of a tree of height [k] with between 1 and 2^k leaves: when they all are in
    the left half, the right half is the same. *)
Fixpoint mroot (k : nat) (l : list A) : A :=
  match k with
  | O => hd null l
  | S k =>
      if (length l <=? 2 ^ k)%nat then combine (mroot k l) (mroot k l)
      else combine (mroot k (firstn (2 ^ k) l)) (mroot k (skipn (2 ^ k) l))
  end.

(** The siblings on the path from leaf [pos] to the root, from the bottom up. *)
Fixpoint mbranch (k : nat) (l : list A) (pos : nat) : list A :=
  match k with
  | O => []
  | S k =>
      if (length l <=? 2 ^ k)%nat then mbranch k l pos ++ [mroot k l]
      else if (pos <? 2 ^ k)%nat then mbranch k (firstn (2 ^ k) l) pos ++ [mroot k (skipn (2 ^ k) l)]
      else mbranch k (skipn (2 ^ k) l) (pos - 2 ^ k) ++ [mroot k (firstn (2 ^ k) l)]
  end.

Definition height (n : nat) : nat := Nat.log2_up n.

(** ** Duplications *)

Definition seg (l : list A) (s n : nat) : list A := firstn n (skipn s l).

(** At [s] there are two whole subtrees of height [k] next to each other, children of the
    same node, with equal roots. *)
Definition twins (l : list A) (k s : nat) : Prop :=
  (s mod 2 ^ S k = 0)%nat /\ (s + 2 ^ S k <= length l)%nat /\ mroot k (seg l s (2 ^ k)%nat) = mroot k (seg l (s + 2 ^ k)%nat (2 ^ k)).
Definition has_twins (l : list A) : Prop := exists k s, twins l k s.

(** ** What is hashed *)

(** The pairs that are hashed in a tree of height [k]. *)
Fixpoint nodes (k : nat) (l : list A) : list (A * A) :=
  match k with
  | O => []
  | S k =>
      if (length l <=? 2 ^ k)%nat then (mroot k l, mroot k l) :: nodes k l
      else (mroot k (firstn (2 ^ k) l), mroot k (skipn (2 ^ k) l)) :: nodes k (firstn (2 ^ k) l) ++ nodes k (skipn (2 ^ k) l)
  end.
Definition tree_nodes (l : list A) : list (A * A) := nodes (height (length l)) l.

Definition hash_of (p : A * A) : A := combine (fst p) (snd p).

(** Two of the given pairs are different and have the same hash. *)
Definition collision_in (N : list (A * A)) : Prop :=
  exists p q, In p N /\ In q N /\ p <> q /\ hash_of p = hash_of q.
(** A leaf of the first tree is the hash of a pair of the second one. *)
Definition leaf_is_node (l1 l2 : list A) : Prop :=
  exists x p, In x l1 /\ In p (tree_nodes l2) /\ x = hash_of p.
End Spec.
End MerkleSpec.

Import MerkleSpec.

Implicit Types k : nat.

Lemma pow2_pos k : (0 < 2 ^ k)%nat.
Proof. pose proof (Nat.pow_nonzero 2 k). lia. Qed.

Lemma pow2_S k : (2 ^ S k = 2 * 2 ^ k)%nat.
Proof. apply Nat.pow_succ_r'. Qed.

(** The height of the tree of [n] leaves. *)
Lemma height_spec n : (0 < n)%nat -> (n <= 2 ^ height n < 2 * n)%nat.
Proof.
  intros Hn. unfold height. destruct (Nat.eq_dec n 1) as [->|E]; [cbn; lia|].
  pose proof (Nat.log2_up_spec n ltac:(lia)) as [H1 H2]. destruct (Nat.log2_up n) as [|k] eqn:Ek; [cbn in H2; lia|].
  cbn [Nat.pred] in H1. rewrite pow2_S in *. lia.
Qed.

Lemma height_unique n k : (n <= 2 ^ k < 2 * n)%nat -> k = height n.
Proof.
  intros H. pose proof (height_spec n ltac:(lia)) as Hh. set (h := height n) in *.
  destruct (Nat.lt_trichotomy k h) as [L|[->|L]]; [|reflexivity|].
  - pose proof (Nat.pow_le_mono_r 2 (S k) h ltac:(lia) L) as P. rewrite pow2_S in P. lia.
  - pose proof (Nat.pow_le_mono_r 2 (S h) k ltac:(lia) L) as P. rewrite pow2_S in P. lia.
Qed.

Section Trees.
Context {A : Type} (null : A) (combine : A -> A -> A).
Local Abbreviation mroot := (mroot null combine).
Local Abbreviation mbranch := (mbranch null combine).
Local Abbreviation pairs := (pairs combine).
Local Abbreviation levels := (levels null combine).
Implicit Types (l a b : list A).

(** The two cases of a tree of height [S k]. *)
Lemma mroot_half k l : (length l <= 2 ^ k)%nat -> mroot (S k) l = combine (mroot k l) (mroot k l).
Proof. intros H. cbn [MerkleSpec.mroot]. destruct (Nat.leb_spec (length l) (2 ^ k)); [reflexivity | lia]. Qed.

Lemma mroot_app k a b :
  length a = (2 ^ k)%nat -> (0 < length b)%nat -> mroot (S k) (a ++ b) = combine (mroot k a) (mroot k b).
Proof.
  intros Ha Hb. cbn [MerkleSpec.mroot]. rewrite length_app. destruct (Nat.leb_spec (length a + length b) (2 ^ k)); [lia|].
  rewrite <- Ha, firstn_app, skipn_app, Nat.sub_diag, firstn_O, skipn_O, app_nil_r, firstn_all, skipn_all. reflexivity.
Qed.

(** ** Level by level and from the top down *)

Lemma length_pairs l : length (pairs l) = ((length l + 1) / 2)%nat.
Proof.
  assert (H : forall n l, (length l < n)%nat -> length (pairs l) = ((length l + 1) / 2)%nat); [|apply (H (S (length l))); lia].
  clear l. induction n as [|n IH]; intros l Hl; [lia|]. destruct l as [|x [|y l]]; [reflexivity..|].
  cbn [MerkleSpec.pairs length] in *. rewrite IH by lia.
  replace (S (S (length l)) + 1)%nat with (length l + 1 + 1 * 2)%nat by lia. rewrite Nat.div_add by lia. lia.
Qed.

Lemma pairs_app n a b : length a = (2 * n)%nat -> pairs (a ++ b) = pairs a ++ pairs b.
Proof.
  revert a; induction n as [|n IH]; intros a Ha; [destruct a; [reflexivity | cbn in Ha; lia]|].
  destruct a as [|x [|y a]]; cbn [length] in Ha; [lia..|]. cbn [app MerkleSpec.pairs]. f_equal. apply IH. lia.
Qed.

(** A tree of more than half the leaves as its two subtrees. *)
Lemma split_half k l :
  (2 ^ k < length l <= 2 ^ S k)%nat ->
  exists a b, l = a ++ b /\ length a = (2 ^ k)%nat /\ (0 < length b <= 2 ^ k)%nat.
Proof.
  rewrite pow2_S. intros H. exists (firstn (2 ^ k) l), (skipn (2 ^ k) l).
  rewrite firstn_skipn, length_firstn, length_skipn. repeat split; lia.
Qed.

Lemma mroot_pairs k l : (0 < length l <= 2 ^ S k)%nat -> mroot (S k) l = mroot k (pairs l).
Proof.
  revert l; induction k as [|k IH]; intros l Hl.
  - change (2 ^ 1)%nat with 2%nat in Hl. destruct l as [|x [|y [|z l]]]; cbn [length] in Hl; [lia | reflexivity | reflexivity | lia].
  - pose proof (pow2_S k). destruct (Nat.le_gt_cases (length l) (2 ^ S k)) as [Hs|Hb].
    + rewrite mroot_half, IH by lia. symmetry. apply mroot_half. rewrite length_pairs. lia.
    + destruct (split_half (S k) l) as (a & b & -> & Ha & Hbl); [lia|].
      rewrite mroot_app, (pairs_app (2 ^ k)), !IH by lia. symmetry. apply mroot_app; rewrite length_pairs; lia.
Qed.

Lemma levels_mroot k l fuel : (0 < length l <= 2 ^ k)%nat -> (2 ^ k < 2 * length l)%nat -> (k <= fuel)%nat -> levels fuel l = mroot k l.
Proof.
  revert l fuel; induction k as [|k IH]; intros l fuel Hl Hk Hf.
  - change (2 ^ 0)%nat with 1%nat in Hl. destruct l as [|x [|y l]]; cbn [length] in Hl; [lia| |lia]. now destruct fuel.
  - rewrite pow2_S in Hk. pose proof (pow2_pos k). destruct fuel as [|fuel]; [lia|].
    destruct l as [|x [|y l]]; cbn [length] in Hk; [lia..|].
    change (levels (S fuel) (x :: y :: l)) with (levels fuel (pairs (x :: y :: l))).
    rewrite mroot_pairs by assumption. rewrite pow2_S in Hl. apply IH; rewrite ?length_pairs; cbn [length] in *; lia.
Qed.

Lemma root_mroot l : l <> [] -> MerkleSpec.root null combine l = mroot (height (length l)) l.
Proof.
  intros Hl. assert (Hp : (0 < length l)%nat) by (destruct l; [easy | cbn; lia]).
  pose proof (height_spec (length l) Hp) as H. apply levels_mroot; [lia..|].
  unfold height. destruct (Nat.eq_dec (length l) 1) as [->|]; [cbn; lia|]. pose proof (Nat.log2_up_lt_lin (length l) ltac:(lia)). lia.
Qed.

(** ** Branches *)

(** Hashing a leaf with the siblings on its path; the bits of the position are the sides. *)
Fixpoint climb (h : A) (branch : list A) (pos : nat) : A :=
  match branch with
  | [] => h
  | x :: branch => climb (if Nat.odd pos then combine x h else combine h x) branch (pos / 2)
  end.

Lemma climb_app h b1 b2 pos : climb h (b1 ++ b2) pos = climb (climb h b1 pos) b2 (pos / 2 ^ length b1).
Proof.
  revert h pos; induction b1 as [|x b1 IH]; intros h pos; [cbn [app length climb]; now rewrite Nat.pow_0_r, Nat.div_1_r|].
  cbn [app climb length]. rewrite IH, pow2_S, Nat.Div0.div_div. reflexivity.
Qed.

Lemma length_mbranch k l pos : length (mbranch k l pos) = k.
Proof.
  revert l pos; induction k as [|k IH]; intros l pos; [reflexivity|]. cbn [MerkleSpec.mbranch].
  destruct (_ <=? _)%nat; [|destruct (_ <? _)%nat]; rewrite length_app, IH; cbn [length]; lia.
Qed.

(** The low bits of the position decide. *)
Lemma climb_mod h b pos : climb h b (pos mod 2 ^ length b) = climb h b pos.
Proof.
  revert h pos; induction b as [|x b IH]; intros h pos; [reflexivity|]. cbn [climb length]. rewrite pow2_S.
  rewrite Nat.Div0.mod_mul_r. set (q := ((pos / 2) mod 2 ^ length b)%nat).
  assert (Eo : Nat.odd (pos mod 2 + 2 * q) = Nat.odd pos).
  { rewrite Nat.odd_add_mul_2. rewrite (Nat.div_mod_eq pos 2) at 2. rewrite Nat.add_comm. symmetry. apply Nat.odd_add_mul_2. }
  replace ((pos mod 2 + 2 * q) / 2)%nat with q by (pose proof (Nat.mod_upper_bound pos 2); lia).
  rewrite Eo. apply IH.
Qed.

Lemma climb_mbranch k l pos :
  (pos < length l <= 2 ^ k)%nat -> climb (nth pos l null) (mbranch k l pos) pos = mroot k l.
Proof.
  revert l pos; induction k as [|k IH]; intros l pos Hp.
  - change (2 ^ 0)%nat with 1%nat in Hp. destruct l as [|x [|y l]]; cbn [length] in Hp; [lia| |lia].
    replace pos with 0%nat by lia. reflexivity.
  - rewrite pow2_S in Hp. cbn [MerkleSpec.mbranch MerkleSpec.mroot]. destruct (Nat.leb_spec (length l) (2 ^ k)) as [Hs|Hb].
    + rewrite climb_app, IH, length_mbranch, Nat.div_small by lia. reflexivity.
    + set (a := firstn (2 ^ k) l). set (b := skipn (2 ^ k) l). assert (El : l = a ++ b) by (symmetry; apply firstn_skipn).
      assert (Ha : length a = (2 ^ k)%nat) by (unfold a; rewrite length_firstn; lia).
      assert (Hbl : (0 < length b <= 2 ^ k)%nat) by (unfold b; rewrite length_skipn; lia).
      assert (Hl : length l = (length a + length b)%nat) by (rewrite El; apply length_app).
      destruct (Nat.ltb_spec pos (2 ^ k)) as [Hlt|Hge]; rewrite climb_app, length_mbranch.
      * rewrite El, app_nth1, IH, Nat.div_small by lia. reflexivity.
      * rewrite El, app_nth2, Ha by lia. rewrite <- (climb_mod _ _ pos), length_mbranch.
        replace (pos mod 2 ^ k)%nat with (pos - 2 ^ k)%nat; [|symmetry; rewrite <- (Nat.mod_small (pos - 2 ^ k) (2 ^ k)) by lia;
          replace pos with ((pos - 2 ^ k) + 1 * 2 ^ k)%nat at 1 by lia; apply Nat.Div0.mod_add].
        rewrite IH by lia. replace (pos / 2 ^ k)%nat with 1%nat; [reflexivity|]. apply (Nat.div_unique _ _ _ (pos - 2 ^ k)); lia.
Qed.

(** ** Twins *)

Local Abbreviation twins := (twins null combine).
Local Abbreviation has_twins := (has_twins null combine).
Local Abbreviation seg := MerkleSpec.seg.

Lemma seg_app_l a b s n : (s + n <= length a)%nat -> seg (a ++ b) s n = seg a s n.
Proof.
  intros H. unfold MerkleSpec.seg. rewrite skipn_app, firstn_app, length_skipn.
  replace (n - (length a - s))%nat with 0%nat by lia. now rewrite firstn_O, app_nil_r.
Qed.

Lemma seg_app_r a b s n : seg (a ++ b) (length a + s) n = seg b s n.
Proof. unfold MerkleSpec.seg. rewrite skipn_app, skipn_all2 by lia. cbn [app]. do 2 f_equal. lia. Qed.

Lemma twins_l a b j s : twins a j s -> twins (a ++ b) j s.
Proof.
  intros (Hm & Hs & E). pose proof (pow2_S j). split; [assumption|]. rewrite length_app. split; [lia|].
  now rewrite !seg_app_l by lia.
Qed.

Lemma twins_r k a b j s : length a = (2 ^ k)%nat -> (length b <= 2 ^ k)%nat -> twins b j s -> twins (a ++ b) j (length a + s).
Proof.
  intros Ha Hb (Hm & Hs & E). split; [|split].
  - assert (Hk : (S j <= k)%nat).
    { destruct (Nat.le_gt_cases (S j) k) as [H|H]; [assumption|]. pose proof (Nat.pow_lt_mono_r 2 k (S j) ltac:(lia) H). lia. }
    rewrite Ha. replace k with (S j + (k - S j))%nat by lia. rewrite Nat.pow_add_r, Nat.add_comm, Nat.mul_comm, Nat.Div0.mod_add. assumption.
  - rewrite length_app. lia.
  - rewrite <- Nat.add_assoc, !seg_app_r. assumption.
Qed.

(** Two halves with the same root. *)
Lemma twins_top k a b : length a = (2 ^ k)%nat -> length b = (2 ^ k)%nat -> mroot k a = mroot k b -> twins (a ++ b) k 0.
Proof.
  intros Ha Hb E. split; [apply Nat.Div0.mod_0_l|]. rewrite length_app, pow2_S. split; [lia|].
  rewrite seg_app_l by lia. replace (0 + 2 ^ k)%nat with (length a + 0)%nat by lia. rewrite seg_app_r.
  unfold MerkleSpec.seg. rewrite !skipn_O, !firstn_all2 by lia. exact E.
Qed.

(** ** What is hashed *)

Local Abbreviation nodes := (MerkleSpec.nodes null combine).
Local Abbreviation tree_nodes := (MerkleSpec.tree_nodes null combine).
Local Abbreviation collision_in := (MerkleSpec.collision_in combine).
Local Abbreviation leaf_is_node := (MerkleSpec.leaf_is_node null combine).

Lemma collision_incl N N' : incl N N' -> collision_in N -> collision_in N'.
Proof. intros HI (p & q & Hp & Hq & H). exists p, q. split; [now apply HI|]. split; [now apply HI | assumption]. Qed.

Lemma nodes_half k l : (length l <= 2 ^ k)%nat -> nodes (S k) l = (mroot k l, mroot k l) :: nodes k l.
Proof. intros H. cbn [MerkleSpec.nodes]. destruct (Nat.leb_spec (length l) (2 ^ k)); [reflexivity | lia]. Qed.

Lemma nodes_app k a b :
  length a = (2 ^ k)%nat -> (0 < length b)%nat -> nodes (S k) (a ++ b) = (mroot k a, mroot k b) :: nodes k a ++ nodes k b.
Proof.
  intros Ha Hb. cbn [MerkleSpec.nodes]. rewrite length_app. destruct (Nat.leb_spec (length a + length b) (2 ^ k)); [lia|].
  rewrite <- Ha, firstn_app, skipn_app, Nat.sub_diag, firstn_O, skipn_O, app_nil_r, firstn_all, skipn_all. reflexivity.
Qed.

(** The subtrees of a tree and the pair at its top. *)
Lemma top_node k l : (0 < length l <= 2 ^ S k)%nat ->
  exists a b, (0 < length a <= 2 ^ k)%nat /\ (0 < length b <= 2 ^ k)%nat /\ incl a l /\ incl b l /\
    In (mroot k a, mroot k b) (nodes (S k) l) /\ incl (nodes k a) (nodes (S k) l) /\ incl (nodes k b) (nodes (S k) l) /\
    mroot (S k) l = combine (mroot k a) (mroot k b).
Proof.
  intros Hl. destruct (Nat.le_gt_cases (length l) (2 ^ k)) as [Hs|Hb].
  - exists l, l. rewrite nodes_half, mroot_half by assumption.
    repeat split; try lia; try apply incl_refl; [now left | apply incl_tl, incl_refl | apply incl_tl, incl_refl].
  - destruct (split_half k l) as (a & b & -> & Ha & Hb'); [lia|]. exists a, b. pose proof (pow2_pos k).
    rewrite nodes_app, mroot_app by lia.
    repeat split; try lia; [apply incl_appl | apply incl_appr | now left | apply incl_tl, incl_appl | apply incl_tl, incl_appr]; apply incl_refl.
Qed.

Context (eq_dec : forall x y : A, {x = y} + {x <> y}).

Lemma combine_inj N (p q : A * A) :
  In p N -> In q N -> combine (fst p) (snd p) = combine (fst q) (snd q) -> (fst p = fst q /\ snd p = snd q) \/ collision_in N.
Proof.
  destruct p as [a b], q as [c d]. cbn [fst snd]. intros Hp Hq E.
  destruct (eq_dec a c) as [Ea|Ea]; [destruct (eq_dec b d) as [Eb|Eb]|]; [now left| |];
    right; exists (a, b), (c, d); repeat split; try assumption; congruence.
Qed.

(** A tree of at most half the leaves and one of more than half of them: the second half of
    the latter would be a copy of its first one. *)
Lemma half_binding k l l' :
  (forall a b, (0 < length a <= 2 ^ k)%nat -> (0 < length b <= 2 ^ k)%nat -> ~ has_twins a -> ~ has_twins b ->
    mroot k a = mroot k b -> a = b \/ collision_in (nodes k a ++ nodes k b)) ->
  (0 < length l <= 2 ^ k)%nat -> (2 ^ k < length l' <= 2 ^ S k)%nat -> ~ has_twins l' ->
  mroot (S k) l = mroot (S k) l' -> collision_in (nodes (S k) l ++ nodes (S k) l').
Proof.
  intros IH Hl Hl' T' E'. destruct (split_half k l' Hl') as (a & b & -> & Ha & Hb). pose proof (pow2_pos k).
  rewrite mroot_half, mroot_app in E' by lia. rewrite nodes_half, nodes_app by lia.
  destruct (combine_inj (((mroot k l, mroot k l) :: nodes k l) ++ (mroot k a, mroot k b) :: nodes k a ++ nodes k b)
    (mroot k l, mroot k l) (mroot k a, mroot k b)) as [[Ea Eb]|]; [now left | apply in_or_app; right; now left | assumption | | assumption].
  cbn [fst snd] in Ea, Eb.
  destruct (IH a b) as [->|C]; [lia | lia | | | congruence | |].
  - intros (j & s & T). apply T'. exists j, s. now apply twins_l.
  - intros (j & s & T). apply T'. exists j, (length a + s)%nat. apply (twins_r k); lia || assumption.
  - exfalso. apply T'. exists k, 0%nat. now apply twins_top.
  - revert C. apply collision_incl. apply incl_appr, incl_tl, incl_refl.
Qed.

(** Trees of the same height. *)
Lemma binding k l1 l2 :
  (0 < length l1 <= 2 ^ k)%nat -> (0 < length l2 <= 2 ^ k)%nat -> ~ has_twins l1 -> ~ has_twins l2 ->
  mroot k l1 = mroot k l2 -> l1 = l2 \/ collision_in (nodes k l1 ++ nodes k l2).
Proof.
  revert l1 l2; induction k as [|k IH]; intros l1 l2 H1 H2 T1 T2 E.
  - change (2 ^ 0)%nat with 1%nat in *. destruct l1 as [|x [|? ?]], l2 as [|y [|? ?]]; cbn [length] in *; try lia. left. now f_equal.
  - destruct (Nat.le_gt_cases (length l1) (2 ^ k)) as [S1|S1], (Nat.le_gt_cases (length l2) (2 ^ k)) as [S2|S2].
    + rewrite !mroot_half in E by assumption. rewrite !nodes_half by assumption.
      destruct (combine_inj (((mroot k l1, mroot k l1) :: nodes k l1) ++ (mroot k l2, mroot k l2) :: nodes k l2)
        (mroot k l1, mroot k l1) (mroot k l2, mroot k l2)) as [[E' _]|]; [now left | apply in_or_app; right; now left | assumption | | now right].
      destruct (IH l1 l2) as [|C]; [lia | lia | assumption | assumption | assumption | now left|].
      right. revert C. apply collision_incl, incl_app_app; apply incl_tl, incl_refl.
    + right. apply (half_binding k l1 l2 IH); assumption || lia.
    + right. apply (collision_incl (nodes (S k) l2 ++ nodes (S k) l1)); [apply incl_app; [apply incl_appr | apply incl_appl]; apply incl_refl|].
      apply (half_binding k l2 l1 IH); [lia | lia | assumption | now symmetry].
    + destruct (split_half k l1) as (a & b & -> & Ha & Hb); [lia|]. destruct (split_half k l2) as (c & d & -> & Hc & Hd); [lia|].
      pose proof (pow2_pos k). rewrite !mroot_app in E by lia. rewrite !nodes_app by lia.
      destruct (combine_inj (((mroot k a, mroot k b) :: nodes k a ++ nodes k b) ++ (mroot k c, mroot k d) :: nodes k c ++ nodes k d)
        (mroot k a, mroot k b) (mroot k c, mroot k d)) as [[Ea Eb]|]; [now left | apply in_or_app; right; now left | assumption | | now right].
      cbn [fst snd] in Ea, Eb.
      destruct (IH a c) as [->|C]; [lia | lia | | | assumption | |].
      1, 2: intros (j & s & T); first [apply T1; exists j, s; now apply twins_l | apply T2; exists j, s; now apply twins_l].
      2: { right. revert C. apply collision_incl, incl_app_app; apply incl_tl, incl_appl, incl_refl. }
      destruct (IH b d) as [->|C]; [lia | lia | | | assumption | now left |].
      1, 2: intros (j & s & T); first [apply T1; exists j, (length c + s)%nat; apply (twins_r k); lia || assumption
        | apply T2; exists j, (length c + s)%nat; apply (twins_r k); lia || assumption].
      right. revert C. apply collision_incl, incl_app_app; apply incl_tl, incl_appr, incl_refl.
Qed.

(** The root of a lower tree and the root of a higher one: on the way down to the lower
    tree's first leaf the pairs are equal, and that leaf is the hash of the next pair. *)
Lemma cross_binding j k l1 l2 :
  (j < k)%nat -> (0 < length l1 <= 2 ^ j)%nat -> (0 < length l2 <= 2 ^ k)%nat -> mroot j l1 = mroot k l2 ->
  (exists x p, In x l1 /\ In p (nodes k l2) /\ x = MerkleSpec.hash_of combine p) \/ collision_in (nodes j l1 ++ nodes k l2).
Proof.
  revert j l1 l2; induction k as [|k IH]; intros j l1 l2 Hj H1 H2 E; [lia|].
  destruct (top_node k l2 H2) as (a2 & b2 & Ha2 & _ & I2 & _ & N2 & J2 & _ & E2). rewrite E2 in E.
  destruct j as [|j].
  - left. destruct l1 as [|x l1]; [cbn in H1; lia|]. exists x, (mroot k a2, mroot k b2). split; [now left | now split].
  - destruct (top_node j l1 H1) as (a1 & b1 & Ha1 & _ & I1 & _ & N1 & J1 & _ & E1). rewrite E1 in E.
    destruct (combine_inj (nodes (S j) l1 ++ nodes (S k) l2) (mroot j a1, mroot j b1) (mroot k a2, mroot k b2)) as [[E' _]|];
      [apply in_or_app; now left | apply in_or_app; now right | assumption | | now right].
    destruct (IH j a1 a2 ltac:(lia) Ha1 Ha2 E') as [(x & p & Hx & Hp & H)|C]; [left | right].
    + exists x, p. split; [now apply I1|]. split; [now apply J2 | assumption].
    + revert C. now apply collision_incl, incl_app_app.
Qed.

(** The root with the absence of twins determines the leaves. *)
Lemma root_binding l1 l2 :
  l1 <> [] -> l2 <> [] -> ~ has_twins l1 -> ~ has_twins l2 ->
  MerkleSpec.root null combine l1 = MerkleSpec.root null combine l2 ->
  l1 = l2 \/ collision_in (tree_nodes l1 ++ tree_nodes l2) \/ leaf_is_node l1 l2 \/ leaf_is_node l2 l1.
Proof.
  intros N1 N2 T1 T2. rewrite !root_mroot by assumption. intros E. unfold MerkleSpec.leaf_is_node, MerkleSpec.tree_nodes.
  assert (L1 : (0 < length l1)%nat) by (destruct l1; [easy | cbn; lia]). assert (L2 : (0 < length l2)%nat) by (destruct l2; [easy | cbn; lia]).
  pose proof (height_spec _ L1) as H1. pose proof (height_spec _ L2) as H2.
  destruct (Nat.lt_trichotomy (height (length l1)) (height (length l2))) as [H|[H|H]].
  - destruct (cross_binding (height (length l1)) (height (length l2)) l1 l2 H ltac:(lia) ltac:(lia) E); auto.
  - rewrite <- H in *. destruct (binding (height (length l1)) l1 l2 ltac:(lia) ltac:(lia) T1 T2 E); auto.
  - destruct (cross_binding (height (length l2)) (height (length l1)) l2 l1 H ltac:(lia) ltac:(lia) (eq_sym E)) as [|C]; [auto|].
    right; left. revert C. apply collision_incl, incl_app; [apply incl_appr | apply incl_appl]; apply incl_refl.
Qed.

(** The pairs hashed in a tree are pairs of hashes when the leaves are. *)
Context (P : A -> Prop) (Pnull : P null) (Pcombine : forall x y, P x -> P y -> P (combine x y)).

Lemma mroot_P k l : Forall P l -> P (mroot k l).
Proof.
  revert l; induction k as [|k IH]; intros l Hl; cbn [MerkleSpec.mroot].
  - destruct l as [|x l]; [assumption | now apply Forall_inv in Hl].
  - destruct (_ <=? _)%nat; apply Pcombine; apply IH; auto using Forall_take, Forall_drop.
Qed.

Lemma nodes_P k l : Forall P l -> Forall (fun p => P (fst p) /\ P (snd p)) (nodes k l).
Proof.
  revert l; induction k as [|k IH]; intros l Hl; cbn [MerkleSpec.nodes]; [constructor|].
  assert (Forall P (firstn (2 ^ k)%nat l)) by now apply Forall_take.
  assert (Forall P (skipn (2 ^ k)%nat l)) by now apply Forall_drop.
  destruct (_ <=? _)%nat; constructor; cbn [fst snd]; try (split; now apply mroot_P); [now apply IH | apply Forall_app; auto].
Qed.
End Trees.
