(* ===== verification/MerkleProofs.v ===== *)
(** merkle.cpp computes the Merkle tree: the entries of [inner] are the roots of the whole
    subtrees that the bits of the count stand for, and [h] is the root of the leaves after
    them. *)
From Stdlib Require Import ZifyNat.
From S2P Require Import Prelude CryptoCommon StrEncodings Uint256 HashSpec Sha2Hash HashClasses Merkle MerkleTrees.
Import CryptoCommon StrEncodings Uint256 Merkle.

(** * Bits of the count *)

Lemma odd_of_nat n : Z.odd (Z.of_nat n) = Nat.odd n.
Proof.
  destruct (Nat.Even_or_Odd n) as [[m ->]|[m ->]].
  - replace (Z.of_nat (2 * m)) with (0 + 2 * Z.of_nat m) by lia. now rewrite Z.odd_add_mul_2, <- (Nat.add_0_l (2 * m)), Nat.odd_add_mul_2.
  - replace (Z.of_nat (2 * m + 1)) with (1 + 2 * Z.of_nat m) by lia. now rewrite Z.odd_add_mul_2, (Nat.add_comm _ 1), Nat.odd_add_mul_2.
Qed.

Lemma shift_level k : (k < 32)%nat -> w32 (Z.shiftl 1 (Z.of_nat k)) = Z.of_nat (2 ^ k).
Proof.
  intros Hk. rewrite Z.shiftl_mul_pow2, Z.mul_1_l, Nat2Z.inj_pow by lia. apply Z.mod_small.
  split; [lia | apply Z.pow_lt_mono_r; lia].
Qed.

Lemma bit_spec c k : (k < 32)%nat -> bit (Z.of_nat c) k = Nat.odd (c / 2 ^ k).
Proof.
  intros Hk. unfold bit. rewrite shift_level, Nat2Z.inj_pow by assumption.
  rewrite <- odd_of_nat, Nat2Z.inj_div, Nat2Z.inj_pow, <- Z.shiftr_div_pow2 by lia. change (Z.of_nat 2) with 2.
  rewrite <- (Z.add_0_l (Z.of_nat k)) at 2. rewrite <- Z.shiftr_shiftr, Z.shiftr_0_r, <- Z.testbit_odd by lia.
  assert (E : Z.of_nat c &: 2 ^ Z.of_nat k = if Z.testbit (Z.of_nat c) (Z.of_nat k) then 2 ^ Z.of_nat k else 0).
  { apply Z.bits_inj'. intros i Hi. rewrite Z.land_spec, Z.pow2_bits_eqb by lia. destruct (Z.eqb_spec (Z.of_nat k) i) as [->|Hne].
    - rewrite andb_true_r. destruct (Z.testbit (Z.of_nat c) i); [now rewrite Z.pow2_bits_true | now rewrite Z.bits_0].
    - rewrite andb_false_r. destruct (Z.testbit (Z.of_nat c) _); [now rewrite Z.pow2_bits_false | now rewrite Z.bits_0]. }
  rewrite E. destruct (Z.testbit (Z.of_nat c) _); [|reflexivity]. destruct (Z.eqb_spec (2 ^ Z.of_nat k) 0); [lia | reflexivity].
Qed.

(** The bits of a multiple of 2^k. *)
Lemma quot_high m k i : (k <= i)%nat -> (m * 2 ^ k / 2 ^ i = m / 2 ^ (i - k))%nat.
Proof.
  intros H. replace (2 ^ i)%nat with (2 ^ (i - k) * 2 ^ k)%nat by (rewrite <- Nat.pow_add_r; f_equal; lia).
  apply Nat.Div0.div_mul_cancel_r. pose proof (pow2_pos k). lia.
Qed.

Lemma quot_low m k i : (i < k)%nat -> Nat.odd (m * 2 ^ k / 2 ^ i) = false.
Proof.
  intros H. replace (m * 2 ^ k)%nat with (2 * (m * 2 ^ (k - i - 1)) * 2 ^ i)%nat.
  - rewrite Nat.div_mul by (pose proof (pow2_pos i); lia). rewrite <- (Nat.add_0_l (2 * _)). apply Nat.odd_add_mul_2.
  - replace k with (1 + (k - i - 1) + i)%nat at 2 by lia. rewrite !Nat.pow_add_r. change (2 ^ 1)%nat with 2%nat. lia.
Qed.

Lemma quot_self m k : (m * 2 ^ k / 2 ^ k = m)%nat.
Proof. rewrite quot_high, Nat.sub_diag, Nat.pow_0_r, Nat.div_1_r by lia. reflexivity. Qed.

(** The higher bits of an odd multiple of 2^k and of the even one below. *)
Lemma quot_odd a k i : (k < i)%nat -> ((2 * a + 1) * 2 ^ k / 2 ^ i = 2 * a * 2 ^ k / 2 ^ i)%nat.
Proof.
  intros H. rewrite !quot_high by lia. replace (i - k)%nat with (S (i - k - 1)) by lia. rewrite Nat.pow_succ_r', <- !Nat.Div0.div_div.
  f_equal. lia.
Qed.

(** * Equality of hashes *)

Definition is_hash (a : uint256) : Prop := bytes a /\ length a = 32%nat.

Lemma op_eq_hash a b : is_hash a -> is_hash b -> op_eq 32 a b = true <-> a = b.
Proof. intros [_ Ha] [_ Hb]. unfold op_eq, Compare. rewrite Z.eqb_eq. now apply memcmp_eq. Qed.

(** * The loops *)

Section Loops.
Context (combine : uint256 -> uint256 -> uint256) (leaves : list uint256).
Context (Hcombine : forall a b, is_hash a -> is_hash b -> is_hash (combine a b)) (Hleaves : Forall is_hash leaves).
Local Abbreviation mroot := (MerkleSpec.mroot null256 combine).
Local Abbreviation mbranch := (MerkleSpec.mbranch null256 combine).
Local Abbreviation seg := (MerkleSpec.seg leaves).
Local Abbreviation twins := (MerkleSpec.twins null256 combine leaves).

Lemma is_hash_null : is_hash null256.
Proof. split; [|reflexivity]. apply Forall_forall. intros x Hx. apply repeat_spec in Hx. rewrite Hx. now split. Qed.

Lemma is_hash_mroot k l : Forall is_hash l -> is_hash (mroot k l).
Proof. apply mroot_P; [apply is_hash_null | assumption]. Qed.

Lemma is_hash_seg s r : Forall is_hash (seg s r).
Proof. now apply Forall_take, Forall_drop. Qed.

Lemma length_seg s r : (s + r <= length leaves)%nat -> length (seg s r) = r.
Proof. intros H. unfold MerkleSpec.seg. rewrite length_firstn, length_skipn. lia. Qed.

Lemma seg_add s r1 r2 : seg s (r1 + r2) = seg s r1 ++ seg (s + r1) r2.
Proof.
  unfold MerkleSpec.seg. rewrite <- (firstn_skipn r1 (firstn (r1 + r2) (skipn s leaves))).
  rewrite firstn_firstn, Nat.min_l by lia. rewrite skipn_firstn_comm, skipn_skipn. do 2 f_equal; [lia|]. f_equal. lia.
Qed.

(** The entries of [inner] for the first [s] leaves. *)
Definition start (s i : nat) : nat := (s / 2 ^ S i * 2 ^ S i)%nat.
Definition inner_ok (s : nat) (inner : list uint256) : Prop :=
  length inner = 32%nat /\
  forall i, (i < 32)%nat -> Nat.odd (s / 2 ^ i) = true -> nth i inner null256 = mroot i (seg (start s i) (2 ^ i)).

(** [h] is the root, at height [k], of the [r] leaves from [s] on. *)
Definition covers (s k r : nat) (h : uint256) : Prop :=
  (0 < r <= 2 ^ k)%nat /\ (s + r <= length leaves)%nat /\ h = mroot k (seg s r).

(** What is known of the branch of leaf [p] when the first [s] leaves are in [inner]. *)
Definition in_inner (p s : nat) (matchlevel : Z) (branch : list uint256) : Prop :=
  exists i, (i < 32)%nat /\ Nat.odd (s / 2 ^ i) = true /\ (start s i <= p < start s i + 2 ^ i)%nat /\
  matchlevel = Z.of_nat i /\ branch = mbranch i (seg (start s i) (2 ^ i)) (p - start s i).

Definition branch_ok (want : bool) (p : nat) (pbranch : option (list uint256)) (s k r : nat) (matchh : bool) (matchlevel : Z) : Prop :=
  match pbranch with
  | None => want = false
  | Some branch =>
      want = true /\
      if matchh then (s <= p < s + r)%nat /\ branch = mbranch k (seg s r) (p - s)
      else in_inner p s matchlevel branch \/ ((s + r <= p)%nat /\ matchlevel = -1 /\ branch = [])
  end.

(** ** The lowest entry *)

Lemma start_odd a k : start ((2 * a + 1) * 2 ^ k) k = (2 * a * 2 ^ k)%nat.
Proof.
  unfold start. rewrite quot_odd, quot_high by lia. replace (S k - k)%nat with 1%nat by lia.
  rewrite Nat.pow_1_r, (Nat.mul_comm 2 a), Nat.div_mul by lia. rewrite Nat.pow_succ_r'. lia.
Qed.

Lemma inner_lowest a k inner :
  (k < 32)%nat -> inner_ok ((2 * a + 1) * 2 ^ k) inner -> nth k inner null256 = mroot k (seg (2 * a * 2 ^ k) (2 ^ k)).
Proof.
  intros Hk [_ H]. rewrite (H k Hk), start_odd; [reflexivity|]. rewrite quot_self, Nat.add_comm. apply Nat.odd_add_mul_2.
Qed.

Lemma even_mul a : Nat.odd (2 * a) = false.
Proof. rewrite <- (Nat.add_0_l (2 * a)). apply Nat.odd_add_mul_2. Qed.

(** Without its lowest entry, and with a new one. *)
Lemma inner_drop a k inner : inner_ok ((2 * a + 1) * 2 ^ k) inner -> inner_ok (2 * a * 2 ^ k) inner.
Proof.
  intros [L H]. split; [assumption|]. intros i Hi Ho. destruct (Nat.lt_trichotomy i k) as [Hlt|[->|Hgt]].
  - now rewrite quot_low in Ho.
  - rewrite quot_self, even_mul in Ho. discriminate.
  - unfold start in *. rewrite <- !quot_odd in * by lia. auto.
Qed.

Lemma inner_store a k inner h :
  (k < 32)%nat -> inner_ok (2 * a * 2 ^ k) inner -> h = mroot k (seg (2 * a * 2 ^ k) (2 ^ k)) -> inner_ok ((2 * a + 1) * 2 ^ k) (upd inner k h).
Proof.
  intros Hk [L H] ->. split; [now rewrite length_upd|]. intros i Hi Ho. destruct (Nat.lt_trichotomy i k) as [Hlt|[->|Hgt]].
  - now rewrite quot_low in Ho.
  - rewrite nth_upd_eq, start_odd by lia. reflexivity.
  - rewrite nth_upd_ne by lia. unfold start in *. rewrite !quot_odd in * by lia. auto.
Qed.

(** ** Combining [h] with the lowest entry, and with itself *)

Lemma covers_combine a k r inner h :
  (k < 32)%nat -> inner_ok ((2 * a + 1) * 2 ^ k) inner -> covers ((2 * a + 1) * 2 ^ k) k r h ->
  covers (2 * a * 2 ^ k) (S k) (2 ^ k + r) (combine (nth k inner null256) h).
Proof.
  intros Hk Hi (Hr & Hl & ->). rewrite (inner_lowest a k) by assumption. pose proof (pow2_S k).
  split; [lia|]. split; [lia|]. rewrite seg_add. replace (2 * a * 2 ^ k + 2 ^ k)%nat with ((2 * a + 1) * 2 ^ k)%nat by lia.
  symmetry. apply mroot_app; rewrite length_seg; lia.
Qed.

Lemma covers_double s k r h : covers s k r h -> covers s (S k) r (combine h h).
Proof.
  intros (Hr & Hl & ->). pose proof (pow2_S k). split; [lia|]. split; [lia|]. symmetry. apply mroot_half. rewrite length_seg; lia.
Qed.

Lemma mbranch_left k a b pos : length a = (2 ^ k)%nat -> (0 < length b)%nat -> (pos < 2 ^ k)%nat ->
  mbranch (S k) (a ++ b) pos = mbranch k a pos ++ [mroot k b].
Proof.
  intros Ha Hb Hp. cbn [MerkleSpec.mbranch]. rewrite length_app. destruct (Nat.leb_spec (length a + length b) (2 ^ k)); [lia|].
  destruct (Nat.ltb_spec pos (2 ^ k)); [|lia]. rewrite <- Ha, firstn_app, skipn_app, Nat.sub_diag, firstn_O, skipn_O, app_nil_r, firstn_all, skipn_all. reflexivity.
Qed.

Lemma mbranch_right k a b pos : length a = (2 ^ k)%nat -> (0 < length b)%nat ->
  mbranch (S k) (a ++ b) (2 ^ k + pos) = mbranch k b pos ++ [mroot k a].
Proof.
  intros Ha Hb. cbn [MerkleSpec.mbranch]. rewrite length_app. destruct (Nat.leb_spec (length a + length b) (2 ^ k)); [lia|].
  destruct (Nat.ltb_spec (2 ^ k + pos) (2 ^ k)); [lia|]. replace (2 ^ k + pos - 2 ^ k)%nat with pos by lia.
  rewrite <- Ha, firstn_app, skipn_app, Nat.sub_diag, firstn_O, skipn_O, app_nil_r, firstn_all, skipn_all. reflexivity.
Qed.

Lemma note_ok want p pbranch a k r inner h matchh matchlevel :
  (k < 32)%nat -> inner_ok ((2 * a + 1) * 2 ^ k) inner -> covers ((2 * a + 1) * 2 ^ k) k r h ->
  branch_ok want p pbranch ((2 * a + 1) * 2 ^ k) k r matchh matchlevel ->
  let '(pbranch', matchh') := note pbranch matchh matchlevel k (nth k inner null256) h in
  branch_ok want p pbranch' (2 * a * 2 ^ k) (S k) (2 ^ k + r) matchh' matchlevel.
Proof.
  intros Hk Hi (Hr & Hl & ->) Hb. destruct pbranch as [branch|]; [|exact Hb]. destruct Hb as [Hw Hb]. cbn [note branch_ok].
  rewrite (inner_lowest a k) by assumption.
  assert (Es : seg (2 * a * 2 ^ k) (2 ^ k + r) = seg (2 * a * 2 ^ k) (2 ^ k) ++ seg ((2 * a + 1) * 2 ^ k) r).
  { rewrite seg_add. do 2 f_equal. lia. }
  destruct matchh.
  - destruct Hb as [Hp ->]. split; [assumption|]. split; [lia|]. rewrite Es.
    replace (p - 2 * a * 2 ^ k)%nat with (2 ^ k + (p - (2 * a + 1) * 2 ^ k))%nat by lia.
    symmetry. apply mbranch_right; rewrite length_seg; lia.
  - destruct (Z.eqb_spec matchlevel (Z.of_nat k)) as [Em|Em]; (split; [assumption|]).
    + destruct Hb as [(i & Hi' & Ho & Hp & Ei & ->)|(_ & E & _)]; [|lia]. assert (i = k) as -> by lia. rewrite start_odd in *.
      split; [lia|]. rewrite Es. symmetry. apply mbranch_left; rewrite ?length_seg; lia.
    + destruct Hb as [(i & Hi' & Ho & Hp & Ei & ->)|(Hp & E & Hn)]; [left|right; repeat split; assumption || lia].
      destruct (Nat.lt_trichotomy i k) as [Hlt|[->|Hgt]]; [now rewrite quot_low in Ho | lia |].
      exists i. unfold start in *. rewrite quot_odd in * by lia. auto.
Qed.

Lemma is_hash_covers s k r h : covers s k r h -> is_hash h.
Proof. intros (_ & _ & ->). apply is_hash_mroot, is_hash_seg. Qed.

(** The next step of a loop over levels, by the parity of the number of subtrees. *)
Lemma bit_next m k c : (k < 32)%nat -> c = ((m + 1) * 2 ^ k)%nat -> bit (Z.of_nat c) k = negb (Nat.odd m).
Proof. intros Hk ->. rewrite bit_spec, quot_self, Nat.add_1_r, Nat.odd_succ, <- Nat.negb_odd by assumption. reflexivity. Qed.

Lemma parity m : exists a, if Nat.odd m then m = (2 * a + 1)%nat else m = (2 * a)%nat.
Proof.
  destruct (Nat.Even_or_Odd m) as [[a ->]|[a ->]]; exists a; [now rewrite even_mul|].
  now rewrite Nat.add_comm, Nat.odd_add_mul_2.
Qed.

Lemma level_bound m k c : c = ((m + 1) * 2 ^ k)%nat -> Z.of_nat c < 2 ^ 32 -> (k < 32)%nat.
Proof.
  intros -> Hc. destruct (Nat.lt_ge_cases k 32) as [H|H]; [assumption|]. exfalso.
  apply (Nat.pow_le_mono_r 2) in H; [|lia]. apply Nat2Z.inj_le in H. rewrite (Nat2Z.inj_pow 2 32) in H.
  change (Z.of_nat 2 ^ Z.of_nat 32) with (2 ^ 32) in H. nia.
Qed.

Lemma twins_lowest a k inner h :
  (k < 32)%nat -> inner_ok ((2 * a + 1) * 2 ^ k) inner -> covers ((2 * a + 1) * 2 ^ k) k (2 ^ k) h ->
  op_eq 32 (nth k inner null256) h = true <-> twins k (2 * a * 2 ^ k).
Proof.
  intros Hk Hi Hc. rewrite op_eq_hash; [|rewrite (inner_lowest a k) by assumption; apply is_hash_mroot, is_hash_seg | now apply is_hash_covers in Hc].
  destruct Hc as (Hr & Hl & ->). rewrite (inner_lowest a k) by assumption. pose proof (pow2_S k).
  unfold MerkleSpec.twins. replace (2 * a * 2 ^ k + 2 ^ k)%nat with ((2 * a + 1) * 2 ^ k)%nat by lia. split; [|easy].
  intros E. split; [|split; [lia | assumption]]. replace (2 * a * 2 ^ k)%nat with (a * 2 ^ S k)%nat by lia. apply Nat.Div0.mod_mul.
Qed.

Lemma add_levels_ok want p fuel m k c inner matchlevel h matchh mutated pbranch :
  c = ((m + 1) * 2 ^ k)%nat -> Z.of_nat c < 2 ^ 32 -> (33 <= fuel + k)%nat ->
  inner_ok (m * 2 ^ k) inner -> covers (m * 2 ^ k) k (2 ^ k) h -> branch_ok want p pbranch (m * 2 ^ k) k (2 ^ k) matchh matchlevel ->
  exists a l h' matchh' mutated' pbranch',
    add_levels combine fuel (Z.of_nat c) inner matchlevel k h matchh mutated pbranch = Some (l, h', matchh', mutated', pbranch') /\
    (l < 32)%nat /\ c = ((2 * a + 1) * 2 ^ l)%nat /\ inner_ok (2 * a * 2 ^ l) inner /\ covers (2 * a * 2 ^ l) l (2 ^ l) h' /\
    branch_ok want p pbranch' (2 * a * 2 ^ l) l (2 ^ l) matchh' matchlevel /\
    (mutated' = true <-> mutated = true \/ exists j, (k <= j < l)%nat /\ twins j (c - 2 ^ S j)).
Proof.
  revert m k h matchh mutated pbranch. induction fuel as [|fuel IH]; intros m k h matchh mutated pbranch Hc H32 Hf Hi Hh Hb;
    pose proof (level_bound m k c Hc H32) as Hk; [lia|]. cbn [add_levels]. rewrite (bit_next m k c Hk Hc).
  destruct (parity m) as [a Ha]. destruct (Nat.odd m) eqn:Eo; subst m; cbn [negb].
  - pose proof (note_ok want p pbranch a k (2 ^ k) inner h matchh matchlevel Hk Hi Hh Hb) as Hn.
    destruct (note pbranch matchh matchlevel k (nth k inner null256) h) as [pbranch1 matchh1].
    pose proof (covers_combine a k (2 ^ k) inner h Hk Hi Hh) as Hh1. pose proof (inner_drop a k inner Hi) as Hi1. pose proof (pow2_S k) as P.
    replace (2 * a * 2 ^ k)%nat with (a * 2 ^ S k)%nat in Hn, Hh1, Hi1 by lia. replace (2 ^ k + 2 ^ k)%nat with (2 ^ S k)%nat in Hn, Hh1 by lia.
    destruct (IH a (S k) _ matchh1 (mutated || op_eq 32 (nth k inner null256) h) pbranch1 ltac:(lia) H32 ltac:(lia) Hi1 Hh1 Hn)
      as (a' & l & h' & matchh' & mutated' & pbranch' & -> & Hl & Ec & Hi' & Hh' & Hb' & Hm).
    exists a', l, h', matchh', mutated', pbranch'. do 6 (split; [auto; fail|]). rewrite Hm, orb_true_iff, (twins_lowest a k) by assumption.
    assert (Ek : (2 * a * 2 ^ k = c - 2 ^ S k)%nat) by lia. rewrite Ek.
    assert (Hkl : (k < l)%nat).
    { destruct (Nat.lt_ge_cases k l) as [H|H]; [assumption|]. exfalso. assert (E : c = ((a + 1) * 2 ^ S k)%nat) by lia.
      assert (Nat.odd (c / 2 ^ l) = true) by (rewrite Ec, quot_self, Nat.add_comm; apply Nat.odd_add_mul_2).
      rewrite E, quot_low in H0 by lia. discriminate. }
    split; [intros [[?|?]|(j & Hj & T)] | intros [?|(j & Hj & T)]].
    + now left.
    + right. exists k. split; [lia | assumption].
    + right. exists j. split; [lia | assumption].
    + now left; left.
    + destruct (Nat.eq_dec j k) as [->|]; [now left; right | right; exists j; split; [lia | assumption]].
  - exists a, k, h, matchh, mutated, pbranch. do 6 (split; [auto; fail|]).
    split; [now left | intros [?|(j & Hj & _)]; [assumption | lia]].
Qed.

(** Some twins among the first [c] leaves. *)
Definition twins_below (c : nat) : Prop := exists j s, (s + 2 ^ S j <= c)%nat /\ twins j s.

(** The locals of the first loop after [c] leaves. *)
Definition state_ok (want : bool) (p c : nat) (st : state) : Prop :=
  count st = Z.of_nat c /\ inner_ok c (inner st) /\ (mutated st = true <-> twins_below c) /\
  branch_ok want p (pbranch st) c 0 0 false (matchlevel st).

Lemma seg_1 c : (c < length leaves)%nat -> seg c 1 = [nth c leaves null256].
Proof.
  intros H. unfold MerkleSpec.seg. revert c H. induction leaves as [|x l IH]; intros c H; [cbn in H; lia|].
  destruct c as [|c]; [reflexivity|]. cbn [skipn nth]. apply IH; [now apply Forall_inv_tail in Hleaves | cbn in H; lia].
Qed.

(** The twins that end at leaf [c] are those of the levels that are combined there. *)
Lemma twins_below_S c a l :
  S c = ((2 * a + 1) * 2 ^ l)%nat ->
  (exists j, (0 <= j < l)%nat /\ twins j (S c - 2 ^ S j)) \/ twins_below c <-> twins_below (S c).
Proof.
  intros Hc. split.
  - intros [(j & Hj & T)|(j & s & Hs & T)]; [|exists j, s; split; [lia | assumption]].
    exists j, (S c - 2 ^ S j)%nat. split; [|assumption]. pose proof (Nat.pow_le_mono_r 2 (S j) l ltac:(lia) ltac:(lia)). lia.
  - intros (j & s & Hs & T). destruct (Nat.eq_dec (s + 2 ^ S j) (S c)) as [E|E]; [left | right; exists j, s; split; [lia | assumption]].
    exists j. replace (S c - 2 ^ S j)%nat with s by lia. split; [|assumption]. split; [lia|].
    destruct (Nat.lt_ge_cases j l) as [H|H]; [assumption|]. exfalso.
    assert (Eo : Nat.odd (S c / 2 ^ l) = true) by (rewrite Hc, quot_self, Nat.add_comm; apply Nat.odd_add_mul_2).
    destruct T as (Hm & _). apply Nat.Div0.mod_divides in Hm as [d ->].
    replace (S c) with ((d + 1) * 2 ^ S j)%nat in Eo by lia. rewrite quot_low in Eo by lia. discriminate.
Qed.

Lemma in_inner_lt p s matchlevel branch : in_inner p s matchlevel branch -> (p < s)%nat.
Proof.
  intros (i & _ & Ho & Hp & _). apply Nat.odd_spec in Ho as [d Ed].
  assert (Es : (s / 2 ^ S i = d)%nat) by (rewrite Nat.pow_succ_r', Nat.mul_comm, <- Nat.Div0.div_div, Ed; lia).
  unfold start in Hp. rewrite Es, pow2_S in Hp. pose proof (Nat.div_mod_eq s (2 ^ i)) as E. rewrite Ed in E. lia.
Qed.

(** Where a new entry is stored. *)
Lemma in_inner_store want p a l matchh matchlevel pbranch :
  (l < 32)%nat -> branch_ok want p pbranch (2 * a * 2 ^ l) l (2 ^ l) matchh matchlevel ->
  branch_ok want p pbranch ((2 * a + 1) * 2 ^ l) 0 0 false (if matchh then Z.of_nat l else matchlevel).
Proof.
  intros Hl. destruct pbranch as [branch|]; [|easy]. intros [Hw Hb]. split; [assumption|]. destruct matchh.
  - left. destruct Hb as [Hp ->]. exists l. rewrite start_odd, quot_self, Nat.add_comm, Nat.odd_add_mul_2. auto.
  - destruct Hb as [(i & Hi & Ho & Hp & -> & ->)|(Hp & -> & ->)]; [left | right; repeat split; lia].
    destruct (Nat.lt_trichotomy i l) as [Hlt|[->|Hgt]]; [now rewrite quot_low in Ho | now rewrite quot_self, even_mul in Ho |].
    exists i. unfold start in *. rewrite !quot_odd by lia. auto.
Qed.

Lemma add_leaf_ok want branchpos p c st :
  Z.of_nat (length leaves) < 2 ^ 32 -> (c < length leaves)%nat -> (want = true -> branchpos = Z.of_nat p) -> state_ok want p c st ->
  exists st', add_leaf combine branchpos (nth c leaves null256) st = Some st' /\ state_ok want p (S c) st'.
Proof.
  intros Hlen Hc Hp (Hcount & Hi & Hm & Hb). unfold add_leaf. cbv zeta. rewrite Hcount.
  assert (Ec : w32 (Z.of_nat c + 1) = Z.of_nat (S c)) by (unfold w32; rewrite Z.mod_small by lia; lia). rewrite Ec.
  assert (E1 : (c = c * 2 ^ 0)%nat) by (rewrite Nat.pow_0_r; lia).
  assert (Hcov : covers (c * 2 ^ 0) 0 (2 ^ 0) (nth c leaves null256)).
  { rewrite <- E1. change (2 ^ 0)%nat with 1%nat. split; [cbn; lia|]. split; [lia|]. now rewrite seg_1. }
  assert (Hb0 : branch_ok want p (pbranch st) (c * 2 ^ 0) 0 (2 ^ 0) (Z.of_nat c =? branchpos) (matchlevel st)).
  { rewrite <- E1. change (2 ^ 0)%nat with 1%nat. destruct (pbranch st) as [branch|]; [|exact Hb]. destruct Hb as [Hw Hb].
    rewrite (Hp Hw). split; [assumption|]. destruct (Z.eqb_spec (Z.of_nat c) (Z.of_nat p)) as [E|E].
    - assert (p = c) as -> by lia. split; [lia|]. destruct Hb as [Hb|(_ & _ & ->)]; [|reflexivity].
      apply in_inner_lt in Hb. lia.
    - destruct Hb as [Hb|(Hlt & Hb)]; [now left | right]. split; [lia | assumption]. }
  destruct (add_levels_ok want p 33 c 0 (S c) (inner st) (matchlevel st) _ _ (mutated st) _ ltac:(rewrite Nat.pow_0_r; lia) ltac:(lia) ltac:(lia)
    ltac:(rewrite <- E1; exact Hi) Hcov Hb0) as (a & l & h' & matchh' & mutated' & pbranch' & -> & Hl & Ea & Hi' & (Hr & Hs & Eh) & Hb' & Hm').
  eexists. split; [reflexivity|]. repeat split; cbn [count inner mutated matchlevel Merkle.pbranch].
  - rewrite length_upd. apply Hi.
  - rewrite Ea. apply (inner_store a l _ _ Hl Hi' Eh).
  - intros H. apply Hm' in H. rewrite Hm in H. apply (twins_below_S c a l Ea). tauto.
  - intros H. apply Hm'. rewrite Hm. apply (twins_below_S c a l Ea) in H. tauto.
  - rewrite Ea. now apply in_inner_store.
Qed.

Lemma add_leaves_ok want branchpos p c st :
  Z.of_nat (length leaves) < 2 ^ 32 -> (c <= length leaves)%nat -> (want = true -> branchpos = Z.of_nat p) -> state_ok want p c st ->
  exists st', add_leaves combine branchpos (skipn c leaves) st = Some st' /\ state_ok want p (length leaves) st'.
Proof.
  intros Hlen Hc Hp. remember (length leaves - c)%nat as d eqn:Ed. revert c st Hc Ed. induction d as [|d IH]; intros c st Hc Ed Hst.
  - rewrite skipn_all2 by lia. exists st. replace (length leaves) with c by lia. now split.
  - assert (E : skipn c leaves = nth c leaves null256 :: skipn (S c) leaves).
    { pose proof (seg_1 c ltac:(lia)) as E. unfold MerkleSpec.seg in E. rewrite <- (firstn_skipn 1 (skipn c leaves)), E, skipn_skipn. reflexivity. }
    rewrite E. cbn [add_leaves]. destruct (add_leaf_ok want branchpos p c st Hlen ltac:(lia) Hp Hst) as (st1 & -> & Hst1).
    apply IH; [lia | lia | assumption].
Qed.

(** ** The final sweep *)

Lemma lowest_level_ok fuel m k c :
  (0 < c)%nat -> c = (m * 2 ^ k)%nat -> Z.of_nat c < 2 ^ 32 -> (33 <= fuel + k)%nat ->
  exists a l, lowest_level fuel (Z.of_nat c) k = Some l /\ (l < 32)%nat /\ c = ((2 * a + 1) * 2 ^ l)%nat.
Proof.
  revert m k. induction fuel as [|fuel IH]; intros m k H0 Hc H32 Hf.
  - assert (k < 32)%nat; [|lia]. apply (level_bound (m - 1) k c); [|assumption]. destruct m; [lia|]. rewrite Hc. f_equal. lia.
  - assert (Hk : (k < 32)%nat) by (apply (level_bound (m - 1) k c); [destruct m; [lia|]; rewrite Hc; f_equal; lia | assumption]).
    cbn [lowest_level]. rewrite bit_spec, Hc, quot_self by assumption. destruct (parity m) as [a Ha]. destruct (Nat.odd m); subst m.
    + exists a, k. auto.
    + rewrite <- Hc. apply (IH a (S k)); [assumption | rewrite Hc, Nat.pow_succ_r'; lia | assumption | lia].
Qed.

(** A tree that holds [s] leaves and the [r] leaves after them, all the leaves, and that is
    not higher than it has to be. *)
Definition whole (k s r : nat) : Prop := (s + r = length leaves)%nat /\ (2 ^ k < 2 * length leaves)%nat.

Lemma sweep_levels_ok want p fuel m k r c inner matchlevel h matchh pbranch :
  c = ((m + 1) * 2 ^ k)%nat -> Z.of_nat c < 2 ^ 32 -> (33 <= fuel + k)%nat -> whole k (m * 2 ^ k) r ->
  inner_ok (m * 2 ^ k) inner -> covers (m * 2 ^ k) k r h -> branch_ok want p pbranch (m * 2 ^ k) k r matchh matchlevel ->
  exists a l r' h' matchh' pbranch',
    sweep_levels combine fuel (Z.of_nat c) inner matchlevel k h matchh pbranch = Some (l, h', matchh', pbranch') /\
    (k <= l < 32)%nat /\ c = ((2 * a + 1) * 2 ^ l)%nat /\ whole l (2 * a * 2 ^ l) r' /\ inner_ok (2 * a * 2 ^ l) inner /\
    covers (2 * a * 2 ^ l) l r' h' /\ branch_ok want p pbranch' (2 * a * 2 ^ l) l r' matchh' matchlevel.
Proof.
  revert m k r h matchh pbranch. induction fuel as [|fuel IH]; intros m k r h matchh pbranch Hc H32 Hf [Hn Ht] Hi Hh Hb;
    pose proof (level_bound m k c Hc H32) as Hk; [lia|]. cbn [sweep_levels]. rewrite (bit_next m k c Hk Hc).
  destruct (parity m) as [a Ha]. destruct (Nat.odd m) eqn:Eo; subst m; cbn [negb].
  - pose proof (note_ok want p pbranch a k r inner h matchh matchlevel Hk Hi Hh Hb) as Hnote.
    destruct (note pbranch matchh matchlevel k (nth k inner null256) h) as [pbranch1 matchh1].
    pose proof (covers_combine a k r inner h Hk Hi Hh) as Hh1. pose proof (inner_drop a k inner Hi) as Hi1. pose proof (pow2_S k) as P.
    assert (Hw : whole (S k) (2 * a * 2 ^ k) (2 ^ k + r)) by (destruct Hh as (Hr & _); split; lia).
    replace (2 * a * 2 ^ k)%nat with (a * 2 ^ S k)%nat in Hnote, Hh1, Hi1, Hw by lia.
    destruct (IH a (S k) _ _ matchh1 pbranch1 ltac:(lia) H32 ltac:(lia) Hw Hi1 Hh1 Hnote)
      as (a' & l & r' & h' & matchh' & pbranch' & -> & Hl & Ec & H).
    exists a', l, r', h', matchh', pbranch'. split; [reflexivity|]. split; [lia|]. now split.
  - exists a, k, r, h, matchh, pbranch. repeat split; assumption || lia || apply Hi || apply Hh.
Qed.

Lemma next_multiple a j h : (0 < a)%nat -> (a * 2 ^ j < 2 ^ h)%nat -> (j < h)%nat /\ ((a + 1) * 2 ^ j <= 2 ^ h)%nat.
Proof.
  intros Ha H. assert (Hj : (j < h)%nat).
  { destruct (Nat.lt_ge_cases j h) as [L|L]; [assumption|]. apply (Nat.pow_le_mono_r 2) in L; [|lia]. nia. }
  split; [assumption|]. replace h with (h - j + j)%nat in * by lia. rewrite Nat.pow_add_r in *.
  apply Nat.mul_le_mono_r. apply Nat.mul_lt_mono_pos_r in H; [lia | apply pow2_pos].
Qed.

Lemma sweep_ok want p fuel a k r inner matchlevel h matchh pbranch :
  Z.of_nat (length leaves) <= 2 ^ 31 -> (k < 32)%nat -> (33 <= fuel + k)%nat -> whole k (2 * a * 2 ^ k) r ->
  inner_ok (2 * a * 2 ^ k) inner -> covers (2 * a * 2 ^ k) k r h -> branch_ok want p pbranch (2 * a * 2 ^ k) k r matchh matchlevel ->
  exists pbranch' matchh', sweep combine fuel (Z.of_nat ((2 * a + 1) * 2 ^ k)) inner matchlevel k h matchh pbranch =
    Some (mroot (MerkleSpec.height (length leaves)) leaves, pbranch') /\
  branch_ok want p pbranch' 0 (MerkleSpec.height (length leaves)) (length leaves) matchh' matchlevel.
Proof.
  revert a k r h matchh pbranch. induction fuel as [|fuel IH]; intros a k r h matchh pbranch H31 Hk Hf [Hn Ht] Hi Hh Hb; [lia|].
  cbn [sweep]. rewrite shift_level by assumption. destruct (Z.eqb_spec (Z.of_nat ((2 * a + 1) * 2 ^ k)) (Z.of_nat (2 ^ k))) as [E|E].
  - pose proof (pow2_pos k). assert (a = 0%nat) as -> by nia. cbn [Nat.mul Nat.add] in Hn, Hh, Hb. destruct Hh as (Hr & _ & ->).
    assert (r = length leaves) as -> by lia. assert (k = MerkleSpec.height (length leaves)) as -> by (apply height_unique; lia).
    exists pbranch, matchh. split; [|exact Hb]. do 2 f_equal. unfold MerkleSpec.seg. cbn [skipn]. now rewrite firstn_all.
  - assert (Ha : (0 < a)%nat) by (destruct a; [cbn in E; lia | lia]).
    pose proof (pow2_S k) as P. destruct (next_multiple a (S k) 31 Ha) as [Hk1 Hm].
    { apply Nat2Z.inj_lt. rewrite (Nat2Z.inj_pow 2 31). change (Z.of_nat 2 ^ Z.of_nat 31) with (2 ^ 31). destruct Hh as (Hr & _). lia. }
    assert (B : Z.of_nat ((a + 1) * 2 ^ S k) < 2 ^ 32).
    { apply inj_le in Hm. rewrite (Nat2Z.inj_pow 2 31) in Hm. change (Z.of_nat 2 ^ Z.of_nat 31) with (2 ^ 31) in Hm. lia. }
    assert (Ec : w32 (Z.of_nat ((2 * a + 1) * 2 ^ k) + Z.of_nat (2 ^ k)) = Z.of_nat ((a + 1) * 2 ^ S k)).
    { unfold w32. rewrite Z.mod_small; lia. }
    rewrite Ec. pose proof (covers_double _ _ _ _ Hh) as Hh1.
    assert (Hb1 : branch_ok want p (match pbranch with Some branch => Some (if matchh then branch ++ [h] else branch) | None => None end)
      (2 * a * 2 ^ k) (S k) r matchh matchlevel).
    { destruct pbranch as [branch|]; [|exact Hb]. destruct Hb as [Hw Hb]. split; [assumption|]. destruct matchh; [|exact Hb].
      destruct Hb as [Hp ->]. split; [assumption|]. destruct Hh as (Hr & Hl & ->). cbn [MerkleSpec.mbranch].
      rewrite length_seg by assumption. destruct (Nat.leb_spec r (2 ^ k)); [reflexivity | lia]. }
    replace (2 * a * 2 ^ k)%nat with (a * 2 ^ S k)%nat in * by lia.
    destruct (sweep_levels_ok want p 33 a (S k) r _ inner matchlevel (combine h h) matchh _ eq_refl B ltac:(lia) ltac:(split; [lia | nia]) Hi Hh1 Hb1)
      as (a' & l & r' & h' & matchh' & pbranch' & -> & Hl & Ec' & Hw' & Hi' & Hh' & Hb').
    rewrite Ec'. apply (IH a' l r'); assumption || lia.
Qed.

Lemma MerkleComputation_ok want branchpos p pbranch :
  (0 < length leaves)%nat -> Z.of_nat (length leaves) <= 2 ^ 31 -> (want = true -> branchpos = Z.of_nat p) -> (if want then pbranch <> None else pbranch = None) ->
  exists mutated pbranch' matchh matchlevel,
    MerkleComputation combine leaves branchpos pbranch = Some (MerkleSpec.root null256 combine leaves, mutated, pbranch') /\
    (mutated = true <-> MerkleSpec.has_twins null256 combine leaves) /\
    branch_ok want p pbranch' 0 (MerkleSpec.height (length leaves)) (length leaves) matchh matchlevel.
Proof.
  intros Hlen H31 Hp Hw. assert (H32 : Z.of_nat (length leaves) < 2 ^ 32) by lia.
  unfold MerkleComputation. cbv zeta. destruct (Nat.eqb_spec (length leaves) 0); [lia|].
  set (st0 := {| count := 0; inner := _; matchlevel := _; mutated := _; pbranch := _ |}).
  assert (Hst : state_ok want p 0 st0).
  { split; [reflexivity|]. split; [|split].
    - split; [reflexivity|]. intros i _ Ho. rewrite Nat.Div0.div_0_l in Ho. discriminate Ho.
    - split; [discriminate|]. intros (j & s & Hs & _). pose proof (pow2_pos (S j)). lia.
    - unfold st0. cbn [Merkle.pbranch matchlevel]. destruct pbranch, want; try easy.
      all: split; [reflexivity|]; right; repeat split; lia. }
  destruct (add_leaves_ok want branchpos p 0 st0 H32 ltac:(lia) Hp Hst) as (st & E & Hcount & Hi & Hm & Hb).
  cbn [skipn] in E. rewrite E, Hcount.
  destruct (lowest_level_ok 33 (length leaves) 0 (length leaves) ltac:(lia) ltac:(rewrite Nat.pow_0_r; lia) H32 ltac:(lia)) as (a & l & -> & Hl & El).
  assert (Hcov : covers (2 * a * 2 ^ l) l (2 ^ l) (nth l (inner st) null256)).
  { split; [pose proof (pow2_pos l); lia|]. split; [lia|]. apply inner_lowest; [assumption | now rewrite <- El]. }
  assert (Hbl : branch_ok want p (Merkle.pbranch st) (2 * a * 2 ^ l) l (2 ^ l) (matchlevel st =? Z.of_nat l) (matchlevel st)).
  { destruct (Merkle.pbranch st) as [branch|]; [|exact Hb]. destruct Hb as [Hw' Hb]. split; [assumption|]. rewrite El in Hb.
    destruct (Z.eqb_spec (matchlevel st) (Z.of_nat l)) as [Em|Em].
    - destruct Hb as [(i & _ & _ & Hr & Ei & ->)|(_ & E' & _)]; [|lia]. assert (i = l) as -> by lia. rewrite start_odd in *. split; [lia | reflexivity].
    - destruct Hb as [(i & Hi' & Ho & Hr & Ei & ->)|(Hr & E' & Eb)]; [left | right; repeat split; assumption || lia].
      destruct (Nat.lt_trichotomy i l) as [Hlt|[->|Hgt]]; [now rewrite quot_low in Ho | lia |].
      exists i. unfold start in *. rewrite !quot_odd in * by lia. auto. }
  rewrite El in Hi at 1. pose proof (inner_drop a l _ Hi) as Hi'.
  destruct (sweep_ok want p 33 a l (2 ^ l) (inner st) (matchlevel st) _ (matchlevel st =? Z.of_nat l) (Merkle.pbranch st) H31 Hl ltac:(lia)
    ltac:(split; [lia | nia]) Hi' Hcov Hbl) as (pbranch' & matchh' & Es & Hb').
  rewrite <- El in Es. rewrite Es. exists (mutated st), pbranch', matchh', (matchlevel st).
  assert (Hne : leaves <> []) by (intros E0; rewrite E0 in Hlen; cbn in Hlen; lia). rewrite root_mroot by assumption.
  split; [reflexivity|]. split; [|assumption]. rewrite Hm. split.
  - intros (j & s & _ & T). now exists j, s.
  - intros (j & s & T). exists j, s. split; [apply T | assumption].
Qed.
End Loops.

(** * The functions with the hash of blocks *)

Definition node_hash (a b : uint256) : uint256 := Sha2Spec.sha256 (Sha2Spec.sha256 (a ++ b)).

Lemma combine_Hash_spec buf a b : length buf = 64%nat -> is_hash a -> is_hash b -> combine_Hash buf a b = node_hash a b.
Proof.
  intros Hbuf [Ha La] [Hb Lb].
  apply (Hash256_rep buf (sha256_stream buf Hbuf) _ (a ++ b)); [now apply Forall_app | |].
  - unfold sha_ok. rewrite length_app, La, Lb. reflexivity.
  - exact (two_writes (HS := sha256_stream buf Hbuf) _ _ Ha Hb).
Qed.

Lemma is_hash_node a b : is_hash (node_hash a b).
Proof. exact (sha256_digest _). Qed.

(** The trees of the code's function are those of the hash. *)
Lemma mroot_ext (f g : uint256 -> uint256 -> uint256) k l :
  (forall a b, is_hash a -> is_hash b -> f a b = g a b) -> (forall a b, is_hash a -> is_hash b -> is_hash (f a b)) ->
  Forall is_hash l -> MerkleSpec.mroot null256 f k l = MerkleSpec.mroot null256 g k l /\ is_hash (MerkleSpec.mroot null256 f k l).
Proof.
  intros Hfg Hf. revert l; induction k as [|k IH]; intros l Hl; cbn [MerkleSpec.mroot].
  - split; [reflexivity|]. destruct l; [apply is_hash_null | now apply Forall_inv in Hl].
  - destruct (_ <=? _)%nat.
    + destruct (IH l Hl) as [E H]. rewrite <- E. auto.
    + destruct (IH _ (Forall_take _ (2 ^ k)%nat _ Hl)) as [E1 H1]. destruct (IH _ (Forall_drop _ (2 ^ k)%nat _ Hl)) as [E2 H2]. rewrite <- E1, <- E2. auto.
Qed.

Section Block.
Context (buf : list Z) (Hbuf : length buf = 64%nat).

Lemma combine_Hash_hash a b : is_hash a -> is_hash b -> is_hash (combine_Hash buf a b).
Proof. intros Ha Hb. rewrite combine_Hash_spec by assumption. apply is_hash_node. Qed.

Lemma mroot_node k l : Forall is_hash l -> MerkleSpec.mroot null256 (combine_Hash buf) k l = MerkleSpec.mroot null256 node_hash k l.
Proof. intros Hl. apply mroot_ext; [intros; now apply combine_Hash_spec | apply combine_Hash_hash | assumption]. Qed.

Lemma root_node l : Forall is_hash l -> MerkleSpec.root null256 (combine_Hash buf) l = MerkleSpec.root null256 node_hash l.
Proof.
  intros Hl. destruct l as [|x l]; [reflexivity|]. rewrite !root_mroot by discriminate. now apply mroot_node.
Qed.

Lemma nodes_node k l : Forall is_hash l -> MerkleSpec.nodes null256 (combine_Hash buf) k l = MerkleSpec.nodes null256 node_hash k l.
Proof.
  revert l; induction k as [|k IH]; intros l Hl; [reflexivity|]. cbn [MerkleSpec.nodes].
  assert (Forall is_hash (firstn (2 ^ k)%nat l)) by now apply Forall_take.
  assert (Forall is_hash (skipn (2 ^ k)%nat l)) by now apply Forall_drop.
  rewrite !mroot_node, !IH by assumption. reflexivity.
Qed.

Lemma twins_node l : Forall is_hash l -> MerkleSpec.has_twins null256 (combine_Hash buf) l <-> MerkleSpec.has_twins null256 node_hash l.
Proof.
  intros Hl. unfold MerkleSpec.has_twins, MerkleSpec.twins.
  split; intros (k & s & Hm & Hs & E); exists k, s; (split; [assumption|]); (split; [assumption|]);
    [rewrite !mroot_node in E | rewrite !mroot_node]; auto using is_hash_seg.
Qed.

(** [ComputeMerkleRootFromBranch] climbs from the leaf to the root. *)
Lemma RootFromBranch_climb (combine : uint256 -> uint256 -> uint256) h branch pos :
  ComputeMerkleRootFromBranch combine h branch (Z.of_nat pos) = climb combine h branch pos.
Proof.
  revert h pos; induction branch as [|x branch IH]; intros h pos; [reflexivity|]. cbn [ComputeMerkleRootFromBranch climb]. cbv zeta.
  replace (Z.shiftr (Z.of_nat pos) 1) with (Z.of_nat (pos / 2)) by (rewrite Z.shiftr_div_pow2, Nat2Z.inj_div by lia; reflexivity).
  rewrite IH. f_equal. change (Z.of_nat pos &: 1) with (Z.of_nat pos &: Z.ones 1). rewrite Z.land_ones by lia. change (2 ^ 1) with 2.
  rewrite Zmod_odd, odd_of_nat. now destruct (Nat.odd pos).
Qed.
End Block.

(** C24. The Merkle root: for a block of up to 2^31 transactions [BlockMerkleRoot] returns the
    root of the tree that is built level by level, with the last hash of an odd level
    combined with itself, and it sets [mutated] exactly when two whole subtrees that are
    children of one node have the same root. *)
Theorem merkle_root buf vtx :
  length buf = 64%nat -> Forall is_hash vtx -> Z.of_nat (length vtx) <= 2 ^ 31 ->
  exists mutated, BlockMerkleRoot buf vtx = Some (MerkleSpec.root null256 node_hash vtx, mutated) /\
  (mutated = true <-> MerkleSpec.has_twins null256 node_hash vtx).
Proof.
  intros Hbuf Hv H31. destruct (Nat.eq_dec (length vtx) 0) as [E0|N0].
  - apply length_zero_iff_nil in E0. subst vtx. exists false. split; [reflexivity|]. split; [discriminate|].
    intros (k & s & _ & H & _). pose proof (pow2_pos (S k)). cbn [length] in H. lia.
  - destruct (MerkleComputation_ok (combine_Hash buf) vtx (combine_Hash_hash buf Hbuf) Hv false (w32 (-1)) 0 None
      ltac:(lia) H31 ltac:(discriminate) eq_refl) as (mutated & pbranch & matchh & matchlevel & E & Hm & _).
    exists mutated. unfold BlockMerkleRoot, ComputeMerkleRoot. rewrite E, root_node, Hm by assumption. split; [reflexivity | now apply twins_node].
Qed.

(** The Merkle branch: for every transaction of a block [BlockMerkleBranch] returns as many
    hashes as the tree has levels above the leaves, and [ComputeMerkleRootFromBranch] finds
    the root of the block from the transaction, the branch and the position. *)
Theorem merkle_branch buf vtx pos :
  length buf = 64%nat -> Forall is_hash vtx -> Z.of_nat (length vtx) <= 2 ^ 31 -> (pos < length vtx)%nat ->
  exists branch, BlockMerkleBranch buf vtx (Z.of_nat pos) = Some branch /\
  length branch = Nat.log2_up (length vtx) /\
  ComputeMerkleRootFromBranch (combine_Hash buf) (nth pos vtx null256) branch (Z.of_nat pos) = MerkleSpec.root null256 node_hash vtx.
Proof.
  intros Hbuf Hv H31 Hp.
  destruct (MerkleComputation_ok (combine_Hash buf) vtx (combine_Hash_hash buf Hbuf) Hv true (Z.of_nat pos) pos (Some [])
    ltac:(lia) H31 ltac:(reflexivity) ltac:(discriminate)) as (mutated & pbranch & matchh & matchlevel & E & _ & Hb).
  destruct pbranch as [branch|]; [|discriminate Hb]. destruct Hb as [_ Hb]. unfold BlockMerkleBranch, ComputeMerkleBranch. rewrite E.
  exists branch. split; [reflexivity|]. destruct matchh.
  - destruct Hb as [_ ->]. unfold MerkleSpec.seg. cbn [skipn]. rewrite firstn_all, Nat.sub_0_r. split; [apply length_mbranch|].
    rewrite (RootFromBranch_climb buf), climb_mbranch by (pose proof (height_spec (length vtx) ltac:(lia)); lia).
    rewrite <- (root_node buf Hbuf) by assumption. rewrite root_mroot by (intros ->; cbn in Hp; lia). reflexivity.
  - destruct Hb as [Hb|(Hb & _)]; [apply in_inner_lt in Hb; lia | cbn in Hb; lia].
Qed.

(** The root commits to the leaves. *)
Lemma root_commits buf vtx1 vtx2 root :
  length buf = 64%nat -> Forall is_hash vtx1 -> Forall is_hash vtx2 -> vtx1 <> [] -> vtx2 <> [] ->
  Z.of_nat (length vtx1) <= 2 ^ 31 -> Z.of_nat (length vtx2) <= 2 ^ 31 ->
  BlockMerkleRoot buf vtx1 = Some (root, false) -> BlockMerkleRoot buf vtx2 = Some (root, false) ->
  vtx1 = vtx2 \/ MerkleSpec.collision_in node_hash (MerkleSpec.tree_nodes null256 node_hash vtx1 ++ MerkleSpec.tree_nodes null256 node_hash vtx2) \/
  MerkleSpec.leaf_is_node null256 node_hash vtx1 vtx2 \/ MerkleSpec.leaf_is_node null256 node_hash vtx2 vtx1.
Proof.
  intros Hbuf H1 H2 N1 N2 L1 L2 E1 E2.
  assert (G : forall vtx, Forall is_hash vtx -> vtx <> [] -> Z.of_nat (length vtx) <= 2 ^ 31 -> BlockMerkleRoot buf vtx = Some (root, false) ->
    ~ MerkleSpec.has_twins null256 node_hash vtx /\ root = MerkleSpec.root null256 node_hash vtx).
  { intros vtx Hv Hn Hl E. assert (Hp : (0 < length vtx)%nat) by (destruct vtx; [easy | cbn; lia]).
    destruct (MerkleComputation_ok (combine_Hash buf) vtx (combine_Hash_hash buf Hbuf) Hv false (w32 (-1)) 0 None
      Hp Hl ltac:(discriminate) eq_refl) as (mutated & pbranch & matchh & matchlevel & E' & Hm & _).
    unfold BlockMerkleRoot, ComputeMerkleRoot in E. rewrite E' in E. injection E as <- ->. rewrite root_node by assumption.
    split; [|reflexivity]. rewrite <- (twins_node buf Hbuf) by assumption. rewrite <- Hm. discriminate. }
  destruct (G vtx1 H1 N1 L1 E1) as [T1 R1]. destruct (G vtx2 H2 N2 L2 E2) as [T2 R2].
  apply (root_binding null256 node_hash (list_eq_dec Z.eq_dec)); try assumption. congruence.
Qed.

(** C25. Duplicated transactions (CVE-2012-2459): when [BlockMerkleRoot] returns the same root
    for two blocks and [mutated] for neither, the blocks have the same transactions;
    otherwise two different pairs among those that are hashed in the two trees have the same
    double SHA-256, or a transaction hash of the one block is the hash of a pair in the
    tree of the other. *)
Theorem merkle_binding buf vtx1 vtx2 root :
  length buf = 64%nat -> Forall is_hash vtx1 -> Forall is_hash vtx2 -> vtx1 <> [] -> vtx2 <> [] ->
  Z.of_nat (length vtx1) <= 2 ^ 31 -> Z.of_nat (length vtx2) <= 2 ^ 31 ->
  BlockMerkleRoot buf vtx1 = Some (root, false) -> BlockMerkleRoot buf vtx2 = Some (root, false) ->
  vtx1 = vtx2 \/ MerkleSpec.collision_in node_hash (MerkleSpec.tree_nodes null256 node_hash vtx1 ++ MerkleSpec.tree_nodes null256 node_hash vtx2) \/
  MerkleSpec.leaf_is_node null256 node_hash vtx1 vtx2 \/ MerkleSpec.leaf_is_node null256 node_hash vtx2 vtx1.
Proof. exact (root_commits buf vtx1 vtx2 root). Qed.

(** ** Witnesses *)

(** Leaves for the examples. *)
Definition leaf (n : Z) : uint256 := repeat n 32.

Lemma leaves_hash (l : list Z) : Forall (word 8) l -> Forall is_hash (map leaf l).
Proof.
  intros Hl. apply Forall_map. eapply Forall_impl; [|exact Hl]. intros n Hn. split; [|apply repeat_length].
  apply Forall_forall. intros x Hx. apply repeat_spec in Hx. now subst.
Qed.

Lemma small_bytes : Forall (word 8) [1; 2; 3; 4; 5; 6; 5; 6].
Proof. repeat first [apply Forall_nil | apply Forall_cons]; now split. Qed.

Lemma merkle_root_witness :
  exists mutated, BlockMerkleRoot (repeat 0 64) (map leaf [1; 2; 3; 4; 5; 6; 5; 6]) =
    Some (MerkleSpec.root null256 node_hash (map leaf [1; 2; 3; 4; 5; 6; 5; 6]), mutated) /\
  (mutated = true <-> MerkleSpec.has_twins null256 node_hash (map leaf [1; 2; 3; 4; 5; 6; 5; 6])).
Proof.
  apply merkle_root; [reflexivity | apply leaves_hash, small_bytes | cbn [length map]; lia].
Defined.

Lemma merkle_branch_witness :
  exists branch, BlockMerkleBranch (repeat 0 64) (map leaf [1; 2; 3]) (Z.of_nat 2) = Some branch /\
  length branch = Nat.log2_up 3 /\
  ComputeMerkleRootFromBranch (combine_Hash (repeat 0 64)) (leaf 3) branch (Z.of_nat 2) = MerkleSpec.root null256 node_hash (map leaf [1; 2; 3]).
Proof.
  apply (merkle_branch (repeat 0 64) (map leaf [1; 2; 3]) 2); [reflexivity | apply leaves_hash, (Forall_take _ 3 _ small_bytes) | cbn [length map]; lia | cbn; lia].
Defined.

Lemma merkle_binding_witness :
  map leaf [1; 2] = map leaf [1; 2] \/
  MerkleSpec.collision_in node_hash (MerkleSpec.tree_nodes null256 node_hash (map leaf [1; 2]) ++ MerkleSpec.tree_nodes null256 node_hash (map leaf [1; 2])) \/
  MerkleSpec.leaf_is_node null256 node_hash (map leaf [1; 2]) (map leaf [1; 2]) \/
  MerkleSpec.leaf_is_node null256 node_hash (map leaf [1; 2]) (map leaf [1; 2]).
Proof.
  refine (merkle_binding (repeat 0 64) (map leaf [1; 2]) (map leaf [1; 2]) (MerkleSpec.root null256 node_hash (map leaf [1; 2])) eq_refl _ _ _ _ _ _ _ _);
    try (apply leaves_hash, (Forall_take _ 2 _ small_bytes)); try discriminate; try (vm_compute; reflexivity).
Defined.

(** The pairs that are hashed in a tree of three leaves. *)
Example nodes_of_three :
  MerkleSpec.tree_nodes null256 node_hash (map leaf [1; 2; 3]) =
  [(node_hash (leaf 1) (leaf 2), node_hash (leaf 3) (leaf 3)); (leaf 1, leaf 2); (leaf 3, leaf 3)].
Proof. reflexivity. Qed.

(** The example of the comment: 5 and 6 repeated do not change the root, and are reported. *)
Example merkle_duplicate :
  option_map fst (BlockMerkleRoot (repeat 0 64) (map leaf [1; 2; 3; 4; 5; 6])) = option_map fst (BlockMerkleRoot (repeat 0 64) (map leaf [1; 2; 3; 4; 5; 6; 5; 6])) /\
  option_map snd (BlockMerkleRoot (repeat 0 64) (map leaf [1; 2; 3; 4; 5; 6])) = Some false /\
  option_map snd (BlockMerkleRoot (repeat 0 64) (map leaf [1; 2; 3; 4; 5; 6; 5; 6])) = Some true.
Proof. vm_compute. auto. Qed.
