(* ===== verification/Streams.v ===== *)
(** streams.h: what the templates of serialize.h use of a stream, as an interface, and
    [CBaseDataStream], the buffer of bytes with a read position that implements it. The
    exceptions of the code are the results [Throw]. *)
From Stdlib Require Import ZifyNat.
From S2P Require Import Prelude CryptoCommon.
Import CryptoCommon.

(** * Exceptions *)

(** [EndOfData]: the end of a buffer or of a file; else one constructor for each message of [std::ios_base::failure] in serialize.h and
    streams.h, then those of sapling/incrementalmerkletree.cpp and its other exceptions;
    [OutOfFuel] is not one of them: no bounded loop here ends with it. *)
Inductive failure :=
| EndOfData
| NonCanonical
| SizeTooLarge
| VarIntTooLarge
| TypeLimit
| StringLimit
| ValueOutOfRange
| NegativeSize
| NullFile
| TooManyParents
| ParentNotCanonical
| RightWithoutLeft
| ParentsWithoutLeft
| TreeIsFull
| NoCursor
| BeginningOfTree
| LengthError
| OutOfRange
| AssertionFailed
| OutOfFuel.

Inductive result (A : Type) :=
| Ok (a : A)
| Throw (e : failure).
Arguments Ok {A} a.
Arguments Throw {A} e.

Definition bind {A B} (r : result A) (k : A -> result B) : result B :=
  match r with
  | Ok a => k a
  | Throw e => Throw e
  end.
Notation "'let?' x := r 'in' k" := (bind r (fun x => k))
  (at level 10, x name, r at level 200, k at level 200).
Notation "'let?' ( x , y ) := r 'in' k" := (bind r (fun p => let '(x, y) := p in k))
  (at level 10, x name, y name, r at level 200, k at level 200).

Lemma bind_Ok {A B} (r : result A) (k : A -> result B) b :
  bind r k = Ok b -> exists a, r = Ok a /\ k a = Ok b.
Proof. destruct r as [a|e]; [now exists a | discriminate]. Qed.

(** * The interface *)

(** [s.read(pch, nSize)], with the bytes that it stores, and [s.ignore(nSize)], called with
    an [unsigned int]. *)
Class Reader (S : Type) := {
  read : Z -> S -> result (list Z * S);
  ignore : Z -> S -> result S
}.

(** The calls of the templates read fewer than 2^31 bytes. What a stream promises them:
    they get the next bytes, in order, and [EndOfData] when there are not that many, and the
    same number of bytes is passed over by [ignore]. For 2^31 bytes and more [ignore] may
    take the number for a negative one, or pass over that many bytes. *)
Class ReaderLaws (S : Type) {R : Reader S} := {
  ready : S -> Prop;
  content : S -> list Z;
  content_bytes s : ready s -> bytes (content s);
  read_Ok n s : ready s -> 0 <= n < 2 ^ 31 -> n <= Z.of_nat (length (content s)) ->
    exists s', read n s = Ok (firstn (Z.to_nat n) (content s), s') /\ ready s' /\ content s' = skipn (Z.to_nat n) (content s);
  read_end n s : ready s -> 0 <= n < 2 ^ 31 -> Z.of_nat (length (content s)) < n -> read n s = Throw EndOfData;
  ignore_Ok n s : ready s -> 0 <= n < 2 ^ 31 -> n <= Z.of_nat (length (content s)) ->
    exists s', ignore n s = Ok s' /\ ready s' /\ content s' = skipn (Z.to_nat n) (content s);
  ignore_end n s : ready s -> 0 <= n < 2 ^ 31 -> Z.of_nat (length (content s)) < n -> ignore n s = Throw EndOfData;
  ignore_large n s : ready s -> 2 ^ 31 <= n < 2 ^ 32 ->
    match ignore n s with
    | Ok s' => ready s' /\ content s' = skipn (Z.to_nat n) (content s) /\ n <= Z.of_nat (length (content s))
    | Throw e => e = NegativeSize \/ (e = EndOfData /\ Z.of_nat (length (content s)) < n)
    end
}.

(** An [unsigned int] as an [int]. *)
Definition as_int (n : Z) : Z := if n <? 2 ^ 31 then n else n - 2 ^ 32.

(** * CBaseDataStream *)

Module CDataStream.

Record stream := {
  vch : list Z;
  nReadPos : Z
}.

(** A constructor with the bytes [vchIn]; [nType] and [nVersion] are not modelled. *)
Definition Init (vchIn : list Z) : stream := {| vch := vchIn; nReadPos := 0 |}.

Definition size (s : stream) : Z := w64 (Z.of_nat (length (vch s)) - nReadPos s).
Definition empty (s : stream) : bool := Z.of_nat (length (vch s)) =? nReadPos s.
Definition eof (s : stream) : bool := size s =? 0.
Definition clear (s : stream) : stream := {| vch := []; nReadPos := 0 |}.

(** From [begin()] to [end()]: [str] copies it, [operator+=] appends it to a buffer. *)
Definition str (s : stream) : list Z := skipn (Z.to_nat (nReadPos s)) (vch s).
Definition op_add_assign (s b : stream) : stream := {| vch := vch s ++ str b; nReadPos := nReadPos s |}.

Definition Compact (s : stream) : stream := {| vch := skipn (Z.to_nat (nReadPos s)) (vch s); nReadPos := 0 |}.

Definition Rewind (n : Z) (s : stream) : bool * stream :=
  if n >? nReadPos s then (false, s)
  else (true, {| vch := vch s; nReadPos := w32 (nReadPos s - n) |}).

(** [nReadPosNext] is an [unsigned int]. *)
Definition read (nSize : Z) (s : stream) : result (list Z * stream) :=
  if nSize =? 0 then Ok ([], s)
  else
    let nReadPosNext := w32 (nReadPos s + nSize) in
    if nReadPosNext >? Z.of_nat (length (vch s)) then Throw EndOfData
    else
      let pch := firstn (Z.to_nat nSize) (skipn (Z.to_nat (nReadPos s)) (vch s)) in
      if nReadPosNext =? Z.of_nat (length (vch s)) then Ok (pch, {| vch := []; nReadPos := 0 |})
      else Ok (pch, {| vch := vch s; nReadPos := nReadPosNext |}).

(** [nSize] is an [int]. *)
Definition ignore (nSize : Z) (s : stream) : result stream :=
  if nSize <? 0 then Throw NegativeSize
  else
    let nReadPosNext := w32 (nReadPos s + nSize) in
    if nReadPosNext >=? Z.of_nat (length (vch s)) then
      if nReadPosNext >? Z.of_nat (length (vch s)) then Throw EndOfData
      else Ok {| vch := []; nReadPos := 0 |}
    else Ok {| vch := vch s; nReadPos := nReadPosNext |}.

Definition write (pch : list Z) (s : stream) : stream := {| vch := vch s ++ pch; nReadPos := nReadPos s |}.

(** [GetAndClear(data)]: [data] and the buffer after it. *)
Definition GetAndClear (data : list Z) (s : stream) : list Z * stream := (data ++ str s, clear s).

End CDataStream.
Import CDataStream.

(** ** A queue of bytes *)

(** The buffer holds bytes, fewer than 2^31, and the position is in it. *)
Definition valid (s : stream) : Prop :=
  bytes (vch s) /\ Z.of_nat (length (vch s)) < 2 ^ 31 /\ 0 <= nReadPos s <= Z.of_nat (length (vch s)).

Lemma length_str s : valid s -> Z.of_nat (length (str s)) = Z.of_nat (length (vch s)) - nReadPos s.
Proof. intros (_ & _ & H). unfold str. rewrite length_skipn. lia. Qed.

Lemma bytes_str s : valid s -> bytes (str s).
Proof. intros (H & _). now apply Forall_drop. Qed.

Lemma next_pos s n : valid s -> 0 <= n < 2 ^ 31 -> w32 (nReadPos s + n) = nReadPos s + n.
Proof. intros (_ & H1 & H2) Hn. apply Z.mod_small. lia. Qed.

Lemma valid_Init l : bytes l -> Z.of_nat (length l) < 2 ^ 31 -> valid (Init l).
Proof. intros Hb Hl. split; [assumption|]. split; [assumption | cbn; lia]. Qed.

Lemma valid_clear : valid {| vch := []; nReadPos := 0 |}.
Proof. apply (valid_Init []); [constructor | cbn; lia]. Qed.

Lemma valid_move s p : valid s -> nReadPos s <= p <= Z.of_nat (length (vch s)) -> valid {| vch := vch s; nReadPos := p |}.
Proof. intros (H1 & H2 & H3) Hp. split; [assumption|]. split; [assumption | cbn; lia]. Qed.

Lemma skipn_str s n : 0 <= nReadPos s -> 0 <= n -> skipn (Z.to_nat (nReadPos s + n)) (vch s) = skipn (Z.to_nat n) (str s).
Proof. intros Hp Hn. unfold str. rewrite skipn_skipn. f_equal. lia. Qed.

#[export] Instance stream_reader : Reader stream :=
  {| Streams.read := CDataStream.read; Streams.ignore nSize := CDataStream.ignore (as_int nSize) |}.

Lemma stream_read_Ok n s :
  valid s -> 0 <= n < 2 ^ 31 -> n <= Z.of_nat (length (str s)) ->
  exists s', CDataStream.read n s = Ok (firstn (Z.to_nat n) (str s), s') /\ valid s' /\ str s' = skipn (Z.to_nat n) (str s).
Proof.
  intros Hs Hn Hl. unfold CDataStream.read. pose proof (length_str s Hs) as L. rewrite next_pos by assumption.
  destruct (Z.eqb_spec n 0) as [->|Hz]; [exists s; auto|].
  destruct (Z.gtb_spec (nReadPos s + n) (Z.of_nat (length (vch s)))); [lia|].
  destruct (Z.eqb_spec (nReadPos s + n) (Z.of_nat (length (vch s)))).
  - eexists. split; [reflexivity|]. split; [apply valid_clear|]. rewrite skipn_all2 by lia. reflexivity.
  - eexists. split; [reflexivity|]. split; [apply valid_move; [assumption | lia]|].
    refine (skipn_str s n _ _); [apply Hs | lia].
Qed.

Lemma stream_read_end n s :
  valid s -> 0 <= n < 2 ^ 31 -> Z.of_nat (length (str s)) < n -> CDataStream.read n s = Throw EndOfData.
Proof.
  intros Hs Hn Hl. unfold CDataStream.read. rewrite length_str in Hl by assumption. rewrite next_pos by assumption.
  destruct (Z.eqb_spec n 0) as [->|Hz]; [destruct Hs as (_ & _ & Hs); lia|].
  destruct (Z.gtb_spec (nReadPos s + n) (Z.of_nat (length (vch s)))); [reflexivity | lia].
Qed.

(** What the operations do to the bytes between [begin()] and [end()]. *)
Lemma str_write pch s : valid s -> str (CDataStream.write pch s) = str s ++ pch.
Proof.
  intros (_ & _ & H). unfold str, CDataStream.write. cbn [vch nReadPos]. rewrite skipn_app.
  replace (_ - length (vch s))%nat with 0%nat by lia. reflexivity.
Qed.

Lemma str_ignore n s :
  valid s -> 0 <= n < 2 ^ 31 ->
  if n <=? Z.of_nat (length (str s))
  then exists s', ignore n s = Ok s' /\ valid s' /\ str s' = skipn (Z.to_nat n) (str s)
  else ignore n s = Throw EndOfData.
Proof.
  intros Hs Hn. unfold ignore. pose proof (length_str s Hs) as L. rewrite next_pos by assumption.
  destruct (Z.ltb_spec n 0); [lia|]. rewrite Z.geb_leb.
  destruct (Z.leb_spec n (Z.of_nat (length (str s)))), (Z.leb_spec (Z.of_nat (length (vch s))) (nReadPos s + n));
    try destruct (Z.gtb_spec (nReadPos s + n) (Z.of_nat (length (vch s)))); try lia; try reflexivity.
  - eexists. split; [reflexivity|]. split; [apply valid_clear|]. rewrite skipn_all2 by lia. reflexivity.
  - eexists. split; [reflexivity|]. split; [apply valid_move; [assumption | lia]|].
    refine (skipn_str s n _ _); [apply Hs | lia].
Qed.

Lemma stream_ignore_Ok n s :
  valid s -> 0 <= n < 2 ^ 31 -> n <= Z.of_nat (length (str s)) ->
  exists s', ignore (as_int n) s = Ok s' /\ valid s' /\ str s' = skipn (Z.to_nat n) (str s).
Proof.
  intros Hs Hn Hl. pose proof (str_ignore n s Hs Hn) as H. unfold as_int. destruct (Z.ltb_spec n (2 ^ 31)); [|lia].
  destruct (Z.leb_spec n (Z.of_nat (length (str s)))); [exact H | lia].
Qed.

Lemma stream_ignore_end n s : valid s -> 0 <= n < 2 ^ 31 -> Z.of_nat (length (str s)) < n -> ignore (as_int n) s = Throw EndOfData.
Proof.
  intros Hs Hn Hl. pose proof (str_ignore n s Hs Hn) as H. unfold as_int. destruct (Z.ltb_spec n (2 ^ 31)); [|lia].
  destruct (Z.leb_spec n (Z.of_nat (length (str s)))); [lia | exact H].
Qed.

(** The [int] is negative. *)
Lemma stream_ignore_large n s : valid s -> 2 ^ 31 <= n < 2 ^ 32 ->
  match ignore (as_int n) s with
  | Ok s' => valid s' /\ str s' = skipn (Z.to_nat n) (str s) /\ n <= Z.of_nat (length (str s))
  | Throw e => e = NegativeSize \/ (e = EndOfData /\ Z.of_nat (length (str s)) < n)
  end.
Proof.
  intros _ Hn. unfold as_int. destruct (Z.ltb_spec n (2 ^ 31)); [lia|]. unfold ignore. destruct (Z.ltb_spec (n - 2 ^ 32) 0); [now left | lia].
Qed.

#[export] Instance stream_laws : ReaderLaws stream := {
  ready := valid;
  content := str;
  content_bytes := bytes_str;
  read_Ok := stream_read_Ok;
  read_end := stream_read_end;
  ignore_Ok := stream_ignore_Ok;
  ignore_end := stream_ignore_end;
  ignore_large := stream_ignore_large
}.

Lemma str_Compact s : str (Compact s) = str s.
Proof. reflexivity. Qed.

(** [Rewind] after a read that does not reach the end takes it back. *)
Lemma Rewind_read n s l s' :
  valid s -> 0 < n < Z.of_nat (length (str s)) -> CDataStream.read n s = Ok (l, s') -> Rewind n s' = (true, s).
Proof.
  intros Hs Hn. pose proof (length_str s Hs) as L. destruct Hs as (Hb & Hl & Hp). unfold CDataStream.read.
  rewrite next_pos by (try split; auto; lia). destruct (Z.eqb_spec n 0); [lia|].
  destruct (Z.gtb_spec (nReadPos s + n) (Z.of_nat (length (vch s)))); [lia|].
  destruct (Z.eqb_spec (nReadPos s + n) (Z.of_nat (length (vch s)))); [lia|].
  intros [= _ <-]. unfold Rewind. cbn [nReadPos vch]. destruct (Z.gtb_spec n (nReadPos s + n)); [lia|].
  rewrite Z.add_simpl_r. unfold w32. rewrite Z.mod_small by lia. now destruct s.
Qed.

(** [CDataStream] is a queue of bytes: [read] takes them from the front and throws when there
    are not enough, [ignore] drops them, [write] and [operator+=] add at the end, [Compact]
    changes nothing, [GetAndClear] takes everything, and [Rewind] takes back a read that did
    not reach the end. *)
Theorem stream_queue (s : stream) :
  valid s ->
  (forall n, 0 <= n < 2 ^ 31 ->
     if n <=? Z.of_nat (length (str s)) then
       (exists s', CDataStream.read n s = Ok (firstn (Z.to_nat n) (str s), s') /\ valid s' /\ str s' = skipn (Z.to_nat n) (str s)) /\
       (exists s', ignore n s = Ok s' /\ valid s' /\ str s' = skipn (Z.to_nat n) (str s))
     else CDataStream.read n s = Throw EndOfData /\ ignore n s = Throw EndOfData) /\
  (forall pch, str (CDataStream.write pch s) = str s ++ pch) /\
  (forall b, str (op_add_assign s b) = str s ++ str b) /\
  (forall data, GetAndClear data s = (data ++ str s, clear s)) /\ str (clear s) = [] /\ str (Compact s) = str s /\
  size s = Z.of_nat (length (str s)) /\ empty s = (length (str s) =? 0)%nat /\
  (forall n l s', 0 < n < Z.of_nat (length (str s)) -> CDataStream.read n s = Ok (l, s') -> Rewind n s' = (true, s)).
Proof.
  intros Hs. pose proof (length_str s Hs) as L. split; [|repeat split].
  - intros n Hn. pose proof (str_ignore n s Hs Hn) as I. destruct (Z.leb_spec n (Z.of_nat (length (str s)))).
    + split; [now apply stream_read_Ok | exact I].
    + split; [now apply stream_read_end | exact I].
  - intros pch. now apply str_write.
  - intros b. now apply (str_write (str b)).
  - unfold size, w64. destruct Hs as (_ & H1 & H2). rewrite Z.mod_small; lia.
  - unfold empty. destruct (Z.eqb_spec (Z.of_nat (length (vch s))) (nReadPos s)), (Nat.eqb_spec (length (str s)) 0); (reflexivity || lia).
  - intros n l s' Hn E. now apply (Rewind_read n s l).
Qed.

Lemma stream_queue_witness :
  let s := Init [1; 2; 3] in
  (forall pch, str (CDataStream.write pch s) = [1; 2; 3] ++ pch) /\
  (forall n l s', 0 < n < 3 -> CDataStream.read n s = Ok (l, s') -> Rewind n s' = (true, s)).
Proof.
  destruct (stream_queue (Init [1; 2; 3])) as (_ & H1 & _ & _ & _ & _ & _ & _ & H2); [|exact (conj H1 H2)].
  apply valid_Init; [apply words_check; reflexivity | reflexivity].
Defined.
