(* ===== verification/AutoFile.v ===== *)
(** streams.h: reading from a [CAutoFile], the wrapper of a file, as an implementation of
    the interface of streams. *)
From Stdlib Require Import ZifyNat.
From S2P Require Import Prelude CryptoCommon Streams.
Import CryptoCommon.

Module CAutoFile.

(** The wrapped handle: null, or a file with the bytes that are left to be read; the errors
    of [fread] other than the end of the file are not modelled. *)
Record autofile := { file : option (list Z) }.

(** [fread(pch, 1, nSize, file)]: the bytes that it gets and the file after it. *)
Definition fread (nSize : Z) (l : list Z) : list Z * list Z := (firstn (Z.to_nat nSize) l, skipn (Z.to_nat nSize) l).

Definition read (nSize : Z) (s : autofile) : result (list Z * autofile) :=
  match file s with
  | None => Throw NullFile
  | Some l =>
      let '(pch, l) := fread nSize l in
      if negb (Z.of_nat (length pch) =? nSize) then Throw EndOfData else Ok (pch, {| file := Some l |})
  end.

(** The loop passes over 4096 bytes in a turn. *)
Fixpoint ignore_loop (fuel : nat) (nSize : Z) (l : list Z) : result autofile :=
  match fuel with
  | O => Throw OutOfFuel
  | S fuel =>
      if nSize >? 0 then
        let nNow := Z.min nSize 4096 in
        let '(data, l) := fread nNow l in
        if negb (Z.of_nat (length data) =? nNow) then Throw EndOfData else ignore_loop fuel (nSize - nNow) l
      else Ok {| file := Some l |}
  end.

(** [nSize] is a [size_t]. *)
Definition ignore (nSize : Z) (s : autofile) : result autofile :=
  match file s with
  | None => Throw NullFile
  | Some l => ignore_loop (S (Z.to_nat ((nSize + 4095) / 4096))) nSize l
  end.
End CAutoFile.
Import CAutoFile.

#[export] Instance file_reader : Reader autofile := {| Streams.read := CAutoFile.read; Streams.ignore := CAutoFile.ignore |}.

Definition contents (s : autofile) : list Z := match file s with Some l => l | None => [] end.
Definition opened (s : autofile) : Prop := bytes (contents s) /\ file s <> None.

Lemma file_bytes s : opened s -> bytes (contents s).
Proof. intros H. apply H. Qed.

Lemma fread_all n (l : list Z) : 0 <= n <= Z.of_nat (length l) -> Z.of_nat (length (firstn (Z.to_nat n) l)) = n.
Proof. intros H. rewrite length_firstn. lia. Qed.

Lemma file_read_Ok n s :
  opened s -> 0 <= n < 2 ^ 31 -> n <= Z.of_nat (length (contents s)) ->
  exists s', CAutoFile.read n s = Ok (firstn (Z.to_nat n) (contents s), s') /\ opened s' /\ contents s' = skipn (Z.to_nat n) (contents s).
Proof.
  intros [Hb Hf] Hn Hl. destruct s as [[l|]]; [|now destruct Hf]. unfold CAutoFile.read, fread, contents in *. cbn [file] in *.
  rewrite fread_all, Z.eqb_refl by lia. eexists. split; [reflexivity|]. split; [split; [now apply Forall_drop | discriminate] | reflexivity].
Qed.

Lemma file_read_end n s : opened s -> 0 <= n < 2 ^ 31 -> Z.of_nat (length (contents s)) < n -> CAutoFile.read n s = Throw EndOfData.
Proof.
  intros [_ Hf] Hn Hl. destruct s as [[l|]]; [|now destruct Hf]. unfold CAutoFile.read, fread, contents in *. cbn [file] in *.
  rewrite length_firstn. destruct (Z.eqb_spec (Z.of_nat (Init.Nat.min (Z.to_nat n) (length l))) n); [lia | reflexivity].
Qed.

(** The loop passes over as many bytes as it is called with, whatever their number. *)
Lemma ignore_loop_spec fuel n l :
  0 <= n -> (Z.to_nat ((n + 4095) / 4096) < fuel)%nat ->
  ignore_loop fuel n l = if n <=? Z.of_nat (length l) then Ok {| file := Some (skipn (Z.to_nat n) l) |} else Throw EndOfData.
Proof.
  revert n l; induction fuel as [|fuel IH]; intros n l Hn Hf; [lia|]. cbn [ignore_loop]. unfold fread.
  destruct (Z.gtb_spec n 0).
  - rewrite length_firstn. destruct (Z.eqb_spec (Z.of_nat (Init.Nat.min (Z.to_nat (Z.min n 4096)) (length l))) (Z.min n 4096)) as [E|E]; cbn [negb].
    + rewrite IH by lia. rewrite length_skipn, skipn_skipn.
      replace (Z.to_nat (n - Z.min n 4096) + Z.to_nat (Z.min n 4096))%nat with (Z.to_nat n) by lia.
      destruct (Z.leb_spec n (Z.of_nat (length l))), (Z.leb_spec (n - Z.min n 4096) (Z.of_nat (length l - Z.to_nat (Z.min n 4096)))); (lia || reflexivity).
    + destruct (Z.leb_spec n (Z.of_nat (length l))); [lia | reflexivity].
  - replace n with 0 by lia. destruct (Z.leb_spec 0 (Z.of_nat (length l))); [reflexivity | lia].
Qed.

Lemma file_ignore_spec n s : opened s -> 0 <= n ->
  CAutoFile.ignore n s =
  if n <=? Z.of_nat (length (contents s)) then Ok {| file := Some (skipn (Z.to_nat n) (contents s)) |} else Throw EndOfData.
Proof.
  intros [_ Hf] Hn. destruct s as [[l|]]; [|now destruct Hf]. unfold CAutoFile.ignore, contents. cbn [file]. apply ignore_loop_spec; lia.
Qed.

Lemma opened_skip n s : opened s -> opened {| file := Some (skipn n (contents s)) |}.
Proof. intros [Hb _]. split; [now apply Forall_drop | discriminate]. Qed.

Lemma file_ignore_Ok n s :
  opened s -> 0 <= n < 2 ^ 31 -> n <= Z.of_nat (length (contents s)) ->
  exists s', CAutoFile.ignore n s = Ok s' /\ opened s' /\ contents s' = skipn (Z.to_nat n) (contents s).
Proof.
  intros Hs Hn Hl. rewrite file_ignore_spec by (assumption || lia).
  destruct (Z.leb_spec n (Z.of_nat (length (contents s)))); [|lia]. eexists. split; [reflexivity|]. split; [now apply opened_skip | reflexivity].
Qed.

Lemma file_ignore_end n s : opened s -> 0 <= n < 2 ^ 31 -> Z.of_nat (length (contents s)) < n -> CAutoFile.ignore n s = Throw EndOfData.
Proof.
  intros Hs Hn Hl. rewrite file_ignore_spec by (assumption || lia). destruct (Z.leb_spec n (Z.of_nat (length (contents s)))); [lia | reflexivity].
Qed.

Lemma file_ignore_large n s : opened s -> 2 ^ 31 <= n < 2 ^ 32 ->
  match CAutoFile.ignore n s with
  | Ok s' => opened s' /\ contents s' = skipn (Z.to_nat n) (contents s) /\ n <= Z.of_nat (length (contents s))
  | Throw e => e = NegativeSize \/ (e = EndOfData /\ Z.of_nat (length (contents s)) < n)
  end.
Proof.
  intros Hs Hn. rewrite file_ignore_spec by (assumption || lia).
  destruct (Z.leb_spec n (Z.of_nat (length (contents s)))) as [Hl|Hl]; [|now right]. split; [now apply opened_skip|]. now split.
Qed.

#[export] Instance file_laws : ReaderLaws autofile := {
  ready := opened;
  content := contents;
  content_bytes := file_bytes;
  read_Ok := file_read_Ok;
  read_end := file_read_end;
  ignore_Ok := file_ignore_Ok;
  ignore_end := file_ignore_end;
  ignore_large := file_ignore_large
}.

(** 4100 bytes are passed over in two turns; a buffer refuses a number that is not an [int]. *)
Example file_ignore : CAutoFile.ignore 4100 {| file := Some (repeat 7 4101) |} = Ok {| file := Some [7] |}.
Proof. reflexivity. Qed.
Example buffer_refuses : Streams.ignore (2 ^ 31) (CDataStream.Init [1; 2]) = Throw NegativeSize.
Proof. reflexivity. Qed.
