(* ===== verification/Serialize.v ===== *)
(** serialize.h: the serialization of integers, CompactSize and VarInt numbers, byte
    vectors, vectors, strings, pairs, optional values and arrays. A formatter is a pair of
    functions, as [DefaultFormatter], [VarIntFormatter], [CompactSizeFormatter] and
    [VectorFormatter] of the code are: [ser] gives the bytes that [Ser] passes to
    [s.write], [unser] reads from any stream. *)
From Stdlib Require Import ZifyNat.
From S2P Require Import Prelude CryptoCommon Streams.
Import CryptoCommon.

Record format (A : Type) := {
  ser : A -> list Z;
  unser : forall S : Type, Reader S -> S -> result (A * S)
}.
Arguments ser {A} f a : rename.
Arguments unser {A} f {S R} s : rename.

Definition MAX_SIZE : Z := 0x02000000.
Definition MAX_VECTOR_ALLOCATE : Z := 5000000.

(** The values of [int16_t], [int32_t] and [int64_t] from their bits. *)
Definition signed (w x : Z) : Z := if x <? 2 ^ (w - 1) then x else x - 2 ^ w.

Section Read.
Context {S : Type} {R : Reader S}.

Definition ser_readdata8 (s : S) : result (Z * S) := let? (obj, s) := read 1 s in Ok (le_combine obj, s).
Definition ser_readdata16 (s : S) : result (Z * S) := let? (obj, s) := read 2 s in Ok (le_combine obj, s).
Definition ser_readdata16be (s : S) : result (Z * S) := let? (obj, s) := read 2 s in Ok (be16toh (le_combine obj), s).
Definition ser_readdata32 (s : S) : result (Z * S) := let? (obj, s) := read 4 s in Ok (le_combine obj, s).
Definition ser_readdata64 (s : S) : result (Z * S) := let? (obj, s) := read 8 s in Ok (le_combine obj, s).
End Read.

(** [obj] has the width of the parameter. *)
Definition ser_writedata8 (obj : Z) : list Z := le_split 1 (obj mod 2 ^ 8).
Definition ser_writedata16 (obj : Z) : list Z := le_split 2 (obj mod 2 ^ 16).
Definition ser_writedata16be (obj : Z) : list Z := le_split 2 (be16toh (obj mod 2 ^ 16)).
Definition ser_writedata32 (obj : Z) : list Z := le_split 4 (obj mod 2 ^ 32).
Definition ser_writedata64 (obj : Z) : list Z := le_split 8 (obj mod 2 ^ 64).

(** * Basic types *)

Definition uint8F : format Z := {| ser := ser_writedata8; unser S R s := ser_readdata8 s |}.
Definition uint16F : format Z := {| ser := ser_writedata16; unser S R s := ser_readdata16 s |}.
Definition uint16beF : format Z := {| ser := ser_writedata16be; unser S R s := ser_readdata16be s |}.
Definition uint32F : format Z := {| ser := ser_writedata32; unser S R s := ser_readdata32 s |}.
Definition uint64F : format Z := {| ser := ser_writedata64; unser S R s := ser_readdata64 s |}.
Definition int16F : format Z :=
  {| ser := ser_writedata16; unser S R s := let? (a, s) := ser_readdata16 s in Ok (signed 16 a, s) |}.
Definition int32F : format Z :=
  {| ser := ser_writedata32; unser S R s := let? (a, s) := ser_readdata32 s in Ok (signed 32 a, s) |}.
Definition int64F : format Z :=
  {| ser := ser_writedata64; unser S R s := let? (a, s) := ser_readdata64 s in Ok (signed 64 a, s) |}.
Definition boolF : format bool :=
  {| ser := fun a : bool => ser_writedata8 (if a then 1 else 0);
     unser S R s := let? (f, s) := ser_readdata8 s in Ok (negb (f =? 0), s) |}.

(** [char (&a)[N]], [unsigned char (&a)[N]], a [Span] and the opaque blobs of uint256.h. *)
Definition blobF (N : nat) : format (list Z) :=
  {| ser := fun a => a; unser S R s := read (Z.of_nat N) s |}.

(** * CompactSize *)

Definition GetSizeOfCompactSize (nSize : Z) : Z :=
  if nSize <? 253 then 1
  else if nSize <=? 0xFFFF then 1 + 2
  else if nSize <=? 0xFFFFFFFF then 1 + 4
  else 1 + 8.

Definition WriteCompactSize (nSize : Z) : list Z :=
  if nSize <? 253 then ser_writedata8 nSize
  else if nSize <=? 0xFFFF then ser_writedata8 253 ++ ser_writedata16 nSize
  else if nSize <=? 0xFFFFFFFF then ser_writedata8 254 ++ ser_writedata32 nSize
  else ser_writedata8 255 ++ ser_writedata64 nSize.

Definition ReadCompactSize {S} {R : Reader S} (range_check : bool) (s : S) : result (Z * S) :=
  let? (chSize, s) := ser_readdata8 s in
  let? (nSizeRet, s) :=
    if chSize <? 253 then Ok (chSize, s)
    else if chSize =? 253 then
      let? (n, s) := ser_readdata16 s in if n <? 253 then Throw NonCanonical else Ok (n, s)
    else if chSize =? 254 then
      let? (n, s) := ser_readdata32 s in if n <? 0x10000 then Throw NonCanonical else Ok (n, s)
    else
      let? (n, s) := ser_readdata64 s in if n <? 0x100000000 then Throw NonCanonical else Ok (n, s) in
  if range_check && (nSizeRet >? MAX_SIZE) then Throw SizeTooLarge else Ok (nSizeRet, s).

(** For an unsigned type with the largest value [max]. *)
Definition CompactSizeFormatter (RangeCheck : bool) (max : Z) : format Z :=
  {| ser := WriteCompactSize;
     unser S R s :=
       let? (n, s) := ReadCompactSize RangeCheck s in
       if n >? max then Throw TypeLimit else Ok (n, s) |}.

(** * VarInt *)

Section VarInt.
(** [sizeof(n) * 8] and the largest value of the type. *)
Context (w max : Z).

(** A type has at most 64 bits, a number at most 10 digits. *)
Fixpoint GetSizeOfVarInt_loop (fuel : nat) (n nRet : Z) : option Z :=
  match fuel with
  | O => None
  | S fuel =>
      let nRet := nRet + 1 in
      if n <=? 0x7F then Some nRet else GetSizeOfVarInt_loop fuel (Z.shiftr n 7 - 1) nRet
  end.
Definition GetSizeOfVarInt (n : Z) : option Z := GetSizeOfVarInt_loop 10 n 0.

(** The first loop: the list of the digits [tmp[0..len]]; [None] when [tmp] is too short. *)
Fixpoint WriteVarInt_loop (room : nat) (n : Z) (tmp : list Z) : option (list Z) :=
  match room with
  | O => None
  | S room =>
      let tmp := tmp ++ [(n &: 0x7F) |: (if (length tmp =? 0)%nat then 0x00 else 0x80)] in
      if n <=? 0x7F then Some tmp else WriteVarInt_loop room (Z.shiftr n 7 - 1) tmp
  end.

(** The second loop writes the digits from the last one. *)
Definition WriteVarInt (n : Z) : option (list Z) :=
  option_map (fun tmp => concat (map ser_writedata8 (rev tmp))) (WriteVarInt_loop (Z.to_nat ((w + 6) / 7)) n []).

(** The value of the type [I] that the bits of [x] are, in two's complement when it is signed. *)
Definition to_I (x : Z) : Z :=
  let y := x mod 2 ^ w in
  if y >? max then y - 2 ^ w else y.

Fixpoint ReadVarInt_loop {S} {R : Reader S} (fuel : nat) (n : Z) (s : S) : result (Z * S) :=
  match fuel with
  | O => Throw OutOfFuel
  | Datatypes.S fuel =>
      let? (chData, s) := ser_readdata8 s in
      if n >? Z.shiftr max 7 then Throw VarIntTooLarge
      else
        let n := to_I (Z.shiftl n 7 |: (chData &: 0x7F)) in
        if negb (chData &: 0x80 =? 0) then
          if n =? max then Throw VarIntTooLarge else ReadVarInt_loop fuel (to_I (n + 1)) s
        else Ok (n, s)
  end.
Definition ReadVarInt {S} {R : Reader S} (s : S) : result (Z * S) := ReadVarInt_loop 11 0 s.

(** [WriteVarInt] does not overflow [tmp] ([WriteVarInt_total]). *)
Definition VarIntFormatter : format Z :=
  {| ser n := match WriteVarInt n with Some out => out | None => [] end;
     unser S R s := ReadVarInt s |}.
End VarInt.

(** * Custom integers *)

(** The bytes [from, from + Bytes) of the 8 bytes of [raw]; [read] overwrites them. *)
Definition CustomUintFormatter_MAX (Bytes : nat) : Z := Z.shiftr 0xffffffffffffffff (8 * (8 - Z.of_nat Bytes)).

Definition CustomUint_Ser (Bytes : nat) (BigEndian : bool) (v : Z) : result (list Z) :=
  if (v <? 0) || (v >? CustomUintFormatter_MAX Bytes) then Throw ValueOutOfRange
  else if BigEndian then Ok (firstn Bytes (skipn (8 - Bytes) (le_split 8 (be64toh v))))
  else Ok (firstn Bytes (le_split 8 v)).

Definition CustomUint_Unser (Bytes : nat) (BigEndian : bool) {S} {R : Reader S} (s : S) : result (Z * S) :=
  let? (data, s) := read (Z.of_nat Bytes) s in
  if BigEndian then Ok (be64toh (le_combine (memcpy_at (repeat 0 8) (8 - Bytes) data)), s)
  else Ok (le_combine (memcpy_at (repeat 0 8) 0 data), s).

(** * Strings and vectors *)

Definition stringF : format (list Z) :=
  {| ser str := WriteCompactSize (Z.of_nat (length str)) ++ (if (length str =? 0)%nat then [] else str);
     unser S R s :=
       let? (nSize, s) := ReadCompactSize true s in
       if negb (nSize =? 0) then read nSize s else Ok ([], s) |}.

Definition LimitedStringFormatter (Limit : Z) : format (list Z) :=
  {| ser := ser stringF;
     unser S R s :=
       let? (size, s) := ReadCompactSize true s in
       if size >? Limit then Throw StringLimit
       else if negb (size =? 0) then read size s else Ok ([], s) |}.

(** [std::vector<unsigned char>] and [prevector] of [unsigned char]. Every turn of the loop
    but the last reads 5000000 bytes. *)
Fixpoint chars_loop {S} {R : Reader S} (fuel : nat) (nSize i : Z) (v : list Z) (s : S) : result (list Z * S) :=
  match fuel with
  | O => Throw OutOfFuel
  | Datatypes.S fuel =>
      if i <? nSize then
        let blk := Z.min (nSize - i) (1 + 4999999 / 1) in
        let? (data, s) := read blk s in
        chars_loop fuel nSize (i + blk) (v ++ data) s
      else Ok (v, s)
  end.

Definition charsF : format (list Z) :=
  {| ser v := WriteCompactSize (Z.of_nat (length v)) ++ (if (length v =? 0)%nat then [] else v);
     unser S R s :=
       let? (nSize, s) := ReadCompactSize true s in
       chars_loop (Z.to_nat (nSize / 5000000) + 2) nSize 0 [] s |}.

(** [while (v.size() < allocated)]: [n] elements more. *)
Fixpoint fill {A} (formatter : format A) {S} {R : Reader S} (n : nat) (v : list A) (s : S) : result (list A * S) :=
  match n with
  | O => Ok (v, s)
  | Datatypes.S n => let? (back, s) := unser formatter s in fill formatter n (v ++ [back]) s
  end.

(** [while (allocated < size)]; [sizeof] is the size of an element in memory. *)
Fixpoint VectorFormatter_loop {A} (sizeof : Z) (formatter : format A) {S} {R : Reader S}
    (fuel : nat) (size allocated : Z) (v : list A) (s : S) : result (list A * S) :=
  match fuel with
  | O => Throw OutOfFuel
  | Datatypes.S fuel =>
      if allocated <? size then
        let allocated := Z.min size (allocated + MAX_VECTOR_ALLOCATE / sizeof) in
        let? (v, s) := fill formatter (Z.to_nat (allocated - Z.of_nat (length v))) v s in
        VectorFormatter_loop sizeof formatter fuel size allocated v s
      else Ok (v, s)
  end.

Definition VectorFormatter {A} (sizeof : Z) (formatter : format A) : format (list A) :=
  {| ser v := WriteCompactSize (Z.of_nat (length v)) ++ concat (map (ser formatter) v);
     unser S R s :=
       let? (size, s) := ReadCompactSize true s in
       VectorFormatter_loop sizeof formatter (Z.to_nat (size / (MAX_VECTOR_ALLOCATE / sizeof)) + 2) size 0 [] s |}.

(** [std::list]. *)
Definition listF {A} (f : format A) : format (list A) :=
  {| ser l := WriteCompactSize (Z.of_nat (length l)) ++ concat (map (ser f) l);
     unser S R s := let? (nSize, s) := ReadCompactSize true s in fill f (Z.to_nat nSize) [] s |}.

(** [std::array]. *)
Definition arrayF {A} (N : nat) (f : format A) : format (list A) :=
  {| ser item := concat (map (ser f) item); unser S R s := fill f N [] s |}.

(** * Pairs and optional values *)

Definition pairF {K T} (k : format K) (t : format T) : format (K * T) :=
  {| ser item := ser k (fst item) ++ ser t (snd item);
     unser S R s := let? (first, s) := unser k s in let? (second, s) := unser t s in Ok ((first, second), s) |}.

Definition OptionalF {T} (f : format T) : format (option T) :=
  {| ser := fun item => match item with Some x => ser uint8F 0x01 ++ ser f x | None => ser uint8F 0x00 end;
     unser S R s :=
       let? (discriminant, s) := unser uint8F s in
       if discriminant =? 0x00 then Ok (None, s)
       else let? (object, s) := unser f s in Ok (Some object, s) |}.

(** * Sizes *)

(** [GetSerializeSize] counts the bytes with a [CSizeComputer], whose [WriteCompactSize]
    and [WriteVarInt] add [GetSizeOfCompactSize] and [GetSizeOfVarInt]. *)
Definition GetSerializeSize {A} (f : format A) (t : A) : Z := w64 (Z.of_nat (length (ser f t))).
