(* ===== verification/SerializeLaws.v ===== *)
(** What the formatters of serialize.h promise to the classes that use them, as type
    classes: [Sound], what is written is read back; [Safe], what is read is a valid value
    and comes from the front of the stream; [Exact], every value has one encoding. The
    instances are the formatters of Serialize. *)
From Stdlib Require Import ZifyNat.
From S2P Require Import Prelude CryptoCommon Streams AutoFile Serialize.
Import CryptoCommon.

(** * The promises *)

Class Sound {A} (f : format A) (P : A -> Prop) : Prop :=
  sound : forall S (R : Reader S) (L : ReaderLaws S) (s : S) a rest,
    ready s -> P a -> content s = ser f a ++ rest ->
    exists s', unser f s = Ok (a, s') /\ ready s' /\ content s' = rest.

Class Safe {A} (f : format A) (P : A -> Prop) : Prop :=
  safe : forall S (R : Reader S) (L : ReaderLaws S) (s : S) a s',
    ready s -> unser f s = Ok (a, s') ->
    ready s' /\ P a /\ exists used, content s = used ++ content s'.

Class Exact {A} (f : format A) (P : A -> Prop) : Prop :=
  exact : forall S (R : Reader S) (L : ReaderLaws S) (s : S) a s',
    ready s -> unser f s = Ok (a, s') ->
    ready s' /\ P a /\ content s = ser f a ++ content s'.

(** No loop of the reader runs out of fuel. *)
Class Total {A} (f : format A) : Prop :=
  total : forall S (R : Reader S) (L : ReaderLaws S) (s : S), ready s -> unser f s <> Throw OutOfFuel.

#[export] Hint Mode Sound + ! - : typeclass_instances.
#[export] Hint Mode Safe + ! - : typeclass_instances.
#[export] Hint Mode Exact + ! - : typeclass_instances.

#[export] Instance Exact_Safe {A} (f : format A) P : Exact f P -> Safe f P.
Proof. intros H S R L s a s' Hs E. destruct (H S R L s a s' Hs E) as (H1 & H2 & H3). eauto. Qed.

(** * Reading bytes *)

Section Reading.
Context {S : Type} {R : Reader S} {L : ReaderLaws S}.
Implicit Types s : S.

Lemma read_front s l rest n :
  ready s -> content s = l ++ rest -> n = Z.of_nat (length l) -> n < 2 ^ 31 ->
  exists s', read n s = Ok (l, s') /\ ready s' /\ content s' = rest.
Proof.
  intros Hs Hc -> Hn. destruct (read_Ok (Z.of_nat (length l)) s Hs ltac:(lia)) as (s' & E & Hs' & Hc').
  { rewrite Hc, length_app. lia. }
  exists s'. rewrite Hc, Nat2Z.id in *. rewrite skipn_app, skipn_all, Nat.sub_diag in Hc'.
  rewrite firstn_app, firstn_all, Nat.sub_diag, firstn_O, app_nil_r in E. auto.
Qed.

Lemma read_cases n s :
  ready s -> 0 <= n < 2 ^ 31 ->
  (exists l s', read n s = Ok (l, s') /\ ready s' /\ Z.of_nat (length l) = n /\ bytes l /\ content s = l ++ content s') \/
  read n s = Throw EndOfData.
Proof.
  intros Hs Hn. destruct (Z.le_gt_cases n (Z.of_nat (length (content s)))) as [Hl|Hl]; [left | right; now apply read_end].
  destruct (read_Ok n s Hs Hn Hl) as (s' & E & Hs' & Hc'). exists (firstn (Z.to_nat n) (content s)), s'.
  split; [assumption|]. split; [assumption|]. rewrite Hc', firstn_skipn, length_firstn. split; [lia|].
  split; [apply Forall_take, content_bytes; assumption | reflexivity].
Qed.

Lemma read_inv n s l s' :
  ready s -> 0 <= n < 2 ^ 31 -> read n s = Ok (l, s') ->
  ready s' /\ Z.of_nat (length l) = n /\ bytes l /\ content s = l ++ content s'.
Proof.
  intros Hs Hn E. destruct (read_cases n s Hs Hn) as [(l1 & s1 & E1 & H)|E1]; rewrite E1 in E; [|discriminate].
  injection E as -> ->. exact H.
Qed.

Lemma read_total n s : ready s -> 0 <= n < 2 ^ 31 -> read n s <> Throw OutOfFuel.
Proof. intros Hs Hn. destruct (read_cases n s Hs Hn) as [(l & s1 & -> & _)| ->]; discriminate. Qed.
End Reading.

(** Steps of the proofs about sequences of reads. [field f a] reads [a] from the front of
    the stream; [fields] inverts a sequence of reads that ended without an exception. *)
Ltac field f a :=
  match goal with
  | Hs : ready ?s, Hc : content ?s = ser f a ++ ?rest |- _ =>
      let s' := fresh "s'" in let E := fresh "E" in let Hs' := fresh "Hs" in let Hc' := fresh "Hc" in
      destruct (sound (f := f) _ _ _ s a rest Hs ltac:(eauto) Hc) as (s' & E & Hs' & Hc');
      rewrite E; cbn [bind]; clear E Hs Hc
  end.

Ltac inv_bind H :=
  let p := fresh "p" in let E := fresh "E" in
  apply bind_Ok in H; destruct H as (p & E & H); destruct p.

(** * Integers *)

(** All the integers are a list of bytes of fixed length and two conversions. *)
Section Integer.
Context (n : nat) (P : Z -> Prop) (w r : Z -> Z).
Context (Hn : Z.of_nat n < 16) (Hr : forall a, P a -> r (le_combine (le_split n (w a))) = a).
Let f := {| ser := fun a => le_split n (w a); unser S R s := let? (obj, s) := read (Z.of_nat n) s in Ok (r (le_combine obj), s) |}.

Lemma Sound_int : Sound f P.
Proof.
  intros S R L s a rest Hs Ha Hc. cbn [ser unser f] in *.
  destruct (read_front s _ _ (Z.of_nat n) Hs Hc) as (s' & E & Hs' & Hc'); [now rewrite length_le_split | lia|].
  exists s'. rewrite E. cbn [bind]. rewrite Hr by assumption. auto.
Qed.

Lemma Exact_int :
  (forall l, bytes l -> length l = n -> P (r (le_combine l)) /\ le_split n (w (r (le_combine l))) = l) -> Exact f P.
Proof.
  intros H S R L s a s' Hs E. cbn [ser unser f] in *. inv_bind E. injection E as <- <-.
  destruct (read_inv (Z.of_nat n) _ _ _ Hs ltac:(lia) E0) as (Hs' & Hl & Hb & Hc). destruct (H l Hb ltac:(lia)) as [H1 H2]. now rewrite H2.
Qed.

Lemma Total_int : Total f.
Proof.
  intros S R L s Hs. cbn [unser f]. pose proof (read_total (Z.of_nat n) s Hs ltac:(lia)).
  destruct (read (Z.of_nat n) s) as [[]|]; cbn [bind]; congruence.
Qed.
End Integer.

Lemma signed_mod w x : 0 < w -> - 2 ^ (w - 1) <= x < 2 ^ (w - 1) -> signed w (x mod 2 ^ w) = x.
Proof.
  intros Hw Hx. assert (Hp : 2 ^ w = 2 * 2 ^ (w - 1)) by (rewrite <- Z.pow_succ_r by lia; f_equal; lia). unfold signed.
  destruct (Z.ltb_spec x 0).
  - replace (x mod 2 ^ w) with (x + 2 ^ w); [|apply (Z.mod_unique _ _ (-1)); lia].
    destruct (Z.ltb_spec (x + 2 ^ w) (2 ^ (w - 1))); lia.
  - rewrite Z.mod_small by lia. destruct (Z.ltb_spec x (2 ^ (w - 1))); lia.
Qed.

Lemma signed_range w x : 0 < w -> word w x -> - 2 ^ (w - 1) <= signed w x < 2 ^ (w - 1) /\ signed w x mod 2 ^ w = x.
Proof.
  unfold word. intros Hw Hx. assert (Hp : 2 ^ w = 2 * 2 ^ (w - 1)) by (rewrite <- Z.pow_succ_r by lia; f_equal; lia). unfold signed.
  destruct (Z.ltb_spec x (2 ^ (w - 1))); [split; [lia|]; apply Z.mod_small; lia|]. split; [lia|].
  replace (x - 2 ^ w) with (x + (-1) * 2 ^ w) by lia. rewrite Z.mod_add, Z.mod_small by lia. reflexivity.
Qed.

Lemma combine_split_word n w x : w = 8 * Z.of_nat n -> le_combine (le_split n (x mod 2 ^ w)) = x mod 2 ^ w.
Proof. intros ->. rewrite le_combine_split. apply Z.mod_mod. lia. Qed.

Lemma word_combine n w l : w = 8 * Z.of_nat n -> bytes l -> length l = n -> word w (le_combine l).
Proof. intros -> Hb <-. now apply le_combine_bound. Qed.

Definition int16 (x : Z) : Prop := - 2 ^ 15 <= x < 2 ^ 15.
Definition int32 (x : Z) : Prop := - 2 ^ 31 <= x < 2 ^ 31.
Definition int64 (x : Z) : Prop := - 2 ^ 63 <= x < 2 ^ 63.

Ltac unsigned_laws n w :=
  lazymatch goal with
  | |- Sound _ _ => refine (Sound_int n (word w) (fun a => a mod 2 ^ w) (fun a => a) _ _); [lia|];
      intros a Ha; rewrite (combine_split_word n w) by reflexivity; apply Z.mod_small; exact Ha
  | |- Exact _ _ => refine (Exact_int n (word w) (fun a => a mod 2 ^ w) (fun a => a) _ _); [lia|];
      intros l Hb Hl; pose proof (word_combine n w l eq_refl Hb Hl); split; [assumption|];
      rewrite Z.mod_small by assumption; rewrite <- Hl; now apply le_split_combine
  | |- Total _ => refine (Total_int n (fun a => a mod 2 ^ w) (fun a => a) _); lia
  end.

Ltac signed_laws n w :=
  lazymatch goal with
  | |- Sound _ ?P => intros S R L s a rest Hs Ha Hc; 
      destruct (Sound_int n P (fun a => a mod 2 ^ w) (signed w) ltac:(lia)
        ltac:(intros b Hb; cbv beta; rewrite (combine_split_word n w) by reflexivity; now apply signed_mod) S R L s a rest Hs Ha Hc)
        as (s' & E & H);
      exists s'; split; [|exact H]; cbn [unser] in E |- *;
      unfold int16F, int32F, int64F, ser_readdata16, ser_readdata32, ser_readdata64; cbn [unser];
      destruct (read _ s) as [[l t]|e]; cbn [bind] in E |- *; exact E
  | |- Exact _ ?P => intros S R L s a s' Hs E;
      refine (Exact_int n P (fun a => a mod 2 ^ w) (signed w) ltac:(lia) _ S R L s a s' Hs _);
      [intros l Hb Hl; pose proof (word_combine n w l eq_refl Hb Hl) as Hw;
       cbv beta; destruct (signed_range w _ ltac:(lia) Hw) as [H1 H2]; split; [exact H1|];
       rewrite H2, <- Hl; now apply le_split_combine |];
      revert E; unfold int16F, int32F, int64F, ser_readdata16, ser_readdata32, ser_readdata64; cbn [unser];
      destruct (read _ s) as [[l t]|e]; cbn [bind]; exact (fun E => E)
  | |- Total _ => intros S R L s Hs;
      pose proof (Total_int n (fun a => a mod 2 ^ w) (signed w) ltac:(lia) S R L s Hs) as E; revert E;
      unfold int16F, int32F, int64F, ser_readdata16, ser_readdata32, ser_readdata64; cbn [unser];
      destruct (read _ s) as [[l t]|e]; cbn [bind]; exact (fun E => E)
  end.

#[export] Instance Sound_uint8 : Sound uint8F (word 8). Proof. unsigned_laws 1%nat 8. Qed.
#[export] Instance Exact_uint8 : Exact uint8F (word 8). Proof. unsigned_laws 1%nat 8. Qed.
#[export] Instance Total_uint8 : Total uint8F. Proof. unsigned_laws 1%nat 8. Qed.
#[export] Instance Sound_uint16 : Sound uint16F (word 16). Proof. unsigned_laws 2%nat 16. Qed.
#[export] Instance Exact_uint16 : Exact uint16F (word 16). Proof. unsigned_laws 2%nat 16. Qed.
#[export] Instance Total_uint16 : Total uint16F. Proof. unsigned_laws 2%nat 16. Qed.
#[export] Instance Sound_uint32 : Sound uint32F (word 32). Proof. unsigned_laws 4%nat 32. Qed.
#[export] Instance Exact_uint32 : Exact uint32F (word 32). Proof. unsigned_laws 4%nat 32. Qed.
#[export] Instance Total_uint32 : Total uint32F. Proof. unsigned_laws 4%nat 32. Qed.
#[export] Instance Sound_uint64 : Sound uint64F (word 64). Proof. unsigned_laws 8%nat 64. Qed.
#[export] Instance Exact_uint64 : Exact uint64F (word 64). Proof. unsigned_laws 8%nat 64. Qed.
#[export] Instance Total_uint64 : Total uint64F. Proof. unsigned_laws 8%nat 64. Qed.
#[export] Instance Sound_int16 : Sound int16F int16. Proof. signed_laws 2%nat 16. Qed.
#[export] Instance Exact_int16 : Exact int16F int16. Proof. signed_laws 2%nat 16. Qed.
#[export] Instance Total_int16 : Total int16F. Proof. signed_laws 2%nat 16. Qed.
#[export] Instance Sound_int32 : Sound int32F int32. Proof. signed_laws 4%nat 32. Qed.
#[export] Instance Exact_int32 : Exact int32F int32. Proof. signed_laws 4%nat 32. Qed.
#[export] Instance Total_int32 : Total int32F. Proof. signed_laws 4%nat 32. Qed.
#[export] Instance Sound_int64 : Sound int64F int64. Proof. signed_laws 8%nat 64. Qed.
#[export] Instance Exact_int64 : Exact int64F int64. Proof. signed_laws 8%nat 64. Qed.
#[export] Instance Total_int64 : Total int64F. Proof. signed_laws 8%nat 64. Qed.

Ltac read_fields :=
  change (@ser_readdata8) with (fun S (R : Reader S) => @unser _ uint8F S R) in *;
  change (@ser_readdata16) with (fun S (R : Reader S) => @unser _ uint16F S R) in *;
  change (@ser_readdata32) with (fun S (R : Reader S) => @unser _ uint32F S R) in *;
  change (@ser_readdata64) with (fun S (R : Reader S) => @unser _ uint64F S R) in *;
  change ser_writedata8 with (ser uint8F) in *; change ser_writedata16 with (ser uint16F) in *;
  change ser_writedata32 with (ser uint32F) in *; change ser_writedata64 with (ser uint64F) in *;
  cbv beta in *.

Lemma Safe_bool : Safe boolF (fun _ => True).
Proof.
  intros S R L s a s' Hs E. cbn [unser boolF] in E. read_fields. inv_bind E. injection E as <- <-.
  destruct (exact _ _ _ s _ _ Hs E0) as (H1 & _ & H2). eauto.
Qed.
#[export] Existing Instance Safe_bool.

#[export] Instance Sound_bool : Sound boolF (fun _ => True).
Proof.
  intros S R L s a rest Hs _ Hc. cbn [ser unser boolF] in *. read_fields.
  destruct (sound (f := uint8F) _ _ _ s (if a then 1 else 0) rest Hs) as (s' & E & H); [destruct a; now split | exact Hc |].
  exists s'. rewrite E. cbn [bind]. split; [now destruct a | exact H].
Qed.

Section Blob.
Context (N : nat) (HN : Z.of_nat N < 2 ^ 31).
Definition blob (l : list Z) : Prop := bytes l /\ length l = N.

Lemma Sound_blob : Sound (blobF N) blob.
Proof. intros S R L s a rest Hs [Hb Hl] Hc. apply (read_front s a rest); [assumption..| now rewrite Hl | assumption]. Qed.

Lemma Exact_blob : Exact (blobF N) blob.
Proof.
  intros S R L s a s' Hs E. destruct (read_inv (Z.of_nat N) s a s' Hs ltac:(lia) E) as (H1 & H2 & H3 & H4).
  split; [assumption|]. split; [split; [assumption | lia] | assumption].
Qed.

Lemma Total_blob : Total (blobF N).
Proof. intros S R L s Hs. apply read_total; [assumption | lia]. Qed.
End Blob.
#[export] Hint Extern 0 (Sound (blobF _) _) => (apply Sound_blob; lia) : typeclass_instances.
#[export] Hint Extern 0 (Exact (blobF _) _) => (apply Exact_blob; lia) : typeclass_instances.
#[export] Hint Extern 0 (Total (blobF _)) => (apply Total_blob; lia) : typeclass_instances.

(** * CompactSize *)

Lemma GetSizeOfCompactSize_spec n : GetSizeOfCompactSize n = Z.of_nat (length (WriteCompactSize n)).
Proof.
  unfold GetSizeOfCompactSize, WriteCompactSize, ser_writedata8, ser_writedata16, ser_writedata32, ser_writedata64.
  repeat match goal with |- context [if ?b then _ else _] => destruct b end;
    rewrite ?length_app, !length_le_split; reflexivity.
Qed.

Definition size_ok (range_check : bool) (n : Z) : Prop := word 64 n /\ (range_check = true -> n <= MAX_SIZE).

Section CompactSize.
Context {S : Type} {R : Reader S} {L : ReaderLaws S}.
Implicit Types s : S.

Lemma ReadCompactSize_sound rc s n rest :
  ready s -> size_ok rc n -> content s = WriteCompactSize n ++ rest ->
  exists s', ReadCompactSize rc s = Ok (n, s') /\ ready s' /\ content s' = rest.
Proof.
  intros Hs [Hn Hm] Hc. unfold word in Hn.
  assert (Hcheck : rc && (n >? MAX_SIZE) = false).
  { destruct rc; [|reflexivity]. specialize (Hm eq_refl). cbn [andb]. destruct (Z.gtb_spec n MAX_SIZE); [lia | reflexivity]. }
  unfold ReadCompactSize, WriteCompactSize in *. read_fields.
  destruct (Z.ltb_spec n 253) as [H1|H1]; [|destruct (Z.leb_spec n 0xFFFF) as [H2|H2]; [|destruct (Z.leb_spec n 0xFFFFFFFF) as [H3|H3]]];
    rewrite <- ?app_assoc in Hc; (edestruct (sound (f := uint8F)) as (s1 & E & Hs1 & Hc1); [eassumption | | exact Hc |]); [unfold word; lia| |unfold word; lia| |unfold word; lia| |unfold word; lia|];
    rewrite E; cbn [bind].
  - destruct (Z.ltb_spec n 253); [|lia]. cbn [bind]. rewrite Hcheck. eauto.
  - change (253 <? 253) with false. change (253 =? 253) with true. cbv iota.
    edestruct (sound (f := uint16F)) as (s2 & E2 & Hs2 & Hc2); [exact Hs1 | | exact Hc1 |]; [unfold word; lia|].
    rewrite E2; cbn [bind]. destruct (Z.ltb_spec n 253); [lia|]. cbn [bind]. rewrite Hcheck. eauto.
  - change (254 <? 253) with false. change (254 =? 253) with false. change (254 =? 254) with true. cbv iota.
    edestruct (sound (f := uint32F)) as (s2 & E2 & Hs2 & Hc2); [exact Hs1 | | exact Hc1 |]; [unfold word; lia|].
    rewrite E2; cbn [bind]. destruct (Z.ltb_spec n 0x10000); [lia|]. cbn [bind]. rewrite Hcheck. eauto.
  - change (255 <? 253) with false. change (255 =? 253) with false. change (255 =? 254) with false. cbv iota.
    edestruct (sound (f := uint64F)) as (s2 & E2 & Hs2 & Hc2); [exact Hs1 | | exact Hc1 |]; [unfold word; lia|].
    rewrite E2; cbn [bind]. destruct (Z.ltb_spec n 0x100000000); [lia|]. cbn [bind]. rewrite Hcheck. eauto.
Qed.

(** The numbers of more than one byte. *)
Lemma wide_inv (f : format Z) P {X : Exact f P} least s n s' :
  ready s -> (let? (n, s) := unser f s in if n <? least then Throw NonCanonical else Ok (n, s)) = Ok (n, s') ->
  ready s' /\ P n /\ least <= n /\ content s = ser f n ++ content s'.
Proof.
  intros Hs E. inv_bind E. destruct (Z.ltb_spec z least); [discriminate|]. injection E as <- <-.
  destruct (X S R L s z s0 Hs E0) as (H1 & H2 & H3). auto.
Qed.

Lemma ReadCompactSize_exact rc s n s' :
  ready s -> ReadCompactSize rc s = Ok (n, s') ->
  ready s' /\ size_ok rc n /\ content s = WriteCompactSize n ++ content s'.
Proof.
  intros Hs E. unfold ReadCompactSize in E. read_fields. inv_bind E.
  destruct (exact (f := uint8F) _ _ _ s _ _ Hs E0) as (Hs1 & W1 & C1). inv_bind E.
  assert (G : ready s1 /\ word 64 z0 /\ content s = WriteCompactSize z0 ++ content s1).
  { unfold WriteCompactSize. read_fields. unfold word in *. destruct (Z.ltb_spec z 253) as [H1|H1].
    - injection E1 as <- <-. split; [assumption|]. destruct (Z.ltb_spec z 253); [|lia]. split; [lia | assumption].
    - destruct (Z.eqb_spec z 253) as [->|N1]; [|destruct (Z.eqb_spec z 254) as [->|N2]].
      + destruct (wide_inv uint16F (word 16) 253 s0 z0 s1 Hs1 E1) as (Hs2 & W2 & Hge & C2). unfold word in W2.
        split; [assumption|]. split; [lia|]. destruct (Z.ltb_spec z0 253); [lia|]. destruct (Z.leb_spec z0 0xFFFF); [|lia].
        rewrite <- app_assoc, <- C2. assumption.
      + destruct (wide_inv uint32F (word 32) 0x10000 s0 z0 s1 Hs1 E1) as (Hs2 & W2 & Hge & C2). unfold word in W2.
        split; [assumption|]. split; [lia|]. destruct (Z.ltb_spec z0 253); [lia|]. destruct (Z.leb_spec z0 0xFFFF); [lia|].
        destruct (Z.leb_spec z0 0xFFFFFFFF); [|lia]. rewrite <- app_assoc, <- C2. assumption.
      + destruct (wide_inv uint64F (word 64) 0x100000000 s0 z0 s1 Hs1 E1) as (Hs2 & W2 & Hge & C2). unfold word in W2.
        split; [assumption|]. split; [lia|]. destruct (Z.ltb_spec z0 253); [lia|]. destruct (Z.leb_spec z0 0xFFFF); [lia|].
        destruct (Z.leb_spec z0 0xFFFFFFFF); [lia|]. rewrite <- app_assoc, <- C2. replace z with 255 in C1 by lia. assumption. }
  destruct G as (Hs2 & W & C). destruct rc; cbn [andb] in E.
  - destruct (Z.gtb_spec z0 MAX_SIZE); [discriminate|]. injection E as <- <-. repeat split; try assumption; apply W || lia.
  - injection E as <- <-. repeat split; try assumption; try apply W. discriminate.
Qed.

Lemma ReadCompactSize_total rc s : ready s -> ReadCompactSize rc s <> Throw OutOfFuel.
Proof.
  intros Hs. unfold ReadCompactSize. read_fields. pose proof (total (f := uint8F) _ _ _ s Hs) as T.
  destruct (unser uint8F s) as [[z s1]|e] eqn:E; [|cbn [bind]; congruence]. cbn [bind].
  destruct (exact (f := uint8F) _ _ _ s _ _ Hs E) as (Hs1 & _).
  pose proof (total (f := uint16F) _ _ _ s1 Hs1). pose proof (total (f := uint32F) _ _ _ s1 Hs1). pose proof (total (f := uint64F) _ _ _ s1 Hs1).
  destruct (z <? 253); [|destruct (z =? 253); [|destruct (z =? 254)]];
    repeat match goal with |- context [unser ?f s1] => destruct (unser f s1) as [[]|] end; cbn [bind];
    repeat match goal with |- context [if ?b then _ else _] => destruct b; cbn [bind] end; congruence.
Qed.
End CompactSize.

#[export] Instance Sound_CompactSize rc max : Sound (CompactSizeFormatter rc max) (fun n => size_ok rc n /\ n <= max).
Proof.
  intros S R L s n rest Hs [Hn Hm] Hc. destruct (ReadCompactSize_sound rc s n rest Hs Hn Hc) as (s' & E & H).
  exists s'. cbn [unser CompactSizeFormatter]. rewrite E. cbn [bind]. destruct (Z.gtb_spec n max); [lia | auto].
Qed.

#[export] Instance Exact_CompactSize rc max : Exact (CompactSizeFormatter rc max) (fun n => size_ok rc n /\ n <= max).
Proof.
  intros S R L s n s' Hs E. cbn [ser unser CompactSizeFormatter] in *. inv_bind E.
  destruct (Z.gtb_spec z max); [discriminate|]. injection E as <- <-.
  destruct (ReadCompactSize_exact rc s z s0 Hs E0) as (H1 & H2 & H3). auto.
Qed.

(** * Vectors of bytes and strings *)

(** A container whose size is written as a checked CompactSize. *)
Definition short {A} (l : list A) : Prop := Z.of_nat (length l) <= MAX_SIZE.
Definition chars (l : list Z) : Prop := bytes l /\ short l.

Lemma short_size {A} (l : list A) : short l -> size_ok true (Z.of_nat (length l)).
Proof. unfold short, size_ok, MAX_SIZE, word. lia. Qed.

Lemma size_short {A} (l : list A) n : size_ok true n -> Z.of_nat (length l) = n -> short l.
Proof. intros [_ H] <-. exact (H eq_refl). Qed.

Section Chars.
Context {S : Type} {R : Reader S} {L : ReaderLaws S}.
Implicit Types s : S.

Lemma chars_loop_sound fuel nSize i v s l rest :
  ready s -> content s = l ++ rest -> Z.of_nat (length l) = nSize - i -> nSize - i <= 5000000 * (Z.of_nat fuel - 1) -> (0 < fuel)%nat ->
  exists s', chars_loop fuel nSize i v s = Ok (v ++ l, s') /\ ready s' /\ content s' = rest.
Proof.
  revert i v s l; induction fuel as [|fuel IH]; intros i v s l Hs Hc Hl Hf Hp; [lia|]. cbn [chars_loop].
  change (1 + 4999999 / 1) with 5000000. destruct (Z.ltb_spec i nSize).
  - set (blk := Z.min (nSize - i) 5000000). assert (Hblk : 0 < blk <= nSize - i /\ (blk = nSize - i \/ blk = 5000000)) by lia.
    rewrite <- (firstn_skipn (Z.to_nat blk) l) in Hc |- *. rewrite <- app_assoc in Hc.
    destruct (read_front s _ _ blk Hs Hc) as (s1 & -> & Hs1 & Hc1); [rewrite length_firstn; lia | lia|]. cbn [bind]. rewrite app_assoc.
    apply (IH (i + blk) _ s1 _ Hs1 Hc1); [rewrite length_skipn; lia | lia..].
  - destruct l; [|cbn in Hl; lia]. rewrite app_nil_r. eauto.
Qed.

Lemma chars_loop_exact fuel nSize i v s out s' :
  ready s -> i <= nSize -> chars_loop fuel nSize i v s = Ok (out, s') ->
  exists l, out = v ++ l /\ Z.of_nat (length l) = nSize - i /\ bytes l /\ ready s' /\ content s = l ++ content s'.
Proof.
  revert i v s; induction fuel as [|fuel IH]; intros i v s Hs Hi E; [discriminate|]. cbn [chars_loop] in E.
  change (1 + 4999999 / 1) with 5000000 in E. destruct (Z.ltb_spec i nSize).
  - set (blk := Z.min (nSize - i) 5000000) in *. assert (Hblk : 0 < blk <= nSize - i /\ blk <= 5000000) by lia. inv_bind E.
    destruct (read_inv blk s _ _ Hs ltac:(lia) E0) as (Hs1 & Hl & Hb & Hc).
    destruct (IH (i + blk) _ _ Hs1 ltac:(lia) E) as (l' & -> & Hl' & Hb' & Hs' & Hc'). exists (l ++ l').
    rewrite <- !app_assoc, <- Hc', length_app. split; [reflexivity|]. split; [lia|]. split; [now apply Forall_app | auto].
  - injection E as <- <-. exists []. rewrite app_nil_r. cbn [length app]. repeat split; (assumption || lia || constructor).
Qed.

Lemma chars_loop_total fuel nSize i v s :
  ready s -> nSize - i <= 5000000 * (Z.of_nat fuel - 1) -> (0 < fuel)%nat -> chars_loop fuel nSize i v s <> Throw OutOfFuel.
Proof.
  revert i v s; induction fuel as [|fuel IH]; intros i v s Hs Hf Hp; [lia|]. cbn [chars_loop].
  change (1 + 4999999 / 1) with 5000000. destruct (Z.ltb_spec i nSize); [|discriminate].
  set (blk := Z.min (nSize - i) 5000000). assert (Hblk : 0 < blk /\ blk <= 5000000 /\ (blk = nSize - i \/ blk = 5000000)) by lia.
  destruct (read_cases blk s Hs ltac:(lia)) as [(l & s1 & -> & Hs1 & _)| ->]; [|discriminate]. cbn [bind].
  apply IH; [assumption | lia..].
Qed.
End Chars.

#[export] Instance Sound_chars : Sound charsF chars.
Proof.
  intros S R L s a rest Hs [Hb Hl] Hc. cbn [ser unser charsF] in *. rewrite <- app_assoc in Hc.
  destruct (ReadCompactSize_sound true s _ _ Hs (short_size a Hl) Hc) as (s1 & -> & Hs1 & Hc1). cbn [bind].
  apply (chars_loop_sound _ _ _ [] s1 a rest); try assumption; try lia.
  destruct (Nat.eqb_spec (length a) 0); [destruct a; [exact Hc1 | cbn in *; lia] | exact Hc1].
Qed.

Lemma ser_chars v : ser charsF v = WriteCompactSize (Z.of_nat (length v)) ++ v.
Proof. cbn [ser charsF]. f_equal. now destruct v. Qed.

#[export] Instance Exact_chars : Exact charsF chars.
Proof.
  intros S R L s a s' Hs E. rewrite ser_chars. cbn [unser charsF] in E. inv_bind E.
  destruct (ReadCompactSize_exact true s _ _ Hs E0) as (Hs1 & Hn & Hc). assert (H0 : 0 <= z) by apply Hn.
  destruct (chars_loop_exact _ _ _ _ _ _ _ Hs1 H0 E) as (l & -> & Hl & Hb & Hs' & Hc'). cbn [app].
  split; [assumption|]. split; [split; [assumption | apply (size_short l z Hn); lia]|].
  replace (Z.of_nat (length l)) with z by lia. now rewrite <- app_assoc, <- Hc'.
Qed.

#[export] Instance Total_chars : Total charsF.
Proof.
  intros S R L s Hs. cbn [unser charsF]. pose proof (ReadCompactSize_total true s Hs).
  destruct (ReadCompactSize true s) as [[n s1]|e] eqn:E; [|cbn [bind]; congruence]. cbn [bind].
  destruct (ReadCompactSize_exact true s _ _ Hs E) as (Hs1 & Hn & _). apply chars_loop_total; [assumption | lia..].
Qed.

#[export] Instance Sound_string : Sound stringF chars.
Proof.
  intros S R L s a rest Hs [Hb Hl] Hc. cbn [ser unser stringF] in *. rewrite <- app_assoc in Hc.
  destruct (ReadCompactSize_sound true s _ _ Hs (short_size a Hl) Hc) as (s1 & -> & Hs1 & Hc1). cbn [bind].
  destruct (Nat.eqb_spec (length a) 0) as [E|E], (Z.eqb_spec (Z.of_nat (length a)) 0); try lia; cbn [negb].
  - destruct a; [eauto | discriminate].
  - apply (read_front s1); try assumption; [reflexivity|]. unfold short, MAX_SIZE in Hl. lia.
Qed.

#[export] Instance Exact_string : Exact stringF chars.
Proof.
  intros S R L s a s' Hs E. change (ser stringF a) with (ser charsF a). rewrite ser_chars. cbn [unser stringF] in E. inv_bind E.
  destruct (ReadCompactSize_exact true s _ _ Hs E0) as (Hs1 & Hn & Hc). destruct (Z.eqb_spec z 0) as [->|N]; cbn [negb] in E.
  - injection E as <- <-. split; [assumption|]. split; [|exact Hc]. split; [constructor | unfold short, MAX_SIZE; cbn; lia].
  - assert (H0 : 0 <= z < 2 ^ 31) by (destruct Hn as [Hw Hm]; specialize (Hm eq_refl); unfold word, MAX_SIZE in *; lia).
    destruct (read_inv z _ _ _ Hs1 H0 E) as (Hs' & Hl & Hb & Hc').
    split; [assumption|]. split; [split; [assumption | now apply (size_short a z)]|]. now rewrite Hl, <- app_assoc, <- Hc'.
Qed.

(** [LIMITED_STRING] accepts the strings that are not longer than the limit. *)
#[export] Instance Sound_LimitedString Limit : Sound (LimitedStringFormatter Limit) (fun l => chars l /\ Z.of_nat (length l) <= Limit).
Proof.
  intros S R L s a rest Hs [Ha Hm] Hc. destruct (sound (f := stringF) _ _ _ s a rest Hs Ha Hc) as (s' & E & H). exists s'. split; [|exact H].
  cbn [ser unser LimitedStringFormatter stringF] in *. destruct Ha as [_ Hl]. rewrite <- app_assoc in Hc.
  destruct (ReadCompactSize_sound true s _ _ Hs (short_size a Hl) Hc) as (s1 & E1 & _). rewrite E1 in *. cbn [bind] in *.
  destruct (Z.gtb_spec (Z.of_nat (length a)) Limit); [lia | exact E].
Qed.

#[export] Instance Exact_LimitedString Limit : Exact (LimitedStringFormatter Limit) (fun l => chars l /\ Z.of_nat (length l) <= Limit).
Proof.
  intros S R L s a s' Hs E. cbn [unser LimitedStringFormatter] in E. inv_bind E. destruct (Z.gtb_spec z Limit); [discriminate|].
  assert (E' : unser stringF s = Ok (a, s')) by (cbn [unser stringF]; rewrite E0; exact E).
  destruct (exact (f := stringF) _ _ _ s a s' Hs E') as (H1 & H2 & H3). split; [assumption|]. split; [|exact H3]. split; [assumption|].
  destruct (ReadCompactSize_exact true s _ _ Hs E0) as (Hs1 & Hn & _). destruct (Z.eqb_spec z 0) as [->|N]; cbn [negb] in E.
  - injection E as <- _. cbn. lia.
  - assert (H0 : 0 <= z < 2 ^ 31) by (destruct Hn as [Hw Hm]; specialize (Hm eq_refl); unfold word, MAX_SIZE in *; lia).
    destruct (read_inv z _ _ _ Hs1 H0 E) as (_ & -> & _). lia.
Qed.

(** * Vectors, lists and arrays *)

Section Fill.
Context {A : Type} (f : format A) (P : A -> Prop).
Context {S : Type} {R : Reader S} {L : ReaderLaws S}.
Implicit Types s : S.

Lemma fill_sound {X : Sound f P} n v s l rest :
  ready s -> Forall P l -> length l = n -> content s = concat (map (ser f) l) ++ rest ->
  exists s', fill f n v s = Ok (v ++ l, s') /\ ready s' /\ content s' = rest.
Proof.
  revert v s l; induction n as [|n IH]; intros v s l Hs Hl Hn Hc; (destruct l as [|a l]; [|try discriminate]); try discriminate.
  - rewrite app_nil_r. cbn [fill]. eauto.
  - inversion Hl; subst. cbn [map concat] in Hc. rewrite <- app_assoc in Hc. cbn [fill].
    destruct (X S R L s a _ Hs ltac:(assumption) Hc) as (s1 & -> & Hs1 & Hc1). cbn [bind].
    destruct (IH (v ++ [a]) s1 l Hs1) as (s' & E & H); [assumption | cbn in Hn; lia | assumption|]. exists s'. now rewrite E, <- app_assoc.
Qed.

Lemma fill_exact {X : Exact f P} n v s out s' :
  ready s -> fill f n v s = Ok (out, s') ->
  exists l, out = v ++ l /\ length l = n /\ Forall P l /\ ready s' /\ content s = concat (map (ser f) l) ++ content s'.
Proof.
  revert v s; induction n as [|n IH]; intros v s Hs E; cbn [fill] in E.
  - injection E as <- <-. exists []. rewrite app_nil_r. auto.
  - inv_bind E. destruct (X S R L s _ _ Hs E0) as (Hs1 & Pa & Hc). destruct (IH _ _ Hs1 E) as (l & -> & Hl & Pl & Hs' & Hc').
    exists (a :: l). rewrite <- app_assoc. cbn [map concat length]. rewrite <- (app_assoc (ser f a)), <- Hc'. repeat split; auto.
Qed.

Lemma fill_safe {X : Safe f P} n v s out s' :
  ready s -> fill f n v s = Ok (out, s') ->
  exists l, out = v ++ l /\ length l = n /\ Forall P l /\ ready s' /\ exists used, content s = used ++ content s'.
Proof.
  revert v s; induction n as [|n IH]; intros v s Hs E; cbn [fill] in E.
  - injection E as <- <-. exists []. rewrite app_nil_r. repeat split; auto. now exists [].
  - inv_bind E. destruct (X S R L s _ _ Hs E0) as (Hs1 & Pa & used & Hc). destruct (IH _ _ Hs1 E) as (l & -> & Hl & Pl & Hs' & used' & Hc').
    exists (a :: l). rewrite <- app_assoc. cbn [length]. repeat split; auto. exists (used ++ used'). now rewrite Hc, Hc', app_assoc.
Qed.

Lemma fill_total {X : Total f} {Y : Safe f P} n v s : ready s -> fill f n v s <> Throw OutOfFuel.
Proof.
  revert v s; induction n as [|n IH]; intros v s Hs; cbn [fill]; [discriminate|]. pose proof (X S R L s Hs).
  destruct (unser f s) as [[a s1]|e] eqn:E; [|cbn [bind]; congruence]. cbn [bind]. apply IH. now destruct (Y S R L s a s1 Hs E).
Qed.

(** The batches of the vector loop make no difference. *)
Lemma VectorFormatter_loop_fill sizeof fuel size allocated v s :
  1 <= sizeof <= MAX_VECTOR_ALLOCATE -> 0 <= allocated <= size -> Z.of_nat (length v) = allocated ->
  size - allocated <= (MAX_VECTOR_ALLOCATE / sizeof) * (Z.of_nat fuel - 1) -> (0 < fuel)%nat ->
  VectorFormatter_loop sizeof f fuel size allocated v s = fill f (Z.to_nat (size - allocated)) v s.
Proof.
  intros Hsize. assert (Hb : 1 <= MAX_VECTOR_ALLOCATE / sizeof) by (apply Z.div_le_lower_bound; lia). set (batch := MAX_VECTOR_ALLOCATE / sizeof) in *.
  revert allocated v s; induction fuel as [|fuel IH]; intros allocated v s Ha Hv Hf Hp; [lia|]. cbn [VectorFormatter_loop].
  destruct (Z.ltb_spec allocated size).
  - fold batch. set (next := Z.min size (allocated + batch)). assert (Hn : allocated < next <= size /\ (next = size \/ next = allocated + batch)) by lia.
    assert (Hadd : forall a b v s, fill f (a + b) v s = let? (v, s) := fill f a v s in fill f b v s).
    { clear. induction a as [|a IHa]; intros b v s; [reflexivity|]. cbn [Nat.add fill]. destruct (unser f s) as [[x t]|e]; cbn [bind]; [apply IHa | reflexivity]. }
    rewrite Hv. replace (Z.to_nat (size - allocated)) with (Z.to_nat (next - allocated) + Z.to_nat (size - next))%nat by lia. rewrite Hadd.
    assert (Hlen : forall n v s v' s', fill f n v s = Ok (v', s') -> length v' = (length v + n)%nat).
    { clear. induction n as [|n IHn]; intros v s v' s' E; cbn [fill] in E; [injection E as <- _; lia|]. inv_bind E. apply IHn in E. rewrite E, length_app. cbn. lia. }
    destruct (fill f (Z.to_nat (next - allocated)) v s) as [[v' s']|e] eqn:E; cbn [bind]; [|reflexivity]. apply Hlen in E.
    assert (0 < fuel)%nat by (destruct Hn as [? [?|?]]; [|lia]; nia). apply IH; [lia | lia | | assumption]. destruct Hn as [? [?|?]]; nia.
  - replace (Z.to_nat (size - allocated)) with 0%nat by lia. reflexivity.
Qed.
End Fill.

Definition vector {A} (P : A -> Prop) (l : list A) : Prop := Forall P l /\ short l.
Definition array {A} (N : nat) (P : A -> Prop) (l : list A) : Prop := Forall P l /\ length l = N.

Section Vector.
Context {A : Type} (sizeof : Z) (f : format A) (P : A -> Prop) (Hsize : 1 <= sizeof <= MAX_VECTOR_ALLOCATE).

(** [Unser] of a vector and of a list read the same. *)
Lemma unser_vector S (R : Reader S) (L : ReaderLaws S) (s : S) :
  ready s -> unser (VectorFormatter sizeof f) s = unser (listF f) s.
Proof.
  intros Hs. cbn [unser VectorFormatter listF]. destruct (ReadCompactSize true s) as [[n s1]|e] eqn:E; [|reflexivity].
  destruct (ReadCompactSize_exact true s n s1 Hs E) as (_ & [Hn _] & _). unfold word in Hn. cbn [bind].
  assert (Hb : 1 <= MAX_VECTOR_ALLOCATE / sizeof) by (apply Z.div_le_lower_bound; lia).
  rewrite VectorFormatter_loop_fill; [now rewrite Z.sub_0_r | lia | lia | reflexivity | | lia].
  pose proof (Z.mul_div_le n (MAX_VECTOR_ALLOCATE / sizeof) ltac:(lia)). pose proof (Z.mod_pos_bound n (MAX_VECTOR_ALLOCATE / sizeof) ltac:(lia)).
  pose proof (Z.div_mod n (MAX_VECTOR_ALLOCATE / sizeof) ltac:(lia)). pose proof (Z.div_pos n (MAX_VECTOR_ALLOCATE / sizeof) ltac:(lia) ltac:(lia)). nia.
Qed.

Lemma Sound_list {X : Sound f P} : Sound (listF f) (vector P).
Proof.
  intros S R L s a rest Hs [Ha Hl] Hc. cbn [ser unser listF] in *. rewrite <- app_assoc in Hc.
  destruct (ReadCompactSize_sound true s _ _ Hs (short_size a Hl) Hc) as (s1 & -> & Hs1 & Hc1). cbn [bind]. rewrite Nat2Z.id.
  exact (fill_sound f P _ [] s1 a rest Hs1 Ha eq_refl Hc1).
Qed.

Lemma Exact_list {X : Exact f P} : Exact (listF f) (vector P).
Proof.
  intros S R L s a s' Hs E. cbn [ser unser listF] in *. inv_bind E. destruct (ReadCompactSize_exact true s _ _ Hs E0) as (Hs1 & Hn & Hc).
  destruct (fill_exact f P _ _ _ _ _ Hs1 E) as (l & -> & Hl & Pl & Hs' & Hc'). cbn [app]. assert (H0 : 0 <= z) by apply Hn.
  split; [assumption|]. split; [split; [assumption | apply (size_short l z Hn); lia]|]. rewrite Hl, Z2Nat.id, <- app_assoc, <- Hc' by assumption. assumption.
Qed.

Lemma Safe_list {X : Safe f P} : Safe (listF f) (vector P).
Proof.
  intros S R L s a s' Hs E. cbn [unser listF] in *. inv_bind E. destruct (ReadCompactSize_exact true s _ _ Hs E0) as (Hs1 & Hn & Hc).
  destruct (fill_safe f P _ _ _ _ _ Hs1 E) as (l & -> & Hl & Pl & Hs' & used & Hc'). cbn [app]. assert (H0 : 0 <= z) by apply Hn.
  split; [assumption|]. split; [split; [assumption | apply (size_short l z Hn); lia]|]. eexists. rewrite Hc, Hc', app_assoc. reflexivity.
Qed.

Lemma Total_list {X : Total f} {Y : Safe f P} : Total (listF f).
Proof.
  intros S R L s Hs. cbn [unser listF]. pose proof (ReadCompactSize_total true s Hs).
  destruct (ReadCompactSize true s) as [[n s1]|e] eqn:E; [|cbn [bind]; congruence]. cbn [bind]. apply (fill_total f P).
  now destruct (ReadCompactSize_exact true s _ _ Hs E).
Qed.

Lemma Sound_vector {X : Sound f P} : Sound (VectorFormatter sizeof f) (vector P).
Proof. intros S R L s a rest Hs Ha Hc. rewrite (unser_vector S R L) by assumption. exact (Sound_list S R L s a rest Hs Ha Hc). Qed.

Lemma Exact_vector {X : Exact f P} : Exact (VectorFormatter sizeof f) (vector P).
Proof. intros S R L s a s' Hs E. rewrite (unser_vector S R L) in E by assumption. exact (Exact_list S R L s a s' Hs E). Qed.

Lemma Safe_vector {X : Safe f P} : Safe (VectorFormatter sizeof f) (vector P).
Proof. intros S R L s a s' Hs E. rewrite (unser_vector S R L) in E by assumption. exact (Safe_list S R L s a s' Hs E). Qed.

Lemma Total_vector {X : Total f} {Y : Safe f P} : Total (VectorFormatter sizeof f).
Proof. intros S R L s Hs. rewrite (unser_vector S R L) by assumption. exact (Total_list S R L s Hs). Qed.

Lemma Sound_array {X : Sound f P} N : Sound (arrayF N f) (array N P).
Proof. intros S R L s a rest Hs [Ha Hl] Hc. exact (fill_sound f P N [] s a rest Hs Ha Hl Hc). Qed.

Lemma Exact_array {X : Exact f P} N : Exact (arrayF N f) (array N P).
Proof.
  intros S R L s a s' Hs E. destruct (fill_exact f P N _ _ _ _ Hs E) as (l & -> & Hl & Pl & Hs' & Hc). cbn [app].
  split; [assumption|]. split; [now split | exact Hc].
Qed.

Lemma Total_array {X : Total f} {Y : Safe f P} N : Total (arrayF N f).
Proof. intros S R L s Hs. now apply (fill_total f P). Qed.
End Vector.

#[export] Existing Instances Sound_list Exact_list Safe_list Total_list Sound_array Exact_array Total_array.
#[export] Hint Extern 1 (Sound (VectorFormatter _ _) _) => (apply Sound_vector; [unfold MAX_VECTOR_ALLOCATE; lia|]) : typeclass_instances.
#[export] Hint Extern 1 (Exact (VectorFormatter _ _) _) => (apply Exact_vector; [unfold MAX_VECTOR_ALLOCATE; lia|]) : typeclass_instances.
#[export] Hint Extern 2 (Safe (VectorFormatter _ _) _) => (apply Safe_vector; [unfold MAX_VECTOR_ALLOCATE; lia|]) : typeclass_instances.
#[export] Hint Extern 1 (Total (VectorFormatter _ _)) => (eapply Total_vector; [unfold MAX_VECTOR_ALLOCATE; lia| |]) : typeclass_instances.

(** * Pairs and optional values *)

Section Pair.
Context {K T : Type} (k : format K) (t : format T) (P : K -> Prop) (Q : T -> Prop).
Definition both (item : K * T) : Prop := P (fst item) /\ Q (snd item).

#[export] Instance Sound_pair {X : Sound k P} {Y : Sound t Q} : Sound (pairF k t) both.
Proof.
  intros S R L s [a b] rest Hs [Ha Hb] Hc. cbn [ser unser pairF fst snd] in *. rewrite <- app_assoc in Hc. field k a. field t b. eauto.
Qed.

#[export] Instance Exact_pair {X : Exact k P} {Y : Exact t Q} : Exact (pairF k t) both.
Proof.
  intros S R L s a s' Hs E. cbn [ser unser pairF] in *. inv_bind E. inv_bind E. injection E as <- <-.
  destruct (X S R L s _ _ Hs E0) as (Hs1 & P1 & Hc1). destruct (Y S R L _ _ _ Hs1 E1) as (Hs2 & P2 & Hc2).
  cbn [fst snd]. rewrite Hc1, Hc2, <- app_assoc. repeat split; auto.
Qed.
End Pair.

Section Optional.
Context {T : Type} (f : format T) (P : T -> Prop).
Definition when (item : option T) : Prop := match item with Some x => P x | None => True end.

#[export] Instance Sound_Optional {X : Sound f P} : Sound (OptionalF f) when.
Proof.
  intros S R L s a rest Hs Ha Hc. cbn [ser unser OptionalF] in *. destruct a as [x|]; cbn [when] in Ha.
  - rewrite <- app_assoc in Hc. destruct (Sound_uint8 S R L s 1 _ Hs ltac:(now split) Hc) as (s1 & E & Hs1 & Hc1). rewrite E. cbn [bind].
    change (1 =? 0) with false. cbv iota. clear Hs Hc E. field f x. eauto.
  - destruct (Sound_uint8 S R L s 0 _ Hs ltac:(now split) Hc) as (s1 & E & Hs1 & Hc1). rewrite E. cbn [bind].
    change (0 =? 0) with true. cbv iota. eauto.
Qed.

#[export] Instance Safe_Optional {X : Safe f P} : Safe (OptionalF f) when.
Proof.
  intros S R L s a s' Hs E. cbn [unser OptionalF] in *. inv_bind E. destruct (exact (f := uint8F) _ _ _ s _ _ Hs E0) as (Hs1 & _ & Hc).
  destruct (Z.eqb_spec z 0).
  - injection E as <- <-. cbn [when]. eauto.
  - inv_bind E. injection E as <- <-. destruct (X S R L _ _ _ Hs1 E1) as (Hs2 & Px & used & Hc2). cbn [when].
    split; [assumption|]. split; [assumption|]. eexists. rewrite Hc, Hc2, app_assoc. reflexivity.
Qed.

#[export] Instance Total_Optional {X : Total f} : Total (OptionalF f).
Proof.
  intros S R L s Hs. cbn [unser OptionalF]. pose proof (total (f := uint8F) _ _ _ s Hs).
  destruct (unser uint8F s) as [[z s1]|e] eqn:E; [|cbn [bind]; congruence]. cbn [bind]. destruct (z =? 0); [discriminate|].
  destruct (exact (f := uint8F) _ _ _ s _ _ Hs E) as (Hs1 & _). pose proof (X S R L s1 Hs1).
  destruct (unser f s1) as [[x s2]|e]; cbn [bind]; congruence.
Qed.
End Optional.

(** * Automation for records *)

(** Reads the next field; the hypotheses about it are in the context. *)
Ltac step :=
  match goal with
  | Hs : ready ?s, Hc : content ?s = ser ?f ?a ++ ?rest |- _ => field f a
  end.
Ltac finish_record :=
  match goal with
  | H : ready ?s, C : content ?s = ?rest |- exists _, Ok (_, ?s) = Ok (?a, _) /\ _ /\ _ = ?rest =>
      exists s; split; [destruct a; cbn in *; subst; reflexivity | auto]
  end.
Tactic Notation "sound_record" reference(F) reference(D) :=
  let Hs := fresh "Hs" in let Ha := fresh "Ha" in let Hc := fresh "Hc" in
  intros S R L s a rest Hs Ha Hc; unfold D in Ha; cbn [ser unser F] in *;
  rewrite <- ?app_assoc in Hc; decompose [and] Ha; clear Ha; repeat step; finish_record.

(** Collects what is known of a field that was read. *)
Ltac learn_exact :=
  match goal with
  | Hs : ready ?s, E : unser ?f ?s = Ok (?a, ?s') |- _ =>
      let Hs' := fresh "Hs" in let P := fresh "P" in let C := fresh "C" in
      destruct (exact (f := f) _ _ _ s a s' Hs E) as (Hs' & P & C); clear E
  end.
Ltac learn_safe :=
  match goal with
  | Hs : ready ?s, E : unser ?f ?s = Ok (?a, ?s') |- _ =>
      let Hs' := fresh "Hs" in let P := fresh "P" in let C := fresh "C" in
      destruct (safe (f := f) _ _ _ s a s' Hs E) as (Hs' & P & ? & C); clear E
  end.
Ltac chain := repeat match goal with H : content ?s = _ |- context [content ?s] => rewrite H end.
Tactic Notation "exact_record" reference(F) :=
  let Hs := fresh "Hs" in let E := fresh "E" in
  intros S R L s a s' Hs E; cbn [ser unser F] in *; repeat inv_bind E; injection E as <- <-; repeat learn_exact;
  split; [assumption|]; split; [repeat first [assumption | reflexivity | split]|]; chain; rewrite <- ?app_assoc; reflexivity.

(** No field of a record makes a loop run out of fuel. *)
Ltac total_step :=
  match goal with
  | Hs : ready ?s |- bind (unser ?f ?s) _ <> Throw OutOfFuel =>
      let T := fresh "T" in let E := fresh "E" in let H := fresh "Hs" in
      pose proof (total (f := f) _ _ _ s Hs) as T;
      destruct (unser f s) as [[]|] eqn:E; [|cbn [bind]; congruence]; cbn [bind]; clear T;
      destruct (safe (f := f) _ _ _ s _ _ Hs E) as (H & _); clear E
  end.
Tactic Notation "total_record" reference(F) := let Hs := fresh "Hs" in intros S R L s Hs; cbn [unser F]; repeat total_step; discriminate.

(** * Consequences *)

(** No valid value has an encoding that another one begins with. *)
Lemma ser_prefix {A} (f : format A) P {X : Sound f P} a b r1 r2 :
  P a -> P b -> bytes (ser f a ++ r1) -> ser f a ++ r1 = ser f b ++ r2 -> a = b /\ r1 = r2.
Proof.
  intros Ha Hb Hbytes E.
  set (s := {| CAutoFile.file := Some (ser f a ++ r1) |}). assert (Hs : opened s) by (split; [exact Hbytes | discriminate]).
  destruct (X _ file_reader file_laws s a r1 Hs Ha eq_refl) as (s1 & E1 & _ & C1).
  destruct (X _ file_reader file_laws s b r2 Hs Hb E) as (s2 & E2 & _ & C2).
  rewrite E1 in E2. injection E2 as <- <-. cbn in C1, C2. split; congruence.
Qed.

Lemma ser_inj {A} (f : format A) P {X : Sound f P} a b : P a -> P b -> bytes (ser f a) -> ser f a = ser f b -> a = b.
Proof. intros Ha Hb Hs E. apply (ser_prefix f P a b [] []); rewrite ?app_nil_r; assumption. Qed.

Lemma strict_prefix_throws {A} (f : format A) P {X : Sound f P} {Y : Exact f P} S (R : Reader S) (L : ReaderLaws S) (s : S) a tail :
  ready s -> P a -> content s ++ tail = ser f a -> tail <> [] -> bytes (ser f a) -> exists e, unser f s = Throw e.
Proof.
  intros Hs Ha Hc Ht Hb. destruct (unser f s) as [[b s']|e] eqn:E; [exfalso | eauto].
  destruct (Y _ _ _ s b s' Hs E) as (_ & Pb & Hcb). rewrite Hcb, <- app_assoc in Hc.
  destruct (ser_prefix f P b a (content s' ++ tail) []) as [_ H]; rewrite ?Hc, ?app_nil_r; try assumption; [reflexivity|].
  apply app_eq_nil in H as [_ H]. contradiction.
Qed.

(** * Bytes *)

(** Everything that is written is a byte. *)
Class Bytes {A} (f : format A) (P : A -> Prop) : Prop := ser_bytes a : P a -> bytes (ser f a).
#[export] Hint Mode Bytes + ! - : typeclass_instances.

Lemma bytes_int n w P f : (forall a, ser f a = le_split n (a mod 2 ^ w)) -> Bytes f P.
Proof. intros E a _. rewrite E. apply bytes_le_split. Qed.
#[export] Instance Bytes_uint8 : Bytes uint8F (word 8). Proof. now apply (bytes_int 1 8). Qed.
#[export] Instance Bytes_uint32 : Bytes uint32F (word 32). Proof. now apply (bytes_int 4 32). Qed.
#[export] Instance Bytes_uint64 : Bytes uint64F (word 64). Proof. now apply (bytes_int 8 64). Qed.
#[export] Instance Bytes_int16 : Bytes int16F int16. Proof. now apply (bytes_int 2 16). Qed.
#[export] Instance Bytes_int32 : Bytes int32F int32. Proof. now apply (bytes_int 4 32). Qed.
#[export] Instance Bytes_int64 : Bytes int64F int64. Proof. now apply (bytes_int 8 64). Qed.
#[export] Instance Bytes_blob N : Bytes (blobF N) (blob N). Proof. now intros a [H _]. Qed.

Lemma bytes_CompactSize n : bytes (WriteCompactSize n).
Proof.
  unfold WriteCompactSize, ser_writedata8, ser_writedata16, ser_writedata32, ser_writedata64.
  repeat match goal with |- context [if ?b then _ else _] => destruct b end; repeat (apply Forall_app; split); apply bytes_le_split.
Qed.

#[export] Instance Bytes_chars : Bytes charsF chars.
Proof. intros a [H _]. rewrite ser_chars. apply Forall_app; split; [apply bytes_CompactSize | assumption]. Qed.

Section BytesOf.
Context {A : Type} (f : format A) (P : A -> Prop) {X : Bytes f P}.
Lemma bytes_elements v : Forall P v -> bytes (concat (map (ser f) v)).
Proof. induction 1 as [|a v Ha Hv IH]; [constructor|]. cbn [map concat]. apply Forall_app; split; [now apply X | exact IH]. Qed.
#[export] Instance Bytes_vector sizeof : Bytes (VectorFormatter sizeof f) (vector P).
Proof. intros a [Ha _]. cbn [ser VectorFormatter]. apply Forall_app; split; [apply bytes_CompactSize | now apply bytes_elements]. Qed.
#[export] Instance Bytes_array N : Bytes (arrayF N f) (array N P).
Proof. intros a [Ha _]. now apply bytes_elements. Qed.
#[export] Instance Bytes_Optional : Bytes (OptionalF f) (when P).
Proof. intros [a|] Ha; cbn [ser OptionalF]; [apply Forall_app; split; [|now apply X]|]; apply bytes_le_split. Qed.
End BytesOf.

(** * Custom integers *)

Lemma part_repeat {A} (x : A) i k : firstn i (repeat x (i + k)) = repeat x i /\ skipn i (repeat x (i + k)) = repeat x k.
Proof. rewrite repeat_app, firstn_app, skipn_app, repeat_length, Nat.sub_diag, firstn_O, app_nil_r, firstn_all2, skipn_all2 by now rewrite repeat_length. now split. Qed.

Lemma split_word n k v : word (8 * Z.of_nat n) v -> le_split (n + k) v = le_split n v ++ repeat 0 k.
Proof.
  intros Hv. rewrite le_split_app, Z.shiftr_div_pow2, Z.div_small, le_split_zero by (assumption || lia). reflexivity.
Qed.

Lemma custom_uint Bytes BigEndian v S (R : Reader S) (L : ReaderLaws S) (s : S) rest :
  (0 < Bytes <= 8)%nat -> word (8 * Z.of_nat Bytes) v ->
  exists out, CustomUint_Ser Bytes BigEndian v = Ok out /\ length out = Bytes /\
  (ready s -> content s = out ++ rest -> exists s', CustomUint_Unser Bytes BigEndian s = Ok (v, s') /\ ready s' /\ content s' = rest).
Proof.
  intros Hn Hv. set (le := le_split Bytes v). assert (Hle : length le = Bytes) by apply length_le_split. assert (Hb : bytes le) by apply bytes_le_split.
  assert (Esk : skipn Bytes (repeat 0 8) = repeat 0 (8 - Bytes)).
  { pose proof (proj2 (part_repeat 0 Bytes (8 - Bytes))) as P. now replace (Bytes + (8 - Bytes))%nat with 8%nat in P by lia. }
  assert (Efi : firstn (8 - Bytes) (repeat 0 8) = repeat 0 (8 - Bytes)).
  { pose proof (proj1 (part_repeat 0 (8 - Bytes) Bytes)) as P. now replace (8 - Bytes + Bytes)%nat with 8%nat in P by lia. }
  assert (E8 : le_split 8 v = le ++ repeat 0 (8 - Bytes)) by (unfold le; rewrite <- split_word by assumption; f_equal; lia).
  assert (Ecomb : le_combine (le ++ repeat 0 (8 - Bytes)) = v).
  { rewrite <- E8, le_combine_split. apply Z.mod_small. unfold word in Hv. assert (2 ^ (8 * Z.of_nat Bytes) <= 2 ^ (8 * Z.of_nat 8)) by (apply Z.pow_le_mono_r; lia). lia. }
  assert (Emax : (v <? 0) || (v >? CustomUintFormatter_MAX Bytes) = false).
  { unfold CustomUintFormatter_MAX. rewrite Z.shiftr_div_pow2 by lia. unfold word in Hv. destruct (Z.ltb_spec v 0); [lia|]. cbn [orb].
    change 0xffffffffffffffff with (2 ^ 64 - 1). assert (Ep : 2 ^ 64 = 2 ^ (8 * Z.of_nat Bytes) * 2 ^ (8 * (8 - Z.of_nat Bytes))) by (rewrite <- Z.pow_add_r by lia; f_equal; lia).
    assert (Hd : v <= (2 ^ 64 - 1) / 2 ^ (8 * (8 - Z.of_nat Bytes))) by (apply Z.div_le_lower_bound; [apply Z.pow_pos_nonneg; lia|]; pose proof (Z.pow_pos_nonneg 2 (8 * (8 - Z.of_nat Bytes)) ltac:(lia) ltac:(lia)); nia).
    destruct (Z.gtb_spec v ((2 ^ 64 - 1) / 2 ^ (8 * (8 - Z.of_nat Bytes)))); [lia | reflexivity]. }
  assert (Hread : forall out, length out = Bytes -> ready s -> content s = out ++ rest ->
    exists s', read (Z.of_nat Bytes) s = Ok (out, s') /\ ready s' /\ content s' = rest).
  { intros out Ho Hs Hc. apply (read_front s out rest); [assumption..| now rewrite Ho | lia]. }
  unfold CustomUint_Ser. rewrite Emax. destruct BigEndian.
  - exists (rev le). unfold be64toh. split; [|split; [now rewrite length_rev|]].
    + f_equal. rewrite (split_swap 8 v). unfold be_bytes. rewrite E8, rev_app_distr, rev_repeat, skipn_app, repeat_length, skipn_all2 by (rewrite repeat_length; lia).
      rewrite Nat.sub_diag, skipn_O. cbn [app]. apply firstn_all2. rewrite length_rev. lia.
    + intros Hs Hc. destruct (Hread (rev le)) as (s' & E & H); [now rewrite length_rev | assumption..|]. exists s'. split; [|exact H].
      unfold CustomUint_Unser. rewrite E. cbn [bind]. do 2 f_equal. unfold be64toh, memcpy_at. rewrite length_rev, Hle.
      assert (El : firstn (8 - Bytes) (repeat 0 8) ++ rev le ++ skipn (8 - Bytes + Bytes) (repeat 0 8) = rev (le ++ repeat 0 (8 - Bytes))).
      { replace (8 - Bytes + Bytes)%nat with 8%nat by lia. rewrite (skipn_all2 (n := 8)), app_nil_r by reflexivity. rewrite rev_app_distr, rev_repeat, Efi. reflexivity. }
      rewrite El. rewrite <- (length_le_split 8 v) at 1. rewrite E8, <- (length_rev (le ++ _)), le_split_combine, rev_involutive; [exact Ecomb|].
      apply Forall_rev, Forall_app; split; [assumption|]. apply Forall_forall. intros x Hx. apply repeat_spec in Hx. rewrite Hx. now split.
  - exists le. split; [|split; [assumption|]].
    + rewrite E8, firstn_app, Hle, Nat.sub_diag, firstn_O, app_nil_r. f_equal. apply firstn_all2. lia.
    + intros Hs Hc. destruct (Hread le Hle Hs Hc) as (s' & E & H). exists s'. split; [|exact H]. unfold CustomUint_Unser. rewrite E. cbn [bind]. do 2 f_equal.
      unfold memcpy_at. rewrite firstn_O, Hle. cbn [app Nat.add]. rewrite Esk. exact Ecomb.
Qed.
