(* ===== verification/VarInt.v ===== *)
(** The VarInt encoding of serialize.h: base 128, the most significant digit first, with
    one subtracted from all digits but the last. *)
From Stdlib Require Import ZifyNat.
From S2P Require Import Prelude CryptoCommon Streams Serialize SerializeLaws.
Import CryptoCommon.

(** * The encoding *)

(** The digits before the last have the high bit set; [acc] is the number they leave. *)
Definition cont (l : list Z) : Prop := Forall (fun b => 128 <= b < 256) l.
Definition push (n b : Z) : Z := n * 128 + (b - 128) + 1.
Definition acc (l : list Z) : Z := fold_left push l 0.
Definition varint (n : Z) (bs : list Z) : Prop := exists l d, bs = l ++ [d] /\ cont l /\ 0 <= d < 128 /\ n = acc l * 128 + d.

Lemma acc_snoc l b : acc (l ++ [b]) = push (acc l) b.
Proof. unfold acc. now rewrite fold_left_app. Qed.

Lemma cont_snoc l b : cont (l ++ [b]) <-> cont l /\ 128 <= b < 256.
Proof. unfold cont. rewrite Forall_app, Forall_cons_iff. intuition. Qed.

Lemma acc_grows l : cont l -> 128 ^ Z.of_nat (length l) <= 127 * acc l + 1.
Proof.
  induction l as [|b l IH] using rev_ind; intros H; [cbn; lia|]. apply cont_snoc in H as [Hl Hb].
  rewrite acc_snoc, length_app, Nat.add_1_r, Nat2Z.inj_succ, Z.pow_succ_r by lia. unfold push. specialize (IH Hl). lia.
Qed.

Lemma acc_nonneg l : cont l -> 0 <= acc l.
Proof. intros H. pose proof (acc_grows l H). pose proof (Z.pow_pos_nonneg 128 (Z.of_nat (length l)) ltac:(lia) ltac:(lia)). lia. Qed.

(** Every number is left by one list of digits. *)
Lemma acc_inj l1 l2 : cont l1 -> cont l2 -> acc l1 = acc l2 -> l1 = l2.
Proof.
  revert l2; induction l1 as [|b1 l1 IH] using rev_ind; intros l2 H1 H2 E; destruct l2 as [|b2 l2 _] using rev_ind;
    rewrite ?acc_snoc in E; unfold push in E; repeat match goal with H : cont (_ ++ _) |- _ => apply cont_snoc in H as [? ?] end;
    repeat match goal with H : cont ?l |- _ => lazymatch goal with P : 0 <= acc l |- _ => fail | _ => pose proof (acc_nonneg l H) end end;
    change (acc []) with 0 in *; [reflexivity | lia..|].
  assert (acc l1 = acc l2) by lia. f_equal; [now apply IH | f_equal; lia].
Qed.

Lemma varint_inj n bs1 bs2 : varint n bs1 -> varint n bs2 -> bs1 = bs2.
Proof.
  intros (l1 & d1 & -> & H1 & D1 & E1) (l2 & d2 & -> & H2 & D2 & E2).
  assert (acc l1 = acc l2) by lia. rewrite (acc_inj l1 l2) by assumption. do 2 f_equal. lia.
Qed.

(** * Writing *)

Lemma low_digit n : 0 <= n -> n &: 0x7F = n mod 128.
Proof. intros _. apply (Z.land_ones n 7). lia. Qed.

Lemma high_bit d : 0 <= d < 128 -> d |: 0x80 = d + 128.
Proof.
  intros H. apply Z.eqb_eq. revert d H. apply (forallb_below 128 (fun d => (d |: 0x80) =? d + 128)). vm_compute. reflexivity.
Qed.

Lemma test_high b : 0 <= b < 256 -> (b &: 0x80 =? 0) = (b <? 128).
Proof.
  intros H. apply eqb_prop. revert b H. apply (forallb_below 256 (fun b => Bool.eqb (b &: 0x80 =? 0) (b <? 128))). vm_compute. reflexivity.
Qed.

Lemma add_digit n b : 0 <= n -> Z.shiftl n 7 |: (b &: 0x7F) = n * 128 + b mod 128.
Proof.
  intros Hn. change 0x7F with (Z.ones 7). rewrite Z.land_ones, Z.lor_comm, <- add_shiftl_lor by (try apply word_mod; lia).
  change (2 ^ 7) with 128. lia.
Qed.

Lemma minus_one n : Z.shiftr n 7 - 1 = n / 128 - 1.
Proof. now rewrite Z.shiftr_div_pow2 by lia. Qed.

(** The digits of [n] in the order in which they are found. *)
Lemma WriteVarInt_loop_spec room n tmp :
  (0 < room)%nat -> 0 <= n < 128 ^ Z.of_nat room ->
  exists l, WriteVarInt_loop room n tmp = Some (tmp ++ (n mod 128 + (if (length tmp =? 0)%nat then 0 else 128)) :: rev l) /\
  cont l /\ acc l * 128 + n mod 128 = n.
Proof.
  revert n tmp; induction room as [|room IH]; intros n tmp Hr Hn; [lia|]. cbn [WriteVarInt_loop].
  rewrite low_digit, minus_one by lia. rewrite Nat2Z.inj_succ, Z.pow_succ_r in Hn by lia. pose proof (Z.mod_pos_bound n 128 ltac:(lia)).
  assert (Ed : n mod 128 |: (if (length tmp =? 0)%nat then 0 else 128) = n mod 128 + (if (length tmp =? 0)%nat then 0 else 128)).
  { destruct (length tmp =? 0)%nat; [rewrite Z.lor_0_r; lia | now apply high_bit]. }
  rewrite Ed. set (d := n mod 128 + _). destruct (Z.leb_spec n 0x7F).
  - exists []. split; [reflexivity|]. split; [constructor|]. rewrite Z.mod_small by lia. reflexivity.
  - destruct (IH (n / 128 - 1) (tmp ++ [d])) as (l & -> & Hl & Ha); [destruct room; [cbn in Hn|]; lia | lia|]. rewrite length_app.
    replace (length tmp + length [d] =? 0)%nat with false by (symmetry; apply Nat.eqb_neq; cbn; lia).
    pose proof (Z.mod_pos_bound (n / 128 - 1) 128 ltac:(lia)). exists (l ++ [(n / 128 - 1) mod 128 + 128]).
    rewrite rev_app_distr, <- app_assoc. split; [reflexivity|]. split; [apply cont_snoc; split; [assumption | lia]|].
    rewrite acc_snoc. unfold push. lia.
Qed.

Lemma concat_writedata8 l : bytes l -> concat (map ser_writedata8 l) = l.
Proof.
  induction 1 as [|b l Hb Hl IH]; [reflexivity|]. cbn [map concat]. rewrite IH.
  unfold ser_writedata8. cbn [le_split app]. change (2 ^ 8) with 256. rewrite Z.mod_mod, Z.mod_small by (unfold word in Hb; lia). reflexivity.
Qed.

Lemma cont_bytes l : cont l -> bytes l.
Proof. intros H. eapply Forall_impl; [|exact H]. intros b Hb; cbv beta in Hb; unfold word. lia. Qed.

Section Width.
Context (w m : Z) (Hw : 7 <= m <= w) (Hw' : w <= 64).
Local Abbreviation max := (2 ^ m - 1).

(** The buffer is long enough: [WriteVarInt] writes the encoding of the number. *)
Lemma WriteVarInt_total n : 0 <= n <= max -> exists out, WriteVarInt w n = Some out /\ varint n out.
Proof.
  intros Hn. unfold WriteVarInt. destruct (WriteVarInt_loop_spec (Z.to_nat ((w + 6) / 7)) n []) as (l & -> & Hl & Ha).
  { lia. }
  { rewrite Z2Nat.id by lia. change 128 with (2 ^ 7). rewrite <- Z.pow_mul_r by lia.
    assert (2 ^ m <= 2 ^ (7 * ((w + 6) / 7))) by (apply Z.pow_le_mono_r; lia). lia. }
  cbn [option_map app length Nat.eqb]. rewrite Z.add_0_r. eexists. split; [reflexivity|]. pose proof (Z.mod_pos_bound n 128 ltac:(lia)).
  assert (E : rev (n mod 128 :: rev l) = l ++ [n mod 128]) by (cbn [rev]; now rewrite rev_involutive). rewrite E.
  rewrite concat_writedata8 by (apply Forall_app; split; [now apply cont_bytes | repeat constructor; unfold word; lia]).
  exists l, (n mod 128). auto.
Qed.

Lemma ser_varint n bs : 0 <= n <= max -> varint n bs -> ser (VarIntFormatter w max) n = bs.
Proof.
  intros Hn Hb. cbn [ser VarIntFormatter]. destruct (WriteVarInt_total n Hn) as (out & -> & Ho). now apply (varint_inj n).
Qed.

(** The number of bytes that [CSizeComputer] adds. *)
Lemma GetSizeOfVarInt_loop_spec fuel n nRet :
  (0 < fuel)%nat -> 0 <= n < 128 ^ Z.of_nat fuel ->
  exists l, GetSizeOfVarInt_loop fuel n nRet = Some (nRet + Z.of_nat (length l) + 1) /\ cont l /\ acc l * 128 + n mod 128 = n.
Proof.
  revert n nRet; induction fuel as [|fuel IH]; intros n nRet Hf Hn; [lia|]. cbn [GetSizeOfVarInt_loop]. rewrite minus_one.
  rewrite Nat2Z.inj_succ, Z.pow_succ_r in Hn by lia. destruct (Z.leb_spec n 0x7F).
  - exists []. split; [f_equal; cbn; lia|]. split; [constructor|]. rewrite Z.mod_small by lia. reflexivity.
  - destruct (IH (n / 128 - 1) (nRet + 1)) as (l & -> & Hl & Ha); [destruct fuel; [cbn in Hn|]; lia | lia|].
    pose proof (Z.mod_pos_bound (n / 128 - 1) 128 ltac:(lia)). exists (l ++ [(n / 128 - 1) mod 128 + 128]).
    rewrite length_app. split; [f_equal; cbn [length]; lia|]. split; [apply cont_snoc; split; [assumption | lia]|].
    rewrite acc_snoc. unfold push. lia.
Qed.

Lemma GetSizeOfVarInt_spec n : 0 <= n <= max -> GetSizeOfVarInt n = Some (Z.of_nat (length (ser (VarIntFormatter w max) n))).
Proof.
  intros Hn. unfold GetSizeOfVarInt. assert (2 ^ m <= 2 ^ 64) by (apply Z.pow_le_mono_r; lia).
  destruct (GetSizeOfVarInt_loop_spec 10 n 0 ltac:(lia)) as (l & -> & Hl & Ha); [change (128 ^ Z.of_nat 10) with (2 ^ 70); lia|].
  rewrite (ser_varint n (l ++ [n mod 128])); [rewrite length_app; f_equal; cbn [length]; lia | assumption|].
  exists l, (n mod 128). pose proof (Z.mod_pos_bound n 128 ltac:(lia)). auto.
Qed.

(** ** Reading *)

Lemma max_shift : Z.shiftr max 7 = max / 128.
Proof. now rewrite Z.shiftr_div_pow2 by lia. Qed.

Lemma max_div : 127 <= max /\ forall n d, n <= max / 128 -> 0 <= d < 128 -> n * 128 + d <= max.
Proof.
  assert (E : 2 ^ m = 128 * 2 ^ (m - 7)) by (change 128 with (2 ^ 7); rewrite <- Z.pow_add_r by lia; f_equal; lia).
  pose proof (Z.pow_pos_nonneg 2 (m - 7) ltac:(lia) ltac:(lia)). rewrite E. split; [lia|]. intros n d Hn Hd.
  replace ((128 * 2 ^ (m - 7) - 1) / 128) with (2 ^ (m - 7) - 1) in Hn by lia. lia.
Qed.

Lemma to_I_id x : 0 <= x <= max -> to_I w max x = x.
Proof.
  intros Hx. assert (2 ^ m <= 2 ^ w) by (apply Z.pow_le_mono_r; lia). unfold to_I. cbv zeta. rewrite Z.mod_small by lia.
  destruct (Z.gtb_spec x max); [lia | reflexivity].
Qed.

(** The first guard leaves room for a digit. *)
Lemma add_digit_I n b : 0 <= n <= max / 128 -> to_I w max (Z.shiftl n 7 |: (b &: 0x7F)) = n * 128 + b mod 128.
Proof.
  intros Hn. rewrite add_digit by lia. apply to_I_id. pose proof (Z.mod_pos_bound b 128 ltac:(lia)).
  pose proof (proj2 max_div n (b mod 128)). lia.
Qed.

Lemma push_mono l n : cont l -> 0 <= n -> n <= fold_left push l n.
Proof.
  revert n; induction l as [|b l IH]; intros n Hl Hn; [cbn; lia|]. inversion Hl as [|x y Hb Hl' E]; subst. cbn [fold_left].
  specialize (IH (push n b) Hl'). unfold push in *. lia.
Qed.

Context {S : Type} {R : Reader S} {L : ReaderLaws S}.
Implicit Types s : S.

Lemma ReadVarInt_loop_sound fuel n s l d rest :
  ready s -> 0 <= n -> cont l -> 0 <= d < 128 -> fold_left push l n * 128 + d <= max -> (length l < fuel)%nat ->
  content s = l ++ d :: rest ->
  exists s', ReadVarInt_loop w max fuel n s = Ok (fold_left push l n * 128 + d, s') /\ ready s' /\ content s' = rest.
Proof.
  revert n s l; induction fuel as [|fuel IH]; intros n s l Hs Hn Hl Hd Hmax Hf Hc; [lia|]. cbn [ReadVarInt_loop]. read_fields.
  pose proof (push_mono l n Hl Hn). rewrite max_shift.
  destruct l as [|b l]; cbn [app fold_left length] in *.
  - destruct (sound (f := uint8F) _ _ _ s d rest Hs) as (s1 & E & Hs1 & Hc1); [unfold word; lia | rewrite Hc; cbn; unfold ser_writedata8; rewrite Z.mod_small by lia; cbn [le_split]; now rewrite Z.mod_small by lia|].
    rewrite E. cbn [bind]. destruct (Z.gtb_spec n (max / 128)); [lia|]. rewrite test_high, add_digit_I by lia.
    destruct (Z.ltb_spec d 128); [|lia]. rewrite Z.mod_small by lia. cbn [negb]. eauto.
  - inversion Hl as [|x y Hb Hl' E]; subst. pose proof (push_mono l (push n b) Hl' ltac:(unfold push; lia)) as Hp. unfold push in Hp at 1.
    destruct (sound (f := uint8F) _ _ _ s b (l ++ d :: rest) Hs) as (s1 & E & Hs1 & Hc1); [unfold word; lia | rewrite Hc; cbn; unfold ser_writedata8; rewrite Z.mod_small by lia; cbn [le_split]; now rewrite Z.mod_small by lia|].
    rewrite E. cbn [bind]. destruct (Z.gtb_spec n (max / 128)); [lia|]. rewrite test_high, add_digit_I by lia.
    destruct (Z.ltb_spec b 128); [lia|]. cbn [negb]. replace (b mod 128) with (b - 128) by lia.
    destruct (Z.eqb_spec (n * 128 + (b - 128)) max); [lia|]. rewrite to_I_id by lia. fold (push n b). apply IH; try assumption; unfold push; lia.
Qed.

Lemma ReadVarInt_loop_exact fuel n s N s' :
  ready s -> 0 <= n -> ReadVarInt_loop w max fuel n s = Ok (N, s') ->
  ready s' /\ N <= max /\ exists l d, cont l /\ 0 <= d < 128 /\ content s = l ++ d :: content s' /\ N = fold_left push l n * 128 + d.
Proof.
  revert n s; induction fuel as [|fuel IH]; intros n s Hs Hn E; [discriminate|]. cbn [ReadVarInt_loop] in E. read_fields. inv_bind E.
  destruct (exact (f := uint8F) _ _ _ s _ _ Hs E0) as (Hs1 & Wz & Hc). unfold word in Wz. rewrite max_shift in E.
  destruct (Z.gtb_spec n (max / 128)); [discriminate|]. rewrite test_high, add_digit_I in E by lia.
  replace (ser uint8F z) with [z] in Hc by (cbn; unfold ser_writedata8; rewrite Z.mod_small by lia; cbn [le_split]; now rewrite Z.mod_small by lia).
  destruct (Z.ltb_spec z 128); cbn [negb] in E.
  - injection E as <- <-. rewrite Z.mod_small by lia. split; [assumption|]. split; [apply max_div; lia|]. exists [], z. repeat split; (assumption || lia || constructor).
  - destruct (Z.eqb_spec (n * 128 + z mod 128) max); [discriminate|].
    pose proof (Z.mod_pos_bound z 128 ltac:(lia)). pose proof (proj2 max_div n (z mod 128)). rewrite to_I_id in E by lia.
    destruct (IH (n * 128 + z mod 128 + 1) s0 Hs1 ltac:(lia) E) as (Hs' & HN & l & d & Hl & Hd & Hc' & EN). split; [assumption|]. split; [assumption|].
    exists (z :: l), d. split; [constructor; [lia | assumption]|]. split; [assumption|]. rewrite Hc, Hc'. split; [reflexivity|].
    rewrite EN. cbn [fold_left]. do 3 f_equal. unfold push. lia.
Qed.

Lemma ReadVarInt_loop_total fuel k n s :
  ready s -> (fuel + k = 11)%nat -> 0 <= n <= max -> 128 ^ Z.of_nat k <= 127 * n + 1 -> ReadVarInt_loop w max fuel n s <> Throw OutOfFuel.
Proof.
  assert (Hm : 2 ^ m <= 2 ^ 64) by (apply Z.pow_le_mono_r; lia).
  revert k n s; induction fuel as [|fuel IH]; intros k n s Hs Hk Hn Hp.
  - replace k with 11%nat in Hp by lia. change (128 ^ Z.of_nat 11) with (2 ^ 77) in Hp. lia.
  - cbn [ReadVarInt_loop]. read_fields. pose proof (total (f := uint8F) _ _ _ s Hs) as T.
    destruct (unser uint8F s) as [[z s1]|e] eqn:E; [|cbn [bind]; congruence]. cbn [bind]. rewrite max_shift.
    destruct (exact (f := uint8F) _ _ _ s _ _ Hs E) as (Hs1 & Wz & Hc). unfold word in Wz.
    destruct (Z.gtb_spec n (max / 128)); [discriminate|]. rewrite test_high, add_digit_I by lia. destruct (Z.ltb_spec z 128); cbn [negb]; [discriminate|].
    pose proof (Z.mod_pos_bound z 128 ltac:(lia)). pose proof (proj2 max_div n (z mod 128)).
    destruct (Z.eqb_spec (n * 128 + z mod 128) max); [discriminate|]. rewrite to_I_id by lia. apply (IH (Datatypes.S k)); try assumption; [lia | lia|].
    rewrite Nat2Z.inj_succ, Z.pow_succ_r by lia. lia.
Qed.
End Width.

(** ** The promises *)

Section Laws.
Context (w m : Z) (Hw : 7 <= m <= w) (Hw' : w <= 64).
Definition varint_ok (n : Z) : Prop := 0 <= n <= 2 ^ m - 1.

Lemma Sound_VarInt : Sound (VarIntFormatter w (2 ^ m - 1)) varint_ok.
Proof.
  intros S R L s n rest Hs Hn Hc. destruct (WriteVarInt_total w m Hw n Hn) as (out & E & l & d & Eo & Hl & Hd & En).
  cbn [ser VarIntFormatter] in Hc. rewrite E, Eo, <- app_assoc in Hc. cbn [unser VarIntFormatter]. unfold ReadVarInt.
  destruct (ReadVarInt_loop_sound w m Hw 11 0 s l d rest Hs ltac:(lia) Hl Hd) as (s' & -> & H); [fold (acc l); unfold varint_ok in Hn; lia | | exact Hc |].
  - pose proof (acc_grows l Hl) as G. assert (2 ^ m <= 2 ^ 64) by (apply Z.pow_le_mono_r; lia).
    destruct (Nat.lt_ge_cases (length l) 11) as [|Hge]; [assumption|]. exfalso.
    assert (128 ^ 11 <= 128 ^ Z.of_nat (length l)) by (apply Z.pow_le_mono_r; lia). unfold varint_ok in Hn. change (128 ^ 11) with (2 ^ 77) in *. lia.
  - exists s'. fold (acc l). rewrite <- En. auto.
Qed.

Lemma Exact_VarInt : Exact (VarIntFormatter w (2 ^ m - 1)) varint_ok.
Proof.
  intros S R L s n s' Hs E. destruct (ReadVarInt_loop_exact w m Hw 11 0 s n s' Hs ltac:(lia) E) as (Hs' & HN & l & d & Hl & Hd & Hc & EN).
  fold (acc l) in EN. pose proof (acc_nonneg l Hl). assert (Hn : varint_ok n) by (split; lia). split; [assumption|]. split; [assumption|].
  rewrite (ser_varint w m Hw n (l ++ [d]) Hn); [now rewrite <- app_assoc|]. now exists l, d.
Qed.

Lemma Total_VarInt : Total (VarIntFormatter w (2 ^ m - 1)).
Proof.
  intros S R L s Hs. apply (ReadVarInt_loop_total w m Hw Hw' 11 0); [assumption | reflexivity | | cbn; lia].
  pose proof (max_div w m Hw). lia.
Qed.
End Laws.

(** The types that are serialized in this way. *)
Definition VarInt32F : format Z := VarIntFormatter 32 (2 ^ 32 - 1).
Definition VarInt64F : format Z := VarIntFormatter 64 (2 ^ 64 - 1).
Lemma Sound_VarInt32 : Sound VarInt32F (varint_ok 32). Proof. apply Sound_VarInt; lia. Qed.
Lemma Exact_VarInt32 : Exact VarInt32F (varint_ok 32). Proof. apply Exact_VarInt; lia. Qed.
Lemma Total_VarInt32 : Total VarInt32F. Proof. apply Total_VarInt; lia. Qed.
Lemma Sound_VarInt64 : Sound VarInt64F (varint_ok 64). Proof. apply Sound_VarInt; lia. Qed.
Lemma Exact_VarInt64 : Exact VarInt64F (varint_ok 64). Proof. apply Exact_VarInt; lia. Qed.
Lemma Total_VarInt64 : Total VarInt64F. Proof. apply Total_VarInt; lia. Qed.

(** The two formats are told apart by their names: comparing their definitions is slow. *)
#[export] Hint Extern 0 (Sound VarInt32F _) => exact Sound_VarInt32 : typeclass_instances.
#[export] Hint Extern 0 (Exact VarInt32F _) => exact Exact_VarInt32 : typeclass_instances.
#[export] Hint Extern 0 (Safe VarInt32F _) => exact (Exact_Safe _ _ Exact_VarInt32) : typeclass_instances.
#[export] Hint Extern 0 (Total VarInt32F) => exact Total_VarInt32 : typeclass_instances.
#[export] Hint Extern 0 (Sound VarInt64F _) => exact Sound_VarInt64 : typeclass_instances.
#[export] Hint Extern 0 (Exact VarInt64F _) => exact Exact_VarInt64 : typeclass_instances.
#[export] Hint Extern 0 (Safe VarInt64F _) => exact (Exact_Safe _ _ Exact_VarInt64) : typeclass_instances.
#[export] Hint Extern 0 (Total VarInt64F) => exact Total_VarInt64 : typeclass_instances.

(** * The numbers of the wire format *)

Section Numbers.
Context {S : Type} {R : Reader S} {L : ReaderLaws S}.

(** CompactSize numbers: what [WriteCompactSize] writes [ReadCompactSize] reads, and it reads
    nothing else, so that every number has one encoding; with the range check no number above
    [MAX_SIZE] is read; [GetSizeOfCompactSize] is the number of bytes. *)
Theorem compact_size (range_check : bool) (s : S) :
  ready s ->
  (forall n rest, word 64 n -> (range_check = true -> n <= MAX_SIZE) -> content s = WriteCompactSize n ++ rest ->
     exists s', ReadCompactSize range_check s = Ok (n, s') /\ content s' = rest) /\
  (forall n s', ReadCompactSize range_check s = Ok (n, s') ->
     word 64 n /\ (range_check = true -> n <= MAX_SIZE) /\ content s = WriteCompactSize n ++ content s') /\
  (forall n, GetSizeOfCompactSize n = Z.of_nat (length (WriteCompactSize n))).
Proof.
  intros Hs. split; [|split].
  - intros n rest Hn Hm Hc. destruct (ReadCompactSize_sound range_check s n rest Hs (conj Hn Hm) Hc) as (s' & E & _ & H). eauto.
  - intros n s' E. destruct (ReadCompactSize_exact range_check s n s' Hs E) as (_ & [H1 H2] & H3). auto.
  - exact GetSizeOfCompactSize_spec.
Qed.

(** C36. VarInt numbers of a type with [w] bits and [m] value bits: [WriteVarInt] stays within its
    buffer, [ReadVarInt], which computes with the wrap-around of the type, reads the number
    back, reads nothing else as that number (so that no longer encoding overflows to it) and
    does not run out of fuel, and [GetSizeOfVarInt] is the number of bytes. *)
Theorem varint_encoding w m n :
  7 <= m <= w -> w <= 64 -> 0 <= n <= 2 ^ m - 1 ->
  exists bs, WriteVarInt w n = Some bs /\ GetSizeOfVarInt n = Some (Z.of_nat (length bs)) /\
  forall s : S, ready s ->
    (forall rest, content s = bs ++ rest -> exists s', ReadVarInt w (2 ^ m - 1) s = Ok (n, s') /\ content s' = rest) /\
    (forall s', ReadVarInt w (2 ^ m - 1) s = Ok (n, s') -> content s = bs ++ content s') /\
    ReadVarInt w (2 ^ m - 1) s <> Throw OutOfFuel.
Proof.
  intros Hw Hw' Hn. destruct (WriteVarInt_total w m Hw n Hn) as (bs & E & Hbs). exists bs. split; [exact E|].
  assert (Es : ser (VarIntFormatter w (2 ^ m - 1)) n = bs) by (cbn [ser VarIntFormatter]; now rewrite E).
  split; [rewrite <- Es; now apply (GetSizeOfVarInt_spec w m)|]. intros s Hs. split; [|split].
  - intros rest Hc. rewrite <- Es in Hc. destruct (Sound_VarInt w m Hw Hw' S R L s n rest Hs Hn Hc) as (s' & E' & _ & H). eauto.
  - intros s' E'. destruct (Exact_VarInt w m Hw S R L s n s' Hs E') as (_ & _ & Hc). now rewrite Es in Hc.
  - exact (Total_VarInt w m Hw Hw' S R L s Hs).
Qed.
End Numbers.

Lemma compact_size_witness :
  (forall n rest, word 64 n -> (true = true -> n <= MAX_SIZE) -> [253; 0; 1; 7] = WriteCompactSize n ++ rest ->
     exists s', ReadCompactSize true (CDataStream.Init [253; 0; 1; 7]) = Ok (n, s') /\ CDataStream.str s' = rest) /\
  (forall n s', ReadCompactSize true (CDataStream.Init [253; 0; 1; 7]) = Ok (n, s') ->
     word 64 n /\ (true = true -> n <= MAX_SIZE) /\ [253; 0; 1; 7] = WriteCompactSize n ++ CDataStream.str s') /\
  (forall n, GetSizeOfCompactSize n = Z.of_nat (length (WriteCompactSize n))).
Proof.
  apply (compact_size (L := stream_laws) true (CDataStream.Init [253; 0; 1; 7])).
  apply valid_Init; [apply words_check; reflexivity | reflexivity].
Defined.

Lemma varint_encoding_witness :
  exists bs, WriteVarInt 64 (2 ^ 32) = Some bs /\ GetSizeOfVarInt (2 ^ 32) = Some (Z.of_nat (length bs)) /\
  forall s : CDataStream.stream, valid s ->
    (forall rest, CDataStream.str s = bs ++ rest -> exists s', ReadVarInt 64 (2 ^ 64 - 1) s = Ok (2 ^ 32, s') /\ CDataStream.str s' = rest) /\
    (forall s', ReadVarInt 64 (2 ^ 64 - 1) s = Ok (2 ^ 32, s') -> CDataStream.str s = bs ++ CDataStream.str s') /\
    ReadVarInt 64 (2 ^ 64 - 1) s <> Throw OutOfFuel.
Proof. exact (varint_encoding (L := stream_laws) 64 64 (2 ^ 32) ltac:(lia) ltac:(lia) ltac:(lia)). Defined.

(** The table of the comment, which gives [0x80; 0xFF; 0x7F] for 16511 and [0x82; 0xFD; 0x7F]
    for 65535: they are the encodings of other numbers. *)
Example varint_table :
  map (WriteVarInt 64) [0; 1; 127; 128; 255; 256; 16383; 16384; 16511; 65535; 2 ^ 32] =
  map Some [[0x00]; [0x01]; [0x7F]; [0x80; 0x00]; [0x80; 0x7F]; [0x81; 0x00]; [0xFE; 0x7F]; [0xFF; 0x00]; [0xFF; 0x7F]; [0x82; 0xFE; 0x7F];
            [0x8E; 0xFE; 0xFE; 0xFF; 0x00]] /\
  map (WriteVarInt 64) [32895; 65407] = map Some [[0x80; 0xFF; 0x7F]; [0x82; 0xFD; 0x7F]].
Proof. vm_compute. auto. Qed.
