(* ===== verification/IncrementalProofs.v ===== *)
(** The incremental tree holds the perfect binary tree of its leaves, with the empty leaves
    on their right, and a witness follows the leaves that are appended after its own. *)
From Stdlib Require Import ZifyNat.
From S2P Require Import Prelude CryptoCommon Hasher Sha256 HashSpec Sha2Hash Uint256 Merkle Streams Serialize SerializeLaws IncrementalTree.
Import CryptoCommon IncrementalTree.Incremental.

Implicit Types d n : nat.

(** * The perfect tree *)

Section Node.
Context {hash : HashClass}.

(** The node of height [d] over the leaves [l], which are the first of its 2^d. *)
Fixpoint node (d : nat) (l : list Hash) : Hash :=
  match d with
  | O => match l with [] => uncommitted | h :: _ => h end
  | S d => combine (node d (firstn (2 ^ d) l)) (node d (skipn (2 ^ d) l)) d
  end.

Lemma pow2_double d : (2 ^ S d = 2 ^ d + 2 ^ d)%nat.
Proof. cbn. lia. Qed.

Lemma pow2_ge1 d : (1 <= 2 ^ d)%nat.
Proof. pose proof (Nat.pow_nonzero 2 d). lia. Qed.

Lemma node_firstn d l : node d (firstn (2 ^ d) l) = node d l.
Proof.
  revert l; induction d as [|d IH]; intros l; [destruct l; reflexivity|].
  cbn [node]. rewrite pow2_double, firstn_firstn, skipn_firstn_comm, Nat.min_l, Nat.add_sub by lia. now rewrite !IH.
Qed.

(** Two neighbours: the left one is full unless there is nothing in the right one. *)
Lemma node_join d a b :
  (length a <= 2 ^ d)%nat -> length a = (2 ^ d)%nat \/ b = [] -> combine (node d a) (node d b) d = node (S d) (a ++ b).
Proof.
  intros Ha Hb. cbn [node]. destruct Hb as [Hb | ->].
  - rewrite firstn_app, skipn_app, firstn_all2, skipn_all2, Hb, Nat.sub_diag, app_nil_r by lia. reflexivity.
  - rewrite app_nil_r, firstn_all2, skipn_all2 by lia. reflexivity.
Qed.

(** What the table of empty roots promises, up to the height [Depth]. *)
Class EmptyRoots (Depth : nat) : Prop := {
  EmptyRoot_0 : EmptyRoot 0 = Some uncommitted;
  EmptyRoot_S d h : (d < Depth)%nat -> EmptyRoot d = Some h -> EmptyRoot (S d) = Some (combine h h d)
}.

Lemma EmptyRoot_node Depth {E : EmptyRoots Depth} d : (d <= Depth)%nat -> EmptyRoot d = Some (node d []).
Proof.
  induction d as [|d IH]; intros Hd; [apply EmptyRoot_0|]. rewrite (EmptyRoot_S d (node d [])) by (lia || (apply IH; lia)).
  cbn [node]. now rewrite firstn_nil, skipn_nil.
Qed.
End Node.

(** * What a tree holds *)

Definition some {A} (o : option A) : bool := match o with Some _ => true | None => false end.
Definition option_list {A} (o : option A) : list A := match o with Some a => [a] | None => [] end.

Section Tree.
Context {hash : HashClass}.

(** The parents [ps] of height [d] and more are the complete subtrees of [l]. *)
Fixpoint holds (d : nat) (ps : list (option Hash)) (l : list Hash) : Prop :=
  match ps with
  | [] => l = []
  | Some h :: ps => exists a b, l = a ++ b /\ length b = (2 ^ d)%nat /\ h = node d b /\ holds (S d) ps a
  | None :: ps => holds (S d) ps l
  end.

(** Their number of leaves. *)
Fixpoint weight (d : nat) (ps : list (option Hash)) : nat :=
  match ps with
  | [] => 0
  | Some _ :: ps => 2 ^ d + weight (S d) ps
  | None :: ps => weight (S d) ps
  end.

(** What [wfcheck] checks beyond the number of the parents. *)
Definition canonical (t : IncrementalMerkleTree) : Prop :=
  last (parents t) (Some []) <> None /\ (left t = None -> right t = None /\ parents t = []).

Definition leaves (t : IncrementalMerkleTree) : list Hash := option_list (left t) ++ option_list (right t).

(** The tree of the leaves [l]. *)
Definition tree_of (t : IncrementalMerkleTree) (l : list Hash) : Prop :=
  canonical t /\ exists a, holds 1 (parents t) a /\ l = a ++ leaves t.

Lemma tree_of_new : tree_of IncrementalMerkleTree_new [].
Proof. split; [split; [discriminate | now split]|]. exists []. now split. Qed.

Lemma holds_weight ps : forall d l, holds d ps l -> length l = weight d ps.
Proof.
  induction ps as [|[h|] ps IH]; intros d l; cbn [holds weight]; [now intros ->| |apply IH].
  intros (a & b & -> & Hb & _ & Ha). rewrite length_app, (IH _ _ Ha). lia.
Qed.

Lemma weight_app ps qs : forall d, weight d (ps ++ qs) = (weight d ps + weight (d + length ps) qs)%nat.
Proof.
  induction ps as [|[h|] ps IH]; intros d; cbn [weight app length]; rewrite ?Nat.add_0_r, ?IH; try reflexivity;
    replace (S d + length ps)%nat with (d + S (length ps))%nat by lia; lia.
Qed.

Lemma weight_bound ps : forall d, (weight d ps + 2 ^ d <= 2 ^ (d + length ps))%nat.
Proof.
  induction ps as [|[h|] ps IH]; intros d; cbn [weight length]; [rewrite Nat.add_0_r; lia | |];
    specialize (IH (S d)); replace (d + S (length ps))%nat with (S d + length ps)%nat by lia; rewrite pow2_double in IH; lia.
Qed.

Lemma weight_full ps : forall d, (weight d ps + 2 ^ d = 2 ^ (d + length ps))%nat <-> forallb some ps = true.
Proof.
  induction ps as [|[h|] ps IH]; intros d; cbn [weight length forallb some andb]; [rewrite Nat.add_0_r; lia | |];
    replace (d + S (length ps))%nat with (S d + length ps)%nat by lia.
  - rewrite <- (IH (S d)), pow2_double. lia.
  - pose proof (weight_bound ps (S d)) as H. rewrite pow2_double in H. pose proof (pow2_ge1 d). split; [lia | discriminate].
Qed.

Lemma weight_last ps d : ps <> [] -> last ps (Some []) <> None -> (2 ^ (d + length ps - 1) <= weight d ps)%nat.
Proof.
  intros Hne Hl. destruct (exists_last Hne) as (qs & [h|] & ->); rewrite last_last in Hl; [|congruence].
  rewrite weight_app, length_app. cbn [weight length]. replace (d + (length qs + 1) - 1)%nat with (d + length qs)%nat by lia. lia.
Qed.

Lemma length_leaves t : length (leaves t) = (Nat.b2n (some (left t)) + Nat.b2n (some (right t)))%nat.
Proof. unfold leaves. now destruct (left t), (right t). Qed.

Lemma tree_of_length t l : tree_of t l -> length l = (weight 1 (parents t) + length (leaves t))%nat.
Proof. intros (_ & a & Ha & ->). now rewrite length_app, (holds_weight _ _ _ Ha). Qed.

(** The number of parents is bounded by the height. *)
Lemma tree_of_parents t l depth :
  (1 <= depth)%nat -> tree_of t l -> (length l <= 2 ^ depth)%nat -> (length (parents t) < depth)%nat.
Proof.
  intros Hd Ht Hl. rewrite (tree_of_length t l Ht), length_leaves in Hl. destruct Ht as [[Hlast Hleft] _].
  destruct (parents t) as [|p ps] eqn:E; [cbn; lia|]. rewrite <- E in *. clear Hd.
  assert (Hne : parents t <> []) by congruence. destruct (left t) as [h|]; [|destruct (Hleft eq_refl); congruence].
  pose proof (weight_last (parents t) 1 Hne Hlast) as Hw. replace (1 + length (parents t) - 1)%nat with (length (parents t)) in Hw by lia.
  cbn in Hl. apply (Nat.pow_lt_mono_r_iff 2); lia.
Qed.

(** A tree is complete to a depth when it has all leaves. *)
Lemma is_complete_spec t l depth :
  (1 <= depth)%nat -> Z.of_nat depth < 2 ^ 64 -> tree_of t l -> is_complete t depth = (length l =? 2 ^ depth)%nat.
Proof.
  intros Hd Hd64 Ht. pose proof (tree_of_length t l Ht) as Hlen. pose proof (length_leaves t) as Hlv. pose proof Ht as [[Hlast Hleft] _].
  unfold is_complete. change (fun parent : option Hash => match parent with Some _ => true | None => false end) with (@some Hash).
  pose proof (weight_bound (parents t) 1) as Hb.
  assert (E : w64 (Z.of_nat depth - 1) = Z.of_nat (depth - 1)) by (unfold w64; rewrite Z.mod_small; lia).
  symmetry. destruct (left t) as [x|] eqn:El; [destruct (right t) as [y|] eqn:Er|].
  - cbn in Hlv. rewrite E. destruct (Z.eqb_spec (Z.of_nat (length (parents t))) (Z.of_nat (depth - 1))) as [Hn|Hn]; cbn [negb].
    + apply eq_true_iff_eq. rewrite Nat.eqb_eq, <- (weight_full (parents t) 1).
      replace (1 + length (parents t))%nat with depth by lia. rewrite Hlen, Hlv. cbn. lia.
    + apply Nat.eqb_neq. intros Hl. pose proof (tree_of_parents t l depth Hd Ht ltac:(lia)).
      pose proof (Nat.pow_lt_mono_r 2 (1 + length (parents t)) depth ltac:(lia) ltac:(lia)). rewrite Hlen, Hlv in Hl. rewrite Nat.pow_1_r in Hb; cbn [Nat.b2n some] in Hl; lia.
  - apply Nat.eqb_neq. intros Hl. pose proof (tree_of_parents t l depth Hd Ht ltac:(lia)).
    pose proof (Nat.pow_le_mono_r 2 (1 + length (parents t)) depth ltac:(lia) ltac:(lia)). rewrite Hlen, Hlv in Hl. rewrite Nat.pow_1_r in Hb; cbn [Nat.b2n some] in Hl; lia.
  - destruct (Hleft eq_refl) as [Hr Hp]. rewrite Hr in Hlv. rewrite Hp in Hlen. cbn in Hlen, Hlv. apply Nat.eqb_neq. rewrite Hlen, Hlv.
    pose proof (pow2_ge1 depth). cbn. lia.
Qed.

(** * Appending *)

(** [append_loop] from the parents on that have not been visited. *)
Fixpoint carry (d : nat) (c : Hash) (ps : list (option Hash)) : list (option Hash) :=
  match ps with
  | [] => [Some c]
  | Some p :: ps => None :: carry (S d) (combine p c d) ps
  | None :: ps => Some c :: ps
  end.

Lemma upd_middle {A} (pre : list A) x y post : upd (pre ++ x :: post) (length pre) y = pre ++ y :: post.
Proof. induction pre as [|z pre IH]; [reflexivity|]. cbn. now rewrite IH. Qed.

Lemma append_loop_carry n pre c ps :
  (length ps < n)%nat -> append_loop n (length pre) c (pre ++ ps) = pre ++ carry (length pre + 1) c ps.
Proof.
  revert pre c ps; induction n as [|n IH]; intros pre c ps Hn; [lia|]. cbn [append_loop]. rewrite length_app.
  destruct ps as [|p ps]; cbn [length] in *.
  - destruct (Nat.ltb_spec (length pre) (length pre + 0)); [lia|]. now rewrite app_nil_r.
  - destruct (Nat.ltb_spec (length pre) (length pre + S (length ps))); [|lia]. rewrite nth_middle. destruct p as [p|]; cbn [carry].
    + rewrite upd_middle. specialize (IH (pre ++ [None]) (combine p c (length pre + 1)) ps ltac:(lia)).
      rewrite length_app, <- !app_assoc in IH. cbn [length app] in IH.
      replace (S (length pre)) with (length pre + 1)%nat by lia. rewrite IH. now rewrite (Nat.add_1_r (length pre + 1)).
    + now rewrite upd_middle.
Qed.

Lemma holds_carry ps : forall d c a b, holds d ps a -> length b = (2 ^ d)%nat -> c = node d b -> holds d (carry d c ps) (a ++ b).
Proof.
  induction ps as [|[h|] ps IH]; intros d c a b; cbn [holds carry].
  - intros -> Hb ->. exists [], b. now repeat split.
  - intros (a1 & b1 & -> & Hb1 & -> & Ha1) Hb ->. rewrite <- app_assoc. apply IH; [assumption | rewrite length_app, pow2_double; lia |].
    apply node_join; [lia | now left].
  - intros Ha Hb ->. exists a, b. now repeat split.
Qed.

Lemma last_carry ps : forall d c, last ps (Some []) <> None -> last (carry d c ps) (Some []) <> None.
Proof.
  induction ps as [|[h|] ps IH]; intros d c Hl; cbn [carry]; [discriminate | |].
  - specialize (IH (S d) (combine h c d)). assert (Hl' : last ps (Some []) <> None) by (destruct ps; [discriminate | exact Hl]).
    specialize (IH Hl'). destruct (carry (S d) (combine h c d) ps) eqn:E; [destruct ps as [|[]]; discriminate E | exact IH].
  - destruct ps; [discriminate | exact Hl].
Qed.

Lemma append_new Depth obj : append Depth obj IncrementalMerkleTree_new = Ok {| left := Some obj; right := None; parents := [] |}.
Proof. reflexivity. Qed.

Lemma append_spec Depth t l obj :
  (1 <= Depth)%nat -> Z.of_nat Depth < 2 ^ 64 -> tree_of t l -> (length l < 2 ^ Depth)%nat ->
  exists t', append Depth obj t = Ok t' /\ tree_of t' (l ++ [obj]).
Proof.
  intros Hd Hd64 Ht Hl. unfold append. rewrite (is_complete_spec t l Depth Hd Hd64 Ht).
  destruct (Nat.eqb_spec (length l) (2 ^ Depth)) as [E|_]; [lia|].
  pose proof (tree_of_parents t l Depth Hd Ht ltac:(lia)) as Hp. destruct Ht as [[Hlast Hleft] (a & Ha & ->)].
  unfold leaves. destruct t as [[x|] [y|] ps]; cbn [left right parents option_list app] in *.
  - eexists. split; [reflexivity|]. pose proof (append_loop_carry Depth [] (combine x y 0) ps Hp) as E. cbn [app length Nat.add] in E. rewrite E.
    split; [split; [now apply last_carry | discriminate]|]. exists (a ++ [x; y]). split.
    + apply holds_carry; [assumption | reflexivity|]. reflexivity.
    + reflexivity.
  - eexists. split; [reflexivity|]. split; [split; [assumption | discriminate]|]. exists a. split; [assumption|]. now rewrite <- app_assoc.
  - now destruct (Hleft eq_refl).
  - destruct (Hleft eq_refl) as [_ ->]. eexists. split; [reflexivity|]. split; [split; [assumption | discriminate]|].
    exists a. split; [assumption|]. now rewrite app_nil_r.
Qed.

Lemma append_full Depth t l obj :
  (1 <= Depth)%nat -> Z.of_nat Depth < 2 ^ 64 -> tree_of t l -> length l = (2 ^ Depth)%nat -> append Depth obj t = Throw TreeIsFull.
Proof. intros Hd Hd64 Ht Hl. unfold append. now rewrite (is_complete_spec t l Depth Hd Hd64 Ht), Hl, Nat.eqb_refl. Qed.
End Tree.

(** * Roots *)

Section Roots.
Context (Depth : nat) {hash : HashClass} {E : EmptyRoots Depth}.

(** The heights of the subtrees that are missing on the right of a tree, in the order in
    which [root] asks the filler for them. *)
Fixpoint gaps (d : nat) (ps : list (option Hash)) : list nat :=
  match ps with
  | [] => []
  | Some _ :: ps => gaps (S d) ps
  | None :: ps => d :: gaps (S d) ps
  end.

Definition padded (t : IncrementalMerkleTree) (depth : nat) : list (option Hash) :=
  parents t ++ repeat None (depth - (1 + length (parents t))).

Definition slots (t : IncrementalMerkleTree) (depth : nat) : list nat :=
  (if some (left t) then [] else [0%nat]) ++ (if some (right t) then [] else [0%nat]) ++ gaps 1 (padded t depth).

(** The queue [q] has the nodes of the leaves [m] at the heights [ls]; where it ends, there
    are no more leaves. *)
Fixpoint supply (ls : list nat) (q : list Hash) (m : list Hash) : Prop :=
  match ls, q with
  | [], _ => m = []
  | _ :: _, [] => m = []
  | d :: ls, h :: q => h = node d m /\ supply ls q (skipn (2 ^ d) m)
  end.

Lemma supply_nil ls : supply ls [] [].
Proof. now destruct ls. Qed.

Lemma next_supply d ls q m :
  (d <= Depth)%nat -> supply (d :: ls) q m -> exists q', next d q = Ok (node d m, q') /\ supply ls q' (skipn (2 ^ d) m).
Proof.
  intros Hd Hq. destruct q as [|h q]; cbn [supply] in Hq.
  - subst m. exists []. cbn [next]. rewrite (EmptyRoot_node Depth) by assumption. rewrite skipn_nil. split; [reflexivity | apply supply_nil].
  - destruct Hq as [-> Hq]. exists q. now split.
Qed.

Lemma root_rest_parents n : forall d h q,
  root_rest n d h q = let? (r, _) := root_parents (repeat None n) d h q in Ok r.
Proof.
  induction n as [|n IH]; intros d h q; [reflexivity|]. cbn [root_rest repeat root_parents].
  destruct (next d q) as [[x q']|e]; [apply IH | reflexivity].
Qed.

Lemma root_parents_app ps qs : forall d h q,
  root_parents (ps ++ qs) d h q = let? (h, q) := root_parents ps d h q in root_parents qs (d + length ps) h q.
Proof.
  induction ps as [|[p|] ps IH]; intros d h q; cbn [app root_parents length]; [now rewrite Nat.add_0_r | |].
  - rewrite IH. now rewrite <- plus_n_Sm.
  - destruct (next d q) as [[x q']|e]; cbn [bind]; [|reflexivity]. rewrite IH. now rewrite <- plus_n_Sm.
Qed.

Lemma root_of_padded t depth q :
  root_of t depth q =
  let? (l, q) := given (left t) q in let? (r, q) := given (right t) q in
  let? (h, _) := root_parents (padded t depth) 1 (combine l r 0) q in Ok h.
Proof.
  unfold root_of, padded. destruct (given (left t) q) as [[l q1]|e]; cbn [bind]; [|reflexivity].
  destruct (given (right t) q1) as [[r q2]|e]; cbn [bind]; [|reflexivity]. rewrite root_parents_app.
  destruct (root_parents (parents t) 1 (combine l r 0) q2) as [[h q3]|e]; cbn [bind]; [apply root_rest_parents | reflexivity].
Qed.

(** From the node of height [d] over the leaves [c] up to the top. *)
Lemma climb ps : forall d a c m q,
  (d + length ps <= S Depth)%nat -> holds d ps a -> (length c <= 2 ^ d)%nat -> length c = (2 ^ d)%nat \/ m = [] ->
  supply (gaps d ps) q m -> exists q', root_parents ps d (node d c) q = Ok (node (d + length ps) (a ++ c ++ m), q').
Proof.
  induction ps as [|[h|] ps IH]; intros d a c m q Hd Ha Hc Hm Hq; cbn [holds gaps root_parents length] in *.
  - subst a. exists q. replace m with (@nil Hash) by now destruct q. now rewrite app_nil_r, Nat.add_0_r.
  - destruct Ha as (a1 & b & -> & Hb & -> & Ha1). rewrite node_join by (lia || now left).
    destruct (IH (S d) a1 (b ++ c) m q) as (q' & ->); try assumption; [lia | rewrite length_app, pow2_double; lia | |].
    + destruct Hm as [Hm| ->]; [left; rewrite length_app, pow2_double; lia | now right].
    + exists q'. now rewrite <- plus_n_Sm, <- !app_assoc.
  - destruct (next_supply d _ q m ltac:(lia) Hq) as (q1 & -> & Hq1). cbn [bind].
    rewrite <- (node_firstn d m). rewrite node_join by (assumption || (destruct Hm as [Hm| ->]; [now left | right; apply firstn_nil])).
    destruct (IH (S d) a (c ++ firstn (2 ^ d) m) (skipn (2 ^ d) m) q1) as (q' & ->); try assumption; [lia | | |].
    + rewrite length_app, length_firstn, pow2_double. lia.
    + destruct Hm as [Hm| ->]; [|right; apply skipn_nil]. destruct (Nat.le_gt_cases (2 ^ d) (length m)).
      * left. rewrite length_app, length_firstn, pow2_double. lia.
      * right. apply skipn_all2. lia.
    + exists q'. rewrite <- plus_n_Sm. do 2 f_equal. rewrite <- app_assoc, firstn_skipn. reflexivity.
Qed.

Lemma holds_padded n ps : forall d a, holds d (ps ++ repeat None n) a <-> holds d ps a.
Proof.
  induction ps as [|[h|] ps IH]; intros d a; cbn [app holds]; [|now setoid_rewrite IH | apply IH].
  revert d. induction n as [|n IHn]; intros d; cbn [repeat holds]; [reflexivity | apply IHn].
Qed.

Lemma length_padded t depth : (length (parents t) < depth)%nat -> length (padded t depth) = (depth - 1)%nat.
Proof. intros H. unfold padded. rewrite length_app, repeat_length. lia. Qed.

(** [root] is the node of the leaves of the tree and of those that the filler stands for. *)
Lemma root_of_spec t l depth q m :
  (1 <= depth <= Depth)%nat -> (length (parents t) < depth)%nat -> tree_of t l -> supply (slots t depth) q m ->
  root_of t depth q = Ok (node depth (l ++ m)).
Proof.
  intros Hd Hp Ht Hq. rewrite root_of_padded. pose proof (length_padded t depth Hp) as Hlen.
  destruct Ht as [[_ Hleft] (a & Ha & ->)].
  assert (Hpa : holds 1 (padded t depth) a) by now apply holds_padded.
  assert (Hup : forall c m q, (length c <= 2)%nat -> length c = 2%nat \/ m = [] -> supply (gaps 1 (padded t depth)) q m ->
    (let? (h, _) := root_parents (padded t depth) 1 (node 1 c) q in Ok h) = Ok (node depth (a ++ c ++ m))).
  { intros c m0 q0 Hc Hm Hq0. destruct (climb (padded t depth) 1 a c m0 q0 ltac:(lia) Hpa Hc Hm Hq0) as (q' & ->). cbn [bind].
    rewrite Hlen. now replace (1 + (depth - 1))%nat with depth by lia. }
  unfold slots, leaves in *. rewrite <- app_assoc. destruct (left t) as [x|].
  - destruct (right t) as [y|]; cbn [some option_list app given bind] in *.
    + apply (Hup [x; y]); [cbn; lia | now left | assumption].
    + destruct (next_supply 0 _ q m ltac:(lia) Hq) as (q1 & -> & Hq1). cbn [bind].
      replace (combine x (node 0 m) 0) with (node 1 (x :: firstn 1 m)) by (now destruct m).
      rewrite (Hup (x :: firstn 1 m) (skipn 1 m) q1); [now rewrite <- app_comm_cons, firstn_skipn | destruct m; cbn; lia | | exact Hq1].
      destruct m; [now right | now left].
  - destruct (Hleft eq_refl) as [Hr Hps]. rewrite Hr in Hq |- *. cbn [some option_list app given bind] in *.
    destruct (next_supply 0 _ q m ltac:(lia) Hq) as (q1 & -> & Hq1). cbn [bind].
    destruct (next_supply 0 _ q1 _ ltac:(lia) Hq1) as (q2 & -> & Hq2). cbn [bind].
    replace (combine (node 0 m) (node 0 (skipn (2 ^ 0) m)) 0) with (node 1 (firstn 2 m)) by (now destruct m as [|? [|]]).
    rewrite (Hup (firstn 2 m) (skipn 2 m) q2); [now rewrite firstn_skipn | rewrite length_firstn; lia | |].
    + destruct m as [|? [|]]; [now right | now right | now left].
    + rewrite skipn_skipn in Hq2. exact Hq2.
Qed.

Lemma root_spec t l : (1 <= Depth)%nat -> tree_of t l -> (length l <= 2 ^ Depth)%nat -> root Depth t = Ok (node Depth l).
Proof.
  intros Hd Ht Hl. unfold root. rewrite (root_of_spec t l Depth [] []), app_nil_r; [reflexivity | lia | | assumption | apply supply_nil].
  now apply (tree_of_parents t l).
Qed.

(** * Paths *)

(** The root from a leaf and its path. *)
Fixpoint hash_up (d : nat) (h : Hash) (index : list bool) (path : list Hash) : Hash :=
  match index, path with
  | true :: index, p :: path => hash_up (S d) (combine p h d) index path
  | false :: index, p :: path => hash_up (S d) (combine h p d) index path
  | _, _ => h
  end.

Lemma hash_up_app i1 : forall d h p1 i2 p2,
  length i1 = length p1 -> hash_up d h (i1 ++ i2) (p1 ++ p2) = hash_up (d + length i1) (hash_up d h i1 p1) i2 p2.
Proof.
  induction i1 as [|[] i1 IH]; intros d h [|p p1] i2 p2 H; try discriminate H; cbn [app hash_up length]; rewrite ?Nat.add_0_r;
    [reflexivity | |]; injection H as H; rewrite IH by assumption; now rewrite <- plus_n_Sm.
Qed.

(** The number of the bits, from the lowest one. *)
Fixpoint bits_value (index : list bool) : Z :=
  match index with
  | [] => 0
  | b :: index => Z.b2z b + 2 * bits_value index
  end.

Lemma path_rest_parents n : forall d q,
  path_rest n d q = let? r := path_parents (repeat None n) d q in let '(index, path, _) := r in Ok (index, path).
Proof.
  induction n as [|n IH]; intros d q; [reflexivity|]. cbn [path_rest repeat path_parents].
  destruct (next d q) as [[x q']|e]; cbn [bind]; [|reflexivity]. rewrite IH.
  now destruct (path_parents (repeat None n) (S d) q') as [[[i p] q'']|e].
Qed.

Lemma path_parents_app ps qs : forall d q,
  path_parents (ps ++ qs) d q =
  let? r := path_parents ps d q in let '(i1, p1, q) := r in
  let? r := path_parents qs (d + length ps) q in let '(i2, p2, q) := r in Ok (i1 ++ i2, p1 ++ p2, q).
Proof.
  induction ps as [|[p|] ps IH]; intros d q; cbn [app path_parents length].
  - rewrite Nat.add_0_r. cbn [bind app]. now destruct (path_parents qs d q) as [[[i x] q']|e].
  - rewrite IH, <- plus_n_Sm. cbn [Nat.add]. destruct (path_parents ps (S d) q) as [[[i x] q']|e]; cbn [bind]; [|reflexivity].
    now destruct (path_parents qs _ q') as [[[i2 x2] q2]|e].
  - destruct (next d q) as [[y q1]|e]; cbn [bind]; [|reflexivity]. rewrite IH, <- plus_n_Sm. cbn [Nat.add].
    destruct (path_parents ps (S d) q1) as [[[i x] q']|e]; cbn [bind]; [|reflexivity].
    now destruct (path_parents qs _ q') as [[[i2 x2] q2]|e].
Qed.

(** A path of the parents: hashing along it is what [root] does. *)
Lemma path_parents_root ps : forall d q h r q',
  root_parents ps d h q = Ok (r, q') ->
  exists path, path_parents ps d q = Ok (map some ps, path, q') /\ length path = length ps /\ hash_up d h (map some ps) path = r.
Proof.
  induction ps as [|[p|] ps IH]; intros d q h r q' H; cbn [root_parents path_parents map some] in *.
  - injection H as -> ->. now exists [].
  - destruct (IH _ _ _ _ _ H) as (path & -> & Hl & Hh). exists (p :: path). cbn [bind length hash_up]. now rewrite Hl.
  - destruct (next d q) as [[x q1]|e]; cbn [bind] in *; [|discriminate].
    destruct (IH _ _ _ _ _ H) as (path & -> & Hl & Hh). exists (x :: path). cbn [bind length hash_up]. now rewrite Hl.
Qed.

Lemma bits_value_weight ps : forall d, (2 ^ Z.of_nat d * bits_value (map some ps) = Z.of_nat (weight d ps)).
Proof.
  induction ps as [|[h|] ps IH]; intros d; cbn [map some bits_value weight Z.b2z]; [lia | |]; specialize (IH (S d));
    rewrite Nat2Z.inj_succ, Z.pow_succ_r in IH by lia; rewrite ?Nat2Z.inj_add, ?Nat2Z.inj_pow; lia.
Qed.

(** [path] gives the neighbours of the last leaf on its way to the root, with its position. *)
Lemma path_up_spec t l q m h :
  (1 <= Depth)%nat -> (length (parents t) < Depth)%nat -> tree_of t l -> supply (slots t Depth) q m -> last_leaf t = Ok h ->
  exists index path, path_up Depth t q = Ok (index, path) /\ length index = Depth /\ length path = Depth /\
    hash_up 0 h index path = node Depth (l ++ m) /\ bits_value index = Z.of_nat (length l) - 1.
Proof.
  intros Hd Hp Ht Hq Hh. pose proof (root_of_spec t l Depth q m ltac:(lia) Hp Ht Hq) as Hroot. rewrite root_of_padded in Hroot.
  pose proof (tree_of_length t l Ht) as Hlen. pose proof (length_leaves t) as Hlv. pose proof (length_padded t Depth Hp) as Hpl.
  assert (Hw : weight 1 (padded t Depth) = weight 1 (parents t)).
  { unfold padded. rewrite weight_app. set (n := (Depth - _)%nat). clearbody n. revert n. generalize (1 + length (parents t))%nat. 
    intros k n. revert k. induction n as [|n IHn]; intros k; cbn [repeat weight]; [lia | apply IHn]. }
  pose proof (bits_value_weight (padded t Depth) 1) as Hbits. rewrite Hw in Hbits. change (2 ^ Z.of_nat 1) with 2 in Hbits.
  assert (Hup : forall i0 p0 q0 h0,
    (let? (h, _) := root_parents (padded t Depth) 1 h0 q0 in Ok h) = Ok (node Depth (l ++ m)) -> hash_up 0 h [i0] [p0] = h0 ->
    Z.b2z i0 = Z.of_nat (length (leaves t)) - 1 ->
    exists index path,
     (let? r := path_parents (parents t) 1 q0 in let '(index1, path1, filler) := r in
      let? (index2, path2) := path_rest (Depth - (1 + length (parents t))) (1 + length (parents t)) filler in
      Ok (i0 :: index1 ++ index2, p0 :: path1 ++ path2)) = Ok (index, path) /\ length index = Depth /\ length path = Depth /\
     hash_up 0 h index path = node Depth (l ++ m) /\ bits_value index = Z.of_nat (length l) - 1).
  { intros i0 p0 q0 h0 H0 H1 H2. destruct (root_parents (padded t Depth) 1 h0 q0) as [[r q']|e] eqn:Er; cbn [bind] in H0; [|discriminate].
    injection H0 as ->. destruct (path_parents_root _ _ _ _ _ _ Er) as (path & Epath & Hpath & Hhash).
    exists (i0 :: map some (padded t Depth)), (p0 :: path). split; [|split; [cbn; rewrite length_map; lia | split; [cbn; lia | split]]].
    - unfold padded in Epath at 1. rewrite path_parents_app in Epath.
      destruct (path_parents (parents t) 1 q0) as [[[i1 p1] q1]|e]; cbn [bind] in *; [|discriminate]. rewrite path_rest_parents.
      destruct (path_parents (repeat None _) _ q1) as [[[i2 p2] q2]|e]; cbn [bind] in *; [|discriminate]. injection Epath as E1 <- _. now rewrite E1.
    - change (hash_up 0 h ([i0] ++ map some (padded t Depth)) ([p0] ++ path) = node Depth (l ++ m)). rewrite hash_up_app by reflexivity.
      rewrite H1. exact Hhash.
    - cbn [bits_value]. lia. }
  unfold path_up. unfold last_leaf in Hh. destruct (left t) as [x|] eqn:El.
  - destruct (right t) as [y|] eqn:Er; cbn [given bind some Nat.b2n] in *; injection Hh as <-.
    + apply (Hup true x q (combine x y 0) Hroot eq_refl). cbn. lia.
    + destruct (next 0 q) as [[z q1]|e]; cbn [bind] in *; [|discriminate].
      apply (Hup false z q1 (combine x z 0) Hroot eq_refl). cbn. lia.
  - destruct Ht as [[_ Hleft] _]. destruct (Hleft El) as [Hr _]. rewrite Hr in Hh. discriminate.
Qed.
End Roots.

(** * Witnesses *)

Section Full.
Context {hash : HashClass}.

(** The queue [q] has the nodes of [m], which are full subtrees of the heights [ls]. *)
Fixpoint full (ls : list nat) (q : list Hash) (m : list Hash) {struct q} : Prop :=
  match q, ls with
  | [], _ => m = []
  | h :: q, d :: ls => exists b m', m = b ++ m' /\ length b = (2 ^ d)%nat /\ h = node d b /\ full ls q m'
  | _ :: _, [] => False
  end.

Lemma full_length q : forall ls m, full ls q m -> (length q <= length ls)%nat.
Proof.
  induction q as [|h q IH]; intros [|d ls] m; cbn [full length]; try lia; try easy.
  intros (b & m' & _ & _ & _ & H). apply IH in H. lia.
Qed.

Lemma full_snoc q : forall ls m d b,
  full ls q m -> nth_error ls (length q) = Some d -> length b = (2 ^ d)%nat -> full ls (q ++ [node d b]) (m ++ b).
Proof.
  induction q as [|h q IH]; intros [|d0 ls] m d b; cbn [full length app nth_error]; try easy.
  - intros -> [= ->] Hb. exists b, []. rewrite app_nil_r. cbn [app]. repeat split; assumption || reflexivity.
  - intros (b0 & m' & -> & Hb0 & -> & H) Hd Hb. exists b0, (m' ++ b). rewrite app_assoc. split; [reflexivity|]. split; [assumption|].
    split; [reflexivity|]. now apply IH.
Qed.

Lemma full_supply q : forall ls m, full ls q m -> supply ls q m.
Proof.
  induction q as [|h q IH]; intros [|d ls] m; cbn [full supply]; try easy. intros (b & m' & -> & Hb & -> & H).
  rewrite <- (node_firstn d (b ++ m')), firstn_app, skipn_app, Hb, Nat.sub_diag, firstn_all2, skipn_all2, app_nil_r by lia.
  split; [reflexivity|]. now apply IH.
Qed.

Lemma full_supply_snoc q : forall ls m d c,
  full ls q m -> nth_error ls (length q) = Some d -> (length c <= 2 ^ d)%nat -> supply ls (q ++ [node d c]) (m ++ c).
Proof.
  induction q as [|h q IH]; intros [|d0 ls] m d c; cbn [full length app nth_error supply]; try easy.
  - intros -> [= ->] Hc. cbn [app]. split; [reflexivity|]. rewrite skipn_all2 by lia. destruct ls; reflexivity.
  - intros (b0 & m' & -> & Hb0 & -> & H) Hd Hc.
    rewrite <- (node_firstn d0 ((b0 ++ m') ++ c)), <- app_assoc, firstn_app, skipn_app, Hb0, Nat.sub_diag, firstn_all2, skipn_all2, app_nil_r by lia.
    split; [reflexivity|]. now apply (IH ls m' d c).
Qed.

(** The leaves under the slots fill the tree. *)
Definition room (ls : list nat) : nat := list_sum (map (fun d => 2 ^ d)%nat ls).

Lemma room_app a b : room (a ++ b) = (room a + room b)%nat.
Proof. unfold room. now rewrite map_app, list_sum_app. Qed.

Lemma room_cons d ls : room (d :: ls) = (2 ^ d + room ls)%nat.
Proof. reflexivity. Qed.

Lemma room_gaps ps : forall d, (weight d ps + room (gaps d ps) + 2 ^ d = 2 ^ (d + length ps))%nat.
Proof.
  induction ps as [|[h|] ps IH]; intros d; cbn [weight gaps length]; [change (room []) with 0%nat; rewrite !Nat.add_0_r; lia | |];
    specialize (IH (S d)); rewrite pow2_double in IH; replace (d + S (length ps))%nat with (S d + length ps)%nat by lia; rewrite ?room_cons; lia.
Qed.

Lemma weight_padded t depth : weight 1 (padded t depth) = weight 1 (parents t).
Proof.
  unfold padded. rewrite weight_app. set (n := (depth - _)%nat). clearbody n. generalize (1 + length (parents t))%nat. 
  induction n as [|n IHn]; intros k; cbn [repeat weight]; [lia | apply IHn].
Qed.

Lemma room_slots t l depth :
  (1 <= depth)%nat -> (length (parents t) < depth)%nat -> tree_of t l -> (length l + room (slots t depth) = 2 ^ depth)%nat.
Proof.
  intros Hd Hp Ht. pose proof (tree_of_length t l Ht) as Hl. pose proof (length_leaves t) as Hlv. pose proof Ht as [[_ Hleft] _].
  pose proof (room_gaps (padded t depth) 1) as H. rewrite weight_padded, length_padded in H by assumption.
  replace (1 + (depth - 1))%nat with depth in H by lia. rewrite Nat.pow_1_r in H. unfold slots. destruct (left t) as [x|].
  - destruct (right t); cbn [some app Nat.b2n] in *; rewrite ?room_cons; cbn [Nat.pow]; lia.
  - destruct (Hleft eq_refl) as [Hr _]. rewrite Hr in *. cbn [some app Nat.b2n] in *. rewrite !room_cons. cbn [Nat.pow]. lia.
Qed.

Lemma full_room q : forall ls m, full ls q m -> length m = room (firstn (length q) ls).
Proof.
  induction q as [|h q IH]; intros [|d ls] m; cbn [full length firstn]; try (now intros ->); [easy|].
  intros (b & m' & -> & Hb & _ & H). now rewrite length_app, Hb, (IH _ _ H).
Qed.

Lemma room_skip ls k d : nth_error ls k = Some d -> (room (firstn k ls) + 2 ^ d <= room ls)%nat.
Proof.
  intros H. apply nth_error_split in H as (a & b & -> & <-). rewrite firstn_app, Nat.sub_diag, firstn_all2, app_nil_r, room_app by lia.
  rewrite room_cons. lia.
Qed.

End Full.

Section Witness.
Context (Depth : nat) {hash : HashClass} {E : EmptyRoots Depth}.
Context (Hdepth : (1 <= Depth)%nat) (Hsmall : Z.of_nat Depth < 2 ^ 64).

(** ** The next slot *)

Lemma next_parent_gaps n ps : forall skip d,
  next_parent skip d ps =
  if (skip <? length (gaps d (ps ++ repeat None n)))%nat then nth skip (gaps d (ps ++ repeat None n)) 0%nat
  else (d + length ps + n + (skip - length (gaps d (ps ++ repeat None n))))%nat.
Proof.
  induction ps as [|[h|] ps IH]; intros skip d; cbn [next_parent app gaps length].
  - assert (G : forall k d, gaps d (repeat None k) = seq d k) by (induction k as [|k IHk]; intros d0; cbn; [reflexivity | now rewrite IHk]).
    rewrite G, length_seq. destruct (Nat.ltb_spec skip n); [now rewrite seq_nth | lia].
  - rewrite IH. destruct (_ <? _)%nat; lia.
  - destruct skip as [|skip]; [reflexivity|]. rewrite IH. cbn [nth]. change (S skip <? S ?x)%nat with (skip <? x)%nat.
    destruct (_ <? _)%nat; lia.
Qed.

Lemma next_depth_slots t skip :
  (left t = None -> right t = None) -> (length (parents t) < Depth)%nat ->
  match nth_error (slots t Depth) skip with
  | Some d => next_depth t skip = d /\ (d < Depth)%nat
  | None => (Depth <= next_depth t skip)%nat
  end.
Proof.
  intros Hleft Hp. pose proof (fun skip => next_parent_gaps (Depth - (1 + length (parents t))) (parents t) skip 1) as G. fold (padded t Depth) in G.
  assert (Hgap : forall skip, match nth_error (gaps 1 (padded t Depth)) skip with
    | Some d => next_parent skip 1 (parents t) = d /\ (d < Depth)%nat
    | None => (Depth <= next_parent skip 1 (parents t))%nat end).
  { intros k. rewrite G. destruct (nth_error (gaps 1 (padded t Depth)) k) as [d|] eqn:En.
    - pose proof (nth_error_Some (gaps 1 (padded t Depth)) k) as Hk. rewrite En in Hk.
      destruct (Nat.ltb_spec k (length (gaps 1 (padded t Depth)))) as [_|Hk']; [|destruct Hk as [Hk _]; specialize (Hk ltac:(discriminate)); lia].
      split; [now apply nth_error_nth|]. pose proof (length_padded t Depth Hp) as Hlen. apply nth_error_In in En. clear -En Hlen Hdepth.
      assert (B : forall ps d0 d, In d (gaps d0 ps) -> (d < d0 + length ps)%nat).
      { induction ps as [|[h|] ps IH]; intros d0 d'; cbn [gaps length In]; [easy | |].
        - intros H. apply IH in H. lia.
        - intros [->|H]; [lia|]. apply IH in H. lia. }
      apply B in En. lia.
    - apply nth_error_None in En. destruct (Nat.ltb_spec k (length (gaps 1 (padded t Depth)))); lia. }
  unfold slots, next_depth. destruct (left t) as [x|].
  - destruct (right t) as [y|]; [apply Hgap|]. destruct skip as [|skip]; cbn [some app nth_error]; [split; [reflexivity | lia] | apply Hgap].
  - rewrite (Hleft eq_refl). destruct skip as [|[|skip]]; cbn [some app nth_error]; [split; [reflexivity | lia].. | apply Hgap].
Qed.

(** ** The invariant *)

(** [w] is a witness for the tree of the leaves [l], after the leaves [m] were appended. *)
Definition follows (w : IncrementalWitness) (l m : list Hash) : Prop :=
  tree_of (tree w) l /\ (length (parents (tree w)) < Depth)%nat /\
  exists m1 m2, m = m1 ++ m2 /\ full (slots (tree w) Depth) (filled w) m1 /\
  match cursor w with
  | None => m2 = []
  | Some c => nth_error (slots (tree w) Depth) (length (filled w)) = Some (cursor_depth w) /\ (1 <= cursor_depth w < Depth)%nat /\
      tree_of c m2 /\ (0 < length m2 < 2 ^ cursor_depth w)%nat
  end.

Lemma follows_witness t l : tree_of t l -> (length l <= 2 ^ Depth)%nat -> follows (witness t) l [].
Proof. intros Ht Hl. split; [assumption|]. split; [now apply (tree_of_parents t l)|]. now exists [], []. Qed.

Lemma partial_path_spec w l m :
  follows w l m -> exists q, partial_path w = Ok q /\ supply (slots (tree w) Depth) q m.
Proof.
  intros (Ht & Hp & m1 & m2 & -> & Hf & Hc). unfold partial_path. destruct (cursor w) as [c|].
  - destruct Hc as (Hn & Hd & Htc & Hl). exists (filled w ++ [node (cursor_depth w) m2]).
    rewrite (root_of_spec Depth c m2 (cursor_depth w) [] []), app_nil_r; [| lia | apply (tree_of_parents c m2); (assumption || lia) | assumption | apply supply_nil].
    split; [reflexivity|]. now apply full_supply_snoc; [| |lia].
  - subst m2. rewrite app_nil_r. exists (filled w). split; [reflexivity | now apply full_supply].
Qed.

Lemma witness_root_spec w l m : follows w l m -> witness_root Depth w = Ok (node Depth (l ++ m)).
Proof.
  intros Hw. destruct (partial_path_spec w l m Hw) as (q & E1 & Hq). unfold witness_root. rewrite E1. cbn [bind]. destruct Hw as (Ht & Hp & _).
  apply (root_of_spec Depth (tree w) l Depth q m); assumption || lia.
Qed.

Lemma follows_length w l m : follows w l m -> (length (l ++ m) <= 2 ^ Depth)%nat.
Proof.
  intros (Ht & Hp & m1 & m2 & -> & Hf & Hc). rewrite !length_app. rewrite <- (room_slots _ l Depth Hdepth Hp Ht), (full_room _ _ _ Hf).
  destruct (cursor w) as [c|].
  - destruct Hc as (Hn & _ & _ & Hl). pose proof (room_skip _ _ _ Hn). lia.
  - subst m2. rewrite <- (firstn_skipn (length (filled w)) (slots (tree w) Depth)) at 2. rewrite room_app. cbn. lia.
Qed.

Lemma witness_append_spec w l m obj :
  follows w l m -> (length (l ++ m) < 2 ^ Depth)%nat -> exists w', witness_append Depth obj w = Ok w' /\ follows w' l (m ++ [obj]).
Proof.
  intros (Ht & Hp & m1 & m2 & -> & Hf & Hc) Hlen. unfold witness_append. destruct (cursor w) as [c|].
  - destruct Hc as (Hn & Hd & Htc & Hl). pose proof (Nat.pow_le_mono_r 2 (cursor_depth w) Depth ltac:(lia) ltac:(lia)).
    destruct (append_spec Depth c m2 obj Hdepth Hsmall Htc ltac:(lia)) as (c' & -> & Htc'). cbn [bind].
    assert (Hl' : length (m2 ++ [obj]) = S (length m2)) by (rewrite length_app; cbn; lia).
    rewrite (is_complete_spec c' (m2 ++ [obj])), Hl' by (lia || assumption).
    destruct (Nat.eqb_spec (S (length m2)) (2 ^ cursor_depth w)) as [Efull|Efull].
    + rewrite (root_of_spec Depth c' (m2 ++ [obj]) (cursor_depth w) [] []), app_nil_r;
        [| lia | apply (tree_of_parents c' (m2 ++ [obj])); (assumption || lia) | assumption | apply supply_nil].
      cbn [bind]. eexists. split; [reflexivity|]. split; [assumption|]. split; [assumption|]. exists (m1 ++ m2 ++ [obj]), []. cbn [tree filled cursor].
      rewrite app_nil_r, app_assoc. split; [reflexivity|]. split; [|reflexivity]. rewrite <- app_assoc. apply full_snoc; (assumption || lia).
    + eexists. split; [reflexivity|]. split; [assumption|]. split; [assumption|]. exists m1, (m2 ++ [obj]). cbn [tree filled cursor cursor_depth].
      rewrite app_assoc. split; [reflexivity|]. split; [assumption|]. split; [assumption|]. split; [lia|]. split; [assumption|]. lia.
  - subst m2. pose proof Ht as [[_ Hleft] _]. pose proof (next_depth_slots (tree w) (length (filled w)) (fun H => proj1 (Hleft H)) Hp) as Hnext.
    destruct (nth_error (slots (tree w) Depth) (length (filled w))) as [d|] eqn:En.
    + destruct Hnext as [-> Hd]. destruct (Nat.leb_spec Depth d); [lia|]. destruct (Nat.eqb_spec d 0) as [->|Hd0].
      * eexists. split; [reflexivity|]. split; [assumption|]. split; [assumption|]. exists (m1 ++ [obj]), []. cbn [tree filled cursor].
        rewrite !app_nil_r. split; [reflexivity|]. split; [|reflexivity]. now apply (full_snoc (filled w) _ _ 0 [obj]).
      * rewrite append_new. eexists. split; [reflexivity|]. split; [assumption|]. split; [assumption|]. exists m1, [obj]. cbn [tree filled cursor cursor_depth].
        rewrite app_nil_r. split; [reflexivity|]. split; [assumption|]. split; [assumption|]. split; [lia|].
        split; [split; [split; [discriminate|discriminate]|]; now exists []|]. pose proof (Nat.pow_gt_1 2 d ltac:(lia) Hd0). cbn. lia.
    + apply nth_error_None in En. rewrite !length_app, (full_room _ _ _ Hf), firstn_all2 in Hlen by assumption.
      pose proof (room_slots _ l Depth Hdepth Hp Ht). cbn in Hlen. lia.
Qed.

Lemma witness_append_full w l m obj :
  follows w l m -> length (l ++ m) = (2 ^ Depth)%nat -> witness_append Depth obj w = Throw TreeIsFull.
Proof.
  intros (Ht & Hp & m1 & m2 & -> & Hf & Hc) Hlen. pose proof (room_slots _ l Depth Hdepth Hp Ht) as Hroom. pose proof (full_room _ _ _ Hf) as Hm1.
  rewrite !length_app in Hlen. unfold witness_append. destruct (cursor w) as [c|].
  - destruct Hc as (Hn & _ & _ & Hl). pose proof (room_skip _ _ _ Hn). lia.
  - subst m2. pose proof Ht as [[_ Hleft] _]. pose proof (next_depth_slots (tree w) (length (filled w)) (fun H => proj1 (Hleft H)) Hp) as Hnext.
    destruct (nth_error (slots (tree w) Depth) (length (filled w))) as [d|] eqn:En.
    + pose proof (room_skip _ _ _ En). pose proof (pow2_ge1 d). cbn in Hlen. lia.
    + now destruct (Nat.leb_spec Depth (next_depth (tree w) (length (filled w)))); [|lia].
Qed.
End Witness.

(** * The number of leaves *)

Section Size.
Context {hash : HashClass}.

Fixpoint shift_sum (i : nat) (ps : list (option Hash)) : Z :=
  match ps with
  | [] => 0
  | Some _ :: ps => shifted i + shift_sum (S i) ps
  | None :: ps => shift_sum (S i) ps
  end.

Lemma size_loop ps : forall pre ret, word 64 ret ->
  fold_left (fun ret i => match nth i (pre ++ ps) None with Some _ => w64 (ret + shifted i) | None => ret end)
    (seq (length pre) (length ps)) ret = w64 (ret + shift_sum (length pre) ps).
Proof.
  induction ps as [|p ps IH]; intros pre ret Hr; cbn [length seq fold_left shift_sum].
  - unfold w64. now rewrite Z.add_0_r, Z.mod_small.
  - rewrite nth_middle. specialize (IH (pre ++ [p])). rewrite length_app, <- app_assoc in IH. cbn [app length] in IH. rewrite Nat.add_1_r in IH.
    destruct p as [h|]; [|now apply IH]. rewrite IH by (apply Z.mod_pos_bound; lia). unfold w64. rewrite Z.add_mod_idemp_l by lia. f_equal. lia.
Qed.

Lemma shifted_small i : (i < 30)%nat -> shifted i = Z.of_nat (2 ^ S i).
Proof.
  intros H. pose proof (Z.pow_lt_mono_r 2 (Z.of_nat i + 1) 31 ltac:(lia) ltac:(lia) ltac:(lia)). pose proof (Z.pow_pos_nonneg 2 (Z.of_nat i + 1) ltac:(lia) ltac:(lia)).
  rewrite Nat2Z.inj_pow. change (Z.of_nat 2) with 2. rewrite Nat2Z.inj_succ, <- Z.add_1_r. unfold shifted. rewrite Z.shiftl_1_l.
  unfold w32, w64, signed. rewrite (Z.mod_small _ (2 ^ 32)) by lia. change (2 ^ (32 - 1)) with (2 ^ 31).
  destruct (Z.ltb_spec (2 ^ (Z.of_nat i + 1)) (2 ^ 31)); [|lia]. apply Z.mod_small. lia.
Qed.

Lemma shift_sum_small ps : forall i, (i + length ps <= 30)%nat -> shift_sum i ps = Z.of_nat (weight (S i) ps).
Proof.
  induction ps as [|[h|] ps IH]; intros i Hi; cbn [shift_sum weight length] in *; [reflexivity | |]; rewrite IH by lia; [|reflexivity].
  rewrite shifted_small by lia. now rewrite Nat2Z.inj_add.
Qed.

Lemma shift_sum_app ps qs : forall i, shift_sum i (ps ++ qs) = shift_sum i ps + shift_sum (i + length ps) qs.
Proof.
  induction ps as [|[h|] ps IH]; intros i; cbn [app shift_sum length]; rewrite ?Nat.add_0_r, ?IH, <- ?plus_n_Sm; cbn [Nat.add]; lia.
Qed.

(** [size] is the number of leaves, up to 2^31 of them. *)
Lemma size_spec t l :
  (length (parents t) < 32)%nat -> tree_of t l ->
  size t = w64 (Z.of_nat (length l) - (if 2 ^ 31 <? Z.of_nat (length l) then 2 ^ 32 else 0)).
Proof.
  intros Hp Ht. rewrite (tree_of_length t l Ht), length_leaves. destruct Ht as [[Hlast Hleft] _].
  assert (Hs : size t = w64 (Z.of_nat (Nat.b2n (some (left t)) + Nat.b2n (some (right t))) + shift_sum 0 (parents t))).
  { unfold size. pose proof (size_loop (parents t) []) as G. cbn [app length] in G. 
    destruct (left t), (right t); (rewrite G by (split; [lia | reflexivity])); f_equal; cbn; lia. }
  rewrite Hs. clear Hs. destruct (Nat.eq_dec (length (parents t)) 31) as [E31|E31].
  - assert (Hne : parents t <> []) by (intros E; now rewrite E in E31). destruct (exists_last Hne) as (ps & p & Ep). rewrite Ep in *.
    rewrite last_last in Hlast. rewrite length_app in E31. cbn [length] in E31. destruct p as [h|]; [|congruence].
    assert (Hl : some (left t) = true) by (destruct (left t); [reflexivity | destruct (Hleft eq_refl) as [_ E]; now destruct ps]).
    rewrite shift_sum_app, weight_app, shift_sum_small, Hl by lia. cbn [weight shift_sum Nat.add]. replace (length ps) with 30%nat by lia.
    change (shifted 30) with (2 ^ 64 - 2 ^ 31). rewrite !Nat2Z.inj_add, (Nat2Z.inj_pow 2 31). change (Z.of_nat 2 ^ Z.of_nat 31) with (2 ^ 31). cbn [Nat.b2n].
    destruct (Z.ltb_spec (2 ^ 31) (Z.of_nat (weight 1 ps) + (2 ^ 31 + Z.of_nat 0) + (Z.of_nat 1 + Z.of_nat (Nat.b2n (some (right t)))))); [|lia].
    unfold w64. rewrite <- (Z.mod_add _ (-1)) by lia. f_equal. lia.
  - rewrite shift_sum_small by lia. pose proof (weight_bound (parents t) 1) as Hb.
    pose proof (Nat.pow_le_mono_r 2 (1 + length (parents t)) 31 ltac:(lia) ltac:(lia)) as H31. apply Nat2Z.inj_le in H31. rewrite (Nat2Z.inj_pow 2 31) in H31.
    change (Z.of_nat 2 ^ Z.of_nat 31) with (2 ^ 31) in H31. set (top := (2 ^ (1 + length (parents t)))%nat) in *. clearbody top. rewrite Nat.pow_1_r in Hb.
    destruct (Z.ltb_spec (2 ^ 31) (Z.of_nat (weight 1 (parents t) + (Nat.b2n (some (left t)) + Nat.b2n (some (right t)))))) as [Hlt|Hge].
    + exfalso. destruct (some (left t)), (some (right t)); cbn [Nat.b2n] in Hlt; lia.
    + f_equal. lia.
Qed.
End Size.

(** * The bits of a path *)

Lemma testbit_bits_value l : forall j, Z.testbit (bits_value l) (Z.of_nat j) = nth j l false.
Proof.
  induction l as [|b l IH]; intros j; cbn [bits_value]; [rewrite Z.bits_0; now destruct j|]. rewrite Z.add_comm. destruct j as [|j].
  - apply Z.testbit_0_r.
  - rewrite Nat2Z.inj_succ, Z.testbit_succ_r by lia. apply IH.
Qed.

Lemma bits_value_app a b : bits_value (a ++ b) = bits_value a + 2 ^ Z.of_nat (length a) * bits_value b.
Proof.
  induction a as [|x a IH]; cbn [app bits_value length]; [change (2 ^ Z.of_nat 0) with 1; lia|]. rewrite IH, Nat2Z.inj_succ, Z.pow_succ_r by lia. lia.
Qed.

Lemma bits_value_range l : 0 <= bits_value l < 2 ^ Z.of_nat (length l).
Proof.
  induction l as [|[] l IH]; cbn [bits_value length Z.b2z]; [cbn; lia | |]; rewrite Nat2Z.inj_succ, Z.pow_succ_r by lia; lia.
Qed.

Lemma set_bits_loop v : (length v <= 64)%nat -> forall n k acc, (k + n = length v)%nat -> 0 <= acc ->
  fold_left (fun result i => if nth i v false then result |: w64 (Z.shiftl 1 (Z.of_nat (length v - 1 - i))) else result)
    (seq k n) (acc * 2 ^ Z.of_nat n) = acc * 2 ^ Z.of_nat n + bits_value (rev (skipn k v)).
Proof.
  intros Hv. induction n as [|n IH]; intros k acc Hk Hacc; cbn [seq fold_left].
  - rewrite skipn_all2 by lia. cbn [rev bits_value]. lia.
  - assert (Hs : skipn k v = nth k v false :: skipn (S k) v).
    { clear -Hk. assert (Hlt : (k < length v)%nat) by lia. clear Hk. revert k Hlt. induction v as [|b v IHv]; intros [|k] H; cbn in *; try lia; [reflexivity|]. apply IHv. lia. }
    rewrite Hs. cbn [rev]. rewrite bits_value_app, length_rev, length_skipn. replace (length v - S k)%nat with n by lia.
    replace (length v - 1 - k)%nat with n by lia.
    assert (Hp : acc * 2 ^ Z.of_nat (S n) = (2 * acc) * 2 ^ Z.of_nat n) by (rewrite Nat2Z.inj_succ, Z.pow_succ_r by lia; lia).
    rewrite Hp. destruct (nth k v false).
    + replace (2 * acc * 2 ^ Z.of_nat n |: w64 (Z.shiftl 1 (Z.of_nat n))) with ((2 * acc + 1) * 2 ^ Z.of_nat n).
      * rewrite IH by lia. cbn [bits_value Z.b2z]. lia.
      * rewrite Z.shiftl_1_l. unfold w64. rewrite Z.mod_small by (split; [lia | apply Z.pow_lt_mono_r; lia]).
        replace (2 * acc * 2 ^ Z.of_nat n) with (Z.shiftl acc (Z.of_nat (S n))) by (rewrite Z.shiftl_mul_pow2 by lia; lia).
        rewrite Z.lor_comm, <- add_shiftl_lor; [lia | lia | split; [lia | apply Z.pow_lt_mono_r; lia]].
    + rewrite IH by lia. cbn [bits_value Z.b2z]. lia.
Qed.

Lemma set_bits_spec v : (length v <= 64)%nat -> set_bits v = bits_value (rev v).
Proof. intros Hv. apply (set_bits_loop v Hv (length v) 0 0); lia. Qed.

Lemma length_bits_of_byte c : length (bits_of_byte c) = 8%nat.
Proof. reflexivity. Qed.

Lemma length_convert bs : length (convertBytesVectorToVector bs) = (8 * length bs)%nat.
Proof. unfold convertBytesVectorToVector. apply length_flat_map_const. intros. apply length_bits_of_byte. Qed.

(** One byte of [pack]. *)
Definition pack_step (bits : list bool) (pathBytes : list Z) (p : nat) : list Z :=
  pathBytes.[p / 8 := pathBytes.[p / 8] |: (Z.shiftl (if nth p bits false then 1 else 0) (7 - Z.of_nat (p mod 8)) mod 2 ^ 8)].

Lemma pack_byte bits c pre post rest :
  0 <= c < 256 -> skipn (8 * length pre) bits = bits_of_byte c ++ rest ->
  fold_left (pack_step bits) (seq (8 * length pre) 8) (pre ++ 0 :: post) = pre ++ c :: post.
Proof.
  intros Hc Hb. set (k := length pre) in *.
  assert (Hbit : forall j, (j < 8)%nat -> nth (8 * k + j) bits false = (Z.shiftr c (7 - Z.of_nat j) &: 1 =? 1)).
  { intros j Hj. rewrite <- nth_skipn, Hb, app_nth1 by (rewrite length_bits_of_byte; lia). unfold bits_of_byte.
    rewrite (nth_indep _ false (Z.shiftr c (7 - Z.of_nat 0) &: 1 =? 1)) by (rewrite length_map, length_seq; lia).
    now rewrite (map_nth (fun j => Z.shiftr c (7 - Z.of_nat j) &: 1 =? 1)), seq_nth by lia. }
  assert (Hstep : forall x j, (j < 8)%nat -> pack_step bits (pre ++ x :: post) (8 * k + j) =
    pre ++ (x |: (Z.shiftl (if Z.shiftr c (7 - Z.of_nat j) &: 1 =? 1 then 1 else 0) (7 - Z.of_nat j) mod 2 ^ 8)) :: post).
  { intros x j Hj. unfold pack_step. rewrite Hbit by assumption.
    replace ((8 * k + j) / 8)%nat with k by (rewrite Nat.mul_comm, Nat.div_add_l, Nat.div_small; lia).
    replace ((8 * k + j) mod 8)%nat with j by (rewrite Nat.add_comm, Nat.mul_comm, Nat.Div0.mod_add, Nat.mod_small; lia).
    unfold k. now rewrite nth_middle, upd_middle. }
  assert (Hall : forall n, (n <= 8)%nat -> fold_left (pack_step bits) (seq (8 * k) n) (pre ++ 0 :: post) =
    pre ++ fold_left (fun x j => x |: (Z.shiftl (if Z.shiftr c (7 - Z.of_nat j) &: 1 =? 1 then 1 else 0) (7 - Z.of_nat j) mod 2 ^ 8)) (seq 0 n) 0 :: post).
  { induction n as [|n IH]; intros Hn; [reflexivity|]. rewrite !seq_S, !fold_left_app, IH by lia. cbn [fold_left]. now rewrite Hstep by lia. }
  rewrite Hall by lia. do 2 f_equal. revert c Hc Hb Hbit Hstep Hall. clear. intros c Hc _ _ _ _. revert c Hc.
  intros c Hc. apply Z.eqb_eq. revert c Hc. apply (forallb_below 256). vm_compute. reflexivity.
Qed.

Lemma pack_bytes bs : forall bits pre, bytes bs -> skipn (8 * length pre) bits = convertBytesVectorToVector bs ->
  fold_left (pack_step bits) (seq (8 * length pre) (8 * length bs)) (pre ++ repeat 0 (length bs)) = pre ++ bs.
Proof.
  induction bs as [|c bs IH]; intros bits pre Hb Hs; [reflexivity|]. inversion Hb as [|? ? Hc Hb']; subst.
  cbn [length repeat convertBytesVectorToVector flat_map] in *. replace (8 * S (length bs))%nat with (8 + 8 * length bs)%nat by lia.
  rewrite seq_app, fold_left_app, (pack_byte bits c pre _ _ Hc Hs).
  specialize (IH bits (pre ++ [c]) Hb'). rewrite length_app, <- !app_assoc in IH. cbn [length app] in IH.
  replace (8 * (length pre + 1))%nat with (8 * length pre + 8)%nat in IH by lia. apply IH.
  rewrite Nat.add_comm, <- skipn_skipn, Hs, skipn_app, skipn_all2 by (rewrite length_bits_of_byte; lia). reflexivity.
Qed.

Lemma pack_convert bs : bytes bs -> pack (convertBytesVectorToVector bs) = bs.
Proof.
  intros Hb. pose proof (pack_bytes bs (convertBytesVectorToVector bs) [] Hb eq_refl) as H. cbn [length app Nat.mul] in H.
  unfold pack. rewrite length_convert. replace ((8 * length bs + 7) / 8)%nat with (length bs) by (rewrite Nat.mul_comm, Nat.div_add_l, Nat.div_small; lia).
  exact H.
Qed.

(** * Paths are written and read back *)

Section PathCodec.
Context (sizeof_vector : Z) (Hsizeof : 1 <= sizeof_vector <= MAX_VECTOR_ALLOCATE).

#[local] Instance Sound_paths : Sound (VectorFormatter sizeof_vector charsF) (vector chars).
Proof. apply Sound_vector; [assumption | typeclasses eauto]. Qed.

(** The path of the hashes [hs] with the bits [index] of the position. *)
Definition path_with (hs : list (list Z)) (index : list bool) : MerklePath :=
  {| authentication_path := map convertBytesVectorToVector hs; index := index |}.

Lemma shiftr_bit x k : negb (Z.shiftr x (Z.of_nat k) &: 1 =? 0) = Z.testbit x (Z.of_nat k).
Proof.
  rewrite (Z.land_ones _ 1) by lia. change (2 ^ 1) with 2. rewrite <- Z.bit0_mod, Z.shiftr_spec, Z.add_0_l by lia. now destruct (Z.testbit x (Z.of_nat k)).
Qed.

Lemma index_bits (index : list bool) :
  map (fun i => negb (Z.shiftr (bits_value (rev index)) (Z.of_nat (length index - 1 - i)) &: 1 =? 0)) (seq 0 (length index)) = index.
Proof.
  apply (nth_ext _ _ false false); [now rewrite length_map, length_seq|]. intros i Hi. rewrite length_map, length_seq in Hi.
  set (f := fun i => _). rewrite (nth_indep _ false (f 0%nat)) by (rewrite length_map, length_seq; lia).
  rewrite (map_nth f), seq_nth by lia. unfold f. rewrite shiftr_bit, testbit_bits_value, rev_nth by lia. f_equal. lia.
Qed.

Lemma path_written hs index :
  vector chars hs -> length index = length hs -> (length index <= 64)%nat ->
  MerklePath_Serialize sizeof_vector (path_with hs index) =
    Ok (ser (VectorFormatter sizeof_vector charsF) hs ++ ser uint64F (bits_value (rev index))).
Proof.
  intros [Hhs _] Hl H64. unfold MerklePath_Serialize, path_with. cbn [authentication_path Incremental.index]. rewrite length_map, Hl, Nat.eqb_refl. cbn [negb].
  unfold convertVectorToInt. destruct (Nat.ltb_spec 64 (length index)); [lia|]. cbn [bind]. rewrite set_bits_spec by assumption.
  rewrite map_map, (map_ext_Forall _ (fun h => h)), map_id; [reflexivity|]. revert Hhs. apply Forall_impl. intros h [Hb _]. now apply pack_convert.
Qed.

Lemma path_read hs index S (R : Reader S) (L : ReaderLaws S) (s : S) rest :
  vector chars hs -> length index = length hs -> (length index <= 64)%nat ->
  ready s -> content s = ser (VectorFormatter sizeof_vector charsF) hs ++ ser uint64F (bits_value (rev index)) ++ rest ->
  exists s', MerklePath_Unserialize sizeof_vector {| authentication_path := []; index := [] |} s = Ok (path_with hs index, s') /\
    ready s' /\ content s' = rest.
Proof.
  intros Hhs Hl H64 Hs Hc. assert (Hint : word 64 (bits_value (rev index))).
  { pose proof (bits_value_range (rev index)) as Hr. rewrite length_rev in Hr. pose proof (Z.pow_le_mono_r 2 (Z.of_nat (length index)) 64 ltac:(lia) ltac:(lia)).
    unfold word. lia. }
  unfold MerklePath_Unserialize. step. step. eexists. split; [|split; [eassumption | assumption]].
  cbn [authentication_path Incremental.index app]. unfold path_with. do 3 f_equal. rewrite <- Hl. apply index_bits.
Qed.
End PathCodec.

(** * Trees and witnesses are written and read back *)

Lemma wfcheck_spec Depth t : wfcheck Depth t = Ok tt <-> canonical t /\ (length (parents t) < Depth)%nat.
Proof.
  unfold wfcheck, canonical. destruct (Nat.leb_spec Depth (length (parents t))) as [Hd|Hd]; [split; [discriminate | lia]|].
  destruct (last (parents t) (Some [])); [|split; [discriminate | intros [[H _] _]; congruence]].
  destruct (left t) as [x|], (right t) as [y|]; try (split; [split; [split; [discriminate | discriminate] | assumption] | reflexivity]).
  - split; [discriminate | intros [[_ H] _]; destruct (H eq_refl); discriminate].
  - destruct (parents t); cbn [length Nat.ltb Nat.leb].
    + split; [intros _ | reflexivity]. split; [split; [discriminate | now split] | assumption].
    + split; [discriminate | intros [[_ H] _]; destruct (H eq_refl); discriminate].
Qed.

Section Codec.
Context (Depth : nat) {hash : HashClass} (sizeof_Optional sizeof_Hash : Z).
Context (HO : 1 <= sizeof_Optional <= MAX_VECTOR_ALLOCATE) (HH : 1 <= sizeof_Hash <= MAX_VECTOR_ALLOCATE).
Abbreviation treeF := (IncrementalMerkleTreeF Depth sizeof_Optional).
Abbreviation witnessF := (IncrementalWitnessF Depth sizeof_Optional sizeof_Hash).

#[local] Instance Sound_Hash : Sound HashF (blob 32). Proof. apply Sound_blob. lia. Qed.
#[local] Instance Exact_Hash : Exact HashF (blob 32). Proof. apply Exact_blob. lia. Qed.
#[local] Instance Total_Hash : Total HashF. Proof. apply Total_blob. lia. Qed.
#[local] Instance Sound_parents : Sound (VectorFormatter sizeof_Optional (OptionalF HashF)) (vector (when (blob 32))).
Proof. apply Sound_vector; [assumption | typeclasses eauto]. Qed.
#[local] Instance Safe_parents : Safe (VectorFormatter sizeof_Optional (OptionalF HashF)) (vector (when (blob 32))).
Proof. apply Safe_vector; [assumption | typeclasses eauto]. Qed.
#[local] Instance Total_parents : Total (VectorFormatter sizeof_Optional (OptionalF HashF)).
Proof. eapply Total_vector; [assumption | typeclasses eauto | typeclasses eauto]. Qed.
#[local] Instance Sound_filled : Sound (VectorFormatter sizeof_Hash HashF) (vector (blob 32)).
Proof. apply Sound_vector; [assumption | typeclasses eauto]. Qed.
#[local] Instance Exact_filled : Exact (VectorFormatter sizeof_Hash HashF) (vector (blob 32)).
Proof. apply Exact_vector; [assumption | typeclasses eauto]. Qed.
#[local] Instance Total_filled : Total (VectorFormatter sizeof_Hash HashF).
Proof. eapply Total_vector; [assumption | typeclasses eauto | typeclasses eauto]. Qed.

(** The values of the type that pass [wfcheck]. *)
Definition tree_ok (t : IncrementalMerkleTree) : Prop :=
  when (blob 32) (left t) /\ when (blob 32) (right t) /\ vector (when (blob 32)) (parents t) /\ wfcheck Depth t = Ok tt.

#[export] Instance Sound_tree : Sound treeF tree_ok.
Proof.
  intros S R L s a rest Hs (H1 & H2 & H3 & Hwf) Hc. destruct a as [l r ps]. cbn [ser unser IncrementalMerkleTreeF left right parents] in *.
  rewrite <- ?app_assoc in Hc. step. step. step. rewrite Hwf. cbn [bind]. eauto.
Qed.

#[export] Instance Safe_tree : Safe treeF tree_ok.
Proof.
  intros S R L s a s' Hs E. cbn [unser IncrementalMerkleTreeF] in E. do 3 inv_bind E. apply bind_Ok in E as ([] & Ewf & E). injection E as <- <-.
  repeat learn_safe. split; [assumption|]. split; [repeat (split; [assumption|]); assumption || reflexivity|]. eexists. chain. rewrite ?app_assoc. reflexivity.
Qed.

#[export] Instance Total_tree : Total treeF.
Proof.
  intros S R L s Hs. cbn [unser IncrementalMerkleTreeF]. do 3 total_step. unfold wfcheck.
  repeat match goal with |- context [if ?b then _ else _] => destruct b; [discriminate|] end. discriminate.
Qed.

Definition witness_ok (w : IncrementalWitness) : Prop :=
  tree_ok (tree w) /\ vector (blob 32) (filled w) /\ when tree_ok (cursor w) /\
  cursor_depth w = next_depth (tree w) (length (filled w)).

#[export] Instance Sound_witness : Sound witnessF witness_ok.
Proof.
  intros S R L s a rest Hs (H1 & H2 & H3 & Hcd) Hc. destruct a as [t f c d]. cbn [ser unser IncrementalWitnessF tree filled cursor cursor_depth] in *.
  rewrite <- ?app_assoc in Hc. step. step. step. subst d. eauto.
Qed.

#[export] Instance Safe_witness : Safe witnessF witness_ok.
Proof.
  intros S R L s a s' Hs E. cbn [unser IncrementalWitnessF] in E. do 3 inv_bind E. injection E as <- <-.
  repeat learn_safe. split; [assumption|]. split; [repeat (split; [assumption|]); assumption || reflexivity|]. eexists. chain. rewrite ?app_assoc. reflexivity.
Qed.

#[export] Instance Total_witness : Total witnessF.
Proof. total_record IncrementalWitnessF. Qed.

End Codec.

Section Blobs.
Context (Depth : nat) {hash : HashClass}.

(** The class of hashes has values of 32 bytes. *)
Class Blobs : Prop := {
  blob_uncommitted : blob 32 uncommitted;
  blob_combine a b d : blob 32 (combine a b d);
  blob_EmptyRoot d h : EmptyRoot d = Some h -> blob 32 h
}.
Context {B : Blobs}.

Lemma blob_node d l : Forall (blob 32) l -> blob 32 (node d l).
Proof. intros Hl. destruct d as [|d]; [destruct Hl; [apply blob_uncommitted | assumption]|]. apply blob_combine. Qed.

Lemma holds_blobs ps : forall d l, Forall (blob 32) l -> holds d ps l -> Forall (when (blob 32)) ps.
Proof.
  induction ps as [|[h|] ps IH]; intros d l Hl; cbn [holds]; [constructor | |].
  - intros (a & b & -> & _ & -> & Ha). apply Forall_app in Hl as [Hla Hlb]. constructor; [now apply blob_node | now apply (IH (S d) a)].
  - intros Ha. constructor; [exact I | now apply (IH (S d) l)].
Qed.

Lemma tree_of_ok t l :
  Z.of_nat Depth <= MAX_SIZE -> Forall (blob 32) l -> tree_of t l -> (length (parents t) < Depth)%nat -> tree_ok Depth t.
Proof.
  intros HD Hl Ht Hp. pose proof Ht as [Hcan (a & Ha & ->)]. apply Forall_app in Hl as [Hla Hlv]. unfold leaves in Hlv.
  split; [|split; [|split; [split; [now apply (holds_blobs _ 1 a) | unfold short; lia] | now apply wfcheck_spec]]].
  - destruct (left t); [now inversion Hlv | exact I].
  - destruct (right t); [|exact I]. apply Forall_app in Hlv as [_ Hr]. now inversion Hr.
Qed.

Lemma full_blobs q : forall ls m, Forall (blob 32) m -> full ls q m -> Forall (blob 32) q.
Proof.
  induction q as [|h q IH]; intros [|d ls] m Hm; cbn [full]; try easy. intros (b & m' & -> & _ & -> & H).
  apply Forall_app in Hm as [Hb Hm']. constructor; [now apply blob_node | now apply (IH ls m')].
Qed.

Lemma next_blobs d q h q' : Forall (blob 32) q -> next d q = Ok (h, q') -> blob 32 h /\ Forall (blob 32) q'.
Proof.
  intros Hq H. destruct q as [|x q]; cbn [next] in H.
  - destruct (EmptyRoot d) as [x|] eqn:E; [|discriminate]. injection H as <- <-. split; [now apply (blob_EmptyRoot d) | constructor].
  - injection H as <- <-. now inversion Hq.
Qed.

Lemma path_parents_blobs ps : forall d q i p q',
  Forall (when (blob 32)) ps -> Forall (blob 32) q -> path_parents ps d q = Ok (i, p, q') -> Forall (blob 32) p /\ Forall (blob 32) q'.
Proof.
  induction ps as [|[h|] ps IH]; intros d q i p q' Hps Hq H; cbn [path_parents] in H.
  - injection H as <- <- <-. now split.
  - inversion Hps; subst. inv_bind H. destruct p0 as [i1 p1]. injection H as <- <- <-. destruct (IH _ _ _ _ _ ltac:(eassumption) Hq E) as [Hp Hq'].
    split; [now constructor | assumption].
  - inversion Hps; subst. inv_bind H. destruct (next_blobs _ _ _ _ Hq E) as [Hh Hq1]. inv_bind H. destruct p0 as [i1 p1]. injection H as <- <- <-.
    destruct (IH _ _ _ _ _ ltac:(eassumption) Hq1 E0) as [Hp Hq']. split; [now constructor | assumption].
Qed.

Lemma path_up_blobs t q i p :
  when (blob 32) (left t) -> Forall (when (blob 32)) (parents t) -> Forall (blob 32) q -> path_up Depth t q = Ok (i, p) -> Forall (blob 32) p.
Proof.
  intros Hl Hps Hq H. unfold path_up in H. destruct (left t) as [x|]; [|discriminate]. apply bind_Ok in H as ([[i0 p0] q0] & E & H).
  assert (H0 : blob 32 p0 /\ Forall (blob 32) q0).
  { destruct (right t); [injection E as <- <- <-; now split|]. apply bind_Ok in E as ([y q1] & E0 & E). injection E as <- <- <-. exact (next_blobs _ _ _ _ Hq E0). }
  destruct H0 as [Hp0 Hq0]. apply bind_Ok in H as ([[i1 p1] q1] & E1 & H). destruct (path_parents_blobs _ _ _ _ _ _ Hps Hq0 E1) as [Hp1 Hq1].
  rewrite path_rest_parents in H. apply bind_Ok in H as ([i2 p2] & E2 & H). apply bind_Ok in E2 as ([[i3 p3] q3] & E3 & E2).
  injection E2 as <- <-. injection H as <- <-. apply path_parents_blobs in E3 as [Hp2 _]; [| |assumption].
  - constructor; [assumption|]. now apply Forall_app.
  - apply Forall_forall. intros o Ho. apply repeat_spec in Ho. now subst o.
Qed.

(** What is written of a witness that follows its leaves, and the witness that is read. *)
Definition refreshed (w : IncrementalWitness) : IncrementalWitness :=
  {| tree := tree w; filled := filled w; cursor := cursor w; cursor_depth := next_depth (tree w) (length (filled w)) |}.

Lemma refreshed_follows w l m : (1 <= Depth)%nat -> follows Depth w l m -> follows Depth (refreshed w) l m /\ (cursor w <> None -> refreshed w = w).
Proof.
  intros Hd (Ht & Hp & m1 & m2 & -> & Hf & Hc). pose proof Ht as [[_ Hleft] _].
  pose proof (next_depth_slots Depth Hd (tree w) (length (filled w)) (fun H => proj1 (Hleft H)) Hp) as Hnext.
  assert (E : cursor w <> None -> next_depth (tree w) (length (filled w)) = cursor_depth w).
  { destruct (cursor w); [|congruence]. destruct Hc as (Hn & _). rewrite Hn in Hnext. intros _. apply Hnext. }
  split.
  - split; [assumption|]. split; [assumption|]. exists m1, m2. split; [reflexivity|]. split; [assumption|]. cbn [refreshed tree filled cursor cursor_depth].
    destruct (cursor w) as [c|]; [|assumption]. rewrite E by discriminate. assumption.
  - intros Hc'. unfold refreshed. rewrite E by assumption. now destruct w.
Qed.

Lemma length_slots t : (1 <= Depth)%nat -> (length (parents t) < Depth)%nat -> (length (slots t Depth) <= S Depth)%nat.
Proof.
  intros Hd Hp. assert (G : forall ps d, (length (gaps d ps) <= length ps)%nat).
  { induction ps as [|[h|] ps IH]; intros d; cbn [gaps length]; [lia | |]; specialize (IH (S d)); lia. }
  unfold slots. rewrite !length_app. specialize (G (padded t Depth) 1%nat). rewrite length_padded in G by assumption.
  destruct (left t), (right t); cbn [some length]; lia.
Qed.

Lemma follows_ok w l m :
  (1 <= Depth)%nat -> Z.of_nat Depth < MAX_SIZE -> Forall (blob 32) (l ++ m) -> follows Depth w l m -> witness_ok Depth (refreshed w).
Proof.
  intros Hd HD Hlm (Ht & Hp & m1 & m2 & -> & Hf & Hc). apply Forall_app in Hlm as [Hl Hm]. apply Forall_app in Hm as [Hm1 Hm2].
  split; [apply (tree_of_ok (tree w) l); (assumption || lia)|]. split; [|split; [|reflexivity]].
  - split; [now apply (full_blobs _ (slots (tree w) Depth) m1)|]. apply full_length in Hf. pose proof (length_slots (tree w) Hd Hp). unfold short. cbn [refreshed filled]. lia.
  - cbn [refreshed cursor]. destruct (cursor w) as [c|]; [|exact I]. destruct Hc as (_ & Hcd & Htc & Hlen). cbn [when].
    apply (tree_of_ok c m2); [lia | assumption | assumption |]. apply (tree_of_parents c m2 Depth); [assumption | assumption |].
    pose proof (Nat.pow_le_mono_r 2 (cursor_depth w) Depth ltac:(lia) ltac:(lia)). lia.
Qed.
End Blobs.
