(* ===== verification/Commitments.v ===== *)
(** The tree of commitments and its witnesses, for every class of hashes that keeps the
    promise of the table of empty roots; [SHA256Compress] keeps it. *)
From Stdlib Require Import ZifyNat.
From S2P Require Import Prelude CryptoCommon Stream Hasher Sha256 HashSpec Sha2Hash Uint256 Merkle Streams Serialize SerializeLaws IncrementalTree IncrementalProofs.
Import CryptoCommon Hasher IncrementalTree.Incremental.

(** * SHA256Compress *)

(** The compression function of SHA-256 without padding. *)
Definition sha256_node (a b : Hash) : Hash :=
  flat_map (be_bytes 4) (Sha2Spec.compress Sha2Spec.small (Sha2Spec.H0 Sha2Spec.small) (a ++ b)).

(** The same with the unrolled transformation, for evaluation. *)
Definition transformed (a b : Hash) : Hash := flat_map WriteBE32 (Sha256.Transform Sha256.Initialize (a ++ b)).

(** A hasher that was given one block in two parts. *)
Lemma one_block (Init : list Z) (T : list Z -> list Z -> list Z) buf a b :
  (forall s x, (64 <= length x)%nat -> T s x = T s (firstn 64 x)) ->
  length buf = 64%nat -> length a = 32%nat -> length b = 32%nat ->
  let c := Hasher.Write 64 T (Hasher.Write 64 T {| h_s := Init; h_buf := buf; h_bytes := 0 |} a) b in
  h_s c = T Init (a ++ b) /\ h_bytes c = 64.
Proof.
  intros HT Hbuf Ha Hb c. assert (Hc : fed 64 Init T c (a ++ b)).
  { unfold c. apply Write_fed; [lia | assumption |]. apply (Write_fed 64 _ _ ltac:(lia) HT _ [] a). exact (Reset_fed 64 Init T ltac:(lia) {| h_s := Init; h_buf := buf; h_bytes := 0 |} Hbuf). }
  destruct Hc as (_ & Hn & Habs). rewrite length_app, Ha, Hb in Hn. split; [|exact Hn].
  rewrite absorb_block, skipn_all2, absorb_short in Habs by (rewrite ?length_app, ?Ha, ?Hb; cbn; lia).
  rewrite firstn_all2 in Habs by (rewrite length_app; lia). now injection Habs.
Qed.

Lemma length_Transform256 s b : length (Sha256.Transform s b) = 8%nat.
Proof.
  rewrite <- (Transform_rolling256 _ _ (fun v => map (fun i => w32 (s.[i] + v.[i])) (seq 0 8))) by reflexivity.
  now rewrite length_map, length_seq.
Qed.

Lemma SHA256Compress_transformed buf a b :
  length buf = 64%nat -> length a = 32%nat -> length b = 32%nat -> SHA256Compress_combine buf a b = transformed a b.
Proof.
  intros Hbuf Ha Hb. unfold SHA256Compress_combine, transformed, Sha256.Write, Sha256.CSHA256.
  destruct (one_block Sha256.Initialize Sha256.Transform buf a b Transform256_firstn Hbuf Ha Hb) as [Hs Hn].
  unfold Sha256.FinalizeNoPadding. rewrite Hn, Hs. change (64 =? 64) with true. cbn [negb andb].
  pose proof (length_Transform256 Sha256.Initialize (a ++ b)) as L. revert L. generalize (Sha256.Transform Sha256.Initialize (a ++ b)).
  intros l L. destruct l as [|? [|? [|? [|? [|? [|? [|? [|? [|]]]]]]]]]; try discriminate L. cbn [flat_map nth]. now rewrite app_nil_r.
Qed.

Lemma transformed_node a b : bytes a -> bytes b -> length a = 32%nat -> length b = 32%nat -> transformed a b = sha256_node a b.
Proof.
  intros Ha Hb La Lb. unfold transformed, sha256_node. rewrite Transform256_compress by (reflexivity || (now apply Forall_app) || (rewrite length_app; lia)).
  change Sha256.Initialize with (Sha2Spec.H0 Sha2Spec.small) || replace Sha256.Initialize with (Sha2Spec.H0 Sha2Spec.small) by (vm_compute; reflexivity).
  apply flat_map_ext. intros x. apply WriteBE32_spec.
Qed.

Lemma blob_SHA256Compress buf a b : blob 32 (SHA256Compress_combine buf a b).
Proof.
  unfold SHA256Compress_combine. set (c := Sha256.Write _ _). clearbody c. unfold Sha256.FinalizeNoPadding.
  destruct (_ && _)%bool; [split; [apply words_check; reflexivity | reflexivity]|].
  split; [|reflexivity]. repeat (apply Forall_app; split); apply bytes_le_split.
Qed.

Fixpoint same (a b : list Z) : bool :=
  match a, b with
  | [], [] => true
  | x :: a, y :: b => (x =? y) && same a b
  | _, _ => false
  end.

Lemma same_eq a : forall b, same a b = true -> a = b.
Proof.
  induction a as [|x a IH]; intros [|y b]; cbn [same]; try easy. intros H. apply andb_prop in H as [Hx H].
  apply Z.eqb_eq in Hx as ->. f_equal. now apply IH.
Qed.

(** Every entry of the table is the hash of the one before it with itself. *)
Lemma sha256_table :
  forallb (fun d => same (nth (S d) sha256_empty_roots []) (transformed (nth d sha256_empty_roots []) (nth d sha256_empty_roots []))) (seq 0 65) = true /\
  forallb (fun h => (length h =? 32)%nat && forallb (fun x => (0 <=? x) && (x <? 256)) h) sha256_empty_roots = true /\
  length sha256_empty_roots = 66%nat.
Proof. split; [|split]; vm_compute; reflexivity. Qed.

Section Compress.
Context (buf : list Z) (Hbuf : length buf = 64%nat).

Lemma table_entry d h : nth_error sha256_empty_roots d = Some h -> (d < 66)%nat /\ h = nth d sha256_empty_roots [] /\ blob 32 h.
Proof.
  intros E. destruct sha256_table as (_ & Hb & Hl). split; [rewrite <- Hl; apply nth_error_Some; congruence|].
  split; [symmetry; now apply nth_error_nth|]. rewrite forallb_forall in Hb. specialize (Hb h (nth_error_In _ _ E)).
  apply andb_prop in Hb as [H1 H2]. apply Nat.eqb_eq in H1. split; [|assumption]. apply Forall_forall. intros x Hx.
  rewrite forallb_forall in H2. specialize (H2 x Hx). unfold word. lia.
Qed.

#[export] Instance sha256_roots Depth : (Depth <= 65)%nat -> @EmptyRoots (SHA256Compress buf) Depth.
Proof.
  intros Hd. split; [reflexivity|]. intros d h Hlt E. cbn [EmptyRoot combine SHA256Compress] in *.
  destruct (table_entry d h E) as (_ & Eh & _ & Hl). rewrite SHA256Compress_transformed by assumption. subst h.
  destruct sha256_table as (Ht & _ & Hn). rewrite forallb_forall in Ht. specialize (Ht d ltac:(apply in_seq; lia)).
  apply same_eq in Ht. rewrite <- Ht. apply nth_error_nth'. lia.
Qed.

#[export] Instance sha256_blobs : @Blobs (SHA256Compress buf).
Proof.
  split; cbn [uncommitted combine EmptyRoot SHA256Compress].
  - split; [apply words_check; reflexivity | reflexivity].
  - intros. apply blob_SHA256Compress.
  - intros d h E. now apply table_entry in E.
Qed.
End Compress.

(** * The tree *)

Fixpoint append_all (Depth : nat) {hash : HashClass} (l : list Hash) (t : IncrementalMerkleTree) : result IncrementalMerkleTree :=
  match l with
  | [] => Ok t
  | h :: l => let? t := append Depth h t in append_all Depth l t
  end.

Fixpoint witness_append_all (Depth : nat) {hash : HashClass} (l : list Hash) (w : IncrementalWitness) : result IncrementalWitness :=
  match l with
  | [] => Ok w
  | h :: l => let? w := witness_append Depth h w in witness_append_all Depth l w
  end.

Section Tree.
Context (Depth : nat) {hash : HashClass} {E : EmptyRoots Depth} (Hdepth : (1 <= Depth <= 32)%nat).

Let small : Z.of_nat Depth < 2 ^ 64.
Proof. lia. Qed.

Lemma append_all_spec l : forall l0 t, tree_of t l0 -> (length (l0 ++ l) <= 2 ^ Depth)%nat ->
  exists t', append_all Depth l t = Ok t' /\ tree_of t' (l0 ++ l).
Proof.
  induction l as [|h l IH]; intros l0 t Ht Hl; cbn [append_all]; [exists t; now rewrite app_nil_r|]. rewrite length_app in Hl. cbn [length] in Hl.
  destruct (append_spec Depth t l0 h ltac:(lia) small Ht ltac:(lia)) as (t1 & -> & Ht1). cbn [bind].
  destruct (IH (l0 ++ [h]) t1 Ht1) as (t' & -> & Ht'); [rewrite !length_app; cbn; lia|]. exists t'. now rewrite <- app_assoc in Ht'.
Qed.

Lemma append_all_full l : forall l0 t, tree_of t l0 -> (length l0 <= 2 ^ Depth < length (l0 ++ l))%nat ->
  append_all Depth l t = Throw TreeIsFull.
Proof.
  induction l as [|h l IH]; intros l0 t Ht Hl; cbn [append_all]; [rewrite app_nil_r in Hl; lia|].
  destruct (Nat.eq_dec (length l0) (2 ^ Depth)) as [Efull|Efull].
  - now rewrite (append_full Depth t l0) by (assumption || lia).
  - destruct (append_spec Depth t l0 h ltac:(lia) small Ht ltac:(lia)) as (t1 & -> & Ht1). cbn [bind].
    apply (IH (l0 ++ [h])); [assumption|]. rewrite !length_app in *. cbn [length] in *. lia.
Qed.

Lemma last_leaf_spec t l : tree_of t l -> last_leaf t = match rev l with h :: _ => Ok h | [] => Throw NoCursor end.
Proof.
  intros [[_ Hleft] (a & Ha & ->)]. unfold last_leaf, leaves. rewrite rev_app_distr.
  destruct t as [[x|] [y|] ps]; cbn [left right parents option_list app rev] in *; try reflexivity.
  destruct (Hleft eq_refl) as [_ ->]. cbn [holds] in Ha. now subst a.
Qed.

Lemma witness_append_all_spec m : forall w l m0, follows Depth w l m0 -> (length (l ++ m0 ++ m) <= 2 ^ Depth)%nat ->
  exists w', witness_append_all Depth m w = Ok w' /\ follows Depth w' l (m0 ++ m) /\ tree w' = tree w.
Proof.
  induction m as [|h m IH]; intros w l m0 Hw Hl; cbn [witness_append_all]; [exists w; now rewrite app_nil_r|].
  rewrite !length_app in Hl. cbn [length] in Hl.
  destruct (witness_append_spec Depth ltac:(lia) small w l m0 h Hw ltac:(rewrite length_app; lia)) as (w1 & E1 & Hw1). rewrite E1. cbn [bind].
  assert (Ht : tree w1 = tree w).
  { unfold witness_append in E1. destruct (cursor w) as [c|].
    - apply bind_Ok in E1 as (c' & _ & E1). destruct (is_complete _ _); [apply bind_Ok in E1 as (? & _ & E1)|]; now injection E1 as <-.
    - destruct (_ <=? _)%nat; [discriminate|]. destruct (_ =? _)%nat; [|apply bind_Ok in E1 as (? & _ & E1)]; now injection E1 as <-. }
  destruct (IH w1 l (m0 ++ [h]) Hw1) as (w' & -> & Hw' & Ht'); [rewrite !length_app; cbn; lia|]. exists w'.
  rewrite <- app_assoc in Hw'. split; [reflexivity|]. split; [exact Hw' | congruence].
Qed.

(** C14. However many leaves are appended to a new tree, they are the leaves of the perfect
    tree of height [Depth] whose node at the top is [root()], the others being empty;
    [append] throws when there are 2^Depth leaves and only then. [last] is the last leaf,
    [wfcheck] passes, and [size] is the number of leaves as long as there are at most 2^31;
    with more of them the shift of an [int] makes it 2^32 less. *)
Theorem commitment_tree (l : list Hash) :
  ((length l <= 2 ^ Depth)%nat -> exists t, append_all Depth l IncrementalMerkleTree_new = Ok t /\
     root Depth t = Ok (node Depth l) /\ wfcheck Depth t = Ok tt /\
     last_leaf t = match rev l with h :: _ => Ok h | [] => Throw NoCursor end /\
     size t = w64 (Z.of_nat (length l) - (if 2 ^ 31 <? Z.of_nat (length l) then 2 ^ 32 else 0)) /\
     is_complete t Depth = (length l =? 2 ^ Depth)%nat) /\
  ((2 ^ Depth < length l)%nat -> append_all Depth l IncrementalMerkleTree_new = Throw TreeIsFull).
Proof.
  split; intros Hl.
  - destruct (append_all_spec l [] IncrementalMerkleTree_new tree_of_new Hl) as (t & Et & Ht). exists t.
    pose proof (tree_of_parents t l Depth ltac:(lia) Ht Hl) as Hp.
    split; [exact Et|]. split; [apply root_spec; (assumption || lia)|]. split; [apply wfcheck_spec; split; [apply Ht | lia]|].
    split; [now apply last_leaf_spec|]. split; [apply size_spec; [lia | assumption]|]. apply is_complete_spec; (assumption || lia).
  - apply (append_all_full l [] IncrementalMerkleTree_new tree_of_new). pose proof (Nat.pow_nonzero 2 Depth). cbn. lia.
Qed.

(** A tree and a witness of its last leaf, after more leaves. *)
Lemma witness_after l m :
  (length (l ++ m) <= 2 ^ Depth)%nat -> exists t w, append_all Depth l IncrementalMerkleTree_new = Ok t /\ tree_of t l /\
  witness_append_all Depth m (witness t) = Ok w /\ follows Depth w l m /\ tree w = t.
Proof.
  intros Hl. rewrite length_app in Hl. destruct (append_all_spec l [] _ tree_of_new ltac:(cbn; lia)) as (t & Et & Ht). exists t.
  destruct (witness_append_all_spec m (witness t) l [] (follows_witness Depth ltac:(lia) t l Ht ltac:(lia)) ltac:(rewrite length_app; cbn; lia)) as (w & Ew & Hw & Htw).
  exists w. split; [exact Et|]. split; [exact Ht|]. split; [exact Ew|]. split; [exact Hw | exact Htw].
Qed.

Lemma witness_path_spec w l m h r :
  follows Depth w l m -> rev l = h :: r ->
  exists index path, witness_path Depth w = Ok {| authentication_path := rev (map convertBytesVectorToVector path); index := rev index |} /\
    length index = Depth /\ length path = Depth /\ hash_up 0 h index path = node Depth (l ++ m) /\ bits_value index = Z.of_nat (length l) - 1 /\
    exists q, partial_path w = Ok q /\ path_up Depth (tree w) q = Ok (index, path).
Proof.
  intros Hw Hr. destruct (partial_path_spec Depth ltac:(lia) w l m Hw) as (q & Eq & Hq). destruct Hw as (Ht & Hp & _).
  pose proof (last_leaf_spec _ _ Ht) as Hlast. rewrite Hr in Hlast.
  destruct (path_up_spec Depth (tree w) l q m h ltac:(lia) Hp Ht Hq Hlast) as (index & path & Ep & H1 & H2 & H3 & H4). exists index, path.
  unfold witness_path. rewrite Eq. cbn [bind]. unfold path_of. rewrite Ep. cbn [bind]. repeat (split; [assumption || reflexivity|]). eauto.
Qed.

(** C15. Whatever leaves are appended to a witness of a tree, it has the root of the tree to
    which they are appended too, until the tree is full, when both throw. Its element is the
    last leaf of the tree it was made of, and its path has the hashes that lead from the
    element to this root, with the bits of the position of the leaf. *)
Theorem commitment_witness (l m : list Hash) :
  (length (l ++ m) <= 2 ^ Depth)%nat ->
  exists t t' w, append_all Depth l IncrementalMerkleTree_new = Ok t /\ append_all Depth m t = Ok t' /\
    witness_append_all Depth m (witness t) = Ok w /\
    witness_root Depth w = Ok (node Depth (l ++ m)) /\ root Depth t' = Ok (node Depth (l ++ m)) /\
    (length (l ++ m) = (2 ^ Depth)%nat -> forall obj, witness_append Depth obj w = Throw TreeIsFull /\ append Depth obj t' = Throw TreeIsFull) /\
    match rev l with
    | [] => element w = Throw NoCursor /\ witness_path Depth w = Throw BeginningOfTree
    | h :: _ => element w = Ok h /\ (Z.of_nat (length l) <= 2 ^ 31 -> position w = Z.of_nat (length l) - 1) /\
        exists index path, length index = Depth /\ length path = Depth /\
          witness_path Depth w = Ok {| authentication_path := rev (map convertBytesVectorToVector path); index := rev index |} /\
          hash_up 0 h index path = node Depth (l ++ m) /\ bits_value index = Z.of_nat (length l) - 1
    end.
Proof.
  intros Hl. destruct (witness_after l m Hl) as (t & w & Et & Ht & Ew & Hw & Htw). rewrite length_app in Hl.
  destruct (append_all_spec m l t Ht ltac:(rewrite length_app; lia)) as (t' & Et' & Ht'). exists t, t', w.
  split; [exact Et|]. split; [exact Et'|]. split; [exact Ew|]. split; [apply witness_root_spec; (assumption || lia)|].
  split; [apply root_spec; try assumption; rewrite ?length_app; lia|].
  split; [intros Hfull obj; split; [now apply (witness_append_full Depth ltac:(lia) w l m) | now apply (append_full Depth t' (l ++ m)); try lia]|].
  pose proof (last_leaf_spec t l Ht) as Hlast. unfold element, position. destruct (rev l) as [|h r] eqn:Er; rewrite Htw.
  - split; [exact Hlast|]. destruct (partial_path_spec Depth ltac:(lia) w l m Hw) as (q & Eq & _). unfold witness_path. rewrite Eq. cbn [bind].
    unfold path_of, path_up. rewrite Htw. unfold last_leaf in Hlast. destruct (right t), (left t); try discriminate Hlast. reflexivity.
  - split; [exact Hlast|]. split.
    + intros H31. rewrite (size_spec t l); [| pose proof (tree_of_parents t l Depth ltac:(lia) Ht ltac:(lia)); lia | assumption].
      assert (0 < length l)%nat by (rewrite <- length_rev, Er; cbn; lia). destruct (Z.ltb_spec (2 ^ 31) (Z.of_nat (length l))); [lia|].
      unfold w64. rewrite Z.sub_0_r, (Z.mod_small (Z.of_nat _)), Z.mod_small by lia. reflexivity.
    + destruct (witness_path_spec w l m h r Hw Er) as (index & path & H1 & H2 & H3 & H4 & H5 & _). exists index, path. now repeat split.
Qed.

(** * Serialization *)

Context (sizeof_Optional sizeof_Hash sizeof_vector : Z) {B : Blobs}.
Context (HO : 1 <= sizeof_Optional <= MAX_VECTOR_ALLOCATE) (HH : 1 <= sizeof_Hash <= MAX_VECTOR_ALLOCATE) (HV : 1 <= sizeof_vector <= MAX_VECTOR_ALLOCATE).

Lemma path_hashes w l m h r :
  (length (l ++ m) <= 2 ^ Depth)%nat -> Forall (blob 32) (l ++ m) -> follows Depth w l m -> rev l = h :: r ->
  exists hs index, witness_path Depth w = Ok (path_with hs index) /\ vector chars hs /\ length index = length hs /\ (length index <= 64)%nat /\
    bits_value (rev index) = Z.of_nat (length l) - 1.
Proof.
  intros Hl Hb Hw Hr. destruct (witness_path_spec w l m h r Hw Hr) as (index & path & Ep & H2 & H3 & _ & H5 & q & Eq & Eup).
  destruct (follows_ok Depth w l m ltac:(lia) ltac:(unfold MAX_SIZE; lia) Hb Hw) as ((Hleft & _ & [Hps _] & _) & [Hf _] & _).
  cbn [refreshed tree filled] in Hleft, Hps, Hf. apply Forall_app in Hb as [_ Hbm].
  assert (Hpath : Forall (blob 32) path).
  { apply (path_up_blobs Depth (tree w) q index path); try assumption. destruct Hw as (_ & _ & m1 & m2 & -> & _ & Hcur). unfold partial_path in Eq.
    destruct (cursor w) as [c|]; [|now injection Eq as <-]. destruct Hcur as (_ & Hcd & Htc & Hlen).
    rewrite (root_of_spec Depth c m2 (cursor_depth w) [] []) in Eq;
      [| lia | apply (tree_of_parents c m2); (assumption || lia) | assumption | apply supply_nil].
    injection Eq as <-. apply Forall_app. split; [assumption|]. constructor; [|constructor]. apply blob_node. rewrite app_nil_r. now apply Forall_app in Hbm as [_ ?]. }
  exists (rev path), (rev index). unfold path_with. rewrite map_rev, rev_involutive, !length_rev. split; [exact Ep|].
  split; [|split; [lia | split; [lia | assumption]]]. split; [|unfold short, MAX_SIZE; rewrite length_rev; lia]. apply Forall_rev. revert Hpath. apply Forall_impl.
  intros x [Hx Lx]. split; [assumption|]. unfold short, MAX_SIZE. lia.
Qed.

(** C16. A tree is read back as it was written, and so is a witness, up to the depth of a
    cursor that it does not have: it goes on as the written one would. The path of a witness is
    written as its hashes from the root down and the position, and read back. What is read
    from any bytes passes [wfcheck]. *)
Theorem commitment_codec {S : Type} {R : Reader S} {L : ReaderLaws S} (l m : list Hash) :
  (length (l ++ m) <= 2 ^ Depth)%nat -> Forall (blob 32) (l ++ m) ->
  exists t w, append_all Depth l IncrementalMerkleTree_new = Ok t /\ witness_append_all Depth m (witness t) = Ok w /\
    Tree_Serialize Depth sizeof_Optional t = Ok (ser (IncrementalMerkleTreeF Depth sizeof_Optional) t) /\
    Witness_Serialize Depth sizeof_Optional sizeof_Hash w = Ok (ser (IncrementalWitnessF Depth sizeof_Optional sizeof_Hash) w) /\
    (forall (s : S) rest, ready s -> content s = ser (IncrementalMerkleTreeF Depth sizeof_Optional) t ++ rest ->
       exists s', unser (IncrementalMerkleTreeF Depth sizeof_Optional) s = Ok (t, s') /\ ready s' /\ content s' = rest) /\
    (forall (s : S) rest, ready s -> content s = ser (IncrementalWitnessF Depth sizeof_Optional sizeof_Hash) w ++ rest ->
       exists w' s', unser (IncrementalWitnessF Depth sizeof_Optional sizeof_Hash) s = Ok (w', s') /\ ready s' /\ content s' = rest /\
         (cursor w <> None -> w' = w) /\
         forall m2, (length (l ++ m ++ m2) <= 2 ^ Depth)%nat ->
           exists w2, witness_append_all Depth m2 w' = Ok w2 /\ witness_root Depth w2 = Ok (node Depth (l ++ m ++ m2))) /\
    (l <> [] -> exists hs p, witness_path Depth w = Ok p /\
       MerklePath_Serialize sizeof_vector p = Ok (ser (VectorFormatter sizeof_vector charsF) hs ++ ser uint64F (Z.of_nat (length l) - 1)) /\
       forall (s : S) rest, ready s -> content s = ser (VectorFormatter sizeof_vector charsF) hs ++ ser uint64F (Z.of_nat (length l) - 1) ++ rest ->
         exists s', MerklePath_Unserialize sizeof_vector {| authentication_path := []; index := [] |} s = Ok (p, s') /\ ready s' /\ content s' = rest) /\
    (forall (s : S) r, ready s -> unser (IncrementalMerkleTreeF Depth sizeof_Optional) s = r ->
       match r with Ok (t', _) => wfcheck Depth t' = Ok tt | Throw e => e <> OutOfFuel end).
Proof.
  intros Hl Hb. destruct (witness_after l m Hl) as (t & w & Et & Ht & Ew & Hw & Htw). exists t, w. pose proof Hw as (_ & Hp & _). rewrite Htw in Hp.
  pose proof (proj1 (Forall_app _ _ _) Hb) as [Hbl Hbm].
  pose proof (tree_of_ok Depth t l ltac:(unfold MAX_SIZE; lia) Hbl Ht Hp) as Hok.
  pose proof (follows_ok Depth w l m ltac:(lia) ltac:(unfold MAX_SIZE; lia) Hb Hw) as Hwok.
  destruct (refreshed_follows Depth w l m ltac:(lia) Hw) as [Hr Hrw].
  split; [exact Et|]. split; [exact Ew|].
  split; [unfold Tree_Serialize; destruct Hok as (_ & _ & _ & ->); reflexivity|].
  split.
  { unfold Witness_Serialize. destruct Hwok as ((_ & _ & _ & Hwf) & _ & Hcw & _). cbn [refreshed tree cursor] in Hwf, Hcw. rewrite Hwf. cbn [bind].
    destruct (cursor w) as [c|]; [|reflexivity]. destruct Hcw as (_ & _ & _ & ->). reflexivity. }
  split; [intros s rest Hs Hc; exact (Sound_tree Depth sizeof_Optional HO S R L s t rest Hs Hok Hc)|].
  split.
  { intros s rest Hs Hc. destruct (Sound_witness Depth sizeof_Optional sizeof_Hash HO HH S R L s (refreshed w) rest Hs Hwok Hc) as (s' & E' & Hs' & Hc').
    exists (refreshed w), s'. split; [exact E'|]. split; [exact Hs'|]. split; [exact Hc'|]. split; [exact Hrw|]. intros m2 Hm2.
    destruct (witness_append_all_spec m2 (refreshed w) l m Hr Hm2) as (w2 & E2 & Hw2 & _). exists w2. split; [exact E2|].
    apply witness_root_spec; (assumption || lia). }
  split.
  - intros Hne. destruct (rev l) as [|h r] eqn:Er; [destruct Hne; now rewrite <- (rev_involutive l), Er|].
    destruct (path_hashes w l m h r Hl Hb Hw Er) as (hs & index & Ep & Hhs & Hlen & H64 & Hpos). exists hs, (path_with hs index).
    split; [exact Ep|]. rewrite <- Hpos. split; [now apply path_written|]. intros s rest Hs Hc. now apply (path_read sizeof_vector HV hs index S R L).
  - intros s r Hs <-. destruct (unser _ s) as [[t' s']|e] eqn:Eu.
    + now destruct (Safe_tree Depth sizeof_Optional HO S R L s t' s' Hs Eu) as (_ & (_ & _ & _ & Hwf) & _).
    + intros ->. exact (Total_tree Depth sizeof_Optional HO S R L s Hs Eu).
Qed.
End Tree.

(** [SHA256Compress::combine] is the compression function of SHA-256 on the two hashes,
    whatever the buffer of the hasher holds, and each of the 66 constants of its table is the
    root of the empty tree of that height. *)
Theorem empty_root_constants buf :
  length buf = 64%nat ->
  (forall d, (d <= 65)%nat -> @EmptyRoot (SHA256Compress buf) d = Some (node (hash := SHA256Compress buf) d [])) /\
  (forall a b d, blob 32 a -> blob 32 b -> @combine (SHA256Compress buf) a b d = sha256_node a b).
Proof.
  intros Hbuf. split.
  - intros d Hd. now apply (EmptyRoot_node (hash := SHA256Compress buf) 65 (E := sha256_roots buf Hbuf 65 (le_n _))).
  - intros a b d [Ha La] [Hb Lb]. cbn [combine SHA256Compress]. rewrite SHA256Compress_transformed by assumption. now apply transformed_node.
Qed.

(** ** Witnesses *)

Definition sha : HashClass := SHA256Compress (repeat 0 64).
Definition leaf_of (k : Z) : Hash := k :: repeat 0 31.
#[local] Instance sha_roots : @EmptyRoots sha INCREMENTAL_MERKLE_TREE_DEPTH_TESTING.
Proof. apply sha256_roots; [reflexivity | unfold INCREMENTAL_MERKLE_TREE_DEPTH_TESTING; lia]. Qed.
#[local] Instance sha_blobs : @Blobs sha.
Proof. now apply sha256_blobs. Qed.

Lemma leaves_blobs : Forall (blob 32) (map leaf_of [1; 2; 3; 4; 5]).
Proof. repeat (apply Forall_cons; [split; [apply words_check; reflexivity | reflexivity]|]). constructor. Qed.

Lemma commitment_tree_witness :
  exists t, append_all (hash := sha) 4 (map leaf_of [1; 2; 3]) IncrementalMerkleTree_new = Ok t /\
    root (hash := sha) 4 t = Ok (node (hash := sha) 4 (map leaf_of [1; 2; 3])) /\ size t = 3.
Proof.
  destruct (proj1 (commitment_tree (hash := sha) INCREMENTAL_MERKLE_TREE_DEPTH_TESTING (E := sha_roots)
    ltac:(unfold INCREMENTAL_MERKLE_TREE_DEPTH_TESTING; lia) (map leaf_of [1; 2; 3])) ltac:(cbn; lia)) as (t & H1 & H2 & _ & _ & H5 & _).
  exists t. split; [exact H1|]. split; [exact H2 | exact H5].
Defined.

Lemma commitment_witness_witness :
  exists t w, append_all (hash := sha) 4 (map leaf_of [1; 2; 3]) IncrementalMerkleTree_new = Ok t /\
    witness_append_all (hash := sha) 4 (map leaf_of [4; 5]) (witness t) = Ok w /\ element w = Ok (leaf_of 3) /\ position w = 2 /\
    witness_root (hash := sha) 4 w = Ok (node (hash := sha) 4 (map leaf_of [1; 2; 3; 4; 5])).
Proof.
  destruct (commitment_witness (hash := sha) INCREMENTAL_MERKLE_TREE_DEPTH_TESTING (E := sha_roots)
    ltac:(unfold INCREMENTAL_MERKLE_TREE_DEPTH_TESTING; lia) (map leaf_of [1; 2; 3]) (map leaf_of [4; 5]) ltac:(cbn; lia))
    as (t & t' & w & H1 & _ & H3 & H4 & _ & _ & H7 & H8 & _).
  exists t, w. split; [exact H1|]. split; [exact H3|]. split; [exact H7|]. split; [exact (H8 ltac:(cbn; lia)) | exact H4].
Defined.

Lemma commitment_codec_witness :
  exists t, append_all (hash := sha) 4 (map leaf_of [1; 2; 3]) IncrementalMerkleTree_new = Ok t /\
    Tree_Serialize 4 33 t = Ok (ser (IncrementalMerkleTreeF 4 33) t) /\
    forall (s : CDataStream.stream) rest, valid s -> CDataStream.str s = ser (IncrementalMerkleTreeF 4 33) t ++ rest ->
      exists s', unser (IncrementalMerkleTreeF 4 33) s = Ok (t, s') /\ CDataStream.str s' = rest.
Proof.
  destruct (commitment_codec (hash := sha) INCREMENTAL_MERKLE_TREE_DEPTH_TESTING (E := sha_roots)
    ltac:(unfold INCREMENTAL_MERKLE_TREE_DEPTH_TESTING; lia) 33 32 24 (B := sha_blobs) ltac:(unfold MAX_VECTOR_ALLOCATE; lia)
    ltac:(unfold MAX_VECTOR_ALLOCATE; lia) ltac:(unfold MAX_VECTOR_ALLOCATE; lia) (L := stream_laws) (map leaf_of [1; 2; 3]) (map leaf_of [4; 5])
    ltac:(cbn; lia) leaves_blobs) as (t & w & H1 & _ & H3 & _ & H5 & _).
  exists t. split; [exact H1|]. split; [exact H3|]. intros s rest Hs Hc. destruct (H5 s rest Hs Hc) as (s' & E' & _ & Hc'). now exists s'.
Defined.

Lemma empty_root_constants_witness :
  @EmptyRoot sha 2 = Some (node (hash := sha) 2 []) /\ @combine sha (leaf_of 1) (leaf_of 2) 0 = sha256_node (leaf_of 1) (leaf_of 2).
Proof.
  destruct (empty_root_constants (repeat 0 64) eq_refl) as [H1 H2]. split; [apply H1; lia|]. apply H2; split; try reflexivity; apply words_check; reflexivity.
Defined.

(** ** Behaviour at the edges *)

(** The table of [PedersenHash] has no roots for the heights 63 and 64. *)
Example pedersen_table_ends :
  nth_error pedersen_empty_roots 63 = Some Merkle.null256 /\ nth_error pedersen_empty_roots 64 = Some Merkle.null256 /\
  nth_error pedersen_empty_roots 65 = None.
Proof. repeat split; reflexivity. Qed.

(** A full tree of height 32, read from a stream, has a [size] of 0 instead of 2^32. *)
Example full_size :
  let t := {| left := Some []; right := Some []; parents := repeat (Some []) 31 |} in wfcheck 32 t = Ok tt /\ size t = 0.
Proof. vm_compute. split; reflexivity. Qed.

(** A new witness of a tree of two leaves is not the same after it was written and read: the
    depth of the cursor that it does not have is another one. *)
Example other_cursor_depth :
  let t := {| left := Some []; right := Some []; parents := [] |} in cursor_depth (witness t) = 0%nat /\ cursor_depth (refreshed (witness t)) = 1%nat.
Proof. split; reflexivity. Qed.
