(* ===== verification/Script.v ===== *)
(** script/script.h, script/script.cpp and script/standard.cpp: scripts as byte strings, their
    operations, the numbers of the script language, and the standard forms of scripts. *)
From Stdlib Require Import ZifyNat.
From S2P Require Import Prelude CryptoCommon HashClasses.
Import CryptoCommon.

Module Script.

(** A [CScript], and a [valtype]. *)
Abbreviation script := (list Z).
Abbreviation valtype := (list Z).

(** ** Opcodes *)

Definition OP_0 : Z := 0x00.
Definition OP_FALSE : Z := OP_0.
Definition OP_PUSHDATA1 : Z := 0x4c.
Definition OP_PUSHDATA2 : Z := 0x4d.
Definition OP_PUSHDATA4 : Z := 0x4e.
Definition OP_1NEGATE : Z := 0x4f.
Definition OP_RESERVED : Z := 0x50.
Definition OP_1 : Z := 0x51.
Definition OP_TRUE : Z := OP_1.
Definition OP_2 : Z := 0x52.
Definition OP_3 : Z := 0x53.
Definition OP_4 : Z := 0x54.
Definition OP_5 : Z := 0x55.
Definition OP_6 : Z := 0x56.
Definition OP_7 : Z := 0x57.
Definition OP_8 : Z := 0x58.
Definition OP_9 : Z := 0x59.
Definition OP_10 : Z := 0x5a.
Definition OP_11 : Z := 0x5b.
Definition OP_12 : Z := 0x5c.
Definition OP_13 : Z := 0x5d.
Definition OP_14 : Z := 0x5e.
Definition OP_15 : Z := 0x5f.
Definition OP_16 : Z := 0x60.
Definition OP_NOP : Z := 0x61.
Definition OP_VER : Z := 0x62.
Definition OP_IF : Z := 0x63.
Definition OP_NOTIF : Z := 0x64.
Definition OP_VERIF : Z := 0x65.
Definition OP_VERNOTIF : Z := 0x66.
Definition OP_ELSE : Z := 0x67.
Definition OP_ENDIF : Z := 0x68.
Definition OP_VERIFY : Z := 0x69.
Definition OP_RETURN : Z := 0x6a.
Definition OP_TOALTSTACK : Z := 0x6b.
Definition OP_FROMALTSTACK : Z := 0x6c.
Definition OP_2DROP : Z := 0x6d.
Definition OP_2DUP : Z := 0x6e.
Definition OP_3DUP : Z := 0x6f.
Definition OP_2OVER : Z := 0x70.
Definition OP_2ROT : Z := 0x71.
Definition OP_2SWAP : Z := 0x72.
Definition OP_IFDUP : Z := 0x73.
Definition OP_DEPTH : Z := 0x74.
Definition OP_DROP : Z := 0x75.
Definition OP_DUP : Z := 0x76.
Definition OP_NIP : Z := 0x77.
Definition OP_OVER : Z := 0x78.
Definition OP_PICK : Z := 0x79.
Definition OP_ROLL : Z := 0x7a.
Definition OP_ROT : Z := 0x7b.
Definition OP_SWAP : Z := 0x7c.
Definition OP_TUCK : Z := 0x7d.
Definition OP_CAT : Z := 0x7e.
Definition OP_SUBSTR : Z := 0x7f.
Definition OP_LEFT : Z := 0x80.
Definition OP_RIGHT : Z := 0x81.
Definition OP_SIZE : Z := 0x82.
Definition OP_INVERT : Z := 0x83.
Definition OP_AND : Z := 0x84.
Definition OP_OR : Z := 0x85.
Definition OP_XOR : Z := 0x86.
Definition OP_EQUAL : Z := 0x87.
Definition OP_EQUALVERIFY : Z := 0x88.
Definition OP_RESERVED1 : Z := 0x89.
Definition OP_RESERVED2 : Z := 0x8a.
Definition OP_1ADD : Z := 0x8b.
Definition OP_1SUB : Z := 0x8c.
Definition OP_2MUL : Z := 0x8d.
Definition OP_2DIV : Z := 0x8e.
Definition OP_NEGATE : Z := 0x8f.
Definition OP_ABS : Z := 0x90.
Definition OP_NOT : Z := 0x91.
Definition OP_0NOTEQUAL : Z := 0x92.
Definition OP_ADD : Z := 0x93.
Definition OP_SUB : Z := 0x94.
Definition OP_MUL : Z := 0x95.
Definition OP_DIV : Z := 0x96.
Definition OP_MOD : Z := 0x97.
Definition OP_LSHIFT : Z := 0x98.
Definition OP_RSHIFT : Z := 0x99.
Definition OP_BOOLAND : Z := 0x9a.
Definition OP_BOOLOR : Z := 0x9b.
Definition OP_NUMEQUAL : Z := 0x9c.
Definition OP_NUMEQUALVERIFY : Z := 0x9d.
Definition OP_NUPNOTEQUAL : Z := 0x9e.
Definition OP_LESSTHAN : Z := 0x9f.
Definition OP_GREATERTHAN : Z := 0xa0.
Definition OP_LESSTHANOREQUAL : Z := 0xa1.
Definition OP_GREATERTHANOREQUAL : Z := 0xa2.
Definition OP_MIN : Z := 0xa3.
Definition OP_MAX : Z := 0xa4.
Definition OP_WITHIN : Z := 0xa5.
Definition OP_RIPEMD160 : Z := 0xa6.
Definition OP_SHA1 : Z := 0xa7.
Definition OP_SHA256 : Z := 0xa8.
Definition OP_HASH160 : Z := 0xa9.
Definition OP_HASH256 : Z := 0xaa.
Definition OP_CODESEPARATOR : Z := 0xab.
Definition OP_CHECKSIG : Z := 0xac.
Definition OP_CHECKSIGVERIFY : Z := 0xad.
Definition OP_CHECKMULTISIG : Z := 0xae.
Definition OP_CHECKMULTISIGVERIFY : Z := 0xaf.
Definition OP_NOP1 : Z := 0xb0.
Definition OP_NOP2 : Z := 0xb1.
Definition OP_CHECKLOCKTIMEVERIFY : Z := OP_NOP2.
Definition OP_NOP3 : Z := 0xb2.
Definition OP_NOP4 : Z := 0xb3.
Definition OP_NOP5 : Z := 0xb4.
Definition OP_NOP6 : Z := 0xb5.
Definition OP_NOP7 : Z := 0xb6.
Definition OP_NOP8 : Z := 0xb7.
Definition OP_NOP9 : Z := 0xb8.
Definition OP_NOP10 : Z := 0xb9.
Definition OP_ZEROCOINMINT : Z := 0xc1.
Definition OP_ZEROCOINSPEND : Z := 0xc2.
Definition OP_ZEROCOINPUBLICSPEND : Z := 0xc3.
Definition OP_CHECKCOLDSTAKEVERIFY_LOF : Z := 0xd1.
Definition OP_CHECKCOLDSTAKEVERIFY : Z := 0xd2.
Definition OP_INVALIDOPCODE : Z := 0xff.

Definition MAX_SCRIPT_ELEMENT_SIZE : Z := 520.
Definition MAX_PUBKEYS_PER_MULTISIG : Z := 20.
Definition MAX_SCRIPT_SIZE : Z := 10000.
Definition LOCKTIME_THRESHOLD : Z := 500000000.

(** * Numbers *)

(** The exception and the assertions of [CScriptNum]. *)
Inductive number_result (A : Type) :=
| Number (a : A)
| scriptnum_error
| NumberAssertion.
Arguments Number {A} a.
Arguments scriptnum_error {A}.
Arguments NumberAssertion {A}.

Definition back (vch : valtype) : Z := last vch 0.

(** [set_vch], for at most 8 bytes: C++ does not define the shifts by more. *)
Definition set_vch (vch : valtype) : Z :=
  match vch with
  | [] => 0
  | _ =>
      let result := fold_left (fun result i => result |: Z.shiftl vch.[i] (8 * Z.of_nat i)) (seq 0 (length vch)) 0 in
      if negb (back vch &: 0x80 =? 0) then - (result &: Z.lnot (Z.shiftl 0x80 (8 * Z.of_nat (length vch - 1))))
      else result
  end.

Definition nDefaultMaxNumSize : nat := 4.

(** [CScriptNum(vch, fRequireMinimal, nMaxNumSize)]: the member [m_value]. *)
Definition CScriptNum_of (vch : valtype) (fRequireMinimal : bool) (nMaxNumSize : nat) : number_result Z :=
  if (nMaxNumSize <? length vch)%nat then scriptnum_error
  else if fRequireMinimal && (0 <? length vch)%nat && (back vch &: 0x7f =? 0) &&
          ((length vch <=? 1)%nat || (vch.[length vch - 2] &: 0x80 =? 0)) then scriptnum_error
  else Number (set_vch vch).

(** The bytes of [absvalue], which has at most 8. *)
Fixpoint serialize_loop (fuel : nat) (absvalue : Z) : list Z :=
  match fuel with
  | O => []
  | S fuel => if absvalue =? 0 then [] else (absvalue &: 0xff) :: serialize_loop fuel (Z.shiftr absvalue 8)
  end.

Definition serialize (value : Z) : valtype :=
  if value =? 0 then []
  else
    let neg := value <? 0 in
    let absvalue := if neg then w64 (w64 (Z.lnot (w64 value)) + 1) else w64 value in
    let result := serialize_loop 8 absvalue in
    if negb (back result &: 0x80 =? 0) then result ++ [if neg then 0x80 else 0]
    else if neg then result.[length result - 1 := back result |: 0x80]
    else result.

Definition INT64_MAX : Z := 2 ^ 63 - 1.
Definition INT64_MIN : Z := - 2 ^ 63.
Definition INT_MAX : Z := 2 ^ 31 - 1.
Definition INT_MIN : Z := - 2 ^ 31.

(** [operator+=], [operator-=] and the unary [operator-], with their assertions. *)
Definition num_add_assign (m_value rhs : Z) : number_result Z :=
  if (rhs =? 0) || ((rhs >? 0) && (m_value <=? INT64_MAX - rhs)) || ((rhs <? 0) && (m_value >=? INT64_MIN - rhs))
  then Number (m_value + rhs) else NumberAssertion.
Definition num_sub_assign (m_value rhs : Z) : number_result Z :=
  if (rhs =? 0) || ((rhs >? 0) && (m_value >=? INT64_MIN + rhs)) || ((rhs <? 0) && (m_value <=? INT64_MAX + rhs))
  then Number (m_value - rhs) else NumberAssertion.
Definition num_opp (m_value : Z) : number_result Z := if m_value =? INT64_MIN then NumberAssertion else Number (- m_value).

Definition getint (m_value : Z) : Z := if m_value >? INT_MAX then INT_MAX else if m_value <? INT_MIN then INT_MIN else m_value.

(** * Writing scripts *)

Definition push_opcode (s : script) (opcode : Z) : script := s ++ [opcode].

(** [operator<<] of a vector. *)
Definition push_data (s : script) (b : valtype) : script :=
  let size := Z.of_nat (length b) in
  let s :=
    if size <? OP_PUSHDATA1 then s ++ [size mod 2 ^ 8]
    else if size <=? 0xff then s ++ [OP_PUSHDATA1] ++ [size mod 2 ^ 8]
    else if size <=? 0xffff then s ++ [OP_PUSHDATA2] ++ WriteLE16 (size mod 2 ^ 16)
    else s ++ [OP_PUSHDATA4] ++ WriteLE32 (w32 size) in
  s ++ b.

Definition push_int64 (s : script) (n : Z) : script :=
  if (n =? -1) || ((n >=? 1) && (n <=? 16)) then s ++ [(n + (OP_1 - 1)) mod 2 ^ 8]
  else if n =? 0 then s ++ [OP_0]
  else push_data s (serialize n).

(** [assert] failed: [None]. *)
Definition DecodeOP_N (opcode : Z) : option Z :=
  if opcode =? OP_0 then Some 0
  else if (OP_1 <=? opcode) && (opcode <=? OP_16) then Some (opcode - (OP_1 - 1)) else None.
Definition EncodeOP_N (n : Z) : option Z :=
  if negb ((n >=? 0) && (n <=? 16)) then None else if n =? 0 then Some OP_0 else Some (OP_1 + n - 1).

(** * Reading scripts *)

(** [GetOp2]: what it returns, [pc], [opcodeRet] and [*pvchRet]. A position is its distance
    from [begin()]. *)
Definition GetOp (s : script) (pc : nat) : bool * nat * Z * valtype :=
  if (length s <=? pc)%nat then (false, pc, OP_INVALIDOPCODE, [])
  else
    let opcode := s.[pc] in
    let pc := S pc in
    if opcode <=? OP_PUSHDATA4 then
      let '(enough, nSize, pc) :=
        if opcode <? OP_PUSHDATA1 then (true, opcode, pc)
        else if opcode =? OP_PUSHDATA1 then
          if (length s - pc <? 1)%nat then (false, 0, pc) else (true, s.[pc], (pc + 1)%nat)
        else if opcode =? OP_PUSHDATA2 then
          if (length s - pc <? 2)%nat then (false, 0, pc) else (true, ReadLE16 (skipn pc s), (pc + 2)%nat)
        else
          if (length s - pc <? 4)%nat then (false, 0, pc) else (true, ReadLE32 (skipn pc s), (pc + 4)%nat) in
      if negb enough then (false, pc, OP_INVALIDOPCODE, [])
      else if w32 (Z.of_nat (length s - pc)) <? nSize then (false, pc, OP_INVALIDOPCODE, [])
      else (true, (pc + Z.to_nat nSize)%nat, opcode, firstn (Z.to_nat nSize) (skipn pc s))
    else (true, pc, opcode, []).

(** Every turn of the loops below moves [pc] forward; [None] when [fuel] turns are not
    enough. *)
Fixpoint IsPushOnly_loop (fuel : nat) (s : script) (pc : nat) : option bool :=
  match fuel with
  | O => None
  | S fuel =>
      if (pc <? length s)%nat then
        let '(read, pc, opcode, _) := GetOp s pc in
        if negb read then Some false
        else if opcode >? OP_16 then Some false
        else IsPushOnly_loop fuel s pc
      else Some true
  end.
Definition IsPushOnly_from (s : script) (pc : nat) : option bool := IsPushOnly_loop (S (length s)) s pc.
Definition IsPushOnly (s : script) : option bool := IsPushOnly_from s 0.

Fixpoint GetSigOpCount_loop (fuel : nat) (s : script) (fAccurate : bool) (pc : nat) (lastOpcode n : Z) : option Z :=
  match fuel with
  | O => None
  | S fuel =>
      if (pc <? length s)%nat then
        let '(read, pc, opcode, _) := GetOp s pc in
        if negb read then Some n
        else
          let n :=
            if (opcode =? OP_CHECKSIG) || (opcode =? OP_CHECKSIGVERIFY) then w32 (n + 1)
            else if (opcode =? OP_CHECKMULTISIG) || (opcode =? OP_CHECKMULTISIGVERIFY) then
              if fAccurate && (OP_1 <=? lastOpcode) && (lastOpcode <=? OP_16) then
                match DecodeOP_N lastOpcode with Some k => w32 (n + k) | None => n end
              else w32 (n + MAX_PUBKEYS_PER_MULTISIG)
            else n in
          GetSigOpCount_loop fuel s fAccurate pc opcode n
      else Some n
  end.
Definition GetSigOpCount (s : script) (fAccurate : bool) : option Z :=
  GetSigOpCount_loop (S (length s)) s fAccurate 0 OP_INVALIDOPCODE 0.

(** [Find]. *)
Fixpoint Find_loop (fuel : nat) (s : script) (op : Z) (pc : nat) (nFound : Z) : option Z :=
  match fuel with
  | O => None
  | S fuel =>
      if negb (pc =? length s)%nat then
        let '(read, pc, opcode, _) := GetOp s pc in
        if negb read then Some nFound
        else Find_loop fuel s op pc (if opcode =? op then nFound + 1 else nFound)
      else Some nFound
  end.
Definition Find (s : script) (op : Z) : option Z := Find_loop (S (length s)) s op 0 0.

(** ** FindAndDelete *)

(** [std::equal(b.begin(), b.end(), pc)]. *)
Fixpoint equal (b s : list Z) : bool :=
  match b, s with
  | [], _ => true
  | x :: b, y :: s => (x =? y) && equal b s
  | _ :: _, [] => false
  end.

(** The inner loop: [pc] and [nFound] after it. *)
Fixpoint skip_equal (fuel : nat) (s b : script) (pc : nat) (nFound : Z) : option (nat * Z) :=
  match fuel with
  | O => None
  | S fuel =>
      if (length b <=? length s - pc)%nat && equal b (skipn pc s) then skip_equal fuel s b (pc + length b)%nat (nFound + 1)
      else Some (pc, nFound)
  end.

(** [do ... while (GetOp(pc, opcode))]: [result], [pc2] and [nFound]. *)
Fixpoint FindAndDelete_loop (fuel : nat) (s b : script) (pc pc2 : nat) (result : script) (nFound : Z) : option (script * nat * Z) :=
  match fuel with
  | O => None
  | S fuel =>
      let result := result ++ firstn (pc - pc2) (skipn pc2 s) in
      match skip_equal (S (length s)) s b pc nFound with
      | None => None
      | Some (pc, nFound) =>
          let pc2 := pc in
          let '(read, pc, _, _) := GetOp s pc in
          if read then FindAndDelete_loop fuel s b pc pc2 result nFound else Some (result, pc2, nFound)
      end
  end.

(** The script after it and the number that it returns. *)
Definition FindAndDelete (s b : script) : option (script * Z) :=
  if (length b =? 0)%nat then Some (s, 0)
  else
    match FindAndDelete_loop (S (length s)) s b 0 0 [] 0 with
    | None => None
    | Some (result, pc2, nFound) => if nFound >? 0 then Some (result ++ skipn pc2 s, nFound) else Some (s, nFound)
    end.

(** ** Forms of scripts *)

Definition IsPayToPublicKeyHash (s : script) : bool :=
  (length s =? 25)%nat && (s.[0] =? OP_DUP) && (s.[1] =? OP_HASH160) && (s.[2] =? 0x14) &&
  (s.[23] =? OP_EQUALVERIFY) && (s.[24] =? OP_CHECKSIG).
Definition IsPayToScriptHash (s : script) : bool :=
  (length s =? 23)%nat && (s.[0] =? OP_HASH160) && (s.[1] =? 0x14) && (s.[22] =? OP_EQUAL).
Definition IsPayToColdStaking (s : script) : bool :=
  (length s =? 51)%nat && (s.[0] =? OP_DUP) && (s.[1] =? OP_HASH160) && (s.[2] =? OP_ROT) && (s.[3] =? OP_IF) &&
  ((s.[4] =? OP_CHECKCOLDSTAKEVERIFY) || (s.[4] =? OP_CHECKCOLDSTAKEVERIFY_LOF)) && (s.[5] =? 0x14) && (s.[26] =? OP_ELSE) &&
  (s.[27] =? 0x14) && (s.[48] =? OP_ENDIF) && (s.[49] =? OP_EQUALVERIFY) && (s.[50] =? OP_CHECKSIG).
Definition IsPayToColdStakingLOF (s : script) : bool := IsPayToColdStaking s && (s.[4] =? OP_CHECKCOLDSTAKEVERIFY_LOF).
Definition StartsWithOpcode (s : script) (opcode : Z) : bool := negb (length s =? 0)%nat && (s.[0] =? opcode).
Definition IsZerocoinMint (s : script) : bool := StartsWithOpcode s OP_ZEROCOINMINT.
Definition IsZerocoinSpend (s : script) : bool := StartsWithOpcode s OP_ZEROCOINSPEND.
Definition IsZerocoinPublicSpend (s : script) : bool := StartsWithOpcode s OP_ZEROCOINPUBLICSPEND.
Definition IsUnspendable (s : script) : bool :=
  ((0 <? length s)%nat && (s.[0] =? OP_RETURN)) || (Z.of_nat (length s) >? MAX_SCRIPT_SIZE).

(** [GetSigOpCount(scriptSig)] of a [scriptPubKey]: the last item that [scriptSig] pushes. *)
Fixpoint last_push_loop (fuel : nat) (scriptSig : script) (pc : nat) (data : valtype) : option (option valtype) :=
  match fuel with
  | O => None
  | S fuel =>
      if (pc <? length scriptSig)%nat then
        let '(read, pc, opcode, data) := GetOp scriptSig pc in
        if negb read then Some None
        else if opcode >? OP_16 then Some None
        else last_push_loop fuel scriptSig pc data
      else Some (Some data)
  end.
Definition GetSigOpCount_P2SH (s scriptSig : script) : option Z :=
  if negb (IsPayToScriptHash s) then GetSigOpCount s true
  else
    match last_push_loop (S (length scriptSig)) scriptSig 0 [] with
    | None => None
    | Some None => Some 0
    | Some (Some data) => GetSigOpCount data true
    end.

(** * Standard scripts *)

Definition PUBLIC_KEY_SIZE : Z := 65.
Definition COMPRESSED_PUBLIC_KEY_SIZE : Z := 33.
Definition GetLen (chHeader : Z) : Z :=
  if (chHeader =? 2) || (chHeader =? 3) then COMPRESSED_PUBLIC_KEY_SIZE
  else if (chHeader =? 4) || (chHeader =? 6) || (chHeader =? 7) then PUBLIC_KEY_SIZE
  else 0.
Definition ValidSize (vch : valtype) : bool := (0 <? length vch)%nat && (GetLen vch.[0] =? Z.of_nat (length vch)).

(** The bytes from [begin()] to [end()] of the [CPubKey] that is made of [vch]. *)
Definition CPubKey_of (vch : valtype) : valtype := if ValidSize vch then vch else [].
Definition CPubKey_IsValid (key : valtype) : bool := (0 <? length key)%nat.

Inductive txnouttype := TX_NONSTANDARD | TX_PUBKEY | TX_PUBKEYHASH | TX_SCRIPTHASH | TX_MULTISIG | TX_NULL_DATA | TX_COLDSTAKE.
Inductive CTxDestination := CNoDestination | CKeyID (h : list Z) | CScriptID (h : list Z).

(** The bytes [from, to) of a script. *)
Definition range (s : script) (from to : nat) : valtype := firstn (to - from) (skipn from s).

Definition MatchPayToPubkey (s : script) : option valtype :=
  if (Z.of_nat (length s) =? PUBLIC_KEY_SIZE + 2) && (s.[0] =? PUBLIC_KEY_SIZE) && (back s =? OP_CHECKSIG) then
    let pubkey := range s 1 66 in if ValidSize pubkey then Some pubkey else None
  else if (Z.of_nat (length s) =? COMPRESSED_PUBLIC_KEY_SIZE + 2) && (s.[0] =? COMPRESSED_PUBLIC_KEY_SIZE) && (back s =? OP_CHECKSIG) then
    let pubkey := range s 1 34 in if ValidSize pubkey then Some pubkey else None
  else None.
Definition MatchPayToPubkeyHash (s : script) : option valtype :=
  if (length s =? 25)%nat && (s.[0] =? OP_DUP) && (s.[1] =? OP_HASH160) && (s.[2] =? 20) && (s.[23] =? OP_EQUALVERIFY) && (s.[24] =? OP_CHECKSIG)
  then Some (range s 3 23) else None.
Definition MatchPayToColdStaking (s : script) : option (valtype * valtype) :=
  if IsPayToColdStaking s then Some (range s 6 26, range s 28 48) else None.

Definition IsSmallInteger (opcode : Z) : bool := (opcode >=? OP_1) && (opcode <=? OP_16).

(** The loop of [MatchMultisig]: [it], [opcode] and [pubkeys] after it. *)
Fixpoint multisig_keys (fuel : nat) (s : script) (it : nat) (pubkeys : list valtype) : option (nat * Z * list valtype) :=
  match fuel with
  | O => None
  | S fuel =>
      let '(read, it, opcode, data) := GetOp s it in
      if read && ValidSize data then multisig_keys fuel s it (pubkeys ++ [data]) else Some (it, opcode, pubkeys)
  end.

(** [Some None] when it returns [false]. *)
Definition MatchMultisig (s : script) : option (option (Z * list valtype)) :=
  if (length s <? 1)%nat || negb (back s =? OP_CHECKMULTISIG) then Some None
  else
    let '(read, it, opcode, _) := GetOp s 0 in
    if negb read || negb (IsSmallInteger opcode) then Some None
    else
      match DecodeOP_N opcode, multisig_keys (S (length s)) s it [] with
      | Some required, Some (it, opcode, pubkeys) =>
          if negb (IsSmallInteger opcode) then Some None
          else
            match DecodeOP_N opcode with
            | Some keys =>
                if negb (Z.of_nat (length pubkeys) =? keys) || (keys <? required) then Some None
                else if (it + 1 =? length s)%nat then Some (Some (required, pubkeys)) else Some None
            | None => None
            end
      | _, _ => None
      end.

(** What [Solver] returns, [typeRet] when it sets it, and [vSolutionsRet]; [None] when a loop
    ran out of fuel or an assertion failed. *)
Definition Solver (scriptPubKey : script) : option (bool * option txnouttype * list valtype) :=
  if (length scriptPubKey =? 0)%nat then Some (false, None, [])
  else if IsPayToScriptHash scriptPubKey then Some (true, Some TX_SCRIPTHASH, [range scriptPubKey 2 22])
  else
    match IsPushOnly_from scriptPubKey 1 with
    | None => None
    | Some pushes =>
        if (1 <=? length scriptPubKey)%nat && (scriptPubKey.[0] =? OP_RETURN) && pushes then Some (true, Some TX_NULL_DATA, [])
        else
          match MatchPayToPubkey scriptPubKey with
          | Some data => Some (true, Some TX_PUBKEY, [data])
          | None =>
              match MatchPayToPubkeyHash scriptPubKey with
              | Some data => Some (true, Some TX_PUBKEYHASH, [data])
              | None =>
                  match MatchPayToColdStaking scriptPubKey with
                  | Some (data, data1) => Some (true, Some TX_COLDSTAKE, [data; data1])
                  | None =>
                      match MatchMultisig scriptPubKey with
                      | None => None
                      | Some (Some (required, keys)) =>
                          Some (true, Some TX_MULTISIG, [[required mod 2 ^ 8]] ++ keys ++ [[Z.of_nat (length keys) mod 2 ^ 8]])
                      | Some None => Some (false, Some TX_NONSTANDARD, [])
                      end
                  end
              end
          end
    end.

Definition ScriptSigArgsExpected (t : txnouttype) (vSolutions : list valtype) : Z :=
  match t with
  | TX_NONSTANDARD | TX_NULL_DATA => -1
  | TX_PUBKEY => 1
  | TX_PUBKEYHASH => 2
  | TX_COLDSTAKE => 3
  | TX_MULTISIG =>
      if (length vSolutions <? 1)%nat || (length (nth 0 vSolutions []) <? 1)%nat then -1 else (nth 0 vSolutions []).[0] + 1
  | TX_SCRIPTHASH => 1
  end.

Section Destinations.
(** The buffers of the hashers of [Hash160]. *)
Context (buf local : list Z).

Definition GetID (key : valtype) : list Z := Hash160 buf local key.

(** [addressRet] when it returns [true]; [None] as in [Solver]. *)
Definition ExtractDestination (scriptPubKey : script) (fColdStake : bool) : option (option CTxDestination) :=
  match Solver scriptPubKey with
  | None => None
  | Some (false, _, _) => Some None
  | Some (true, whichType, vSolutions) =>
      match whichType with
      | Some TX_PUBKEY =>
          let pubKey := CPubKey_of (nth 0 vSolutions []) in
          if negb (CPubKey_IsValid pubKey) then Some None else Some (Some (CKeyID (GetID pubKey)))
      | Some TX_PUBKEYHASH => Some (Some (CKeyID (nth 0 vSolutions [])))
      | Some TX_SCRIPTHASH => Some (Some (CScriptID (nth 0 vSolutions [])))
      | Some TX_COLDSTAKE => Some (Some (CKeyID (nth (if fColdStake then 0 else 1) vSolutions [])))
      | _ => Some None
      end
  end.

(** The loop over the keys of a multisig: [addressRet] after it. *)
Definition key_addresses (keys : list valtype) : list CTxDestination :=
  flat_map (fun key => let pubKey := CPubKey_of key in if negb (CPubKey_IsValid pubKey) then [] else [CKeyID (GetID pubKey)]) keys.

(** [typeRet], [addressRet] and [nRequiredRet] when it returns [true]. *)
Definition ExtractDestinations (scriptPubKey : script) : option (option (txnouttype * list CTxDestination * Z)) :=
  match Solver scriptPubKey with
  | None => None
  | Some (true, Some TX_MULTISIG, vSolutions) =>
      let addressRet := key_addresses (firstn (length vSolutions - 2) (skipn 1 vSolutions)) in
      if (length addressRet =? 0)%nat then Some None else Some (Some (TX_MULTISIG, addressRet, (nth 0 vSolutions []).[0]))
  | Some (true, Some TX_COLDSTAKE, vSolutions) =>
      if (length vSolutions <? 2)%nat then Some None
      else Some (Some (TX_COLDSTAKE, [CKeyID (nth 0 vSolutions []); CKeyID (nth 1 vSolutions [])], 2))
  | Some (true, Some TX_NULL_DATA, _) | Some (false, _, _) | Some (true, None, _) => Some None
  | Some (true, Some typeRet, _) =>
      match ExtractDestination scriptPubKey false with
      | None => None
      | Some None => Some None
      | Some (Some address) => Some (Some (typeRet, [address], 1))
      end
  end.
End Destinations.

Definition GetScriptForDestination (dest : CTxDestination) : script :=
  match dest with
  | CNoDestination => []
  | CKeyID keyID => push_opcode (push_opcode (push_data (push_opcode (push_opcode [] OP_DUP) OP_HASH160) keyID) OP_EQUALVERIFY) OP_CHECKSIG
  | CScriptID scriptID => push_opcode (push_data (push_opcode [] OP_HASH160) scriptID) OP_EQUAL
  end.
Definition GetScriptForRawPubKey (pubKey : valtype) : script := push_opcode (push_data [] pubKey) OP_CHECKSIG.
Definition GetScriptForStakeDelegation (stakingKey spendingKey : list Z) : script :=
  let s := push_opcode (push_opcode (push_opcode [] OP_DUP) OP_HASH160) OP_ROT in
  let s := push_data (push_opcode (push_opcode s OP_IF) OP_CHECKCOLDSTAKEVERIFY) stakingKey in
  let s := push_opcode (push_data (push_opcode s OP_ELSE) spendingKey) OP_ENDIF in
  push_opcode (push_opcode s OP_EQUALVERIFY) OP_CHECKSIG.
Definition GetScriptForStakeDelegationLOF (stakingKey spendingKey : list Z) : script :=
  let s := push_opcode (push_opcode (push_opcode [] OP_DUP) OP_HASH160) OP_ROT in
  let s := push_data (push_opcode (push_opcode s OP_IF) OP_CHECKCOLDSTAKEVERIFY_LOF) stakingKey in
  let s := push_opcode (push_data (push_opcode s OP_ELSE) spendingKey) OP_ENDIF in
  push_opcode (push_opcode s OP_EQUALVERIFY) OP_CHECKSIG.

(** [None] when an assertion fails. *)
Definition GetScriptForMultisig (nRequired : Z) (keys : list valtype) : option script :=
  match EncodeOP_N nRequired, EncodeOP_N (Z.of_nat (length keys)) with
  | Some m, Some n => Some (push_opcode (push_opcode (fold_left push_data keys (push_opcode [] m)) n) OP_CHECKMULTISIG)
  | _, _ => None
  end.
Definition GetScriptForOpReturn (message : list Z) : script := push_data (push_opcode [] OP_RETURN) message.

End Script.

Module ScriptLaws.
Import Script.


(** * Reading *)

(** What follows the opcode [o] of a push, up to its data: its bytes, and the size of the data. *)
Definition push_header (o : Z) (r : script) : option (nat * Z) :=
  if o <? OP_PUSHDATA1 then Some (0%nat, o)
  else if o =? OP_PUSHDATA1 then if (length r <? 1)%nat then None else Some (1%nat, r.[0])
  else if o =? OP_PUSHDATA2 then if (length r <? 2)%nat then None else Some (2%nat, ReadLE16 r)
  else if (length r <? 4)%nat then None else Some (4%nat, ReadLE32 r).

(** [GetOp] at the start of what is left of the script. *)
Definition next (s : script) : bool * nat * Z * valtype :=
  match s with
  | [] => (false, 0%nat, OP_INVALIDOPCODE, [])
  | o :: r =>
      if o <=? OP_PUSHDATA4 then
        match push_header o r with
        | None => (false, 1%nat, OP_INVALIDOPCODE, [])
        | Some (k, n) =>
            if w32 (Z.of_nat (length r - k)) <? n then (false, (1 + k)%nat, OP_INVALIDOPCODE, [])
            else (true, (1 + k + Z.to_nat n)%nat, o, firstn (Z.to_nat n) (skipn k r))
        end
      else (true, 1%nat, o, [])
  end.

Ltac same_pos := match goal with |- (_, ?p, _, _) = (_, ?q, _, _) => replace p with q by lia; reflexivity end.

Lemma GetOp_app a s :
  GetOp (a ++ s) (length a) = let '(read, p, opcode, data) := next s in (read, (length a + p)%nat, opcode, data).
Proof.
  unfold GetOp. rewrite length_app. destruct s as [|o r]; cbn [next length].
  { destruct (Nat.leb_spec (length a + 0) (length a)); [|lia]. now rewrite Nat.add_0_r. }
  destruct (Nat.leb_spec (length a + S (length r)) (length a)); [lia|].
  assert (Eo : (a ++ o :: r).[length a] = o) by (rewrite app_nth2, Nat.sub_diag by lia; reflexivity).
  assert (Es : forall k, skipn (S (length a) + k) (a ++ o :: r) = skipn k r).
  { intros k. rewrite skipn_app, skipn_all2 by lia. replace (S (length a) + k - length a)%nat with (S k) by lia. reflexivity. }
  assert (Er : (a ++ o :: r).[S (length a)] = r.[0]) by (rewrite app_nth2 by lia; now replace (S (length a) - length a)%nat with 1%nat by lia).
  assert (E0 : skipn (S (length a)) (a ++ o :: r) = r) by (etransitivity; [|exact (Es 0%nat)]; f_equal; lia).
  assert (El : forall k, (length a + S (length r) - (S (length a) + k) = length r - k)%nat) by lia.
  rewrite Eo, Er. replace (length a + S (length r) - S (length a))%nat with (length r) by lia. rewrite E0. unfold push_header.
  destruct (o <=? OP_PUSHDATA4); [|same_pos].
  destruct (o <? OP_PUSHDATA1); cbn [negb].
  { replace (length a + S (length r) - S (length a))%nat with (length r) by lia.
    rewrite E0, Nat.sub_0_r, ?skipn_O. destruct (_ <? o); same_pos. }
  destruct (o =? OP_PUSHDATA1); [|destruct (o =? OP_PUSHDATA2)];
    match goal with |- context [(length r <? ?k)%nat] => destruct (length r <? k)%nat end; cbn [negb]; try same_pos;
    rewrite El, Es; match goal with |- context [if ?c then _ else _] => destruct c end; same_pos.
Qed.

Lemma GetOp_next s pc : (pc <= length s)%nat ->
  GetOp s pc = let '(read, p, opcode, data) := next (skipn pc s) in (read, (pc + p)%nat, opcode, data).
Proof.
  intros H. pose proof (GetOp_app (firstn pc s) (skipn pc s)) as E. now rewrite firstn_skipn, length_firstn, Nat.min_l in E by lia.
Qed.

Lemma GetOp_end s pc : (length s <= pc)%nat -> GetOp s pc = (false, pc, OP_INVALIDOPCODE, []).
Proof. intros H. unfold GetOp. now destruct (Nat.leb_spec (length s) pc); [|lia]. Qed.

Lemma next_moves s read p opcode data :
  next s = (read, p, opcode, data) -> s <> [] -> (0 < p <= length s)%nat.
Proof.
  destruct s as [|o r]; [easy|]. intros E _. cbn [next length] in *.
  destruct (o <=? OP_PUSHDATA4); [|injection E as <- <- <- <-; lia].
  destruct (push_header o r) as [[k n]|] eqn:Eh; [|injection E as <- <- <- <-; lia].
  assert (Hk : (k <= length r)%nat).
  { unfold push_header in Eh. destruct (o <? _); [injection Eh as <- <-; lia|].
    destruct (o =? _); [|destruct (o =? _)];
      match type of Eh with context [(length r <? ?k)%nat] => destruct (Nat.ltb_spec (length r) k) end;
      try discriminate; injection Eh as <- <-; lia. }
  destruct (Z.ltb_spec (w32 (Z.of_nat (length r - k))) n) as [|Hn]; injection E as <- <- <- <-; [lia|].
  pose proof (Z.mod_le (Z.of_nat (length r - k)) (2 ^ 32)). unfold w32 in Hn. lia.
Qed.

(** Every instruction ends inside the script, after its opcode. *)
Lemma GetOp_moves s pc read pc' opcode data :
  GetOp s pc = (read, pc', opcode, data) -> (pc < length s)%nat -> (pc < pc' <= length s)%nat.
Proof.
  intros E Hpc. rewrite GetOp_next in E by lia. destruct (next (skipn pc s)) as [[[r p] o] d] eqn:En.
  apply next_moves in En; [rewrite length_skipn in En; injection E as <- <- <- <-; lia|].
  intros H. apply (f_equal (@length Z)) in H. rewrite length_skipn in H. cbn in H. lia.
Qed.

Lemma GetOp_reads s pc pc' opcode data :
  GetOp s pc = (true, pc', opcode, data) -> (pc < pc' <= length s)%nat.
Proof.
  intros E. destruct (Nat.lt_ge_cases pc (length s)); [eauto using GetOp_moves|]. now rewrite GetOp_end in E.
Qed.

(** ** Instructions *)

Definition item : Type := Z * valtype.

(** The instructions of a script, and whether they are all of it. *)
Fixpoint items_loop (fuel : nat) (s : script) : list item * bool :=
  match fuel with
  | O => ([], false)
  | S fuel =>
      match s with
      | [] => ([], true)
      | _ =>
          let '(read, p, opcode, data) := next s in
          if read then let '(l, all) := items_loop fuel (skipn p s) in ((opcode, data) :: l, all) else ([], false)
      end
  end.
Definition items (s : script) : list item * bool := items_loop (S (length s)) s.

Lemma items_loop_fuel f g s : (length s < f)%nat -> (length s < g)%nat -> items_loop f s = items_loop g s.
Proof.
  revert g s; induction f as [|f IH]; intros [|g] s Hf Hg; try lia. cbn [items_loop]. destruct s as [|o r] eqn:Es; [reflexivity|]. rewrite <- Es.
  destruct (next s) as [[[read p] opcode] data] eqn:E. destruct read; [|reflexivity].
  apply next_moves in E; [|now rewrite Es]. rewrite Es in *. cbn [length] in *.
  rewrite (IH g); [reflexivity | rewrite length_skipn; cbn [length]; lia ..].
Qed.

Lemma items_next s : items s =
  match s with
  | [] => ([], true)
  | _ =>
      let '(read, p, opcode, data) := next s in
      if read then let '(l, all) := items (skipn p s) in ((opcode, data) :: l, all) else ([], false)
  end.
Proof.
  destruct s as [|o r] eqn:Es; [reflexivity|]. rewrite <- Es. unfold items at 1. cbn [items_loop].
  destruct s as [|o' r'] eqn:Es'; [discriminate|]. rewrite <- Es'.
  destruct (next s) as [[[read p] opcode] data] eqn:E. destruct read; [|reflexivity].
  apply next_moves in E; [|now rewrite Es'].
  unfold items. rewrite (items_loop_fuel (length s) (S (length (skipn p s)))); [now rewrite Es' | rewrite length_skipn; lia ..].
Qed.

(** A loop over the instructions from [pc]. *)
Lemma items_GetOp s pc : (pc <= length s)%nat ->
  items (skipn pc s) =
  if (pc <? length s)%nat then
    let '(read, pc', opcode, data) := GetOp s pc in
    if read then let '(l, all) := items (skipn pc' s) in ((opcode, data) :: l, all) else ([], false)
  else ([], true).
Proof.
  intros H. rewrite items_next. destruct (Nat.ltb_spec pc (length s)) as [Hlt|Hge].
  - rewrite GetOp_next by lia. destruct (skipn pc s) as [|o r] eqn:Es.
    { apply (f_equal (@length Z)) in Es. rewrite length_skipn in Es. cbn in Es. lia. }
    rewrite <- Es. destruct (next (skipn pc s)) as [[[read p] opcode] data]. rewrite skipn_skipn, (Nat.add_comm p). reflexivity.
  - now rewrite skipn_all2 by lia.
Qed.

Lemma IsPushOnly_loop_items fuel s pc : (pc <= length s)%nat -> (length s - pc < fuel)%nat ->
  IsPushOnly_loop fuel s pc =
  Some (forallb (fun i => negb (fst i >? OP_16)) (fst (items (skipn pc s))) && snd (items (skipn pc s))).
Proof.
  revert pc; induction fuel as [|fuel IH]; intros pc Hpc Hf; [lia|]. cbn [IsPushOnly_loop]. rewrite items_GetOp by lia.
  destruct (Nat.ltb_spec pc (length s)); [|reflexivity].
  destruct (GetOp s pc) as [[[read pc'] opcode] data] eqn:E. destruct read; cbn [negb]; [|reflexivity].
  apply GetOp_reads in E. rewrite IH by lia. destruct (items (skipn pc' s)) as [l all]. cbn [fst snd forallb].
  now destruct (opcode >? OP_16).
Qed.

Lemma Find_loop_items fuel s op pc n : (pc <= length s)%nat -> (length s - pc < fuel)%nat ->
  Find_loop fuel s op pc n = Some (n + Z.of_nat (length (filter (fun i => fst i =? op) (fst (items (skipn pc s)))))).
Proof.
  revert pc n; induction fuel as [|fuel IH]; intros pc n Hpc Hf; [lia|]. cbn [Find_loop]. rewrite items_GetOp by lia.
  destruct (Nat.eqb_spec pc (length s)), (Nat.ltb_spec pc (length s)); try lia; cbn [negb].
  { cbn. f_equal. lia. }
  destruct (GetOp s pc) as [[[read pc'] opcode] data] eqn:E. destruct read; cbn [negb]; [|cbn; f_equal; lia].
  apply GetOp_reads in E. rewrite IH by lia. destruct (items (skipn pc' s)) as [l all]. cbn [fst snd filter].
  destruct (opcode =? op); cbn [length]; f_equal; lia.
Qed.

(** The signature operations of an instruction that follows one with [lastOpcode], and of a list
    of instructions. *)
Definition sigops_of (fAccurate : bool) (lastOpcode opcode : Z) : Z :=
  if (opcode =? OP_CHECKSIG) || (opcode =? OP_CHECKSIGVERIFY) then 1
  else if (opcode =? OP_CHECKMULTISIG) || (opcode =? OP_CHECKMULTISIGVERIFY) then
    if fAccurate && (OP_1 <=? lastOpcode) && (lastOpcode <=? OP_16) then lastOpcode - (OP_1 - 1) else MAX_PUBKEYS_PER_MULTISIG
  else 0.
Fixpoint sigops (fAccurate : bool) (lastOpcode : Z) (l : list item) : Z :=
  match l with
  | [] => 0
  | (opcode, _) :: l => sigops_of fAccurate lastOpcode opcode + sigops fAccurate opcode l
  end.

Lemma GetSigOpCount_loop_items fuel s fAccurate pc lastOpcode n : (pc <= length s)%nat -> (length s - pc < fuel)%nat -> word 32 n ->
  GetSigOpCount_loop fuel s fAccurate pc lastOpcode n = Some (w32 (n + sigops fAccurate lastOpcode (fst (items (skipn pc s))))).
Proof.
  revert pc lastOpcode n; induction fuel as [|fuel IH]; intros pc lastOpcode n Hpc Hf Hn; [lia|]. cbn [GetSigOpCount_loop]. rewrite items_GetOp by lia.
  assert (Hn0 : w32 (n + 0) = n) by (rewrite Z.add_0_r; now apply Z.mod_small).
  destruct (Nat.ltb_spec pc (length s)); cbn [fst sigops]; [|now rewrite Hn0].
  destruct (GetOp s pc) as [[[read pc'] opcode] data] eqn:E. destruct read; cbn [negb fst sigops]; [|now rewrite Hn0].
  apply GetOp_reads in E.
  match goal with |- GetSigOpCount_loop _ _ _ _ _ ?m = _ => assert (Hm : m = w32 (n + sigops_of fAccurate lastOpcode opcode)) end.
  { unfold sigops_of, DecodeOP_N. destruct (_ || _); [reflexivity|]. destruct (_ || _); [|now rewrite Hn0].
    destruct fAccurate; cbn [andb]; [|reflexivity].
    destruct (Z.leb_spec OP_1 lastOpcode), (Z.leb_spec lastOpcode OP_16); cbn [andb]; try reflexivity.
    destruct (Z.eqb_spec lastOpcode OP_0) as [->|]; [unfold OP_0, OP_1 in *; lia | reflexivity]. }
  rewrite Hm, IH by (try lia; apply word_mod; lia).
  destruct (items (skipn pc' s)) as [l all]. cbn [fst sigops]. f_equal. unfold w32.
  rewrite Zplus_mod_idemp_l. f_equal. lia.
Qed.

Lemma last_push_loop_items fuel s pc data : (pc <= length s)%nat -> (length s - pc < fuel)%nat ->
  last_push_loop fuel s pc data =
  Some (if forallb (fun i => negb (fst i >? OP_16)) (fst (items (skipn pc s))) && snd (items (skipn pc s))
        then Some (last (map snd (fst (items (skipn pc s)))) data) else None).
Proof.
  revert pc data; induction fuel as [|fuel IH]; intros pc data Hpc Hf; [lia|]. cbn [last_push_loop]. rewrite items_GetOp by lia.
  destruct (Nat.ltb_spec pc (length s)); [|reflexivity].
  destruct (GetOp s pc) as [[[read pc'] opcode] d] eqn:E. destruct read; cbn [negb]; [|reflexivity].
  apply GetOp_reads in E. rewrite IH by lia. destruct (items (skipn pc' s)) as [l all]. cbn [fst snd forallb map].
  destruct (opcode >? OP_16); cbn [negb andb]; [reflexivity|]. destruct (_ && all); [|reflexivity]. do 2 f_equal.
  destruct (map snd l) as [|x m] eqn:Em; [reflexivity|]. cbn [last]. revert x Em; clear; intros x _. revert x; induction m as [|y m IH]; intros x; [reflexivity|].
  cbn [last] in *. destruct m; [reflexivity | apply (IH y)].
Qed.

(** The leading public keys of a list of instructions, and the opcode that follows them. *)
Fixpoint leading_keys (l : list item) : list valtype * option Z :=
  match l with
  | [] => ([], None)
  | (opcode, data) :: l => if ValidSize data then let '(keys, o) := leading_keys l in (data :: keys, o) else ([], Some opcode)
  end.

(** ** Instructions and their bytes *)

(** The bytes [c] are an instruction. *)
Definition reads (c : script) (opcode : Z) (data : valtype) : Prop :=
  c <> [] /\ forall t, Z.of_nat (length (c ++ t)) < 2 ^ 32 -> next (c ++ t) = (true, length c, opcode, data).

Lemma reads_opcode opcode : opcode > OP_PUSHDATA4 -> reads [opcode] opcode [].
Proof. intros H. split; [easy|]. intros t _. cbn [app next length]. now destruct (Z.leb_spec opcode OP_PUSHDATA4); [lia|]. Qed.

(** The opcode that [push_data] writes. *)
Definition push_opcode_of (n : Z) : Z :=
  if n <? OP_PUSHDATA1 then n else if n <=? 0xff then OP_PUSHDATA1 else if n <=? 0xffff then OP_PUSHDATA2 else OP_PUSHDATA4.

Lemma push_data_app s d : push_data s d = s ++ push_data [] d.
Proof.
  unfold push_data. cbn [app]. repeat match goal with |- context [if ?b then _ else _] => destruct b end; rewrite <- ?app_assoc; reflexivity.
Qed.

Lemma reads_push d : Z.of_nat (length d) < 2 ^ 31 -> reads (push_data [] d) (push_opcode_of (Z.of_nat (length d))) d.
Proof.
  intros Hd. unfold push_data, push_opcode_of. set (n := Z.of_nat (length d)) in *.
  assert (Hn : 0 <= n) by (unfold n; lia).
  assert (Hdata : forall k h t, length h = k -> Z.of_nat (length ((h ++ d) ++ t)) < 2 ^ 32 ->
    skipn k ((h ++ d) ++ t) = d ++ t /\ (w32 (Z.of_nat (length ((h ++ d) ++ t) - k)) <? n) = false).
  { intros k h t Hh Ht. rewrite !length_app in *. rewrite <- app_assoc, skipn_app, Hh, Nat.sub_diag, skipn_all2 by lia. split; [reflexivity|].
    apply Z.ltb_ge. unfold w32. rewrite Z.mod_small; lia. }
  assert (Hf : forall t, firstn (Z.to_nat n) (d ++ t) = d).
  { intros t. unfold n. rewrite Nat2Z.id, firstn_app, Nat.sub_diag, firstn_O, app_nil_r. apply firstn_all. }
  unfold OP_PUSHDATA1, OP_PUSHDATA2, OP_PUSHDATA4 in *.
  assert (Hgo : forall o h k, length h = k -> o <= 0x4e -> (forall t, push_header o ((h ++ d) ++ t) = Some (k, n)) -> reads (o :: h ++ d) o d).
  { intros o h k Hh Ho Hp. split; [easy|]. intros t Ht. cbn [app next length]. cbn [app length] in Ht. unfold OP_PUSHDATA4.
    destruct (Z.leb_spec o 0x4e); [|lia]. rewrite Hp. destruct (Hdata k h t Hh) as [-> ->]; [lia|]. rewrite Hf.
    do 3 f_equal. rewrite length_app, Hh. unfold n. lia. }
  destruct (Z.ltb_spec n 0x4c); [|destruct (Z.leb_spec n 0xff); [|destruct (Z.leb_spec n 0xffff)]]; cbn [app].
  - rewrite Z.mod_small by lia. apply (Hgo n [] 0%nat); [reflexivity | lia|]. intros t. unfold push_header, OP_PUSHDATA1. now destruct (Z.ltb_spec n 0x4c); [|lia].
  - rewrite Z.mod_small by lia. apply (Hgo 0x4c [n] 1%nat); [reflexivity | lia|]. intros t. reflexivity.
  - apply (Hgo 0x4d (WriteLE16 (n mod 2 ^ 16)) 2%nat); [apply length_le_split | lia|]. intros t. unfold push_header, OP_PUSHDATA1, OP_PUSHDATA2. cbn [Z.ltb Z.compare Pos.compare Pos.compare_cont Z.eqb Pos.eqb].
    rewrite !length_app, (length_le_split 2). cbn [Nat.ltb Nat.leb Nat.add].
    unfold ReadLE16. rewrite <- app_assoc, firstn_app, (length_le_split 2), Nat.sub_diag, firstn_O, app_nil_r, firstn_all2 by (now rewrite (length_le_split 2)).
    unfold WriteLE16. rewrite le_combine_split. do 2 f_equal. change (2 ^ (8 * Z.of_nat 2)) with (2 ^ 16). rewrite Zmod_mod. apply Z.mod_small. lia.
  - apply (Hgo 0x4e (WriteLE32 (w32 n)) 4%nat); [apply length_le_split | lia|]. intros t. unfold push_header, OP_PUSHDATA1, OP_PUSHDATA2. cbn [Z.ltb Z.compare Pos.compare Pos.compare_cont Z.eqb Pos.eqb].
    rewrite !length_app, (length_le_split 4). cbn [Nat.ltb Nat.leb Nat.add].
    unfold ReadLE32. rewrite <- app_assoc, firstn_app, (length_le_split 4), Nat.sub_diag, firstn_O, app_nil_r, firstn_all2 by (now rewrite (length_le_split 4)).
    unfold WriteLE32. rewrite le_combine_split. do 2 f_equal. change (2 ^ (8 * Z.of_nat 4)) with (2 ^ 32). unfold w32. rewrite Zmod_mod. apply Z.mod_small. lia.
Qed.

(** * Numbers *)

Lemma le_combine_snoc l b : le_combine (l ++ [b]) = le_combine l + b * 2 ^ (8 * Z.of_nat (length l)).
Proof. rewrite le_combine_app. cbn [le_combine]. lia. Qed.

Lemma back_snoc l b : back (l ++ [b]) = b.
Proof. unfold back. apply last_last. Qed.

Lemma byte_forall (f : Z -> bool) b : forallb f (map Z.of_nat (seq 0 256)) = true -> is_byte b -> f b = true.
Proof. intros H Hb. apply (forallb_below 256 f H). exact Hb. Qed.

Lemma byte_high b : is_byte b -> (b &: 0x80 =? 0) = (b <? 128).
Proof. intros H. apply eqb_prop. exact (byte_forall (fun b => eqb (b &: 0x80 =? 0) (b <? 128)) b eq_refl H). Qed.

Lemma byte_low b : is_byte b -> (b &: 0x7f =? 0) = (b mod 128 =? 0).
Proof. intros H. apply eqb_prop. exact (byte_forall (fun b => eqb (b &: 0x7f =? 0) (b mod 128 =? 0)) b eq_refl H). Qed.

Lemma byte_or_high b : is_byte b -> b < 128 -> b |: 0x80 = b + 128.
Proof.
  intros H Hb. pose proof (byte_forall (fun b => (b >=? 128) || ((b |: 0x80) =? b + 128)) b eq_refl H) as E. cbn beta in E.
  apply orb_true_iff in E as [E|E]; lia.
Qed.

(** The bits of [set_vch], as an integer. *)
Lemma set_vch_bits vch : bytes vch ->
  fold_left (fun result i => result |: Z.shiftl vch.[i] (8 * Z.of_nat i)) (seq 0 (length vch)) 0 = le_combine vch.
Proof.
  induction vch as [|b vch IH] using rev_ind; intros H; [reflexivity|].
  apply Forall_app in H as [H Hb]. rewrite length_app. cbn [length]. rewrite Nat.add_1_r, seq_S, fold_left_app. cbn [fold_left Nat.add].
  rewrite le_combine_snoc, <- IH by assumption.
  rewrite app_nth2, Nat.sub_diag by lia. cbn [nth].
  assert (E : fold_left (fun result i => result |: Z.shiftl (vch ++ [b]).[i] (8 * Z.of_nat i)) (seq 0 (length vch)) 0 = le_combine vch).
  { rewrite <- IH by assumption. apply fold_left_ext_in. intros a x Hx. apply in_seq in Hx. now rewrite app_nth1 by lia. }
  rewrite E, IH by assumption. symmetry. apply add_shiftl_lor; [lia | now apply le_combine_bound].
Qed.

Lemma clear_top x m : 0 <= m -> 0 <= x < 2 ^ m -> (x + 2 ^ m) &: Z.lnot (2 ^ m) = x.
Proof.
  intros Hm Hx.
  assert (Ht : Z.testbit (x + 2 ^ m) m = true).
  { apply Z.testbit_true; [lia|]. replace ((x + 2 ^ m) / 2 ^ m) with 1; [reflexivity | apply (Z.div_unique _ _ _ x); lia]. }
  rewrite <- Z.ldiff_land, <- Z.sub_nocarry_ldiff; [lia|].
  apply Z.bits_inj'. intros i Hi. rewrite Z.ldiff_spec, Z.bits_0, Z.pow2_bits_eqb by lia. destruct (Z.eqb_spec m i) as [<-|]; [now rewrite Ht | reflexivity].
Qed.

Lemma set_vch_snoc l b : bytes (l ++ [b]) ->
  set_vch (l ++ [b]) = if b <? 128 then le_combine (l ++ [b]) else - le_combine (l ++ [b - 128]).
Proof.
  intros H. assert (Hb : is_byte b) by (apply Forall_app in H as [_ H]; now inversion H).
  assert (Hl : word (8 * Z.of_nat (length l)) (le_combine l)) by (apply le_combine_bound; now apply Forall_app in H).
  unfold set_vch. destruct (l ++ [b]) as [|x r] eqn:E; [now destruct l|]. rewrite <- E. rewrite set_vch_bits by now rewrite E.
  rewrite back_snoc, byte_high by assumption. destruct (Z.ltb_spec b 128) as [|Hge]; cbn [negb]; [reflexivity|]. f_equal.
  rewrite length_app, Z.shiftl_mul_pow2 by (cbn [length]; lia). cbn [length]. rewrite Nat.add_sub.
  change 128 with (2 ^ 7) at 1. rewrite <- Z.pow_add_r by lia. rewrite !le_combine_snoc.
  assert (Ep : 2 ^ (7 + 8 * Z.of_nat (length l)) = 128 * 2 ^ (8 * Z.of_nat (length l))) by (rewrite Z.pow_add_r by lia; reflexivity).
  replace (le_combine l + b * 2 ^ (8 * Z.of_nat (length l)))
    with (le_combine l + (b - 128) * 2 ^ (8 * Z.of_nat (length l)) + 2 ^ (7 + 8 * Z.of_nat (length l))) by (rewrite Ep; lia).
  apply clear_top; [lia|]. rewrite Ep. unfold word in *. change (2 ^ 8) with 256 in Hb. nia.
Qed.

(** ** The bytes of the absolute value *)

Lemma serialize_loop_combine fuel r : bytes r -> r = [] \/ back r <> 0 -> (length r <= fuel)%nat -> serialize_loop fuel (le_combine r) = r.
Proof.
  revert r; induction fuel as [|fuel IH]; intros [|b r] H Hlast Hlen; try reflexivity; [cbn in Hlen; lia|].
  cbn [length] in Hlen. inversion H as [|? ? Hb Hr]; subst. cbn [serialize_loop le_combine].
  pose proof (le_combine_nonneg r Hr). unfold word in Hb. change (2 ^ 8) with 256 in Hb.
  destruct Hlast as [|Hlast]; [easy|].
  assert (Hnz : r = [] \/ back r <> 0) by (destruct r; [now left | right; exact Hlast]).
  assert (Hpos : b + 256 * le_combine r <> 0).
  { destruct r as [|c r']; [cbn in *; lia|]. intros E0. assert (E : le_combine (c :: r') = 0) by lia.
    pose proof (IH _ Hr Hnz ltac:(cbn in *; lia)) as E1. rewrite E in E1. destruct fuel; cbn in *; [lia | discriminate]. }
  destruct (Z.eqb_spec (b + 256 * le_combine r) 0); [lia|].
  change 0xff with (Z.ones 8). rewrite Z.land_ones, Z.shiftr_div_pow2 by lia. change (2 ^ 8) with 256.
  rewrite (Z.mul_comm 256), Z.mod_add, Z.div_add, (Z.div_small b), (Z.mod_small b) by lia. cbn [Z.add].
  rewrite IH by (assumption || lia). reflexivity.
Qed.

Lemma serialize_loop_value fuel v : 0 <= v < 2 ^ (8 * Z.of_nat fuel) ->
  let r := serialize_loop fuel v in bytes r /\ le_combine r = v /\ (r = [] \/ back r <> 0) /\ (length r <= fuel)%nat.
Proof.
  revert v; induction fuel as [|fuel IH]; intros v Hv; cbn [serialize_loop].
  - change (2 ^ (8 * Z.of_nat 0)) with 1 in Hv. repeat split; [constructor | cbn; lia | now left | cbn; lia].
  - replace (8 * Z.of_nat (S fuel)) with (8 + 8 * Z.of_nat fuel) in Hv by lia. rewrite Z.pow_add_r in Hv by lia. change (2 ^ 8) with 256 in Hv.
    destruct (Z.eqb_spec v 0) as [->|Hnz]; [repeat split; [constructor | now left | cbn; lia]|].
    rewrite Z.shiftr_div_pow2 by lia. change 0xff with (Z.ones 8). rewrite Z.land_ones by lia. change (2 ^ 8) with 256.
    destruct (IH (v / 256)) as (Hb & Hc & Hl & Hn); [split; [apply Z.div_pos; lia | apply Z.div_lt_upper_bound; lia]|].
    cbn [le_combine length]. rewrite Hc. split; [constructor; [change 256 with (2 ^ 8); apply word_mod; lia | assumption]|].
    split; [pose proof (Z.div_mod v 256); lia|]. split; [|lia]. right.
    destruct (serialize_loop fuel (v / 256)) as [|c r] eqn:E; cbn [back].
    + cbn in Hc |- *. unfold back. cbn. pose proof (Z.div_mod v 256). lia.
    + destruct Hl as [|Hl]; [easy | exact Hl].
Qed.

(** ** Minimal encodings *)

Definition minimal (vch : valtype) : bool :=
  (length vch =? 0)%nat || negb (back vch &: 0x7f =? 0) || ((1 <? length vch)%nat && negb (vch.[length vch - 2] &: 0x80 =? 0)).

Lemma CScriptNum_of_eq vch req max :
  CScriptNum_of vch req max =
  if (max <? length vch)%nat then scriptnum_error else if req && negb (minimal vch) then scriptnum_error else Number (set_vch vch).
Proof.
  unfold CScriptNum_of, minimal. destruct (max <? length vch)%nat; [reflexivity|]. destruct req; cbn [andb]; [|reflexivity].
  destruct (Nat.ltb_spec 0 (length vch)), (Nat.eqb_spec (length vch) 0), (Nat.leb_spec (length vch) 1), (Nat.ltb_spec 1 (length vch)); try lia; cbn [andb orb negb];
    destruct (back vch &: 127 =? 0); cbn [andb orb negb]; try reflexivity; now destruct (_ &: 128 =? 0).
Qed.

(** [vch] is a number with the sign bit [neg] and the bytes [r] of its absolute value. *)
Inductive number_bytes : valtype -> bool -> list Z -> Prop :=
| nb_zero : number_bytes [] false []
| nb_fits (l : list Z) (c : Z) (neg : bool) : 0 < c < 128 -> number_bytes (l ++ [c + if neg then 128 else 0]) neg (l ++ [c])
| nb_extra (l : list Z) (c : Z) (neg : bool) : 128 <= c < 256 -> number_bytes ((l ++ [c]) ++ [if neg then 128 else 0]) neg (l ++ [c]).

Lemma minimal_bytes vch : bytes vch -> minimal vch = true -> exists neg (r : list Z), number_bytes vch neg r.
Proof.
  induction vch as [|b l _] using rev_ind; intros H Hm; [exists false, (@nil Z); constructor|].
  assert (Hb : is_byte b) by (apply Forall_app in H as [_ H]; now inversion H).
  unfold minimal in Hm. rewrite back_snoc, byte_low, length_app in Hm by assumption. cbn [length] in Hm.
  destruct (Nat.eqb_spec (length l + 1) 0); [lia|]. cbn [orb] in Hm.
  unfold word in Hb. change (2 ^ 8) with 256 in Hb.
  destruct (Z.eqb_spec (b mod 128) 0) as [E|E]; cbn [negb orb] in Hm.
  - apply andb_true_iff in Hm as [H1 H2]. destruct l as [|c l _] using rev_ind; [cbn in H1; discriminate|].
    assert (Hc : is_byte c) by (apply Forall_app in H as [H _]; apply Forall_app in H as [_ H]; now inversion H).
    rewrite app_nth1 in H2 by (rewrite length_app; cbn; lia).
    replace (length (l ++ [c]) + 1 - 2)%nat with (length l) in H2 by (rewrite length_app; cbn; lia).
    rewrite app_nth2, Nat.sub_diag in H2 by lia. cbn [nth] in H2. rewrite byte_high in H2 by assumption. destruct (Z.ltb_spec c 128); [discriminate|].
    exists (b =? 128), (l ++ [c]). unfold word in Hc. change (2 ^ 8) with 256 in Hc.
    assert (E2 : b = if b =? 128 then 128 else 0) by (destruct (Z.eqb_spec b 128); lia).
    rewrite E2 at 1. constructor. lia.
  - exists (128 <=? b), (l ++ [b mod 128]).
    assert (E2 : b = b mod 128 + if 128 <=? b then 128 else 0) by (destruct (Z.leb_spec 128 b); lia).
    rewrite E2 at 1. constructor. lia.
Qed.

Lemma number_bytes_serialize vch neg r : number_bytes vch neg r -> bytes r -> (length r <= 8)%nat -> (neg = true -> le_combine r < 2 ^ 63) ->
  serialize (if neg then - le_combine r else le_combine r) = vch.
Proof.
  intros Hn Hb Hl Hs. pose proof (le_combine_bound r Hb) as Hbd. unfold word in Hbd.
  assert (H64 : le_combine r < 2 ^ 64).
  { eapply Z.lt_le_trans; [apply Hbd|]. apply Z.pow_le_mono_r; lia. }
  assert (Hback : r = [] \/ back r <> 0) by (destruct Hn; [now left | right; rewrite back_snoc; lia ..]).
  assert (Hr : serialize_loop 8 (le_combine r) = r) by now apply serialize_loop_combine.
  destruct (Z.eqb_spec (le_combine r) 0) as [E0|E0].
  { rewrite E0 in Hr. cbn in Hr. subst r. inversion Hn; [reflexivity | now destruct l ..]. }
  unfold serialize. set (n := if neg then - le_combine r else le_combine r).
  destruct (Z.eqb_spec n 0); [destruct neg; lia|].
  assert (Habs : (if n <? 0 then w64 (w64 (Z.lnot (w64 n)) + 1) else w64 n) = le_combine r).
  { unfold n. destruct neg.
    - destruct (Z.ltb_spec (- le_combine r) 0); [|lia]. unfold w64, Z.lnot. rewrite Z.mod_opp_l_nz by (rewrite ?Z.mod_small; lia).
      rewrite (Z.mod_small (le_combine r)) by lia. rewrite Zplus_mod_idemp_l. unfold Z.pred.
      replace (- (2 ^ 64 - le_combine r) + -1 + 1) with (le_combine r + (-1) * 2 ^ 64) by lia. rewrite Z.mod_add by lia. apply Z.mod_small. lia.
    - destruct (Z.ltb_spec (le_combine r) 0); [lia|]. apply Z.mod_small. lia. }
  rewrite Habs, Hr. assert (Hneg : (n <? 0) = neg) by (unfold n; destruct neg; [apply Z.ltb_lt | apply Z.ltb_ge]; lia). rewrite Hneg.
  destruct Hn as [|l c neg Hc|l c neg Hc]; [now destruct E0| |].
  - assert (is_byte c) by (unfold word; lia).
    rewrite back_snoc, byte_high by assumption. destruct (Z.ltb_spec c 128); [|lia]. cbn [negb].
    destruct neg; [|now rewrite Z.add_0_r]. rewrite byte_or_high by assumption.
    rewrite length_app. cbn [length]. rewrite Nat.add_sub, upd_split by (rewrite length_app; cbn; lia).
    rewrite firstn_app, Nat.sub_diag, firstn_O, app_nil_r, firstn_all2 by lia. rewrite skipn_all2 by (rewrite length_app; cbn; lia). reflexivity.
  - assert (is_byte c) by (unfold word; lia).
    rewrite back_snoc, byte_high by assumption. destruct (Z.ltb_spec c 128); [lia|]. now destruct neg.
Qed.

Lemma number_bytes_value vch neg r : number_bytes vch neg r -> bytes r -> set_vch vch = if neg then - le_combine r else le_combine r.
Proof.
  intros Hn Hb. destruct Hn as [|l c neg Hc|l c neg Hc]; [reflexivity| |].
  - assert (bytes l) by (now apply Forall_app in Hb). rewrite set_vch_snoc.
    2: { apply Forall_app; split; [assumption | constructor; [destruct neg; unfold word; lia | constructor]]. }
    destruct neg; [destruct (Z.ltb_spec (c + 128) 128); [lia|]; now replace (c + 128 - 128) with c by lia|].
    rewrite Z.add_0_r. now destruct (Z.ltb_spec c 128); [|lia].
  - rewrite set_vch_snoc.
    2: { apply Forall_app; split; [assumption | constructor; [destruct neg; unfold word; lia | constructor]]. }
    assert (E : le_combine ((l ++ [c]) ++ [0]) = le_combine (l ++ [c])) by (rewrite le_combine_snoc; lia).
    destruct neg; cbn [Z.ltb Z.compare Pos.compare Pos.compare_cont]; [change (128 - 128) with 0|]; now rewrite E.
Qed.

Lemma number_bytes_minimal vch neg r : number_bytes vch neg r -> minimal vch = true.
Proof.
  intros Hn. destruct Hn as [|l c neg Hc|l c neg Hc]; [reflexivity| |]; unfold minimal; rewrite back_snoc.
  - rewrite byte_low by (destruct neg; unfold word; lia). destruct (Z.eqb_spec ((c + if neg then 128 else 0) mod 128) 0) as [E|]; [|now rewrite orb_true_r].
    destruct neg; [rewrite <- (Z.mul_1_l 128), Z.mod_add in E by lia|]; rewrite ?Z.add_0_r, Z.mod_small in E; lia.
  - apply orb_true_iff; right. rewrite !length_app. cbn [length]. apply andb_true_iff. split; [apply Nat.ltb_lt; lia|].
    rewrite app_nth1 by (rewrite length_app; cbn; lia). replace (length l + 1 + 1 - 2)%nat with (length l) by lia.
    rewrite app_nth2, Nat.sub_diag by lia. cbn [nth]. rewrite byte_high by (unfold word; lia). now destruct (Z.ltb_spec c 128); [lia|].
Qed.

(** Every 64-bit value but the least has its bytes, and how many there are. *)
Lemma serialize_bytes n : Z.abs n < 2 ^ 63 -> exists r, number_bytes (serialize n) (n <? 0) r /\ bytes r /\ le_combine r = Z.abs n /\ (length r <= 8)%nat.
Proof.
  intros Hn. destruct (serialize_loop_value 8 (Z.abs n)) as (Hb & Hc & Hl & Hlen); [change (8 * Z.of_nat 8) with 64; lia|].
  set (r := serialize_loop 8 (Z.abs n)) in *. exists r. split; [|easy].
  assert (Hex : exists vch, number_bytes vch (n <? 0) r).
  { destruct Hl as [Hl|Hl].
    - rewrite Hl in Hc. cbn in Hc. assert (n = 0) as -> by lia. rewrite Hl. exists (@nil Z). constructor.
    - destruct r as [|c l _] using rev_ind; [now cbn in Hl|]. rewrite back_snoc in Hl.
      assert (Hcb : is_byte c) by (apply Forall_app in Hb as [_ Hb]; now inversion Hb). unfold word in Hcb. change (2 ^ 8) with 256 in Hcb.
      destruct (Z.lt_ge_cases c 128); eexists; [apply nb_fits | apply nb_extra]; lia. }
  destruct Hex as [vch Hv]. replace (serialize n) with vch; [assumption|].
  rewrite <- (number_bytes_serialize vch (n <? 0) r); [|assumption..|lia].
  rewrite Hc. f_equal. destruct (Z.ltb_spec n 0); lia.
Qed.

Lemma number_bytes_length vch neg r k : number_bytes vch neg r -> bytes r -> (0 < k)%nat ->
  (length vch <= k)%nat <-> le_combine r < 2 ^ (8 * Z.of_nat k - 1).
Proof.
  intros Hn Hb Hk.
  assert (Ek : forall j, 2 ^ (8 * Z.of_nat (S j) - 1) = 128 * 2 ^ (8 * Z.of_nat j)).
  { intros j. replace (8 * Z.of_nat (S j) - 1) with (7 + 8 * Z.of_nat j) by lia. now rewrite Z.pow_add_r by lia. }
  assert (Hstep : forall i j, (S i <= j)%nat -> 256 * 2 ^ (8 * Z.of_nat i) <= 2 ^ (8 * Z.of_nat j)).
  { intros i j Hij. change 256 with (2 ^ 8). rewrite <- Z.pow_add_r by lia. apply Z.pow_le_mono_r; lia. }
  destruct k as [|k]; [lia|]. rewrite Ek.
  destruct Hn as [|l c neg Hc|l c neg Hc].
  - cbn [le_combine length]. assert (0 < 2 ^ (8 * Z.of_nat k)) by (apply Z.pow_pos_nonneg; lia). lia.
  - apply Forall_app in Hb as [Hb _]. pose proof (le_combine_bound l Hb) as Hl. unfold word in Hl. rewrite le_combine_snoc, length_app. cbn [length].
    split; intros H.
    + assert (2 ^ (8 * Z.of_nat (length l)) <= 2 ^ (8 * Z.of_nat k)) by (apply Z.pow_le_mono_r; lia).
      assert (c * 2 ^ (8 * Z.of_nat (length l)) <= 127 * 2 ^ (8 * Z.of_nat (length l))) by (apply Z.mul_le_mono_nonneg_r; lia). lia.
    + destruct (Nat.le_gt_cases (length l + 1) (S k)) as [|Hgt]; [assumption|]. exfalso.
      pose proof (Hstep k (length l) ltac:(lia)). assert (0 < 2 ^ (8 * Z.of_nat k)) by (apply Z.pow_pos_nonneg; lia).
      assert (1 * 2 ^ (8 * Z.of_nat (length l)) <= c * 2 ^ (8 * Z.of_nat (length l))) by (apply Z.mul_le_mono_nonneg_r; lia). lia.
  - apply Forall_app in Hb as [Hb _]. pose proof (le_combine_bound l Hb) as Hl. unfold word in Hl. rewrite le_combine_snoc, !length_app. cbn [length].
    split; intros H.
    + pose proof (Hstep (length l) (length l + 1)%nat ltac:(lia)).
      assert (c * 2 ^ (8 * Z.of_nat (length l)) <= 255 * 2 ^ (8 * Z.of_nat (length l))) by (apply Z.mul_le_mono_nonneg_r; lia).
      assert (2 ^ (8 * Z.of_nat (length l + 1)) <= 2 ^ (8 * Z.of_nat k)) by (apply Z.pow_le_mono_r; lia). lia.
    + destruct (Nat.le_gt_cases (length l + 1 + 1) (S k)) as [|Hgt]; [assumption|]. exfalso.
      assert (2 ^ (8 * Z.of_nat k) <= 2 ^ (8 * Z.of_nat (length l))) by (apply Z.pow_le_mono_r; lia). nia.
Qed.

Lemma set_vch_bound vch k : bytes vch -> (length vch <= k)%nat -> (0 < k)%nat -> Z.abs (set_vch vch) < 2 ^ (8 * Z.of_nat k - 1).
Proof.
  intros Hb Hl Hk. assert (0 < 2 ^ (8 * Z.of_nat k - 1)) by (apply Z.pow_pos_nonneg; lia).
  destruct vch as [|b l _] using rev_ind; [cbn [set_vch]; lia|]. rewrite set_vch_snoc by assumption.
  apply Forall_app in Hb as [Hb Hb']. assert (Hbb : is_byte b) by now inversion Hb'. pose proof (le_combine_bound l Hb) as Hc.
  unfold word in Hc, Hbb. change (2 ^ 8) with 256 in Hbb. rewrite !le_combine_snoc. rewrite length_app in Hl. cbn [length] in Hl.
  assert (Hp : 128 * 2 ^ (8 * Z.of_nat (length l)) <= 2 ^ (8 * Z.of_nat k - 1)).
  { change 128 with (2 ^ 7). rewrite <- Z.pow_add_r by lia. apply Z.pow_le_mono_r; lia. }
  set (P := 2 ^ (8 * Z.of_nat (length l))) in *.
  destruct (Z.ltb_spec b 128).
  - assert (0 <= b * P <= 127 * P) by (split; [apply Z.mul_nonneg_nonneg; lia | apply Z.mul_le_mono_nonneg_r; lia]). lia.
  - assert (0 <= (b - 128) * P <= 127 * P) by (split; [apply Z.mul_nonneg_nonneg; lia | apply Z.mul_le_mono_nonneg_r; lia]). lia.
Qed.

(** C21. The bytes of a number of the script language: the bytes of a 64-bit value other than
    the least give it back, whether or not minimal encodings are required; when they are, a
    vector that is accepted is the bytes of its value; [k] bytes hold the values of absolute
    value below 2^(8k-1), and a vector of at most 8 bytes never gives another one. *)
Theorem script_numbers max req :
  (0 < max <= 8)%nat ->
  (forall n, Z.abs n < 2 ^ 63 ->
     ((length (serialize n) <= max)%nat <-> Z.abs n < 2 ^ (8 * Z.of_nat max - 1)) /\
     CScriptNum_of (serialize n) req max = if (max <? length (serialize n))%nat then scriptnum_error else Number n) /\
  (forall vch n, bytes vch -> CScriptNum_of vch req max = Number n ->
     (length vch <= max)%nat /\ Z.abs n < 2 ^ (8 * Z.of_nat max - 1) /\ (req = true -> vch = serialize n)).
Proof.
  intros Hmax. split.
  - intros n Hn. destruct (serialize_bytes n Hn) as (r & Hr & Hb & Hc & Hl). split; [rewrite <- Hc; eapply number_bytes_length; eassumption || lia|].
    rewrite CScriptNum_of_eq, (number_bytes_minimal _ _ _ Hr), andb_false_r.
    destruct (max <? _)%nat; [reflexivity|]. f_equal. rewrite (number_bytes_value _ _ _ Hr Hb), Hc. destruct (Z.ltb_spec n 0); lia.
  - intros vch n Hb E. rewrite CScriptNum_of_eq in E. destruct (Nat.ltb_spec max (length vch)); [discriminate|].
    destruct (req && negb (minimal vch)) eqn:Em; [discriminate|]. injection E as <-.
    split; [lia|]. split; [apply set_vch_bound; assumption || lia|]. intros ->. apply negb_false_iff in Em.
    destruct (minimal_bytes _ Hb Em) as (neg & r & Hr).
    assert (Hbr : bytes r).
    { destruct Hr as [|l c neg Hc|l c neg Hc]; [constructor| |]; apply Forall_app in Hb as [Hb _]; [|assumption].
      apply Forall_app; split; [assumption | constructor; [unfold word; lia | constructor]]. }
    assert (Hlen : (length r <= length vch)%nat) by (destruct Hr; rewrite ?length_app; cbn; lia).
    rewrite (number_bytes_value _ _ _ Hr Hbr). symmetry. apply number_bytes_serialize; [assumption..|lia|].
    intros _. change (2 ^ 63) with (2 ^ (8 * Z.of_nat 8 - 1)). apply (number_bytes_length _ _ _ 8 Hr Hbr); lia.
Qed.

Lemma script_numbers_witness : CScriptNum_of (serialize (-300)) true 4 = Number (-300).
Proof. apply (script_numbers 4 true ltac:(lia)). reflexivity. Defined.

(** ** Scripts as sequences of instructions *)

(** [c] is the bytes of the instruction [i]. *)
Definition chunk (c : script) (i : item) : Prop := reads c (fst i) (snd i).

Lemma small_app {A} (a b : list A) n : Z.of_nat (length (a ++ b)) < n -> Z.of_nat (length b) < n.
Proof. rewrite length_app. lia. Qed.

Lemma items_chunks cs l : Forall2 chunk cs l -> Z.of_nat (length (concat cs)) < 2 ^ 32 -> items (concat cs) = (l, true).
Proof.
  induction 1 as [|c [o d] cs l [Hne Hc] Hcs IH]; intros Hl; [reflexivity|]. cbn [concat fst snd] in *.
  rewrite items_next. destruct (c ++ concat cs) as [|x r] eqn:E; [now destruct c|]. rewrite <- E in *.
  rewrite Hc by assumption. rewrite skipn_app, skipn_all, Nat.sub_diag, skipn_O. cbn [app]. rewrite IH; [reflexivity|]. now apply small_app in Hl.
Qed.

Lemma equal_spec b s : equal b s = true <-> exists t, s = b ++ t.
Proof.
  revert s; induction b as [|x b IH]; intros s; [split; [now exists s | reflexivity]|].
  destruct s as [|y s]; [split; [discriminate | now intros [t E]]|]. cbn [equal]. rewrite andb_true_iff, Z.eqb_eq, IH. split.
  - intros (-> & t & ->). now exists t.
  - intros (t & [= -> ->]). split; [reflexivity | now exists t].
Qed.

(** Only the instruction itself starts with the bytes of an instruction. *)
Lemma chunk_prefix b i c j t u : chunk b i -> chunk c j -> Z.of_nat (length (c ++ t)) < 2 ^ 32 -> c ++ t = b ++ u -> c = b.
Proof.
  intros [_ Hb] [_ Hc] Hl E. pose proof (Hc t Hl) as E1. rewrite E in E1, Hl. rewrite Hb in E1 by assumption.
  injection E1 as El _ _. apply (f_equal (firstn (length c))) in E. rewrite firstn_app, firstn_all, Nat.sub_diag, firstn_O, app_nil_r in E.
  rewrite E, <- El, firstn_app, firstn_all, Nat.sub_diag, firstn_O, app_nil_r. reflexivity.
Qed.

(** ** FindAndDelete *)

Definition same (b c : script) : bool := if list_eq_dec Z.eq_dec b c then true else false.

Lemma same_refl b : same b b = true.
Proof. unfold same. now destruct (list_eq_dec _ b b). Qed.

Lemma skip_equal_total fuel s b pc n : (0 < length b)%nat -> (pc <= length s)%nat -> (length s - pc < fuel)%nat ->
  exists pc' n', skip_equal fuel s b pc n = Some (pc', n') /\ (pc <= pc' <= length s)%nat.
Proof.
  revert pc n; induction fuel as [|fuel IH]; intros pc n Hb Hpc Hf; [lia|]. cbn [skip_equal].
  destruct (Nat.leb_spec (length b) (length s - pc)); cbn [andb]; [|now exists pc, n].
  destruct (equal b (skipn pc s)); [|now exists pc, n].
  destruct (IH (pc + length b)%nat (n + 1)) as (pc' & n' & E & H'); [lia ..|]. exists pc', n'. split; [assumption | lia].
Qed.

Lemma FindAndDelete_loop_total fuel s b pc pc2 result n : (0 < length b)%nat -> (pc <= length s)%nat -> (length s - pc < fuel)%nat ->
  FindAndDelete_loop fuel s b pc pc2 result n <> None.
Proof.
  revert pc pc2 result n; induction fuel as [|fuel IH]; intros pc pc2 result n Hb Hpc Hf; [lia|]. cbn [FindAndDelete_loop].
  destruct (skip_equal_total (S (length s)) s b pc n) as (pc' & n' & -> & H'); [lia ..|].
  destruct (GetOp s pc') as [[[read pc''] opcode] data] eqn:E. destruct read; [|discriminate].
  apply GetOp_reads in E. apply IH; lia.
Qed.

Lemma FindAndDelete_total s b : FindAndDelete s b <> None.
Proof.
  unfold FindAndDelete. destruct (Nat.eqb_spec (length b) 0); [discriminate|].
  pose proof (FindAndDelete_loop_total (S (length s)) s b 0 0 [] 0) as H.
  destruct (FindAndDelete_loop _ _ _ _ _ _ _) as [[[result pc2] m]|]; [now destruct (m >? 0)|]. exfalso. apply H; [lia ..|reflexivity].
Qed.

Section Delete.
Context (b : script) (i : item) (Hb : chunk b i).

Lemma b_nonempty : (0 < length b)%nat.
Proof. destruct Hb as [H _]. destruct b; [easy | cbn; lia]. Qed.

(** At the start of an instruction, the loop skips those that are [b]. *)
Lemma skip_equal_chunks fuel pre k rest n :
  (forall c cs, rest = c :: cs -> same b c = false /\ exists j, chunk c j) ->
  Z.of_nat (length (concat rest)) < 2 ^ 32 -> (k < fuel)%nat ->
  let s := pre ++ concat (repeat b k ++ rest) in
  skip_equal fuel s b (length pre) n = Some ((length pre + k * length b)%nat, n + Z.of_nat k).
Proof.
  intros Hrest Hl Hf. revert fuel pre n Hf; induction k as [|k IH]; intros [|fuel] pre n Hf; try lia; cbn [repeat app concat skip_equal].
  - rewrite length_app, skipn_app, skipn_all, Nat.sub_diag, skipn_O. cbn [app].
    replace (length pre + 0 * length b)%nat with (length pre) by lia. rewrite Z.add_0_r.
    destruct (_ <=? _)%nat eqn:El; cbn [andb]; [|reflexivity]. destruct (equal b (concat rest)) eqn:Ee; [|reflexivity].
    exfalso. apply equal_spec in Ee as [t Et]. destruct rest as [|c cs].
    { pose proof b_nonempty. destruct b; [cbn in *; lia | discriminate]. }
    destruct (Hrest c cs eq_refl) as [Hs [j Hj]]. cbn [concat] in *.
    pose proof (chunk_prefix b i c j _ _ Hb Hj Hl Et) as ->. now rewrite same_refl in Hs.
  - rewrite length_app, skipn_app, skipn_all, Nat.sub_diag, skipn_O. cbn [app]. rewrite length_app.
    destruct (Nat.leb_spec (length b) (length pre + (length b + length (concat (repeat b k ++ rest))) - length pre)); [|lia]. cbn [andb].
    assert (equal b (b ++ concat (repeat b k ++ rest)) = true) as -> by (apply equal_spec; now eexists).
    specialize (IH fuel (pre ++ b) (n + 1) ltac:(lia)). cbn zeta in IH. rewrite <- app_assoc, length_app in IH. rewrite IH. f_equal. f_equal; [|lia]. cbn [Nat.mul]. lia.
Qed.

Lemma leading_same (cs : list script) : exists k rest, cs = repeat b k ++ rest /\ forall c cs', rest = c :: cs' -> same b c = false.
Proof.
  induction cs as [|c cs (k & rest & -> & H)]; [now exists 0%nat, []|]. destruct (same b c) eqn:E.
  - unfold same in E. destruct (list_eq_dec Z.eq_dec b c) as [<-|]; [|discriminate]. now exists (S k), rest.
  - exists 0%nat, (c :: repeat b k ++ rest). split; [reflexivity|]. now intros ? ? [= <- <-].
Qed.

Definition others (cs : list script) : list script := filter (fun c => negb (same b c)) cs.
Definition occurrences (cs : list script) : Z := Z.of_nat (length (filter (same b) cs)).

Lemma others_repeat k rest : others (repeat b k ++ rest) = others rest /\ occurrences (repeat b k ++ rest) = Z.of_nat k + occurrences rest.
Proof.
  unfold others, occurrences. induction k as [|k [IH1 IH2]]; [split; reflexivity|]. cbn [repeat app filter]. rewrite same_refl. cbn [negb length]. split; [assumption|]. lia.
Qed.

Lemma FindAndDelete_loop_chunks fuel pre pc2 cs result n :
  Forall (fun c => exists j, chunk c j) cs -> Z.of_nat (length (pre ++ concat cs)) < 2 ^ 32 -> (length cs < fuel)%nat -> (pc2 <= length pre)%nat ->
  let s := pre ++ concat cs in
  exists result' pc2', FindAndDelete_loop fuel s b (length pre) pc2 result n = Some (result', pc2', n + occurrences cs) /\
    result' ++ skipn pc2' s = result ++ firstn (length pre - pc2) (skipn pc2 s) ++ concat (others cs).
Proof.
  revert pre pc2 cs result n; induction fuel as [|fuel IH]; intros pre pc2 cs result n Hcs Hl Hf Hpc2; [lia|].
  cbn zeta. cbn [FindAndDelete_loop].
  destruct (leading_same cs) as (k & rest & -> & Hrest). destruct (others_repeat k rest) as [-> ->].
  assert (Hr : Forall (fun c => exists j, chunk c j) rest) by now apply Forall_app in Hcs.
  assert (Hk : (k <= length (concat (repeat b k ++ rest)))%nat).
  { rewrite concat_app, length_app. clear -Hb. pose proof b_nonempty. induction k as [|k IH]; [lia|]. cbn [repeat concat]. rewrite length_app. lia. }
  rewrite (skip_equal_chunks _ pre k rest n).
  2: { intros c cs' E. split; [eauto|]. subst rest. now inversion Hr. }
  2: { apply small_app in Hl. rewrite concat_app in Hl. now apply small_app in Hl. }
  2: { rewrite length_app. lia. }
  set (s := pre ++ concat (repeat b k ++ rest)) in *.
  assert (Es : s = (pre ++ concat (repeat b k)) ++ concat rest) by (unfold s; now rewrite concat_app, app_assoc).
  assert (Ep : (length pre + k * length b)%nat = length (pre ++ concat (repeat b k))).
  { rewrite length_app. f_equal. clear. induction k as [|k IH]; [reflexivity|]. cbn [repeat concat Nat.mul]. rewrite length_app. lia. }
  rewrite Ep. set (pre' := pre ++ concat (repeat b k)) in *. clearbody s.
  assert (Hg := GetOp_app pre' (concat rest)). rewrite <- Es in Hg. rewrite Hg. clear Hg.
  destruct rest as [|c cs].
  - cbn [concat next]. exists (result ++ firstn (length pre - pc2) (skipn pc2 s)), (length pre').
    split; [do 2 f_equal; unfold occurrences; cbn; lia|]. assert (Hend : skipn (length pre') s = []) by (rewrite Es; cbn [concat]; rewrite app_nil_r; apply skipn_all).
    rewrite Hend. cbn [others filter concat]. now rewrite !app_nil_r.
  - destruct (Forall_inv Hr) as [j [Hne Hread]]. pose proof (Forall_inv_tail Hr) as Hcs'. cbn [concat].
    assert (Hlen : Z.of_nat (length (pre' ++ c ++ concat cs)) < 2 ^ 32) by (rewrite Es in *; exact Hl).
    rewrite Hread by now apply small_app in Hlen.
    assert (Hsame : same b c = false) by eauto.
    assert (Es2 : s = (pre' ++ c) ++ concat cs) by (rewrite Es; cbn [concat]; now rewrite app_assoc).
    destruct (IH (pre' ++ c) (length pre') cs (result ++ firstn (length pre - pc2) (skipn pc2 s)) (n + Z.of_nat k)) as (result' & pc2' & E & Hres).
    { assumption. } { rewrite <- app_assoc. assumption. } { rewrite length_app in Hf. cbn [length] in Hf. lia. } { rewrite length_app. lia. }
    rewrite <- Es2 in E, Hres. exists result', pc2'. rewrite length_app in E. rewrite E. unfold occurrences in *. cbn [filter]. rewrite Hsame. split; [do 2 f_equal; lia|].
    rewrite Hres, <- app_assoc. do 2 f_equal. unfold others. cbn [filter]. rewrite Hsame. cbn [negb concat]. f_equal.
    rewrite length_app. replace (length pre' + length c - length pre')%nat with (length c) by lia.
    rewrite Es2, <- app_assoc, skipn_app, skipn_all, Nat.sub_diag, skipn_O. cbn [app]. rewrite firstn_app, firstn_all, Nat.sub_diag, firstn_O. apply app_nil_r.
Qed.

Lemma FindAndDelete_chunks cs :
  Forall (fun c => exists j, chunk c j) cs -> Z.of_nat (length (concat cs)) < 2 ^ 32 ->
  FindAndDelete (concat cs) b = Some (concat (others cs), occurrences cs).
Proof.
  intros Hcs Hl. unfold FindAndDelete. pose proof b_nonempty. destruct (Nat.eqb_spec (length b) 0); [lia|].
  assert (Hn : (length cs <= length (concat cs))%nat).
  { clear -Hcs. induction Hcs as [|c cs [j [Hne _]] _ IH]; [cbn; lia|]. cbn [concat length]. rewrite length_app. destruct c; [easy|]. cbn [length]. lia. }
  destruct (FindAndDelete_loop_chunks (S (length (concat cs))) [] 0 cs [] 0) as (result & pc2 & E & Hres); [assumption | assumption | lia | cbn; lia|].
  cbn [app length] in E, Hres. rewrite E. cbn [firstn Nat.sub app] in Hres. rewrite Z.add_0_l in *.
  destruct (Z.gtb_spec (occurrences cs) 0) as [|Hz]; [now rewrite Hres|].
  assert (Hall : others cs = cs).
  { clear -Hz. unfold occurrences, others in *. induction cs as [|c cs IH]; [reflexivity|]. cbn [filter] in *. destruct (same b c); cbn [length negb] in *; [lia|]. now rewrite IH. }
  now rewrite Hall.
Qed.
End Delete.

(** * Standard scripts *)

Lemma IsPushOnly_from_items s pc : (pc <= length s)%nat ->
  IsPushOnly_from s pc = Some (forallb (fun i => negb (fst i >? OP_16)) (fst (items (skipn pc s))) && snd (items (skipn pc s))).
Proof. intros H. apply IsPushOnly_loop_items; lia. Qed.

Lemma multisig_keys_total fuel s it keys : (it <= length s)%nat -> (length s - it < fuel)%nat ->
  exists it' opcode keys', multisig_keys fuel s it keys = Some (it', opcode, keys').
Proof.
  revert it keys; induction fuel as [|fuel IH]; intros it keys Hit Hf; [lia|]. cbn [multisig_keys].
  destruct (GetOp s it) as [[[read it'] opcode] data] eqn:E. destruct read; cbn [andb]; [|eauto].
  destruct (ValidSize data); [|eauto]. apply GetOp_reads in E. apply IH; lia.
Qed.

Lemma DecodeOP_N_small opcode : IsSmallInteger opcode = true -> DecodeOP_N opcode = Some (opcode - 80) /\ 1 <= opcode - 80 <= 16.
Proof.
  unfold IsSmallInteger, DecodeOP_N, OP_0, OP_1, OP_16. intros H. destruct (Z.eqb_spec opcode 0); [lia|].
  destruct (Z.leb_spec 0x51 opcode), (Z.leb_spec opcode 0x60); try lia. cbn [andb]. split; [reflexivity | lia].
Qed.

Lemma MatchMultisig_total s : MatchMultisig s <> None.
Proof.
  unfold MatchMultisig. destruct (_ || _); [discriminate|].
  destruct (GetOp s 0) as [[[read it] opcode] data] eqn:E. destruct read; cbn [negb orb]; [|discriminate].
  destruct (IsSmallInteger opcode) eqn:Es; cbn [negb]; [|discriminate].
  apply GetOp_reads in E. destruct (DecodeOP_N_small _ Es) as [-> _].
  destruct (multisig_keys_total (S (length s)) s it []) as (it' & op & keys & ->); [lia ..|].
  destruct (IsSmallInteger op) eqn:Eo; cbn [negb]; [|discriminate]. destruct (DecodeOP_N_small _ Eo) as [-> _].
  destruct (_ || _); [discriminate|]. now destruct (_ =? _)%nat.
Qed.

Lemma Solver_total s : Solver s <> None.
Proof.
  unfold Solver. destruct (Nat.eqb_spec (length s) 0); [discriminate|]. destruct (IsPayToScriptHash s); [discriminate|].
  rewrite IsPushOnly_from_items by lia. destruct (_ && _); [discriminate|].
  destruct (MatchPayToPubkey s); [discriminate|]. destruct (MatchPayToPubkeyHash s); [discriminate|].
  destruct (MatchPayToColdStaking s) as [[? ?]|]; [discriminate|].
  pose proof (MatchMultisig_total s). now destruct (MatchMultisig s) as [[[? ?]|]|].
Qed.

(** Of the forms that [Solver] tries, a script that is not for a script hash and that does not
    start with [OP_RETURN] has the first one that matches. *)
Lemma Solver_forms s : s <> [] -> IsPayToScriptHash s = false -> (s.[0] =? OP_RETURN) = false ->
  Solver s =
  match MatchPayToPubkey s, MatchPayToPubkeyHash s, MatchPayToColdStaking s, MatchMultisig s with
  | Some data, _, _, _ => Some (true, Some TX_PUBKEY, [data])
  | None, Some data, _, _ => Some (true, Some TX_PUBKEYHASH, [data])
  | None, None, Some (data, data1), _ => Some (true, Some TX_COLDSTAKE, [data; data1])
  | None, None, None, Some (Some (required, keys)) =>
      Some (true, Some TX_MULTISIG, [[required mod 2 ^ 8]] ++ keys ++ [[Z.of_nat (length keys) mod 2 ^ 8]])
  | None, None, None, Some None => Some (false, Some TX_NONSTANDARD, [])
  | None, None, None, None => None
  end.
Proof.
  intros Hne Hsh Hret. unfold Solver. destruct (Nat.eqb_spec (length s) 0) as [E|]; [now destruct s|]. rewrite Hsh.
  rewrite IsPushOnly_from_items by lia. rewrite Hret, andb_false_r. cbn [andb].
  destruct (MatchPayToPubkey s); [reflexivity|]. destruct (MatchPayToPubkeyHash s); [reflexivity|].
  destruct (MatchPayToColdStaking s) as [[? ?]|]; [reflexivity|]. now destruct (MatchMultisig s) as [[[? ?]|]|].
Qed.

Ltac destruct_length l n :=
  lazymatch n with
  | O => destruct l as [|? ?]; [|discriminate]
  | S ?n => destruct l as [|? l]; [discriminate|]; destruct_length l n
  end.

Ltac fields l H :=
  match type of H with length _ = ?n => let n := eval vm_compute in n in destruct_length l n end; clear H.

Lemma ValidSize_cases key : ValidSize key = true ->
  (length key = 33%nat /\ (key.[0] = 2 \/ key.[0] = 3)) \/ (length key = 65%nat /\ (key.[0] = 4 \/ key.[0] = 6 \/ key.[0] = 7)).
Proof.
  unfold ValidSize, GetLen, COMPRESSED_PUBLIC_KEY_SIZE, PUBLIC_KEY_SIZE. rewrite andb_true_iff, Z.eqb_eq. intros [H1 H2].
  destruct (_ || _) eqn:E; [left; lia|]. destruct (_ || _) eqn:E' in H2; [right | destruct key; [discriminate | cbn [length] in *; lia]]. lia.
Qed.

Lemma ValidSize_small key : ValidSize key = true -> (0 < length key < 76)%nat.
Proof. intros H. apply ValidSize_cases in H. lia. Qed.

(** ** Multiple signatures *)

Lemma multisig_keys_pushes fuel pre keys rest p opcode data found :
  Forall (fun key => ValidSize key = true) keys -> next rest = (true, p, opcode, data) -> ValidSize data = false ->
  let s := pre ++ concat (map (push_data []) keys) ++ rest in
  Z.of_nat (length s) < 2 ^ 32 -> (length keys < fuel)%nat ->
  multisig_keys fuel s (length pre) found = Some ((length (pre ++ concat (map (push_data []) keys)) + p)%nat, opcode, found ++ keys).
Proof.
  intros Hkeys Hnext Hdata. revert fuel pre found; induction Hkeys as [|key keys Hkey Hkeys IH]; intros [|fuel] pre found s Hs Hf; try (cbn in Hf; lia);
    cbn [map concat app multisig_keys] in *; unfold s; rewrite GetOp_app.
  - rewrite Hnext, Hdata, !app_nil_r. now cbn [andb].
  - destruct (reads_push key) as [_ Hread]; [pose proof (ValidSize_small _ Hkey); lia|].
    unfold s in Hs. rewrite <- app_assoc, Hread by (apply small_app in Hs; now rewrite <- app_assoc in Hs). rewrite Hkey. cbn [andb].
    specialize (IH fuel (pre ++ push_data [] key) (found ++ [key])). cbn zeta in IH.
    rewrite <- !app_assoc in IH. rewrite <- !app_assoc in Hs. rewrite <- length_app, IH; [|assumption | cbn [length] in Hf; lia]. reflexivity.
Qed.

Lemma fold_push s keys : fold_left push_data keys s = s ++ concat (map (push_data []) keys).
Proof.
  revert s; induction keys as [|key keys IH]; intros s; [now rewrite app_nil_r|]. cbn [fold_left map concat]. rewrite IH, push_data_app. now rewrite <- app_assoc.
Qed.

(** A direct push. *)
Lemma push_small d : (length d < 76)%nat -> push_data [] d = Z.of_nat (length d) :: d.
Proof. intros H. unfold push_data, OP_PUSHDATA1. destruct (Z.ltb_spec (Z.of_nat (length d)) 0x4c); [|lia]. now rewrite Z.mod_small by lia. Qed.

Lemma length_pushes keys : Forall (fun key => ValidSize key = true) keys ->
  (length keys <= length (concat (map (push_data []) keys)) <= 66 * length keys)%nat.
Proof.
  induction 1 as [|key keys Hkey _ IH]; [cbn; lia|]. cbn [map concat length]. pose proof (ValidSize_cases _ Hkey).
  rewrite length_app, push_small by lia. cbn [length]. lia.
Qed.

Lemma MatchMultisig_made m keys s : 1 <= m <= Z.of_nat (length keys) -> (length keys <= 16)%nat -> Forall (fun key => ValidSize key = true) keys ->
  GetScriptForMultisig m keys = Some s ->
  s = (80 + m) :: concat (map (push_data []) keys) ++ [80 + Z.of_nat (length keys); OP_CHECKMULTISIG] /\ MatchMultisig s = Some (Some (m, keys)).
Proof.
  intros Hm Hn Hkeys. unfold GetScriptForMultisig, EncodeOP_N.
  destruct (Z.geb_spec m 0), (Z.leb_spec m 16), (Z.eqb_spec m 0); try lia.
  destruct (Z.geb_spec (Z.of_nat (length keys)) 0), (Z.leb_spec (Z.of_nat (length keys)) 16), (Z.eqb_spec (Z.of_nat (length keys)) 0); try lia. cbn [andb negb].
  replace (OP_1 + m - 1) with (80 + m) by (unfold OP_1; lia). replace (OP_1 + Z.of_nat (length keys) - 1) with (80 + Z.of_nat (length keys)) by (unfold OP_1; lia).
  unfold push_opcode. rewrite fold_push. cbn [app]. rewrite <- app_assoc. cbn [app]. intros [= <-]. split; [reflexivity|].
  clear -Hm Hn Hkeys. set (n := 80 + Z.of_nat (length keys)). set (s := (80 + m) :: concat (map (push_data []) keys) ++ [n; OP_CHECKMULTISIG]).
  pose proof (length_pushes keys Hkeys) as Hlen.
  assert (Hls : length s = (3 + length (concat (map (push_data []) keys)))%nat) by (unfold s; cbn [length]; rewrite length_app; cbn [length]; lia).
  assert (Hback : back s = OP_CHECKMULTISIG).
  { unfold s. change (?a :: ?b ++ ?c) with ((a :: b) ++ c). change [n; OP_CHECKMULTISIG] with ([n] ++ [OP_CHECKMULTISIG]). rewrite app_assoc. apply back_snoc. }
  change (MatchMultisig s = Some (Some (m, keys))). unfold MatchMultisig. rewrite Hback, Z.eqb_refl. destruct (Nat.ltb_spec (length s) 1); [lia|]. cbn [negb orb].
  assert (Hfirst : GetOp s 0 = (true, 1%nat, 80 + m, [])).
  { change (GetOp ([] ++ s) (length (@nil Z)) = (true, 1%nat, 80 + m, [])). rewrite GetOp_app. unfold s. cbn [next]. unfold OP_PUSHDATA4. now destruct (Z.leb_spec (80 + m) 0x4e); [lia|]. }
  rewrite Hfirst. cbn [negb orb]. unfold IsSmallInteger, OP_1, OP_16. destruct (Z.geb_spec (80 + m) 0x51), (Z.leb_spec (80 + m) 0x60); try lia. cbn [negb andb].
  destruct (DecodeOP_N_small (80 + m)) as [-> _]; [unfold IsSmallInteger, OP_1, OP_16; lia|].
  assert (Hnext : next [n; OP_CHECKMULTISIG] = (true, 1%nat, n, [])).
  { cbn [next]. unfold OP_PUSHDATA4, n. now destruct (Z.leb_spec (80 + Z.of_nat (length keys)) 0x4e); [lia|]. }
  pose proof (multisig_keys_pushes (S (length s)) [80 + m] keys [n; OP_CHECKMULTISIG] 1 n [] [] Hkeys Hnext eq_refl) as E.
  cbn zeta in E. change ([80 + m] ++ concat (map (push_data []) keys) ++ [n; OP_CHECKMULTISIG]) with s in E. cbn [length] in E. rewrite E by lia. clear E. cbn [app].
  destruct (Z.geb_spec n 0x51), (Z.leb_spec n 0x60); try (unfold n in *; lia). cbn [negb andb].
  destruct (DecodeOP_N_small n) as [-> _]; [unfold IsSmallInteger, OP_1, OP_16; lia|].
  destruct (Z.eqb_spec (Z.of_nat (length keys)) (n - 80)); [|unfold n in *; lia]. destruct (Z.ltb_spec (n - 80) (80 + m - 80)); [unfold n in *; lia|]. cbn [negb orb].
  cbn [length]. destruct (Nat.eqb_spec (S (length (concat (map (push_data []) keys))) + 1 + 1) (length s)); [|lia]. do 3 f_equal. lia.
Qed.

(** ** Solver on the scripts that are made *)

Lemma Solver_multisig m keys s : 1 <= m <= Z.of_nat (length keys) -> (length keys <= 16)%nat -> Forall (fun key => ValidSize key = true) keys ->
  GetScriptForMultisig m keys = Some s ->
  Solver s = Some (true, Some TX_MULTISIG, [[m]] ++ keys ++ [[Z.of_nat (length keys)]]).
Proof.
  intros Hm Hn Hkeys E. destruct (MatchMultisig_made m keys s Hm Hn Hkeys E) as [-> Hmatch].
  assert (Hm0 : forall o, o < 81 \/ 96 < o -> (80 + m =? o) = false) by (intros o Ho; lia).
  set (s := (80 + m) :: _) in *.
  assert (Hs0 : s.[0] = 80 + m) by reflexivity.
  rewrite Solver_forms; [|easy | | rewrite Hs0; apply Hm0; now right].
  2: { unfold IsPayToScriptHash. rewrite Hs0, (Hm0 OP_HASH160) by now right. now rewrite andb_false_r. }
  assert (MatchPayToPubkey s = None) as ->.
  { unfold MatchPayToPubkey. now rewrite Hs0, (Hm0 PUBLIC_KEY_SIZE), (Hm0 COMPRESSED_PUBLIC_KEY_SIZE), !andb_false_r by now left. }
  assert (MatchPayToPubkeyHash s = None) as ->.
  { unfold MatchPayToPubkeyHash. now rewrite Hs0, (Hm0 OP_DUP), !andb_false_r by now right. }
  assert (MatchPayToColdStaking s = None) as ->.
  { unfold MatchPayToColdStaking, IsPayToColdStaking. now rewrite Hs0, (Hm0 OP_DUP), !andb_false_r by now right. }
  rewrite Hmatch. now rewrite !Z.mod_small by lia.
Qed.

Lemma MatchPayToPubkey_made key : ValidSize key = true -> MatchPayToPubkey (GetScriptForRawPubKey key) = Some key /\ GetScriptForRawPubKey key = Z.of_nat (length key) :: key ++ [OP_CHECKSIG].
Proof.
  intros H. pose proof (ValidSize_cases _ H) as Hc. unfold GetScriptForRawPubKey, push_opcode. rewrite push_small by lia. cbn [app]. split; [|reflexivity].
  set (s := Z.of_nat (length key) :: key ++ [OP_CHECKSIG]). unfold MatchPayToPubkey.
  assert (Hl : length s = (length key + 2)%nat) by (unfold s; cbn [length]; rewrite length_app; cbn; lia).
  assert (Hb : back s = OP_CHECKSIG) by (unfold s; change (?a :: ?b ++ ?c) with ((a :: b) ++ c); apply back_snoc).
  assert (Hr : forall n, length key = n -> range s 1 (n + 1) = key).
  { intros n <-. unfold range, s. cbn [skipn]. replace (length key + 1 - 1)%nat with (length key) by lia.
    rewrite firstn_app, firstn_all, Nat.sub_diag, firstn_O. apply app_nil_r. }
  rewrite Hl, Hb, Z.eqb_refl. change s.[0] with (Z.of_nat (length key)). unfold PUBLIC_KEY_SIZE, COMPRESSED_PUBLIC_KEY_SIZE.
  destruct Hc as [[El _]|[El _]]; rewrite El; cbn [andb Z.eqb Z.of_nat Nat.add Pos.of_succ_nat Pos.succ Z.add Pos.add Pos.eqb].
  - change 34%nat with (33 + 1)%nat. now rewrite (Hr 33%nat), H.
  - change 66%nat with (65 + 1)%nat. now rewrite (Hr 65%nat), H.
Qed.

Lemma Solver_pubkey key : ValidSize key = true -> Solver (GetScriptForRawPubKey key) = Some (true, Some TX_PUBKEY, [key]).
Proof.
  intros H. destruct (MatchPayToPubkey_made key H) as [Hm E]. pose proof (ValidSize_cases _ H) as Hc.
  assert (H0 : (GetScriptForRawPubKey key).[0] = Z.of_nat (length key)) by now rewrite E.
  rewrite Solver_forms; [now rewrite Hm | now rewrite E | |].
  - unfold IsPayToScriptHash. rewrite H0. unfold OP_HASH160. destruct (Z.eqb_spec (Z.of_nat (length key)) 0xa9); [lia|]. now rewrite andb_false_r.
  - rewrite H0. unfold OP_RETURN. lia.
Qed.

Lemma Solver_opreturn message : Z.of_nat (length message) < 2 ^ 31 -> Solver (GetScriptForOpReturn message) = Some (true, Some TX_NULL_DATA, []).
Proof.
  intros Hl. unfold GetScriptForOpReturn, push_opcode. cbn [app]. rewrite push_data_app.
  destruct (reads_push message Hl) as [Hne Hread]. set (c := push_data [] message) in *.
  assert (Hlen : Z.of_nat (length c) < 2 ^ 32).
  { unfold c, push_data. rewrite length_app. repeat match goal with |- context [if ?b then _ else _] => destruct b end; cbn [length app]; rewrite ?(length_le_split 2), ?(length_le_split 4); lia. }
  unfold Solver. cbn [app length Nat.eqb]. unfold IsPayToScriptHash. cbn [nth]. rewrite andb_false_r. cbn [andb].
  rewrite IsPushOnly_from_items by (cbn [length]; lia). cbn [skipn].
  assert (Hi : items c = ([(push_opcode_of (Z.of_nat (length message)), message)], true)).
  { pose proof (items_chunks [c] [(push_opcode_of (Z.of_nat (length message)), message)]) as E. cbn [concat] in E. rewrite app_nil_r in E. apply E; [|assumption].
    constructor; [now split | constructor]. }
  rewrite Hi. cbn [fst snd forallb Nat.leb andb].
  assert (Hop : (push_opcode_of (Z.of_nat (length message)) >? OP_16) = false).
  { unfold push_opcode_of, OP_16, OP_PUSHDATA1, OP_PUSHDATA2, OP_PUSHDATA4. repeat match goal with |- context [if ?b then _ else _] => destruct b eqn:? end; lia. }
  rewrite Hop. reflexivity.
Qed.

Lemma CPubKey_valid key : ValidSize key = true -> CPubKey_of key = key /\ CPubKey_IsValid key = true.
Proof.
  intros Hk. unfold CPubKey_of, CPubKey_IsValid. rewrite Hk. split; [reflexivity|]. apply Nat.ltb_lt. pose proof (ValidSize_small _ Hk). lia.
Qed.

Lemma key_addresses_valid buf local keys : Forall (fun key => ValidSize key = true) keys ->
  key_addresses buf local keys = map (fun key => CKeyID (Hash160 buf local key)) keys.
Proof.
  induction 1 as [|key keys Hk _ IH]; [reflexivity|]. unfold key_addresses in *. cbn [flat_map map]. destruct (CPubKey_valid key Hk) as [-> ->].
  cbn [negb app]. now rewrite IH.
Qed.

Lemma key_addresses_multisig buf local (m n : list Z) keys : Forall (fun key => ValidSize key = true) keys ->
  key_addresses buf local (firstn (length ([m] ++ keys ++ [n]) - 2) (skipn 1 ([m] ++ keys ++ [n]))) =
  map (fun key => CKeyID (Hash160 buf local key)) keys.
Proof.
  intros Hk. cbn [app skipn length]. rewrite length_app. cbn [length]. replace (S (length keys + 1) - 2)%nat with (length keys) by lia.
  rewrite firstn_app, firstn_all, Nat.sub_diag, firstn_O, app_nil_r. now apply key_addresses_valid.
Qed.

(** C19. The script that is made for a public key, a key hash, a script hash, two hashes that
    share a cold stake, several public keys or a message is read back by [Solver] with its type
    and its parts. [ExtractDestination] gives the destination of each of them that has one (of
    a cold stake the staker or the owner), [ExtractDestinations] all destinations, the type
    and the number of signatures, and nothing for a message. For no script does [Solver] run out of its
    bounds or fail an assertion. *)
Theorem standard_scripts buf local a b key message keys m s :
  length a = 20%nat -> length b = 20%nat -> ValidSize key = true -> Z.of_nat (length message) < 2 ^ 31 ->
  1 <= m <= Z.of_nat (length keys) -> (length keys <= 16)%nat -> Forall (fun key => ValidSize key = true) keys ->
  GetScriptForMultisig m keys = Some s ->
  (forall s, Solver s <> None) /\
  Solver (GetScriptForRawPubKey key) = Some (true, Some TX_PUBKEY, [key]) /\
  Solver (GetScriptForDestination (CKeyID a)) = Some (true, Some TX_PUBKEYHASH, [a]) /\
  Solver (GetScriptForDestination (CScriptID a)) = Some (true, Some TX_SCRIPTHASH, [a]) /\
  Solver (GetScriptForStakeDelegation a b) = Some (true, Some TX_COLDSTAKE, [a; b]) /\
  Solver (GetScriptForStakeDelegationLOF a b) = Some (true, Some TX_COLDSTAKE, [a; b]) /\
  Solver s = Some (true, Some TX_MULTISIG, [[m]] ++ keys ++ [[Z.of_nat (length keys)]]) /\
  Solver (GetScriptForOpReturn message) = Some (true, Some TX_NULL_DATA, []) /\
  (forall fColdStake,
    ExtractDestination buf local (GetScriptForRawPubKey key) fColdStake = Some (Some (CKeyID (Hash160 buf local key))) /\
    ExtractDestination buf local (GetScriptForDestination (CKeyID a)) fColdStake = Some (Some (CKeyID a)) /\
    ExtractDestination buf local (GetScriptForDestination (CScriptID a)) fColdStake = Some (Some (CScriptID a)) /\
    ExtractDestination buf local (GetScriptForStakeDelegation a b) fColdStake = Some (Some (CKeyID (if fColdStake then a else b))) /\
    ExtractDestination buf local (GetScriptForStakeDelegationLOF a b) fColdStake = Some (Some (CKeyID (if fColdStake then a else b))) /\
    ExtractDestination buf local s fColdStake = Some None /\
    ExtractDestination buf local (GetScriptForOpReturn message) fColdStake = Some None) /\
  ExtractDestinations buf local (GetScriptForRawPubKey key) = Some (Some (TX_PUBKEY, [CKeyID (Hash160 buf local key)], 1)) /\
  ExtractDestinations buf local (GetScriptForDestination (CKeyID a)) = Some (Some (TX_PUBKEYHASH, [CKeyID a], 1)) /\
  ExtractDestinations buf local (GetScriptForDestination (CScriptID a)) = Some (Some (TX_SCRIPTHASH, [CScriptID a], 1)) /\
  ExtractDestinations buf local (GetScriptForStakeDelegation a b) = Some (Some (TX_COLDSTAKE, [CKeyID a; CKeyID b], 2)) /\
  ExtractDestinations buf local (GetScriptForStakeDelegationLOF a b) = Some (Some (TX_COLDSTAKE, [CKeyID a; CKeyID b], 2)) /\
  ExtractDestinations buf local s = Some (Some (TX_MULTISIG, map (fun key => CKeyID (Hash160 buf local key)) keys, m)) /\
  ExtractDestinations buf local (GetScriptForOpReturn message) = Some None.
Proof.
  intros Ha Hb Hk Hmsg Hm Hn Hkeys Hs.
  assert (H1 : Solver (GetScriptForDestination (CKeyID a)) = Some (true, Some TX_PUBKEYHASH, [a])) by (fields a Ha; reflexivity).
  assert (H2 : Solver (GetScriptForDestination (CScriptID a)) = Some (true, Some TX_SCRIPTHASH, [a])) by (fields a Ha; reflexivity).
  assert (H3 : Solver (GetScriptForStakeDelegation a b) = Some (true, Some TX_COLDSTAKE, [a; b])) by (fields a Ha; fields b Hb; reflexivity).
  assert (H4 : Solver (GetScriptForStakeDelegationLOF a b) = Some (true, Some TX_COLDSTAKE, [a; b])) by (fields a Ha; fields b Hb; reflexivity).
  pose proof (Solver_pubkey key Hk) as H5.
  assert (Hid : CPubKey_of key = key /\ CPubKey_IsValid key = true).
  { now apply CPubKey_valid. }
  assert (Hs' := Solver_multisig m keys s Hm Hn Hkeys Hs). pose proof (Solver_opreturn message Hmsg) as H6.
  split; [apply Solver_total|]. do 5 (split; [assumption|]). split; [exact Hs'|]. split; [exact H6|].
  unfold ExtractDestinations. rewrite Hs', H6, H1, H2, H3, H4, H5. rewrite key_addresses_multisig by assumption.
  unfold ExtractDestination. rewrite Hs', H6, H1, H2, H3, H4, H5. cbn [nth]. destruct Hid as [-> ->]. rewrite length_map.
  destruct (Nat.eqb_spec (length keys) 0); [lia|]. split; [intros [|]|]; repeat split.
Qed.

Lemma standard_scripts_witness :
  Solver (GetScriptForDestination (CKeyID (repeat 7 20))) = Some (true, Some TX_PUBKEYHASH, [repeat 7 20]).
Proof.
  apply (standard_scripts (repeat 0 64) (repeat 0 64) (repeat 7 20) (repeat 8 20) (2 :: repeat 9 32) [1; 2] [2 :: repeat 9 32] 1
    (81 :: 33 :: 2 :: repeat 9 32 ++ [81; 174])); try reflexivity; cbn; try lia. now constructor.
Defined.

Ltac literal_script s :=
  repeat match goal with
         | H : _ && _ = true |- _ => apply andb_true_iff in H; destruct H
         | H : (_ =? _)%nat = true |- _ => apply Nat.eqb_eq in H
         end;
  match goal with H : length s = _ |- _ => fields s H end; cbn [nth] in *;
  repeat match goal with H : (?x =? _) = true |- _ => is_var x; apply Z.eqb_eq in H; subst x end.

Lemma IsPayToScriptHash_form s : IsPayToScriptHash s = true ->
  length (range s 2 22) = 20%nat /\ s = GetScriptForDestination (CScriptID (range s 2 22)).
Proof. unfold IsPayToScriptHash. intros H. literal_script s. now split. Qed.

Lemma MatchPayToPubkeyHash_form s h : MatchPayToPubkeyHash s = Some h -> length h = 20%nat /\ s = GetScriptForDestination (CKeyID h).
Proof. unfold MatchPayToPubkeyHash. destruct (_ && _) eqn:H; [|discriminate]. intros [= <-]. literal_script s. now split. Qed.

Lemma MatchPayToColdStaking_form s a b : MatchPayToColdStaking s = Some (a, b) ->
  length a = 20%nat /\ length b = 20%nat /\ (s = GetScriptForStakeDelegation a b \/ s = GetScriptForStakeDelegationLOF a b).
Proof.
  unfold MatchPayToColdStaking. destruct (IsPayToColdStaking s) eqn:H; [|discriminate]. intros [= <- <-]. unfold IsPayToColdStaking in H. literal_script s.
  split; [reflexivity|]. split; [reflexivity|].
  match goal with H : _ || _ = true |- _ => apply orb_true_iff in H as [H|H]; apply Z.eqb_eq in H; subst end; [left | right]; reflexivity.
Qed.

Lemma MatchPayToPubkey_form s key : MatchPayToPubkey s = Some key -> ValidSize key = true /\ s = GetScriptForRawPubKey key.
Proof.
  unfold MatchPayToPubkey, PUBLIC_KEY_SIZE, COMPRESSED_PUBLIC_KEY_SIZE. destruct (_ && _) eqn:H.
  - destruct (ValidSize _) eqn:Hv; [|discriminate]. intros [= <-]. split; [assumption|]. apply andb_true_iff in H as [H Hb]. apply andb_true_iff in H as [Hl H0].
    apply Z.eqb_eq in Hl. assert (E : length s = 67%nat) by lia. clear Hl Hv. fields s E. cbn [nth] in H0. apply Z.eqb_eq in H0, Hb. cbn [back last] in Hb. unfold back in Hb. cbn [last] in Hb. now subst.
  - clear H. destruct (_ && _) eqn:H; [|discriminate]. destruct (ValidSize _) eqn:Hv; [|discriminate]. intros [= <-]. split; [assumption|]. apply andb_true_iff in H as [H Hb]. apply andb_true_iff in H as [Hl H0].
    apply Z.eqb_eq in Hl. assert (E : length s = 35%nat) by lia. clear Hl Hv. fields s E. cbn [nth] in H0. apply Z.eqb_eq in H0, Hb. unfold back in Hb. cbn [last] in Hb. now subst.
Qed.

Lemma MatchMultisig_form s m keys : MatchMultisig s = Some (Some (m, keys)) -> (1 <= m <= Z.of_nat (length keys)) /\ (length keys <= 16)%nat.
Proof.
  unfold MatchMultisig. destruct (_ || _); [discriminate|]. destruct (GetOp s 0) as [[[read it] opcode] data]. destruct (_ || _) eqn:E1; [discriminate|].
  apply orb_false_iff in E1 as [_ E1]. apply negb_false_iff in E1. destruct (DecodeOP_N_small _ E1) as [-> H1].
  destruct (multisig_keys _ _ _ _) as [[[it' op] ks]|]; [|discriminate]. destruct (IsSmallInteger op) eqn:E2; cbn [negb]; [|discriminate].
  destruct (DecodeOP_N_small _ E2) as [-> H2]. destruct (_ || _) eqn:E3; [discriminate|]. apply orb_false_iff in E3 as [E3 E4]. apply negb_false_iff, Z.eqb_eq in E3.
  destruct (_ =? _)%nat; [|discriminate]. intros [= <- <-]. lia.
Qed.

(** Conversely, a script that [Solver] takes for a key, a hash or a cold stake is the one
    that is made for the parts it returns, one that it takes for several keys requires as many
    of them as it says, at most 16, and one that it takes for a message starts with
    [OP_RETURN] and goes on with complete instructions up to [OP_16]. *)
Theorem solved_scripts s t solutions :
  Solver s = Some (true, Some t, solutions) ->
  match t, solutions with
  | TX_PUBKEY, [key] => ValidSize key = true /\ s = GetScriptForRawPubKey key
  | TX_PUBKEYHASH, [h] => length h = 20%nat /\ s = GetScriptForDestination (CKeyID h)
  | TX_SCRIPTHASH, [h] => length h = 20%nat /\ s = GetScriptForDestination (CScriptID h)
  | TX_COLDSTAKE, [a; b] =>
      length a = 20%nat /\ length b = 20%nat /\ (s = GetScriptForStakeDelegation a b \/ s = GetScriptForStakeDelegationLOF a b)
  | TX_MULTISIG, _ =>
      exists m keys, solutions = [[m]] ++ keys ++ [[Z.of_nat (length keys)]] /\ (1 <= m <= Z.of_nat (length keys)) /\ (length keys <= 16)%nat
  | TX_NULL_DATA, [] => s.[0] = OP_RETURN /\ IsPushOnly_from s 1 = Some true
  | _, _ => False
  end.
Proof.
  unfold Solver. destruct (Nat.eqb_spec (length s) 0) as [|Hne]; [discriminate|].
  destruct (IsPayToScriptHash s) eqn:Esh; [intros [= <- <-]; now apply IsPayToScriptHash_form|].
  destruct (IsPushOnly_from s 1) as [pushes|] eqn:Ep; [|discriminate].
  destruct (_ && pushes) eqn:En.
  { intros [= <- <-]. apply andb_true_iff in En as [En ->]. apply andb_true_iff in En as [_ En]. now apply Z.eqb_eq in En. }
  destruct (MatchPayToPubkey s) as [key|] eqn:E1; [intros [= <- <-]; now apply MatchPayToPubkey_form|].
  destruct (MatchPayToPubkeyHash s) as [h|] eqn:E2; [intros [= <- <-]; now apply MatchPayToPubkeyHash_form|].
  destruct (MatchPayToColdStaking s) as [[a b]|] eqn:E3; [intros [= <- <-]; now apply MatchPayToColdStaking_form|].
  destruct (MatchMultisig s) as [[[m keys]|]|] eqn:E4; [|discriminate..]. apply MatchMultisig_form in E4 as [H1 H2]. intros [= <- <-].
  exists m, keys. now rewrite !Z.mod_small by lia.
Qed.

Lemma solved_scripts_witness : length (repeat 7 20) = 20%nat /\ 118 :: 169 :: 20 :: repeat 7 20 ++ [136; 172] = GetScriptForDestination (CKeyID (repeat 7 20)).
Proof. apply (solved_scripts (118 :: 169 :: 20 :: repeat 7 20 ++ [136; 172]) TX_PUBKEYHASH [repeat 7 20]). vm_compute. reflexivity. Defined.

(** C20. The functions that read a script are those of its list of instructions: a script that
    is made of instructions is read as them; [IsPushOnly] holds when there is nothing else and
    all opcodes are at most [OP_16], [Find] counts the opcode, [GetSigOpCount] adds what every
    instruction counts, modulo 2^32, in a script for a script hash those of the last item that
    is pushed; and [FindAndDelete] takes out the instructions that are [b], and counts them. No
    loop runs out of its bounds. *)
Theorem script_reading cs l b i op fAccurate scriptSig s :
  Forall2 chunk cs l -> chunk b i -> Z.of_nat (length (concat cs)) < 2 ^ 32 ->
  items (concat cs) = (l, true) /\
  IsPushOnly s = Some (forallb (fun i => negb (fst i >? OP_16)) (fst (items s)) && snd (items s)) /\
  Find s op = Some (Z.of_nat (length (filter (fun i => fst i =? op) (fst (items s))))) /\
  GetSigOpCount s fAccurate = Some (w32 (sigops fAccurate OP_INVALIDOPCODE (fst (items s)))) /\
  GetSigOpCount_P2SH s scriptSig = Some (w32 (
    if IsPayToScriptHash s then
      if forallb (fun i => negb (fst i >? OP_16)) (fst (items scriptSig)) && snd (items scriptSig)
      then sigops true OP_INVALIDOPCODE (fst (items (last (map snd (fst (items scriptSig))) []))) else 0
    else sigops true OP_INVALIDOPCODE (fst (items s)))) /\
  FindAndDelete (concat cs) b = Some (concat (others b cs), occurrences b cs) /\
  FindAndDelete s b <> None.
Proof.
  intros Hcs Hb Hl.
  assert (Hcount : forall s acc, GetSigOpCount s acc = Some (w32 (sigops acc OP_INVALIDOPCODE (fst (items s))))).
  { intros t acc. unfold GetSigOpCount. rewrite GetSigOpCount_loop_items by (try lia; now apply word_0). reflexivity. }
  split; [now apply items_chunks|]. split; [apply (IsPushOnly_from_items s 0); lia|].
  split; [unfold Find; rewrite Find_loop_items by lia; reflexivity|]. split; [apply Hcount|]. split.
  - unfold GetSigOpCount_P2SH. destruct (IsPayToScriptHash s); cbn [negb]; [|apply Hcount].
    rewrite last_push_loop_items by lia. cbn [skipn]. destruct (_ && _); [apply Hcount | reflexivity].
  - split; [|apply FindAndDelete_total]. apply (FindAndDelete_chunks b i Hb); [|assumption].
    clear -Hcs. induction Hcs; constructor; eauto.
Qed.

Lemma script_reading_witness :
  FindAndDelete (concat [[0x76]; [2; 7; 8]; [0xac]; [2; 7; 8]]) [2; 7; 8] = Some ([0x76; 0xac], 2).
Proof.
  assert (Hpush : chunk [2; 7; 8] (2, [7; 8])) by exact (reads_push [7; 8] eq_refl).
  assert (Hop : forall o, o > 0x4e -> chunk [o] (o, [])) by (intros o; apply (reads_opcode o)).
  apply (script_reading [[0x76]; [2; 7; 8]; [0xac]; [2; 7; 8]] [(0x76, []); (2, [7; 8]); (0xac, []); (2, [7; 8])] [2; 7; 8] (2, [7; 8]) 0 true [] []).
  - constructor; [now apply Hop|]. constructor; [exact Hpush|]. constructor; [now apply Hop|]. constructor; [exact Hpush | constructor].
  - exact Hpush.
  - reflexivity.
Defined.

End ScriptLaws.
