(* ===== verification/Transactions.v ===== *)
(** primitives/transaction.h, primitives/transaction.cpp, primitives/block.h,
    primitives/block.cpp and sapling/sapling_transaction.h: the data that nodes exchange,
    its serialization, the hashes of transactions and of block headers, and the predicates
    and sums that the classes define. *)
From Stdlib Require Import ZifyNat.
From S2P Require Import Prelude CryptoCommon Uint256 Sha256 HashClasses Quark Streams Serialize Script.
Import CryptoCommon Uint256.

Module Tx.

(** [sizeof] of the element types of the vectors on the platform. *)
Class Sizes := {
  sizeof_CTxIn : Z;
  sizeof_CTxOut : Z;
  sizeof_SpendDescription : Z;
  sizeof_OutputDescription : Z;
  sizeof_CTransactionRef : Z;
  sizeof_uint256 : Z
}.

Definition uint256F : format (list Z) := blobF 32.
(** [CScript] is serialized as its base, a [prevector] of bytes. *)
Definition CScriptF : format (list Z) := charsF.

(** * Outpoints, inputs and outputs *)

Record COutPoint := { hash : list Z; n : Z; isTransparent : bool }.
Definition COutPoint_null : COutPoint := {| hash := repeat 0 32; n := w32 (-1); isTransparent := true |}.

Definition COutPoint_IsNull (o : COutPoint) : bool := IsNull 32 (hash o) && (n o =? w32 (-1)).
Definition COutPoint_lt (a b : COutPoint) : bool :=
  op_lt 32 (hash a) (hash b) || (op_eq 32 (hash a) (hash b) && (n a <? n b)).
Definition COutPoint_eq (a b : COutPoint) : bool := op_eq 32 (hash a) (hash b) && (n a =? n b).

(** Reading into an object sets the members that are serialized; the others keep the value
    that the constructor without arguments gives them. *)
Definition COutPointF : format COutPoint :=
  {| ser obj := ser uint256F (hash obj) ++ ser uint32F (n obj);
     unser S R s :=
       let? (hash, s) := unser uint256F s in
       let? (n, s) := unser uint32F s in
       Ok ({| hash := hash; n := n; isTransparent := isTransparent COutPoint_null |}, s) |}.

Record CTxIn := { prevout : COutPoint; scriptSig : list Z; nSequence : Z }.
Definition SEQUENCE_FINAL : Z := 0xffffffff.

Definition CTxInF : format CTxIn :=
  {| ser obj := ser COutPointF (prevout obj) ++ ser CScriptF (scriptSig obj) ++ ser uint32F (nSequence obj);
     unser S R s :=
       let? (prevout, s) := unser COutPointF s in
       let? (scriptSig, s) := unser CScriptF s in
       let? (nSequence, s) := unser uint32F s in
       Ok ({| prevout := prevout; scriptSig := scriptSig; nSequence := nSequence |}, s) |}.

Definition CTxIn_IsFinal (i : CTxIn) : bool := nSequence i =? SEQUENCE_FINAL.
Definition CTxIn_IsNull (i : CTxIn) : bool :=
  COutPoint_IsNull (prevout i) && (length (scriptSig i) =? 0)%nat && CTxIn_IsFinal i.

Record CTxOut := { nValue : Z; scriptPubKey : list Z; nRounds : Z }.
Definition CTxOut_null : CTxOut := {| nValue := -1; scriptPubKey := []; nRounds := -10 |}.

Definition CTxOutF : format CTxOut :=
  {| ser obj := ser int64F (nValue obj) ++ ser CScriptF (scriptPubKey obj);
     unser S R s :=
       let? (nValue, s) := unser int64F s in
       let? (scriptPubKey, s) := unser CScriptF s in
       Ok ({| nValue := nValue; scriptPubKey := scriptPubKey; nRounds := nRounds CTxOut_null |}, s) |}.

Definition CTxOut_IsNull (o : CTxOut) : bool := nValue o =? -1.
Definition CTxOut_IsEmpty (o : CTxOut) : bool := (nValue o =? 0) && (length (scriptPubKey o) =? 0)%nat.

(** The forms of scripts that the classes look for. *)
Export Script.Script(StartsWithOpcode, OP_ZEROCOINMINT, OP_ZEROCOINSPEND, OP_ZEROCOINPUBLICSPEND,
  IsZerocoinMint, IsZerocoinSpend, IsZerocoinPublicSpend, IsPayToColdStaking, IsPayToColdStakingLOF).

Definition CTxIn_IsZerocoinSpend (i : CTxIn) : bool := IsNull 32 (hash (prevout i)) && IsZerocoinSpend (scriptSig i).
Definition CTxIn_IsZerocoinPublicSpend (i : CTxIn) : bool := IsZerocoinPublicSpend (scriptSig i).
Definition CTxOut_IsZerocoinMint (o : CTxOut) : bool := IsZerocoinMint (scriptPubKey o).

(** * Sapling data *)

Definition GROTH_PROOF_SIZE : nat := 48 + 96 + 48.
Definition ENCCIPHERTEXT_SIZE : nat := (1 + 11 + 8 + 32 + 512) + 16.
Definition OUTCIPHERTEXT_SIZE : nat := (32 + 32) + 16.
Definition BINDINGSIG_SIZE : nat := 64.

Record SpendDescription := {
  sd_cv : list Z; anchor : list Z; nullifier : list Z; rk : list Z; sd_zkproof : list Z; spendAuthSig : list Z
}.

Definition SpendDescriptionF : format SpendDescription :=
  {| ser obj := ser uint256F (sd_cv obj) ++ ser uint256F (anchor obj) ++ ser uint256F (nullifier obj) ++ ser uint256F (rk obj) ++
       ser (arrayF GROTH_PROOF_SIZE uint8F) (sd_zkproof obj) ++ ser (arrayF 64 uint8F) (spendAuthSig obj);
     unser S R s :=
       let? (cv, s) := unser uint256F s in
       let? (anchor, s) := unser uint256F s in
       let? (nullifier, s) := unser uint256F s in
       let? (rk, s) := unser uint256F s in
       let? (zkproof, s) := unser (arrayF GROTH_PROOF_SIZE uint8F) s in
       let? (spendAuthSig, s) := unser (arrayF 64 uint8F) s in
       Ok ({| sd_cv := cv; anchor := anchor; nullifier := nullifier; rk := rk; sd_zkproof := zkproof; spendAuthSig := spendAuthSig |}, s) |}.

Record OutputDescription := {
  od_cv : list Z; cmu : list Z; ephemeralKey : list Z; encCiphertext : list Z; outCiphertext : list Z; od_zkproof : list Z
}.

Definition OutputDescriptionF : format OutputDescription :=
  {| ser obj := ser uint256F (od_cv obj) ++ ser uint256F (cmu obj) ++ ser uint256F (ephemeralKey obj) ++
       ser (arrayF ENCCIPHERTEXT_SIZE uint8F) (encCiphertext obj) ++ ser (arrayF OUTCIPHERTEXT_SIZE uint8F) (outCiphertext obj) ++
       ser (arrayF GROTH_PROOF_SIZE uint8F) (od_zkproof obj);
     unser S R s :=
       let? (cv, s) := unser uint256F s in
       let? (cmu, s) := unser uint256F s in
       let? (ephemeralKey, s) := unser uint256F s in
       let? (encCiphertext, s) := unser (arrayF ENCCIPHERTEXT_SIZE uint8F) s in
       let? (outCiphertext, s) := unser (arrayF OUTCIPHERTEXT_SIZE uint8F) s in
       let? (zkproof, s) := unser (arrayF GROTH_PROOF_SIZE uint8F) s in
       Ok ({| od_cv := cv; cmu := cmu; ephemeralKey := ephemeralKey; encCiphertext := encCiphertext;
              outCiphertext := outCiphertext; od_zkproof := zkproof |}, s) |}.

Record SaplingTxData := {
  valueBalance : Z; vShieldedSpend : list SpendDescription; vShieldedOutput : list OutputDescription; bindingSig : list Z
}.
Definition SaplingTxData_default : SaplingTxData :=
  {| valueBalance := 0; vShieldedSpend := []; vShieldedOutput := []; bindingSig := repeat 0 BINDINGSIG_SIZE |}.

Definition hasBindingSig (d : SaplingTxData) : bool := existsb (fun c => negb (c =? 0)) (bindingSig d).

Section Vectors.
Context {sizes : Sizes}.

Definition SaplingTxDataF : format SaplingTxData :=
  {| ser obj := ser int64F (valueBalance obj) ++ ser (VectorFormatter sizeof_SpendDescription SpendDescriptionF) (vShieldedSpend obj) ++
       ser (VectorFormatter sizeof_OutputDescription OutputDescriptionF) (vShieldedOutput obj) ++
       ser (arrayF BINDINGSIG_SIZE uint8F) (bindingSig obj);
     unser S R s :=
       let? (valueBalance, s) := unser int64F s in
       let? (vShieldedSpend, s) := unser (VectorFormatter sizeof_SpendDescription SpendDescriptionF) s in
       let? (vShieldedOutput, s) := unser (VectorFormatter sizeof_OutputDescription OutputDescriptionF) s in
       let? (bindingSig, s) := unser (arrayF BINDINGSIG_SIZE uint8F) s in
       Ok ({| valueBalance := valueBalance; vShieldedSpend := vShieldedSpend; vShieldedOutput := vShieldedOutput;
              bindingSig := bindingSig |}, s) |}.

(** * Transactions *)

(** The members of [CMutableTransaction], and of [CTransaction] without its cached hash. *)
Record CTransaction := {
  vin : list CTxIn;
  vout : list CTxOut;
  nVersion : Z;
  nType : Z;
  nLockTime : Z;
  sapData : option SaplingTxData;
  extraPayload : option (list Z)
}.

Definition SAPLING : Z := 3.
Definition NORMAL : Z := 0.
Definition PROREG : Z := 1.

Definition isSaplingVersion (nVersion : Z) : bool := nVersion >=? SAPLING.
Definition IsNormalType (nType : Z) : bool := nType =? NORMAL.

Definition vinF : format (list CTxIn) := VectorFormatter sizeof_CTxIn CTxInF.
Definition voutF : format (list CTxOut) := VectorFormatter sizeof_CTxOut CTxOutF.
Definition sapDataF : format (option SaplingTxData) := OptionalF SaplingTxDataF.
Definition extraPayloadF : format (option (list Z)) := OptionalF charsF.

Definition SerializeTransaction (tx : CTransaction) : list Z :=
  ser int16F (nVersion tx) ++ ser int16F (nType tx) ++ ser vinF (vin tx) ++ ser voutF (vout tx) ++ ser uint32F (nLockTime tx) ++
  (if isSaplingVersion (nVersion tx) then
     ser sapDataF (sapData tx) ++
     (if negb (IsNormalType (nType tx)) then ser extraPayloadF (extraPayload tx) else [])
   else []).

(** Into a new object, whose [sapData] is an empty [SaplingTxData]. *)
Definition UnserializeTransaction {S} {R : Reader S} (s : S) : result (CTransaction * S) :=
  let? (nVersion, s) := unser int16F s in
  let? (nType, s) := unser int16F s in
  let? (vin, s) := unser vinF s in
  let? (vout, s) := unser voutF s in
  let? (nLockTime, s) := unser uint32F s in
  let tx sapData extraPayload :=
    {| vin := vin; vout := vout; nVersion := nVersion; nType := nType; nLockTime := nLockTime;
       sapData := sapData; extraPayload := extraPayload |} in
  if isSaplingVersion nVersion then
    let? (sapData, s) := unser sapDataF s in
    if negb (IsNormalType nType) then
      let? (extraPayload, s) := unser extraPayloadF s in
      Ok (tx sapData extraPayload, s)
    else Ok (tx sapData None, s)
  else Ok (tx (Some SaplingTxData_default) None, s).

Definition CTransactionF : format CTransaction :=
  {| ser := SerializeTransaction; unser S R s := UnserializeTransaction s |}.

(** [SerializeHash]: a [CHashWriter], whose [write] is [CHash256::Write]; [buf] is its
    buffer. [CTransaction::ComputeHash] and [CMutableTransaction::GetHash]. *)
Definition SerializeHash {A} (buf : list Z) (f : format A) (obj : A) : list Z :=
  fst (CHash256_Finalize (CHash256_Write (Sha256.CSHA256 buf) (ser f obj))).
Definition ComputeHash (buf : list Z) (tx : CTransaction) : list Z := SerializeHash buf CTransactionF tx.
Definition CTxOut_GetHash (buf : list Z) (o : CTxOut) : list Z := SerializeHash buf CTxOutF o.

Definition IsNull (tx : CTransaction) : bool := (length (vin tx) =? 0)%nat && (length (vout tx) =? 0)%nat.

Definition hasSaplingData (tx : CTransaction) : bool :=
  match sapData tx with
  | None => false
  | Some d => negb (length (vShieldedOutput d) =? 0)%nat || negb (length (vShieldedSpend d) =? 0)%nat ||
              negb (valueBalance d =? 0) || hasBindingSig d
  end.
Definition IsShieldedTx (tx : CTransaction) : bool := isSaplingVersion (nVersion tx) && hasSaplingData tx.
Definition hasExtraPayload (tx : CTransaction) : bool :=
  match extraPayload tx with None => false | Some p => negb (length p =? 0)%nat end.
Definition IsSpecialTx (tx : CTransaction) : bool :=
  isSaplingVersion (nVersion tx) && negb (nType tx =? NORMAL) && hasExtraPayload tx.
Definition IsProRegTx (tx : CTransaction) : bool := IsSpecialTx tx && (nType tx =? PROREG).
Definition GetRequiredSigVersion (tx : CTransaction) : Z := if isSaplingVersion (nVersion tx) then 1 else 0.

Definition HasZerocoinSpendInputs (tx : CTransaction) : bool :=
  existsb (fun txin => CTxIn_IsZerocoinSpend txin || CTxIn_IsZerocoinPublicSpend txin) (vin tx).
Definition HasZerocoinMintOutputs (tx : CTransaction) : bool := existsb CTxOut_IsZerocoinMint (vout tx).
Definition HasZerocoinPublicSpendInputs (tx : CTransaction) : bool := existsb CTxIn_IsZerocoinPublicSpend (vin tx).
Definition ContainsZerocoins (tx : CTransaction) : bool := HasZerocoinSpendInputs tx || HasZerocoinMintOutputs tx.

Definition null_in : CTxIn := {| prevout := COutPoint_null; scriptSig := []; nSequence := SEQUENCE_FINAL |}.

Definition IsCoinBase (tx : CTransaction) : bool :=
  (length (vin tx) =? 1)%nat && COutPoint_IsNull (prevout (nth 0 (vin tx) null_in)) && negb (IsZerocoinSpend (scriptSig (nth 0 (vin tx) null_in))).

Definition IsCoinStake (tx : CTransaction) : bool :=
  if (length (vin tx) =? 0)%nat then false
  else
    let vin0 := nth 0 (vin tx) null_in in
    let fAllowNull := CTxIn_IsZerocoinSpend vin0 in
    if COutPoint_IsNull (prevout vin0) && negb fAllowNull then false
    else (2 <=? length (vout tx))%nat && CTxOut_IsEmpty (nth 0 (vout tx) CTxOut_null).

Definition HasP2CSOutputs (tx : CTransaction) : bool := existsb (fun txout => IsPayToColdStaking (scriptPubKey txout)) (vout tx).

(** Additions of [CAmount] wrap around; [None] is an exception. *)
Definition i64 (x : Z) : Z := signed 64 (x mod 2 ^ 64).

Fixpoint GetValueOut_loop (vout : list CTxOut) (nValueOut : Z) : option Z :=
  match vout with
  | [] => Some nValueOut
  | it :: vout =>
      if nValue it <? 0 then None
      else if i64 (nValueOut + nValue it) <? nValueOut then None
      else GetValueOut_loop vout (i64 (nValueOut + nValue it))
  end.

Definition sap_valueBalance (tx : CTransaction) : Z := match sapData tx with Some d => valueBalance d | None => 0 end.

Definition GetValueOut (tx : CTransaction) : option Z :=
  match GetValueOut_loop (vout tx) 0 with
  | None => None
  | Some nValueOut =>
      if hasSaplingData tx && (sap_valueBalance tx <? 0) then
        let nValueOut := i64 (nValueOut + i64 (- sap_valueBalance tx)) in
        if negb (isSaplingVersion (nVersion tx)) then None else Some nValueOut
      else Some nValueOut
  end.

Definition GetShieldedValueIn (tx : CTransaction) : option Z :=
  if hasSaplingData tx && (sap_valueBalance tx >? 0) then
    let nValue := i64 (0 + sap_valueBalance tx) in
    if negb (isSaplingVersion (nVersion tx)) then None else Some nValue
  else Some 0.

Definition GetTotalSize (tx : CTransaction) : Z := w32 (GetSerializeSize CTransactionF tx).

(** * Block headers *)

Record CBlockHeader := {
  h_nVersion : Z;
  hashPrevBlock : list Z;
  hashMerkleRoot : list Z;
  nTime : Z;
  nBits : Z;
  nNonce : Z;
  nAccumulatorCheckpoint : list Z;
  hashFinalSaplingRoot : list Z
}.

Definition CBlockHeader_SetNull : CBlockHeader :=
  {| h_nVersion := 11; hashPrevBlock := repeat 0 32; hashMerkleRoot := repeat 0 32; nTime := 0; nBits := 0; nNonce := 0;
     nAccumulatorCheckpoint := repeat 0 32; hashFinalSaplingRoot := repeat 0 32 |}.

Definition CBlockHeaderF : format CBlockHeader :=
  {| ser obj :=
       ser int32F (h_nVersion obj) ++ ser uint256F (hashPrevBlock obj) ++ ser uint256F (hashMerkleRoot obj) ++
       ser uint32F (nTime obj) ++ ser uint32F (nBits obj) ++ ser uint32F (nNonce obj) ++
       (if (h_nVersion obj >? 3) && (h_nVersion obj <? 7) then ser uint256F (nAccumulatorCheckpoint obj) else []) ++
       (if h_nVersion obj >=? 8 then ser uint256F (hashFinalSaplingRoot obj) else []);
     unser S R s :=
       let? (nVersion, s) := unser int32F s in
       let? (hashPrevBlock, s) := unser uint256F s in
       let? (hashMerkleRoot, s) := unser uint256F s in
       let? (nTime, s) := unser uint32F s in
       let? (nBits, s) := unser uint32F s in
       let? (nNonce, s) := unser uint32F s in
       let? (nAccumulatorCheckpoint, s) :=
         if (nVersion >? 3) && (nVersion <? 7) then unser uint256F s else Ok (nAccumulatorCheckpoint CBlockHeader_SetNull, s) in
       let? (hashFinalSaplingRoot, s) :=
         if nVersion >=? 8 then unser uint256F s else Ok (hashFinalSaplingRoot CBlockHeader_SetNull, s) in
       Ok ({| h_nVersion := nVersion; hashPrevBlock := hashPrevBlock; hashMerkleRoot := hashMerkleRoot; nTime := nTime; nBits := nBits;
              nNonce := nNonce; nAccumulatorCheckpoint := nAccumulatorCheckpoint; hashFinalSaplingRoot := hashFinalSaplingRoot |}, s) |}.

Definition CBlockHeader_IsNull (h : CBlockHeader) : bool := nBits h =? 0.
Definition GetBlockTime (h : CBlockHeader) : Z := nTime h.

(** The bytes of the object from [nVersion] to [nNonce]; the host is little-endian. *)
Definition header_memory (h : CBlockHeader) : list Z :=
  le_split 4 (h_nVersion h mod 2 ^ 32) ++ hashPrevBlock h ++ hashMerkleRoot h ++
  le_split 4 (nTime h) ++ le_split 4 (nBits h) ++ le_split 4 (nNonce h).

(** [l] are the locals of [HashQuark], [buf] the buffer of the [CHashWriter]. *)
Definition GetHash (l : quark_locals) (buf : list Z) (h : CBlockHeader) : list Z :=
  if h_nVersion h <? 4 then HashQuark (header_memory h) l
  else SerializeHash buf CBlockHeaderF h.

(** * Blocks *)

Record CBlock := {
  header : CBlockHeader;
  vtx : list CTransaction;
  vchBlockSig : list Z;
  fChecked : bool
}.

Definition CBlock_of_header (h : CBlockHeader) : CBlock := {| header := h; vtx := []; vchBlockSig := []; fChecked := false |}.

(** [vtx.size() > 1 && vtx[1]->IsCoinStake()]. *)
Definition IsProofOfStake (vtx : list CTransaction) : bool :=
  match vtx with
  | _ :: tx :: _ => IsCoinStake tx
  | _ => false
  end.
Definition IsProofOfWork (vtx : list CTransaction) : bool := negb (IsProofOfStake vtx).

Definition vtxF : format (list CTransaction) := VectorFormatter sizeof_CTransactionRef CTransactionF.

Definition CBlockF : format CBlock :=
  {| ser obj := ser CBlockHeaderF (header obj) ++ ser vtxF (vtx obj) ++ (if IsProofOfStake (vtx obj) then ser charsF (vchBlockSig obj) else []);
     unser S R s :=
       let? (h, s) := unser CBlockHeaderF s in
       let? (vtx, s) := unser vtxF s in
       let? (vchBlockSig, s) := if IsProofOfStake vtx then unser charsF s else Ok ([], s) in
       Ok ({| header := h; vtx := vtx; vchBlockSig := vchBlockSig; fChecked := false |}, s) |}.

Definition GetBlockHeader (b : CBlock) : CBlockHeader :=
  {| h_nVersion := h_nVersion (header b); hashPrevBlock := hashPrevBlock (header b); hashMerkleRoot := hashMerkleRoot (header b);
     nTime := nTime (header b); nBits := nBits (header b); nNonce := nNonce (header b);
     nAccumulatorCheckpoint :=
       if (h_nVersion (header b) >? 3) && (h_nVersion (header b) <? 7) then nAccumulatorCheckpoint (header b)
       else nAccumulatorCheckpoint CBlockHeader_SetNull;
     hashFinalSaplingRoot :=
       if h_nVersion (header b) >=? 8 then hashFinalSaplingRoot (header b) else hashFinalSaplingRoot CBlockHeader_SetNull |}.

(** [CBlockLocator], for a stream of type [GetType] and version [GetVersion]. *)
Definition SER_GETHASH : Z := Z.shiftl 1 2.
Definition CBlockLocatorF (GetType GetVersion : Z) : format (list (list Z)) :=
  {| ser vHave :=
       (if GetType &: SER_GETHASH =? 0 then ser int32F GetVersion else []) ++ ser (VectorFormatter sizeof_uint256 uint256F) vHave;
     unser S R s :=
       let? (nVersion, s) := if GetType &: SER_GETHASH =? 0 then unser int32F s else Ok (GetVersion, s) in
       unser (VectorFormatter sizeof_uint256 uint256F) s |}.
End Vectors.

End Tx.
