(* ===== verification/Interpreter.v ===== *)
(** script/interpreter.cpp: the evaluation of scripts and [VerifyScript], over the interface
    [BaseSignatureChecker]. What [CPubKey::CheckLowS] asks of secp256k1 is a parameter. *)
From Stdlib Require Import ZifyNat.
From S2P Require Import Prelude CryptoCommon Uint256 Sha256 Sha1 Ripemd160 HashClasses Streams Serialize Script Transactions.
Import CryptoCommon Uint256 Script.Script Transactions.Tx.

Module Interp.

(** * Results *)

Inductive ScriptError :=
| SCRIPT_ERR_OK
| SCRIPT_ERR_UNKNOWN_ERROR
| SCRIPT_ERR_EVAL_FALSE
| SCRIPT_ERR_OP_RETURN
| SCRIPT_ERR_SCRIPT_SIZE
| SCRIPT_ERR_PUSH_SIZE
| SCRIPT_ERR_OP_COUNT
| SCRIPT_ERR_STACK_SIZE
| SCRIPT_ERR_SIG_COUNT
| SCRIPT_ERR_PUBKEY_COUNT
| SCRIPT_ERR_VERIFY
| SCRIPT_ERR_EQUALVERIFY
| SCRIPT_ERR_CHECKCOLDSTAKEVERIFY
| SCRIPT_ERR_CHECKMULTISIGVERIFY
| SCRIPT_ERR_CHECKSIGVERIFY
| SCRIPT_ERR_NUMEQUALVERIFY
| SCRIPT_ERR_BAD_OPCODE
| SCRIPT_ERR_DISABLED_OPCODE
| SCRIPT_ERR_INVALID_STACK_OPERATION
| SCRIPT_ERR_INVALID_ALTSTACK_OPERATION
| SCRIPT_ERR_UNBALANCED_CONDITIONAL
| SCRIPT_ERR_NEGATIVE_LOCKTIME
| SCRIPT_ERR_UNSATISFIED_LOCKTIME
| SCRIPT_ERR_SIG_HASHTYPE
| SCRIPT_ERR_SIG_DER
| SCRIPT_ERR_MINIMALDATA
| SCRIPT_ERR_SIG_PUSHONLY
| SCRIPT_ERR_SIG_HIGH_S
| SCRIPT_ERR_SIG_NULLDUMMY
| SCRIPT_ERR_PUBKEYTYPE
| SCRIPT_ERR_DISCOURAGE_UPGRADABLE_NOPS
| SCRIPT_ERR_ERROR_COUNT.

(** What a step of the code does: it goes on, it returns [false] with [serror], it throws, or
    an assertion fails. [OutOfFuel] is no behaviour of the code. *)
Inductive eval (A : Type) :=
| Value (a : A)
| Error (e : ScriptError)
| Exception
| Abort
| OutOfFuel.
Arguments Value {A} a.
Arguments Error {A} e.
Arguments Exception {A}.
Arguments Abort {A}.
Arguments OutOfFuel {A}.

Definition and_then {A B} (r : eval A) (k : A -> eval B) : eval B :=
  match r with
  | Value a => k a
  | Error e => Error e
  | Exception => Exception
  | Abort => Abort
  | OutOfFuel => OutOfFuel
  end.
Notation "'let*' x := r 'in' k" := (and_then r (fun x => k))
  (at level 10, x name, r at level 200, k at level 200).

(** A check that returns [false] with [e] when its condition does not hold. *)
Definition require (b : bool) (e : ScriptError) : eval unit := if b then Value tt else Error e.
Definition refuse (b : bool) (e : ScriptError) : eval unit := if b then Error e else Value tt.

Definition number {A} (r : number_result A) : eval A :=
  match r with
  | Number a => Value a
  | scriptnum_error => Exception
  | NumberAssertion => Abort
  end.
Definition total {A} (r : option A) : eval A := match r with Some a => Value a | None => OutOfFuel end.

(** * Flags *)

Definition NOT_AN_INPUT : Z := 2 ^ 32 - 1.
Definition SIGHASH_ALL : Z := 1.
Definition SIGHASH_NONE : Z := 2.
Definition SIGHASH_SINGLE : Z := 3.
Definition SIGHASH_ANYONECANPAY : Z := 0x80.

Definition SIGVERSION_BASE : Z := 0.
Definition SIGVERSION_SAPLING : Z := 1.

Definition SCRIPT_VERIFY_P2SH : Z := Z.shiftl 1 0.
Definition SCRIPT_VERIFY_STRICTENC : Z := Z.shiftl 1 1.
Definition SCRIPT_VERIFY_DERSIG : Z := Z.shiftl 1 2.
Definition SCRIPT_VERIFY_LOW_S : Z := Z.shiftl 1 3.
Definition SCRIPT_VERIFY_NULLDUMMY : Z := Z.shiftl 1 4.
Definition SCRIPT_VERIFY_SIGPUSHONLY : Z := Z.shiftl 1 5.
Definition SCRIPT_VERIFY_MINIMALDATA : Z := Z.shiftl 1 6.
Definition SCRIPT_VERIFY_DISCOURAGE_UPGRADABLE_NOPS : Z := Z.shiftl 1 7.
Definition SCRIPT_VERIFY_CLEANSTACK : Z := Z.shiftl 1 8.
Definition SCRIPT_VERIFY_CHECKLOCKTIMEVERIFY : Z := Z.shiftl 1 9.

(** [(flags & f) != 0] *)
Definition has (flags f : Z) : bool := negb (flags &: f =? 0).

(** * Encodings *)

Fixpoint CastToBool (vch : valtype) : bool :=
  match vch with
  | [] => false
  | x :: rest => if negb (x =? 0) then negb ((length rest =? 0)%nat && (x =? 0x80)) else CastToBool rest
  end.

Definition IsCompressedOrUncompressedPubKey (vchPubKey : valtype) : bool :=
  if Z.of_nat (length vchPubKey) <? COMPRESSED_PUBLIC_KEY_SIZE then false
  else if vchPubKey.[0] =? 0x04 then Z.of_nat (length vchPubKey) =? PUBLIC_KEY_SIZE
  else if (vchPubKey.[0] =? 0x02) || (vchPubKey.[0] =? 0x03) then Z.of_nat (length vchPubKey) =? COMPRESSED_PUBLIC_KEY_SIZE
  else false.

Definition IsValidSignatureEncoding (sig : valtype) : bool :=
  let size := Z.of_nat (length sig) in
  if size <? 9 then false
  else if size >? 73 then false
  else if negb (sig.[0] =? 0x30) then false
  else if negb (sig.[1] =? size - 3) then false
  else
    let lenR := sig.[3] in
    if 5 + lenR >=? size then false
    else
      let lenS := sig.[Z.to_nat (5 + lenR)] in
      if negb (lenR + lenS + 7 =? size) then false
      else if negb (sig.[2] =? 0x02) then false
      else if lenR =? 0 then false
      else if negb (sig.[4] &: 0x80 =? 0) then false
      else if (lenR >? 1) && (sig.[4] =? 0x00) && (sig.[5] &: 0x80 =? 0) then false
      else if negb (sig.[Z.to_nat (lenR + 4)] =? 0x02) then false
      else if lenS =? 0 then false
      else if negb (sig.[Z.to_nat (lenR + 6)] &: 0x80 =? 0) then false
      else if (lenS >? 1) && (sig.[Z.to_nat (lenR + 6)] =? 0x00) && (sig.[Z.to_nat (lenR + 7)] &: 0x80 =? 0) then false
      else true.

Definition IsDefinedHashtypeSignature (vchSig : valtype) : bool :=
  if (length vchSig =? 0)%nat then false
  else
    let nHashType := back vchSig &: (Z.lnot SIGHASH_ANYONECANPAY mod 2 ^ 8) in
    negb ((nHashType <? SIGHASH_ALL) || (nHashType >? SIGHASH_SINGLE)).

Definition CheckPubKeyEncoding (vchSig : valtype) (flags : Z) : eval unit :=
  refuse (has flags SCRIPT_VERIFY_STRICTENC && negb (IsCompressedOrUncompressedPubKey vchSig)) SCRIPT_ERR_PUBKEYTYPE.

Definition CheckMinimalPush (data : valtype) (opcode : Z) : bool :=
  let size := Z.of_nat (length data) in
  if size =? 0 then opcode =? OP_0
  else if (size =? 1) && (data.[0] >=? 1) && (data.[0] <=? 16) then opcode =? OP_1 + (data.[0] - 1)
  else if (size =? 1) && (data.[0] =? 0x81) then opcode =? OP_1NEGATE
  else if size <=? 75 then opcode =? size
  else if size <=? 255 then opcode =? OP_PUSHDATA1
  else if size <=? 65535 then opcode =? OP_PUSHDATA2
  else true.

Section SignatureEncoding.
(** [CPubKey::CheckLowS], which asks secp256k1. *)
Context (CheckLowS : valtype -> bool).

Definition IsLowDERSignature (vchSig : valtype) : eval unit :=
  let* _ := require (IsValidSignatureEncoding vchSig) SCRIPT_ERR_SIG_DER in
  require (CheckLowS (firstn (length vchSig - 1) vchSig)) SCRIPT_ERR_SIG_HIGH_S.

Definition CheckSignatureEncoding (vchSig : valtype) (flags : Z) : eval unit :=
  if (length vchSig =? 0)%nat then Value tt
  else if has flags (SCRIPT_VERIFY_DERSIG |: SCRIPT_VERIFY_LOW_S |: SCRIPT_VERIFY_STRICTENC) && negb (IsValidSignatureEncoding vchSig)
  then Error SCRIPT_ERR_SIG_DER
  else
    let* _ := (if has flags SCRIPT_VERIFY_LOW_S then IsLowDERSignature vchSig else Value tt) in
    refuse (has flags SCRIPT_VERIFY_STRICTENC && negb (IsDefinedHashtypeSignature vchSig)) SCRIPT_ERR_SIG_HASHTYPE.
End SignatureEncoding.

(** * BaseSignatureChecker *)

(** What the interpreter asks about the transaction. [CheckSig] and [CheckColdStake] may throw;
    [CheckColdStake] leaves the stack as it is. *)
Class Checker := {
  CheckSig : valtype -> valtype -> script -> Z -> eval bool;
  CheckLockTime : Z -> bool;
  CheckColdStake : bool -> script -> list valtype -> Z -> eval unit
}.

(** [BaseSignatureChecker] itself; [serror] then keeps its first value. *)
Definition BaseSignatureChecker : Checker :=
  {| CheckSig _ _ _ _ := Value false; CheckLockTime _ := false; CheckColdStake _ _ _ _ := Error SCRIPT_ERR_UNKNOWN_ERROR |}.

(** * EvalScript *)

(** The local variables; the tops of [stack], [altstack] and [vfExec] come first. *)
Record state := {
  pc : nat;
  stack : list valtype;
  altstack : list valtype;
  vfExec : list bool;
  pbegincodehash : nat;
  nOpCount : Z
}.

Definition set_stack (st : state) (s : list valtype) : state :=
  {| pc := pc st; stack := s; altstack := altstack st; vfExec := vfExec st; pbegincodehash := pbegincodehash st; nOpCount := nOpCount st |}.
Definition set_altstack (st : state) (s alt : list valtype) : state :=
  {| pc := pc st; stack := s; altstack := alt; vfExec := vfExec st; pbegincodehash := pbegincodehash st; nOpCount := nOpCount st |}.
Definition set_vfExec (st : state) (s : list valtype) (vf : list bool) : state :=
  {| pc := pc st; stack := s; altstack := altstack st; vfExec := vf; pbegincodehash := pbegincodehash st; nOpCount := nOpCount st |}.
Definition set_codehash (st : state) : state :=
  {| pc := pc st; stack := stack st; altstack := altstack st; vfExec := vfExec st; pbegincodehash := pc st; nOpCount := nOpCount st |}.
Definition set_count (st : state) (pc : nat) (n : Z) : state :=
  {| pc := pc; stack := stack st; altstack := altstack st; vfExec := vfExec st; pbegincodehash := pbegincodehash st; nOpCount := n |}.

Definition vchFalse : valtype := [].
Definition vchTrue : valtype := [1].
Definition vch_bool (b : bool) : valtype := if b then vchTrue else vchFalse.
Definition num_bool (b : bool) : Z := if b then 1 else 0.

(** [stacktop(-i)]: [at] throws. *)
Definition stacktop (s : list valtype) (i : nat) : eval valtype :=
  match i with
  | O => Exception
  | S i => match nth_error s i with Some v => Value v | None => Exception end
  end.

Definition invalid_stack {A} : eval A := Error SCRIPT_ERR_INVALID_STACK_OPERATION.

(** ** Stack operations *)

(** [None] when the opcode is none of the case labels; the patterns have the top first, and the
    comments of the code have it last. *)
Definition stack_op (opcode : Z) (s : list valtype) : option (eval (list valtype)) :=
  if opcode =? OP_2DROP then Some (match s with _ :: _ :: r => Value r | _ => invalid_stack end)
  else if opcode =? OP_2DUP then Some (match s with x2 :: x1 :: r => Value (x2 :: x1 :: x2 :: x1 :: r) | _ => invalid_stack end)
  else if opcode =? OP_3DUP then
    Some (match s with x3 :: x2 :: x1 :: r => Value (x3 :: x2 :: x1 :: x3 :: x2 :: x1 :: r) | _ => invalid_stack end)
  else if opcode =? OP_2OVER then
    Some (match s with x4 :: x3 :: x2 :: x1 :: r => Value (x2 :: x1 :: x4 :: x3 :: x2 :: x1 :: r) | _ => invalid_stack end)
  else if opcode =? OP_2ROT then
    Some (match s with x6 :: x5 :: x4 :: x3 :: x2 :: x1 :: r => Value (x2 :: x1 :: x6 :: x5 :: x4 :: x3 :: r) | _ => invalid_stack end)
  else if opcode =? OP_2SWAP then
    Some (match s with x4 :: x3 :: x2 :: x1 :: r => Value (x2 :: x1 :: x4 :: x3 :: r) | _ => invalid_stack end)
  else if opcode =? OP_IFDUP then
    Some (match s with x :: r => Value (if CastToBool x then x :: x :: r else x :: r) | _ => invalid_stack end)
  else if opcode =? OP_DEPTH then Some (Value (serialize (Z.of_nat (length s)) :: s))
  else if opcode =? OP_DROP then Some (match s with _ :: r => Value r | _ => invalid_stack end)
  else if opcode =? OP_DUP then Some (match s with x :: r => Value (x :: x :: r) | _ => invalid_stack end)
  else if opcode =? OP_NIP then Some (match s with x2 :: _ :: r => Value (x2 :: r) | _ => invalid_stack end)
  else if opcode =? OP_OVER then Some (match s with x2 :: x1 :: r => Value (x1 :: x2 :: x1 :: r) | _ => invalid_stack end)
  else if opcode =? OP_ROT then Some (match s with x3 :: x2 :: x1 :: r => Value (x1 :: x3 :: x2 :: r) | _ => invalid_stack end)
  else if opcode =? OP_SWAP then Some (match s with x2 :: x1 :: r => Value (x1 :: x2 :: r) | _ => invalid_stack end)
  else if opcode =? OP_TUCK then Some (match s with x2 :: x1 :: r => Value (x2 :: x1 :: x2 :: r) | _ => invalid_stack end)
  else if opcode =? OP_SIZE then
    Some (match s with x :: r => Value (serialize (Z.of_nat (length x)) :: x :: r) | _ => invalid_stack end)
  else None.

(** [OP_PICK] and [OP_ROLL]. *)
Definition pick_roll (fRequireMinimal roll : bool) (s : list valtype) : eval (list valtype) :=
  if (length s <? 2)%nat then invalid_stack
  else
    let* top := stacktop s 1 in
    let* bn := number (CScriptNum_of top fRequireMinimal nDefaultMaxNumSize) in
    let n := getint bn in
    let s := tl s in
    if (n <? 0) || (n >=? Z.of_nat (length s)) then invalid_stack
    else
      let* vch := stacktop s (S (Z.to_nat n)) in
      Value (vch :: (if roll then firstn (Z.to_nat n) s ++ skipn (S (Z.to_nat n)) s else s)).

(** [OP_EQUAL] and [OP_EQUALVERIFY]; [valtype]s are vectors of bytes. *)
Definition vch_eqb (a b : valtype) : bool := if list_eq_dec Z.eq_dec a b then true else false.
Definition equal_op (verify : bool) (s : list valtype) : eval (list valtype) :=
  match s with
  | vch2 :: vch1 :: r =>
      let fEqual := vch_eqb vch1 vch2 in
      if verify then if fEqual then Value r else Error SCRIPT_ERR_EQUALVERIFY else Value (vch_bool fEqual :: r)
  | _ => invalid_stack
  end.

(** ** Numeric operations *)

Definition unary (opcode bn : Z) : number_result Z :=
  if opcode =? OP_1ADD then num_add_assign bn 1
  else if opcode =? OP_1SUB then num_sub_assign bn 1
  else if opcode =? OP_NEGATE then num_opp bn
  else if opcode =? OP_ABS then if bn <? 0 then num_opp bn else Number bn
  else if opcode =? OP_NOT then Number (num_bool (bn =? 0))
  else if opcode =? OP_0NOTEQUAL then Number (num_bool (negb (bn =? 0)))
  else NumberAssertion.

(** The sums and differences of numbers of four bytes fit the 64 bits of [m_value]. *)
Definition binary (opcode bn1 bn2 : Z) : number_result Z :=
  if opcode =? OP_ADD then Number (bn1 + bn2)
  else if opcode =? OP_SUB then Number (bn1 - bn2)
  else if opcode =? OP_BOOLAND then Number (num_bool (negb (bn1 =? 0) && negb (bn2 =? 0)))
  else if opcode =? OP_BOOLOR then Number (num_bool (negb (bn1 =? 0) || negb (bn2 =? 0)))
  else if (opcode =? OP_NUMEQUAL) || (opcode =? OP_NUMEQUALVERIFY) then Number (num_bool (bn1 =? bn2))
  else if opcode =? OP_NUPNOTEQUAL then Number (num_bool (negb (bn1 =? bn2)))
  else if opcode =? OP_LESSTHAN then Number (num_bool (bn1 <? bn2))
  else if opcode =? OP_GREATERTHAN then Number (num_bool (bn1 >? bn2))
  else if opcode =? OP_LESSTHANOREQUAL then Number (num_bool (bn1 <=? bn2))
  else if opcode =? OP_GREATERTHANOREQUAL then Number (num_bool (bn1 >=? bn2))
  else if opcode =? OP_MIN then Number (if bn1 <? bn2 then bn1 else bn2)
  else if opcode =? OP_MAX then Number (if bn1 >? bn2 then bn1 else bn2)
  else NumberAssertion.

Definition unary_op (fRequireMinimal : bool) (opcode : Z) (s : list valtype) : eval (list valtype) :=
  match s with
  | x :: r =>
      let* bn := number (CScriptNum_of x fRequireMinimal nDefaultMaxNumSize) in
      let* bn := number (unary opcode bn) in
      Value (serialize bn :: r)
  | _ => invalid_stack
  end.

Definition binary_op (fRequireMinimal : bool) (opcode : Z) (s : list valtype) : eval (list valtype) :=
  match s with
  | x2 :: x1 :: r =>
      let* bn1 := number (CScriptNum_of x1 fRequireMinimal nDefaultMaxNumSize) in
      let* bn2 := number (CScriptNum_of x2 fRequireMinimal nDefaultMaxNumSize) in
      let* bn := number (binary opcode bn1 bn2) in
      if opcode =? OP_NUMEQUALVERIFY then if CastToBool (serialize bn) then Value r else Error SCRIPT_ERR_NUMEQUALVERIFY
      else Value (serialize bn :: r)
  | _ => invalid_stack
  end.

Definition within_op (fRequireMinimal : bool) (s : list valtype) : eval (list valtype) :=
  match s with
  | x3 :: x2 :: x1 :: r =>
      let* bn1 := number (CScriptNum_of x1 fRequireMinimal nDefaultMaxNumSize) in
      let* bn2 := number (CScriptNum_of x2 fRequireMinimal nDefaultMaxNumSize) in
      let* bn3 := number (CScriptNum_of x3 fRequireMinimal nDefaultMaxNumSize) in
      Value (vch_bool ((bn2 <=? bn1) && (bn1 <? bn3)) :: r)
  | _ => invalid_stack
  end.

(** ** Hashes *)

(** [buf] and [local] are the buffers of the hashers. *)
Definition hash_of (buf local : list Z) (opcode : Z) (vch : valtype) : valtype :=
  if opcode =? OP_RIPEMD160 then fst (Ripemd160.Finalize (Ripemd160.Write (Ripemd160.CRIPEMD160 buf) vch))
  else if opcode =? OP_SHA1 then fst (Sha1.Finalize (Sha1.Write (Sha1.CSHA1 buf) vch))
  else if opcode =? OP_SHA256 then fst (Sha256.Finalize (Sha256.Write (Sha256.CSHA256 buf) vch))
  else if opcode =? OP_HASH160 then fst (CHash160_Finalize local (CHash160_Write (Sha256.CSHA256 buf) vch))
  else fst (CHash256_Finalize (CHash256_Write (Sha256.CSHA256 buf) vch)).

Definition hash_op (buf local : list Z) (opcode : Z) (s : list valtype) : eval (list valtype) :=
  match s with
  | vch :: r => Value (hash_of buf local opcode vch :: r)
  | _ => invalid_stack
  end.

Definition in_list (opcode : Z) (l : list Z) : bool := existsb (Z.eqb opcode) l.

(** * Signatures *)

Section Eval.
Context {checker : Checker} (CheckLowS : valtype -> bool) (buf local : list Z).
Context (scr : script) (flags sigversion : Z).

Definition fRequireMinimal : bool := has flags SCRIPT_VERIFY_MINIMALDATA.

(** [CScript(pbegincodehash, pend)], without the pushes of [vchSig]. *)
Definition scriptCode_of (begin : nat) : script := skipn begin scr.
Definition drop_signature (scriptCode : script) (vchSig : valtype) : eval script :=
  let* r := total (FindAndDelete scriptCode (push_data [] vchSig)) in Value (fst r).

Definition check_sig_op (verify : bool) (st : state) : eval state :=
  match stack st with
  | vchPubKey :: vchSig :: r =>
      let* scriptCode := drop_signature (scriptCode_of (pbegincodehash st)) vchSig in
      let* _ := CheckSignatureEncoding CheckLowS vchSig flags in
      let* _ := CheckPubKeyEncoding vchPubKey flags in
      let* fSuccess := CheckSig vchSig vchPubKey scriptCode sigversion in
      if verify then if fSuccess then Value (set_stack st r) else Error SCRIPT_ERR_CHECKSIGVERIFY
      else Value (set_stack st (vch_bool fSuccess :: r))
  | _ => invalid_stack
  end.

Fixpoint drop_signatures (scriptCode : script) (s : list valtype) (isig k nSigsCount : nat) : eval script :=
  match nSigsCount with
  | O => Value scriptCode
  | S nSigsCount =>
      let* vchSig := stacktop s (isig + k) in
      let* scriptCode := drop_signature scriptCode vchSig in
      drop_signatures scriptCode s isig (S k) nSigsCount
  end.

(** The loop over the keys: [fSuccess] after it. Each turn takes one key; the loop ends before
    [nKeysCount] is below 0. *)
Fixpoint multisig_loop (scriptCode : script) (s : list valtype) (isig ikey nSigsCount nKeysCount : nat) : eval bool :=
  match nSigsCount with
  | O => Value true
  | S _ =>
      let* vchSig := stacktop s isig in
      let* vchPubKey := stacktop s ikey in
      let* _ := CheckSignatureEncoding CheckLowS vchSig flags in
      let* _ := CheckPubKeyEncoding vchPubKey flags in
      let* fOk := CheckSig vchSig vchPubKey scriptCode sigversion in
      let isig := if fOk then S isig else isig in
      let nSigsCount := if fOk then Nat.pred nSigsCount else nSigsCount in
      match nKeysCount with
      | O => OutOfFuel
      | S nKeysCount =>
          if (nKeysCount <? nSigsCount)%nat then Value false
          else multisig_loop scriptCode s isig (S ikey) nSigsCount nKeysCount
      end
  end.

Definition check_multisig_op (verify : bool) (st : state) : eval state :=
  let s := stack st in
  if (length s <? 1)%nat then invalid_stack
  else
    let* top := stacktop s 1 in
    let* bn := number (CScriptNum_of top fRequireMinimal nDefaultMaxNumSize) in
    let nKeysCount := getint bn in
    let* _ := refuse ((nKeysCount <? 0) || (nKeysCount >? MAX_PUBKEYS_PER_MULTISIG)) SCRIPT_ERR_PUBKEY_COUNT in
    let nOpCount := nOpCount st + nKeysCount in
    let* _ := refuse (nOpCount >? 201) SCRIPT_ERR_OP_COUNT in
    let ikey := 2%nat in
    let i := (2 + Z.to_nat nKeysCount)%nat in
    if (length s <? i)%nat then invalid_stack
    else
      let* top := stacktop s i in
      let* bn := number (CScriptNum_of top fRequireMinimal nDefaultMaxNumSize) in
      let nSigsCount := getint bn in
      let* _ := refuse ((nSigsCount <? 0) || (nSigsCount >? nKeysCount)) SCRIPT_ERR_SIG_COUNT in
      let isig := S i in
      let i := (S i + Z.to_nat nSigsCount)%nat in
      if (length s <? i)%nat then invalid_stack
      else
        let* scriptCode := drop_signatures (scriptCode_of (pbegincodehash st)) s isig 0 (Z.to_nat nSigsCount) in
        let* fSuccess := multisig_loop scriptCode s isig ikey (Z.to_nat nSigsCount) (Z.to_nat nKeysCount) in
        match skipn (i - 1) s with
        | [] => invalid_stack
        | dummy :: r =>
            let* _ := refuse (has flags SCRIPT_VERIFY_NULLDUMMY && negb (length dummy =? 0)%nat) SCRIPT_ERR_SIG_NULLDUMMY in
            let st := set_count (set_stack st r) (pc st) nOpCount in
            if verify then if fSuccess then Value st else Error SCRIPT_ERR_CHECKMULTISIGVERIFY
            else Value (set_stack st (vch_bool fSuccess :: r))
        end.

Definition check_locktime_op (st : state) : eval state :=
  if negb (has flags SCRIPT_VERIFY_CHECKLOCKTIMEVERIFY) then
    if has flags SCRIPT_VERIFY_DISCOURAGE_UPGRADABLE_NOPS then Error SCRIPT_ERR_DISCOURAGE_UPGRADABLE_NOPS else Value st
  else
    match stack st with
    | top :: _ =>
        let* nLockTime := number (CScriptNum_of top fRequireMinimal 5) in
        let* _ := refuse (nLockTime <? 0) SCRIPT_ERR_NEGATIVE_LOCKTIME in
        let* _ := require (CheckLockTime nLockTime) SCRIPT_ERR_UNSATISFIED_LOCKTIME in
        Value st
    | _ => invalid_stack
    end.

(** * The switch *)

(** [pc st] is behind the opcode. *)
Definition switch (fExec : bool) (opcode : Z) (st : state) : eval state :=
  let s := stack st in
  let on (r : eval (list valtype)) := let* s := r in Value (set_stack st s) in
  if (opcode =? OP_1NEGATE) || ((OP_1 <=? opcode) && (opcode <=? OP_16)) then Value (set_stack st (serialize (opcode - (OP_1 - 1)) :: s))
  else if opcode =? OP_NOP then Value st
  else if opcode =? OP_CHECKLOCKTIMEVERIFY then check_locktime_op st
  else if in_list opcode [OP_NOP1; OP_NOP3; OP_NOP4; OP_NOP5; OP_NOP6; OP_NOP7; OP_NOP8; OP_NOP9; OP_NOP10] then
    if has flags SCRIPT_VERIFY_DISCOURAGE_UPGRADABLE_NOPS then Error SCRIPT_ERR_DISCOURAGE_UPGRADABLE_NOPS else Value st
  else if in_list opcode [OP_IF; OP_NOTIF] then
    if fExec then
      match s with
      | vch :: r =>
          let fValue := CastToBool vch in
          let fValue := if opcode =? OP_NOTIF then negb fValue else fValue in
          Value (set_vfExec st r (fValue :: vfExec st))
      | [] => Error SCRIPT_ERR_UNBALANCED_CONDITIONAL
      end
    else Value (set_vfExec st s (false :: vfExec st))
  else if opcode =? OP_ELSE then
    match vfExec st with b :: r => Value (set_vfExec st s (negb b :: r)) | [] => Error SCRIPT_ERR_UNBALANCED_CONDITIONAL end
  else if opcode =? OP_ENDIF then
    match vfExec st with _ :: r => Value (set_vfExec st s r) | [] => Error SCRIPT_ERR_UNBALANCED_CONDITIONAL end
  else if opcode =? OP_VERIFY then
    match s with x :: r => if CastToBool x then Value (set_stack st r) else Error SCRIPT_ERR_VERIFY | [] => invalid_stack end
  else if opcode =? OP_RETURN then Error SCRIPT_ERR_OP_RETURN
  else if opcode =? OP_TOALTSTACK then
    match s with x :: r => Value (set_altstack st r (x :: altstack st)) | [] => invalid_stack end
  else if opcode =? OP_FROMALTSTACK then
    match altstack st with x :: r => Value (set_altstack st (x :: s) r) | [] => Error SCRIPT_ERR_INVALID_ALTSTACK_OPERATION end
  else
    match stack_op opcode s with
    | Some r => on r
    | None =>
        if in_list opcode [OP_PICK; OP_ROLL] then on (pick_roll fRequireMinimal (opcode =? OP_ROLL) s)
        else if in_list opcode [OP_EQUAL; OP_EQUALVERIFY] then on (equal_op (opcode =? OP_EQUALVERIFY) s)
        else if in_list opcode [OP_1ADD; OP_1SUB; OP_NEGATE; OP_ABS; OP_NOT; OP_0NOTEQUAL] then on (unary_op fRequireMinimal opcode s)
        else if in_list opcode [OP_ADD; OP_SUB; OP_BOOLAND; OP_BOOLOR; OP_NUMEQUAL; OP_NUMEQUALVERIFY; OP_NUPNOTEQUAL; OP_LESSTHAN;
            OP_GREATERTHAN; OP_LESSTHANOREQUAL; OP_GREATERTHANOREQUAL; OP_MIN; OP_MAX] then on (binary_op fRequireMinimal opcode s)
        else if opcode =? OP_WITHIN then on (within_op fRequireMinimal s)
        else if in_list opcode [OP_RIPEMD160; OP_SHA1; OP_SHA256; OP_HASH160; OP_HASH256] then on (hash_op buf local opcode s)
        else if opcode =? OP_CODESEPARATOR then Value (set_codehash st)
        else if in_list opcode [OP_CHECKSIG; OP_CHECKSIGVERIFY] then check_sig_op (opcode =? OP_CHECKSIGVERIFY) st
        else if in_list opcode [OP_CHECKMULTISIG; OP_CHECKMULTISIGVERIFY] then check_multisig_op (opcode =? OP_CHECKMULTISIGVERIFY) st
        else if opcode =? OP_CHECKCOLDSTAKEVERIFY then let* _ := CheckColdStake false scr s flags in Value st
        else if opcode =? OP_CHECKCOLDSTAKEVERIFY_LOF then let* _ := CheckColdStake true scr s flags in Value st
        else Error SCRIPT_ERR_BAD_OPCODE
    end.

Definition disabled (opcode : Z) : bool :=
  in_list opcode [OP_CAT; OP_SUBSTR; OP_LEFT; OP_RIGHT; OP_INVERT; OP_AND; OP_OR; OP_XOR; OP_2MUL; OP_2DIV; OP_MUL; OP_DIV; OP_MOD;
    OP_LSHIFT; OP_RSHIFT].

(** The body of the loop. *)
Definition turn (st : state) : eval state :=
  let fExec := negb (existsb negb (vfExec st)) in
  let '(read, pc, opcode, vchPushValue) := GetOp scr (pc st) in
  let* _ := require read SCRIPT_ERR_BAD_OPCODE in
  let* _ := refuse (Z.of_nat (length vchPushValue) >? MAX_SCRIPT_ELEMENT_SIZE) SCRIPT_ERR_PUSH_SIZE in
  let nOpCount := if opcode >? OP_16 then nOpCount st + 1 else nOpCount st in
  let* _ := refuse ((opcode >? OP_16) && (nOpCount >? 201)) SCRIPT_ERR_OP_COUNT in
  let* _ := refuse (disabled opcode) SCRIPT_ERR_DISABLED_OPCODE in
  let st := set_count st pc nOpCount in
  let* st :=
    if fExec && (0 <=? opcode) && (opcode <=? OP_PUSHDATA4) then
      let* _ := refuse (fRequireMinimal && negb (CheckMinimalPush vchPushValue opcode)) SCRIPT_ERR_MINIMALDATA in
      Value (set_stack st (vchPushValue :: stack st))
    else if fExec || ((OP_IF <=? opcode) && (opcode <=? OP_ENDIF)) then switch fExec opcode st
    else Value st in
  let* _ := refuse (Z.of_nat (length (stack st) + length (altstack st)) >? 1000) SCRIPT_ERR_STACK_SIZE in
  Value st.

(** Every turn moves [pc] forward. *)
Fixpoint eval_loop (fuel : nat) (st : state) : eval state :=
  match fuel with
  | O => OutOfFuel
  | S fuel => if (pc st <? length scr)%nat then let* st := turn st in eval_loop fuel st else Value st
  end.

Definition init (s : list valtype) : state :=
  {| pc := 0; stack := s; altstack := []; vfExec := []; pbegincodehash := 0; nOpCount := 0 |}.

(** The stack after it returned [true]. *)
Definition EvalScript (s : list valtype) : eval (list valtype) :=
  if Z.of_nat (length scr) >? MAX_SCRIPT_SIZE then Error SCRIPT_ERR_SCRIPT_SIZE
  else
    match eval_loop (S (length scr)) (init s) with
    | Exception => Error SCRIPT_ERR_UNKNOWN_ERROR
    | r =>
        let* st := r in
        if negb (length (vfExec st) =? 0)%nat then Error SCRIPT_ERR_UNBALANCED_CONDITIONAL else Value (stack st)
    end.
End Eval.

(** * VerifyScript *)

Section Verify.
Context {checker : Checker} (CheckLowS : valtype -> bool) (buf local : list Z) (flags sigversion : Z).

Definition EvalScript_on (s : list valtype) (scr : script) : eval (list valtype) :=
  EvalScript CheckLowS buf local scr flags sigversion s.

Definition top_is_true (s : list valtype) : eval unit :=
  match s with
  | [] => Error SCRIPT_ERR_EVAL_FALSE
  | top :: _ => require (CastToBool top) SCRIPT_ERR_EVAL_FALSE
  end.

(** [Value tt] when it returns [true]. *)
Definition VerifyScript (scriptSig scriptPubKey : script) : eval unit :=
  let* push := total (IsPushOnly scriptSig) in
  let* _ := refuse (has flags SCRIPT_VERIFY_SIGPUSHONLY && negb push) SCRIPT_ERR_SIG_PUSHONLY in
  let* stack := EvalScript_on [] scriptSig in
  let stackCopy := if has flags SCRIPT_VERIFY_P2SH then stack else [] in
  let* stack := EvalScript_on stack scriptPubKey in
  let* _ := top_is_true stack in
  if has flags SCRIPT_VERIFY_P2SH && IsPayToScriptHash scriptPubKey then
    let* _ := require push SCRIPT_ERR_SIG_PUSHONLY in
    match stackCopy with
    | [] => Abort
    | pubKey2 :: stackCopy =>
        let* stackCopy := EvalScript_on stackCopy pubKey2 in
        top_is_true stackCopy
    end
  else Value tt.
End Verify.

End Interp.
