(* ===== verification/InterpreterProofs.v ===== *)
(** The interpreter: its bounds, that it always decides, and what the standard forms of scripts
    ask of the scripts that spend them. *)
From Stdlib Require Import ZifyNat.
From S2P Require Import Prelude CryptoCommon Stream Hasher Uint256 Sha256 Sha1 Ripemd160 HashSpec Sha2Hash Md160Hash HashClasses Streams Serialize.
From S2P Require Import Script Transactions Interpreter.
Import CryptoCommon Uint256 Script.Script ScriptLaws Transactions.Tx Interp.

(** * Outcomes *)

(** The code goes on with a value that [P] holds of, or it fails or throws. *)
Definition good {A} (P : A -> Prop) (r : eval A) : Prop :=
  match r with
  | Value a => P a
  | Error _ | Exception => True
  | Abort | OutOfFuel => False
  end.

(** It goes on, or it fails with an error. *)
Definition decided {A} (P : A -> Prop) (r : eval A) : Prop :=
  match r with
  | Value a => P a
  | Error _ => True
  | Exception | Abort | OutOfFuel => False
  end.

Lemma good_bind {A B} (P : A -> Prop) (Q : B -> Prop) r k : good P r -> (forall a, P a -> good Q (k a)) -> good Q (and_then r k).
Proof. destruct r; cbn; auto. Qed.

Lemma decided_bind {A B} (P : A -> Prop) (Q : B -> Prop) r k : decided P r -> (forall a, P a -> decided Q (k a)) -> decided Q (and_then r k).
Proof. destruct r; cbn; auto. Qed.

Lemma good_refuse {B} (Q : B -> Prop) b e k : (b = false -> good Q (k tt)) -> good Q (and_then (refuse b e) k).
Proof. destruct b; cbn; auto. Qed.

Lemma good_require {B} (Q : B -> Prop) b e k : (b = true -> good Q (k tt)) -> good Q (and_then (require b e) k).
Proof. destruct b; cbn; auto. Qed.

Lemma decided_refuse {B} (Q : B -> Prop) b e k : (b = false -> decided Q (k tt)) -> decided Q (and_then (refuse b e) k).
Proof. destruct b; cbn; auto. Qed.

Lemma decided_require {B} (Q : B -> Prop) b e k : (b = true -> decided Q (k tt)) -> decided Q (and_then (require b e) k).
Proof. destruct b; cbn; auto. Qed.

Lemma good_mono {A} (P Q : A -> Prop) r : (forall a, P a -> Q a) -> good P r -> good Q r.
Proof. destruct r; cbn; auto. Qed.

Definition any {A} (_ : A) : Prop := True.

Lemma and_then_Value {A B} (r : eval A) (k : A -> eval B) b : and_then r k = Value b <-> exists a, r = Value a /\ k a = Value b.
Proof.
  split.
  - destruct r as [a| | | |]; try discriminate. intros H. now exists a.
  - intros (a & -> & H). exact H.
Qed.

(** * Elements of the stack *)

Definition element (v : valtype) : Prop := bytes v /\ Z.of_nat (length v) <= MAX_SCRIPT_ELEMENT_SIZE.
Abbreviation elements := (Forall element).

Lemma element_small v : bytes v -> (length v <= 520)%nat -> element v.
Proof. intros H1 H2. split; [assumption|]. unfold MAX_SCRIPT_ELEMENT_SIZE. lia. Qed.

Lemma element_bool b : element (vch_bool b).
Proof. destruct b; (apply element_small; [repeat constructor; lia | cbn; lia]). Qed.

Lemma element_serialize n : Z.abs n < 2 ^ 63 -> element (serialize n).
Proof.
  intros Hn. destruct (serialize_bytes n Hn) as (r & Hr & Hb & _ & Hl). revert Hr. generalize (n <? 0). intros neg Hr.
  destruct Hr as [|l c neg Hc|l c neg Hc]; [apply element_small; [constructor | cbn; lia]| |];
    rewrite length_app in Hl; cbn [length] in Hl.
  - apply Forall_app in Hb as [Hb _]. apply element_small; [|rewrite length_app; cbn; lia].
    apply Forall_app; split; [assumption | constructor; [destruct neg; unfold word; lia | constructor]].
  - apply element_small; [|rewrite !length_app; cbn; lia].
    apply Forall_app; split; [assumption | constructor; [destruct neg; unfold word; lia | constructor]].
Qed.

Lemma number_good v req max : bytes v -> (0 < max)%nat -> good (fun n => Z.abs n < 2 ^ (8 * Z.of_nat max - 1)) (number (CScriptNum_of v req max)).
Proof.
  intros Hb Hm. rewrite CScriptNum_of_eq. destruct (Nat.ltb_spec max (length v)); [exact I|]. destruct (_ && _); [exact I|].
  cbn. apply set_vch_bound; assumption || lia.
Qed.

(** ** Hashes *)

Definition script_hash (opcode : Z) (v : valtype) : valtype :=
  if opcode =? OP_RIPEMD160 then RipemdSpec.ripemd160 v
  else if opcode =? OP_SHA1 then Sha1Spec.sha1 v
  else if opcode =? OP_SHA256 then Sha2Spec.sha256 v
  else if opcode =? OP_HASH160 then RipemdSpec.ripemd160 (Sha2Spec.sha256 v)
  else Sha2Spec.sha256 (Sha2Spec.sha256 v).

Lemma hash_of_spec buf local opcode v :
  length buf = 64%nat -> length local = 64%nat -> element v -> hash_of buf local opcode v = script_hash opcode v.
Proof.
  intros Hbuf Hlocal [Hb Hl]. assert (Hok : sha_ok v) by (unfold sha_ok, MAX_SCRIPT_ELEMENT_SIZE in *; lia).
  unfold hash_of, script_hash.
  destruct (opcode =? OP_RIPEMD160).
  { rewrite <- (fst_close160 buf). apply (hash_rep_close (StreamHash := ripemd160_stream buf Hbuf)); [|assumption].
    exact (one_write (HS := ripemd160_stream buf Hbuf) v Hb). }
  destruct (opcode =? OP_SHA1).
  { pose proof (hash_rep_close (StreamHash := sha1_stream buf Hbuf) _ v (one_write (HS := sha1_stream buf Hbuf) v Hb) Hok) as [E _].
    cbn [hash_close hasher_ops] in E. revert E. change (hash_update _ _ v) with (Sha1.Write (Sha1.CSHA1 buf) v). now destruct (Sha1.Finalize _). }
  destruct (opcode =? OP_SHA256).
  { rewrite <- (fst_close256 buf). apply (hash_rep_close (StreamHash := sha256_stream buf Hbuf)); [|assumption].
    exact (one_write (HS := sha256_stream buf Hbuf) v Hb). }
  destruct (opcode =? OP_HASH160).
  { apply (Hash160_rep buf local Hlocal (sha256_stream buf Hbuf) _ _ Hb Hok). exact (one_write (HS := sha256_stream buf Hbuf) v Hb). }
  apply (Hash256_rep buf (sha256_stream buf Hbuf) _ _ Hb Hok). exact (one_write (HS := sha256_stream buf Hbuf) v Hb).
Qed.

Lemma sha1_digest m : bytes (Sha1Spec.sha1 m) /\ length (Sha1Spec.sha1 m) = 20%nat.
Proof.
  unfold Sha1Spec.sha1. cbv zeta. set (c := Md.chain _ _ _ _).
  assert (Hl : length c = 5%nat) by (apply length_chain; [reflexivity | intros; apply length_map]).
  destruct (flat_map_words (be_bytes 4) 4 c) as [Hb L]; [intros x; split; [apply bytes_be_bytes | apply length_be_bytes]|].
  rewrite Hl in L. now split.
Qed.

Lemma ripemd160_digest m : bytes (RipemdSpec.ripemd160 m) /\ length (RipemdSpec.ripemd160 m) = 20%nat.
Proof.
  unfold RipemdSpec.ripemd160. cbv zeta. set (c := Md.chain _ _ _ _).
  assert (Hl : length c = 5%nat) by (apply length_chain; reflexivity).
  destruct (flat_map_words (le_split 4) 4 c) as [Hb L]; [intros x; split; [apply bytes_le_split | apply length_le_split]|].
  rewrite Hl in L. now split.
Qed.

Lemma element_script_hash opcode v : element (script_hash opcode v).
Proof.
  assert (H : forall h n, bytes h /\ length h = n -> (n <= 520)%nat -> element h) by (intros h n [Hb Hl] Hn; apply element_small; [assumption | now rewrite Hl]).
  unfold script_hash. destruct (_ =? _); [apply (H _ 20%nat (ripemd160_digest v)); lia|]. destruct (_ =? _); [apply (H _ 20%nat (sha1_digest v)); lia|].
  destruct (_ =? _); [apply (H _ 32%nat (sha256_digest _)); lia|]. destruct (_ =? _); [apply (H _ 20%nat (ripemd160_digest _)); lia|].
  apply (H _ 32%nat (sha256_digest _)); lia.
Qed.

(** * Operations keep elements *)

Lemma stacktop_good s i : elements s -> good element (stacktop s i).
Proof.
  intros Hs. destruct i as [|i]; [exact I|]. cbn [stacktop]. destruct (nth_error s i) as [v|] eqn:E; [|exact I].
  apply nth_error_In in E. rewrite Forall_forall in Hs. now apply Hs.
Qed.

(** Takes the elements that a pattern names from the stack. *)
Ltac pop s Hs := destruct s as [|? s]; [exact I|]; pose proof (Forall_inv Hs); apply Forall_inv_tail in Hs.
Lemma element_length v : element v -> element (serialize (Z.of_nat (length v))).
Proof. intros [_ Hl]. apply element_serialize. unfold MAX_SCRIPT_ELEMENT_SIZE in Hl. lia. Qed.

Ltac push := repeat (apply Forall_cons; auto using element_bool, element_length); try assumption.

Lemma stack_op_good opcode s r : Z.of_nat (length s) < 2 ^ 63 -> elements s -> stack_op opcode s = Some r -> good elements r.
Proof.
  intros Hl Hs. unfold stack_op.
  repeat match goal with
         | |- (if ?c then Some ?a else _) = Some r -> _ => destruct c; [intros [= <-] | ]
         end; [.. | discriminate].
  all: repeat match goal with
              | |- good _ invalid_stack => exact I
              | |- good _ (Value (if ?c then _ else _)) => destruct c
              | |- good _ (Value (serialize (Z.of_nat (length ?l)) :: ?l)) => constructor; [apply element_serialize; lia | assumption]
              | |- good _ (Value _) => cbn [good]; push
              | |- good _ (match ?t with _ => _ end) => pop s Hs
              end.
Qed.

Lemma pick_roll_good req roll s : elements s -> good elements (pick_roll req roll s).
Proof.
  intros Hs. unfold pick_roll. destruct (length s <? 2)%nat; [exact I|].
  eapply good_bind; [now apply stacktop_good|]. intros top [Htop _]. eapply good_bind; [now apply (number_good _ _ 4); [|lia]|]. intros bn _.
  destruct (_ || _); [exact I|]. assert (Ht : elements (tl s)) by (destruct Hs; [constructor | assumption]).
  eapply good_bind; [now apply stacktop_good|]. intros vch Hv. constructor; [assumption|].
  destruct roll; [|assumption]. apply Forall_app. split; [now apply Forall_take | now apply Forall_drop].
Qed.

Lemma equal_op_good verify s : elements s -> good elements (equal_op verify s).
Proof. intros Hs. unfold equal_op. pop s Hs. pop s Hs. destruct verify; [destruct (vch_eqb _ _); [assumption | exact I]|]. cbn [good]. push. Qed.

Lemma unary_good opcode n : Z.abs n < 2 ^ 31 -> in_list opcode [OP_1ADD; OP_1SUB; OP_NEGATE; OP_ABS; OP_NOT; OP_0NOTEQUAL] = true ->
  good (fun m => Z.abs m < 2 ^ 63) (number (unary opcode n)).
Proof.
  intros Hn Ho. unfold unary, num_add_assign, num_sub_assign, num_opp, INT64_MIN, INT64_MAX. cbn [in_list existsb] in Ho.
  repeat match goal with |- context [if opcode =? ?o then _ else _] => destruct (Z.eqb_spec opcode o) end.
  - destruct (Z.leb_spec n (2 ^ 63 - 1 - 1)); [|lia]. cbn. lia.
  - destruct (Z.geb_spec n (- 2 ^ 63 + 1)); [|lia]. cbn. lia.
  - destruct (Z.eqb_spec n (- 2 ^ 63)); [lia|]. cbn. lia.
  - destruct (n <? 0); [|cbn; lia]. destruct (Z.eqb_spec n (- 2 ^ 63)); [lia|]. cbn. lia.
  - destruct (n =? 0); cbn; lia.
  - destruct (n =? 0); cbn; lia.
  - repeat match goal with H : opcode <> ?o |- _ => apply Z.eqb_neq in H; rewrite H in Ho; clear H end. discriminate.
Qed.

Lemma unary_op_good req opcode s : in_list opcode [OP_1ADD; OP_1SUB; OP_NEGATE; OP_ABS; OP_NOT; OP_0NOTEQUAL] = true -> elements s ->
  good elements (unary_op req opcode s).
Proof.
  intros Ho Hs. unfold unary_op. pop s Hs. eapply good_bind; [apply (number_good _ _ 4); [apply H | lia]|]. intros n Hn.
  eapply good_bind; [now apply unary_good|]. intros m Hm. constructor; [now apply element_serialize | assumption].
Qed.

Definition binary_ops : list Z :=
  [OP_ADD; OP_SUB; OP_BOOLAND; OP_BOOLOR; OP_NUMEQUAL; OP_NUMEQUALVERIFY; OP_NUPNOTEQUAL; OP_LESSTHAN;
   OP_GREATERTHAN; OP_LESSTHANOREQUAL; OP_GREATERTHANOREQUAL; OP_MIN; OP_MAX].

Lemma binary_good opcode a b : Z.abs a < 2 ^ 31 -> Z.abs b < 2 ^ 31 -> in_list opcode binary_ops = true ->
  good (fun m => Z.abs m < 2 ^ 63) (number (binary opcode a b)).
Proof.
  intros Ha Hb Ho. unfold binary. cbn [in_list existsb binary_ops] in Ho.
  assert (Hbool : forall c, Z.abs (num_bool c) < 2 ^ 63) by (intros []; cbn; lia).
  repeat match goal with
         | |- good _ (number (if ?c then _ else _)) => let E := fresh "E" in destruct c eqn:E; [first [exact (Hbool _) | (cbn [good number]; lia) | (cbn [good number]; match goal with |- context [if ?d then _ else _] => destruct d end; lia)] |]
         end.
  exfalso. rewrite ?orb_false_iff in *. repeat match goal with H : _ /\ _ |- _ => destruct H end.
  repeat match goal with H : (opcode =? ?o) = false |- _ => rewrite H in Ho; clear H end. discriminate.
Qed.

Lemma binary_op_good req opcode s : in_list opcode binary_ops = true -> elements s -> good elements (binary_op req opcode s).
Proof.
  intros Ho Hs. unfold binary_op. pop s Hs. pop s Hs. eapply good_bind; [apply (number_good _ _ 4); [apply H0 | lia]|]. intros a Ha.
  eapply good_bind; [apply (number_good _ _ 4); [apply H | lia]|]. intros b Hb.
  eapply good_bind; [now apply binary_good|]. intros m Hm. destruct (opcode =? OP_NUMEQUALVERIFY); [destruct (CastToBool _); [assumption | exact I]|].
  constructor; [now apply element_serialize | assumption].
Qed.

Lemma within_op_good req s : elements s -> good elements (within_op req s).
Proof.
  intros Hs. unfold within_op. pop s Hs. pop s Hs. pop s Hs.
  eapply good_bind; [apply (number_good _ _ 4); [apply H1 | lia]|]. intros a Ha.
  eapply good_bind; [apply (number_good _ _ 4); [apply H0 | lia]|]. intros b Hb.
  eapply good_bind; [apply (number_good _ _ 4); [apply H | lia]|]. intros c Hc. cbn [good]. push.
Qed.

Lemma hash_op_good buf local opcode s : length buf = 64%nat -> length local = 64%nat -> elements s -> good elements (hash_op buf local opcode s).
Proof.
  intros Hb Hl Hs. unfold hash_op. pop s Hs. rewrite hash_of_spec by assumption. constructor; [apply element_script_hash | assumption].
Qed.

Lemma CheckSignatureEncoding_good low sig flags : good any (CheckSignatureEncoding low sig flags).
Proof.
  unfold CheckSignatureEncoding. destruct (_ =? _)%nat; [exact I|]. destruct (_ && _); [exact I|].
  eapply (good_bind any).
  - destruct (has flags SCRIPT_VERIFY_LOW_S); [|exact I]. unfold IsLowDERSignature. apply good_require. intros _. unfold require. now destruct (low _).
  - intros _ _. unfold refuse. now destruct (_ && _).
Qed.

Lemma CheckPubKeyEncoding_good key flags : good any (CheckPubKeyEncoding key flags).
Proof. unfold CheckPubKeyEncoding, refuse. now destruct (_ && _). Qed.

(** * The evaluation *)

(** What the interpreter needs from the checker. *)
Class CheckerLaws (checker : Checker) := {
  CheckSig_good sig key code v : good any (CheckSig sig key code v);
  CheckColdStake_good free code s flags : good any (CheckColdStake free code s flags)
}.

Section Evaluation.
Context {checker : Checker} {laws : CheckerLaws checker} (low : valtype -> bool) (buf local : list Z).
Context (scr : script) (flags v : Z).
Context (Hbuf : length buf = 64%nat) (Hlocal : length local = 64%nat) (Hscr : bytes scr).

(** What holds between two turns of the loop. *)
Record invariant (st : state) : Prop := {
  inv_pc : (pc st <= length scr)%nat;
  inv_stack : elements (stack st);
  inv_altstack : elements (altstack st);
  inv_size : Z.of_nat (length (stack st) + length (altstack st)) <= 1000;
  inv_count : nOpCount st <= 201
}.

(** What an operation keeps, before the size of the stacks is checked. *)
Definition kept (st st' : state) : Prop :=
  pc st' = pc st /\ elements (stack st') /\ elements (altstack st') /\ nOpCount st' <= 201.

Lemma drop_signature_good code sig : good any (drop_signature code sig).
Proof.
  unfold drop_signature. pose proof (FindAndDelete_total code (push_data [] sig)) as H.
  destruct (FindAndDelete _ _); [exact I | now destruct H].
Qed.

Lemma drop_signatures_good code s isig k n : elements s -> good any (drop_signatures code s isig k n).
Proof.
  intros Hs. revert code k; induction n as [|n IH]; intros code k; cbn [drop_signatures]; [exact I|].
  eapply good_bind; [now apply stacktop_good|]. intros sig _. eapply good_bind; [apply drop_signature_good|]. intros code' _. apply IH.
Qed.

Lemma multisig_loop_good code s isig ikey nSigs nKeys : elements s -> (nSigs <= nKeys)%nat -> good any (multisig_loop low flags v code s isig ikey nSigs nKeys).
Proof.
  intros Hs. revert isig ikey nSigs; induction nKeys as [|nKeys IH]; intros isig ikey [|nSigs] Hn; cbn [multisig_loop]; try exact I; [lia|].
  eapply good_bind; [now apply stacktop_good|]. intros sig _. eapply good_bind; [now apply stacktop_good|]. intros key _.
  eapply good_bind; [apply CheckSignatureEncoding_good|]. intros _ _. eapply good_bind; [apply CheckPubKeyEncoding_good|]. intros _ _.
  eapply good_bind; [apply CheckSig_good|]. intros fOk _. destruct (Nat.ltb_spec nKeys (if fOk then Nat.pred (S nSigs) else S nSigs)); [exact I|]. now apply IH.
Qed.

Lemma check_sig_op_good verify st : elements (stack st) -> elements (altstack st) -> nOpCount st <= 201 -> good (kept st) (check_sig_op low scr flags v verify st).
Proof.
  intros Hs Ha Hc. unfold check_sig_op. destruct (stack st) as [|key [|sig s]] eqn:Es; [exact I..|].
  pose proof (Forall_inv_tail (Forall_inv_tail Hs)) as Hr.
  eapply good_bind; [apply drop_signature_good|]. intros code _. eapply good_bind; [apply CheckSignatureEncoding_good|]. intros _ _.
  eapply good_bind; [apply CheckPubKeyEncoding_good|]. intros _ _. eapply good_bind; [apply CheckSig_good|]. intros ok _.
  destruct verify; [destruct ok; [|exact I]|]; (split; [reflexivity|]; split; [cbn [set_stack stack]; push | now split]).
Qed.

Lemma check_multisig_op_good verify st : elements (stack st) -> elements (altstack st) -> nOpCount st <= 201 -> good (kept st) (check_multisig_op low scr flags v verify st).
Proof.
  intros Hs Ha Hc. unfold check_multisig_op. destruct (_ <? _)%nat; [exact I|].
  eapply good_bind; [now apply stacktop_good|]. intros top [Htop _]. eapply good_bind; [now apply (number_good _ _ 4); [|lia]|]. intros bn _.
  apply good_refuse. intros H1. apply orb_false_iff in H1 as [H1 H1']. apply good_refuse. intros H2. rewrite Z.gtb_ltb, Z.ltb_ge in H2. destruct (_ <? _)%nat; [exact I|].
  eapply good_bind; [now apply stacktop_good|]. intros top' [Htop' _]. eapply good_bind; [now apply (number_good _ _ 4); [|lia]|]. intros bn' _.
  apply good_refuse. intros H3. destruct (_ <? _)%nat; [exact I|].
  eapply good_bind; [now apply drop_signatures_good|]. intros code _. eapply good_bind; [apply multisig_loop_good; [assumption | lia]|]. intros ok _.
  destruct (skipn _ (stack st)) as [|dummy r] eqn:Er; [exact I|].
  assert (Hr : elements r) by (apply (Forall_inv_tail (a := dummy)); rewrite <- Er; now apply Forall_drop).
  apply good_refuse. intros _. destruct verify; [destruct ok; [|exact I]|]; (split; [reflexivity|]; split; [cbn [set_count set_stack stack]; push | now split]).
Qed.

Lemma check_locktime_op_good st : elements (stack st) -> elements (altstack st) -> nOpCount st <= 201 -> good (kept st) (check_locktime_op flags st).
Proof.
  intros Hs Ha Hc. assert (Hk : kept st st) by now split. unfold check_locktime_op. destruct (negb _); [now destruct (has _ _)|].
  destruct (stack st) as [|top s] eqn:Es; [exact I|]. eapply good_bind; [apply (number_good _ _ 5); [apply (Forall_inv Hs) | lia]|].
  intros n _. apply good_refuse. intros _. now apply good_require.
Qed.

Lemma on_good st r : elements (altstack st) -> nOpCount st <= 201 -> good elements r -> good (kept st) (let* s := r in Value (set_stack st s)).
Proof. intros Ha Hc Hr. eapply good_bind; [exact Hr|]. intros s Hs. now repeat split. Qed.

Lemma switch_good fExec opcode st : Z.of_nat (length (stack st)) < 2 ^ 63 -> elements (stack st) -> elements (altstack st) -> nOpCount st <= 201 ->
  good (kept st) (switch low buf local scr flags v fExec opcode st).
Proof.
  intros Hl Hs Ha Hc. assert (Hk : kept st st) by now split. unfold switch. cbv zeta.
  assert (Hset : forall s, elements s -> kept st (set_stack st s)) by now repeat split.
  destruct (_ || _) eqn:Ep.
  { apply Hset. constructor; [|assumption]. apply element_serialize. unfold OP_1NEGATE, OP_1, OP_16 in *. lia. }
  clear Ep.
  destruct (_ =? _); [exact Hk|]. destruct (_ =? _); [now apply check_locktime_op_good|].
  destruct (in_list _ _); [now destruct (has _ _)|].
  destruct (in_list _ _).
  { destruct fExec; [|now repeat split]. destruct (stack st) as [|x s] eqn:Es; [exact I|]. split; [reflexivity|]. split; [exact (Forall_inv_tail Hs) | now split]. }
  destruct (_ =? _); [destruct (vfExec st); [exact I | now repeat split]|].
  destruct (_ =? _); [destruct (vfExec st); [exact I | now repeat split]|].
  destruct (_ =? _); [destruct (stack st) as [|x s] eqn:Es; [exact I|]; destruct (CastToBool x); [exact (Hset _ (Forall_inv_tail Hs)) | exact I]|].
  destruct (_ =? _); [exact I|].
  destruct (_ =? _).
  { destruct (stack st) as [|x s] eqn:Es; [exact I|]. split; [reflexivity|]. split; [exact (Forall_inv_tail Hs)|]. split; [constructor; [exact (Forall_inv Hs) | assumption] | assumption]. }
  destruct (_ =? _).
  { destruct (altstack st) as [|x s] eqn:Es; [exact I|]. split; [reflexivity|]. split; [constructor; [exact (Forall_inv Ha) | assumption]|]. split; [exact (Forall_inv_tail Ha) | assumption]. }
  destruct (stack_op opcode (stack st)) as [r|] eqn:Er; [apply on_good; [assumption..|]; now apply (stack_op_good opcode (stack st))|]. clear Er.
  destruct (in_list _ _); [apply on_good; [assumption..|]; now apply pick_roll_good|].
  destruct (in_list _ _); [apply on_good; [assumption..|]; now apply equal_op_good|].
  destruct (in_list opcode [OP_1ADD; _; _; _; _; _]) eqn:E1; [apply on_good; [assumption..|]; now apply unary_op_good|]. clear E1.
  destruct (in_list opcode (OP_ADD :: _)) eqn:E2; [apply on_good; [assumption..|]; now apply binary_op_good|]. clear E2.
  destruct (_ =? _); [apply on_good; [assumption..|]; now apply within_op_good|].
  destruct (in_list _ _); [apply on_good; [assumption..|]; now apply hash_op_good|].
  destruct (_ =? _); [now repeat split|].
  destruct (in_list _ _); [now apply check_sig_op_good|]. destruct (in_list _ _); [now apply check_multisig_op_good|].
  destruct (_ =? _); [eapply good_bind; [apply CheckColdStake_good|]; intros; exact Hk|].
  destruct (_ =? _); [eapply good_bind; [apply CheckColdStake_good|]; intros; exact Hk|]. exact I.
Qed.

Lemma GetOp_bytes pc read pc' opcode data : GetOp scr pc = (read, pc', opcode, data) -> bytes data.
Proof.
  clear -Hscr. intros E. destruct (Nat.le_gt_cases pc (length scr)) as [H|H]; [|rewrite GetOp_end in E by lia; injection E as <- <- <- <-; constructor].
  rewrite GetOp_next in E by lia. assert (Hb : bytes (skipn pc scr)) by now apply Forall_drop. revert Hb E. generalize (skipn pc scr). intros s Hb E.
  destruct s as [|o s]; cbn [next] in E; [injection E as <- <- <- <-; constructor|]. apply Forall_inv_tail in Hb.
  destruct (o <=? OP_PUSHDATA4); [|injection E as <- <- <- <-; constructor].
  destruct (push_header o s) as [[k n]|]; [|injection E as <- <- <- <-; constructor].
  destruct (_ <? n); injection E as <- <- <- <-; [constructor|]. apply Forall_take. now apply Forall_drop.
Qed.

Lemma turn_good st : invariant st -> (pc st < length scr)%nat -> good (fun st' => invariant st' /\ (pc st < pc st')%nat) (turn low buf local scr flags v st).
Proof.
  intros [Hpc Hs Ha Hsize Hc] Hlt. unfold turn. destruct (GetOp scr (pc st)) as [[[read pc'] opcode] data] eqn:E.
  pose proof (GetOp_bytes _ _ _ _ _ E) as Hdata. apply GetOp_moves in E; [|assumption].
  apply good_require. intros _. apply good_refuse. intros Hlen. apply good_refuse. intros Hcount. apply good_refuse. intros _.
  set (st0 := set_count st pc' (if opcode >? OP_16 then nOpCount st + 1 else nOpCount st)).
  assert (Hc0 : nOpCount st0 <= 201) by (unfold st0; cbn [set_count nOpCount]; destruct (opcode >? OP_16); lia). clear Hcount.
  apply (good_bind (kept st0)).
  - destruct (_ && _).
    { apply good_refuse. intros _. rewrite Z.gtb_ltb, Z.ltb_ge in Hlen. split; [reflexivity|]. split; [|now split]. constructor; [now split | assumption]. }
    destruct (_ || _); [|now split]. apply switch_good; try assumption. unfold st0. cbn [set_count stack]. lia.
  - intros st' (Hp & Hs' & Ha' & Hc'). apply good_refuse. intros Hsz. cbn [good]. unfold st0 in Hp. cbn [set_count pc] in Hp. rewrite Hp.
    rewrite Z.gtb_ltb, Z.ltb_ge in Hsz. split; [split; try assumption; rewrite ?Hp; lia | lia].
Qed.

Lemma eval_loop_good fuel st : invariant st -> (length scr - pc st < fuel)%nat -> good invariant (eval_loop low buf local scr flags v fuel st).
Proof.
  revert st; induction fuel as [|fuel IH]; intros st Hinv Hf; [lia|]. cbn [eval_loop].
  destruct (Nat.ltb_spec (pc st) (length scr)) as [Hlt|]; [|assumption].
  eapply good_bind; [now apply turn_good|]. intros st' [Hinv' Hpc]. apply IH; [assumption|]. lia.
Qed.

Lemma init_invariant s : elements s -> Z.of_nat (length s) <= 1000 -> invariant (init s).
Proof. intros Hs Hl. split; cbn; try lia; [assumption | constructor]. Qed.

Lemma EvalScript_decided s : elements s -> Z.of_nat (length s) <= 1000 ->
  decided (fun s' => elements s' /\ Z.of_nat (length s') <= 1000) (EvalScript low buf local scr flags v s).
Proof.
  intros Hs Hl. unfold EvalScript. destruct (_ >? _); [exact I|].
  pose proof (eval_loop_good (S (length scr)) (init s) (init_invariant s Hs Hl) ltac:(cbn; lia)) as H.
  destruct (eval_loop _ _ _ _ _ _ _ _) as [st|e| | |]; try exact I; [|now destruct H..].
  destruct H as [_ Hs' _ Hsize _]. cbn [and_then]. destruct (negb _); [exact I|]. split; [assumption | lia].
Qed.

(** The states in which the evaluation of a script from the stack [s] can be. *)
Inductive reached (s : list valtype) : state -> Prop :=
| reached_init : reached s (init s)
| reached_turn st st' : reached s st -> (pc st < length scr)%nat -> turn low buf local scr flags v st = Value st' -> reached s st'.

Lemma reached_invariant s st : elements s -> Z.of_nat (length s) <= 1000 -> reached s st -> invariant st.
Proof.
  intros Hs Hl. induction 1 as [|st st' _ IH Hpc E]; [now apply init_invariant|].
  pose proof (turn_good st IH Hpc) as H. rewrite E in H. apply H.
Qed.
End Evaluation.

(** * Running the instructions one by one *)

Definition executing (st : state) : bool := negb (existsb negb (vfExec st)).

(** The end of a turn. *)
Definition sized (st : state) : eval state :=
  let* _ := refuse (Z.of_nat (length (stack st) + length (altstack st)) >? 1000) SCRIPT_ERR_STACK_SIZE in Value st.

Lemma sized_ok st : (length (stack st) + length (altstack st) <= 1000)%nat -> sized st = Value st.
Proof. intros H. unfold sized, refuse. rewrite Z.gtb_ltb. destruct (Z.ltb_spec 1000 (Z.of_nat (length (stack st) + length (altstack st)))); [lia | reflexivity]. Qed.

Lemma sized_too_many st : (1000 < length (stack st) + length (altstack st))%nat -> sized st = Error SCRIPT_ERR_STACK_SIZE.
Proof. intros H. unfold sized, refuse. rewrite Z.gtb_ltb. destruct (Z.ltb_spec 1000 (Z.of_nat (length (stack st) + length (altstack st)))); [reflexivity | lia]. Qed.

Section Steps.
Context {checker : Checker} (low : valtype -> bool) (buf local : list Z) (scr : script) (flags v : Z).
Abbreviation turn := (turn low buf local scr flags v).
Abbreviation switch := (switch low buf local scr flags v).
Abbreviation eval_loop := (eval_loop low buf local scr flags v).

Lemma step_end fuel st : (pc st <? length scr)%nat = false -> eval_loop (S fuel) st = Value st.
Proof. intros H. cbn [Interp.eval_loop]. now rewrite H. Qed.

(** A push that is executed. *)
Lemma step_push fuel st pc' opcode data :
  GetOp scr (pc st) = (true, pc', opcode, data) -> (length data <=? 520)%nat = true -> (0 <=? opcode) && (opcode <=? OP_PUSHDATA4) = true ->
  executing st = true -> has flags SCRIPT_VERIFY_MINIMALDATA && negb (CheckMinimalPush data opcode) = false ->
  eval_loop (S fuel) st =
  let* st' := sized (set_stack (set_count st pc' (nOpCount st)) (data :: stack st)) in eval_loop fuel st'.
Proof.
  intros E Hd Ho He Hm. pose proof (GetOp_reads _ _ _ _ _ E). cbn [Interp.eval_loop]. destruct (Nat.ltb_spec (pc st) (length scr)); [|lia].
  unfold Interp.turn. rewrite E. cbn [require and_then].
  apply andb_true_iff in Ho as [Ho0 Ho1]. apply Nat.leb_le in Hd.
  assert (Hg : (Z.of_nat (length data) >? MAX_SCRIPT_ELEMENT_SIZE) = false) by (rewrite Z.gtb_ltb; unfold MAX_SCRIPT_ELEMENT_SIZE; lia).
  assert (Hg' : (opcode >? OP_16) = false) by (rewrite Z.gtb_ltb; unfold OP_PUSHDATA4, OP_16 in *; lia).
  rewrite Hg, Hg'. cbn [refuse and_then andb].
  assert (Hdis : disabled opcode = false).
  { unfold disabled, in_list, OP_PUSHDATA4 in *. cbn [existsb].
    repeat match goal with |- context [opcode =? ?o] => let H := fresh in assert (H : (opcode =? o) = false) by (apply Z.eqb_neq; unfold o; lia); rewrite H; clear H end. reflexivity. }
  rewrite Hdis. cbn [refuse and_then]. unfold executing in He. rewrite He, Ho0, Ho1. cbn [andb]. unfold fRequireMinimal. rewrite Hm. reflexivity.
Qed.

(** An instruction that is not a push, executed or a conditional. *)
Lemma step_op fuel st pc' opcode :
  GetOp scr (pc st) = (true, pc', opcode, []) -> (opcode >? OP_16) = true -> disabled opcode = false -> (nOpCount st + 1 >? 201) = false ->
  executing st || ((OP_IF <=? opcode) && (opcode <=? OP_ENDIF)) = true ->
  eval_loop (S fuel) st =
  let* st' := (let* st' := switch (executing st) opcode (set_count st pc' (nOpCount st + 1)) in sized st') in eval_loop fuel st'.
Proof.
  intros E Ho Hd Hc He. pose proof (GetOp_reads _ _ _ _ _ E). cbn [Interp.eval_loop]. destruct (Nat.ltb_spec (pc st) (length scr)); [|lia].
  unfold Interp.turn. rewrite E. cbn [require and_then]. change (Z.of_nat (length []) >? MAX_SCRIPT_ELEMENT_SIZE) with false. cbn [refuse and_then].
  rewrite Ho, Hc, Hd. cbn [refuse and_then andb]. fold (executing st).
  assert (Hp : (opcode <=? OP_PUSHDATA4) = false) by (rewrite Z.gtb_ltb in Ho; unfold OP_PUSHDATA4, OP_16 in *; lia).
  rewrite Hp, andb_false_r, He. reflexivity.
Qed.

(** An instruction that is not executed. *)
Lemma step_skip fuel st pc' opcode data :
  GetOp scr (pc st) = (true, pc', opcode, data) -> (length data <=? 520)%nat = true -> disabled opcode = false ->
  let n := if opcode >? OP_16 then nOpCount st + 1 else nOpCount st in
  (opcode >? OP_16) && (n >? 201) = false ->
  executing st || ((OP_IF <=? opcode) && (opcode <=? OP_ENDIF)) = false ->
  eval_loop (S fuel) st = let* st' := sized (set_count st pc' n) in eval_loop fuel st'.
Proof.
  intros E Hl Hd n Hc He. pose proof (GetOp_reads _ _ _ _ _ E). cbn [Interp.eval_loop]. destruct (Nat.ltb_spec (pc st) (length scr)); [|lia].
  unfold Interp.turn. rewrite E. cbn [require and_then]. apply Nat.leb_le in Hl.
  assert (Hg : (Z.of_nat (length data) >? MAX_SCRIPT_ELEMENT_SIZE) = false) by (rewrite Z.gtb_ltb; unfold MAX_SCRIPT_ELEMENT_SIZE; lia).
  rewrite Hg. cbn [refuse and_then]. fold n. rewrite Hc, Hd. cbn [refuse and_then andb]. fold (executing st). apply orb_false_iff in He as [He He'].
  rewrite He, He'. reflexivity.
Qed.
End Steps.

(** ** Pay to script hash *)

Section Forms.
Context {checker : Checker} (low : valtype -> bool) (buf local : list Z) (flags v : Z).

(** Runs the next instruction of a script whose opcodes are literals. *)
Ltac run_op :=
  erewrite step_op; [ | reflexivity | reflexivity | reflexivity | reflexivity | reflexivity ];
  match goal with
  | |- context [switch ?a ?b ?c ?d ?e ?f ?g ?h ?i] =>
      let t := constr:(switch a b c d e f g h i) in
      let t' := eval lazy -[hash_of vch_eqb has CastToBool CheckSig CheckColdStake CheckSignatureEncoding CheckPubKeyEncoding drop_signature vch_bool and_then] in t in
      change t with t'
  end; cbn [and_then].
Ltac run_push :=
  erewrite step_push; [ | reflexivity | reflexivity | reflexivity | reflexivity | now rewrite andb_false_r ]; cbn [set_stack set_count stack altstack vfExec pbegincodehash nOpCount pc].
Ltac run_skip :=
  erewrite step_skip; [ | reflexivity | reflexivity | reflexivity | reflexivity | reflexivity ]; cbn [set_stack set_count stack altstack vfExec pbegincodehash nOpCount pc].
Ltac run_size := rewrite sized_ok; [cbn [and_then] | cbn [set_stack set_count stack altstack length] in *; try lia; idtac].

Ltac start :=
  unfold EvalScript, init; change (Z.of_nat (length _) >? MAX_SCRIPT_SIZE) with false; cbv iota;
  match goal with |- context [S (length ?l)] => let n := eval lazy in (length l) in change (length l) with n end.

Lemma eval_p2sh h s : length h = 20%nat ->
  EvalScript low buf local (GetScriptForDestination (CScriptID h)) flags v s =
  match s with
  | [] => invalid_stack
  | redeem :: rest =>
      if (length rest <=? 998)%nat then Value (vch_bool (vch_eqb (hash_of buf local OP_HASH160 redeem) h) :: rest) else Error SCRIPT_ERR_STACK_SIZE
  end.
Proof.
  intros Hh. fields h Hh. start. destruct s as [|redeem rest]; [now run_op|].
  run_op. destruct (Nat.leb_spec (length rest) 998) as [Hl|Hl].
  - run_size. run_push. run_size. run_op. run_size. rewrite step_end by reflexivity. reflexivity.
  - destruct (Nat.eq_dec (length rest) 999) as [El|El].
    + run_size. run_push. rewrite sized_too_many by (cbn [set_stack set_count stack altstack length]; lia). reflexivity.
    + rewrite sized_too_many by (cbn [set_stack set_count stack altstack length]; lia). reflexivity.
Qed.

(** What the exceptions become. *)
Definition caught {A} (r : eval A) : eval A := match r with Exception => Error SCRIPT_ERR_UNKNOWN_ERROR | r => r end.

(** The signature check that ends the forms for one key. *)
Definition checksig (scr : script) (sig pub : valtype) (rest : list valtype) : eval (list valtype) :=
  caught (
    let* code := drop_signature scr sig in
    let* _ := CheckSignatureEncoding low sig flags in
    let* _ := CheckPubKeyEncoding pub flags in
    let* ok := CheckSig sig pub code v in
    Value (vch_bool ok :: rest)).

Ltac run_checksig :=
  change (scriptCode_of ?s 0) with s; unfold checksig;
  destruct (drop_signature _ _) as [code|e| | |]; cbn [and_then caught]; try reflexivity;
  destruct (CheckSignatureEncoding _ _ _) as [[]|e| | |]; cbn [and_then caught]; try reflexivity;
  destruct (CheckPubKeyEncoding _ _) as [[]|e| | |]; cbn [and_then caught]; try reflexivity;
  destruct (CheckSig _ _ _ _) as [ok|e| | |]; cbn [and_then caught]; try reflexivity;
  run_size; rewrite step_end by reflexivity; reflexivity.

Lemma eval_p2pkh h pub sig rest : length h = 20%nat -> (length rest <= 996)%nat ->
  EvalScript low buf local (GetScriptForDestination (CKeyID h)) flags v (pub :: sig :: rest) =
  if vch_eqb (hash_of buf local OP_HASH160 pub) h then checksig (GetScriptForDestination (CKeyID h)) sig pub rest else Error SCRIPT_ERR_EQUALVERIFY.
Proof.
  intros Hh Hl. fields h Hh. start. run_op. run_size. run_op. run_size. run_push. run_size. run_op.
  change 169 with OP_HASH160. destruct (vch_eqb _ _); cbn [and_then]; [|reflexivity].
  run_size. run_op. run_checksig.
Qed.

(** The staker gives a flag that is true, the owner one that is not. *)
Lemma eval_cold_stake (lof : bool) a b pub flag sig : length a = 20%nat -> length b = 20%nat ->
  let scr := if lof then GetScriptForStakeDelegationLOF a b else GetScriptForStakeDelegation a b in
  let hash := hash_of buf local OP_HASH160 pub in
  EvalScript low buf local scr flags v [pub; flag; sig] =
  caught (
    let* _ := if CastToBool flag then CheckColdStake lof scr [hash; pub; sig] flags else Value tt in
    if vch_eqb hash (if CastToBool flag then a else b) then checksig scr sig pub [] else Error SCRIPT_ERR_EQUALVERIFY).
Proof.
  intros Ha Hb. fields a Ha. fields b Hb. destruct lof; cbv zeta iota; start; run_op; run_size; run_op; run_size; run_op; run_size; run_op; run_size;
    change 169 with OP_HASH160; destruct (CastToBool flag).
  - run_op. destruct (CheckColdStake _ _ _ _) as [[]|e| | |]; cbn [and_then caught]; try reflexivity. run_size. run_push. run_size.
    run_op. run_size. run_skip. run_size. run_op. run_size. run_op. destruct (vch_eqb _ _); cbn [and_then caught]; [|reflexivity]. run_size. run_op. run_checksig.
  - run_skip. run_size. run_skip. run_size. run_op. run_size. run_push. run_size. run_op. run_size.
    run_op. cbn [and_then]. destruct (vch_eqb _ _); cbn [and_then caught]; [|reflexivity]. run_size. run_op. run_checksig.
  - run_op. destruct (CheckColdStake _ _ _ _) as [[]|e| | |]; cbn [and_then caught]; try reflexivity. run_size. run_push. run_size.
    run_op. run_size. run_skip. run_size. run_op. run_size. run_op. destruct (vch_eqb _ _); cbn [and_then caught]; [|reflexivity]. run_size. run_op. run_checksig.
  - run_skip. run_size. run_skip. run_size. run_op. run_size. run_push. run_size. run_op. run_size.
    run_op. cbn [and_then]. destruct (vch_eqb _ _); cbn [and_then caught]; [|reflexivity]. run_size. run_op. run_checksig.
Qed.
End Forms.

(** * VerifyScript *)

Lemma CastToBool_bool b : CastToBool (vch_bool b) = b.
Proof. now destruct b. Qed.

Lemma vch_eqb_eq a b : vch_eqb a b = true <-> a = b.
Proof. unfold vch_eqb. destruct (list_eq_dec Z.eq_dec a b); split; congruence. Qed.

Lemma require_Value b e : require b e = Value tt <-> b = true.
Proof. now destruct b. Qed.

Lemma caught_Value {A} (r : eval A) a : caught r = Value a <-> r = Value a.
Proof. destruct r; cbn; split; congruence. Qed.

(** ** Pushes, and the signatures in the script that they sign *)

Lemma push_nonempty d : (1 <= length (push_data [] d))%nat.
Proof. unfold push_data. rewrite length_app. repeat match goal with |- context [if ?b then _ else _] => destruct b end; cbn [length app]; lia. Qed.

Lemma pushes_only ds : Forall (fun d => (length d <= 520)%nat) ds -> Z.of_nat (length (fold_left push_data ds [])) < 2 ^ 32 ->
  IsPushOnly (fold_left push_data ds []) = Some true.
Proof.
  intros Hds Hl. rewrite fold_push in *. cbn [app] in *. unfold IsPushOnly. rewrite IsPushOnly_from_items by lia. cbn [skipn].
  assert (Hi : items (concat (map (push_data []) ds)) = (map (fun d => (push_opcode_of (Z.of_nat (length d)), d)) ds, true)).
  { apply items_chunks; [|assumption]. clear -Hds. induction Hds as [|d ds Hd _ IH]; [constructor|]. cbn [map]. constructor; [|assumption]. apply reads_push. cbn [snd]. lia. }
  rewrite Hi. cbn [fst snd]. rewrite andb_true_r. f_equal. apply forallb_forall. intros i Hin. apply in_map_iff in Hin as (d & <- & _). cbn [fst].
  unfold push_opcode_of, OP_16, OP_PUSHDATA1, OP_PUSHDATA2, OP_PUSHDATA4. rewrite Z.gtb_ltb.
  repeat match goal with |- context [if ?b then _ else _] => destruct b eqn:? end; lia.
Qed.

Lemma drop_signature_none cs sig : Forall (fun c => exists j, chunk c j) cs -> Z.of_nat (length (concat cs)) < 2 ^ 32 -> Z.of_nat (length sig) < 2 ^ 31 ->
  Forall (fun c => same (push_data [] sig) c = false) cs -> drop_signature (concat cs) sig = Value (concat cs).
Proof.
  intros Hcs Hl Hsig Hno. unfold drop_signature. rewrite (FindAndDelete_chunks (push_data [] sig) (push_opcode_of (Z.of_nat (length sig)), sig) (reads_push sig Hsig)) by assumption. cbn [total and_then fst].
  do 2 f_equal. unfold others. clear -Hno. induction Hno as [|c cs Hc _ IH]; [reflexivity|]. cbn [filter]. now rewrite Hc, IH.
Qed.

Lemma same_length b c : length b <> length c -> same b c = false.
Proof. intros H. unfold same. destruct (list_eq_dec Z.eq_dec b c) as [->|]; [now destruct H | reflexivity]. Qed.

Lemma chunk_op o : o > OP_PUSHDATA4 -> exists j, chunk [o] j.
Proof. intros H. exists (o, []). now apply reads_opcode. Qed.

Lemma chunk_push d : (length d < 76)%nat -> exists j, chunk (Z.of_nat (length d) :: d) j.
Proof. intros H. rewrite <- push_small by assumption. exists (push_opcode_of (Z.of_nat (length d)), d). apply (reads_push d). lia. Qed.

Lemma drop_p2pkh h sig : length h = 20%nat -> (2 <= length sig <= 75)%nat -> sig <> h ->
  drop_signature (GetScriptForDestination (CKeyID h)) sig = Value (GetScriptForDestination (CKeyID h)).
Proof.
  intros Hh Hs Hne.
  assert (E : GetScriptForDestination (CKeyID h) = concat [[0x76]; [0xa9]; Z.of_nat (length h) :: h; [0x88]; [0xac]]).
  { cbn [GetScriptForDestination]. unfold push_opcode. rewrite (push_data_app _ h), push_small by lia. rewrite <- !app_assoc. reflexivity. }
  rewrite E. apply drop_signature_none.
  - do 2 (constructor; [now apply chunk_op|]). constructor; [apply chunk_push; lia|]. do 2 (constructor; [now apply chunk_op|]). constructor.
  - cbn [concat app length]. rewrite length_app. cbn [length]. lia.
  - lia.
  - rewrite push_small by lia. do 2 (constructor; [apply same_length; cbn [length]; lia|]). constructor.
    { unfold same. destruct (list_eq_dec Z.eq_dec _ _) as [E'|]; [|reflexivity]. injection E' as _ E'. now destruct Hne. }
    do 2 (constructor; [apply same_length; cbn [length]; lia|]). constructor.
Qed.

Section Verified.
Context {checker : Checker} (low : valtype -> bool) (buf local : list Z) (flags v : Z).
Abbreviation VerifyScript := (VerifyScript low buf local flags v).
Abbreviation EvalScript_on := (EvalScript_on low buf local flags v).

(** It is accepted exactly when the three evaluations leave what they should. *)
Lemma VerifyScript_Value scriptSig scriptPubKey :
  VerifyScript scriptSig scriptPubKey = Value tt <->
  exists push stack top rest,
    IsPushOnly scriptSig = Some push /\ (has flags SCRIPT_VERIFY_SIGPUSHONLY = true -> push = true) /\
    EvalScript_on [] scriptSig = Value stack /\ EvalScript_on stack scriptPubKey = Value (top :: rest) /\ CastToBool top = true /\
    (has flags SCRIPT_VERIFY_P2SH = true -> IsPayToScriptHash scriptPubKey = true ->
     push = true /\ exists redeem copy top' rest', stack = redeem :: copy /\ EvalScript_on copy redeem = Value (top' :: rest') /\ CastToBool top' = true).
Proof.
  unfold Interp.VerifyScript. destruct (IsPushOnly scriptSig) as [push|]; cbn [total and_then].
  2: { split; [discriminate | now intros (p & ? & ? & ? & ? & _)]. }
  split.
  - destruct (_ && negb push) eqn:Ep; cbn [refuse and_then]; [discriminate|]. rewrite and_then_Value. intros (stack & E1 & H). rewrite and_then_Value in H. destruct H as (stack2 & E2 & H).
    rewrite and_then_Value in H. destruct H as ([] & Et & H). destruct stack2 as [|top rest]; cbn [top_is_true] in Et; [discriminate|]. apply require_Value in Et.
    exists push, stack, top, rest. split; [reflexivity|]. split; [intros Hf; rewrite Hf in Ep; now destruct push|]. do 3 (split; [assumption|]).
    intros Hp2 Hsh. rewrite Hp2, Hsh in H. cbn [andb] in H. destruct push; cbn [require and_then] in H; [|discriminate]. split; [reflexivity|].
    destruct stack as [|redeem copy]; [discriminate|]. rewrite and_then_Value in H. destruct H as ([|top' rest'] & E3 & H); cbn [top_is_true] in H; [discriminate|].
    apply require_Value in H. now exists redeem, copy, top', rest'.
  - intros (push' & stack & top & rest & [= <-] & Hpo & E1 & E2 & Et & Hsh).
    assert (has flags SCRIPT_VERIFY_SIGPUSHONLY && negb push = false) as ->.
    { destruct (has flags SCRIPT_VERIFY_SIGPUSHONLY); [now rewrite Hpo|reflexivity]. }
    cbn [refuse and_then]. rewrite E1. cbn [and_then]. rewrite E2. cbn [and_then top_is_true]. rewrite Et. cbn [require and_then].
    destruct (has flags SCRIPT_VERIFY_P2SH); [|reflexivity]. destruct (IsPayToScriptHash scriptPubKey); [|reflexivity].
    destruct (Hsh eq_refl eq_refl) as (-> & redeem & copy & top' & rest' & -> & E3 & Et'). cbn [andb require and_then]. rewrite E3. cbn [and_then top_is_true]. now rewrite Et'.
Qed.

(** ** Pushes *)

Definition pushable (d : valtype) : Prop :=
  (length d <= 520)%nat /\ has flags SCRIPT_VERIFY_MINIMALDATA && negb (CheckMinimalPush d (push_opcode_of (Z.of_nat (length d)))) = false.

Lemma pushable_small d : (2 <= length d <= 75)%nat -> pushable d.
Proof.
  intros H. split; [lia|]. unfold CheckMinimalPush, push_opcode_of, OP_PUSHDATA1.
  destruct (Z.eqb_spec (Z.of_nat (length d)) 0), (Z.eqb_spec (Z.of_nat (length d)) 1); try lia. cbn [andb].
  destruct (Z.leb_spec (Z.of_nat (length d)) 75), (Z.ltb_spec (Z.of_nat (length d)) 0x4c); lia.
Qed.

Lemma eval_pushes_loop ds fuel pre st :
  let scr := pre ++ concat (map (push_data []) ds) in
  pc st = length pre -> Z.of_nat (length scr) < 2 ^ 31 -> Forall pushable ds -> executing st = true ->
  (length (stack st) + length (altstack st) + length ds <= 1000)%nat -> (length ds < fuel)%nat ->
  eval_loop low buf local scr flags v fuel st = Value (set_stack (set_count st (length scr) (nOpCount st)) (rev ds ++ stack st)).
Proof.
  revert fuel pre st; induction ds as [|d ds IH]; intros [|fuel] pre st scr Hpc Hl Hds He Hs Hf; try (cbn in Hf; lia).
  - unfold scr. cbn [map concat app rev]. rewrite app_nil_r. rewrite step_end; [|apply Nat.ltb_ge; lia]. rewrite <- Hpc. now destruct st.
  - cbn [length] in Hs, Hf. pose proof (Forall_inv Hds) as [Hd Hm]. apply Forall_inv_tail in Hds. destruct (reads_push d) as [_ Hread]; [lia|].
    unfold scr in *. cbn [map concat] in *.
    erewrite step_push; [| rewrite Hpc, GetOp_app, Hread; [reflexivity | rewrite length_app in Hl; lia] | now apply Nat.leb_le | | assumption | exact Hm].
    2: { unfold push_opcode_of, OP_PUSHDATA1, OP_PUSHDATA2, OP_PUSHDATA4. repeat match goal with |- context [if ?b then _ else _] => destruct b eqn:? end; lia. }
    rewrite sized_ok by (cbn [set_stack set_count stack altstack length]; lia). cbn [and_then].
    specialize (IH fuel (pre ++ push_data [] d) (set_stack (set_count st (length pre + length (push_data [] d)) (nOpCount st)) (d :: stack st))).
    cbn zeta in IH. rewrite <- app_assoc in IH. rewrite IH; [| | assumption | assumption | assumption | | lia].
    + f_equal. cbn [set_stack set_count stack nOpCount altstack vfExec pbegincodehash pc rev]. now rewrite <- app_assoc.
    + cbn [set_stack set_count pc]. now rewrite length_app.
    + cbn [set_stack set_count stack altstack length]. lia.
Qed.

Lemma eval_pushes ds s : Forall pushable ds -> (length s + length ds <= 1000)%nat -> Z.of_nat (length (fold_left push_data ds [])) <= MAX_SCRIPT_SIZE ->
  EvalScript_on s (fold_left push_data ds []) = Value (rev ds ++ s).
Proof.
  intros Hds Hs Hl. rewrite fold_push in *. cbn [app] in *. unfold Interp.EvalScript_on, EvalScript.
  rewrite Z.gtb_ltb. destruct (Z.ltb_spec MAX_SCRIPT_SIZE (Z.of_nat (length (concat (map (push_data []) ds))))) as [|H]; [lia|].
  unfold MAX_SCRIPT_SIZE in *. rewrite (eval_pushes_loop ds _ [] (init s)); [reflexivity | reflexivity | cbn [app]; lia | assumption | reflexivity | cbn; lia |].
  assert (length ds <= length (concat (map (push_data []) ds)))%nat; [|lia]. clear.
  induction ds as [|d ds IH]; [cbn; lia|]. cbn [map concat length]. rewrite length_app. pose proof (push_nonempty d). lia.
Qed.

Lemma checksig_Value scr sig pub rest b r : drop_signature scr sig = Value scr ->
  checksig low flags v scr sig pub rest = Value (b :: r) /\ CastToBool b = true <->
  CheckSignatureEncoding low sig flags = Value tt /\ CheckPubKeyEncoding pub flags = Value tt /\ CheckSig sig pub scr v = Value true /\ b = vchTrue /\ r = rest.
Proof.
  intros Hd. unfold checksig. rewrite Hd, caught_Value. cbn [and_then].
  destruct (CheckSignatureEncoding low sig flags) as [[]|e| | |]; cbn [and_then]; try (split; [now intros [? _] | now intros [? _]]).
  destruct (CheckPubKeyEncoding pub flags) as [[]|e| | |]; cbn [and_then]; try (split; [now intros [? _] | now intros (_ & ? & _)]).
  destruct (CheckSig sig pub scr v) as [[]|e| | |]; cbn [and_then]; try (split; [now intros [? _] | now intros (_ & _ & ? & _)]).
  - split; [intros [[= <- <-] _]; repeat split | intros (_ & _ & _ & -> & ->); split; reflexivity].
  - split; [intros [[= <- <-] ?]; discriminate | now intros (_ & _ & ? & _)].
Qed.

End Verified.

Lemma drop_cold (lof : bool) a b sig : length a = 20%nat -> length b = 20%nat -> (2 <= length sig <= 75)%nat -> sig <> a -> sig <> b ->
  let scr := if lof then GetScriptForStakeDelegationLOF a b else GetScriptForStakeDelegation a b in
  drop_signature scr sig = Value scr.
Proof.
  intros Ha Hb Hs Hna Hnb scr.
  assert (E : scr = concat [[0x76]; [0xa9]; [0x7b]; [0x63]; [if lof then 0xd1 else 0xd2]; Z.of_nat (length a) :: a; [0x67]; Z.of_nat (length b) :: b; [0x68]; [0x88]; [0xac]]).
  { unfold scr, GetScriptForStakeDelegationLOF, GetScriptForStakeDelegation, push_opcode.
    destruct lof; cbv zeta; rewrite (push_data_app _ a), (push_data_app _ b), !push_small by lia; rewrite <- !app_assoc; reflexivity. }
  clearbody scr. subst scr.
  assert (Hpush : forall d, length d = 20%nat -> sig <> d -> same (push_data [] sig) (Z.of_nat (length d) :: d) = false).
  { intros d Hd Hne. rewrite push_small by lia. unfold same. destruct (list_eq_dec Z.eq_dec _ _) as [E'|]; [|reflexivity]. injection E' as _ E'. now destruct Hne. }
  apply drop_signature_none.
  - do 4 (constructor; [now apply chunk_op|]). constructor; [destruct lof; now apply chunk_op|]. constructor; [apply chunk_push; lia|].
    constructor; [now apply chunk_op|]. constructor; [apply chunk_push; lia|]. do 3 (constructor; [now apply chunk_op|]). constructor.
  - cbn [concat app length]. rewrite !length_app. cbn [length app]. rewrite !length_app. cbn [length]. lia.
  - lia.
  - rewrite push_small in * by lia.
    do 5 (constructor; [apply same_length; cbn [length]; lia|]). constructor; [now apply Hpush|]. constructor; [apply same_length; cbn [length]; lia|].
    constructor; [now apply Hpush|]. do 3 (constructor; [apply same_length; cbn [length]; lia|]). constructor.
Qed.

(** ** The interpreter decides *)

(** C2. The bounds of the interpreter: from a stack of at most 1000 elements of at most 520
    bytes, a script of bytes either leaves such a stack or fails with an error: no exception
    leaves [EvalScript], no assertion fails and the loop is not longer than the script; in every
    state that is reached on the way the two stacks have at most 1000 elements of at most 520
    bytes and at most 201 operations are counted; and [VerifyScript] accepts or rejects. *)
Theorem interpreter_decides {checker : Checker} {laws : CheckerLaws checker} low buf local flags v scr s st scriptSig scriptPubKey :
  length buf = 64%nat -> length local = 64%nat -> bytes scr -> elements s -> Z.of_nat (length s) <= 1000 ->
  reached low buf local scr flags v s st -> bytes scriptSig -> bytes scriptPubKey ->
  decided (fun s' => elements s' /\ Z.of_nat (length s') <= 1000) (EvalScript low buf local scr flags v s) /\
  (elements (stack st) /\ elements (altstack st) /\ Z.of_nat (length (stack st) + length (altstack st)) <= 1000 /\ nOpCount st <= 201) /\
  decided any (VerifyScript low buf local flags v scriptSig scriptPubKey).
Proof.
  intros Hbuf Hlocal Hscr Hs Hl Hst Hsig Hpub. split; [now apply EvalScript_decided|]. split.
  { destruct (reached_invariant low buf local scr flags v Hbuf Hlocal Hscr s st Hs Hl Hst). now repeat split. }
  unfold VerifyScript. assert (Hp : IsPushOnly scriptSig <> None) by (unfold IsPushOnly; now rewrite IsPushOnly_from_items by lia).
  destruct (IsPushOnly scriptSig) as [push|]; [|now destruct Hp]. cbn [total and_then]. apply decided_refuse. intros _. unfold EvalScript_on.
  eapply decided_bind; [apply EvalScript_decided; try assumption; [constructor | cbn; lia]|]. intros stack1 [Hs1 Hl1].
  destruct (EvalScript low buf local scriptPubKey flags v stack1) as [stack2|e| | |] eqn:E2; cbn [and_then];
    pose proof (EvalScript_decided low buf local scriptPubKey flags v Hbuf Hlocal Hpub stack1 Hs1 Hl1) as H2; rewrite E2 in H2; try exact I; try now destruct H2.
  apply (decided_bind any). { destruct stack2 as [|top rest]; cbn [top_is_true]; [exact I|]. now destruct (CastToBool top). } intros _ _.
  destruct (has flags SCRIPT_VERIFY_P2SH); cbn [andb]; [|exact I]. destruct (IsPayToScriptHash scriptPubKey) eqn:Esh; [|exact I].
  apply decided_require. intros _. destruct stack1 as [|redeem copy].
  - destruct (IsPayToScriptHash_form _ Esh) as [Hr E]. rewrite E in E2. rewrite eval_p2sh in E2 by assumption. discriminate.
  - eapply decided_bind; [apply EvalScript_decided; try assumption; [apply (Forall_inv Hs1) | now apply Forall_inv_tail in Hs1 | cbn [length] in Hl1; lia]|].
    intros stack3 _. destruct stack3 as [|top rest]; cbn [top_is_true]; [exact I|]. now destruct (CastToBool top).
Qed.

#[export] Instance BaseSignatureChecker_laws : CheckerLaws BaseSignatureChecker.
Proof. split; intros; exact I. Qed.

Lemma interpreter_decides_witness : decided any (VerifyScript (checker := BaseSignatureChecker) (fun _ => true) (repeat 0 64) (repeat 0 64) 0 0 [0x51] [0x51]).
Proof.
  assert (H1 : bytes [0x51]) by (repeat constructor; lia).
  apply (interpreter_decides (checker := BaseSignatureChecker) (fun _ => true) (repeat 0 64) (repeat 0 64) 0 0 [0x51] [] (init []));
    [reflexivity | reflexivity | exact H1 | constructor | cbn; lia | apply reached_init | exact H1 | exact H1].
Defined.

(** ** Standard forms *)

Section Standard.
Context {checker : Checker} (low : valtype -> bool) (buf local : list Z) (flags v : Z).
Context (Hbuf : length buf = 64%nat) (Hlocal : length local = 64%nat).

Lemma element_key (pub : valtype) : bytes pub -> (length pub <= 75)%nat -> element pub.
Proof. intros Hb Hl. apply element_small; [assumption | lia]. Qed.

(** C8. Pay to public key hash: the script that pushes a signature and a key spends the script
    for a key hash exactly when the hash of the key is the one of the script, the encodings of
    the signature and of the key pass the flags, and the signature check accepts the signature
    for the whole script. *)
Theorem pay_to_pubkey_hash h sig pub :
  length h = 20%nat -> bytes pub -> (2 <= length pub <= 75)%nat -> (2 <= length sig <= 75)%nat -> sig <> h ->
  VerifyScript low buf local flags v (push_data (push_data [] sig) pub) (GetScriptForDestination (CKeyID h)) = Value tt <->
  RipemdSpec.ripemd160 (Sha2Spec.sha256 pub) = h /\
  CheckSignatureEncoding low sig flags = Value tt /\ CheckPubKeyEncoding pub flags = Value tt /\
  CheckSig sig pub (GetScriptForDestination (CKeyID h)) v = Value true.
Proof.
  intros Hh Hpub Hl Hs Hne. change (push_data (push_data [] sig) pub) with (fold_left push_data [sig; pub] []).
  assert (Hlen : length (fold_left push_data [sig; pub] []) = (2 + length sig + length pub)%nat).
  { rewrite fold_push. cbn [app map concat]. rewrite !push_small, app_nil_r by lia. rewrite length_app. cbn [length]. lia. }
  assert (H520 : Forall (fun d : valtype => (length d <= 520)%nat) [sig; pub]) by (constructor; [lia|]; constructor; [lia | constructor]).
  assert (Hpush : Forall (pushable flags) [sig; pub]) by (constructor; [now apply pushable_small|]; constructor; [now apply pushable_small | constructor]).
  rewrite VerifyScript_Value, pushes_only by (assumption || (rewrite Hlen; lia)).
  rewrite (eval_pushes low buf local flags v [sig; pub] []) by (assumption || (cbn [length]; lia) || (rewrite Hlen; unfold MAX_SCRIPT_SIZE; lia)).
  cbn [rev app].
  assert (E2 : EvalScript_on low buf local flags v [pub; sig] (GetScriptForDestination (CKeyID h)) =
    if vch_eqb (RipemdSpec.ripemd160 (Sha2Spec.sha256 pub)) h then checksig low flags v (GetScriptForDestination (CKeyID h)) sig pub [] else Error SCRIPT_ERR_EQUALVERIFY).
  { unfold EvalScript_on. rewrite eval_p2pkh by (assumption || (cbn; lia)). now rewrite hash_of_spec by (assumption || (apply element_key; [assumption | lia])). }
  assert (Hsh : IsPayToScriptHash (GetScriptForDestination (CKeyID h)) = false) by (clear -Hh; fields h Hh; reflexivity).
  pose proof (drop_p2pkh h sig Hh Hs Hne) as Hdrop. set (scr := GetScriptForDestination (CKeyID h)) in *. clearbody scr.
  split.
  - intros (push & stk & top & rest & [= <-] & _ & [= <-] & E & Et & _). rewrite E2 in E.
    destruct (vch_eqb _ h) eqn:Eh; [|discriminate]. apply vch_eqb_eq in Eh. split; [assumption|].
    destruct (proj1 (checksig_Value low flags v scr sig pub [] top rest Hdrop) (conj E Et)) as (H1 & H2 & H3 & _). now split.
  - intros (Eh & H1 & H2 & H3). exists true, [pub; sig], vchTrue, []. rewrite E2, (proj2 (vch_eqb_eq _ _) Eh).
    destruct (proj2 (checksig_Value low flags v scr sig pub [] vchTrue [] Hdrop)) as [E Et]; [now repeat split|].
    split; [reflexivity|]. split; [reflexivity|]. split; [reflexivity|]. split; [assumption|]. split; [reflexivity|]. intros _ Hc. now rewrite Hsh in Hc.
Qed.

(** C9. Pay to script hash: a script that pushes only spends the script for a script hash
    exactly when the last item that it pushes has the hash, and, as a script, leaves a true
    element from the other items. *)
Theorem pay_to_script_hash {laws : CheckerLaws checker} h scriptSig :
  length h = 20%nat -> bytes scriptSig -> has flags SCRIPT_VERIFY_P2SH = true ->
  VerifyScript low buf local flags v scriptSig (GetScriptForDestination (CScriptID h)) = Value tt <->
  IsPushOnly scriptSig = Some true /\
  exists redeem items top rest,
    EvalScript_on low buf local flags v [] scriptSig = Value (redeem :: items) /\ (length items <= 998)%nat /\
    RipemdSpec.ripemd160 (Sha2Spec.sha256 redeem) = h /\
    EvalScript_on low buf local flags v items redeem = Value (top :: rest) /\ CastToBool top = true.
Proof.
  intros Hh Hb Hp. rewrite VerifyScript_Value.
  assert (Hsh : IsPayToScriptHash (GetScriptForDestination (CScriptID h)) = true) by (clear -Hh; fields h Hh; reflexivity).
  assert (Helem : forall redeem items, EvalScript_on low buf local flags v [] scriptSig = Value (redeem :: items) -> element redeem).
  { intros redeem items E. pose proof (EvalScript_decided low buf local scriptSig flags v Hbuf Hlocal Hb [] (Forall_nil _) ltac:(cbn; lia)) as H.
    unfold EvalScript_on in E. rewrite E in H. destruct H as [H _]. exact (Forall_inv H). }
  assert (Heval : forall redeem items, EvalScript_on low buf local flags v [] scriptSig = Value (redeem :: items) ->
    EvalScript_on low buf local flags v (redeem :: items) (GetScriptForDestination (CScriptID h)) =
    if (length items <=? 998)%nat then Value (vch_bool (vch_eqb (RipemdSpec.ripemd160 (Sha2Spec.sha256 redeem)) h) :: items) else Error SCRIPT_ERR_STACK_SIZE).
  { intros redeem items E. unfold EvalScript_on. rewrite eval_p2sh by assumption. now rewrite hash_of_spec by (assumption || now apply Helem in E). }
  split.
  - intros (push & stk & top & rest & Epo & _ & E1 & E2 & Et & H). destruct (H Hp Hsh) as (-> & redeem & items & top' & rest' & -> & E3 & Et').
    split; [assumption|]. exists redeem, items, top', rest'. rewrite (Heval _ _ E1) in E2. destruct (Nat.leb_spec (length items) 998); [|discriminate].
    injection E2 as <- <-. rewrite CastToBool_bool in Et. apply vch_eqb_eq in Et. now repeat split.
  - intros (Epo & redeem & items & top & rest & E1 & Hl & Eh & E2 & Et).
    exists true, (redeem :: items), vchTrue, items. rewrite (Heval _ _ E1), (proj2 (vch_eqb_eq _ _) Eh). destruct (Nat.leb_spec (length items) 998); [|lia].
    repeat split; try assumption; try reflexivity. now exists redeem, items, top, rest.
Qed.

(** C10. Cold staking: with a signature, a flag and a key on the stack, the script of a stake
    delegation leaves a true element exactly when the hash of the key is the staker's, if the
    flag is true, and the owner's if it is not, the encodings pass and the signature check
    accepts; and the staker, not the owner, must also pass the check of the coinstake. *)
Theorem cold_staking (lof : bool) a b sig flag pub scriptSig :
  length a = 20%nat -> length b = 20%nat -> bytes pub -> (length pub <= 75)%nat -> (2 <= length sig <= 75)%nat -> sig <> a -> sig <> b ->
  IsPushOnly scriptSig = Some true -> EvalScript_on low buf local flags v [] scriptSig = Value [pub; flag; sig] ->
  let scr := if lof then GetScriptForStakeDelegationLOF a b else GetScriptForStakeDelegation a b in
  let hash := RipemdSpec.ripemd160 (Sha2Spec.sha256 pub) in
  VerifyScript low buf local flags v scriptSig scr = Value tt <->
  hash = (if CastToBool flag then a else b) /\
  CheckSignatureEncoding low sig flags = Value tt /\ CheckPubKeyEncoding pub flags = Value tt /\ CheckSig sig pub scr v = Value true /\
  (CastToBool flag = true -> CheckColdStake lof scr [hash; pub; sig] flags = Value tt).
Proof.
  intros Ha Hb Hpub Hl Hs Hna Hnb Hpo E1 scr hash. rewrite VerifyScript_Value.
  assert (Hsh : IsPayToScriptHash scr = false) by (clear -Ha Hb; unfold scr; fields a Ha; fields b Hb; now destruct lof).
  assert (E2 : EvalScript_on low buf local flags v [pub; flag; sig] scr =
    caught (let* _ := if CastToBool flag then CheckColdStake lof scr [hash; pub; sig] flags else Value tt in
            if vch_eqb hash (if CastToBool flag then a else b) then checksig low flags v scr sig pub [] else Error SCRIPT_ERR_EQUALVERIFY)).
  { pose proof (eval_cold_stake low buf local flags v lof a b pub flag sig Ha Hb) as E. cbv zeta in E.
    rewrite hash_of_spec in E by (assumption || now apply element_key). exact E. }
  pose proof (drop_cold lof a b sig Ha Hb Hs Hna Hnb) as Hdrop. cbv zeta in Hdrop. fold scr in Hdrop. clearbody scr. clearbody hash.
  split.
  - intros (push & stk & top & rest & _ & _ & E1' & E2' & Et & _). rewrite E1 in E1'. injection E1' as <-. rewrite E2, caught_Value in E2'.
    rewrite and_then_Value in E2'. destruct E2' as ([] & Ec & E3). destruct (vch_eqb hash _) eqn:Eh; [|discriminate]. apply vch_eqb_eq in Eh. split; [assumption|].
    destruct (proj1 (checksig_Value low flags v scr sig pub [] top rest Hdrop) (conj E3 Et)) as (H1 & H2 & H3 & _).
    repeat split; try assumption. intros Hf. now rewrite Hf in Ec.
  - intros (Eh & H1 & H2 & H3 & Hc). exists true, [pub; flag; sig], vchTrue, []. rewrite E2.
    destruct (proj2 (checksig_Value low flags v scr sig pub [] vchTrue [] Hdrop)) as [E Et]; [now repeat split|].
    split; [assumption|]. split; [reflexivity|]. split; [assumption|]. split; [|split; [reflexivity | intros _ Hc'; now rewrite Hsh in Hc']].
    apply caught_Value. rewrite (proj2 (vch_eqb_eq _ _) Eh). destruct (CastToBool flag); [rewrite Hc by reflexivity|]; exact E.
Qed.
End Standard.

(** A checker that accepts everything, for the examples. *)
Definition accepting : Checker := {| CheckSig _ _ _ _ := Value true; CheckLockTime _ := true; CheckColdStake _ _ _ _ := Value tt |}.
#[export] Instance accepting_laws : CheckerLaws accepting.
Proof. split; intros; exact I. Qed.

Definition example_key : valtype := 2 :: repeat 5 32.
Definition example_sig : valtype := repeat 6 9.

Lemma pay_to_pubkey_hash_witness :
  VerifyScript (checker := accepting) (fun _ => true) (repeat 0 64) (repeat 0 64) 0 0 (push_data (push_data [] example_sig) example_key)
    (GetScriptForDestination (CKeyID (RipemdSpec.ripemd160 (Sha2Spec.sha256 example_key)))) = Value tt.
Proof.
  assert (Hl := proj2 (ripemd160_digest (Sha2Spec.sha256 example_key))). set (h := RipemdSpec.ripemd160 (Sha2Spec.sha256 example_key)) in *.
  apply (pay_to_pubkey_hash (checker := accepting) (fun _ => true) (repeat 0 64) (repeat 0 64) 0 0 eq_refl eq_refl h example_sig example_key).
  - exact Hl.
  - apply Forall_cons; [now split|]. apply Forall_forall. intros x Hx. apply repeat_spec in Hx. subst x. now split.
  - cbn. lia.
  - cbn. lia.
  - intros E. apply (f_equal (@length Z)) in E. rewrite Hl in E. discriminate E.
  - split; [reflexivity|]. split; [reflexivity|]. split; reflexivity.
Defined.

Lemma pay_to_script_hash_witness :
  VerifyScript (checker := accepting) (fun _ => true) (repeat 0 64) (repeat 0 64) 1 0 (push_data [] [0x51])
    (GetScriptForDestination (CScriptID (RipemdSpec.ripemd160 (Sha2Spec.sha256 [0x51])))) = Value tt.
Proof.
  assert (Hl := proj2 (ripemd160_digest (Sha2Spec.sha256 [0x51]))). set (h := RipemdSpec.ripemd160 (Sha2Spec.sha256 [0x51])) in *.
  apply (pay_to_script_hash (checker := accepting) (fun _ => true) (repeat 0 64) (repeat 0 64) 1 0 eq_refl eq_refl h (push_data [] [0x51])).
  - exact Hl.
  - repeat (apply Forall_cons; [now split|]). constructor.
  - reflexivity.
  - split; [reflexivity|]. exists [0x51], [], [1], []. split; [reflexivity|]. split; [cbn; lia|]. split; [reflexivity|]. split; reflexivity.
Defined.

Lemma cold_staking_witness :
  VerifyScript (checker := accepting) (fun _ => true) (repeat 0 64) (repeat 0 64) 0 0 (push_data (push_opcode (push_data [] example_sig) OP_1) example_key)
    (GetScriptForStakeDelegation (RipemdSpec.ripemd160 (Sha2Spec.sha256 example_key)) (repeat 7 20)) = Value tt.
Proof.
  assert (Hl := proj2 (ripemd160_digest (Sha2Spec.sha256 example_key))). set (h := RipemdSpec.ripemd160 (Sha2Spec.sha256 example_key)) in *.
  apply (cold_staking (checker := accepting) (fun _ => true) (repeat 0 64) (repeat 0 64) 0 0 eq_refl eq_refl false h (repeat 7 20) example_sig [1] example_key).
  - exact Hl.
  - reflexivity.
  - apply Forall_cons; [now split|]. apply Forall_forall. intros x Hx. apply repeat_spec in Hx. subst x. now split.
  - cbn. lia.
  - cbn. lia.
  - intros E. apply (f_equal (@length Z)) in E. rewrite Hl in E. discriminate E.
  - discriminate.
  - reflexivity.
  - reflexivity.
  - split; [reflexivity|]. split; [reflexivity|]. split; [reflexivity|]. split; reflexivity.
Defined.

(** * Several signatures *)

(** The signatures are those of some of the keys, in the order of the keys. *)
Inductive matched (ok : valtype -> valtype -> bool) : list valtype -> list valtype -> Prop :=
| matched_nil keys : matched ok [] keys
| matched_take sig sigs key keys : ok sig key = true -> matched ok sigs keys -> matched ok (sig :: sigs) (key :: keys)
| matched_skip sigs key keys : matched ok sigs keys -> matched ok sigs (key :: keys).

Lemma matched_length ok sigs keys : matched ok sigs keys -> (length sigs <= length keys)%nat.
Proof. induction 1; cbn [length]; lia. Qed.

Lemma matched_tail ok sig sigs keys : matched ok (sig :: sigs) keys -> matched ok sigs keys.
Proof.
  intros H. remember (sig :: sigs) as l eqn:El. induction H as [|s ss k ks Hok H IH|l k ks H IH]; [discriminate| |].
  - injection El as -> ->. now apply matched_skip.
  - apply matched_skip. auto.
Qed.

(** The loop takes the first key that accepts the next signature. *)
Lemma matched_cons ok sig sigs key keys :
  matched ok (sig :: sigs) (key :: keys) <-> matched ok (if ok sig key then sigs else sig :: sigs) keys.
Proof.
  destruct (ok sig key) eqn:E; split; intros H.
  - inversion H; subst; [assumption|]. now apply matched_tail in H2.
  - now apply matched_take.
  - inversion H; subst; congruence.
  - now apply matched_skip.
Qed.

Lemma stacktop_nth s a x b : s = a ++ x :: b -> stacktop s (S (length a)) = Value x.
Proof. intros ->. cbn [stacktop]. now rewrite nth_error_app2, Nat.sub_diag by lia. Qed.

Section Multisig.
Context {checker : Checker} (low : valtype -> bool) (flags v : Z) (code : script) (ok : valtype -> valtype -> bool).

(** The encodings pass the flags and the checker answers. *)
Definition answered (sigs keys : list valtype) : Prop :=
  forall sig key, In sig sigs -> In key keys ->
  CheckSignatureEncoding low sig flags = Value tt /\ CheckPubKeyEncoding key flags = Value tt /\ CheckSig sig key code v = Value (ok sig key).

Lemma multisig_loop_matched keys sigs s isig ikey a b c d : answered sigs keys -> (length sigs <= length keys)%nat ->
  s = a ++ keys ++ b -> ikey = S (length a) -> s = c ++ sigs ++ d -> isig = S (length c) ->
  exists r, multisig_loop low flags v code s isig ikey (length sigs) (length keys) = Value r /\ (r = true <-> matched ok sigs keys).
Proof.
  revert sigs isig ikey a c; induction keys as [|key keys IH]; intros [|sig sigs] isig ikey a c Hans Hl Ek Hik Es His; cbn [length multisig_loop] in *;
    try (exists true; split; [reflexivity | split; [constructor | reflexivity]]); [lia|].
  rewrite His, (stacktop_nth s c sig (sigs ++ d)) by exact Es. cbn [and_then]. rewrite Hik, (stacktop_nth s a key (keys ++ b)) by exact Ek. cbn [and_then].
  destruct (Hans sig key (or_introl eq_refl) (or_introl eq_refl)) as (-> & -> & ->). cbn [and_then].
  set (sigs' := if ok sig key then sigs else sig :: sigs).
  assert (En : (if ok sig key then Nat.pred (S (length sigs)) else S (length sigs)) = length sigs') by (unfold sigs'; now destruct (ok sig key)).
  rewrite En. setoid_rewrite matched_cons. fold sigs'. destruct (Nat.ltb_spec (length keys) (length sigs')) as [Hlt|Hge].
  - exists false. split; [reflexivity|]. split; [discriminate|]. intros Hm. apply matched_length in Hm. lia.
  - destruct (ok sig key) eqn:Eok.
    + apply (IH sigs' (S (S (length c))) (S (S (length a))) (a ++ [key]) (c ++ [sig])).
      * intros s' k' Hs' Hk'. apply Hans; right; assumption.
      * assumption.
      * rewrite <- app_assoc. assumption.
      * rewrite length_app. cbn. lia.
      * rewrite <- app_assoc. assumption.
      * rewrite length_app. cbn. lia.
    + apply (IH sigs' (S (length c)) (S (S (length a))) (a ++ [key]) c).
      * intros s' k' Hs' Hk'. apply Hans; [exact Hs' | right; assumption].
      * assumption.
      * rewrite <- app_assoc. assumption.
      * rewrite length_app. cbn. lia.
      * exact Es.
      * reflexivity.
Qed.
End Multisig.

Lemma small_number (n : nat) b : (n <= 20)%nat -> CScriptNum_of (serialize (Z.of_nat n)) b nDefaultMaxNumSize = Number (Z.of_nat n) /\ getint (Z.of_nat n) = Z.of_nat n.
Proof.
  intros H. assert (E : forallb (fun k => match CScriptNum_of (serialize (Z.of_nat k)) b nDefaultMaxNumSize with Number m => (m =? Z.of_nat k) && (getint m =? m) | _ => false end) (seq 0 21) = true) by (destruct b; reflexivity).
  rewrite forallb_forall in E. specialize (E n ltac:(apply in_seq; lia)). destruct (CScriptNum_of _ _ _) as [m| |]; try discriminate.
  apply andb_true_iff in E as [E1 E2]. apply Z.eqb_eq in E1, E2. subst m. split; [reflexivity | exact E2].
Qed.

(** C11. [OP_CHECKMULTISIG]: with the number of keys on top of the keys, the number of
    signatures on top of the signatures and an empty element below them, the operation takes
    all of them and leaves whether the signatures are those of some of the keys, in the order
    of the keys; [OP_CHECKMULTISIGVERIFY] fails when they are not; it counts as one operation
    for each key. *)
Theorem multisig_matching {checker : Checker} low flags v scr st keys sigs rest code ok :
  stack st = serialize (Z.of_nat (length keys)) :: keys ++ serialize (Z.of_nat (length sigs)) :: sigs ++ [] :: rest ->
  (length keys <= 20)%nat -> (length sigs <= length keys)%nat -> nOpCount st + Z.of_nat (length keys) <= 201 ->
  drop_signatures (scriptCode_of scr (pbegincodehash st)) (stack st) (S (2 + length keys)) 0 (length sigs) = Value code ->
  answered low flags v code ok sigs keys ->
  let after s := set_count (set_stack st s) (pc st) (nOpCount st + Z.of_nat (length keys)) in
  exists b, (b = true <-> matched ok sigs keys) /\
    check_multisig_op low scr flags v false st = Value (after (vch_bool b :: rest)) /\
    check_multisig_op low scr flags v true st = if b then Value (after rest) else Error SCRIPT_ERR_CHECKMULTISIGVERIFY.
Proof.
  intros Est Hk Hs Hc Hdrop Hans after.
  set (s := stack st) in *. set (n := length keys) in *. set (m := length sigs) in *.
  destruct (multisig_loop_matched low flags v code ok keys sigs s (S (2 + n)) 2 [serialize (Z.of_nat n)] (serialize (Z.of_nat m) :: sigs ++ [] :: rest)
    (serialize (Z.of_nat n) :: keys ++ [serialize (Z.of_nat m)]) ([] :: rest) Hans Hs) as (b & Eloop & Hb).
  { exact Est. } { reflexivity. } { rewrite Est. cbn [app]. now rewrite <- app_assoc. } { cbn [length]. rewrite length_app. cbn [length]. unfold n. lia. }
  fold n m in Eloop. exists b. split; [exact Hb|].
  assert (Hlen : length s = (3 + n + m + length rest)%nat) by (rewrite Est; cbn [length]; rewrite !length_app; cbn [length]; rewrite length_app; cbn [length]; unfold n, m; lia).
  assert (Etop : stacktop s 1 = Value (serialize (Z.of_nat n))) by now rewrite Est.
  assert (Em : stacktop s (2 + n) = Value (serialize (Z.of_nat m))).
  { replace (2 + n)%nat with (S (length (serialize (Z.of_nat n) :: keys))) by (cbn [length]; unfold n; lia). eapply stacktop_nth. exact Est. }
  assert (Erest : skipn (2 + n + m) s = [] :: rest).
  { rewrite Est. change (?x :: keys ++ ?y :: sigs ++ ?z) with ([x] ++ keys ++ [y] ++ sigs ++ z). rewrite !app_assoc.
    rewrite skipn_app, skipn_all2 by (rewrite !length_app; cbn [length]; unfold n, m; lia).
    match goal with |- context [skipn ?k ([] :: rest)] => replace k with 0%nat by (rewrite !length_app; cbn [length]; unfold n, m; lia) end. reflexivity. }
  destruct (small_number n (fRequireMinimal flags) Hk) as [En Egn]. destruct (small_number m (fRequireMinimal flags) ltac:(lia)) as [Emm Egm].
  assert (Hop : forall verify, check_multisig_op low scr flags v verify st =
    if verify then if b then Value (after rest) else Error SCRIPT_ERR_CHECKMULTISIGVERIFY else Value (after (vch_bool b :: rest))); [|split; apply (Hop false) || apply (Hop true)].
  intros verify. unfold check_multisig_op. cbv zeta. fold s. destruct (Nat.ltb_spec (length s) 1); [lia|]. rewrite Etop. cbn [and_then]. rewrite En. cbn [number and_then]. rewrite Egn.
  unfold MAX_PUBKEYS_PER_MULTISIG. destruct (Z.ltb_spec (Z.of_nat n) 0); [lia|]. rewrite (Z.gtb_ltb (Z.of_nat n)). destruct (Z.ltb_spec 20 (Z.of_nat n)); [lia|]. cbn [orb refuse and_then].
  rewrite (Z.gtb_ltb (nOpCount st + _)). destruct (Z.ltb_spec 201 (nOpCount st + Z.of_nat n)); [lia|]. cbn [refuse and_then]. rewrite Nat2Z.id.
  destruct (Nat.ltb_spec (length s) (2 + n)); [lia|]. rewrite Em. cbn [and_then]. rewrite Emm. cbn [number and_then]. rewrite Egm.
  destruct (Z.ltb_spec (Z.of_nat m) 0); [lia|]. rewrite (Z.gtb_ltb (Z.of_nat m)). destruct (Z.ltb_spec (Z.of_nat n) (Z.of_nat m)); [lia|]. cbn [orb refuse and_then]. rewrite Nat2Z.id.
  destruct (Nat.ltb_spec (length s) (S (2 + n) + m)); [lia|]. rewrite Hdrop. cbn [and_then]. rewrite Eloop. cbn [and_then].
  replace (S (2 + n) + m - 1)%nat with (2 + n + m)%nat by lia. rewrite Erest. cbn [length Nat.eqb negb]. rewrite andb_false_r. cbn [refuse and_then]. reflexivity.
Qed.

Lemma multisig_matching_witness :
  exists b, (b = true <-> matched (fun s k => s.[0] =? k.[0]) [[7]; [9]] [[7]; [8]; [9]]) /\
    check_multisig_op (checker := {| CheckSig s k _ _ := Value (s.[0] =? k.[0]); CheckLockTime _ := true; CheckColdStake _ _ _ _ := Value tt |})
      (fun _ => true) [] 0 0 false (init ([3] :: [[7]; [8]; [9]] ++ [2] :: [[7]; [9]] ++ [[]])) =
    Value (set_count (init [vch_bool b]) 0 3).
Proof.
  destruct (multisig_matching (checker := {| CheckSig s k _ _ := Value (s.[0] =? k.[0]); CheckLockTime _ := true; CheckColdStake _ _ _ _ := Value tt |})
    (fun _ => true) 0 0 [] (init ([3] :: [[7]; [8]; [9]] ++ [2] :: [[7]; [9]] ++ [[]])) [[7]; [8]; [9]] [[7]; [9]] [] [] (fun s k => s.[0] =? k.[0])) as (b & Hb & H1 & _).
  - reflexivity.
  - cbn. lia.
  - cbn. lia.
  - cbn. lia.
  - reflexivity.
  - intros sig key Hs Hk. cbn in Hs, Hk. destruct Hs as [<-|[<-|[]]]; destruct Hk as [<-|[<-|[<-|[]]]]; (split; [reflexivity|]; split; reflexivity).
  - exists b. split; [exact Hb | exact H1].
Defined.
