(* ===== verification/Blocks.v ===== *)
(** Blocks on the wire and what their hash commits to: the serialization of blocks and
    transactions together with the hashes of the Quark, SHA-256 and Merkle components. *)
From Stdlib Require Import ZifyNat.
From S2P Require Import Prelude CryptoCommon Stream Uint256 Sha256 HashSpec Sha2Hash HashClasses Quark.
From S2P Require Import Merkle MerkleTrees MerkleProofs Streams Serialize SerializeLaws Transactions TransactionsProofs.
Import CryptoCommon Uint256 Merkle Tx.

#[local] Opaque Sha2Spec.sha256 QuarkSpec.quark.

(** * The hashes *)

Definition sha256d (m : list Z) : list Z := Sha2Spec.sha256 (Sha2Spec.sha256 m).

Lemma SerializeHash_spec {A} buf (f : format A) a :
  length buf = 64%nat -> bytes (ser f a) -> sha_ok (ser f a) -> SerializeHash buf f a = sha256d (ser f a).
Proof.
  intros Hb Ha Hok. apply (Hash256_rep buf (sha256_stream buf Hb)); try assumption. now apply (one_write (HS := sha256_stream buf Hb)).
Qed.

(** Messages with the digests that were computed of them; a collision is two different
    messages with the same digest. *)
Definition collides (M : list (list Z * list Z)) : Prop :=
  exists m1 m2 d, In (m1, d) M /\ In (m2, d) M /\ m1 <> m2.

Lemma collides_incl M M' : incl M M' -> collides M -> collides M'.
Proof. intros HI (m1 & m2 & d & H1 & H2 & N). exists m1, m2, d. split; [now apply HI|]. split; [now apply HI | exact N]. Qed.

Lemma digest_inj M m1 m2 d : In (m1, d) M -> In (m2, d) M -> m1 = m2 \/ collides M.
Proof. intros H1 H2. destruct (list_eq_dec Z.eq_dec m1 m2) as [|N]; [now left | right]. exists m1, m2, d. split; [exact H1|]. split; [exact H2 | exact N]. Qed.

Lemma is_hash_sha256d m : is_hash (sha256d m).
Proof. exact (sha256_digest _). Qed.

Lemma app_inj_length {A} (a b c d : list A) : length a = length c -> a ++ b = c ++ d -> a = c /\ b = d.
Proof.
  revert c; induction a as [|x a IH]; intros [|y c] L E; try discriminate; [now split|].
  cbn [app] in E. injection E as -> E. destruct (IH c ltac:(now injection L) E) as [-> ->]. now split.
Qed.

(** The pairs of hashes that are hashed in a Merkle tree, with their digests. *)
Definition pair_digests (N : list (uint256 * uint256)) : list (list Z * list Z) :=
  map (fun p => (fst p ++ snd p, node_hash (fst p) (snd p))) N.

Lemma node_collision N : Forall (fun p => is_hash (fst p) /\ is_hash (snd p)) N -> MerkleSpec.collision_in node_hash N -> collides (pair_digests N).
Proof.
  rewrite Forall_forall. intros HN ([a b] & [c d] & Hp & Hq & Hne & E). destruct (HN _ Hp) as [[_ La] _], (HN _ Hq) as [[_ Lc] _]. cbn [fst snd] in *.
  exists (a ++ b), (c ++ d), (node_hash a b). split; [exact (in_map (fun p => (fst p ++ snd p, node_hash (fst p) (snd p))) N (a, b) Hp)|]. split.
  - unfold MerkleSpec.hash_of in E. cbn [fst snd] in E. rewrite E. exact (in_map (fun p => (fst p ++ snd p, node_hash (fst p) (snd p))) N (c, d) Hq).
  - intros H. apply Hne. assert (a = c /\ b = d) as [-> ->]; [|reflexivity]. apply app_inj_length; [congruence | exact H].
Qed.

(** The hash of a header from its serialization. *)
Definition header_digest (h : CBlockHeader) : list Z :=
  if h_nVersion h <? 4 then QuarkSpec.quark (ser CBlockHeaderF h) else sha256d (ser CBlockHeaderF h).

Lemma sha_ok_header {h} : CBlockHeader_ok h -> sha_ok (ser CBlockHeaderF h) /\ Z.of_nat (length (ser CBlockHeaderF h)) < 2 ^ 64.
Proof. intros H. unfold sha_ok. rewrite (length_ser_header h H). destruct (_ || _); lia. Qed.

Lemma GetHash_spec l buf h :
  locals_shape l -> length buf = 64%nat -> CBlockHeader_ok h -> GetHash l buf h = header_digest h.
Proof.
  intros Hl Hb Hh. unfold GetHash, header_digest. destruct (sha_ok_header Hh). pose proof (bytes_ser_header h Hh).
  destruct (Z.ltb_spec (h_nVersion h) 4); [rewrite header_memory_ser by assumption; apply HashQuark_spec; assumption | apply (SerializeHash_spec buf CBlockHeaderF h); assumption].
Qed.

Definition header_message (h : CBlockHeader) : list Z * list Z := (ser CBlockHeaderF h, header_digest h).

Lemma header_digest_inj M h1 h2 :
  CBlockHeader_ok h1 -> CBlockHeader_ok h2 -> In (header_message h1) M -> In (header_message h2) M -> header_digest h1 = header_digest h2 ->
  h1 = h2 \/ collides M.
Proof.
  unfold header_message. intros H1 H2 I1 I2 E. rewrite E in I1. destruct (digest_inj M _ _ _ I1 I2) as [Es|]; [left | now right].
  exact (ser_inj CBlockHeaderF CBlockHeader_ok h1 h2 H1 H2 (bytes_ser_header h1 H1) Es).
Qed.

Section Blocks.
Context {sizes : Sizes} {SL : SizesLaws}.
Context (buf : list Z) (Hbuf : length buf = 64%nat).

(** A transaction that SHA-256 can hash. *)
Definition hashable (tx : CTransaction) : Prop := CTransaction_ok tx /\ sha_ok (ser CTransactionF tx).

Lemma ComputeHash_spec tx : hashable tx -> ComputeHash buf tx = sha256d (ser CTransactionF tx).
Proof. intros [H1 H2]. exact (SerializeHash_spec buf CTransactionF tx Hbuf (Bytes_CTransaction tx H1) H2). Qed.

Definition tx_message (tx : CTransaction) : list Z * list Z := (ser CTransactionF tx, sha256d (ser CTransactionF tx)).

Lemma txid_inj M tx1 tx2 :
  hashable tx1 -> hashable tx2 -> In (tx_message tx1) M -> In (tx_message tx2) M -> ComputeHash buf tx1 = ComputeHash buf tx2 -> tx1 = tx2 \/ collides M.
Proof.
  unfold tx_message. intros H1 H2 I1 I2 E. rewrite !ComputeHash_spec in E by assumption. rewrite E in I1.
  destruct (digest_inj M _ _ _ I1 I2) as [Es|]; [left | now right]. destruct H1 as [H1 _], H2 as [H2 _].
  exact (ser_inj CTransactionF CTransaction_ok tx1 tx2 H1 H2 (Bytes_CTransaction _ H1) Es).
Qed.

Lemma txids_inj M l1 l2 :
  Forall hashable l1 -> Forall hashable l2 -> incl (map tx_message l1) M -> incl (map tx_message l2) M ->
  map (ComputeHash buf) l1 = map (ComputeHash buf) l2 -> l1 = l2 \/ collides M.
Proof.
  revert l2; induction l1 as [|a l1 IH]; intros [|b l2] H1 H2 I1 I2 E; [left; reflexivity | discriminate | discriminate |]. cbn [map] in *. inversion H1; inversion H2; subst.
  apply incl_cons_inv in I1 as [Ia I1], I2 as [Ib I2].
  pose proof (f_equal (hd []) E) as Ea. pose proof (f_equal (@tl _) E) as El. cbn [hd tl] in Ea, El.
  destruct (txid_inj M a b ltac:(assumption) ltac:(assumption) Ia Ib Ea) as [->|]; [|now right].
  destruct (IH l2 ltac:(assumption) ltac:(assumption) I1 I2 El) as [->|]; [now left | now right].
Qed.

Lemma txids_hash l : Forall hashable l -> Forall is_hash (map (ComputeHash buf) l).
Proof. intros H. apply Forall_map. eapply Forall_impl; [|exact H]. intros tx Htx. rewrite ComputeHash_spec by assumption. apply is_hash_sha256d. Qed.

(** A block whose header has the Merkle root of its transactions, without a duplication. *)
Definition committed (b : CBlock) : Prop :=
  CBlock_ok b /\ vtx b <> [] /\ Z.of_nat (length (vtx b)) <= 2 ^ 31 /\ Forall hashable (vtx b) /\
  BlockMerkleRoot buf (map (ComputeHash buf) (vtx b)) = Some (hashMerkleRoot (header b), false).

Definition txids (b : CBlock) : list uint256 := map (ComputeHash buf) (vtx b).

(** What is hashed for a block, with the digests: the header, the transactions and the pairs
    of the Merkle tree. *)
Definition hashed (b : CBlock) : list (list Z * list Z) :=
  header_message (header b) :: map tx_message (vtx b) ++ pair_digests (MerkleSpec.tree_nodes null256 node_hash (txids b)).

(** Two different messages of those that are hashed for the two blocks have the same digest. *)
Definition blocks_collide (b1 b2 : CBlock) : Prop := collides (hashed b1 ++ hashed b2).

(** A transaction hash of the first block is the hash of a pair in the Merkle tree of the
    second one. *)
Definition txid_is_node (b1 b2 : CBlock) : Prop := MerkleSpec.leaf_is_node null256 node_hash (txids b1) (txids b2).

Lemma tree_nodes_hash b : Forall hashable (vtx b) -> Forall (fun p => is_hash (fst p) /\ is_hash (snd p)) (MerkleSpec.tree_nodes null256 node_hash (txids b)).
Proof. intros H. apply (nodes_P null256 node_hash is_hash is_hash_null (fun a b _ _ => is_hash_node a b)). now apply txids_hash. Qed.
End Blocks.

(** * On the wire *)

Section Wire.
Context {sizes : Sizes} {SL : SizesLaws} {S : Type} {R : Reader S} {L : ReaderLaws S}.

(** C4. A block is read back: from a stream that starts with the serialization of a block
    whose fields are in range, [Unserialize] returns the block, with the fields that its
    header version, its transactions' versions and types and its kind (proof of stake or
    not) call for, and leaves the rest of the stream. *)
Theorem block_roundtrip (s : S) b rest :
  ready s -> CBlock_ok b -> content s = ser CBlockF b ++ rest ->
  exists s', unser CBlockF s = Ok (b, s') /\ ready s' /\ content s' = rest.
Proof. exact (Sound_CBlock S R L s b rest). Qed.

(** C26. Reading a block from any bytes ends without running out of fuel: with an exception of
    the code, or with a block all of whose fields have their type and size, read from the front of
    the stream. *)
Theorem block_read (s : S) :
  ready s ->
  match unser CBlockF s with
  | Ok (b, s') => CBlock_ok b /\ ready s' /\ exists used, content s = used ++ content s'
  | Throw e => e <> OutOfFuel
  end.
Proof.
  intros Hs. pose proof (Total_CBlock S R L s Hs) as T. destruct (unser CBlockF s) as [[b s']|e] eqn:E; [|congruence].
  destruct (Safe_CBlock S R L s b s' Hs E) as (H1 & H2 & H3). auto.
Qed.

(** A transaction of a version before Sapling has one encoding: what was read from the
    stream is the serialization of the transaction that was returned, and a stream that
    holds a part of it is refused. *)
Theorem transaction_encoding (s : S) tx s' :
  ready s -> unser CTransactionF s = Ok (tx, s') -> nVersion tx < 3 ->
  content s = ser CTransactionF tx ++ content s' /\
  forall (t : S) tail, ready t -> content t ++ tail = ser CTransactionF tx -> tail <> [] -> exists e, unser CTransactionF t = Throw e.
Proof.
  intros Hs E Hv. assert (Hleg : isSaplingVersion (nVersion tx) = false) by (unfold isSaplingVersion, SAPLING; rewrite Z.geb_leb; apply Z.leb_gt; lia).
  destruct (Safe_CTransaction S R L s tx s' Hs E) as (_ & Hok & _). split; [now apply legacy_exact|].
  intros t tail Ht Hc Hne. destruct (unser CTransactionF t) as [[tx' t']|e] eqn:E'; [exfalso | eauto].
  pose proof (Bytes_CTransaction tx Hok) as Hb. destruct (version_first S R L t tx' t' Ht E') as (r & Hr & Hv').
  assert (Ev : nVersion tx' = nVersion tx).
  { rewrite <- Hc, Hr, <- app_assoc in Hb.
    refine (proj1 (ser_prefix int16F int16 (nVersion tx') (nVersion tx) (r ++ tail) (skipn 2 (ser CTransactionF tx)) Hv' (proj1 Hok) Hb _)).
    rewrite app_assoc, <- Hr, Hc. reflexivity. }
  assert (Hleg' : isSaplingVersion (nVersion tx') = false) by now rewrite Ev.
  pose proof (legacy_exact S R L t tx' t' Ht E' Hleg') as Hc'. destruct (Safe_CTransaction S R L t tx' t' Ht E') as (_ & Hok' & _).
  rewrite Hc', <- app_assoc in Hc. rewrite <- Hc in Hb.
  destruct (ser_prefix CTransactionF CTransaction_ok tx' tx (content t' ++ tail) [] Hok' Hok Hb) as [_ Hn]; [now rewrite app_nil_r|].
  apply app_eq_nil in Hn as [_ Hn]. contradiction.
Qed.
End Wire.

(** * What a block hash commits to *)

(** The hash of a header: [CBlockHeader::GetHash] is the Quark hash of the serialization
    for the versions before 4, which has 80 bytes, and its double SHA-256 for the others; two headers
    with the same hash are the same, or their serializations are two different messages with
    the same digest. *)
Theorem header_hash l buf h :
  locals_shape l -> length buf = 64%nat -> CBlockHeader_ok h ->
  GetHash l buf h = header_digest h /\ (h_nVersion h < 4 -> length (ser CBlockHeaderF h) = 80%nat) /\
  forall l' buf' h', locals_shape l' -> length buf' = 64%nat -> CBlockHeader_ok h' ->
    GetHash l buf h = GetHash l' buf' h' -> h = h' \/ collides [header_message h; header_message h'].
Proof.
  intros Hl Hb Hh. rewrite (GetHash_spec l buf h Hl Hb Hh). split; [reflexivity|]. split.
  - intros Hv. rewrite (length_ser_header h Hh). destruct (Z.gtb_spec (h_nVersion h) 3); [lia|]. rewrite Z.geb_leb.
    destruct (Z.leb_spec 8 (h_nVersion h)); [lia | reflexivity].
  - intros l' buf' h' Hl' Hb' Hh' E. rewrite (GetHash_spec l' buf' h' Hl' Hb' Hh') in E.
    apply header_digest_inj; [assumption | assumption | now left | right; now left | exact E].
Qed.

(** C27. A block hash commits to the block: two blocks whose headers have the same hash, and
    whose headers have the Merkle roots of their transactions, have the same header and the
    same transactions, unless two different messages of those that are hashed for the two
    blocks (the headers, the transactions and the pairs in their Merkle trees) have the same
    digest, or a transaction hash of the one is the hash of a pair in the tree of the other. *)
Theorem block_hash_commits {sizes : Sizes} {SL : SizesLaws} l buf b1 b2 :
  locals_shape l -> length buf = 64%nat -> committed buf b1 -> committed buf b2 ->
  GetHash l buf (header b1) = GetHash l buf (header b2) ->
  (header b1 = header b2 /\ vtx b1 = vtx b2) \/ blocks_collide buf b1 b2 \/ txid_is_node buf b1 b2 \/ txid_is_node buf b2 b1.
Proof.
  intros Hl Hbuf (Ok1 & N1 & L1 & H1 & R1) (Ok2 & N2 & L2 & H2 & R2) E. unfold blocks_collide, txid_is_node. set (M := hashed buf b1 ++ hashed buf b2).
  assert (I : forall x, In x (hashed buf b1) \/ In x (hashed buf b2) -> In x M) by (intros x; apply in_or_app).
  assert (Tx : forall b, incl (hashed buf b) M -> incl (map tx_message (vtx b)) M) by (intros b Hb; apply incl_cons_inv in Hb as [_ Hb]; now apply incl_app_inv in Hb).
  assert (B1 : incl (hashed buf b1) M) by (intros x Hx; auto). assert (B2 : incl (hashed buf b2) M) by (intros x Hx; auto).
  rewrite !GetHash_spec in E by (assumption || apply Ok1 || apply Ok2).
  destruct (header_digest_inj M _ _ (proj1 Ok1) (proj1 Ok2) (B1 _ (or_introl eq_refl)) (B2 _ (or_introl eq_refl)) E) as [Eh|]; [|now right; left]. rewrite <- Eh in R2.
  assert (Ne : forall v : list CTransaction, v <> [] -> map (ComputeHash buf) v <> []) by (intros [|? ?] Hn; [easy | discriminate]).
  rewrite <- (length_map (ComputeHash buf)) in L1, L2.
  destruct (root_commits buf _ _ _ Hbuf (txids_hash buf Hbuf _ H1) (txids_hash buf Hbuf _ H2) (Ne _ N1) (Ne _ N2) L1 L2 R1 R2) as [Et|[C|[C|C]]].
  - destruct (txids_inj buf Hbuf M _ _ H1 H2 (Tx _ B1) (Tx _ B2) Et) as [Ev|]; [left; split; [exact Eh | exact Ev] | now right; left].
  - right; left. refine (collides_incl _ _ _ (node_collision _ _ C)); [|apply Forall_app; split; now apply (tree_nodes_hash buf Hbuf)].
    unfold pair_digests. rewrite map_app. apply incl_app; [apply (incl_tran (m := hashed buf b1)) | apply (incl_tran (m := hashed buf b2))]; try assumption;
      apply incl_tl, incl_appr, incl_refl.
  - right; right; left. exact C.
  - right; right; right. exact C.
Qed.

(** * Amounts *)

Definition total_out (vout : list CTxOut) : Z := fold_right (fun o sum => nValue o + sum) 0 vout.

Lemma i64_small x : - 2 ^ 63 <= x < 2 ^ 63 -> i64 x = x.
Proof. intros H. apply signed_mod; [lia | exact H]. Qed.

Lemma i64_over x : 2 ^ 63 <= x < 2 ^ 64 -> i64 x = x - 2 ^ 64.
Proof. intros H. unfold i64, signed. rewrite Z.mod_small by lia. destruct (Z.ltb_spec x (2 ^ (64 - 1))); [change (2 ^ (64 - 1)) with (2 ^ 63) in *; lia | reflexivity]. Qed.

Lemma total_out_nonneg vout : forallb (fun o => 0 <=? nValue o) vout = true -> 0 <= total_out vout.
Proof. induction vout as [|o vout IH]; cbn [forallb total_out fold_right]; [lia|]. intros H. apply andb_prop in H as [H1 H2]. specialize (IH H2). unfold total_out in IH. lia. Qed.

Lemma GetValueOut_loop_spec vout acc :
  Forall (fun o => int64 (nValue o)) vout -> 0 <= acc < 2 ^ 63 ->
  GetValueOut_loop vout acc =
  if forallb (fun o => 0 <=? nValue o) vout && (acc + total_out vout <? 2 ^ 63) then Some (acc + total_out vout) else None.
Proof.
  intros H; revert acc; induction H as [|o vout Ho Hv IH]; intros acc Ha; cbn [GetValueOut_loop forallb total_out fold_right].
  - rewrite Z.add_0_r. cbn [andb]. destruct (Z.ltb_spec acc (2 ^ 63)); [reflexivity | lia].
  - fold (total_out vout). unfold int64 in Ho. destruct (Z.ltb_spec (nValue o) 0); [destruct (Z.leb_spec 0 (nValue o)); [lia | reflexivity]|].
    destruct (Z.leb_spec 0 (nValue o)); [|lia]. cbn [andb]. destruct (Z.lt_ge_cases (acc + nValue o) (2 ^ 63)).
    + rewrite i64_small by lia. destruct (Z.ltb_spec (acc + nValue o) acc); [lia|]. rewrite IH by lia. now rewrite Z.add_assoc.
    + rewrite i64_over by lia. destruct (Z.ltb_spec (acc + nValue o - 2 ^ 64) acc); [|lia].
      destruct (forallb (fun o => 0 <=? nValue o) vout) eqn:Ef; [|reflexivity]. cbn [andb]. apply total_out_nonneg in Ef.
      destruct (Z.ltb_spec (acc + (nValue o + total_out vout)) (2 ^ 63)); [lia | reflexivity].
Qed.

(** The value of the outputs: [GetValueOut] throws when an output is negative or their sum
    does not fit a [CAmount], and otherwise returns the sum, to which the amount that goes to the
    shielded pool is added, when there is one and the version allows it; a shielded amount in a
    version before Sapling is an exception. *)
Theorem value_out {sizes : Sizes} {SL : SizesLaws} tx :
  CTransaction_ok tx ->
  let shielded := if hasSaplingData tx && (sap_valueBalance tx <? 0) then - sap_valueBalance tx else 0 in
  GetValueOut tx =
    if forallb (fun o => 0 <=? nValue o) (vout tx) && (total_out (vout tx) <? 2 ^ 63) then
      if (0 <? shielded) && negb (isSaplingVersion (nVersion tx)) then None else Some (i64 (total_out (vout tx) + shielded))
    else None.
Proof.
  intros (_ & _ & _ & [Hv _] & _ & Ht) shielded. unfold GetValueOut.
  assert (Hvout : Forall (fun o => int64 (nValue o)) (vout tx)) by (eapply Forall_impl; [|exact Hv]; intros o Ho; apply Ho).
  rewrite GetValueOut_loop_spec by (try assumption; lia). rewrite Z.add_0_l.
  destruct (forallb _ (vout tx)) eqn:Ef; cbn [andb]; [|reflexivity]. pose proof (total_out_nonneg _ Ef).
  destruct (Z.ltb_spec (total_out (vout tx)) (2 ^ 63)); [|reflexivity].
  destruct (hasSaplingData tx); cbn [andb] in *; [|subst shielded; change (0 <? 0) with false; cbn [andb]; rewrite i64_small by lia; f_equal; lia].
  destruct (Z.ltb_spec (sap_valueBalance tx) 0); subst shielded; [|change (0 <? 0) with false; cbn [andb]; rewrite i64_small by lia; f_equal; lia].
  destruct (Z.ltb_spec 0 (- sap_valueBalance tx)); [|lia]. destruct (isSaplingVersion (nVersion tx)); cbn [negb andb]; [|reflexivity].
  f_equal. unfold i64 at 1 3. f_equal. unfold i64, signed. destruct (_ <? _);
    [now rewrite Z.add_mod_idemp_r by lia|]. replace (total_out (vout tx) + (- sap_valueBalance tx mod 2 ^ 64 - 2 ^ 64)) with (total_out (vout tx) + - sap_valueBalance tx mod 2 ^ 64 + (-1) * 2 ^ 64) by lia.
  rewrite Z.mod_add, Z.add_mod_idemp_r by lia. reflexivity.
Qed.

(** The addition of the shielded amount is not checked: it wraps around. *)
Definition max_out : CTransaction :=
  {| vin := []; vout := [{| nValue := 2 ^ 63 - 1; scriptPubKey := []; nRounds := -10 |}]; nVersion := 3; nType := 0; nLockTime := 0;
     sapData := Some {| valueBalance := -1; vShieldedSpend := []; vShieldedOutput := []; bindingSig := repeat 0 64 |};
     extraPayload := None |}.
Example value_out_wraps : GetValueOut max_out = Some (- 2 ^ 63).
Proof. reflexivity. Qed.

(** * Witnesses *)

Definition coinbase : CTransaction :=
  {| vin := [{| prevout := COutPoint_null; scriptSig := [1; 2]; nSequence := SEQUENCE_FINAL |}];
     vout := [{| nValue := 100000000; scriptPubKey := [0x51]; nRounds := -10 |}];
     nVersion := 1; nType := 0; nLockTime := 0; sapData := Some SaplingTxData_default; extraPayload := None |}.

Definition example_header : CBlockHeader :=
  {| h_nVersion := 4; hashPrevBlock := repeat 1 32; hashMerkleRoot := ComputeHash (sizes := lp64) (repeat 0 64) coinbase; nTime := 1551107115;
     nBits := 0x1e0ffff0; nNonce := 7; nAccumulatorCheckpoint := repeat 9 32; hashFinalSaplingRoot := repeat 0 32 |}.

Definition example_block : CBlock := {| header := example_header; vtx := [coinbase]; vchBlockSig := []; fChecked := false |}.

Lemma blob_check N l : forallb (wordb 8) l && (length l =? N)%nat = true -> blob N l.
Proof. intros H. apply andb_prop in H as [H1 H2]. split; [now apply words_check | now apply Nat.eqb_eq]. Qed.

Lemma coinbase_ok : CTransaction_ok coinbase.
Proof.
  unfold CTransaction_ok, tail_ok, int16, word. cbn [coinbase nVersion nType nLockTime vin vout sapData extraPayload].
  split; [lia|]. split; [lia|]. split; [|split; [|split; [lia | split; reflexivity]]].
  - split; [|unfold short, MAX_SIZE; cbn; lia]. constructor; [|constructor]. split; [|split; [|split; vm_compute; congruence]].
    + split; [apply blob_check; reflexivity | split; [split; vm_compute; congruence | reflexivity]].
    + split; [apply words_check; reflexivity | unfold short, MAX_SIZE; cbn; lia].
  - split; [|unfold short, MAX_SIZE; cbn; lia]. constructor; [|constructor]. split; [unfold int64; cbn; lia|]. split; [|reflexivity].
    split; [apply words_check; reflexivity | unfold short, MAX_SIZE; cbn; lia].
Qed.

Lemma example_header_ok : CBlockHeader_ok example_header.
Proof.
  unfold CBlockHeader_ok. split; [split; vm_compute; congruence|]. split; [apply blob_check; reflexivity|].
  split; [apply blob_check; vm_compute; reflexivity|]. do 3 (split; [split; vm_compute; congruence|]).
  split; [apply blob_check; reflexivity | reflexivity].
Qed.

Lemma example_block_ok : CBlock_ok example_block.
Proof.
  split; [exact example_header_ok|]. split; [|split; reflexivity]. split; [|unfold short, MAX_SIZE; cbn; lia].
  constructor; [exact coinbase_ok | constructor].
Qed.

Lemma block_roundtrip_witness :
  exists s', unser (CBlockF (sizes := lp64)) (CDataStream.Init (ser (CBlockF (sizes := lp64)) example_block ++ [7])) = Ok (example_block, s') /\
  valid s' /\ CDataStream.str s' = [7].
Proof.
  apply (block_roundtrip (sizes := lp64) (SL := lp64_laws) (L := stream_laws) (CDataStream.Init _) example_block [7]).
  - apply valid_Init; [|vm_compute; reflexivity]. apply words_check. vm_compute. reflexivity.
  - exact example_block_ok.
  - reflexivity.
Defined.

Lemma block_read_witness :
  match unser (CBlockF (sizes := lp64)) (CDataStream.Init (repeat 0 100)) with
  | Ok (b, s') => CBlock_ok b /\ valid s' /\ exists used, repeat 0 100 = used ++ CDataStream.str s'
  | Throw e => e <> OutOfFuel
  end.
Proof.
  apply (block_read (sizes := lp64) (SL := lp64_laws) (L := stream_laws) (CDataStream.Init (repeat 0 100))).
  apply valid_Init; [apply words_check; reflexivity | reflexivity].
Defined.

Lemma transaction_encoding_witness :
  let s := CDataStream.Init (ser (CTransactionF (sizes := lp64)) coinbase ++ [1; 2; 3]) in
  CDataStream.str s = ser (CTransactionF (sizes := lp64)) coinbase ++ [1; 2; 3] /\
  forall (t : CDataStream.stream) tail, valid t -> CDataStream.str t ++ tail = ser (CTransactionF (sizes := lp64)) coinbase -> tail <> [] ->
    exists e, unser (CTransactionF (sizes := lp64)) t = Throw e.
Proof.
  refine (transaction_encoding (sizes := lp64) (SL := lp64_laws) (L := stream_laws)
    (CDataStream.Init (ser (CTransactionF (sizes := lp64)) coinbase ++ [1; 2; 3])) coinbase
    {| CDataStream.vch := ser (CTransactionF (sizes := lp64)) coinbase ++ [1; 2; 3]; CDataStream.nReadPos := 63 |} _ _ _).
  - apply valid_Init; [apply words_check; vm_compute; reflexivity | vm_compute; reflexivity].
  - vm_compute. reflexivity.
  - reflexivity.
Defined.

Lemma header_hash_witness :
  GetHash quark_blank (repeat 0 64) example_header = header_digest example_header /\
  (h_nVersion example_header < 4 -> length (ser CBlockHeaderF example_header) = 80%nat) /\
  forall l' buf' h', locals_shape l' -> length buf' = 64%nat -> CBlockHeader_ok h' ->
    GetHash quark_blank (repeat 0 64) example_header = GetHash l' buf' h' -> example_header = h' \/ collides [header_message example_header; header_message h'].
Proof. apply header_hash; [repeat split; reflexivity | reflexivity | exact example_header_ok]. Defined.

Lemma example_committed : committed (sizes := lp64) (repeat 0 64) example_block.
Proof.
  split; [exact example_block_ok|]. split; [discriminate|]. split; [cbn; lia|]. split; [|vm_compute; reflexivity].
  constructor; [|constructor]. split; [exact coinbase_ok | vm_compute; reflexivity].
Qed.

Lemma block_hash_commits_witness :
  (header example_block = header example_block /\ vtx example_block = vtx example_block) \/
  blocks_collide (sizes := lp64) (repeat 0 64) example_block example_block \/
  txid_is_node (sizes := lp64) (repeat 0 64) example_block example_block \/ txid_is_node (sizes := lp64) (repeat 0 64) example_block example_block.
Proof.
  apply (block_hash_commits (sizes := lp64) (SL := lp64_laws) quark_blank (repeat 0 64) example_block example_block);
    [repeat split; reflexivity | reflexivity | exact example_committed | exact example_committed | reflexivity].
Defined.

Lemma value_out_witness : GetValueOut coinbase = Some 100000000.
Proof. exact (value_out (sizes := lp64) (SL := lp64_laws) coinbase coinbase_ok). Defined.
