(* ===== verification/SignatureHash.v ===== *)
(** script/interpreter.cpp: the hash that signatures sign and [TransactionSignatureChecker], with
    what signatures and cold stakes commit to. What the signature check of secp256k1 and the
    hash of libsodium compute are parameters. *)
From Stdlib Require Import ZifyNat.
From S2P Require Import Prelude CryptoCommon Uint256 HashClasses Streams Serialize Script Transactions Blocks Interpreter InterpreterProofs.
Import CryptoCommon Uint256 Script.Script ScriptLaws Transactions.Tx Interp.

Module SigHash.
(** [CTransactionSignatureSerializer]: its members, in the order of the constructor. *)
Record CTransactionSignatureSerializer := {
  txTo : CTransaction;
  scriptCode : script;
  nIn : Z;
  fAnyoneCanPay : bool;
  fHashSingle : bool;
  fHashNone : bool
}.

Definition construct (txToIn : CTransaction) (scriptCodeIn : script) (nInIn nHashTypeIn : Z) : CTransactionSignatureSerializer :=
  {| txTo := txToIn; scriptCode := scriptCodeIn; nIn := nInIn;
     fAnyoneCanPay := has nHashTypeIn SIGHASH_ANYONECANPAY;
     fHashSingle := (nHashTypeIn &: 0x1f) =? SIGHASH_SINGLE;
     fHashNone := (nHashTypeIn &: 0x1f) =? SIGHASH_NONE |}.

(** The first loop of [SerializeScriptCode]: [nCodeSeparators]. *)
Fixpoint count_separators (fuel : nat) (s : script) (it : nat) (nCodeSeparators : Z) : eval Z :=
  match fuel with
  | O => OutOfFuel
  | S fuel =>
      let '(read, it, opcode, _) := GetOp s it in
      if read then count_separators fuel s it (if opcode =? OP_CODESEPARATOR then w32 (nCodeSeparators + 1) else nCodeSeparators)
      else Value nCodeSeparators
  end.

(** The second: what it writes, and what follows it. *)
Fixpoint write_pieces (fuel : nat) (s : script) (it itBegin : nat) : eval (list Z) :=
  match fuel with
  | O => OutOfFuel
  | S fuel =>
      let '(read, it, opcode, _) := GetOp s it in
      if read then
        if opcode =? OP_CODESEPARATOR then
          let* rest := write_pieces fuel s it it in Value (firstn (it - itBegin - 1) (skipn itBegin s) ++ rest)
        else write_pieces fuel s it itBegin
      else Value (if (itBegin =? length s)%nat then [] else firstn (it - itBegin) (skipn itBegin s))
  end.

Definition SerializeScriptCode (s : script) : eval (list Z) :=
  let* nCodeSeparators := count_separators (S (length s)) s 0 0 in
  let* written := write_pieces (S (length s)) s 0 0 in
  Value (WriteCompactSize (Z.of_nat (length s) - nCodeSeparators) ++ written).

(** A vector that is read at an index; past its end, C++ does not define what happens. *)
Definition at_index {A} (l : list A) (i : Z) : eval A := match nth_error l (Z.to_nat i) with Some a => Value a | None => Abort end.

Definition SerializeInput (c : CTransactionSignatureSerializer) (nInput : Z) : eval (list Z) :=
  let nInput := if fAnyoneCanPay c then nIn c else nInput in
  let* txin := at_index (vin (txTo c)) nInput in
  if nInput =? NOT_AN_INPUT then Abort
  else
    let* written := (if negb (nInput =? nIn c) then Value (ser CScriptF []) else SerializeScriptCode (scriptCode c)) in
    Value (ser COutPointF (prevout txin) ++ written ++
           (if negb (nInput =? nIn c) && (fHashSingle c || fHashNone c) then ser int32F 0 else ser uint32F (nSequence txin))).

Definition SerializeOutput (c : CTransactionSignatureSerializer) (nOutput : Z) : eval (list Z) :=
  if fHashSingle c && negb (nOutput =? nIn c) then Value (ser CTxOutF CTxOut_null)
  else let* txout := at_index (vout (txTo c)) nOutput in Value (ser CTxOutF txout).

(** The pieces [f 0], ..., [f (n - 1)], one after the other. *)
Fixpoint each (f : Z -> eval (list Z)) (first n : nat) : eval (list Z) :=
  match n with
  | O => Value []
  | S n => let* a := f (Z.of_nat first) in let* b := each f (S first) n in Value (a ++ b)
  end.

Definition Serialize (c : CTransactionSignatureSerializer) : eval (list Z) :=
  let nInputs := if fAnyoneCanPay c then 1 else Z.of_nat (length (vin (txTo c))) in
  let nOutputs := if fHashNone c then 0 else if fHashSingle c then w32 (nIn c + 1) else Z.of_nat (length (vout (txTo c))) in
  let* inputs := each (SerializeInput c) 0 (Z.to_nat nInputs) in
  let* outputs := each (SerializeOutput c) 0 (Z.to_nat nOutputs) in
  Value (ser int16F (nVersion (txTo c)) ++ ser int16F (nType (txTo c)) ++ WriteCompactSize nInputs ++ inputs ++
         WriteCompactSize nOutputs ++ outputs ++ ser uint32F (nLockTime (txTo c))).

(** ** Sapling *)

Definition TrumpCoin_PREVOUTS_HASH_PERSONALIZATION : list Z := [80; 73; 86; 88; 80; 114; 101; 118; 111; 117; 116; 72; 97; 115; 104; 0].
Definition TrumpCoin_SEQUENCE_HASH_PERSONALIZATION : list Z := [80; 73; 86; 88; 83; 101; 113; 117; 101; 110; 99; 72; 97; 115; 104; 0].
Definition TrumpCoin_OUTPUTS_HASH_PERSONALIZATION : list Z := [80; 73; 86; 88; 79; 117; 116; 112; 117; 116; 115; 72; 97; 115; 104; 0].
Definition TrumpCoin_SHIELDED_SPENDS_HASH_PERSONALIZATION : list Z :=
  [80; 73; 86; 88; 83; 83; 112; 101; 110; 100; 115; 72; 97; 115; 104; 0].
Definition TrumpCoin_SHIELDED_OUTPUTS_HASH_PERSONALIZATION : list Z :=
  [80; 73; 86; 88; 83; 79; 117; 116; 112; 117; 116; 72; 97; 115; 104; 0].
(** The first 12 bytes of "TrumpCoinSigHash", then the branch id 0. *)
Definition personalization : list Z := [84; 114; 117; 109; 112; 67; 111; 105; 110; 83; 105; 103] ++ WriteLE32 0.

(** [PrecomputedTransactionData]. *)
Record PrecomputedTransactionData := {
  hashPrevouts : list Z;
  hashSequence : list Z;
  hashOutputs : list Z;
  hashShieldedSpends : list Z;
  hashShieldedOutputs : list Z
}.

Section Hashes.
(** The result of a [CBLAKE2bWriter] of libsodium, from its personalization and the bytes that
    were written to it; the buffer of the [CHashWriter]. *)
Context (blake2b : list Z -> list Z -> list Z) (buf : list Z).

Definition GetPrevoutHash (txTo : CTransaction) : list Z :=
  blake2b TrumpCoin_PREVOUTS_HASH_PERSONALIZATION (flat_map (fun txin => ser COutPointF (prevout txin)) (vin txTo)).
Definition GetSequenceHash (txTo : CTransaction) : list Z :=
  blake2b TrumpCoin_SEQUENCE_HASH_PERSONALIZATION (flat_map (fun txin => ser uint32F (nSequence txin)) (vin txTo)).
Definition GetOutputsHash (txTo : CTransaction) : list Z :=
  blake2b TrumpCoin_OUTPUTS_HASH_PERSONALIZATION (flat_map (ser CTxOutF) (vout txTo)).
Definition GetShieldedSpendsHash (sapData : SaplingTxData) : list Z :=
  blake2b TrumpCoin_SHIELDED_SPENDS_HASH_PERSONALIZATION
    (flat_map (fun n => ser uint256F (sd_cv n) ++ ser uint256F (anchor n) ++ ser uint256F (nullifier n) ++ ser uint256F (rk n) ++
       ser (arrayF GROTH_PROOF_SIZE uint8F) (sd_zkproof n)) (vShieldedSpend sapData)).
Definition GetShieldedOutputsHash (sapData : SaplingTxData) : list Z :=
  blake2b TrumpCoin_SHIELDED_OUTPUTS_HASH_PERSONALIZATION (flat_map (ser OutputDescriptionF) (vShieldedOutput sapData)).

Definition uint256_zero : list Z := repeat 0 32.
Definition UINT256_ONE : list Z := 1 :: repeat 0 31.

(** The constructor from a transaction. *)
Definition Precompute (txTo : CTransaction) : PrecomputedTransactionData :=
  {| hashPrevouts := GetPrevoutHash txTo;
     hashSequence := GetSequenceHash txTo;
     hashOutputs := GetOutputsHash txTo;
     hashShieldedSpends := match sapData txTo with Some d => GetShieldedSpendsHash d | None => uint256_zero end;
     hashShieldedOutputs := match sapData txTo with Some d => GetShieldedOutputsHash d | None => uint256_zero end |}.

(** The bytes that the branch for [SIGVERSION_SAPLING] writes to its last [CBLAKE2bWriter]. *)
Definition sapling_preimage (scriptCode : script) (txTo : CTransaction) (nIn nHashType amount : Z)
    (cache : option PrecomputedTransactionData) : eval (list Z) :=
  let cached (f : PrecomputedTransactionData -> list Z) (h : list Z) := match cache with Some c => f c | None => h end in
  let acp := has nHashType SIGHASH_ANYONECANPAY in
  let single := (nHashType &: 0x1f) =? SIGHASH_SINGLE in
  let none := (nHashType &: 0x1f) =? SIGHASH_NONE in
  let hashPrevouts := if negb acp then cached hashPrevouts (GetPrevoutHash txTo) else uint256_zero in
  let hashSequence := if negb acp && negb single && negb none then cached hashSequence (GetSequenceHash txTo) else uint256_zero in
  let hashOutputs :=
    if negb single && negb none then cached hashOutputs (GetOutputsHash txTo)
    else if single && (nIn <? Z.of_nat (length (vout txTo))) then
      blake2b TrumpCoin_OUTPUTS_HASH_PERSONALIZATION (ser CTxOutF (nth (Z.to_nat nIn) (vout txTo) CTxOut_null))
    else uint256_zero in
  let shielded :=
    match sapData txTo with
    | None => []
    | Some d =>
        let spends := negb (length (vShieldedSpend d) =? 0)%nat in
        let outputs := negb (length (vShieldedOutput d) =? 0)%nat in
        let hashShieldedSpends := if spends then cached hashShieldedSpends (GetShieldedSpendsHash d) else uint256_zero in
        let hashShieldedOutputs := if outputs then cached hashShieldedOutputs (GetShieldedOutputsHash d) else uint256_zero in
        if spends || outputs then ser uint256F hashShieldedSpends ++ ser uint256F hashShieldedOutputs ++ ser int64F (valueBalance d) else []
    end in
  let* input :=
    if negb (nIn =? NOT_AN_INPUT) then
      let* txin := at_index (vin txTo) nIn in
      Value (ser COutPointF (prevout txin) ++ ser CScriptF scriptCode ++ ser int64F amount ++ ser uint32F (nSequence txin))
    else Value [] in
  let payload := if IsSpecialTx txTo then ser charsF (match extraPayload txTo with Some p => p | None => [] end) else [] in
  Value (ser int16F (nVersion txTo) ++ ser int16F (nType txTo) ++ ser uint256F hashPrevouts ++ ser uint256F hashSequence ++
         ser uint256F hashOutputs ++ shielded ++ input ++ payload ++ ser uint32F (nLockTime txTo) ++ ser int32F nHashType).

Definition SignatureHash (scriptCode : script) (txTo : CTransaction) (nIn nHashType amount sigversion : Z)
    (cache : option PrecomputedTransactionData) : eval (list Z) :=
  if (nIn >=? Z.of_nat (length (vin txTo))) && negb (nIn =? NOT_AN_INPUT) then Value UINT256_ONE
  else if isSaplingVersion (nVersion txTo) && negb (sigversion =? SIGVERSION_SAPLING) then Exception
  else if sigversion =? SIGVERSION_SAPLING then
    let* written := sapling_preimage scriptCode txTo nIn nHashType amount cache in Value (blake2b personalization written)
  else if ((nHashType &: 0x1f) =? SIGHASH_SINGLE) && (nIn >=? Z.of_nat (length (vout txTo))) then Value UINT256_ONE
  else
    let* written := Serialize (construct txTo scriptCode nIn nHashType) in
    Value (Hash buf (written ++ ser int32F nHashType)).

(** ** TransactionSignatureChecker *)

Section TransactionChecker.
(** [VerifySignature], which is virtual and asks secp256k1, and [CPubKey::CheckLowS]. *)
Context (VerifySignature : list Z -> valtype -> list Z -> bool) (CheckLowS : valtype -> bool).
Context (txTo : CTransaction) (nIn amount : Z) (precomTxData : option PrecomputedTransactionData).

Definition Transaction_CheckSig (vchSigIn vchPubKey : valtype) (scriptCode : script) (sigversion : Z) : eval bool :=
  let pubkey := CPubKey_of vchPubKey in
  if negb (CPubKey_IsValid pubkey) then Value false
  else if (length vchSigIn =? 0)%nat then Value false
  else
    let nHashType := back vchSigIn in
    let vchSig := removelast vchSigIn in
    let* sighash := SignatureHash scriptCode txTo nIn nHashType amount sigversion precomTxData in
    Value (VerifySignature vchSig pubkey sighash).

(** [nIn] is the index of an input. *)
Definition Transaction_CheckLockTime (nLockTime : Z) : bool :=
  let tx_time := Transactions.Tx.nLockTime txTo in
  if negb (((tx_time <? LOCKTIME_THRESHOLD) && (nLockTime <? LOCKTIME_THRESHOLD)) ||
           ((tx_time >=? LOCKTIME_THRESHOLD) && (nLockTime >=? LOCKTIME_THRESHOLD))) then false
  else if nLockTime >? tx_time then false
  else negb (CTxIn_IsFinal (nth (Z.to_nat nIn) (vin txTo) null_in)).

(** The loop over the outputs from index [i]: [outValue] after it. *)
Fixpoint cold_outputs (fAllowLastOutputFree : bool) (prevoutScript : script) (outs i : nat) (l : list CTxOut) (outValue : Z) : eval Z :=
  match l with
  | [] => Value outValue
  | o :: l =>
      if negb (vch_eqb (scriptPubKey o) prevoutScript) then
        if negb fAllowLastOutputFree || negb (i =? outs - 1)%nat || (outs <? 3)%nat then Error SCRIPT_ERR_CHECKCOLDSTAKEVERIFY
        else cold_outputs fAllowLastOutputFree prevoutScript outs (S i) l outValue
      else cold_outputs fAllowLastOutputFree prevoutScript outs (S i) l (i64 (outValue + nValue o))
  end.

Definition Transaction_CheckColdStake (fAllowLastOutputFree : bool) (prevoutScript : script) (stack : list valtype) (flags : Z) : eval unit :=
  match stack with
  | [vchPubKeyHash; vchPubKey; vchSig] =>
      let* _ := CheckSignatureEncoding CheckLowS vchSig flags in
      let* _ := CheckPubKeyEncoding vchPubKey flags in
      let* _ := refuse (negb (length vchPubKeyHash =? 20)%nat) SCRIPT_ERR_SCRIPT_SIZE in
      let* _ := refuse (negb (IsCoinStake txTo)) SCRIPT_ERR_CHECKCOLDSTAKEVERIFY in
      let* _ := refuse (negb (length (vin txTo) =? 1)%nat) SCRIPT_ERR_CHECKCOLDSTAKEVERIFY in
      let outs := length (vout txTo) in
      if (outs <? 2)%nat then Abort
      else
        let* outValue := cold_outputs fAllowLastOutputFree prevoutScript outs 1 (tl (vout txTo)) 0 in
        refuse (outValue <? amount) SCRIPT_ERR_CHECKCOLDSTAKEVERIFY
  | _ => invalid_stack
  end.

#[export] Instance TransactionSignatureChecker : Checker :=
  {| CheckSig := Transaction_CheckSig; CheckLockTime := Transaction_CheckLockTime; CheckColdStake := Transaction_CheckColdStake |}.
End TransactionChecker.
End Hashes.

End SigHash.

(** * The legacy signature hash *)

Import SigHash.


Lemma chunk_separator c o d t : reads c o d -> Z.of_nat (length (c ++ t)) < 2 ^ 32 -> (o =? OP_CODESEPARATOR) = same [OP_CODESEPARATOR] c.
Proof.
  intros [Hne Hc] Hl. unfold same. destruct (list_eq_dec Z.eq_dec [OP_CODESEPARATOR] c) as [<-|Hd].
  - pose proof (Hc [] ltac:(cbn; lia)) as E. cbn in E. now injection E as <- _.
  - apply Z.eqb_neq. intros ->. apply Hd. pose proof (Hc t Hl) as E.
    destruct c as [|x c]; [easy|]. cbn [app next length] in E. destruct (Z.leb_spec x OP_PUSHDATA4).
    + exfalso. destruct (push_header x (c ++ t)) as [[k m]|]; [|discriminate]. destruct (_ <? m); [discriminate|]. injection E as _ Ex _. unfold OP_CODESEPARATOR, OP_PUSHDATA4 in *. lia.
    + injection E as El -> _. destruct c; [reflexivity | cbn in El; lia].
Qed.

Lemma count_separators_chunks fuel pre cs n : Forall (fun c => exists j, chunk c j) cs ->
  let s := pre ++ concat cs in
  Z.of_nat (length s) < 2 ^ 32 -> 0 <= n -> n + Z.of_nat (length cs) < 2 ^ 32 -> (length cs < fuel)%nat ->
  count_separators fuel s (length pre) n = Value (n + Z.of_nat (length (filter (same [OP_CODESEPARATOR]) cs))).
Proof.
  intros Hcs. revert fuel pre n; induction Hcs as [|c cs [[o d] [Hne Hc]] _ IH]; intros [|fuel] pre n s Hl Hn0 Hn Hf; try (cbn in Hf; lia);
    unfold s; cbn [concat count_separators] in *; rewrite GetOp_app.
  - cbn [next]. f_equal. cbn. lia.
  - cbn [fst snd] in Hc. unfold s in Hl. rewrite Hc by now apply small_app in Hl. cbn [length] in Hn, Hf. rewrite <- length_app.
    rewrite (chunk_separator c o d (concat cs)) by (now split || now apply small_app in Hl). cbn [filter]. rewrite app_assoc in *. specialize (IH fuel (pre ++ c) (if same [OP_CODESEPARATOR] c then w32 (n + 1) else n)). cbn zeta in IH.
    assert (Ew : w32 (n + 1) = n + 1) by (apply Z.mod_small; lia). rewrite Ew in *.
    rewrite IH; [|assumption | destruct (same _ c); lia | destruct (same _ c); lia | lia]. f_equal. destruct (same _ c); cbn [length]; lia.
Qed.

(** The code without its separators. *)
Definition stripped (cs : list script) : script := concat (others [OP_CODESEPARATOR] cs).

Lemma write_pieces_chunks fuel pre piece cs : Forall (fun c => exists j, chunk c j) cs ->
  let s := pre ++ piece ++ concat cs in
  Z.of_nat (length s) < 2 ^ 32 -> (length cs < fuel)%nat ->
  write_pieces fuel s (length (pre ++ piece)) (length pre) = Value (piece ++ stripped cs).
Proof.
  intros Hcs. revert fuel pre piece; induction Hcs as [|c cs [[o d] Hread] _ IH]; intros [|fuel] pre piece s Hl Hf; try (cbn in Hf; lia);
    unfold s; cbn [concat write_pieces] in *.
  - rewrite app_nil_r. rewrite <- (app_nil_r (pre ++ piece)) at 1. rewrite GetOp_app. cbn [next]. unfold stripped. cbn [others filter concat]. rewrite app_nil_r, length_app.
    destruct (Nat.eqb_spec (length pre) (length pre + length piece)) as [E|E]; [destruct piece; [reflexivity | cbn in E; lia]|].
    rewrite skipn_app, skipn_all, Nat.sub_diag, skipn_O. cbn [app]. replace (length pre + length piece + 0 - length pre)%nat with (length piece) by lia. now rewrite firstn_all.
  - rewrite app_assoc, GetOp_app. unfold s in Hl. pose proof Hread as [_ Hc]. cbn [fst snd] in Hc.
    assert (Hlc : Z.of_nat (length (c ++ concat cs)) < 2 ^ 32) by (apply small_app in Hl; now apply small_app in Hl).
    rewrite Hc by assumption. rewrite (chunk_separator c o d (concat cs) Hread Hlc). cbn [length] in Hf. unfold stripped, others. cbn [filter].
    destruct (same [OP_CODESEPARATOR] c) eqn:Es; cbn [negb concat].
    + unfold same in Es. destruct (list_eq_dec Z.eq_dec [OP_CODESEPARATOR] c) as [<-|]; [|discriminate].
      rewrite <- length_app. specialize (IH fuel ((pre ++ piece) ++ [OP_CODESEPARATOR]) []). cbn zeta in IH. cbn [app] in IH. rewrite app_nil_r in IH.
      rewrite <- !app_assoc in *. rewrite IH by (assumption || lia). cbn [and_then app]. f_equal. f_equal.
      rewrite !length_app. cbn [length]. rewrite skipn_app, skipn_all, Nat.sub_diag, skipn_O. cbn [app].
      replace (length pre + (length piece + 1) - length pre - 1)%nat with (length piece) by lia. now rewrite firstn_app, firstn_all, Nat.sub_diag, firstn_O, app_nil_r.
    + rewrite <- length_app. specialize (IH fuel pre (piece ++ c)). cbn zeta in IH. rewrite <- !app_assoc in *. rewrite IH by (assumption || lia). reflexivity.
Qed.

Lemma length_stripped cs : Z.of_nat (length (concat cs)) - Z.of_nat (length (filter (same [OP_CODESEPARATOR]) cs)) = Z.of_nat (length (stripped cs)).
Proof.
  unfold stripped, others. induction cs as [|c cs IH]; [reflexivity|]. cbn [concat filter]. destruct (same [OP_CODESEPARATOR] c) eqn:E; cbn [negb length concat]; rewrite !length_app.
  - unfold same in E. destruct (list_eq_dec Z.eq_dec [OP_CODESEPARATOR] c) as [<-|]; [|discriminate]. cbn [length]. lia.
  - lia.
Qed.

Lemma SerializeScriptCode_chunks cs : Forall (fun c => exists j, chunk c j) cs -> Z.of_nat (length (concat cs)) < 2 ^ 31 ->
  SerializeScriptCode (concat cs) = Value (ser CScriptF (stripped cs)).
Proof.
  intros Hcs Hl.
  assert (Hn : (length cs <= length (concat cs))%nat).
  { clear -Hcs. induction Hcs as [|c cs [j [Hne _]] _ IH]; [cbn; lia|]. cbn [concat length]. rewrite length_app. destruct c; [easy|]. cbn [length]. lia. }
  unfold SerializeScriptCode.
  pose proof (count_separators_chunks (S (length (concat cs))) [] cs 0 Hcs) as E. cbn zeta in E. cbn [app length] in E. rewrite E by lia. clear E. cbn [and_then].
  pose proof (write_pieces_chunks (S (length (concat cs))) [] [] cs Hcs) as E. cbn zeta in E. cbn [app length] in E. rewrite E by lia. clear E. cbn [and_then].
  rewrite Z.add_0_l, length_stripped. cbn [ser CScriptF charsF app]. f_equal. f_equal. destruct (stripped cs); reflexivity.
Qed.

(** No loop of it runs out of its bounds, whatever the script. *)
Lemma SerializeScriptCode_good s : good any (SerializeScriptCode s).
Proof.
  assert (Hcount : forall fuel it n, (length s - it < fuel)%nat -> good any (count_separators fuel s it n)).
  { induction fuel as [|fuel IH]; intros it n Hf; [lia|]. cbn [count_separators]. destruct (GetOp s it) as [[[read it'] o] d] eqn:E. destruct read; [|exact I].
    apply GetOp_reads in E. apply IH. lia. }
  assert (Hwrite : forall fuel it b, (length s - it < fuel)%nat -> good any (write_pieces fuel s it b)).
  { induction fuel as [|fuel IH]; intros it b Hf; [lia|]. cbn [write_pieces]. destruct (GetOp s it) as [[[read it'] o] d] eqn:E. destruct read; [|exact I].
    apply GetOp_reads in E. destruct (o =? OP_CODESEPARATOR); [|apply IH; lia]. eapply good_bind; [apply IH; lia|]. intros; exact I. }
  unfold SerializeScriptCode. eapply good_bind; [apply Hcount; lia|]. intros n _. eapply good_bind; [apply Hwrite; lia|]. intros; exact I.
Qed.

(** ** The transaction that is serialized *)

Definition anyone_can_pay (t : Z) : bool := has t SIGHASH_ANYONECANPAY.
Definition hash_single (t : Z) : bool := (t &: 0x1f) =? SIGHASH_SINGLE.
Definition hash_none (t : Z) : bool := (t &: 0x1f) =? SIGHASH_NONE.

(** The copy of the transaction that the signature of its input [nIn] with the type [t] signs:
    the script of the output takes the place of the one of the input, the other inputs have
    none; for [SIGHASH_NONE] there are no outputs, for [SIGHASH_SINGLE] only the one with the
    index of the input, behind empty ones, and for both the other inputs have the sequence 0;
    for [SIGHASH_ANYONECANPAY] there is no other input. *)
Definition signed_input (tx : CTransaction) (nIn : nat) (code : script) (t : Z) (i : nat) : CTxIn :=
  let txin := nth i (vin tx) null_in in
  {| prevout := prevout txin; scriptSig := if (i =? nIn)%nat then code else [];
     nSequence := if negb (i =? nIn)%nat && (hash_single t || hash_none t) then 0 else nSequence txin |}.
Definition signed_copy (tx : CTransaction) (nIn : nat) (code : script) (t : Z) : CTransaction :=
  {| vin := map (signed_input tx nIn code t) (if anyone_can_pay t then [nIn] else seq 0 (length (vin tx)));
     vout := if hash_none t then [] else if hash_single t then repeat CTxOut_null nIn ++ [nth nIn (vout tx) CTxOut_null] else vout tx;
     nVersion := nVersion tx; nType := nType tx; nLockTime := nLockTime tx; sapData := None; extraPayload := None |}.

Lemma each_map f (g : nat -> list Z) first n : (forall i, (first <= i < first + n)%nat -> f (Z.of_nat i) = Value (g i)) ->
  each f first n = Value (concat (map g (seq first n))).
Proof.
  revert first; induction n as [|n IH]; intros first H; [reflexivity|]. cbn [each seq map concat]. rewrite H by lia. cbn [and_then].
  rewrite IH by (intros i Hi; apply H; lia). reflexivity.
Qed.

Lemma at_index_nth {A} (l : list A) i d : (i < length l)%nat -> at_index l (Z.of_nat i) = Value (nth i l d).
Proof. intros H. unfold at_index. rewrite Nat2Z.id. now rewrite (nth_error_nth' l d H). Qed.

Lemma eqb_of_nat i j : (Z.of_nat i =? Z.of_nat j) = (i =? j)%nat.
Proof. destruct (Nat.eqb_spec i j) as [->|H]; [apply Z.eqb_refl | apply Z.eqb_neq; lia]. Qed.

Lemma SerializeInput_signed tx nIn cs t i : Forall (fun c => exists j, chunk c j) cs -> Z.of_nat (length (concat cs)) < 2 ^ 31 ->
  (nIn < length (vin tx))%nat -> (i < length (vin tx))%nat -> Z.of_nat (length (vin tx)) < 2 ^ 32 ->
  SerializeInput (construct tx (concat cs) (Z.of_nat nIn) t) (Z.of_nat i) =
  Value (ser CTxInF (signed_input tx nIn (stripped cs) t (if anyone_can_pay t then nIn else i))).
Proof.
  intros Hcs Hl Hn Hi Hlen. unfold SerializeInput. cbn [construct fAnyoneCanPay SigHash.nIn txTo fHashSingle fHashNone SigHash.scriptCode]. fold (anyone_can_pay t) (hash_single t) (hash_none t).
  assert (Ei : (if anyone_can_pay t then Z.of_nat nIn else Z.of_nat i) = Z.of_nat (if anyone_can_pay t then nIn else i)) by now destruct (anyone_can_pay t).
  rewrite Ei. set (j := if anyone_can_pay t then nIn else i) in *. assert (Hj : (j < length (vin tx))%nat) by (unfold j; now destruct (anyone_can_pay t)).
  rewrite (at_index_nth _ _ null_in Hj). cbn [and_then]. unfold NOT_AN_INPUT. destruct (Z.eqb_spec (Z.of_nat j) (2 ^ 32 - 1)); [lia|].
  rewrite eqb_of_nat. unfold signed_input. set (txin := nth j (vin tx) null_in). clearbody j txin.
  destruct (j =? nIn)%nat; cbn [negb andb].
  - rewrite SerializeScriptCode_chunks by assumption. reflexivity.
  - cbn [and_then]. destruct (hash_single t || hash_none t); reflexivity.
Qed.

Lemma map_const_repeat {A B} (x : B) (l : list A) : map (fun _ => x) l = repeat x (length l).
Proof. induction l as [|a l IH]; [reflexivity|]. cbn. now f_equal. Qed.

Lemma SerializeOutput_signed tx nIn code t (n : nat) :
  hash_none t = false -> n = (if hash_single t then S nIn else length (vout tx)) -> (hash_single t = true -> (nIn < length (vout tx))%nat) ->
  each (SerializeOutput (construct tx code (Z.of_nat nIn) t)) 0 n = Value (concat (map (ser CTxOutF) (vout (signed_copy tx nIn code t)))) /\
  length (vout (signed_copy tx nIn code t)) = n.
Proof.
  intros Hnone -> Hs. cbn [signed_copy vout]. rewrite Hnone.
  assert (Ho : forall i, SerializeOutput (construct tx code (Z.of_nat nIn) t) (Z.of_nat i) =
    if hash_single t && negb (i =? nIn)%nat then Value (ser CTxOutF CTxOut_null) else let* o := at_index (vout tx) (Z.of_nat i) in Value (ser CTxOutF o)).
  { intros i. unfold SerializeOutput. cbn [construct fHashSingle SigHash.nIn txTo]. fold (hash_single t). now rewrite eqb_of_nat. }
  destruct (hash_single t).
  - specialize (Hs eq_refl). split.
    + rewrite (each_map _ (fun i => ser CTxOutF (if (i =? nIn)%nat then nth nIn (vout tx) CTxOut_null else CTxOut_null))).
      * rewrite seq_S, map_app, map_app, concat_app, concat_app. cbn [Nat.add map concat]. rewrite Nat.eqb_refl. do 2 f_equal. 
        rewrite map_repeat. f_equal. transitivity (map (fun _ => ser CTxOutF CTxOut_null) (seq 0 nIn)); [|now rewrite map_const_repeat, length_seq].
        apply map_ext_in. intros i Hi. apply in_seq in Hi. now destruct (Nat.eqb_spec i nIn); [lia|].
      * intros i Hi. rewrite Ho. cbn [andb]. destruct (Nat.eqb_spec i nIn) as [->|]; [|reflexivity]. cbn [negb]. now rewrite (at_index_nth _ _ CTxOut_null Hs).
    + rewrite length_app, repeat_length. cbn. lia.
  - split; [|reflexivity]. rewrite (each_map _ (fun i => ser CTxOutF (nth i (vout tx) CTxOut_null))).
    + rewrite <- (map_map (fun i => nth i (vout tx) CTxOut_null) (ser CTxOutF)), map_nth_seq, firstn_all by lia. reflexivity.
    + intros i Hi. rewrite Ho. cbn [andb]. now rewrite (at_index_nth _ _ CTxOut_null) by lia.
Qed.

Lemma Serialize_signed {sizes : Sizes} tx nIn cs t : Forall (fun c => exists j, chunk c j) cs -> Z.of_nat (length (concat cs)) < 2 ^ 31 ->
  (nIn < length (vin tx))%nat -> Z.of_nat (length (vin tx)) < 2 ^ 32 -> Z.of_nat nIn < 2 ^ 32 - 1 ->
  (hash_single t = true -> (nIn < length (vout tx))%nat) -> isSaplingVersion (nVersion tx) = false ->
  Serialize (construct tx (concat cs) (Z.of_nat nIn) t) = Value (SerializeTransaction (signed_copy tx nIn (stripped cs) t)).
Proof.
  intros Hcs Hl Hn Hlen Hn32 Hs Hv. unfold Serialize. cbv zeta. cbn [construct txTo fAnyoneCanPay fHashSingle fHashNone SigHash.nIn].
  fold (anyone_can_pay t) (hash_single t) (hash_none t).
  set (nInputs := if anyone_can_pay t then 1 else Z.of_nat (length (vin tx))).
  set (copy := signed_copy tx nIn (stripped cs) t).
  assert (Hin : each (SerializeInput (construct tx (concat cs) (Z.of_nat nIn) t)) 0 (Z.to_nat nInputs) = Value (concat (map (ser CTxInF) (vin copy))) /\
    nInputs = Z.of_nat (length (vin copy))).
  { unfold nInputs, copy. cbn [signed_copy vin]. rewrite map_map.
    rewrite (each_map _ (fun i => ser CTxInF (signed_input tx nIn (stripped cs) t (if anyone_can_pay t then nIn else i)))).
    2: { intros i Hi. apply SerializeInput_signed; try assumption. destruct (anyone_can_pay t); lia. }
    destruct (anyone_can_pay t); [split; reflexivity|]. rewrite Nat2Z.id, length_map, length_seq. now split. }
  destruct Hin as [-> ->]. cbn [and_then].
  set (nOutputs := if hash_none t then 0 else if hash_single t then w32 (Z.of_nat nIn + 1) else Z.of_nat (length (vout tx))).
  assert (Hout : each (SerializeOutput (construct tx (concat cs) (Z.of_nat nIn) t)) 0 (Z.to_nat nOutputs) = Value (concat (map (ser CTxOutF) (vout copy))) /\
    nOutputs = Z.of_nat (length (vout copy))).
  { unfold nOutputs, copy. destruct (hash_none t) eqn:En; [cbn [signed_copy vout]; now rewrite En|].
    assert (Ez : (if hash_single t then w32 (Z.of_nat nIn + 1) else Z.of_nat (length (vout tx))) = Z.of_nat (if hash_single t then S nIn else length (vout tx))).
    { destruct (hash_single t); [|reflexivity]. unfold w32. rewrite Z.mod_small by lia. lia. }
    rewrite Ez, Nat2Z.id. destruct (SerializeOutput_signed tx nIn (concat cs) t _ En eq_refl Hs) as [H1 H2].
    cbn [signed_copy vout] in *. rewrite En in *. split; [exact H1 | now rewrite H2]. }
  destruct Hout as [-> ->]. cbn [and_then]. unfold SerializeTransaction, vinF, voutF. cbn [ser VectorFormatter].
  change (nVersion copy) with (nVersion tx). rewrite Hv, app_nil_r. rewrite <- !app_assoc. reflexivity.
Qed.

(** C12. The legacy signature hash is the double hash of a transaction and of the hash type: of
    the copy of the spending transaction in which the script of the output, without its code
    separators, takes the place of the script of the input, and the other inputs and the
    outputs are blanked as the hash type says. [SIGHASH_SINGLE] without an output of the index
    of the input, and an index that is not one of an input, give the number 1. *)
Theorem legacy_signature_hash {sizes : Sizes} blake2b buf tx nIn cs t amount cache :
  Forall (fun c => exists j, chunk c j) cs -> Z.of_nat (length (concat cs)) < 2 ^ 31 ->
  Z.of_nat (length (vin tx)) < 2 ^ 32 - 1 -> 0 <= nIn < 2 ^ 32 - 1 -> isSaplingVersion (nVersion tx) = false ->
  SignatureHash blake2b buf (concat cs) tx nIn t amount SIGVERSION_BASE cache =
  Value (if (nIn <? Z.of_nat (length (vin tx))) && (negb (hash_single t) || (nIn <? Z.of_nat (length (vout tx))))
         then Hash buf (SerializeTransaction (signed_copy tx (Z.to_nat nIn) (stripped cs) t) ++ ser int32F t)
         else UINT256_ONE).
Proof.
  intros Hcs Hl Hlen Hn Hv. unfold SignatureHash. rewrite Hv. cbn [andb]. change (SIGVERSION_BASE =? SIGVERSION_SAPLING) with false. cbv iota.
  unfold NOT_AN_INPUT. destruct (Z.eqb_spec nIn (2 ^ 32 - 1)); [lia|]. cbn [negb]. rewrite andb_true_r.
  destruct (Z.geb_spec nIn (Z.of_nat (length (vin tx)))), (Z.ltb_spec nIn (Z.of_nat (length (vin tx)))); try lia; [reflexivity|]. cbn [andb].
  fold (hash_single t). destruct (Z.geb_spec nIn (Z.of_nat (length (vout tx)))) as [Ho|Ho], (Z.ltb_spec nIn (Z.of_nat (length (vout tx)))) as [Ho'|Ho']; try lia.
  - destruct (hash_single t) eqn:Es; cbn [andb orb negb]; [reflexivity|].
    rewrite <- (Z2Nat.id nIn) at 1 by lia. rewrite Serialize_signed; [reflexivity | assumption | assumption | lia | lia | lia | congruence | assumption].
  - rewrite andb_false_r, orb_true_r. rewrite <- (Z2Nat.id nIn) at 1 by lia. rewrite Serialize_signed; [reflexivity | assumption | assumption | lia | lia | lia | intros _; lia | assumption].
Qed.

(** ** The Sapling signature hash *)

(** The hashes that are computed once for a transaction are those that every signature of
    it needs: [SignatureHash] with them and without them is the same, for every input, type of
    hash and version. *)
Theorem precomputed_hashes blake2b buf code tx nIn t amount v :
  SignatureHash blake2b buf code tx nIn t amount v (Some (Precompute blake2b tx)) = SignatureHash blake2b buf code tx nIn t amount v None.
Proof.
  assert (E : sapling_preimage blake2b code tx nIn t amount (Some (Precompute blake2b tx)) = sapling_preimage blake2b code tx nIn t amount None).
  { unfold sapling_preimage, Precompute. cbn [hashPrevouts hashSequence hashOutputs hashShieldedSpends hashShieldedOutputs]. now destruct (sapData tx). }
  unfold SignatureHash. now rewrite E.
Qed.

Lemma each_good f k first : (forall i, (first <= i < first + k)%nat -> good any (f (Z.of_nat i))) -> good any (each f first k).
Proof.
  revert first; induction k as [|k IH]; intros first Hf; [exact I|]. cbn [each]. apply (good_bind any); [apply Hf; lia|]. intros a _.
  apply (good_bind any); [apply IH; intros i Hi; apply Hf; lia|]. intros; exact I.
Qed.

Lemma at_index_good {A} (l : list A) i : 0 <= i < Z.of_nat (length l) -> good any (at_index l i).
Proof. intros H. unfold at_index. destruct (nth_error l (Z.to_nat i)) eqn:E; [exact I|]. apply nth_error_None in E. lia. Qed.

Lemma Serialize_good c : 0 <= nIn c < Z.of_nat (length (vin (txTo c))) -> Z.of_nat (length (vin (txTo c))) < 2 ^ 32 - 1 ->
  (fHashSingle c = true -> nIn c < Z.of_nat (length (vout (txTo c)))) -> good any (Serialize c).
Proof.
  intros Hn Hlen Hs. unfold Serialize. cbv zeta.
  apply (good_bind any); [|intros inputs _; apply (good_bind any); [|intros; exact I]]; apply each_good; intros i Hi.
  - unfold SerializeInput, NOT_AN_INPUT. set (j := if fAnyoneCanPay c then nIn c else Z.of_nat i).
    assert (Hj : 0 <= j < Z.of_nat (length (vin (txTo c)))) by (unfold j; destruct (fAnyoneCanPay c); lia).
    apply (good_bind any); [now apply at_index_good|]. intros txin _. destruct (Z.eqb_spec j (2 ^ 32 - 1)); [lia|].
    apply (good_bind any); [|intros; exact I]. destruct (negb _); [exact I | apply SerializeScriptCode_good].
  - unfold SerializeOutput. destruct (fHashSingle c) eqn:Es; cbn [andb].
    + destruct (Z.eqb_spec (Z.of_nat i) (nIn c)) as [E|]; [|exact I]. cbn [negb]. apply (good_bind any); [apply at_index_good; specialize (Hs eq_refl); lia | intros; exact I].
    + apply (good_bind any); [apply at_index_good; destruct (fHashNone c); lia | intros; exact I].
Qed.

Lemma SignatureHash_good blake2b buf code tx nIn t amount v cache : 0 <= nIn < 2 ^ 32 - 1 -> Z.of_nat (length (vin tx)) < 2 ^ 32 - 1 ->
  good any (SignatureHash blake2b buf code tx nIn t amount v cache).
Proof.
  intros Hn Hlen. unfold SignatureHash, NOT_AN_INPUT. destruct (Z.eqb_spec nIn (2 ^ 32 - 1)); [lia|]. cbn [negb]. rewrite andb_true_r.
  destruct (nIn >=? Z.of_nat (length (vin tx))) eqn:Hlt; [exact I|]. rewrite Z.geb_leb, Z.leb_gt in Hlt. destruct (_ && _); [exact I|].
  destruct (v =? SIGVERSION_SAPLING).
  - unfold sapling_preimage, NOT_AN_INPUT. cbv zeta. destruct (Z.eqb_spec nIn (2 ^ 32 - 1)); [lia|]. cbn [negb].
    apply (good_bind any); [|intros; exact I]. apply (good_bind any); [|intros; exact I]. apply (good_bind any); [apply at_index_good; lia | intros; exact I].
  - fold (hash_single t). destruct (hash_single t && _) eqn:Es; [exact I|].
    apply (good_bind any); [|intros; exact I]. apply Serialize_good; cbn [construct SigHash.nIn txTo fHashSingle]; [lia | lia|].
    fold (hash_single t). intros H. rewrite H in Es. cbn [andb] in Es. rewrite Z.geb_leb, Z.leb_gt in Es. exact Es.
Qed.

(** ** The checker of a transaction *)

Section TransactionChecker.
Context (blake2b : list Z -> list Z -> list Z) (buf : list Z) (VerifySignature : list Z -> valtype -> list Z -> bool) (low : valtype -> bool).
Context (tx : CTransaction) (nIn amount : Z) (cache : option PrecomputedTransactionData).

Lemma cold_outputs_good lof code outs l : forall i value, good any (cold_outputs lof code outs i l value).
Proof.
  induction l as [|o l IH]; intros i value; cbn [cold_outputs]; [exact I|]. destruct (negb _); [destruct (_ || _); [exact I | apply IH] | apply IH].
Qed.

Lemma IsCoinStake_outputs : IsCoinStake tx = true -> (2 <= length (vout tx))%nat.
Proof.
  unfold IsCoinStake. destruct (_ =? _)%nat; [discriminate|]. destruct (_ && _); [discriminate|]. intros H. apply andb_true_iff in H as [H _]. now apply Nat.leb_le in H.
Qed.

(** An input of a transaction never makes the checker abort. *)
Lemma TransactionSignatureChecker_laws : 0 <= nIn < 2 ^ 32 - 1 -> Z.of_nat (length (vin tx)) < 2 ^ 32 - 1 ->
  CheckerLaws (TransactionSignatureChecker blake2b buf VerifySignature low tx nIn amount cache).
Proof.
  intros Hn Hlen. split.
  - intros sig key code v. cbn [CheckSig TransactionSignatureChecker]. unfold Transaction_CheckSig. destruct (negb _); [exact I|]. destruct (_ =? _)%nat; [exact I|].
    apply (good_bind any); [now apply SignatureHash_good | intros; exact I].
  - intros free code s flags. cbn [CheckColdStake TransactionSignatureChecker]. unfold Transaction_CheckColdStake.
    destruct s as [|h [|key [|sig [|]]]]; try exact I. apply (good_bind any); [apply CheckSignatureEncoding_good|]. intros _ _.
    apply (good_bind any); [apply CheckPubKeyEncoding_good|]. intros _ _. apply good_refuse. intros _. apply good_refuse. intros Hc. apply negb_false_iff in Hc.
    apply IsCoinStake_outputs in Hc. apply good_refuse. intros _. destruct (Nat.ltb_spec (length (vout tx)) 2); [lia|].
    apply (good_bind any); [apply cold_outputs_good|]. intros value _. unfold refuse. now destruct (_ <? _).
Qed.
End TransactionChecker.

(** *** What a cold stake pays *)

Definition total (l : list CTxOut) : Z := fold_right (fun o z => nValue o + z) 0 l.

Lemma cold_outputs_paid lof code outs paid last i value :
  Forall (fun o => scriptPubKey o = code /\ 0 <= nValue o) paid -> 0 <= value -> value + total paid < 2 ^ 63 ->
  cold_outputs lof code outs i (paid ++ last) value = cold_outputs lof code outs (i + length paid) last (value + total paid).
Proof.
  intros Hp. revert i value; induction Hp as [|o paid [Hs Hv] Hp IH]; intros i value Hv0 Hsum; cbn [app cold_outputs length total fold_right] in *.
  - now rewrite Nat.add_0_r, Z.add_0_r.
  - rewrite (proj2 (vch_eqb_eq _ _) Hs). cbn [negb].
    assert (Ht : 0 <= total paid) by (clear -Hp; induction Hp as [|o l [_ Ho] _ IH]; cbn; [lia|]; unfold total in IH; lia).
    fold (total paid) in *. rewrite i64_small by lia. rewrite IH by lia. f_equal; lia.
Qed.

Lemma cold_outputs_Value lof code outs l : forall i value r, cold_outputs lof code outs i l value = Value r -> (i + length l = outs)%nat ->
  exists paid last, l = paid ++ last /\ Forall (fun o => scriptPubKey o = code) paid /\
    (last = [] \/ exists o, last = [o] /\ scriptPubKey o <> code /\ lof = true /\ (3 <= outs)%nat).
Proof.
  induction l as [|o l IH]; intros i value r E Hl; cbn [cold_outputs length] in *; [now exists [], []; split; [|split; [constructor | left]]|].
  destruct (vch_eqb (scriptPubKey o) code) eqn:Es; cbn [negb] in E.
  - apply vch_eqb_eq in Es. destruct (IH _ _ _ E ltac:(lia)) as (paid & last & -> & Hp & Hl'). exists (o :: paid), last. split; [reflexivity|]. split; [now constructor | assumption].
  - destruct (_ || _) eqn:Ec; [discriminate|]. apply orb_false_iff in Ec as [Ec H3]. apply orb_false_iff in Ec as [Ef Ei].
    apply negb_false_iff in Ef, Ei. apply Nat.eqb_eq in Ei. apply Nat.ltb_ge in H3. assert (l = []) as -> by (destruct l; [reflexivity | cbn in Hl; lia]).
    exists [], [o]. split; [reflexivity|]. split; [constructor|]. right. exists o. split; [reflexivity|]. split; [|now split].
    intros H. apply vch_eqb_eq in H. congruence.
Qed.

(** When the check of a coinstake passes. *)
Lemma coinstake_outputs_of low tx amount (lof : bool) code flags h pub sig :
  length h = 20%nat -> Forall (fun o => 0 <= nValue o) (vout tx) -> total (vout tx) < 2 ^ 63 ->
  Transaction_CheckColdStake low tx amount lof code [h; pub; sig] flags = Value tt <->
  CheckSignatureEncoding low sig flags = Value tt /\ CheckPubKeyEncoding pub flags = Value tt /\
  IsCoinStake tx = true /\ length (vin tx) = 1%nat /\
  exists first paid last, vout tx = first :: paid ++ last /\ Forall (fun o => scriptPubKey o = code) paid /\ amount <= total paid /\
    (last = [] \/ exists o, last = [o] /\ scriptPubKey o <> code /\ lof = true /\ (3 <= length (vout tx))%nat).
Proof.
  intros Hh Hnn Hsum. unfold Transaction_CheckColdStake.
  destruct (CheckSignatureEncoding low sig flags) as [[]|e| | |]; cbn [and_then]; try (split; [discriminate | intros (? & _); discriminate]).
  destruct (CheckPubKeyEncoding pub flags) as [[]|e| | |]; cbn [and_then]; try (split; [discriminate | intros (_ & ? & _); discriminate]).
  rewrite Hh. cbn [Nat.eqb negb refuse and_then]. destruct (IsCoinStake tx) eqn:Ec; cbn [negb refuse and_then]; [|split; [discriminate | intros (_ & _ & ? & _); discriminate]].
  pose proof (IsCoinStake_outputs tx Ec) as H2. destruct (Nat.eqb_spec (length (vin tx)) 1) as [E1|E1]; cbn [negb refuse and_then]; [|split; [discriminate | intros (_ & _ & _ & ? & _); now destruct E1]].
  destruct (Nat.ltb_spec (length (vout tx)) 2); [lia|]. destruct (vout tx) as [|first l] eqn:Ev; [cbn in H2; lia|]. cbn [tl length] in *.
  pose proof (Forall_inv_tail Hnn) as Hl. pose proof (Forall_inv Hnn) as Hf. cbn beta in Hf. cbn [total fold_right] in Hsum. fold (total l) in Hsum.
  assert (Hrun : forall paid last, l = paid ++ last -> Forall (fun o => scriptPubKey o = code) paid ->
    (last = [] \/ exists o, last = [o] /\ scriptPubKey o <> code /\ lof = true /\ (3 <= S (length l))%nat) ->
    cold_outputs lof code (S (length l)) 1 l 0 = Value (total paid)).
  { intros paid last El Hp Hlast.
    assert (Hnp : Forall (fun o => scriptPubKey o = code /\ 0 <= nValue o) paid).
    { rewrite El in Hl. apply Forall_app in Hl as [Hl _]. clear -Hl Hp. induction Hp; [constructor|]. constructor; [split; [assumption | exact (Forall_inv Hl)] | apply IHHp; exact (Forall_inv_tail Hl)]. }
    assert (Htot : total paid <= total l).
    { rewrite El in Hl |- *. clear -Hl. apply Forall_app in Hl as [Hp Hr]. unfold total. rewrite fold_right_app.
      assert (0 <= fold_right (fun o z => nValue o + z) 0 last) by (clear -Hr; induction Hr; cbn [fold_right]; lia).
      induction Hp; cbn [fold_right] in *; lia. }
    rewrite El at 2. rewrite cold_outputs_paid by (assumption || lia). cbn [Z.add].
    destruct Hlast as [->|(o & -> & Hne & -> & H3)]; [reflexivity|]. cbn [cold_outputs].
    destruct (vch_eqb (scriptPubKey o) code) eqn:Eo; [now apply vch_eqb_eq in Eo|]. cbn [negb orb].
    rewrite El, length_app. cbn [length]. destruct (Nat.eqb_spec (1 + length paid) (S (length paid + 1) - 1)); [|lia]. cbn [negb orb].
    rewrite El, length_app in H3. cbn [length] in H3. destruct (Nat.ltb_spec (S (length paid + 1)) 3); [lia | reflexivity]. }
  split.
  - intros Hv. rewrite and_then_Value in Hv. destruct Hv as (r & Er & Ea). split; [reflexivity|]. split; [reflexivity|]. split; [reflexivity|]. split; [assumption|].
    destruct (cold_outputs_Value _ _ _ _ _ _ _ Er eq_refl) as (paid & last & El & Hp & Hlast). exists first, paid, last.
    rewrite (Hrun paid last El Hp Hlast) in Er. injection Er as <-. destruct (Z.ltb_spec (total paid) amount); [discriminate|]. split; [now rewrite El|]. split; [assumption|]. split; [lia | exact Hlast].
  - intros (_ & _ & _ & _ & f' & paid & last & [= <- El] & Hp & Ha & Hlast). rewrite (Hrun paid last El Hp Hlast). cbn [and_then].
    destruct (Z.ltb_spec (total paid) amount); [lia | reflexivity].
Qed.

(** The assertion on the outputs never fails, and no exception is thrown. *)
Lemma CheckColdStake_decided low tx amount lof code stack flags : decided any (Transaction_CheckColdStake low tx amount lof code stack flags).
Proof.
  assert (Hs : forall sig, decided any (CheckSignatureEncoding low sig flags)).
  { intros sig. unfold CheckSignatureEncoding. destruct (_ =? _)%nat; [exact I|]. destruct (_ && _); [exact I|]. apply (decided_bind any).
    - destruct (has flags SCRIPT_VERIFY_LOW_S); [|exact I]. apply decided_require. intros _. unfold require. now destruct (low _).
    - intros _ _. unfold refuse. now destruct (_ && _). }
  assert (Hk : forall key, decided any (CheckPubKeyEncoding key flags)) by (intros key; unfold CheckPubKeyEncoding, refuse; now destruct (_ && _)).
  unfold Transaction_CheckColdStake. destruct stack as [|h [|key [|sig [|]]]]; try exact I.
  apply (decided_bind any); [apply Hs|]. intros _ _. apply (decided_bind any); [apply Hk|]. intros _ _. apply decided_refuse. intros _.
  apply decided_refuse. intros Hc. apply negb_false_iff, IsCoinStake_outputs in Hc. apply decided_refuse. intros _.
  destruct (Nat.ltb_spec (length (vout tx)) 2); [lia|]. apply (decided_bind any); [|intros value _; unfold refuse; now destruct (_ <? _)].
  generalize 1%nat, 0, (tl (vout tx)). intros i value l. revert i value; induction l as [|o l IH]; intros i value; cbn [cold_outputs]; [exact I|].
  destruct (negb _); [destruct (_ || _); [exact I | apply IH] | apply IH].
Qed.

(** C13. What the owner of a cold stake can rely on. Whatever the transaction, the stack and the
    flags are, the check of the coinstake never aborts: it passes, or it fails with a script
    error. When the values of the outputs are amounts that fit, it passes exactly when the
    encodings pass, the transaction is a coinstake with one input, and its outputs but the
    first, and but a last one that [OP_CHECKCOLDSTAKEVERIFY_LOF] leaves free when there are at
    least three, pay at least the amount of the input to the very script that is spent. *)
Theorem coinstake_outputs low tx amount (lof : bool) code flags :
  (forall stack, Transaction_CheckColdStake low tx amount lof code stack flags = Value tt \/
     exists e, Transaction_CheckColdStake low tx amount lof code stack flags = Error e) /\
  forall h pub sig,
  length h = 20%nat -> Forall (fun o => 0 <= nValue o) (vout tx) -> total (vout tx) < 2 ^ 63 ->
  Transaction_CheckColdStake low tx amount lof code [h; pub; sig] flags = Value tt <->
  CheckSignatureEncoding low sig flags = Value tt /\ CheckPubKeyEncoding pub flags = Value tt /\
  IsCoinStake tx = true /\ length (vin tx) = 1%nat /\
  exists first paid last, vout tx = first :: paid ++ last /\ Forall (fun o => scriptPubKey o = code) paid /\ amount <= total paid /\
    (last = [] \/ exists o, last = [o] /\ scriptPubKey o <> code /\ lof = true /\ (3 <= length (vout tx))%nat).
Proof.
  split; [|exact (coinstake_outputs_of low tx amount lof code flags)]. intros stack.
  pose proof (CheckColdStake_decided low tx amount lof code stack flags) as D. destruct (Transaction_CheckColdStake _ _ _ _ _ _ _) as [[]|e| | |]; try contradiction; eauto.
Qed.

(** ** Examples *)

Definition example_sizes : Sizes :=
  {| sizeof_CTxIn := 64; sizeof_CTxOut := 40; sizeof_SpendDescription := 384; sizeof_OutputDescription := 948; sizeof_CTransactionRef := 16; sizeof_uint256 := 32 |}.
Definition example_tx : CTransaction :=
  {| vin := [{| prevout := {| hash := repeat 1 32; n := 0; isTransparent := true |}; scriptSig := [1; 2]; nSequence := 5 |};
             {| prevout := {| hash := repeat 2 32; n := 1; isTransparent := true |}; scriptSig := [1; 3]; nSequence := 6 |}];
     vout := [{| nValue := 7; scriptPubKey := [0x51]; nRounds := -10 |}]; nVersion := 1; nType := 0; nLockTime := 0; sapData := None; extraPayload := None |}.

Lemma legacy_signature_hash_witness :
  SignatureHash (fun _ _ => []) (repeat 0 64) [0x76; 0xab; 0xac] example_tx 1 1 0 SIGVERSION_BASE None =
  Value (Hash (repeat 0 64) (SerializeTransaction (sizes := example_sizes) (signed_copy example_tx 1 [0x76; 0xac] 1) ++ ser int32F 1)).
Proof.
  apply (legacy_signature_hash (sizes := example_sizes) (fun _ _ => []) (repeat 0 64) example_tx 1 [[0x76]; [0xab]; [0xac]] 1 0 None).
  - do 3 (constructor; [now apply chunk_op|]). constructor.
  - cbn. lia.
  - cbn. lia.
  - lia.
  - reflexivity.
Defined.

Lemma coinstake_outputs_witness :
  Transaction_CheckColdStake (fun _ => true) {| vin := [{| prevout := {| hash := repeat 1 32; n := 0; isTransparent := true |}; scriptSig := []; nSequence := 0 |}];
      vout := [{| nValue := 0; scriptPubKey := []; nRounds := 0 |}; {| nValue := 9; scriptPubKey := [0x51]; nRounds := 0 |};
               {| nValue := 4; scriptPubKey := [0x52]; nRounds := 0 |}];
      nVersion := 1; nType := 0; nLockTime := 0; sapData := None; extraPayload := None |} 8 true [0x51] [repeat 7 20; []; []] 0 = Value tt.
Proof.
  apply (proj2 (coinstake_outputs (fun _ => true) _ 8 true [0x51] 0)).
  - reflexivity.
  - repeat (constructor; [cbn; lia|]). constructor.
  - cbn. lia.
  - split; [reflexivity|]. split; [reflexivity|]. split; [reflexivity|]. split; [reflexivity|].
    exists {| nValue := 0; scriptPubKey := []; nRounds := 0 |}, [{| nValue := 9; scriptPubKey := [0x51]; nRounds := 0 |}], [{| nValue := 4; scriptPubKey := [0x52]; nRounds := 0 |}].
    split; [reflexivity|]. split; [constructor; [reflexivity | constructor]|]. split; [cbn; lia|].
    right. eexists. split; [reflexivity|]. split; [discriminate|]. split; [reflexivity | cbn; lia].
Defined.
