(* ===== verification/MerkleBlock.v ===== *)
(** merkleblock.h and merkleblock.cpp: partial Merkle trees, which show that some of the
    transactions of a block are in it. [None] is an access outside of a vector or a
    loop that does not end. *)
From Stdlib Require Import ZifyNat.
From S2P Require Import Prelude CryptoCommon Uint256 Merkle Streams Serialize Transactions.
Import CryptoCommon Uint256 Merkle Tx.

Module PartialMerkle.

(** [bits[p] << (p % 8)] is or-ed into byte [p / 8]. *)
Definition BitsToBytes (bits : list bool) : list Z :=
  fold_left (fun ret p => ret.[(p / 8)%nat := ret.[(p / 8)%nat] |: Z.shiftl (if nth p bits false then 1 else 0) (Z.of_nat (p mod 8))])
    (seq 0 (length bits)) (repeat 0 ((length bits + 7) / 8)).

Definition BytesToBits (byts : list Z) : list bool :=
  map (fun p => negb (byts.[(p / 8)%nat] &: Z.shiftl 1 (Z.of_nat (p mod 8)) =? 0)) (seq 0 (length byts * 8)).

Record CPartialMerkleTree := {
  nTransactions : Z;
  vBits : list bool;
  vHash : list uint256;
  fBad : bool
}.

(** The constructor without arguments. *)
Definition CPartialMerkleTree_empty : CPartialMerkleTree := {| nTransactions := 0; vBits := []; vHash := []; fBad := true |}.

Definition CalcTreeWidth (nTransactions : Z) (height : nat) : Z :=
  Z.shiftr (w32 (nTransactions + Z.shiftl 1 (Z.of_nat height) - 1)) (Z.of_nat height).

(** [while (CalcTreeWidth(nHeight) > 1) nHeight++]. *)
Fixpoint tree_height (fuel : nat) (nTransactions : Z) (nHeight : nat) : option nat :=
  match fuel with
  | O => None
  | S fuel => if CalcTreeWidth nTransactions nHeight >? 1 then tree_height fuel nTransactions (S nHeight) else Some nHeight
  end.

Section Tree.
(** [Hash] of two hashes. *)
Context (Hash : uint256 -> uint256 -> uint256).

Fixpoint CalcHash (nTransactions : Z) (height : nat) (pos : Z) (vTxid : list uint256) : option uint256 :=
  match height with
  | O => nth_error vTxid (Z.to_nat pos)
  | S height =>
      match CalcHash nTransactions height (w32 (pos * 2)) vTxid with
      | None => None
      | Some hleft =>
          let hright :=
            if w32 (pos * 2 + 1) <? CalcTreeWidth nTransactions height then CalcHash nTransactions height (w32 (pos * 2 + 1)) vTxid
            else Some hleft in
          match hright with None => None | Some hright => Some (Hash hleft hright) end
      end
  end.

(** The loop over the transactions below a node; [last] is [(pos + 1) << height]. *)
Fixpoint parent_of_match (fuel : nat) (p last nTransactions : Z) (vMatch : list bool) (fParentOfMatch : bool) : option bool :=
  match fuel with
  | O => None
  | S fuel =>
      if (p <? last) && (p <? nTransactions) then
        match nth_error vMatch (Z.to_nat p) with
        | None => None
        | Some b => parent_of_match fuel (w32 (p + 1)) last nTransactions vMatch (fParentOfMatch || b)
        end
      else Some fParentOfMatch
  end.

(** [vBits] and [vHash] before and after. *)
Fixpoint TraverseAndBuild (nTransactions : Z) (height : nat) (pos : Z) (vTxid : list uint256) (vMatch : list bool)
    (vBits : list bool) (vHash : list uint256) : option (list bool * list uint256) :=
  match parent_of_match (S (length vMatch)) (w32 (Z.shiftl pos (Z.of_nat height))) (w32 (Z.shiftl (pos + 1) (Z.of_nat height)))
          nTransactions vMatch false with
  | None => None
  | Some fParentOfMatch =>
      let vBits := vBits ++ [fParentOfMatch] in
      let leaf :=
        match CalcHash nTransactions height pos vTxid with
        | None => None
        | Some hash => Some (vBits, vHash ++ [hash])
        end in
      match height with
      | O => leaf
      | S height =>
          if negb fParentOfMatch then leaf
          else
            match TraverseAndBuild nTransactions height (w32 (pos * 2)) vTxid vMatch vBits vHash with
            | None => None
            | Some (vBits, vHash) =>
                if w32 (pos * 2 + 1) <? CalcTreeWidth nTransactions height
                then TraverseAndBuild nTransactions height (w32 (pos * 2 + 1)) vTxid vMatch vBits vHash
                else Some (vBits, vHash)
            end
      end
  end.

(** The constructor; 32 turns are enough for the height. *)
Definition CPartialMerkleTree_of (vTxid : list uint256) (vMatch : list bool) : option CPartialMerkleTree :=
  let nTransactions := w32 (Z.of_nat (length vTxid)) in
  match tree_height 33 nTransactions 0 with
  | None => None
  | Some nHeight =>
      match TraverseAndBuild nTransactions nHeight 0 vTxid vMatch [] [] with
      | None => None
      | Some (vBits, vHash) => Some {| nTransactions := nTransactions; vBits := vBits; vHash := vHash; fBad := false |}
      end
  end.

(** What [TraverseAndExtract] changes. *)
Record cursor := { nBitsUsed : nat; nHashUsed : nat; vMatch : list uint256; bad : bool }.

(** The hash that was stored for a node. *)
Definition use_hash (t : CPartialMerkleTree) (height : nat) (fParentOfMatch : bool) (c : cursor) : uint256 * cursor :=
  if (length (vHash t) <=? nHashUsed c)%nat then
    (UINT256_ZERO, {| nBitsUsed := nBitsUsed c; nHashUsed := nHashUsed c; vMatch := vMatch c; bad := true |})
  else
    let hash := nth (nHashUsed c) (vHash t) null256 in
    (hash, {| nBitsUsed := nBitsUsed c; nHashUsed := S (nHashUsed c);
              vMatch := if (height =? 0)%nat && fParentOfMatch then vMatch c ++ [hash] else vMatch c; bad := bad c |}).

Fixpoint TraverseAndExtract (t : CPartialMerkleTree) (height : nat) (pos : Z) (c : cursor) : uint256 * cursor :=
  if (length (vBits t) <=? nBitsUsed c)%nat then
    (UINT256_ZERO, {| nBitsUsed := nBitsUsed c; nHashUsed := nHashUsed c; vMatch := vMatch c; bad := true |})
  else
    let fParentOfMatch := nth (nBitsUsed c) (vBits t) false in
    let c := {| nBitsUsed := S (nBitsUsed c); nHashUsed := nHashUsed c; vMatch := vMatch c; bad := bad c |} in
    match height with
    | O => use_hash t 0 fParentOfMatch c
    | S height =>
        if negb fParentOfMatch then use_hash t (S height) fParentOfMatch c
        else
          let '(hleft, c) := TraverseAndExtract t height (w32 (pos * 2)) c in
          let '(hright, c) :=
            if w32 (pos * 2 + 1) <? CalcTreeWidth (nTransactions t) height then TraverseAndExtract t height (w32 (pos * 2 + 1)) c
            else (hleft, c) in
          (Hash hleft hright, c)
    end.

Definition MAX_BLOCK_SIZE_CURRENT : Z := 2000000.

(** The Merkle root, or 0, and [vMatch]. [fBad] stays in the object. *)
Definition ExtractMatches (t : CPartialMerkleTree) : option (uint256 * list uint256) :=
  if nTransactions t =? 0 then Some (UINT256_ZERO, [])
  else if nTransactions t >? MAX_BLOCK_SIZE_CURRENT / 60 then Some (UINT256_ZERO, [])
  else if Z.of_nat (length (vHash t)) >? nTransactions t then Some (UINT256_ZERO, [])
  else if (length (vBits t) <? length (vHash t))%nat then Some (UINT256_ZERO, [])
  else
    match tree_height 33 (nTransactions t) 0 with
    | None => None
    | Some nHeight =>
        let '(hashMerkleRoot, c) :=
          TraverseAndExtract t nHeight 0 {| nBitsUsed := 0; nHashUsed := 0; vMatch := []; bad := fBad t |} in
        if bad c then Some (UINT256_ZERO, vMatch c)
        else if negb ((nBitsUsed c + 7) / 8 =? (length (vBits t) + 7) / 8)%nat then Some (UINT256_ZERO, vMatch c)
        else if negb (nHashUsed c =? length (vHash t))%nat then Some (UINT256_ZERO, vMatch c)
        else Some (hashMerkleRoot, vMatch c)
    end.
End Tree.

Definition CPartialMerkleTreeF {sizes : Sizes} : format CPartialMerkleTree :=
  {| ser obj :=
       ser uint32F (nTransactions obj) ++ ser (VectorFormatter sizeof_uint256 uint256F) (vHash obj) ++
       ser charsF (BitsToBytes (vBits obj));
     unser S R s :=
       let? (nTransactions, s) := unser uint32F s in
       let? (vHash, s) := unser (VectorFormatter sizeof_uint256 uint256F) s in
       let? (byts, s) := unser charsF s in
       Ok ({| nTransactions := nTransactions; vBits := BytesToBits byts; vHash := vHash; fBad := false |}, s) |}.

End PartialMerkle.
