(* ===== verification/MerkleBlockProofs.v ===== *)
(** Partial Merkle trees: what the constructor builds [ExtractMatches] reads, the Merkle
    root and the chosen transactions, also after a serialization; what [ExtractMatches] accepts
    for the Merkle root of a block are transactions of the block; the size of the encoding. *)
From Stdlib Require Import ZifyNat.
From S2P Require Import Prelude CryptoCommon StrEncodings Uint256 HashSpec HashClasses Merkle MerkleTrees MerkleProofs.
From S2P Require Import Streams Serialize SerializeLaws Transactions TransactionsProofs Blocks MerkleBlock.
Import CryptoCommon Uint256 Merkle Tx PartialMerkle.

(** * Parts of lists *)

Local Abbreviation seg := MerkleSpec.seg.
Local Abbreviation height := MerkleSpec.height.

Lemma seg_split {A} (l : list A) s a b : seg l s (a + b) = seg l s a ++ seg l (s + a) b.
Proof.
  unfold MerkleSpec.seg. rewrite <- (firstn_skipn a (firstn (a + b) (skipn s l))).
  rewrite firstn_firstn, Nat.min_l, skipn_firstn_comm, skipn_skipn by lia. f_equal. f_equal; [lia|]. f_equal. lia.
Qed.

Lemma length_seg_min {A} (l : list A) s r : length (seg l s r) = Nat.min r (length l - s).
Proof. unfold MerkleSpec.seg. now rewrite length_firstn, length_skipn. Qed.

Lemma seg_past {A} (l : list A) s r : (length l <= s)%nat -> seg l s r = [].
Proof. intros H. unfold MerkleSpec.seg. rewrite skipn_all2 by assumption. apply firstn_nil. Qed.

Lemma seg_long {A} (l : list A) s r r' : (length l <= s + r)%nat -> (length l <= s + r')%nat -> seg l s r = seg l s r'.
Proof. intros H H'. unfold MerkleSpec.seg. rewrite !firstn_all2 by (rewrite length_skipn; lia). reflexivity. Qed.

Lemma Forall_seg {A} (P : A -> Prop) l s r : Forall P l -> Forall P (seg l s r).
Proof. intros H. now apply Forall_take, Forall_drop. Qed.

(** The leaves with a mark. *)
Definition picked {A} (l : list A) (m : list bool) : list A := map fst (filter snd (List.combine l m)).

Lemma picked_app {A} (a b : list A) ma mb : length a = length ma -> picked (a ++ b) (ma ++ mb) = picked a ma ++ picked b mb.
Proof.
  revert ma; induction a as [|x a IH]; intros [|c ma] H; try discriminate; [reflexivity|]. cbn in H. unfold picked in *.
  cbn [app List.combine filter snd]. destruct c; cbn [map]; rewrite IH by lia; reflexivity.
Qed.

Lemma picked_none {A} (a : list A) ma : existsb (fun b => b) ma = false -> picked a ma = [].
Proof.
  revert a; induction ma as [|c ma IH]; intros [|x a] H; try reflexivity. cbn [existsb] in H. apply orb_false_elim in H as [-> H].
  exact (IH a H).
Qed.

(** * Positions *)

Section Positions.
Context (N : nat) (HN : Z.of_nat N <= 2 ^ 31).

Lemma pow_le_31 h : (h <= 31)%nat -> Z.of_nat (2 ^ h) <= 2 ^ 31.
Proof. intros Hh. rewrite Nat2Z.inj_pow. apply Z.pow_le_mono_r; lia. Qed.

Lemma shift_nat p h : Z.shiftl (Z.of_nat p) (Z.of_nat h) = Z.of_nat (p * 2 ^ h).
Proof. rewrite Z.shiftl_mul_pow2, Nat2Z.inj_mul, Nat2Z.inj_pow by lia. reflexivity. Qed.

Lemma width_spec h q : (h <= 31)%nat -> (Z.of_nat q <? CalcTreeWidth (Z.of_nat N) h) = (q * 2 ^ h <? N)%nat.
Proof.
  intros Hh. unfold CalcTreeWidth. pose proof (pow_le_31 h Hh). pose proof (pow2_pos h). pose proof (shift_nat 1 h) as E1. change (Z.of_nat 1) with 1 in E1. rewrite E1, Nat.mul_1_l.
  unfold w32. rewrite Z.mod_small by lia. rewrite Z.shiftr_div_pow2 by lia.
  replace (2 ^ Z.of_nat h) with (Z.of_nat (2 ^ h)) by apply Nat2Z.inj_pow.
  replace (Z.of_nat N + Z.of_nat (2 ^ h) - 1) with (Z.of_nat (N + 2 ^ h - 1)) by lia. rewrite <- Nat2Z.inj_div.
  pose proof (Nat.div_mod (N + 2 ^ h - 1) (2 ^ h) ltac:(lia)). pose proof (Nat.mod_upper_bound (N + 2 ^ h - 1) (2 ^ h) ltac:(lia)).
  set (d := ((N + 2 ^ h - 1) / 2 ^ h)%nat) in *. destruct (Z.ltb_spec (Z.of_nat q) (Z.of_nat d)), (Nat.ltb_spec (q * 2 ^ h) N); try reflexivity; exfalso; nia.
Qed.

Lemma child_pos h q i : (i <= 1)%nat -> (q * 2 ^ S h < N)%nat -> w32 (Z.of_nat q * 2 + Z.of_nat i) = Z.of_nat (2 * q + i).
Proof. intros Hi Hq. unfold w32. rewrite Z.mod_small; [lia|]. pose proof (pow2_S h). pose proof (pow2_pos h). nia. Qed.

Lemma parent_spec fuel p last m acc :
  length m = N -> (p <= N)%nat -> (N - p < fuel)%nat ->
  parent_of_match fuel (Z.of_nat p) (Z.of_nat last) (Z.of_nat N) m acc = Some (acc || existsb (fun b => b) (seg m p (last - p))).
Proof.
  intros Hm. revert p acc; induction fuel as [|fuel IH]; intros p acc Hp Hf; [lia|]. cbn [parent_of_match].
  destruct (Z.ltb_spec (Z.of_nat p) (Z.of_nat last)); cbn [andb].
  - destruct (Z.ltb_spec (Z.of_nat p) (Z.of_nat N)).
    + rewrite Nat2Z.id. assert (Hlt : (p < length m)%nat) by lia. destruct (nth_error m p) as [b|] eqn:E; [|apply nth_error_None in E; lia].
      replace (w32 (Z.of_nat p + 1)) with (Z.of_nat (S p)) by (unfold w32; rewrite Z.mod_small; lia). rewrite IH by lia.
      replace (last - p)%nat with (1 + (last - S p))%nat by lia. rewrite seg_split, existsb_app, Nat.add_1_r.
      assert (E1 : seg m p 1 = [b]).
      { unfold MerkleSpec.seg. apply nth_error_split in E as (m1 & m2 & -> & <-). rewrite skipn_app, skipn_all, Nat.sub_diag. reflexivity. }
      rewrite E1. cbn [existsb]. now rewrite orb_false_r, orb_assoc.
    + rewrite seg_past by lia. now rewrite orb_false_r.
  - replace (last - p)%nat with 0%nat by lia. unfold MerkleSpec.seg. cbn [firstn existsb]. now rewrite orb_false_r.
Qed.

Lemma parent_node h q m :
  length m = N -> (h <= 31)%nat -> (q * 2 ^ h < N)%nat ->
  parent_of_match (S (length m)) (w32 (Z.shiftl (Z.of_nat q) (Z.of_nat h))) (w32 (Z.shiftl (Z.of_nat q + 1) (Z.of_nat h))) (Z.of_nat N) m false =
  Some (existsb (fun b => b) (seg m (q * 2 ^ h) (2 ^ h))).
Proof.
  intros Hm Hh Hq. replace (Z.of_nat q + 1) with (Z.of_nat (q + 1)) by lia. rewrite !shift_nat.
  pose proof (pow_le_31 h Hh). unfold w32. rewrite !Z.mod_small by lia. rewrite parent_spec by lia. cbn [orb]. do 3 f_equal. lia.
Qed.
End Positions.

(** * Building and extracting *)

Section Tree.
Context (H : uint256 -> uint256 -> uint256).
Local Abbreviation mroot := (MerkleSpec.mroot null256 H).

Section Build.
Context (l : list uint256) (m : list bool) (Hm : length m = length l) (HN : Z.of_nat (length l) <= 2 ^ 31).
Local Abbreviation N := (length l).
Implicit Types (h q : nat).

(** The leaves below node [q] of height [h]; a node has a right child when there are leaves
    below it. *)
Definition below {A} (x : list A) h q : list A := seg x (q * 2 ^ h) (2 ^ h).

Lemma below_children {A} (x : list A) h q : below x (S h) q = below x h (2 * q) ++ below x h (2 * q + 1).
Proof.
  unfold below. rewrite pow2_S. replace (2 * 2 ^ h)%nat with (2 ^ h + 2 ^ h)%nat by lia. rewrite seg_split. f_equal; f_equal; lia.
Qed.

Lemma below_last {A} (x : list A) h q : length x = N -> (N <= (2 * q + 1) * 2 ^ h)%nat -> below x h (2 * q + 1) = [].
Proof. intros Hx Hq. apply seg_past. lia. Qed.

Lemma below_full {A} (x : list A) h q : length x = N -> ((q + 1) * 2 ^ h <= N)%nat -> length (below x h q) = (2 ^ h)%nat.
Proof. intros Hx Hq. unfold below. rewrite length_seg_min. lia. Qed.

Lemma below_pos {A} (x : list A) h q : length x = N -> (q * 2 ^ h < N)%nat -> (0 < length (below x h q) <= 2 ^ h)%nat.
Proof. intros Hx Hq. unfold below. rewrite length_seg_min. pose proof (pow2_pos h). lia. Qed.

Lemma length_below h q : length (below l h q) = length (below m h q).
Proof. unfold below. now rewrite !length_seg_min, Hm. Qed.

(** The root of a node from those of its children. *)
Lemma mroot_children h q :
  (q * 2 ^ S h < N)%nat ->
  mroot (S h) (below l (S h) q) =
  if ((2 * q + 1) * 2 ^ h <? N)%nat then H (mroot h (below l h (2 * q))) (mroot h (below l h (2 * q + 1)))
  else H (mroot h (below l h (2 * q))) (mroot h (below l h (2 * q))).
Proof.
  intros Hq. pose proof (pow2_S h). rewrite below_children. destruct (Nat.ltb_spec ((2 * q + 1) * 2 ^ h) N).
  - apply mroot_app; [apply below_full; [reflexivity | lia]|]. apply below_pos; [reflexivity | lia].
  - rewrite below_last, app_nil_r by (reflexivity || lia). apply mroot_half. apply below_pos; [reflexivity | lia].
Qed.

Lemma CalcHash_spec h q : (h <= 31)%nat -> (q * 2 ^ h < N)%nat -> CalcHash H (Z.of_nat N) h (Z.of_nat q) l = Some (mroot h (below l h q)).
Proof.
  revert q; induction h as [|h IH]; intros q Hh Hq; cbn [CalcHash].
  - rewrite Nat2Z.id. change (2 ^ 0)%nat with 1%nat in Hq. rewrite Nat.mul_1_r in Hq.
    destruct (nth_error l q) as [x|] eqn:E; [|apply nth_error_None in E; lia]. f_equal. unfold below, MerkleSpec.seg. rewrite Nat.mul_1_r.
    apply nth_error_split in E as (a & b & -> & <-). rewrite skipn_app, skipn_all, Nat.sub_diag. reflexivity.
  - pose proof (pow2_S h). assert (Hl : w32 (Z.of_nat q * 2) = Z.of_nat (2 * q)) by (rewrite <- (Z.add_0_r (_ * 2)); change 0 with (Z.of_nat 0); rewrite (child_pos N HN h) by lia; f_equal; lia).
    rewrite Hl, IH by lia. change 1 with (Z.of_nat 1). rewrite (child_pos N HN h), width_spec, mroot_children by lia.
    destruct (Nat.ltb_spec ((2 * q + 1) * 2 ^ h) N); [|reflexivity]. rewrite IH by lia. reflexivity.
Qed.

(** The bits and hashes [b] and [g] of a node: how many there are, and what the reader does
    with them. *)
Definition closed : Prop := Forall is_hash l /\ forall x y, is_hash x -> is_hash y -> is_hash (H x y).
Definition encodes h q (b : list bool) (g : list uint256) : Prop :=
  (closed -> Forall is_hash g) /\
  (length g <= length (below l h q))%nat /\ (0 < length g <= length b)%nat /\
  (length b + 1 <= 2 * length g + h)%nat /\ ((q + 1) * 2 ^ h <= N -> length b + 1 <= 2 * length g)%nat /\
  (forall b0 g0, TraverseAndBuild H (Z.of_nat N) h (Z.of_nat q) l m b0 g0 = Some (b0 ++ b, g0 ++ g)) /\
  forall b0 b1 g0 g1 vm,
    TraverseAndExtract H {| nTransactions := Z.of_nat N; vBits := b0 ++ b ++ b1; vHash := g0 ++ g ++ g1; fBad := false |} h (Z.of_nat q)
      {| nBitsUsed := length b0; nHashUsed := length g0; vMatch := vm; bad := false |} =
    (mroot h (below l h q),
     {| nBitsUsed := length (b0 ++ b); nHashUsed := length (g0 ++ g); vMatch := vm ++ picked (below l h q) (below m h q); bad := false |}).

(** A node whose hash is stored. *)
Lemma encodes_leaf h q :
  (h <= 31)%nat -> (q * 2 ^ h < N)%nat -> h = 0%nat \/ existsb (fun b => b) (below m h q) = false ->
  encodes h q [existsb (fun b => b) (below m h q)] [mroot h (below l h q)].
Proof.
  intros Hh Hq Hleaf. set (f := existsb _ _) in *. unfold encodes. cbn [length].
  split; [intros [Hl HH]; constructor; [|constructor]; apply (mroot_P null256 H is_hash is_hash_null HH); now apply Forall_seg|].
  split; [apply below_pos; [reflexivity | assumption]|].
  split; [lia|]. split; [lia|]. split; [lia|]. split.
  - intros b0 g0. assert (E : parent_of_match (S (length m)) (w32 (Z.shiftl (Z.of_nat q) (Z.of_nat h))) (w32 (Z.shiftl (Z.of_nat q + 1) (Z.of_nat h))) (Z.of_nat N) m false = Some f)
      by now apply (parent_node N HN).
    pose proof (CalcHash_spec h q Hh Hq) as Eh. destruct h as [|h]; cbn [TraverseAndBuild]; rewrite E, Eh; [reflexivity|].
    destruct Hleaf as [|Hf]; [discriminate|]. rewrite Hf. reflexivity.
  - intros b0 b1 g0 g1 vm.
    assert (Euse : use_hash {| nTransactions := Z.of_nat N; vBits := b0 ++ [f] ++ b1; vHash := g0 ++ [mroot h (below l h q)] ++ g1; fBad := false |} h f
        {| nBitsUsed := S (length b0); nHashUsed := length g0; vMatch := vm; bad := false |} =
      (mroot h (below l h q), {| nBitsUsed := length (b0 ++ [f]); nHashUsed := length (g0 ++ [mroot h (below l h q)]);
        vMatch := vm ++ picked (below l h q) (below m h q); bad := false |})).
    { assert (Hg : (length (g0 ++ [mroot h (below l h q)] ++ g1) <=? length g0)%nat = false) by (rewrite !length_app; apply Nat.leb_gt; cbn; lia).
      unfold use_hash. cbn [vHash nHashUsed nBitsUsed vMatch bad]. rewrite Hg, !length_app. cbn [app length]. rewrite nth_middle.
      f_equal. rewrite !Nat.add_1_r. f_equal. destruct Hleaf as [->|Hf].
      - cbn [Nat.eqb andb]. unfold f. pose proof (below_pos l 0 q eq_refl Hq) as L1. pose proof (below_pos m 0 q Hm Hq) as L2. change (2 ^ 0)%nat with 1%nat in L1, L2.
        destruct (below l 0 q) as [|x [|? ?]], (below m 0 q) as [|c [|? ?]]; cbn [length] in *; try lia. cbn [MerkleSpec.mroot hd existsb]. rewrite orb_false_r.
        unfold picked. cbn. destruct c; [reflexivity | now rewrite app_nil_r].
      - fold f in Hf. rewrite Hf, andb_false_r, picked_none, app_nil_r by exact Hf. reflexivity. }
    assert (Hb : (length (b0 ++ [f] ++ b1) <=? length b0)%nat = false) by (rewrite !length_app; apply Nat.leb_gt; cbn; lia).
    destruct h as [|h]; cbn [TraverseAndExtract vBits nBitsUsed nHashUsed vMatch bad]; rewrite Hb; cbn [app]; rewrite nth_middle; [exact Euse|].
    destruct Hleaf as [|Hf]; [discriminate|]. change (existsb (fun b : bool => b) (below m (S h) q)) with f in Hf. rewrite Hf in *. exact Euse.
Qed.

(** One step of the two traversals at a node with a match below it. *)
Lemma build_step h q b0 g0 :
  (S h <= 31)%nat -> (q * 2 ^ S h < N)%nat -> existsb (fun b => b) (below m (S h) q) = true ->
  TraverseAndBuild H (Z.of_nat N) (S h) (Z.of_nat q) l m b0 g0 =
  match TraverseAndBuild H (Z.of_nat N) h (Z.of_nat (2 * q)) l m (b0 ++ [true]) g0 with
  | None => None
  | Some (b, g) => if ((2 * q + 1) * 2 ^ h <? N)%nat then TraverseAndBuild H (Z.of_nat N) h (Z.of_nat (2 * q + 1)) l m b g else Some (b, g)
  end.
Proof.
  intros Hh Hq Hf. cbn [TraverseAndBuild]. unfold below in Hf. rewrite (parent_node N HN (S h) q m Hm Hh Hq), Hf. cbn [negb].
  pose proof (child_pos N HN h q 0 ltac:(lia) Hq) as E0. pose proof (child_pos N HN h q 1 ltac:(lia) Hq) as E1.
  change (Z.of_nat 0) with 0 in E0. change (Z.of_nat 1) with 1 in E1. rewrite Z.add_0_r, Nat.add_0_r in E0.
  rewrite E0, E1, width_spec by lia. reflexivity.
Qed.

Lemma extract_step t h q c :
  nTransactions t = Z.of_nat N -> (S h <= 31)%nat -> (q * 2 ^ S h < N)%nat -> (nBitsUsed c < length (vBits t))%nat -> nth (nBitsUsed c) (vBits t) false = true ->
  TraverseAndExtract H t (S h) (Z.of_nat q) c =
  let '(x, c) := TraverseAndExtract H t h (Z.of_nat (2 * q)) {| nBitsUsed := S (nBitsUsed c); nHashUsed := nHashUsed c; vMatch := vMatch c; bad := bad c |} in
  let '(y, c) := if ((2 * q + 1) * 2 ^ h <? N)%nat then TraverseAndExtract H t h (Z.of_nat (2 * q + 1)) c else (x, c) in
  (H x y, c).
Proof.
  intros Ht Hh Hq Hb Hf. cbn [TraverseAndExtract]. destruct (Nat.leb_spec (length (vBits t)) (nBitsUsed c)); [lia|]. rewrite Hf, Ht. cbn [negb].
  pose proof (child_pos N HN h q 0 ltac:(lia) Hq) as E0. pose proof (child_pos N HN h q 1 ltac:(lia) Hq) as E1.
  change (Z.of_nat 0) with 0 in E0. change (Z.of_nat 1) with 1 in E1. rewrite Z.add_0_r, Nat.add_0_r in E0.
  rewrite E0, E1, width_spec by lia. reflexivity.
Qed.

Lemma encodes_two h q bl gl br gr :
  (S h <= 31)%nat -> ((2 * q + 1) * 2 ^ h < N)%nat -> existsb (fun b => b) (below m (S h) q) = true ->
  encodes h (2 * q) bl gl -> encodes h (2 * q + 1) br gr -> encodes (S h) q (true :: bl ++ br) (gl ++ gr).
Proof.
  intros Hh Hr Hf (LH & L1 & L2 & L3 & L4 & L5 & L6) (RH & R1 & R2 & R3 & R4 & R5 & R6). pose proof (pow2_S h). pose proof (pow2_pos h).
  assert (Hq : (q * 2 ^ S h < N)%nat) by lia. unfold encodes. cbn [length]. rewrite !length_app, !below_children, !length_app.
  split; [intros C; apply Forall_app; auto|].
  split; [lia|]. split; [lia|]. split; [lia|]. split; [lia|]. split.
  - intros b0 g0. rewrite build_step, L5 by assumption. destruct (Nat.ltb_spec ((2 * q + 1) * 2 ^ h) N); [|lia]. rewrite R5.
    repeat rewrite <- app_assoc. reflexivity.
  - intros b0 b1 g0 g1 vm. rewrite extract_step; cbn [vBits nBitsUsed nHashUsed vMatch bad nTransactions];
      [|reflexivity | assumption | assumption | rewrite length_app; cbn; lia | apply nth_middle].
    specialize (L6 (b0 ++ [true]) (br ++ b1) g0 (gr ++ g1) vm). specialize (R6 (b0 ++ [true] ++ bl) b1 (g0 ++ gl) g1 (vm ++ picked (below l h (2 * q)) (below m h (2 * q)))).
    repeat rewrite <- app_assoc in L6; repeat rewrite <- app_assoc in R6. rewrite (length_app b0 [true]), Nat.add_1_r in L6. cbn [app] in *. repeat rewrite <- app_assoc. rewrite L6.
    destruct (Nat.ltb_spec ((2 * q + 1) * 2 ^ h) N); [|lia].
    rewrite R6, <- below_children, mroot_children by assumption. destruct (Nat.ltb_spec ((2 * q + 1) * 2 ^ h) N); [|lia].
    rewrite !below_children, picked_app by apply length_below. repeat rewrite <- app_assoc. reflexivity.
Qed.

Lemma encodes_one h q bl gl :
  (S h <= 31)%nat -> (q * 2 ^ S h < N)%nat -> (N <= (2 * q + 1) * 2 ^ h)%nat -> existsb (fun b => b) (below m (S h) q) = true ->
  encodes h (2 * q) bl gl -> encodes (S h) q (true :: bl) gl.
Proof.
  intros Hh Hq Hr Hf (LH & L1 & L2 & L3 & L4 & L5 & L6). pose proof (pow2_S h). pose proof (pow2_pos h).
  assert (El : below l (S h) q = below l h (2 * q)) by (rewrite below_children, (below_last l) by (reflexivity || lia); apply app_nil_r).
  assert (Em : below m (S h) q = below m h (2 * q)) by (rewrite below_children, (below_last m) by (assumption || lia); apply app_nil_r).
  unfold encodes. cbn [length]. rewrite El, Em. split; [assumption|]. split; [lia|]. split; [lia|]. split; [lia|]. split; [lia|]. split.
  - intros b0 g0. rewrite build_step, L5 by assumption. destruct (Nat.ltb_spec ((2 * q + 1) * 2 ^ h) N); [lia|]. repeat rewrite <- app_assoc. reflexivity.
  - intros b0 b1 g0 g1 vm. rewrite extract_step; cbn [vBits nBitsUsed nHashUsed vMatch bad nTransactions];
      [|reflexivity | assumption | assumption | rewrite length_app; cbn; lia | apply nth_middle].
    specialize (L6 (b0 ++ [true]) b1 g0 g1 vm). repeat rewrite <- app_assoc in L6. rewrite (length_app b0 [true]), Nat.add_1_r in L6. cbn [app] in *. rewrite L6.
    destruct (Nat.ltb_spec ((2 * q + 1) * 2 ^ h) N); [lia|]. rewrite <- El, mroot_children by assumption.
    destruct (Nat.ltb_spec ((2 * q + 1) * 2 ^ h) N); [lia|]. rewrite El. repeat rewrite <- app_assoc. reflexivity.
Qed.

Lemma encodes_node h q : (h <= 31)%nat -> (q * 2 ^ h < N)%nat -> exists b g, encodes h q b g.
Proof.
  revert q; induction h as [|h IH]; intros q Hh Hq; [eexists _, _; apply encodes_leaf; auto|]. pose proof (pow2_S h).
  destruct (existsb (fun b => b) (below m (S h) q)) eqn:Hf; [|eexists _, _; apply encodes_leaf; auto].
  destruct (IH (2 * q)%nat) as (bl & gl & Hl); [lia | lia|]. destruct (Nat.lt_ge_cases ((2 * q + 1) * 2 ^ h) N) as [Hr|Hr].
  - destruct (IH (2 * q + 1)%nat) as (br & gr & Hr'); [lia | assumption|]. eexists _, _. exact (encodes_two h q bl gl br gr Hh Hr Hf Hl Hr').
  - eexists _, _. exact (encodes_one h q bl gl Hh Hq Hr Hf Hl).
Qed.
End Build.

(** ** The height *)

Lemma height_le_31 n : (0 < n)%nat -> Z.of_nat n <= 2 ^ 31 -> (height n <= 31)%nat.
Proof.
  intros Hn Hl. pose proof (height_spec n Hn) as Hh. destruct (Nat.le_gt_cases (height n) 31) as [|Hgt]; [assumption | exfalso].
  assert (2 ^ 32 <= Z.of_nat (2 ^ height n)) by (rewrite Nat2Z.inj_pow; apply Z.pow_le_mono_r; lia). lia.
Qed.

Lemma tree_height_spec n fuel h :
  (0 < n)%nat -> Z.of_nat n <= 2 ^ 31 -> (h <= height n)%nat -> (height n - h < fuel)%nat -> tree_height fuel (Z.of_nat n) h = Some (height n).
Proof.
  intros Hn Hl. pose proof (height_spec n Hn) as Hh. pose proof (height_le_31 n Hn Hl). revert h; induction fuel as [|fuel IH]; intros h Hle Hf; [lia|].
  cbn [tree_height]. rewrite Z.gtb_ltb. change 1 with (Z.of_nat 1). rewrite width_spec, Nat.mul_1_l by (assumption || lia).
  destruct (Nat.eq_dec h (height n)) as [->|Hne]; [destruct (Nat.ltb_spec (2 ^ height n) n); [lia | reflexivity]|].
  pose proof (Nat.pow_le_mono_r 2 (S h) (height n) ltac:(lia) ltac:(lia)) as P. rewrite pow2_S in P.
  destruct (Nat.ltb_spec (2 ^ h) n); [apply IH; lia | lia].
Qed.

Lemma below_root {A} (x : list A) n : length x = n -> (0 < n)%nat -> below x (height n) 0 = x.
Proof. intros <- Hn. unfold below, MerkleSpec.seg. cbn [Nat.mul skipn]. apply firstn_all2. apply height_spec. assumption. Qed.

Lemma constructor_spec l m :
  length m = length l -> (0 < length l)%nat -> Z.of_nat (length l) <= 2 ^ 31 ->
  exists b g, CPartialMerkleTree_of H l m = Some {| nTransactions := Z.of_nat (length l); vBits := b; vHash := g; fBad := false |} /\
  encodes l m (height (length l)) 0 b g.
Proof.
  intros Hm Hp HN. pose proof (height_le_31 _ Hp HN). destruct (encodes_node l m Hm HN (height (length l)) 0) as (b & g & E); [assumption | lia|].
  exists b, g. split; [|exact E]. unfold CPartialMerkleTree_of, w32. rewrite Z.mod_small, tree_height_spec by lia.
  destruct E as (_ & _ & _ & _ & _ & B & _). specialize (B [] []). change (Z.of_nat 0) with 0 in B. rewrite B. reflexivity.
Qed.

(** Reading what was built; the bits may be padded to whole bytes. *)
Lemma extract_built l m b g pad :
  length m = length l -> (0 < length l)%nat -> Z.of_nat (length l) <= 33333 -> encodes l m (height (length l)) 0 b g ->
  ((length (b ++ pad) + 7) / 8 = (length b + 7) / 8)%nat ->
  ExtractMatches H {| nTransactions := Z.of_nat (length l); vBits := b ++ pad; vHash := g; fBad := false |} =
  Some (MerkleSpec.root null256 H l, picked l m).
Proof.
  intros Hm Hp HN (_ & E1 & E2 & _ & _ & _ & E) Hpad. unfold ExtractMatches. cbn [nTransactions vHash vBits fBad].
  rewrite (below_root l) in E1 by (reflexivity || assumption).
  destruct (Z.eqb_spec (Z.of_nat (length l)) 0); [lia|]. change (MAX_BLOCK_SIZE_CURRENT / 60) with 33333.
  destruct (Z.gtb_spec (Z.of_nat (length l)) 33333); [lia|]. destruct (Z.gtb_spec (Z.of_nat (length g)) (Z.of_nat (length l))); [lia|].
  destruct (Nat.ltb_spec (length (b ++ pad)) (length g)) as [Hlt|]; [rewrite length_app in Hlt; lia|].
  pose proof (height_le_31 _ Hp ltac:(lia)). rewrite tree_height_spec by lia. specialize (E [] pad [] [] []). cbn [app length] in E. rewrite app_nil_r in E. change (Z.of_nat 0) with 0 in E. rewrite E.
  cbn [bad nBitsUsed nHashUsed vMatch]. rewrite Hpad, !Nat.eqb_refl. cbn [negb app]. rewrite !below_root by (reflexivity || assumption).
  rewrite root_mroot by (intros ->; cbn in Hp; lia). reflexivity.
Qed.
End Tree.

(** * Bits and bytes *)

Lemma and_bit x k : negb (x &: Z.shiftl 1 (Z.of_nat k) =? 0) = Z.testbit x (Z.of_nat k).
Proof.
  rewrite Z.shiftl_mul_pow2, Z.mul_1_l by lia.
  assert (E : x &: 2 ^ Z.of_nat k = if Z.testbit x (Z.of_nat k) then 2 ^ Z.of_nat k else 0).
  { apply Z.bits_inj'. intros i Hi. rewrite Z.land_spec, Z.pow2_bits_eqb by lia. destruct (Z.eqb_spec (Z.of_nat k) i) as [->|Hne].
    - rewrite andb_true_r. destruct (Z.testbit x i); [now rewrite Z.pow2_bits_true | now rewrite Z.bits_0].
    - rewrite andb_false_r. destruct (Z.testbit x _); [now rewrite Z.pow2_bits_false | now rewrite Z.bits_0]. }
  rewrite E. destruct (Z.testbit x _); [|reflexivity]. destruct (Z.eqb_spec (2 ^ Z.of_nat k) 0); [lia | reflexivity].
Qed.

(** The bits of the bytes that the first [k] turns leave. *)
Lemma BitsToBytes_loop bits n k :
  (8 * n >= length bits)%nat -> (k <= length bits)%nat ->
  let ret := fold_left (fun ret p => ret.[(p / 8)%nat := ret.[(p / 8)%nat] |: Z.shiftl (if nth p bits false then 1 else 0) (Z.of_nat (p mod 8))])
    (seq 0 k) (repeat 0 n) in
  length ret = n /\ forall i j, (i < n)%nat -> Z.testbit ret.[i] (Z.of_nat j) = (j <? 8)%nat && (8 * i + j <? k)%nat && nth (8 * i + j) bits false.
Proof.
  intros Hn. induction k as [|k IH]; intros Hk; cbv zeta.
  - cbn [seq fold_left]. split; [apply repeat_length|]. intros i j Hi. rewrite nth_repeat, Z.bits_0. destruct (Nat.ltb_spec (8 * i + j) 0); [lia|].
    now rewrite andb_false_r.
  - rewrite seq_S, fold_left_app. cbn [fold_left Nat.add]. destruct (IH ltac:(lia)) as [L B]. clear IH. set (ret := fold_left _ (seq 0 k) _) in *.
    assert (Hlt : (k / 8 < length ret)%nat) by lia. split; [now rewrite length_upd|]. intros i j Hi.
    destruct (Nat.eq_dec i (k / 8)) as [->|Hne].
    + rewrite nth_upd_eq by assumption. rewrite Z.lor_spec, B, Z.shiftl_spec by lia. set (b := nth k bits false).
      assert (Hkm : k = (8 * (k / 8) + k mod 8)%nat) by (apply Nat.div_mod; lia). pose proof (Nat.mod_upper_bound k 8 ltac:(lia)).
      destruct (Nat.eq_dec j (k mod 8)) as [->|Hj].
      * rewrite Z.sub_diag, <- Hkm. fold b. destruct (Nat.ltb_spec (k mod 8) 8), (Nat.ltb_spec k k), (Nat.ltb_spec k (S k)); try lia. cbn [andb orb]. now destruct b.
      * replace (Z.testbit (if b then 1 else 0) (Z.of_nat j - Z.of_nat (k mod 8))) with false.
        -- rewrite orb_false_r. f_equal. destruct (Nat.ltb_spec j 8); [|reflexivity]. cbn [andb].
           destruct (Nat.ltb_spec (8 * (k / 8) + j) k), (Nat.ltb_spec (8 * (k / 8) + j) (S k)); (reflexivity || lia).
        -- symmetry. destruct (Z.lt_ge_cases (Z.of_nat j) (Z.of_nat (k mod 8))); [apply Z.testbit_neg_r; lia|].
           destruct b; [|apply Z.bits_0]. apply Z.bits_above_log2; [lia | change (Z.log2 1) with 0; lia].
    + rewrite nth_upd_ne, B by congruence. f_equal. destruct (Nat.ltb_spec j 8); [|reflexivity]. cbn [andb].
      destruct (Nat.ltb_spec (8 * i + j) k), (Nat.ltb_spec (8 * i + j) (S k)); try reflexivity; exfalso; [lia|].
      apply Hne. replace k with (8 * i + j)%nat by lia. rewrite Nat.mul_comm, Nat.div_add_l, Nat.div_small by lia. lia.
Qed.

Lemma BitsToBytes_spec bits :
  let n := ((length bits + 7) / 8)%nat in
  length (BitsToBytes bits) = n /\
  forall i j, (i < n)%nat -> Z.testbit (BitsToBytes bits).[i] (Z.of_nat j) = (j <? 8)%nat && nth (8 * i + j) bits false.
Proof.
  intros n. destruct (BitsToBytes_loop bits n (length bits)) as [L B]; [unfold n; lia | lia|]. split; [exact L|]. intros i j Hi.
  unfold BitsToBytes. rewrite B by assumption. destruct (Nat.ltb_spec (8 * i + j) (length bits)); [now rewrite andb_true_r|].
  rewrite nth_overflow by assumption. now rewrite !andb_false_r.
Qed.

Lemma bytes_BitsToBytes bits : bytes (BitsToBytes bits).
Proof.
  destruct (BitsToBytes_spec bits) as [L B]. apply Forall_forall. intros x Hx. apply (In_nth _ _ 0) in Hx as (i & Hi & <-). rewrite L in Hi.
  apply word_of_bits; [lia|]. intros j Hj. rewrite <- (Z2Nat.id j), B by lia. destruct (Nat.ltb_spec (Z.to_nat j) 8); [lia | reflexivity].
Qed.

Lemma nth_BytesToBits byts p : (p < 8 * length byts)%nat -> nth p (BytesToBits byts) false = Z.testbit byts.[(p / 8)%nat] (Z.of_nat (p mod 8)).
Proof.
  intros Hp. unfold BytesToBits. rewrite (nth_indep _ false (negb (byts.[(0 / 8)%nat] &: Z.shiftl 1 (Z.of_nat (0 mod 8)) =? 0))) by (rewrite length_map, length_seq; lia).
  rewrite (map_nth (fun p => negb (byts.[(p / 8)%nat] &: Z.shiftl 1 (Z.of_nat (p mod 8)) =? 0)) _ 0%nat), seq_nth by lia. apply and_bit.
Qed.

(** The bits come back, padded to whole bytes. *)
Lemma bits_roundtrip bits :
  BytesToBits (BitsToBytes bits) = bits ++ repeat false (8 * ((length bits + 7) / 8) - length bits).
Proof.
  destruct (BitsToBytes_spec bits) as [L B]. apply (nth_ext _ _ false false).
  - unfold BytesToBits. rewrite length_map, length_seq, length_app, repeat_length, L. lia.
  - unfold BytesToBits at 1. rewrite length_map, length_seq, L. intros p Hp. rewrite nth_BytesToBits, B by lia.
    pose proof (Nat.mod_upper_bound p 8 ltac:(lia)). destruct (Nat.ltb_spec (p mod 8) 8); [|lia]. cbn [andb].
    rewrite <- Nat.div_mod by lia. destruct (Nat.lt_ge_cases p (length bits)); [now rewrite app_nth1|].
    rewrite nth_overflow, app_nth2, nth_repeat by assumption. reflexivity.
Qed.

Lemma byte_eq x y : word 8 x -> word 8 y -> (forall j, (j < 8)%nat -> Z.testbit x (Z.of_nat j) = Z.testbit y (Z.of_nat j)) -> x = y.
Proof.
  intros Hx Hy E. apply Z.bits_inj'. intros j Hj. destruct (Z.lt_ge_cases j 8).
  - rewrite <- (Z2Nat.id j) by lia. apply E. lia.
  - now rewrite !(word_testbit_high 8) by (assumption || lia).
Qed.

(** And so do bytes. *)
Lemma bytes_roundtrip byts : bytes byts -> BitsToBytes (BytesToBits byts) = byts.
Proof.
  intros Hb. assert (Lb : length (BytesToBits byts) = (8 * length byts)%nat) by (unfold BytesToBits; rewrite length_map, length_seq; lia).
  destruct (BitsToBytes_spec (BytesToBits byts)) as [L B]. rewrite Lb in *.
  assert (Hn : ((8 * length byts + 7) / 8 = length byts)%nat) by lia. rewrite Hn in *.
  apply (nth_ext _ _ 0 0); [exact L|]. rewrite L. intros i Hi. apply byte_eq.
  - apply (proj1 (Forall_forall _ _) (bytes_BitsToBytes (BytesToBits byts))), nth_In. lia.
  - apply (proj1 (Forall_forall _ _) Hb), nth_In. lia.
  - intros j Hj. rewrite B by assumption. destruct (Nat.ltb_spec j 8); [|lia]. cbn [andb]. rewrite nth_BytesToBits by lia.
    rewrite (Nat.mul_comm 8 i), Nat.div_add_l, (Nat.div_small j), Nat.add_0_r by lia.
    rewrite (Nat.add_comm _ j), Nat.Div0.mod_add, Nat.mod_small by lia. reflexivity.
Qed.

(** * What is accepted *)

Section Sound.
Context (H : uint256 -> uint256 -> uint256) (HH : forall a b, is_hash a -> is_hash b -> is_hash (H a b)).
Local Abbreviation mroot := (MerkleSpec.mroot null256 H).
Local Abbreviation nodes := (MerkleSpec.nodes null256 H).
Local Abbreviation collision_in := (MerkleSpec.collision_in H).

Context (t : CPartialMerkleTree) (Ht : Forall is_hash (vHash t)).

Lemma use_hash_spec h f c v c' :
  use_hash t h f c = (v, c') -> is_hash v /\
  (bad c' = false -> bad c = false /\ vMatch c' = if (h =? 0)%nat && f then vMatch c ++ [v] else vMatch c).
Proof.
  unfold use_hash. destruct (Nat.leb_spec (length (vHash t)) (nHashUsed c)); intros E; inversion E; subst; cbn [bad vMatch].
  - split; [exact is_hash_null | discriminate].
  - split; [|auto]. apply (proj1 (Forall_forall _ _) Ht), nth_In. assumption.
Qed.

(** The pairs that [TraverseAndExtract] hashes. *)
Fixpoint extracted (h : nat) (pos : Z) (c : cursor) : list (uint256 * uint256) :=
  if (length (vBits t) <=? nBitsUsed c)%nat then []
  else
    match h with
    | O => []
    | S h =>
        if negb (nth (nBitsUsed c) (vBits t) false) then []
        else
          let c := {| nBitsUsed := S (nBitsUsed c); nHashUsed := nHashUsed c; vMatch := vMatch c; bad := bad c |} in
          let '(hleft, c1) := TraverseAndExtract H t h (w32 (pos * 2)) c in
          if w32 (pos * 2 + 1) <? CalcTreeWidth (nTransactions t) h then
            let '(hright, _) := TraverseAndExtract H t h (w32 (pos * 2 + 1)) c1 in
            (hleft, hright) :: extracted h (w32 (pos * 2)) c ++ extracted h (w32 (pos * 2 + 1)) c1
          else (hleft, hleft) :: extracted h (w32 (pos * 2)) c
    end.

(** The children of a node with the root of some leaves have the roots of a part of them;
    [N] has the pairs that are hashed. *)
Lemma children_sound N h l x y :
  (0 < length l <= 2 ^ S h)%nat -> In (x, y) N -> incl (nodes (S h) l) N -> H x y = mroot (S h) l ->
  (exists a b, x = mroot h a /\ y = mroot h b /\ (0 < length a <= 2 ^ h)%nat /\ (0 < length b <= 2 ^ h)%nat /\
    incl a l /\ incl b l /\ incl (nodes h a) N /\ incl (nodes h b) N) \/ collision_in N.
Proof.
  intros Hlen HN Hl E. destruct (top_node null256 H h l Hlen) as (a & b & La & Lb & Ia & Ib & Hin & Na & Nb & Em). rewrite Em in E.
  destruct (combine_inj H (list_eq_dec Z.eq_dec) N (x, y) (mroot h a, mroot h b) HN (Hl _ Hin) E) as [[Ex Ey]|]; [left | now right].
  exists a, b. split; [exact Ex|]. split; [exact Ey|]. repeat split; try assumption; try lia; eauto using incl_tran.
Qed.

(** The matches that are found below a node whose hash is the root of some leaves are
    among these leaves. *)
Lemma extract_sound h : forall pos c v c',
  TraverseAndExtract H t h pos c = (v, c') ->
  is_hash v /\ Forall (fun p => is_hash (fst p) /\ is_hash (snd p)) (extracted h pos c) /\
  (bad c' = false -> bad c = false /\
   exists new, vMatch c' = vMatch c ++ new /\
   forall l N, (0 < length l <= 2 ^ h)%nat -> incl (extracted h pos c) N -> incl (nodes h l) N -> v = mroot h l ->
     Forall (fun x => In x l) new \/ collision_in N).
Proof.
  induction h as [|h IH]; intros pos c v c' E; cbn [TraverseAndExtract extracted] in *;
    (destruct (length (vBits t) <=? nBitsUsed c)%nat; [inversion E; subst; split; [exact is_hash_null | split; [constructor | discriminate]]|]).
  - apply use_hash_spec in E as [Hv E]. split; [assumption|]. split; [constructor|]. intros Hb. destruct (E Hb) as [Hc Em].
    cbn [bad vMatch Nat.eqb andb] in *. split; [assumption|].
    destruct (nth (nBitsUsed c) (vBits t) false); [exists [v] | exists []; rewrite app_nil_r]; (split; [assumption|]); intros l N Hlen _ _ Ev; left; [|constructor].
    constructor; [|constructor]. destruct l as [|x l]; [cbn in Hlen; lia|]. left. now rewrite Ev.
  - destruct (nth (nBitsUsed c) (vBits t) false) eqn:Ef; cbn [negb] in *.
    + destruct (TraverseAndExtract H t h (w32 (pos * 2)) _) as [x c1] eqn:E1. pose proof (IH _ _ _ _ E1) as (Hx & X1 & S1). cbn [bad vMatch] in S1.
      destruct (w32 (pos * 2 + 1) <? CalcTreeWidth (nTransactions t) h).
      * destruct (TraverseAndExtract H t h (w32 (pos * 2 + 1)) c1) as [y c2] eqn:E2. pose proof (IH _ _ _ _ E2) as (Hy & X2 & S2). inversion E; subst. split; [now apply HH|].
        split; [constructor; [now split | now apply Forall_app]|].
        intros Hb. destruct (S2 Hb) as (Hb1 & n2 & M2 & G2). destruct (S1 Hb1) as (Hb0 & n1 & M1 & G1). split; [assumption|].
        exists (n1 ++ n2). rewrite M2, M1, <- app_assoc. split; [reflexivity|]. intros l N Hlen HN Hl Ev.
        pose proof (HN _ (or_introl eq_refl)) as HNt. apply incl_cons_inv in HN as [_ HN]. apply incl_app_inv in HN as [HN1 HN2].
        destruct (children_sound N h l x y Hlen HNt Hl Ev) as [(a & b & Ea & Eb & La & Lb & Ia & Ib & Na & Nb)|]; [|now right].
        destruct (G1 a N La HN1 Na Ea) as [F1|]; [|now right]. destruct (G2 b N Lb HN2 Nb Eb) as [F2|]; [|now right].
        left. apply Forall_app. split; eapply Forall_impl; try eassumption; auto.
      * inversion E; subst. split; [now apply HH|]. split; [constructor; [now split | assumption]|].
        intros Hb. destruct (S1 Hb) as (Hb0 & n1 & M1 & G1). split; [assumption|].
        exists n1. split; [assumption|]. intros l N Hlen HN Hl Ev. pose proof (HN _ (or_introl eq_refl)) as HNt. apply incl_cons_inv in HN as [_ HN].
        destruct (children_sound N h l x x Hlen HNt Hl Ev) as [(a & b & Ea & Eb & La & Lb & Ia & Ib & Na & Nb)|]; [|now right].
        destruct (G1 a N La HN Na Ea) as [F1|]; [|now right]. left. eapply Forall_impl; try eassumption. auto.
    + apply use_hash_spec in E as [Hv E]. split; [assumption|]. split; [constructor|]. intros Hb. destruct (E Hb) as [Hc Em]. cbn [bad vMatch] in *. split; [assumption|].
      exists []. rewrite app_nil_r. split; [now rewrite andb_false_r in Em | left; constructor].
Qed.
End Sound.

(** The pairs that [ExtractMatches] hashes. *)
Definition extracted_pairs (H : uint256 -> uint256 -> uint256) (t : CPartialMerkleTree) : list (uint256 * uint256) :=
  match tree_height 33 (nTransactions t) 0 with
  | None => []
  | Some nHeight => extracted H t nHeight 0 {| nBitsUsed := 0; nHashUsed := 0; vMatch := []; bad := fBad t |}
  end.

(** * Partial Merkle trees of blocks *)

Section Blocks.
Context {sizes : Sizes} {SL : SizesLaws} (buf : list Z) (Hbuf : length buf = 64%nat).

#[local] Instance Sound_vHash : Sound (VectorFormatter sizeof_uint256 uint256F) (vector (blob 32)).
Proof. apply Sound_vector; [apply size_uint256 | typeclasses eauto]. Qed.

(** The bits of a tree that was read are padded. *)
Lemma Sound_tree S (R : Reader S) (L : ReaderLaws S) (s : S) t rest :
  ready s -> word 32 (nTransactions t) -> vector (blob 32) (vHash t) -> chars (BitsToBytes (vBits t)) ->
  content s = ser CPartialMerkleTreeF t ++ rest ->
  exists s', unser CPartialMerkleTreeF s =
    Ok ({| nTransactions := nTransactions t; vBits := BytesToBits (BitsToBytes (vBits t)); vHash := vHash t; fBad := false |}, s') /\
  ready s' /\ content s' = rest.
Proof.
  intros Hs H1 H2 H3 Hc. cbn [ser unser CPartialMerkleTreeF] in *. rewrite <- ?app_assoc in Hc. repeat step. eauto.
Qed.

(** Collisions of the code's function are collisions of the hash. *)
Lemma collision_Hash N :
  Forall (fun p => is_hash (fst p) /\ is_hash (snd p)) N -> MerkleSpec.collision_in (combine_Hash buf) N -> MerkleSpec.collision_in node_hash N.
Proof.
  rewrite Forall_forall. intros HN (p & q & Hp & Hq & Hne & E). exists p, q. unfold MerkleSpec.hash_of in *.
  destruct (HN p Hp), (HN q Hq). rewrite !combine_Hash_spec in E by assumption. auto.
Qed.

Lemma height_small n : (0 < n)%nat -> Z.of_nat n <= 33333 -> (height n <= 16)%nat.
Proof.
  intros Hn Hl. pose proof (height_spec n Hn) as Hh. destruct (Nat.le_gt_cases (height n) 16) as [|Hgt]; [assumption | exfalso].
  assert (2 ^ 17 <= Z.of_nat (2 ^ height n)) by (rewrite Nat2Z.inj_pow; apply Z.pow_le_mono_r; lia). lia.
Qed.


(** The bounds of a block of the size that [ExtractMatches] accepts. *)
Lemma built_tree l m :
  Forall is_hash l -> length m = length l -> (0 < length l)%nat -> Z.of_nat (length l) <= 33333 ->
  exists t, CPartialMerkleTree_of (combine_Hash buf) l m = Some t /\ encodes (combine_Hash buf) l m (height (length l)) 0 (vBits t) (vHash t) /\
  nTransactions t = Z.of_nat (length l) /\ fBad t = false /\ vector (blob 32) (vHash t) /\ chars (BitsToBytes (vBits t)).
Proof.
  intros Hl Hm Hp HN. destruct (constructor_spec (combine_Hash buf) l m Hm Hp ltac:(lia)) as (b & g & E & En). eexists. split; [exact E|].
  cbn [vBits vHash nTransactions fBad]. split; [exact En|]. split; [reflexivity|]. split; [reflexivity|].
  pose proof (height_small (length l) Hp HN). destruct En as (EH & E1 & E2 & E3 & _). rewrite (below_root l) in E1 by (reflexivity || assumption).
  split.
  - split; [apply EH; split; [assumption | now apply combine_Hash_hash] | unfold short, MAX_SIZE; change uint256 with (list Z) in *; lia].
  - split; [apply bytes_BitsToBytes | unfold short, MAX_SIZE]. destruct (BitsToBytes_spec b) as [-> _]. lia.
Qed.

(** A partial Merkle tree shows what it was built for: for the transactions of a block
    and a choice of them, the object that the constructor builds, and the object that is read from its
    serialization, give the Merkle root of the block and the chosen transactions in
    their order. *)
Theorem partial_merkle_tree {S} {R : Reader S} {L : ReaderLaws S} vTxid vMatch :
  Forall is_hash vTxid -> length vMatch = length vTxid -> (0 < length vTxid)%nat -> Z.of_nat (length vTxid) <= MAX_BLOCK_SIZE_CURRENT / 60 ->
  exists t, CPartialMerkleTree_of (combine_Hash buf) vTxid vMatch = Some t /\
  ExtractMatches (combine_Hash buf) t = Some (MerkleSpec.root null256 node_hash vTxid, picked vTxid vMatch) /\
  forall (s : S) rest, ready s -> content s = ser CPartialMerkleTreeF t ++ rest ->
    exists t' s', unser CPartialMerkleTreeF s = Ok (t', s') /\ content s' = rest /\
    ExtractMatches (combine_Hash buf) t' = Some (MerkleSpec.root null256 node_hash vTxid, picked vTxid vMatch).
Proof.
  intros Hl Hm Hp HN. change (MAX_BLOCK_SIZE_CURRENT / 60) with 33333 in HN. destruct (built_tree vTxid vMatch Hl Hm Hp HN) as (t & E & En & Ht & Hbad & Hv & Hc).
  rewrite <- (root_node buf Hbuf) by assumption.
  assert (X : forall pad, ((length (vBits t ++ pad) + 7) / 8 = (length (vBits t) + 7) / 8)%nat ->
    ExtractMatches (combine_Hash buf) {| nTransactions := nTransactions t; vBits := vBits t ++ pad; vHash := vHash t; fBad := false |} =
    Some (MerkleSpec.root null256 (combine_Hash buf) vTxid, picked vTxid vMatch)).
  { intros pad Hpad. rewrite Ht. apply (extract_built (combine_Hash buf) vTxid vMatch (vBits t) (vHash t) pad); assumption. }
  exists t. split; [exact E|]. split.
  - specialize (X [] ltac:(now rewrite app_nil_r)). rewrite app_nil_r, <- Hbad in X. now destruct t.
  - intros s rest Hs Hser. destruct (Sound_tree S R L s t rest Hs) as (s' & Es & _ & Hrest); try assumption; [rewrite Ht; unfold word; lia|].
    eexists _, s'. split; [exact Es|]. split; [exact Hrest|]. rewrite bits_roundtrip. apply X. rewrite length_app, repeat_length. lia.
Qed.

(** C29. What is accepted for the root of a block are transactions of the block: when
    [ExtractMatches], on a tree from anywhere whose height is the height of the block's, returns the
    Merkle root of the block, which is not 0, every match is a transaction of the block, or
    two different pairs, of those that [ExtractMatches] hashes for this tree and those that
    are hashed in the Merkle tree of the block, have the same hash. *)
Theorem partial_merkle_sound t vTxid r matches :
  Forall is_hash (vHash t) -> Forall is_hash vTxid -> (0 < length vTxid)%nat -> word 32 (nTransactions t) ->
  height (Z.to_nat (nTransactions t)) = height (length vTxid) ->
  ExtractMatches (combine_Hash buf) t = Some (r, matches) -> r = MerkleSpec.root null256 node_hash vTxid -> r <> UINT256_ZERO ->
  Forall (fun x => In x vTxid) matches \/
  MerkleSpec.collision_in node_hash (extracted_pairs (combine_Hash buf) t ++ MerkleSpec.tree_nodes null256 node_hash vTxid).
Proof.
  intros Ht Hv Hp Hw Hh E Er Hr. unfold ExtractMatches in E. set (n := nTransactions t) in *.
  destruct (Z.eqb_spec n 0); [injection E as <- _; contradiction|].
  destruct (Z.gtb_spec n (MAX_BLOCK_SIZE_CURRENT / 60)) as [|Hmax]; [injection E as <- _; contradiction|]. change (MAX_BLOCK_SIZE_CURRENT / 60) with 33333 in Hmax.
  destruct (Z.of_nat (length (vHash t)) >? n); [injection E as <- _; contradiction|]. destruct (length (vBits t) <? length (vHash t))%nat; [injection E as <- _; contradiction|].
  assert (En : tree_height 33 n 0 = Some (height (length vTxid))).
  { rewrite <- Hh. unfold word in Hw. rewrite <- (Z2Nat.id n) at 1 by lia. pose proof (height_small (Z.to_nat n) ltac:(lia) ltac:(lia)). apply tree_height_spec; lia. }
  unfold extracted_pairs. change (nTransactions t) with n. rewrite En in *. destruct (TraverseAndExtract _ t _ 0 _) as [v c] eqn:Ex.
  destruct (extract_sound (combine_Hash buf) (combine_Hash_hash buf Hbuf) t Ht _ _ _ _ _ Ex) as (_ & HN & Hs).
  destruct (bad c); [injection E as <- _; contradiction|]. destruct (Hs eq_refl) as (_ & new & Em & Hnew). cbn [vMatch app] in Em.
  destruct (negb _); [injection E as <- _; contradiction|]. destruct (negb _); [injection E as <- _; contradiction|]. injection E as E1 E2.
  unfold MerkleSpec.tree_nodes. rewrite <- (nodes_node buf Hbuf) by assumption.
  destruct (Hnew vTxid (extracted (combine_Hash buf) t (height (length vTxid)) 0 {| nBitsUsed := 0; nHashUsed := 0; vMatch := []; bad := fBad t |} ++
    MerkleSpec.nodes null256 (combine_Hash buf) (height (length vTxid)) vTxid)) as [G|G];
    [split; [assumption | now apply height_spec] | apply incl_appl, incl_refl | apply incl_appr, incl_refl | | left; congruence |
     right; apply collision_Hash; [|exact G]; apply Forall_app; split; [exact HN | apply (nodes_P null256 _ is_hash is_hash_null (combine_Hash_hash buf Hbuf)); exact Hv]].
  rewrite E1, Er, <- (root_node buf Hbuf) by assumption. apply root_mroot. intros ->. cbn in Hp. lia.
Qed.

(** The size of a partial Merkle tree: as many hashes as nodes of the traversed tree are
    leaves, at most one for every transaction, and at most two bits for every hash, and one
    more for every level. *)
Theorem partial_merkle_size vTxid vMatch :
  Forall is_hash vTxid -> length vMatch = length vTxid -> (0 < length vTxid)%nat -> Z.of_nat (length vTxid) <= MAX_BLOCK_SIZE_CURRENT / 60 ->
  exists t, CPartialMerkleTree_of (combine_Hash buf) vTxid vMatch = Some t /\
  (0 < length (vHash t) <= length vTxid)%nat /\
  (length (vHash t) <= length (vBits t) <= 2 * length (vHash t) - 1 + height (length vTxid))%nat /\
  (length vTxid = 2 ^ height (length vTxid) -> length (vBits t) <= 2 * length (vHash t) - 1)%nat.
Proof.
  intros Hl Hm Hp HN. change (MAX_BLOCK_SIZE_CURRENT / 60) with 33333 in HN. destruct (built_tree vTxid vMatch Hl Hm Hp HN) as (t & E & En & _).
  exists t. split; [exact E|]. destruct En as (_ & E1 & E2 & E3 & E4 & _). rewrite (below_root vTxid) in E1 by (reflexivity || assumption).
  split; [lia|]. split; [lia|]. intros Ep. rewrite Nat.add_0_l, Nat.mul_1_l in E4. lia.
Qed.
End Blocks.

(** ** Witnesses *)

Lemma small_leaves n : Forall is_hash (firstn n (map leaf [1; 2; 3; 4; 5; 6; 5; 6])).
Proof. apply Forall_take, leaves_hash, small_bytes. Qed.

Lemma partial_merkle_tree_witness :
  exists t, CPartialMerkleTree_of (combine_Hash (repeat 0 64)) (map leaf [1; 2; 3]) [false; false; true] = Some t /\
  ExtractMatches (combine_Hash (repeat 0 64)) t = Some (MerkleSpec.root null256 node_hash (map leaf [1; 2; 3]), [leaf 3]) /\
  forall (s : CDataStream.stream) rest, valid s -> CDataStream.str s = ser (CPartialMerkleTreeF (sizes := lp64)) t ++ rest ->
    exists t' s', unser (CPartialMerkleTreeF (sizes := lp64)) s = Ok (t', s') /\ CDataStream.str s' = rest /\
    ExtractMatches (combine_Hash (repeat 0 64)) t' = Some (MerkleSpec.root null256 node_hash (map leaf [1; 2; 3]), [leaf 3]).
Proof.
  refine (partial_merkle_tree (sizes := lp64) (SL := lp64_laws) (L := stream_laws) (repeat 0 64) eq_refl (map leaf [1; 2; 3]) [false; false; true] _ eq_refl _ _).
  - exact (small_leaves 3).
  - cbn. lia.
  - vm_compute. congruence.
Defined.

(** A tree of 3 transactions in which the third is chosen. *)
Definition tree_3 : CPartialMerkleTree :=
  {| nTransactions := 3; vBits := [true; false; true; true]; vHash := [node_hash (leaf 1) (leaf 2); leaf 3]; fBad := false |}.

Lemma partial_merkle_sound_witness :
  Forall (fun x => In x (map leaf [1; 2; 3])) [leaf 3] \/
  MerkleSpec.collision_in node_hash
    (extracted_pairs (combine_Hash (repeat 0 64)) tree_3 ++ MerkleSpec.tree_nodes null256 node_hash (map leaf [1; 2; 3])).
Proof.
  refine (partial_merkle_sound (repeat 0 64) eq_refl tree_3 (map leaf [1; 2; 3]) (MerkleSpec.root null256 node_hash (map leaf [1; 2; 3])) [leaf 3] _ _ _ _ _ _ _ _);
    [| exact (small_leaves 3) | cbn; lia | split; reflexivity || (cbn; lia) | reflexivity | vm_compute; reflexivity | reflexivity | vm_compute; discriminate].
  constructor; [apply is_hash_node|]. constructor; [|constructor]. exact (Forall_inv (Forall_inv_tail (Forall_inv_tail (small_leaves 3)))).
Defined.

Lemma partial_merkle_size_witness :
  exists t, CPartialMerkleTree_of (combine_Hash (repeat 0 64)) (map leaf [1; 2; 3]) [false; false; true] = Some t /\
  (0 < length (vHash t) <= 3)%nat /\ (length (vHash t) <= length (vBits t) <= 2 * length (vHash t) - 1 + 2)%nat /\
  (3%nat = 2 ^ 2 -> length (vBits t) <= 2 * length (vHash t) - 1)%nat.
Proof.
  refine (partial_merkle_size (repeat 0 64) eq_refl (map leaf [1; 2; 3]) [false; false; true] _ eq_refl _ _);
    [exact (small_leaves 3) | cbn; lia | vm_compute; congruence].
Defined.

(** For this tree the two pairs are hashed whose hashes the traversal computes. *)
Example pairs_of_tree_3 :
  extracted_pairs (combine_Hash (repeat 0 64)) tree_3 = [(node_hash (leaf 1) (leaf 2), combine_Hash (repeat 0 64) (leaf 3) (leaf 3)); (leaf 3, leaf 3)].
Proof. vm_compute. reflexivity. Qed.

(** merkleblock.h says that there are at most 2 N - 1 bits for N hashes: here are 4 for 2. *)
Example more_bits : CPartialMerkleTree_of (combine_Hash (repeat 0 64)) (map leaf [1; 2; 3]) [false; false; true] = Some tree_3.
Proof. vm_compute. reflexivity. Qed.

(** A tree of 8 transactions, in which the last two are copies, is accepted for the root of a
    block of 6, and its last four transactions are all matches. *)
Example duplicates_accepted :
  let H := combine_Hash (repeat 0 64) in
  match CPartialMerkleTree_of H (map leaf [1; 2; 3; 4; 5; 6; 5; 6]) [false; false; false; false; true; true; true; true] with
  | Some t => ExtractMatches H t = Some (MerkleSpec.root null256 node_hash (map leaf [1; 2; 3; 4; 5; 6]), map leaf [5; 6; 5; 6])
  | None => False
  end.
Proof. vm_compute. reflexivity. Qed.
