(* ===== verification/Coins.v ===== *)
(** coins.h and coins.cpp: the views of the set of unspent outputs. The interface
    [CCoinsView] is the class [View]; [CCoinsViewCache] is a view over any other one, with
    its maps of entries and their flags. The counters of used memory are left out. *)
From S2P Require Import Prelude CryptoCommon Streams Serialize Uint256 Merkle Script Transactions.
From stdpp Require Import base gmap list countable.
#[local] Open Scope Z_scope.
#[local] Open Scope word_scope.
Import CryptoCommon Uint256 Merkle.Merkle Transactions.Tx.

Module Coins.

(** What [operator==] compares and the hashers of the maps read: a [COutPoint] as a key. *)
Definition outpoint : Type := list Z * Z.
Definition key (o : COutPoint) : outpoint := (hash o, n o).

(** A [uint256], as a key of a map. *)
Abbreviation u256 := (list Z).

(** The assertions and the [std::logic_error]s of the code, and an access past the end of a
    vector. *)
Inductive outcome (A : Type) :=
| Done (a : A)
| AssertionFailed
| ReplacesNonPruned
| FreshMisapplied
| OutOfBounds.
Arguments Done {A} a.
Arguments AssertionFailed {A}.
Arguments ReplacesNonPruned {A}.
Arguments FreshMisapplied {A}.
Arguments OutOfBounds {A}.

Definition bind {A B} (r : outcome A) (k : A -> outcome B) : outcome B :=
  match r with
  | Done a => k a
  | AssertionFailed => AssertionFailed
  | ReplacesNonPruned => ReplacesNonPruned
  | FreshMisapplied => FreshMisapplied
  | OutOfBounds => OutOfBounds
  end.
Notation "'let!' ( x , y ) := r 'in' k" := (bind r (fun p => let '(x, y) := p in k))
  (at level 10, x name, y name, r at level 200, k at level 200).
Notation "'let!' x := r 'in' k" := (bind r (fun x => k)) (at level 10, x name, r at level 200, k at level 200).

Fixpoint fold {A B} (f : A -> B -> outcome B) (l : list A) (b : B) : outcome B :=
  match l with
  | [] => Done b
  | a :: l => let! b := f a b in fold f l b
  end.

(** * Coins and entries *)

Record Coin := { fCoinBase : bool; fCoinStake : bool; out : CTxOut; nHeight : Z }.

(** [Coin()], and a coin after [Clear]. *)
Definition Coin_empty : Coin := {| fCoinBase := false; fCoinStake := false; out := CTxOut_null; nHeight := 0 |}.
Definition IsSpent (c : Coin) : bool := CTxOut_IsNull (out c).

Export Script.Script(OP_RETURN, MAX_SCRIPT_SIZE, IsUnspendable).

Definition DIRTY : Z := Z.shiftl 1 0.
Definition FRESH : Z := Z.shiftl 1 1.
Definition has (flag flags : Z) : bool := negb (flags &: flag =? 0).

Record CCoinsCacheEntry := { coin : Coin; flags : Z }.
Definition CCoinsCacheEntry_empty : CCoinsCacheEntry := {| coin := Coin_empty; flags := 0 |}.

(** The class of trees of the template parameter [Tree]. *)
Class Trees (Tree : Type) := {
  Tree_new : Tree;
  root : Tree -> u256;
  empty_root : u256
}.

Record CAnchorsSaplingCacheEntry (Tree : Type) := { anchor_entered : bool; tree : Tree; anchor_flags : Z }.
Arguments anchor_entered {Tree}.
Arguments tree {Tree}.
Arguments anchor_flags {Tree}.
Record CNullifiersCacheEntry := { entered : bool; nullifier_flags : Z }.

(** * The interface *)

(** [const] methods change the caches, so that every one returns the new view. The three maps
    of [BatchWrite] are given by the entries that its loops visit. *)
Class View (Tree V : Type) := {
  GetCoin : outpoint -> V -> option Coin * V;
  GetBestBlock : V -> u256 * V;
  GetSaplingAnchorAt : u256 -> V -> option Tree * V;
  GetNullifier : u256 -> V -> bool * V;
  GetBestAnchor : V -> u256 * V;
  BatchWrite : list (outpoint * CCoinsCacheEntry) -> u256 -> u256 ->
    list (u256 * CAnchorsSaplingCacheEntry Tree) -> list (u256 * CNullifiersCacheEntry) -> V -> outcome (bool * V)
}.

(** The order in which the loops visit an [unordered_map]. *)
Class Visit := {
  visit {K A} `{Countable K} : gmap K A -> list (K * A);
  visit_all {K A} `{Countable K} (m : gmap K A) : visit m ≡ₚ map_to_list m
}.

(** * CCoinsViewCache *)

Record CCoinsViewCache (Tree V : Type) := {
  base : V;
  hashBlock : u256;
  cacheCoins : gmap outpoint CCoinsCacheEntry;
  hashSaplingAnchor : u256;
  cacheSaplingAnchors : gmap u256 (CAnchorsSaplingCacheEntry Tree);
  cacheSaplingNullifiers : gmap u256 CNullifiersCacheEntry
}.
Arguments base {Tree V}.
Arguments hashBlock {Tree V}.
Arguments cacheCoins {Tree V}.
Arguments hashSaplingAnchor {Tree V}.
Arguments cacheSaplingAnchors {Tree V}.
Arguments cacheSaplingNullifiers {Tree V}.

Section Cache.
Context {Tree V : Type} {T : Trees Tree} {W : View Tree V}.
Abbreviation cache := (CCoinsViewCache Tree V).

(** The constructor. *)
Definition CCoinsViewCache_of (baseIn : V) : cache :=
  {| base := baseIn; hashBlock := null256; cacheCoins := ∅; hashSaplingAnchor := null256;
     cacheSaplingAnchors := ∅; cacheSaplingNullifiers := ∅ |}.

(** Assignments to one field. *)
Definition set_base (b : V) (c : cache) : cache :=
  {| base := b; hashBlock := hashBlock c; cacheCoins := cacheCoins c; hashSaplingAnchor := hashSaplingAnchor c;
     cacheSaplingAnchors := cacheSaplingAnchors c; cacheSaplingNullifiers := cacheSaplingNullifiers c |}.
Definition set_coins (m : gmap outpoint CCoinsCacheEntry) (c : cache) : cache :=
  {| base := base c; hashBlock := hashBlock c; cacheCoins := m; hashSaplingAnchor := hashSaplingAnchor c;
     cacheSaplingAnchors := cacheSaplingAnchors c; cacheSaplingNullifiers := cacheSaplingNullifiers c |}.
Definition set_anchors (m : gmap u256 (CAnchorsSaplingCacheEntry Tree)) (c : cache) : cache :=
  {| base := base c; hashBlock := hashBlock c; cacheCoins := cacheCoins c; hashSaplingAnchor := hashSaplingAnchor c;
     cacheSaplingAnchors := m; cacheSaplingNullifiers := cacheSaplingNullifiers c |}.
Definition set_nullifiers (m : gmap u256 CNullifiersCacheEntry) (c : cache) : cache :=
  {| base := base c; hashBlock := hashBlock c; cacheCoins := cacheCoins c; hashSaplingAnchor := hashSaplingAnchor c;
     cacheSaplingAnchors := cacheSaplingAnchors c; cacheSaplingNullifiers := m |}.
Definition set_best_anchor (h : u256) (c : cache) : cache :=
  {| base := base c; hashBlock := hashBlock c; cacheCoins := cacheCoins c; hashSaplingAnchor := h;
     cacheSaplingAnchors := cacheSaplingAnchors c; cacheSaplingNullifiers := cacheSaplingNullifiers c |}.
Definition SetBestBlock (hashBlockIn : u256) (c : cache) : cache :=
  {| base := base c; hashBlock := hashBlockIn; cacheCoins := cacheCoins c; hashSaplingAnchor := hashSaplingAnchor c;
     cacheSaplingAnchors := cacheSaplingAnchors c; cacheSaplingNullifiers := cacheSaplingNullifiers c |}.

(** ** Coins *)

Definition FetchCoin (o : outpoint) (c : cache) : option CCoinsCacheEntry * cache :=
  match cacheCoins c !! o with
  | Some it => (Some it, c)
  | None =>
      let '(found, b) := GetCoin o (base c) in
      let c := set_base b c in
      match found with
      | None => (None, c)
      | Some tmp =>
          let ret := {| coin := tmp; flags := if IsSpent tmp then FRESH else 0 |} in
          (Some ret, set_coins (<[o := ret]> (cacheCoins c)) c)
      end
  end.

Definition cache_GetCoin (o : outpoint) (c : cache) : option Coin * cache :=
  let '(it, c) := FetchCoin o c in
  match it with
  | Some it => (Some (coin it), c)
  | None => (None, c)
  end.

Definition AddCoin (o : outpoint) (coinIn : Coin) (possible_overwrite : bool) (c : cache) : outcome cache :=
  if IsSpent coinIn then AssertionFailed
  else if IsUnspendable (scriptPubKey (out coinIn)) then Done c
  else if CTxOut_IsZerocoinMint (out coinIn) then Done c
  else
    let it := default CCoinsCacheEntry_empty (cacheCoins c !! o) in
    if negb possible_overwrite && negb (IsSpent (coin it)) then ReplacesNonPruned
    else
      let fresh := negb possible_overwrite && negb (has DIRTY (flags it)) in
      let it := {| coin := coinIn; flags := flags it |: (DIRTY |: (if fresh then FRESH else 0)) |} in
      Done (set_coins (<[o := it]> (cacheCoins c)) c).

(** What is moved to [moveout], and the cache. *)
Definition SpendCoin (o : outpoint) (c : cache) : option Coin * cache :=
  let '(it, c) := FetchCoin o c in
  match it with
  | None => (None, c)
  | Some it =>
      (Some (coin it),
       if has FRESH (flags it) then set_coins (delete o (cacheCoins c)) c
       else set_coins (<[o := {| coin := Coin_empty; flags := flags it |: DIRTY |}]> (cacheCoins c)) c)
  end.

Definition AccessCoin (o : outpoint) (c : cache) : Coin * cache :=
  let '(it, c) := FetchCoin o c in
  match it with
  | None => (Coin_empty, c)
  | Some it => (coin it, c)
  end.

Definition HaveCoin (o : outpoint) (c : cache) : bool * cache :=
  let '(it, c) := FetchCoin o c in
  match it with
  | None => (false, c)
  | Some it => (negb (IsSpent (coin it)), c)
  end.

Definition HaveCoinInCache (o : outpoint) (c : cache) : bool :=
  match cacheCoins c !! o with Some _ => true | None => false end.

Definition Uncache (o : outpoint) (c : cache) : cache :=
  match cacheCoins c !! o with
  | Some it => if flags it =? 0 then set_coins (delete o (cacheCoins c)) c else c
  | None => c
  end.

Definition GetCacheSize (c : cache) : Z := w32 (Z.of_nat (size (cacheCoins c))).

Definition cache_GetBestBlock (c : cache) : u256 * cache :=
  if Uint256.IsNull 32 (hashBlock c) then
    let '(h, b) := GetBestBlock (base c) in
    let c := SetBestBlock h (set_base b c) in (hashBlock c, c)
  else (hashBlock c, c).

(** ** Shielded data *)

Definition cache_GetSaplingAnchorAt (rt : u256) (c : cache) : option Tree * cache :=
  match cacheSaplingAnchors c !! rt with
  | Some it => (if anchor_entered it then Some (tree it) else None, c)
  | None =>
      let '(found, b) := GetSaplingAnchorAt rt (base c) in
      let c := set_base b c in
      match found with
      | None => (None, c)
      | Some t =>
          let ret := {| anchor_entered := true; tree := t; anchor_flags := 0 |} in
          (Some t, set_anchors (<[rt := ret]> (cacheSaplingAnchors c)) c)
      end
  end.

Definition cache_GetNullifier (nullifier : u256) (c : cache) : bool * cache :=
  match cacheSaplingNullifiers c !! nullifier with
  | Some it => (entered it, c)
  | None =>
      let '(tmp, b) := GetNullifier nullifier (base c) in
      let c := set_base b c in
      (tmp, set_nullifiers (<[nullifier := {| entered := tmp; nullifier_flags := 0 |}]> (cacheSaplingNullifiers c)) c)
  end.

Definition cache_GetBestAnchor (c : cache) : u256 * cache :=
  if Uint256.IsNull 32 (hashSaplingAnchor c) then
    let '(h, b) := GetBestAnchor (base c) in
    let c := set_best_anchor h (set_base b c) in (hashSaplingAnchor c, c)
  else (hashSaplingAnchor c, c).

Definition PushAnchor (t : Tree) (c : cache) : cache :=
  let newrt := root t in
  let '(currentRoot, c) := cache_GetBestAnchor c in
  if negb (op_eq 32 currentRoot newrt) then
    let ret := {| anchor_entered := true; tree := t; anchor_flags := DIRTY |} in
    set_best_anchor newrt (set_anchors (<[newrt := ret]> (cacheSaplingAnchors c)) c)
  else c.

(** [BringBestAnchorIntoCache] is an assertion; after it the entry is in the map. *)
Definition PopAnchor (newrt : u256) (c : cache) : outcome cache :=
  let '(currentRoot, c) := cache_GetBestAnchor c in
  if negb (op_eq 32 currentRoot newrt) then
    let '(found, c) := cache_GetSaplingAnchorAt currentRoot c in
    match found with
    | None => AssertionFailed
    | Some _ =>
        let it := default {| anchor_entered := false; tree := Tree_new; anchor_flags := 0 |} (cacheSaplingAnchors c !! currentRoot) in
        let it := {| anchor_entered := false; tree := tree it; anchor_flags := DIRTY |} in
        Done (set_best_anchor newrt (set_anchors (<[currentRoot := it]> (cacheSaplingAnchors c)) c))
    end
  else Done c.

Definition SetNullifier (spent : bool) (m : gmap u256 CNullifiersCacheEntry) (d : SpendDescription) : gmap u256 CNullifiersCacheEntry :=
  let it := default {| entered := false; nullifier_flags := 0 |} (m !! nullifier d) in
  <[nullifier d := {| entered := spent; nullifier_flags := nullifier_flags it |: DIRTY |}]> m.

Definition SetNullifiers (tx : CTransaction) (spent : bool) (c : cache) : cache :=
  match sapData tx with
  | Some d => set_nullifiers (fold_left (SetNullifier spent) (vShieldedSpend d) (cacheSaplingNullifiers c)) c
  | None => c
  end.

(** ** Writing *)

(** The loop body of [BatchWrite] for the entry [it] of the child. *)
Definition write_coin (e : outpoint * CCoinsCacheEntry) (m : gmap outpoint CCoinsCacheEntry) : outcome (gmap outpoint CCoinsCacheEntry) :=
  let '(o, it) := e in
  if negb (has DIRTY (flags it)) then Done m
  else
    match m !! o with
    | None =>
        if negb (has FRESH (flags it) && IsSpent (coin it)) then
          Done (<[o := {| coin := coin it; flags := if has FRESH (flags it) then DIRTY |: FRESH else DIRTY |}]> m)
        else Done m
    | Some itUs =>
        if has FRESH (flags it) && negb (IsSpent (coin itUs)) then FreshMisapplied
        else if has FRESH (flags itUs) && IsSpent (coin it) then Done (delete o m)
        else Done (<[o := {| coin := coin it; flags := flags itUs |: DIRTY |}]> m)
    end.

Definition write_anchor (m : gmap u256 (CAnchorsSaplingCacheEntry Tree)) (e : u256 * CAnchorsSaplingCacheEntry Tree)
  : gmap u256 (CAnchorsSaplingCacheEntry Tree) :=
  let '(rt, child_it) := e in
  if has DIRTY (anchor_flags child_it) then
    match m !! rt with
    | None => <[rt := {| anchor_entered := anchor_entered child_it; tree := tree child_it; anchor_flags := DIRTY |}]> m
    | Some parent_it =>
        if negb (Bool.eqb (anchor_entered parent_it) (anchor_entered child_it)) then
          <[rt := {| anchor_entered := anchor_entered child_it; tree := tree parent_it; anchor_flags := anchor_flags parent_it |: DIRTY |}]> m
        else m
    end
  else m.

Definition write_nullifier (m : gmap u256 CNullifiersCacheEntry) (e : u256 * CNullifiersCacheEntry) : gmap u256 CNullifiersCacheEntry :=
  let '(nf, child_it) := e in
  if has DIRTY (nullifier_flags child_it) then
    match m !! nf with
    | None => <[nf := {| entered := entered child_it; nullifier_flags := DIRTY |}]> m
    | Some parent_it =>
        if negb (Bool.eqb (entered parent_it) (entered child_it)) then
          <[nf := {| entered := entered child_it; nullifier_flags := nullifier_flags parent_it |: DIRTY |}]> m
        else m
    end
  else m.

Definition cache_BatchWrite (mapCoins : list (outpoint * CCoinsCacheEntry)) (hashBlockIn hashSaplingAnchorIn : u256)
    (mapSaplingAnchors : list (u256 * CAnchorsSaplingCacheEntry Tree)) (mapSaplingNullifiers : list (u256 * CNullifiersCacheEntry))
    (c : cache) : outcome (bool * cache) :=
  let! m := fold write_coin mapCoins (cacheCoins c) in
  Done (true,
    {| base := base c; hashBlock := hashBlockIn; cacheCoins := m; hashSaplingAnchor := hashSaplingAnchorIn;
       cacheSaplingAnchors := fold_left write_anchor mapSaplingAnchors (cacheSaplingAnchors c);
       cacheSaplingNullifiers := fold_left write_nullifier mapSaplingNullifiers (cacheSaplingNullifiers c) |}).

#[export] Instance cache_view : View Tree cache := {|
  GetCoin := cache_GetCoin;
  GetBestBlock := cache_GetBestBlock;
  GetSaplingAnchorAt := cache_GetSaplingAnchorAt;
  GetNullifier := cache_GetNullifier;
  GetBestAnchor := cache_GetBestAnchor;
  BatchWrite := cache_BatchWrite
|}.

Definition Flush {O : Visit} (c : cache) : outcome (bool * cache) :=
  let! r := BatchWrite (visit (cacheCoins c)) (hashBlock c) (hashSaplingAnchor c)
              (visit (cacheSaplingAnchors c)) (visit (cacheSaplingNullifiers c)) (base c) in
  let '(fOk, b) := r in
  Done (fOk, {| base := b; hashBlock := hashBlock c; cacheCoins := ∅; hashSaplingAnchor := hashSaplingAnchor c;
                cacheSaplingAnchors := ∅; cacheSaplingNullifiers := ∅ |}).

(** ** Queries about transactions *)

Fixpoint have_all (vin : list CTxIn) (c : cache) : bool * cache :=
  match vin with
  | [] => (true, c)
  | txin :: vin =>
      let '(found, c) := HaveCoin (key (prevout txin)) c in
      if negb found then (false, c) else have_all vin c
  end.
Definition HaveInputs (tx : CTransaction) (c : cache) : bool * cache :=
  if negb (IsCoinBase tx) && negb (HasZerocoinSpendInputs tx) then have_all (vin tx) c else (true, c).

Fixpoint have_spends (spends : list SpendDescription) (c : cache) : bool * cache :=
  match spends with
  | [] => (true, c)
  | d :: spends =>
      let '(used, c) := cache_GetNullifier (nullifier d) c in
      if used : bool then (false, c)
      else
        let '(found, c) := cache_GetSaplingAnchorAt (anchor d) c in
        match found with
        | None => (false, c)
        | Some _ => have_spends spends c
        end
  end.
Definition HaveShieldedRequirements {sizes : Sizes} (tx : CTransaction) (c : cache) : bool * cache :=
  if IsShieldedTx tx then
    match sapData tx with
    | Some d => have_spends (vShieldedSpend d) c
    | None => (true, c)
    end
  else (true, c).

Definition GetCoinDepthAtHeight (o : outpoint) (height : Z) (c : cache) : Z * cache :=
  let '(coin, c) := AccessCoin o c in
  ((if negb (IsSpent coin) then signed 32 (w32 (height - Coins.nHeight coin + 1)) else -1), c).
End Cache.

End Coins.
