(* ===== verification/CoinsProofs.v ===== *)
(** The views of coins.cpp against an abstract set of unspent outputs: what a view promises
    to readers ([ViewReads]) and to writers ([ViewLaws]), that a cache over a view that keeps the promise keeps it too, and what the
    operations of a cache do to the set. *)
From S2P Require Import Prelude CryptoCommon Streams Serialize Uint256 Merkle Transactions Coins.
From stdpp Require Import base gmap list countable functions.
#[local] Open Scope Z_scope.
#[local] Open Scope word_scope.
Import CryptoCommon Uint256 Merkle.Merkle Transactions.Tx Coins.Coins.

(** * The abstract state *)

Record snapshot := {
  unspent : outpoint -> option Coin;
  anchored : list Z -> bool;
  nullified : list Z -> bool;
  best_block : list Z;
  best_anchor : list Z
}.

#[export] Instance snapshot_equiv : Equiv snapshot := fun s t =>
  (forall o, unspent s o = unspent t o) /\ (forall rt, anchored s rt = anchored t rt) /\
  (forall nf, nullified s nf = nullified t nf) /\ best_block s = best_block t /\ best_anchor s = best_anchor t.

#[export] Instance snapshot_equivalence : Equivalence (≡@{snapshot}).
Proof.
  split.
  - intros s. unfold equiv, snapshot_equiv. auto.
  - intros s t (H1 & H2 & H3 & H4 & H5). unfold equiv, snapshot_equiv. auto.
  - intros s t u (H1 & H2 & H3 & H4 & H5) (G1 & G2 & G3 & G4 & G5). unfold equiv, snapshot_equiv.
    repeat split; intros; etransitivity; eauto.
Qed.

(** A coin that is marked as spent is not there. *)
Definition live (c : option Coin) : option Coin :=
  match c with
  | Some c => if IsSpent c then None else Some c
  | None => None
  end.

(** The changes of the operations. *)
Definition put (o : outpoint) (u : option Coin) (s : snapshot) : snapshot :=
  {| unspent := <[o := u]> (unspent s); anchored := anchored s; nullified := nullified s;
     best_block := best_block s; best_anchor := best_anchor s |}.
Definition kept (c : Coin) : bool := negb (IsUnspendable (scriptPubKey (out c))) && negb (CTxOut_IsZerocoinMint (out c)).
Definition with_block (h : list Z) (s : snapshot) : snapshot :=
  {| unspent := unspent s; anchored := anchored s; nullified := nullified s; best_block := h; best_anchor := best_anchor s |}.
Definition with_anchor (h : list Z) (f : (list Z -> bool) -> list Z -> bool) (s : snapshot) : snapshot :=
  {| unspent := unspent s; anchored := f (anchored s); nullified := nullified s; best_block := best_block s; best_anchor := h |}.
Definition with_nullifiers (f : (list Z -> bool) -> list Z -> bool) (s : snapshot) : snapshot :=
  {| unspent := unspent s; anchored := anchored s; nullified := f (nullified s); best_block := best_block s; best_anchor := best_anchor s |}.

#[export] Instance put_proper o u : Proper ((≡) ==> (≡)) (put o u).
Proof.
  intros s t (H1 & H2 & H3 & H4 & H5). repeat split; try assumption. intros o'. cbn [put unspent].
  destruct (decide (o = o')) as [->|Hne]; [now rewrite !fn_lookup_insert | now rewrite !fn_lookup_insert_ne].
Qed.

#[export] Instance with_block_proper h : Proper ((≡) ==> (≡)) (with_block h).
Proof. intros s t (H1 & H2 & H3 & H4 & H5). repeat split; assumption. Qed.

#[export] Instance with_anchor_proper h f :
  (forall g g', (forall x, g x = g' x) -> forall x, f g x = f g' x) -> Proper ((≡) ==> (≡)) (with_anchor h f).
Proof. intros Hf s t (H1 & H2 & H3 & H4 & H5). repeat split; try assumption. intros rt. now apply Hf. Qed.

#[export] Instance with_nullifiers_proper f :
  (forall g g', (forall x, g x = g' x) -> forall x, f g x = f g' x) -> Proper ((≡) ==> (≡)) (with_nullifiers f).
Proof. intros Hf s t (H1 & H2 & H3 & H4 & H5). repeat split; try assumption. intros nf. now apply Hf. Qed.

(** * Flags *)

Lemma has_lor b f g : has b (f |: g) = has b f || has b g.
Proof.
  unfold has. rewrite Z.land_lor_distr_l. destruct (Z.eqb_spec (f &: b) 0) as [->|Hf]; cbn [negb orb].
  - now rewrite Z.lor_0_l.
  - destruct (Z.eqb_spec (Z.lor (f &: b) (g &: b)) 0) as [H|H]; [|reflexivity]. now apply Z.lor_eq_0_iff in H as [? _].
Qed.

Lemma has_0 b : has b 0 = false.
Proof. unfold has. now rewrite Z.land_0_l. Qed.
Lemma has_DIRTY : has DIRTY DIRTY = true.
Proof. reflexivity. Qed.
Lemma has_FRESH : has FRESH FRESH = true.
Proof. reflexivity. Qed.
Lemma has_DIRTY_FRESH : has DIRTY FRESH = false.
Proof. reflexivity. Qed.
Lemma has_FRESH_DIRTY : has FRESH DIRTY = false.
Proof. reflexivity. Qed.

Create Rewrite HintDb flags.
#[export] Hint Rewrite has_lor has_0 has_DIRTY has_FRESH has_DIRTY_FRESH has_FRESH_DIRTY orb_true_r orb_false_r : flags.

Lemma forallb_same {A} (f g : A -> bool) l : (forall x, f x = g x) -> forallb f l = forallb g l.
Proof. intros H. induction l as [|x l IH]; [reflexivity|]. cbn. now rewrite H, IH. Qed.

(** * The promise of a view *)

Class TreesLaws (Tree : Type) {T : Trees Tree} : Prop := {
  length_root t : length (root t) = 32%nat;
  root_new : root Tree_new = empty_root
}.

(** The entries that a child may write over a view in the state [s]. *)
Definition writable {Tree : Type} {T : Trees Tree} (s : snapshot) (mc : gmap outpoint CCoinsCacheEntry)
    (ma : gmap (list Z) (CAnchorsSaplingCacheEntry Tree)) : Prop :=
  (forall o e, mc !! o = Some e -> has DIRTY (flags e) = true -> has FRESH (flags e) = true -> unspent s o = None) /\
  (forall rt e, ma !! rt = Some e -> has DIRTY (anchor_flags e) = true ->
     root (tree e) = rt /\ (anchor_entered e = false -> rt <> empty_root)).

(** One entry over the value of the parent. *)
Definition patch_coin (e : option CCoinsCacheEntry) (u : option Coin) : option Coin :=
  match e with
  | Some e => if has DIRTY (flags e) then live (Some (coin e)) else u
  | None => u
  end.
Definition patch_anchor {Tree : Type} (e : option (CAnchorsSaplingCacheEntry Tree)) (b : bool) : bool :=
  match e with
  | Some e => if has DIRTY (anchor_flags e) then anchor_entered e else b
  | None => b
  end.
Definition patch_nullifier (e : option CNullifiersCacheEntry) (b : bool) : bool :=
  match e with
  | Some e => if has DIRTY (nullifier_flags e) then entered e else b
  | None => b
  end.
Definition written {Tree : Type} (mc : gmap outpoint CCoinsCacheEntry) (hb ha : list Z) (ma : gmap (list Z) (CAnchorsSaplingCacheEntry Tree))
    (mn : gmap (list Z) CNullifiersCacheEntry) (s : snapshot) : snapshot :=
  {| unspent o := patch_coin (mc !! o) (unspent s o);
     anchored rt := patch_anchor (ma !! rt) (anchored s rt);
     nullified nf := patch_nullifier (mn !! nf) (nullified s nf);
     best_block := hb; best_anchor := ha |}.

(** What a view promises to those that read from it. *)
Class ViewReads (Tree V : Type) {T : Trees Tree} {W : View Tree V} := {
  ok : V -> Prop;
  state : V -> snapshot;
  best_anchor_length v : ok v -> length (best_anchor (state v)) = 32%nat;
  GetCoin_law v o : ok v ->
    exists r v', GetCoin o v = (r, v') /\ ok v' /\ state v' ≡ state v /\ live r = unspent (state v) o;
  GetBestBlock_law v : ok v ->
    exists v', GetBestBlock v = (best_block (state v), v') /\ ok v' /\ state v' ≡ state v;
  GetSaplingAnchorAt_law v rt : ok v -> length rt = 32%nat ->
    exists r v', GetSaplingAnchorAt rt v = (r, v') /\ ok v' /\ state v' ≡ state v /\
    match r with Some t => root t = rt /\ anchored (state v) rt = true | None => anchored (state v) rt = false end;
  GetNullifier_law v nf : ok v ->
    exists v', GetNullifier nf v = (nullified (state v) nf, v') /\ ok v' /\ state v' ≡ state v;
  GetBestAnchor_law v : ok v ->
    exists v', GetBestAnchor v = (best_anchor (state v), v') /\ ok v' /\ state v' ≡ state v
}.

(** What the views promise each other: reading, and writing. *)
Class ViewLaws (Tree V : Type) {T : Trees Tree} {W : View Tree V} := {
  #[global] view_reads :: ViewReads Tree V;
  BatchWrite_law v mc hb ha ma mn lc la ln : ok v ->
    lc ≡ₚ map_to_list mc -> la ≡ₚ map_to_list ma -> ln ≡ₚ map_to_list mn -> writable (state v) mc ma ->
    Uint256.IsNull 32 hb = false -> Uint256.IsNull 32 ha = false -> length ha = 32%nat ->
    exists v', BatchWrite lc hb ha la ln v = Done (true, v') /\ ok v' /\ state v' ≡ written mc hb ha ma mn (state v)
}.

(** * The three maps of a cache *)

(** An entry over the value [u] of the base. *)
Definition coin_ok (u : option Coin) (e : CCoinsCacheEntry) : Prop :=
  (has FRESH (flags e) = true -> u = None) /\ (has DIRTY (flags e) = false -> live (Some (coin e)) = u).
Definition coins_ok (m : gmap outpoint CCoinsCacheEntry) (f : outpoint -> option Coin) : Prop :=
  forall o e, m !! o = Some e -> coin_ok (f o) e.
Definition overlay (m : gmap outpoint CCoinsCacheEntry) (f : outpoint -> option Coin) (o : outpoint) : option Coin :=
  match m !! o with Some e => live (Some (coin e)) | None => f o end.

Lemma coins_ok_insert m f o e : coins_ok m f -> coin_ok (f o) e -> coins_ok (<[o := e]> m) f.
Proof. intros Hm He o' e' [[<- <-]|[_ H]]%lookup_insert_Some; [exact He | now apply Hm]. Qed.

Lemma coins_ok_delete m f o : coins_ok m f -> coins_ok (delete o m) f.
Proof. intros Hm o' e' [_ H]%lookup_delete_Some. now apply Hm. Qed.

Lemma overlay_insert m f o e o' :
  overlay (<[o := e]> m) f o' = (<[o := live (Some (coin e))]> (overlay m f)) o'.
Proof.
  unfold overlay. destruct (decide (o = o')) as [->|Hne].
  - now rewrite lookup_insert_eq, fn_lookup_insert.
  - rewrite lookup_insert_ne, fn_lookup_insert_ne by assumption. reflexivity.
Qed.

Lemma overlay_delete m f o o' : overlay (delete o m) f o' = (<[o := f o]> (overlay m f)) o'.
Proof.
  unfold overlay. destruct (decide (o = o')) as [->|Hne].
  - now rewrite lookup_delete_eq, fn_lookup_insert.
  - rewrite lookup_delete_ne, fn_lookup_insert_ne by assumption. reflexivity.
Qed.

(** Writing back what is there changes nothing. *)
Lemma fn_insert_same {A} `{EqDecision K} (f : K -> A) k x k' : f k = x -> (<[k := x]> f) k' = f k'.
Proof. intros <-. destruct (decide (k = k')) as [->|Hne]; [apply fn_lookup_insert | now apply fn_lookup_insert_ne]. Qed.

Lemma fn_insert_ext {A} `{EqDecision K} (f g : K -> A) k x y k' :
  (forall i, f i = g i) -> x = y -> (<[k := x]> f) k' = (<[k := y]> g) k'.
Proof. intros H ->. destruct (decide (k = k')) as [->|Hne]; [now rewrite !fn_lookup_insert | now rewrite !fn_lookup_insert_ne]. Qed.

Lemma live_live u c : live u = Some c -> live (Some c) = Some c.
Proof. destruct u as [d|]; cbn [live]; [|discriminate]. destruct (IsSpent d) eqn:E; [discriminate|]. intros [= <-]. now rewrite E. Qed.

(** A loop that writes the entries of a child, one for every key, over a map [m]: [O m] is what
    the map stands for, [I] its invariant, and [P] what an entry needs of the value it
    replaces. *)
Lemma fold_patch {K A B M : Type} `{Countable K} (w : K * A -> M -> outcome M) (I : M -> Prop) (O : M -> K -> B) (P : K -> A -> B -> Prop) (patch : option A -> B -> B) :
  (forall b, patch None b = b) ->
  (forall m k a, I m -> P k a (O m k) ->
     exists m', w (k, a) m = Done m' /\ I m' /\ forall k', O m' k' = (<[k := patch (Some a) (O m k)]> (O m)) k') ->
  forall l m, NoDup l.*1 -> I m -> (forall k a, (k, a) ∈ l -> P k a (O m k)) ->
  exists m', fold w l m = Done m' /\ I m' /\ forall k, O m' k = patch ((list_to_map l : gmap K A) !! k) (O m k).
Proof.
  intros H0 Hw. induction l as [|[k a] l IH]; intros m Hl Hm HP; cbn [fold].
  - exists m. split; [reflexivity|]. split; [exact Hm|]. intros k. cbn. now rewrite lookup_empty, H0.
  - rewrite fmap_cons in Hl. apply list.NoDup_cons in Hl as [Hnin Hl]. cbn [fst] in Hnin.
    destruct (Hw m k a Hm) as (m1 & E1 & Hm1 & H1); [apply HP, list_elem_of_here|].
    rewrite E1. cbn [bind]. destruct (IH m1 Hl Hm1) as (m2 & E2 & Hm2 & H2).
    { intros k' a' Hin. rewrite H1, fn_lookup_insert_ne; [now apply HP, list_elem_of_further|].
      intros ->. apply Hnin, list_elem_of_fmap. now exists (k', a'). }
    exists m2. split; [exact E2|]. split; [exact Hm2|]. intros k'. rewrite H2, H1. cbn [list_to_map foldr uncurry fst snd].
    destruct (decide (k = k')) as [->|Hne].
    + rewrite fn_lookup_insert, lookup_insert_eq. now rewrite (not_elem_of_list_to_map_1 l k' Hnin), H0.
    + now rewrite fn_lookup_insert_ne, lookup_insert_ne.
Qed.

Lemma fold_Done {A B} (w : B -> A -> B) l b : fold (fun a b => Done (w b a)) l b = Done (fold_left w l b).
Proof. revert b. induction l as [|a l IH]; intros b; [reflexivity | apply IH]. Qed.

(** The entries of a map, in any order. *)
Lemma visited {K A} `{Countable K} (m : gmap K A) l :
  l ≡ₚ map_to_list m -> NoDup l.*1 /\ list_to_map l = m /\ forall k a, (k, a) ∈ l -> m !! k = Some a.
Proof.
  intros Hl. assert (Hd : NoDup l.*1) by (rewrite Hl; apply NoDup_fst_map_to_list). split; [exact Hd|]. split.
  - rewrite <- (list_to_map_to_list m). now apply list_to_map_proper.
  - intros k a. rewrite Hl. apply elem_of_map_to_list.
Qed.

(** The loop body of [BatchWrite]. *)
Lemma write_coin_ok m f o e :
  coins_ok m f -> (has DIRTY (flags e) = true -> has FRESH (flags e) = true -> overlay m f o = None) ->
  exists m', write_coin (o, e) m = Done m' /\ coins_ok m' f /\
  forall o', overlay m' f o' = (<[o := patch_coin (Some e) (overlay m f o)]> (overlay m f)) o'.
Proof.
  intros Hm Hf. unfold write_coin. cbn [patch_coin]. destruct (has DIRTY (flags e)) eqn:Hd; cbn [negb].
  2: { exists m. split; [reflexivity|]. split; [exact Hm|]. intros o'. now rewrite fn_insert_same. }
  specialize (Hf eq_refl). assert (Hfl : forall P : Prop, (has FRESH (flags e) = true -> P) -> (has FRESH (flags e) = false -> P) -> P) by (intros P ? ?; destruct (has FRESH (flags e)); auto).
  destruct (m !! o) as [us|] eqn:Hus.
  - specialize (Hm _ _ Hus) as Hok. assert (Ho : overlay m f o = live (Some (coin us))) by (unfold overlay; now rewrite Hus).
    assert (G : has FRESH (flags e) && negb (IsSpent (coin us)) = false).
    { destruct (has FRESH (flags e)); [cbn [andb]|reflexivity]. specialize (Hf eq_refl). rewrite Ho in Hf. cbn [live] in Hf.
      destruct (IsSpent (coin us)); [reflexivity | discriminate]. }
    rewrite G. destruct (has FRESH (flags us) && IsSpent (coin e)) eqn:Hx.
    + apply andb_prop in Hx as [Hx1 Hx2]. eexists. split; [reflexivity|]. split; [now apply coins_ok_delete|].
      intros o'. rewrite overlay_delete. apply fn_insert_ext; [reflexivity|]. cbn [live]. rewrite Hx2. now apply (proj1 Hok).
    + eexists. split; [reflexivity|]. split; [|intros o'; now rewrite overlay_insert].
      apply coins_ok_insert; [exact Hm|]. split; cbn [flags coin]; autorewrite with flags; [apply (proj1 Hok) | discriminate].
  - assert (Ho : overlay m f o = f o) by (unfold overlay; now rewrite Hus).
    destruct (has FRESH (flags e) && IsSpent (coin e)) eqn:Hx; cbn [negb].
    + apply andb_prop in Hx as [Hx1 Hx2]. exists m. split; [reflexivity|]. split; [exact Hm|]. intros o'. rewrite fn_insert_same; [reflexivity|].
      cbn [live]. rewrite Hx2. now apply Hf.
    + eexists. split; [reflexivity|]. split; [|intros o'; now rewrite overlay_insert].
      apply coins_ok_insert; [exact Hm|]. split; cbn [flags coin].
      * rewrite <- Ho. destruct (has FRESH (flags e)); [intros _; now apply Hf | discriminate].
      * destruct (has FRESH (flags e)); discriminate.
Qed.

Lemma write_coins mc l m f :
  l ≡ₚ map_to_list mc -> coins_ok m f ->
  (forall o e, mc !! o = Some e -> has DIRTY (flags e) = true -> has FRESH (flags e) = true -> overlay m f o = None) ->
  exists m', fold write_coin l m = Done m' /\ coins_ok m' f /\ forall o, overlay m' f o = patch_coin (mc !! o) (overlay m f o).
Proof.
  intros Hl Hm Hf. destruct (visited mc l Hl) as (Hd & Em & Hin). rewrite <- Em.
  apply (fold_patch write_coin (fun m => coins_ok m f) (fun m => overlay m f)
           (fun _ e u => has DIRTY (flags e) = true -> has FRESH (flags e) = true -> u = None) patch_coin); auto.
  - intros m' o e Hm' HP. now apply write_coin_ok.
  - intros o e He. now apply Hf, Hin.
Qed.

(** ** Anchors and nullifiers *)

Section Shielded.
Context {Tree : Type} {T : Trees Tree}.

Definition anchor_ok (rt : list Z) (b : bool) (e : CAnchorsSaplingCacheEntry Tree) : Prop :=
  root (tree e) = rt /\ (has DIRTY (anchor_flags e) = false -> anchor_entered e = b) /\
  (has DIRTY (anchor_flags e) = true -> anchor_entered e = false -> rt <> empty_root).
Definition anchors_ok (m : gmap (list Z) (CAnchorsSaplingCacheEntry Tree)) (f : list Z -> bool) : Prop :=
  forall rt e, m !! rt = Some e -> anchor_ok rt (f rt) e.
Definition overlay_anchors (m : gmap (list Z) (CAnchorsSaplingCacheEntry Tree)) (f : list Z -> bool) (rt : list Z) : bool :=
  match m !! rt with Some e => anchor_entered e | None => f rt end.

Lemma anchors_ok_insert m f rt e : anchors_ok m f -> anchor_ok rt (f rt) e -> anchors_ok (<[rt := e]> m) f.
Proof. intros Hm He rt' e' [[<- <-]|[_ H]]%lookup_insert_Some; [exact He | now apply Hm]. Qed.

Lemma overlay_anchors_insert m f rt e rt' :
  overlay_anchors (<[rt := e]> m) f rt' = (<[rt := anchor_entered e]> (overlay_anchors m f)) rt'.
Proof.
  unfold overlay_anchors. destruct (decide (rt = rt')) as [->|Hne].
  - now rewrite lookup_insert_eq, fn_lookup_insert.
  - rewrite lookup_insert_ne, fn_lookup_insert_ne by assumption. reflexivity.
Qed.

Lemma write_anchor_ok m f rt e :
  anchors_ok m f ->
  (has DIRTY (anchor_flags e) = true -> root (tree e) = rt /\ (anchor_entered e = false -> rt <> empty_root)) ->
  anchors_ok (write_anchor m (rt, e)) f /\
  forall rt', overlay_anchors (write_anchor m (rt, e)) f rt' = (<[rt := patch_anchor (Some e) (overlay_anchors m f rt)]> (overlay_anchors m f)) rt'.
Proof.
  intros Hm He. unfold write_anchor. cbn [patch_anchor]. destruct (has DIRTY (anchor_flags e)) eqn:Hd.
  2: { split; [exact Hm|]. intros rt'. now rewrite fn_insert_same. }
  destruct (He eq_refl) as [Hr Hne]. destruct (m !! rt) as [p|] eqn:Hp.
  - destruct (Hm _ _ Hp) as (Hpr & Hpd & Hpn). destruct (Bool.eqb (anchor_entered p) (anchor_entered e)) eqn:Heq; cbn [negb].
    + apply Bool.eqb_prop in Heq. split; [exact Hm|]. intros rt'. rewrite fn_insert_same; [reflexivity|].
      unfold overlay_anchors. now rewrite Hp.
    + split; [|intros rt'; now rewrite overlay_anchors_insert]. apply anchors_ok_insert; [exact Hm|].
      split; [exact Hpr|]. cbn [anchor_flags anchor_entered]. split; [autorewrite with flags; discriminate | now intros _].
  - split; [|intros rt'; now rewrite overlay_anchors_insert]. apply anchors_ok_insert; [exact Hm|].
    split; [exact Hr|]. split; [discriminate | now intros _].
Qed.

Lemma write_anchors ma l m f :
  l ≡ₚ map_to_list ma -> anchors_ok m f ->
  (forall rt e, ma !! rt = Some e -> has DIRTY (anchor_flags e) = true -> root (tree e) = rt /\ (anchor_entered e = false -> rt <> empty_root)) ->
  anchors_ok (fold_left write_anchor l m) f /\
  forall rt, overlay_anchors (fold_left write_anchor l m) f rt = patch_anchor (ma !! rt) (overlay_anchors m f rt).
Proof.
  intros Hl Hm He. destruct (visited ma l Hl) as (Hd & Em & Hin).
  destruct (fold_patch (fun a b => Done (write_anchor b a)) (fun m => anchors_ok m f) (fun m => overlay_anchors m f)
    (fun rt e _ => has DIRTY (anchor_flags e) = true -> root (tree e) = rt /\ (anchor_entered e = false -> rt <> empty_root)) patch_anchor)
    with (l := l) (m := m) as (m' & E & H1 & H2); auto.
  - intros m' rt e Hm' HP. eexists. split; [reflexivity|]. now apply write_anchor_ok.
  - rewrite fold_Done in E. injection E as <-. rewrite Em in H2. now split.
Qed.
End Shielded.

Definition nullifiers_ok (m : gmap (list Z) CNullifiersCacheEntry) (f : list Z -> bool) : Prop :=
  forall nf e, m !! nf = Some e -> has DIRTY (nullifier_flags e) = false -> entered e = f nf.
Definition overlay_nullifiers (m : gmap (list Z) CNullifiersCacheEntry) (f : list Z -> bool) (nf : list Z) : bool :=
  match m !! nf with Some e => entered e | None => f nf end.

Lemma nullifiers_ok_insert m f nf e :
  nullifiers_ok m f -> (has DIRTY (nullifier_flags e) = false -> entered e = f nf) -> nullifiers_ok (<[nf := e]> m) f.
Proof. intros Hm He nf' e' [[<- <-]|[_ H]]%lookup_insert_Some; [exact He | now apply Hm]. Qed.

Lemma overlay_nullifiers_insert m f nf e nf' :
  overlay_nullifiers (<[nf := e]> m) f nf' = (<[nf := entered e]> (overlay_nullifiers m f)) nf'.
Proof.
  unfold overlay_nullifiers. destruct (decide (nf = nf')) as [->|Hne].
  - now rewrite lookup_insert_eq, fn_lookup_insert.
  - rewrite lookup_insert_ne, fn_lookup_insert_ne by assumption. reflexivity.
Qed.

Lemma write_nullifier_ok m f nf e :
  nullifiers_ok m f ->
  nullifiers_ok (write_nullifier m (nf, e)) f /\
  forall nf', overlay_nullifiers (write_nullifier m (nf, e)) f nf' =
              (<[nf := patch_nullifier (Some e) (overlay_nullifiers m f nf)]> (overlay_nullifiers m f)) nf'.
Proof.
  intros Hm. unfold write_nullifier. cbn [patch_nullifier]. destruct (has DIRTY (nullifier_flags e)) eqn:Hd.
  2: { split; [exact Hm|]. intros nf'. now rewrite fn_insert_same. }
  destruct (m !! nf) as [p|] eqn:Hp; [destruct (Bool.eqb (entered p) (entered e)) eqn:Heq|]; cbn [negb].
  - apply Bool.eqb_prop in Heq. split; [exact Hm|]. intros nf'. rewrite fn_insert_same; [reflexivity|].
    unfold overlay_nullifiers. now rewrite Hp.
  - split; [|intros nf'; now rewrite overlay_nullifiers_insert]. apply nullifiers_ok_insert; [exact Hm|].
    cbn [nullifier_flags]. autorewrite with flags. discriminate.
  - split; [|intros nf'; now rewrite overlay_nullifiers_insert]. apply nullifiers_ok_insert; [exact Hm | discriminate].
Qed.

Lemma write_nullifiers mn l m f :
  l ≡ₚ map_to_list mn -> nullifiers_ok m f ->
  nullifiers_ok (fold_left write_nullifier l m) f /\
  forall nf, overlay_nullifiers (fold_left write_nullifier l m) f nf = patch_nullifier (mn !! nf) (overlay_nullifiers m f nf).
Proof.
  intros Hl Hm. destruct (visited mn l Hl) as (Hd & Em & _).
  destruct (fold_patch (fun a b => Done (write_nullifier b a)) (fun m => nullifiers_ok m f) (fun m => overlay_nullifiers m f)
    (fun _ _ _ => True) patch_nullifier) with (l := l) (m := m) as (m' & E & H1 & H2); auto.
  - intros m' nf e Hm' _. eexists. split; [reflexivity|]. now apply write_nullifier_ok.
  - rewrite fold_Done in E. injection E as <-. rewrite Em in H2. now split.
Qed.

(** * A cache over a view *)

Section Cache.
Context {Tree V : Type} {T : Trees Tree} {TL : TreesLaws Tree} {W : View Tree V} {L : ViewReads Tree V}.
Abbreviation cache := (CCoinsViewCache Tree V).

Definition cache_ok (c : cache) : Prop :=
  ok (base c) /\ coins_ok (cacheCoins c) (unspent (state (base c))) /\
  anchors_ok (cacheSaplingAnchors c) (anchored (state (base c))) /\
  nullifiers_ok (cacheSaplingNullifiers c) (nullified (state (base c))) /\ length (hashSaplingAnchor c) = 32%nat.

Definition cache_state (c : cache) : snapshot :=
  {| unspent := overlay (cacheCoins c) (unspent (state (base c)));
     anchored := overlay_anchors (cacheSaplingAnchors c) (anchored (state (base c)));
     nullified := overlay_nullifiers (cacheSaplingNullifiers c) (nullified (state (base c)));
     best_block := if Uint256.IsNull 32 (hashBlock c) then best_block (state (base c)) else hashBlock c;
     best_anchor := if Uint256.IsNull 32 (hashSaplingAnchor c) then best_anchor (state (base c)) else hashSaplingAnchor c |}.

Lemma unspent_cache c o :
  unspent (cache_state c) o = match cacheCoins c !! o with Some e => live (Some (coin e)) | None => unspent (state (base c)) o end.
Proof. reflexivity. Qed.

Lemma cache_anchor_length c : cache_ok c -> length (best_anchor (cache_state c)) = 32%nat.
Proof.
  intros Hc. cbn [cache_state best_anchor]. destruct (Uint256.IsNull 32 (hashSaplingAnchor c)); [apply best_anchor_length, Hc | apply Hc].
Qed.

(** Only the state of the base matters. *)
Lemma set_base_ok b c :
  cache_ok c -> ok b -> state b ≡ state (base c) -> cache_ok (set_base b c) /\ cache_state (set_base b c) ≡ cache_state c.
Proof.
  intros (_ & H1 & H2 & H3 & H4) Hb (E1 & E2 & E3 & E4 & E5). split.
  - split; [exact Hb|]. split; [|split; [|split; [|exact H4]]]; cbn [set_base base cacheCoins cacheSaplingAnchors cacheSaplingNullifiers].
    + intros o e He. rewrite E1. now apply H1.
    + intros rt e He. rewrite E2. now apply H2.
    + intros nf e He. rewrite E3. now apply H3.
  - unfold cache_state. cbn [set_base base cacheCoins cacheSaplingAnchors cacheSaplingNullifiers hashBlock hashSaplingAnchor].
    rewrite E4, E5. repeat split; cbn; intros k; unfold overlay, overlay_anchors, overlay_nullifiers; [rewrite E1 | rewrite E2 | rewrite E3]; reflexivity.
Qed.

Lemma set_coins_ok m c : cache_ok c -> coins_ok m (unspent (state (base c))) -> cache_ok (set_coins m c).
Proof. intros (H0 & _ & H) Hm. exact (conj H0 (conj Hm H)). Qed.

Lemma set_anchors_ok m c : cache_ok c -> anchors_ok m (anchored (state (base c))) -> cache_ok (set_anchors m c).
Proof. intros (H0 & H1 & _ & H) Hm. exact (conj H0 (conj H1 (conj Hm H))). Qed.

Lemma set_nullifiers_ok m c : cache_ok c -> nullifiers_ok m (nullified (state (base c))) -> cache_ok (set_nullifiers m c).
Proof. intros (H0 & H1 & H2 & _ & H) Hm. exact (conj H0 (conj H1 (conj H2 (conj Hm H)))). Qed.

Lemma set_best_anchor_ok h c : cache_ok c -> length h = 32%nat -> cache_ok (set_best_anchor h c).
Proof. intros (H0 & H1 & H2 & H3 & _) Hh. exact (conj H0 (conj H1 (conj H2 (conj H3 Hh)))). Qed.

(** A new map of coins that stands for a changed set. *)
Lemma set_coins_state m c o u :
  (forall o', overlay m (unspent (state (base c))) o' = (<[o := u]> (unspent (cache_state c))) o') ->
  cache_state (set_coins m c) ≡ put o u (cache_state c).
Proof. intros H. repeat split. exact H. Qed.

Lemma put_same o u s : unspent s o = u -> put o u s ≡ s.
Proof. intros H. repeat split. intros o'. now apply fn_insert_same. Qed.

(** ** Coins *)

Lemma FetchCoin_spec o c :
  cache_ok c -> exists it c', FetchCoin o c = (it, c') /\ cache_ok c' /\ cache_state c' ≡ cache_state c /\
    cacheCoins c' !! o = it /\ live (coin <$> it) = unspent (cache_state c) o.
Proof.
  intros Hc. unfold FetchCoin. destruct (cacheCoins c !! o) as [it|] eqn:Hit.
  { exists (Some it), c. split_and!; [reflexivity | exact Hc | reflexivity | exact Hit |]. now rewrite unspent_cache, Hit. }
  destruct (GetCoin_law (base c) o) as (r & b & E & Hb & Hs & Hr); [apply Hc|]. rewrite E.
  destruct (set_base_ok b c Hc Hb Hs) as [Hc1 Hs1].
  assert (Ho : unspent (cache_state c) o = unspent (state (base c)) o) by now rewrite unspent_cache, Hit.
  destruct r as [tmp|].
  2: { exists None, (set_base b c). split_and!; [reflexivity | exact Hc1 | exact Hs1 | exact Hit |]. now rewrite Ho. }
  eexists (Some _), _. split; [reflexivity|]. set (ret := {| coin := tmp; flags := if IsSpent tmp then FRESH else 0 |}).
  assert (Hu : live (Some tmp) = unspent (state (base (set_base b c))) o) by (rewrite Hr; symmetry; apply Hs).
  split; [|split; [|split; [apply lookup_insert_eq | now rewrite Ho]]].
  - apply set_coins_ok; [exact Hc1|]. apply coins_ok_insert; [apply Hc1|]. rewrite <- Hu. split; subst ret; cbn [flags coin live].
    + destruct (IsSpent tmp); [reflexivity | discriminate].
    + reflexivity.
  - etransitivity; [|exact Hs1]. etransitivity; [apply (set_coins_state _ _ o (live (Some tmp))); intros o'; apply overlay_insert|].
    apply put_same. rewrite (proj1 Hs1), Ho. now rewrite Hr.
Qed.

Lemma GetCoin_cache c o :
  cache_ok c -> exists r c', cache_GetCoin o c = (r, c') /\ cache_ok c' /\ cache_state c' ≡ cache_state c /\ live r = unspent (cache_state c) o.
Proof.
  intros Hc. destruct (FetchCoin_spec o c Hc) as (it & c' & E & Hc' & Hs & _ & Hl). unfold cache_GetCoin. rewrite E.
  destruct it as [it|]; eexists _, c'; now split_and!.
Qed.

Lemma AccessCoin_spec o c :
  cache_ok c -> exists r c', AccessCoin o c = (r, c') /\ cache_ok c' /\ cache_state c' ≡ cache_state c /\ live (Some r) = unspent (cache_state c) o.
Proof.
  intros Hc. destruct (FetchCoin_spec o c Hc) as (it & c' & E & Hc' & Hs & _ & Hl). unfold AccessCoin. rewrite E.
  destruct it as [it|]; eexists _, c'; (split; [reflexivity|]; split; [exact Hc'|]; split; [exact Hs|]); [exact Hl|]. now rewrite <- Hl.
Qed.

Lemma HaveCoin_spec o c :
  cache_ok c -> exists c', HaveCoin o c = (bool_decide (is_Some (unspent (cache_state c) o)), c') /\ cache_ok c' /\ cache_state c' ≡ cache_state c.
Proof.
  intros Hc. destruct (FetchCoin_spec o c Hc) as (it & c' & E & Hc' & Hs & _ & Hl). unfold HaveCoin. rewrite E. rewrite <- Hl.
  exists c'. split; [|now split]. destruct it as [it|]; cbn [fmap option_fmap option_map live]; [destruct (IsSpent (coin it))|]; reflexivity.
Qed.

Lemma AddCoin_spec o co overwrite c :
  cache_ok c -> IsSpent co = false -> overwrite = true \/ unspent (cache_state c) o = None ->
  exists c', AddCoin o co overwrite c = Done c' /\ cache_ok c' /\
    cache_state c' ≡ (if kept co then put o (Some co) (cache_state c) else cache_state c).
Proof.
  intros Hc Hsp Ho. unfold AddCoin, kept. rewrite Hsp. destruct (IsUnspendable _); [now exists c|]. destruct (CTxOut_IsZerocoinMint _); [now exists c|].
  cbn [negb andb]. set (it := default CCoinsCacheEntry_empty (cacheCoins c !! o)).
  assert (Hlive : negb overwrite = true -> IsSpent (coin it) = true).
  { destruct overwrite; [discriminate|]. intros _. destruct Ho as [|Ho]; [discriminate|]. rewrite unspent_cache in Ho. subst it.
    destruct (cacheCoins c !! o) as [e|]; [|reflexivity]. cbn [default live] in *. unfold id. destruct (IsSpent (coin e)); [reflexivity | discriminate]. }
  destruct (negb overwrite && negb (IsSpent (coin it))) eqn:Hthrow.
  { apply andb_prop in Hthrow as [H1 H2]. rewrite (Hlive H1) in H2. discriminate. }
  eexists. split; [reflexivity|]. split.
  - apply set_coins_ok; [exact Hc|]. apply coins_ok_insert; [apply Hc|]. split; cbn [flags coin].
    2: { autorewrite with flags. destruct (has DIRTY (flags it)); discriminate. }
    autorewrite with flags. cbn [orb]. intros Hf. assert (Hit : forall e, cacheCoins c !! o = Some e -> coin_ok (unspent (state (base c)) o) e) by (intros e He; now apply (proj1 (proj2 Hc))).
    destruct (has FRESH (flags it)) eqn:Hfr; cbn [orb] in Hf.
    + subst it. destruct (cacheCoins c !! o) as [e|]; [now apply (Hit e eq_refl) | discriminate].
    + destruct (negb overwrite) eqn:Hov; cbn [andb] in Hf; [|discriminate]. destruct Ho as [->|Ho]; [discriminate|].
      rewrite unspent_cache in Ho. subst it. destruct (cacheCoins c !! o) as [e|]; [|exact Ho]. cbn [default] in *. unfold id in *.
      destruct (has DIRTY (flags e)) eqn:Hd; [discriminate|]. now rewrite <- (proj2 (Hit e eq_refl) Hd).
  - apply set_coins_state. intros o'. rewrite overlay_insert. cbn [coin live]. now rewrite Hsp.
Qed.

(** Without the permission to overwrite, a coin that the cache holds is an exception. *)
Lemma AddCoin_replaces o co (c : cache) it :
  IsSpent co = false -> kept co = true -> cacheCoins c !! o = Some it -> IsSpent (coin it) = false -> AddCoin o co false c = ReplacesNonPruned.
Proof.
  intros Hsp Hk Hit Hl. unfold AddCoin, kept in *. rewrite Hsp. apply andb_prop in Hk as [H1 H2]. apply negb_true_iff in H1, H2.
  rewrite H1, H2, Hit. cbn [default]. unfold id. now rewrite Hl.
Qed.

Lemma SpendCoin_spec o c :
  cache_ok c -> exists r c', SpendCoin o c = (r, c') /\ cache_ok c' /\
    cache_state c' ≡ put o None (cache_state c) /\ live r = unspent (cache_state c) o.
Proof.
  intros Hc. destruct (FetchCoin_spec o c Hc) as (it & c' & E & Hc' & Hs & Hit & Hl). unfold SpendCoin. rewrite E.
  destruct it as [it|].
  2: { exists None, c'. split; [reflexivity|]. split; [exact Hc'|]. split; [|exact Hl]. rewrite Hs. symmetry. now apply put_same. }
  specialize (proj1 (proj2 Hc') o it Hit) as Hok. exists (Some (coin it)). eexists. split; [reflexivity|].
  split; [|split; [|exact Hl]]; destruct (has FRESH (flags it)) eqn:Hf.
  - apply set_coins_ok; [exact Hc'|]. apply coins_ok_delete, Hc'.
  - apply set_coins_ok; [exact Hc'|]. apply coins_ok_insert; [apply Hc'|]. split; cbn [flags]; autorewrite with flags; [now rewrite Hf | discriminate].
  - rewrite <- Hs. apply set_coins_state. intros o'. rewrite overlay_delete. apply fn_insert_ext; [reflexivity|]. now apply (proj1 Hok).
  - rewrite <- Hs. apply set_coins_state. intros o'. now rewrite overlay_insert.
Qed.

Lemma Uncache_spec o c : cache_ok c -> cache_ok (Uncache o c) /\ cache_state (Uncache o c) ≡ cache_state c.
Proof.
  intros Hc. unfold Uncache. destruct (cacheCoins c !! o) as [it|] eqn:Hit; [|now split]. destruct (Z.eqb_spec (flags it) 0) as [Hf|]; [|now split].
  split; [apply set_coins_ok; [exact Hc | apply coins_ok_delete, Hc]|].
  etransitivity; [apply (set_coins_state _ _ o (unspent (state (base c)) o)); intros o'; apply overlay_delete|].
  apply put_same. rewrite unspent_cache, Hit. apply (proj1 (proj2 Hc) o it Hit). now rewrite Hf.
Qed.

(** ** Best block and shielded data *)

Lemma SetBestBlock_spec h c : cache_ok c -> Uint256.IsNull 32 h = false ->
  cache_ok (SetBestBlock h c) /\ cache_state (SetBestBlock h c) ≡ with_block h (cache_state c).
Proof. intros Hc Hh. split; [exact Hc|]. repeat split. cbn [cache_state with_block best_block hashBlock SetBestBlock]. now rewrite Hh. Qed.

Lemma GetBestBlock_cache c :
  cache_ok c -> exists c', cache_GetBestBlock c = (best_block (cache_state c), c') /\ cache_ok c' /\ cache_state c' ≡ cache_state c.
Proof.
  intros Hc. unfold cache_GetBestBlock. cbn [cache_state best_block]. destruct (Uint256.IsNull 32 (hashBlock c)) eqn:Hn; [|now exists c].
  destruct (GetBestBlock_law (base c)) as (b & E & Hb & Hs); [apply Hc|]. rewrite E. destruct (set_base_ok b c Hc Hb Hs) as [Hc1 Hs1].
  eexists. split; [reflexivity|]. split; [exact Hc1|]. rewrite <- Hs1. repeat split. cbn [cache_state best_block hashBlock SetBestBlock set_base base].
  rewrite Hn. destruct (Uint256.IsNull 32 (best_block (state (base c)))); [reflexivity | symmetry; apply Hs].
Qed.

Lemma GetBestAnchor_cache c :
  cache_ok c -> exists c', cache_GetBestAnchor c = (best_anchor (cache_state c), c') /\ cache_ok c' /\ cache_state c' ≡ cache_state c.
Proof.
  intros Hc. unfold cache_GetBestAnchor. cbn [cache_state best_anchor]. destruct (Uint256.IsNull 32 (hashSaplingAnchor c)) eqn:Hn; [|now exists c].
  destruct (GetBestAnchor_law (base c)) as (b & E & Hb & Hs); [apply Hc|]. rewrite E. destruct (set_base_ok b c Hc Hb Hs) as [Hc1 Hs1].
  eexists. split; [reflexivity|]. split; [apply set_best_anchor_ok; [exact Hc1 | apply best_anchor_length, Hc]|].
  rewrite <- Hs1. repeat split. cbn [cache_state best_anchor hashSaplingAnchor set_best_anchor set_base base].
  rewrite Hn. destruct (Uint256.IsNull 32 (best_anchor (state (base c)))); [reflexivity | symmetry; apply Hs].
Qed.

Lemma anchored_cache c rt :
  anchored (cache_state c) rt = match cacheSaplingAnchors c !! rt with Some e => anchor_entered e | None => anchored (state (base c)) rt end.
Proof. reflexivity. Qed.

Lemma nullified_cache c nf :
  nullified (cache_state c) nf = match cacheSaplingNullifiers c !! nf with Some e => entered e | None => nullified (state (base c)) nf end.
Proof. reflexivity. Qed.

Lemma GetSaplingAnchorAt_cache c rt :
  cache_ok c -> length rt = 32%nat -> exists r c', cache_GetSaplingAnchorAt rt c = (r, c') /\ cache_ok c' /\ cache_state c' ≡ cache_state c /\
    match r with
    | Some t => root t = rt /\ anchored (cache_state c) rt = true /\ is_Some (cacheSaplingAnchors c' !! rt)
    | None => anchored (cache_state c) rt = false
    end /\ hashSaplingAnchor c' = hashSaplingAnchor c.
Proof.
  intros Hc Hlen. unfold cache_GetSaplingAnchorAt. rewrite anchored_cache. destruct (cacheSaplingAnchors c !! rt) as [it|] eqn:Hit.
  { eexists _, c. split; [reflexivity|]. split; [exact Hc|]. split; [reflexivity|]. split; [|reflexivity].
    destruct (anchor_entered it); [|reflexivity]. split; [now apply (proj1 (proj2 (proj2 Hc)) rt it)|]. now split; [|exists it]. }
  destruct (GetSaplingAnchorAt_law (base c) rt) as (r & b & E & Hb & Hs & Hr); [apply Hc | exact Hlen |]. rewrite E.
  destruct (set_base_ok b c Hc Hb Hs) as [Hc1 Hs1]. destruct r as [t|].
  2: { eexists None, _. split; [reflexivity|]. split; [exact Hc1|]. split; [exact Hs1|]. now split. }
  destruct Hr as [Hr Ha]. eexists (Some t), _. split; [reflexivity|].
  set (ret := {| anchor_entered := true; tree := t; anchor_flags := 0 |}). split; [|split; [|split; [|reflexivity]]].
  - apply set_anchors_ok; [exact Hc1|]. apply anchors_ok_insert; [apply Hc1|]. split; [exact Hr|]. split; [|discriminate].
    intros _. cbn [ret anchor_entered]. symmetry. rewrite <- Ha. apply Hs.
  - rewrite <- Hs1. repeat split. intros rt'. cbn [cache_state anchored set_anchors set_base cacheSaplingAnchors base].
    rewrite overlay_anchors_insert. apply fn_insert_same. unfold overlay_anchors. rewrite Hit. cbn [ret anchor_entered]. rewrite <- Ha. apply Hs.
  - split; [exact Hr|]. split; [exact Ha|]. exists ret. apply lookup_insert_eq.
Qed.

Lemma GetNullifier_cache c nf :
  cache_ok c -> exists c', cache_GetNullifier nf c = (nullified (cache_state c) nf, c') /\ cache_ok c' /\ cache_state c' ≡ cache_state c.
Proof.
  intros Hc. unfold cache_GetNullifier. rewrite nullified_cache. destruct (cacheSaplingNullifiers c !! nf) as [it|] eqn:Hit; [now exists c|].
  destruct (GetNullifier_law (base c) nf) as (b & E & Hb & Hs); [apply Hc|]. rewrite E. destruct (set_base_ok b c Hc Hb Hs) as [Hc1 Hs1].
  eexists. split; [reflexivity|]. split.
  - apply set_nullifiers_ok; [exact Hc1|]. apply nullifiers_ok_insert; [apply Hc1|]. intros _. symmetry. apply Hs.
  - rewrite <- Hs1. repeat split. intros nf'. cbn [cache_state nullified set_nullifiers set_base cacheSaplingNullifiers base].
    rewrite overlay_nullifiers_insert. apply fn_insert_same. unfold overlay_nullifiers. rewrite Hit. apply Hs.
Qed.

(** [operator==] of two 32-byte blobs. *)
Lemma same_root a b : length a = 32%nat -> length b = 32%nat -> op_eq 32 a b = bool_decide (a = b).
Proof.
  intros Ha Hb. unfold op_eq, Compare. case_bool_decide as H; [now apply Z.eqb_eq, memcmp_eq | apply Z.eqb_neq; intros E; now apply H, (memcmp_eq 32)].
Qed.

Lemma insert_anchor_state m c h b rt :
  (forall rt', overlay_anchors m (anchored (state (base c))) rt' = (<[rt := b]> (anchored (cache_state c))) rt') ->
  Uint256.IsNull 32 h = false ->
  cache_state (set_best_anchor h (set_anchors m c)) ≡ with_anchor h (fun f => <[rt := b]> f) (cache_state c).
Proof. intros H Hh. repeat split; [exact H|]. cbn [cache_state with_anchor best_anchor hashSaplingAnchor set_best_anchor]. now rewrite Hh. Qed.

Lemma PushAnchor_spec t c :
  cache_ok c -> Uint256.IsNull 32 (root t) = false -> exists c', PushAnchor t c = c' /\ cache_ok c' /\
    cache_state c' ≡ (if bool_decide (best_anchor (cache_state c) = root t) then cache_state c
                      else with_anchor (root t) (fun f => <[root t := true]> f) (cache_state c)).
Proof.
  intros Hc Ht. eexists. split; [reflexivity|]. unfold PushAnchor. destruct (GetBestAnchor_cache c Hc) as (c1 & E & Hc1 & Hs). rewrite E.
  assert (Hlen : length (best_anchor (cache_state c)) = 32%nat).
  { now apply cache_anchor_length. }
  rewrite same_root by (exact Hlen || apply length_root). case_bool_decide as Hn; cbn [negb]; [now split|]. split.
  - apply set_best_anchor_ok; [|apply length_root]. apply set_anchors_ok; [exact Hc1|]. apply anchors_ok_insert; [apply Hc1|].
    split; [reflexivity|]. split; discriminate.
  - etransitivity; [apply insert_anchor_state; [intros rt'; apply overlay_anchors_insert | exact Ht]|].
    apply with_anchor_proper; [|exact Hs]. intros g g' Hg x. now apply fn_insert_ext.
Qed.

(** Removing the last anchor, which is not the root of the empty tree. *)
Lemma PopAnchor_spec newrt c :
  cache_ok c -> Uint256.IsNull 32 newrt = false -> length newrt = 32%nat ->
  let current := best_anchor (cache_state c) in
  current <> empty_root -> current <> newrt ->
  if anchored (cache_state c) current then
    exists c', PopAnchor newrt c = Done c' /\ cache_ok c' /\
      cache_state c' ≡ with_anchor newrt (fun f => <[current := false]> f) (cache_state c)
  else PopAnchor newrt c = AssertionFailed.
Proof.
  intros Hc Hn Hl current He Hne. unfold PopAnchor. destruct (GetBestAnchor_cache c Hc) as (c1 & E & Hc1 & Hs). rewrite E. fold current.
  assert (Hlen : length current = 32%nat).
  { now apply cache_anchor_length. }
  rewrite same_root by assumption. rewrite bool_decide_false by assumption. cbn [negb].
  destruct (GetSaplingAnchorAt_cache c1 current Hc1 Hlen) as (r & c2 & E2 & Hc2 & Hs2 & Hr & _). rewrite E2.
  rewrite (proj1 (proj2 Hs)) in Hr. destruct r as [t|]; [|now rewrite Hr]. destruct Hr as (Hr & Ha & it & Hit). rewrite Ha, Hit. cbn [default].
  unfold id. eexists. split; [reflexivity|]. split.
  - apply set_best_anchor_ok; [|exact Hl]. apply set_anchors_ok; [exact Hc2|]. apply anchors_ok_insert; [apply Hc2|].
    split; [exact (proj1 (proj1 (proj2 (proj2 Hc2)) current it Hit))|]. split; [discriminate | now intros _ _].
  - etransitivity; [apply insert_anchor_state; [intros rt'; apply overlay_anchors_insert | exact Hn]|].
    apply with_anchor_proper; [intros g g' Hg x; now apply fn_insert_ext|]. now rewrite Hs2.
Qed.

(** The same root again changes nothing. *)
Lemma PopAnchor_same c : cache_ok c -> exists c', PopAnchor (best_anchor (cache_state c)) c = Done c' /\ cache_ok c' /\ cache_state c' ≡ cache_state c.
Proof.
  intros Hc. unfold PopAnchor. destruct (GetBestAnchor_cache c Hc) as (c1 & E & Hc1 & Hs). rewrite E.
  assert (Hlen : length (best_anchor (cache_state c)) = 32%nat).
  { now apply cache_anchor_length. }
  rewrite same_root by assumption. rewrite bool_decide_true by reflexivity. cbn [negb]. now exists c1.
Qed.

Definition mark (spent : bool) (ds : list SpendDescription) (f : list Z -> bool) : list Z -> bool :=
  fold_left (fun f d => <[nullifier d := spent]> f) ds f.

Lemma mark_ext spent ds f g : (forall nf, f nf = g nf) -> forall nf, mark spent ds f nf = mark spent ds g nf.
Proof.
  revert f g. induction ds as [|d ds IH]; intros f g H; [exact H|]. apply IH. intros nf. now apply fn_insert_ext.
Qed.

Lemma SetNullifier_fold spent ds f : forall m,
  nullifiers_ok m f ->
  nullifiers_ok (fold_left (SetNullifier spent) ds m) f /\
  forall nf, overlay_nullifiers (fold_left (SetNullifier spent) ds m) f nf = mark spent ds (overlay_nullifiers m f) nf.
Proof.
  induction ds as [|d ds IH]; intros m Hm; [now split|]. cbn [fold_left].
  destruct (IH (SetNullifier spent m d)) as [H1 H2].
  { unfold SetNullifier. apply nullifiers_ok_insert; [exact Hm|]. cbn [nullifier_flags]. autorewrite with flags. discriminate. }
  split; [exact H1|]. intros nf. rewrite H2. cbn [mark fold_left].
  apply (mark_ext spent ds _ (<[nullifier d := spent]> (overlay_nullifiers m f))). intros nf'. apply overlay_nullifiers_insert.
Qed.

Definition spends_of (tx : CTransaction) : list SpendDescription :=
  match sapData tx with Some d => vShieldedSpend d | None => [] end.

Lemma SetNullifiers_spec tx spent c :
  cache_ok c -> cache_ok (SetNullifiers tx spent c) /\
  cache_state (SetNullifiers tx spent c) ≡ with_nullifiers (mark spent (spends_of tx)) (cache_state c).
Proof.
  intros Hc. unfold SetNullifiers, spends_of. destruct (sapData tx) as [d|]; [|now split].
  destruct (SetNullifier_fold spent (vShieldedSpend d) (nullified (state (base c))) (cacheSaplingNullifiers c)) as [H1 H2]; [apply Hc|].
  split; [now apply set_nullifiers_ok|]. repeat split. exact H2.
Qed.

(** ** Writing *)

Lemma BatchWrite_cache c mc hb ha ma mn lc la ln :
  cache_ok c -> lc ≡ₚ map_to_list mc -> la ≡ₚ map_to_list ma -> ln ≡ₚ map_to_list mn -> writable (cache_state c) mc ma ->
  Uint256.IsNull 32 hb = false -> Uint256.IsNull 32 ha = false -> length ha = 32%nat ->
  exists c', cache_BatchWrite lc hb ha la ln c = Done (true, c') /\ cache_ok c' /\ cache_state c' ≡ written mc hb ha ma mn (cache_state c).
Proof.
  intros (H0 & H1 & H2 & H3 & H4) Hlc Hla Hln [Hw1 Hw2] Hb Ha Hlen. unfold cache_BatchWrite.
  destruct (write_coins mc lc (cacheCoins c) _ Hlc H1 Hw1) as (m & E & Hm & Em). rewrite E. cbn [bind].
  destruct (write_anchors ma la (cacheSaplingAnchors c) _ Hla H2 Hw2) as [Hm2 Em2].
  destruct (write_nullifiers mn ln (cacheSaplingNullifiers c) _ Hln H3) as [Hm3 Em3].
  eexists. split; [reflexivity|]. split; [exact (conj H0 (conj Hm (conj Hm2 (conj Hm3 Hlen))))|].
  split; [exact Em|]. split; [exact Em2|]. split; [exact Em3|].
  cbn [cache_state best_block best_anchor hashBlock hashSaplingAnchor written]. now rewrite Hb, Ha.
Qed.

(** A cache may be written to also when the view below it may only be read from. *)
#[export] Instance cache_reads : ViewReads Tree cache.
Proof.
  refine {| ok := cache_ok; state := cache_state |}.
  - exact cache_anchor_length.
  - intros c o. apply GetCoin_cache.
  - exact GetBestBlock_cache.
  - intros c rt Hc Hlen. destruct (GetSaplingAnchorAt_cache c rt Hc Hlen) as (r & c' & E & Hc' & Hs & Hr & _). exists r, c'.
    split; [exact E|]. split; [exact Hc'|]. split; [exact Hs|]. destruct r; [|exact Hr]. now destruct Hr as (? & ? & _).
  - exact GetNullifier_cache.
  - exact GetBestAnchor_cache.
Defined.
#[export] Instance cache_laws : ViewLaws Tree cache := {| view_reads := cache_reads; BatchWrite_law := BatchWrite_cache |}.

(** The entries of a cache may be written over its base, and that gives the state of the cache. *)
Lemma cache_writable c : cache_ok c -> writable (state (base c)) (cacheCoins c) (cacheSaplingAnchors c).
Proof.
  intros (_ & H1 & H2 & _). split.
  - intros o e He _ Hf. now apply (H1 o e He).
  - intros rt e He Hd. destruct (H2 rt e He) as (Hr & _ & Hn). split; [exact Hr | now apply Hn].
Qed.

Lemma written_cache c hb ha :
  cache_ok c -> written (cacheCoins c) hb ha (cacheSaplingAnchors c) (cacheSaplingNullifiers c) (state (base c)) ≡
  {| unspent := unspent (cache_state c); anchored := anchored (cache_state c); nullified := nullified (cache_state c);
     best_block := hb; best_anchor := ha |}.
Proof.
  intros (_ & H1 & H2 & H3 & _). repeat split; cbn [written unspent anchored nullified]; intros k.
  - rewrite unspent_cache. destruct (cacheCoins c !! k) as [e|] eqn:He; [|reflexivity]. cbn [patch_coin].
    destruct (has DIRTY (flags e)) eqn:Hd; [reflexivity|]. now rewrite (proj2 (H1 k e He)).
  - rewrite anchored_cache. destruct (cacheSaplingAnchors c !! k) as [e|] eqn:He; [|reflexivity]. cbn [patch_anchor].
    destruct (has DIRTY (anchor_flags e)) eqn:Hd; [reflexivity|]. symmetry. now apply (proj2 (H2 k e He)).
  - rewrite nullified_cache. destruct (cacheSaplingNullifiers c !! k) as [e|] eqn:He; [|reflexivity]. cbn [patch_nullifier].
    destruct (has DIRTY (nullifier_flags e)) eqn:Hd; [reflexivity|]. symmetry. now apply H3.
Qed.

Lemma new_cache_ok b : ok b -> cache_ok (CCoinsViewCache_of b) /\ cache_state (CCoinsViewCache_of b) ≡ state b.
Proof.
  intros Hb. split; [|repeat split]. split; [exact Hb|].
  split; [|split; [|split; [|reflexivity]]]; intros k e He; unfold CCoinsViewCache_of in He; cbn in He; now rewrite lookup_empty in He.
Qed.

(** ** Queries *)

Definition present (s : snapshot) (o : outpoint) : bool := bool_decide (is_Some (unspent s o)).

Lemma have_all_spec vin c :
  cache_ok c -> exists c', have_all vin c = (forallb (fun i => present (cache_state c) (key (prevout i))) vin, c') /\
    cache_ok c' /\ cache_state c' ≡ cache_state c.
Proof.
  revert c. induction vin as [|i vin IH]; intros c Hc; cbn [have_all forallb]; [now exists c|].
  destruct (HaveCoin_spec (key (prevout i)) c Hc) as (c1 & E & Hc1 & Hs1). rewrite E. unfold present at 1.
  destruct (bool_decide _); cbn [negb andb]; [|now exists c1]. destruct (IH c1 Hc1) as (c2 & E2 & Hc2 & Hs2).
  exists c2. split; [|split; [exact Hc2 | now rewrite Hs2]]. rewrite E2. f_equal. apply forallb_same. intros j. unfold present. now rewrite (proj1 Hs1).
Qed.

Lemma HaveInputs_spec tx c :
  cache_ok c -> exists c', HaveInputs tx c =
    (IsCoinBase tx || HasZerocoinSpendInputs tx || forallb (fun i => present (cache_state c) (key (prevout i))) (vin tx), c') /\
    cache_ok c' /\ cache_state c' ≡ cache_state c.
Proof.
  intros Hc. unfold HaveInputs. destruct (IsCoinBase tx), (HasZerocoinSpendInputs tx); cbn [negb andb orb]; try now exists c.
  now apply have_all_spec.
Qed.

Definition anchors_shape (ds : list SpendDescription) : Prop := Forall (fun d => length (anchor d) = 32%nat) ds.

Lemma have_spends_spec ds c :
  cache_ok c -> anchors_shape ds -> exists c', have_spends ds c =
    (forallb (fun d => negb (nullified (cache_state c) (nullifier d)) && anchored (cache_state c) (anchor d)) ds, c') /\
    cache_ok c' /\ cache_state c' ≡ cache_state c.
Proof.
  intros Hc Hds. revert c Hc. induction Hds as [|d ds Hd Hds IH]; intros c Hc; cbn [have_spends forallb]; [now exists c|].
  destruct (GetNullifier_cache c (nullifier d) Hc) as (c1 & E & Hc1 & Hs1). rewrite E.
  destruct (nullified (cache_state c) (nullifier d)); cbn [negb andb]; [now exists c1|].
  destruct (GetSaplingAnchorAt_cache c1 (anchor d) Hc1 Hd) as (r & c2 & E2 & Hc2 & Hs2 & Hr & _). rewrite E2.
  rewrite (proj1 (proj2 Hs1)) in Hr. assert (Hs : cache_state c2 ≡ cache_state c) by now rewrite Hs2.
  destruct r as [t|]; [destruct Hr as (_ & -> & _) | rewrite Hr; now exists c2]. cbn [andb].
  destruct (IH c2 Hc2) as (c3 & E3 & Hc3 & Hs3). exists c3. split; [|split; [exact Hc3 | now rewrite Hs3]].
  rewrite E3. f_equal. apply forallb_same. intros e. now rewrite (proj1 (proj2 Hs)), (proj1 (proj2 (proj2 Hs))).
Qed.

Lemma HaveShieldedRequirements_spec {sizes : Sizes} tx c :
  cache_ok c -> anchors_shape (spends_of tx) -> exists c', HaveShieldedRequirements tx c =
    (negb (IsShieldedTx tx) || forallb (fun d => negb (nullified (cache_state c) (nullifier d)) && anchored (cache_state c) (anchor d)) (spends_of tx), c') /\
    cache_ok c' /\ cache_state c' ≡ cache_state c.
Proof.
  unfold HaveShieldedRequirements, spends_of. intros Hc Hds. destruct (IsShieldedTx tx); cbn [negb orb]; [|now exists c].
  destruct (sapData tx); [now apply have_spends_spec | now exists c].
Qed.

Lemma GetCoinDepthAtHeight_spec o height c :
  cache_ok c -> exists c', GetCoinDepthAtHeight o height c =
    (match unspent (cache_state c) o with Some co => signed 32 (w32 (height - nHeight co + 1)) | None => -1 end, c') /\
    cache_ok c' /\ cache_state c' ≡ cache_state c.
Proof.
  intros Hc. unfold GetCoinDepthAtHeight. destruct (AccessCoin_spec o c Hc) as (r & c' & E & Hc' & Hs & Hr). rewrite E. exists c'.
  split; [|now split]. rewrite <- Hr. cbn [live]. now destruct (IsSpent r).
Qed.
End Cache.

Section Flush.
Context {Tree V : Type} {T : Trees Tree} {TL : TreesLaws Tree} {W : View Tree V} {L : ViewLaws Tree V}.

Lemma Flush_spec {O : Visit} (c : CCoinsViewCache Tree V) :
  cache_ok c -> Uint256.IsNull 32 (hashBlock c) = false -> Uint256.IsNull 32 (hashSaplingAnchor c) = false ->
  exists c', Flush c = Done (true, c') /\ cache_ok c' /\ cache_state c' ≡ cache_state c /\ state (base c') ≡ cache_state c /\
    cacheCoins c' = ∅ /\ cacheSaplingAnchors c' = ∅ /\ cacheSaplingNullifiers c' = ∅.
Proof.
  intros Hc Hb Ha. unfold Flush.
  destruct (BatchWrite_law (base c) (cacheCoins c) (hashBlock c) (hashSaplingAnchor c) (cacheSaplingAnchors c) (cacheSaplingNullifiers c)
              (visit (cacheCoins c)) (visit (cacheSaplingAnchors c)) (visit (cacheSaplingNullifiers c)))
    as (b & E & Hok & Hs); try assumption; try apply visit_all; try apply Hc; [now apply cache_writable|].
  rewrite E. cbn [bind]. eexists. split; [reflexivity|]. rewrite (written_cache c _ _ Hc) in Hs.
  assert (Hs' : state b ≡ cache_state c).
  { etransitivity; [exact Hs|]. repeat split; cbn [cache_state best_block best_anchor]; [now rewrite Hb | now rewrite Ha]. }
  split; [|split; [|split; [exact Hs' | now split_and!]]].
  - split; [exact Hok|]. split; [|split; [|split; [|apply Hc]]]; intros k e He; cbn [cacheCoins cacheSaplingAnchors cacheSaplingNullifiers] in He; now rewrite lookup_empty in He.
  - etransitivity; [|exact Hs']. repeat split; try (intros k; reflexivity); cbn [cache_state best_block best_anchor hashBlock hashSaplingAnchor base].
    + rewrite Hb. symmetry. etransitivity; [apply Hs | reflexivity].
    + rewrite Ha. symmetry. etransitivity; [apply Hs | reflexivity].
Qed.
End Flush.
