(* ===== verification/CoinsDB.v ===== *)
(** txdb.cpp and sapling/sapling_txdb.cpp: [CCoinsViewDB], the view that is stored on disk. The
    key-value store is given by the maps of its key prefixes; a batch is written as a whole
    or not at all, which is what LevelDB promises. *)
From S2P Require Import Prelude CryptoCommon Streams Serialize Uint256 Merkle Transactions Coins CoinsProofs.
From stdpp Require Import base gmap list countable functions.
#[local] Open Scope Z_scope.
#[local] Open Scope word_scope.
Import CryptoCommon Uint256 Merkle.Merkle Transactions.Tx Coins.Coins.

Module CoinsDB.

(** The records with the prefixes C, B, H, Z, S and z. *)
Record store (Tree : Type) := {
  db_coins : gmap outpoint Coin;
  db_best_block : option (list Z);
  db_head_blocks : option (list (list Z));
  db_anchors : gmap (list Z) Tree;
  db_nullifiers : gmap (list Z) bool;
  db_best_anchor : option (list Z)
}.
Arguments db_coins {Tree}.
Arguments db_best_block {Tree}.
Arguments db_head_blocks {Tree}.
Arguments db_anchors {Tree}.
Arguments db_nullifiers {Tree}.
Arguments db_best_anchor {Tree}.

(** The entries of a [CDBBatch]. *)
Inductive change (Tree : Type) :=
| WriteCoin (o : outpoint) (c : Coin)
| EraseCoin (o : outpoint)
| WriteBestBlock (h : list Z)
| EraseBestBlock
| WriteHeadBlocks (l : list (list Z))
| EraseHeadBlocks
| WriteAnchor (rt : list Z) (t : Tree)
| EraseAnchor (rt : list Z)
| WriteNullifier (nf : list Z) (spent : bool)
| EraseNullifier (nf : list Z)
| WriteBestAnchor (h : list Z).
Arguments WriteCoin {Tree}.
Arguments EraseCoin {Tree}.
Arguments WriteBestBlock {Tree}.
Arguments EraseBestBlock {Tree}.
Arguments WriteHeadBlocks {Tree}.
Arguments EraseHeadBlocks {Tree}.
Arguments WriteAnchor {Tree}.
Arguments EraseAnchor {Tree}.
Arguments WriteNullifier {Tree}.
Arguments EraseNullifier {Tree}.
Arguments WriteBestAnchor {Tree}.

Section Store.
Context {Tree : Type} {T : Trees Tree}.

Definition coins_after (m : gmap outpoint Coin) (x : change Tree) : gmap outpoint Coin :=
  match x with WriteCoin o c => <[o := c]> m | EraseCoin o => delete o m | _ => m end.
Definition anchors_after (m : gmap (list Z) Tree) (x : change Tree) : gmap (list Z) Tree :=
  match x with WriteAnchor rt t => <[rt := t]> m | EraseAnchor rt => delete rt m | _ => m end.
Definition nullifiers_after (m : gmap (list Z) bool) (x : change Tree) : gmap (list Z) bool :=
  match x with WriteNullifier nf b => <[nf := b]> m | EraseNullifier nf => delete nf m | _ => m end.

Definition apply_change (d : store Tree) (x : change Tree) : store Tree :=
  {| db_coins := coins_after (db_coins d) x;
     db_best_block := match x with WriteBestBlock h => Some h | EraseBestBlock => None | _ => db_best_block d end;
     db_head_blocks := match x with WriteHeadBlocks l => Some l | EraseHeadBlocks => None | _ => db_head_blocks d end;
     db_anchors := anchors_after (db_anchors d) x;
     db_nullifiers := nullifiers_after (db_nullifiers d) x;
     db_best_anchor := match x with WriteBestAnchor h => Some h | _ => db_best_anchor d end |}.

(** [db.WriteBatch(batch)]. *)
Definition WriteBatch (d : store Tree) (batch : list (change Tree)) : store Tree := fold_left apply_change batch d.

Definition db_GetCoin (o : outpoint) (d : store Tree) : option Coin * store Tree := (db_coins d !! o, d).
Definition db_HaveCoin (o : outpoint) (d : store Tree) : bool :=
  match db_coins d !! o with Some _ => true | None => false end.
Definition db_GetBestBlock (d : store Tree) : list Z := default null256 (db_best_block d).
Definition db_GetHeadBlocks (d : store Tree) : list (list Z) := default [] (db_head_blocks d).
Definition db_GetSaplingAnchorAt (rt : list Z) (d : store Tree) : option Tree * store Tree :=
  if op_eq 32 rt empty_root then (Some Tree_new, d) else (db_anchors d !! rt, d).
Definition db_GetNullifier (nf : list Z) (d : store Tree) : bool * store Tree :=
  (match db_nullifiers d !! nf with Some _ => true | None => false end, d).
Definition db_GetBestAnchor (d : store Tree) : list Z := default empty_root (db_best_anchor d).

(** One turn of the loops of [BatchWrite], [BatchWriteAnchors] and [BatchWriteNullifiers]. *)
Definition coin_change (e : outpoint * CCoinsCacheEntry) : list (change Tree) :=
  let '(o, it) := e in
  if has DIRTY (flags it) then
    if IsSpent (coin it) then [EraseCoin o] else [WriteCoin o (coin it)]
  else [].
Definition anchor_change (e : list Z * CAnchorsSaplingCacheEntry Tree) : list (change Tree) :=
  let '(rt, it) := e in
  if has DIRTY (anchor_flags it) then
    if negb (anchor_entered it) then [EraseAnchor rt]
    else if negb (op_eq 32 rt empty_root) then [WriteAnchor rt (tree it)] else []
  else [].
Definition nullifier_change (e : list Z * CNullifiersCacheEntry) : list (change Tree) :=
  let '(nf, it) := e in
  if has DIRTY (nullifier_flags it) then
    if negb (entered it) then [EraseNullifier nf] else [WriteNullifier nf true]
  else [].

Definition BatchWriteSapling (hashSaplingAnchor : list Z) (mapSaplingAnchors : list (list Z * CAnchorsSaplingCacheEntry Tree))
    (mapSaplingNullifiers : list (list Z * CNullifiersCacheEntry)) (batch : list (change Tree)) : list (change Tree) :=
  let batch := batch ++ flat_map anchor_change mapSaplingAnchors in
  let batch := batch ++ flat_map nullifier_change mapSaplingNullifiers in
  if negb (Uint256.IsNull 32 hashSaplingAnchor) then batch ++ [WriteBestAnchor hashSaplingAnchor] else batch.

(** [batch.SizeEstimate() > batch_size], for the size of the argument -dbbatchsize. *)
Context (full : list (change Tree) -> bool).

(** The loop over the coins: the batches that it writes, and the one it leaves. *)
Fixpoint coin_loop (mapCoins : list (outpoint * CCoinsCacheEntry)) (batch : list (change Tree)) (done : list (list (change Tree)))
  : list (list (change Tree)) * list (change Tree) :=
  match mapCoins with
  | [] => (done, batch)
  | e :: mapCoins =>
      let batch := batch ++ coin_change e in
      if full batch then coin_loop mapCoins [] (done ++ [batch]) else coin_loop mapCoins batch done
  end.

(** The tip that the batches lead away from; the assertion is about an interrupted write. *)
Definition old_tip (hashBlock : list Z) (d : store Tree) : outcome (list Z) :=
  let tip := db_GetBestBlock d in
  if Uint256.IsNull 32 tip then
    match db_GetHeadBlocks d with
    | [head; tail] => if op_eq 32 head hashBlock then Done tail else AssertionFailed
    | _ => Done tip
    end
  else Done tip.

(** The batches of [BatchWrite], in the order in which they are written. *)
Definition batches (mapCoins : list (outpoint * CCoinsCacheEntry)) (hashBlock hashSaplingAnchor : list Z)
    (mapSaplingAnchors : list (list Z * CAnchorsSaplingCacheEntry Tree)) (mapSaplingNullifiers : list (list Z * CNullifiersCacheEntry))
    (d : store Tree) : outcome (list (list (change Tree))) :=
  if Uint256.IsNull 32 hashBlock then AssertionFailed
  else
    let! tip := old_tip hashBlock d in
    let '(done, batch) := coin_loop mapCoins [EraseBestBlock; WriteHeadBlocks [hashBlock; tip]] [] in
    let batch := BatchWriteSapling hashSaplingAnchor mapSaplingAnchors mapSaplingNullifiers batch in
    let batch := batch ++ [EraseHeadBlocks; WriteBestBlock hashBlock] in
    Done (done ++ [batch]).

Definition db_BatchWrite (mapCoins : list (outpoint * CCoinsCacheEntry)) (hashBlock hashSaplingAnchor : list Z)
    (mapSaplingAnchors : list (list Z * CAnchorsSaplingCacheEntry Tree)) (mapSaplingNullifiers : list (list Z * CNullifiersCacheEntry))
    (d : store Tree) : outcome (bool * store Tree) :=
  let! bs := batches mapCoins hashBlock hashSaplingAnchor mapSaplingAnchors mapSaplingNullifiers d in
  Done (true, fold_left WriteBatch bs d).

Definition db_view : View Tree (store Tree) := {|
  GetCoin := db_GetCoin;
  GetBestBlock d := (db_GetBestBlock d, d);
  GetSaplingAnchorAt := db_GetSaplingAnchorAt;
  GetNullifier := db_GetNullifier;
  GetBestAnchor d := (db_GetBestAnchor d, d);
  BatchWrite := db_BatchWrite
|}.
End Store.

Definition store_empty {Tree} : store Tree :=
  {| db_coins := ∅; db_best_block := None; db_head_blocks := None; db_anchors := ∅; db_nullifiers := ∅; db_best_anchor := None |}.

End CoinsDB.

Import CoinsDB.

(** * Lists of changes *)

Lemma fold_left_batches {A B} (f : B -> A -> B) ls : forall b, fold_left (fun b l => fold_left f l b) ls b = fold_left f (concat ls) b.
Proof. induction ls as [|l ls IH]; intros b; [reflexivity|]. cbn. now rewrite fold_left_app, IH. Qed.

Lemma fold_left_flat {A B C} (f : C -> B -> C) (g : A -> list B) l : forall c,
  fold_left f (flat_map g l) c = fold_left (fun c a => fold_left f (g a) c) l c.
Proof. induction l as [|a l IH]; intros c; [reflexivity|]. cbn. now rewrite fold_left_app, IH. Qed.

Lemma fold_left_id {A B} (f : B -> A -> B) l : Forall (fun a => forall b, f b a = b) l -> forall b, fold_left f l b = b.
Proof. induction 1 as [|a l Ha Hl IH]; intros b; [reflexivity|]. cbn. now rewrite Ha. Qed.

Lemma Forall_flat_map_iff {A B} (P : B -> Prop) (g : A -> list B) l : (forall a, Forall P (g a)) -> Forall P (flat_map g l).
Proof. intros H. induction l as [|a l IH]; cbn; [constructor | apply Forall_app; auto]. Qed.

Section Changes.
Context {Tree : Type} {T : Trees Tree} {TL : TreesLaws Tree}.
Implicit Types (d : store Tree) (cs : list (change Tree)).

Lemma coins_put cs : forall d, db_coins (fold_left apply_change cs d) = fold_left coins_after cs (db_coins d).
Proof. induction cs as [|x cs IH]; intros d; [reflexivity | apply IH]. Qed.
Lemma anchors_put cs : forall d, db_anchors (fold_left apply_change cs d) = fold_left anchors_after cs (db_anchors d).
Proof. induction cs as [|x cs IH]; intros d; [reflexivity | apply IH]. Qed.
Lemma nullifiers_put cs : forall d, db_nullifiers (fold_left apply_change cs d) = fold_left nullifiers_after cs (db_nullifiers d).
Proof. induction cs as [|x cs IH]; intros d; [reflexivity | apply IH]. Qed.

(** The changes of one kind leave the records of the other kinds. *)
Definition coin_only (x : change Tree) : Prop := match x with WriteCoin _ _ | EraseCoin _ => True | _ => False end.
Definition shielded_only (x : change Tree) : Prop :=
  match x with WriteAnchor _ _ | EraseAnchor _ | WriteNullifier _ _ | EraseNullifier _ | WriteBestAnchor _ => True | _ => False end.
Definition not_anchor (x : change Tree) : Prop := match x with WriteAnchor _ _ | EraseAnchor _ => False | _ => True end.
Definition not_nullifier (x : change Tree) : Prop := match x with WriteNullifier _ _ | EraseNullifier _ => False | _ => True end.

Ltac by_kind := intros; eapply Forall_impl; [eassumption|]; intros []; cbn; intros; (reflexivity || contradiction).

Lemma coin_only_rest cs d : Forall coin_only cs ->
  let d' := fold_left apply_change cs d in
  db_anchors d' = db_anchors d /\ db_nullifiers d' = db_nullifiers d /\ db_best_block d' = db_best_block d /\
  db_head_blocks d' = db_head_blocks d /\ db_best_anchor d' = db_best_anchor d.
Proof.
  intros H. cbn zeta. revert d. induction H as [|x cs Hx H IH]; intros d; [now split_and!|]. cbn [fold_left].
  destruct (IH (apply_change d x)) as (-> & -> & -> & -> & ->). destruct x; cbn in Hx; try contradiction; now split_and!.
Qed.

Lemma shielded_only_rest cs d : Forall shielded_only cs ->
  let d' := fold_left apply_change cs d in
  db_coins d' = db_coins d /\ db_best_block d' = db_best_block d /\ db_head_blocks d' = db_head_blocks d.
Proof.
  intros H. cbn zeta. revert d. induction H as [|x cs Hx H IH]; intros d; [now split_and!|]. cbn [fold_left].
  destruct (IH (apply_change d x)) as (-> & -> & ->). destruct x; cbn in Hx; try contradiction; now split_and!.
Qed.

Lemma coin_change_only l : Forall coin_only (flat_map (coin_change (Tree := Tree)) l).
Proof. apply Forall_flat_map_iff. intros [o e]. cbn [coin_change]. destruct (has DIRTY (flags e)), (IsSpent (coin e)); repeat constructor. Qed.

(** Only its own record has the best anchor. *)
Definition not_best_anchor (x : change Tree) : Prop := match x with WriteBestAnchor _ => False | _ => True end.
Lemma best_anchor_put cs : Forall not_best_anchor cs -> forall d, db_best_anchor (fold_left apply_change cs d) = db_best_anchor d.
Proof. induction 1 as [|x cs Hx H IH]; intros d; [reflexivity|]. cbn [fold_left]. rewrite IH. now destruct x. Qed.

Lemma anchor_change_only l : Forall shielded_only (flat_map (anchor_change (Tree := Tree)) l).
Proof. apply Forall_flat_map_iff. intros [rt e]. cbn [anchor_change]. destruct (has DIRTY (anchor_flags e)), (anchor_entered e), (op_eq 32 rt empty_root); repeat constructor. Qed.

Lemma nullifier_change_only l : Forall shielded_only (flat_map (nullifier_change (Tree := Tree)) l).
Proof. apply Forall_flat_map_iff. intros [nf e]. cbn [nullifier_change]. destruct (has DIRTY (nullifier_flags e)), (entered e); repeat constructor. Qed.

(** ** The maps after the loops *)

Lemma coins_written (mc : gmap outpoint CCoinsCacheEntry) (l : list (outpoint * CCoinsCacheEntry)) (m : gmap outpoint Coin) :
  l ≡ₚ map_to_list mc -> forall o,
  live (fold_left coins_after (flat_map (coin_change (Tree := Tree)) l) m !! o) = patch_coin (mc !! o) (live (m !! o)).
Proof.
  intros Hl o. destruct (visited mc l Hl) as (Hd & Em & _).
  destruct (fold_patch (fun e m => Done (fold_left coins_after (coin_change (Tree := Tree) e) m)) (fun _ => True) (fun m o => live (m !! o))
    (fun _ _ _ => True) patch_coin) with (l := l) (m := m) as (m' & E & _ & H); auto.
  - intros m' k e _ _. eexists. split; [reflexivity|]. split; [exact I|]. intros k'. cbn [coin_change patch_coin].
    destruct (has DIRTY (flags e)); [cbn [live]; destruct (IsSpent (coin e)) eqn:Hs|]; cbn [fold_left coins_after].
    + destruct (decide (k = k')) as [->|Hne]; [now rewrite lookup_delete_eq, fn_lookup_insert | now rewrite lookup_delete_ne, fn_lookup_insert_ne].
    + destruct (decide (k = k')) as [->|Hne]; [rewrite lookup_insert_eq, fn_lookup_insert; cbn; now rewrite Hs | now rewrite lookup_insert_ne, fn_lookup_insert_ne].
    + symmetry. now apply (fn_insert_same (fun o => live (m' !! o))).
  - rewrite (fold_Done (fun m e => fold_left coins_after (coin_change e) m)) in E. injection E as <-.
    rewrite fold_left_flat, <- Em. apply H.
Qed.

Definition known (m : gmap (list Z) Tree) (rt : list Z) : bool := op_eq 32 rt empty_root || bool_decide (is_Some (m !! rt)).
Definition roots_ok (m : gmap (list Z) Tree) : Prop := forall rt t, m !! rt = Some t -> root t = rt.

Lemma length_empty_root : length empty_root = 32%nat.
Proof. rewrite <- root_new. apply length_root. Qed.

Lemma op_eq_empty rt : length rt = 32%nat -> op_eq 32 rt empty_root = bool_decide (rt = empty_root).
Proof. intros H. apply same_root; [exact H | exact length_empty_root]. Qed.

Lemma known_delete m rt k : length rt = 32%nat -> rt <> empty_root -> known (delete rt m) k = (<[rt := false]> (known m)) k.
Proof.
  intros Hl Hne. unfold known. destruct (decide (rt = k)) as [<-|Hk].
  - rewrite fn_lookup_insert, lookup_delete_eq, op_eq_empty, bool_decide_false by assumption. now rewrite bool_decide_false by (intros [? ?]; discriminate).
  - now rewrite lookup_delete_ne, fn_lookup_insert_ne.
Qed.

Lemma known_insert m rt t k : known (<[rt := t]> m) k = (<[rt := true]> (known m)) k.
Proof.
  unfold known. destruct (decide (rt = k)) as [<-|Hk].
  - rewrite fn_lookup_insert, lookup_insert_eq. rewrite bool_decide_true by now exists t. apply orb_true_r.
  - now rewrite lookup_insert_ne, fn_lookup_insert_ne.
Qed.

Lemma anchor_change_ok m rt e :
  roots_ok m -> (has DIRTY (anchor_flags e) = true -> root (tree e) = rt /\ (anchor_entered e = false -> rt <> empty_root)) ->
  roots_ok (fold_left anchors_after (anchor_change (rt, e)) m) /\
  forall k, known (fold_left anchors_after (anchor_change (rt, e)) m) k = (<[rt := patch_anchor (Some e) (known m rt)]> (known m)) k.
Proof.
  intros Hm He. cbn [anchor_change patch_anchor]. destruct (has DIRTY (anchor_flags e)).
  2: { split; [exact Hm|]. intros k. symmetry. now apply fn_insert_same. }
  destruct (He eq_refl) as [Hr Hne]. assert (Hl : length rt = 32%nat) by (rewrite <- Hr; apply length_root).
  destruct (anchor_entered e); cbn [negb].
  - rewrite op_eq_empty by assumption. case_bool_decide as Hx; cbn [negb fold_left anchors_after].
    + split; [exact Hm|]. intros k. symmetry. apply fn_insert_same. unfold known. now rewrite op_eq_empty, bool_decide_true.
    + split; [|intros k; apply known_insert]. intros k t [[<- <-]|[_ H]]%lookup_insert_Some; [exact Hr | now apply Hm].
  - cbn [fold_left anchors_after]. split; [intros k t [_ H]%lookup_delete_Some; now apply Hm|]. intros k. apply known_delete; auto.
Qed.

Lemma anchors_written (ma : gmap (list Z) (CAnchorsSaplingCacheEntry Tree)) (l : list (list Z * CAnchorsSaplingCacheEntry Tree)) m :
  l ≡ₚ map_to_list ma -> roots_ok m ->
  (forall rt e, ma !! rt = Some e -> has DIRTY (anchor_flags e) = true -> root (tree e) = rt /\ (anchor_entered e = false -> rt <> empty_root)) ->
  roots_ok (fold_left anchors_after (flat_map anchor_change l) m) /\
  forall rt, known (fold_left anchors_after (flat_map anchor_change l) m) rt = patch_anchor (ma !! rt) (known m rt).
Proof.
  intros Hl Hm He. destruct (visited ma l Hl) as (Hd & Em & Hin).
  destruct (fold_patch (fun e m => Done (fold_left anchors_after (anchor_change e) m)) roots_ok known
    (fun rt e _ => has DIRTY (anchor_flags e) = true -> root (tree e) = rt /\ (anchor_entered e = false -> rt <> empty_root)) patch_anchor)
    with (l := l) (m := m) as (m' & E & H1 & H2); auto.
  - intros m' rt e Hm' HP. eexists. split; [reflexivity|]. now apply anchor_change_ok.
  - rewrite (fold_Done (fun m e => fold_left anchors_after (anchor_change e) m)) in E. injection E as <-.
    rewrite fold_left_flat, <- Em. now split.
Qed.

Definition used (m : gmap (list Z) bool) (nf : list Z) : bool := bool_decide (is_Some (m !! nf)).

Lemma nullifiers_written (mn : gmap (list Z) CNullifiersCacheEntry) (l : list (list Z * CNullifiersCacheEntry)) m :
  l ≡ₚ map_to_list mn -> forall nf,
  used (fold_left nullifiers_after (flat_map (nullifier_change (Tree := Tree)) l) m) nf = patch_nullifier (mn !! nf) (used m nf).
Proof.
  intros Hl nf. destruct (visited mn l Hl) as (Hd & Em & _).
  destruct (fold_patch (fun e m => Done (fold_left nullifiers_after (nullifier_change (Tree := Tree) e) m)) (fun _ => True) used
    (fun _ _ _ => True) patch_nullifier) with (l := l) (m := m) as (m' & E & _ & H); auto.
  - intros m' k e _ _. eexists. split; [reflexivity|]. split; [exact I|]. intros k'. cbn [nullifier_change patch_nullifier].
    destruct (has DIRTY (nullifier_flags e)); [destruct (entered e)|]; cbn [negb fold_left nullifiers_after].
    + unfold used. destruct (decide (k = k')) as [->|Hne]; [rewrite lookup_insert_eq, fn_lookup_insert; now apply bool_decide_true; eexists | now rewrite lookup_insert_ne, fn_lookup_insert_ne].
    + unfold used. destruct (decide (k = k')) as [->|Hne]; [rewrite lookup_delete_eq, fn_lookup_insert; now apply bool_decide_false; intros [? ?] | now rewrite lookup_delete_ne, fn_lookup_insert_ne].
    + symmetry. now apply fn_insert_same.
  - rewrite (fold_Done (fun m e => fold_left nullifiers_after (nullifier_change e) m)) in E. injection E as <-.
    rewrite fold_left_flat, <- Em. apply H.
Qed.
End Changes.

(** * The batches *)

Section Database.
Context {Tree : Type} {T : Trees Tree} {TL : TreesLaws Tree} (full : list (change Tree) -> bool).
Abbreviation changes := (flat_map (coin_change (Tree := Tree))).

(** What is written after some of the batches: the head, and the changes of the first entries. *)
Lemma coin_loop_spec l : forall batch done,
  exists new rest, coin_loop full l batch done = (done ++ new, rest) /\ concat new ++ rest = batch ++ changes l /\
  forall n, (0 < n <= length new)%nat -> exists l1 l2, l = l1 ++ l2 /\ concat (take n new) = batch ++ changes l1.
Proof.
  induction l as [|e l IH]; intros batch done; cbn [coin_loop].
  - exists [], batch. split; [now rewrite app_nil_r|]. split; [cbn; now rewrite app_nil_r|]. intros n Hn. cbn in Hn. lia.
  - destruct (full (batch ++ coin_change e)).
    + destruct (IH [] (done ++ [batch ++ coin_change e])) as (new & rest & E & H1 & H2). rewrite E.
      exists ((batch ++ coin_change e) :: new), rest. split; [now rewrite <- app_assoc|]. split.
      * cbn [concat flat_map]. rewrite <- app_assoc, H1. cbn [app]. now rewrite <- app_assoc.
      * intros [|n] Hn; [lia|]. cbn [take concat length] in *. destruct n as [|n].
        { exists [e], l. split; [reflexivity|]. cbn. now rewrite !app_nil_r. }
        destruct (H2 (S n)) as (l1 & l2 & -> & E2); [lia|]. exists (e :: l1), l2. split; [reflexivity|].
        rewrite E2. cbn [flat_map app]. now rewrite <- app_assoc.
    + destruct (IH (batch ++ coin_change e) done) as (new & rest & E & H1 & H2). rewrite E. exists new, rest.
      split; [reflexivity|]. split; [rewrite H1; cbn [flat_map]; now rewrite <- app_assoc|].
      intros n Hn. destruct (H2 n Hn) as (l1 & l2 & -> & E2). exists (e :: l1), l2. split; [reflexivity|].
      rewrite E2. cbn [flat_map]. now rewrite <- app_assoc.
Qed.

(** ** The state of the store *)

Definition db_state (d : store Tree) : snapshot :=
  {| unspent o := live (db_coins d !! o); anchored := known (db_anchors d); nullified := used (db_nullifiers d);
     best_block := db_GetBestBlock d; best_anchor := db_GetBestAnchor d |}.

(** The trees are under their roots: what is read is right, also after an interrupted write. *)
Definition readable (d : store Tree) : Prop := roots_ok (db_anchors d) /\ length (db_GetBestAnchor d) = 32%nat.

Definition db_ok (d : store Tree) : Prop :=
  db_head_blocks d = None /\ roots_ok (db_anchors d) /\ length (db_GetBestAnchor d) = 32%nat.

Definition shielded_changes ha la ln : list (change Tree) :=
  flat_map anchor_change la ++ flat_map nullifier_change ln ++ (if negb (Uint256.IsNull 32 ha) then [WriteBestAnchor ha] else []).

Lemma shielded_changes_only ha la ln : Forall shielded_only (shielded_changes ha la ln).
Proof.
  unfold shielded_changes. apply Forall_app. split; [apply anchor_change_only|]. apply Forall_app. split; [apply nullifier_change_only|].
  destruct (Uint256.IsNull 32 ha); now repeat constructor.
Qed.

(** The store after the head of the first batch and the coins. *)
Definition begun (hb tip : list Z) (d : store Tree) (cs : list (change Tree)) : store Tree :=
  fold_left apply_change cs (apply_change (apply_change d EraseBestBlock) (WriteHeadBlocks [hb; tip])).

Lemma batches_spec d tip hb ha lc la ln :
  old_tip hb d = Done tip -> Uint256.IsNull 32 hb = false ->
  exists bs, batches full lc hb ha la ln d = Done bs /\ (0 < length bs)%nat /\
  fold_left WriteBatch bs d = apply_change (apply_change (fold_left apply_change (shielded_changes ha la ln) (begun hb tip d (changes lc))) EraseHeadBlocks) (WriteBestBlock hb) /\
  forall n, (0 < n < length bs)%nat -> exists l1 l2, lc = l1 ++ l2 /\ fold_left WriteBatch (take n bs) d = begun hb tip d (changes l1).
Proof.
  intros Et Hb. unfold batches. rewrite Hb, Et. cbn [bind].
  destruct (coin_loop_spec lc [EraseBestBlock; WriteHeadBlocks [hb; tip]] []) as (new & rest & E & H1 & H2).
  rewrite E. cbn [app]. eexists. split; [reflexivity|]. split; [rewrite length_app; cbn; lia|]. unfold WriteBatch. split.
  - rewrite fold_left_batches, concat_app. cbn [concat]. rewrite app_nil_r.
    assert (Es : BatchWriteSapling ha la ln rest = rest ++ shielded_changes ha la ln).
    { unfold BatchWriteSapling, shielded_changes. destruct (negb _); now rewrite <- ?app_assoc, ?app_nil_r. }
    rewrite Es. repeat rewrite app_assoc. rewrite H1. unfold begun. rewrite !fold_left_app. reflexivity.
  - intros n Hn. rewrite length_app in Hn. cbn [length] in Hn. rewrite take_app_le by lia. destruct (H2 n) as (l1 & l2 & El & E2); [lia|].
    exists l1, l2. split; [exact El|]. rewrite fold_left_batches, E2. reflexivity.
Qed.

Lemma old_tip_complete hb (d : store Tree) : db_ok d -> old_tip hb d = Done (db_GetBestBlock d).
Proof. intros (Hh & _). unfold old_tip, db_GetHeadBlocks. rewrite Hh. now destruct (Uint256.IsNull 32 (db_GetBestBlock d)). Qed.

(** A store whose write was interrupted may be written again with the same new tip. *)
Lemma old_tip_torn hb tip (d : store Tree) :
  length hb = 32%nat -> Uint256.IsNull 32 (db_GetBestBlock d) = true -> db_GetHeadBlocks d = [hb; tip] -> old_tip hb d = Done tip.
Proof. intros Hl Hn Hh. unfold old_tip. rewrite Hn, Hh, same_root by assumption. now rewrite bool_decide_true. Qed.

Lemma begun_rest hb tip d l :
  let d' := begun hb tip d (changes l) in
  db_anchors d' = db_anchors d /\ db_nullifiers d' = db_nullifiers d /\ db_best_block d' = None /\
  db_head_blocks d' = Some [hb; tip] /\ db_best_anchor d' = db_best_anchor d.
Proof.
  cbn zeta. unfold begun. destruct (coin_only_rest (changes l) (apply_change (apply_change d EraseBestBlock) (WriteHeadBlocks [hb; tip])) (coin_change_only l))
    as (-> & -> & -> & -> & ->). now split_and!.
Qed.

Lemma begun_coins hb tip d l : db_coins (begun hb tip d (changes l)) = fold_left coins_after (changes l) (db_coins d).
Proof. unfold begun. now rewrite coins_put. Qed.

Lemma final_state d tip mc hb ha ma mn lc la ln :
  readable d -> lc ≡ₚ map_to_list mc -> la ≡ₚ map_to_list ma -> ln ≡ₚ map_to_list mn -> writable (db_state d) mc ma ->
  length ha = 32%nat ->
  let d' := apply_change (apply_change (fold_left apply_change (shielded_changes ha la ln) (begun hb tip d (changes lc))) EraseHeadBlocks) (WriteBestBlock hb) in
  let ha' := if Uint256.IsNull 32 ha then db_GetBestAnchor d else ha in
  db_ok d' /\ db_state d' ≡ written mc hb ha' ma mn (db_state d).
Proof.
  intros (Hr & Hl) Hlc Hla Hln [_ Hw] Hlen d' ha'.
  destruct (begun_rest hb tip d lc) as (E1 & E2 & _ & _ & E3). set (b := begun hb tip d (changes lc)) in *.
  pose proof (shielded_only_rest _ b (shielded_changes_only ha la ln)) as (E4 & _ & _).
  assert (Ea : db_anchors d' = fold_left anchors_after (flat_map anchor_change la) (db_anchors d)).
  { transitivity (db_anchors (fold_left apply_change (shielded_changes ha la ln) b)); [reflexivity|]. rewrite anchors_put, E1. unfold shielded_changes.
    rewrite !fold_left_app. rewrite (fold_left_id anchors_after (if negb _ then _ else _)) by (destruct (Uint256.IsNull 32 ha); now repeat constructor).
    apply fold_left_id, Forall_flat_map_iff. intros [nf e]. cbn [nullifier_change].
    destruct (has DIRTY (nullifier_flags e)), (entered e); now repeat constructor. }
  assert (En : db_nullifiers d' = fold_left nullifiers_after (flat_map (nullifier_change (Tree := Tree)) ln) (db_nullifiers d)).
  { transitivity (db_nullifiers (fold_left apply_change (shielded_changes ha la ln) b)); [reflexivity|]. rewrite nullifiers_put, E2. unfold shielded_changes.
    rewrite !fold_left_app. rewrite (fold_left_id nullifiers_after (if negb _ then _ else _)) by (destruct (Uint256.IsNull 32 ha); now repeat constructor).
    f_equal. apply fold_left_id, Forall_flat_map_iff. intros [rt e]. cbn [anchor_change].
    destruct (has DIRTY (anchor_flags e)), (anchor_entered e), (op_eq 32 rt empty_root); now repeat constructor. }
  destruct (anchors_written ma la (db_anchors d) Hla Hr Hw) as [A1 A2].
  assert (Eb : db_GetBestAnchor d' = ha').
  { transitivity (db_GetBestAnchor (fold_left apply_change (shielded_changes ha la ln) b)); [reflexivity|]. unfold shielded_changes, ha'.
    rewrite !fold_left_app. destruct (Uint256.IsNull 32 ha); [|reflexivity]. unfold db_GetBestAnchor. cbn [negb fold_left].
    now rewrite (best_anchor_put (flat_map nullifier_change ln)), (best_anchor_put (flat_map anchor_change la)), E3 
      by (apply Forall_flat_map_iff; intros [k e]; cbn [anchor_change nullifier_change]; repeat case_match; now repeat constructor). }
  assert (Hl' : length ha' = 32%nat) by (unfold ha'; now destruct (Uint256.IsNull 32 ha)).
  split; [split; [reflexivity|]; split; [now rewrite Ea | now rewrite Eb]|]. repeat split; cbn [db_state unspent anchored nullified written best_block best_anchor].
  - intros o. change (db_coins d') with (db_coins (fold_left apply_change (shielded_changes ha la ln) b)). rewrite E4. unfold b. rewrite begun_coins. now apply coins_written.
  - intros rt. now rewrite Ea.
  - intros nf. rewrite En. now apply nullifiers_written.
  - exact Eb.
Qed.

(** Reading needs no complete store: the condition [P] on the stores may be weaker. *)
Definition db_reads (P : store Tree -> Prop) (HP : forall d, P d -> readable d) : @ViewReads Tree (store Tree) T (db_view full).
Proof.
  refine (@Build_ViewReads Tree (store Tree) T (db_view full) P db_state _ _ _ _ _ _).
  - intros d Hd. apply (HP d Hd).
  - intros d o Hd. now exists (db_coins d !! o), d.
  - intros d Hd. now exists d.
  - intros d rt Hd Hl. cbn [GetSaplingAnchorAt db_view db_state anchored]. unfold db_GetSaplingAnchorAt, known. rewrite op_eq_empty by assumption.
    case_bool_decide as He.
    + exists (Some Tree_new), d. split_and!; [reflexivity | exact Hd | reflexivity | now rewrite He, root_new | reflexivity].
    + exists (db_anchors d !! rt), d. split_and!; [reflexivity | exact Hd | reflexivity|]. destruct (db_anchors d !! rt) as [t|] eqn:Ht.
      * split; [now apply (HP d Hd)|]. now rewrite bool_decide_true by now exists t.
      * now rewrite bool_decide_false by (intros [? ?]; discriminate).
  - intros d nf Hd. exists d. split_and!; [|exact Hd|reflexivity]. cbn. unfold db_GetNullifier, used. f_equal.
    destruct (db_nullifiers d !! nf) as [b|]; [now rewrite bool_decide_true by now exists b | now rewrite bool_decide_false by (intros [? ?]; discriminate)].
  - intros d Hd. now exists d.
Defined.

#[export] Instance db_laws : @ViewLaws Tree (store Tree) T (db_view full).
Proof.
  refine (@Build_ViewLaws Tree (store Tree) T (db_view full) (db_reads db_ok (fun d Hd => proj2 Hd)) _).
  - intros d mc hb ha ma mn lc la ln Hd Hlc Hla Hln Hw Hb Ha Hlen. cbn [BatchWrite db_view]. unfold db_BatchWrite.
    destruct (batches_spec d _ hb ha lc la ln (old_tip_complete hb d Hd) Hb) as (bs & E & _ & Ef & _). rewrite E. cbn [bind]. rewrite Ef. eexists. split; [reflexivity|].
    pose proof (final_state d (db_GetBestBlock d) mc hb ha ma mn lc la ln (proj2 Hd) Hlc Hla Hln Hw Hlen) as F. cbn zeta in F. now rewrite Ha in F.
Defined.

(** The store after a part of the batches. *)
Lemma begun_spec (d : store Tree) (mc : gmap outpoint CCoinsCacheEntry) (hb tip ha : list Z) (ma : gmap (list Z) (CAnchorsSaplingCacheEntry Tree)) (mn : gmap (list Z) CNullifiersCacheEntry) lc l1 l2 :
  lc ≡ₚ map_to_list mc -> lc = l1 ++ l2 ->
  let d' := begun hb tip d (changes l1) in
  db_GetBestBlock d' = null256 /\ db_GetHeadBlocks d' = [hb; tip] /\
  (forall o, unspent (db_state d') o = unspent (db_state d) o \/ unspent (db_state d') o = unspent (written mc hb ha ma mn (db_state d)) o) /\
  anchored (db_state d') = anchored (db_state d) /\ nullified (db_state d') = nullified (db_state d) /\
  best_anchor (db_state d') = best_anchor (db_state d).
Proof.
  intros Hlc El. cbn zeta. destruct (begun_rest hb tip d l1) as (E3 & E4 & E5 & E6 & E7). set (s := db_state d) at 2. cbn [db_state unspent anchored nullified best_anchor].
  rewrite begun_coins, E3, E4. split; [unfold db_GetBestBlock; now rewrite E5|]. split; [unfold db_GetHeadBlocks; now rewrite E6|].
  split; [|split; [reflexivity|]; split; [reflexivity|]; unfold db_GetBestAnchor; now rewrite E7].
  intros o. subst s. cbn [written unspent]. destruct (visited mc lc Hlc) as (Hnd & Em & _). rewrite El, fmap_app in Hnd. apply list.NoDup_app in Hnd as (Hnd & Hdis & _).
  rewrite (coins_written (list_to_map l1) l1) by now rewrite map_to_list_to_map.
  destruct ((list_to_map l1 : gmap outpoint CCoinsCacheEntry) !! o) as [e|] eqn:He; [right | now left].
  assert (Hmc : mc !! o = Some e); [|now rewrite Hmc]. rewrite <- Em, El, list_to_map_app. now apply lookup_union_Some_l.
Qed.

(** C22. Writing to the disk: [CCoinsViewDB::BatchWrite] writes its batches without failing an
    assertion; after the last one the store has the state with the dirty entries written and no
    head blocks. When it stops after some of the batches, the store is marked: it has no best
    block and its head blocks are the new and the old one; every coin has its old or its new
    value, and the shielded data is that of the old block. *)
Theorem database_write d mc hb ha ma mn lc la ln :
  db_ok d -> lc ≡ₚ map_to_list mc -> la ≡ₚ map_to_list ma -> ln ≡ₚ map_to_list mn -> writable (db_state d) mc ma ->
  Uint256.IsNull 32 hb = false -> Uint256.IsNull 32 ha = false -> length ha = 32%nat ->
  exists bs, batches full lc hb ha la ln d = Done bs /\
  (let d' := fold_left WriteBatch bs d in
   db_ok d' /\ db_GetHeadBlocks d' = [] /\ db_state d' ≡ written mc hb ha ma mn (db_state d)) /\
  forall n, (0 < n < length bs)%nat ->
  let d' := fold_left WriteBatch (take n bs) d in
  db_GetBestBlock d' = null256 /\ db_GetHeadBlocks d' = [hb; db_GetBestBlock d] /\
  (forall o, unspent (db_state d') o = unspent (db_state d) o \/ unspent (db_state d') o = unspent (written mc hb ha ma mn (db_state d)) o) /\
  anchored (db_state d') = anchored (db_state d) /\ nullified (db_state d') = nullified (db_state d) /\
  best_anchor (db_state d') = best_anchor (db_state d).
Proof.
  intros Hd Hlc Hla Hln Hw Hb Ha Hlen. destruct (batches_spec d _ hb ha lc la ln (old_tip_complete hb d Hd) Hb) as (bs & E & _ & Ef & Ep).
  exists bs. split; [exact E|]. split.
  { cbn zeta. rewrite Ef. pose proof (final_state d (db_GetBestBlock d) mc hb ha ma mn lc la ln (proj2 Hd) Hlc Hla Hln Hw Hlen) as F.
    cbn zeta in F. rewrite Ha in F. destruct F as [H1 H2]. split; [exact H1|]. split; [|exact H2]. unfold db_GetHeadBlocks. now rewrite (proj1 H1). }
  intros n Hn. destruct (Ep n Hn) as (l1 & l2 & El & E2). cbn zeta. rewrite E2.
  now apply (begun_spec d mc hb _ ha ma mn lc l1 l2).
Qed.
End Database.

(** ** Witness *)

(** Trees that are their root. *)
#[local] Instance small_trees : Trees Z := {| Tree_new := 1; root t := t :: repeat 0 31; empty_root := 1 :: repeat 0 31 |}.
#[local] Instance small_trees_laws : TreesLaws Z.
Proof. now split. Qed.

Definition coin_of (v : Z) : Coin :=
  {| fCoinBase := false; fCoinStake := false; out := {| nValue := v; scriptPubKey := []; nRounds := -10 |}; nHeight := 1 |}.
Definition hash_of (x : Z) : list Z := x :: repeat 0 31.
Definition entries : gmap outpoint CCoinsCacheEntry :=
  {[ (hash_of 1, 0) := {| coin := coin_of 5; flags := 1 |}; (hash_of 2, 0) := {| coin := Coin_empty; flags := 1 |} ]}.
Definition old_store : store Z :=
  {| db_coins := {[ (hash_of 2, 0) := coin_of 7 ]}; db_best_block := Some (hash_of 8); db_head_blocks := None;
     db_anchors := ∅; db_nullifiers := ∅; db_best_anchor := None |}.

Lemma database_write_witness :
  exists bs, batches (fun b => (0 <? length b)%nat) (map_to_list entries) (hash_of 9) (hash_of 1) [] [] old_store = Done bs /\
  (3 <= length bs)%nat /\
  db_GetBestBlock (fold_left WriteBatch (take 1 bs) old_store) = null256 /\
  unspent (db_state (fold_left WriteBatch bs old_store)) (hash_of 1, 0) = Some (coin_of 5) /\
  unspent (db_state (fold_left WriteBatch bs old_store)) (hash_of 2, 0) = None.
Proof.
  destruct (database_write (fun b => (0 <? length b)%nat) old_store entries (hash_of 9) (hash_of 1) ∅ ∅ (map_to_list entries) [] [])
    as (bs & E & (_ & _ & Hs) & Hn); try reflexivity.
  - split; [reflexivity|]. split; [|reflexivity]. intros rt t H. cbn in H. now rewrite lookup_empty in H.
  - split; [|intros rt e H; now rewrite lookup_empty in H]. intros o e H _ Hf. unfold entries in H.
    apply lookup_insert_Some in H as [[_ <-]|[_ H]]; [discriminate|]. apply lookup_singleton_Some in H as [_ <-]. discriminate.
  - exists bs. split; [exact E|]. assert (L : length bs = 3%nat) by (revert E; vm_compute; now intros [= <-]). split; [lia|].
    split; [exact (proj1 (Hn 1%nat ltac:(lia)))|]. destruct Hs as [Hs _]. rewrite !Hs. split; vm_compute; reflexivity.
Defined.
