(* ===== verification/CoinsCache.v ===== *)
(** [CCoinsViewCache] as an implementation of a set: sequences of calls against the abstract
    state, and [Flush] over any view, which may be another cache or the database. *)
From S2P Require Import Prelude CryptoCommon Streams Serialize Uint256 Merkle Transactions Coins CoinsProofs CoinsDB.
From stdpp Require Import base gmap list countable functions.
#[local] Open Scope Z_scope.
#[local] Open Scope word_scope.
Import CryptoCommon Uint256 Transactions.Tx Coins.Coins CoinsDB.CoinsDB.

(** * Calls *)

Inductive call (Tree : Type) :=
| CallGetCoin (o : outpoint)
| CallAccessCoin (o : outpoint)
| CallHaveCoin (o : outpoint)
| CallAddCoin (o : outpoint) (c : Coin) (possible_overwrite : bool)
| CallSpendCoin (o : outpoint)
| CallUncache (o : outpoint)
| CallHaveInputs (tx : CTransaction)
| CallGetNullifier (nf : list Z)
| CallSetNullifiers (tx : CTransaction) (spent : bool)
| CallGetSaplingAnchorAt (rt : list Z)
| CallPushAnchor (t : Tree)
| CallPopAnchor (newrt : list Z)
| CallGetBestAnchor
| CallSetBestBlock (h : list Z)
| CallGetBestBlock.
Arguments CallGetCoin {Tree}.
Arguments CallAccessCoin {Tree}.
Arguments CallHaveCoin {Tree}.
Arguments CallAddCoin {Tree}.
Arguments CallSpendCoin {Tree}.
Arguments CallUncache {Tree}.
Arguments CallHaveInputs {Tree}.
Arguments CallGetNullifier {Tree}.
Arguments CallSetNullifiers {Tree}.
Arguments CallGetSaplingAnchorAt {Tree}.
Arguments CallPushAnchor {Tree}.
Arguments CallPopAnchor {Tree}.
Arguments CallGetBestAnchor {Tree}.
Arguments CallSetBestBlock {Tree}.
Arguments CallGetBestBlock {Tree}.

(** What a caller sees; a coin that is marked as spent is no coin. *)
Inductive answer :=
| NoAnswer
| ACoin (c : option Coin)
| ABool (b : bool)
| AHash (h : list Z).

(** ** On the abstract state *)

Section Abstract.
Context {Tree : Type} {T : Trees Tree}.

Definition push (t : Tree) (s : snapshot) : snapshot :=
  if bool_decide (best_anchor s = root t) then s else with_anchor (root t) (fun f => <[root t := true]> f) s.
Definition pop (newrt : list Z) (s : snapshot) : snapshot :=
  if bool_decide (best_anchor s = newrt) then s else with_anchor newrt (fun f => <[best_anchor s := false]> f) s.

Definition effect (x : call Tree) (s : snapshot) : snapshot :=
  match x with
  | CallAddCoin o c _ => if kept c then put o (Some c) s else s
  | CallSpendCoin o => put o None s
  | CallSetNullifiers tx spent => with_nullifiers (mark spent (spends_of tx)) s
  | CallPushAnchor t => push t s
  | CallPopAnchor newrt => pop newrt s
  | CallSetBestBlock h => with_block h s
  | _ => s
  end.

Definition reply (x : call Tree) (s : snapshot) : answer :=
  match x with
  | CallGetCoin o | CallAccessCoin o | CallSpendCoin o => ACoin (unspent s o)
  | CallHaveCoin o => ABool (present s o)
  | CallHaveInputs tx => ABool (IsCoinBase tx || HasZerocoinSpendInputs tx || forallb (fun i => present s (key (prevout i))) (vin tx))
  | CallGetNullifier nf => ABool (nullified s nf)
  | CallGetSaplingAnchorAt rt => ABool (anchored s rt)
  | CallGetBestAnchor => AHash (best_anchor s)
  | CallGetBestBlock => AHash (best_block s)
  | _ => NoAnswer
  end.

(** What the callers promise: a coin that is added is not spent and replaces no coin without
    permission; roots and block hashes are hashes; only an anchor that is there, and not that of
    the empty tree, is removed. *)
Definition allowed (x : call Tree) (s : snapshot) : Prop :=
  match x with
  | CallAddCoin o c possible_overwrite => IsSpent c = false /\ (possible_overwrite = true \/ unspent s o = None)
  | CallGetSaplingAnchorAt rt => length rt = 32%nat
  | CallPushAnchor t => Uint256.IsNull 32 (root t) = false
  | CallPopAnchor newrt => Uint256.IsNull 32 newrt = false /\ length newrt = 32%nat /\
      (best_anchor s = newrt \/ best_anchor s <> empty_root /\ anchored s (best_anchor s) = true)
  | CallSetBestBlock h => Uint256.IsNull 32 h = false
  | _ => True
  end.

Fixpoint all_allowed (xs : list (call Tree)) (s : snapshot) : Prop :=
  match xs with [] => True | x :: xs => allowed x s /\ all_allowed xs (effect x s) end.
Fixpoint replies (xs : list (call Tree)) (s : snapshot) : list answer :=
  match xs with [] => [] | x :: xs => reply x s :: replies xs (effect x s) end.
Definition effects (xs : list (call Tree)) (s : snapshot) : snapshot := fold_left (fun s x => effect x s) xs s.

(** ** Equal states *)

#[export] Instance effect_proper x : Proper ((≡) ==> (≡)) (effect x).
Proof.
  intros s t E. destruct x; cbn [effect]; try exact E.
  - destruct (kept c); [now apply put_proper | exact E].
  - now apply put_proper.
  - apply with_nullifiers_proper; [intros g g'; apply mark_ext | exact E].
  - unfold push. replace (best_anchor t) with (best_anchor s) by apply E. case_bool_decide; [exact E|].
    apply with_anchor_proper; [intros g g' Hg y; now apply fn_insert_ext | exact E].
  - unfold pop. replace (best_anchor t) with (best_anchor s) by apply E. case_bool_decide; [exact E|].
    apply with_anchor_proper; [intros g g' Hg y; now apply fn_insert_ext | exact E].
  - now apply with_block_proper.
Qed.

Lemma reply_proper x s t : s ≡ t -> reply x s = reply x t.
Proof.
  intros (E1 & E2 & E3 & E4 & E5). destruct x; cbn [reply]; unfold present; try reflexivity; try (now rewrite E1); try congruence.
  do 2 f_equal. apply forallb_same. intros i. unfold present. now rewrite E1.
Qed.

Lemma allowed_proper x s t : s ≡ t -> allowed x s -> allowed x t.
Proof.
  intros (E1 & E2 & E3 & E4 & E5). destruct x; cbn [allowed]; try exact id; [now rewrite E1 | now rewrite E5, E2].
Qed.
End Abstract.

(** ** On the cache *)

Section Cache.
Context {Tree V : Type} {T : Trees Tree} {TL : TreesLaws Tree} {W : View Tree V} {L : ViewLaws Tree V}.
Abbreviation cache := (CCoinsViewCache Tree V).

Definition perform (x : call Tree) (c : cache) : outcome (answer * cache) :=
  match x with
  | CallGetCoin o => let '(r, c) := cache_GetCoin o c in Done (ACoin (live r), c)
  | CallAccessCoin o => let '(r, c) := AccessCoin o c in Done (ACoin (live (Some r)), c)
  | CallHaveCoin o => let '(r, c) := HaveCoin o c in Done (ABool r, c)
  | CallAddCoin o co possible_overwrite => let! c := AddCoin o co possible_overwrite c in Done (NoAnswer, c)
  | CallSpendCoin o => let '(r, c) := SpendCoin o c in Done (ACoin (live r), c)
  | CallUncache o => Done (NoAnswer, Uncache o c)
  | CallHaveInputs tx => let '(r, c) := HaveInputs tx c in Done (ABool r, c)
  | CallGetNullifier nf => let '(r, c) := cache_GetNullifier nf c in Done (ABool r, c)
  | CallSetNullifiers tx spent => Done (NoAnswer, SetNullifiers tx spent c)
  | CallGetSaplingAnchorAt rt => let '(r, c) := cache_GetSaplingAnchorAt rt c in Done (ABool (bool_decide (is_Some r)), c)
  | CallPushAnchor t => Done (NoAnswer, PushAnchor t c)
  | CallPopAnchor newrt => let! c := PopAnchor newrt c in Done (NoAnswer, c)
  | CallGetBestAnchor => let '(h, c) := cache_GetBestAnchor c in Done (AHash h, c)
  | CallSetBestBlock h => Done (NoAnswer, SetBestBlock h c)
  | CallGetBestBlock => let '(h, c) := cache_GetBestBlock c in Done (AHash h, c)
  end.

Fixpoint run (xs : list (call Tree)) (c : cache) : outcome (list answer * cache) :=
  match xs with
  | [] => Done ([], c)
  | x :: xs =>
      let! r := perform x c in
      let! rs := run xs (snd r) in
      Done (fst r :: fst rs, snd rs)
  end.

Lemma perform_spec x c :
  cache_ok c -> allowed x (cache_state c) ->
  exists c', perform x c = Done (reply x (cache_state c), c') /\ cache_ok c' /\ cache_state c' ≡ effect x (cache_state c).
Proof.
  intros Hc Hx. destruct x; cbn [perform reply effect allowed] in *.
  - destruct (GetCoin_cache c o Hc) as (r & c' & -> & ? & ? & <-). now exists c'.
  - destruct (AccessCoin_spec o c Hc) as (r & c' & -> & ? & ? & <-). now exists c'.
  - destruct (HaveCoin_spec o c Hc) as (c' & -> & ? & ?). now exists c'.
  - destruct (AddCoin_spec o c0 possible_overwrite c Hc (proj1 Hx) (proj2 Hx)) as (c' & -> & ? & ?). now exists c'.
  - destruct (SpendCoin_spec o c Hc) as (r & c' & -> & ? & ? & <-). now exists c'.
  - destruct (Uncache_spec o c Hc). eauto.
  - destruct (HaveInputs_spec tx c Hc) as (c' & -> & ? & ?). now exists c'.
  - destruct (GetNullifier_cache c nf Hc) as (c' & -> & ? & ?). now exists c'.
  - destruct (SetNullifiers_spec tx spent c Hc). eauto.
  - destruct (GetSaplingAnchorAt_cache c rt Hc Hx) as (r & c' & -> & ? & ? & Hr & _). exists c'. split; [|now split].
    destruct r as [t|]; [destruct Hr as (_ & -> & _) | rewrite Hr]; reflexivity.
  - destruct (PushAnchor_spec t c Hc Hx) as (c' & -> & ? & ?). now exists c'.
  - destruct Hx as (Hn & Hl & Hx). unfold pop. case_bool_decide as He.
    + subst newrt. destruct (PopAnchor_same c Hc) as (c' & -> & ? & ?). now exists c'.
    + destruct Hx as [?|[Hne Ha]]; [contradiction|]. pose proof (PopAnchor_spec newrt c Hc Hn Hl Hne He) as P. rewrite Ha in P.
      destruct P as (c' & -> & ? & ?). now exists c'.
  - destruct (GetBestAnchor_cache c Hc) as (c' & -> & ? & ?). now exists c'.
  - destruct (SetBestBlock_spec h c Hc Hx). eauto.
  - destruct (GetBestBlock_cache c Hc) as (c' & -> & ? & ?). now exists c'.
Qed.

Lemma run_spec xs : forall c s,
  cache_ok c -> cache_state c ≡ s -> all_allowed xs s ->
  exists c', run xs c = Done (replies xs s, c') /\ cache_ok c' /\ cache_state c' ≡ effects xs s.
Proof.
  induction xs as [|x xs IH]; intros c s Hc Hs Hx; cbn [run replies effects fold_left]; [now exists c|].
  destruct Hx as [Hx Hxs]. destruct (perform_spec x c Hc) as (c1 & E & Hc1 & Hs1); [symmetry in Hs; now apply (allowed_proper x s)|].
  rewrite E. cbn [bind fst snd]. destruct (IH c1 (effect x s) Hc1) as (c2 & E2 & Hc2 & Hs2); [now rewrite Hs1, Hs | exact Hxs |].
  exists c2. rewrite E2. cbn [bind fst snd]. now rewrite (reply_proper x (cache_state c) s Hs).
Qed.

Lemma run_app xs ys : forall c, run (xs ++ ys) c = let! r := run xs c in let! q := run ys (snd r) in Done (fst r ++ fst q, snd q).
Proof.
  induction xs as [|x xs IH]; intros c; cbn [app run bind fst snd].
  - destruct (run ys c) as [[l c']| | | |]; reflexivity.
  - destruct (perform x c) as [[a c1]| | | |]; cbn [bind fst snd]; [rewrite IH | reflexivity..].
    destruct (run xs c1) as [[l c2]| | | |]; cbn [bind fst snd]; [|reflexivity..]. now destruct (run ys c2) as [[q c3]| | | |].
Qed.

Lemma GetBestAnchor_kept (c : cache) h c' : cache_GetBestAnchor c = (h, c') -> hashBlock c' = hashBlock c /\ hashSaplingAnchor c' = h.
Proof.
  unfold cache_GetBestAnchor. destruct (Uint256.IsNull 32 (hashSaplingAnchor c)); [destruct (GetBestAnchor (base c)) as [b v]|]; now intros [= <- <-].
Qed.

(** C6. The cache of coins is a set: over any view that keeps its promise, each sequence of calls
    that the callers may make ends without an exception, gives the answers of the abstract set
    of unspent outputs, nullifiers and anchors, and leaves a cache that stands for the changed
    set, whatever was cached, dirty or fresh before. *)
Theorem cache_refines (xs : list (call Tree)) (c : cache) :
  cache_ok c -> all_allowed xs (cache_state c) ->
  exists c', run xs c = Done (replies xs (cache_state c), c') /\ cache_ok c' /\ cache_state c' ≡ effects xs (cache_state c).
Proof. intros Hc Hx. now apply run_spec. Qed.

(** C7. [Flush] hands everything on: after the calls and a new best block, flushing a new cache
    succeeds, in every order of visiting its maps, and the view below, which may itself be a
    cache, then stands for the changed set, while the cache is empty and stands for the same. *)
Theorem cache_flush {O : Visit} (v : V) (xs : list (call Tree)) (h : list Z) :
  ok v -> all_allowed xs (state v) -> Uint256.IsNull 32 h = false -> Uint256.IsNull 32 (best_anchor (effects xs (state v))) = false ->
  exists c', (let! r := run (xs ++ [CallSetBestBlock h; CallGetBestAnchor]) (CCoinsViewCache_of v) in Flush (snd r)) = Done (true, c') /\
    ok (base c') /\ state (base c') ≡ with_block h (effects xs (state v)) /\
    cache_ok c' /\ cache_state c' ≡ state (base c') /\ cacheCoins c' = ∅.
Proof.
  intros Hv Hx Hh Ha. destruct (new_cache_ok v Hv) as [H0 H1]. rewrite run_app.
  destruct (run_spec xs _ _ H0 H1 Hx) as (c1 & -> & Hc1 & Hs1). cbn [bind snd run perform].
  destruct (SetBestBlock_spec h c1 Hc1 Hh) as [Hc2 Hs2]. destruct (GetBestAnchor_cache (SetBestBlock h c1) Hc2) as (c3 & E & Hc3 & Hs3).
  assert (E4 : hashBlock c3 = h /\ hashSaplingAnchor c3 = best_anchor (effects xs (state v))).
  { destruct Hs1 as (_ & _ & _ & _ & <-). change (best_anchor (cache_state c1)) with (best_anchor (cache_state (SetBestBlock h c1))).
    exact (GetBestAnchor_kept _ _ _ E). }
  rewrite E. cbn [bind fst snd]. destruct E4 as [E4 E5]. destruct (Flush_spec c3 Hc3) as (c' & -> & Hc' & Hs' & Hb & Hm & _); [now rewrite E4 | now rewrite E5 |].
  exists c'. split; [reflexivity|]. split; [apply Hc'|]. split; [now rewrite Hb, Hs3, Hs2, Hs1|]. split; [exact Hc'|]. split; [now rewrite Hs', Hb | exact Hm].
Qed.
End Cache.

(** ** Witnesses *)

#[local] Existing Instance small_trees.
#[local] Existing Instance small_trees_laws.
#[local] Instance store_view : View Z (store Z) := db_view (fun b => (1 <? length b)%nat).
#[local] Instance store_laws : ViewLaws Z (store Z) := db_laws (fun b => (1 <? length b)%nat).
#[local] Instance in_order : Visit := {| visit K A _ _ m := map_to_list m; visit_all K A _ _ m := reflexivity _ |}.

Lemma old_store_ok : db_ok old_store.
Proof. split; [reflexivity|]. split; [|reflexivity]. intros rt t H. cbn in H. now rewrite lookup_empty in H. Qed.

Definition some_calls : list (call Z) :=
  [CallAddCoin (hash_of 3, 0) (coin_of 5) false; CallHaveCoin (hash_of 2, 0); CallSpendCoin (hash_of 2, 0);
   CallHaveCoin (hash_of 2, 0); CallPushAnchor 6; CallUncache (hash_of 3, 0); CallGetCoin (hash_of 3, 0)].

Lemma some_calls_allowed : all_allowed some_calls (db_state old_store).
Proof. repeat split; right; reflexivity. Qed.

Lemma cache_refines_witness :
  exists c', run some_calls (CCoinsViewCache_of old_store) =
    Done ([NoAnswer; ABool true; ACoin (Some (coin_of 7)); ABool false; NoAnswer; NoAnswer; ACoin (Some (coin_of 5))], c').
Proof.
  destruct (cache_refines some_calls (CCoinsViewCache_of old_store)) as (c' & E & _).
  - exact (proj1 (new_cache_ok old_store old_store_ok)).
  - exact some_calls_allowed.
  - exists c'. exact E.
Defined.

(** A cache over a cache over the database. *)
Lemma cache_flush_witness :
  exists c', (let! r := run (some_calls ++ [CallSetBestBlock (hash_of 9); CallGetBestAnchor]) (CCoinsViewCache_of (CCoinsViewCache_of old_store)) in
              Flush (snd r)) = Done (true, c') /\
    unspent (cache_state (base c')) (hash_of 3, 0) = Some (coin_of 5) /\ unspent (cache_state (base c')) (hash_of 2, 0) = None /\
    best_anchor (cache_state (base c')) = hash_of 6.
Proof.
  destruct (cache_flush (CCoinsViewCache_of old_store) some_calls (hash_of 9)) as (c' & E & _ & (Hs & _ & _ & _ & Ha) & _).
  - exact (proj1 (new_cache_ok old_store old_store_ok)).
  - exact some_calls_allowed.
  - reflexivity.
  - reflexivity.
  - exists c'. split; [exact E|]. split; [exact (Hs (hash_of 3, 0))|]. split; [exact (Hs (hash_of 2, 0)) | exact Ha].
Defined.
