(* ===== verification/ConnectCoins.v ===== *)
(** validation.cpp and coins.cpp: what connecting a block does to a cache of coins, undoing it
    with the data of undo.h, and doing it again after an interrupted write. *)
From S2P Require Import Prelude CryptoCommon Streams Serialize Uint256 Merkle Transactions Coins.
From stdpp Require Import base gmap list countable.
#[local] Open Scope Z_scope.
#[local] Open Scope word_scope.
Import CryptoCommon Uint256 Transactions.Tx Coins.Coins.

Module ConnectCoins.

(** The undo data of a transaction: the coins that its inputs spent. *)
Record CTxUndo := { vprevout : list Coin }.
Definition CTxUndo_empty : CTxUndo := {| vprevout := [] |}.

Inductive DisconnectResult := DISCONNECT_OK | DISCONNECT_UNCLEAN | DISCONNECT_FAILED.

(** [operator==] of [CTxOut]. *)
Definition CTxOut_eq (a b : CTxOut) : bool :=
  (nValue a =? nValue b) && bool_decide (scriptPubKey a = scriptPubKey b) && (nRounds a =? nRounds b).

(** 2000000 bytes of a block over the 9 of the smallest output. *)
Definition MAX_OUTPUTS_PER_BLOCK : Z := 2000000 / GetSerializeSize CTxOutF CTxOut_null.

Section Connect.
Context {sizes : Sizes} {Tree V : Type} {T : Trees Tree} {W : View Tree V}.
Abbreviation cache := (CCoinsViewCache Tree V).

(** The buffer of the hasher of [ComputeHash], and [invalid_out::setInvalidOutPoints]. *)
Context (buf : list Z) (ContainsOutPoint : outpoint -> bool).

(** ** Connecting *)

Fixpoint AddCoins_loop (txid : list Z) (i : Z) (vout : list CTxOut) (nHeight : Z) (fCoinbase fCoinstake check fSkipInvalid : bool)
    (c : cache) : outcome cache :=
  match vout with
  | [] => Done c
  | txout :: vout =>
      let o := (txid, w32 i) in
      if fSkipInvalid && ContainsOutPoint o then
        AddCoins_loop txid (i + 1) vout nHeight fCoinbase fCoinstake check fSkipInvalid (snd (SpendCoin o c))
      else
        let '(overwrite, c) := if check then HaveCoin o c else (false, c) in
        let coin := {| fCoinBase := fCoinbase; fCoinStake := fCoinstake; out := txout; nHeight := w32 nHeight |} in
        let! c := AddCoin o coin overwrite c in
        AddCoins_loop txid (i + 1) vout nHeight fCoinbase fCoinstake check fSkipInvalid c
  end.
Definition AddCoins (tx : CTransaction) (nHeight : Z) (check fSkipInvalid : bool) (c : cache) : outcome cache :=
  AddCoins_loop (ComputeHash buf tx) 0 (vout tx) nHeight (IsCoinBase tx) (IsCoinStake tx) check fSkipInvalid c.

Fixpoint spend_inputs (vin : list CTxIn) (vprevout : list Coin) (c : cache) : list Coin * cache :=
  match vin with
  | [] => (vprevout, c)
  | txin :: vin =>
      let '(moved, c) := SpendCoin (key (prevout txin)) c in
      spend_inputs vin (vprevout ++ [default Coin_empty moved]) c
  end.
Definition UpdateCoins (tx : CTransaction) (txundo : CTxUndo) (nHeight : Z) (fSkipInvalid : bool) (c : cache) : outcome (CTxUndo * cache) :=
  let '(vprevout, c) :=
    if negb (IsCoinBase tx) && negb (HasZerocoinSpendInputs tx) then spend_inputs (vin tx) (vprevout txundo) c
    else (vprevout txundo, c) in
  let c := SetNullifiers tx true c in
  let! c := AddCoins tx nHeight false fSkipInvalid c in
  Done ({| vprevout := vprevout |}, c).

(** The calls of [ConnectBlock] for one transaction that concern the view: [None] when it
    rejects the block. [ParseAndValidateZerocoinSpends] is about zerocoins alone. *)
Context (isV5UpgradeEnforced : bool) (ParseAndValidateZerocoinSpends : CTransaction -> bool).

Definition check_available (tx : CTransaction) (c : cache) : bool * cache :=
  if negb isV5UpgradeEnforced && HasZerocoinSpendInputs tx then (ParseAndValidateZerocoinSpends tx, c)
  else if negb (IsCoinBase tx) then
    let '(found, c) := HaveInputs tx c in
    if negb found then (false, c) else HaveShieldedRequirements tx c
  else (true, c).

(** The loop over the transactions; [first] tells whether the index is 0. *)
Fixpoint connect_txs (first : bool) (vtx : list CTransaction) (vtxundo : list CTxUndo) (nHeight : Z) (fSkipInvalid : bool) (c : cache)
  : outcome (option (list CTxUndo) * cache) :=
  match vtx with
  | [] => Done (Some vtxundo, c)
  | tx :: vtx =>
      let '(available, c) := check_available tx c in
      if negb available then Done (None, c)
      else
        let! r := UpdateCoins tx CTxUndo_empty nHeight fSkipInvalid c in
        let vtxundo := if first then vtxundo else vtxundo ++ [fst r] in
        connect_txs false vtx vtxundo nHeight fSkipInvalid (snd r)
  end.

(** With the tree after the block's commitments and the hash of the block. *)
Definition ConnectBlock_view (vtx : list CTransaction) (nHeight : Z) (fSkipInvalid : bool) (sapling_tree : Tree) (blockHash : list Z) (c : cache)
  : outcome (option (list CTxUndo) * cache) :=
  let! r := connect_txs true vtx [] nHeight fSkipInvalid c in
  let '(vtxundo, c) := r in
  match vtxundo with
  | None => Done (None, c)
  | Some _ => Done (vtxundo, SetBestBlock blockHash (PushAnchor sapling_tree c))
  end.

(** ** Disconnecting *)

Fixpoint AccessByTxid_loop (fuel : nat) (txid : list Z) (i : Z) (c : cache) : Coin * cache :=
  match fuel with
  | O => (Coin_empty, c)
  | S fuel =>
      let '(alternate, c) := AccessCoin (txid, i) c in
      if negb (IsSpent alternate) then (alternate, c) else AccessByTxid_loop fuel txid (i + 1) c
  end.
Definition AccessByTxid (txid : list Z) (c : cache) : Coin * cache :=
  AccessByTxid_loop (Z.to_nat MAX_OUTPUTS_PER_BLOCK) txid 0 c.

Definition ApplyTxInUndo (undo : Coin) (o : outpoint) (c : cache) : outcome (DisconnectResult * cache) :=
  let '(have, c) := HaveCoin o c in
  let fClean := negb have in
  let '(undo, failed, c) :=
    if nHeight undo =? 0 then
      let '(alternate, c) := AccessByTxid (fst o) c in
      if negb (IsSpent alternate) then
        ({| fCoinBase := fCoinBase alternate; fCoinStake := fCoinStake alternate; out := out undo; nHeight := nHeight alternate |}, false, c)
      else (undo, true, c)
    else (undo, false, c) in
  if failed : bool then Done (DISCONNECT_FAILED, c)
  else
    let! c := AddCoin o undo (negb fClean) c in
    Done ((if fClean then DISCONNECT_OK else DISCONNECT_UNCLEAN), c).

(** The outputs of a transaction, checked against the coins that are there. *)
Fixpoint spend_outputs (txid : list Z) (i : Z) (vout : list CTxOut) (fClean : bool) (c : cache) : bool * cache :=
  match vout with
  | [] => (fClean, c)
  | txout :: vout =>
      if negb (IsUnspendable (scriptPubKey txout)) && negb (CTxOut_IsZerocoinMint txout) then
        let '(moved, c) := SpendCoin (txid, w32 i) c in
        let coin := default Coin_empty moved in
        spend_outputs txid (i + 1) vout (if negb (CTxOut_eq txout (out coin)) then false else fClean) c
      else spend_outputs txid (i + 1) vout fClean c
  end.

(** The inputs with their coins, in the order in which they are restored; [None] is
    [DISCONNECT_FAILED]. *)
Fixpoint restore_inputs (l : list (CTxIn * Coin)) (fClean : bool) (c : cache) : outcome (option bool * cache) :=
  match l with
  | [] => Done (Some fClean, c)
  | (txin, undo) :: l =>
      let! r := ApplyTxInUndo undo (key (prevout txin)) c in
      match fst r with
      | DISCONNECT_FAILED => Done (None, snd r)
      | DISCONNECT_OK => restore_inputs l fClean (snd r)
      | DISCONNECT_UNCLEAN => restore_inputs l false (snd r)
      end
  end.

(** The legacy database of zerocoins answers for itself. *)
Context (DisconnectZerocoinTx : CTransaction -> bool).

(** One turn of the loop of [DisconnectBlock], without the object of the budget manager that
    is removed; [undo] is [None] for the first transaction, which has no undo data. *)
Definition disconnect_tx (tx : CTransaction) (undo : option CTxUndo) (fClean : bool) (c : cache) : outcome (option bool * cache) :=
  if negb (DisconnectZerocoinTx tx) then Done (None, c)
  else
    let '(fClean, c) := spend_outputs (ComputeHash buf tx) 0 (vout tx) fClean c in
    if IsCoinBase tx || HasZerocoinSpendInputs tx then Done (Some fClean, c)
    else
      let c := SetNullifiers tx false c in
      match undo with
      | None => OutOfBounds
      | Some txundo =>
          if negb (length (vprevout txundo) =? length (vin tx))%nat then Done (None, c)
          else restore_inputs (rev (combine (vin tx) (vprevout txundo))) fClean c
      end.

Fixpoint disconnect_txs (l : list (CTransaction * option CTxUndo)) (fClean : bool) (c : cache) : outcome (option bool * cache) :=
  match l with
  | [] => Done (Some fClean, c)
  | (tx, undo) :: l =>
      let! r := disconnect_tx tx undo fClean c in
      match fst r with
      | None => Done (None, snd r)
      | Some fClean => disconnect_txs l fClean (snd r)
      end
  end.

(** [DisconnectBlock] from its check of the undo data to the best block; the anchor and the hash
    are those of the previous block. *)
Definition DisconnectBlock_view (vtx : list CTransaction) (vtxundo : list CTxUndo) (prevAnchor prevHash : list Z) (c : cache)
  : outcome (DisconnectResult * cache) :=
  if negb (S (length vtxundo) =? length vtx)%nat then Done (DISCONNECT_FAILED, c)
  else
    let! r := disconnect_txs (rev (combine vtx (None :: map Some vtxundo))) true c in
    match fst r with
    | None => Done (DISCONNECT_FAILED, snd r)
    | Some fClean =>
        let! c := PopAnchor prevAnchor (snd r) in
        Done ((if fClean : bool then DISCONNECT_OK else DISCONNECT_UNCLEAN), SetBestBlock prevHash c)
    end.

(** ** Doing it again *)

Fixpoint spend_again (vin : list CTxIn) (c : cache) : cache :=
  match vin with
  | [] => c
  | txin :: vin => spend_again vin (snd (SpendCoin (key (prevout txin)) c))
  end.

Fixpoint RollforwardBlock (vtx : list CTransaction) (nHeight : Z) (fSkipInvalid : bool) (c : cache) : outcome cache :=
  match vtx with
  | [] => Done c
  | tx :: vtx =>
      let c := if negb (IsCoinBase tx) then spend_again (vin tx) c else c in
      let! c := AddCoins tx nHeight true fSkipInvalid c in
      RollforwardBlock vtx nHeight fSkipInvalid c
  end.

(** What the loop of [ReplayBlocks] from the fork to the new tip does with the blocks that it reads
    and their heights. *)
Fixpoint replay_forward (blocks : list (Z * list CTransaction)) (fSkipInvalid : Z -> bool) (c : cache) : outcome cache :=
  match blocks with
  | [] => Done c
  | (nHeight, vtx) :: blocks =>
      let! c := RollforwardBlock vtx nHeight (fSkipInvalid nHeight) c in
      replay_forward blocks fSkipInvalid c
  end.
End Connect.

End ConnectCoins.
