(* ===== verification/ConnectProofs.v ===== *)
(** Connecting and disconnecting blocks on the set that a cache of coins stands for: what a
    block does to it, that disconnecting undoes it, and which coins rolling forward leaves. *)
From S2P Require Import Prelude CryptoCommon Streams Serialize Uint256 Merkle Transactions TransactionsProofs Coins CoinsProofs CoinsDB CoinsCache ConnectCoins.
From stdpp Require Import base gmap list countable functions.
#[local] Open Scope Z_scope.
#[local] Open Scope word_scope.
Import CryptoCommon Uint256 Transactions.Tx Coins.Coins ConnectCoins.ConnectCoins.

(** * Sequences of changes to the coins *)

Definition puts (l : list (outpoint * option Coin)) (s : snapshot) : snapshot := fold_left (fun s x => put (fst x) (snd x) s) l s.

#[export] Instance puts_proper l : Proper ((≡) ==> (≡)) (puts l).
Proof. induction l as [|x l IH]; intros s t E; [exact E|]. apply IH. now rewrite E. Qed.

Lemma puts_app l1 l2 s : puts (l1 ++ l2) s = puts l2 (puts l1 s).
Proof. unfold puts. apply fold_left_app. Qed.

Lemma puts_rest l s :
  anchored (puts l s) = anchored s /\ nullified (puts l s) = nullified s /\ best_block (puts l s) = best_block s /\ best_anchor (puts l s) = best_anchor s.
Proof. revert s. induction l as [|x l IH]; intros s; [now split_and!|]. destruct (IH (put (fst x) (snd x) s)) as (? & ? & ? & ?). now split_and!. Qed.

Lemma puts_other l s o : o ∉ l.*1 -> unspent (puts l s) o = unspent s o.
Proof.
  revert s. induction l as [|[k u] l IH]; intros s Ho; [reflexivity|]. rewrite fmap_cons in Ho. apply not_elem_of_cons in Ho as [Hne Ho].
  cbn [puts fold_left fst snd]. etransitivity; [now apply IH|]. cbn [put unspent]. now rewrite fn_lookup_insert_ne by (intros ->; now apply Hne).
Qed.

Lemma puts_here l s o u : NoDup l.*1 -> (o, u) ∈ l -> unspent (puts l s) o = u.
Proof.
  revert s. induction l as [|[k w] l IH]; intros s Hd Hin; [now apply not_elem_of_nil in Hin|].
  rewrite fmap_cons in Hd. apply list.NoDup_cons in Hd as [Hk Hd]. apply elem_of_cons in Hin as [[= -> ->]|Hin]; [|now apply IH].
  cbn [puts fold_left fst snd]. etransitivity; [now apply puts_other|]. cbn [put unspent]. apply fn_lookup_insert.
Qed.

(** The last change of every coin decides: from a state where each coin has its value before or
    after a sequence of changes, the same changes lead to the same coins. *)
Lemma puts_again l : forall s t,
  (forall o, unspent t o = unspent s o \/ unspent t o = unspent (puts l s) o) -> forall o, unspent (puts l t) o = unspent (puts l s) o.
Proof.
  induction l as [|[k u] l IH]; intros s t H o; [destruct (H o); assumption|]. cbn [puts fold_left fst snd]. apply IH. intros o'.
  cbn [put unspent]. destruct (decide (k = o')) as [->|Hne]; [left; now rewrite !fn_lookup_insert|].
  rewrite !fn_lookup_insert_ne by assumption. apply H.
Qed.

(** * Transactions *)

Section Tx.
Context {sizes : Sizes} (buf : list Z).
Abbreviation txid := (ComputeHash buf).

Definition coin_of_out (tx : CTransaction) (height : Z) (o : CTxOut) : Coin :=
  {| fCoinBase := IsCoinBase tx; fCoinStake := IsCoinStake tx; out := o; nHeight := w32 height |}.

(** The coins that the outputs of a transaction make. *)
Fixpoint outputs_from (id : list Z) (mk : CTxOut -> Coin) (i : Z) (vout : list CTxOut) : list (outpoint * Coin) :=
  match vout with
  | [] => []
  | o :: vout => (if kept (mk o) then [((id, w32 i), mk o)] else []) ++ outputs_from id mk (i + 1) vout
  end.
Definition outputs (height : Z) (tx : CTransaction) : list (outpoint * Coin) := outputs_from (txid tx) (coin_of_out tx height) 0 (vout tx).

(** The coins that it spends. *)
Definition spends_coins (tx : CTransaction) : bool := negb (IsCoinBase tx) && negb (HasZerocoinSpendInputs tx).
Definition inputs (tx : CTransaction) : list outpoint := if spends_coins tx then map (fun i => key (prevout i)) (vin tx) else [].

Definition removed (os : list outpoint) : list (outpoint * option Coin) := map (fun o => (o, None)) os.
Definition created (l : list (outpoint * Coin)) : list (outpoint * option Coin) := map (fun x => (fst x, Some (snd x))) l.

(** What connecting a transaction does to the set. *)
Definition changes (height : Z) (tx : CTransaction) : list (outpoint * option Coin) := removed (inputs tx) ++ created (outputs height tx).
Definition connected (height : Z) (tx : CTransaction) (s : snapshot) : snapshot :=
  puts (created (outputs height tx)) (with_nullifiers (mark true (spends_of tx)) (puts (removed (inputs tx)) s)).

#[export] Instance connected_proper height tx : Proper ((≡) ==> (≡)) (connected height tx).
Proof. intros s t E. unfold connected. apply puts_proper, with_nullifiers_proper; [intros g g'; apply mark_ext | now rewrite E]. Qed.

Lemma unspent_connected height tx s o : unspent (connected height tx s) o = unspent (puts (changes height tx) s) o.
Proof.
  unfold connected, changes. rewrite puts_app. generalize (created (outputs height tx)). intros l.
  generalize (puts (removed (inputs tx)) s). intros t. symmetry. revert t.
  assert (P : forall t1 t2, (forall o, unspent t1 o = unspent t2 o) -> forall o, unspent (puts l t1) o = unspent (puts l t2) o).
  { induction l as [|x l IH]; intros t1 t2 H; [exact H|]. apply IH. intros o'. cbn [put unspent]. now apply fn_insert_ext. }
  intros t. now apply P.
Qed.

Lemma fst_removed os : (removed os).*1 = os.
Proof. unfold removed. induction os as [|o os IH]; [reflexivity|]. cbn. f_equal. exact IH. Qed.
Lemma fst_created l : (created l).*1 = l.*1.
Proof. unfold created. induction l as [|x l IH]; [reflexivity|]. cbn. f_equal. exact IH. Qed.

(** Different indices are different outpoints. *)
Lemma outputs_from_index id mk vout : forall i o c,
  (o, c) ∈ outputs_from id mk i vout -> exists j, i <= j < i + Z.of_nat (length vout) /\ o = (id, w32 j) /\ kept c = true.
Proof.
  induction vout as [|t vout IH]; intros i o c Hin; [now apply not_elem_of_nil in Hin|]. cbn [outputs_from length] in *.
  apply elem_of_app in Hin as [Hin|Hin].
  - destruct (kept (mk t)) eqn:Hk; [|now apply not_elem_of_nil in Hin]. apply list_elem_of_singleton in Hin as [= -> ->]. exists i. split; [lia | now split].
  - destruct (IH _ _ _ Hin) as (j & Hj & ? & ?). exists j. split; [lia | now split].
Qed.

Lemma outputs_from_NoDup id mk vout : forall i,
  0 <= i -> i + Z.of_nat (length vout) <= 2 ^ 32 -> NoDup (outputs_from id mk i vout).*1.
Proof.
  induction vout as [|t vout IH]; intros i Hi Hl; cbn [outputs_from length] in *; [constructor|].
  rewrite fmap_app. apply list.NoDup_app. split; [destruct (kept (mk t)); cbn; [apply NoDup_singleton | constructor]|]. split; [|apply IH; lia].
  intros o Ho. destruct (kept (mk t)); cbn in Ho; [|now apply not_elem_of_nil in Ho]. apply list_elem_of_singleton in Ho as ->.
  intros Hin. apply list_elem_of_fmap in Hin as ([o c] & E & Hin). apply outputs_from_index in Hin as (j & Hj & -> & _). cbn [fst] in E.
  injection E as E. unfold w32 in E. rewrite !Z.mod_small in E by lia. lia.
Qed.
End Tx.

(** * The loops on a cache *)

Section Cache.
Context {sizes : Sizes} {Tree V : Type} {T : Trees Tree} {TL : TreesLaws Tree} {W : View Tree V} {L : ViewReads Tree V}.
Context (buf : list Z) (invalid : outpoint -> bool).
Abbreviation cache := (CCoinsViewCache Tree V).
Abbreviation txid := (ComputeHash buf).

Definition moved_from (s : snapshot) : list outpoint -> list Coin -> Prop := Forall2 (fun o u => live (Some u) = unspent s o).

Lemma moved_from_ext s t os cs : (forall o, o ∈ os -> unspent s o = unspent t o) -> moved_from s os cs -> moved_from t os cs.
Proof.
  intros H F. induction F as [|o u os cs Ho F IH]; constructor.
  - rewrite Ho. apply H, list_elem_of_here.
  - apply IH. intros o' Ho'. now apply H, list_elem_of_further.
Qed.

Lemma spend_inputs_spec vin : forall acc (c : cache),
  let os := map (fun i => key (prevout i)) vin in
  cache_ok c -> NoDup os ->
  exists cs c', spend_inputs vin acc c = (acc ++ cs, c') /\ cache_ok c' /\ cache_state c' ≡ puts (removed os) (cache_state c) /\
  moved_from (cache_state c) os cs.
Proof.
  induction vin as [|i vin IH]; intros acc c os Hc Hd; cbn [spend_inputs].
  - exists [], c. rewrite app_nil_r. split_and!; try reflexivity; [exact Hc | constructor].
  - subst os. cbn [map] in Hd. apply list.NoDup_cons in Hd as [Hi Hd]. destruct (SpendCoin_spec (key (prevout i)) c Hc) as (r & c1 & E & Hc1 & Hs1 & Hr).
    rewrite E. destruct (IH (acc ++ [default Coin_empty r]) c1 Hc1 Hd) as (cs & c2 & E2 & Hc2 & Hs2 & Hm). rewrite E2.
    exists (default Coin_empty r :: cs), c2. split; [now rewrite <- app_assoc|]. split; [exact Hc2|]. split.
    + cbn [map removed puts fold_left fst snd]. now rewrite Hs2, Hs1.
    + constructor; [rewrite <- Hr; now destruct r|]. eapply moved_from_ext; [|exact Hm]. intros o Ho. rewrite (proj1 Hs1).
      cbn [put unspent]. apply fn_lookup_insert_ne. now intros <-.
Qed.

Lemma spend_again_spec vin : forall c : cache,
  cache_ok c -> cache_ok (spend_again vin c) /\ cache_state (spend_again vin c) ≡ puts (removed (map (fun i => key (prevout i)) vin)) (cache_state c).
Proof.
  induction vin as [|i vin IH]; intros c Hc; [now split|]. cbn [spend_again map removed puts fold_left fst snd].
  destruct (SpendCoin_spec (key (prevout i)) c Hc) as (r & c1 & E & Hc1 & Hs1 & _). rewrite E. cbn [snd].
  destruct (IH c1 Hc1) as [H1 H2]. split; [exact H1|]. now rewrite H2, Hs1.
Qed.

(** With [check], or with new outputs. *)
Lemma AddCoins_loop_spec id height cb cs check vout : forall i (c : cache),
  let mk o := {| fCoinBase := cb; fCoinStake := cs; out := o; nHeight := w32 height |} in
  cache_ok c -> Forall (fun o => CTxOut_IsNull o = false) vout -> 0 <= i -> i + Z.of_nat (length vout) <= 2 ^ 32 ->
  check = true \/ (forall o u, (o, u) ∈ outputs_from id mk i vout -> unspent (cache_state c) o = None) ->
  exists c', AddCoins_loop invalid id i vout height cb cs check false c = Done c' /\ cache_ok c' /\
    cache_state c' ≡ puts (created (outputs_from id mk i vout)) (cache_state c).
Proof.
  induction vout as [|o vout IH]; intros i c mk Hc Hv Hi Hl Hf; cbn [AddCoins_loop outputs_from andb]; [now exists c|].
  inversion_clear Hv as [|? ? Ho Hv']. cbn [length] in Hl.
  assert (E : exists b c1, (if check then HaveCoin (id, w32 i) c else (false, c)) = (b, c1) /\ cache_ok c1 /\ cache_state c1 ≡ cache_state c /\
    (b = true \/ kept (mk o) = false \/ unspent (cache_state c1) (id, w32 i) = None)).
  { destruct check.
    - destruct (HaveCoin_spec (id, w32 i) c Hc) as (c1 & E & Hc1 & Hs1). exists (bool_decide (is_Some (unspent (cache_state c) (id, w32 i)))), c1.
      split; [exact E|]. split; [exact Hc1|]. split; [exact Hs1|]. rewrite (proj1 Hs1). case_bool_decide as Hb; [now left|].
      right; right. now apply eq_None_not_Some.
    - exists false, c. split_and!; try reflexivity; [exact Hc|]. right. destruct (kept (mk o)) eqn:Hk; [right | now left].
      destruct Hf as [|Hf]; [discriminate|]. apply (Hf _ (mk o)). cbn [outputs_from]. rewrite Hk. apply elem_of_app. left. now apply list_elem_of_singleton. }
  destruct E as (b & c1 & E & Hc1 & Hs1 & Hb). rewrite E. fold (mk o).
  assert (A : exists c2, AddCoin (id, w32 i) (mk o) b c1 = Done c2 /\ cache_ok c2 /\
    cache_state c2 ≡ puts (created (if kept (mk o) then [((id, w32 i), mk o)] else [])) (cache_state c1)).
  { destruct (kept (mk o)) eqn:Hk.
    - destruct (AddCoin_spec (id, w32 i) (mk o) b c1 Hc1) as (c2 & E2 & Hc2 & Hs2); [exact Ho | destruct Hb as [Hb|[Hb|Hb]]; [now left | congruence | now right] |].
      rewrite Hk in Hs2. now exists c2.
    - exists c1. split; [|now split]. unfold AddCoin. change (IsSpent (mk o)) with (CTxOut_IsNull o). rewrite Ho. unfold kept in Hk.
      apply andb_false_iff in Hk as [Hk|Hk]; apply negb_false_iff in Hk; rewrite Hk; [reflexivity|]. now destruct (IsUnspendable _). }
  destruct A as (c2 & E2 & Hc2 & Hs2). rewrite E2. cbn [bind].
  destruct (IH (i + 1) c2 Hc2 Hv') as (c3 & E3 & Hc3 & Hs3); [lia | lia | |].
  - destruct Hf as [->|Hf]; [now left | right]. intros o' u Hin. rewrite (proj1 Hs2), puts_other, (proj1 Hs1).
    + apply (Hf o' u). cbn [outputs_from]. apply elem_of_app. now right.
    + rewrite fst_created. apply outputs_from_index in Hin as (j & Hj & -> & _). destruct (kept (mk o)); cbn; [|apply not_elem_of_nil].
      rewrite list_elem_of_singleton. intros [= E']. unfold w32 in E'. rewrite !Z.mod_small in E' by lia. lia.
  - exists c3. split; [exact E3|]. split; [exact Hc3|]. rewrite Hs3, Hs2, Hs1. unfold created. now rewrite map_app, puts_app.
Qed.

(** ** Connecting one transaction *)

(** What the checks of transactions ensure. *)
Definition well_formed (tx : CTransaction) : Prop :=
  Forall (fun o => CTxOut_IsNull o = false) (vout tx) /\ Z.of_nat (length (vout tx)) <= 2 ^ 32 /\ NoDup (inputs tx) /\
  anchors_shape (spends_of tx) /\ (spends_of tx <> [] -> spends_coins tx = true /\ IsShieldedTx tx = true).

(** No output that is there is made again. *)
Definition new_outputs (height : Z) (tx : CTransaction) (s : snapshot) : Prop :=
  forall o c, (o, c) ∈ outputs buf height tx -> unspent s o = None.

Lemma UpdateCoins_spec tx height (c : cache) :
  cache_ok c -> well_formed tx -> new_outputs height tx (cache_state c) ->
  exists cs c', UpdateCoins buf invalid tx CTxUndo_empty height false c = Done ({| vprevout := cs |}, c') /\ cache_ok c' /\
    cache_state c' ≡ connected buf height tx (cache_state c) /\ moved_from (cache_state c) (inputs tx) cs.
Proof.
  intros Hc (Hv & Hl & Hd & _ & _) Hn. unfold UpdateCoins, inputs, spends_coins in *.
  assert (S1 : exists cs c1, (if negb (IsCoinBase tx) && negb (HasZerocoinSpendInputs tx) then spend_inputs (vin tx) (vprevout CTxUndo_empty) c
    else (vprevout CTxUndo_empty, c)) = (cs, c1) /\ cache_ok c1 /\ cache_state c1 ≡ puts (removed (inputs tx)) (cache_state c) /\ moved_from (cache_state c) (inputs tx) cs).
  { unfold inputs, spends_coins. destruct (_ && _).
    - destruct (spend_inputs_spec (vin tx) [] c Hc Hd) as (cs & c1 & E & H). now exists cs, c1.
    - exists [], c. split_and!; try reflexivity; [exact Hc | constructor]. }
  destruct S1 as (cs & c1 & -> & Hc1 & Hs1 & Hm). destruct (SetNullifiers_spec tx true c1 Hc1) as [Hc2 Hs2].
  destruct (AddCoins_loop_spec (txid tx) height (IsCoinBase tx) (IsCoinStake tx) false (vout tx) 0 (SetNullifiers tx true c1) Hc2 Hv) as (c3 & E3 & Hc3 & Hs3); [lia | lia | |].
  - right. intros o u Hin. rewrite (proj1 Hs2). cbn [with_nullifiers unspent]. rewrite (proj1 Hs1).
    assert (Hu : unspent (cache_state c) o = None) by exact (Hn o u Hin).
    destruct (decide (o ∈ inputs tx)) as [Ho|Ho]; [|rewrite puts_other; [exact Hu | now rewrite fst_removed]].
    apply (puts_here _ _ o None); [now rewrite fst_removed|]. unfold removed. apply list_elem_of_fmap. now exists o.
  - unfold AddCoins. rewrite E3. cbn [bind]. exists cs, c3. split; [reflexivity|]. split; [exact Hc3|]. split; [|exact Hm].
    rewrite Hs3, Hs2. unfold connected. apply puts_proper, with_nullifiers_proper; [intros g g'; apply mark_ext | exact Hs1].
Qed.

(** ** Disconnecting one transaction *)

Lemma live_Some r u : live r = Some u -> r = Some u.
Proof. destruct r as [c|]; cbn [live]; [|discriminate]. now destruct (IsSpent c). Qed.

Lemma CTxOut_eq_refl o : CTxOut_eq o o = true.
Proof. unfold CTxOut_eq. now rewrite !Z.eqb_refl, bool_decide_true. Qed.

Lemma spend_outputs_spec id mk vout : (forall o, out (mk o) = o) -> forall i fClean (c : cache),
  cache_ok c -> 0 <= i -> i + Z.of_nat (length vout) <= 2 ^ 32 ->
  (forall o u, (o, u) ∈ outputs_from id mk i vout -> unspent (cache_state c) o = Some u) ->
  exists c', spend_outputs id i vout fClean c = (fClean, c') /\ cache_ok c' /\
    cache_state c' ≡ puts (removed (outputs_from id mk i vout).*1) (cache_state c).
Proof.
  intros Hmk. induction vout as [|o vout IH]; intros i fClean c Hc Hi Hl Hu; cbn [spend_outputs]; [now exists c|]. cbn [length] in Hl.
  assert (Ek : negb (IsUnspendable (scriptPubKey o)) && negb (CTxOut_IsZerocoinMint o) = kept (mk o)) by (unfold kept; now rewrite Hmk).
  rewrite Ek. cbn [outputs_from] in *. pose proof (outputs_from_NoDup id mk (o :: vout) i Hi ltac:(cbn [length]; lia)) as Hnd. cbn [outputs_from] in Hnd.
  destruct (kept (mk o)).
  2: { apply (IH (i + 1) fClean c Hc); [lia | lia | exact Hu]. }
  cbn [app] in *. destruct (SpendCoin_spec (id, w32 i) c Hc) as (r & c1 & E & Hc1 & Hs1 & Hr). rewrite E.
  rewrite (Hu _ (mk o) (list_elem_of_here _ _)) in Hr. apply live_Some in Hr as ->. change (default Coin_empty (Some (mk o))) with (mk o). rewrite Hmk, CTxOut_eq_refl. cbn [negb].
  rewrite fmap_cons in Hnd. apply list.NoDup_cons in Hnd as [Hnin _]. cbn [fst] in Hnin.
  destruct (IH (i + 1) fClean c1 Hc1) as (c2 & E2 & Hc2 & Hs2); [lia | lia | |].
  - intros o' u Hin. rewrite (proj1 Hs1). cbn [put unspent]. rewrite fn_lookup_insert_ne; [now apply Hu, list_elem_of_further|].
    intros <-. apply Hnin, list_elem_of_fmap. now exists ((id, w32 i), u).
  - exists c2. split; [exact E2|]. split; [exact Hc2|]. cbn [fmap list_fmap removed map puts fold_left fst snd]. now rewrite Hs2, Hs1.
Qed.

(** A coin that can be put back. *)
Definition restorable (u : Coin) : Prop := IsSpent u = false /\ kept u = true /\ nHeight u <> 0.

Lemma ApplyTxInUndo_spec u o (c : cache) :
  cache_ok c -> restorable u -> unspent (cache_state c) o = None ->
  exists c', ApplyTxInUndo u o c = Done (DISCONNECT_OK, c') /\ cache_ok c' /\ cache_state c' ≡ put o (Some u) (cache_state c).
Proof.
  intros Hc (Hsp & Hk & Hh) Ho. unfold ApplyTxInUndo. destruct (HaveCoin_spec o c Hc) as (c1 & E & Hc1 & Hs1). rewrite E, Ho.
  rewrite bool_decide_false by (intros [? ?]; discriminate). cbn [negb]. apply Z.eqb_neq in Hh. rewrite Hh.
  destruct (AddCoin_spec o u false c1 Hc1 Hsp) as (c2 & E2 & Hc2 & Hs2); [right; now rewrite (proj1 Hs1)|].
  rewrite E2. cbn [bind]. rewrite Hk in Hs2. exists c2. split; [reflexivity|]. split; [exact Hc2|]. now rewrite Hs2, Hs1.
Qed.

Definition restored (l : list (CTxIn * Coin)) : list (outpoint * option Coin) := map (fun x => (key (prevout (fst x)), Some (snd x))) l.

Lemma restore_inputs_spec l : forall fClean (c : cache),
  cache_ok c -> NoDup (restored l).*1 -> Forall (fun x => restorable (snd x)) l ->
  (forall o, o ∈ (restored l).*1 -> unspent (cache_state c) o = None) ->
  exists c', restore_inputs l fClean c = Done (Some fClean, c') /\ cache_ok c' /\ cache_state c' ≡ puts (restored l) (cache_state c).
Proof.
  induction l as [|[i u] l IH]; intros fClean c Hc Hd Hr Ho; cbn [restore_inputs]; [now exists c|].
  unfold restored in Hd, Ho. rewrite map_cons, fmap_cons in Hd, Ho. cbn [fst snd] in Hd, Ho. fold (restored l) in Hd, Ho.
  apply list.NoDup_cons in Hd as [Hi Hd]. inversion_clear Hr as [|? ? Hu Hr'].
  destruct (ApplyTxInUndo_spec u (key (prevout i)) c Hc Hu) as (c1 & E & Hc1 & Hs1); [apply Ho, list_elem_of_here|]. rewrite E. cbn [bind fst snd].
  destruct (IH fClean c1 Hc1 Hd Hr') as (c2 & E2 & Hc2 & Hs2).
  - intros o Hin. rewrite (proj1 Hs1). cbn [put unspent]. rewrite fn_lookup_insert_ne; [now apply Ho, list_elem_of_further | now intros <-].
  - exists c2. split; [exact E2|]. split; [exact Hc2|]. cbn [restored map puts fold_left fst snd]. now rewrite Hs2, Hs1.
Qed.

Lemma mark_spec spent ds : forall f nf, mark spent ds f nf = if bool_decide (nf ∈ map nullifier ds) then spent else f nf.
Proof.
  induction ds as [|d ds IH]; intros f nf; [reflexivity|]. cbn [mark fold_left map]. fold (mark spent ds (<[nullifier d := spent]> f)). rewrite IH.
  destruct (decide (nf ∈ map nullifier ds)) as [Hin|Hin].
  - rewrite !bool_decide_true; [reflexivity | now apply list_elem_of_further | exact Hin].
  - rewrite (bool_decide_false (nf ∈ map nullifier ds)) by exact Hin. destruct (decide (nullifier d = nf)) as [<-|Hne].
    + rewrite fn_lookup_insert, bool_decide_true; [reflexivity | apply list_elem_of_here].
    + rewrite fn_lookup_insert_ne by exact Hne. rewrite bool_decide_false; [reflexivity|]. rewrite elem_of_cons. intros [->|]; contradiction.
Qed.

(** What disconnecting does to the set. *)
Definition undone (height : Z) (tx : CTransaction) (cs : list Coin) (s : snapshot) : snapshot :=
  puts (restored (rev (combine (vin tx) cs))) (with_nullifiers (mark false (spends_of tx)) (puts (removed (outputs buf height tx).*1) s)).

Definition all_restorable (s : snapshot) : Prop := forall o u, unspent s o = Some u -> restorable u.
Definition not_used (tx : CTransaction) (s : snapshot) : Prop := Forall (fun d => nullified s (nullifier d) = false) (spends_of tx).

Lemma moved_present s os cs :
  all_restorable s -> Forall (fun o => present s o = true) os -> moved_from s os cs -> Forall2 (fun o u => unspent s o = Some u /\ restorable u) os cs.
Proof.
  intros Hr Hp Hm. induction Hm as [|o u os cs Hu Hm IH]; [constructor|]. inversion_clear Hp as [|? ? Ho Hp']. constructor; [|now apply IH].
  unfold present in Ho. apply bool_decide_eq_true in Ho as [u' Eu]. rewrite Eu in Hu. apply live_Some in Hu as [= ->]. split; [exact Eu | now apply (Hr o)].
Qed.

Lemma restored_combine (P : outpoint -> Coin -> Prop) vin cs :
  Forall2 P (map (fun i => key (prevout i)) vin) cs ->
  (restored (combine vin cs)).*1 = map (fun i => key (prevout i)) vin /\
  forall o u, (o, u) ∈ restored (combine vin cs) -> exists c, u = Some c /\ P o c.
Proof.
  revert cs. induction vin as [|i vin IH]; intros cs F; inversion_clear F as [|? u ? cs' Hu F']; [split; [reflexivity | intros o u H; now apply not_elem_of_nil in H]|].
  destruct (IH _ F') as [H1 H2]. cbn [combine restored map fmap list_fmap fst snd]. split; [f_equal; exact H1|].
  intros o w Hin. apply elem_of_cons in Hin as [[= -> ->]|Hin]; [now exists u | now apply H2].
Qed.

Lemma restored_rev l : restored (rev l) ≡ₚ restored l.
Proof. unfold restored. rewrite map_rev. symmetry. apply Permutation_rev. Qed.

Lemma undone_connected height tx cs s :
  well_formed tx -> new_outputs height tx s -> not_used tx s ->
  Forall2 (fun o u => unspent s o = Some u /\ restorable u) (map (fun i => key (prevout i)) (vin tx)) cs -> spends_coins tx = true ->
  undone height tx cs (connected buf height tx s) ≡ s.
Proof.
  intros (_ & Hl & Hd & _) Hn Hu Hm Hsp. unfold inputs in Hd. rewrite Hsp in Hd. destruct (restored_combine _ _ _ Hm) as [K1 K2]. unfold undone, connected, inputs. rewrite Hsp.
  set (ins := map (fun i => key (prevout i)) (vin tx)) in *. set (outs := outputs buf height tx) in *.
  assert (K3 : (restored (rev (combine (vin tx) cs))).*1 ≡ₚ ins) by (rewrite restored_rev; now rewrite K1).
  split; [|split; [|split; [|split]]].
  - intros o. destruct (decide (o ∈ ins)) as [Ho|Ho].
    + rewrite <- K1 in Ho. apply list_elem_of_fmap in Ho as ([o' u] & -> & Hin). destruct (K2 _ _ Hin) as (w & -> & Ew & _). cbn [fst]. rewrite Ew.
      apply puts_here; [now rewrite K3|]. now rewrite restored_rev.
    + rewrite puts_other by (rewrite K3; exact Ho). cbn [with_nullifiers unspent]. destruct (decide (o ∈ outs.*1)) as [Hx|Hx].
      * rewrite (puts_here _ _ o None); [symmetry; apply list_elem_of_fmap in Hx as ([o' u] & -> & Hin); now apply (Hn o' u) | |].
        { rewrite fst_removed. apply outputs_from_NoDup; lia. }
        unfold removed. apply list_elem_of_fmap. now exists o.
      * rewrite puts_other by now rewrite fst_removed. rewrite puts_other by now rewrite fst_created. cbn [with_nullifiers unspent].
        apply puts_other. now rewrite fst_removed.
  - intros rt. rewrite (proj1 (puts_rest _ _)). cbn [with_nullifiers anchored]. rewrite (proj1 (puts_rest _ _)), (proj1 (puts_rest _ _)).
    cbn [with_nullifiers anchored]. now rewrite (proj1 (puts_rest _ _)).
  - intros nf. rewrite (proj1 (proj2 (puts_rest _ _))). cbn [with_nullifiers nullified]. rewrite (proj1 (proj2 (puts_rest _ _))), (proj1 (proj2 (puts_rest _ _))).
    cbn [with_nullifiers nullified]. rewrite !mark_spec, (proj1 (proj2 (puts_rest _ _))). case_bool_decide as Hin; [|reflexivity].
    apply list_elem_of_fmap in Hin as (d & -> & Hin). symmetry. unfold not_used in Hu. rewrite Forall_forall in Hu. now apply Hu, list_elem_of_In.
  - repeat (rewrite (proj1 (proj2 (proj2 (puts_rest _ _)))); cbn [with_nullifiers best_block]). reflexivity.
  - repeat (rewrite (proj2 (proj2 (proj2 (puts_rest _ _)))); cbn [with_nullifiers best_anchor]). reflexivity.
Qed.

(** ** Blocks *)

Context (v5 : bool) (parse_zerocoins : CTransaction -> bool) (undo_zerocoins : CTransaction -> bool).
Context (Hzc : forall tx, undo_zerocoins tx = true).
Abbreviation connect_txs := (connect_txs buf invalid v5 parse_zerocoins).
Abbreviation disconnect_txs := (disconnect_txs buf undo_zerocoins).
Abbreviation ConnectBlock_view := (ConnectBlock_view buf invalid v5 parse_zerocoins).
Abbreviation DisconnectBlock_view := (DisconnectBlock_view buf undo_zerocoins).

(** What [ConnectBlock] demands of the set. *)
Definition available (tx : CTransaction) (s : snapshot) : bool :=
  if negb v5 && HasZerocoinSpendInputs tx then parse_zerocoins tx
  else if negb (IsCoinBase tx) then
    (HasZerocoinSpendInputs tx || forallb (fun i => present s (key (prevout i))) (vin tx)) &&
    (negb (IsShieldedTx tx) || forallb (fun d => negb (nullified s (nullifier d)) && anchored s (anchor d)) (spends_of tx))
  else true.

Lemma check_available_spec tx (c : cache) :
  cache_ok c -> well_formed tx ->
  exists c', check_available v5 parse_zerocoins tx c = (available tx (cache_state c), c') /\ cache_ok c' /\ cache_state c' ≡ cache_state c.
Proof.
  intros Hc (_ & _ & _ & Ha & _). unfold check_available, available. destruct (negb v5 && HasZerocoinSpendInputs tx); [now exists c|].
  destruct (IsCoinBase tx) eqn:Hcb; cbn [negb]; [now exists c|].
  destruct (HaveInputs_spec tx c Hc) as (c1 & E & Hc1 & Hs1). rewrite E, Hcb. cbn [orb].
  destruct (HasZerocoinSpendInputs tx || _); cbn [negb andb]; [|now exists c1].
  destruct (HaveShieldedRequirements_spec tx c1 Hc1 Ha) as (c2 & E2 & Hc2 & Hs2). rewrite E2. exists c2. split; [|split; [exact Hc2 | now rewrite Hs2]].
  f_equal. f_equal. apply forallb_same. intros d. now rewrite (proj1 (proj2 Hs1)), (proj1 (proj2 (proj2 Hs1))).
Qed.

Lemma available_spends tx s :
  well_formed tx -> available tx s = true -> Forall (fun o => present s o = true) (inputs tx) /\ not_used tx s.
Proof.
  intros (_ & _ & _ & _ & Hsp) H. unfold available, inputs, not_used, spends_coins in *. destruct (IsCoinBase tx), (HasZerocoinSpendInputs tx); cbn [negb andb orb] in *;
    try (split; [constructor|]; destruct (spends_of tx); [constructor | now destruct Hsp]).
  rewrite andb_false_r in H. apply andb_prop in H as [H1 H2]. split.
  - apply Forall_forall. intros o Ho. apply in_map_iff in Ho as (i & <- & Hi). rewrite forallb_forall in H1. now apply H1.
  - destruct (spends_of tx) as [|d ds] eqn:Ed; [constructor|]. destruct Hsp as [_ Hsh]; [discriminate|]. rewrite Hsh in H2. cbn [negb orb] in H2.
    apply Forall_forall. intros d' Hd'. rewrite forallb_forall in H2. specialize (H2 d' Hd').
    apply andb_prop in H2 as [H2 _]. now apply negb_true_iff.
Qed.

Definition connected_all (height : Z) (txs : list CTransaction) (s : snapshot) : snapshot := fold_left (fun s tx => connected buf height tx s) txs s.
Fixpoint all_available (height : Z) (txs : list CTransaction) (s : snapshot) : bool :=
  match txs with [] => true | tx :: txs => available tx s && all_available height txs (connected buf height tx s) end.

(** What the other rules ensure: the transactions are well formed and make new outputs. *)
Fixpoint txs_ok (height : Z) (txs : list CTransaction) (s : snapshot) : Prop :=
  match txs with
  | [] => True
  | tx :: txs => well_formed tx /\ new_outputs height tx s /\ txs_ok height txs (connected buf height tx s)
  end.

(** The undo data for the transactions, from a state on. *)
Fixpoint undo_ok (height : Z) (txs : list CTransaction) (us : list (option CTxUndo)) (s : snapshot) : Prop :=
  match txs, us with
  | [], [] => True
  | tx :: txs, u :: us =>
      well_formed tx /\ new_outputs height tx s /\
      (spends_coins tx = true -> exists cs, u = Some {| vprevout := cs |} /\ not_used tx s /\
         Forall2 (fun o c => unspent s o = Some c /\ restorable c) (map (fun i => key (prevout i)) (vin tx)) cs) /\
      undo_ok height txs us (connected buf height tx s)
  | _, _ => False
  end.

#[export] Instance connected_all_proper height txs : Proper ((≡) ==> (≡)) (connected_all height txs).
Proof. induction txs as [|tx txs IH]; intros s t E; [exact E|]. apply IH. now rewrite E. Qed.

(** Only the coins and the nullifiers matter to the conditions. *)
Definition same_coins (s t : snapshot) : Prop := (forall o, unspent s o = unspent t o) /\ (forall nf, nullified s nf = nullified t nf).

Lemma same_coins_puts l s t : same_coins s t -> same_coins (puts l s) (puts l t).
Proof.
  revert s t. induction l as [|x l IH]; intros s t H; [exact H|]. apply IH. split; [|apply H]. intros o. cbn [put unspent]. now apply fn_insert_ext; [apply H|].
Qed.

Lemma same_coins_connected height tx s t : same_coins s t -> same_coins (connected buf height tx s) (connected buf height tx t).
Proof.
  intros H. unfold connected. apply same_coins_puts. apply (same_coins_puts (removed (inputs tx))) in H. split; [apply H|].
  intros nf. cbn [with_nullifiers nullified]. apply mark_ext, H.
Qed.

Lemma same_coins_equiv s t : s ≡ t -> same_coins s t.
Proof. intros (H1 & _ & H3 & _). now split. Qed.

Lemma undo_ok_same height txs us s t : same_coins s t -> undo_ok height txs us s -> undo_ok height txs us t.
Proof.
  revert us s t. induction txs as [|tx txs IH]; intros [|u us] s t H; cbn [undo_ok]; try easy.
  intros (H1 & H2 & H3 & H4). split; [exact H1|]. split; [intros o c Hin; rewrite <- (proj1 H); now apply (H2 o c)|].
  split; [|now apply (IH us (connected buf height tx s)); [apply same_coins_connected|]]. intros Hsp. destruct (H3 Hsp) as (cs & E & Hu & F). exists cs.
  split; [exact E|]. split.
  - unfold not_used in *. rewrite Forall_forall in *. intros d Hd. rewrite <- (proj2 H). now apply Hu.
  - refine (Forall2_impl _ _ F). intros o c [Ho Hc]. split; [now rewrite <- (proj1 H) | exact Hc].
Qed.

Lemma txs_ok_same height txs s t : same_coins s t -> txs_ok height txs s -> txs_ok height txs t.
Proof.
  revert s t. induction txs as [|tx txs IH]; intros s t H; [easy|]. intros (H1 & H2 & H3).
  split; [exact H1|]. split; [intros o c Hin; rewrite <- (proj1 H); now apply (H2 o c)|]. eapply IH; [|exact H3]. now apply same_coins_connected.
Qed.

Lemma restorable_connected height tx s :
  0 < height < 2 ^ 32 -> well_formed tx -> all_restorable s -> all_restorable (connected buf height tx s).
Proof.
  intros Hh (Hv & Hl & Hd & _) Hs o u. unfold connected. destruct (decide (o ∈ (outputs buf height tx).*1)) as [Ho|Ho].
  - apply list_elem_of_fmap in Ho as ([o' w] & -> & Hin). cbn [fst].
    rewrite (puts_here _ _ o' (Some w)); [|rewrite fst_created; apply outputs_from_NoDup; lia | unfold created; apply list_elem_of_fmap; now exists (o', w)].
    intros [= <-]. clear - Hin Hv Hh. unfold outputs in Hin. revert Hin. generalize 0. induction Hv as [|t vout Ht Hv IH]; intros i Hin; cbn [outputs_from] in Hin; [now apply not_elem_of_nil in Hin|].
    apply elem_of_app in Hin as [Hin|Hin]; [|now apply (IH (i + 1))]. destruct (kept (coin_of_out tx height t)) eqn:Hk; [|now apply not_elem_of_nil in Hin].
    apply list_elem_of_singleton in Hin as [= _ ->]. split; [exact Ht|]. split; [exact Hk|]. cbn. unfold w32. rewrite Z.mod_small; lia.
  - rewrite puts_other by now rewrite fst_created. cbn [with_nullifiers unspent]. destruct (decide (o ∈ inputs tx)) as [Hi|Hi].
    + rewrite (puts_here _ _ o None); [discriminate | now rewrite fst_removed | unfold removed; apply list_elem_of_fmap; now exists o].
    + rewrite puts_other by now rewrite fst_removed. apply Hs.
Qed.

Lemma all_restorable_same s t : same_coins s t -> all_restorable s -> all_restorable t.
Proof. intros H Hs o u Ho. rewrite <- (proj1 H) in Ho. now apply (Hs o). Qed.

Lemma available_proper tx s t : s ≡ t -> available tx s = available tx t.
Proof.
  intros (H1 & H2 & H3 & _). unfold available. assert (E1 : forall l, forallb (fun i => present s (key (prevout i))) l = forallb (fun i => present t (key (prevout i))) l).
  { intros l. apply forallb_same. intros i. unfold present. now rewrite H1. }
  assert (E2 : forall l, forallb (fun d => negb (nullified s (nullifier d)) && anchored s (anchor d)) l = forallb (fun d => negb (nullified t (nullifier d)) && anchored t (anchor d)) l).
  { intros l. apply forallb_same. intros d. now rewrite H2, H3. }
  now rewrite E1, E2.
Qed.

Lemma all_available_proper height txs s t : s ≡ t -> all_available height txs s = all_available height txs t.
Proof.
  revert s t. induction txs as [|tx txs IH]; intros s t H; [reflexivity|]. cbn [all_available]. rewrite (available_proper tx s t H).
  f_equal. apply IH. now rewrite H.
Qed.

Lemma connect_tx_undo tx s cs :
  well_formed tx -> all_restorable s -> available tx s = true -> moved_from s (inputs tx) cs -> spends_coins tx = true ->
  not_used tx s /\ Forall2 (fun o c => unspent s o = Some c /\ restorable c) (map (fun i => key (prevout i)) (vin tx)) cs.
Proof.
  intros Hw Hr Ha Hm Hsp. destruct (available_spends tx s Hw Ha) as [Hp Hu]. split; [exact Hu|]. unfold inputs in *. rewrite Hsp in *. now apply moved_present.
Qed.

Lemma connect_txs_spec height txs : forall first acc (c : cache),
  0 < height < 2 ^ 32 -> cache_ok c -> txs_ok height txs (cache_state c) -> all_restorable (cache_state c) ->
  exists r c', connect_txs first txs acc height false c = Done (r, c') /\ cache_ok c' /\
  if all_available height txs (cache_state c) then
    cache_state c' ≡ connected_all height txs (cache_state c) /\ exists us, r = Some (acc ++ us) /\
    if first then match txs with
                  | [] => us = []
                  | tx :: txs => forall u, (spends_coins tx = false) -> undo_ok height (tx :: txs) (u :: map Some us) (cache_state c)
                  end
    else undo_ok height txs (map Some us) (cache_state c)
  else r = None.
Proof.
  induction txs as [|tx txs IH]; intros first acc c Hh Hc Hok Hr; cbn [ConnectCoins.connect_txs all_available].
  { exists (Some acc), c. split; [reflexivity|]. split; [exact Hc|]. split; [reflexivity|]. exists []. rewrite app_nil_r. now destruct first. }
  destruct Hok as (Hw & Hn & Hok). destruct (check_available_spec tx c Hc Hw) as (c1 & E & Hc1 & Hs1). rewrite E.
  destruct (available tx (cache_state c)) eqn:Ha; cbn [negb andb]; [|now exists None, c1].
  destruct (UpdateCoins_spec tx height c1 Hc1 Hw) as (cs & c2 & E2 & Hc2 & Hs2 & Hm); [intros o u Hin; rewrite (proj1 Hs1); now apply (Hn o u)|].
  rewrite E2. cbn [bind fst snd]. assert (Hs : cache_state c2 ≡ connected buf height tx (cache_state c)) by now rewrite Hs2, Hs1.
  destruct (IH false (if first then acc else acc ++ [{| vprevout := cs |}]) c2 Hh Hc2) as (r & c3 & E3 & Hc3 & H).
  - eapply txs_ok_same; [|exact Hok]. symmetry in Hs. now apply same_coins_equiv.
  - eapply all_restorable_same; [apply same_coins_equiv; symmetry; exact Hs | now apply restorable_connected].
  - rewrite (all_available_proper height txs _ _ Hs) in H. exists r, c3. split; [exact E3|]. split; [exact Hc3|].
    destruct (all_available _ _ _); [|exact H]. destruct H as (Hs3 & us & -> & Hu). split; [now rewrite Hs3, Hs|].
    apply (undo_ok_same height txs (map Some us) _ _ (same_coins_equiv _ _ Hs)) in Hu. destruct first.
    + exists us. split; [reflexivity|]. intros u Hsp. split; [exact Hw|]. split; [exact Hn|]. split; [congruence | exact Hu].
    + exists ({| vprevout := cs |} :: us). split; [now rewrite <- app_assoc|]. split; [exact Hw|]. split; [exact Hn|]. split; [|exact Hu].
      intros Hsp. exists cs. split; [reflexivity|]. apply (connect_tx_undo tx); try assumption.
      eapply moved_from_ext; [|exact Hm]. intros o _. apply Hs1.
Qed.

Lemma disconnect_txs_app l1 l2 b (c : cache) :
  disconnect_txs (l1 ++ l2) b c = let! r := disconnect_txs l1 b c in
    match fst r with None => Done (None, snd r) | Some b => disconnect_txs l2 b (snd r) end.
Proof.
  revert b c. induction l1 as [|[tx u] l1 IH]; intros b c; [reflexivity|]. cbn [app ConnectCoins.disconnect_txs].
  destruct (disconnect_tx buf undo_zerocoins tx u b c) as [[[b'|] c1]| | | |]; cbn [bind fst snd]; try reflexivity. apply IH.
Qed.

Lemma coin_of_out_out tx height o : out (coin_of_out tx height o) = o.
Proof. reflexivity. Qed.

Lemma disconnect_tx_spec tx height u b s (c : cache) :
  cache_ok c -> well_formed tx -> new_outputs height tx s -> cache_state c ≡ connected buf height tx s ->
  (spends_coins tx = true -> exists cs, u = Some {| vprevout := cs |} /\ not_used tx s /\
     Forall2 (fun o c => unspent s o = Some c /\ restorable c) (map (fun i => key (prevout i)) (vin tx)) cs) ->
  exists c', disconnect_tx buf undo_zerocoins tx u b c = Done (Some b, c') /\ cache_ok c' /\ cache_state c' ≡ s.
Proof.
  intros Hc Hw Hn Hs Hu. pose proof Hw as (_ & Hl & Hd & _ & Hsp). unfold disconnect_tx. rewrite Hzc. cbn [negb].
  assert (Hnd : NoDup (outputs buf height tx).*1) by (apply outputs_from_NoDup; lia).
  destruct (spend_outputs_spec (txid tx) (coin_of_out tx height) (vout tx) (coin_of_out_out tx height) 0 b c Hc) as (c1 & E1 & Hc1 & Hs1); [lia | lia | |].
  { intros o w Hin. rewrite (proj1 Hs). unfold connected. apply puts_here; [now rewrite fst_created|]. unfold created. apply list_elem_of_fmap. now exists (o, w). }
  rewrite E1. destruct (spends_coins tx) eqn:Hspc; pose proof Hspc as Hspc'; unfold spends_coins in Hspc.
  - destruct (IsCoinBase tx); [discriminate|]. destruct (HasZerocoinSpendInputs tx); [discriminate|]. cbn [orb].
    destruct (Hu eq_refl) as (cs & -> & Hnu & F). destruct (SetNullifiers_spec tx false c1 Hc1) as [Hc2 Hs2]. cbn [vprevout].
    rewrite <- (Forall2_length F), length_map, Nat.eqb_refl. cbn [negb].
    assert (Hundone : undone height tx cs (connected buf height tx s) ≡ s).
    { now apply undone_connected. }
    destruct (restored_combine _ _ _ F) as [K1 K2].
    assert (K3 : (restored (rev (combine (vin tx) cs))).*1 ≡ₚ map (fun i => key (prevout i)) (vin tx)) by (rewrite restored_rev; now rewrite K1).
    destruct (restore_inputs_spec (rev (combine (vin tx) cs)) b (SetNullifiers tx false c1) Hc2) as (c3 & E3 & Hc3 & Hs3).
    + rewrite K3. unfold inputs in Hd. now rewrite Hspc' in Hd.
    + apply Forall_rev. clear - F. revert cs F. induction (vin tx) as [|i l IH]; intros cs F; inversion_clear F as [|? u ? cs' [_ Hu] F']; [constructor|].
      cbn [combine]. constructor; [exact Hu | now apply IH].
    + intros o Ho. rewrite K3 in Ho. rewrite (proj1 Hs2). cbn [with_nullifiers unspent]. rewrite (proj1 Hs1).
      destruct (decide (o ∈ (outputs buf height tx).*1)) as [Hx|Hx].
      * apply (puts_here _ _ o None); [now rewrite fst_removed|]. unfold removed. apply list_elem_of_fmap. now exists o.
      * rewrite puts_other by now rewrite fst_removed. rewrite (proj1 Hs). unfold connected. rewrite puts_other by now rewrite fst_created.
        cbn [with_nullifiers unspent]. unfold inputs in *. rewrite Hspc' in *.
        apply (puts_here _ _ o None); [now rewrite fst_removed|]. unfold removed. apply list_elem_of_fmap. now exists o.
    + exists c3. split; [exact E3|]. split; [exact Hc3|]. rewrite <- Hundone. unfold undone. rewrite Hs3.
      apply puts_proper. rewrite Hs2. apply with_nullifiers_proper; [intros g g'; apply mark_ext|]. now rewrite Hs1, Hs.
  - assert (Hb : IsCoinBase tx || HasZerocoinSpendInputs tx = true) by (destruct (IsCoinBase tx); [reflexivity | destruct (HasZerocoinSpendInputs tx); [reflexivity | discriminate Hspc]]).
    rewrite Hb. exists c1. split; [reflexivity|]. split; [exact Hc1|]. rewrite Hs1, Hs. fold (outputs buf height tx).
    assert (Es : spends_of tx = []) by (destruct (spends_of tx) eqn:E; [reflexivity | destruct Hsp as [Hsp _]; [discriminate | congruence]]).
    assert (Ei : inputs tx = []) by (unfold inputs; now rewrite Hspc').
    unfold connected. rewrite Es, Ei. cbn [removed map puts fold_left mark].
    split; [|split; [|split; [|split]]].
    + intros o. destruct (decide (o ∈ (outputs buf height tx).*1)) as [Hx|Hx].
      * fold (puts (removed (outputs buf height tx).*1)). rewrite (puts_here _ _ o None); [|now rewrite fst_removed | unfold removed; apply list_elem_of_fmap; now exists o].
        symmetry. apply list_elem_of_fmap in Hx as ([o' w] & -> & Hin). now apply (Hn o' w).
      * rewrite puts_other by now rewrite fst_removed. now rewrite puts_other by now rewrite fst_created.
    + intros rt. now rewrite (proj1 (puts_rest _ _)), (proj1 (puts_rest _ _)).
    + intros nf. now rewrite (proj1 (proj2 (puts_rest _ _))), (proj1 (proj2 (puts_rest _ _))).
    + now rewrite (proj1 (proj2 (proj2 (puts_rest _ _)))), (proj1 (proj2 (proj2 (puts_rest _ _)))).
    + now rewrite (proj2 (proj2 (proj2 (puts_rest _ _)))), (proj2 (proj2 (proj2 (puts_rest _ _)))).
Qed.

Lemma disconnect_txs_spec height txs : forall us s b (c : cache),
  cache_ok c -> undo_ok height txs us s -> cache_state c ≡ connected_all height txs s ->
  exists c', disconnect_txs (rev (combine txs us)) b c = Done (Some b, c') /\ cache_ok c' /\ cache_state c' ≡ s.
Proof.
  induction txs as [|tx txs IH]; intros [|u us] s b c Hc Hu Hs; try contradiction; [now exists c|].
  destruct Hu as (Hw & Hn & Hx & Hu). cbn [combine rev]. rewrite disconnect_txs_app.
  destruct (IH us (connected buf height tx s) b c Hc Hu Hs) as (c1 & -> & Hc1 & Hs1). cbn [bind fst snd ConnectCoins.disconnect_txs].
  destruct (disconnect_tx_spec tx height u b s c1 Hc1 Hw Hn Hs1 Hx) as (c2 & -> & Hc2 & Hs2). cbn [bind fst snd]. now exists c2.
Qed.

Lemma connected_all_rest height txs s :
  anchored (connected_all height txs s) = anchored s /\ best_block (connected_all height txs s) = best_block s /\
  best_anchor (connected_all height txs s) = best_anchor s.
Proof.
  revert s. induction txs as [|tx txs IH]; intros s; [now split_and!|]. destruct (IH (connected buf height tx s)) as (E1 & E2 & E3).
  cbn [connected_all fold_left]. fold (connected_all height txs (connected buf height tx s)). rewrite E1, E2, E3. unfold connected.
  destruct (puts_rest (created (outputs buf height tx)) (with_nullifiers (mark true (spends_of tx)) (puts (removed (inputs tx)) s))) as (-> & _ & -> & ->).
  cbn [with_nullifiers anchored best_block best_anchor]. destruct (puts_rest (removed (inputs tx)) s) as (-> & _ & -> & ->). now split_and!.
Qed.

Lemma same_coins_all height txs s t : same_coins s t -> same_coins (connected_all height txs s) (connected_all height txs t).
Proof. revert s t. induction txs as [|tx txs IH]; intros s t H; [exact H|]. apply IH. now apply same_coins_connected. Qed.

Lemma same_coins_push t h s : same_coins s (with_block h (push t s)).
Proof. unfold push. now case_bool_decide. Qed.

(** The anchor and the block of a state do not take part in connecting transactions. *)
Lemma connected_all_push height txs t h s :
  with_block h (push t (connected_all height txs s)) ≡ connected_all height txs (with_block h (push t s)).
Proof.
  destruct (connected_all_rest height txs s) as (E1 & E2 & E3). destruct (connected_all_rest height txs (with_block h (push t s))) as (F1 & F2 & F3).
  pose proof (same_coins_all height txs _ _ (same_coins_push t h s)) as [G1 G2]. pose proof (same_coins_push t h (connected_all height txs s)) as [H1 H2].
  assert (P1 : forall u v, anchored u = anchored v -> best_anchor u = best_anchor v -> anchored (push t u) = anchored (push t v) /\ best_anchor (push t u) = best_anchor (push t v)).
  { intros u v Hu Hv. unfold push. rewrite Hv. case_bool_decide; [now split|]. cbn [with_anchor anchored best_anchor]. now rewrite Hu. }
  destruct (P1 _ _ E1 E3) as [Q1 Q2]. split_and!.
  - intros o. now rewrite <- H1, G1.
  - intros rt. rewrite F1. cbn [with_block anchored]. now rewrite Q1.
  - intros nf. now rewrite <- H2, G2.
  - now rewrite F2.
  - rewrite F3. cbn [with_block best_anchor]. exact Q2.
Qed.

Lemma pop_push (c : cache) t h s :
  cache_ok c -> cache_state c ≡ with_block h (push t s) -> Uint256.IsNull 32 (best_anchor s) = false -> length (best_anchor s) = 32%nat ->
  best_anchor s = root t \/ root t <> empty_root /\ anchored s (root t) = false ->
  exists c', PopAnchor (best_anchor s) c = Done c' /\ cache_ok c' /\ cache_state c' ≡ with_block h s.
Proof.
  intros Hc Hs Hn Hl Ha. pose proof Hs as (_ & E2 & _ & _ & E5). cbn [with_block anchored best_anchor] in E2, E5. unfold push in *. case_bool_decide as He.
  - rewrite <- E5. destruct (PopAnchor_same c Hc) as (c' & E & Hc' & Hs'). exists c'. split; [exact E|]. split; [exact Hc' | now rewrite Hs'].
  - destruct Ha as [Ha|[Hne Ha]]; [contradiction|]. cbn [with_anchor best_anchor anchored] in E2, E5.
    pose proof (PopAnchor_spec (best_anchor s) c Hc Hn Hl) as P. cbn zeta in P. rewrite E5, E2, fn_lookup_insert in P. destruct P as (c' & E & Hc' & Hs'); [exact Hne | congruence |].
    exists c'. split; [exact E|]. split; [exact Hc'|]. rewrite Hs'. destruct Hs as (G1 & _ & G3 & G4 & _). split_and!; try assumption; try reflexivity.
    intros rt. cbn [with_anchor anchored with_block]. destruct (decide (root t = rt)) as [<-|Hx]; [now rewrite fn_lookup_insert|].
    rewrite fn_lookup_insert_ne by assumption. rewrite E2. now rewrite fn_lookup_insert_ne.
Qed.

Lemma ConnectBlock_view_spec (c : cache) txs height t blockHash :
  0 < height < 2 ^ 32 -> cache_ok c -> txs_ok height txs (cache_state c) -> all_restorable (cache_state c) ->
  Uint256.IsNull 32 (root t) = false -> Uint256.IsNull 32 blockHash = false -> all_available height txs (cache_state c) = true ->
  exists us c1, ConnectBlock_view txs height false t blockHash c = Done (Some us, c1) /\ cache_ok c1 /\
  cache_state c1 ≡ with_block blockHash (push t (connected_all height txs (cache_state c))).
Proof.
  intros Hh Hc Hok Hr Ht Hb Ha. unfold ConnectCoins.ConnectBlock_view. destruct (connect_txs_spec height txs true [] c Hh Hc Hok Hr) as (r & c1 & -> & Hc1 & H).
  rewrite Ha in H. destruct H as (Hs1 & us & -> & _). cbn [bind app]. destruct (PushAnchor_spec t c1 Hc1 Ht) as (c2 & -> & Hc2 & Hs2).
  destruct (SetBestBlock_spec blockHash c2 Hc2 Hb) as [Hc3 Hs3]. exists us, (SetBestBlock blockHash c2). split; [reflexivity|]. split; [exact Hc3|].
  rewrite Hs3. apply with_block_proper. etransitivity; [exact Hs2|]. exact (effect_proper (CallPushAnchor t) _ _ Hs1).
Qed.

(** C3. Disconnecting a block undoes connecting it: over any cache, connecting a block whose
    transactions are well formed and make new outputs throws no exception; it fails exactly
    when a transaction spends what is not there at its turn; otherwise the set has the
    inputs removed, the outputs added, the nullifiers marked, the new anchor and the new
    block, and [DisconnectBlock] with the undo data returns [DISCONNECT_OK] and restores the
    coins, the nullifiers, the anchors and the best block. *)
Theorem connect_disconnect (c : cache) coinbase txs height t blockHash :
  let s := cache_state c in
  0 < height < 2 ^ 32 -> cache_ok c -> txs_ok height (coinbase :: txs) s -> all_restorable s -> IsCoinBase coinbase = true ->
  Uint256.IsNull 32 (root t) = false -> Uint256.IsNull 32 blockHash = false ->
  Uint256.IsNull 32 (best_anchor s) = false -> Uint256.IsNull 32 (best_block s) = false ->
  best_anchor s = root t \/ root t <> empty_root /\ anchored s (root t) = false ->
  exists r c1, ConnectBlock_view (coinbase :: txs) height false t blockHash c = Done (r, c1) /\ cache_ok c1 /\
  if all_available height (coinbase :: txs) s then
    cache_state c1 ≡ with_block blockHash (push t (connected_all height (coinbase :: txs) s)) /\
    exists vtxundo c2, r = Some vtxundo /\
      DisconnectBlock_view (coinbase :: txs) vtxundo (best_anchor s) (best_block s) c1 = Done (DISCONNECT_OK, c2) /\
      cache_ok c2 /\ cache_state c2 ≡ s
  else r = None.
Proof.
  intros s Hh Hc Hok Hr Hcb Ht Hb Hna Hnb Ha. unfold ConnectCoins.ConnectBlock_view.
  destruct (connect_txs_spec height (coinbase :: txs) true [] c Hh Hc Hok Hr) as (r & c1 & E & Hc1 & H). rewrite E. cbn [bind].
  fold s in H. destruct (all_available height (coinbase :: txs) s); [|subst r; now exists None, c1].
  destruct H as (Hs1 & us & -> & Hu). cbn [app]. specialize (Hu None). unfold spends_coins in Hu. rewrite Hcb in Hu. specialize (Hu eq_refl).
  destruct (PushAnchor_spec t c1 Hc1 Ht) as (c2 & E2 & Hc2 & Hs2). rewrite E2. destruct (SetBestBlock_spec blockHash c2 Hc2 Hb) as [Hc3 Hs3].
  exists (Some us), (SetBestBlock blockHash c2). split; [reflexivity|]. split; [exact Hc3|].
  assert (Hs : cache_state (SetBestBlock blockHash c2) ≡ with_block blockHash (push t (connected_all height (coinbase :: txs) s))).
  { rewrite Hs3. apply with_block_proper. etransitivity; [exact Hs2|]. exact (effect_proper (CallPushAnchor t) _ _ Hs1). }
  split; [exact Hs|]. exists us. unfold ConnectCoins.DisconnectBlock_view.
  assert (Elen : length us = length txs).
  { clear - Hu. destruct Hu as (_ & _ & _ & Hu). revert us Hu. generalize (connected buf height coinbase s). induction txs as [|tx txs IH]; intros s' [|u us] Hu; try contradiction; [reflexivity|].
    cbn [length map] in *. destruct Hu as (_ & _ & _ & Hu). f_equal. exact (IH _ _ Hu). }
  cbn [length]. rewrite Elen, Nat.eqb_refl. cbn [negb]. rewrite connected_all_push in Hs.
  destruct (disconnect_txs_spec height (coinbase :: txs) (None :: map Some us) (with_block blockHash (push t s)) true _ Hc3) as (c4 & E4 & Hc4 & Hs4); [|exact Hs|].
  { eapply undo_ok_same; [apply same_coins_push | exact Hu]. }
  rewrite E4. cbn [bind fst snd]. destruct (pop_push c4 t blockHash s Hc4 Hs4 Hna (cache_anchor_length c Hc) Ha) as (c5 & E5 & Hc5 & Hs5). rewrite E5. cbn [bind].
  destruct (SetBestBlock_spec (best_block s) c5 Hc5 Hnb) as [Hc6 Hs6]. eexists. split; [reflexivity|]. split; [reflexivity|]. split; [exact Hc6|].
  rewrite Hs6, Hs5. repeat split.
Qed.

(** ** Rolling forward *)

(** What is needed of a transaction that is connected again. *)
Definition plain (tx : CTransaction) : Prop :=
  Forall (fun o => CTxOut_IsNull o = false) (vout tx) /\ Z.of_nat (length (vout tx)) <= 2 ^ 32 /\ HasZerocoinSpendInputs tx = false.

Lemma RollforwardBlock_spec height txs : forall c : cache,
  cache_ok c -> Forall plain txs ->
  exists c', RollforwardBlock buf invalid txs height false c = Done c' /\ cache_ok c' /\
    cache_state c' ≡ puts (flat_map (changes buf height) txs) (cache_state c).
Proof.
  clear Hzc v5 parse_zerocoins undo_zerocoins.
  induction txs as [|tx txs IH]; intros c Hc Hp; cbn [RollforwardBlock flat_map]; [now exists c|]. inversion_clear Hp as [|? ? (Hv & Hl & Hz) Hp'].
  assert (S1 : exists c1, (if negb (IsCoinBase tx) then spend_again (vin tx) c else c) = c1 /\ cache_ok c1 /\
    cache_state c1 ≡ puts (removed (inputs tx)) (cache_state c)).
  { eexists. split; [reflexivity|]. unfold inputs, spends_coins. rewrite Hz. cbn [negb]. rewrite andb_true_r.
    destruct (negb (IsCoinBase tx)); [now apply spend_again_spec | now split]. }
  destruct S1 as (c1 & -> & Hc1 & Hs1).
  destruct (AddCoins_loop_spec (txid tx) height (IsCoinBase tx) (IsCoinStake tx) true (vout tx) 0 c1 Hc1 Hv) as (c2 & E2 & Hc2 & Hs2); [lia | lia | now left |].
  unfold AddCoins. rewrite E2. cbn [bind]. destruct (IH c2 Hc2 Hp') as (c3 & E3 & Hc3 & Hs3). exists c3. split; [exact E3|]. split; [exact Hc3|].
  rewrite Hs3, Hs2, Hs1. unfold changes. now rewrite !puts_app.
Qed.

Definition all_changes (blocks : list (Z * list CTransaction)) : list (outpoint * option Coin) :=
  flat_map (fun b => flat_map (changes buf (fst b)) (snd b)) blocks.
Definition connected_blocks (blocks : list (Z * list CTransaction)) (s : snapshot) : snapshot :=
  fold_left (fun s b => connected_all (fst b) (snd b) s) blocks s.

Lemma replay_forward_spec blocks : forall c : cache,
  cache_ok c -> Forall (fun b => Forall plain (snd b)) blocks ->
  exists c', replay_forward buf invalid blocks (fun _ => false) c = Done c' /\ cache_ok c' /\ cache_state c' ≡ puts (all_changes blocks) (cache_state c).
Proof.
  induction blocks as [|[h txs] blocks IH]; intros c Hc Hp; cbn [replay_forward all_changes flat_map fst snd]; [now exists c|].
  inversion_clear Hp as [|? ? Hp1 Hp2]. cbn [snd] in Hp1. destruct (RollforwardBlock_spec h txs c Hc Hp1) as (c1 & -> & Hc1 & Hs1). cbn [bind].
  destruct (IH c1 Hc1 Hp2) as (c2 & E2 & Hc2 & Hs2). exists c2. split; [exact E2|]. split; [exact Hc2|]. now rewrite Hs2, Hs1, puts_app.
Qed.

Lemma puts_coins l s t : (forall o, unspent s o = unspent t o) -> forall o, unspent (puts l s) o = unspent (puts l t) o.
Proof. revert s t. induction l as [|x l IH]; intros s t H; [exact H|]. apply IH. intros o. cbn [put unspent]. now apply fn_insert_ext. Qed.

Lemma unspent_connected_all height txs s o : unspent (connected_all height txs s) o = unspent (puts (flat_map (changes buf height) txs) s) o.
Proof.
  revert s o. induction txs as [|tx txs IH]; intros s o; [reflexivity|]. cbn [connected_all fold_left flat_map]. rewrite puts_app.
  etransitivity; [apply IH|]. apply puts_coins. intros o'. apply unspent_connected.
Qed.

Lemma unspent_connected_blocks blocks s o : unspent (connected_blocks blocks s) o = unspent (puts (all_changes blocks) s) o.
Proof.
  revert s o. induction blocks as [|[h txs] blocks IH]; intros s o; [reflexivity|]. cbn [connected_blocks fold_left all_changes flat_map fst snd]. rewrite puts_app.
  etransitivity; [apply IH|]. apply puts_coins. intros o'. apply unspent_connected_all.
Qed.
End Cache.

(** * The conditions as a check *)

Section Check.
Context {sizes : Sizes} (buf : list Z).

Definition check_tx (height : Z) (tx : CTransaction) (s : snapshot) : bool :=
  forallb (fun o => negb (CTxOut_IsNull o)) (vout tx) && (Z.of_nat (length (vout tx)) <=? 2 ^ 32) && bool_decide (NoDup (inputs tx)) &&
  forallb (fun d => (length (anchor d) =? 32)%nat) (spends_of tx) && ((length (spends_of tx) =? 0)%nat || (spends_coins tx && IsShieldedTx tx)) &&
  forallb (fun x => match unspent s (fst x) with None => true | Some _ => false end) (outputs buf height tx).

Fixpoint check_txs (height : Z) (txs : list CTransaction) (s : snapshot) : bool :=
  match txs with [] => true | tx :: txs => check_tx height tx s && check_txs height txs (connected buf height tx s) end.

Lemma check_txs_ok height txs s : check_txs height txs s = true -> txs_ok buf height txs s.
Proof.
  revert s. induction txs as [|tx txs IH]; intros s H; [exact I|]. apply andb_prop in H as [H H']. split; [|split; [|now apply IH]]; clear IH H'; unfold check_tx in H.
  - repeat (apply andb_prop in H as [H ?]). split; [|split; [|split; [|split]]].
    + apply Forall_forall. intros o Ho. rewrite forallb_forall in H. apply negb_true_iff, H. exact Ho.
    + lia.
    + now apply bool_decide_eq_true in H3.
    + apply Forall_forall. intros d Hd. rewrite forallb_forall in H2. apply Nat.eqb_eq, H2. exact Hd.
    + intros Hne. apply orb_prop in H1 as [H1|H1]; [destruct (spends_of tx); [contradiction | discriminate H1]|]. now apply andb_prop in H1.
  - apply andb_prop in H as [_ H]. intros o c Hin. rewrite forallb_forall in H. apply list_elem_of_In in Hin. specialize (H _ Hin). cbn [fst] in H.
    destruct (unspent s o); [discriminate H | reflexivity].
Qed.
End Check.

(** ** Witnesses *)

Import CoinsDB.CoinsDB.
#[local] Existing Instance small_trees.
#[local] Existing Instance small_trees_laws.
#[local] Existing Instance store_view.
#[local] Existing Instance store_laws.
#[local] Existing Instance TransactionsProofs.lp64.

Definition buf0 : list Z := repeat 0 64.
Definition out_of (v : Z) : CTxOut := {| nValue := v; scriptPubKey := [0x51]; nRounds := -10 |}.
Definition spend_of (x : Z) : SpendDescription :=
  {| sd_cv := repeat 0 32; anchor := 1 :: repeat 0 31; nullifier := hash_of x; rk := repeat 0 32; sd_zkproof := repeat 0 192; spendAuthSig := repeat 0 64 |}.
Definition the_coinbase : CTransaction :=
  {| vin := [null_in]; vout := [out_of 3]; nVersion := 1; nType := 0; nLockTime := 0; sapData := Some SaplingTxData_default; extraPayload := None |}.

(** Spends the coin of the store and a note. *)
Definition the_payment : CTransaction :=
  {| vin := [{| prevout := {| hash := hash_of 2; n := 0; isTransparent := true |}; scriptSig := []; nSequence := 0 |}];
     vout := [out_of 4; out_of 1]; nVersion := 3; nType := 0; nLockTime := 0;
     sapData := Some {| valueBalance := 0; vShieldedSpend := [spend_of 4]; vShieldedOutput := []; bindingSig := repeat 0 64 |}; extraPayload := None |}.
Definition the_block : list CTransaction := [the_coinbase; the_payment].

Lemma the_block_ok : txs_ok buf0 10 the_block (db_state old_store).
Proof. apply check_txs_ok. vm_compute. reflexivity. Qed.

Lemma old_store_restorable : all_restorable (db_state old_store).
Proof.
  intros o u H. cbn [db_state unspent old_store db_coins] in H. apply live_Some in H. apply lookup_singleton_Some in H as [_ <-].
  now split_and!.
Qed.

Lemma connect_disconnect_witness :
  exists vtxundo c1 c2,
  ConnectBlock_view buf0 (fun _ => false) true (fun _ => true) the_block 10 false 6 (hash_of 9) (CCoinsViewCache_of old_store) = Done (Some vtxundo, c1) /\
  nullified (cache_state c1) (hash_of 4) = true /\ unspent (cache_state c1) (hash_of 2, 0) = None /\
  DisconnectBlock_view buf0 (fun _ => true) the_block vtxundo (1 :: repeat 0 31) (hash_of 8) c1 = Done (DISCONNECT_OK, c2) /\
  nullified (cache_state c2) (hash_of 4) = false /\ unspent (cache_state c2) (hash_of 2, 0) = Some (coin_of 7).
Proof.
  destruct (connect_disconnect buf0 (fun _ => false) true (fun _ => true) (fun _ => true) (fun _ => eq_refl)
    (CCoinsViewCache_of old_store) the_coinbase [the_payment] 10 6 (hash_of 9)) as (r & c1 & E & _ & H); try reflexivity.
  - lia.
  - exact (proj1 (new_cache_ok old_store old_store_ok)).
  - exact the_block_ok.
  - exact old_store_restorable.
  - right. split; [discriminate | reflexivity].
  - assert (A : all_available buf0 true (fun _ => true) 10 [the_coinbase; the_payment] (cache_state (CCoinsViewCache_of old_store)) = true) by (vm_compute; reflexivity).
    rewrite A in H. destruct H as (H1 & us & c2 & -> & E2 & _ & H2). exists us, c1, c2. split; [exact E|]. destruct H1 as (H11 & _ & H13 & _).
    split; [rewrite H13; vm_compute; reflexivity|]. split; [rewrite H11; vm_compute; reflexivity|]. split; [exact E2|]. destruct H2 as (H21 & _ & H23 & _).
    split; [rewrite H23; vm_compute; reflexivity | rewrite H21; vm_compute; reflexivity].
Defined.
