(* ===== verification/Replay.v ===== *)
(** [ReplayBlocks] of validation.cpp: the database after an interrupted write is brought to
    the new tip with the index of the blocks and the blocks on disk. *)
From S2P Require Import Prelude CryptoCommon Streams Serialize Uint256 Merkle Upgrades Chain ChainIndex Transactions TransactionsProofs Coins CoinsProofs CoinsDB CoinsCache.
From S2P Require Import ConnectCoins ConnectProofs.
From stdpp Require Import base gmap list countable functions.
#[local] Open Scope Z_scope.
#[local] Open Scope word_scope.
Import CryptoCommon Uint256 Merkle.Merkle Transactions.Tx Coins.Coins CoinsDB.CoinsDB ConnectCoins.ConnectCoins.

Module Replay.
Section Replay.
Context {sizes : Sizes} {Tree : Type} {T : Trees Tree} {Order : Visit} (full : list (change Tree) -> bool).
Abbreviation CBlockIndex := Chain.CBlockIndex.
Abbreviation cache := (CCoinsViewCache Tree (store Tree)).
#[local] Instance view : View Tree (store Tree) := db_view full.

(** The parameters of the network, whether it is the main one, the objects of the block index
    and [mapBlockIndex]. *)
Context (params : Consensus.Params) (main : bool) (height_last_invalid_UTXO : Z) (index : Chain.store) (mapBlockIndex : gmap (list Z) nat).
(** The files of blocks and of undo data, with the checks of what they hold. *)
Context (ReadBlockFromDisk : CBlockIndex -> option (list CTransaction)) (UndoReadFromDisk : CBlockIndex -> option (list CTxUndo)).
(** The other databases: that of the zerocoins, and the evolution database with the special
    transactions. A block is disconnected or connected at most once in a replay, so what they answer
    for it is a function of the block, whatever was written in them before. *)
Context (DisconnectZerocoinTx : CTransaction -> bool) (VerifyBestBlock UndoSpecialTxsInBlock ProcessSpecialTxsInBlock : CBlockIndex -> bool).
(** The buffer of the hasher of [ComputeHash], and [invalid_out::setInvalidOutPoints]. *)
Context (buf : list Z) (ContainsOutPoint : outpoint -> bool).

Definition SkipInvalidUTXOS (nHeight : Z) : bool :=
  main && Consensus.NetworkUpgradeActive params nHeight Consensus.UPGRADE_ZC && (nHeight <=? height_last_invalid_UTXO).

(** [DisconnectBlock]; the accumulator checkpoints of the zerocoins and the removal of budget objects
    are not modelled. *)
Definition DisconnectBlock (vtx : list CTransaction) (pindex : CBlockIndex) (c : cache) : outcome (DisconnectResult * cache) :=
  let fDIP3Active := Consensus.NetworkUpgradeActive params (Chain.nHeight pindex) Consensus.UPGRADE_V6_0 in
  if fDIP3Active && negb (VerifyBestBlock pindex) then Done (DISCONNECT_FAILED, c)
  else if fst (Chain.GetUndoPos pindex) =? -1 then Done (DISCONNECT_FAILED, c)
  else
    match Chain.deref index (Chain.pprev pindex) with
    | None => OutOfBounds
    | Some prev =>
        match UndoReadFromDisk pindex with
        | None => Done (DISCONNECT_FAILED, c)
        | Some vtxundo =>
            if negb (length vtxundo + 1 =? length vtx)%nat then Done (DISCONNECT_FAILED, c)
            else if negb (UndoSpecialTxsInBlock pindex) then Done (DISCONNECT_FAILED, c)
            else
              let anchor := if Consensus.NetworkUpgradeActive params (Chain.nHeight prev) Consensus.UPGRADE_V5_0
                            then Chain.hashFinalSaplingRoot prev else empty_root in
              DisconnectBlock_view buf DisconnectZerocoinTx vtx vtxundo anchor (Chain.phashBlock prev) c
        end
    end.

(** The loop along the old branch; a branch is no longer than the index. *)
Fixpoint rollback (fuel : nat) (pindexOld pindexFork : option nat) (c : cache) : outcome (bool * cache) :=
  match fuel with
  | O => OutOfBounds
  | S fuel =>
      if Chain.ptr_eqb pindexOld pindexFork then Done (true, c)
      else
        match Chain.deref index pindexOld with
        | None => OutOfBounds
        | Some old =>
            let! r :=
              (if Chain.nHeight old >? 0 then
                 match ReadBlockFromDisk old with
                 | None => Done (false, c)
                 | Some vtx =>
                     let! r := DisconnectBlock vtx old c in
                     Done (match fst r with DISCONNECT_FAILED => false | _ => true end, snd r)
                 end
               else Done (true, c)) in
            if fst r then rollback fuel (Chain.pprev old) pindexFork (snd r) else Done r
        end
  end.

(** [RollforwardBlock] with its reading of the block and the special transactions. *)
Definition RollforwardBlock_at (pindex : CBlockIndex) (c : cache) : outcome (bool * cache) :=
  match ReadBlockFromDisk pindex with
  | None => Done (false, c)
  | Some vtx =>
      let! c := RollforwardBlock buf ContainsOutPoint vtx (Chain.nHeight pindex) (SkipInvalidUTXOS (Chain.nHeight pindex)) c in
      Done (ProcessSpecialTxsInBlock pindex, c)
  end.

(** The loop from the fork to the new tip, for [n] heights from [nHeight]. *)
Fixpoint rollforward (n : nat) (nHeight : Z) (pindexNew : nat) (c : cache) : outcome (bool * cache) :=
  match n with
  | O => Done (true, c)
  | S n =>
      match Chain.GetAncestor index (Some pindexNew) nHeight with
      | None => OutOfBounds
      | Some p =>
          match Chain.deref index p with
          | None => OutOfBounds
          | Some pindex =>
              let! r := RollforwardBlock_at pindex c in
              if fst r then rollforward n (nHeight + 1) pindexNew (snd r) else Done r
          end
      end
  end.

(** What is returned, and the database. *)
Definition ReplayBlocks (d : store Tree) : outcome (bool * store Tree) :=
  let c := CCoinsViewCache_of d in
  match db_GetHeadBlocks d with
  | [] => Done (true, d)
  | [head; tail] =>
      match mapBlockIndex !! head with
      | None => Done (false, d)
      | Some pindexNew =>
          let! branch :=
            (if Uint256.IsNull 32 tail then Done (Some (None, None))
             else
               match mapBlockIndex !! tail with
               | None => Done None
               | Some old =>
                   match Chain.LastCommonAncestor index (Some old) (Some pindexNew) with
                   | None => OutOfBounds
                   | Some None => AssertionFailed
                   | Some (Some fork) => Done (Some (Some old, Some fork))
                   end
               end) in
          match branch with
          | None => Done (false, d)
          | Some (pindexOld, pindexFork) =>
              let! r := rollback (S (length index)) pindexOld pindexFork c in
              let '(fOk, c) := r in
              if negb fOk then Done (false, base c)
              else
                match Chain.deref index (Some pindexNew) with
                | None => OutOfBounds
                | Some new =>
                    let nForkHeight := match Chain.deref index pindexFork with Some f => Chain.nHeight f | None => 0 end in
                    let! r := rollforward (Z.to_nat (Chain.nHeight new - nForkHeight)) (nForkHeight + 1) pindexNew c in
                    let '(fOk, c) := r in
                    if negb fOk then Done (false, base c)
                    else
                      let c := SetBestBlock (Chain.phashBlock new) c in
                      let! r := Flush c in
                      Done (true, base (snd r))
                end
          end
      end
  | _ => Done (false, d)
  end.
End Replay.
End Replay.

Import Replay.

(** * What the loops leave alone *)

Section Frame.
Context {sizes : Sizes} {Tree V : Type} {T : Trees Tree} {W : View Tree V} (pure : forall o (v : V), snd (GetCoin o v) = v).
Context (buf : list Z) (invalid : outpoint -> bool).
Abbreviation cache := (CCoinsViewCache Tree V).

(** Only the coins of the cache are changed; the view below answers without changing. *)
Definition coins_only (c c' : cache) : Prop :=
  base c' = base c /\ hashBlock c' = hashBlock c /\ hashSaplingAnchor c' = hashSaplingAnchor c /\
  cacheSaplingAnchors c' = cacheSaplingAnchors c /\ cacheSaplingNullifiers c' = cacheSaplingNullifiers c.

Lemma coins_only_refl c : coins_only c c.
Proof. now split_and!. Qed.
Lemma coins_only_trans c c1 c2 : coins_only c c1 -> coins_only c1 c2 -> coins_only c c2.
Proof. intros (? & ? & ? & ? & ?) (? & ? & ? & ? & ?). split_and!; congruence. Qed.
Lemma coins_only_set m c c1 : coins_only c c1 -> coins_only c (set_coins m c1).
Proof. intros H. exact H. Qed.

Lemma FetchCoin_frame o c : coins_only c (snd (FetchCoin o c)).
Proof.
  unfold FetchCoin. destruct (cacheCoins c !! o); [apply coins_only_refl|]. pose proof (pure o (base c)) as E. destruct (GetCoin o (base c)) as [r b].
  cbn [snd] in E. subst b. destruct r; now split_and!.
Qed.

Lemma SpendCoin_frame o c : coins_only c (snd (SpendCoin o c)).
Proof.
  unfold SpendCoin. pose proof (FetchCoin_frame o c) as F. destruct (FetchCoin o c) as [[it|] c1]; [|exact F].
  cbn [snd] in *. destruct (has FRESH (flags it)); now apply coins_only_set.
Qed.

Lemma HaveCoin_frame o c : coins_only c (snd (HaveCoin o c)).
Proof. unfold HaveCoin. pose proof (FetchCoin_frame o c) as F. now destruct (FetchCoin o c) as [[it|] c1]. Qed.

Lemma AddCoin_frame o co b c c' : AddCoin o co b c = Done c' -> coins_only c c'.
Proof.
  unfold AddCoin. repeat case_match; try discriminate; intros [= <-]; (apply coins_only_refl || apply coins_only_set, coins_only_refl).
Qed.

Lemma spend_again_frame vin : forall c, coins_only c (spend_again vin c).
Proof.
  induction vin as [|i vin IH]; intros c; [apply coins_only_refl|]. cbn [spend_again].
  eapply coins_only_trans; [apply SpendCoin_frame | apply IH].
Qed.

Lemma AddCoins_frame id height cb cs check skip vout : forall i c c',
  AddCoins_loop invalid id i vout height cb cs check skip c = Done c' -> coins_only c c'.
Proof.
  induction vout as [|o vout IH]; intros i c c'; cbn [AddCoins_loop]; [intros [= <-]; apply coins_only_refl|].
  destruct (skip && invalid (id, w32 i)).
  - intros E. eapply coins_only_trans; [apply SpendCoin_frame | exact (IH _ _ _ E)].
  - assert (F : forall b c1, (if check then HaveCoin (id, w32 i) c else (false, c)) = (b, c1) -> coins_only c c1).
    { intros b c1. destruct check; [|intros [= _ <-]; apply coins_only_refl]. pose proof (HaveCoin_frame (id, w32 i) c) as F.
      destruct (HaveCoin (id, w32 i) c) as [x y]. intros [= _ <-]. exact F. }
    destruct (if check then _ else _) as [b c1] eqn:E1. specialize (F _ _ eq_refl).
    destruct (AddCoin _ _ b c1) as [c2| | | |] eqn:E2; cbn [bind]; try discriminate. intros E.
    eapply coins_only_trans; [exact F|]. eapply coins_only_trans; [exact (AddCoin_frame _ _ _ _ _ E2) | exact (IH _ _ _ E)].
Qed.

Lemma RollforwardBlock_frame height skip txs : forall c c', RollforwardBlock buf invalid txs height skip c = Done c' -> coins_only c c'.
Proof.
  induction txs as [|tx txs IH]; intros c c'; cbn [RollforwardBlock]; [intros [= <-]; apply coins_only_refl|].
  destruct (AddCoins buf invalid tx height true skip _) as [c1| | | |] eqn:E1; cbn [bind]; try discriminate. intros E.
  apply AddCoins_frame in E1. eapply coins_only_trans; [|eapply coins_only_trans; [exact E1 | exact (IH _ _ E)]].
  destruct (negb (IsCoinBase tx)); [apply spend_again_frame | apply coins_only_refl].
Qed.

Lemma replay_forward_frame skip blocks : forall c c', replay_forward buf invalid blocks skip c = Done c' -> coins_only c c'.
Proof.
  induction blocks as [|[h txs] blocks IH]; intros c c'; cbn [replay_forward]; [intros [= <-]; apply coins_only_refl|].
  destruct (RollforwardBlock buf invalid txs h (skip h) c) as [c1| | | |] eqn:E1; cbn [bind]; try discriminate. intros E.
  eapply coins_only_trans; [exact (RollforwardBlock_frame _ _ _ _ _ E1) | exact (IH _ _ E)].
Qed.
End Frame.

(** * Repairing *)

Section Repair.
Context {sizes : Sizes} {Tree : Type} {T : Trees Tree} {TL : TreesLaws Tree} {Order : Visit} (full : list (change Tree) -> bool).
Context (params : Consensus.Params) (main : bool) (height_last_invalid_UTXO : Z) (index : Chain.store) (mapBlockIndex : gmap (list Z) nat).
Context (ReadBlockFromDisk : Chain.CBlockIndex -> option (list CTransaction)) (UndoReadFromDisk : Chain.CBlockIndex -> option (list CTxUndo)).
Context (DisconnectZerocoinTx : CTransaction -> bool) (VerifyBestBlock UndoSpecialTxsInBlock ProcessSpecialTxsInBlock : Chain.CBlockIndex -> bool).
Context (buf : list Z) (ContainsOutPoint : outpoint -> bool).
Abbreviation cache := (CCoinsViewCache Tree (store Tree)).
Abbreviation ReplayBlocks := (ReplayBlocks full params main height_last_invalid_UTXO index mapBlockIndex ReadBlockFromDisk UndoReadFromDisk
  DisconnectZerocoinTx VerifyBestBlock UndoSpecialTxsInBlock ProcessSpecialTxsInBlock buf ContainsOutPoint).
#[local] Instance repair_view : View Tree (store Tree) := view full.
(** After an interrupted write the store can still be read. *)
#[local] Instance torn_reads : ViewReads Tree (store Tree) := db_reads full readable (fun d H => H).

(** The blocks from height [h + 1] on the branch of the new tip, with their heights; they are
    on disk, and none of the special cases applies to them. *)
Fixpoint on_branch (pindexNew : nat) (h : Z) (blocks : list (Z * list CTransaction)) : Prop :=
  match blocks with
  | [] => True
  | (height, txs) :: blocks =>
      height = h + 1 /\
      (exists p b, Chain.GetAncestor index (Some pindexNew) height = Some (Some p) /\ nth_error index p = Some b /\ Chain.nHeight b = height /\
         ReadBlockFromDisk b = Some txs /\ ProcessSpecialTxsInBlock b = true) /\
      SkipInvalidUTXOS params main height_last_invalid_UTXO height = false /\ on_branch pindexNew (h + 1) blocks
  end.

(** The new tip is [length blocks] blocks after the old one; the first write has no old tip. *)
Definition extends (tip : list Z) (pindexNew : nat) (new : Chain.CBlockIndex) (blocks : list (Z * list CTransaction)) : Prop :=
  exists h, Chain.nHeight new = h + Z.of_nat (length blocks) /\ on_branch pindexNew h blocks /\
  if Uint256.IsNull 32 tip then h = 0
  else exists old b, mapBlockIndex !! tip = Some old /\ nth_error index old = Some b /\ Chain.nHeight b = h /\
    Chain.LastCommonAncestor index (Some old) (Some pindexNew) = Some (Some old).

Lemma rollforward_list pindexNew blocks : forall h (c : cache), on_branch pindexNew h blocks ->
  rollforward full params main height_last_invalid_UTXO index ReadBlockFromDisk ProcessSpecialTxsInBlock buf ContainsOutPoint
    (length blocks) (h + 1) pindexNew c =
  bind (replay_forward buf ContainsOutPoint blocks (fun _ => false) c) (fun c => Done (true, c)).
Proof.
  induction blocks as [|[height txs] blocks IH]; intros h c; cbn [length rollforward replay_forward on_branch]; [reflexivity|].
  intros (-> & (p & b & E1 & E2 & E3 & E4 & E5) & E6 & H). rewrite E1. cbn [Chain.deref]. rewrite E2. unfold RollforwardBlock_at. rewrite E4, E3, E6.
  destruct (RollforwardBlock buf ContainsOutPoint txs (h + 1) false c) as [c1| | | |]; cbn [bind]; try reflexivity. rewrite E5. cbn [fst snd]. now apply IH.
Qed.

(** What is left of an interrupted write of the blocks after the state [s]. *)
Record torn (hb tip : list Z) (blocks : list (Z * list CTransaction)) (s : snapshot) (d : store Tree) : Prop := {
  torn_readable : readable d;
  torn_best : Uint256.IsNull 32 (db_GetBestBlock d) = true;
  torn_heads : db_GetHeadBlocks d = [hb; tip];
  torn_coins o : unspent (db_state d) o = unspent s o \/ unspent (db_state d) o = unspent (connected_blocks buf blocks s) o;
  torn_nullified : nullified (db_state d) = nullified s;
  torn_anchored : anchored (db_state d) = anchored s;
  torn_best_anchor : best_anchor (db_state d) = best_anchor s
}.

Lemma interrupted_torn (d0 : store Tree) (mc : gmap outpoint CCoinsCacheEntry) (hb ha : list Z) (ma : gmap (list Z) (CAnchorsSaplingCacheEntry Tree))
  (mn : gmap (list Z) CNullifiersCacheEntry) lc la ln bs n blocks :
  db_ok d0 -> lc ≡ₚ map_to_list mc -> Uint256.IsNull 32 hb = false ->
  (forall o, unspent (written mc hb ha ma mn (db_state d0)) o = unspent (connected_blocks buf blocks (db_state d0)) o) ->
  batches full lc hb ha la ln d0 = Done bs -> (0 < n < length bs)%nat ->
  torn hb (db_GetBestBlock d0) blocks (db_state d0) (fold_left WriteBatch (take n bs) d0).
Proof.
  intros Hd Hlc Hb Hw E Hn. destruct (batches_spec full d0 _ hb ha lc la ln (old_tip_complete hb d0 Hd) Hb) as (bs' & E' & _ & _ & Ep).
  rewrite E in E'. injection E' as <-. destruct (Ep n Hn) as (l1 & l2 & El & ->).
  destruct (begun_rest hb (db_GetBestBlock d0) d0 l1) as (E1 & _ & _ & _ & E5).
  destruct (begun_spec d0 mc hb (db_GetBestBlock d0) ha ma mn lc l1 l2 Hlc El) as (B1 & B2 & B3 & B4 & B5 & B6). split; try assumption.
  - destruct Hd as (_ & Hr & Hl). split; [now rewrite E1|]. unfold db_GetBestAnchor in *. now rewrite E5.
  - rewrite B1. reflexivity.
  - intros o. destruct (B3 o) as [H|H]; [now left | right]. now rewrite H.
Qed.

(** The write at the end of the replay: only coins are written. *)
Lemma flush_torn hb tip blocks s d (c : cache) :
  torn hb tip blocks s d -> cache_ok c -> coins_only (CCoinsViewCache_of d) c -> length hb = 32%nat -> Uint256.IsNull 32 hb = false ->
  exists c', Flush (SetBestBlock hb c) = Done (true, c') /\ db_ok (base c') /\
    db_state (base c') ≡ {| unspent := unspent (cache_state c); anchored := anchored (cache_state c); nullified := nullified (cache_state c);
                            best_block := hb; best_anchor := best_anchor (db_state d) |}.
Proof.
  intros Ht Hc (E1 & _ & E3 & E4 & E5) Hl Hb. cbn [CCoinsViewCache_of base hashSaplingAnchor cacheSaplingAnchors cacheSaplingNullifiers] in *.
  assert (Hla : visit (cacheSaplingAnchors c) ≡ₚ map_to_list (cacheSaplingAnchors c)) by apply visit_all.
  assert (Hln : visit (cacheSaplingNullifiers c) ≡ₚ map_to_list (cacheSaplingNullifiers c)) by apply visit_all.
  assert (Et : old_tip hb d = Done tip) by (apply old_tip_torn; [exact Hl | apply Ht | apply Ht]).
  unfold Flush. cbn [SetBestBlock cacheCoins hashBlock hashSaplingAnchor cacheSaplingAnchors cacheSaplingNullifiers base BatchWrite view db_view].
  rewrite E1, E3. unfold repair_view, view. cbn [BatchWrite db_view]. unfold db_BatchWrite.
  destruct (batches_spec full d tip hb null256 (visit (cacheCoins c)) (visit (cacheSaplingAnchors c)) (visit (cacheSaplingNullifiers c)) Et Hb) as (bs & -> & _ & Ef & _).
  cbn [bind]. rewrite Ef. eexists. split; [reflexivity|]. cbn [base].
  pose proof (cache_writable c Hc) as Hw. rewrite E1 in Hw.
  destruct (final_state d tip (cacheCoins c) hb null256 (cacheSaplingAnchors c) (cacheSaplingNullifiers c) _ _ _ (torn_readable _ _ _ _ _ Ht)
    (visit_all (cacheCoins c)) Hla Hln Hw eq_refl) as [F1 F2].
  split; [exact F1|]. rewrite F2. pose proof (written_cache c hb (db_GetBestAnchor d) Hc) as Hwr. rewrite E1 in Hwr. exact Hwr.
Qed.

Lemma reads_pure o (v : store Tree) : snd (GetCoin o v) = v.
Proof. reflexivity. Qed.

Lemma torn_replayed hb tip blocks s d pindexNew new :
  torn hb tip blocks s d -> length hb = 32%nat -> Uint256.IsNull 32 hb = false -> Forall (fun b => Forall plain (snd b)) blocks ->
  mapBlockIndex !! hb = Some pindexNew -> nth_error index pindexNew = Some new -> Chain.phashBlock new = hb -> extends tip pindexNew new blocks ->
  exists d', ReplayBlocks d = Done (true, d') /\ db_ok d' /\
    db_state d' ≡ {| unspent := unspent (connected_blocks buf blocks s); anchored := anchored s; nullified := nullified s;
                     best_block := hb; best_anchor := best_anchor s |}.
Proof.
  intros Ht Hl Hb Hp Hm Hi Hh (h & Hlen & Hbr & Hold). unfold Replay.ReplayBlocks. rewrite (torn_heads _ _ _ _ _ Ht), Hm.
  assert (Eb : exists p, (if Uint256.IsNull 32 tip then Done (Some (None, None)) else
     match mapBlockIndex !! tip with
     | None => Done None
     | Some old => match Chain.LastCommonAncestor index (Some old) (Some pindexNew) with
                   | None => OutOfBounds | Some None => AssertionFailed | Some (Some fork) => Done (Some (Some old, Some fork)) end
     end) = Done (Some (p, p)) /\ match Chain.deref index p with Some f => Chain.nHeight f | None => 0 end = h).
  { destruct (Uint256.IsNull 32 tip); [exists None; now subst h|]. destruct Hold as (old & b & -> & Eo & Ehh & ->). exists (Some old).
    split; [reflexivity|]. cbn [Chain.deref]. now rewrite Eo. }
  destruct Eb as (p & -> & Eh). cbn [bind rollback]. assert (Ep : Chain.ptr_eqb p p = true) by (destruct p; [apply Nat.eqb_refl | reflexivity]). rewrite Ep. cbn [bind negb Chain.deref].
  rewrite Hi, Eh. replace (Z.to_nat (Chain.nHeight new - h)) with (length blocks) by lia. rewrite rollforward_list by exact Hbr.
  pose proof (new_cache_ok d (torn_readable _ _ _ _ _ Ht)) as [Hc0 Hs0].
  destruct (replay_forward_spec buf ContainsOutPoint blocks (CCoinsViewCache_of d) Hc0 Hp) as (c & E & Hc & H1 & H2 & H3 & _).
  rewrite E. cbn [bind negb]. rewrite Hh.
  destruct (flush_torn hb tip blocks s d c Ht Hc (replay_forward_frame reads_pure buf ContainsOutPoint _ _ _ _ E) Hl Hb) as (c' & Ef & Hok & Hs). unfold repair_view in Ef. rewrite Ef.
  cbn [bind snd]. eexists. split; [reflexivity|]. split; [exact Hok|]. rewrite Hs. destruct (puts_rest (all_changes buf blocks) (cache_state (CCoinsViewCache_of d))) as (R1 & R2 & _).
  destruct Hs0 as (S1 & S2 & S3 & _). split_and!; cbn [unspent anchored nullified best_block best_anchor].
  - intros o. rewrite H1, unspent_connected_blocks. apply puts_again. intros o'. rewrite <- unspent_connected_blocks, S1. apply Ht.
  - intros rt. rewrite H2, R1, S2. change (anchored (CoinsProofs.state d)) with (anchored (db_state d)). now rewrite (torn_anchored _ _ _ _ _ Ht).
  - intros nf. rewrite H3, R2, S3. change (nullified (CoinsProofs.state d)) with (nullified (db_state d)). now rewrite (torn_nullified _ _ _ _ _ Ht).
  - reflexivity.
  - apply Ht.
Qed.

(** C23. Recovering from an interrupted write: the blocks after the tip of the database are connected in
    a cache, and its write stops after some of its batches but not after all of them, so that the
    database has no best block and holds the head blocks. [ReplayBlocks] on that database succeeds and leaves
    a complete one: its best block is the new tip, it has no head blocks, and its coins are
    those of the blocks connected, whichever coins had been written. Nullifiers and anchors are not replayed:
    they stay those of the old tip. On the database that it leaves, [ReplayBlocks] does nothing. *)
Theorem replay_repairs (c : cache) blocks pindexNew new :
  db_ok (base c) -> cache_ok c -> length (hashBlock c) = 32%nat -> Uint256.IsNull 32 (hashBlock c) = false ->
  Forall (fun b => Forall plain (snd b)) blocks ->
  (forall o, unspent (cache_state c) o = unspent (connected_blocks buf blocks (db_state (base c))) o) ->
  mapBlockIndex !! hashBlock c = Some pindexNew -> nth_error index pindexNew = Some new -> Chain.phashBlock new = hashBlock c ->
  extends (db_GetBestBlock (base c)) pindexNew new blocks ->
  exists bs, batches full (visit (cacheCoins c)) (hashBlock c) (hashSaplingAnchor c) (visit (cacheSaplingAnchors c)) (visit (cacheSaplingNullifiers c)) (base c) = Done bs /\
  forall n, (0 < n < length bs)%nat ->
  exists d', ReplayBlocks (fold_left WriteBatch (take n bs) (base c)) = Done (true, d') /\ db_ok d' /\ db_GetHeadBlocks d' = [] /\
    db_state d' ≡ {| unspent := unspent (connected_blocks buf blocks (db_state (base c)));
                     anchored := anchored (db_state (base c)); nullified := nullified (db_state (base c));
                     best_block := hashBlock c; best_anchor := best_anchor (db_state (base c)) |} /\
    ReplayBlocks d' = Done (true, d').
Proof.
  intros Hd Hc Hl Hb Hp Hs Hm Hi Hh He.
  destruct (batches_spec full (base c) _ (hashBlock c) (hashSaplingAnchor c) (visit (cacheCoins c)) (visit (cacheSaplingAnchors c))
    (visit (cacheSaplingNullifiers c)) (old_tip_complete _ _ Hd) Hb) as (bs & E & _). exists bs. split; [exact E|]. intros n Hn.
  assert (Hw : forall o, unspent (written (cacheCoins c) (hashBlock c) (hashSaplingAnchor c) (cacheSaplingAnchors c) (cacheSaplingNullifiers c) (db_state (base c))) o =
                         unspent (connected_blocks buf blocks (db_state (base c))) o).
  { intros o. rewrite <- Hs. apply (written_cache c (hashBlock c) (hashSaplingAnchor c) Hc). }
  pose proof (interrupted_torn _ _ _ _ _ _ _ _ _ bs n blocks Hd (visit_all (cacheCoins c)) Hb Hw E Hn) as Ht.
  destruct (torn_replayed _ _ _ _ _ _ _ Ht Hl Hb Hp Hm Hi Hh He) as (d' & E' & Hd' & Hs').
  exists d'. assert (E0 : db_GetHeadBlocks d' = []) by (unfold db_GetHeadBlocks; now rewrite (proj1 Hd')).
  split; [exact E'|]. split; [exact Hd'|]. split; [exact E0|]. split; [exact Hs'|]. unfold Replay.ReplayBlocks. now rewrite E0.
Qed.
End Repair.

(** * Witness *)

#[local] Existing Instance small_trees.
#[local] Existing Instance small_trees_laws.
#[local] Existing Instance TransactionsProofs.lp64.
#[local] Instance in_order : Visit := {| visit K A _ _ m := map_to_list m; visit_all K A _ _ m := reflexivity _ |}.
(** A batch is full with its first change. *)
Definition small_batches (b : list (change Z)) : bool := (0 <? length b)%nat.
#[local] Instance small_view : View Z (store Z) := view small_batches.
#[local] Instance small_reads : ViewReads Z (store Z) := db_reads small_batches readable (fun d H => H).

(** The block of the store at height 9 and the next one. *)
Definition index_entry (h : Z) (x : Z) (prev : option nat) : Chain.CBlockIndex :=
  Chain.set_phashBlock (hash_of x) (ChainIndex.plain x prev h 0).
Definition two_blocks : Chain.store := [index_entry 9 8 None; index_entry 10 9 (Some 0%nat)].
Definition two_hashes : gmap (list Z) nat := {[ hash_of 8 := 0%nat; hash_of 9 := 1%nat ]}.

(** The cache in which the block is connected. *)
Definition cache_of (r : outcome (option (list CTxUndo) * CCoinsViewCache Z (store Z))) : CCoinsViewCache Z (store Z) :=
  match r with Done (_, c) => c | _ => CCoinsViewCache_of old_store end.
Definition connected_cache : CCoinsViewCache Z (store Z) :=
  cache_of (ConnectBlock_view (W := small_view) buf0 (fun _ => false) true (fun _ => true) the_block 10 false 6 (hash_of 9) (CCoinsViewCache_of old_store)).

Lemma connected_cache_ok : cache_ok connected_cache /\ cache_state connected_cache ≡ with_block (hash_of 9) (push 6 (connected_all buf0 10 the_block (db_state old_store))).
Proof.
  unfold connected_cache.
  destruct (ConnectBlock_view_spec buf0 (fun _ => false) true (fun _ => true) (CCoinsViewCache_of old_store) the_block 10 6 (hash_of 9)) as (us & c & -> & H).
  - lia.
  - exact (proj1 (new_cache_ok (L := small_reads) old_store (proj2 old_store_ok))).
  - exact the_block_ok.
  - exact old_store_restorable.
  - reflexivity.
  - reflexivity.
  - vm_compute. reflexivity.
  - exact H.
Qed.

(** The write stops after its first batch; the nullifier of the block is not marked by the replay. *)
Lemma replay_repairs_witness :
  exists bs d',
  batches small_batches (map_to_list (cacheCoins connected_cache)) (hashBlock connected_cache) (hashSaplingAnchor connected_cache)
    (map_to_list (cacheSaplingAnchors connected_cache)) (map_to_list (cacheSaplingNullifiers connected_cache)) old_store = Done bs /\
  (3 <= length bs)%nat /\ db_GetBestBlock (fold_left WriteBatch (take 1 bs) old_store) = null256 /\
  ReplayBlocks small_batches Upgrades.Consensus.CMainParams true 0 two_blocks two_hashes (fun _ => Some the_block) (fun _ => None) (fun _ => true) (fun _ => true)
    (fun _ => true) (fun _ => true) buf0 (fun _ => false) (fold_left WriteBatch (take 1 bs) old_store) = Done (true, d') /\
  db_GetBestBlock d' = hashBlock connected_cache /\ hashBlock connected_cache = hash_of 9 /\ unspent (db_state d') (hash_of 2, 0) = None /\
  nullified (cache_state connected_cache) (hash_of 4) = true /\ nullified (db_state d') (hash_of 4) = false.
Proof.
  destruct connected_cache_ok as [Hc Hs]. assert (Eb : base connected_cache = old_store) by (vm_compute; reflexivity).
  destruct (replay_repairs small_batches Upgrades.Consensus.CMainParams true 0 two_blocks two_hashes (fun _ => Some the_block) (fun _ => None) (fun _ => true) (fun _ => true)
    (fun _ => true) (fun _ => true) buf0 (fun _ => false) connected_cache [(10, the_block)] 1%nat (index_entry 10 9 (Some 0%nat))) as (bs & E & H).
  - rewrite Eb. exact old_store_ok.
  - exact Hc.
  - vm_compute. reflexivity.
  - vm_compute. reflexivity.
  - repeat constructor; discriminate.
  - rewrite Eb. intros o. exact (proj1 Hs o).
  - vm_compute. reflexivity.
  - reflexivity.
  - vm_compute. reflexivity.
  - rewrite Eb. exists 9. split; [reflexivity|]. split; [|exists 0%nat, (index_entry 9 8 None); split_and!; vm_compute; reflexivity].
    split; [reflexivity|]. split; [exists 1%nat, (index_entry 10 9 (Some 0%nat)); split_and!; vm_compute; reflexivity|]. split; [vm_compute; reflexivity | exact I].
  - rewrite Eb in E, H.
    assert (B : match batches small_batches (visit (cacheCoins connected_cache)) (hashBlock connected_cache) (hashSaplingAnchor connected_cache)
      (visit (cacheSaplingAnchors connected_cache)) (visit (cacheSaplingNullifiers connected_cache)) old_store with
      | Done bs => (3 <=? length bs)%nat && bool_decide (db_GetBestBlock (fold_left WriteBatch (take 1 bs) old_store) = null256)
      | _ => false end = true) by (vm_compute; reflexivity).
    rewrite E in B. apply andb_prop in B as [L B]. apply Nat.leb_le in L. apply bool_decide_eq_true in B.
    destruct (H 1%nat ltac:(lia)) as (d' & E' & _ & _ & Hd & _). exists bs, d'. split; [exact E|]. split; [exact L|].
    split; [exact B|]. split; [exact E'|].
    destruct Hd as (D1 & _ & D3 & D4 & _). split; [exact D4|]. split; [vm_compute; reflexivity|]. split; [rewrite D1; vm_compute; reflexivity|].
    split; [vm_compute; reflexivity | rewrite D3; vm_compute; reflexivity].
Defined.
