(* ===== verification/Compressor.v ===== *)
(** compressor.h and compressor.cpp: amounts and scripts in fewer bytes, and the records that
    use them: the coins of the database (coins.h) and the undo data of blocks (undo.h). What
    is written is read back; what is read from any bytes is a valid value. *)
From Stdlib Require Import ZifyNat.
From S2P Require Import Prelude CryptoCommon Streams AutoFile Serialize SerializeLaws VarInt Script Transactions Coins ConnectCoins.
Import CryptoCommon Script Transactions.Tx Coins.Coins ConnectCoins.ConnectCoins.

Module Compressor.

(** * Amounts *)

(** [while (((n % 10) == 0) && e < 9)], with [room] turns left: [n] and [e] after it. *)
Fixpoint strip_zeros (room : nat) (n e : Z) : Z * Z :=
  match room with
  | O => (n, e)
  | S room => if n mod 10 =? 0 then strip_zeros room (n / 10) (e + 1) else (n, e)
  end.

(** [uint64_t]; [None] when the assertion fails. *)
Definition CompressAmount (n : Z) : option Z :=
  if n =? 0 then Some 0
  else
    let (n, e) := strip_zeros 9 n 0 in
    if e <? 9 then
      let d := n mod 10 in
      if negb ((d >=? 1) && (d <=? 9)) then None
      else Some (w64 (1 + (n / 10 * 9 + d - 1) * 10 + e))
    else Some (w64 (1 + (n - 1) * 10 + 9)).

(** [while (e) { n *= 10; e--; }] *)
Fixpoint multiply (e : nat) (n : Z) : Z :=
  match e with
  | O => n
  | S e => multiply e (w64 (n * 10))
  end.

Definition DecompressAmount (x : Z) : Z :=
  if x =? 0 then 0
  else
    let x := x - 1 in
    let e := x mod 10 in
    let x := x / 10 in
    let n := if e <? 9 then w64 (x / 9 * 10 + (x mod 9 + 1)) else w64 (x + 1) in
    multiply (Z.to_nat e) n.

(** [AmountCompression] of a [CAmount]. *)
Definition AmountCompression : format Z :=
  {| ser val := match CompressAmount (w64 val) with Some x => ser VarInt64F x | None => [] end;
     unser S R s := let? (v, s) := unser VarInt64F s in Ok (signed 64 (DecompressAmount v), s) |}.

(** * Scripts *)

Section Keys.
(** [CPubKey::IsFullyValid] and [CPubKey::Decompress], which ask secp256k1; the bytes of the
    key after it. *)
Context (IsFullyValid : valtype -> bool) (Decompress : valtype -> option valtype).

Definition IsToKeyID (s : script) : option (list Z) :=
  if (length s =? 25)%nat && (s.[0] =? OP_DUP) && (s.[1] =? OP_HASH160) && (s.[2] =? 20) && (s.[23] =? OP_EQUALVERIFY) && (s.[24] =? OP_CHECKSIG)
  then Some (range s 3 23) else None.
Definition IsToScriptID (s : script) : option (list Z) :=
  if (length s =? 23)%nat && (s.[0] =? OP_HASH160) && (s.[1] =? 20) && (s.[22] =? OP_EQUAL) then Some (range s 2 22) else None.
(** [Set] gets 33 bytes that start with 2 or 3, or 65 that start with 4. *)
Definition IsToPubKey (s : script) : option valtype :=
  if (length s =? 35)%nat && (s.[0] =? 33) && (s.[34] =? OP_CHECKSIG) && ((s.[1] =? 0x02) || (s.[1] =? 0x03)) then Some (CPubKey_of (range s 1 34))
  else if (length s =? 67)%nat && (s.[0] =? 65) && (s.[66] =? OP_CHECKSIG) && (s.[1] =? 0x04) then
    let pubkey := CPubKey_of (range s 1 66) in if IsFullyValid pubkey then Some pubkey else None
  else None.

(** [out] when it returns [true]. *)
Definition CompressScript (s : script) : option (list Z) :=
  match IsToKeyID s with
  | Some keyID => Some (0x00 :: keyID)
  | None =>
      match IsToScriptID s with
      | Some scriptID => Some (0x01 :: scriptID)
      | None =>
          match IsToPubKey s with
          | Some pubkey =>
              if (pubkey.[0] =? 0x02) || (pubkey.[0] =? 0x03) then Some (pubkey.[0] :: range pubkey 1 33)
              else if pubkey.[0] =? 0x04 then Some ((0x04 |: (pubkey.[64] &: 0x01)) :: range pubkey 1 33)
              else None
          | None => None
          end
      end
  end.

Definition GetSpecialScriptSize (nSize : Z) : nat :=
  if (nSize =? 0) || (nSize =? 1) then 20
  else if (nSize =? 2) || (nSize =? 3) || (nSize =? 4) || (nSize =? 5) then 32
  else 0.

(** What it returns, and [s] after it. *)
Definition DecompressScript (s : script) (nSize : Z) (input : list Z) : result (bool * script) :=
  if nSize =? 0x00 then Ok (true, [OP_DUP; OP_HASH160; 20] ++ firstn 20 input ++ [OP_EQUALVERIFY; OP_CHECKSIG])
  else if nSize =? 0x01 then Ok (true, [OP_HASH160; 20] ++ firstn 20 input ++ [OP_EQUAL])
  else if (nSize =? 0x02) || (nSize =? 0x03) then Ok (true, [33; nSize] ++ firstn 32 input ++ [OP_CHECKSIG])
  else if (nSize =? 0x04) || (nSize =? 0x05) then
    match Decompress (CPubKey_of ((nSize - 2) :: firstn 32 input)) with
    | None => Ok (false, s)
    | Some pubkey => if negb (length pubkey =? 65)%nat then Throw Streams.AssertionFailed else Ok (true, [65] ++ pubkey ++ [OP_CHECKSIG])
    end
  else Ok (false, s).

Definition nSpecialScripts : Z := 6.

Definition ScriptCompression_Unser (script : script) {S} {R : Reader S} (s : S) : result (list Z * S) :=
  let? (nSize, s) := unser VarInt32F s in
  if nSize <? nSpecialScripts then
    let? (vch, s) := read (Z.of_nat (GetSpecialScriptSize nSize)) s in
    let? (_, script) := DecompressScript script nSize vch in
    Ok (script, s)
  else
    let nSize := nSize - nSpecialScripts in
    if nSize >? MAX_SCRIPT_SIZE then let? s := ignore nSize s in Ok (push_opcode script OP_RETURN, s)
    else read nSize s.

(** The script that is read into is empty, as that of a new [CTxOut] is. *)
Definition ScriptCompression : format script :=
  {| ser script :=
       match CompressScript script with
       | Some compr => compr
       | None => ser VarInt32F (w32 (Z.of_nat (length script) + nSpecialScripts)) ++ script
       end;
     unser S R s := ScriptCompression_Unser [] s |}.

(** * Outputs, coins and undo data *)

Definition TxOutCompression : format CTxOut :=
  {| ser obj := ser AmountCompression (nValue obj) ++ ser ScriptCompression (scriptPubKey obj);
     unser S R s :=
       let? (nValue, s) := unser AmountCompression s in
       let? (scriptPubKey, s) := unser ScriptCompression s in
       Ok ({| nValue := nValue; scriptPubKey := scriptPubKey; nRounds := nRounds CTxOut_null |}, s) |}.

(** [nHeight * 4 + (fCoinBase ? 2 : 0) + (fCoinStake ? 1 : 0)], a [uint32_t]. *)
Definition code_of (c : Coin) : Z := w32 (nHeight c * 4 + (if fCoinBase c then 2 else 0) + (if fCoinStake c then 1 else 0)).
Definition coin_of_code (code : Z) (out : CTxOut) : Coin :=
  {| nHeight := Z.shiftr code 2; fCoinBase := negb (code &: 2 =? 0); fCoinStake := negb (code &: 1 =? 0); out := out |}.

Definition CoinF : format Coin :=
  {| ser c := ser VarInt32F (code_of c) ++ ser TxOutCompression (out c);
     unser S R s :=
       let? (code, s) := unser VarInt32F s in
       let? (out, s) := unser TxOutCompression s in
       Ok (coin_of_code code out, s) |}.
Definition Coin_Serialize (c : Coin) : result (list Z) := if IsSpent c then Throw Streams.AssertionFailed else Ok (ser CoinF c).

Definition TxInUndoFormatter : format Coin :=
  {| ser txout :=
       ser VarInt32F (code_of txout) ++ (if nHeight txout >? 0 then ser uint8F 0 else []) ++ ser TxOutCompression (out txout);
     unser S R s :=
       let? (nCode, s) := unser VarInt32F s in
       let? (_, s) := (if Z.shiftr nCode 2 >? 0 then unser VarInt32F s else Ok (0, s)) in
       let? (out, s) := unser TxOutCompression s in
       Ok (coin_of_code nCode out, s) |}.

(** [sizeof(Coin)] and [sizeof(CTxUndo)]. *)
Context (sizeof_Coin sizeof_CTxUndo : Z).

Definition CTxUndoF : format CTxUndo :=
  {| ser obj := ser (VectorFormatter sizeof_Coin TxInUndoFormatter) (vprevout obj);
     unser S R s := let? (v, s) := unser (VectorFormatter sizeof_Coin TxInUndoFormatter) s in Ok ({| vprevout := v |}, s) |}.
(** A [CBlockUndo] is its vector. *)
Definition CBlockUndoF : format (list CTxUndo) := VectorFormatter sizeof_CTxUndo CTxUndoF.
End Keys.

End Compressor.

Module CompressorLaws.
Import Compressor ScriptLaws.

(** * Amounts *)

(** The amount of a compressed number, without a bound. *)
Definition expanded (x : Z) : Z :=
  if x =? 0 then 0
  else
    let y := x - 1 in
    if y mod 10 <? 9 then (y / 10 / 9 * 10 + (y / 10 mod 9 + 1)) * 10 ^ (y mod 10) else (y / 10 + 1) * 10 ^ 9.

Lemma strip_zeros_spec room n e : 0 < n -> let (m, f) := strip_zeros room n e in
  n = m * 10 ^ (f - e) /\ e <= f <= e + Z.of_nat room /\ 0 < m /\ (f < e + Z.of_nat room -> m mod 10 <> 0).
Proof.
  revert n e; induction room as [|room IH]; intros n e Hn; cbn [strip_zeros].
  { rewrite Z.sub_diag. change (10 ^ 0) with 1. repeat split; lia. }
  destruct (Z.eqb_spec (n mod 10) 0) as [E|E].
  - specialize (IH (n / 10) (e + 1) ltac:(lia)). destruct (strip_zeros room (n / 10) (e + 1)) as [m f]. destruct IH as (H1 & H2 & H3 & H4).
    split; [|repeat split; (lia || (intros; apply H4; lia))].
    replace (f - e) with (Z.succ (f - (e + 1))) by lia. rewrite Z.pow_succ_r by lia. lia.
  - rewrite Z.sub_diag. change (10 ^ 0) with 1. repeat split; (lia || (intros; exact E)).
Qed.

Lemma expanded_nonneg x : word 64 x -> 0 <= expanded x.
Proof.
  unfold word, expanded. intros Hx. destruct (Z.eqb_spec x 0); [lia|]. cbv zeta.
  destruct (_ <? 9); [apply Z.mul_nonneg_nonneg; [lia | apply Z.pow_nonneg; lia] | lia].
Qed.

Lemma multiply_spec e n : multiply e (w64 n) = w64 (n * 10 ^ Z.of_nat e).
Proof.
  revert n; induction e as [|e IH]; intros n; [cbn [multiply]; now rewrite Z.mul_1_r|].
  cbn [multiply]. replace (w64 (w64 n * 10)) with (w64 (n * 10)) by (unfold w64; now rewrite Z.mul_mod_idemp_l by lia).
  rewrite IH, Nat2Z.inj_succ, Z.pow_succ_r by lia. f_equal. lia.
Qed.

Lemma DecompressAmount_spec x : word 64 x -> DecompressAmount x = w64 (expanded x).
Proof.
  unfold word, DecompressAmount, expanded. intros Hx. destruct (Z.eqb_spec x 0); [reflexivity|]. cbv zeta.
  pose proof (Z.mod_pos_bound (x - 1) 10 ltac:(lia)). destruct (Z.ltb_spec ((x - 1) mod 10) 9).
  - rewrite multiply_spec, Z2Nat.id by lia. reflexivity.
  - replace ((x - 1) mod 10) with 9 by lia. rewrite multiply_spec. reflexivity.
Qed.

Lemma CompressAmount_spec n : 0 <= n < 2 ^ 60 -> exists x, CompressAmount n = Some x /\ word 64 x /\ expanded x = n.
Proof.
  intros Hn. unfold CompressAmount. destruct (Z.eqb_spec n 0) as [->|Hne]; [exists 0; split; [reflexivity|]; split; [now split | reflexivity]|].
  pose proof (strip_zeros_spec 9 n 0 ltac:(lia)) as H. destruct (strip_zeros 9 n 0) as [m e]. destruct H as (En & He & Hm & Hz). rewrite Z.sub_0_r in En.
  assert (Hp : 1 <= 10 ^ e) by (apply Z.lt_pred_le, Z.pow_pos_nonneg; lia). assert (Hmn : m <= n) by nia. unfold word, expanded.
  destruct (Z.ltb_spec e 9) as [He9|He9].
  - specialize (Hz ltac:(lia)). set (d := m mod 10) in *. assert (Hd : 1 <= d <= 9) by (unfold d in *; lia).
    destruct (Z.geb_spec d 1); [|lia]. destruct (Z.leb_spec d 9); [|lia]. cbn [andb negb].
    set (x := 1 + (m / 10 * 9 + d - 1) * 10 + e). assert (Hx : 1 <= x < 2 ^ 64) by (unfold x, d in *; lia).
    exists x. unfold w64. rewrite Z.mod_small by lia. split; [reflexivity|]. split; [lia|]. destruct (Z.eqb_spec x 0); [lia|].
    assert (E1 : (x - 1) mod 10 = e) by (unfold x; lia). assert (E2 : (x - 1) / 10 = m / 10 * 9 + d - 1) by (unfold x; lia).
    rewrite E1, E2. destruct (Z.ltb_spec e 9); [|lia]. rewrite En. f_equal. unfold d in *. lia.
  - assert (e = 9) as -> by lia. set (x := 1 + (m - 1) * 10 + 9). change (10 ^ 9) with 1000000000 in *.
    assert (Hx : 1 <= x < 2 ^ 64) by (unfold x; lia). exists x. unfold w64. rewrite Z.mod_small by lia.
    split; [reflexivity|]. split; [lia|]. destruct (Z.eqb_spec x 0); [lia|].
    assert (E1 : (x - 1) mod 10 = 9) by (unfold x; lia). assert (E2 : (x - 1) / 10 = m - 1) by (unfold x; lia).
    rewrite E1, E2. change (9 <? 9) with false. cbv iota. lia.
Qed.

Lemma strip_zeros_unique room f m e :
  (f <= room)%nat -> 0 < m -> ((f < room)%nat -> m mod 10 <> 0) -> strip_zeros room (m * 10 ^ Z.of_nat f) e = (m, e + Z.of_nat f).
Proof.
  revert room e; induction f as [|f IH]; intros room e Hf Hm Hz.
  - rewrite Z.mul_1_r, Z.add_0_r. destruct room as [|room]; [reflexivity|]. cbn [strip_zeros].
    destruct (Z.eqb_spec (m mod 10) 0); [|reflexivity]. exfalso. apply Hz; lia.
  - destruct room as [|room]; [lia|]. cbn [strip_zeros]. rewrite Nat2Z.inj_succ, Z.pow_succ_r by lia.
    replace (m * (10 * 10 ^ Z.of_nat f)) with (m * 10 ^ Z.of_nat f * 10) by lia. rewrite Z.mod_mul, Z.div_mul by lia.
    rewrite IH by (assumption || lia || (intros; apply Hz; lia)). cbn [Z.eqb]. f_equal. lia.
Qed.

Lemma CompressAmount_expanded x : word 64 x -> CompressAmount (expanded x) = Some x.
Proof.
  unfold word, expanded, CompressAmount. intros Hx. destruct (Z.eqb_spec x 0) as [->|Hne]; [reflexivity|]. cbv zeta.
  pose proof (Z.mod_pos_bound (x - 1) 10 ltac:(lia)) as He. set (e := (x - 1) mod 10) in *. set (z := (x - 1) / 10).
  assert (Hz : 0 <= z /\ x = 1 + z * 10 + e) by (unfold z, e; lia).
  assert (Hp : forall k, 0 <= k -> 0 < 10 ^ k) by (intros; apply Z.pow_pos_nonneg; lia).
  destruct (Z.ltb_spec e 9) as [H9|H9].
  - set (m := z / 9 * 10 + (z mod 9 + 1)). assert (Hm : 0 < m /\ m mod 10 = z mod 9 + 1 /\ m / 10 = z / 9) by (unfold m; lia).
    destruct (Z.eqb_spec (m * 10 ^ e) 0) as [E|_]; [specialize (Hp e ltac:(lia)); nia|].
    replace (10 ^ e) with (10 ^ Z.of_nat (Z.to_nat e)) by (f_equal; lia).
    rewrite strip_zeros_unique by lia. rewrite Z2Nat.id by lia. destruct (Z.ltb_spec (0 + e) 9); [|lia].
    destruct Hm as (_ & -> & ->). destruct (Z.geb_spec (z mod 9 + 1) 1); [|lia]. destruct (Z.leb_spec (z mod 9 + 1) 9); [|lia].
    cbn [andb negb]. f_equal. unfold w64. rewrite Z.mod_small; lia.
  - destruct (Z.eqb_spec ((z + 1) * 10 ^ 9) 0) as [E|_]; [lia|].
    rewrite (strip_zeros_unique 9 9) by lia. change (0 + Z.of_nat 9 <? 9) with false. cbv iota. f_equal. unfold w64. rewrite Z.mod_small; lia.
Qed.

(** C31. No assertion fails in [CompressAmount], and the amounts below 2^60 are given back, which
    includes all the money there can be; [DecompressAmount] computes the amount of any number
    modulo 2^64, and a number whose amount is below 2^60 is the compressed number of it. *)
Theorem compressed_amounts n x :
  word 64 n -> word 64 x ->
  CompressAmount n <> None /\
  (n < 2 ^ 60 -> exists c, CompressAmount n = Some c /\ word 64 c /\ DecompressAmount c = n) /\
  DecompressAmount x = w64 (expanded x) /\
  (expanded x < 2 ^ 60 -> CompressAmount (DecompressAmount x) = Some x).
Proof.
  intros Hn Hx. split; [|split; [|split; [now apply DecompressAmount_spec|]]].
  - unfold CompressAmount, word in *. destruct (Z.eqb_spec n 0); [discriminate|]. pose proof (strip_zeros_spec 9 n 0 ltac:(lia)) as H.
    destruct (strip_zeros 9 n 0) as [m e]. destruct H as (_ & He & Hm & Hz). destruct (Z.ltb_spec e 9); [|discriminate]. specialize (Hz ltac:(lia)).
    destruct (Z.geb_spec (m mod 10) 1); [|lia]. destruct (Z.leb_spec (m mod 10) 9); [discriminate | lia].
  - intros Hb. unfold word in Hn. destruct (CompressAmount_spec n ltac:(lia)) as (c & E & Hc & Ec). exists c. split; [exact E|]. split; [exact Hc|].
    rewrite DecompressAmount_spec, Ec by assumption. apply Z.mod_small. lia.
  - intros Hb. rewrite DecompressAmount_spec by assumption.
    pose proof (expanded_nonneg x Hx). unfold w64. rewrite Z.mod_small by lia. now apply CompressAmount_expanded.
Qed.

Lemma compressed_amounts_witness : exists c, CompressAmount 2100000000 = Some c /\ word 64 c /\ DecompressAmount c = 2100000000.
Proof. apply (compressed_amounts 2100000000 0); [split; lia | split; lia | lia]. Defined.

Section Keys.
Context (IsFullyValid : valtype -> bool) (Decompress : valtype -> option valtype).

(** What secp256k1 promises: the coordinates of a key that it accepts are found again from
    the first one and from whether the second one is odd, and a key that it writes out has 65
    bytes. *)
Class KeyLaws : Prop := {
  decompress_valid (x y : valtype) :
    length x = 32%nat -> length y = 32%nat -> IsFullyValid (4 :: x ++ y) = true ->
    Decompress ((2 + y.[31] mod 2) :: x) = Some (4 :: x ++ y);
  decompress_size (key full : valtype) : Decompress key = Some full -> bytes full /\ length full = 65%nat
}.

(** The scripts that are compressed, and what they are compressed to. *)
Inductive compressed : script -> list Z -> Prop :=
| compressed_key_hash h : length h = 20%nat -> compressed (GetScriptForDestination (CKeyID h)) (0 :: h)
| compressed_script_hash h : length h = 20%nat -> compressed (GetScriptForDestination (CScriptID h)) (1 :: h)
| compressed_key k x : k = 2 \/ k = 3 -> length x = 32%nat -> compressed (GetScriptForRawPubKey (k :: x)) (k :: x)
| compressed_full_key x y : length x = 32%nat -> length y = 32%nat -> IsFullyValid (4 :: x ++ y) = true ->
    compressed (GetScriptForRawPubKey (4 :: x ++ y)) ((4 + y.[31] mod 2) :: x).

Lemma parity_bit b : 4 |: (b &: 1) = 4 + b mod 2.
Proof.
  change 1 with (Z.ones 1). rewrite Z.land_ones by lia. change (2 ^ 1) with 2.
  assert (H : b mod 2 = 0 \/ b mod 2 = 1) by lia. destruct H as [-> | ->]; reflexivity.
Qed.

Lemma IsToPubKey_form s key : IsToPubKey IsFullyValid s = Some key ->
  (exists k x, (k = 2 \/ k = 3) /\ length x = 32%nat /\ key = k :: x /\ s = [33; k] ++ x ++ [OP_CHECKSIG]) \/
  (exists x y, length x = 32%nat /\ length y = 32%nat /\ key = 4 :: x ++ y /\ IsFullyValid key = true /\ s = [65; 4] ++ x ++ y ++ [OP_CHECKSIG]).
Proof.
  unfold IsToPubKey. destruct (_ && _) eqn:H.
  - intros [= <-]. left. exists s.[1], (range s 2 34). literal_script s.
    match goal with H : _ || _ = true |- _ => apply orb_true_iff in H as [H|H]; apply Z.eqb_eq in H; subst end;
      (split; [auto|]; split; [reflexivity|]; split; reflexivity).
  - clear H. destruct (_ && _) eqn:H; [|discriminate]. destruct (IsFullyValid _) eqn:Hv; [|discriminate]. intros [= <-]. right.
    exists (range s 2 34), (range s 34 66). literal_script s. split; [reflexivity|]. split; [reflexivity|]. split; [reflexivity|].
    split; [exact Hv | reflexivity].
Qed.

Lemma CompressScript_compressed s c : CompressScript IsFullyValid s = Some c -> compressed s c.
Proof.
  unfold CompressScript. destruct (IsToKeyID s) as [h|] eqn:E1; [|destruct (IsToScriptID s) as [h|] eqn:E2; [|destruct (IsToPubKey IsFullyValid s) as [key|] eqn:E3; [|discriminate]]].
  - intros [= <-]. destruct (MatchPayToPubkeyHash_form s h E1) as [Hh ->]. now constructor.
  - intros [= <-]. unfold IsToScriptID in E2. destruct (_ && _) eqn:H; [|discriminate]. injection E2 as <-.
    destruct (IsPayToScriptHash_form s H) as [Hh E]. rewrite E at 1. now constructor.
  - destruct (IsToPubKey_form s key E3) as [(k & x & Hk & Hx & -> & ->)|(x & y & Hx & Hy & -> & Hv & ->)].
    + cbn [nth]. replace ((k =? 2) || (k =? 3)) with true by (destruct Hk; subst; reflexivity). intros [= <-].
      replace (range (k :: x) 1 33) with x; [|unfold range; cbn [skipn Nat.sub]; rewrite ?skipn_O; now rewrite <- Hx, firstn_all].
      replace ([33; k] ++ x ++ [OP_CHECKSIG]) with (GetScriptForRawPubKey (k :: x)); [now constructor|].
      unfold GetScriptForRawPubKey, push_opcode. rewrite push_small by (cbn [length]; lia). cbn [length app]. now rewrite Hx.
    + cbn [nth]. change (4 =? 2) with false. change (4 =? 3) with false. change (4 =? 4) with true. cbn [orb]. cbv iota. intros [= <-].
      replace (range (4 :: x ++ y) 1 33) with x; [|unfold range; cbn [skipn Nat.sub]; rewrite ?skipn_O; rewrite firstn_app, Hx, Nat.sub_diag, firstn_O, app_nil_r; now rewrite <- Hx, firstn_all].
      rewrite parity_bit. rewrite app_nth2 by lia. rewrite Hx. cbn [Nat.sub].
      replace ([65; 4] ++ x ++ y ++ [OP_CHECKSIG]) with (GetScriptForRawPubKey (4 :: x ++ y)); [now constructor|].
      unfold GetScriptForRawPubKey, push_opcode. rewrite push_small by (cbn [length]; rewrite length_app; lia). cbn [length app]. rewrite length_app, Hx, Hy.
      cbn [Nat.add app]. now rewrite <- app_assoc.
Qed.

Lemma varint_small b : 0 <= b < 128 -> ser VarInt32F b = [b].
Proof. intros H. apply (ser_varint 32 32); [lia.. |]. exists [], b. repeat split; (constructor || lia). Qed.

Lemma firstn_exactly {A} (l : list A) n : length l = n -> firstn n l = l.
Proof. intros <-. apply firstn_all. Qed.

Lemma decompress_compressed {laws : KeyLaws} s b r s0 : compressed s (b :: r) ->
  0 <= b < 6 /\ length r = GetSpecialScriptSize b /\ DecompressScript Decompress s0 b r = Ok (true, s).
Proof.
  intros H. remember (b :: r) as c eqn:Ec. destruct H as [h Hh|h Hh|k x Hk Hx|x y Hx Hy Hv]; injection Ec as <- <-.
  - split; [lia|]. split; [exact Hh|]. unfold DecompressScript. cbn [Z.eqb]. rewrite firstn_exactly by assumption.
    unfold GetScriptForDestination, push_opcode. rewrite <- !app_assoc. cbn [app]. do 2 f_equal.
    unfold push_data. rewrite Hh. reflexivity.
  - split; [lia|]. split; [exact Hh|]. unfold DecompressScript. change (1 =? 0) with false. change (1 =? 1) with true. cbv iota. rewrite firstn_exactly by assumption.
    unfold GetScriptForDestination, push_opcode. cbn [app]. do 2 f_equal. unfold push_data. rewrite Hh. reflexivity.
  - split; [lia|]. unfold DecompressScript, GetScriptForRawPubKey, push_opcode. rewrite push_small by (cbn [length]; lia). cbn [length]. rewrite Hx.
    destruct Hk as [-> | ->]; (split; [reflexivity|]); cbn [Z.eqb Pos.eqb orb app]; rewrite firstn_exactly by assumption; reflexivity.
  - assert (Hm : 0 <= y.[31] mod 2 < 2) by (apply Z.mod_pos_bound; lia). set (m := y.[31] mod 2) in *. split; [lia|].
    unfold DecompressScript, GetSpecialScriptSize, GetScriptForRawPubKey, push_opcode. rewrite push_small by (cbn [length]; rewrite length_app; lia).
    rewrite (firstn_exactly x 32) by assumption.
    assert (Ek : CPubKey_of ((2 + m) :: x) = (2 + m) :: x).
    { unfold CPubKey_of, ValidSize, GetLen. cbn [nth length]. rewrite Hx. assert (E : m = 0 \/ m = 1) by lia. destruct E as [-> | ->]; reflexivity. }
    pose proof (decompress_valid x y Hx Hy Hv) as Ed. fold m in Ed.
    assert (Ek' : CPubKey_of ((4 + m - 2) :: x) = (2 + m) :: x) by (replace (4 + m - 2) with (2 + m) by lia; exact Ek).
    rewrite Ek', Ed. cbn [length]. rewrite length_app, Hx, Hy. cbn [Nat.add Nat.eqb negb Z.of_nat Pos.of_succ_nat Pos.succ app].
    assert (E : m = 0 \/ m = 1) by lia. destruct E as [-> | ->]; split; reflexivity.
Qed.

Definition script_ok (s : script) : Prop := bytes s /\ Z.of_nat (length s) <= MAX_SCRIPT_SIZE.

Lemma CompressScript_cons s c : CompressScript IsFullyValid s = Some c -> exists b r, c = b :: r.
Proof. intros E. apply CompressScript_compressed in E. destruct E; eauto. Qed.

#[export] Instance Sound_Script {laws : KeyLaws} : Sound (ScriptCompression IsFullyValid Decompress) script_ok.
Proof.
  intros S R L s a rest Hs [Hb Hl] Hc. cbn [ser unser ScriptCompression] in *. unfold ScriptCompression_Unser, nSpecialScripts, MAX_SCRIPT_SIZE in *.
  destruct (CompressScript IsFullyValid a) as [c|] eqn:Ec.
  - destruct (CompressScript_cons a c Ec) as (b & r & ->). apply CompressScript_compressed in Ec.
    destruct (decompress_compressed a b r [] Ec) as (H6 & Hr & Ed). cbn [app] in Hc.
    assert (Hv : varint_ok 32 b) by (unfold varint_ok; lia). assert (Hcb : content s = ser VarInt32F b ++ r ++ rest) by (rewrite (varint_small b) by lia; exact Hc).
    destruct (sound (f := VarInt32F) _ _ _ s b (r ++ rest) Hs Hv Hcb) as (s1 & E1 & Hs1 & Hc1).
    rewrite E1. cbn [Streams.bind]. destruct (Z.ltb_spec b 6); [|lia]. rewrite <- Hr.
    destruct (read_front s1 r rest (Z.of_nat (length r)) Hs1 Hc1 eq_refl) as (s2 & E2 & H2).
    { rewrite Hr. unfold GetSpecialScriptSize. repeat match goal with |- context [if ?b then _ else _] => destruct b end; lia. }
    rewrite E2. cbn [Streams.bind]. rewrite Ed. cbn [Streams.bind]. eauto.
  - assert (Hn : w32 (Z.of_nat (length a) + 6) = Z.of_nat (length a) + 6) by (unfold w32; rewrite Z.mod_small; lia). rewrite Hn, <- app_assoc in Hc.
    assert (Hv : varint_ok 32 (Z.of_nat (length a) + 6)) by (unfold varint_ok; lia).
    destruct (sound (f := VarInt32F) _ _ _ s (Z.of_nat (length a) + 6) (a ++ rest) Hs Hv Hc) as (s1 & E1 & Hs1 & Hc1).
    rewrite E1. cbn [Streams.bind]. destruct (Z.ltb_spec (Z.of_nat (length a) + 6) 6); [lia|].
    replace (Z.of_nat (length a) + 6 - 6) with (Z.of_nat (length a)) by lia. destruct (Z.gtb_spec (Z.of_nat (length a)) 10000); [lia|].
    apply (read_front s1 a rest); [assumption..| reflexivity | lia].
Qed.

Lemma compressed_CompressScript s c : compressed s c -> CompressScript IsFullyValid s = Some c.
Proof.
  intros [h Hh|h Hh|k x Hk Hx|x y Hx Hy Hv].
  - fields h Hh. reflexivity.
  - fields h Hh. reflexivity.
  - fields x Hx. destruct Hk as [-> | ->]; reflexivity.
  - fields x Hx. fields y Hy. unfold CompressScript.
    match goal with |- context [IsToPubKey IsFullyValid ?s] =>
      replace (IsToPubKey IsFullyValid s) with (if IsFullyValid (range s 1 66) then Some (range s 1 66) else None) by reflexivity;
      replace (IsToKeyID s) with (@None (list Z)) by reflexivity; replace (IsToScriptID s) with (@None (list Z)) by reflexivity
    end.
    match goal with |- context [if ?b then _ else _] => replace b with true by (symmetry; exact Hv) end.
    cbn [nth]. rewrite <- parity_bit. reflexivity.
Qed.

Lemma compressed_length s c : compressed s c -> (length s <= 67)%nat.
Proof.
  intros [h Hh|h Hh|k x Hk Hx|x y Hx Hy Hv]; unfold GetScriptForDestination, GetScriptForRawPubKey, push_opcode.
  1,2: assert (Hp : forall p, push_data p h = p ++ 20 :: h) by (intros p; unfold push_data; rewrite Hh; cbv zeta; change (Z.of_nat 20 <? OP_PUSHDATA1) with true; cbv iota; now rewrite <- app_assoc);
    rewrite Hp; repeat (rewrite length_app; cbn [length]); lia.
  all: rewrite length_app; cbn [length].
  - rewrite push_small by (cbn [length]; lia). cbn [length]. lia.
  - rewrite push_small by (cbn [length]; rewrite length_app; lia). cbn [length]. rewrite length_app. lia.
Qed.

Lemma DecompressScript_ok {laws : KeyLaws} s nSize input : script_ok s -> bytes input -> 0 <= nSize < 2 ^ 32 ->
  length input = GetSpecialScriptSize nSize -> exists b s', DecompressScript Decompress s nSize input = Ok (b, s') /\ script_ok s'.
Proof.
  intros Hs Hb Hn Hl. unfold DecompressScript, GetSpecialScriptSize, script_ok, MAX_SCRIPT_SIZE in *.
  assert (Hin : forall n, bytes (firstn n input)) by (intros n; now apply Forall_take).
  assert (Hlen : forall n, (length (firstn n input) <= 32)%nat).
  { intros n. rewrite length_firstn, Hl. repeat match goal with |- context [if ?b then _ else _] => destruct b end; lia. }
  assert (Hop : forall l, forallb (fun x => (0 <=? x) && (x <? 256)) l = true -> bytes l).
  { intros l H. apply Forall_forall. intros x Hx. rewrite forallb_forall in H. specialize (H x Hx). unfold word. lia. }
  destruct (Z.eqb_spec nSize 0) as [->|N0]; [|destruct (Z.eqb_spec nSize 1) as [->|N1]; [|destruct ((nSize =? 2) || (nSize =? 3)) eqn:E2; [|destruct ((nSize =? 4) || (nSize =? 5)) eqn:E4]]].
  3: assert (Hk : nSize = 2 \/ nSize = 3) by lia; destruct Hk as [-> | ->].
  1,2,3,4: eexists true, _; split; [reflexivity|]; split;
    [repeat (apply Forall_app; split); auto; apply Hop; reflexivity | repeat (rewrite length_app; cbn [length]);
     match goal with |- context [firstn ?n _] => specialize (Hlen n) end; lia].
  - destruct (Decompress _) as [full|] eqn:Ed; [|eauto]. destruct (decompress_size _ _ Ed) as [Hf Lf]. rewrite Lf. cbn [Nat.eqb negb].
    eexists true, _. split; [reflexivity|]. split; [|repeat (rewrite length_app; cbn [length]); lia].
    repeat (apply Forall_app; split); auto; apply Hop; reflexivity.
  - eauto.
Qed.

Lemma script_nil : script_ok [].
Proof. split; [constructor | unfold MAX_SCRIPT_SIZE; cbn; lia]. Qed.


Section Reading.
Context {laws : KeyLaws} {S : Type} {R : Reader S} {L : ReaderLaws S}.
Implicit Types s : S.

Lemma special_size n : 0 <= Z.of_nat (GetSpecialScriptSize n) < 2 ^ 31.
Proof. unfold GetSpecialScriptSize. repeat match goal with |- context [if ?b then _ else _] => destruct b end; lia. Qed.

Lemma ignore_cases n s : ready s -> 0 <= n < 2 ^ 32 ->
  match ignore n s with
  | Ok s' => ready s' /\ exists used, content s = used ++ content s'
  | Throw e => e <> OutOfFuel
  end.
Proof.
  intros Hs Hn. assert (Cut : forall k, exists used, content s = used ++ skipn k (content s)) by (intros k; eexists; symmetry; apply firstn_skipn).
  destruct (Z.lt_ge_cases n (2 ^ 31)) as [H31|H31].
  - destruct (Z.le_gt_cases n (Z.of_nat (length (content s)))) as [Hl|Hl].
    + destruct (ignore_Ok n s Hs ltac:(lia) Hl) as (s' & -> & Hs' & ->). auto.
    + rewrite (ignore_end n s Hs ltac:(lia) Hl). discriminate.
  - pose proof (ignore_large n s Hs ltac:(lia)) as H. destruct (ignore n s) as [s'|e]; [destruct H as (Hs' & -> & _); auto|].
    destruct H as [->|[-> _]]; discriminate.
Qed.

(** Reading a script from any bytes ends with a script or with an exception. *)
Lemma Script_cases s : ready s ->
  match unser (ScriptCompression IsFullyValid Decompress) s with
  | Ok (script, s') => ready s' /\ script_ok script /\ exists used, content s = used ++ content s'
  | Throw e => e <> OutOfFuel
  end.
Proof.
  intros Hs. cbn [unser ScriptCompression]. unfold ScriptCompression_Unser, nSpecialScripts.
  pose proof (total (f := VarInt32F) _ _ _ s Hs) as T. destruct (unser VarInt32F s) as [[nSize s1]|e] eqn:E; cbn [Streams.bind]; [clear T | congruence].
  destruct (exact (f := VarInt32F) _ _ _ s _ _ Hs E) as (Hs1 & Hv & Hc). unfold varint_ok in Hv. clear E. destruct (Z.ltb_spec nSize 6) as [H6|H6].
  - destruct (read_cases _ s1 Hs1 (special_size nSize)) as [(vch & s2 & -> & Hs2 & Hl & Hb & Hc2)| ->]; cbn [Streams.bind]; [|discriminate].
    destruct (DecompressScript_ok [] nSize vch script_nil Hb ltac:(lia) ltac:(lia)) as (b & a & -> & Ha). cbn [Streams.bind].
    split; [assumption|]. split; [assumption|]. eexists. rewrite Hc, Hc2, app_assoc. reflexivity.
  - unfold MAX_SCRIPT_SIZE. destruct (Z.gtb_spec (nSize - 6) 10000).
    + pose proof (ignore_cases (nSize - 6) s1 Hs1 ltac:(lia)) as H1. destruct (ignore _ s1) as [s2|e]; cbn [Streams.bind]; [|exact H1].
      destruct H1 as (Hs2 & used & Hc2). split; [assumption|]. split; [|eexists; rewrite Hc, Hc2, app_assoc; reflexivity].
      split; [repeat constructor; unfold OP_RETURN; lia | unfold MAX_SCRIPT_SIZE; cbn; lia].
    + destruct (read_cases (nSize - 6) s1 Hs1 ltac:(lia)) as [(a & s2 & -> & Hs2 & Hl & Hb & Hc2)| ->]; [|discriminate].
      split; [assumption|]. split; [split; [assumption | unfold MAX_SCRIPT_SIZE; lia]|]. eexists. rewrite Hc, Hc2, app_assoc. reflexivity.
Qed.
End Reading.

#[export] Instance Safe_Script {laws : KeyLaws} : Safe (ScriptCompression IsFullyValid Decompress) script_ok.
Proof. intros S R L s a s' Hs E. pose proof (Script_cases s Hs) as H. now rewrite E in H. Qed.
#[export] Instance Total_Script {laws : KeyLaws} : Total (ScriptCompression IsFullyValid Decompress).
Proof. intros S R L s Hs E. pose proof (Script_cases s Hs) as H. now rewrite E in H. Qed.

(** C32. The scripts that are compressed are those for a key hash, a script hash, a compressed key
    and a valid full key, to one byte below 6 and the 20 or 32 bytes that it says, and
    [DecompressScript], whose assertion never fails, gives them back. A script that is too long
    to be spent is read as [OP_RETURN]. *)
Theorem compressed_scripts {laws : KeyLaws} {S : Type} {R : Reader S} {L : ReaderLaws S} a c s0 nSize input (s : S) rest long :
  script_ok s0 -> bytes input -> 0 <= nSize < 2 ^ 32 -> length input = GetSpecialScriptSize nSize ->
  MAX_SCRIPT_SIZE < Z.of_nat (length long) < 2 ^ 31 ->
  (CompressScript IsFullyValid a = Some c <-> compressed a c) /\
  (forall b r, compressed a (b :: r) ->
     0 <= b < 6 /\ length r = GetSpecialScriptSize b /\ DecompressScript Decompress s0 b r = Ok (true, a)) /\
  (exists b script, DecompressScript Decompress s0 nSize input = Ok (b, script) /\ script_ok script) /\
  (ready s -> content s = ser (ScriptCompression IsFullyValid Decompress) long ++ rest ->
     exists s', unser (ScriptCompression IsFullyValid Decompress) s = Ok ([OP_RETURN], s') /\ ready s' /\ content s' = rest).
Proof.
  intros Hs0 Hin Hn Hl Hlong. split; [split; [apply CompressScript_compressed | apply compressed_CompressScript]|].
  split; [intros b r H; now apply decompress_compressed|]. split; [now apply DecompressScript_ok|].
  intros Hs Hc. cbn [ser unser ScriptCompression] in *. unfold ScriptCompression_Unser, nSpecialScripts, MAX_SCRIPT_SIZE in *.
  destruct (CompressScript IsFullyValid long) as [c'|] eqn:Ec; [apply CompressScript_compressed, compressed_length in Ec; lia|].
  assert (Ew : w32 (Z.of_nat (length long) + 6) = Z.of_nat (length long) + 6) by (unfold w32; rewrite Z.mod_small; lia). rewrite Ew, <- app_assoc in Hc.
  assert (Hv : varint_ok 32 (Z.of_nat (length long) + 6)) by (unfold varint_ok; lia).
  destruct (sound (f := VarInt32F) _ _ _ s (Z.of_nat (length long) + 6) (long ++ rest) Hs Hv Hc) as (s1 & E1 & Hs1 & Hc1).
  rewrite E1. cbn [Streams.bind]. destruct (Z.ltb_spec (Z.of_nat (length long) + 6) 6); [lia|].
  replace (Z.of_nat (length long) + 6 - 6) with (Z.of_nat (length long)) by lia. destruct (Z.gtb_spec (Z.of_nat (length long)) 10000); [|lia].
  destruct (ignore_Ok (Z.of_nat (length long)) s1 Hs1 ltac:(lia) ltac:(rewrite Hc1, length_app; lia)) as (s2 & -> & Hs2 & Hc2). cbn [Streams.bind].
  eexists. split; [reflexivity|]. split; [exact Hs2|]. rewrite Hc2, Hc1, Nat2Z.id, skipn_app, skipn_all, Nat.sub_diag. reflexivity.
Qed.

(** * Outputs, coins and undo data *)

Definition amount_ok (v : Z) : Prop := 0 <= v < 2 ^ 60.
#[export] Instance Sound_Amount : Sound AmountCompression amount_ok.
Proof.
  intros S R L s v rest Hs Hv Hc. unfold amount_ok in Hv. cbn [ser unser AmountCompression] in *. unfold w64 in Hc. rewrite Z.mod_small in Hc by lia.
  destruct (CompressAmount_spec v Hv) as (x & Ex & Hx & Ev). rewrite Ex in Hc.
  destruct (Sound_VarInt64 S R L s x rest Hs ltac:(unfold varint_ok, word in *; lia) Hc) as (s' & E & H). exists s'. rewrite E. cbn [Streams.bind].
  split; [|exact H]. rewrite DecompressAmount_spec, Ev by assumption. unfold w64, signed. rewrite Z.mod_small by lia.
  destruct (Z.ltb_spec v (2 ^ (64 - 1))); [reflexivity | lia].
Qed.
#[export] Instance Safe_Amount : Safe AmountCompression int64.
Proof.
  intros S R L s v s' Hs E. cbn [unser AmountCompression] in E. inv_bind E. injection E as <- <-.
  destruct (Exact_VarInt64 S R L s _ _ Hs E0) as (Hs1 & Hv & Hc). split; [assumption|]. split; [|eauto].
  rewrite DecompressAmount_spec by (unfold varint_ok, word in *; lia).
  apply (signed_range 64); [lia|]. unfold word, w64. apply Z.mod_pos_bound. lia.
Qed.
#[export] Instance Total_Amount : Total AmountCompression.
Proof.
  intros S R L s Hs. cbn [unser AmountCompression]. pose proof (Total_VarInt64 S R L s Hs). destruct (unser VarInt64F s) as [[]|]; cbn [Streams.bind]; congruence.
Qed.

Definition out_ok (o : CTxOut) : Prop := amount_ok (nValue o) /\ script_ok (scriptPubKey o) /\ nRounds o = -10.
Definition out_read (o : CTxOut) : Prop := int64 (nValue o) /\ script_ok (scriptPubKey o) /\ nRounds o = -10.

Section Records.
Context {laws : KeyLaws}.
Local Abbreviation TxOutF := (TxOutCompression IsFullyValid Decompress).

#[export] Instance Sound_TxOut : Sound TxOutF out_ok.
Proof. sound_record TxOutCompression out_ok. Qed.
#[export] Instance Safe_TxOut : Safe TxOutF out_read.
Proof.
  intros S R L s o s' Hs E. cbn [unser TxOutCompression] in E. inv_bind E. inv_bind E. injection E as <- <-. repeat learn_safe.
  split; [assumption|]. split; [split; [assumption|]; split; [assumption | reflexivity]|]. eexists. chain. now rewrite app_assoc.
Qed.
#[export] Instance Total_TxOut : Total TxOutF.
Proof. total_record TxOutCompression. Qed.

(** ** Coins *)

Definition coin_ok (c : Coin) : Prop := 0 <= nHeight c < 2 ^ 30 /\ out_ok (out c).
Definition coin_read (c : Coin) : Prop := 0 <= nHeight c < 2 ^ 30 /\ out_read (out c).

Lemma code_bits h (b k : bool) : 0 <= h ->
  Z.shiftr (h * 4 + (if b then 2 else 0) + (if k then 1 else 0)) 2 = h /\
  negb ((h * 4 + (if b then 2 else 0) + (if k then 1 else 0)) &: 2 =? 0) = b /\
  negb ((h * 4 + (if b then 2 else 0) + (if k then 1 else 0)) &: 1 =? 0) = k.
Proof.
  intros Hh. rewrite Z.shiftr_div_pow2 by lia. change (2 ^ 2) with 4. set (r := (if b then 2 else 0) + (if k then 1 else 0)).
  assert (Hr : 0 <= r < 4) by (unfold r; destruct b, k; lia).
  replace (h * 4 + (if b then 2 else 0) + (if k then 1 else 0)) with (h * 4 + r) by (unfold r; lia).
  split; [lia|].
  assert (Hl : forall m, m = 1 \/ m = 2 -> (h * 4 + r) &: m = r &: m).
  { intros m Hm. apply Z.bits_inj'. intros i Hi. rewrite !Z.land_spec. destruct (Z.lt_ge_cases i 2).
    - f_equal. replace (h * 4 + r) with (r + h * 2 ^ 2) by lia. rewrite <- (Z.mod_pow2_bits_low _ 2), Z.mod_add, Z.mod_pow2_bits_low by lia. reflexivity.
    - replace (Z.testbit m i) with false; [now rewrite !andb_false_r|]. symmetry. apply Z.bits_above_log2; destruct Hm; subst; cbn; lia. }
  rewrite !Hl by auto. unfold r. destruct b, k; split; reflexivity.
Qed.

Lemma code_of_value c : 0 <= nHeight c < 2 ^ 30 ->
  code_of c = nHeight c * 4 + (if fCoinBase c then 2 else 0) + (if fCoinStake c then 1 else 0).
Proof. intros H. unfold code_of, w32. apply Z.mod_small. destruct (fCoinBase c), (fCoinStake c); lia. Qed.

Lemma coin_of_code_of c : 0 <= nHeight c < 2 ^ 30 -> varint_ok 32 (code_of c) /\ Z.shiftr (code_of c) 2 = nHeight c /\ coin_of_code (code_of c) (out c) = c.
Proof.
  intros H. pose proof (code_bits (nHeight c) (fCoinBase c) (fCoinStake c) ltac:(lia)) as (H1 & H2 & H3). rewrite code_of_value by assumption.
  unfold coin_of_code. rewrite H1, H2, H3. split; [unfold varint_ok; destruct (fCoinBase c), (fCoinStake c); lia|]. split; [reflexivity | now destruct c].
Qed.

Lemma coin_of_code_read code o : varint_ok 32 code -> out_read o -> coin_read (coin_of_code code o).
Proof. unfold varint_ok. intros Hc Ho. split; [|exact Ho]. cbn [nHeight coin_of_code]. rewrite Z.shiftr_div_pow2 by lia. change (2 ^ 2) with 4. lia. Qed.

#[export] Instance Sound_Coin : Sound (CoinF IsFullyValid Decompress) coin_ok.
Proof.
  intros S R L s c rest Hs [Hh Ho] Hc. cbn [ser unser CoinF] in *. rewrite <- app_assoc in Hc. destruct (coin_of_code_of c Hh) as (Hv & _ & Ec).
  destruct (Sound_VarInt32 S R L s (code_of c) _ Hs Hv Hc) as (s1 & E1 & Hs1 & Hc1). rewrite E1. cbn [Streams.bind].
  destruct (Sound_TxOut S R L s1 (out c) rest Hs1 Ho Hc1) as (s2 & E2 & H2). rewrite E2. cbn [Streams.bind]. rewrite Ec. eauto.
Qed.
#[export] Instance Safe_Coin : Safe (CoinF IsFullyValid Decompress) coin_read.
Proof.
  intros S R L s c s' Hs E. cbn [unser CoinF] in E. inv_bind E. inv_bind E. injection E as <- <-. repeat learn_safe.
  split; [assumption|]. split; [now apply coin_of_code_read|]. eexists. chain. now rewrite app_assoc.
Qed.
#[export] Instance Total_Coin : Total (CoinF IsFullyValid Decompress).
Proof. total_record CoinF. Qed.

(** ** Undo data *)

Lemma height_gtb h : (h >? 0) = true <-> 0 < h.
Proof. rewrite Z.gtb_ltb, Z.ltb_lt. lia. Qed.

#[export] Instance Sound_Undo : Sound (TxInUndoFormatter IsFullyValid Decompress) coin_ok.
Proof.
  intros S R L s c rest Hs [Hh Ho] Hc. cbn [ser unser TxInUndoFormatter] in *. rewrite <- !app_assoc in Hc. destruct (coin_of_code_of c Hh) as (Hv & Ehh & Ec).
  destruct (Sound_VarInt32 S R L s (code_of c) _ Hs Hv Hc) as (s1 & E1 & Hs1 & Hc1). rewrite E1. cbn [Streams.bind]. rewrite Ehh.
  assert (H0 : exists s2, (if nHeight c >? 0 then unser VarInt32F s1 else Ok (0, s1)) = Ok (0, s2) /\ ready s2 /\ content s2 = ser TxOutF (out c) ++ rest).
  { destruct (nHeight c >? 0); [|eauto]. apply (Sound_VarInt32 S R L s1 0); [assumption | unfold varint_ok; lia|]. rewrite varint_small by lia. exact Hc1. }
  destruct H0 as (s2 & E2 & Hs2 & Hc2). rewrite E2. cbn [Streams.bind].
  destruct (Sound_TxOut S R L s2 (out c) rest Hs2 Ho Hc2) as (s3 & E3 & H3). rewrite E3. cbn [Streams.bind]. rewrite Ec. eauto.
Qed.
#[export] Instance Safe_Undo : Safe (TxInUndoFormatter IsFullyValid Decompress) coin_read.
Proof.
  intros S R L s c s' Hs E. cbn [unser TxInUndoFormatter] in E. inv_bind E. inv_bind E. inv_bind E. injection E as <- <-.
  destruct (Exact_VarInt32 S R L s _ _ Hs E0) as (Hs1 & Hv & Hc).
  assert (H1 : ready s1 /\ exists used, content s0 = used ++ content s1).
  { destruct (_ >? 0); [destruct (Exact_VarInt32 S R L s0 _ _ Hs1 E1) as (H1 & _ & H2); eauto | injection E1 as _ <-; split; [assumption | now exists []]]. }
  destruct H1 as (Hs2 & used & Hc1). destruct (Safe_TxOut S R L s1 _ _ Hs2 E2) as (Hs3 & Ho & used' & Hc2).
  split; [assumption|]. split; [now apply coin_of_code_read|]. eexists. rewrite Hc, Hc1, Hc2, !app_assoc. reflexivity.
Qed.
#[export] Instance Total_Undo : Total (TxInUndoFormatter IsFullyValid Decompress).
Proof.
  intros S R L s Hs. cbn [unser TxInUndoFormatter]. pose proof (Total_VarInt32 S R L s Hs) as T.
  destruct (unser VarInt32F s) as [[code s1]|e] eqn:E; cbn [Streams.bind]; [clear T | congruence]. destruct (Exact_VarInt32 S R L s _ _ Hs E) as (Hs1 & _).
  destruct (_ >? 0); cbn [Streams.bind]; [|total_step; discriminate]. pose proof (Total_VarInt32 S R L s1 Hs1) as T.
  destruct (unser VarInt32F s1) as [[z s2]|e] eqn:E1; cbn [Streams.bind]; [clear T | congruence]. destruct (Exact_VarInt32 S R L s1 _ _ Hs1 E1) as (Hs2 & _).
  total_step. discriminate.
Qed.

Context (sizeof_Coin sizeof_CTxUndo : Z) (HC : 1 <= sizeof_Coin <= MAX_VECTOR_ALLOCATE) (HU : 1 <= sizeof_CTxUndo <= MAX_VECTOR_ALLOCATE).
Local Abbreviation UndoF := (CTxUndoF IsFullyValid Decompress sizeof_Coin).
Local Abbreviation BlockUndoF := (CBlockUndoF IsFullyValid Decompress sizeof_Coin sizeof_CTxUndo).

Definition undo_ok (u : CTxUndo) : Prop := vector coin_ok (vprevout u).
Definition undo_read (u : CTxUndo) : Prop := vector coin_read (vprevout u).

Lemma Sound_CTxUndo : Sound UndoF undo_ok.
Proof.
  intros S R L s u rest Hs Hu Hc. cbn [ser unser CTxUndoF] in *.
  destruct (Sound_vector sizeof_Coin _ coin_ok HC S R L s (vprevout u) rest Hs Hu Hc) as (s' & E & H). exists s'. rewrite E. cbn [Streams.bind]. now destruct u.
Qed.
Lemma Safe_CTxUndo : Safe UndoF undo_read.
Proof.
  intros S R L s u s' Hs E. cbn [unser CTxUndoF] in E. inv_bind E. injection E as <- <-. exact (Safe_vector sizeof_Coin _ coin_read HC S R L s _ _ Hs E0).
Qed.
Lemma Total_CTxUndo : Total UndoF.
Proof.
  intros S R L s Hs. cbn [unser CTxUndoF]. pose proof (Total_vector sizeof_Coin _ coin_read HC S R L s Hs).
  destruct (unser (VectorFormatter _ _) s) as [[]|]; cbn [Streams.bind]; congruence.
Qed.

(** C30. A coin of the database and the undo data of a block are read back as they were written,
    for heights below 2^30 and amounts below 2^60; only an unspent coin is written. Reading
    them from any bytes ends, with an exception of the code or with coins whose scripts have
    at most 10000 bytes and whose heights are below 2^30. *)
Theorem coin_codec {S : Type} {R : Reader S} {L : ReaderLaws S} (c : Coin) (undo : list CTxUndo) (s : S) rest :
  coin_ok c -> vector undo_ok undo -> ready s ->
  Coin_Serialize IsFullyValid Decompress c = Ok (ser (CoinF IsFullyValid Decompress) c) /\
  (forall c, IsSpent c = true -> Coin_Serialize IsFullyValid Decompress c = Throw Streams.AssertionFailed) /\
  (content s = ser (CoinF IsFullyValid Decompress) c ++ rest ->
     exists s', unser (CoinF IsFullyValid Decompress) s = Ok (c, s') /\ ready s' /\ content s' = rest) /\
  (content s = ser BlockUndoF undo ++ rest -> exists s', unser BlockUndoF s = Ok (undo, s') /\ ready s' /\ content s' = rest) /\
  (forall r, unser (CoinF IsFullyValid Decompress) s = r -> match r with Ok (c', _) => coin_read c' | Throw e => e <> OutOfFuel end) /\
  (forall r, unser BlockUndoF s = r -> match r with Ok (l, _) => vector undo_read l | Throw e => e <> OutOfFuel end).
Proof.
  intros Hc Hu Hs. split.
  { unfold Coin_Serialize, IsSpent, CTxOut_IsNull. destruct Hc as (_ & Ha & _). unfold amount_ok in Ha. destruct (Z.eqb_spec (nValue (out c)) (-1)); [lia | reflexivity]. }
  split; [intros d Hd; unfold Coin_Serialize; now rewrite Hd|]. split; [intros E; exact (Sound_Coin S R L s c rest Hs Hc E)|].
  split; [intros E; exact (Sound_vector sizeof_CTxUndo UndoF undo_ok HU (X := Sound_CTxUndo) S R L s undo rest Hs Hu E)|]. split.
  - intros r <-. destruct (unser _ s) as [[c' s']|e] eqn:E; [now destruct (Safe_Coin S R L s c' s' Hs E) as (_ & H & _)|].
    intros ->. exact (Total_Coin S R L s Hs E).
  - intros r <-. destruct (unser BlockUndoF s) as [[l s']|e] eqn:E.
    + now destruct (Safe_vector sizeof_CTxUndo UndoF undo_read HU (X := Safe_CTxUndo) S R L s l s' Hs E) as (_ & H & _).
    + intros ->. exact (Total_vector sizeof_CTxUndo UndoF undo_read HU (X := Total_CTxUndo) (Y := Safe_CTxUndo) S R L s Hs E).
Qed.
End Records.
End Keys.

(** * Examples *)

(** A curve of one point, with coordinates [7 ... 7] and [9 ... 9]. *)
Definition one_key : valtype := 4 :: repeat 7 32 ++ repeat 9 32.
Definition one_valid (key : valtype) : bool := if list_eq_dec Z.eq_dec key one_key then true else false.
Definition one_decompress (key : valtype) : option valtype := if list_eq_dec Z.eq_dec key (3 :: repeat 7 32) then Some one_key else None.
#[local] Instance one_laws : KeyLaws one_valid one_decompress.
Proof.
  split.
  - intros x y Hx Hy H. unfold one_valid in H. destruct (list_eq_dec _ _ _) as [E|]; [|discriminate]. unfold one_key in E. clear H. injection E as H.
    assert (Hx' : x = repeat 7 32).
    { apply (f_equal (firstn 32)) in H. rewrite firstn_app, Hx, Nat.sub_diag, firstn_O, app_nil_r, firstn_exactly in H by assumption. exact H. }
    assert (Hy' : y = repeat 9 32) by (rewrite Hx' in H; exact (app_inv_head (repeat 7 32) y (repeat 9 32) H)). subst. reflexivity.
  - intros key full H. unfold one_decompress in H. destruct (list_eq_dec _ _ _); [|discriminate]. injection H as <-.
    split; [apply words_check; reflexivity | reflexivity].
Qed.

Lemma compressed_scripts_witness :
  CompressScript one_valid (GetScriptForRawPubKey one_key) = Some (5 :: repeat 7 32) /\
  DecompressScript one_decompress [] 5 (repeat 7 32) = Ok (true, GetScriptForRawPubKey one_key).
Proof.
  assert (Hc : compressed one_valid (GetScriptForRawPubKey one_key) (5 :: repeat 7 32)).
  { exact (compressed_full_key one_valid (repeat 7 32) (repeat 9 32) eq_refl eq_refl eq_refl). }
  destruct (compressed_scripts one_valid one_decompress (S := CAutoFile.autofile) (R := file_reader) (L := file_laws)
    (GetScriptForRawPubKey one_key) (5 :: repeat 7 32) [] 5 (repeat 7 32) (CAutoFile.Build_autofile None) [] (repeat 0 (Z.to_nat 10001))) as (H1 & H2 & _).
  - exact script_nil.
  - apply words_check. reflexivity.
  - lia.
  - reflexivity.
  - rewrite repeat_length. unfold MAX_SCRIPT_SIZE. lia.
  - split; [exact (proj2 H1 Hc) | exact (proj2 (proj2 (H2 _ _ Hc)))].
Defined.

Definition one_coin : Coin :=
  {| fCoinBase := false; fCoinStake := true; nHeight := 1000;
     out := {| nValue := 500000000; scriptPubKey := GetScriptForDestination (CKeyID (repeat 8 20)); nRounds := -10 |} |}.
Lemma coin_codec_witness :
  exists s', unser (CoinF one_valid one_decompress) (R := file_reader)
    {| CAutoFile.file := Some (ser (CoinF one_valid one_decompress) one_coin) |} = Ok (one_coin, s') /\ contents s' = [].
Proof.
  assert (Hc : coin_ok one_coin).
  { split; [cbn; lia|]. split; [unfold amount_ok; cbn; lia|]. split; [|reflexivity]. split; [apply words_check; reflexivity | vm_compute; discriminate]. }
  destruct (coin_codec one_valid one_decompress 72 24 ltac:(unfold MAX_VECTOR_ALLOCATE; lia) ltac:(unfold MAX_VECTOR_ALLOCATE; lia)
    (S := CAutoFile.autofile) (R := file_reader) (L := file_laws) one_coin []
    {| CAutoFile.file := Some (ser (CoinF one_valid one_decompress) one_coin) |} []) as (_ & _ & H & _).
  - exact Hc.
  - split; [constructor | unfold short, MAX_SIZE; cbn; lia].
  - split; [apply words_check; vm_compute; reflexivity | discriminate].
  - destruct (H ltac:(now rewrite app_nil_r)) as (s' & E & _ & Hs'). exists s'. split; [exact E | exact Hs'].
Defined.

End CompressorLaws.
