(* ===== verification/Bloom.v ===== *)
(** bloom.h, bloom.cpp and the class [CMerkleBlock] of merkleblock.h: the filters by which light
    clients choose transactions, the blocks that are sent through them, and the filter of the
    items that were seen last. What floating point computes in the constructors is a parameter. *)
From Stdlib Require Import ZifyNat RelationClasses.
From S2P Require Import Prelude CryptoCommon Uint256 HashSpec HashClasses SipHash Merkle MerkleTrees MerkleProofs.
From S2P Require Import Streams Serialize SerializeLaws Script Transactions TransactionsProofs Blocks MerkleBlock MerkleBlockProofs.
Import CryptoCommon Uint256 Merkle Script.Script Transactions.Tx PartialMerkle.

#[local] Opaque MurmurHash3.

Module Bloom.

(** A [None] is a division by zero, an access outside of a vector or a loop that does not end. *)
Definition let_some {A B} (o : option A) (k : A -> option B) : option B := match o with Some a => k a | None => None end.
Notation "'let+' x := o 'in' k" := (let_some o (fun x => k)) (at level 10, x pattern, o at level 200, k at level 200).

(** * Filters of light clients *)

Definition MAX_BLOOM_FILTER_SIZE : Z := 36000.
Definition MAX_HASH_FUNCS : Z := 50.

Definition BLOOM_UPDATE_NONE : Z := 0.
Definition BLOOM_UPDATE_ALL : Z := 1.
Definition BLOOM_UPDATE_P2PUBKEY_ONLY : Z := 2.
Definition BLOOM_UPDATE_MASK : Z := 3.

Record CBloomFilter := {
  vData : list Z;
  isFull : bool;
  isEmpty : bool;
  nHashFuncs : Z;
  nTweak : Z;
  nFlags : Z
}.

Definition CBloomFilter_default : CBloomFilter :=
  {| vData := []; isFull := true; isEmpty := false; nHashFuncs := 0; nTweak := 0; nFlags := 0 |}.

(** [nBits] is [(unsigned int)(-1 / LN2SQUARED * nElements * log(nFPRate))] and [nFuncs] of the
    size [vData.size()] is [(unsigned int)(vData.size() * 8 / nElements * LN2)]. *)
Definition CBloomFilter_of (nBits : Z) (nFuncs : Z -> Z) (nTweakIn nFlagsIn : Z) : CBloomFilter :=
  let size := Z.min nBits (MAX_BLOOM_FILTER_SIZE * 8) / 8 in
  {| vData := repeat 0 (Z.to_nat size); isFull := false; isEmpty := false;
     nHashFuncs := Z.min (nFuncs size) MAX_HASH_FUNCS; nTweak := nTweakIn; nFlags := nFlagsIn |}.

Definition set_data (f : CBloomFilter) (d : list Z) : CBloomFilter :=
  {| vData := d; isFull := isFull f; isEmpty := isEmpty f; nHashFuncs := nHashFuncs f; nTweak := nTweak f; nFlags := nFlags f |}.
Definition set_empty_full (f : CBloomFilter) (empty full : bool) : CBloomFilter :=
  {| vData := vData f; isFull := full; isEmpty := empty; nHashFuncs := nHashFuncs f; nTweak := nTweak f; nFlags := nFlags f |}.

(** The modulus is a [size_t]. *)
Definition Hash (f : CBloomFilter) (nHashNum : Z) (vDataToHash : list Z) : option Z :=
  let size := Z.of_nat (length (vData f)) in
  if size =? 0 then None
  else Some (w32 (MurmurHash3 (w32 (nHashNum * 0xFBA4C795 + nTweak f)) vDataToHash mod (size * 8))).

(** The byte of bit [nIndex], when there is one. *)
Definition byte_of (f : CBloomFilter) (nIndex : Z) : option nat :=
  let b := Z.to_nat (Z.shiftr nIndex 3) in
  if (b <? length (vData f))%nat then Some b else None.

(** The loops of [insert] and [contains] over the hash functions from [i], [n] of them. *)
Fixpoint insert_loop (n : nat) (i : Z) (f : CBloomFilter) (vKey : list Z) : option CBloomFilter :=
  match n with
  | O => Some f
  | S n =>
      let+ nIndex := Hash f i vKey in
      let+ b := byte_of f nIndex in
      insert_loop n (i + 1) (set_data f (vData f).[b := (vData f).[b] |: Z.shiftl 1 (7 &: nIndex)]) vKey
  end.

Definition insert (f : CBloomFilter) (vKey : list Z) : option CBloomFilter :=
  if isFull f then Some f
  else let+ f := insert_loop (Z.to_nat (nHashFuncs f)) 0 f vKey in Some (set_empty_full f false (isFull f)).
Definition insert_outpoint (f : CBloomFilter) (outpoint : COutPoint) : option CBloomFilter := insert f (ser COutPointF outpoint).

Fixpoint contains_loop (n : nat) (i : Z) (f : CBloomFilter) (vKey : list Z) : option bool :=
  match n with
  | O => Some true
  | S n =>
      let+ nIndex := Hash f i vKey in
      let+ b := byte_of f nIndex in
      if (vData f).[b] &: Z.shiftl 1 (7 &: nIndex) =? 0 then Some false else contains_loop n (i + 1) f vKey
  end.

Definition contains (f : CBloomFilter) (vKey : list Z) : option bool :=
  if isFull f then Some true else if isEmpty f then Some false else contains_loop (Z.to_nat (nHashFuncs f)) 0 f vKey.
Definition contains_outpoint (f : CBloomFilter) (outpoint : COutPoint) : option bool := contains f (ser COutPointF outpoint).

Definition clear (f : CBloomFilter) : CBloomFilter := set_empty_full (set_data f (repeat 0 (length (vData f)))) true false.
Definition reset (f : CBloomFilter) (nNewTweak : Z) : CBloomFilter :=
  let f := clear f in
  {| vData := vData f; isFull := isFull f; isEmpty := isEmpty f; nHashFuncs := nHashFuncs f; nTweak := nNewTweak; nFlags := nFlags f |}.

Definition IsWithinSizeConstraints (f : CBloomFilter) : bool :=
  (Z.of_nat (length (vData f)) <=? MAX_BLOOM_FILTER_SIZE) && (nHashFuncs f <=? MAX_HASH_FUNCS).

Definition MatchesAll (f : CBloomFilter) : bool := forallb (fun b => b =? 0xff) (vData f).

(** The second branch clears the vector and writes to its first element. *)
Definition Merge (f filter : CBloomFilter) : option (bool * CBloomFilter) :=
  if negb (MatchesAll f) && negb (MatchesAll filter) then
    if negb ((length (vData filter) =? length (vData f))%nat && (nHashFuncs filter =? nHashFuncs f) && (nTweak filter =? nTweak f))
    then Some (false, f)
    else Some (true, set_data f (map (fun p => fst p |: snd p) (combine (vData f) (vData filter))))
  else None.

Definition UpdateEmptyFull (f : CBloomFilter) : CBloomFilter :=
  set_empty_full f (forallb (fun b => b =? 0) (vData f)) (forallb (fun b => b =? 0xff) (vData f)).

(** The members that are not read keep their values of the constructor without arguments. *)
Definition CBloomFilterF : format CBloomFilter :=
  {| ser obj := ser charsF (vData obj) ++ ser uint32F (nHashFuncs obj) ++ ser uint32F (nTweak obj) ++ ser uint8F (nFlags obj);
     unser S R s :=
       let? (vData, s) := unser charsF s in
       let? (nHashFuncs, s) := unser uint32F s in
       let? (nTweak, s) := unser uint32F s in
       let? (nFlags, s) := unser uint8F s in
       Ok ({| vData := vData; isFull := isFull CBloomFilter_default; isEmpty := isEmpty CBloomFilter_default;
              nHashFuncs := nHashFuncs; nTweak := nTweak; nFlags := nFlags |}, s) |}.

(** ** Relevant transactions *)

(** The loop over a script: whether it stops at data that the filter contains. *)
Fixpoint scan (fuel : nat) (f : CBloomFilter) (s : script) (pc : nat) : option bool :=
  match fuel with
  | O => None
  | S fuel =>
      if (pc <? length s)%nat then
        let '(read, pc, _, data) := GetOp s pc in
        if negb read then Some false
        else if (length data =? 0)%nat then scan fuel f s pc
        else let+ found := contains f data in if found then Some true else scan fuel f s pc
      else Some false
  end.
Definition scan_script (f : CBloomFilter) (s : script) : option bool := scan (S (length s)) f s 0.

Definition outpoint (hash : uint256) (i : Z) : COutPoint := {| hash := hash; n := i; isTransparent := true |}.

(** What is done with output [i] when its script has matched. *)
Definition update_output (f : CBloomFilter) (hash : uint256) (i : Z) (txout : CTxOut) : option CBloomFilter :=
  if nFlags f &: BLOOM_UPDATE_MASK =? BLOOM_UPDATE_ALL then insert_outpoint f (outpoint hash i)
  else if nFlags f &: BLOOM_UPDATE_MASK =? BLOOM_UPDATE_P2PUBKEY_ONLY then
    let+ (solved, type, _) := Solver (scriptPubKey txout) in
    if solved && match type with Some TX_PUBKEY | Some TX_MULTISIG => true | _ => false end
    then insert_outpoint f (outpoint hash i) else Some f
  else Some f.

Fixpoint outputs_loop (f : CBloomFilter) (hash : uint256) (i : Z) (vout : list CTxOut) (fFound : bool) : option (bool * CBloomFilter) :=
  match vout with
  | [] => Some (fFound, f)
  | txout :: vout =>
      let+ found := scan_script f (scriptPubKey txout) in
      if found then let+ f := update_output f hash i txout in outputs_loop f hash (w32 (i + 1)) vout true
      else outputs_loop f hash (w32 (i + 1)) vout fFound
  end.

Fixpoint inputs_loop (f : CBloomFilter) (vin : list CTxIn) : option bool :=
  match vin with
  | [] => Some false
  | txin :: vin =>
      let+ spends := contains_outpoint f (prevout txin) in
      if spends then Some true
      else let+ found := scan_script f (scriptSig txin) in if found then Some true else inputs_loop f vin
  end.

Section Block.
(** [buf]: what the buffer of a new hasher holds. *)
Context {sizes : Sizes} (buf : list Z).

Definition IsRelevantAndUpdate (f : CBloomFilter) (tx : CTransaction) : option (bool * CBloomFilter) :=
  if isFull f then Some (true, f)
  else if isEmpty f then Some (false, f)
  else
    let hash := ComputeHash buf tx in
    let+ fFound := contains f hash in
    let+ (fFound, f) := outputs_loop f hash 0 (vout tx) fFound in
    if fFound then Some (true, f) else let+ found := inputs_loop f (vin tx) in Some (found, f).

(** ** Blocks through a filter *)

Record CMerkleBlock := { mb_header : CBlockHeader; txn : CPartialMerkleTree; vMatchedTxn : list (Z * uint256) }.

(** The loop over the transactions: [vMatch], [vMatchedTxn], [vHashes] and the filter after it. *)
Fixpoint match_loop (filter : CBloomFilter) (i : Z) (vtx : list CTransaction)
    (vMatch : list bool) (vMatchedTxn : list (Z * uint256)) (vHashes : list uint256) :
    option (list bool * list (Z * uint256) * list uint256 * CBloomFilter) :=
  match vtx with
  | [] => Some (vMatch, vMatchedTxn, vHashes, filter)
  | tx :: vtx =>
      let hash := ComputeHash buf tx in
      let+ (relevant, filter) := IsRelevantAndUpdate filter tx in
      match_loop filter (w32 (i + 1)) vtx (vMatch ++ [relevant])
        (if relevant then vMatchedTxn ++ [(i, hash)] else vMatchedTxn) (vHashes ++ [hash])
  end.

Definition CMerkleBlock_of (block : CBlock) (filter : CBloomFilter) : option (CMerkleBlock * CBloomFilter) :=
  let+ (vMatch, vMatchedTxn, vHashes, filter) := match_loop filter 0 (vtx block) [] [] [] in
  let+ txn := CPartialMerkleTree_of (combine_Hash buf) vHashes vMatch in
  Some ({| mb_header := GetBlockHeader block; txn := txn; vMatchedTxn := vMatchedTxn |}, filter).

Definition CMerkleBlockF : format CMerkleBlock :=
  {| ser obj := ser CBlockHeaderF (mb_header obj) ++ ser CPartialMerkleTreeF (txn obj);
     unser S R s :=
       let? (header, s) := unser CBlockHeaderF s in
       let? (txn, s) := unser CPartialMerkleTreeF s in
       Ok ({| mb_header := header; txn := txn; vMatchedTxn := [] |}, s) |}.
End Block.

(** * The filter of the last items *)

Module Rolling.

Record CRollingBloomFilter := {
  nEntriesPerGeneration : Z;
  nEntriesThisGeneration : Z;
  nGeneration : Z;
  data : list Z;
  nTweak : Z;
  nHashFuncs : Z
}.

(** The cell of a position, and the position in it. *)
Definition cell (f : CRollingBloomFilter) (position : Z) : nat :=
  Z.to_nat (Z.shiftr position 4 mod Z.of_nat (length (data f))).
Definition shift (position : Z) : Z := 2 * (position &: 0xF).

Definition get (f : CRollingBloomFilter) (position : Z) : Z := Z.shiftr (data f).[cell f position] (shift position) &: 3.

Definition set_cells (f : CRollingBloomFilter) (d : list Z) : CRollingBloomFilter :=
  {| nEntriesPerGeneration := nEntriesPerGeneration f; nEntriesThisGeneration := nEntriesThisGeneration f;
     nGeneration := nGeneration f; data := d; nTweak := nTweak f; nHashFuncs := nHashFuncs f |}.
Definition set_entries (f : CRollingBloomFilter) (entries generation : Z) : CRollingBloomFilter :=
  {| nEntriesPerGeneration := nEntriesPerGeneration f; nEntriesThisGeneration := entries;
     nGeneration := generation; data := data f; nTweak := nTweak f; nHashFuncs := nHashFuncs f |}.

Definition put (f : CRollingBloomFilter) (position val : Z) : CRollingBloomFilter :=
  let c := cell f position in
  set_cells f (data f).[c :=
    ((data f).[c] &: w32 (Z.lnot (w32 (Z.shiftl 3 (shift position))))) |: w32 (Z.shiftl val (shift position))].

Definition rolling_Hash (f : CRollingBloomFilter) (nHashNum : Z) (vDataToHash : list Z) : option Z :=
  let size := Z.of_nat (length (data f)) in
  if size =? 0 then None
  else Some (w32 (MurmurHash3 (w32 (nHashNum * 0xFBA4C795 + nTweak f)) vDataToHash mod (size * 16))).

(** [for (uint32_t p = 0; p < data.size() * 16; p++)] *)
Definition wipe (f : CRollingBloomFilter) : CRollingBloomFilter :=
  fold_left (fun f p => if get f (Z.of_nat p) =? nGeneration f then put f (Z.of_nat p) 0 else f) (seq 0 (length (data f) * 16)) f.

Definition next_generation (f : CRollingBloomFilter) : CRollingBloomFilter :=
  if nEntriesThisGeneration f =? nEntriesPerGeneration f then
    let g := nGeneration f + 1 in
    wipe (set_entries f 0 (if g =? 4 then 1 else g))
  else f.

Fixpoint rolling_insert_loop (n : nat) (i : Z) (f : CRollingBloomFilter) (vKey : list Z) : option CRollingBloomFilter :=
  match n with
  | O => Some f
  | S n => let+ h := rolling_Hash f i vKey in rolling_insert_loop n (i + 1) (put f h (nGeneration f)) vKey
  end.

Definition rolling_insert (f : CRollingBloomFilter) (vKey : list Z) : option CRollingBloomFilter :=
  let f := next_generation f in
  let f := set_entries f (nEntriesThisGeneration f + 1) (nGeneration f) in
  rolling_insert_loop (Z.to_nat (nHashFuncs f)) 0 f vKey.

Fixpoint rolling_contains_loop (n : nat) (i : Z) (f : CRollingBloomFilter) (vKey : list Z) : option bool :=
  match n with
  | O => Some true
  | S n => let+ h := rolling_Hash f i vKey in if get f h =? 0 then Some false else rolling_contains_loop n (i + 1) f vKey
  end.
Definition rolling_contains (f : CRollingBloomFilter) (vKey : list Z) : option bool := rolling_contains_loop (Z.to_nat (nHashFuncs f)) 0 f vKey.

(** [tweak] is what [GetRand] returns. *)
Definition rolling_reset (f : CRollingBloomFilter) (tweak : Z) : CRollingBloomFilter :=
  {| nEntriesPerGeneration := nEntriesPerGeneration f; nEntriesThisGeneration := 0; nGeneration := 1;
     data := repeat 0 (length (data f)); nTweak := tweak; nHashFuncs := nHashFuncs f |}.

(** [nFuncs] is [(int)round(logFpRate / log(0.5))] and [nFilterBits] the number of bits that the
    constructor computes. *)
Definition CRollingBloomFilter_of (nElements nFuncs nFilterBits tweak : Z) : CRollingBloomFilter :=
  rolling_reset {| nEntriesPerGeneration := w32 (nElements + 1) / 2; nEntriesThisGeneration := 0; nGeneration := 0;
           data := repeat 0 (Z.to_nat (w32 (nFilterBits + 15) / 16)); nTweak := 0; nHashFuncs := Z.max 1 (Z.min nFuncs 50) |} tweak.

End Rolling.
End Bloom.

Module BloomLaws.
Import Bloom ScriptLaws.

(** * Bits *)

(** Bit [i] of the filter, the bits of a key, and whether the flags leave the vector out. *)
Definition bit (f : CBloomFilter) (i : Z) : bool := Z.testbit (vData f).[Z.to_nat (Z.shiftr i 3)] (7 &: i).
Definition index (f : CBloomFilter) (vKey : list Z) (j : nat) : Z :=
  w32 (MurmurHash3 (w32 (Z.of_nat j * 0xFBA4C795 + nTweak f)) vKey mod (Z.of_nat (length (vData f)) * 8)).
Definition indexes (f : CBloomFilter) (vKey : list Z) : list Z := map (index f vKey) (seq 0 (Z.to_nat (nHashFuncs f))).

(** No operation divides by zero. *)
Definition usable (f : CBloomFilter) : Prop := isFull f = true \/ nHashFuncs f <= 0 \/ vData f <> [].

Lemma index_range f k j : vData f <> [] -> 0 <= index f k j < Z.of_nat (length (vData f)) * 8.
Proof.
  intros H. assert (0 < Z.of_nat (length (vData f))) by (destruct (vData f); [contradiction | cbn [length]; lia]).
  unfold index, w32. set (x := MurmurHash3 _ _). pose proof (Z.mod_pos_bound x (Z.of_nat (length (vData f)) * 8) ltac:(lia)) as B.
  set (y := x mod _) in *. pose proof (Z.mod_pos_bound y (2 ^ 32) ltac:(lia)). pose proof (Z.mod_le y (2 ^ 32) ltac:(lia) ltac:(lia)). lia.
Qed.

Lemma Hash_index f k j : vData f <> [] -> Hash f (Z.of_nat j) k = Some (index f k j).
Proof. intros H. unfold Hash, index. destruct (vData f) eqn:E; [contradiction|]. destruct (Z.eqb_spec (Z.of_nat (length (z :: l))) 0); [cbn [length] in *; lia | reflexivity]. Qed.

Lemma shiftr_3 i : Z.shiftr i 3 = i / 8.
Proof. now rewrite Z.shiftr_div_pow2 by lia. Qed.

Lemma land_7 i : 7 &: i = i mod 8.
Proof. rewrite Z.land_comm. apply (Z.land_ones i 3). lia. Qed.

Lemma byte_of_index f i : 0 <= i < Z.of_nat (length (vData f)) * 8 -> byte_of f i = Some (Z.to_nat (Z.shiftr i 3)).
Proof.
  intros H. unfold byte_of. rewrite shiftr_3. pose proof (Z.div_lt_upper_bound i 8 (Z.of_nat (length (vData f))) ltac:(lia) ltac:(lia)).
  pose proof (Z.div_pos i 8 ltac:(lia) ltac:(lia)). destruct (Nat.ltb_spec (Z.to_nat (i / 8)) (length (vData f))); [reflexivity | lia].
Qed.

Lemma bit_tested x j : 0 <= j -> (x &: Z.shiftl 1 j =? 0) = negb (Z.testbit x j).
Proof.
  intros H. rewrite Z.shiftl_1_l. destruct (Z.testbit x j) eqn:E; cbn [negb].
  - apply Z.eqb_neq. intros C. apply (f_equal (fun z => Z.testbit z j)) in C. now rewrite Z.land_spec, E, Z.pow2_bits_true, Z.bits_0 in C.
  - apply Z.eqb_eq, Z.bits_inj'. intros i Hi. rewrite Z.land_spec, Z.bits_0. destruct (Z.eq_dec i j) as [->|N]; [now rewrite E|].
    rewrite Z.pow2_bits_false by lia. apply andb_false_r.
Qed.

(** Setting a bit. *)
Lemma bit_set f h i : 0 <= i -> 0 <= h < Z.of_nat (length (vData f)) * 8 ->
  bit (set_data f (vData f).[Z.to_nat (Z.shiftr h 3) := (vData f).[Z.to_nat (Z.shiftr h 3)] |: Z.shiftl 1 (7 &: h)]) i =
  bit f i || (i =? h).
Proof.
  intros Hi Hh. unfold bit. cbn [vData set_data]. rewrite !shiftr_3, !land_7, Z.shiftl_1_l.
  pose proof (Z.div_lt_upper_bound h 8 (Z.of_nat (length (vData f))) ltac:(lia) ltac:(lia)).
  pose proof (Z.div_pos h 8 ltac:(lia) ltac:(lia)). pose proof (Z.div_pos i 8 ltac:(lia) ltac:(lia)).
  pose proof (Z.div_mod h 8 ltac:(lia)). pose proof (Z.div_mod i 8 ltac:(lia)).
  pose proof (Z.mod_pos_bound h 8 ltac:(lia)). pose proof (Z.mod_pos_bound i 8 ltac:(lia)).
  destruct (Z.eq_dec (i / 8) (h / 8)) as [E|N].
  - rewrite E, nth_upd_eq by lia. rewrite Z.lor_spec, Z.pow2_bits_eqb by lia. f_equal.
    destruct (Z.eqb_spec (h mod 8) (i mod 8)), (Z.eqb_spec i h); lia || reflexivity.
  - rewrite nth_upd_ne by lia. destruct (Z.eqb_spec i h) as [->|]; [contradiction | now rewrite orb_false_r].
Qed.

(** * The loops *)

(** The members that inserting leaves alone, and the bits it adds. *)
Definition same_shape (f g : CBloomFilter) : Prop :=
  length (vData g) = length (vData f) /\ isFull g = isFull f /\ nHashFuncs g = nHashFuncs f /\ nTweak g = nTweak f /\ nFlags g = nFlags f.
Definition below (f g : CBloomFilter) : Prop :=
  same_shape f g /\ (isEmpty g = true -> isEmpty f = true) /\ forall i, 0 <= i -> bit f i = true -> bit g i = true.

#[export] Instance below_preorder : PreOrder below.
Proof.
  split.
  - intros f. now repeat split.
  - intros f g h ((L1 & F1 & N1 & T1 & U1) & E1 & B1) ((L2 & F2 & N2 & T2 & U2) & E2 & B2).
    split; [repeat split; congruence|]. split; [auto|]. intros i Hi B. auto.
Qed.

Lemma index_shape f g k j : same_shape f g -> index g k j = index f k j.
Proof. intros (L & _ & _ & T & _). unfold index. now rewrite L, T. Qed.

Lemma indexes_shape f g k : same_shape f g -> indexes g k = indexes f k.
Proof. intros H. unfold indexes. destruct H as (L & F & N & T & U). rewrite N. apply map_ext. intros j. apply index_shape. now repeat split. Qed.

Lemma insert_loop_spec n a f k : vData f <> [] ->
  exists g, insert_loop n (Z.of_nat a) f k = Some g /\ same_shape f g /\ isEmpty g = isEmpty f /\
  forall i, 0 <= i -> bit g i = bit f i || existsb (Z.eqb i) (map (index f k) (seq a n)).
Proof.
  revert a f; induction n as [|n IH]; intros a f Hf; cbn [insert_loop seq map existsb].
  - exists f. repeat split. intros i _. now rewrite orb_false_r.
  - rewrite Hash_index by assumption. cbn [let_some]. pose proof (index_range f k a Hf) as R. rewrite byte_of_index by assumption. cbn [let_some].
    set (f' := set_data f _). assert (S1 : same_shape f f') by (repeat split; cbn [vData set_data f']; apply length_upd).
    destruct (IH (S a) f') as (g & E & S2 & Ee & B).
    { intros C. destruct S1 as [L _]. rewrite C in L. now destruct (vData f). }
    replace (Z.of_nat (S a)) with (Z.of_nat a + 1) in E by lia. exists g. split; [exact E|]. split; [|split; [exact Ee|]].
    { destruct S1 as (? & ? & ? & ? & ?), S2 as (? & ? & ? & ? & ?). repeat split; congruence. }
    intros i Hi. rewrite B by assumption. unfold f'. rewrite bit_set by assumption. rewrite <- orb_assoc. do 3 f_equal.
    apply map_ext. intros j. now apply index_shape.
Qed.

Lemma contains_loop_spec n a f k : vData f <> [] ->
  contains_loop n (Z.of_nat a) f k = Some (forallb (bit f) (map (index f k) (seq a n))).
Proof.
  revert a; induction n as [|n IH]; intros a Hf; cbn [contains_loop seq map forallb]; [reflexivity|].
  rewrite Hash_index by assumption. cbn [let_some]. pose proof (index_range f k a Hf) as R. rewrite byte_of_index by assumption. cbn [let_some].
  rewrite bit_tested by (rewrite land_7; apply Z.mod_pos_bound; lia). fold (bit f (index f k a)).
  destruct (bit f (index f k a)); cbn [negb andb]; [|reflexivity]. replace (Z.of_nat a + 1) with (Z.of_nat (S a)) by lia. now apply IH.
Qed.

(** The filter as a set of keys. *)
Definition contained (f : CBloomFilter) (k : list Z) : bool := isFull f || (negb (isEmpty f) && forallb (bit f) (indexes f k)).

Lemma contains_spec f k : usable f -> contains f k = Some (contained f k).
Proof.
  intros Hf. unfold contains, contained. destruct (isFull f) eqn:Ef; [reflexivity|]. cbn [orb]. destruct (isEmpty f); [reflexivity|]. cbn [negb andb].
  destruct Hf as [|[Hn|Hd]]; [congruence | |].
  - unfold indexes. now replace (Z.to_nat (nHashFuncs f)) with 0%nat by lia.
  - apply (contains_loop_spec _ 0). assumption.
Qed.

Lemma usable_below f g : same_shape f g -> usable f -> usable g.
Proof.
  intros (L & F & N & _) [H|[H|H]]; [left; congruence | right; left; lia | right; right].
  intros C. rewrite C in L. now destruct (vData f).
Qed.

Lemma contained_below f g k : below f g -> contained f k = true -> contained g k = true.
Proof.
  intros (S & E & B). unfold contained. rewrite (indexes_shape f g k S). assert (F : isFull g = isFull f) by apply S. rewrite F.
  destruct (isFull f); cbn [orb]; [easy|]. rewrite !andb_true_iff, !negb_true_iff, !forallb_forall. intros [Ee Hk]. split.
  - destruct (isEmpty g); [|reflexivity]. now rewrite E in Ee.
  - intros i Hi. apply B; [|now apply Hk]. unfold indexes in Hi. apply in_map_iff in Hi. destruct Hi as (j & <- & _).
    unfold index, w32. apply Z.mod_pos_bound. lia.
Qed.

Lemma insert_spec f k : usable f -> exists g, insert f k = Some g /\ below f g /\ usable g /\ contained g k = true /\
  (isFull f = false -> isEmpty g = false /\ forall i, 0 <= i -> bit g i = bit f i || existsb (Z.eqb i) (indexes f k)).
Proof.
  intros Hf. unfold insert. destruct (isFull f) eqn:Ef.
  { exists f. split; [reflexivity|]. split; [reflexivity|]. split; [assumption|]. unfold contained. rewrite Ef. split; [reflexivity | discriminate]. }
  assert (G : exists g, insert_loop (Z.to_nat (nHashFuncs f)) 0 f k = Some g /\ same_shape f g /\
    forall i, 0 <= i -> bit g i = bit f i || existsb (Z.eqb i) (indexes f k)).
  { destruct Hf as [|[Hn|Hd]]; [congruence| |].
    - replace (Z.to_nat (nHashFuncs f)) with 0%nat by lia. exists f. repeat split. intros i _. unfold indexes.
      replace (Z.to_nat (nHashFuncs f)) with 0%nat by lia. now rewrite orb_false_r.
    - destruct (insert_loop_spec (Z.to_nat (nHashFuncs f)) 0 f k Hd) as (g & E & Hs & _ & B). exists g. now split. }
  destruct G as (g & E & Hs & B). rewrite E. cbn [let_some]. set (g' := set_empty_full g false (isFull g)). exists g'.
  assert (Hs' : same_shape f g') by (destruct Hs as (? & ? & ? & ? & ?); now repeat split).
  split; [reflexivity|]. split; [|split; [now apply (usable_below f)|]].
  - split; [exact Hs'|]. split; [discriminate|]. intros i Hi Hb. change (bit g' i) with (bit g i). rewrite B, Hb by assumption. reflexivity.
  - split; [|intros _; now split]. unfold contained. rewrite (indexes_shape f g' k Hs'). cbn [isEmpty set_empty_full g' negb andb]. apply orb_true_iff. right.
    apply forallb_forall. intros i Hi. change (bit g' i) with (bit g i). rewrite B.
    + apply orb_true_iff. right. apply existsb_exists. exists i. split; [assumption | apply Z.eqb_refl].
    + unfold indexes in Hi. apply in_map_iff in Hi. destruct Hi as (j & <- & _). unfold index, w32. apply Z.mod_pos_bound. lia.
Qed.

(** * Scripts and transactions *)

(** Some data that the script pushes is in the filter. *)
Definition mentions (f : CBloomFilter) (s : script) : bool :=
  existsb (fun d => negb (length d =? 0)%nat && contained f d) (map snd (fst (items s))).

Lemma scan_items f s fuel pc : usable f -> (pc <= length s)%nat -> (length s - pc < fuel)%nat ->
  scan fuel f s pc = Some (existsb (fun d => negb (length d =? 0)%nat && contained f d) (map snd (fst (items (skipn pc s))))).
Proof.
  intros Hf. revert pc; induction fuel as [|fuel IH]; intros pc Hpc Hl; [lia|]. cbn [scan]. rewrite items_GetOp by lia.
  destruct (Nat.ltb_spec pc (length s)); [|reflexivity].
  destruct (GetOp s pc) as [[[read pc'] opcode] data] eqn:E. destruct read; cbn [negb]; [|reflexivity].
  apply GetOp_reads in E. rewrite IH, contains_spec by (assumption || lia).
  destruct (items (skipn pc' s)) as [l all]. cbn [fst snd map existsb let_some].
  destruct (length data =? 0)%nat; cbn [negb andb orb]; [reflexivity|]. now destruct (contained f data).
Qed.

Lemma scan_script_spec f s : usable f -> scan_script f s = Some (mentions f s).
Proof. intros Hf. unfold scan_script. now rewrite scan_items by (assumption || lia). Qed.

Lemma mentions_below f g s : below f g -> mentions f s = true -> mentions g s = true.
Proof.
  intros B. unfold mentions. rewrite !existsb_exists. intros (d & Hd & H). exists d. split; [assumption|].
  apply andb_true_iff in H. destruct H as [-> H]. now apply (contained_below f g d B).
Qed.

(** The flags of the filter let it follow the output. *)
Definition follows (f : CBloomFilter) (txout : CTxOut) : bool :=
  (nFlags f &: BLOOM_UPDATE_MASK =? BLOOM_UPDATE_ALL) ||
  (nFlags f &: BLOOM_UPDATE_MASK =? BLOOM_UPDATE_P2PUBKEY_ONLY) &&
  match Solver (scriptPubKey txout) with Some (true, Some TX_PUBKEY, _) | Some (true, Some TX_MULTISIG, _) => true | _ => false end.

Lemma update_output_spec f hash i txout : usable f -> exists g, update_output f hash i txout = Some g /\ below f g /\ usable g /\
  if follows f txout then contained g (ser COutPointF (outpoint hash i)) = true else g = f.
Proof.
  intros Hf. assert (Hi : exists g, insert_outpoint f (outpoint hash i) = Some g /\ below f g /\ usable g /\ contained g (ser COutPointF (outpoint hash i)) = true).
  { destruct (insert_spec f (ser COutPointF (outpoint hash i)) Hf) as (g & E & B & U & C & _). now exists g. }
  assert (Hn : exists g, Some f = Some g /\ below f g /\ usable g /\ g = f) by (exists f; now repeat split).
  unfold update_output, follows. destruct (_ =? BLOOM_UPDATE_ALL); cbn [orb]; [assumption|].
  destruct (_ =? BLOOM_UPDATE_P2PUBKEY_ONLY); cbn [andb]; [|assumption].
  pose proof (Solver_total (scriptPubKey txout)) as T. destruct (Solver (scriptPubKey txout)) as [[[solved type] sol]|]; [|contradiction].
  cbn [let_some]. destruct solved, type as [[]|]; assumption.
Qed.

Lemma w32_step i j : w32 (w32 (i + 1) + Z.of_nat j) = w32 (i + Z.of_nat (S j)).
Proof. unfold w32. rewrite Zplus_mod_idemp_l. f_equal. lia. Qed.

Lemma follows_shape f g o : same_shape f g -> follows g o = follows f o.
Proof. intros (_ & _ & _ & _ & U). unfold follows. now rewrite U. Qed.

Lemma outputs_loop_spec hash vout : forall f i b, usable f ->
  exists found g, outputs_loop f hash i vout b = Some (found, g) /\ below f g /\ usable g /\
  (found = false -> g = f /\ b = false) /\
  (found = true -> b = true \/ existsb (fun o => mentions g (scriptPubKey o)) vout = true) /\
  (b = true -> found = true) /\
  forall j o, nth_error vout j = Some o -> mentions f (scriptPubKey o) = true ->
    found = true /\ (follows f o = true -> contained g (ser COutPointF (outpoint hash (w32 (i + Z.of_nat j)))) = true).
Proof.
  induction vout as [|o vout IH]; intros f i b Hf; cbn [outputs_loop existsb].
  { exists b, f. repeat split; try easy; [now left | | ]; destruct j; discriminate. }
  rewrite scan_script_spec by assumption. cbn [let_some]. destruct (mentions f (scriptPubKey o)) eqn:Em.
  - destruct (update_output_spec f hash i o Hf) as (f1 & -> & B1 & U1 & C1). cbn [let_some].
    destruct (IH f1 (w32 (i + 1)) true U1) as (found & g & E & B & U & F0 & F1 & F2 & F3). rewrite E.
    assert (found = true) as -> by (destruct found; [reflexivity | now destruct (F0 eq_refl)]). clear F0 F1 F2.
    assert (Bg : below f g) by now transitivity f1. exists true, g. do 2 (split; [assumption || reflexivity|]). split; [assumption|].
    split; [discriminate|]. split; [intros _; right; now rewrite (mentions_below f g _ Bg Em)|]. split; [reflexivity|].
    intros [|j] o' Ho Hm; (split; [reflexivity|]); intros Hfo.
    + injection Ho as <-. rewrite Hfo in C1. apply (contained_below f1 g _ B).
      replace (ser COutPointF (outpoint hash (w32 (i + Z.of_nat 0)))) with (ser COutPointF (outpoint hash i)); [assumption|].
      cbn [ser COutPointF outpoint Tx.n Tx.hash uint32F]. f_equal. unfold ser_writedata32, w32. f_equal. rewrite Z.mod_mod by lia. f_equal. lia.
    + cbn [nth_error] in Ho. rewrite <- w32_step. apply (F3 j o' Ho); [now apply (mentions_below f f1)|]. now rewrite (follows_shape f f1) by apply B1.
  - destruct (IH f (w32 (i + 1)) b Hf) as (found & g & E & B & U & F0 & F1 & F2 & F3). rewrite E. exists found, g.
    do 4 (split; [assumption || reflexivity|]). split; [|split; [assumption|]].
    + intros H. destruct (F1 H) as [|H']; [now left | right]. rewrite H'. apply orb_true_r.
    + intros [|j] o' Ho Hm; cbn [nth_error] in Ho; [injection Ho as <-; congruence|]. rewrite <- w32_step. now apply F3.
Qed.

(** An input spends an output in the filter, or pushes data that is in it. *)
Definition spends (f : CBloomFilter) (txin : CTxIn) : bool := contained f (ser COutPointF (prevout txin)) || mentions f (scriptSig txin).

Lemma inputs_loop_spec f vin : usable f -> inputs_loop f vin = Some (existsb (spends f) vin).
Proof.
  intros Hf. induction vin as [|i vin IH]; cbn [inputs_loop existsb]; [reflexivity|]. unfold contains_outpoint.
  rewrite contains_spec, scan_script_spec, IH by assumption. cbn [let_some]. unfold spends. now destruct (contained f _), (mentions f _).
Qed.

Section Block.
Context {sizes : Sizes} (buf : list Z).

(** The transaction has to do with something in the filter. *)
Definition touches (f : CBloomFilter) (tx : CTransaction) : bool :=
  contained f (ComputeHash buf tx) || existsb (fun o => mentions f (scriptPubKey o)) (vout tx) || existsb (spends f) (vin tx).

Lemma touches_below f g tx : below f g -> touches f tx = true -> touches g tx = true.
Proof.
  intros B. unfold touches. rewrite !orb_true_iff, !existsb_exists. intros [[H|(o & Ho & H)]|(i & Hi & H)].
  - left; left. now apply (contained_below f g).
  - left; right. exists o. split; [assumption | now apply (mentions_below f g)].
  - right. exists i. split; [assumption|]. unfold spends in *. apply orb_true_iff in H. apply orb_true_iff.
    destruct H; [left; now apply (contained_below f g) | right; now apply (mentions_below f g)].
Qed.

Lemma IsRelevantAndUpdate_spec f tx : usable f ->
  exists b g, IsRelevantAndUpdate buf f tx = Some (b, g) /\ below f g /\ usable g /\
  (touches f tx = true -> b = true) /\ (b = true -> touches g tx = true) /\
  forall j o, nth_error (vout tx) j = Some o -> mentions f (scriptPubKey o) = true -> follows f o = true ->
    contained g (ser COutPointF (outpoint (ComputeHash buf tx) (w32 (Z.of_nat j)))) = true.
Proof.
  intros Hf. unfold IsRelevantAndUpdate. destruct (isFull f) eqn:Ef.
  { assert (C : forall k, contained f k = true) by (intros k; unfold contained; now rewrite Ef).
    exists true, f. split; [reflexivity|]. split; [reflexivity|]. split; [assumption|]. split; [reflexivity|].
    split; [intros _; unfold touches; now rewrite C | intros; apply C]. }
  destruct (isEmpty f) eqn:Ee.
  { assert (C : forall k, contained f k = false) by (intros k; unfold contained; now rewrite Ef, Ee).
    assert (M : forall s, mentions f s = false).
    { intros s. unfold mentions. induction (map snd (fst (items s))) as [|d l IH]; [reflexivity|]. cbn [existsb]. now rewrite C, IH, andb_false_r. }
    exists false, f. split; [reflexivity|]. split; [reflexivity|]. split; [assumption|]. split; [|split; [discriminate | intros j o _ H; now rewrite M in H]].
    unfold touches. rewrite C. cbn [orb]. rewrite orb_true_iff, !existsb_exists. intros [(o & _ & H)|(i & _ & H)]; [now rewrite M in H|].
    unfold spends in H. now rewrite C, M in H. }
  rewrite contains_spec by assumption. cbn [let_some].
  destruct (outputs_loop_spec (ComputeHash buf tx) (vout tx) f 0 (contained f (ComputeHash buf tx)) Hf) as (found & g & E & B & U & F0 & F1 & F2 & F3).
  rewrite E. cbn [let_some]. destruct found.
  - exists true, g. do 3 (split; [assumption || reflexivity|]). split; [reflexivity|]. split.
    + intros _. unfold touches. destruct (F1 eq_refl) as [H| ->]; [now rewrite (contained_below f g _ B H) | now rewrite orb_true_r].
    + intros j o Ho Hm Hfo. now apply (F3 j o Ho Hm).
  - destruct (F0 eq_refl) as [-> Ec]. rewrite inputs_loop_spec by assumption. cbn [let_some]. exists (existsb (spends f) (vin tx)), f.
    split; [reflexivity|]. split; [reflexivity|]. split; [assumption|].
    assert (N : existsb (fun o => mentions f (scriptPubKey o)) (vout tx) = false).
    { destruct (existsb _ (vout tx)) eqn:Ex; [|reflexivity]. apply existsb_exists in Ex. destruct Ex as (o & Ho & H). apply In_nth_error in Ho. destruct Ho as (j & Ho).
      destruct (F3 j o Ho H) as [C _]. discriminate C. }
    unfold touches. rewrite Ec, N. cbn [orb]. split; [easy|]. split; [easy|]. intros j o Ho H. destruct (F3 j o Ho H) as [C _]. discriminate C.
Qed.

(** * Requests *)

(** What a peer and the node do with a filter. *)
Inductive request := Add (vKey : list Z) | Ask (tx : CTransaction).

Fixpoint serve (f : CBloomFilter) (rs : list request) : option CBloomFilter :=
  match rs with
  | [] => Some f
  | Add vKey :: rs => let+ f := insert f vKey in serve f rs
  | Ask tx :: rs => let+ (_, f) := IsRelevantAndUpdate buf f tx in serve f rs
  end.

Lemma serve_spec rs : forall f, usable f -> exists g, serve f rs = Some g /\ below f g /\ usable g /\
  forall k, In (Add k) rs -> contained g k = true.
Proof.
  induction rs as [|r rs IH]; intros f Hf; cbn [serve].
  { exists f. split; [reflexivity|]. split; [reflexivity|]. split; [assumption|]. intros k []. }
  assert (X : forall f1, usable f1 -> below f f1 -> (forall k, r = Add k -> contained f1 k = true) ->
    exists g, serve f1 rs = Some g /\ below f g /\ usable g /\ forall k, In (Add k) (r :: rs) -> contained g k = true).
  { intros f1 U1 B1 C1. destruct (IH f1 U1) as (g & E & B & U & C). exists g. split; [assumption|]. split; [now transitivity f1|]. split; [assumption|].
    intros k [H|H]; [now apply (contained_below f1 g k B), C1 | now apply C]. }
  destruct r as [k|tx].
  - destruct (insert_spec f k Hf) as (f1 & -> & B1 & U1 & C1 & _). cbn [let_some]. apply X; try assumption. intros k' H. now injection H as <-.
  - destruct (IsRelevantAndUpdate_spec f tx Hf) as (b & f1 & -> & B1 & U1 & _). cbn [let_some]. apply X; try assumption. discriminate.
Qed.

(** A transaction that is relevant pays to output [n]; one spends it. *)
Definition pays (f : CBloomFilter) (tx : CTransaction) (n : nat) : Prop :=
  exists o, nth_error (vout tx) n = Some o /\ mentions f (scriptPubKey o) = true /\ follows f o = true.
Definition redeems (tx : CTransaction) (txid : uint256) (n : nat) : Prop :=
  exists i, In i (vin tx) /\ Tx.hash (prevout i) = txid /\ Tx.n (prevout i) = w32 (Z.of_nat n).

Lemma redeems_touches f tx txid n : redeems tx txid n ->
  contained f (ser COutPointF (outpoint txid (w32 (Z.of_nat n)))) = true -> touches f tx = true.
Proof.
  intros (i & Hi & Eh & En) C. unfold touches. apply orb_true_iff. right. apply existsb_exists. exists i. split; [assumption|].
  unfold spends. apply orb_true_iff. left. rewrite <- C. cbn [ser COutPointF outpoint Tx.hash Tx.n]. now rewrite Eh, En.
Qed.

(** C40. A transaction is relevant when it has to do with something in the filter, and only when it
    has to do with something in the filter as it is updated. An output that matches and that the
    flags of the filter follow is added to it: after any further requests, a transaction that
    spends the output is relevant. *)
Theorem relevant_transactions f tx n tx2 rs : usable f ->
  exists b g h, IsRelevantAndUpdate buf f tx = Some (b, g) /\ serve g rs = Some h /\
  (touches f tx = true -> b = true) /\ (b = true -> touches g tx = true) /\
  (pays f tx n -> redeems tx2 (ComputeHash buf tx) n -> b = true /\ exists h', IsRelevantAndUpdate buf h tx2 = Some (true, h')).
Proof.
  intros Hf. destruct (IsRelevantAndUpdate_spec f tx Hf) as (b & g & E & B & U & T & T' & C).
  destruct (serve_spec rs g U) as (h & E' & B' & U' & _). exists b, g, h. do 4 (split; [assumption|]).
  intros (o & Ho & Hm & Hfo) H2. split.
  - apply T. unfold touches. apply orb_true_iff. left. apply orb_true_iff. right. apply existsb_exists. exists o. split; [now apply nth_error_In in Ho | assumption].
  - destruct (IsRelevantAndUpdate_spec h tx2 U') as (b2 & h' & E2 & _ & _ & T2 & _). exists h'. rewrite E2.
    rewrite T2; [reflexivity|]. apply (redeems_touches h tx2 (ComputeHash buf tx) n H2). apply (contained_below g h _ B'). now apply (C n o).
Qed.

(** * Filters on the wire *)

(** A filter as the reader leaves it. *)
Definition filter_ok (f : CBloomFilter) : Prop :=
  chars (vData f) /\ word 32 (nHashFuncs f) /\ word 32 (nTweak f) /\ word 8 (nFlags f) /\ isFull f = true /\ isEmpty f = false.

#[export] Instance Sound_CBloomFilter : Sound CBloomFilterF filter_ok.
Proof.
  intros S R L s a rest Hs Ha Hc. unfold filter_ok in Ha. cbn [ser unser CBloomFilterF] in *. rewrite <- ?app_assoc in Hc.
  destruct Ha as (A1 & A2 & A3 & A4 & A5 & A6). repeat step. finish_record.
Qed.

Lemma usable_updated f : usable (UpdateEmptyFull f).
Proof. unfold usable. cbn. destruct (vData f); [now left | right; right; discriminate]. Qed.

(** The constructor computes no hash functions for an empty vector. *)
Lemma usable_constructed nBits nFuncs nTweakIn nFlagsIn : 0 <= nBits -> nFuncs 0 = 0 -> usable (CBloomFilter_of nBits nFuncs nTweakIn nFlagsIn).
Proof.
  intros Hb H0. unfold usable, CBloomFilter_of. cbn [isFull nHashFuncs vData]. set (size := Z.min nBits (MAX_BLOOM_FILTER_SIZE * 8) / 8).
  assert (Hs : 0 <= size) by (apply Z.div_pos; unfold MAX_BLOOM_FILTER_SIZE; lia). destruct (Z.eq_dec size 0) as [->|N]; [rewrite H0; right; left; lia|].
  right; right. destruct (Z.to_nat size) eqn:E; [lia | discriminate].
Qed.

Lemma bit_byte f i b : 0 <= i < Z.of_nat (length (vData f)) * 8 -> forallb (fun x => x =? b) (vData f) = true -> bit f i = Z.testbit b (i mod 8).
Proof.
  intros Hi H. unfold bit. rewrite shiftr_3, land_7. rewrite forallb_forall in H. f_equal. apply Z.eqb_eq, H, nth_In.
  pose proof (Z.div_lt_upper_bound i 8 (Z.of_nat (length (vData f))) ltac:(lia) ltac:(lia)). pose proof (Z.div_pos i 8 ltac:(lia) ltac:(lia)). lia.
Qed.

(** The flags only save work. *)
Lemma contained_updated f k : vData f <> [] -> 0 < nHashFuncs f ->
  contained (UpdateEmptyFull f) k = forallb (bit f) (indexes f k).
Proof.
  intros Hd Hn. unfold contained. cbn [UpdateEmptyFull set_empty_full isFull isEmpty].
  change (indexes (UpdateEmptyFull f) k) with (indexes f k).
  assert (R : forall i, In i (indexes f k) -> 0 <= i < Z.of_nat (length (vData f)) * 8).
  { intros i Hi. unfold indexes in Hi. apply in_map_iff in Hi. destruct Hi as (j & <- & _). now apply index_range. }
  destruct (forallb (fun b => b =? 0xff) (vData f)) eqn:Ef; cbn [orb].
  { symmetry. apply forallb_forall. intros i Hi. rewrite (bit_byte f i 0xff (R i Hi) Ef). pose proof (Z.mod_pos_bound i 8 ltac:(lia)).
    change 0xff with (Z.ones 8). apply Z.ones_spec_low. lia. }
  destruct (forallb (fun b => b =? 0) (vData f)) eqn:Ee; cbn [negb andb]; [|reflexivity].
  unfold indexes. destruct (Z.to_nat (nHashFuncs f)) as [|n] eqn:En; [lia|]. cbn [seq map forallb].
  pose proof (index_range f k 0 Hd) as R0. rewrite (bit_byte f _ 0 R0 Ee). now rewrite Z.bits_0.
Qed.

(** C33. A filter that a peer sends is read as it was written; whatever the bytes of a filter are,
    after [UpdateEmptyFull] no request makes it divide by zero or leave its vector. It contains
    exactly the keys all of whose bits are set, and what it contains or is added to it stays in
    it: there are no false negatives. *)
Theorem no_false_negatives {S} {R : Reader S} {L : ReaderLaws S} (s : S) f rest rs k :
  ready s -> filter_ok f -> content s = ser CBloomFilterF f ++ rest ->
  (forall f, serve (UpdateEmptyFull f) rs <> None) /\
  exists s' g, unser CBloomFilterF s = Ok (f, s') /\ content s' = rest /\ serve (UpdateEmptyFull f) rs = Some g /\
  (vData f <> [] -> 0 < nHashFuncs f -> contains (UpdateEmptyFull f) k = Some (forallb (bit f) (indexes f k))) /\
  (contains (UpdateEmptyFull f) k = Some true \/ In (Add k) rs -> contains g k = Some true).
Proof.
  intros Hs Hf Hc. split.
  { intros f0. now destruct (serve_spec rs (UpdateEmptyFull f0) (usable_updated f0)) as (g & -> & _). }
  destruct (Sound_CBloomFilter S R L s f rest Hs Hf Hc) as (s' & E & _ & Hrest).
  pose proof (usable_updated f) as U. destruct (serve_spec rs _ U) as (g & Eg & B & Ug & C). exists s', g.
  rewrite !contains_spec by assumption. do 3 (split; [assumption|]). split; [intros; now rewrite contained_updated|].
  intros [H|H]; f_equal; [apply (contained_below _ g k B); congruence | now apply C].
Qed.

(** * Blocks through a filter *)

(** What the loop over the transactions from number [i] chooses. *)
Record chosen (f g : CBloomFilter) (txs : list CTransaction) (fs : list bool) : Prop := {
  chosen_length : length fs = length txs;
  chosen_all : forall j tx, nth_error txs j = Some tx -> touches f tx = true -> nth_error fs j = Some true;
  chosen_only : forall j tx, nth_error txs j = Some tx -> nth_error fs j = Some true -> touches g tx = true;
  chosen_spends : forall j1 j2 tx1 tx2 n, (j1 < j2)%nat -> nth_error txs j1 = Some tx1 -> nth_error txs j2 = Some tx2 ->
    pays f tx1 n -> redeems tx2 (ComputeHash buf tx1) n -> nth_error fs j2 = Some true
}.

Definition numbered (i : Z) (hashes : list uint256) : list (Z * uint256) :=
  combine (map (fun j => w32 (i + Z.of_nat j)) (seq 0 (length hashes))) hashes.

Lemma numbered_cons i h l : 0 <= i < 2 ^ 32 -> numbered i (h :: l) = (i, h) :: numbered (w32 (i + 1)) l.
Proof.
  intros Hi. unfold numbered. cbn [length seq map combine]. f_equal; [f_equal; unfold w32; rewrite Z.mod_small; lia|].
  f_equal. rewrite <- seq_shift, map_map. apply map_ext. intros j. now rewrite w32_step.
Qed.

Lemma pays_below f g tx n : below f g -> pays f tx n -> pays g tx n.
Proof.
  intros B (o & Ho & Hm & Hf). exists o. split; [assumption|]. split; [now apply (mentions_below f g) | now rewrite (follows_shape f g) by apply B].
Qed.

Lemma match_loop_spec txs : forall f i M T Hs, usable f -> 0 <= i < 2 ^ 32 ->
  exists fs g, match_loop buf f i txs M T Hs =
    Some (M ++ fs, T ++ picked (numbered i (map (ComputeHash buf) txs)) fs, Hs ++ map (ComputeHash buf) txs, g) /\
  below f g /\ usable g /\ chosen f g txs fs.
Proof.
  induction txs as [|tx txs IH]; intros f i M T Hs Hf Hi; cbn [match_loop map].
  { exists [], f. unfold numbered, picked. cbn. rewrite !app_nil_r. split; [reflexivity|]. split; [reflexivity|]. split; [assumption|].
    split; [reflexivity | intros [|j]; discriminate .. |]. intros j1 [|j2]; discriminate. }
  destruct (IsRelevantAndUpdate_spec f tx Hf) as (b & f1 & -> & B1 & U1 & T1 & T1' & C1). cbn [let_some].
  destruct (IH f1 (w32 (i + 1)) (M ++ [b]) (if b then T ++ [(i, ComputeHash buf tx)] else T) (Hs ++ [ComputeHash buf tx]) U1)
    as (fs & g & -> & B & U & [Hl Ha Ho Hp]); [unfold w32; apply Z.mod_pos_bound; lia|].
  exists (b :: fs), g. rewrite numbered_cons by assumption. split.
  { assert (E : forall P, (if b then T ++ [(i, ComputeHash buf tx)] else T) ++ picked P fs = T ++ picked ((i, ComputeHash buf tx) :: P) (b :: fs)).
    { intros P. unfold picked. cbn [combine filter snd]. destruct b; cbn [map fst]; now rewrite <- ?app_assoc. }
    now rewrite E, <- !app_assoc. }
  split; [now transitivity f1|]. split; [assumption|]. split.
  - cbn [length]. now rewrite Hl.
  - intros [|j] tx' E Ht; cbn [nth_error] in *; [injection E as <-; now rewrite T1 | apply (Ha j tx' E); apply (touches_below f f1 tx' B1 Ht)].
  - intros [|j] tx' E Ht; cbn [nth_error] in *; [|now apply (Ho j)]. injection E as <-. injection Ht as ->. apply (touches_below f1 g tx B). now apply T1'.
  - intros [|j1] [|j2] tx1 tx2 n Hj E1 E2 P Rd; try lia; cbn [nth_error] in *.
    + injection E1 as <-. apply (Ha j2 tx2 E2). apply (redeems_touches f1 tx2 _ n Rd). destruct P as (o & Ho' & Hm & Hfo). now apply (C1 n o).
    + apply (Hp j1 j2 tx1 tx2 n); try assumption; [lia|]. now apply (pays_below f f1).
Qed.

Context {SL : SizesLaws} (Hbuf : length buf = 64%nat).

Lemma GetBlockHeader_ok b : CBlockHeader_ok (header b) -> CBlockHeader_ok (GetBlockHeader b).
Proof.
  intros (H1 & H2 & H3 & H4 & H5 & H6 & H7 & H8). unfold CBlockHeader_ok, GetBlockHeader.
  cbn [h_nVersion hashPrevBlock hashMerkleRoot nTime nBits nNonce nAccumulatorCheckpoint hashFinalSaplingRoot].
  do 6 (split; [assumption|]). split; [destruct (_ && _) | destruct (_ >=? 8)]; assumption || reflexivity.
Qed.

(** C28. A block is sent through a filter: [CMerkleBlock] chooses all transactions that have to do
    with something in the filter, or that spend an output of an earlier transaction of the block
    that the filter follows, and no transaction that has nothing to do with the updated filter.
    Who reads it gets the header of the block, and [ExtractMatches] gives the root of the Merkle
    tree of the transactions of the block and the hashes of the chosen ones. *)
Theorem merkle_block {S} {R : Reader S} {L : ReaderLaws S} block f (s : S) rest :
  usable f -> CBlockHeader_ok (header block) -> Forall hashable (vtx block) -> vtx block <> [] -> Z.of_nat (length (vtx block)) <= 33333 ->
  exists mb g fs, CMerkleBlock_of buf block f = Some (mb, g) /\ chosen f g (vtx block) fs /\
  mb_header mb = GetBlockHeader block /\
  vMatchedTxn mb = picked (combine (map Z.of_nat (seq 0 (length (vtx block)))) (map (ComputeHash buf) (vtx block))) fs /\
  (ready s -> content s = ser CMerkleBlockF mb ++ rest -> exists mb' s', unser CMerkleBlockF s = Ok (mb', s') /\ content s' = rest /\
    mb_header mb' = GetBlockHeader block /\
    ExtractMatches (combine_Hash buf) (txn mb') =
      Some (MerkleSpec.root null256 node_hash (map (ComputeHash buf) (vtx block)), picked (map (ComputeHash buf) (vtx block)) fs)).
Proof.
  intros Hf Hh Ht Hne HN. destruct (match_loop_spec (vtx block) f 0 [] [] [] Hf ltac:(lia)) as (fs & g & E & B & U & C).
  unfold CMerkleBlock_of. rewrite E. cbn [let_some app].
  destruct (partial_merkle_tree (L := L) buf Hbuf (map (ComputeHash buf) (vtx block)) fs) as (t & Et & _ & Hread).
  - now apply txids_hash.
  - rewrite length_map. apply (chosen_length _ _ _ _ C).
  - rewrite length_map. destruct (vtx block); [contradiction | cbn; lia].
  - rewrite length_map. exact HN.
  - rewrite Et. cbn [let_some]. exists {| mb_header := GetBlockHeader block; txn := t; vMatchedTxn := picked (numbered 0 (map (ComputeHash buf) (vtx block))) fs |}, g, fs.
    split; [reflexivity|]. split; [assumption|]. split; [reflexivity|]. split.
    + cbn [vMatchedTxn]. f_equal. unfold numbered. rewrite length_map. f_equal. apply map_ext_in. intros j Hj. apply in_seq in Hj.
      unfold w32. now rewrite Z.mod_small by lia.
    + intros Hs Hc. cbn [ser CMerkleBlockF mb_header txn] in Hc. rewrite <- app_assoc in Hc.
      destruct (Sound_CBlockHeader S R L s (GetBlockHeader block) _ Hs (GetBlockHeader_ok block Hh) Hc) as (s1 & E1 & Hs1 & Hc1).
      destruct (Hread s1 rest Hs1 Hc1) as (t' & s2 & E2 & Hc2 & Em). exists {| mb_header := GetBlockHeader block; txn := t'; vMatchedTxn := [] |}, s2.
      cbn [unser CMerkleBlockF]. rewrite E1. cbn [Streams.bind]. rewrite E2. now repeat split.
Qed.
End Block.

End BloomLaws.

Module RollingLaws.
Import Bloom Bloom.Rolling.

(** * Cells *)

Lemma land_0xF x : x &: 0xF = x mod 16.
Proof. apply (Z.land_ones x 4). lia. Qed.

Lemma ones_2 i : 0 <= i -> Z.testbit 3 i = (i <? 2).
Proof.
  intros H. change 3 with (Z.ones 2). destruct (Z.ltb_spec i 2); [now apply Z.ones_spec_low | now apply Z.ones_spec_high].
Qed.

Lemma small_bit v i : 0 <= v < 4 -> 2 <= i -> Z.testbit v i = false.
Proof. intros Hv Hi. apply (word_testbit_high 2); [lia | exact Hv | assumption]. Qed.

(** Bit [i] of [v] that is moved to position [a]. *)
Lemma moved_bit v a i : 0 <= v < 4 -> 0 <= a < 16 -> 0 <= i < 32 -> Z.testbit (w32 (Z.shiftl v (2 * a))) i = (2 * a <=? i) && Z.testbit v (i - 2 * a).
Proof.
  intros Hv Ha Hi. unfold w32. rewrite testbit_mod, Z.shiftl_spec by lia. destruct (Z.ltb_spec i 32); [|lia]. cbn [andb].
  destruct (Z.leb_spec (2 * a) i); cbn [andb]; [reflexivity|]. apply Z.testbit_neg_r. lia.
Qed.

Lemma cell_bits x v a b : 0 <= v < 4 -> 0 <= a < 16 -> 0 <= b < 16 ->
  Z.shiftr ((x &: w32 (Z.lnot (w32 (Z.shiftl 3 (2 * a))))) |: w32 (Z.shiftl v (2 * a))) (2 * b) &: 3 =
  if a =? b then v else Z.shiftr x (2 * b) &: 3.
Proof.
  intros Hv Ha Hb. apply Z.bits_inj'. intros i Hi.
  destruct (Z.ltb_spec i 2) as [H2|H2].
  - rewrite Z.land_spec, Z.shiftr_spec, ones_2 by lia. destruct (Z.ltb_spec i 2); [|lia]. rewrite andb_true_r, Z.lor_spec, Z.land_spec.
    rewrite moved_bit by lia. unfold w32 at 1. rewrite testbit_mod, Z.lnot_spec, moved_bit by lia.
    destruct (Z.ltb_spec (i + 2 * b) 32); [|lia]. cbn [andb]. destruct (Z.eqb_spec a b) as [->|N].
    + replace (i + 2 * b - 2 * b) with i by lia. destruct (Z.leb_spec (2 * b) (i + 2 * b)); [|lia]. cbn [andb].
      rewrite ones_2 by lia. destruct (Z.ltb_spec i 2); [|lia]. cbn [negb]. now rewrite andb_false_r.
    + rewrite Z.land_spec, Z.shiftr_spec, (ones_2 i) by lia. destruct (Z.ltb_spec i 2); [|lia]. rewrite andb_true_r.
      destruct (Z.leb_spec (2 * a) (i + 2 * b)); cbn [andb negb]; [|now rewrite andb_true_r, orb_false_r].
      rewrite ones_2, (small_bit v) by lia. destruct (Z.ltb_spec (i + 2 * b - 2 * a) 2); [lia|]. cbn [negb]. now rewrite andb_true_r, orb_false_r.
  - rewrite Z.land_spec, ones_2 by lia. destruct (Z.ltb_spec i 2); [lia|]. rewrite andb_false_r.
    destruct (a =? b); [now rewrite small_bit by lia|]. rewrite Z.land_spec, ones_2 by lia. destruct (Z.ltb_spec i 2); [lia|]. now rewrite andb_false_r.
Qed.

Definition in_range (f : CRollingBloomFilter) (p : Z) : Prop := 0 <= p < Z.of_nat (length (data f)) * 16.

Lemma cell_in_range f p : in_range f p -> cell f p = Z.to_nat (p / 16) /\ (cell f p < length (data f))%nat.
Proof.
  intros H. unfold in_range in H. unfold cell. rewrite Z.shiftr_div_pow2 by lia. change (2 ^ 4) with 16.
  pose proof (Z.div_pos p 16 ltac:(lia) ltac:(lia)). pose proof (Z.div_lt_upper_bound p 16 (Z.of_nat (length (data f))) ltac:(lia) ltac:(lia)).
  rewrite Z.mod_small by lia. split; [reflexivity | lia].
Qed.

Lemma get_put f p v q : in_range f p -> in_range f q -> 0 <= v < 4 -> get (put f p v) q = if p =? q then v else get f q.
Proof.
  intros Hp Hq Hv. assert (Hq' : in_range (put f p v) q) by (unfold in_range; cbn [put set_cells data]; rewrite length_upd; exact Hq).
  unfold get. destruct (cell_in_range f p Hp) as [Cp Lp], (cell_in_range f q Hq) as [Cq Lq], (cell_in_range _ q Hq') as [Cq' _].
  rewrite Cq', Cq. cbn [put set_cells data]. rewrite Cp in *. rewrite Cq in Lq. unfold shift. rewrite !land_0xF.
  unfold in_range in Hp, Hq. pose proof (Z.div_mod p 16 ltac:(lia)). pose proof (Z.div_mod q 16 ltac:(lia)).
  pose proof (Z.mod_pos_bound p 16 ltac:(lia)). pose proof (Z.mod_pos_bound q 16 ltac:(lia)).
  pose proof (Z.div_pos p 16 ltac:(lia) ltac:(lia)). pose proof (Z.div_pos q 16 ltac:(lia) ltac:(lia)).
  destruct (Z.eq_dec (p / 16) (q / 16)) as [E|N].
  - rewrite <- E, nth_upd_eq by lia. rewrite cell_bits by lia. destruct (Z.eqb_spec (p mod 16) (q mod 16)), (Z.eqb_spec p q); lia || reflexivity.
  - rewrite nth_upd_ne by lia. destruct (Z.eqb_spec p q); [congruence | reflexivity].
Qed.

(** The members that storing leaves alone. *)
Definition same_form (f g : CRollingBloomFilter) : Prop :=
  length (data g) = length (data f) /\ nTweak g = nTweak f /\ nHashFuncs g = nHashFuncs f /\
  nEntriesPerGeneration g = nEntriesPerGeneration f.
Definition stored (f g : CRollingBloomFilter) : Prop :=
  same_form f g /\ nEntriesThisGeneration g = nEntriesThisGeneration f /\ nGeneration g = nGeneration f.

#[export] Instance stored_preorder : PreOrder stored.
Proof.
  split; [intros f; now repeat split|]. intros f g h [(? & ? & ? & ?) [? ?]] [(? & ? & ? & ?) [? ?]]. repeat split; congruence.
Qed.

Lemma stored_put f p v : stored f (put f p v).
Proof. repeat split. apply length_upd. Qed.

Lemma in_range_form f g p : same_form f g -> in_range f p -> in_range g p.
Proof. intros (L & _). unfold in_range. now rewrite L. Qed.

Lemma wipe_spec f : 1 <= nGeneration f <= 3 ->
  stored f (wipe f) /\ forall q, in_range f q -> get (wipe f) q = if get f q =? nGeneration f then 0 else get f q.
Proof.
  intros Hg. unfold wipe.
  assert (X : forall n : nat, (n <= length (data f) * 16)%nat ->
    let f' := fold_left (fun f p => if get f (Z.of_nat p) =? nGeneration f then put f (Z.of_nat p) 0 else f) (seq 0 n) f in
    stored f f' /\ forall q, in_range f q -> get f' q = if (q <? Z.of_nat n) && (get f q =? nGeneration f) then 0 else get f q).
  { intros n. induction n as [|n IH]; intros Hn; cbn zeta.
    { split; [reflexivity|]. intros q Hq. unfold in_range in Hq. cbn. destruct (q <? 0) eqn:E0; [apply Z.ltb_lt in E0; lia | reflexivity]. }
    rewrite seq_S, fold_left_app. cbn [fold_left Nat.add]. destruct (IH ltac:(lia)) as [S1 G1]. set (f1 := fold_left _ (seq 0 n) f) in *.
    assert (Rn : in_range f (Z.of_nat n)) by (unfold in_range; lia). rewrite (G1 _ Rn), Z.ltb_irrefl. cbn [andb].
    assert (Eg : nGeneration f1 = nGeneration f) by apply S1. rewrite Eg. destruct (Z.eqb_spec (get f (Z.of_nat n)) (nGeneration f)) as [E|N].
    - split; [transitivity f1; [assumption | apply stored_put]|]. intros q Hq.
      rewrite get_put by first [lia | apply (in_range_form f); [apply S1 | assumption]]. rewrite G1 by assumption.
      destruct (Z.eqb_spec (Z.of_nat n) q) as [<-|Nq].
      + destruct (Z.ltb_spec (Z.of_nat n) (Z.of_nat (S n))), (Z.eqb_spec (get f (Z.of_nat n)) (nGeneration f)); lia || reflexivity.
      + destruct (Z.ltb_spec q (Z.of_nat n)), (Z.ltb_spec q (Z.of_nat (S n))); lia || reflexivity.
    - split; [assumption|]. intros q Hq. rewrite G1 by assumption. destruct (Z.eq_dec q (Z.of_nat n)) as [->|Nq].
      + destruct (Z.eqb_spec (get f (Z.of_nat n)) (nGeneration f)); [contradiction|]. now rewrite !andb_false_r.
      + destruct (Z.ltb_spec q (Z.of_nat n)), (Z.ltb_spec q (Z.of_nat (S n))); lia || reflexivity. }
  destruct (X (length (data f) * 16)%nat ltac:(lia)) as [S1 G1]. split; [exact S1|]. intros q Hq. rewrite G1 by assumption.
  unfold in_range in Hq. destruct (Z.ltb_spec q (Z.of_nat (length (data f) * 16))); [reflexivity | lia].
Qed.

(** * Keys *)

Definition place (f : CRollingBloomFilter) (vKey : list Z) (j : nat) : Z :=
  w32 (MurmurHash3 (w32 (Z.of_nat j * 0xFBA4C795 + nTweak f)) vKey mod (Z.of_nat (length (data f)) * 16)).
Definition places (f : CRollingBloomFilter) (vKey : list Z) : list Z := map (place f vKey) (seq 0 (Z.to_nat (nHashFuncs f))).

Lemma place_range f k j : data f <> [] -> in_range f (place f k j).
Proof.
  intros H. assert (0 < Z.of_nat (length (data f))) by (destruct (data f); [contradiction | cbn [length]; lia]).
  unfold in_range, place, w32. set (x := MurmurHash3 _ _). pose proof (Z.mod_pos_bound x (Z.of_nat (length (data f)) * 16) ltac:(lia)) as B.
  set (y := x mod _) in *. pose proof (Z.mod_pos_bound y (2 ^ 32) ltac:(lia)). pose proof (Z.mod_le y (2 ^ 32) ltac:(lia) ltac:(lia)). lia.
Qed.

Lemma Hash_place f k j : data f <> [] -> rolling_Hash f (Z.of_nat j) k = Some (place f k j).
Proof.
  intros H. unfold rolling_Hash, place. destruct (data f) as [|x l] eqn:E; [contradiction|].
  destruct (Z.eqb_spec (Z.of_nat (length (x :: l))) 0); [cbn [length] in *; lia | reflexivity].
Qed.

Lemma places_form f g k : same_form f g -> places g k = places f k.
Proof. intros (L & T & N & _). unfold places, place. now rewrite L, T, N. Qed.

Lemma data_form f g : same_form f g -> data f <> [] -> data g <> [].
Proof. intros (L & _) H C. rewrite C in L. now destruct (data f). Qed.

Lemma put_loop_spec k n' : forall a f, data f <> [] -> 1 <= nGeneration f <= 3 ->
  exists g, rolling_insert_loop n' (Z.of_nat a) f k = Some g /\ stored f g /\
  forall q, in_range f q -> get g q = if existsb (Z.eqb q) (map (place f k) (seq a n')) then nGeneration f else get f q.
Proof.
  induction n' as [|n' IH]; intros a f Hd Hg; cbn [rolling_insert_loop seq map existsb].
  { exists f. split; [reflexivity|]. split; [reflexivity|]. reflexivity. }
  rewrite Hash_place by assumption. cbn [let_some]. pose proof (stored_put f (place f k a) (nGeneration f)) as S1.
  set (f1 := put f (place f k a) (nGeneration f)) in *. assert (Eg : nGeneration f1 = nGeneration f) by apply S1.
  destruct (IH (S a) f1) as (g & E & S2 & G); [apply (data_form f f1); [apply S1 | exact Hd] | lia |].
  replace (Z.of_nat (S a)) with (Z.of_nat a + 1) in E by lia. exists g. split; [exact E|]. split; [now transitivity f1|].
  intros q Hq. rewrite G by (apply (in_range_form f); [apply S1 | assumption]). rewrite Eg. assert (G1 : get f1 q = if place f k a =? q then nGeneration f else get f q).
  { unfold f1. apply get_put; [now apply place_range | assumption | lia]. }
  rewrite G1.
  assert (Em : map (place f1 k) (seq (S a) n') = map (place f k) (seq (S a) n')).
  { apply map_ext. intros j. unfold place. destruct S1 as ((L & T & _) & _). now rewrite L, T. }
  rewrite Em, (Z.eqb_sym q). now destruct (existsb _ (map _ (seq (S a) n'))), (place f k a =? q).
Qed.

Lemma contains_places f k : data f <> [] -> rolling_contains f k = Some (forallb (fun p => negb (get f p =? 0)) (places f k)).
Proof.
  intros Hd. unfold rolling_contains, places. change 0 with (Z.of_nat 0) at 1. generalize (Z.to_nat (nHashFuncs f)) as m. generalize 0%nat as a.
  intros a m; revert a. induction m as [|m IH]; intros a; cbn [rolling_contains_loop seq map forallb]; [reflexivity|].
  rewrite Hash_place by assumption. cbn [let_some]. destruct (get f (place f k a) =? 0); cbn [negb andb]; [reflexivity|].
  replace (Z.of_nat a + 1) with (Z.of_nat (S a)) by lia. apply IH.
Qed.

(** * Generations *)

(** The entry of [p] was stored at most [a] generations ago; the entries of a key. *)
Definition fresh (f : CRollingBloomFilter) (a : Z) (p : Z) : Prop := 1 <= get f p <= 3 /\ (nGeneration f - get f p) mod 3 <= a.
Definition holds (f : CRollingBloomFilter) (a : Z) (k : list Z) : Prop := Forall (fresh f a) (places f k).

(** [keys]: what was inserted since the filter was reset, the last one first. *)
Record window (E : Z) (f : CRollingBloomFilter) (keys : list (list Z)) : Prop := {
  window_data : data f <> [];
  window_size : nEntriesPerGeneration f = E;
  window_positive : 1 <= E;
  window_funcs : 1 <= nHashFuncs f;
  window_generation : 1 <= nGeneration f <= 3;
  window_entries : 0 <= nEntriesThisGeneration f <= E;
  window_keys : forall a i k, 0 <= a <= 2 -> nth_error keys i = Some k -> Z.of_nat i < nEntriesThisGeneration f + a * E -> holds f a k
}.

Lemma holds_same f g a k : same_form f g -> nGeneration g = nGeneration f -> (forall p, In p (places f k) -> get g p = get f p) ->
  holds f a k -> holds g a k.
Proof.
  intros Hf Hg Hp H. unfold holds in *. rewrite (places_form f g k Hf). rewrite Forall_forall in *. intros p Hi. unfold fresh. rewrite Hg, Hp by assumption. now apply H.
Qed.

Lemma places_range f k p : data f <> [] -> In p (places f k) -> in_range f p.
Proof. intros Hd H. unfold places in H. apply in_map_iff in H. destruct H as (j & <- & _). now apply place_range. Qed.

Lemma next_generation_window E f keys : window E f keys ->
  window E (next_generation f) keys /\ nEntriesThisGeneration (next_generation f) < E.
Proof.
  intros W. pose proof W as [Hd Hs HE Hn Hg Hc Hk]. unfold next_generation. rewrite Hs. destruct (Z.eqb_spec (nEntriesThisGeneration f) E) as [Ec|Nc]; [|split; [assumption | lia]].
  set (g' := if nGeneration f + 1 =? 4 then 1 else nGeneration f + 1). set (f0 := set_entries f 0 g').
  assert (Hg' : 1 <= g' <= 3) by (unfold g'; destruct (Z.eqb_spec (nGeneration f + 1) 4); lia).
  destruct (wipe_spec f0 Hg') as [S G]. assert (F : same_form f (wipe f0)) by (destruct S as ((? & ? & ? & ?) & ? & ?); repeat split; assumption).
  assert (En : nGeneration (wipe f0) = g') by apply S. assert (Ee : nEntriesThisGeneration (wipe f0) = 0) by apply S.
  split; [|lia]. split; try lia.
  - now apply (data_form f).
  - destruct F as (_ & _ & _ & ->). assumption.
  - destruct F as (_ & _ & -> & _). assumption.
  - intros a i k Ha Hi Hlt. assert (Ha' : 1 <= a) by nia.
    assert (H : holds f (a - 1) k) by (apply (Hk (a - 1) i k); [lia | assumption | nia]).
    unfold holds in *. rewrite (places_form f _ k F). rewrite Forall_forall in *. intros p Hp. destruct (H p Hp) as [Hx Hy].
    pose proof (places_range f k p Hd Hp) as Rp. unfold fresh. rewrite En, (G p Rp). change (get f0 p) with (get f p). change (nGeneration f0) with g'.
    pose proof (Z.div_mod (nGeneration f - get f p) 3 ltac:(lia)). pose proof (Z.mod_pos_bound (nGeneration f - get f p) 3 ltac:(lia)).
    assert (Em : g' - get f p = nGeneration f - get f p + 1 \/ g' - get f p = nGeneration f - get f p + 1 - 3).
    { unfold g'. destruct (Z.eqb_spec (nGeneration f + 1) 4); lia. }
    assert (Em' : (g' - get f p) mod 3 = (nGeneration f - get f p + 1) mod 3).
    { destruct Em as [->| ->]; [reflexivity|]. rewrite <- (Z.mod_add (nGeneration f - get f p + 1 - 3) 1 3) by lia. f_equal. lia. }
    assert (Ea : (nGeneration f - get f p) mod 3 <= 1) by lia.
    destruct (Z.eqb_spec (get f p) g') as [Eq|N].
    + exfalso. rewrite Eq, Z.sub_diag in Em'. change (0 mod 3) with 0 in Em'. rewrite <- Zplus_mod_idemp_l in Em'. rewrite Z.mod_small in Em' by lia. lia.
    + split; [assumption|]. rewrite Em', <- Zplus_mod_idemp_l, Z.mod_small by lia. lia.
Qed.

Lemma insert_window E f keys k : window E f keys -> exists g, rolling_insert f k = Some g /\ window E g (k :: keys).
Proof.
  intros W. destruct (next_generation_window E f keys W) as [[Hd Hs HE Hn Hg Hc Hk] Hlt]. unfold rolling_insert. set (f1 := next_generation f) in *.
  set (f2 := set_entries f1 (nEntriesThisGeneration f1 + 1) (nGeneration f1)).
  destruct (put_loop_spec k (Z.to_nat (nHashFuncs f2)) 0 f2 Hd Hg) as (g & Eg & S & G). exists g. split; [exact Eg|].
  assert (F : same_form f1 g) by (destruct S as ((? & ? & ? & ?) & ? & ?); repeat split; assumption).
  assert (En : nGeneration g = nGeneration f1) by apply S. assert (Ee : nEntriesThisGeneration g = nEntriesThisGeneration f1 + 1) by apply S.
  split; try lia.
  - now apply (data_form f1).
  - destruct F as (_ & _ & _ & ->). assumption.
  - destruct F as (_ & _ & -> & _). assumption.
  - intros a i k' Ha Hi Hlt'. unfold holds. rewrite (places_form f1 g k' F), Forall_forall. intros p Hp.
    pose proof (places_range f1 k' p Hd Hp) as Rp. unfold fresh. rewrite En, (G p Rp). change (nGeneration f2) with (nGeneration f1).
    change (map (place f2 k) (seq 0 (Z.to_nat (nHashFuncs f2)))) with (places f1 k). change (get f2 p) with (get f1 p).
    destruct (existsb (Z.eqb p) (places f1 k)) eqn:Ex.
    + rewrite Z.sub_diag. change (0 mod 3) with 0. lia.
    + destruct i as [|i]; cbn [nth_error] in Hi.
      * injection Hi as <-. exfalso. rewrite <- not_true_iff_false in Ex. apply Ex, existsb_exists. exists p. split; [assumption | apply Z.eqb_refl].
      * assert (H : holds f1 a k') by (apply (Hk a i k' Ha Hi); lia). unfold holds in H. rewrite Forall_forall in H. now apply H.
Qed.

Fixpoint insert_all (f : CRollingBloomFilter) (keys : list (list Z)) : option CRollingBloomFilter :=
  match keys with [] => Some f | k :: keys => let+ f := rolling_insert f k in insert_all f keys end.

Lemma insert_all_window E keys : forall f before, window E f before -> exists g, insert_all f keys = Some g /\ window E g (rev keys ++ before).
Proof.
  induction keys as [|k keys IH]; intros f before W; cbn [insert_all rev app]; [now exists f|].
  destruct (insert_window E f before k W) as (f1 & -> & W1). cbn [let_some]. destruct (IH f1 (k :: before) W1) as (g & E1 & Wg).
  exists g. split; [assumption|]. now rewrite <- app_assoc.
Qed.

Lemma window_reset E f tweak : data f <> [] -> nEntriesPerGeneration f = E -> 1 <= E -> 1 <= nHashFuncs f -> window E (rolling_reset f tweak) [].
Proof.
  intros Hd Hs HE Hn. split; cbn; try lia; [now destruct (data f)|]. intros a [|i]; discriminate.
Qed.

Lemma insert_all_app a b f : insert_all f (a ++ b) = let+ f := insert_all f a in insert_all f b.
Proof. revert f; induction a as [|k a IH]; intros f; cbn [app insert_all let_some]; [reflexivity|]. destruct (rolling_insert f k); [apply IH | reflexivity]. Qed.

Lemma window_contains E f keys i k : window E f keys -> nth_error keys i = Some k -> Z.of_nat i < nEntriesThisGeneration f + 2 * E -> rolling_contains f k = Some true.
Proof.
  intros W Hi Hlt. rewrite contains_places by apply W. f_equal. apply forallb_forall. intros p Hp.
  pose proof (window_keys E f keys W 2 i k ltac:(lia) Hi Hlt) as H. unfold holds in H. rewrite Forall_forall in H. destruct (H p Hp) as [Hx _].
  destruct (Z.eqb_spec (get f p) 0); [lia | reflexivity].
Qed.

(** C34. A filter that is made for [nElements] items contains the last [nElements] items that were
    inserted, whatever was inserted before them, also after a [reset] with another tweak; no
    operation divides by zero or leaves the vector. *)
Theorem rolling_window nElements nFuncs nFilterBits tweak tweak' early before k after :
  1 <= nElements < 2 ^ 32 - 1 -> 1 <= nFilterBits < 2 ^ 32 - 15 -> Z.of_nat (length after) < nElements ->
  exists f g, insert_all (CRollingBloomFilter_of nElements nFuncs nFilterBits tweak) early = Some f /\
  insert_all (rolling_reset f tweak') (before ++ k :: after) = Some g /\ rolling_contains g k = Some true /\ rolling_contains (rolling_reset f tweak') k <> Some true.
Proof.
  intros HN HB Hl. set (f0 := CRollingBloomFilter_of nElements nFuncs nFilterBits tweak). set (E := w32 (nElements + 1) / 2).
  assert (HE : 1 <= E /\ nElements <= 2 * E).
  { unfold E, w32. rewrite Z.mod_small by lia. pose proof (Z.div_mod (nElements + 1) 2 ltac:(lia)). pose proof (Z.mod_pos_bound (nElements + 1) 2 ltac:(lia)). lia. }
  assert (W0 : window E f0 []).
  { unfold f0, CRollingBloomFilter_of. apply window_reset; cbn [data nEntriesPerGeneration nHashFuncs]; [| reflexivity | apply HE | lia].
    assert (1 <= w32 (nFilterBits + 15) / 16) by (unfold w32; rewrite Z.mod_small by lia; apply Z.div_le_lower_bound; lia).
    destruct (Z.to_nat _) eqn:En; [lia | discriminate]. }
  destruct (insert_all_window E early f0 [] W0) as (f & Ef & W). exists f.
  assert (Wr : window E (rolling_reset f tweak') []) by (apply window_reset; [apply W | apply W | apply HE | apply W]).
  destruct (insert_all_window E (before ++ [k]) _ _ Wr) as (g1 & E1 & W1).
  destruct (insert_all_window E after g1 _ W1) as (g & Eg & Wg). exists g. split; [assumption|].
  split; [change (before ++ k :: after) with (before ++ [k] ++ after); now rewrite app_assoc, insert_all_app, E1|].
  split.
  - apply (window_contains E g _ (length after) k Wg); [|pose proof (window_entries _ _ _ Wg); lia].
    rewrite rev_app_distr. cbn [rev app]. rewrite nth_error_app2, length_rev, Nat.sub_diag by (rewrite length_rev; lia). reflexivity.
  - rewrite contains_places by apply Wr. intros C. injection C as C. rewrite forallb_forall in C. pose proof (window_funcs _ _ _ Wr) as Hn.
    set (p := place (rolling_reset f tweak') k 0). assert (Hp : In p (places (rolling_reset f tweak') k)).
    { unfold places. destruct (Z.to_nat (nHashFuncs (rolling_reset f tweak'))) eqn:En; [lia|]. now left. }
    apply C in Hp. unfold get in Hp. cbn [rolling_reset data] in Hp. rewrite nth_repeat in Hp. now rewrite Z.shiftr_0_l in Hp.
Qed.

End RollingLaws.

(** * Examples *)

Module BloomExamples.
Import Bloom BloomLaws.

(** A filter of eight bytes that follows the outputs it matches, with the key [[5; 5]]. *)
Definition watching : CBloomFilter :=
  {| vData := [64; 0; 0; 0; 0; 0; 2; 16]; isFull := false; isEmpty := false; nHashFuncs := 3; nTweak := 7; nFlags := BLOOM_UPDATE_ALL |}.
Definition watching_sent : CBloomFilter :=
  {| vData := [64; 0; 0; 0; 0; 0; 2; 16]; isFull := true; isEmpty := false; nHashFuncs := 3; nTweak := 7; nFlags := BLOOM_UPDATE_ALL |}.

Lemma watching_usable : usable watching.
Proof. right; right. discriminate. Qed.

(** A transaction that pays to a script with the key, and one that spends its output. *)
Definition blank : list Z := repeat 0 64.
Definition paying : CTransaction :=
  {| nVersion := 1; nType := 0; vin := [null_in]; vout := [{| nValue := 1; scriptPubKey := [2; 5; 5]; nRounds := -10 |}];
     nLockTime := 0; sapData := None; extraPayload := None |}.
Definition spending : CTransaction :=
  {| nVersion := 1; nType := 0; vin := [{| prevout := outpoint (ComputeHash (sizes := lp64) blank paying) 0; scriptSig := []; nSequence := 0 |}];
     vout := []; nLockTime := 0; sapData := None; extraPayload := None |}.

Lemma relevant_transactions_witness : exists b g h,
  IsRelevantAndUpdate (sizes := lp64) blank watching paying = Some (b, g) /\ serve (sizes := lp64) blank g [Add [9]] = Some h /\
  b = true /\ exists h', IsRelevantAndUpdate (sizes := lp64) blank h spending = Some (true, h').
Proof.
  destruct (relevant_transactions (sizes := lp64) blank watching paying 0 spending [Add [9]] watching_usable) as (b & g & h & E & E' & _ & _ & H).
  exists b, g, h. split; [exact E|]. split; [exact E'|]. apply H.
  - eexists. split; [reflexivity|]. split; vm_compute; reflexivity.
  - eexists. split; [now left|]. split; reflexivity.
Defined.

Lemma no_false_negatives_witness :
  let s := CDataStream.Init (ser CBloomFilterF watching_sent ++ [7]) in
  (forall f, serve (sizes := lp64) blank (UpdateEmptyFull f) [Add [9]] <> None) /\
  exists s' g, unser CBloomFilterF s = Ok (watching_sent, s') /\ CDataStream.str s' = [7] /\
  serve (sizes := lp64) blank (UpdateEmptyFull watching_sent) [Add [9]] = Some g /\
  (vData watching_sent <> [] -> 0 < nHashFuncs watching_sent ->
   contains (UpdateEmptyFull watching_sent) [5; 5] = Some (forallb (bit watching_sent) (indexes watching_sent [5; 5]))) /\
  (contains (UpdateEmptyFull watching_sent) [5; 5] = Some true \/ In (Add [5; 5]) [Add [9]] -> contains g [5; 5] = Some true).
Proof.
  apply (no_false_negatives (sizes := lp64) blank (L := stream_laws) (CDataStream.Init (ser CBloomFilterF watching_sent ++ [7])) watching_sent [7] [Add [9]] [5; 5]).
  - apply valid_Init; [apply words_check; reflexivity | reflexivity].
  - split; [split; [apply words_check; reflexivity | discriminate]|]. repeat split; reflexivity || discriminate.
  - reflexivity.
Defined.

Lemma merkle_block_witness : exists mb g fs,
  CMerkleBlock_of (sizes := lp64) blank example_block watching = Some (mb, g) /\ chosen (sizes := lp64) blank watching g (vtx example_block) fs.
Proof.
  destruct (merkle_block (sizes := lp64) (SL := lp64_laws) blank eq_refl (L := stream_laws) example_block watching (CDataStream.Init []) [])
    as (mb & g & fs & E & C & _); [exact watching_usable | exact example_header_ok | | discriminate | cbn; lia | exists mb, g, fs; split; [exact E | exact C]].
  constructor; [|constructor]. split; [exact coinbase_ok | vm_compute; reflexivity].
Defined.

Lemma rolling_window_witness : exists f g,
  RollingLaws.insert_all (Rolling.CRollingBloomFilter_of 3 20 100 5) [[8]] = Some f /\
  RollingLaws.insert_all (Rolling.rolling_reset f 6) [[1]; [2]; [3]; [4]] = Some g /\ Rolling.rolling_contains g [2] = Some true /\
  Rolling.rolling_contains (Rolling.rolling_reset f 6) [2] <> Some true.
Proof. apply (RollingLaws.rolling_window 3 20 100 5 6 [[8]] [[1]] [2] [[3]; [4]]); cbn; lia. Defined.

End BloomExamples.
